(* ===== verification/_CoqProject ===== *)
-Q . S2P
Prelude.v
BytePool.v
IoBuffer.v
IoBufferPool.v
BufferCtx.v
Mqtt.v
MqttFacts.v
MqttCodec.v
MqttTotal.v
BytesConv.v
Args.v
HttpUri.v
HttpCookie.v
HttpHeader.v
HttpRequest.v
HttpCodec.v
HttpResponse.v
SList.v
SQueue.v
ShardPool.v
WorkerPool.v
Proxy.v
Headers.v
Streams.v
MqttStream.v
HttpBody.v
HttpStream.v
Limit.v
RuleFilter.v
FilterManager.v
Session.v
Cluster.v
Handler.v
HttpBufPool.v
Controller.v
Emitter.v
HeaderScan.v
HeaderRead.v
HttpRequestBody.v
HttpVariants.v
Tls.v
Config.v
Listener.v
Server.v
Wiring.v
Evio.v
EvioFacts.v
