(* ===== verification/Prelude.v ===== *)
(** * Strike, a layered TCP / HTTP / MQTT edge proxy, verified

    ** The program

    Strike (src/) accepts connections, reads bytes into recycled buffers,
    decodes them with the codec of the connection's protocol, and hands the
    decoded messages to a chain of filters that proxies them to a cluster of
    upstream hosts.  This library models the part of it that turns bytes into
    messages and back, bottom up, the part that carries a message from the client
    to the upstream host and its answer back, and the connections, filters and
    clusters around it:

    - src/pkg/buffer: the pool of byte slices by size class, the I/O buffer
      that grows through it, and the pool of reference-counted buffers;
    - src/pkg/protocol/mqtt/message: the fourteen MQTT 3.1.1 messages, and the
      decoder that is fed a growing buffer;
    - src/utils/bytesconv.go, src/utils/args.go: conversions of numbers,
      addresses and percent-encoded text, and the query arguments with their
      recycled slices;
    - src/pkg/protocol/http/v1: URIs, cookies, header lines, the request header
      with its deferred parse, the request and the decoder of requests, and the
      response with its body;
    - src/utils/container: the list with a lock and the unbounded queue built on
      it, a goroutine between a list and a channel;
    - src/pkg/sync: the pool of workers, and the pool of shards that keeps the
      events of a connection in order;
    - src/pkg/filter/network/proxy: the life of a proxied stream, whose steps are
      the events that the shards handle;
    - src/pkg/stream: the streams on both sides of the proxy, which turn a decoded
      message into a request of the proxy, and its answer into bytes;
    - src/pkg/filter/stream, src/utils/time/rate: the filters that limit and
      authenticate requests, and their limiters;
    - src/pkg/network: the filter chain of a connection and the session that reads,
      writes and closes it;
    - src/pkg/upstream/cluster: the clusters and their hosts;
    - src/pkg/server, src/pkg/network/listener.go: the listeners and the connections of
      the server, how they are started and stopped, and the server process;
    - src/pkg/config, src/pkg/bootstrap, src/pkg/api/v2: what is made of a configuration;
    - src/pkg/stls: which certificate answers a client, and connections that are looked
      at before TLS is spoken;
    - src/pkg/filter/network/controller: requests that act on a connection; the
      delegation filter hands a connection to an agent;
    - src/pkg/emitter: events for listeners by topic;
    - src/pkg/evio: the event loop over epoll, a server of its own that the examples use.

    The codecs read from the I/O buffer; the HTTP request holds a URI, query
    arguments and cookies, which are built on the byte conversions.  MqttStream.v
    and HttpStream.v put all of it together: bytes of a connection to bytes on it.
    A session runs a filter chain; the handler owns sessions and listens to them; the
    rule filters are filters of the proxy's and of the controller's streams; the
    controller finds the sessions that the MQTT streams store with their listener.

    ** The files

    - Prelude.v: bytes, machine integers with their wrap-around ([int32],
      [uint8], ...), results, the state monad [stM] in which the state survives
      a panic, the functions of Go's bytes package the code calls ([IndexByte],
      [Index], [LastIndex], ...), and the lemmas and automation all files share.
    - BytePool.v: [byteBufferPool], [take_bytes], [give_bytes] (take, give).
      The choice of sync.Pool is an oracle in the state; a recycled slice keeps
      its stale contents.
    - IoBuffer.v: [ioBuffer] and every operation on it (Read, ReadOnce,
      ReadFrom, Write, WriteTo, Append, Peek, Mark, Restore, Cut, Drain, ...).
      [view] is the abstract value of a buffer, its unread bytes.  A reader or
      writer is a script of the results it gives.
    - IoBufferPool.v: the heap of shared buffers and the pool of pointers
      (GetIoBuffer, PutIoBuffer, Clone).
    - BufferCtx.v: the structs of a stream, which live with its context ([Find],
      [Give]), and the pools they come from.
    - Mqtt.v: the class [BufferImpl] of what a decoder needs of a buffer and
      [BufferSpec] of what the buffer promises, with the I/O buffer as the
      instance; the fixed header; one module per message type.
    - MqttFacts.v: the wire format of every message, and the specifications of
      the readers and writers against it.
    - MqttCodec.v: the state machine [doDecode] with its marks, panics and
      recovery, and [Decode], which notifies the filter.
    - MqttTotal.v: the decoder on arbitrary bytes.
    - BytesConv.v: AppendUint, ParseUint, hexadecimal, IPv4, percent coding,
      HTML escaping.
    - Args.v: [Args] and the slices of pairs, with the pairs behind the length.
    - HttpUri.v: [URI], [normalizePath], [Parse], [FullURI], [UpdateBytes]; module
      [path_facts], normalization by segments.
    - HttpCookie.v: the scanner of cookies, the Cookie line of a request, and
      the Set-Cookie value (module [Cookie]); class [TimeFormat] is what is used
      of the time package's RFC 1123 layout.
    - HttpHeader.v: canonical names, header lines, raw headers.
    - HttpRequest.v: module [RequestHeader], all the methods of the struct.
    - HttpCodec.v: [Request], the body reader and the decoder of requests.
    - HttpResponse.v: the status lines with their cache, and module
      [ResponseHeader].
    - SList.v: module [slist], every method of the list; [refine.deque], the
      double-ended queue it implements.
    - SQueue.v: [Queue] with the program counters of its goroutine
      ([startAsyncLoop]) and of the calls in progress ([step_call]); module
      [spec], the abstract queue.
    - ShardPool.v: [event], [initEvent], [Source], [Shard], [Offer] and the
      workers ([eventDispatch]).
    - WorkerPool.v: [workerPool], its workers and calls, each with a program
      counter.
    - Proxy.v: [downStream], [upstreamRequest] and the filters; [step] is one call
      from a stream layer, a timer or a pool, or one job of a shard.
    - Headers.v: the header map and its keys, numbers in it.
    - Streams.v: the listeners of a stream, the registered pools, the MQ client's
      stream; class [StreamSender], what the proxy needs of a server's stream;
      [drive] and [serve], the proxy and the two streams around it.
    - MqttStream.v: the messages as header maps, the server's stream of an MQTT
      connection (an instance of [StreamSender]), [Dispatch].
    - HttpBody.v: module [Response]; bufio.Writer and io.Reader as the standard
      library has them; the two ways to write a body.
    - HttpStream.v: the server's stream of an HTTP connection, [Dispatch].
    - Limit.v: the limiters by period ([QPS]), by interval ([Smooth]) and per user
      ([UserQPS]), the token bucket ([Bucket]); class [Cache], what is used of
      go-cache; floats are those of SpecFloat.
    - RuleFilter.v: the rules of the common and of the auth filter (modules [Common]
      and [Auth], twins in the code); the JWT library is a parameter.
      The engines of a filter share one loop variable, as in Go 1.12.
    - FilterManager.v: [filterManager], the read and write filters of a connection;
      class [ReadFilter].
    - Session.v: [Session] with its read and write loops ([readStep], [writeStep]),
      its channel and [Close]; class [SessionFilter], what it needs of a chain.
    - Cluster.v: hosts, host sets, clusters and their manager.
    - Handler.v: the listeners by name, and the connections with their sessions.
    - HttpBufPool.v: the body buffers of HTTP and their pool, which calibrates
      itself; class [Sort], what sort.Sort documents.
    - Controller.v: [sourceStream], [GetTargetEmitter]; [run] is any sequence of calls
      on a stream.
    - Emitter.v: [Emitter] with its topics and middlewares; [World] has its goroutines,
      channels and wait groups; path.Match is a parameter.
    - HeaderScan.v: the scanner of headers on a part of its input, and what it writes
      into it.
    - HeaderRead.v: bufio.Reader; class [HeaderParser], what Read needs of a header, and
      [ParserLaws], what it promises, with the request and the response header as
      instances.
    - HttpRequestBody.v: [Request] as a struct with pointers to its URI and arguments:
      copies, bodies from streams, the deferred parses; module [Pools].
    - HttpVariants.v: the accessors that differ in the type of their argument, and
      identifiers (module [Uuid]).
    - Tls.v: [contextManager], [GetConfigForClient], the inspected [Conn].
    - Config.v: the parsers of a configuration; class [Json], what is used of
      encoding/json.
    - Listener.v: [listener], its socket and its accept loops; [run] is any interleaving;
      [edgeListener], which NewListener makes in edge mode.
    - Server.v: [server], [NewStrike], the shutdown callbacks.
    - Wiring.v: the factories of server streams and the objects they make ([heap]), the
      proxy as a filter, the delegation
      filter, the map of MQTT connections, slices that belong to a context.
    - Evio.v: [loop], the poll, the handlers of its events, [world], [step].
    - EvioFacts.v: the invariant of every run of it ([WInv]), and its theorems.

    ** What is proved

    - Buffers: writing appends for any stale contents the pool hands out and
      never panics; reading, draining and writing out split the unread bytes
      without loss; ReadFrom and ReadOnce terminate; a buffer that is handed out
      is aliased by no live pointer, and is recycled exactly with its last
      reference.
    - MQTT: encoding then decoding is the identity on every message type but
      UNSUBSCRIBE, whose topic names are not sent (with at most one topic filter
      or return code, of which the decoders read one); a buffer with many messages is decoded to exactly those; a message that
      arrives in parts is resumed; the loop ends on every input from a
      consistent state; and the two states of the code in which it does not
      behave: a truncated SUBSCRIBE followed by a short read spins for ever, and
      a fixed header cut inside its length is lost.
    - Conversions: every printer is read back by its parser, on all bytes.
    - URIs: normalizing a path resolves it segment by segment to an absolute path in
      which no segment before the last is empty, [.] or [..], and the last is not
      [..]; printing and parsing a URI are inverse.
    - Arguments, cookies and header lines: parsing gives the fields a reference
      splitter gives, whatever the recycled storage held; printing and parsing
      are inverse.
    - Requests: a printed request parses back; a raw header is forwarded byte
      for byte and its deferred parse agrees with the immediate one; a header
      that is set is read back and no other is touched.
    - Responses: a printed response header parses back, with any consistent
      cache of status lines; a written response parses back with exactly its
      body; a body in chunks is read back by a reader of the chunked coding; a
      limited reader is written past its limit.
    - The HTTP decoder takes exactly one request and its body off the buffer,
      and ends on every buffer without a panic; a body that has arrived in part
      is completed with stale bytes, and a chunked body is taken for the next
      request.
    - Queues: the list answers as a double-ended queue; every interleaving on the
      unbounded queue is a run of the abstract queue, nothing pushed is lost, and
      from every state all of it can be received.
    - Shards: an event is offered to a shard that exists, the two directions do
      not share shards (up to 255 of them; the eight bits of the gap break it at
      257), the events of a connection are handled in order, and a shard outlives
      64 panics.
    - Workers: every accepted task is started once; the counter of goroutines is
      right; the capacity is exceeded by as many calls as overlap, and a waiting
      call is not woken when a worker dies of a panic.
    - The proxy: a request is forwarded and answered piece by piece and its memory
      given back; a stream is removed, recycled and its filters destroyed at most
      once, whatever happens; its response is ended at most once; and the calls
      that the code does not guard.
    - End to end: a read of MQTT messages is answered by exactly their
      acknowledgements, in order and with their packet identifiers; an HTTP request
      is answered by exactly one response; and with HTTP upstream a request without
      a body is never answered.
    - Context buffers: a stream's structs are its own as long as contexts are not used
      after they are given back.
    - Limits and authentication: in any stretch of a period at most twice the limit
      passes; the answers to a user do not depend on others; a refused request is not
      forwarded; a request that the auth rule matches passes only with a valid token;
      the matchers compute a formula over headers and query; and all rules of a filter
      are applied with the configuration of the last one.
    - Connections: what a session sends is a prefix of what is written to it, what its
      filters get is what was read, it closes once and tells every listener it
      has then once; a filter is told of its connection once and before any data; the number of
      connections is right.
    - Clusters: a list of hosts replaces another wholly, or the update panics because it
      keeps an address; the manager keeps its clusters well-formed, and what adding or
      updating a cluster does.
    - Body buffers: one that is handed out is empty; calibration keeps the classes that
      make up 95 percent of the calls; ReadFrom reads to the end.
    - Control requests: one is answered once, after one action on the connection it
      names; a stream ends once; which connection is found; and what becomes of
      requests that a filter stops.
    - Reading headers: however the bytes of a header are split over reads, Read gives what
      Parse gives on all of them, and leaves the reader behind the header; what it says of
      a header that does not end or does not fit.
    - The emitter: no channel is closed twice, a channel is open exactly as long as its
      listener is registered, and a closed Emit has no push left; Off removes what it is
      asked to.
    - TLS: a client is answered by the first context that has its name, a wildcard for it
      or its protocol; looking at a connection takes nothing from it.
    - Starting and stopping: what a configuration becomes; an accept loop hands on what it
      accepts, in order, until it is stopped; a server is closed without a panic with its
      sockets shut, but in edge mode Close panics; and which protocols of a configuration
      can be served, each connection by one server side.
    - The event loop: in any interleaving a connection is opened once, gets its data, and
      ends once, its output is written in order, and what is pending is watched for; the
      counts of the loops; that serve can stop and what is left then; a signal that is
      lost, and actions that wait for a socket that takes no data.

    ** Conventions

    An integer is a [Z] at its Go width where the code can overflow it; a
    length that cannot is a [nat].  A loop that is not structural takes fuel:
    one more than the length of its input for the scanners, each round of which
    consumes a byte; the bytes and reads that are left plus two for the copying of
    a stream; two more than the answers left in the script of the socket for the
    flush of a session, each round of which takes one; [3 * length + 3] for the MQTT
    decoder, the bound its measure gives; the fuel is shown to be enough by a theorem that the result
    is not the out-of-fuel value (args_parse, decode_terminates,
    http_decode_terminates, http_chunked_roundtrip, ...).  A panic is an error of the monad.  A method
    that caches or parses lazily returns the changed receiver.

    Concurrency is interleaving: a state holds a program counter for each
    goroutine and each call in progress, a step moves one of them over one channel
    operation, one critical section or one atomic access, and a run is a list of
    the steps chosen; [None] is a step that blocks.  Channels are [chan] below.

    ** Not modelled

    System calls, crypto/tls, crypto/x509, encoding/json and the JWT library are not in
    src/: they are parameters or scripts of answers.  Of the event loop the poll of BSD
    and socket options are left out; evio_std.go is commented out.  The data and sender
    filters of the proxy and of the controller are called by nothing.  Health checking has
    no checker.  The certificate tool (src/pkg/stls/certtool) makes keys for tests; the
    command line, the logging interfaces, the debug printers and the programs under
    src/examples are left out, as are interface declarations, which have no behaviour. *)

From Stdlib Require Export ZArith Lia.
From Stdlib Require Export Init.Byte.
From Stdlib Require Strings.Byte Strings.String.
From stdpp Require Export base gmap list strings numbers.

#[global] Open Scope Z_scope.

(** ** Bytes and Go strings *)

Abbreviation bytes := (list byte).

#[export] Instance byte_eq_decision : EqDecision byte := Byte.byte_eq_dec.

#[export] Program Instance byte_countable : Countable byte :=
  inj_countable Byte.to_N Byte.of_N _.
Next Obligation. apply Byte.of_to_N. Qed.

#[export] Instance byte_inhabited : Inhabited byte := populate Byte.x00.

(** The number a byte stands for, and the conversion [byte(z)] of an integer,
    which keeps the low eight bits. *)
Definition b2z (b : byte) : Z := Z.of_N (Byte.to_N b).
Definition z2b (z : Z) : byte :=
  match Byte.of_N (Z.to_N (z mod 256)) with Some b => b | None => Byte.x00 end.

(** A Go string literal as bytes. *)
Definition bs (s : String.string) : bytes := String.list_byte_of_string s.

Declare Scope strike_scope.
Delimit Scope strike_scope with strike.
Notation "x =b y" := (bool_decide (x = y)) (at level 70, no associativity) : strike_scope.
#[global] Open Scope strike_scope.

(** ** Machine integers *)

Definition wrapU (w z : Z) : Z := z mod 2 ^ w.
Definition wrapS (w z : Z) : Z := (z + 2 ^ (w - 1)) mod 2 ^ w - 2 ^ (w - 1).
Definition int32 (z : Z) : Z := wrapS 32 z.
Definition int64 (z : Z) : Z := wrapS 64 z.
Definition uint8 (z : Z) : Z := wrapU 8 z.
Definition uint16 (z : Z) : Z := wrapU 16 z.
Definition uint32 (z : Z) : Z := wrapU 32 z.
Definition uint64 (z : Z) : Z := wrapU 64 z.

(** [len(l)] as the code's [int]. *)
Definition zlen {A} (l : list A) : Z := Z.of_nat (length l).

(** ** Results, panics and the state-passing monad *)

Inductive res (E A : Type) : Type :=
| Ok (a : A)
| Err (e : E).
Arguments Ok {E A} a.
Arguments Err {E A} e.

(** Code that mutates a state [S] and may panic (or fail) with an [E]: the
    state reached when the panic is raised survives it. *)
Definition stM (E S A : Type) : Type := S → res E A * S.

Section monad.
Context {E S : Type}.
#[export] Instance stM_ret : MRet (stM E S) := λ A a s, (Ok a, s).
#[export] Instance stM_bind : MBind (stM E S) := λ A B f m s,
  match m s with
  | (Ok a, s') => f a s'
  | (Err e, s') => (Err e, s')
  end.
Definition throw {A} (e : E) : stM E S A := λ s, (Err e, s).
Definition getS : stM E S S := λ s, (Ok s, s).
Definition putS (s : S) : stM E S unit := λ _, (Ok tt, s).
End monad.

(** ** Channels

    A Go channel with its capacity, the values in it and whether it is closed.
    A send or receive that cannot proceed blocks: it is a step that is not
    enabled.  Sending on a closed channel panics; a closed, empty channel gives
    the zero value. *)

Record chan (A : Type) : Type := mkChan { ccap : nat; cbuf : list A; cshut : bool }.
Arguments mkChan {A} ccap cbuf cshut.
Arguments ccap {A} c : rename.
Arguments cbuf {A} c : rename.
Arguments cshut {A} c : rename.

Inductive sent (A : Type) : Type := Sent (c : chan A) | SendPanic | SendBlock.
Arguments Sent {A} c.
Arguments SendPanic {A}.
Arguments SendBlock {A}.
Inductive received (A : Type) : Type := Received (v : A) (c : chan A) | RecvZero | RecvBlock.
Arguments Received {A} v c.
Arguments RecvZero {A}.
Arguments RecvBlock {A}.

Definition make_chan {A} (n : nat) : chan A := mkChan n [] false.
Definition send {A} (c : chan A) (v : A) : sent A :=
  if cshut c then SendPanic
  else if bool_decide (length (cbuf c) < ccap c)%nat
       then Sent (mkChan (ccap c) (cbuf c ++ [v]) (cshut c)) else SendBlock.
Definition recv {A} (c : chan A) : received A :=
  match cbuf c with
  | v :: b => Received v (mkChan (ccap c) b (cshut c))
  | [] => if cshut c then RecvZero else RecvBlock
  end.
(** [None]: closing a closed channel panics. *)
Definition close_chan {A} (c : chan A) : option (chan A) :=
  if cshut c then None else Some (mkChan (ccap c) (cbuf c) true).

(** ** The functions of Go's [bytes] package the program calls

    An index [-1] ("not found") is [None]. *)

Fixpoint IndexByte (b : bytes) (c : byte) : option nat :=
  match b with
  | [] => None
  | x :: b' => if x =b c then Some 0%nat else S <$> IndexByte b' c
  end.

Fixpoint LastIndexByte (b : bytes) (c : byte) : option nat :=
  match b with
  | [] => None
  | x :: b' =>
      match LastIndexByte b' c with
      | Some n => Some (S n)
      | None => if x =b c then Some 0%nat else None
      end
  end.

Fixpoint HasPrefix (b p : bytes) {struct p} : bool :=
  match p, b with
  | [], _ => true
  | y :: p', x :: b' => (x =b y) && HasPrefix b' p'
  | _ :: _, [] => false
  end.

Fixpoint Index (b sep : bytes) : option nat :=
  if HasPrefix b sep then Some 0%nat
  else match b with
       | [] => None
       | _ :: b' => S <$> Index b' sep
       end.

Fixpoint LastIndex (b sep : bytes) : option nat :=
  match b with
  | [] => if HasPrefix b sep then Some 0%nat else None
  | _ :: b' =>
      match LastIndex b' sep with
      | Some n => Some (S n)
      | None => if HasPrefix b sep then Some 0%nat else None
      end
  end.

(** ** Automation

    [strike] holds the rewrite rules and facts every component uses. *)

Create HintDb strike discriminated.
Create Rewrite HintDb strike.

Ltac bdec :=
  repeat match goal with
  | H : bool_decide _ = true |- _ => apply bool_decide_eq_true_1 in H
  | H : bool_decide _ = false |- _ => apply bool_decide_eq_false_1 in H
  | H : andb _ _ = true |- _ => apply andb_true_iff in H as [? ?]
  | H : orb _ _ = false |- _ => apply orb_false_iff in H as [? ?]
  | H : negb _ = true |- _ => apply negb_true_iff in H
  | H : negb _ = false |- _ => apply negb_false_iff in H
  | H : (_ <? _) = true |- _ => apply Z.ltb_lt in H
  | H : (_ <? _) = false |- _ => apply Z.ltb_ge in H
  | H : (_ <=? _) = true |- _ => apply Z.leb_le in H
  | H : (_ <=? _) = false |- _ => apply Z.leb_gt in H
  | H : (_ =? _) = true |- _ => apply Z.eqb_eq in H
  | H : (_ =? _) = false |- _ => apply Z.eqb_neq in H
  end.

(** Case analysis on the condition of an [if] of the goal. *)
Ltac case_if :=
  match goal with
  | |- context [if ?b then _ else _] =>
      lazymatch type of b with bool => let H := fresh "Hif" in destruct b eqn:H end
  end; bdec.

(** Inversion of equations between options and pairs, through binds. *)
Ltac step_cases :=
  repeat match goal with
  | H : Some _ = Some _ |- _ => apply Some_inj in H
  | H : (_, _) = (_, _) |- _ => apply pair_equal_spec in H as [? ?]
  | H : None = Some _ |- _ => discriminate H
  | H : (_ ≫= _) = Some _ |- _ => apply bind_Some in H as (? & ? & ?)
  | H : (let '(_, _) := ?x in _) = Some _ |- _ => destruct x eqn:?
  end.

(** ** Channels: lemmas *)

Lemma send_spec {A} (c c' : chan A) v : send c v = Sent c' →
  cbuf c' = cbuf c ++ [v] ∧ ccap c' = ccap c ∧ cshut c' = cshut c ∧ cshut c = false ∧
  (length (cbuf c) < ccap c)%nat.
Proof.
  unfold send. destruct (cshut c) eqn:E; [done|]. case_if; [|done].
  intros [= <-]. done.
Qed.
Lemma send_panic {A} (c : chan A) v : send c v = SendPanic → cshut c = true.
Proof. unfold send. destruct (cshut c); [done|]. by case_if. Qed.
Lemma recv_spec {A} (c c' : chan A) v : recv c = Received v c' →
  cbuf c = v :: cbuf c' ∧ ccap c' = ccap c ∧ cshut c' = cshut c.
Proof. unfold recv. destruct (cbuf c); [by destruct (cshut c)|]. by intros [= <- <-]. Qed.

(** ** Bytes: lemmas *)

Lemma b2z_range b : 0 ≤ b2z b < 256.
Proof. unfold b2z. pose proof (Byte.to_N_bounded b). lia. Qed.

Lemma z2b_b2z b : z2b (b2z b) = b.
Proof.
  unfold z2b. rewrite Z.mod_small by apply b2z_range.
  unfold b2z. by rewrite N2Z.id, Byte.of_to_N.
Qed.

Lemma b2z_z2b z : b2z (z2b z) = z mod 256.
Proof.
  pose proof (Z.mod_pos_bound z 256 ltac:(lia)) as Hb.
  unfold z2b, b2z. destruct (Byte.of_N _) eqn:E.
  - apply Byte.to_of_N in E. rewrite E. lia.
  - apply Byte.of_N_None_iff in E. lia.
Qed.

Lemma b2z_z2b_small z : 0 ≤ z < 256 → b2z (z2b z) = z.
Proof. intros. rewrite b2z_z2b. by apply Z.mod_small. Qed.

Lemma b2z_inj a b : b2z a = b2z b → a = b.
Proof. intros H. by rewrite <- (z2b_b2z a), H, z2b_b2z. Qed.

#[export] Hint Rewrite z2b_b2z b2z_z2b : strike.
#[export] Hint Resolve b2z_range : strike.

(** A statement about every byte, checked on the 256 of them. *)
Definition all_bytes : bytes :=
  Eval vm_compute in omap Byte.of_N (N.of_nat <$> seq 0 256).

Lemma elem_of_all_bytes b : b ∈ all_bytes.
Proof. apply (bool_decide_eq_true_1 (b ∈ all_bytes)). by destruct b; vm_compute. Qed.

Lemma byte_forall (P : byte → bool) :
  forallb P all_bytes = true → ∀ b, P b = true.
Proof.
  intros H b. rewrite forallb_forall in H.
  apply H, list_elem_of_In, elem_of_all_bytes.
Qed.

Lemma byte_forall_dec (P : byte → Prop) `{∀ b, Decision (P b)} :
  forallb (λ b, bool_decide (P b)) all_bytes = true → ∀ b, P b.
Proof. intros Hf b. pose proof (byte_forall _ Hf b) as Hb. by apply bool_decide_eq_true_1 in Hb. Qed.

(** ** Integers: lemmas *)

Lemma wrapU_small w z : 0 ≤ z < 2 ^ w → wrapU w z = z.
Proof. apply Z.mod_small. Qed.

Lemma wrapS_small w z : 0 < w → - 2 ^ (w - 1) ≤ z < 2 ^ (w - 1) → wrapS w z = z.
Proof.
  intros Hw Hz. unfold wrapS.
  assert (2 ^ w = 2 * 2 ^ (w - 1)) as He.
  { rewrite <- Z.pow_succ_r by lia. f_equal. lia. }
  rewrite Z.mod_small; lia.
Qed.

Lemma int32_small z : - 2147483648 ≤ z < 2147483648 → int32 z = z.
Proof. intros. apply wrapS_small; [lia|]. exact H. Qed.

Lemma int64_small z :
  - 9223372036854775808 ≤ z < 9223372036854775808 → int64 z = z.
Proof. intros. apply wrapS_small; [lia|]. exact H. Qed.

(** Disjoint bit fields: or is addition. *)
Lemma lor_shiftl_add v d n :
  0 ≤ n → 0 ≤ v < 2 ^ n → Z.lor v (Z.shiftl d n) = v + d * 2 ^ n.
Proof.
  intros Hn Hv. assert (Z.land v (Z.shiftl d n) = 0) as E.
  { destruct (Z.eq_dec v 0) as [->|]; [apply Z.land_0_l|].
    apply Z.bits_inj'. intros i Hi. rewrite Z.land_spec, Z.bits_0, Z.shiftl_spec by done.
    destruct (Z.lt_ge_cases i n).
    - rewrite (Z.testbit_neg_r d) by lia. apply andb_false_r.
    - rewrite (Z.bits_above_log2 v i); [done|lia|].
      apply Z.lt_le_trans with n; [|done]. apply Z.log2_lt_pow2; lia. }
  pose proof (Z.add_lor_land v (Z.shiftl d n)) as L. rewrite E, Z.add_0_r in L.
  rewrite L, Z.shiftl_mul_pow2 by done. done.
Qed.

Lemma zlen_app {A} (l k : list A) : zlen (l ++ k) = zlen l + zlen k.
Proof. unfold zlen. rewrite length_app. lia. Qed.
Lemma zlen_cons {A} (x : A) l : zlen (x :: l) = zlen l + 1.
Proof. unfold zlen. simpl. lia. Qed.
Lemma zlen_nil {A} : zlen (@nil A) = 0.
Proof. done. Qed.
Lemma zlen_nonneg {A} (l : list A) : 0 ≤ zlen l.
Proof. unfold zlen. lia. Qed.
Lemma zlen_0 {A} (l : list A) : zlen l = 0 ↔ l = [].
Proof. unfold zlen. destruct l; simpl; split; intros; try done; lia. Qed.

#[export] Hint Rewrite @zlen_app @zlen_cons @zlen_nil : strike.
#[export] Hint Resolve zlen_nonneg : strike.

(** ** Sums over lists *)

Fixpoint zsum {A} (f : A → Z) (l : list A) : Z :=
  match l with [] => 0 | x :: l' => f x + zsum f l' end.

Section zsum.
Context {A : Type} (f : A → Z).
Implicit Types (l k : list A) (x y : A).

Lemma zsum_app l k : zsum f (l ++ k) = zsum f l + zsum f k.
Proof. induction l; simpl; lia. Qed.
Lemma zsum_nonneg l : (∀ x, 0 ≤ f x) → 0 ≤ zsum f l.
Proof. intros H. induction l as [|x l]; simpl; [lia|]. specialize (H x). lia. Qed.
Lemma zsum_insert l i x y : l !! i = Some x → zsum f (<[i := y]> l) = zsum f l - f x + f y.
Proof.
  revert i. induction l as [|z l IH]; intros [|i] H; simplify_eq/=; [lia|].
  rewrite (IH i H). lia.
Qed.
Lemma zsum_delete l i x : l !! i = Some x →
  zsum f (take i l ++ drop (S i) l) = zsum f l - f x.
Proof.
  intros H. rewrite zsum_app. rewrite <- (take_drop_middle l i x H) at 3.
  rewrite zsum_app. simpl. lia.
Qed.
Lemma zsum_elem l x : (∀ x, 0 ≤ f x) → x ∈ l → f x ≤ zsum f l.
Proof.
  intros H. induction 1 as [x l|x y l _ IH]; simpl.
  - pose proof (zsum_nonneg l H). lia.
  - specialize (H y). lia.
Qed.
Lemma zsum_lookup l i x : (∀ x, 0 ≤ f x) → l !! i = Some x → f x ≤ zsum f l.
Proof. intros H Hx. apply zsum_elem; [done|]. by eapply list_elem_of_lookup_2. Qed.
End zsum.

(** ** Searches: lemmas *)

Lemma IndexByte_None b c : IndexByte b c = None ↔ c ∉ b.
Proof.
  induction b as [|x b IH]; simpl; [set_solver|].
  case_if; [subst; set_solver|].
  rewrite fmap_None, IH. set_solver.
Qed.

Lemma IndexByte_Some b c n :
  IndexByte b c = Some n → b = take n b ++ c :: drop (S n) b ∧ c ∉ take n b.
Proof.
  revert n. induction b as [|x b IH]; simpl; [done|]. intros n.
  case_if; [intros [= <-]; subst; set_solver|].
  intros (m & Hm & ->)%fmap_Some. destruct (IH _ Hm) as [E N].
  simpl. split; [by f_equal|]. set_solver.
Qed.

Lemma IndexByte_app b c q : c ∉ b → IndexByte (b ++ c :: q) c = Some (length b).
Proof.
  induction b as [|x b IH]; simpl; intros Hc.
  - by rewrite bool_decide_eq_true_2.
  - rewrite bool_decide_eq_false_2 by set_solver. rewrite IH by set_solver. done.
Qed.

Lemma IndexByte_lt b c n : IndexByte b c = Some n → (n < length b)%nat.
Proof.
  intros [E _]%IndexByte_Some. apply (f_equal length) in E.
  rewrite length_app, length_take in E. simpl in E. lia.
Qed.

Lemma LastIndexByte_None b c : LastIndexByte b c = None ↔ c ∉ b.
Proof.
  induction b as [|x b IH]; simpl; [set_solver|].
  destruct (LastIndexByte b c) eqn:E.
  - split; [done|]. destruct IH as [_ IH]. intros Hn.
    assert (Some n = None) by (apply IH; set_solver). done.
  - destruct IH as [IH _]. specialize (IH eq_refl). case_if; set_solver.
Qed.

Lemma LastIndexByte_Some b c n :
  LastIndexByte b c = Some n → b = take n b ++ c :: drop (S n) b ∧ c ∉ drop (S n) b.
Proof.
  revert n. induction b as [|x b IH]; simpl; [done|]. intros n.
  destruct (LastIndexByte b c) as [m|] eqn:E.
  - intros [= <-]. destruct (IH _ eq_refl) as [E1 N]. simpl. split; [by f_equal|done].
  - case_if; [|done]. intros [= <-]. subst. simpl.
    rewrite drop_0. split; [done|]. by apply LastIndexByte_None.
Qed.

Lemma HasPrefix_spec b p : HasPrefix b p = true ↔ ∃ r, b = p ++ r.
Proof.
  revert b. induction p as [|y p IH]; intros b; simpl; [split; [by exists b|done]|].
  destruct b as [|x b]; [split; [done|by intros [? [=]]]|].
  rewrite andb_true_iff, bool_decide_eq_true, IH. split.
  - intros [-> [r ->]]. by exists r.
  - intros [r [= -> ->]]. split; [done|by exists r].
Qed.

Lemma Index_Some b s n : Index b s = Some n → ∃ r, b = take n b ++ s ++ r.
Proof.
  revert n. induction b as [|x b IH]; simpl; intros n; case_if.
  - intros [= <-]. apply HasPrefix_spec in Hif as [r ->]. by exists r.
  - done.
  - intros [= <-]. apply HasPrefix_spec in Hif as [r ->]. by exists r.
  - intros (m & Hm & ->)%fmap_Some. destruct (IH _ Hm) as [r E].
    exists r. simpl. by f_equal.
Qed.

Lemma Index_None b s : Index b s = None → ∀ p r, b ≠ p ++ s ++ r.
Proof.
  induction b as [|x b IH]; simpl; case_if; try done.
  - intros _ p r E. destruct p; simpl in E; [|done].
    assert (HasPrefix [] s = true) by (apply HasPrefix_spec; by exists r). congruence.
  - rewrite fmap_None. intros Hn p r E. destruct p as [|y p]; simplify_eq/=.
    + assert (HasPrefix (x :: b) s = true) by (apply HasPrefix_spec; by exists r).
      congruence.
    + by apply (IH Hn p r).
Qed.

(** ** Reasoning about the monad

    [wpe m Q R s]: run from [s], [m] either returns [a] in a state [s'] with
    [Q a s'], or panics with [e] in a state [s'] with [R e s'].  [wp] is the
    case in which it does not panic. *)

Definition wpe {E S A} (m : stM E S A) (Q : A → S → Prop) (R : E → S → Prop)
    (s : S) : Prop :=
  match m s with
  | (Ok a, s') => Q a s'
  | (Err e, s') => R e s'
  end.
Definition wp {E S A} (m : stM E S A) (Q : A → S → Prop) (s : S) : Prop :=
  wpe m Q (λ _ _, False) s.

Lemma wpe_bind {E S A B} (m : stM E S A) (f : A → stM E S B) Q R s :
  wpe m (λ a s', wpe (f a) Q R s') R s → wpe (m ≫= f) Q R s.
Proof.
  unfold wpe, mbind, stM_bind. by destruct (m s) as [[a|e] s'].
Qed.

Lemma wp_bind {E S A B} (m : stM E S A) (f : A → stM E S B) Q s :
  wp m (λ a s', wp (f a) Q s') s → wp (m ≫= f) Q s.
Proof. apply wpe_bind. Qed.

Lemma wp_ret {E S A} (a : A) (Q : A → S → Prop) s :
  Q a s → wp (E := E) (mret a) Q s.
Proof. done. Qed.

Lemma wpe_mono {E S A} (m : stM E S A) (Q Q' : A → S → Prop) (R R' : E → S → Prop) s :
  wpe m Q R s → (∀ a s', Q a s' → Q' a s') → (∀ e s', R e s' → R' e s') →
  wpe m Q' R' s.
Proof. unfold wpe. destruct (m s) as [[a|e] s']; auto. Qed.

Lemma wp_mono {E S A} (m : stM E S A) (Q Q' : A → S → Prop) s :
  wp m Q s → (∀ a s', Q a s' → Q' a s') → wp m Q' s.
Proof. intros H HQ. by eapply wpe_mono; [exact H| |]. Qed.

Lemma wp_run {E S A} (m : stM E S A) (Q : A → S → Prop) s :
  wp m Q s ↔ ∃ a s', m s = (Ok a, s') ∧ Q a s'.
Proof.
  unfold wp, wpe. destruct (m s) as [[a|e] s'].
  - split; [by eauto|]. by intros (? & ? & [= <- <-] & ?).
  - split; [done|]. by intros (? & ? & [=] & ?).
Qed.
