(* ===== verification/BytePool.v ===== *)
(** * The byte-slice pool (src/pkg/buffer/bytebufferpool.go)

    [byteBufferPool] keeps ten [sync.Pool]s of byte slices, one per power-of-two
    capacity from [2^6] to [2^15].  The model keeps the backing array of every
    slice ([arr], its capacity is [length arr]) next to its length, so that a
    recycled slice carries the stale contents of its previous use.

    [sync.Pool.Get] may return any pooled item or nothing at all; an oracle of
    choices in the state stands for that freedom, and every theorem holds for
    every oracle.  A slice expression beyond the capacity panics. *)

From S2P Require Import Prelude.

(** Run-time panics of the buffer code. *)
Inductive goPanic :=
| PanicSliceBounds
| PanicErrInvalidWriteCount
| PanicMessage.

(** A Go byte slice that starts at the beginning of its backing array. *)
Record slice := Slice { arr : bytes; slen : Z }.

Definition scap (s : slice) : Z := zlen (arr s).
Definition slice_wf (s : slice) : Prop := 0 ≤ slen s ≤ scap s.
Definition contents (s : slice) : bytes := take (Z.to_nat (slen s)) (arr s).

(** [s[:n]] *)
Definition reslice {S} (s : slice) (n : Z) : stM goPanic S slice :=
  if (0 <=? n) && (n <=? scap s) then mret (Slice (arr s) n)
  else throw PanicSliceBounds.

Definition minShift : Z := 6.
Definition maxShift : Z := 15.
Definition errSlot : Z := -1.

Definition minSize : Z := Z.shiftl 1 minShift.
Definition maxSize : Z := Z.shiftl 1 maxShift.

(** One [sync.Pool] per slot with its default size. *)
Record bufferSlot := BufferSlot { defaultSize : Z; spool : list slice }.

Record byteBufferPool := ByteBufferPool { pool : list bufferSlot }.

(** The pool together with the choices [sync.Pool.Get] will make. *)
Record world := World { bbPool : byteBufferPool; oracle : list nat }.

(** [newByteBufferPool] *)
Definition newByteBufferPool : byteBufferPool :=
  ByteBufferPool
    ((λ i, BufferSlot (Z.shiftl 1 (Z.of_nat i + minShift)) [])
       <$> seq 0 (Z.to_nat (maxShift - minShift + 1))).

(** The loop [for size > 0 { size = size >> 1; shift++ }]; an [int] has at most
    63 value bits, which bounds the fuel. *)
Fixpoint slot_loop (fuel : nat) (size shift : Z) : Z :=
  match fuel with
  | O => shift
  | S fuel => if 0 <? size then slot_loop fuel (Z.shiftr size 1) (shift + 1) else shift
  end.

Definition slot (size : Z) : Z :=
  if (maxSize <? size) || (size <=? minSize) then errSlot
  else if minSize <? size
  then slot_loop 64 (size - 1) 0 - minShift
  else 0.

(** [newBytes]: a zeroed slice of length and capacity [size]. *)
Definition newBytes (size : Z) : slice := Slice (replicate (Z.to_nat size) x00) size.

(** [sync.Pool.Get] with the next choice of the oracle: the item at that index,
    or nothing when there is none. *)
Definition Get (i : nat) (w : world) : option slice * world :=
  let '(c, o) := match oracle w with [] => (0%nat, []) | c :: o => (c, o) end in
  match pool (bbPool w) !! i with
  | Some sl =>
      match spool sl !! c with
      | Some v =>
          (Some v,
           World (ByteBufferPool (<[i := BufferSlot (defaultSize sl) (delete c (spool sl))]>
                                    (pool (bbPool w)))) o)
      | None => (None, World (bbPool w) o)
      end
  | None => (None, World (bbPool w) o)
  end.

(** [sync.Pool.Put] *)
Definition Put (i : nat) (v : slice) (w : world) : world :=
  match pool (bbPool w) !! i with
  | Some sl =>
      World (ByteBufferPool (<[i := BufferSlot (defaultSize sl) (v :: spool sl)]>
                               (pool (bbPool w)))) (oracle w)
  | None => w
  end.

Definition slotDefault (i : nat) (w : world) : Z :=
  match pool (bbPool w) !! i with Some sl => defaultSize sl | None => 0 end.

(** [take] ([GetBytes]): the slice handed out has length [size]. *)
Definition take_bytes (size : Z) : stM goPanic world slice := λ w,
  let s := slot size in
  if s =? errSlot then (Ok (newBytes size), w)
  else
    let i := Z.to_nat s in
    match Get i w with
    | (None, w') => reslice (newBytes (slotDefault i w)) size w'
    | (Some v, w') => reslice v size w'
    end.

(** [give] ([PutBytes]) *)
Definition give_bytes (buf : option slice) (w : world) : world :=
  match buf with
  | None => w
  | Some v =>
      let size := scap v in
      let s := slot size in
      if s =? errSlot then w
      else if negb (size =? slotDefault (Z.to_nat s) w) then w
      else Put (Z.to_nat s) v w
  end.

Definition GetBytes := take_bytes.
Definition PutBytes := give_bytes.

(** ** Invariant: the slices of slot [i] have capacity [2^(i+6)] *)

Definition slot_ok (i : nat) (sl : bufferSlot) : Prop :=
  defaultSize sl = 2 ^ (Z.of_nat i + minShift) ∧
  Forall (λ v, scap v = defaultSize sl) (spool sl).

Definition pool_ok (w : world) : Prop :=
  length (pool (bbPool w)) = 10%nat ∧
  ∀ i sl, pool (bbPool w) !! i = Some sl → slot_ok i sl.

Lemma newByteBufferPool_ok o : pool_ok (World newByteBufferPool o).
Proof.
  split; [done|]. simpl. intros i sl Hi.
  repeat (destruct i as [|i]; [injection Hi as <-; split; [done|constructor]|]).
  done.
Qed.

Lemma slot_loop_spec fuel size shift :
  0 ≤ size < 2 ^ Z.of_nat fuel →
  ∃ k, slot_loop fuel size shift = shift + k ∧ 0 ≤ k ∧
       size < 2 ^ k ∧ (0 < size → 2 ^ (k - 1) ≤ size) ∧ (size = 0 → k = 0).
Proof.
  revert size shift. induction fuel as [|fuel IH]; intros size shift Hs.
  - exists 0. simpl in *. lia.
  - simpl slot_loop. case_if; [|exists 0; simpl; lia].
    rewrite Z.shiftr_div_pow2 by lia. change (2 ^ 1) with 2.
    rewrite Nat2Z.inj_succ, Z.pow_succ_r in Hs by lia.
    destruct (IH (size / 2) (shift + 1)) as (k & -> & Hk & Hu & Hl & H0).
    { split; [apply Z.div_pos; lia|]. apply Z.div_lt_upper_bound; lia. }
    exists (k + 1). split; [lia|]. split; [lia|].
    rewrite Z.pow_add_r by lia. change (2 ^ 1) with 2.
    replace (k + 1 - 1) with k by lia.
    pose proof (Z.div_mod size 2 ltac:(lia)). pose proof (Z.mod_pos_bound size 2 ltac:(lia)).
    split; [lia|]. split; [|lia]. intros _.
    destruct (Z.eq_dec (size / 2) 0) as [E|E].
    + rewrite H0 by done. simpl. lia.
    + assert (2 ^ (k - 1) ≤ size / 2) by (apply Hl; lia).
      assert (0 < k) by (destruct (Z.eq_dec k 0) as [->|]; [simpl in Hu|]; lia).
      replace k with (Z.succ (k - 1)) by lia. rewrite Z.pow_succ_r; lia.
Qed.

Lemma slot_spec size :
  minSize < size ≤ maxSize →
  1 ≤ slot size ≤ 9 ∧ 2 ^ (slot size + minShift - 1) < size ≤ 2 ^ (slot size + minShift).
Proof.
  unfold slot. change minSize with 64. change maxSize with 32768. change minShift with 6.
  intros Hs. rewrite (proj2 (Z.ltb_ge _ _)), (proj2 (Z.leb_gt _ _)) by lia.
  cbn [orb]. rewrite (proj2 (Z.ltb_lt _ _)) by lia.
  destruct (slot_loop_spec 64 (size - 1) 0) as (k & -> & Hk & Hu & Hl & _); [lia|].
  specialize (Hl ltac:(lia)).
  assert (6 < k) by (apply (Z.pow_lt_mono_r_iff 2); lia).
  assert (k - 1 < 15) by (apply (Z.pow_lt_mono_r_iff 2); lia).
  replace (0 + k - 6 + 6) with k by lia. lia.
Qed.

Lemma slot_err size : slot size = errSlot ↔ size ≤ minSize ∨ maxSize < size.
Proof.
  split.
  - intros H. destruct (Z.le_gt_cases size minSize); [by left|].
    destruct (Z.lt_ge_cases maxSize size); [by right|].
    pose proof (slot_spec size ltac:(lia)). unfold errSlot in H. lia.
  - intros H. unfold slot. destruct (maxSize <? size) eqn:E1; [done|].
    destruct (size <=? minSize) eqn:E2; [done|]. bdec. lia.
Qed.

(** The slot a pooled capacity belongs to. *)
Lemma slot_pow2 i : (1 ≤ i ≤ 9)%nat → slot (2 ^ (Z.of_nat i + minShift)) = Z.of_nat i.
Proof.
  intros Hi. do 10 (destruct i as [|i]; [reflexivity || lia|]). lia.
Qed.

Lemma pool_ok_slot w i sl :
  pool_ok w → pool (bbPool w) !! i = Some sl → slot_ok i sl.
Proof. intros [_ H]. apply H. Qed.

Lemma pool_ok_lookup w i :
  pool_ok w → (i < 10)%nat → ∃ sl, pool (bbPool w) !! i = Some sl ∧ slot_ok i sl.
Proof.
  intros [Hl H] Hi. destruct (lookup_lt_is_Some_2 (pool (bbPool w)) i ltac:(lia)) as [sl E].
  eauto.
Qed.

Lemma pool_ok_insert w i sl sl' o :
  pool_ok w → pool (bbPool w) !! i = Some sl → slot_ok i sl' →
  pool_ok (World (ByteBufferPool (<[i := sl']> (pool (bbPool w)))) o).
Proof.
  intros [Hl H] Hi Hs. split; simpl; [by rewrite length_insert|].
  intros j sj. rewrite list_lookup_insert. case_decide; [|by intros; apply H].
  intros [= <-]. naive_solver.
Qed.

Lemma Get_spec w i :
  pool_ok w → (i < 10)%nat →
  pool_ok (Get i w).2 ∧
  (∀ v, (Get i w).1 = Some v → scap v = 2 ^ (Z.of_nat i + minShift)).
Proof.
  intros Hw Hi. destruct (pool_ok_lookup w i Hw Hi) as (sl & E & Hd & Hf).
  unfold Get. destruct (match oracle w with [] => _ | _ => _ end) as [c o].
  rewrite E. destruct (spool sl !! c) as [v|] eqn:Ev; simpl.
  - split.
    + eapply pool_ok_insert; [done|exact E|]. split; simpl; [done|].
      by apply Forall_delete.
    + intros ? [= <-]. rewrite Forall_lookup in Hf. rewrite (Hf _ _ Ev). done.
  - split; [|done]. destruct Hw. by split.
Qed.

(** [GetBytes] never panics and returns a slice of the requested length whose
    capacity is the size class of the request. *)
Lemma take_bytes_spec size w :
  pool_ok w → 0 ≤ size →
  wp (take_bytes size) (λ s w', pool_ok w' ∧ slen s = size ∧ slice_wf s ∧
       scap s = (if slot size =? errSlot then size else 2 ^ (slot size + minShift))) w.
Proof.
  intros Hw Hs. unfold wp, wpe, take_bytes. case_if.
  - unfold slice_wf, scap, newBytes, zlen. simpl. rewrite length_replicate.
    split; [exact Hw|]. lia.
  - assert (minSize < size ≤ maxSize) as Hr.
    { destruct (Z.le_gt_cases size minSize); [|destruct (Z.le_gt_cases size maxSize); [lia|]];
        exfalso; apply Hif, slot_err; lia. }
    destruct (slot_spec size Hr) as [H1 H2].
    set (i := Z.to_nat (slot size)). assert (Z.of_nat i = slot size) as Hi by (subst i; lia).
    destruct (Get_spec w i Hw ltac:(lia)) as [Hok Hcap].
    destruct (pool_ok_lookup w i Hw ltac:(lia)) as (sl & E & Hd & _).
    destruct (Get i w) as [[v|] w'] eqn:EG; simpl in Hok, Hcap; rewrite <- Hi in H2 |- *.
    + specialize (Hcap v eq_refl). unfold reslice.
      rewrite !(proj2 (Z.leb_le _ _)) by lia. simpl. split; [exact Hok|].
      unfold slice_wf, scap in *. simpl. lia.
    + assert (scap (newBytes (slotDefault i w)) = 2 ^ (Z.of_nat i + minShift)) as Hc.
      { unfold slotDefault. rewrite E, Hd. unfold scap, newBytes, zlen. simpl.
        rewrite length_replicate. pose proof (Z.pow_nonneg 2 (Z.of_nat i + minShift)). lia. }
      unfold reslice. rewrite !(proj2 (Z.leb_le _ _)) by lia. simpl. split; [exact Hok|].
      unfold slice_wf, scap in *. simpl in *. lia.
Qed.

Lemma give_bytes_ok buf w : pool_ok w → pool_ok (give_bytes buf w).
Proof.
  intros Hw. destruct buf as [v|]; [|done]. unfold give_bytes.
  case_if; [done|]. case_if; [done|]. unfold slotDefault, Put in *.
  destruct (pool (bbPool w) !! Z.to_nat (slot (scap v))) as [sl|] eqn:E; [|done].
  destruct (pool_ok_slot _ _ _ Hw E) as [Hd Hf].
  eapply pool_ok_insert; [done|exact E|]. split; simpl; [done|]. by constructor.
Qed.
