(* ===== verification/IoBuffer.v ===== *)
(** * The I/O buffer (src/pkg/buffer/iobuffer.go, iobufferpool.go)

    An [ioBuffer] owns a byte slice [buf] whose first [off] bytes have been
    read; writes go to the end of [buf], growing it through the byte-slice pool
    when the capacity is exhausted.  [view] is the abstract value of a buffer,
    its unread bytes; the theorems of this file say what each operation does to
    it, whatever stale bytes the pool hands out. *)

From S2P Require Import Prelude BytePool.

(** [io] errors the buffer reports or passes on. *)
Inductive ioerr :=
| EOF
| ErrTimeout (* a [net.Error] with [Timeout()] *)
| ErrOther.

#[export] Instance ioerr_eq_dec : EqDecision ioerr.
Proof. solve_decision. Defined.

Definition MinRead : Z := Z.shiftl 1 9.
Definition MaxRead : Z := Z.shiftl 1 17.
Definition ResetOffMark : Z := -1.
Definition DefaultSize : Z := Z.shiftl 1 4.

(** [pooled] records whether the field [b *[]byte] is set: it then points to
    the slice [buf] was cut from.  [bnil] is [buf == nil]. *)
Record ioBuffer := IoBuffer {
  buf : slice;
  off : Z;
  offMark : Z;
  count : Z;
  eof : bool;
  pooled : bool;
  bnil : bool
}.

Definition set_buf (s : slice) (b : ioBuffer) : ioBuffer :=
  IoBuffer s (off b) (offMark b) (count b) (eof b) (pooled b) (bnil b).
Definition set_off (z : Z) (b : ioBuffer) : ioBuffer :=
  IoBuffer (buf b) z (offMark b) (count b) (eof b) (pooled b) (bnil b).
Definition set_offMark (z : Z) (b : ioBuffer) : ioBuffer :=
  IoBuffer (buf b) (off b) z (count b) (eof b) (pooled b) (bnil b).

Abbreviation bufM := (stM goPanic (world * ioBuffer)).

Definition modB (f : ioBuffer → ioBuffer) : bufM unit := λ '(w, b), (Ok tt, (w, f b)).
Definition getB : bufM ioBuffer := λ '(w, b), (Ok b, (w, b)).
Definition liftW {A} (m : stM goPanic world A) : bufM A := λ '(w, b),
  let '(r, w') := m w in (r, (w', b)).
Definition modW (f : world → world) : bufM unit := λ '(w, b), (Ok tt, (f w, b)).

(** The bytes from [lo] to the length of the slice: [s[lo:]]. *)
Definition slice_from {S} (s : slice) (lo : Z) : stM goPanic S bytes :=
  if (0 <=? lo) && (lo <=? slen s) then mret (drop (Z.to_nat lo) (contents s))
  else throw PanicSliceBounds.

(** [copy(dst[i:], src)] where [n] bytes of [dst] follow index [i]. *)
Definition gocopy (dst : bytes) (i n : nat) (src : bytes) : bytes :=
  let k := Nat.min n (length src) in
  take i dst ++ take k src ++ drop (i + k) dst.

Definition Len (b : ioBuffer) : Z := slen (buf b) - off b.
Definition Cap (b : ioBuffer) : Z := scap (buf b).

(** [Reset] *)
Definition Reset (b : ioBuffer) : ioBuffer :=
  IoBuffer (Slice (arr (buf b)) 0) 0 ResetOffMark (count b) false (pooled b) (bnil b).

(** [Read]: a destination of length [n]; the bytes copied and the error. *)
Definition Read (n : Z) : bufM (bytes * option ioerr) :=
  b ← getB;
  if slen (buf b) <=? off b then
    _ ← modB Reset;
    mret ([], if n =? 0 then None else Some EOF)
  else
    src ← slice_from (buf b) (off b);
    let d := take (Z.to_nat n) src in
    _ ← modB (set_off (off b + zlen d));
    mret (d, None).

(** [ReadByte] *)
Definition ReadByte : bufM (res ioerr byte) :=
  b ← getB;
  if slen (buf b) <=? off b then
    _ ← modB Reset;
    mret (Err EOF)
  else
    match contents (buf b) !! Z.to_nat (off b) with
    | Some bt => _ ← modB (set_off (off b + 1)); mret (Ok bt)
    | None => throw PanicSliceBounds
    end.

(** [copy(expand)]: slide the unread bytes to the front, of a new slice of
    capacity at least [2*cap + expand] when [expand > 0]. *)
Definition copy (expand : Z) : bufM unit :=
  b ← getB;
  src ← slice_from (buf b) (off b);
  if 0 <? expand then
    nb ← liftW (GetBytes (2 * Cap b + expand));
    let nb' := Slice (gocopy (arr nb) 0 (Z.to_nat (slen nb)) src) (slen nb) in
    _ ← modW (PutBytes (if pooled b then Some (buf b) else None));
    s ← reslice nb' (slen (buf b) - off b);
    modB (λ b, IoBuffer s 0 (offMark b) (count b) (eof b) true false)
  else
    let nb' := Slice (gocopy (arr (buf b)) 0 (Z.to_nat (slen (buf b))) src) (slen (buf b)) in
    s ← reslice nb' (slen (buf b) - off b);
    modB (λ b, set_off 0 (set_buf s b)).

(** [tryGrowByReslice] *)
Definition tryGrowByReslice (n : Z) : bufM (option Z) :=
  b ← getB;
  let l := slen (buf b) in
  if l + n <=? Cap b then
    s ← reslice (buf b) (l + n);
    _ ← modB (set_buf s);
    mret (Some l)
  else mret None.

(** [grow] *)
Definition grow (n : Z) : bufM Z :=
  b ← getB;
  let m := Len b in
  _ ← (if (m =? 0) && negb (off b =? 0) then modB Reset else mret tt);
  i ← tryGrowByReslice n;
  match i with
  | Some i => mret i
  | None =>
      b ← getB;
      _ ← (if m + n <=? Z.quot (Cap b) 2 then copy 0 else copy n);
      b ← getB;
      s ← reslice (buf b) (m + n);
      _ ← modB (λ b, set_off 0 (set_buf s b));
      mret m
  end.

(** [copy(b.buf[m:], p)] *)
Definition copy_in (m : Z) (p : bytes) : bufM Z :=
  b ← getB;
  if (0 <=? m) && (m <=? slen (buf b)) then
    let room := slen (buf b) - m in
    _ ← modB (set_buf (Slice (gocopy (arr (buf b)) (Z.to_nat m) (Z.to_nat room) p)
                             (slen (buf b))));
    mret (Z.min room (zlen p))
  else throw PanicSliceBounds.

(** [Write] *)
Definition Write (p : bytes) : bufM Z :=
  m ← tryGrowByReslice (zlen p);
  m ← match m with Some m => mret m | None => grow (zlen p) end;
  copy_in m p.

(** [WriteByte] *)
Definition WriteByte (p : byte) : bufM unit :=
  m ← tryGrowByReslice 1;
  m ← match m with Some m => mret m | None => grow 1 end;
  b ← getB;
  if (0 <=? m) && (m <? slen (buf b))
  then modB (set_buf (Slice (<[Z.to_nat m := p]> (arr (buf b))) (slen (buf b))))
  else throw PanicSliceBounds.

(** [Append], [AppendByte] *)
Definition Append (data : bytes) : bufM unit :=
  b ← getB;
  _ ← (if slen (buf b) <=? off b then modB Reset else mret tt);
  b ← getB;
  let free := Cap b - slen (buf b) in
  _ ← (if free <? zlen data then
         if off b + free <? zlen data then copy (zlen data) else copy 0
       else mret tt);
  b ← getB;
  s ← reslice (buf b) (slen (buf b) + zlen data);
  let m := slen (buf b) in
  modB (set_buf (Slice (gocopy (arr s) (Z.to_nat m) (Z.to_nat (zlen data)) data) (slen s))).

Definition AppendByte (data : byte) : bufM unit := Append [data].

(** [Peek]: [nil] is [None]. *)
Definition Peek (n : Z) (b : ioBuffer) : res goPanic (option bytes) :=
  if slen (buf b) - off b <? n then Ok None
  else if (0 <=? off b) && (0 <=? n)
  then Ok (Some (take (Z.to_nat n) (drop (Z.to_nat (off b)) (contents (buf b)))))
  else Err PanicSliceBounds.

Definition Mark (b : ioBuffer) : ioBuffer := set_offMark (off b) b.

Definition Restore (b : ioBuffer) : ioBuffer :=
  if negb (offMark b =? ResetOffMark)
  then set_offMark ResetOffMark (set_off (offMark b) b)
  else b.

(** [Bytes] and [String] *)
Definition Bytes : bufM bytes := b ← getB; slice_from (buf b) (off b).

(** [Cut] returns [nil] ([None]) when fewer than [offset] bytes are left. *)
Definition Cut (offset : Z) : bufM (option ioBuffer) :=
  b ← getB;
  if slen (buf b) <? off b + offset then mret None
  else if (0 <=? offset) && (0 <=? off b) then
    let d := take (Z.to_nat offset) (drop (Z.to_nat (off b)) (contents (buf b))) in
    _ ← modB (λ b, set_offMark ResetOffMark (set_off (off b + offset) b));
    mret (Some (IoBuffer (Slice d offset) 0 0 0 false false false))
  else throw PanicSliceBounds.

(** [Drain] *)
Definition Drain (offset : Z) (b : ioBuffer) : ioBuffer :=
  if slen (buf b) <? off b + offset then b
  else set_offMark ResetOffMark (set_off (off b + offset) b).

Definition Count (n : Z) (b : ioBuffer) : Z * ioBuffer :=
  let c := int32 (count b + n) in
  (c, IoBuffer (buf b) (off b) (offMark b) c (eof b) (pooled b) (bnil b)).

Definition SetEOF (e : bool) (b : ioBuffer) : ioBuffer :=
  IoBuffer (buf b) (off b) (offMark b) (count b) e (pooled b) (bnil b).

(** [giveSlice] and [Free] *)
Definition giveSlice : bufM unit := λ '(w, b),
  if pooled b then
    (Ok tt, (PutBytes (Some (buf b)) w,
             IoBuffer (Slice [] 0) (off b) (offMark b) (count b) (eof b) false true))
  else (Ok tt, (w, b)).

Definition Free : bufM unit := _ ← modB Reset; giveSlice.

(** [Alloc] *)
Definition Alloc (size : Z) : bufM unit :=
  b ← getB;
  _ ← (if negb (bnil b) then Free else mret tt);
  let size := if size <=? 0 then DefaultSize else size in
  s ← liftW (GetBytes size);
  modB (λ b, IoBuffer (Slice (arr s) 0) (off b) (offMark b) (count b) (eof b) true false).

(** [NewIoBuffer] *)
Definition NewIoBuffer (capacity : Z) : stM goPanic world ioBuffer :=
  let capacity := if capacity <=? 0 then DefaultSize else capacity in
  s ← GetBytes capacity;
  mret (IoBuffer (Slice (arr s) 0) 0 ResetOffMark 1 false true false).

(** [NewIoBufferBytes] on a slice ([nil] is [None]); [NewIoBufferString]. *)
Definition NewIoBufferBytes (bytes : option slice) : stM goPanic world ioBuffer :=
  match bytes with
  | None => NewIoBuffer 0
  | Some s => mret (IoBuffer s 0 ResetOffMark 1 false false false)
  end.

Definition NewIoBufferString (s : bytes) : stM goPanic world ioBuffer :=
  match s with
  | [] => NewIoBuffer 0
  | _ => mret (IoBuffer (Slice s (zlen s)) 0 ResetOffMark 1 false false false)
  end.

Definition NewIoBufferEOF : stM goPanic world ioBuffer :=
  b ← NewIoBuffer 0; mret (SetEOF true b).

(** ** Readers

    An [io.Reader] is a script of results [(d, e)]: one call of [Read] with room
    for [k] bytes delivers [d] and reports [e] when [d] fits, and otherwise
    delivers [k] bytes and leaves the rest of the entry; past the end of the
    script it reports [EOF]. *)

Abbreviation reader := (list (bytes * option ioerr)).

Definition reader_read (k : Z) (r : reader) : bytes * option ioerr * reader :=
  match r with
  | [] => ([], Some EOF, [])
  | (d, e) :: r' =>
      if zlen d <=? k then (d, e, r')
      else (take (Z.to_nat k) d, None, (drop (Z.to_nat k) d, e) :: r')
  end.

(** [m, e := r.Read(b.buf[len(b.buf):cap(b.buf)])] and
    [b.buf = b.buf[0 : len(b.buf)+m]]. *)
Definition read_into (r : reader) : bufM (Z * option ioerr * reader) :=
  b ← getB;
  let l := slen (buf b) in
  let '(d, e, r') := reader_read (Cap b - l) r in
  let a := Slice (gocopy (arr (buf b)) (Z.to_nat l) (Z.to_nat (Cap b - l)) d) l in
  s ← reslice a (l + zlen d);
  _ ← modB (set_buf s);
  mret (zlen d, e, r').

(** Make room for [MinRead] bytes at the end. *)
Definition make_room : bufM unit :=
  b ← getB;
  let free := Cap b - slen (buf b) in
  if free <? MinRead then
    if off b + free <? MinRead then copy MinRead else copy 0
  else mret tt.

(** The loop of [ReadFrom]; [None] when the fuel runs out. *)
Fixpoint ReadFrom_loop (fuel : nat) (n : Z) (r : reader) :
    bufM (option (Z * option ioerr * reader)) :=
  match fuel with
  | O => mret None
  | S fuel =>
      _ ← make_room;
      '(m, e, r') ← read_into r;
      let n := n + m in
      if e =b Some EOF then mret (Some (n, None, r'))
      else if m =? 0 then mret (Some (n, None, r'))
      else match e with
           | Some e => mret (Some (n, Some e, r'))
           | None => ReadFrom_loop fuel n r'
           end
  end.

(** A call delivers at least one byte of an entry, or all of it. *)
Definition reader_fuel (r : reader) : nat :=
  S (list_sum ((λ e, S (length e.1)) <$> r)).

Definition ReadFrom (r : reader) : bufM (option (Z * option ioerr * reader)) :=
  b ← getB;
  _ ← (if slen (buf b) <=? off b then modB Reset else mret tt);
  ReadFrom_loop (reader_fuel r) 0 r.

(** [ReadOnce] on a connection ([conn = true]) or on another reader.  The read
    deadlines it sets are not part of the model.  In the error branch the code
    tests the named result [err], still nil, instead of [e], so the timeout
    case [return n, nil] is never taken. *)
Fixpoint ReadOnce_loop (fuel : nat) (first loop : bool) (n : Z) (r : reader) :
    bufM (option (Z * option ioerr * reader)) :=
  match fuel with
  | O => mret None
  | S fuel =>
      _ ← (if negb first then make_room else mret tt);
      b ← getB;
      let l := Cap b - slen (buf b) in
      '(m, e, r') ← read_into r;
      let n := n + m in
      match e with
      | Some e => mret (Some (n, Some e, r'))
      | None =>
          let loop := loop && (l =? m) && negb (MaxRead <? n) in
          if loop then ReadOnce_loop fuel false loop n r' else mret (Some (n, None, r'))
      end
  end.

Definition ReadOnce (conn : bool) (r : reader) : bufM (option (Z * option ioerr * reader)) :=
  b ← getB;
  _ ← (if slen (buf b) <=? off b then modB Reset else mret tt);
  b ← getB;
  _ ← (if (0 <? off b) && (slen (buf b) - off b <? 4 * MinRead) then copy 0 else mret tt);
  ReadOnce_loop (S (reader_fuel r)) true conn 0 r.

(** ** Writers and the loop of [WriteTo]

    An [io.Writer] is a script of results [(m, e)], at most [len(p)] being
    accepted unless it misbehaves; past the end of the script it accepts
    everything. *)

Abbreviation writer := (list (Z * option ioerr)).

Definition writer_write (p : bytes) (w : writer) : Z * option ioerr * writer :=
  match w with
  | [] => (zlen p, None, [])
  | (m, e) :: w' => (m, e, w')
  end.

(** The bytes accepted by the writer are returned with the count. *)
Fixpoint WriteTo_loop (fuel : nat) (out : bytes) (n : Z) (w : writer) :
    bufM (option (bytes * Z * option ioerr)) :=
  match fuel with
  | O => mret None
  | S fuel =>
      b ← getB;
      if off b <? slen (buf b) then
        let nBytes := Len b in
        p ← slice_from (buf b) (off b);
        let '(m, e, w') := writer_write p w in
        if nBytes <? m then throw PanicErrInvalidWriteCount
        else
          _ ← modB (set_off (off b + m));
          let out := out ++ take (Z.to_nat m) p in
          match e with
          | Some e => mret (Some (out, n + m, Some e))
          | None =>
              if (m =? 0) || (m =? nBytes) then mret (Some (out, n + m, None))
              else WriteTo_loop fuel out (n + m) w'
          end
      else mret (Some (out, n, None))
  end.

Definition WriteTo (w : writer) : bufM (option (bytes * Z * option ioerr)) :=
  WriteTo_loop (S (length w)) [] 0 w.

(** ** Well-formed buffers and their abstract value *)

Definition wf (b : ioBuffer) : Prop := slice_wf (buf b) ∧ 0 ≤ off b ≤ slen (buf b).
Definition view (b : ioBuffer) : bytes := drop (Z.to_nat (off b)) (contents (buf b)).
Definition st_ok (s : world * ioBuffer) : Prop := pool_ok s.1 ∧ wf s.2.

(** [pre] was read since the last [Mark]: [Restore] will give it back. *)
Definition marked (b : ioBuffer) (pre : bytes) : Prop :=
  0 ≤ offMark b ∧ offMark b + zlen pre = off b ∧
  drop (Z.to_nat (offMark b)) (contents (buf b)) = pre ++ view b.

Lemma length_contents s : slice_wf s → length (contents s) = Z.to_nat (slen s).
Proof. intros []. unfold contents. rewrite length_take. unfold scap, zlen in *. lia. Qed.

Lemma length_view b : wf b → zlen (view b) = Len b.
Proof.
  intros [Hs Ho]. unfold zlen, view, Len. rewrite length_drop, length_contents by done. lia.
Qed.

Lemma Len_nil b : wf b → view b = [] ↔ slen (buf b) ≤ off b.
Proof.
  intros Hwf. rewrite <- zlen_0, length_view by done. destruct Hwf as [_ ?]. unfold Len. lia.
Qed.

Lemma Reset_wf b : wf b → wf (Reset b).
Proof. intros [[? ?] ?]. repeat split; simpl; unfold scap in *; simpl in *; lia. Qed.

Lemma Reset_view b : view (Reset b) = [].
Proof. done. Qed.

Lemma slice_from_view {S} (b : ioBuffer) (s : S) :
  wf b → slice_from (buf b) (off b) s = (Ok (view b), s).
Proof.
  intros [_ Ho]. unfold slice_from. rewrite !(proj2 (Z.leb_le _ _)) by lia. done.
Qed.

Lemma reslice_ok {S} (x : slice) n (s : S) :
  0 ≤ n ≤ scap x → reslice x n s = (Ok (Slice (arr x) n), s).
Proof. intros Hn. unfold reslice. by rewrite !(proj2 (Z.leb_le _ _)) by lia. Qed.

Section gocopy.
Context (dst src : bytes) (i n : nat).
Context (Hn : (length src ≤ n)%nat) (Hfit : (i + length src ≤ length dst)%nat).

Lemma gocopy_eq : gocopy dst i n src = take i dst ++ src ++ drop (i + length src) dst.
Proof. unfold gocopy. rewrite Nat.min_r by done. by rewrite firstn_all. Qed.

Lemma length_gocopy : length (gocopy dst i n src) = length dst.
Proof. rewrite gocopy_eq, !length_app, length_take, length_drop. lia. Qed.

Lemma take_gocopy k :
  k = (i + length src)%nat → take k (gocopy dst i n src) = take i dst ++ src.
Proof.
  intros ->. rewrite gocopy_eq, app_assoc, take_app_length'; [done|].
  rewrite length_app, length_take. lia.
Qed.
End gocopy.

(** *** Reading *)

Lemma Read_empty n w b :
  wf b → view b = [] →
  Read n (w, b) = (Ok ([], if n =? 0 then None else Some EOF), (w, Reset b)).
Proof.
  intros Hwf Hv. unfold Read, getB, mbind, stM_bind. simpl.
  by rewrite (proj2 (Z.leb_le _ _)) by (by apply Len_nil).
Qed.

Lemma view_advance b d :
  wf b → d ≤ Len b → 0 ≤ d →
  wf (set_off (off b + d) b) ∧ view (set_off (off b + d) b) = drop (Z.to_nat d) (view b).
Proof.
  unfold Len. intros [Hs Ho] Hd H0. split; [split; simpl; [done|lia]|].
  unfold view. simpl. rewrite drop_drop. f_equal. lia.
Qed.

Lemma Read_ok n w b :
  wf b → view b ≠ [] → 0 ≤ n →
  ∃ b', Read n (w, b) = (Ok (take (Z.to_nat n) (view b), None), (w, b')) ∧
    wf b' ∧ view b' = drop (Z.to_nat n) (view b) ∧
    buf b' = buf b ∧ offMark b' = offMark b ∧
    off b' = off b + zlen (take (Z.to_nat n) (view b)).
Proof.
  intros Hwf Hv Hn. rewrite (Len_nil b Hwf) in Hv.
  unfold Read, getB, mbind, stM_bind. simpl.
  rewrite (proj2 (Z.leb_gt _ _)) by lia.
  rewrite slice_from_view by done. simpl. eexists; split; [done|].
  assert (zlen (take (Z.to_nat n) (view b)) = Z.min n (Len b)) as El.
  { rewrite <- (length_view b Hwf). unfold zlen. rewrite length_take. lia. }
  assert (0 ≤ Len b) by (destruct Hwf; unfold Len; lia).
  destruct (view_advance b (zlen (take (Z.to_nat n) (view b)))) as [H1 H2]; [done|lia|lia|].
  repeat (split; [done|]). rewrite H2. split; [|done].
  rewrite El. destruct (Z.le_gt_cases n (Len b)); [f_equal; lia|].
  rewrite !drop_ge; [done|..]; pose proof (length_view b Hwf); unfold zlen in *; lia.
Qed.

Lemma ReadByte_empty w b :
  wf b → view b = [] → ReadByte (w, b) = (Ok (Err EOF), (w, Reset b)).
Proof.
  intros Hwf Hv. unfold ReadByte, getB, mbind, stM_bind. simpl.
  by rewrite (proj2 (Z.leb_le _ _)) by (by apply Len_nil).
Qed.

Lemma ReadByte_ok w b c v :
  wf b → view b = c :: v →
  ReadByte (w, b) = (Ok (Ok c), (w, set_off (off b + 1) b)) ∧
  wf (set_off (off b + 1) b) ∧ view (set_off (off b + 1) b) = v.
Proof.
  intros Hwf Hv. assert (view b ≠ []) as Hn by (by rewrite Hv).
  rewrite (Len_nil b Hwf) in Hn.
  destruct (view_advance b 1) as [H1 H2]; [done|unfold Len; lia..|].
  split; [|split; [done|by rewrite H2, Hv]].
  unfold ReadByte, getB, mbind, stM_bind. simpl.
  rewrite (proj2 (Z.leb_gt _ _)) by lia.
  assert (contents (buf b) !! Z.to_nat (off b) = Some c) as E.
  { unfold view in Hv. apply (f_equal (.!! 0%nat)) in Hv.
    rewrite lookup_drop, Nat.add_0_r in Hv. exact Hv. }
  by rewrite E.
Qed.

(** *** Mark and Restore *)

Lemma Mark_wf b : wf b → wf (Mark b) ∧ view (Mark b) = view b ∧ marked (Mark b) [].
Proof.
  intros [Hs Ho]. split; [by split|]. split; [done|].
  split; [simpl; lia|]. split; [apply Z.add_0_r|done].
Qed.

Lemma Restore_marked b pre :
  wf b → marked b pre → wf (Restore b) ∧ view (Restore b) = pre ++ view b.
Proof.
  intros [Hs Ho] (Hm & Hoff & Hc). unfold Restore, ResetOffMark.
  rewrite (proj2 (Z.eqb_neq _ _)) by lia. simpl.
  pose proof (zlen_nonneg pre). split; [split; simpl; [done|lia]|exact Hc].
Qed.

Lemma Restore_reset b : Restore (Reset b) = Reset b.
Proof. done. Qed.

(** *** Growing and writing *)

Lemma wp_getB Q (w : world) b : Q b (w, b) → wp getB Q (w, b).
Proof. done. Qed.
Lemma wp_modB f (Q : unit → world * ioBuffer → Prop) w b :
  Q tt (w, f b) → wp (modB f) Q (w, b).
Proof. done. Qed.
Lemma wp_modW f (Q : unit → world * ioBuffer → Prop) w b :
  Q tt (f w, b) → wp (modW f) Q (w, b).
Proof. done. Qed.
Lemma wp_liftW {A} (m : stM goPanic world A) Q w b :
  wp m (λ a w', Q a (w', b)) w → wp (liftW m) Q (w, b).
Proof. unfold wp, wpe, liftW. by destruct (m w) as [[?|?] ?]. Qed.
Lemma wp_reslice {S} (x : slice) n (Q : slice → S → Prop) s :
  0 ≤ n ≤ scap x → Q (Slice (arr x) n) s → wp (reslice x n) Q s.
Proof. intros Hn HQ. unfold wp, wpe. by rewrite reslice_ok. Qed.
Lemma wp_slice_from {S} b (Q : bytes → S → Prop) s :
  wf b → Q (view b) s → wp (slice_from (buf b) (off b)) Q s.
Proof. intros Hb HQ. unfold wp, wpe. by rewrite slice_from_view. Qed.

Ltac wp_step :=
  match goal with
  | |- wp (_ ≫= _) _ _ => apply wp_bind
  | |- wp getB _ _ => apply wp_getB
  | |- wp (modB _) _ _ => apply wp_modB
  | |- wp (modW _) _ _ => apply wp_modW
  | |- wp (liftW _) _ _ => apply wp_liftW
  | |- wp (mret _) _ _ => apply wp_ret
  end.

(** A slice that starts with [v], cut to the length of [v]. *)
Lemma slid_view a (v : bytes) (b : ioBuffer) :
  off b = 0 → buf b = Slice a (zlen v) → take (length v) a = v → wf b ∧ view b = v.
Proof.
  intros Ho Hb Ht. assert (zlen v ≤ zlen a).
  { apply (f_equal length) in Ht. rewrite length_take in Ht. unfold zlen. lia. }
  unfold wf, view, slice_wf, scap, contents. rewrite Ho, Hb. simpl.
  unfold zlen in *. rewrite Nat2Z.id, drop_0. split; [lia|done].
Qed.

Lemma view_fits b : wf b → (length (view b) ≤ length (arr (buf b)))%nat.
Proof.
  intros Hwf. pose proof (length_view b Hwf). destruct Hwf as [[? ?] ?].
  unfold Len, scap, zlen in *. lia.
Qed.

Lemma copy_spec expand w b :
  pool_ok w → wf b → 0 ≤ expand →
  wp (copy expand) (λ _ '(w', b'),
       pool_ok w' ∧ wf b' ∧ off b' = 0 ∧ view b' = view b ∧ count b' = count b ∧
       offMark b' = offMark b ∧
       (if 0 <? expand then 2 * Cap b + expand ≤ Cap b' else Cap b' = Cap b)) (w, b).
Proof.
  intros Hw Hb He. pose proof (length_view b Hb) as Hl. pose proof (view_fits b Hb) as Hf.
  assert (0 ≤ Len b ≤ Cap b) as HL.
  { destruct Hb as [[? ?] ?]. unfold Len, Cap. lia. }
  unfold copy. do 2 wp_step. wp_step. apply wp_slice_from; [done|].
  destruct (0 <? expand) eqn:Ee; bdec.
  - do 2 wp_step. eapply wp_mono; [apply take_bytes_spec; [done|lia]|].
    intros nb w' (Hw' & Hnl & Hnw & _). simpl. destruct Hnw as [_ Hnw].
    assert (length (view b) ≤ Z.to_nat (slen nb))%nat by (unfold zlen in *; lia).
    assert (0 + length (view b) ≤ length (arr nb))%nat by (unfold scap, zlen in *; lia).
    do 2 wp_step. wp_step. apply wp_reslice.
    { unfold scap, Len, zlen in *. simpl. rewrite length_gocopy by lia. lia. }
    wp_step. fold (Len b). rewrite <- Hl. cbn [arr].
    destruct (slid_view (gocopy (arr nb) 0 (Z.to_nat (slen nb)) (view b)) (view b)
      (IoBuffer (Slice (gocopy (arr nb) 0 (Z.to_nat (slen nb)) (view b)) (zlen (view b)))
         0 (offMark b) (count b) (eof b) true false)) as [W V]; [done|done| |].
    { by rewrite take_gocopy. }
    split; [by apply give_bytes_ok|]. split; [exact W|]. repeat (split; [done|]).
    unfold Cap in *. simpl. unfold scap in *. simpl. unfold zlen in *.
    rewrite length_gocopy by lia. lia.
  - wp_step. assert (length (view b) ≤ Z.to_nat (slen (buf b)))%nat.
    { destruct Hb. unfold zlen, Len in *. lia. }
    apply wp_reslice.
    { unfold scap, Len, Cap, zlen in *. simpl. rewrite length_gocopy by lia.
      unfold scap, zlen in *. lia. }
    wp_step. fold (Len b). rewrite <- Hl. cbn [arr].
    match goal with |- _ ∧ wf ?x ∧ _ =>
      destruct (slid_view (arr (buf x)) (view b) x) as [W V]; [done|done| |] end.
    { simpl. by rewrite take_gocopy by lia. }
    split; [done|]. split; [exact W|]. repeat (split; [done|]).
    unfold Cap, scap, zlen. simpl. rewrite length_gocopy by lia. done.
Qed.

(** [n] bytes of room were added behind the unread bytes [v], at index [m]. *)
Definition room (b : ioBuffer) (m n : Z) (v : bytes) : Prop :=
  slice_wf (buf b) ∧ slen (buf b) = m + n ∧ 0 ≤ off b ≤ m ∧
  drop (Z.to_nat (off b)) (take (Z.to_nat m) (arr (buf b))) = v.

Lemma reslice_room b n :
  wf b → 0 ≤ n → slen (buf b) + n ≤ Cap b →
  room (set_buf (Slice (arr (buf b)) (slen (buf b) + n)) b) (slen (buf b)) n (view b).
Proof.
  intros [[? ?] ?] Hn Hc. unfold room, slice_wf. simpl. unfold Cap, scap in *. simpl.
  repeat (split; [lia|]). done.
Qed.

Lemma tryGrow_spec n w b :
  wf b → 0 ≤ n →
  wp (tryGrowByReslice n) (λ r '(w', b'), w' = w ∧ count b' = count b ∧
        match r with
        | Some m => room b' m n (view b)
        | None => b' = b ∧ Cap b < slen (buf b) + n
        end) (w, b).
Proof.
  intros Hb Hn. unfold tryGrowByReslice. do 2 wp_step. fold (Cap b).
  case_if; [|by wp_step].
  wp_step. apply wp_reslice; [destruct Hb as [[? ?] ?]; fold (Cap b); lia|].
  do 3 wp_step. split; [done|]. split; [done|]. by apply reslice_room.
Qed.

Lemma grow_spec n w b :
  pool_ok w → wf b → 0 ≤ n → Cap b < slen (buf b) + n →
  wp (grow n) (λ m '(w', b'), pool_ok w' ∧ count b' = count b ∧ room b' m n (view b)) (w, b).
Proof.
  intros Hw Hb Hn Hc. pose proof (length_view b Hb) as Hl.
  unfold grow. do 2 wp_step. wp_step.
  assert (∃ b1, (if (Len b =? 0) && negb (off b =? 0) then modB Reset else mret tt) (w, b)
      = (Ok tt, (w, b1)) ∧ wf b1 ∧ view b1 = view b ∧ count b1 = count b ∧ Cap b1 = Cap b)
    as (b1 & Eb1 & Hb1 & Hv1 & Hc1 & Hcap1).
  { destruct ((Len b =? 0) && negb (off b =? 0)) eqn:E; [|by exists b].
    exists (Reset b). bdec. split; [done|]. split; [by apply Reset_wf|].
    rewrite Reset_view. split; [|done]. symmetry. apply zlen_0. lia. }
  unfold wp at 1, wpe at 1. rewrite Eb1. clear Eb1.
  wp_step. eapply wp_mono; [by apply tryGrow_spec|].
  intros [m|] [w' b'] (-> & Hc' & H); simpl.
  { wp_step. split; [done|]. split; [congruence|]. by rewrite <- Hv1. }
  destruct H as [-> Hfull]. do 2 wp_step. wp_step.
  eapply (wp_mono _ (λ _ '(w2, b2), pool_ok w2 ∧ wf b2 ∧ view b2 = view b ∧ off b2 = 0 ∧
      count b2 = count b ∧ Len b + n ≤ Cap b2)).
  - pose proof (length_view b1 Hb1). assert (Len b1 = Len b) by congruence.
    assert (0 ≤ Len b1 ≤ Cap b1) by (destruct Hb1 as [[? ?] ?]; unfold Len, Cap; lia).
    case_if.
    + eapply wp_mono; [by apply copy_spec|]. intros _ [w2 b2] (?&?&?&?&?&_&Hcap).
      simpl in Hcap. pose proof (Z.quot_le_upper_bound (Cap b1) 2 (Cap b1)).
      repeat (split; [first [done|congruence]|]). lia.
    + assert (0 < n).
      { destruct (Z.eq_dec n 0) as [->|]; [|lia]. destruct Hb1 as [[? ?] ?]. unfold Cap in *. lia. }
      eapply wp_mono; [apply copy_spec; [done..|lia]|]. intros _ [w2 b2] (?&?&?&?&?&_&Hcap).
      rewrite (proj2 (Z.ltb_lt _ _)) in Hcap by lia.
      repeat (split; [first [done|congruence]|]). lia.
  - intros _ [w2 b2] (Hw2 & Hb2 & Hv2 & Ho2 & Hcnt2 & Hcap2).
    pose proof (length_view b2 Hb2) as Hl2. rewrite Hv2, Hl in Hl2. unfold Len at 2 in Hl2.
    do 2 wp_step. wp_step. apply wp_reslice.
    { fold (Cap b2). destruct Hb2 as [[? ?] ?]. lia. }
    do 3 wp_step. split; [done|]. split; [done|]. rewrite <- Hv2.
    pose proof (reslice_room b2 n Hb2 Hn ltac:(unfold Cap in *; lia)) as R.
    replace (slen (buf b2)) with (Len b) in R by lia.
    destruct R as (R1 & R2 & R3 & R4). unfold room. simpl in *. rewrite Ho2 in R3, R4. done.
Qed.

Lemma copy_in_spec m p w b v :
  pool_ok w → room b m (zlen p) v →
  wp (copy_in m p) (λ n '(w', b'), n = zlen p ∧ pool_ok w' ∧ wf b' ∧ view b' = v ++ p ∧
        count b' = count b) (w, b).
Proof.
  intros Hw ([Hs1 Hs2] & Hl & Ho & Hv). pose proof (zlen_nonneg p).
  unfold copy_in. do 2 wp_step. rewrite !(proj2 (Z.leb_le _ _)) by lia. simpl.
  do 3 wp_step. replace (slen (buf b) - m) with (zlen p) by lia. split; [lia|].
  split; [done|].
  assert (length p ≤ Z.to_nat (zlen p))%nat by (unfold zlen; lia).
  assert (Z.to_nat m + length p ≤ length (arr (buf b)))%nat by (unfold scap, zlen in *; lia).
  split; [|split; [|done]].
  - split; [split; simpl; [lia|]|simpl; lia].
    unfold scap, zlen in *. simpl. rewrite length_gocopy by lia. lia.
  - unfold view, contents. simpl. rewrite take_gocopy; [|lia|lia|unfold zlen in *; lia].
    rewrite drop_app_le; [by rewrite Hv|]. rewrite length_take. lia.
Qed.

(** [Write] appends all of [p] and never panics. *)
Lemma Write_spec p w b :
  pool_ok w → wf b →
  wp (Write p) (λ n '(w', b'), n = zlen p ∧ pool_ok w' ∧ wf b' ∧ view b' = view b ++ p ∧
        count b' = count b) (w, b).
Proof.
  intros Hw Hb. unfold Write. wp_step.
  eapply wp_mono; [apply tryGrow_spec; [done|apply zlen_nonneg]|].
  intros [m|] [w' b'] (-> & Hc & H); simpl; wp_step.
  - wp_step. eapply wp_mono; [by apply copy_in_spec|]. intros n [w2 b2] (?&?&?&?&?).
    repeat (split; [done|]). congruence.
  - destruct H as [-> Hcap].
    eapply wp_mono; [apply grow_spec; [done..|apply zlen_nonneg|done]|].
    intros m [w2 b2] (Hw2 & Hc2 & Hr).
    eapply wp_mono; [by apply copy_in_spec|]. intros n [w3 b3] (?&?&?&?&?).
    repeat (split; [done|]). congruence.
Qed.

Lemma gocopy_single (a : bytes) i p :
  (i < length a)%nat → gocopy a i 1 [p] = <[i := p]> a.
Proof. intros Hi. unfold gocopy. simpl. rewrite Nat.add_1_r. symmetry. by apply insert_take_drop. Qed.

(** [WriteByte] is [Write] of one byte. *)
Lemma WriteByte_spec p w b :
  pool_ok w → wf b →
  wp (WriteByte p) (λ _ '(w', b'), pool_ok w' ∧ wf b' ∧ view b' = view b ++ [p] ∧
        count b' = count b) (w, b).
Proof.
  intros Hw Hb.
  assert (∀ m w1 b1, pool_ok w1 → count b1 = count b → room b1 m 1 (view b) →
    wp (b2 ← getB;
        if (0 <=? m) && (m <? slen (buf b2))
        then modB (set_buf (Slice (<[Z.to_nat m := p]> (arr (buf b2))) (slen (buf b2))))
        else throw PanicSliceBounds)
       (λ _ '(w', b'), pool_ok w' ∧ wf b' ∧ view b' = view b ++ [p] ∧ count b' = count b)
       (w1, b1)) as Hset.
  { intros m w1 b1 Hw1 Hc1 Hr. do 2 wp_step.
    pose proof (copy_in_spec m [p] w1 b1 (view b) Hw1 Hr) as H.
    destruct Hr as ([? ?] & ? & ? & _).
    unfold copy_in, wp, wpe, mbind, stM_bind, getB in H. simpl in H.
    rewrite !(proj2 (Z.leb_le _ _)) in H by lia. simpl in H.
    rewrite (proj2 (Z.leb_le _ _)), (proj2 (Z.ltb_lt _ _)) by lia. simpl. wp_step.
    replace (Z.to_nat (slen (buf b1) - m)) with 1%nat in H by lia.
    rewrite gocopy_single in H by (unfold scap, zlen in *; lia).
    destruct H as (_ & ? & ? & ? & ?). by repeat (split; [done|]). }
  unfold WriteByte. wp_step. eapply wp_mono; [by apply tryGrow_spec|].
  intros [m|] [w' b'] (-> & Hc & H); simpl; wp_step.
  - wp_step. by apply Hset.
  - destruct H as [-> Hcap]. eapply wp_mono; [by apply grow_spec|].
    intros m [w2 b2] (Hw2 & Hc2 & Hr). by apply Hset.
Qed.

(** *** Appending *)

(** [if b.off >= len(b.buf) { b.Reset() }] keeps the unread bytes. *)
Lemma reset_if_drained w b :
  wf b →
  wp (if slen (buf b) <=? off b then modB Reset else mret tt)
     (λ _ '(w', b'), w' = w ∧ wf b' ∧ view b' = view b ∧ count b' = count b) (w, b).
Proof.
  intros Hb. case_if; wp_step; [|done]. split; [done|]. split; [by apply Reset_wf|].
  split; [|done]. symmetry. by apply Len_nil.
Qed.

(** Room for [k] bytes behind the unread ones, sliding or allocating. *)
Lemma free_room_spec k w b :
  pool_ok w → wf b → 0 ≤ k →
  wp (if Cap b - slen (buf b) <? k
      then if off b + (Cap b - slen (buf b)) <? k then copy k else copy 0 else mret tt)
     (λ _ '(w', b'), pool_ok w' ∧ wf b' ∧ view b' = view b ∧ count b' = count b ∧
        slen (buf b') + k ≤ Cap b') (w, b).
Proof.
  intros Hw Hb Hk.
  assert (∀ b', wf b' → off b' = 0 → view b' = view b → slen (buf b') = Len b) as Hs.
  { intros b' Hb' Ho Hv. pose proof (length_view b Hb). pose proof (length_view b' Hb') as H'.
    rewrite Hv in H'. unfold Len at 1 in H'. lia. }
  assert (0 ≤ Len b ≤ Cap b) by (destruct Hb as [[? ?] ?]; unfold Len, Cap; lia).
  case_if; [case_if|].
  - eapply wp_mono; [apply copy_spec; done|]. intros _ [w2 b2] (?&?&?&?&?&_&Hcap).
    repeat (split; [done|]). rewrite (Hs b2) by done.
    destruct (0 <? k) eqn:E; bdec; unfold Cap in *; [lia|].
    destruct Hb as [[? ?] ?]. lia.
  - eapply wp_mono; [apply copy_spec; done|]. intros _ [w2 b2] (?&?&?&?&?&_&Hcap).
    repeat (split; [done|]). rewrite (Hs b2) by done. simpl in Hcap. unfold Len in *. lia.
  - wp_step. repeat (split; [done|]). lia.
Qed.

(** Extending a buffer with room for [d] by [d]. *)
Lemma extend_view b d n :
  wf b → slen (buf b) + zlen d ≤ Cap b → (length d ≤ n)%nat →
  wf (set_buf (Slice (gocopy (arr (buf b)) (Z.to_nat (slen (buf b))) n d)
                     (slen (buf b) + zlen d)) b) ∧
  view (set_buf (Slice (gocopy (arr (buf b)) (Z.to_nat (slen (buf b))) n d)
                     (slen (buf b) + zlen d)) b) = view b ++ d.
Proof.
  intros [[? ?] ?] Hc Hn. pose proof (zlen_nonneg d).
  assert (Z.to_nat (slen (buf b)) + length d ≤ length (arr (buf b)))%nat.
  { unfold Cap, scap, zlen in *. lia. }
  split.
  - split; [split; simpl; [lia|]|simpl; lia].
    unfold Cap, scap, zlen in *. simpl. rewrite length_gocopy by lia. lia.
  - unfold view, contents. simpl.
    rewrite take_gocopy; [|lia|lia|unfold zlen in *; lia].
    rewrite drop_app_le; [done|]. rewrite length_take. lia.
Qed.

Lemma Append_spec data w b :
  pool_ok w → wf b →
  wp (Append data) (λ _ '(w', b'), pool_ok w' ∧ wf b' ∧ view b' = view b ++ data ∧
        count b' = count b) (w, b).
Proof.
  intros Hw Hb. unfold Append. do 2 wp_step. wp_step.
  eapply wp_mono; [by apply reset_if_drained|]. intros _ [w1 b1] (-> & Hb1 & Hv1 & Hc1).
  do 2 wp_step. wp_step.
  eapply wp_mono; [apply free_room_spec; [done..|apply zlen_nonneg]|].
  intros _ [w2 b2] (Hw2 & Hb2 & Hv2 & Hc2 & Hroom). do 2 wp_step. wp_step.
  pose proof (zlen_nonneg data). apply wp_reslice; [destruct Hb2 as [[? ?] ?]; fold (Cap b2); lia|].
  wp_step. simpl. destruct (extend_view b2 data (Z.to_nat (zlen data)) Hb2 Hroom) as [W V].
  { unfold zlen. lia. }
  split; [done|]. split; [exact W|]. split; [|by rewrite <- Hc1, <- Hc2].
  etransitivity; [exact V|]. by rewrite Hv2, Hv1.
Qed.

Lemma NewIoBuffer_spec capacity w :
  pool_ok w →
  wp (NewIoBuffer capacity)
     (λ b w', pool_ok w' ∧ wf b ∧ view b = [] ∧ count b = 1 ∧ offMark b = ResetOffMark ∧
        capacity ≤ Cap b) w.
Proof.
  intros Hw. unfold NewIoBuffer. wp_step.
  eapply wp_mono; [apply take_bytes_spec; [done|]|].
  { change DefaultSize with 16. case_if; lia. }
  intros s w' (Hw' & Hl & [? ?] & _). wp_step. split; [done|].
  split; [split; [split|]; simpl; unfold scap in *; simpl; lia|].
  do 3 (split; [done|]). unfold Cap, scap in *. simpl.
  revert Hl. change DefaultSize with 16. case_if; lia.
Qed.

(** *** Reading from a reader *)

(** What a script delivers up to the call at which [ReadFrom] stops: the bytes,
    and the error it reports. *)
Fixpoint collect (r : reader) : bytes * option ioerr :=
  match r with
  | [] => ([], None)
  | (d, e) :: r' =>
      match e with
      | Some EOF => (d, None)
      | Some e => (d, if zlen d =? 0 then None else Some e)
      | None => if zlen d =? 0 then (d, None)
                else let '(ds, e') := collect r' in (d ++ ds, e')
      end
  end.

Lemma reader_read_len k r : 0 ≤ k → zlen (reader_read k r).1.1 ≤ k.
Proof.
  intros Hk. destruct r as [|[d e] r]; simpl; [by rewrite zlen_nil|].
  case_if; simpl; [done|]. unfold zlen in *. rewrite length_take. lia.
Qed.

Lemma make_room_spec w b :
  pool_ok w → wf b →
  wp make_room (λ _ '(w', b'), pool_ok w' ∧ wf b' ∧ view b' = view b ∧ count b' = count b ∧
     slen (buf b') + MinRead ≤ Cap b') (w, b).
Proof. intros Hw Hb. unfold make_room. do 2 wp_step. by apply free_room_spec. Qed.

Lemma read_into_spec r w b :
  pool_ok w → wf b →
  wp (read_into r) (λ res '(w', b'),
     let '(d, e, r') := reader_read (Cap b - slen (buf b)) r in
     res = (zlen d, e, r') ∧ w' = w ∧ wf b' ∧ view b' = view b ++ d ∧ count b' = count b ∧
     Cap b' = Cap b) (w, b).
Proof.
  intros Hw Hb. unfold read_into. do 2 wp_step.
  pose proof (reader_read_len (Cap b - slen (buf b)) r) as Hd.
  destruct (reader_read _ r) as [[d e] r']. simpl in Hd. pose proof (zlen_nonneg d).
  assert (0 ≤ slen (buf b) ≤ Cap b) as Hc by (destruct Hb as [[? ?] ?]; unfold Cap; lia).
  assert (length d ≤ Z.to_nat (Cap b - slen (buf b)))%nat by (unfold zlen in *; lia).
  assert (zlen (gocopy (arr (buf b)) (Z.to_nat (slen (buf b)))
            (Z.to_nat (Cap b - slen (buf b))) d) = Cap b) as Hlen.
  { unfold zlen at 1. rewrite length_gocopy; [done|done|]. unfold Cap, scap, zlen in *. lia. }
  wp_step. apply wp_reslice.
  { unfold scap. cbn [arr]. rewrite Hlen. lia. }
  simpl. do 3 wp_step. repeat (split; [done|]).
  destruct (extend_view b d (Z.to_nat (Cap b - slen (buf b))) Hb) as [W V]; [lia|done|].
  split; [exact W|]. split; [exact V|]. split; [done|].
  exact Hlen.
Qed.

(** One call of the reader against [collect]. *)
Lemma collect_read k r :
  0 < k →
  let '(d, e, r') := reader_read k r in
  (e = None → reader_fuel r' < reader_fuel r)%nat ∧
  collect r =
    if e =b Some EOF then (d, None)
    else if zlen d =? 0 then ([], None)
    else match e with Some e => (d, Some e)
         | None => (d ++ (collect r').1, (collect r').2) end.
Proof.
  intros Hk. destruct r as [|[d e] r]; simpl; [done|].
  destruct (zlen d <=? k) eqn:Hdk; bdec; simpl.
  - split; [intros _; unfold reader_fuel; csimpl; lia|].
    destruct e as [[]|]; simpl; try done.
    + destruct (zlen d =? 0) eqn:E; bdec; [|done]. by rewrite (proj1 (zlen_0 d) E).
    + destruct (zlen d =? 0) eqn:E; bdec; [|done]. by rewrite (proj1 (zlen_0 d) E).
    + destruct (zlen d =? 0) eqn:E; bdec; [by rewrite (proj1 (zlen_0 d) E)|].
      by destruct (collect r).
  - assert (zlen (take (Z.to_nat k) d) = k) as Ht.
    { unfold zlen in *. rewrite length_take. lia. }
    assert (zlen (drop (Z.to_nat k) d) = zlen d - k) as Hd.
    { unfold zlen in *. rewrite length_drop. lia. }
    split; [intros _; unfold reader_fuel; csimpl; rewrite length_drop; unfold zlen in *; lia|].
    rewrite Ht, Hd. rewrite (proj2 (Z.eqb_neq k 0)), (proj2 (Z.eqb_neq (zlen d - k) 0)),
      (proj2 (Z.eqb_neq (zlen d) 0)) by lia.
    destruct e as [[]|]; simpl; try by rewrite take_drop.
    destruct (collect r) as [ds e']. simpl. by rewrite app_assoc, take_drop.
Qed.

Lemma ReadFrom_loop_spec fuel r n w b :
  pool_ok w → wf b → (reader_fuel r ≤ fuel)%nat →
  wp (ReadFrom_loop fuel n r) (λ res '(w', b'),
     pool_ok w' ∧ wf b' ∧ view b' = view b ++ (collect r).1 ∧ count b' = count b ∧
     ∃ r', res = Some (n + zlen (collect r).1, (collect r).2, r')) (w, b).
Proof.
  revert r n w b. induction fuel as [|fuel IH]; intros r n w b Hw Hb Hf.
  { unfold reader_fuel in Hf. lia. }
  simpl. wp_step. eapply wp_mono; [by apply make_room_spec|].
  intros _ [w1 b1] (Hw1 & Hb1 & Hv1 & Hc1 & Hroom). wp_step.
  eapply wp_mono; [by apply read_into_spec|].
  intros res [w2 b2]. pose proof (collect_read (Cap b1 - slen (buf b1)) r) as Hcol.
  change MinRead with 512 in Hroom. specialize (Hcol ltac:(lia)).
  destruct (reader_read _ r) as [[d e] r']. destruct Hcol as [Hfuel ->].
  intros (-> & -> & Hb2 & Hv2 & Hc2 & _).
  destruct (e =b Some EOF) eqn:He; [|destruct (zlen d =? 0) eqn:Hz; [|destruct e as [e|]]]; bdec.
  - wp_step. split; [done|]. split; [done|]. split; [simpl; congruence|].
    split; [congruence|]. by eexists.
  - wp_step. split; [done|]. split; [done|]. apply zlen_0 in Hz. subst d.
    rewrite app_nil_r in Hv2. split; [simpl; rewrite app_nil_r; congruence|].
    split; [congruence|]. by eexists.
  - wp_step. split; [done|]. split; [done|]. split; [simpl; congruence|].
    split; [congruence|]. by eexists.
  - specialize (Hfuel eq_refl). eapply wp_mono; [apply IH; [done|done|lia]|].
    intros res [w3 b3] (Hw3 & Hb3 & Hv3 & Hc3 & r3 & ->). simpl.
    split; [done|]. split; [done|]. split; [rewrite Hv3, Hv2, Hv1; by rewrite app_assoc|].
    split; [congruence|]. exists r3. rewrite zlen_app. do 3 f_equal. lia.
Qed.

(** *** Writing out *)

(** A writer's answer: its script shortens, or it takes all. *)
Lemma writer_write_ok p ws fuel m e ws' :
  Forall (λ e, 0 ≤ e.1) ws → (length ws < S fuel)%nat → writer_write p ws = (m, e, ws') →
  0 ≤ m ∧ Forall (λ e, 0 ≤ e.1) ws' ∧ ((length ws' < fuel)%nat ∨ m = zlen p) ∧
  (ws = [] → m = zlen p).
Proof.
  intros Hws Hf Ew. destruct ws as [|[m' e'] ws1]; simpl in Ew; injection Ew as <- <- <-.
  - split; [apply zlen_nonneg|]. split; [done|]. by split; [right|].
  - inversion_clear Hws. simpl in *. split; [done|]. split; [done|]. split; [left; lia|done].
Qed.

Lemma WriteTo_loop_spec fuel ws out n w b :
  wf b → Forall (λ e, 0 ≤ e.1) ws → (length ws < fuel)%nat → n = zlen out →
  wpe (WriteTo_loop fuel out n ws)
    (λ res '(w', b'), ∃ d e, res = Some (out ++ d, n + zlen d, e) ∧
        w' = w ∧ wf b' ∧ view b = d ++ view b' ∧ buf b' = buf b ∧
        (ws = [] → view b' = []))
    (λ p '(w', b'), p = PanicErrInvalidWriteCount ∧ w' = w ∧ wf b' ∧
        ∃ d, view b = d ++ view b') (w, b).
Proof.
  revert ws out n b. induction fuel as [|fuel IH]; intros ws out n b Hb Hws Hf Hn; [lia|].
  simpl. apply wpe_bind. unfold wpe at 1, getB. destruct (off b <? slen (buf b)) eqn:E; bdec.
  2:{ unfold wpe, mret, stM_ret. exists [], None.
      assert (view b = []) as Hv by (apply Len_nil; [done|lia]).
      repeat (split; [by rewrite ?app_nil_r, ?Z.add_0_r|]). by rewrite Hv. }
  apply wpe_bind. unfold wpe at 1. rewrite slice_from_view by done.
  pose proof (length_view b Hb) as Hl.
  destruct (writer_write (view b) ws) as [[m e] ws'] eqn:Ew.
  assert (0 ≤ m ∧ Forall (λ e, 0 ≤ e.1) ws' ∧ (length ws' < fuel ∨ m = Len b)%nat ∧
          (ws = [] → m = Len b)) as (Hm & Hws' & Hf' & Hnil).
  { rewrite <- Hl. eapply writer_write_ok; [exact Hws|exact Hf|exact Ew]. }
  destruct (Len b <? m) eqn:Em; bdec.
  { unfold wpe, throw. repeat (split; [done|]). by exists []. }
  apply wpe_bind. unfold wpe at 1, modB.
  destruct (view_advance b m Hb Em Hm) as [Hb' Hv'].
  assert (zlen (take (Z.to_nat m) (view b)) = m) as Ht.
  { unfold zlen in *. rewrite length_take. lia. }
  assert (view b = take (Z.to_nat m) (view b) ++ view (set_off (off b + m) b)) as Hsplit.
  { by rewrite Hv', take_drop. }
  assert (∀ e : option ioerr, wpe (mret (Some (out ++ take (Z.to_nat m) (view b), n + m, e)))
    (λ res '(w', b'), ∃ d e, res = Some (out ++ d, n + zlen d, e) ∧
        w' = w ∧ wf b' ∧ view b = d ++ view b' ∧ buf b' = buf b ∧ (ws = [] → view b' = []))
    (λ p '(w', b'), p = PanicErrInvalidWriteCount ∧ w' = w ∧ wf b' ∧
        ∃ d, view b = d ++ view b') (w, set_off (off b + m) b)) as Hret.
  { intros e'. exists (take (Z.to_nat m) (view b)), e'. rewrite Ht.
    repeat (split; [done|]). intros ->. rewrite Hv', Hnil by done. apply drop_ge.
    unfold zlen in *. lia. }
  destruct e as [e|]; [apply Hret|]. case_if; [apply Hret|].
  destruct Hf' as [Hf'| ->]; [|done].
  eapply wpe_mono; [apply (IH ws'); [done|done|done|]| |].
  - rewrite zlen_app, Ht. lia.
  - intros res [w2 b2] (d & e & -> & -> & Hb2 & Hv2 & Hbuf & _).
    exists (take (Z.to_nat m) (view b) ++ d), e. rewrite zlen_app, Ht.
    split; [by rewrite app_assoc, Z.add_assoc|]. repeat (split; [done|]).
    split; [by rewrite <- app_assoc, <- Hv2|]. split; [by rewrite Hbuf|].
    intros ->. by specialize (Hnil eq_refl).
  - intros p [w2 b2] (-> & -> & Hb2 & d & Hd). repeat (split; [done|]).
    exists (take (Z.to_nat m) (view b) ++ d). by rewrite <- app_assoc, <- Hd.
Qed.

(** *** Dropping, cutting and peeking *)

Lemma Drain_spec n b :
  wf b → 0 ≤ n →
  wf (Drain n b) ∧
  view (Drain n b) = if Len b <? n then view b else drop (Z.to_nat n) (view b).
Proof.
  intros Hb Hn. unfold Drain, Len. destruct (slen (buf b) <? off b + n) eqn:E; bdec.
  - rewrite (proj2 (Z.ltb_lt _ _)) by lia. done.
  - rewrite (proj2 (Z.ltb_ge _ _)) by lia. apply (view_advance b n); [done|unfold Len; lia|done].
Qed.

Lemma Peek_spec n b :
  wf b → 0 ≤ n →
  Peek n b = Ok (if Len b <? n then None else Some (take (Z.to_nat n) (view b))).
Proof.
  intros [_ Hb] Hn. unfold Peek, Len. case_if; [done|].
  rewrite !(proj2 (Z.leb_le _ _)) by lia. done.
Qed.

Lemma Cut_spec n w b :
  wf b → 0 ≤ n ≤ Len b →
  wp (Cut n) (λ r '(w', b'), ∃ c, r = Some c ∧ w' = w ∧ wf c ∧ wf b' ∧
     view b = view c ++ view b' ∧ Len c = n) (w, b).
Proof.
  intros Hb Hn. pose proof (length_view b Hb) as Hl. pose proof Hb as [[? ?] ?].
  unfold Cut. do 2 wp_step. unfold Len in Hn.
  rewrite (proj2 (Z.ltb_ge _ _)), !(proj2 (Z.leb_le _ _)) by lia. simpl.
  do 3 wp_step. eexists. split; [done|]. split; [done|]. fold (view b).
  assert (length (take (Z.to_nat n) (view b)) = Z.to_nat n) as Ht.
  { rewrite length_take. unfold zlen, Len in *. lia. }
  destruct (slid_view (take (Z.to_nat n) (view b)) (take (Z.to_nat n) (view b))
     (IoBuffer (Slice (take (Z.to_nat n) (view b)) n) 0 0 0 false false false)) as [W V].
  { done. } { simpl. f_equal. unfold zlen. lia. } { apply firstn_all. }
  split; [exact W|].
  destruct (view_advance b n Hb ltac:(unfold Len; lia) ltac:(lia)) as [W' V'].
  split; [exact W'|]. split; [|unfold Len; simpl; lia]. rewrite V.
  etransitivity; [symmetry; apply (take_drop (Z.to_nat n))|]. f_equal. symmetry. exact V'.
Qed.

Lemma giveSlice_spec w b :
  pool_ok w → wf b → off b = 0 → wp giveSlice (λ _ '(w', b'), pool_ok w' ∧ wf b' ∧ off b' = 0 ∧
     offMark b' = offMark b ∧ count b' = count b ∧ eof b' = eof b) (w, b).
Proof.
  intros Hw Hb Ho. unfold giveSlice, wp, wpe. destruct (pooled b); [|done].
  split; [by apply give_bytes_ok|]. rewrite Ho. done.
Qed.

Lemma Alloc_spec size w b :
  pool_ok w → wf b → off b = 0 →
  wp (Alloc size) (λ _ '(w', b'), pool_ok w' ∧ wf b' ∧ view b' = [] ∧ count b' = count b ∧
     size ≤ Cap b') (w, b).
Proof.
  intros Hw Hb Ho. unfold Alloc. do 2 wp_step. wp_step.
  eapply (wp_mono _ (λ _ '(w1, b1), pool_ok w1 ∧ wf b1 ∧ off b1 = 0 ∧ count b1 = count b)).
  { destruct (bnil b); simpl; [by wp_step|]. unfold Free. do 2 wp_step.
    eapply wp_mono; [apply giveSlice_spec; [done|by apply Reset_wf|done]|].
    by intros _ [w1 b1] (?&?&?&?&?&?). }
  intros _ [w1 b1] (Hw1 & Hb1 & Ho1 & Hc1). do 2 wp_step.
  eapply wp_mono; [apply take_bytes_spec; [done|]|].
  { change DefaultSize with 16. case_if; lia. }
  intros s w' (Hw' & Hl & [? ?] & _). wp_step. split; [done|].
  split; [split; [split|]; simpl; unfold scap in *; simpl; lia|].
  split; [unfold view, contents; simpl; by rewrite Ho1|]. split; [done|]. unfold Cap, scap in *. simpl.
  revert Hl. change DefaultSize with 16. case_if; lia.
Qed.

(** *** [ReadOnce] *)

(** All the bytes a script still has to deliver. *)
Definition pending (r : reader) : bytes := concat (fst <$> r).

Lemma reader_read_pending k r :
  0 ≤ k →
  let '(d, e, r') := reader_read k r in
  pending r = d ++ pending r' ∧ (reader_fuel r' ≤ reader_fuel r)%nat ∧
  (0 < k → e = None → (reader_fuel r' < reader_fuel r)%nat).
Proof.
  intros Hk. destruct r as [|[d e] r]; simpl; [done|]. unfold pending, reader_fuel. case_if.
  - csimpl. split; [done|]. lia.
  - csimpl. rewrite app_assoc, take_drop, length_drop. unfold zlen in *. split; [done|]. lia.
Qed.

Lemma ReadOnce_loop_spec fuel (first loop : bool) n r w b :
  pool_ok w → wf b → (reader_fuel r + (if first then 1 else 0) ≤ fuel)%nat →
  wp (ReadOnce_loop fuel first loop n r) (λ res '(w', b'),
     pool_ok w' ∧ wf b' ∧ count b' = count b ∧
     ∃ d e r', res = Some (n + zlen d, e, r') ∧ view b' = view b ++ d ∧
       pending r = d ++ pending r') (w, b).
Proof.
  revert first loop n r w b. induction fuel as [|fuel IH]; intros first loop n r w b Hw Hb Hf.
  { unfold reader_fuel in Hf. lia. }
  simpl. wp_step.
  eapply (wp_mono _ (λ _ '(w1, b1), pool_ok w1 ∧ wf b1 ∧ view b1 = view b ∧
    count b1 = count b ∧ (first = false → slen (buf b1) < Cap b1))).
  { destruct first; simpl; [by wp_step|].
    eapply wp_mono; [by apply make_room_spec|]. intros _ [w1 b1] (?&?&?&?&Hroom).
    change MinRead with 512 in Hroom. repeat (split; [done|]). intros _. lia. }
  intros _ [w1 b1] (Hw1 & Hb1 & Hv1 & Hc1 & Hroom). do 2 wp_step. wp_step.
  eapply wp_mono; [by apply read_into_spec|]. intros res [w2 b2].
  pose proof (reader_read_pending (Cap b1 - slen (buf b1)) r) as Hp.
  assert (0 ≤ Cap b1 - slen (buf b1)) as H0 by (destruct Hb1 as [[? ?] ?]; unfold Cap; lia).
  specialize (Hp H0). destruct (reader_read _ r) as [[d e] r'].
  destruct Hp as (Hp & Hle & Hlt). intros (-> & -> & Hb2 & Hv2 & Hc2 & _).
  rewrite Hv1 in Hv2.
  destruct e as [e|]; [|case_if].
  - wp_step. split; [done|]. split; [done|]. split; [congruence|]. by exists d, (Some e), r'.
  - eapply wp_mono.
    + apply IH; [done|done|]. destruct first; [lia|].
      specialize (Hlt ltac:(specialize (Hroom eq_refl); lia) eq_refl). lia.
    + intros res [w3 b3] (Hw3 & Hb3 & Hc3 & d3 & e3 & r3 & -> & Hv3 & Hp3).
      split; [done|]. split; [done|]. split; [congruence|].
      exists (d ++ d3), e3, r3. rewrite zlen_app, Hv3, Hv2, Hp, Hp3, !app_assoc.
      split; [do 3 f_equal; lia|done].
  - wp_step. split; [done|]. split; [done|]. split; [congruence|]. by exists d, None, r'.
Qed.

(** *** [Read] on every branch *)

Lemma Read_spec n w b :
  wf b → 0 ≤ n →
  wp (Read n) (λ r '(w', b'), w' = w ∧ wf b' ∧
        r = (take (Z.to_nat n) (view b),
             if bool_decide (view b = []) && negb (n =? 0) then Some EOF else None) ∧
        view b' = drop (Z.to_nat n) (view b)) (w, b).
Proof.
  intros Hb Hn. unfold wp, wpe. destruct (decide (view b = [])) as [E|E].
  - rewrite Read_empty by done. rewrite E, Reset_view, drop_nil, take_nil.
    split; [done|]. split; [by apply Reset_wf|]. split; [|done].
    by destruct (n =? 0).
  - destruct (Read_ok n w b Hb E Hn) as (b' & -> & Hb' & Hv & _).
    rewrite bool_decide_eq_false_2 by done. done.
Qed.

(** ** Properties *)

(** [Write] on a well-formed buffer never panics, whatever stale slices the
    pool hands out: it reports all of [p] written, appends [p] to the unread
    bytes, and keeps the buffer and the pool well-formed. *)
Theorem write_appends p w b :
  pool_ok w → wf b →
  ∃ w' b', Write p (w, b) = (Ok (zlen p), (w', b')) ∧
    pool_ok w' ∧ wf b' ∧ view b' = view b ++ p.
Proof.
  intros Hw Hb. destruct (proj1 (wp_run _ _ _) (Write_spec p w b Hw Hb))
    as (n & [w' b'] & E & -> & H1 & H2 & H3 & _). eauto 6.
Qed.

(** [ReadFrom] terminates on every reader: it appends exactly the bytes the
    reader delivers before its first end of file, empty read or error, and
    reports their number and that error. *)
Theorem readfrom_collects r w b :
  pool_ok w → wf b →
  ∃ w' b' r', ReadFrom r (w, b) =
      (Ok (Some (zlen (collect r).1, (collect r).2, r')), (w', b')) ∧
    pool_ok w' ∧ wf b' ∧ view b' = view b ++ (collect r).1.
Proof.
  intros Hw Hb. assert (wp (ReadFrom r) (λ res '(w', b'), pool_ok w' ∧ wf b' ∧
     view b' = view b ++ (collect r).1 ∧
     ∃ r', res = Some (zlen (collect r).1, (collect r).2, r')) (w, b)) as H.
  { unfold ReadFrom. do 2 wp_step. wp_step. eapply wp_mono; [by apply reset_if_drained|].
    intros _ [w1 b1] (-> & Hb1 & Hv1 & _).
    eapply wp_mono; [by apply ReadFrom_loop_spec|].
    intros res [w2 b2] (?&?&Hv2&_&r'&->). rewrite Hv1 in Hv2. eauto 6. }
  apply wp_run in H as (res & [w' b'] & E & ? & ? & ? & r' & ->). eauto 8.
Qed.

(** [ReadOnce] terminates and loses nothing: the bytes it appends are a
    prefix of what the reader had pending, the rest stays with the reader, and
    the count reported is their number. *)
Theorem readonce_splits conn r w b :
  pool_ok w → wf b →
  ∃ d e r' w' b', ReadOnce conn r (w, b) = (Ok (Some (zlen d, e, r')), (w', b')) ∧
    pool_ok w' ∧ wf b' ∧ view b' = view b ++ d ∧ pending r = d ++ pending r'.
Proof.
  intros Hw Hb. assert (wp (ReadOnce conn r) (λ res '(w', b'), pool_ok w' ∧ wf b' ∧
     ∃ d e r', res = Some (zlen d, e, r') ∧ view b' = view b ++ d ∧
       pending r = d ++ pending r') (w, b)) as H.
  { unfold ReadOnce. do 2 wp_step. wp_step. eapply wp_mono; [by apply reset_if_drained|].
    intros _ [w1 b1] (-> & Hb1 & Hv1 & _). do 2 wp_step. wp_step.
    eapply (wp_mono _ (λ _ '(w2, b2), pool_ok w2 ∧ wf b2 ∧ view b2 = view b)).
    { case_if; [|by wp_step]. eapply wp_mono; [by apply copy_spec|].
      intros _ [w2 b2] (?&?&_&?&_). split; [done|]. split; [done|congruence]. }
    intros _ [w2 b2] (Hw2 & Hb2 & Hv2).
    eapply wp_mono; [apply ReadOnce_loop_spec; [done|done|lia]|].
    intros res [w3 b3] (?&?&_&d&e&r'&->&Hv3&?). rewrite Hv2 in Hv3. split; [done|].
    split; [done|]. by exists d, e, r'. }
  apply wp_run in H as (res & [w' b'] & E & ? & ? & d & e & r' & -> & ? & ?).
  exists d, e, r', w', b'. eauto.
Qed.

(** [WriteTo] hands the writer a prefix of the unread bytes and keeps the
    rest: it returns the number accepted, drains the buffer when the writer
    accepts everything, and panics only on a writer that claims more than it
    was given. *)
Theorem writeto_partitions ws w b :
  wf b → Forall (λ e, 0 ≤ e.1) ws →
  wpe (WriteTo ws)
    (λ res '(w', b'), ∃ d e, res = Some (d, zlen d, e) ∧ wf b' ∧ view b = d ++ view b' ∧
        (ws = [] → view b' = []))
    (λ p '(w', b'), p = PanicErrInvalidWriteCount ∧ wf b' ∧ ∃ d, view b = d ++ view b')
    (w, b).
Proof.
  intros Hb Hws. eapply wpe_mono; [apply WriteTo_loop_spec; [done|done|lia|done]| |].
  - intros res [w' b'] (d & e & -> & _ & ? & ? & _ & ?). simpl. by exists d, e.
  - intros p [w' b'] (-> & _ & ? & ?). done.
Qed.

(** [Mark], any number of bytes taken with [Read] from a buffer that still
    has some, then [Restore] give the buffer its unread bytes back. *)
Theorem mark_read_restore n w b :
  wf b → 0 ≤ n → view b ≠ [] →
  ∃ d b', Read n (w, Mark b) = (Ok (d, None), (w, b')) ∧ view b = d ++ view b' ∧
    wf (Restore b') ∧ view (Restore b') = view b.
Proof.
  intros Hb Hn Hv. destruct (Mark_wf b Hb) as (Hm & Hmv & _).
  destruct (Read_ok n w (Mark b) Hm Hv Hn) as (b' & E & Hb' & Hv' & Hbuf & Hmark & Hoff).
  exists (take (Z.to_nat n) (view b)), b'. split; [exact E|].
  assert (view b = take (Z.to_nat n) (view b) ++ view b') as Hs.
  { by rewrite Hv', Hmv, take_drop. }
  split; [done|]. rewrite Hs. apply Restore_marked; [done|].
  unfold marked. rewrite Hbuf, Hmark, Hoff, Hmv. cbn [Mark set_offMark off offMark buf].
  split; [by destruct Hb as [_ [? _]]|]. split; [done|]. exact Hs.
Qed.

(** *** Witnesses *)

Definition w0 : world := World newByteBufferPool [].
Definition b0 : ioBuffer :=
  IoBuffer (Slice (bs "hello") 5) 2 ResetOffMark 1 false false false.

Lemma w0_ok : pool_ok w0.
Proof. apply newByteBufferPool_ok. Qed.
Lemma b0_wf : wf b0.
Proof. split; [split|]; vm_compute; congruence || (split; congruence). Qed.

Lemma write_appends_witness :
  ∃ w' b', Write (bs "world") (w0, b0) = (Ok 5, (w', b')) ∧
    pool_ok w' ∧ wf b' ∧ view b' = bs "lloworld".
Proof. apply (write_appends (bs "world") w0 b0 w0_ok b0_wf). Defined.

Lemma readfrom_collects_witness :
  ∃ w' b' r', ReadFrom [(bs "ab", None); (bs "c", Some EOF)] (w0, b0) =
      (Ok (Some (3, None, r')), (w', b')) ∧
    pool_ok w' ∧ wf b' ∧ view b' = bs "lloabc".
Proof. apply (readfrom_collects [(bs "ab", None); (bs "c", Some EOF)] w0 b0 w0_ok b0_wf). Defined.

Lemma readonce_splits_witness :
  ∃ d e r' w' b',
    ReadOnce true [(bs "ab", None)] (w0, b0) = (Ok (Some (zlen d, e, r')), (w', b')) ∧
    pool_ok w' ∧ wf b' ∧ view b' = view b0 ++ d ∧ pending [(bs "ab", None)] = d ++ pending r'.
Proof. apply (readonce_splits true [(bs "ab", None)] w0 b0 w0_ok b0_wf). Defined.

Lemma writeto_partitions_witness :
  wpe (WriteTo [(1, None)])
    (λ res '(w', b'), ∃ d e, res = Some (d, zlen d, e) ∧ wf b' ∧ view b0 = d ++ view b' ∧
        ([(1, @None ioerr)] = [] → view b' = []))
    (λ p '(w', b'), p = PanicErrInvalidWriteCount ∧ wf b' ∧ ∃ d, view b0 = d ++ view b')
    (w0, b0).
Proof. apply (writeto_partitions [(1, None)] w0 b0 b0_wf). repeat constructor; simpl; lia. Defined.

Lemma mark_read_restore_witness :
  ∃ d b', Read 2 (w0, Mark b0) = (Ok (d, None), (w0, b')) ∧ view b0 = d ++ view b' ∧
    wf (Restore b') ∧ view (Restore b') = view b0.
Proof. apply (mark_read_restore 2 w0 b0 b0_wf); [lia|done]. Defined.
