(* ===== verification/IoBufferPool.v ===== *)
(** * The pool of reference-counted buffers (src/pkg/buffer/iobufferpool.go)

    Buffers are shared by pointer, so the state is a heap of buffers and the
    [sync.Pool] holds pointers into it.  A buffer is live while its count is
    positive; [PutIoBuffer] drops a reference and recycles the buffer with the
    last one. *)

From S2P Require Import Prelude BytePool IoBuffer.

Record bstore := BStore { bw : world; heap : list ioBuffer; ibPool : list nat }.

(** The next choice of [sync.Pool.Get]. *)
Definition choose (w : world) : nat * world :=
  match oracle w with
  | [] => (0%nat, w)
  | c :: o => (c, World (bbPool w) o)
  end.

(** [NewIoBuffer] at a new address. *)
Definition allocBuffer (size : Z) : stM goPanic bstore nat := λ s,
  match NewIoBuffer size (bw s) with
  | (Ok b, w') => (Ok (length (heap s)), BStore w' (heap s ++ [b]) (ibPool s))
  | (Err e, w') => (Err e, BStore w' (heap s) (ibPool s))
  end.

(** A method call on the buffer at address [p]. *)
Definition on_buffer {A} (p : nat) (m : bufM A) : stM goPanic bstore A := λ s,
  match heap s !! p with
  | None => (Err PanicSliceBounds, s)
  | Some b =>
      let '(r, (w', b')) := m (bw s, b) in (r, BStore w' (<[p := b']> (heap s)) (ibPool s))
  end.

Definition CountM (n : Z) : bufM Z := λ '(w, b),
  let '(c, b') := Count n b in (Ok c, (w, b')).

(** [take] *)
Definition take_buf (size : Z) : stM goPanic bstore nat := λ s,
  let '(c, w) := choose (bw s) in
  match ibPool s !! c with
  | None => allocBuffer size (BStore w (heap s) (ibPool s))
  | Some p =>
      ((_ ← on_buffer p (_ ← Alloc size; CountM 1); mret p))
        (BStore w (heap s) (delete c (ibPool s)))
  end.

(** [sync.Pool.Put] *)
Definition pool_put (p : nat) : stM goPanic bstore unit := λ s,
  (Ok tt, BStore (bw s) (heap s) (p :: ibPool s)).

(** [give] *)
Definition give_buf (p : nat) : stM goPanic bstore unit :=
  _ ← on_buffer p Free; pool_put p.

Definition GetIoBuffer := take_buf.

(** [PutIoBuffer]: [false] is the error [PutIoBuffer duplicate]. *)
Definition PutIoBuffer (p : nat) : stM goPanic bstore bool :=
  c ← on_buffer p (CountM (-1));
  if 0 <? c then mret true
  else if c <? 0 then mret false
  else _ ← give_buf p; mret true.

(** [Clone] *)
Definition Clone (p : nat) : stM goPanic bstore nat :=
  n ← on_buffer p (b ← getB; mret (Len b));
  q ← GetIoBuffer n;
  d ← on_buffer p Bytes;
  _ ← on_buffer q (Write d);
  e ← on_buffer p (b ← getB; mret (eof b));
  _ ← on_buffer q (modB (SetEOF e));
  mret q.

(** ** Invariant: the pool holds distinct, unreferenced, drained buffers *)

Record store_ok (s : bstore) : Prop := {
  so_world : pool_ok (bw s);
  so_wf : Forall wf (heap s);
  so_nodup : NoDup (ibPool s);
  so_free : ∀ p, p ∈ ibPool s → ∃ b, heap s !! p = Some b ∧ count b = 0 ∧ off b = 0
}.

Lemma store_ok_empty o : store_ok (BStore (World newByteBufferPool o) [] []).
Proof.
  constructor; simpl; [apply newByteBufferPool_ok|constructor|constructor|].
  intros p []%not_elem_of_nil.
Qed.

Lemma choose_ok w : pool_ok w → pool_ok (choose w).2.
Proof. intros [? ?]. unfold choose. destruct (oracle w); by split. Qed.

Lemma store_live s p b : store_ok s → heap s !! p = Some b → 0 < count b → p ∉ ibPool s.
Proof.
  intros Hs Hp Hc [b' (E & ? & _)]%(so_free s Hs). rewrite Hp in E. injection E as <-. lia.
Qed.

(** The other buffers do not move. *)
Definition others_kept (p : nat) (s s' : bstore) : Prop :=
  ∀ q, q ≠ p → ∀ b, heap s !! q = Some b → heap s' !! q = Some b.

Lemma wp_on_buffer {A} p (m : bufM A) s b (Q : A → world * ioBuffer → Prop)
    (R : A → bstore → Prop) :
  heap s !! p = Some b → wp m Q (bw s, b) →
  (∀ a w' b', Q a (w', b') → R a (BStore w' (<[p := b']> (heap s)) (ibPool s))) →
  wp (on_buffer p m) R s.
Proof.
  intros Hp Hm HR. apply wp_run in Hm as (a & [w' b'] & E & HQ).
  unfold wp, wpe, on_buffer. rewrite Hp, E. by apply HR.
Qed.

(** A method that only looks at the buffer. *)
Lemma wp_on_buffer_ro {A} p (m : bufM A) s b a (R : A → bstore → Prop) :
  heap s !! p = Some b → m (bw s, b) = (Ok a, (bw s, b)) → R a s → wp (on_buffer p m) R s.
Proof.
  intros Hp Hm HR. unfold wp, wpe, on_buffer. rewrite Hp, Hm, list_insert_id by done.
  by destruct s.
Qed.

Lemma store_ok_update s p b' w' pool' :
  store_ok s → pool_ok w' → wf b' → NoDup pool' →
  (∀ q, q ∈ pool' → q ≠ p → q ∈ ibPool s) →
  (p ∈ pool' → is_Some (heap s !! p) ∧ count b' = 0 ∧ off b' = 0) →
  store_ok (BStore w' (<[p := b']> (heap s)) pool').
Proof.
  intros Hs Hw Hb Hn Hq Hp. constructor; simpl; [done| |done|].
  - by apply Forall_insert; [apply so_wf|].
  - intros q Hin. destruct (decide (q = p)) as [->|Hne].
    + destruct (Hp Hin) as ([b E] & ? & ?). exists b'. split; [|done].
      apply list_lookup_insert_eq, lookup_lt_is_Some. by exists b.
    + destruct (so_free s Hs q (Hq q Hin Hne)) as (b & E & ?).
      exists b. by rewrite list_lookup_insert_ne.
Qed.

Lemma others_kept_insert p b' s w' pool' :
  others_kept p s (BStore w' (<[p := b']> (heap s)) pool').
Proof. intros q Hq b E. simpl. by rewrite list_lookup_insert_ne. Qed.

Lemma others_kept_trans p s1 s2 s3 :
  others_kept p s1 s2 → others_kept p s2 s3 → others_kept p s1 s3.
Proof. unfold others_kept. eauto. Qed.

Lemma Free_spec w b :
  pool_ok w → wf b →
  wp Free (λ _ '(w', b'), pool_ok w' ∧ wf b' ∧ off b' = 0 ∧ count b' = count b ∧
     Len b' = 0) (w, b).
Proof.
  intros Hw Hb. unfold Free. do 2 wp_step.
  unfold giveSlice, wp, wpe. cbn [Reset pooled]. destruct (pooled b).
  - split; [by apply give_bytes_ok|]. done.
  - split; [done|]. split; [by apply (Reset_wf b)|]. done.
Qed.

Lemma NoDup_delete {A} (l : list A) c p :
  NoDup l → l !! c = Some p → NoDup (delete c l) ∧ p ∉ delete c l.
Proof.
  intros Hn Ec. rewrite delete_take_drop. rewrite <- (take_drop_middle _ _ _ Ec) in Hn.
  apply list.NoDup_app in Hn as (? & Hd & [Hp ?]%list.NoDup_cons). split.
  - apply list.NoDup_app. split; [done|]. split; [|done]. intros x Hx Hx'.
    apply (Hd x Hx). by right.
  - rewrite elem_of_app. intros [Hx|Hx]; [|done]. apply (Hd p Hx). by left.
Qed.

Lemma take_buf_spec size s :
  store_ok s →
  wp (GetIoBuffer size) (λ p s', store_ok s' ∧ others_kept p s s' ∧ (p ∉ ibPool s') ∧
    (∀ b, heap s !! p = Some b → count b = 0) ∧
    ∃ b, heap s' !! p = Some b ∧ wf b ∧ view b = [] ∧ count b = 1 ∧ size ≤ Cap b) s.
Proof.
  intros Hs. unfold GetIoBuffer, take_buf, wp, wpe.
  pose proof (choose_ok (bw s) (so_world s Hs)) as Hw.
  destruct (choose (bw s)) as [c w]. simpl in Hw.
  destruct (ibPool s !! c) as [p|] eqn:Ec.
  - destruct (so_free s Hs p) as (b & Eb & Hc0 & Ho); [by eapply list_elem_of_lookup_2|].
    pose proof (proj1 (Forall_lookup _ _) (so_wf s Hs) _ _ Eb) as Hwf.
    assert (NoDup (delete c (ibPool s)) ∧ p ∉ delete c (ibPool s)) as [Hnd Hnp].
    { apply NoDup_delete; [apply so_nodup; done|done]. }
    change (wp ((_ ← on_buffer p (_ ← Alloc size; CountM 1); mret p))
      (λ p s', store_ok s' ∧ others_kept p s s' ∧ (p ∉ ibPool s') ∧
        (∀ b, heap s !! p = Some b → count b = 0) ∧
        ∃ b, heap s' !! p = Some b ∧ wf b ∧ view b = [] ∧ count b = 1 ∧ size ≤ Cap b)
      (BStore w (heap s) (delete c (ibPool s)))).
    wp_step. eapply (wp_on_buffer p _ _ b
      (λ _ '(w', b'), pool_ok w' ∧ wf b' ∧ view b' = [] ∧ count b' = 1 ∧ size ≤ Cap b')).
    { done. }
    { wp_step. eapply wp_mono; [by apply Alloc_spec|].
      intros _ [w' b'] (?&[? ?]&?&Hcnt&?). unfold CountM, wp, wpe, Count. simpl.
      rewrite Hcnt, Hc0. done. }
    intros _ w' b' (Hw' & Hb' & Hv' & Hc' & Hcap'). wp_step. simpl.
    split; [|split; [apply others_kept_insert|split; [done|split; [naive_solver|]]]].
    + apply store_ok_update; [done..| |done].
      intros q Hin _. rewrite delete_take_drop in Hin.
      rewrite <- (take_drop_middle _ _ _ Ec). set_solver.
    + exists b'. split; [|done]. apply list_lookup_insert_eq, lookup_lt_is_Some. by exists b.
  - unfold allocBuffer. simpl.
    pose proof (NewIoBuffer_spec size w Hw) as (b & w' & E & Hw' & Hb & Hv & Hc & _ & Hcap)%wp_run.
    rewrite E. clear E.
    assert (∀ q b', heap s !! q = Some b' → (heap s ++ [b]) !! q = Some b') as Hold.
    { intros q b' E. by apply lookup_app_l_Some. }
    assert (length (heap s) ∉ ibPool s) as Hfresh.
    { intros (b' & E & _)%(so_free s Hs). apply lookup_lt_Some in E. lia. }
    split; [|split; [|split; [done|split]]].
    + constructor; simpl; [done| |apply so_nodup; done|].
      * apply Forall_app. split; [by apply so_wf|]. by constructor.
      * intros p (b' & E & ?)%(so_free s Hs). eauto.
    + intros q _ b' E. by apply Hold.
    + intros b' E. apply lookup_lt_Some in E. lia.
    + exists b. split; [|done]. simpl. by rewrite lookup_app_r, Nat.sub_diag by lia.
Qed.

Lemma wp_CountM n w b (Q : Z → world * ioBuffer → Prop) :
  Q (int32 (count b + n))
    (w, IoBuffer (buf b) (off b) (offMark b) (int32 (count b + n)) (eof b) (pooled b) (bnil b)) →
  wp (CountM n) Q (w, b).
Proof. done. Qed.

Lemma int32_dec c : 0 < c < 2147483648 → int32 (c + -1) = c - 1.
Proof. intros H. rewrite int32_small; lia. Qed.

(** Dropping a reference of a live buffer. *)
Lemma PutIoBuffer_spec p b s :
  store_ok s → heap s !! p = Some b → 0 < count b < 2147483648 →
  wp (PutIoBuffer p) (λ ok s', ok = true ∧ store_ok s' ∧ others_kept p s s' ∧
    ∃ b', heap s' !! p = Some b' ∧ count b' = count b - 1 ∧
      (if count b =? 1 then ibPool s' = p :: ibPool s ∧ Len b' = 0
       else ibPool s' = ibPool s ∧ view b' = view b)) s.
Proof.
  intros Hs Hp Hc. pose proof (store_live s p b Hs Hp ltac:(lia)) as Hlive.
  pose proof (proj1 (Forall_lookup _ _) (so_wf s Hs) _ _ Hp) as Hwf.
  assert (p < length (heap s))%nat as Hlt by by eapply lookup_lt_Some.
  unfold PutIoBuffer. wp_step. eapply (wp_on_buffer p _ _ b); [done| |].
  { by apply (wp_CountM _ _ _ (λ c s', c = count b - 1 ∧ s' = (bw s,
      IoBuffer (buf b) (off b) (offMark b) (count b - 1) (eof b) (pooled b) (bnil b))));
      rewrite int32_dec. }
  intros c w' b1 [-> [= -> ->]]. simpl. case_if; [|case_if; [lia|]].
  - wp_step. split; [done|]. split; [|split; [apply others_kept_insert|]].
    + apply store_ok_update; [done|by apply so_world|exact Hwf|by apply so_nodup|done|done].
    + eexists. simpl. split; [by apply list_lookup_insert_eq|]. split; [done|].
      rewrite (proj2 (Z.eqb_neq _ _)) by lia. done.
  - assert (count b = 1) as H1 by lia. rewrite H1. unfold give_buf.
    do 2 wp_step. eapply wp_on_buffer.
    + simpl. by apply list_lookup_insert_eq.
    + apply Free_spec; [simpl; by apply so_world|exact Hwf].
    + intros _ w2 b2 (Hw2 & Hb2 & Ho2 & Hc2 & Hl2). simpl in Hc2 |- *.
      rewrite list_insert_insert_eq. unfold wp, wpe, pool_put. simpl. split; [done|].
      split; [|split; [apply others_kept_insert|]].
      * apply store_ok_update; [done|done|done| |set_solver|].
        { apply list.NoDup_cons. split; [done|]. by apply so_nodup. }
        { intros _. split; [by exists b|]. split; [lia|done]. }
      * exists b2. split; [by apply list_lookup_insert_eq|]. split; [lia|]. done.
Qed.

(** ** Properties *)

(** [GetIoBuffer] returns an empty buffer of at least the requested
    capacity with one reference, whose address no live buffer has; every other
    buffer is untouched, and the pool's invariant is kept. *)
Theorem getiobuffer_fresh size s :
  store_ok s →
  ∃ p s' b, GetIoBuffer size s = (Ok p, s') ∧ store_ok s' ∧
    heap s' !! p = Some b ∧ wf b ∧ view b = [] ∧ count b = 1 ∧ size ≤ Cap b ∧
    ∀ q bq, heap s !! q = Some bq → 0 < count bq → q ≠ p ∧ heap s' !! q = Some bq.
Proof.
  intros Hs. destruct (proj1 (wp_run _ _ _) (take_buf_spec size s Hs))
    as (p & s' & E & Hs' & Hk & _ & Hfree & b & Hb & ? & ? & ? & ?).
  exists p, s', b. do 7 (split; [done|]). intros q bq Hq Hc.
  assert (q ≠ p) as Hne; [|by split; [|apply Hk]].
  intros ->. specialize (Hfree _ Hq). lia.
Qed.

(** [PutIoBuffer] on a live buffer drops one reference: the buffer keeps its
    contents while references remain, and goes to the pool drained with the
    last one; on an unreferenced buffer it only reports the duplicate. *)
Theorem putiobuffer_refcount p b s :
  store_ok s → heap s !! p = Some b → 0 ≤ count b < 2147483648 →
  ∃ s' b', PutIoBuffer p s = (Ok (0 <? count b), s') ∧ others_kept p s s' ∧
    heap s' !! p = Some b' ∧ count b' = count b - 1 ∧
    (0 < count b → store_ok s' ∧
      if count b =? 1 then ibPool s' = p :: ibPool s ∧ Len b' = 0
      else ibPool s' = ibPool s ∧ view b' = view b) ∧
    (count b = 0 → ibPool s' = ibPool s).
Proof.
  intros Hs Hp Hc. destruct (Z.eq_dec (count b) 0) as [E0|E0].
  - unfold PutIoBuffer, mbind, stM_bind, on_buffer at 1, CountM, Count. rewrite Hp, E0. simpl.
    eexists _, _. split; [done|]. split; [apply others_kept_insert|]. simpl.
    split; [apply list_lookup_insert_eq; by eapply lookup_lt_Some|]. done.
  - destruct (proj1 (wp_run _ _ _) (PutIoBuffer_spec p b s Hs Hp ltac:(lia)))
      as (ok & s' & E & -> & Hs' & Hk & b' & Hb' & Hc' & Hrest).
    exists s', b'. rewrite (proj2 (Z.ltb_lt _ _)) by lia.
    do 4 (split; [done|]). split; [done|lia].
Qed.

(** [Clone] returns a new buffer with the same unread bytes and end-of-file
    flag and one reference, and leaves the original's bytes alone. *)
Theorem clone_copies p b s :
  store_ok s → heap s !! p = Some b → 0 < count b →
  ∃ q s' c, Clone p s = (Ok q, s') ∧ store_ok s' ∧ q ≠ p ∧
    heap s' !! p = Some b ∧ heap s' !! q = Some c ∧
    view c = view b ∧ eof c = eof b ∧ count c = 1.
Proof.
  intros Hs Hp Hc.
  assert (wp (Clone p) (λ q s', store_ok s' ∧ q ≠ p ∧ heap s' !! p = Some b ∧
    ∃ c, heap s' !! q = Some c ∧ view c = view b ∧ eof c = eof b ∧ count c = 1) s) as H;
    [|apply wp_run in H as (q & s' & ? & ? & ? & ? & c & ?); exists q, s', c; naive_solver].
  pose proof (proj1 (Forall_lookup _ _) (so_wf s Hs) _ _ Hp) as Hwf.
  unfold Clone. wp_step. eapply wp_on_buffer_ro; [done|done|].
  wp_step. eapply wp_mono; [by apply take_buf_spec|].
  intros q s1 (Hs1 & Hk1 & Hq1 & Hfree & c & Hcq & Hcwf & Hcv & Hcc & _).
  assert (q ≠ p) as Hne by (intros ->; specialize (Hfree _ Hp); lia).
  assert (heap s1 !! p = Some b) as Hp1 by (by apply Hk1).
  assert (q < length (heap s1))%nat as Hql by (by eapply lookup_lt_Some).
  wp_step. eapply wp_on_buffer_ro; [done| |].
  { unfold Bytes, mbind, stM_bind, getB. by rewrite slice_from_view. }
  wp_step. eapply wp_on_buffer; [done|apply Write_spec; [by apply (so_world _ Hs1)|done]|].
  intros n w2 c2 (_ & Hw2 & Hc2 & Hv2 & Hcc2).
  wp_step. eapply wp_on_buffer_ro; [|done|].
  { simpl. by rewrite list_lookup_insert_ne. }
  wp_step. eapply (wp_on_buffer q _ _ c2 (λ _ s', s' = (w2, SetEOF (eof b) c2))); [|done|].
  { simpl. by apply list_lookup_insert_eq. }
  intros _ w3 c3 [= -> ->]. wp_step. simpl. rewrite list_insert_insert_eq.
  split; [apply store_ok_update; [done|done|done|by apply so_nodup|done|done]|].
  split; [done|]. split; [by rewrite list_lookup_insert_ne|].
  eexists. split; [by apply list_lookup_insert_eq|]. rewrite Hcv in Hv2.
  split; [exact Hv2|]. split; [done|]. simpl. congruence.
Qed.

(** *** Witnesses *)

Definition s0 : bstore := BStore w0 [b0] [].
Definition s1 : bstore :=
  BStore w0 [b0; IoBuffer (Slice [] 0) 0 ResetOffMark 0 false false true] [1%nat].

Lemma s0_ok : store_ok s0.
Proof.
  constructor; simpl; [apply w0_ok|constructor; [apply b0_wf|constructor]|constructor|].
  intros p []%not_elem_of_nil.
Qed.
Lemma s1_ok : store_ok s1.
Proof.
  constructor; simpl; [apply w0_ok| |apply NoDup_singleton|].
  - constructor; [apply b0_wf|]. constructor; [|constructor]. by split; [split|].
  - intros p ->%list_elem_of_singleton. by eexists.
Qed.

Lemma getiobuffer_fresh_witness :
  ∃ p s' b, GetIoBuffer 100 s1 = (Ok p, s') ∧ store_ok s' ∧
    heap s' !! p = Some b ∧ wf b ∧ view b = [] ∧ count b = 1 ∧ 100 ≤ Cap b ∧
    ∀ q bq, heap s1 !! q = Some bq → 0 < count bq → q ≠ p ∧ heap s' !! q = Some bq.
Proof. apply (getiobuffer_fresh 100 s1 s1_ok). Defined.

Lemma putiobuffer_refcount_witness :
  ∃ s' b', PutIoBuffer 0 s0 = (Ok (0 <? count b0), s') ∧ others_kept 0 s0 s' ∧
    heap s' !! 0%nat = Some b' ∧ count b' = count b0 - 1 ∧
    (0 < count b0 → store_ok s' ∧
      if count b0 =? 1 then ibPool s' = 0%nat :: ibPool s0 ∧ Len b' = 0
      else ibPool s' = ibPool s0 ∧ view b' = view b0) ∧
    (count b0 = 0 → ibPool s' = ibPool s0).
Proof. apply (putiobuffer_refcount 0 b0 s0 s0_ok); [done|simpl; lia]. Defined.

Lemma clone_copies_witness :
  ∃ q s' c, Clone 0 s1 = (Ok q, s') ∧ store_ok s' ∧ q ≠ 0%nat ∧
    heap s' !! 0%nat = Some b0 ∧ heap s' !! q = Some c ∧
    view c = view b0 ∧ eof c = eof b0 ∧ count c = 1.
Proof. apply (clone_copies 0 b0 s1 s1_ok); [done|simpl; lia]. Defined.
