(* ===== verification/BufferCtx.v ===== *)
(** * Buffers that live with a context

    src/pkg/buffer/buffer.go, with the contexts that src/pkg/filter/network/proxy/buffer.go
    and src/pkg/filter/network/controller/buffer.go register.  A stream keeps its structs
    in the bufferValue of its context; when the stream ends all of them are given back
    at once, each to the pool of its kind, and the bufferValue itself to a pool too.

    An object is a number, with its contents in [objs]; a bufferValue is a number,
    with its two arrays in [bvs].  sync.Pool hands out any of its items or none, as
    the oracle says (BytePool.v).  A goroutine that still holds a bufferValue that was
    given back can use it: the theorems say what holds when none does, and what
    happens otherwise. *)

From S2P Require Import Prelude.

Definition maxBufferPool : nat := 16.

Inductive panic : Type := OverFull | NotRegistered | OutOfRange | NilDereference | Dangling.

Section buffers.
Context {C : Type}.

(** BufferPoolCtx *)
Record BufferPoolCtx : Type := mkCtx { New : C; Reset : C → C }.

Record bufferPool : Type := mkPool { ctx : option BufferPoolCtx; items : list nat }.
Record bufferValue : Type := mkValue { value : list (option nat); transmit : list (option nat) }.
Definition nullBufferValue : list (option nat) := replicate maxBufferPool None.

Record state : Type := mkState {
  index : Z; bPool : list bufferPool; vPool : list nat;
  bvs : list bufferValue; objs : list (nat * C); oracle : list nat
}.
Definition set_index (x : Z) (s : state) : state := mkState x (bPool s) (vPool s) (bvs s) (objs s) (oracle s).
Definition set_bPool (x : list bufferPool) (s : state) : state := mkState (index s) x (vPool s) (bvs s) (objs s) (oracle s).
Definition set_vPool (x : list nat) (s : state) : state := mkState (index s) (bPool s) x (bvs s) (objs s) (oracle s).
Definition set_bvs (x : list bufferValue) (s : state) : state := mkState (index s) (bPool s) (vPool s) x (objs s) (oracle s).
Definition set_objs (x : list (nat * C)) (s : state) : state := mkState (index s) (bPool s) (vPool s) (bvs s) x (oracle s).
Definition set_oracle (x : list nat) (s : state) : state := mkState (index s) (bPool s) (vPool s) (bvs s) (objs s) x.

Definition init (o : list nat) : state := mkState 0 (replicate maxBufferPool (mkPool None [])) [] [] [] o.

Abbreviation M := (stM panic state).

(** sync.Pool.Get *)
Definition draw (l : list nat) (o : list nat) : option nat * list nat * list nat :=
  let '(c, o') := match o with [] => (0%nat, []) | c :: o' => (c, o') end in
  match l !! c with Some v => (Some v, delete c l, o') | None => (None, l, o') end.

Definition RegisterBuffer (poolCtx : BufferPoolCtx) : M Z :=
  st ← getS;
  let i := int32 (index st + 1) in
  putS (set_index i st);;
  if Z.of_nat maxBufferPool <=? i then throw OverFull
  else
    st ← getS;
    match bPool st !! Z.to_nat i with
    | Some p => putS (set_bPool (<[Z.to_nat i := mkPool (Some poolCtx) (items p)]> (bPool st)) st);; mret i
    | None => throw OutOfRange
    end.

(** bufferPool.take *)
Definition take_ (i : nat) : M nat :=
  st ← getS;
  match bPool st !! i with
  | None => throw OutOfRange
  | Some p =>
      let '(r, l, o) := draw (items p) (oracle st) in
      let st := set_oracle o (set_bPool (<[i := mkPool (ctx p) l]> (bPool st)) st) in
      match r with
      | Some v => putS st;; mret v
      | None =>
          match ctx p with
          | None => throw NilDereference
          | Some c => putS (set_objs (objs st ++ [(i, New c)]) st);; mret (length (objs st))
          end
      end
  end.
(** bufferPool.give *)
Definition give_ (i v : nat) : M unit :=
  st ← getS;
  match bPool st !! i with
  | None => throw OutOfRange
  | Some p =>
      match ctx p with
      | None => throw NilDereference
      | Some c =>
          putS (set_objs (alter (λ x, (x.1, Reset c x.2)) v (objs st))
                 (set_bPool (<[i := mkPool (ctx p) (v :: items p)]> (bPool st)) st))
      end
  end.

Definition newBufferValue : M nat :=
  st ← getS;
  let '(r, l, o) := draw (vPool st) (oracle st) in
  let st := set_oracle o (set_vPool l st) in
  match r with
  | Some p => putS st;; mret p
  | None => putS (set_bvs (bvs st ++ [mkValue nullBufferValue nullBufferValue]) st);; mret (length (bvs st))
  end.
Definition NewBufferPoolContext : M nat := newBufferValue.
(** The bufferValue of a context that has one, or a new one. *)
Definition PoolContext (c : option nat) : M nat :=
  match c with Some p => mret p | None => newBufferValue end.

Definition deref (p : nat) : M bufferValue :=
  st ← getS; match bvs st !! p with Some b => mret b | None => throw Dangling end.
Definition assign (p : nat) (b : bufferValue) : M unit := st ← getS; putS (set_bvs (<[p := b]> (bvs st)) st).

Definition TransmitBufferPoolContext (dst src : option nat) : M unit :=
  s ← PoolContext src;
  sv ← deref s;
  if bool_decide (value sv = nullBufferValue) then mret ()
  else
    d ← PoolContext dst;
    dv ← deref d;
    assign d (mkValue (value dv) (value sv));;
    sv ← deref s;
    assign s (mkValue nullBufferValue (transmit sv)).

(** bufferValue.Take, for a context of index [i] *)
Definition Take (p : nat) (i : nat) : M nat :=
  v ← take_ i;
  b ← deref p;
  assign p (mkValue (<[i := Some v]> (value b)) (transmit b));;
  mret v.
Definition Find (p : nat) (i : Z) : M nat :=
  st ← getS;
  if (i <=? 0) || (index st <? i) then throw NotRegistered
  else
    b ← deref p;
    match value b !! Z.to_nat i with
    | None => throw OutOfRange
    | Some (Some v) => mret v
    | Some None => Take p (Z.to_nat i)
    end.

Definition give_slot (i : nat) (l : list (option nat)) : M unit :=
  match l !! i with
  | None => throw OutOfRange
  | Some None => mret ()
  | Some (Some v) => give_ i v
  end.
(** [n] rounds of the loop, from [i]. *)
Fixpoint give_loop (n i : nat) (p : nat) : M unit :=
  match n with
  | O => mret ()
  | S n =>
      b ← deref p;
      give_slot i (value b);;
      give_slot i (transmit b);;
      give_loop n (S i) p
  end.
Definition Give (p : nat) : M unit :=
  st ← getS;
  if index st <=? 0 then mret ()
  else
    give_loop (Z.to_nat (index st)) 1 p;;
    assign p (mkValue nullBufferValue nullBufferValue);;
    st ← getS;
    putS (set_vPool (p :: vPool st) st).

(** A write to an object by who holds it. *)
Definition write (v : nat) (c : C) : M unit :=
  st ← getS; putS (set_objs (alter (λ x, (x.1, c)) v (objs st)) st).

(** ** Runs in which only live contexts are used *)

Definition held (st : state) (p : nat) : list (option nat) :=
  match bvs st !! p with Some b => value b ++ transmit b | None => [] end.
Definition live (st : state) (p : nat) : bool :=
  bool_decide (p < length (bvs st))%nat && negb (bool_decide (p ∈ vPool st)).

Inductive op : Type :=
| ORegister (c : BufferPoolCtx) | ONew | OFind (p : nat) (i : Z) | OTransmit (d s : nat) | OGive (p : nat)
| OWrite (p v : nat) (c : C).
Definition allowed (st : state) (o : op) : bool :=
  match o with
  | ORegister _ => index st <? 15
  | ONew => true
  | OFind p _ => live st p
  | OTransmit d s => live st d && live st s
  | OGive p => live st p
  | OWrite p v _ => live st p && bool_decide (Some v ∈ held st p)
  end.
Definition exec (o : op) : M unit :=
  match o with
  | ORegister c => RegisterBuffer c;; mret ()
  | ONew => NewBufferPoolContext;; mret ()
  | OFind p i => Find p i;; mret ()
  | OTransmit d s => TransmitBufferPoolContext (Some d) (Some s)
  | OGive p => Give p
  | OWrite _ v c => write v c
  end.
Inductive reach (o : list nat) : state → Prop :=
| reach_init : reach o (init o)
| reach_step st x : reach o st → allowed st x = true → reach o (exec x st).2.
End buffers.
Arguments BufferPoolCtx C : clear implicits.
Arguments state C : clear implicits.
Arguments op C : clear implicits.

(** ** Who holds an object *)

Definition occ {A} `{EqDecision A} (x : A) (l : list A) : Z := zsum (λ y, if decide (y = x) then 1 else 0) l.

Section occ.
Context {A : Type} `{EqDecision A}.
Implicit Types (x y : A) (l : list A).
Lemma occ_nonneg x l : 0 ≤ occ x l.
Proof. apply zsum_nonneg. intros y. by destruct (decide (y = x)). Qed.
Lemma occ_in x l : x ∈ l → 1 ≤ occ x l.
Proof.
  intros E. pose proof (zsum_elem (λ y, if decide (y = x) then 1 else 0) l x) as P. cbv beta in P.
  destruct (decide (x = x)); [|done]. apply P; [|done]. intros y. by destruct (decide (y = x)).
Qed.
Lemma occ_out x l : x ∉ l → occ x l = 0.
Proof.
  induction l as [|y l IH]; intros N; [done|]. apply not_elem_of_cons in N as [N1 N2]. unfold occ in *. simpl.
  rewrite decide_False by congruence. by rewrite IH.
Qed.
Lemma occ_nil x : occ x [] = 0.
Proof. done. Qed.
Lemma occ_cons x y l : occ x (y :: l) = (if decide (y = x) then 1 else 0) + occ x l.
Proof. done. Qed.
Lemma occ_app x l k : occ x (l ++ k) = occ x l + occ x k.
Proof. apply zsum_app. Qed.
Lemma occ_insert x l i y z : l !! i = Some y →
  occ x (<[i := z]> l) = occ x l - (if decide (y = x) then 1 else 0) + (if decide (z = x) then 1 else 0).
Proof. intros E. unfold occ. by rewrite (zsum_insert _ _ _ _ _ E). Qed.
Lemma occ_delete x l i y : l !! i = Some y → occ x (delete i l) = occ x l - (if decide (y = x) then 1 else 0).
Proof.
  intros E. unfold occ. rewrite delete_take_drop. by rewrite (zsum_delete _ _ _ _ E).
Qed.
End occ.

Section invariant.
Context {C : Type}.
Implicit Types (st : state C).

Definition in_pools (v : nat) (l : list bufferPool) : Z := zsum (λ p : bufferPool (C := C), occ v (items p)) l.
Definition in_value (v : nat) (b : bufferValue) : Z := occ (Some v) (value b) + occ (Some v) (transmit b).
Definition in_values (v : nat) (l : list bufferValue) : Z := zsum (in_value v) l.
Definition kinds st : list nat := (objs st).*1.

(** An entry of the arrays of a bufferValue is of the kind of its place. *)
Definition entries_ok st (l : list (option nat)) : Prop :=
  length l = maxBufferPool ∧
  ∀ j v, l !! j = Some (Some v) → (1 ≤ j)%nat ∧ Z.of_nat j ≤ index st ∧ kinds st !! v = Some j.
Definition fresh (c : BufferPoolCtx C) (x : C) : Prop := x = New c ∨ ∃ y, x = Reset c y.

(** [fl]: objects that are on their way between a pool and a bufferValue. *)
Record wf (fl : list nat) st : Prop := {
  wf_index : 0 ≤ index st ≤ 15;
  wf_pools : length (bPool st) = maxBufferPool;
  wf_ctx : ∀ i, (1 ≤ i)%nat → Z.of_nat i ≤ index st → ∃ p c, bPool st !! i = Some p ∧ ctx p = Some c;
  wf_free : ∀ i p, bPool st !! i = Some p → index st < Z.of_nat i → ctx p = None;
  wf_items : ∀ i p v, bPool st !! i = Some p → v ∈ items p →
    ∃ c x, ctx p = Some c ∧ objs st !! v = Some (i, x) ∧ fresh c x;
  wf_values : ∀ p b, bvs st !! p = Some b → entries_ok st (value b) ∧ entries_ok st (transmit b);
  wf_given : ∀ p, p ∈ vPool st → bvs st !! p = Some (mkValue nullBufferValue nullBufferValue);
  wf_vPool : NoDup (vPool st);
  wf_once : ∀ v, in_pools v (bPool st) + in_values v (bvs st) + occ v fl ≤ 1;
  wf_known : ∀ v, 1 ≤ in_pools v (bPool st) + in_values v (bvs st) + occ v fl → (v < length (objs st))%nat
}.

Lemma in_pools_nonneg v l : 0 ≤ in_pools v l.
Proof. apply zsum_nonneg. intros p. apply occ_nonneg. Qed.
Lemma in_value_nonneg v b : 0 ≤ in_value v b.
Proof. unfold in_value. pose proof (occ_nonneg (Some v) (value b)). pose proof (occ_nonneg (Some v) (transmit b)). lia. Qed.
Lemma in_values_nonneg v l : 0 ≤ in_values v l.
Proof. apply zsum_nonneg. intros b. apply in_value_nonneg. Qed.
Lemma null_entries st : entries_ok st nullBufferValue.
Proof.
  split; [done|]. intros j v E. apply lookup_replicate_1 in E as [E _]. done.
Qed.
Lemma in_value_null v : in_value v (mkValue nullBufferValue nullBufferValue) = 0.
Proof.
  unfold in_value. simpl. assert (Some v ∉ nullBufferValue) as N.
  { by intros E%elem_of_replicate_inv. }
  by rewrite !occ_out.
Qed.
(** Entries stay right when objects are added or written and kinds registered. *)
Lemma entries_mono st st' l : entries_ok st l → index st ≤ index st' →
  (∀ v k, kinds st !! v = Some k → kinds st' !! v = Some k) → entries_ok st' l.
Proof. intros [L E] I K. split; [done|]. intros j v Ej. destruct (E j v Ej) as (? & ? & ?). split; [done|]. split; [lia|]. by apply K. Qed.
Lemma in_pools_insert v l i p q : l !! i = Some p →
  in_pools v (<[i := q]> l) = in_pools v l - occ v (items p) + occ v (items q).
Proof. intros E. unfold in_pools. by rewrite (zsum_insert _ _ _ _ _ E). Qed.
Lemma in_values_insert v l i b c : l !! i = Some b →
  in_values v (<[i := c]> l) = in_values v l - in_value v b + in_value v c.
Proof. intros E. unfold in_values. by rewrite (zsum_insert _ _ _ _ _ E). Qed.

Lemma draw_spec l o r l' o' : draw l o = (r, l', o') →
  match r with Some v => ∃ c, l !! c = Some v ∧ l' = delete c l | None => l' = l end.
Proof.
  unfold draw. destruct (match o with [] => (0%nat, []) | c :: o1 => (c, o1) end) as [c o1].
  destruct (l !! c) eqn:E; intros; simplify_eq; [by exists c|done].
Qed.

(** What a change of the pools must keep. *)
Lemma wf_change fl fl' st st' : wf fl st → index st' = index st → bvs st' = bvs st → vPool st' = vPool st →
  (∀ v k, kinds st !! v = Some k → kinds st' !! v = Some k) → length (bPool st') = maxBufferPool →
  (∀ i p c, bPool st !! i = Some p → ctx p = Some c → ∃ p', bPool st' !! i = Some p' ∧ ctx p' = Some c) →
  (∀ i p, bPool st' !! i = Some p → index st < Z.of_nat i → ctx p = None) →
  (∀ i p v, bPool st' !! i = Some p → v ∈ items p → ∃ c x, ctx p = Some c ∧ objs st' !! v = Some (i, x) ∧ fresh c x) →
  (∀ v, in_pools v (bPool st') + in_values v (bvs st') + occ v fl' ≤ 1) →
  (∀ v, 1 ≤ in_pools v (bPool st') + in_values v (bvs st') + occ v fl' → (v < length (objs st'))%nat) →
  wf fl' st'.
Proof.
  intros W Ei Eb Ev K Lp Cx Fr It On Kn. destruct W. split; try done; [by rewrite Ei|..].
  - intros i H1 H2. rewrite Ei in H2. destruct (wf_ctx0 i H1 H2) as (p & c & Hp & Hc).
    destruct (Cx i p c Hp Hc) as (p' & ? & ?). by exists p', c.
  - by rewrite Ei.
  - intros p b. rewrite Eb. intros Hb. destruct (wf_values0 p b Hb). split; eapply entries_mono; try done; lia.
  - by rewrite Ev, Eb.
  - by rewrite Ev.
Qed.

(** Writing to objects and adding one keeps what is known of the others. *)
Lemma kinds_app st v k y : kinds st !! v = Some k → (objs st ++ [y]).*1 !! v = Some k.
Proof. intros E. rewrite fmap_app. by apply lookup_app_l_Some. Qed.

Section take.
Context (st : state C) (i : nat) (p : bufferPool (C := C)) (c : BufferPoolCtx C).
Context (W : wf [] st) (Hp : bPool st !! i = Some p) (Hc : ctx p = Some c).

Lemma wf_take_pooled k v o : items p !! k = Some v →
  wf [v] (set_oracle o (set_bPool (<[i := mkPool (ctx p) (delete k (items p))]> (bPool st)) st)).
Proof.
  intros Ek. apply (wf_change [] [v] st); try done; simpl.
  - by rewrite length_insert, (wf_pools _ _ W).
  - intros j q d Hq Hd. destruct (decide (i = j)) as [<-|]; [|rewrite list_lookup_insert_ne by done; by exists q].
    simplify_eq. eexists. by rewrite list_lookup_insert_eq by (by eapply lookup_lt_Some).
  - intros j q [(<- & <- & _)|[_ Hq]]%list_lookup_insert_Some Hj; [by apply (wf_free _ _ W i p)|by apply (wf_free _ _ W j q)].
  - intros j q w [(<- & <- & _)|[_ Hq]]%list_lookup_insert_Some Hw; [|by apply (wf_items _ _ W j q w)].
    simpl in *. apply (wf_items _ _ W i p w Hp). rewrite delete_take_drop in Hw. rewrite <- (take_drop_middle _ _ _ Ek). set_solver.
  - intros w. rewrite (in_pools_insert _ _ _ _ _ Hp). simpl. rewrite (occ_delete _ _ _ _ Ek).
    pose proof (wf_once _ _ W w) as On. rewrite occ_cons, occ_nil in *. lia.
  - intros w Hw. apply (wf_known _ _ W w). rewrite (in_pools_insert _ _ _ _ _ Hp) in Hw. simpl in Hw.
    rewrite (occ_delete _ _ _ _ Ek), occ_cons, occ_nil in Hw. rewrite occ_nil. lia.
Qed.
Lemma wf_take_new o : wf [length (objs st)]
  (set_objs (objs st ++ [(i, New c)]) (set_oracle o (set_bPool (<[i := mkPool (ctx p) (items p)]> (bPool st)) st))).
Proof.
  set (v := length (objs st)).
  assert (in_pools v (bPool st) + in_values v (bvs st) + occ v [] < 1) as Hn.
  { destruct (decide (1 ≤ in_pools v (bPool st) + in_values v (bvs st) + occ v [])) as [Hk|]; [|lia].
    apply (wf_known _ _ W) in Hk. unfold v in Hk. lia. }
  rewrite (list_insert_id _ i) by (rewrite Hp; by destruct p).
  apply (wf_change [] [v] st); try done; simpl.
  - intros w k. apply kinds_app.
  - apply (wf_pools _ _ W).
  - intros j q d Hq Hd. by exists q.
  - apply (wf_free _ _ W).
  - intros j q w Hq Hw. destruct (wf_items _ _ W j q w Hq Hw) as (d & x & ? & Hx & ?). exists d, x.
    by rewrite (lookup_app_l_Some _ _ _ _ Hx).
  - intros w. pose proof (wf_once _ _ W w) as On. rewrite occ_cons. destruct (decide (v = w)) as [<-|]; lia.
  - intros w Hw. rewrite length_app. simpl. rewrite occ_cons in Hw. destruct (decide (v = w)) as [<-|]; [unfold v; lia|].
    rewrite Z.add_0_l in Hw. apply (wf_known _ _ W) in Hw. lia.
Qed.
End take.

Lemma take_ok st i : wf [] st → (1 ≤ i)%nat → Z.of_nat i ≤ index st →
  ∃ v st' p c x, take_ i st = (Ok v, st') ∧ wf [v] st' ∧ index st' = index st ∧ bvs st' = bvs st ∧ vPool st' = vPool st ∧
    bPool st !! i = Some p ∧ ctx p = Some c ∧ objs st' !! v = Some (i, x) ∧ fresh c x.
Proof.
  intros W H1 H2. destruct (wf_ctx _ _ W i H1 H2) as (p & c & Hp & Hc).
  unfold take_, mbind, stM_bind. simpl. rewrite Hp.
  destruct (draw (items p) (oracle st)) as [[r l] o] eqn:Ed. apply draw_spec in Ed. destruct r as [v|].
  - destruct Ed as (k & Ek & ->). assert (v ∈ items p) as Hv by (by eapply list_elem_of_lookup_2).
    destruct (wf_items _ _ W i p v Hp Hv) as (c' & x & Hc' & Hx & Fx). simplify_eq.
    eexists v, _, p, c, x. split; [done|]. split; [|done]. by apply (wf_take_pooled st i p c).
  - subst l. rewrite Hc. eexists (length (objs st)), _, p, c, (New c). split; [done|]. split.
    { rewrite <- Hc. by apply (wf_take_new st i p c). }
    repeat split; try done; simpl; [by apply list_lookup_middle|by left].
Qed.

Lemma wf_less fl fl' st : wf fl st → (∀ v, occ v fl' ≤ occ v fl) → wf fl' st.
Proof.
  intros W L. destruct W. split; try done.
  - intros v. specialize (wf_once0 v). specialize (L v). lia.
  - intros v Hv. apply wf_known0. specialize (L v). lia.
Qed.
(** A bufferValue that is in use changes. *)
Lemma wf_set_bv fl fl' st p b b' : wf fl st → bvs st !! p = Some b → p ∉ vPool st →
  entries_ok st (value b') → entries_ok st (transmit b') →
  (∀ v, in_value v b' + occ v fl' ≤ in_value v b + occ v fl) →
  wf fl' (set_bvs (<[p := b']> (bvs st)) st).
Proof.
  intros W Hb Np E1 E2 L. destruct W. split; try done; simpl.
  - intros q x [(<- & <- & _)|[_ Hq]]%list_lookup_insert_Some; [done|]. by apply (wf_values0 q).
  - intros q Hq. rewrite list_lookup_insert_ne by (by intros ->). by apply wf_given0.
  - intros v. rewrite (in_values_insert _ _ _ _ _ Hb). specialize (L v). specialize (wf_once0 v). lia.
  - intros v. rewrite (in_values_insert _ _ _ _ _ Hb). intros Hv. apply wf_known0. specialize (L v). lia.
Qed.

Lemma give_ok B fl st i v : wf (v :: fl) (set_bvs B st) → (1 ≤ i)%nat → Z.of_nat i ≤ index st → kinds st !! v = Some i →
  ∃ st', give_ i v st = (Ok (), st') ∧ wf fl (set_bvs B st') ∧ index st' = index st ∧ bvs st' = bvs st ∧
    vPool st' = vPool st ∧ kinds st' = kinds st.
Proof.
  intros W H1 H2 Kv. destruct (wf_ctx _ _ W i H1 H2) as (p & c & Hp & Hc). simpl in Hp.
  unfold give_, mbind, stM_bind. simpl. rewrite Hp, Hc. eexists. split; [done|].
  assert ((alter (λ x : nat * C, (x.1, Reset c x.2)) v (objs st)).*1 = kinds st) as Ek.
  { unfold kinds. apply list_eq. intros j. rewrite !list_lookup_fmap, list_lookup_alter. destruct (decide (v = j)) as [<-|]; [|done].
    by destruct (objs st !! v) as [[]|]. }
  split; [|done]. apply (wf_change (v :: fl) fl (set_bvs B st)); try done; simpl.
  - intros w k. unfold kinds at 2. simpl. by rewrite Ek.
  - rewrite length_insert. apply (wf_pools _ _ W).
  - intros j q d Hq Hd. destruct (decide (i = j)) as [<-|]; [|rewrite list_lookup_insert_ne by done; by exists q].
    simplify_eq. eexists. by rewrite list_lookup_insert_eq by (by eapply lookup_lt_Some).
  - intros j q [(<- & <- & _)|[_ Hq]]%list_lookup_insert_Some Hj; [simpl in *; rewrite <- Hc; by apply (wf_free _ _ W i p)|by apply (wf_free _ _ W j q)].
  - intros j q w Hq Hw.
    assert (∃ x, objs st !! v = Some (i, x)) as [xv Hxv].
    { unfold kinds in Kv. rewrite list_lookup_fmap in Kv. apply fmap_Some in Kv as ([k x] & ? & ->). by exists x. }
    destruct (decide (w = v)) as [->|Nw].
    + assert (q = mkPool (Some c) (v :: items p) ∧ j = i) as [-> ->].
      { apply list_lookup_insert_Some in Hq as [(-> & <- & _)|[Nj Hq]]; [done|].
        destruct (wf_items _ _ W j q v Hq Hw) as (d & x & _ & Hx & _). simpl in Hx. congruence. }
      exists c, (Reset c xv). rewrite list_lookup_alter_eq, Hxv. split; [done|]. split; [done|]. right. by exists xv.
    + rewrite list_lookup_alter_ne by done. apply list_lookup_insert_Some in Hq as [(<- & <- & _)|[Nj Hq]].
      * simpl in *. rewrite <- Hc. apply (wf_items _ _ W i p w Hp). set_solver.
      * by apply (wf_items _ _ W j q w).
  - intros w. rewrite (in_pools_insert _ _ _ _ _ Hp). simpl. rewrite occ_cons.
    pose proof (wf_once _ _ W w) as On. rewrite occ_cons in On. simpl in On. lia.
  - intros w Hw. rewrite length_alter. apply (wf_known _ _ W w). rewrite (in_pools_insert _ _ _ _ _ Hp) in Hw. simpl in *.
    rewrite occ_cons in *. lia.
Qed.

(** What is left to give back of an array, from [i] on. *)
Definition left (i : nat) (b : bufferValue) : list nat := omap id (drop i (value b)) ++ omap id (drop i (transmit b)).
Lemma occ_omap v (l : list (option nat)) : occ v (omap id l) = occ (Some v) l.
Proof.
  induction l as [|[x|] l IH]; [done| |].
  - change (omap id (Some x :: l)) with (x :: omap id l). rewrite !occ_cons, IH. destruct (decide (x = v)) as [->|]; [by rewrite decide_True|]. rewrite decide_False by congruence. lia.
  - change (omap id (None :: l)) with (omap id l). rewrite occ_cons, IH, decide_False by done. lia.
Qed.
Lemma occ_left v b i : occ v (left (S i) b) ≤ occ v (left i b).
Proof.
  unfold left. rewrite !occ_app, !occ_omap.
  assert (∀ l : list (option nat), occ (Some v) (drop (S i) l) ≤ occ (Some v) (drop i l)) as L.
  { intros l. destruct (l !! i) as [x|] eqn:E.
    - rewrite (drop_S _ _ _ E), occ_cons. destruct (decide (x = Some v)); lia.
    - apply lookup_ge_None in E. by rewrite !drop_ge by lia. }
  pose proof (L (value b)). pose proof (L (transmit b)). lia.
Qed.

Lemma give_slot_ok B fl st i (l : list (option nat)) x : l !! i = Some x → (1 ≤ i)%nat → Z.of_nat i ≤ index st →
  (∀ v, x = Some v → kinds st !! v = Some i) → wf (omap id [x] ++ fl) (set_bvs B st) →
  ∃ st', give_slot i l st = (Ok (), st') ∧ wf fl (set_bvs B st') ∧ index st' = index st ∧ bvs st' = bvs st ∧
    vPool st' = vPool st ∧ kinds st' = kinds st.
Proof.
  intros E H1 H2 K W. unfold give_slot. rewrite E. destruct x as [v|]; [|by exists st].
  apply give_ok; [done..|]. by apply K.
Qed.

Lemma give_loop_ok B b n : ∀ i p st, bvs st !! p = Some b → (1 ≤ i)%nat → Z.of_nat (i + n) ≤ index st + 1 → index st ≤ 15 →
  length (value b) = maxBufferPool → length (transmit b) = maxBufferPool →
  (∀ j v, value b !! j = Some (Some v) → kinds st !! v = Some j) →
  (∀ j v, transmit b !! j = Some (Some v) → kinds st !! v = Some j) →
  wf (left i b) (set_bvs B st) →
  ∃ st', give_loop n i p st = (Ok (), st') ∧ wf (left (i + n) b) (set_bvs B st') ∧ index st' = index st ∧ bvs st' = bvs st ∧
    vPool st' = vPool st.
Proof.
  induction n as [|n IH]; intros i p st Hb H1 H2 H3 L1 L2 K1 K2 W.
  { exists st. by rewrite Nat.add_0_r. }
  assert (i < maxBufferPool)%nat as Hi by (unfold maxBufferPool; lia).
  destruct (lookup_lt_is_Some_2 (value b) i) as [x Ex]; [by rewrite L1|].
  destruct (lookup_lt_is_Some_2 (transmit b) i) as [y Ey]; [by rewrite L2|].
  unfold left in W. rewrite (drop_S _ _ _ Ex), (drop_S _ _ _ Ey) in W.
  destruct (give_slot_ok B (omap id [y] ++ left (S i) b) st i (value b) x) as (st1 & E1 & W1 & I1 & B1 & V1 & Kd1); [done|done|lia|..].
  { intros v ->. by apply K1. }
  { eapply wf_less; [exact W|]. intros v. unfold left.
    rewrite !occ_app, !occ_omap, !occ_cons, !occ_nil. lia. }
  destruct (give_slot_ok B (left (S i) b) st1 i (transmit b) y) as (st2 & E2 & W2 & I2 & B2 & V2 & Kd2); [done|done|lia|..|done|].
  { intros v ->. rewrite Kd1. by apply K2. }
  destruct (IH (S i) p st2) as (st3 & E3 & W3 & I3 & B3 & V3); try done; try lia; try congruence.
  { intros j v Hj. rewrite Kd2, Kd1. by apply K1. }
  { intros j v Hj. rewrite Kd2, Kd1. by apply K2. }
  exists st3. rewrite Nat.add_succ_r. split; [|split; [done|repeat split; congruence]].
  cbn [give_loop]. unfold mbind at 1, stM_bind at 1. unfold deref at 1. unfold mbind at 1, stM_bind at 1. cbn [getS].
  rewrite Hb. cbn [mret stM_ret]. unfold mbind at 1, stM_bind at 1. rewrite E1.
  unfold mbind at 1, stM_bind at 1. by rewrite E2.
Qed.

(** ** Each operation on live contexts *)

Lemma live_spec st p : live st p = true → ∃ b, bvs st !! p = Some b ∧ p ∉ vPool st.
Proof.
  unfold live. intros [H1 H2]%andb_true_iff. bdec. destruct (lookup_lt_is_Some_2 (bvs st) p H1) as [b Hb]. by exists b.
Qed.

Lemma Find_registered p i st : 0 < i ≤ index st →
  Find p i st = (b ← deref p; match value b !! Z.to_nat i with
                              | None => throw OutOfRange | Some (Some v) => mret v | Some None => Take p (Z.to_nat i)
                              end) st.
Proof.
  intros Hi. unfold Find. unfold mbind at 1, stM_bind at 1. cbn [getS].
  by rewrite (proj2 (Z.leb_gt _ _)), (proj2 (Z.ltb_ge _ _)) by lia.
Qed.
Lemma deref_bind {A} st p b (f : bufferValue → stM panic (state C) A) : bvs st !! p = Some b → (deref p ≫= f) st = f b st.
Proof. intros Hb. unfold deref, mbind, stM_bind. simpl. by rewrite Hb. Qed.
Lemma Find_same st p i b v : bvs st !! p = Some b → value b !! Z.to_nat i = Some (Some v) → 0 < i ≤ index st →
  Find p i st = (Ok v, st).
Proof. intros Hb Hv Hi. rewrite Find_registered by done. rewrite (deref_bind _ _ _ _ Hb). by rewrite Hv. Qed.

(** The place that was empty is taken. *)
Lemma wf_take_place st p b i v x : wf [v] st → bvs st !! p = Some b → p ∉ vPool st → value b !! i = Some None →
  (1 ≤ i)%nat → Z.of_nat i ≤ index st → objs st !! v = Some (i, x) →
  wf [] (set_bvs (<[p := mkValue (<[i := Some v]> (value b)) (transmit b)]> (bvs st)) st).
Proof.
  intros W Hb Np Ex H1 H2 Hv. destruct (wf_values _ _ W p b Hb) as [[L K] E2].
  apply (wf_set_bv [v] [] _ _ b); try done; simpl.
  - split; [by rewrite length_insert|]. intros j w [(<- & [= <-] & _)|[_ Hj]]%list_lookup_insert_Some; [|by apply K].
    split; [done|]. split; [done|]. unfold kinds. by rewrite list_lookup_fmap, Hv.
  - intros w. unfold in_value. simpl. rewrite (occ_insert _ _ _ _ _ Ex), occ_cons, occ_nil.
    rewrite (decide_False (P := None = _)) by done. destruct (decide (v = w)) as [->|]; [rewrite decide_True by done; lia|].
    rewrite decide_False by congruence. lia.
Qed.

Lemma Find_ok st p i : wf [] st → live st p = true → 0 < i ≤ index st →
  ∃ v st' b b', Find p i st = (Ok v, st') ∧ wf [] st' ∧ index st' = index st ∧ vPool st' = vPool st ∧
    bvs st !! p = Some b ∧ bvs st' = <[p := b']> (bvs st) ∧ value b' !! Z.to_nat i = Some (Some v) ∧
    (value b !! Z.to_nat i = Some (Some v) ∨ ∃ q c x, bPool st !! Z.to_nat i = Some q ∧ ctx q = Some c ∧
       objs st' !! v = Some (Z.to_nat i, x) ∧ fresh c x).
Proof.
  intros W (b & Hb & Np)%live_spec Hi. destruct (wf_values _ _ W p b Hb) as [[L1 K1] E2].
  pose proof (wf_index _ _ W) as Ix.
  destruct (lookup_lt_is_Some_2 (value b) (Z.to_nat i)) as [x Ex]; [rewrite L1; unfold maxBufferPool; lia|].
  destruct x as [v|].
  - exists v, st, b, b. rewrite list_insert_id by done. split; [by apply (Find_same st p i b)|]. split_and!; try done. by left.
  - destruct (take_ok st (Z.to_nat i) W) as (v & st1 & q & c & y & E & W1 & I1 & B1 & V1 & Hq & Hc & Hv & Fy); [lia|lia|].
    set (b' := mkValue (<[Z.to_nat i := Some v]> (value b)) (transmit b)).
    exists v, (set_bvs (<[p := b']> (bvs st1)) st1), b, b'. split; [|split].
    + rewrite Find_registered, (deref_bind _ _ _ _ Hb), Ex by done.
      unfold Take, mbind at 1, stM_bind at 1. rewrite E. rewrite (deref_bind _ _ b) by (by rewrite B1). done.
    + apply (wf_take_place st1 p b _ v y); try done; [by rewrite B1|by rewrite V1|lia|lia].
    + simpl. rewrite B1. split_and!; try done; [|right; by exists q, c, y].
      rewrite list_lookup_insert_eq; [done|]. rewrite L1. unfold maxBufferPool. lia.
Qed.

Lemma Give_ok st p : wf [] st → live st p = true →
  ∃ st', Give p st = (Ok (), st') ∧ wf [] st' ∧ (0 < index st → live st' p = false).
Proof.
  intros W (b & Hb & Np)%live_spec. pose proof (wf_index _ _ W) as Ix. unfold Give. unfold mbind at 1, stM_bind at 1. simpl.
  destruct (index st <=? 0) eqn:E0; bdec. { exists st. split; [done|]. split; [done|lia]. }
  destruct (wf_values _ _ W p b Hb) as [[L1 K1] [L2 K2]].
  set (null := mkValue nullBufferValue nullBufferValue).
  assert (wf (left 1 b) (set_bvs (<[p := null]> (bvs st)) st)) as W1.
  { apply (wf_set_bv [] _ _ _ b); [done|done|done|apply null_entries|apply null_entries|].
    intros v. rewrite in_value_null, occ_nil. pose proof (occ_left v b 0) as O. unfold left at 2 in O.
    rewrite occ_app, !occ_omap, !drop_0 in O. unfold in_value. lia. }
  destruct (give_loop_ok (<[p := null]> (bvs st)) b (Z.to_nat (index st)) 1 p st Hb) as (st1 & E1 & W2 & I1 & B1 & V1); try done; try lia.
  { intros j v Hj. by destruct (K1 j v Hj) as (_ & _ & ?). }
  { intros j v Hj. by destruct (K2 j v Hj) as (_ & _ & ?). }
  unfold mbind at 1, stM_bind at 1. rewrite E1. unfold assign, mbind, stM_bind. simpl. rewrite B1.
  eexists. split; [done|]. apply (wf_less _ []) in W2; [|intros v; rewrite occ_nil; apply occ_nonneg].
  assert (p < length (bvs st))%nat as Hp by (by eapply lookup_lt_Some).
  split.
  - destruct W2. split; try done; simpl in *.
    + rewrite V1. intros q [->|Hq]%elem_of_cons; [by apply list_lookup_insert_eq|]. apply wf_given0. by rewrite V1.
    + rewrite V1 in *. apply list.NoDup_cons. done.
  - intros _. unfold live. simpl. rewrite (bool_decide_eq_true_2 (p ∈ _)) by (by left). apply andb_false_r.
Qed.

Lemma NewBufferPoolContext_ok st : wf [] st → ∃ p st', NewBufferPoolContext st = (Ok p, st') ∧ wf [] st' ∧ live st' p = true ∧
  bvs st' !! p = Some (mkValue nullBufferValue nullBufferValue).
Proof.
  intros W. unfold NewBufferPoolContext, newBufferValue, mbind, stM_bind. simpl.
  destruct (draw (vPool st) (oracle st)) as [[r l] o] eqn:Ed. apply draw_spec in Ed. destruct r as [p|].
  - destruct Ed as (k & Ek & ->). assert (p ∈ vPool st) as Hp by (by eapply list_elem_of_lookup_2).
    pose proof (wf_vPool _ _ W) as Nd. rewrite <- (take_drop_middle _ _ _ Ek) in Nd.
    eexists p, _. split; [done|]. rewrite delete_take_drop. simpl.
    assert (p ∉ take k (vPool st) ++ drop (S k) (vPool st)) as Np.
    { apply NoDup_Permutation_proper with (y := p :: take k (vPool st) ++ drop (S k) (vPool st)) in Nd; [|solve_Permutation].
      by apply list.NoDup_cons in Nd as [? _]. }
    split; [|split; [|by apply (wf_given _ _ W)]].
    + destruct W. split; try done; simpl.
      * intros q Hq. apply wf_given0. rewrite <- (take_drop_middle _ _ _ Ek). set_solver.
      * eapply sublist_NoDup; [exact Nd|]. apply sublist_app; [done|]. by apply sublist_cons.
    + unfold live. simpl. apply andb_true_iff. split.
      * apply bool_decide_eq_true_2. eapply lookup_lt_Some. by apply (wf_given _ _ W).
      * by rewrite bool_decide_eq_false_2.
  - subst l. eexists (length (bvs st)), _. split; [done|]. simpl.
    assert (∀ v, in_values v (bvs st ++ [mkValue nullBufferValue nullBufferValue]) = in_values v (bvs st)) as Ev.
    { intros v. unfold in_values. rewrite zsum_app. simpl. rewrite in_value_null. lia. }
    split; [|split; [|by apply list_lookup_middle]].
    + destruct W. split; try done; simpl.
      * intros q b [Hq|[_ Hq]]%lookup_app_Some; [by apply (wf_values0 q)|].
        apply list_lookup_singleton_Some in Hq as [_ <-]. split; apply null_entries.
      * intros q Hq. by apply lookup_app_l_Some, wf_given0.
      * intros v. rewrite Ev. apply wf_once0.
      * intros v. rewrite Ev. apply wf_known0.
    + unfold live. simpl. apply andb_true_iff. split; [apply bool_decide_eq_true_2; rewrite length_app; simpl; lia|].
      rewrite bool_decide_eq_false_2; [done|]. intros Hq%(wf_given _ _ W)%lookup_lt_Some. lia.
Qed.

Lemma transmit_ok st d s : wf [] st → live st d = true → live st s = true →
  wf [] (TransmitBufferPoolContext (Some d) (Some s) st).2.
Proof.
  intros W (bd & Hd & Nd)%live_spec (b & Hs & Ns)%live_spec.
  destruct (wf_values _ _ W d bd Hd) as [Ed1 Ed2]. destruct (wf_values _ _ W s b Hs) as [Es1 Es2].
  unfold TransmitBufferPoolContext, PoolContext, deref, assign, mbind, stM_bind. simpl. rewrite Hs. simpl.
  destruct (bool_decide (value b = nullBufferValue)); [done|]. simpl. rewrite Hd. simpl.
  destruct (decide (d = s)) as [->|N].
  - assert (bd = b) as -> by congruence. rewrite list_lookup_insert_eq by (by eapply lookup_lt_Some). simpl. rewrite list_insert_insert_eq.
    apply (wf_set_bv [] [] st s b); try done; [apply null_entries|].
    intros v. unfold in_value. simpl. rewrite (occ_out (Some v) nullBufferValue).
    + pose proof (occ_nonneg (Some v) (transmit b)). lia.
    + by intros Hn%elem_of_replicate_inv.
  - rewrite list_lookup_insert_ne, Hs by done. simpl. rewrite list_insert_insert_ne by done.
    assert (wf (omap id (value b)) (set_bvs (<[s := mkValue nullBufferValue (transmit b)]> (bvs st)) st)) as W1.
    { apply (wf_set_bv [] _ st s b); try done; [apply null_entries|]. intros v. unfold in_value. simpl.
      rewrite occ_omap, (occ_out (Some v) nullBufferValue) by (by intros Hn%elem_of_replicate_inv). rewrite occ_nil. lia. }
    apply (wf_set_bv _ [] _ d bd) with (b' := mkValue (value bd) (value b)) in W1; try done; simpl.
    + by rewrite list_lookup_insert_ne.
    + intros v. unfold in_value. simpl. rewrite occ_omap, occ_nil. pose proof (occ_nonneg (Some v) (transmit bd)). lia.
Qed.

Lemma register_ok st c : wf [] st → index st < 15 →
  ∃ st', RegisterBuffer c st = (Ok (index st + 1), st') ∧ wf [] st' ∧ index st' = index st + 1.
Proof.
  intros W Hi. pose proof (wf_index _ _ W) as Ix. unfold RegisterBuffer, mbind, stM_bind. simpl.
  rewrite int32_small by lia. rewrite (proj2 (Z.leb_gt _ _)) by (unfold maxBufferPool; lia).
  set (i := Z.to_nat (index st + 1)).
  destruct (lookup_lt_is_Some_2 (bPool st) i) as [p Hp]; [rewrite (wf_pools _ _ W); unfold maxBufferPool; lia|].
  change (bPool (set_index _ st)) with (bPool st). rewrite Hp. eexists. split; [done|]. split; [|done].
  assert (items p = []) as Ep.
  { destruct (items p) as [|v l] eqn:E; [done|]. destruct (wf_items _ _ W i p v Hp) as (d & _ & Hd & _); [rewrite E; by left|].
    rewrite (wf_free _ _ W i p Hp) in Hd by lia. done. }
  destruct W. split; try done; simpl.
  - lia.
  - by rewrite length_insert.
  - intros j H1 H2. destruct (decide (i = j)) as [<-|]; [eexists _, c; by rewrite list_lookup_insert_eq by (by eapply lookup_lt_Some)|].
    rewrite list_lookup_insert_ne by done. apply wf_ctx0; [done|lia].
  - intros j q [(<- & <- & _)|[_ Hq]]%list_lookup_insert_Some Hj; [lia|]. apply (wf_free0 j q Hq). lia.
  - intros j q v [(<- & <- & _)|[_ Hq]]%list_lookup_insert_Some Hv; [|by apply (wf_items0 j q v)].
    simpl in Hv. rewrite Ep in Hv. by apply not_elem_of_nil in Hv.
  - intros q b Hq. destruct (wf_values0 q b Hq). split; eapply entries_mono; try done; simpl; lia.
  - intros v. rewrite (in_pools_insert _ _ _ _ _ Hp). simpl. specialize (wf_once0 v). lia.
  - intros v. rewrite (in_pools_insert _ _ _ _ _ Hp). simpl. intros Hv. apply wf_known0. lia.
Qed.

(** An object that a bufferValue has is in no pool and in no other bufferValue. *)
Lemma held_once st p v : wf [] st → Some v ∈ held st p →
  (∀ q, q ≠ p → Some v ∉ held st q) ∧ (∀ j q, bPool st !! j = Some q → v ∉ items q).
Proof.
  intros W H. unfold held in H. destruct (bvs st !! p) as [b|] eqn:Hb; [|by apply not_elem_of_nil in H].
  assert (1 ≤ in_value v b) as H1. { unfold in_value. rewrite <- occ_app. by apply occ_in. }
  pose proof (wf_once _ _ W v) as On. rewrite occ_nil in On. pose proof (in_pools_nonneg v (bPool st)) as Pn. split.
  - intros q Nq Hq. unfold held in Hq. destruct (bvs st !! q) as [b'|] eqn:Hb'; [|by apply not_elem_of_nil in Hq].
    assert (1 ≤ in_value v b') as H2. { unfold in_value. rewrite <- occ_app. by apply occ_in. }
    pose proof (in_values_nonneg v (<[q := mkValue nullBufferValue nullBufferValue]> (<[p := mkValue nullBufferValue nullBufferValue]> (bvs st)))) as G.
    rewrite (in_values_insert _ _ _ b'), (in_values_insert _ _ _ b) in G by (rewrite ?list_lookup_insert_ne by done; done).
    rewrite !in_value_null in G. lia.
  - intros j q Hq Hv. apply occ_in in Hv. pose proof (zsum_lookup _ _ _ _ (λ p, occ_nonneg v (items p)) Hq) as Z1. simpl in Z1.
    pose proof (zsum_lookup _ _ _ _ (in_value_nonneg v) Hb) as Z2. unfold in_pools, in_values in *. lia.
Qed.

Lemma write_ok st p v x : wf [] st → Some v ∈ held st p → wf [] (write v x st).2.
Proof.
  intros W H. destruct (held_once _ _ _ W H) as [_ Np]. unfold write, mbind, stM_bind. simpl.
  apply (wf_change [] [] st); try done; simpl.
  - intros w k. unfold kinds. simpl. rewrite !list_lookup_fmap, list_lookup_alter.
    destruct (decide (v = w)) as [<-|]; [|done]. by destruct (objs st !! v) as [[]|].
  - apply (wf_pools _ _ W).
  - intros j q d Hq Hd. by exists q.
  - apply (wf_free _ _ W).
  - intros j q w Hq Hw. rewrite list_lookup_alter_ne by (intros <-; by apply (Np j q)). by apply (wf_items _ _ W j q w).
  - apply (wf_once _ _ W).
  - intros w. rewrite length_alter. apply (wf_known _ _ W).
Qed.

Lemma init_wf o : wf [] (init o).
Proof.
  assert (∀ i p, bPool (init (C := C) o) !! i = Some p → p = mkPool None []) as E.
  { intros i p Hp. simpl in Hp. by apply (lookup_replicate_1 maxBufferPool) in Hp as [-> _]. }
  split; try done; simpl.
  - lia.
  - intros i p Hp _. by rewrite (E i p Hp).
  - intros i p v Hp. rewrite (E i p Hp). intros Hv. by apply not_elem_of_nil in Hv.
  - intros p Hp. by apply not_elem_of_nil in Hp.
  - apply NoDup_nil_2.
Qed.

Lemma reach_wf o st : reach o st → wf [] st.
Proof.
  induction 1 as [|st x _ W A]; [apply init_wf|]. destruct x; simpl in *; bdec.
  - destruct (register_ok st c W) as (st' & E & W' & _); [done|]. unfold mbind, stM_bind. by rewrite E.
  - destruct (NewBufferPoolContext_ok st W) as (p & st' & E & W' & _). unfold mbind, stM_bind. by rewrite E.
  - destruct (decide (0 < i ≤ index st)) as [Hi|Ni].
    + destruct (Find_ok st p i W A Hi) as (v & st' & b & b' & E & W' & _). unfold mbind, stM_bind. by rewrite E.
    + unfold Find, mbind, stM_bind. simpl. destruct ((i <=? 0) || (index st <? i)) eqn:E; [done|]. bdec. lia.
  - by apply transmit_ok.
  - destruct (Give_ok st p W A) as (st' & E & W' & _). by rewrite E.
  - by eapply write_ok.
Qed.
End invariant.

(** C23: the structs of a stream are its own.  As long as contexts are used only
    between their creation and their Give, a context that asks for a registered kind
    of buffer gets an object that no pool and no other context has, gets the same one
    each time, and finds it new or reset the first time. *)
Theorem find_exclusive {C} (o : list nat) (st : state C) p i :
  reach o st → live st p = true → 0 < i ≤ index st →
  ∃ v st', Find p i st = (Ok v, st') ∧ (Find p i st').1 = Ok v ∧ live st' p = true ∧
    Some v ∈ held st' p ∧ (∀ q, q ≠ p → Some v ∉ held st' q) ∧ (∀ j q, bPool st' !! j = Some q → v ∉ items q) ∧
    (Some v ∉ held st p → ∃ q c x, bPool st !! Z.to_nat i = Some q ∧ ctx q = Some c ∧
       objs st' !! v = Some (Z.to_nat i, x) ∧ (x = New c ∨ ∃ y, x = Reset c y)).
Proof.
  intros W%reach_wf Lv Hi. destruct (Find_ok st p i W Lv Hi) as (v & st' & b & b' & E & W' & I & V & Hb & Hb' & Hv & Fr).
  exists v, st'. split; [done|].
  assert (p < length (bvs st))%nat as Lp by (by eapply lookup_lt_Some).
  assert (bvs st' !! p = Some b') as Hp' by (by rewrite Hb', list_lookup_insert_eq).
  assert (Some v ∈ held st' p) as Hh.
  { unfold held. rewrite Hp'. apply elem_of_app. left. by eapply list_elem_of_lookup_2. }
  destruct (held_once _ _ _ W' Hh) as [Nq Np].
  split; [rewrite (Find_same st' p i b' v); [done..|lia]|].
  split; [unfold live in *; by rewrite Hb', length_insert, V|]. split_and!; try done.
  intros Nh. destruct Fr as [Ex|Fr]; [|done]. destruct Nh. unfold held. rewrite Hb. apply elem_of_app. left.
  by eapply list_elem_of_lookup_2.
Qed.

(** ** Examples *)

Module bufctx_example.
(** A kind of buffer that holds a number and is reset to zero. *)
Definition zctx : BufferPoolCtx Z := mkCtx 0 (λ _, 0).
Definition st0 : state Z := (exec ONew (exec (ORegister zctx) (init [])).2).2.
Lemma st0_reach : reach [] st0.
Proof. apply (reach_step _ _ ONew); [|done]. apply (reach_step _ _ (ORegister zctx)); [|done]. apply reach_init. Qed.

Lemma find_exclusive_witness : ∃ v st', Find 0 1 st0 = (Ok v, st') ∧ Some v ∈ held st' 0.
Proof.
  destruct (find_exclusive [] st0 0 1 st0_reach) as (v & st' & E & _ & _ & H & _); [reflexivity|split; vm_compute; congruence|].
  by exists v, st'.
Defined.

(** A context that is used after its Give shares its buffer with the next context. *)
Example used_after_give :
  let st1 := (Give 0 st0).2 in
  let st2 := (Find 0 1 st1).2 in
  let '(p, st3) := NewBufferPoolContext st2 in
  (Find 0 1 st1).1 = Ok 0%nat ∧ p = Ok 0%nat ∧ (Find 0 1 st3).1 = Ok 0%nat.
Proof. vm_compute. done. Qed.

(** The sixteenth registration panics and leaves the count at sixteen; then Give
    reads past the arrays. *)
Fixpoint registers (n : nat) (st : state Z) : state Z :=
  match n with O => st | S n => registers n (RegisterBuffer zctx st).2 end.
Example registered_too_many :
  (RegisterBuffer zctx (registers 15 (init []))).1 = Err OverFull ∧
  (Give 0 (exec ONew (registers 16 (init []))).2).1 = Err OutOfRange.
Proof. vm_compute. done. Qed.
End bufctx_example.
