(* ===== verification/Mqtt.v ===== *)
(** * MQTT messages (src/pkg/protocol/mqtt/message)

    The fixed header, the primitive readers and writers, and the fourteen
    message types with their decoders and encoders.  A struct's methods are in
    the module of its name.  Decoders run over any buffer that implements
    [BufferImpl]; the laws a buffer promises them are [BufferSpec], and the
    buffer of IoBuffer.v is an instance.  A decoder mutates its receiver: the
    receiver is part of the state, so what it held when a panic was raised
    survives the panic. *)

From S2P Require Import Prelude BytePool IoBuffer.

(** ** The buffer interface *)

Class BufferImpl (S : Type) := {
  bLen : S → Z;
  bReadByte : stM goPanic S (res ioerr byte);
  bRead : Z → stM goPanic S (bytes * option ioerr);
  bMark : S → S;
  bRestore : S → S
}.

(** The abstract buffer: the unread bytes, and what was taken since the mark
    when one is set. *)
Record abuf := Abuf { unread : bytes; taken : option bytes }.

Definition a_take (d rest : bytes) (a : abuf) : abuf := Abuf rest ((λ t, t ++ d) <$> taken a).
Definition a_readbyte (a : abuf) : res ioerr byte * abuf :=
  match unread a with
  | [] => (Err EOF, Abuf [] None)
  | c :: u => (Ok c, a_take [c] u a)
  end.
Definition a_read (n : Z) (a : abuf) : bytes * option ioerr * abuf :=
  match unread a with
  | [] => ([], if n =? 0 then None else Some EOF, Abuf [] None)
  | u => (take (Z.to_nat n) u, None, a_take (take (Z.to_nat n) u) (drop (Z.to_nat n) u) a)
  end.
Definition a_mark (a : abuf) : abuf := Abuf (unread a) (Some []).
Definition a_restore (a : abuf) : abuf :=
  match taken a with Some t => Abuf (t ++ unread a) None | None => a end.

(** What a buffer promises: it simulates the abstract one. *)
Class BufferSpec (S : Type) `{BufferImpl S} := {
  rep : S → abuf → Prop;
  rep_len s a : rep s a → bLen s = zlen (unread a);
  rep_readbyte s a : rep s a →
    ∃ s', bReadByte s = (Ok (a_readbyte a).1, s') ∧ rep s' (a_readbyte a).2;
  rep_read s a n : rep s a → 0 ≤ n →
    ∃ s', bRead n s = (Ok (a_read n a).1, s') ∧ rep s' (a_read n a).2;
  rep_mark s a : rep s a → rep (bMark s) (a_mark a);
  rep_restore s a : rep s a → rep (bRestore s) (a_restore a)
}.

#[export] Instance ioBuffer_impl : BufferImpl (world * ioBuffer) := {
  bLen s := Len s.2;
  bReadByte := ReadByte;
  bRead := Read;
  bMark s := (s.1, Mark s.2);
  bRestore s := (s.1, Restore s.2)
}.

(** The buffer's state against the abstract one: a reset mark is no mark. *)
Definition io_rep (s : world * ioBuffer) (a : abuf) : Prop :=
  wf s.2 ∧ view s.2 = unread a ∧
  match taken a with
  | Some t => marked s.2 t
  | None => offMark s.2 = ResetOffMark
  end.

Lemma io_rep_reset w b : wf b → io_rep (w, Reset b) (Abuf [] None).
Proof. intros Hb. split; [by apply Reset_wf|]. done. Qed.

Lemma io_rep_advance w b b' d u a :
  io_rep (w, b) a → unread a = d ++ u → wf b' → view b' = u →
  buf b' = buf b → offMark b' = offMark b → off b' = off b + zlen d →
  io_rep (w, b') (a_take d u a).
Proof.
  intros (Hb & Hv & Ht) Hu Hb' Hv' Ebuf Emark Eoff. simpl in *.
  split; [done|]. split; [done|]. simpl. destruct (taken a) as [t|]; simpl; [|congruence].
  destruct Ht as (H1 & H2 & H3). unfold marked. simpl. rewrite Ebuf, Emark, Eoff.
  split; [done|]. split; [rewrite zlen_app; lia|].
  by rewrite H3, Hv, Hu, Hv', app_assoc.
Qed.

#[export] Program Instance ioBuffer_spec : BufferSpec (world * ioBuffer) := {| rep := io_rep |}.
Next Obligation. intros [w b] a (Hb & Hv & _). simpl in *. by rewrite <- Hv, length_view. Qed.
Next Obligation.
  intros [w b] a Ha. pose proof Ha as (Hb & Hv & _). simpl in *. unfold a_readbyte.
  destruct (unread a) as [|c u] eqn:Eu.
  - rewrite ReadByte_empty by done. eexists. split; [done|]. by apply io_rep_reset.
  - destruct (ReadByte_ok w b c u Hb Hv) as (-> & Hb' & Hv'). eexists. split; [done|].
    by eapply io_rep_advance.
Qed.
Next Obligation.
  intros [w b] a n Ha Hn. pose proof Ha as (Hb & Hv & _). simpl in *. unfold a_read.
  destruct (unread a) as [|c u] eqn:Eu.
  - rewrite Read_empty by done. eexists. split; [done|]. by apply io_rep_reset.
  - destruct (Read_ok n w b Hb) as (b' & -> & Hb' & Hv' & ? & ? & ?); [by rewrite Hv|done|].
    rewrite Hv in *. eexists. split; [done|]. eapply io_rep_advance; try done.
    by rewrite take_drop.
Qed.
Next Obligation.
  intros [w b] a (Hb & Hv & _). simpl in *. destruct (Mark_wf b Hb) as (?&?&?).
  split; [done|]. split; [simpl; congruence|done].
Qed.
Next Obligation.
  intros [w b] a (Hb & Hv & Ht). simpl in *. unfold a_restore.
  destruct (taken a) as [t|] eqn:Et.
  - destruct (Restore_marked b t Hb Ht) as [? Hr]. split; [done|]. simpl.
    split; [by rewrite Hr, Hv|]. unfold Restore. destruct Ht as (? & _).
    unfold ResetOffMark. by rewrite (proj2 (Z.eqb_neq _ _)) by lia.
  - unfold Restore. rewrite Ht. simpl. split; [done|]. split; [done|]. simpl. by rewrite Et.
Qed.

(** ** Errors and panics *)

Inductive mqttErr :=
| ErrInvalidRemainingLength
| ErrInvalidMessage
| ErrInvalidType
| ErrNilString
| ErrNoMatch
| ErrInvalidBuffer
| ErrIO (e : ioerr)
| ErrRuntime. (* a run-time error: slice bounds, negative [make], nil dereference *)

#[export] Instance mqttErr_eq_dec : EqDecision mqttErr.
Proof. solve_decision. Defined.

(** The value a [panic] carries: an [error], or another value. *)
Inductive panicv := PError (e : mqttErr) | PString (s : bytes).

Definition lift {S A} (m : stM goPanic S A) : stM panicv S A := λ s,
  match m s with
  | (Ok a, s') => (Ok a, s')
  | (Err _, s') => (Err (PError ErrRuntime), s')
  end.

Definition implement_me {S A} : stM panicv S A := throw (PString (bs "implement me")).

(** ** Constants and primitive types (message.go) *)

Definition MsgTypeConnect : Z := 1.
Definition MsgTypeConnAck : Z := 2.
Definition MsgTypePublish : Z := 3.
Definition MsgTypePubAck : Z := 4.
Definition MsgTypePubRec : Z := 5.
Definition MsgTypePubRel : Z := 6.
Definition MsgTypePubComp : Z := 7.
Definition MsgTypeSubscribe : Z := 8.
Definition MsgTypeSubAck : Z := 9.
Definition MsgTypeUnsubscribe : Z := 10.
Definition MsgTypeUnsubAck : Z := 11.
Definition MsgTypePingReq : Z := 12.
Definition MsgTypePingResp : Z := 13.
Definition MsgTypeDisconnect : Z := 14.
Definition MsgTypeInvalid : Z := 15.

Definition Type_IsValid (mt : Z) : bool := (MsgTypeConnect <=? mt) && (mt <? MsgTypeInvalid).

Definition QosAtLeastOnce : Z := 1.
Definition QosExactlyOnce : Z := 2.
Definition QosTypeInvalid : Z := 3.
Definition Qos_IsValid (q : Z) : bool := q <? QosTypeInvalid.
Definition Qos_HasId (q : Z) : bool := (q =? QosAtLeastOnce) || (q =? QosExactlyOnce).

Definition RetCodeInvalid : Z := 6.
Definition ReturnCode_IsValid (rc : Z) : bool := (0 <=? rc) && (rc <? RetCodeInvalid).

Definition RemainingLength_IsValid (l : Z) : bool := (0 <=? l) && (l <=? 268435455).

Definition boolToByte (v : bool) : Z := if v then 1 else 0.

(** ** Reading primitives *)

Section readers.
Context {S : Type} `{BufferImpl S}.

Definition bufLen : stM panicv S Z := λ s, (Ok (bLen s), s).

Definition getUint8 : stM panicv S Z :=
  r ← lift bReadByte;
  match r with
  | Ok b => mret (b2z b)
  | Err e => throw (PError (ErrIO e))
  end.

Definition getUint16 : stM panicv S Z :=
  l ← bufLen;
  if l <? 2 then throw (PError ErrInvalidRemainingLength)
  else
    '(d, err) ← lift (bRead 2);
    match err with
    | None =>
        match d with
        | [h; l] => mret (b2z h * 256 + b2z l)
        | _ => throw (PError ErrInvalidRemainingLength)
        end
    | Some e => throw (PError (ErrIO e))
    end.

Definition getString : stM panicv S bytes :=
  strLen ← getUint16;
  l ← bufLen;
  if l <? strLen then throw (PError ErrInvalidRemainingLength)
  else
    '(d, err) ← lift (bRead strLen);
    match err with
    | None =>
        if negb (zlen d =? strLen) then throw (PError ErrInvalidRemainingLength)
        else mret d
    | Some e => throw (PError (ErrIO e))
    end.

(** The loop of [decodeLength], with [n] bytes still allowed. *)
Fixpoint decodeLength_loop (n : nat) (v shift : Z) : stM panicv S Z :=
  match n with
  | O => throw (PError ErrInvalidRemainingLength)
  | Datatypes.S n =>
      r ← lift bReadByte;
      match r with
      | Ok b =>
          let v := Z.lor v (int32 (Z.shiftl (Z.land (b2z b) 0x7f) shift)) in
          if Z.land (b2z b) 0x80 =? 0 then mret v
          else decodeLength_loop n v (shift + 7)
      | Err e => throw (PError (ErrIO e))
      end
  end.

Definition decodeLength : stM panicv S Z :=
  l ← bufLen;
  if 0 <? l then decodeLength_loop 4 0 0
  else throw (PError ErrInvalidRemainingLength).
End readers.

(** ** Writing primitives *)

Abbreviation outM := (stM panicv (world * ioBuffer)).

Definition putByte (z : Z) : outM unit := lift (WriteByte (z2b z)).

Definition putUint16 (i : Z) : outM unit :=
  _ ← putByte (Z.shiftr i 8);
  putByte i.

Definition putBytes (d : bytes) : outM unit := _ ← lift (Write d); mret tt.

(** The length goes out before the empty string is refused. *)
Definition putString (s : bytes) : outM unit :=
  _ ← putUint16 (uint16 (zlen s));
  if s =b [] then throw (PError ErrNilString) else putBytes s.

(** [for len > 0 { ... }]: an [int32] has at most five 7-bit digits. *)
Fixpoint encodeLength_loop (fuel : nat) (len : Z) : outM unit :=
  match fuel with
  | O => mret tt
  | Datatypes.S fuel =>
      if 0 <? len then
        let digit := Z.land len 0x7f in
        let len := Z.shiftr len 7 in
        let digit := if 0 <? len then Z.lor digit 0x80 else digit in
        _ ← putByte digit;
        encodeLength_loop fuel len
      else mret tt
  end.

Definition encodeLength (len : Z) : outM unit :=
  if len =? 0 then putByte 0 else encodeLength_loop 5 len.

(** Fill a buffer obtained from [NewIoBuffer(0)]. *)
Definition with_new (m : outM unit) : stM panicv world ioBuffer := λ w,
  match lift (NewIoBuffer 0) w with
  | (Ok b, w1) =>
      match m (w1, b) with
      | (Ok _, (w2, b2)) => (Ok b2, w2)
      | (Err e, (w2, _)) => (Err e, w2)
      end
  | (Err e, w1) => (Err e, w1)
  end.

(** ** The fixed header (header.go) *)

Record Header := MkHeader { msgType : Z; msgFlag : Z; remainingLength : Z }.

Definition set_rl (z : Z) (h : Header) : Header := MkHeader (msgType h) (msgFlag h) z.
(** [remainingLength -= RemainingLength(n)] on [int32]. *)
Definition sub_rl (n : Z) (h : Header) : Header :=
  set_rl (int32 (remainingLength h - int32 n)) h.
Definition set_flag (z : Z) (h : Header) : Header := MkHeader (msgType h) z (remainingLength h).

(** [Header.decode] on the zero header the codec allocates. *)
Definition Header_decode {S} `{BufferImpl S} : stM panicv S Header :=
  byte1 ← getUint8;
  let t := Z.shiftr (Z.land byte1 0xf0) 4 in
  if negb (Type_IsValid t) then throw (PError ErrInvalidType)
  else
    let f := Z.land byte1 0x0f in
    l ← decodeLength;
    mret (MkHeader t f l).

Definition Header_encode (h : Header) : stM panicv world ioBuffer :=
  with_new (_ ← putByte (Z.lor (uint8 (Z.shiftl (msgType h) 4)) (msgFlag h));
            encodeLength (remainingLength h)).

(** [bufAll := this.Header.encode(); bufAll.Write(buf.Bytes())] *)
Definition encode_with (h : Header) (body : ioBuffer) : stM panicv world ioBuffer := λ w,
  match Header_encode h w with
  | (Ok all, w1) =>
      match lift (Bytes) (w1, body) with
      | (Ok d, (w2, _)) =>
          match putBytes d (w2, all) with
          | (Ok _, (w3, all')) => (Ok all', w3)
          | (Err e, (w3, _)) => (Err e, w3)
          end
      | (Err e, (w2, _)) => (Err e, w2)
      end
  | (Err e, w1) => (Err e, w1)
  end.

(** ** Messages

    A decoder's state is the buffer and its receiver [T]. *)

Section receiver.
Context {S T : Type}.
Definition buf_ {A} (m : stM panicv S A) : stM panicv (S * T) A := λ '(s, t),
  let '(r, s') := m s in (r, (s', t)).
Definition this : stM panicv (S * T) T := λ '(s, t), (Ok t, (s, t)).
Definition upd (f : T → T) : stM panicv (S * T) unit := λ '(s, t), (Ok tt, (s, f t)).
End receiver.

(** [Encode] returns the buffer or an error; the receiver's header changes. *)
Abbreviation encM T := (stM panicv (world * T) (res mqttErr ioBuffer)).

(** The structs [PubAck], [PubRec], [PubRel], [PubComp] and [UnsubAck] have the
    same fields: a header and a packet identifier. *)
Record ackMsg := MkAck { a_hdr : Header; a_id : Z }.

Module PubAck.
Definition NewPubAck : ackMsg := MkAck (MkHeader MsgTypePubAck 0 0) 0.

Section decode.
Context {S : Type} `{BufferImpl S}.
Definition DecodeFixedHeader : stM panicv (S * ackMsg) bool := mret false.
Definition DecodeVariableHeader : stM panicv (S * ackMsg) bool :=
  before ← buf_ bufLen;
  id ← buf_ getUint16;
  _ ← upd (λ m, MkAck (a_hdr m) id);
  after ← buf_ bufLen;
  _ ← upd (λ m, MkAck (sub_rl (before - after) (a_hdr m)) (a_id m));
  mret true.
Definition DecodePayload : stM panicv (S * ackMsg) bool := implement_me.
End decode.

Definition Encode : encM ackMsg :=
  m ← this;
  body ← buf_ (with_new (putUint16 (a_id m)));
  _ ← upd (λ m, MkAck (set_rl (int32 (Len body)) (a_hdr m)) (a_id m));
  m ← this;
  all ← buf_ (encode_with (a_hdr m) body);
  mret (Ok all).
End PubAck.

Module PubRec.
Definition NewPubRec : ackMsg := MkAck (MkHeader MsgTypePubRec 0 0) 0.

Section decode.
Context {S : Type} `{BufferImpl S}.
Definition DecodeFixedHeader : stM panicv (S * ackMsg) bool := mret false.
Definition DecodeVariableHeader : stM panicv (S * ackMsg) bool :=
  before ← buf_ bufLen;
  id ← buf_ getUint16;
  _ ← upd (λ m, MkAck (a_hdr m) id);
  after ← buf_ bufLen;
  _ ← upd (λ m, MkAck (sub_rl (before - after) (a_hdr m)) (a_id m));
  mret true.
Definition DecodePayload : stM panicv (S * ackMsg) bool := implement_me.
End decode.

Definition Encode : encM ackMsg :=
  m ← this;
  body ← buf_ (with_new (putUint16 (a_id m)));
  _ ← upd (λ m, MkAck (set_rl (int32 (Len body)) (a_hdr m)) (a_id m));
  m ← this;
  all ← buf_ (encode_with (a_hdr m) body);
  mret (Ok all).
End PubRec.

Module PubRel.
Definition NewPubRel : ackMsg := MkAck (MkHeader MsgTypePubRel 0 0) 0.

Section decode.
Context {S : Type} `{BufferImpl S}.
Definition DecodeFixedHeader : stM panicv (S * ackMsg) bool := mret false.
Definition DecodeVariableHeader : stM panicv (S * ackMsg) bool :=
  before ← buf_ bufLen;
  id ← buf_ getUint16;
  _ ← upd (λ m, MkAck (a_hdr m) id);
  after ← buf_ bufLen;
  _ ← upd (λ m, MkAck (sub_rl (before - after) (a_hdr m)) (a_id m));
  mret true.
Definition DecodePayload : stM panicv (S * ackMsg) bool := implement_me.
End decode.

Definition Encode : encM ackMsg :=
  m ← this;
  body ← buf_ (with_new (putUint16 (a_id m)));
  _ ← upd (λ m, MkAck (set_rl (int32 (Len body)) (a_hdr m)) (a_id m));
  m ← this;
  all ← buf_ (encode_with (a_hdr m) body);
  mret (Ok all).
End PubRel.

Module PubComp.
Definition NewPubComp : ackMsg := MkAck (MkHeader MsgTypePubComp 0 0) 0.

Section decode.
Context {S : Type} `{BufferImpl S}.
Definition DecodeFixedHeader : stM panicv (S * ackMsg) bool := mret false.
Definition DecodeVariableHeader : stM panicv (S * ackMsg) bool :=
  before ← buf_ bufLen;
  id ← buf_ getUint16;
  _ ← upd (λ m, MkAck (a_hdr m) id);
  after ← buf_ bufLen;
  _ ← upd (λ m, MkAck (sub_rl (before - after) (a_hdr m)) (a_id m));
  mret true.
Definition DecodePayload : stM panicv (S * ackMsg) bool := implement_me.
End decode.

Definition Encode : encM ackMsg :=
  m ← this;
  body ← buf_ (with_new (putUint16 (a_id m)));
  _ ← upd (λ m, MkAck (set_rl (int32 (Len body)) (a_hdr m)) (a_id m));
  m ← this;
  all ← buf_ (encode_with (a_hdr m) body);
  mret (Ok all).
End PubComp.

Module UnsubAck.
Definition NewUnsubAck : ackMsg := MkAck (MkHeader MsgTypeUnsubAck 0 0) 0.

Section decode.
Context {S : Type} `{BufferImpl S}.
Definition DecodeFixedHeader : stM panicv (S * ackMsg) bool := mret false.
Definition DecodeVariableHeader : stM panicv (S * ackMsg) bool :=
  before ← buf_ bufLen;
  id ← buf_ getUint16;
  _ ← upd (λ m, MkAck (a_hdr m) id);
  after ← buf_ bufLen;
  _ ← upd (λ m, MkAck (sub_rl (before - after) (a_hdr m)) (a_id m));
  mret true.
Definition DecodePayload : stM panicv (S * ackMsg) bool := implement_me.
End decode.

Definition Encode : encM ackMsg :=
  m ← this;
  body ← buf_ (with_new (putUint16 (a_id m)));
  _ ← upd (λ m, MkAck (set_rl (int32 (Len body)) (a_hdr m)) (a_id m));
  m ← this;
  all ← buf_ (encode_with (a_hdr m) body);
  mret (Ok all).
End UnsubAck.

(** [PingReq], [PingResp] and [Disconnect] are a bare header. *)

Module PingReq.
Definition NewPingReq : Header := MkHeader MsgTypePingReq 0 0.

Section decode.
Context {S : Type} `{BufferImpl S}.
Definition DecodeFixedHeader : stM panicv (S * Header) bool := mret true.
Definition DecodeVariableHeader : stM panicv (S * Header) bool := implement_me.
Definition DecodePayload : stM panicv (S * Header) bool := implement_me.
End decode.

Definition Encode : encM Header :=
  m ← this;
  all ← buf_ (Header_encode m);
  mret (Ok all).
End PingReq.

Module PingResp.
Definition NewPingResp : Header := MkHeader MsgTypePingResp 0 0.

Section decode.
Context {S : Type} `{BufferImpl S}.
Definition DecodeFixedHeader : stM panicv (S * Header) bool := mret true.
Definition DecodeVariableHeader : stM panicv (S * Header) bool := implement_me.
Definition DecodePayload : stM panicv (S * Header) bool := implement_me.
End decode.

Definition Encode : encM Header :=
  m ← this;
  all ← buf_ (Header_encode m);
  mret (Ok all).
End PingResp.

Module Disconnect.
Definition NewDisconnect : Header := MkHeader MsgTypeDisconnect 0 0.

Section decode.
Context {S : Type} `{BufferImpl S}.
Definition DecodeFixedHeader : stM panicv (S * Header) bool := mret true.
Definition DecodeVariableHeader : stM panicv (S * Header) bool := implement_me.
Definition DecodePayload : stM panicv (S * Header) bool := implement_me.
End decode.

Definition Encode : encM Header :=
  m ← this;
  all ← buf_ (Header_encode m);
  mret (Ok all).
End Disconnect.

Module ConnAck.
Record t := Mk { hdr : Header; SessionPresentFlag : bool; ReturnCode : Z }.
Definition set_hdr (h : Header) (m : t) : t := Mk h (SessionPresentFlag m) (ReturnCode m).
Definition NewConnAck : t := Mk (MkHeader MsgTypeConnAck 0 0) false 0.

Section decode.
Context {S : Type} `{BufferImpl S}.
Definition DecodeFixedHeader : stM panicv (S * t) bool := mret false.
Definition DecodeVariableHeader : stM panicv (S * t) bool :=
  before ← buf_ bufLen;
  b1 ← buf_ getUint8;
  _ ← upd (λ m, Mk (hdr m) (0 <? Z.land b1 0x01) (ReturnCode m));
  rc ← buf_ getUint8;
  _ ← upd (λ m, Mk (hdr m) (SessionPresentFlag m) rc);
  if negb (ReturnCode_IsValid rc) then throw (PError ErrInvalidMessage)
  else
    after ← buf_ bufLen;
    _ ← upd (λ m, set_hdr (sub_rl (before - after) (hdr m)) m);
    mret true.
Definition DecodePayload : stM panicv (S * t) bool := implement_me.
End decode.

Definition Encode : encM t :=
  m ← this;
  body ← buf_ (with_new (_ ← putByte (boolToByte (SessionPresentFlag m));
                         putByte (ReturnCode m)));
  _ ← upd (λ m, set_hdr (set_rl (int32 (Len body)) (hdr m)) m);
  m ← this;
  if negb (RemainingLength_IsValid (remainingLength (hdr m))) then mret (Err ErrInvalidMessage)
  else all ← buf_ (encode_with (hdr m) body); mret (Ok all).
End ConnAck.

Module Connect.
Record t := Mk {
  hdr : Header;
  ProtocolName : bytes; ProtocolLevel : Z;
  UserNameFlag : bool; passwordFlag : bool; WillRetain : bool; WillQos : Z;
  WillFlag : bool; CleanSession : bool; KeepAlive : Z;
  ClientId : bytes; WillTopic : bytes; WillMessage : bytes;
  Username : bytes; Password : bytes
}.
Definition NewConnect : t :=
  Mk (MkHeader MsgTypeConnect 0 0) [] 0 false false false 0 false false 0 [] [] [] [] [].

Definition set_hdr (h : Header) (m : t) : t :=
  Mk h (ProtocolName m) (ProtocolLevel m) (UserNameFlag m) (passwordFlag m) (WillRetain m)
     (WillQos m) (WillFlag m) (CleanSession m) (KeepAlive m)
     (ClientId m) (WillTopic m) (WillMessage m) (Username m) (Password m).
Definition set_protocol (n : bytes) (l : Z) (m : t) : t :=
  Mk (hdr m) n l (UserNameFlag m) (passwordFlag m) (WillRetain m)
     (WillQos m) (WillFlag m) (CleanSession m) (KeepAlive m)
     (ClientId m) (WillTopic m) (WillMessage m) (Username m) (Password m).
(** The six fields cut from the flags byte. *)
Definition set_flags (f : Z) (m : t) : t :=
  Mk (hdr m) (ProtocolName m) (ProtocolLevel m)
     (0 <? Z.land f 0x80) (0 <? Z.land f 0x40) (0 <? Z.land f 0x20)
     (Z.shiftr (Z.land f 0x18) 3) (0 <? Z.land f 0x04) (0 <? Z.land f 0x02) (KeepAlive m)
     (ClientId m) (WillTopic m) (WillMessage m) (Username m) (Password m).
Definition set_keepalive (k : Z) (m : t) : t :=
  Mk (hdr m) (ProtocolName m) (ProtocolLevel m) (UserNameFlag m) (passwordFlag m)
     (WillRetain m) (WillQos m) (WillFlag m) (CleanSession m) k
     (ClientId m) (WillTopic m) (WillMessage m) (Username m) (Password m).
Definition set_payload (cid wt wm u p : bytes) (m : t) : t :=
  Mk (hdr m) (ProtocolName m) (ProtocolLevel m) (UserNameFlag m) (passwordFlag m)
     (WillRetain m) (WillQos m) (WillFlag m) (CleanSession m) (KeepAlive m) cid wt wm u p.

Section decode.
Context {S : Type} `{BufferImpl S}.
Definition DecodeFixedHeader : stM panicv (S * t) bool := mret false.

Definition DecodeVariableHeader : stM panicv (S * t) bool :=
  before ← buf_ bufLen;
  n ← buf_ getString;
  _ ← upd (λ m, set_protocol n (ProtocolLevel m) m);
  l ← buf_ getUint8;
  _ ← upd (λ m, set_protocol (ProtocolName m) l m);
  flags ← buf_ getUint8;
  _ ← upd (set_flags flags);
  k ← buf_ getUint16;
  _ ← upd (set_keepalive k);
  after ← buf_ bufLen;
  _ ← upd (λ m, set_hdr (sub_rl (before - after) (hdr m)) m);
  mret false.

Definition DecodePayload : stM panicv (S * t) bool :=
  m ← this;
  l ← buf_ bufLen;
  if l <? remainingLength (hdr m) then mret false
  else
    before ← buf_ bufLen;
    c ← buf_ getString;
    _ ← upd (λ m, set_payload c (WillTopic m) (WillMessage m) (Username m) (Password m) m);
    m ← this;
    _ ← (if WillFlag m then
           wt ← buf_ getString;
           _ ← upd (λ m, set_payload (ClientId m) wt (WillMessage m) (Username m) (Password m) m);
           wm ← buf_ getString;
           upd (λ m, set_payload (ClientId m) (WillTopic m) wm (Username m) (Password m) m)
         else mret tt);
    _ ← (if UserNameFlag m then
           u ← buf_ getString;
           upd (λ m, set_payload (ClientId m) (WillTopic m) (WillMessage m) u (Password m) m)
         else mret tt);
    _ ← (if passwordFlag m then
           p ← buf_ getString;
           upd (λ m, set_payload (ClientId m) (WillTopic m) (WillMessage m) (Username m) p m)
         else mret tt);
    after ← buf_ bufLen;
    _ ← upd (λ m, set_hdr (sub_rl (before - after) (hdr m)) m);
    mret true.
End decode.

Definition flags_byte (m : t) : Z :=
  let f := uint8 (Z.shiftl (boolToByte (UserNameFlag m)) 7) in
  let f := Z.lor f (uint8 (Z.shiftl (boolToByte (passwordFlag m)) 6)) in
  let f := Z.lor f (uint8 (Z.shiftl (boolToByte (WillRetain m)) 5)) in
  let f := Z.lor f (uint8 (Z.shiftl (WillQos m) 3)) in
  let f := Z.lor f (uint8 (Z.shiftl (boolToByte (WillFlag m)) 2)) in
  Z.lor f (uint8 (Z.shiftl (boolToByte (CleanSession m)) 1)).

Definition put_body (m : t) : outM unit :=
  _ ← putString (ProtocolName m);
  _ ← putByte (ProtocolLevel m);
  _ ← putByte (flags_byte m);
  _ ← putUint16 (KeepAlive m);
  _ ← putString (ClientId m);
  _ ← (if WillFlag m then _ ← putString (WillTopic m); putString (WillMessage m) else mret tt);
  _ ← (if UserNameFlag m then putString (Username m) else mret tt);
  if passwordFlag m then putString (Password m) else mret tt.

Definition Encode : encM t :=
  m ← this;
  if negb (Qos_IsValid (WillQos m)) then mret (Err ErrInvalidMessage)
  else
    body ← buf_ (with_new (put_body m));
    _ ← upd (λ m, set_hdr (set_rl (int32 (Len body)) (hdr m)) m);
    m ← this;
    if negb (RemainingLength_IsValid (remainingLength (hdr m)))
    then mret (Err ErrInvalidMessage)
    else all ← buf_ (encode_with (hdr m) body); mret (Ok all).
End Connect.

Module Publish.
Record t := Mk {
  hdr : Header; Dup : bool; Qos : Z; Retain : bool;
  TopicName : bytes; PacketIdentifier : Z;
  Payload : option bytes (* [nil] is [None] *)
}.
Definition set_hdr (h : Header) (m : t) : t :=
  Mk h (Dup m) (Qos m) (Retain m) (TopicName m) (PacketIdentifier m) (Payload m).
Definition set_topic (s : bytes) (m : t) : t :=
  Mk (hdr m) (Dup m) (Qos m) (Retain m) s (PacketIdentifier m) (Payload m).
Definition set_id (i : Z) (m : t) : t :=
  Mk (hdr m) (Dup m) (Qos m) (Retain m) (TopicName m) i (Payload m).
Definition set_payload (p : bytes) (m : t) : t :=
  Mk (hdr m) (Dup m) (Qos m) (Retain m) (TopicName m) (PacketIdentifier m) (Some p).
Definition NewPublish : t := Mk (MkHeader MsgTypePublish 0 0) false 0 false [] 0 None.

Section decode.
Context {S : Type} `{BufferImpl S}.
Definition DecodeFixedHeader : stM panicv (S * t) bool :=
  _ ← upd (λ m, Mk (hdr m) (0 <? Z.land (msgFlag (hdr m)) 0x08)
                   (Z.shiftr (Z.land (msgFlag (hdr m)) 0x06) 1)
                   (0 <? Z.land (msgFlag (hdr m)) 0x01)
                   (TopicName m) (PacketIdentifier m) (Payload m));
  mret false.

Definition DecodeVariableHeader : stM panicv (S * t) bool :=
  before ← buf_ bufLen;
  n ← buf_ getString;
  _ ← upd (set_topic n);
  m ← this;
  _ ← (if Qos_HasId (Qos m) then i ← buf_ getUint16; upd (set_id i) else mret tt);
  after ← buf_ bufLen;
  _ ← upd (λ m, set_hdr (sub_rl (before - after) (hdr m)) m);
  m ← this;
  mret (remainingLength (hdr m) =? 0).

(** The error of [Read] is dropped: what is not filled stays zero. *)
Definition DecodePayload : stM panicv (S * t) bool :=
  before ← buf_ bufLen;
  m ← this;
  let l := remainingLength (hdr m) in
  if before <? l then mret false
  else if l <? 0 then throw (PError ErrRuntime)
  else
    '(d, _) ← buf_ (lift (bRead l));
    _ ← upd (set_payload (d ++ replicate (Z.to_nat (l - zlen d)) x00));
    after ← buf_ bufLen;
    _ ← upd (λ m, set_hdr (sub_rl (before - after) (hdr m)) m);
    mret true.
End decode.

Definition flags_byte (m : t) : Z :=
  Z.lor (Z.lor (uint8 (Z.shiftl (boolToByte (Dup m)) 3)) (uint8 (Z.shiftl (Qos m) 1)))
        (boolToByte (Retain m)).

Definition put_body (m : t) : outM unit :=
  _ ← putString (TopicName m);
  _ ← (if Qos_HasId (Qos m) then putUint16 (PacketIdentifier m) else mret tt);
  match Payload m with Some p => putBytes p | None => mret tt end.

Definition Encode : encM t :=
  m ← this;
  body ← buf_ (with_new (put_body m));
  _ ← upd (λ m, set_hdr (set_rl (int32 (Len body)) (set_flag (flags_byte m) (hdr m))) m);
  m ← this;
  all ← buf_ (encode_with (hdr m) body);
  mret (Ok all).
End Publish.

Module Subscribe.
Record TopicFilter := MkTF { TopicName : bytes; RequestedQos : Z }.
Record t := Mk { hdr : Header; PacketIdentifier : Z; TopicFilters : list TopicFilter }.
Definition set_hdr (h : Header) (m : t) : t := Mk h (PacketIdentifier m) (TopicFilters m).
Definition NewSubscribe : t := Mk (MkHeader MsgTypeSubscribe 0 0) 0 [].

Section decode.
Context {S : Type} `{BufferImpl S}.
Definition DecodeFixedHeader : stM panicv (S * t) bool := mret false.
Definition DecodeVariableHeader : stM panicv (S * t) bool :=
  before ← buf_ bufLen;
  id ← buf_ getUint16;
  _ ← upd (λ m, Mk (hdr m) id (TopicFilters m));
  after ← buf_ bufLen;
  _ ← upd (λ m, set_hdr (sub_rl (before - after) (hdr m)) m);
  m ← this;
  mret (remainingLength (hdr m) =? 0).
(** One topic filter is read, whatever the remaining length. *)
Definition DecodePayload : stM panicv (S * t) bool :=
  m ← this;
  l ← buf_ bufLen;
  if l <? remainingLength (hdr m) then mret false
  else
    tfs ← (if 0 <? remainingLength (hdr m) then
             n ← buf_ getString;
             q ← buf_ getUint8;
             mret [MkTF n q]
           else mret []);
    _ ← upd (λ m, Mk (hdr m) (PacketIdentifier m) tfs);
    mret true.
End decode.

Fixpoint put_filters (tfs : list TopicFilter) : outM unit :=
  match tfs with
  | [] => mret tt
  | tf :: tfs =>
      _ ← putString (TopicName tf);
      _ ← putByte (RequestedQos tf);
      put_filters tfs
  end.

Definition Encode : encM t :=
  m ← this;
  body ← buf_ (with_new (_ ← putUint16 (PacketIdentifier m); put_filters (TopicFilters m)));
  _ ← upd (λ m, set_hdr (set_rl (int32 (Len body)) (hdr m)) m);
  m ← this;
  all ← buf_ (encode_with (hdr m) body);
  mret (Ok all).
End Subscribe.

Module SubAck.
Record t := Mk { hdr : Header; PacketIdentifier : Z; acks : list Z }.
Definition set_hdr (h : Header) (m : t) : t := Mk h (PacketIdentifier m) (acks m).
Definition NewSubAck : t := Mk (MkHeader MsgTypeSubAck 0 0) 0 [].

Section decode.
Context {S : Type} `{BufferImpl S}.
Definition DecodeFixedHeader : stM panicv (S * t) bool := mret false.
Definition DecodeVariableHeader : stM panicv (S * t) bool :=
  before ← buf_ bufLen;
  id ← buf_ getUint16;
  _ ← upd (λ m, Mk (hdr m) id (acks m));
  after ← buf_ bufLen;
  _ ← upd (λ m, set_hdr (sub_rl (before - after) (hdr m)) m);
  m ← this;
  mret (remainingLength (hdr m) =? 0).
Definition DecodePayload : stM panicv (S * t) bool :=
  m ← this;
  l ← buf_ bufLen;
  if l <? remainingLength (hdr m) then mret false
  else
    cs ← (if 0 <? remainingLength (hdr m) then c ← buf_ getUint8; mret [c] else mret []);
    _ ← upd (λ m, Mk (hdr m) (PacketIdentifier m) cs);
    mret true.
End decode.

Fixpoint put_acks (cs : list Z) : outM unit :=
  match cs with
  | [] => mret tt
  | c :: cs => _ ← putByte c; put_acks cs
  end.

Definition Encode : encM t :=
  m ← this;
  body ← buf_ (with_new (_ ← putUint16 (PacketIdentifier m); put_acks (acks m)));
  _ ← upd (λ m, set_hdr (set_rl (int32 (Len body)) (hdr m)) m);
  m ← this;
  all ← buf_ (encode_with (hdr m) body);
  mret (Ok all).
End SubAck.

Module Unsubscribe.
Record t := Mk { hdr : Header; PacketIdentifier : Z; TopicNames : list bytes }.
Definition set_hdr (h : Header) (m : t) : t := Mk h (PacketIdentifier m) (TopicNames m).
Definition NewUnsubscribe : t := Mk (MkHeader MsgTypeUnsubscribe 0 0) 0 [].

Section decode.
Context {S : Type} `{BufferImpl S}.
Definition DecodeFixedHeader : stM panicv (S * t) bool := mret false.
Definition DecodeVariableHeader : stM panicv (S * t) bool :=
  before ← buf_ bufLen;
  id ← buf_ getUint16;
  _ ← upd (λ m, Mk (hdr m) id (TopicNames m));
  after ← buf_ bufLen;
  _ ← upd (λ m, set_hdr (sub_rl (before - after) (hdr m)) m);
  m ← this;
  mret (remainingLength (hdr m) =? 0).
Definition DecodePayload : stM panicv (S * t) bool :=
  m ← this;
  l ← buf_ bufLen;
  if l <? remainingLength (hdr m) then mret false
  else
    ns ← (if 0 <? remainingLength (hdr m) then n ← buf_ getString; mret [n] else mret []);
    _ ← upd (λ m, Mk (hdr m) (PacketIdentifier m) ns);
    mret true.
End decode.

(** The topic names are not written. *)
Definition Encode : encM t :=
  m ← this;
  body ← buf_ (with_new (putUint16 (PacketIdentifier m)));
  _ ← upd (λ m, set_hdr (set_rl (int32 (Len body)) (hdr m)) m);
  m ← this;
  all ← buf_ (encode_with (hdr m) body);
  mret (Ok all).
End Unsubscribe.

(** ** The [Message] interface *)

Inductive Message :=
| MConnect (m : Connect.t)
| MConnAck (m : ConnAck.t)
| MPublish (m : Publish.t)
| MPubAck (m : ackMsg)
| MPubRec (m : ackMsg)
| MPubRel (m : ackMsg)
| MPubComp (m : ackMsg)
| MSubscribe (m : Subscribe.t)
| MSubAck (m : SubAck.t)
| MUnsubscribe (m : Unsubscribe.t)
| MUnsubAck (m : ackMsg)
| MPingReq (m : Header)
| MPingResp (m : Header)
| MDisconnect (m : Header).

Definition NewMessage (h : Header) : option Message :=
  let t := msgType h in
  if t =? MsgTypeConnect then Some (MConnect (Connect.set_hdr h Connect.NewConnect))
  else if t =? MsgTypeConnAck then Some (MConnAck (ConnAck.set_hdr h ConnAck.NewConnAck))
  else if t =? MsgTypePublish then Some (MPublish (Publish.set_hdr h Publish.NewPublish))
  else if t =? MsgTypePubAck then Some (MPubAck (MkAck h 0))
  else if t =? MsgTypePubRec then Some (MPubRec (MkAck h 0))
  else if t =? MsgTypePubRel then Some (MPubRel (MkAck h 0))
  else if t =? MsgTypePubComp then Some (MPubComp (MkAck h 0))
  else if t =? MsgTypeSubscribe then Some (MSubscribe (Subscribe.set_hdr h Subscribe.NewSubscribe))
  else if t =? MsgTypeSubAck then Some (MSubAck (SubAck.set_hdr h SubAck.NewSubAck))
  else if t =? MsgTypeUnsubscribe
       then Some (MUnsubscribe (Unsubscribe.set_hdr h Unsubscribe.NewUnsubscribe))
  else if t =? MsgTypeUnsubAck then Some (MUnsubAck (MkAck h 0))
  else if t =? MsgTypePingReq then Some (MPingReq h)
  else if t =? MsgTypePingResp then Some (MPingResp h)
  else if t =? MsgTypeDisconnect then Some (MDisconnect h)
  else None.

(** A method of one struct as a method of the interface value. *)
Definition as_ {S T A} (inj : T → Message) (t : T) (m : stM panicv (S * T) A)
    : S → res panicv A * (S * Message) := λ s,
  let '(r, (s', t')) := m (s, t) in (r, (s', inj t')).

Section dispatch.
Context {S : Type} `{BufferImpl S}.

Definition Message_DecodeFixedHeader : stM panicv (S * Message) bool := λ '(s, m),
  match m with
  | MConnect t => as_ MConnect t Connect.DecodeFixedHeader s
  | MConnAck t => as_ MConnAck t ConnAck.DecodeFixedHeader s
  | MPublish t => as_ MPublish t Publish.DecodeFixedHeader s
  | MPubAck t => as_ MPubAck t PubAck.DecodeFixedHeader s
  | MPubRec t => as_ MPubRec t PubRec.DecodeFixedHeader s
  | MPubRel t => as_ MPubRel t PubRel.DecodeFixedHeader s
  | MPubComp t => as_ MPubComp t PubComp.DecodeFixedHeader s
  | MSubscribe t => as_ MSubscribe t Subscribe.DecodeFixedHeader s
  | MSubAck t => as_ MSubAck t SubAck.DecodeFixedHeader s
  | MUnsubscribe t => as_ MUnsubscribe t Unsubscribe.DecodeFixedHeader s
  | MUnsubAck t => as_ MUnsubAck t UnsubAck.DecodeFixedHeader s
  | MPingReq t => as_ MPingReq t PingReq.DecodeFixedHeader s
  | MPingResp t => as_ MPingResp t PingResp.DecodeFixedHeader s
  | MDisconnect t => as_ MDisconnect t Disconnect.DecodeFixedHeader s
  end.

Definition Message_DecodeVariableHeader : stM panicv (S * Message) bool := λ '(s, m),
  match m with
  | MConnect t => as_ MConnect t Connect.DecodeVariableHeader s
  | MConnAck t => as_ MConnAck t ConnAck.DecodeVariableHeader s
  | MPublish t => as_ MPublish t Publish.DecodeVariableHeader s
  | MPubAck t => as_ MPubAck t PubAck.DecodeVariableHeader s
  | MPubRec t => as_ MPubRec t PubRec.DecodeVariableHeader s
  | MPubRel t => as_ MPubRel t PubRel.DecodeVariableHeader s
  | MPubComp t => as_ MPubComp t PubComp.DecodeVariableHeader s
  | MSubscribe t => as_ MSubscribe t Subscribe.DecodeVariableHeader s
  | MSubAck t => as_ MSubAck t SubAck.DecodeVariableHeader s
  | MUnsubscribe t => as_ MUnsubscribe t Unsubscribe.DecodeVariableHeader s
  | MUnsubAck t => as_ MUnsubAck t UnsubAck.DecodeVariableHeader s
  | MPingReq t => as_ MPingReq t PingReq.DecodeVariableHeader s
  | MPingResp t => as_ MPingResp t PingResp.DecodeVariableHeader s
  | MDisconnect t => as_ MDisconnect t Disconnect.DecodeVariableHeader s
  end.

Definition Message_DecodePayload : stM panicv (S * Message) bool := λ '(s, m),
  match m with
  | MConnect t => as_ MConnect t Connect.DecodePayload s
  | MConnAck t => as_ MConnAck t ConnAck.DecodePayload s
  | MPublish t => as_ MPublish t Publish.DecodePayload s
  | MPubAck t => as_ MPubAck t PubAck.DecodePayload s
  | MPubRec t => as_ MPubRec t PubRec.DecodePayload s
  | MPubRel t => as_ MPubRel t PubRel.DecodePayload s
  | MPubComp t => as_ MPubComp t PubComp.DecodePayload s
  | MSubscribe t => as_ MSubscribe t Subscribe.DecodePayload s
  | MSubAck t => as_ MSubAck t SubAck.DecodePayload s
  | MUnsubscribe t => as_ MUnsubscribe t Unsubscribe.DecodePayload s
  | MUnsubAck t => as_ MUnsubAck t UnsubAck.DecodePayload s
  | MPingReq t => as_ MPingReq t PingReq.DecodePayload s
  | MPingResp t => as_ MPingResp t PingResp.DecodePayload s
  | MDisconnect t => as_ MDisconnect t Disconnect.DecodePayload s
  end.
End dispatch.

(** [doEncode]: the buffer or error, and the message with its header updated. *)
Definition Message_Encode (m : Message) : world → res panicv (res mqttErr ioBuffer) * (world * Message) :=
  match m with
  | MConnect t => as_ MConnect t Connect.Encode
  | MConnAck t => as_ MConnAck t ConnAck.Encode
  | MPublish t => as_ MPublish t Publish.Encode
  | MPubAck t => as_ MPubAck t PubAck.Encode
  | MPubRec t => as_ MPubRec t PubRec.Encode
  | MPubRel t => as_ MPubRel t PubRel.Encode
  | MPubComp t => as_ MPubComp t PubComp.Encode
  | MSubscribe t => as_ MSubscribe t Subscribe.Encode
  | MSubAck t => as_ MSubAck t SubAck.Encode
  | MUnsubscribe t => as_ MUnsubscribe t Unsubscribe.Encode
  | MUnsubAck t => as_ MUnsubAck t UnsubAck.Encode
  | MPingReq t => as_ MPingReq t PingReq.Encode
  | MPingResp t => as_ MPingResp t PingResp.Encode
  | MDisconnect t => as_ MDisconnect t Disconnect.Encode
  end.
