(* ===== verification/MqttFacts.v ===== *)
(** * Readers and writers of MQTT messages against their wire format

    [has s u]: the buffer [s] holds the unread bytes [u].  The readers of Mqtt.v
    are specified by what they take from [u], the writers by the bytes they
    append ([emits]); both meet in the pure wire format [wire] of a message,
    from which the round trip of every message type follows. *)

From S2P Require Import Prelude BytePool IoBuffer Mqtt.

(** ** Wire format *)

Definition enc_u16 (i : Z) : bytes := [z2b (Z.shiftr i 8); z2b i].
Definition enc_string (s : bytes) : bytes := enc_u16 (zlen s) ++ s.
#[global] Arguments enc_u16 : simpl never.
#[global] Arguments enc_string : simpl never.
#[global] Arguments sub_rl : simpl never.

Fixpoint enc_len_digits (fuel : nat) (len : Z) : bytes :=
  match fuel with
  | O => []
  | S fuel =>
      if 0 <? len then
        let rest := Z.shiftr len 7 in
        z2b (if 0 <? rest then Z.lor (Z.land len 0x7f) 0x80 else Z.land len 0x7f)
          :: enc_len_digits fuel rest
      else []
  end.
Definition enc_len (len : Z) : bytes :=
  if len =? 0 then [z2b 0] else enc_len_digits 5 len.

Definition enc_header (t f len : Z) : bytes :=
  z2b (Z.lor (uint8 (Z.shiftl t 4)) f) :: enc_len len.

(** ** Rules for the readers *)

Section readers.
Context {S : Type} `{BufferSpec S}.

Definition has (s : S) (u : bytes) : Prop := ∃ t, rep s (Abuf u t).

Lemma has_len s u : has s u → bLen s = zlen u.
Proof. intros [t Hr]. exact (rep_len _ _ Hr). Qed.

Lemma wp_bufLen u (Q : Z → S → Prop) s : has s u → Q (zlen u) s → wp bufLen Q s.
Proof. intros Hs HQ. unfold wp, wpe, bufLen. by rewrite (has_len s u Hs). Qed.

Lemma wp_readByte c u (Q : res ioerr byte → S → Prop) s :
  has s (c :: u) → (∀ s', has s' u → Q (Ok c) s') → wp (lift bReadByte) Q s.
Proof.
  intros [t Hr] HQ. destruct (rep_readbyte _ _ Hr) as (s' & E & Hr').
  unfold wp, wpe, lift. rewrite E. apply HQ. eexists; exact Hr'.
Qed.

Lemma wp_read n d u (Q : bytes * option ioerr → S → Prop) s :
  has s (d ++ u) → zlen d = n →
  (∀ s', has s' u → Q (d, None) s') → wp (lift (bRead n)) Q s.
Proof.
  intros [t Hr] <- HQ.
  destruct (rep_read _ _ (zlen d) Hr (zlen_nonneg d)) as (s' & E & Hr').
  unfold wp, wpe, lift. rewrite E. unfold a_read in *. cbn [unread] in *.
  destruct (d ++ u) as [|c v] eqn:Edu.
  - apply app_eq_nil in Edu as [-> ->]. apply HQ. eexists; exact Hr'.
  - rewrite <- Edu in *. unfold zlen in *. rewrite Nat2Z.id, take_app_length in *.
    rewrite drop_app_length in Hr'. apply HQ. eexists; exact Hr'.
Qed.

Lemma wp_getUint8 c u (Q : Z → S → Prop) s :
  has s (c :: u) → (∀ s', has s' u → Q (b2z c) s') → wp getUint8 Q s.
Proof.
  intros Hs HQ. unfold getUint8. apply wp_bind. eapply wp_readByte; [done|].
  intros s' Hs'. apply wp_ret. by apply HQ.
Qed.

Lemma b2z_be h : 0 ≤ h < 65536 → b2z (z2b (Z.shiftr h 8)) * 256 + b2z (z2b h) = h.
Proof.
  intros Hh. rewrite !b2z_z2b, Z.shiftr_div_pow2 by lia. change (2 ^ 8) with 256.
  rewrite (Z.mod_small (h / 256)); [|split; [apply Z.div_pos|apply Z.div_lt_upper_bound]; lia].
  pose proof (Z.div_mod h 256). lia.
Qed.

Lemma wp_getUint16 i u (Q : Z → S → Prop) s :
  has s (enc_u16 i ++ u) → 0 ≤ i < 65536 →
  (∀ s', has s' u → Q i s') → wp getUint16 Q s.
Proof.
  intros Hs Hi HQ. unfold getUint16. apply wp_bind. eapply wp_bufLen; [done|].
  rewrite zlen_app. change (zlen (enc_u16 i)) with 2.
  rewrite (proj2 (Z.ltb_ge _ _)) by (pose proof (zlen_nonneg u); lia).
  apply wp_bind. eapply wp_read; [done|done|]. intros s' Hs'. apply wp_ret.
  rewrite b2z_be by done. by apply HQ.
Qed.

Lemma wp_getString d u (Q : bytes → S → Prop) s :
  has s (enc_string d ++ u) → zlen d < 65536 →
  (∀ s', has s' u → Q d s') → wp getString Q s.
Proof.
  intros Hs Hd HQ. unfold enc_string in Hs. rewrite <- app_assoc in Hs.
  unfold getString. apply wp_bind. eapply wp_getUint16; [done|auto with strike|].
  intros s1 Hs1. apply wp_bind. eapply wp_bufLen; [done|].
  rewrite zlen_app. rewrite (proj2 (Z.ltb_ge _ _)) by (pose proof (zlen_nonneg u); lia).
  apply wp_bind. eapply wp_read; [done|done|]. intros s2 Hs2.
  rewrite Z.eqb_refl. apply wp_ret. by apply HQ.
Qed.

(** One byte of a remaining length. *)
Lemma len_byte len :
  0 < len → let rest := Z.shiftr len 7 in
  let b := z2b (if 0 <? rest then Z.lor (Z.land len 0x7f) 0x80 else Z.land len 0x7f) in
  Z.land (b2z b) 0x7f = len mod 128 ∧ (Z.land (b2z b) 0x80 =? 0) = negb (0 <? rest) ∧
  rest = len / 128.
Proof.
  intros Hl. cbv zeta. rewrite Z.shiftr_div_pow2 by lia. change (2 ^ 7) with 128.
  assert (Z.land len 0x7f = len mod 128) as -> by (by apply (Z.land_ones len 7)).
  pose proof (Z.mod_pos_bound len 128 ltac:(lia)) as Hm. set (m := len mod 128) in *.
  assert (∀ k, (k < 128)%nat → Z.land (Z.of_nat k) 0x7f = Z.of_nat k ∧
    Z.land (Z.of_nat k) 0x80 = 0 ∧ Z.lor (Z.of_nat k) 0x80 = Z.of_nat k + 128 ∧
    Z.land (Z.of_nat k + 128) 0x7f = Z.of_nat k ∧ Z.land (Z.of_nat k + 128) 0x80 = 128) as Ht.
  { intros k Hk. do 128 (destruct k as [|k]; [by vm_compute|]). lia. }
  destruct (Ht (Z.to_nat m)) as (T1 & T2 & T3 & T4 & T5); [lia|].
  rewrite Z2Nat.id in * by lia. split; [|split; [|done]].
  - destruct (0 <? len / 128); [rewrite T3|]; rewrite b2z_z2b_small by lia; done.
  - destruct (0 <? len / 128); [rewrite T3|]; rewrite b2z_z2b_small by lia.
    + by rewrite T5.
    + by rewrite T2.
Qed.

Lemma wp_decodeLength_loop n fuel len v shift u (Q : Z → S → Prop) s :
  has s (enc_len_digits fuel len ++ u) → (n ≤ fuel)%nat →
  0 < len < 2 ^ (7 * Z.of_nat n) → 0 ≤ shift → shift + 7 * Z.of_nat n ≤ 28 →
  0 ≤ v < 2 ^ shift →
  (∀ s', has s' u → Q (v + len * 2 ^ shift) s') → wp (decodeLength_loop n v shift) Q s.
Proof.
  revert fuel len v shift s. induction n as [|n IH]; intros fuel len v shift s Hs Hf Hl Hsn Hsh Hv HQ.
  { simpl in Hl. lia. }
  destruct fuel as [|fuel]; [lia|]. cbn [enc_len_digits decodeLength_loop] in *.
  rewrite (proj2 (Z.ltb_lt 0 len)) in Hs by lia.
  destruct (len_byte len ltac:(lia)) as (B1 & B2 & B3). cbv zeta in *.
  apply wp_bind. eapply wp_readByte; [exact Hs|]. intros s1 Hs1. cbv beta iota zeta.
  rewrite B1, B2. clear B1 B2.
  pose proof (Z.mod_pos_bound len 128 ltac:(lia)) as Hm.
  assert (len mod 128 * 2 ^ shift < 2 ^ 28) as Hbound.
  { apply Z.lt_le_trans with (2 ^ 7 * 2 ^ shift); [apply Z.mul_lt_mono_pos_r; [lia|lia]|].
    rewrite <- Z.pow_add_r by lia. apply Z.pow_le_mono_r; lia. }
  rewrite Z.shiftl_mul_pow2, int32_small by lia.
  rewrite <- Z.shiftl_mul_pow2, lor_shiftl_add by lia.
  pose proof (Z.div_mod len 128 ltac:(lia)) as Hdm. rewrite B3 in *.
  destruct (0 <? len / 128) eqn:Er; bdec; simpl.
  - eapply (IH fuel (len / 128)); [exact Hs1|lia| |lia|lia| |].
    + split; [done|]. apply Z.div_lt_upper_bound; [lia|].
      replace (7 * Z.of_nat (Datatypes.S n)) with (7 + 7 * Z.of_nat n) in Hl by lia.
      rewrite Z.pow_add_r in Hl by lia. lia.
    + rewrite Z.pow_add_r by lia. change (2 ^ 7) with 128. nia.
    + intros s2 Hs2. rewrite Z.pow_add_r by lia. change (2 ^ 7) with 128.
      replace (v + len mod 128 * 2 ^ shift + len / 128 * (2 ^ shift * 128))
        with (v + len * 2 ^ shift) by nia. by apply HQ.
  - apply wp_ret. replace (len mod 128) with len; [|assert (len / 128 = 0) by (apply Z.le_antisymm; [done|apply Z.div_pos; lia]); lia].
    apply HQ. destruct fuel; simpl in Hs1; [done|]. by rewrite (proj2 (Z.ltb_ge _ _)) in Hs1 by lia.
Qed.

Lemma enc_len_pos len : 1 ≤ zlen (enc_len len) ∨ len < 0.
Proof.
  unfold enc_len. destruct (len =? 0) eqn:E; [by left|]. bdec.
  destruct (Z.lt_ge_cases len 0); [by right|]. left. cbn [enc_len_digits].
  rewrite (proj2 (Z.ltb_lt _ _)) by lia. rewrite zlen_cons.
  match goal with |- _ ≤ zlen ?l + 1 => pose proof (zlen_nonneg l) end. lia.
Qed.

Lemma zlen_enc_len len : zlen (enc_len len) ≤ 5.
Proof.
  assert (∀ n k, zlen (enc_len_digits n k) ≤ Z.of_nat n) as Hd.
  { induction n as [|n IH]; intros k; cbn [enc_len_digits]; [done|].
    destruct (0 <? k); [rewrite zlen_cons; specialize (IH (Z.shiftr k 7)); lia|].
    rewrite zlen_nil. lia. }
  unfold enc_len. destruct (len =? 0); [done|]. apply (Hd 5%nat).
Qed.

Lemma wp_decodeLength len u (Q : Z → S → Prop) s :
  has s (enc_len len ++ u) → 0 ≤ len ≤ 268435455 →
  (∀ s', has s' u → Q len s') → wp decodeLength Q s.
Proof.
  intros Hs Hl HQ. unfold decodeLength. apply wp_bind. eapply wp_bufLen; [done|].
  rewrite zlen_app. rewrite (proj2 (Z.ltb_lt _ _)).
  2:{ pose proof (zlen_nonneg u). destruct (enc_len_pos len); lia. }
  unfold enc_len in Hs. destruct (len =? 0) eqn:E; bdec.
  - subst. cbn [decodeLength_loop]. apply wp_bind. eapply wp_readByte; [exact Hs|].
    intros s' Hs'. by apply HQ.
  - eapply (wp_decodeLength_loop 4 5 len 0 0); [exact Hs|lia|simpl; lia|lia|simpl; lia|simpl; lia|].
    intros s' Hs'. replace (0 + len * 2 ^ 0) with len by lia. by apply HQ.
Qed.

Lemma header_byte t f :
  0 ≤ t < 16 → 0 ≤ f < 16 → let b := b2z (z2b (Z.lor (uint8 (Z.shiftl t 4)) f)) in
  Z.shiftr (Z.land b 0xf0) 4 = t ∧ Z.land b 0x0f = f.
Proof.
  intros Ht Hf.
  assert (∀ i j, (i < 16)%nat → (j < 16)%nat →
    let b := b2z (z2b (Z.lor (uint8 (Z.shiftl (Z.of_nat i) 4)) (Z.of_nat j))) in
    Z.shiftr (Z.land b 0xf0) 4 = Z.of_nat i ∧ Z.land b 0x0f = Z.of_nat j) as T.
  { intros i j Hi Hj. do 16 (destruct i as [|i];
      [do 16 (destruct j as [|j]; [by vm_compute|]); lia|]). lia. }
  specialize (T (Z.to_nat t) (Z.to_nat f)). rewrite !Z2Nat.id in T by lia. apply T; lia.
Qed.

Lemma wp_Header_decode t f len u (Q : Header → S → Prop) s :
  has s (enc_header t f len ++ u) → 1 ≤ t < 15 → 0 ≤ f < 16 → 0 ≤ len ≤ 268435455 →
  (∀ s', has s' u → Q (MkHeader t f len) s') → wp Header_decode Q s.
Proof.
  intros Hs Ht Hf Hl HQ. unfold Header_decode. apply wp_bind.
  eapply wp_getUint8; [exact Hs|]. intros s1 Hs1.
  destruct (header_byte t f) as [-> ->]; [lia|done|].
  unfold Type_IsValid, MsgTypeConnect, MsgTypeInvalid.
  rewrite (proj2 (Z.leb_le _ _)), (proj2 (Z.ltb_lt _ _)) by lia. simpl.
  apply wp_bind. eapply wp_decodeLength; [exact Hs1|done|]. intros s2 Hs2.
  apply wp_ret. by apply HQ.
Qed.
End readers.

Section receivers.
Context {S T : Type}.
Lemma wp_buf_ {A} (m : stM panicv S A) (Q : A → S * T → Prop) s t :
  wp m (λ a s', Q a (s', t)) s → wp (buf_ m) Q (s, t).
Proof. unfold wp, wpe, buf_. by destruct (m s) as [[?|?] ?]. Qed.
Lemma wp_this (Q : T → S * T → Prop) s t : Q t (s, t) → wp this Q (s, t).
Proof. done. Qed.
Lemma wp_upd f (Q : unit → S * T → Prop) s t : Q tt (s, f t) → wp (upd f) Q (s, t).
Proof. done. Qed.
Lemma wp_as_ {A} inj (t : T) (m : stM panicv (S * T) A) (Q : A → S * Message → Prop) s :
  wp m (λ a '(s', t'), Q a (s', inj t')) (s, t) →
  match as_ inj t m s with (Ok a, x) => Q a x | (Err _, _) => False end.
Proof. unfold wp, wpe, as_. by destruct (m (s, t)) as [[?|?] [? ?]]. Qed.
End receivers.

(** Symbolic execution of a decoder: one rule per statement. *)
Ltac dstep :=
  match goal with
  | |- wp (_ ≫= _) _ _ => apply wp_bind
  | |- wp (buf_ _) _ _ => apply wp_buf_
  | |- wp this _ _ => apply wp_this
  | |- wp (upd _) _ _ => apply wp_upd
  | |- wp (mret _) _ _ => apply wp_ret
  | Hs : has ?s _ |- wp bufLen _ ?s => eapply wp_bufLen; [exact Hs|]
  | Hs : has ?s _ |- wp getUint8 _ ?s =>
      eapply wp_getUint8; [exact Hs|]; clear Hs; let s' := fresh "s" in intros s' Hs
  | Hs : has ?s _ |- wp getUint16 _ ?s =>
      eapply wp_getUint16; [exact Hs|done|]; clear Hs; let s' := fresh "s" in intros s' Hs
  | Hs : has ?s _ |- wp getString _ ?s =>
      eapply wp_getString; [exact Hs|done|]; clear Hs; let s' := fresh "s" in intros s' Hs
  end.

(** ** Rules for the writers *)

Definition emits (m : outM unit) (d : bytes) : Prop :=
  ∀ w b, pool_ok w → wf b →
  wp m (λ _ '(w', b'), pool_ok w' ∧ wf b' ∧ view b' = view b ++ d) (w, b).

Lemma emits_bind m1 m2 d1 d2 :
  emits m1 d1 → emits m2 d2 → emits (_ ← m1; m2) (d1 ++ d2).
Proof.
  intros H1 H2 w b Hw Hb. apply wp_bind. eapply wp_mono; [by apply H1|].
  intros _ [w1 b1] (Hw1 & Hb1 & Hv1). eapply wp_mono; [by apply H2|].
  intros _ [w2 b2] (? & ? & Hv2). split; [done|]. split; [done|].
  by rewrite Hv2, Hv1, app_assoc.
Qed.

Lemma emits_ret : emits (mret tt) [].
Proof. intros w b Hw Hb. apply wp_ret. by rewrite app_nil_r. Qed.

Lemma wp_lift {S A} (m : stM goPanic S A) Q s : wp m Q s → wp (lift m) Q s.
Proof. unfold wp, wpe, lift. by destruct (m s) as [[?|?] ?]. Qed.

Lemma emits_byte z : emits (putByte z) [z2b z].
Proof.
  intros w b Hw Hb. unfold putByte. apply wp_lift.
  eapply wp_mono; [by apply WriteByte_spec|]. by intros _ [w' b'] (?&?&?&_).
Qed.

Lemma emits_bytes d : emits (putBytes d) d.
Proof.
  intros w b Hw Hb. unfold putBytes. apply wp_bind, wp_lift.
  eapply wp_mono; [by apply Write_spec|]. intros n [w' b'] (_&?&?&?&_). by apply wp_ret.
Qed.

Lemma emits_u16 i : emits (putUint16 i) (enc_u16 i).
Proof. apply (emits_bind _ _ [_] [_]); apply emits_byte. Qed.

(** A string that [putString] writes and [getString] reads back. *)
Definition str_ok (s : bytes) : Prop := s ≠ [] ∧ zlen s < 65536.

Lemma emits_string s : str_ok s → emits (putString s) (enc_string s).
Proof.
  intros [Hn Hl]. unfold putString, enc_string, uint16. pose proof (zlen_nonneg s).
  rewrite wrapU_small by (simpl; lia). apply emits_bind; [apply emits_u16|].
  rewrite bool_decide_eq_false_2 by done. apply emits_bytes.
Qed.

Lemma emits_opt (c : bool) m d : (c = true → emits m d) →
  emits (if c then m else mret tt) (if c then d else []).
Proof. destruct c; intros H; [by apply H|apply emits_ret]. Qed.

Lemma emits_len_digits fuel len :
  emits (encodeLength_loop fuel len) (enc_len_digits fuel len).
Proof.
  revert len. induction fuel as [|fuel IH]; intros len; simpl; [apply emits_ret|].
  destruct (0 <? len); [|apply emits_ret].
  apply (emits_bind _ _ [_]); [apply emits_byte|apply IH].
Qed.

Lemma emits_len len : emits (encodeLength len) (enc_len len).
Proof. unfold encodeLength, enc_len. destruct (len =? 0); [apply emits_byte|apply emits_len_digits]. Qed.

Lemma wp_with_new m d w :
  emits m d → pool_ok w →
  wp (with_new m) (λ b w', pool_ok w' ∧ wf b ∧ view b = d) w.
Proof.
  intros Hm Hw. unfold wp, wpe, with_new.
  destruct (proj1 (wp_run _ _ _) (wp_lift _ _ _ (NewIoBuffer_spec 0 w Hw)))
    as (b & w1 & -> & Hw1 & Hb & Hv & _).
  destruct (proj1 (wp_run _ _ _) (Hm w1 b Hw1 Hb)) as ([] & [w2 b2] & -> & ? & ? & Hv2).
  rewrite Hv in Hv2. done.
Qed.

Lemma wp_Header_encode h w :
  pool_ok w →
  wp (Header_encode h) (λ b w', pool_ok w' ∧ wf b ∧
    view b = enc_header (msgType h) (msgFlag h) (remainingLength h)) w.
Proof.
  intros Hw. apply wp_with_new; [|done].
  apply (emits_bind _ _ [_]); [apply emits_byte|apply emits_len].
Qed.

Lemma wp_encode_with h body w :
  pool_ok w → wf body →
  wp (encode_with h body) (λ b w', pool_ok w' ∧ wf b ∧
    view b = enc_header (msgType h) (msgFlag h) (remainingLength h) ++ view body) w.
Proof.
  intros Hw Hb. unfold wp, wpe, encode_with.
  destruct (proj1 (wp_run _ _ _) (wp_Header_encode h w Hw)) as (b & w1 & -> & Hw1 & Hb1 & Hv1).
  unfold lift, Bytes, mbind, stM_bind, getB. rewrite slice_from_view by done.
  destruct (proj1 (wp_run _ _ _) (emits_bytes (view body) w1 b Hw1 Hb1))
    as ([] & [w2 b2] & -> & ? & ? & Hv2). rewrite Hv1 in Hv2. done.
Qed.

(** ** The wire format of a message *)

Definition hdr_of (m : Message) : Header :=
  match m with
  | MConnect c => Connect.hdr c
  | MConnAck c => ConnAck.hdr c
  | MPublish p => Publish.hdr p
  | MPubAck a | MPubRec a | MPubRel a | MPubComp a | MUnsubAck a => a_hdr a
  | MSubscribe s => Subscribe.hdr s
  | MSubAck s => SubAck.hdr s
  | MUnsubscribe u => Unsubscribe.hdr u
  | MPingReq h | MPingResp h | MDisconnect h => h
  end.

Definition mtype (m : Message) : Z :=
  match m with
  | MConnect _ => 1 | MConnAck _ => 2 | MPublish _ => 3 | MPubAck _ => 4 | MPubRec _ => 5
  | MPubRel _ => 6 | MPubComp _ => 7 | MSubscribe _ => 8 | MSubAck _ => 9
  | MUnsubscribe _ => 10 | MUnsubAck _ => 11 | MPingReq _ => 12 | MPingResp _ => 13
  | MDisconnect _ => 14
  end.

Definition connect_variable (c : Connect.t) : bytes :=
  enc_string (Connect.ProtocolName c) ++ [z2b (Connect.ProtocolLevel c)]
    ++ [z2b (Connect.flags_byte c)] ++ enc_u16 (Connect.KeepAlive c).
Definition connect_payload (c : Connect.t) : bytes :=
  enc_string (Connect.ClientId c)
    ++ (if Connect.WillFlag c
        then enc_string (Connect.WillTopic c) ++ enc_string (Connect.WillMessage c) else [])
    ++ (if Connect.UserNameFlag c then enc_string (Connect.Username c) else [])
    ++ (if Connect.passwordFlag c then enc_string (Connect.Password c) else []).

Definition publish_variable (p : Publish.t) : bytes :=
  enc_string (Publish.TopicName p)
    ++ (if Qos_HasId (Publish.Qos p) then enc_u16 (Publish.PacketIdentifier p) else []).

Definition wire_variable (m : Message) : bytes :=
  match m with
  | MConnect c => connect_variable c
  | MConnAck c => [z2b (boolToByte (ConnAck.SessionPresentFlag c))] ++ [z2b (ConnAck.ReturnCode c)]
  | MPublish p => publish_variable p
  | MPubAck a | MPubRec a | MPubRel a | MPubComp a | MUnsubAck a => enc_u16 (a_id a)
  | MSubscribe s => enc_u16 (Subscribe.PacketIdentifier s)
  | MSubAck s => enc_u16 (SubAck.PacketIdentifier s)
  | MUnsubscribe u => enc_u16 (Unsubscribe.PacketIdentifier u)
  | MPingReq _ | MPingResp _ | MDisconnect _ => []
  end.

Fixpoint enc_filters (tfs : list Subscribe.TopicFilter) : bytes :=
  match tfs with
  | [] => []
  | tf :: tfs => enc_string (Subscribe.TopicName tf) ++ [z2b (Subscribe.RequestedQos tf)]
                   ++ enc_filters tfs
  end.

Definition wire_payload (m : Message) : bytes :=
  match m with
  | MConnect c => connect_payload c
  | MPublish p => default [] (Publish.Payload p)
  | MSubscribe s => enc_filters (Subscribe.TopicFilters s)
  | MSubAck s => z2b <$> SubAck.acks s
  | _ => []
  end.

Definition wire_body (m : Message) : bytes := wire_variable m ++ wire_payload m.

Definition wire_flag (m : Message) : Z :=
  match m with MPublish p => Publish.flags_byte p | _ => msgFlag (hdr_of m) end.

Definition wire (m : Message) : bytes :=
  enc_header (mtype m) (wire_flag m) (zlen (wire_body m)) ++ wire_body m.

(** A message that the protocol can carry: every field fits its wire encoding,
    fields that are not sent are zero, and at most one topic filter or return
    code is listed (the decoders read one). *)
Definition opt_str (c : bool) (s : bytes) : Prop := if c then str_ok s else s = [].
Definition u16_ok (i : Z) : Prop := 0 ≤ i < 65536.
Definition u8_ok (i : Z) : Prop := 0 ≤ i < 256.

Definition fields_ok (m : Message) : Prop :=
  match m with
  | MConnect c =>
      str_ok (Connect.ProtocolName c) ∧ u8_ok (Connect.ProtocolLevel c) ∧
      0 ≤ Connect.WillQos c < 3 ∧ u16_ok (Connect.KeepAlive c) ∧ str_ok (Connect.ClientId c) ∧
      opt_str (Connect.WillFlag c) (Connect.WillTopic c) ∧
      opt_str (Connect.WillFlag c) (Connect.WillMessage c) ∧
      opt_str (Connect.UserNameFlag c) (Connect.Username c) ∧
      opt_str (Connect.passwordFlag c) (Connect.Password c)
  | MConnAck c => ReturnCode_IsValid (ConnAck.ReturnCode c) = true
  | MPublish p =>
      str_ok (Publish.TopicName p) ∧ 0 ≤ Publish.Qos p < 3 ∧
      (if Qos_HasId (Publish.Qos p) then u16_ok (Publish.PacketIdentifier p)
       else Publish.PacketIdentifier p = 0) ∧
      Publish.Payload p ≠ Some []
  | MPubAck a | MPubRec a | MPubRel a | MPubComp a | MUnsubAck a => u16_ok (a_id a)
  | MSubscribe s =>
      u16_ok (Subscribe.PacketIdentifier s) ∧
      (length (Subscribe.TopicFilters s) ≤ 1)%nat ∧
      Forall (λ tf, str_ok (Subscribe.TopicName tf) ∧ u8_ok (Subscribe.RequestedQos tf))
        (Subscribe.TopicFilters s)
  | MSubAck s =>
      u16_ok (SubAck.PacketIdentifier s) ∧ (length (SubAck.acks s) ≤ 1)%nat ∧
      Forall u8_ok (SubAck.acks s)
  | MUnsubscribe u => u16_ok (Unsubscribe.PacketIdentifier u) ∧ Unsubscribe.TopicNames u = []
  | MPingReq h | MPingResp h | MDisconnect h => remainingLength h = 0
  end.

Definition valid (m : Message) : Prop :=
  msgType (hdr_of m) = mtype m ∧ 0 ≤ msgFlag (hdr_of m) < 16 ∧
  zlen (wire_body m) ≤ 268435455 ∧ fields_ok m.

(** A message that [Encode] can write: every field that is sent fits its
    encoding, whatever the number of topic filters, return codes and topic
    names. *)
Definition sent_ok (m : Message) : Prop :=
  match m with
  | MSubscribe s =>
      u16_ok (Subscribe.PacketIdentifier s) ∧
      Forall (λ tf, str_ok (Subscribe.TopicName tf) ∧ u8_ok (Subscribe.RequestedQos tf))
        (Subscribe.TopicFilters s)
  | MSubAck s => u16_ok (SubAck.PacketIdentifier s) ∧ Forall u8_ok (SubAck.acks s)
  | MUnsubscribe u => u16_ok (Unsubscribe.PacketIdentifier u)
  | _ => fields_ok m
  end.

Definition sendable (m : Message) : Prop :=
  msgType (hdr_of m) = mtype m ∧ 0 ≤ msgFlag (hdr_of m) < 16 ∧
  zlen (wire_body m) ≤ 268435455 ∧ sent_ok m.

(** What the decoders read of a list: one element. *)
Definition one_each (m : Message) : Prop :=
  match m with
  | MSubscribe s => (length (Subscribe.TopicFilters s) ≤ 1)%nat
  | MSubAck s => (length (SubAck.acks s) ≤ 1)%nat
  | _ => True
  end.

(** What the encoder sends of a message: everything but the topic names of an
    UNSUBSCRIBE, which [Unsubscribe.Encode] does not write. *)
Definition arrives (m : Message) : Message :=
  match m with
  | MUnsubscribe u =>
      MUnsubscribe (Unsubscribe.Mk (Unsubscribe.hdr u) (Unsubscribe.PacketIdentifier u) [])
  | _ => m
  end.

Lemma valid_sendable m : valid m → sendable m.
Proof.
  intros (Ht & Hf & Hl & Hok). do 3 (split; [done|]).
  destruct m; simpl in *; naive_solver.
Qed.

Lemma arrives_valid m : sendable m → one_each m → valid (arrives m).
Proof.
  intros (Ht & Hf & Hl & Hok) H1. destruct m; simpl in *; do 3 (split; [done|]);
    simpl; naive_solver.
Qed.

Lemma arrives_wire m : wire (arrives m) = wire m.
Proof. by destruct m. Qed.

Lemma arrives_same m :
  arrives m = m ↔ match m with MUnsubscribe u => Unsubscribe.TopicNames u = [] | _ => True end.
Proof. destruct m as [| | | | | | | | |[h i ns]| | | |]; simpl; naive_solver. Qed.

(** The message as the decoder delivers it: the header holds the flags of the
    wire and what is left of the remaining length. *)
Definition left_over (m : Message) : Z :=
  match m with
  | MSubscribe _ | MSubAck _ => zlen (wire_payload m)
  | _ => 0
  end.
Definition with_hdr (h : Header) (m : Message) : Message :=
  match m with
  | MConnect c => MConnect (Connect.set_hdr h c)
  | MConnAck c => MConnAck (ConnAck.set_hdr h c)
  | MPublish p => MPublish (Publish.set_hdr h p)
  | MPubAck a => MPubAck (MkAck h (a_id a))
  | MPubRec a => MPubRec (MkAck h (a_id a))
  | MPubRel a => MPubRel (MkAck h (a_id a))
  | MPubComp a => MPubComp (MkAck h (a_id a))
  | MSubscribe s => MSubscribe (Subscribe.set_hdr h s)
  | MSubAck s => MSubAck (SubAck.set_hdr h s)
  | MUnsubscribe u => MUnsubscribe (Unsubscribe.set_hdr h u)
  | MUnsubAck a => MUnsubAck (MkAck h (a_id a))
  | MPingReq _ => MPingReq h
  | MPingResp _ => MPingResp h
  | MDisconnect _ => MDisconnect h
  end.
Definition delivered (m : Message) : Message :=
  with_hdr (MkHeader (mtype m) (wire_flag m) (left_over m)) m.

(** ** Encoding *)

Lemma emits_filters tfs :
  Forall (λ tf, str_ok (Subscribe.TopicName tf) ∧ u8_ok (Subscribe.RequestedQos tf)) tfs →
  emits (Subscribe.put_filters tfs) (enc_filters tfs).
Proof.
  induction 1 as [|tf tfs [Hs _] _ IH];
    cbn [Subscribe.put_filters enc_filters]; [apply emits_ret|].
  apply emits_bind; [by apply emits_string|]. apply (emits_bind _ _ [_]); [apply emits_byte|done].
Qed.

Lemma emits_acks cs : emits (SubAck.put_acks cs) (z2b <$> cs).
Proof.
  induction cs as [|c cs IH]; [apply emits_ret|]. rewrite fmap_cons.
  apply (emits_bind _ _ [_]); [apply emits_byte|done].
Qed.

Lemma emits_opt_string c s : opt_str c s →
  emits (if c then putString s else mret tt) (if c then enc_string s else []).
Proof. destruct c; simpl; intros; [by apply emits_string|apply emits_ret]. Qed.

Lemma emits_connect c :
  fields_ok (MConnect c) → emits (Connect.put_body c) (wire_body (MConnect c)).
Proof.
  intros (H1 & _ & _ & _ & H5 & H6 & H7 & H8 & H9).
  unfold wire_body, Connect.put_body. cbn [wire_variable wire_payload].
  unfold connect_variable, connect_payload.
  rewrite <- !app_assoc.
  apply emits_bind; [by apply emits_string|].
  do 2 (apply (emits_bind _ _ [_]); [apply emits_byte|]).
  apply emits_bind; [apply emits_u16|]. apply emits_bind; [by apply emits_string|].
  apply emits_bind; [|apply emits_bind; by apply emits_opt_string].
  destruct (Connect.WillFlag c); [|apply emits_ret].
  apply emits_bind; by apply emits_string.
Qed.

Lemma emits_publish p :
  fields_ok (MPublish p) → emits (Publish.put_body p) (wire_body (MPublish p)).
Proof.
  intros (H1 & _). unfold wire_body, Publish.put_body.
  cbn [wire_variable wire_payload]. unfold publish_variable.
  rewrite <- app_assoc. apply emits_bind; [by apply emits_string|].
  apply emits_bind; [apply emits_opt; intros _; apply emits_u16|].
  destruct (Publish.Payload p); [apply emits_bytes|apply emits_ret].
Qed.

(** The tail of every [Encode]: header, then body. *)
Definition encoded (d : bytes) (r : res mqttErr ioBuffer) (w : world) : Prop :=
  ∃ b, r = Ok b ∧ pool_ok w ∧ wf b ∧ view b = d.

Lemma wp_tail {T} h body (x : T) t f d w :
  pool_ok w → wf body → view body = d →
  msgType h = t → msgFlag h = f → remainingLength h = zlen d →
  wp (all ← buf_ (encode_with h body); mret (Ok all))
     (λ r '(w', _), encoded (enc_header t f (zlen d) ++ d) r w') (w, x).
Proof.
  intros Hw Hb Hv <- <- Hr. dstep. apply wp_buf_. eapply wp_mono; [by apply wp_encode_with|].
  intros b w' (Hw' & Hb' & Hv'). apply wp_ret. exists b. rewrite Hr, Hv in Hv'. done.
Qed.

Lemma int32_len b d : wf b → view b = d → zlen d ≤ 268435455 → int32 (Len b) = zlen d.
Proof.
  intros Hb Hv Hd. rewrite <- length_view, Hv by done. pose proof (zlen_nonneg d).
  apply int32_small. lia.
Qed.

Lemma RemainingLength_valid l : 0 ≤ l ≤ 268435455 → RemainingLength_IsValid l = true.
Proof. intros H. unfold RemainingLength_IsValid. by rewrite !(proj2 (Z.leb_le _ _)) by lia. Qed.

(** Symbolic execution of an [Encode] whose body is emitted by [He]. *)
Ltac enc_body He :=
  dstep; dstep; dstep; dstep; eapply wp_mono; [apply (wp_with_new _ _ _ He); assumption|];
  let body := fresh "body" in let w' := fresh "w" in
  intros body w' (? & ? & ?); dstep; dstep; dstep; dstep.

Lemma ack_encode t (a : ackMsg) w :
  pool_ok w → msgType (a_hdr a) = t →
  wp PubAck.Encode
     (λ r '(w', _), encoded (enc_header t (msgFlag (a_hdr a)) 2 ++ enc_u16 (a_id a)) r w') (w, a).
Proof.
  intros Hw Ht. unfold PubAck.Encode. enc_body (emits_u16 (a_id a)).
  eapply (wp_tail _ _ _ _ _ (enc_u16 (a_id a))); try done.
  simpl. by erewrite int32_len by done.
Qed.

Lemma bare_encode t (h : Header) w :
  pool_ok w → msgType h = t → remainingLength h = 0 →
  wp PingReq.Encode (λ r '(w', _), encoded (enc_header t (msgFlag h) 0 ++ []) r w') (w, h).
Proof.
  intros Hw <- Hr. unfold PingReq.Encode. do 4 dstep. eapply wp_mono; [by apply wp_Header_encode|].
  intros b w' (?&?&Hv). dstep. exists b. rewrite Hr in Hv. by rewrite app_nil_r.
Qed.

Lemma encode_wire m w :
  sendable m → pool_ok w →
  match Message_Encode m w with
  | (Ok r, (w', _)) => encoded (wire m) r w'
  | (Err _, _) => False
  end.
Proof.
  intros (Ht & Hf & Hl & Hok) Hw. pose proof (zlen_nonneg (wire_body m)) as H0.
  destruct m as [c|c|p|a|a|a|a|s|s|u|a|h|h|h]; cbn [Message_Encode]; apply (wp_as_ (S := world));
    unfold wire; cbn [mtype wire_flag hdr_of] in *.
  - unfold Connect.Encode. dstep. dstep.
    assert (Qos_IsValid (Connect.WillQos c) = true) as ->.
    { destruct Hok as (_&_&?&_). unfold Qos_IsValid, QosTypeInvalid. apply Z.ltb_lt. lia. }
    cbn [negb]. dstep; dstep. eapply wp_mono; [apply (wp_with_new _ _ _ (emits_connect c Hok)); assumption|].
    intros body w1 (? & ? & ?). dstep. dstep. dstep. dstep.
    cbn [Connect.set_hdr Connect.hdr set_rl remainingLength].
    erewrite int32_len by done. rewrite RemainingLength_valid by done. cbn [negb].
    by eapply (wp_tail _ _ _ 1 _ (wire_body (MConnect c))).
  - unfold ConnAck.Encode. enc_body (emits_bind _ _ _ _
      (emits_byte (boolToByte (ConnAck.SessionPresentFlag c))) (emits_byte (ConnAck.ReturnCode c))).
    cbn [ConnAck.set_hdr ConnAck.hdr set_rl remainingLength].
    erewrite int32_len by done. rewrite RemainingLength_valid by done. cbn [negb].
    by eapply (wp_tail _ _ _ 2 _ (wire_body (MConnAck c))).
  - unfold Publish.Encode. enc_body (emits_publish p Hok).
    eapply (wp_tail _ _ _ 3 _ (wire_body (MPublish p))); try done.
    simpl. by erewrite int32_len by done.
  - by apply ack_encode.
  - by apply ack_encode.
  - by apply ack_encode.
  - by apply ack_encode.
  - unfold Subscribe.Encode. destruct Hok as (_ & Hfs).
    enc_body (emits_bind _ _ _ _ (emits_u16 (Subscribe.PacketIdentifier s)) (emits_filters _ Hfs)).
    eapply (wp_tail _ _ _ 8 _ (wire_body (MSubscribe s))); try done.
    simpl. by erewrite int32_len by done.
  - unfold SubAck.Encode.
    enc_body (emits_bind _ _ _ _ (emits_u16 (SubAck.PacketIdentifier s)) (emits_acks (SubAck.acks s))).
    eapply (wp_tail _ _ _ 9 _ (wire_body (MSubAck s))); try done.
    simpl. by erewrite int32_len by done.
  - unfold Unsubscribe.Encode. enc_body (emits_u16 (Unsubscribe.PacketIdentifier u)).
    eapply (wp_tail _ _ _ 10 _ (wire_body (MUnsubscribe u))); try done.
    simpl. by erewrite int32_len by done.
  - by apply ack_encode.
  - by apply bare_encode.
  - by apply bare_encode.
  - by apply bare_encode.
Qed.

(** ** Decoding, phase by phase *)

Definition is_bare (m : Message) : bool :=
  match m with MPingReq _ | MPingResp _ | MDisconnect _ => true | _ => false end.
Definition has_payload (m : Message) : bool :=
  match m with
  | MConnect _ => true
  | MPublish _ | MSubscribe _ | MSubAck _ => negb (zlen (wire_payload m) =? 0)
  | _ => false
  end.

Definition wire_hdr (m : Message) : Header :=
  MkHeader (mtype m) (wire_flag m) (zlen (wire_body m)).
Definition payload_hdr (m : Message) : Header :=
  MkHeader (mtype m) (wire_flag m) (zlen (wire_payload m)).

(** The receiver after [DecodeFixedHeader]. *)
Definition start (m : Message) : Message :=
  let h := wire_hdr m in
  match m with
  | MConnect _ => MConnect (Connect.set_hdr h Connect.NewConnect)
  | MConnAck _ => MConnAck (ConnAck.set_hdr h ConnAck.NewConnAck)
  | MPublish p => MPublish (Publish.Mk h (Publish.Dup p) (Publish.Qos p) (Publish.Retain p) [] 0 None)
  | MPubAck _ => MPubAck (MkAck h 0)
  | MPubRec _ => MPubRec (MkAck h 0)
  | MPubRel _ => MPubRel (MkAck h 0)
  | MPubComp _ => MPubComp (MkAck h 0)
  | MSubscribe _ => MSubscribe (Subscribe.Mk h 0 [])
  | MSubAck _ => MSubAck (SubAck.Mk h 0 [])
  | MUnsubscribe _ => MUnsubscribe (Unsubscribe.Mk h 0 [])
  | MUnsubAck _ => MUnsubAck (MkAck h 0)
  | MPingReq _ => MPingReq h
  | MPingResp _ => MPingResp h
  | MDisconnect _ => MDisconnect h
  end.

(** The receiver after [DecodeVariableHeader]. *)
Definition middle (m : Message) : Message :=
  let h := payload_hdr m in
  match m with
  | MConnect c => MConnect (Connect.set_hdr h (Connect.set_payload [] [] [] [] [] c))
  | MPublish p => MPublish (Publish.Mk h (Publish.Dup p) (Publish.Qos p) (Publish.Retain p)
                              (Publish.TopicName p) (Publish.PacketIdentifier p) None)
  | MSubscribe s => MSubscribe (Subscribe.Mk h (Subscribe.PacketIdentifier s) [])
  | MSubAck s => MSubAck (SubAck.Mk h (SubAck.PacketIdentifier s) [])
  | m => with_hdr h m
  end.

(** The flags byte of [Connect] and of [Publish] read back. *)
Lemma connect_flags c m :
  0 ≤ Connect.WillQos c < 3 →
  Connect.set_flags (b2z (z2b (Connect.flags_byte c))) m =
  Connect.Mk (Connect.hdr m) (Connect.ProtocolName m) (Connect.ProtocolLevel m)
    (Connect.UserNameFlag c) (Connect.passwordFlag c) (Connect.WillRetain c)
    (Connect.WillQos c) (Connect.WillFlag c) (Connect.CleanSession c) (Connect.KeepAlive m)
    (Connect.ClientId m) (Connect.WillTopic m) (Connect.WillMessage m) (Connect.Username m)
    (Connect.Password m).
Proof.
  intros Hq. unfold Connect.set_flags, Connect.flags_byte.
  assert (Connect.WillQos c = 0 ∨ Connect.WillQos c = 1 ∨ Connect.WillQos c = 2) as Hc by lia.
  destruct (Connect.UserNameFlag c), (Connect.passwordFlag c), (Connect.WillRetain c),
    (Connect.WillFlag c), (Connect.CleanSession c); destruct Hc as [-> | [-> | ->]]; reflexivity.
Qed.

Lemma publish_flags p :
  0 ≤ Publish.Qos p < 3 →
  let f := Publish.flags_byte p in
  0 ≤ f < 16 ∧ (0 <? Z.land f 0x08) = Publish.Dup p ∧
  Z.shiftr (Z.land f 0x06) 1 = Publish.Qos p ∧ (0 <? Z.land f 0x01) = Publish.Retain p.
Proof.
  intros Hq. unfold Publish.flags_byte.
  assert (Publish.Qos p = 0 ∨ Publish.Qos p = 1 ∨ Publish.Qos p = 2) as Hc by lia.
  destruct (Publish.Dup p), (Publish.Retain p); destruct Hc as [-> | [-> | ->]];
    vm_compute; repeat split; congruence.
Qed.

Lemma wire_flag_range m : valid m → 0 ≤ wire_flag m < 16.
Proof.
  intros (_ & Hf & _ & Hok). destruct m; try exact Hf.
  destruct Hok as (_ & Hq & _). by apply publish_flags.
Qed.

Lemma mtype_range m : 1 ≤ mtype m < 15.
Proof. destruct m; simpl; lia. Qed.

Lemma sub_rl_eq n h : 0 ≤ n ≤ remainingLength h → remainingLength h ≤ 268435455 →
  sub_rl n h = set_rl (remainingLength h - n) h.
Proof. intros. unfold sub_rl. rewrite (int32_small n) by lia. by rewrite int32_small by lia. Qed.

Section phases.
Context {S : Type} `{BufferSpec S}.

Lemma fixed_spec m :
  valid m → ∃ m0, NewMessage (wire_hdr m) = Some m0 ∧
    ∀ s : S, Message_DecodeFixedHeader (s, m0) = (Ok (is_bare m), (s, start m)).
Proof.
  intros (_ & _ & _ & Hok).
  destruct m as [c|c|p|a|a|a|a|x|x|u|a|h|h|h]; try by eexists.
  eexists. split; [done|]. intros s. unfold Message_DecodeFixedHeader, as_. simpl.
  unfold start, wire_hdr. cbn [mtype wire_flag]. destruct Hok as (_ & Hq & _).
  destruct (publish_flags p Hq) as (_ & -> & -> & ->). done.
Qed.

Lemma bare_spec m : valid m → is_bare m = true → start m = delivered m ∧ wire_body m = [].
Proof. intros _. by destruct m. Qed.

Lemma middle_final m :
  valid m → is_bare m = false → has_payload m = false → middle m = delivered m ∧ wire_payload m = [].
Proof.
  intros (_ & _ & _ & Hok) Hb Hp.
  destruct m as [c|c|p|a|a|a|a|x|x|u|a|h|h|h]; try done; unfold has_payload in Hp;
    apply negb_false_iff, Z.eqb_eq, zlen_0 in Hp; unfold middle, delivered, payload_hdr, left_over;
    rewrite Hp; simpl.
  - destruct p as [? ? ? ? ? ? [[|? ?]|]]; simpl in *; [by destruct Hok as (_&_&_&[])|done|done].
  - destruct x as [? ? [|tf tfs]]; [done|]. simpl in Hp. by destruct (Subscribe.TopicName tf).
  - destruct x as [? ? [|? ?]]; done.
Qed.

Lemma consumed (d u : bytes) : zlen (d ++ u) - zlen u = zlen d.
Proof. rewrite zlen_app. lia. Qed.

Lemma ack_variable h i0 id u s :
  has s (enc_u16 id ++ u) → u16_ok id → 2 ≤ remainingLength h ≤ 268435455 →
  wp PubAck.DecodeVariableHeader (λ r '(s', m'), r = true ∧
    m' = MkAck (set_rl (remainingLength h - 2) h) id ∧ has s' u) (s, MkAck h i0).
Proof.
  intros Hs Hid Hr. unfold PubAck.DecodeVariableHeader. repeat dstep.
  split; [done|]. split; [|done]. rewrite consumed. cbn [a_hdr a_id].
  by rewrite sub_rl_eq by (change (zlen (enc_u16 id)) with 2; lia).
Qed.

Lemma connect_variable_spec h c u s :
  has s (connect_variable c ++ u) → fields_ok (MConnect c) →
  zlen (connect_variable c) ≤ remainingLength h ≤ 268435455 →
  wp Connect.DecodeVariableHeader (λ r '(s', m'), r = false ∧
    m' = Connect.set_hdr (set_rl (remainingLength h - zlen (connect_variable c)) h)
           (Connect.set_payload [] [] [] [] [] c) ∧ has s' u)
    (s, Connect.set_hdr h Connect.NewConnect).
Proof.
  intros Hs ([_ H1] & H2 & H3 & H4 & _) Hr. unfold Connect.DecodeVariableHeader.
  do 3 dstep. unfold connect_variable in Hs. rewrite <- !app_assoc in Hs. repeat dstep.
  split; [done|]. split; [|done].
  rewrite consumed, connect_flags, b2z_z2b_small by done.
  pose proof (zlen_nonneg (connect_variable c)). set (v := zlen (connect_variable c)) in *.
  clearbody v. cbn. rewrite sub_rl_eq by lia. by destruct c.
Qed.

Lemma opt_str_len c d : opt_str c d → zlen d < 65536.
Proof. destruct c; simpl; [by intros [_ ?]|by intros ->]. Qed.

Lemma connect_payload_spec h c u s :
  has s (connect_payload c ++ u) → fields_ok (MConnect c) →
  remainingLength h = zlen (connect_payload c) → zlen (connect_payload c) ≤ 268435455 →
  wp Connect.DecodePayload (λ r '(s', m'), r = true ∧
    m' = Connect.set_hdr (set_rl 0 h) c ∧ has s' u)
    (s, Connect.set_hdr h (Connect.set_payload [] [] [] [] [] c)).
Proof.
  intros Hs (_ & _ & _ & _ & [_ Hc] & Hwt & Hwm & Hu & Hp) Hr Hl.
  pose proof (opt_str_len _ _ Hwt). pose proof (opt_str_len _ _ Hwm).
  pose proof (opt_str_len _ _ Hu). pose proof (opt_str_len _ _ Hp).
  unfold Connect.DecodePayload. do 5 dstep. cbn [Connect.set_hdr Connect.hdr].
  rewrite Hr, zlen_app.
  rewrite (proj2 (Z.ltb_ge _ _)) by (pose proof (zlen_nonneg u); lia).
  do 3 dstep. set (before := zlen (connect_payload c ++ u)).
  assert (before - zlen u = zlen (connect_payload c)) as Hb by apply consumed.
  clearbody before. unfold connect_payload in Hs. rewrite <- !app_assoc in Hs.
  assert (sub_rl (before - zlen u) h = set_rl 0 h) as Hend.
  { rewrite Hb, sub_rl_eq, Hr, Z.sub_diag; [done| |lia]. rewrite Hr.
    split; [apply zlen_nonneg|done]. }
  clear Hr Hl Hb. destruct c as [ch pn pl un pw wr wq wfl cs ka ci wt wm us pa].
  cbn [Connect.WillFlag Connect.UserNameFlag Connect.passwordFlag Connect.ClientId
       Connect.WillTopic Connect.WillMessage Connect.Username Connect.Password] in *.
  do 8 dstep.
  cbn [Connect.set_hdr Connect.set_payload Connect.WillFlag Connect.UserNameFlag
       Connect.passwordFlag].
  destruct wfl, un, pw; cbv iota in *; rewrite ?app_nil_l, <- ?app_assoc in Hs; simpl in Hwt, Hwm, Hu, Hp.
  all: repeat dstep.
  all: cbn [Connect.set_hdr Connect.set_payload Connect.hdr]; subst; rewrite Hend; done.
Qed.

Lemma publish_variable_spec h dp q rt p u s :
  has s (publish_variable p ++ u) → fields_ok (MPublish p) →
  dp = Publish.Dup p → q = Publish.Qos p → rt = Publish.Retain p →
  zlen (publish_variable p) ≤ remainingLength h ≤ 268435455 →
  wp Publish.DecodeVariableHeader (λ r '(s', m'),
    r = (remainingLength h - zlen (publish_variable p) =? 0) ∧
    m' = Publish.Mk (set_rl (remainingLength h - zlen (publish_variable p)) h) dp q rt
           (Publish.TopicName p) (Publish.PacketIdentifier p) None ∧ has s' u)
    (s, Publish.Mk h dp q rt [] 0 None).
Proof.
  intros Hs ([_ Ht] & _ & Hid & _) -> -> -> Hr. unfold Publish.DecodeVariableHeader.
  do 3 dstep. set (before := zlen (publish_variable p ++ u)).
  assert (before - zlen u = zlen (publish_variable p)) as Hb by apply consumed.
  clearbody before. set (v := zlen (publish_variable p)) in *.
  assert (0 ≤ v) by apply zlen_nonneg. clearbody v.
  unfold publish_variable in Hs. rewrite <- app_assoc in Hs. do 8 dstep.
  cbn [Publish.set_topic Publish.Qos].
  destruct (Qos_HasId (Publish.Qos p)) eqn:Eq; cbv iota in *.
  - repeat dstep. cbn. rewrite Hb, sub_rl_eq by lia. done.
  - rewrite app_nil_l in Hs. repeat dstep. cbn. rewrite Hb, sub_rl_eq, Hid by lia. done.
Qed.

Lemma publish_payload_spec h m d u s :
  has s (d ++ u) → Publish.hdr m = h → remainingLength h = zlen d → zlen d ≤ 268435455 →
  wp Publish.DecodePayload (λ r '(s', m'), r = true ∧
    m' = Publish.set_hdr (set_rl 0 h) (Publish.set_payload d m) ∧ has s' u) (s, m).
Proof.
  intros Hs Hh Hr Hl. pose proof (zlen_nonneg u). pose proof (zlen_nonneg d).
  unfold Publish.DecodePayload. do 5 dstep.
  rewrite Hh, Hr, zlen_app. rewrite !(proj2 (Z.ltb_ge _ _)) by lia.
  dstep. dstep. eapply wp_read; [exact Hs|done|]. clear Hs. intros s1 Hs. cbv beta iota.
  repeat dstep. rewrite Z.sub_diag, app_nil_r. split; [done|]. split; [|done]. simpl.
  replace (zlen d + zlen u - zlen u) with (zlen d) by lia.
  rewrite Hh, sub_rl_eq, Hr, Z.sub_diag by lia. done.
Qed.

(** [Subscribe], [SubAck] and [Unsubscribe] read a packet identifier first. *)
Lemma subscribe_variable_spec h id u s :
  has s (enc_u16 id ++ u) → u16_ok id → 2 ≤ remainingLength h ≤ 268435455 →
  wp Subscribe.DecodeVariableHeader (λ r '(s', m'), r = (remainingLength h - 2 =? 0) ∧
    m' = Subscribe.Mk (set_rl (remainingLength h - 2) h) id [] ∧ has s' u)
    (s, Subscribe.Mk h 0 []).
Proof.
  intros Hs Hid Hr. unfold Subscribe.DecodeVariableHeader. repeat dstep.
  rewrite consumed. cbn. by rewrite sub_rl_eq by (change (zlen (enc_u16 id)) with 2; lia).
Qed.

Lemma suback_variable_spec h id u s :
  has s (enc_u16 id ++ u) → u16_ok id → 2 ≤ remainingLength h ≤ 268435455 →
  wp SubAck.DecodeVariableHeader (λ r '(s', m'), r = (remainingLength h - 2 =? 0) ∧
    m' = SubAck.Mk (set_rl (remainingLength h - 2) h) id [] ∧ has s' u)
    (s, SubAck.Mk h 0 []).
Proof.
  intros Hs Hid Hr. unfold SubAck.DecodeVariableHeader. repeat dstep.
  rewrite consumed. cbn. by rewrite sub_rl_eq by (change (zlen (enc_u16 id)) with 2; lia).
Qed.

Lemma unsubscribe_variable_spec h id u s :
  has s (enc_u16 id ++ u) → u16_ok id → 2 ≤ remainingLength h ≤ 268435455 →
  wp Unsubscribe.DecodeVariableHeader (λ r '(s', m'), r = (remainingLength h - 2 =? 0) ∧
    m' = Unsubscribe.Mk (set_rl (remainingLength h - 2) h) id [] ∧ has s' u)
    (s, Unsubscribe.Mk h 0 []).
Proof.
  intros Hs Hid Hr. unfold Unsubscribe.DecodeVariableHeader. repeat dstep.
  rewrite consumed. cbn. by rewrite sub_rl_eq by (change (zlen (enc_u16 id)) with 2; lia).
Qed.

Lemma connack_variable_spec h c u s :
  has s ([z2b (boolToByte (ConnAck.SessionPresentFlag c))] ++ [z2b (ConnAck.ReturnCode c)] ++ u) →
  ReturnCode_IsValid (ConnAck.ReturnCode c) = true → 2 ≤ remainingLength h ≤ 268435455 →
  wp ConnAck.DecodeVariableHeader (λ r '(s', m'), r = true ∧
    m' = ConnAck.set_hdr (set_rl (remainingLength h - 2) h) c ∧ has s' u)
    (s, ConnAck.set_hdr h ConnAck.NewConnAck).
Proof.
  intros Hs Hv Hr. unfold ConnAck.DecodeVariableHeader. do 12 dstep.
  assert (0 ≤ ConnAck.ReturnCode c < 6) as Hrc.
  { unfold ReturnCode_IsValid, RetCodeInvalid in Hv. bdec. lia. }
  rewrite (b2z_z2b_small (ConnAck.ReturnCode c)), Hv by lia. cbn [negb]. repeat dstep.
  split; [done|]. split; [|done]. rewrite app_assoc, consumed. cbn.
  rewrite sub_rl_eq by (change (zlen [_; _]) with 2; lia).
  destruct c as [? [] ?]; done.
Qed.

Lemma set_rl_wire m k : set_rl k (wire_hdr m) = MkHeader (mtype m) (wire_flag m) k.
Proof. done. Qed.

Lemma wire_body_len m : zlen (wire_body m) = zlen (wire_variable m) + zlen (wire_payload m).
Proof. apply zlen_app. Qed.

Lemma ack_phase h (inj : ackMsg → Message) a u s :
  zlen (enc_u16 (a_id a) ++ []) = remainingLength h → has s (enc_u16 (a_id a) ++ u) →
  u16_ok (a_id a) →
  wp PubAck.DecodeVariableHeader (λ r '(s', m'), r = negb false ∧
    inj m' = inj (MkAck (MkHeader (msgType h) (msgFlag h) 0) (a_id a)) ∧ has s' u) (s, MkAck h 0).
Proof.
  intros Hr Hs Hid. change (zlen (enc_u16 (a_id a) ++ [])) with 2 in Hr.
  eapply wp_mono; [apply (ack_variable h 0 (a_id a) u); [done|done|lia]|].
  intros r [s' m'] (-> & -> & ?). by rewrite <- Hr.
Qed.

Lemma variable_spec m u s :
  valid m → is_bare m = false → has s (wire_variable m ++ u) →
  wp Message_DecodeVariableHeader (λ r '(s', m'),
    r = negb (has_payload m) ∧ m' = middle m ∧ has s' u) (s, start m).
Proof.
  intros (_ & _ & Hl & Hok) Hbare Hs. pose proof (wire_body_len m) as Hwl.
  pose proof (zlen_nonneg (wire_variable m)). pose proof (zlen_nonneg (wire_payload m)).
  assert (remainingLength (wire_hdr m) = zlen (wire_body m)) as Hrl by done.
  destruct m as [c|c|p|a|a|a|a|x|x|y|a|h|h|h]; try done;
    unfold wp, wpe, Message_DecodeVariableHeader; cbn [start];
    match goal with |- context [as_ ?c _ _ _] =>
      apply (wp_as_ c _ _ (λ r '(s', m'), r = _ ∧ m' = _ ∧ has s' u)) end.
  - eapply wp_mono; [apply (connect_variable_spec _ c u); [done|done|]|].
    { rewrite Hrl, Hwl. cbn [wire_variable wire_payload] in *. lia. }
    intros r [s' m'] (-> & -> & ?). split; [done|]. split; [|done].
    rewrite Hrl, Hwl, set_rl_wire, Z.add_simpl_l. done.
  - eapply wp_mono; [apply (connack_variable_spec _ c u); [done|done|]|].
    { rewrite Hrl, Hwl. change (zlen (wire_variable (MConnAck c))) with 2 in *. lia. }
    intros r [s' m'] (-> & -> & ?). done.
  - eapply wp_mono; [apply (publish_variable_spec _ _ _ _ p u); [done|done|done|done|done|]|].
    { rewrite Hrl, Hwl. cbn [wire_variable wire_payload] in *. lia. }
    intros r [s' m'] (-> & -> & ?). rewrite Hrl, Hwl. cbn [wire_variable].
    rewrite Z.add_simpl_l. split; [|done]. unfold has_payload. by rewrite negb_involutive.
  - by eapply ack_phase.
  - by eapply ack_phase.
  - by eapply ack_phase.
  - by eapply ack_phase.
  - eapply wp_mono; [apply (subscribe_variable_spec _ (Subscribe.PacketIdentifier x) u); [done|apply Hok|]|].
    { rewrite Hrl, Hwl. change (zlen (wire_variable (MSubscribe x))) with 2 in *. lia. }
    intros r [s' m'] (-> & -> & ?). rewrite Hrl, Hwl.
    change (zlen (wire_variable (MSubscribe x))) with 2. rewrite Z.add_simpl_l.
    split; [|done]. unfold has_payload. by rewrite negb_involutive.
  - eapply wp_mono; [apply (suback_variable_spec _ (SubAck.PacketIdentifier x) u); [done|apply Hok|]|].
    { rewrite Hrl, Hwl. change (zlen (wire_variable (MSubAck x))) with 2 in *. lia. }
    intros r [s' m'] (-> & -> & ?). rewrite Hrl, Hwl.
    change (zlen (wire_variable (MSubAck x))) with 2. rewrite Z.add_simpl_l.
    split; [|done]. unfold has_payload. by rewrite negb_involutive.
  - eapply wp_mono; [apply (unsubscribe_variable_spec _ (Unsubscribe.PacketIdentifier y) u); [done|apply Hok|]|].
    { rewrite Hrl, Hwl. change (zlen (wire_variable (MUnsubscribe y))) with 2 in *. lia. }
    intros r [s' m'] (-> & -> & ?). destruct Hok as [_ Hn].
    split; [done|]. split; [|done]. destruct y. simpl in *. by subst.
  - by eapply ack_phase.
Qed.

Lemma subscribe_payload_spec h id tf u s :
  has s (enc_string (Subscribe.TopicName tf) ++ [z2b (Subscribe.RequestedQos tf)] ++ u) →
  str_ok (Subscribe.TopicName tf) → u8_ok (Subscribe.RequestedQos tf) →
  remainingLength h = zlen (enc_string (Subscribe.TopicName tf)) + 1 →
  wp Subscribe.DecodePayload (λ r '(s', m'), r = true ∧ m' = Subscribe.Mk h id [tf] ∧ has s' u)
    (s, Subscribe.Mk h id []).
Proof.
  intros Hs [_ Ht] Hq Hr. unfold Subscribe.DecodePayload. do 5 dstep.
  cbn [Subscribe.hdr]. rewrite Hr, !zlen_app.
  pose proof (zlen_nonneg u). pose proof (zlen_nonneg (enc_string (Subscribe.TopicName tf))).
  change (zlen [_]) with 1. rewrite (proj2 (Z.ltb_ge _ _)), (proj2 (Z.ltb_lt _ _)) by lia.
  dstep. repeat dstep. rewrite b2z_z2b_small by done.
  split; [done|]. split; [|done]. by destruct tf.
Qed.

Lemma suback_payload_spec h id c u s :
  has s ([z2b c] ++ u) → u8_ok c → remainingLength h = 1 →
  wp SubAck.DecodePayload (λ r '(s', m'), r = true ∧ m' = SubAck.Mk h id [c] ∧ has s' u)
    (s, SubAck.Mk h id []).
Proof.
  intros Hs Hq Hr. unfold SubAck.DecodePayload. do 5 dstep.
  cbn [SubAck.hdr]. rewrite Hr, !zlen_app. pose proof (zlen_nonneg u).
  change (zlen [_]) with 1. rewrite (proj2 (Z.ltb_ge _ _)) by lia. change (0 <? 1) with true.
  dstep. repeat dstep. by rewrite b2z_z2b_small by done.
Qed.

Lemma payload_spec m u s :
  valid m → has_payload m = true → has s (wire_payload m ++ u) →
  wp Message_DecodePayload (λ r '(s', m'), r = true ∧ m' = delivered m ∧ has s' u)
    (s, middle m).
Proof.
  intros (_ & _ & Hl & Hok) Hp Hs. pose proof (wire_body_len m) as Hwl.
  pose proof (zlen_nonneg (wire_variable m)). pose proof (zlen_nonneg (wire_payload m)).
  assert (remainingLength (payload_hdr m) = zlen (wire_payload m)) as Hrl by done.
  destruct m as [c|c|p|a|a|a|a|x|x|y|a|h|h|h]; try done;
    unfold wp, wpe, Message_DecodePayload; cbn [middle];
    match goal with |- context [as_ ?c _ _ _] =>
      apply (wp_as_ c _ _ (λ r '(s', m'), r = _ ∧ m' = _ ∧ has s' u)) end.
  - eapply wp_mono; [apply (connect_payload_spec _ c u); [done|done|done|]|].
    { cbn [wire_payload] in *. lia. }
    intros r [s' m'] (-> & -> & ?). done.
  - eapply wp_mono; [eapply (publish_payload_spec _ _ (wire_payload (MPublish p)) u); [done|done|done|lia]|].
    intros r [s' m'] (-> & -> & ?). split; [done|]. split; [|done].
    destruct p as [? ? ? ? ? ? [d|]]; [done|]. simpl in Hp. done.
  - destruct x as [h id [|tf [|? ?]]]; [done| |destruct Hok as (_ & Hlen & _); simpl in Hlen; lia].
    destruct Hok as (_ & _ & Hf). inversion_clear Hf as [|? ? [Ht Hq] _].
    cbn [wire_payload Subscribe.TopicFilters enc_filters] in *. rewrite app_nil_r in *.
    rewrite <- app_assoc in Hs.
    eapply wp_mono; [apply (subscribe_payload_spec _ id tf u); [done|done|done|]|].
    { rewrite Hrl, zlen_app. done. }
    intros r [s' m'] (-> & -> & ?). split; [done|]. split; [|done].
    unfold delivered, payload_hdr, left_over. cbn [wire_payload Subscribe.TopicFilters enc_filters]. by rewrite app_nil_r.
  - destruct x as [h id [|c [|? ?]]]; [done| |destruct Hok as (_ & Hlen & _); simpl in Hlen; lia].
    destruct Hok as (_ & _ & Hf). inversion_clear Hf.
    eapply wp_mono; [by apply (suback_payload_spec _ id c u)|].
    intros r [s' m'] (-> & -> & ?). done.
Qed.
End phases.

(** A received buffer, for the concrete instances. *)
Definition recv (u : bytes) : world * ioBuffer :=
  (w0, IoBuffer (Slice u (zlen u)) 0 ResetOffMark 1 false false false).

Lemma recv_has u : has (recv u) u.
Proof.
  exists None. split; [|split; [|done]].
  - pose proof (zlen_nonneg u). unfold recv, wf, slice_wf, scap. simpl. lia.
  - unfold view, contents, recv. simpl. unfold zlen. by rewrite Nat2Z.id, drop_0, firstn_all.
Qed.

Definition pub0 : Message :=
  MPublish (Publish.Mk (MkHeader 3 0 0) false 1 true (bs "a/b") 7 (Some (bs "hi"))).
Definition ping0 : Message := MPingReq (MkHeader 12 0 0).

Lemma pub0_valid : valid pub0.
Proof. repeat split; try done; vm_compute; congruence. Qed.
Lemma ping0_valid : valid ping0.
Proof. repeat split; try done; vm_compute; congruence. Qed.
