(* ===== verification/MqttCodec.v ===== *)
(** * The MQTT decoder (src/pkg/protocol/mqtt/message/codec.go)

    [doDecode] is a three-state machine that is fed a growing buffer: it marks
    the buffer, reads the fixed header, the variable header and the payload of
    message after message, and recovers from the panics the readers raise on
    missing bytes by restoring the mark.  The model keeps the codec, the buffer
    and the named result [msgs] in one state, so that everything a panic leaves
    behind is visible to the next call. *)

From S2P Require Import Prelude BytePool IoBuffer Mqtt MqttFacts.

Inductive DecoderState :=
| DecoderStateReadFixedHeader
| DecoderStateReadVariableHeader
| DecoderStateReadPayload.

Record Codec := MkCodec {
  header : option Header;
  decoderState : DecoderState;
  msg : option Message
}.

Definition NewCodec : Codec := MkCodec None DecoderStateReadFixedHeader None.

Section codec.
Context {S : Type} `{BufferImpl S}.

(** Buffer, codec and the messages decoded by this call. *)
Record dstate := DState { dbuf : S; cdc : Codec; msgs : list Message }.
Abbreviation decM := (stM panicv dstate).

Definition getD : decM dstate := λ d, (Ok d, d).
Definition modD (f : dstate → dstate) : decM unit := λ d, (Ok tt, f d).
Definition onBuf {A} (m : stM panicv S A) : decM A := λ d,
  let '(r, s') := m (dbuf d) in (r, DState s' (cdc d) (msgs d)).
Definition mark_ : decM unit := modD (λ d, DState (bMark (dbuf d)) (cdc d) (msgs d)).
Definition setC (c : Codec) : decM unit := modD (λ d, DState (dbuf d) c (msgs d)).

(** A method call on [this.msg]; nil panics. *)
Definition onMsg (m : stM panicv (S * Message) bool) : decM bool := λ d,
  match msg (cdc d) with
  | None => (Err (PError ErrRuntime), d)
  | Some x =>
      let '(r, (s', x')) := m (dbuf d, x) in
      (r, DState s' (MkCodec (header (cdc d)) (decoderState (cdc d)) (Some x')) (msgs d))
  end.

(** [msgs = append(msgs, this.msg); this.msg = nil; state = ReadFixedHeader] *)
Definition deliver : decM unit := modD (λ d,
  DState (dbuf d) (MkCodec (header (cdc d)) DecoderStateReadFixedHeader None)
         (msgs d ++ match msg (cdc d) with Some x => [x] | None => [] end)).
Definition goto (q : DecoderState) : decM unit := modD (λ d,
  DState (dbuf d) (MkCodec (header (cdc d)) q (msg (cdc d))) (msgs d)).

(** One iteration of the loop: [Some e] is [return nil, e]. *)
Definition step : decM (option mqttErr) :=
  d ← getD;
  match decoderState (cdc d) with
  | DecoderStateReadFixedHeader =>
      _ ← mark_;
      _ ← setC (MkCodec (Some (MkHeader 0 0 0)) (decoderState (cdc d)) (msg (cdc d)));
      h ← onBuf Header_decode;
      _ ← setC (MkCodec (Some h) DecoderStateReadFixedHeader (NewMessage h));
      match NewMessage h with
      | None => mret (Some ErrNoMatch)
      | Some _ =>
          b ← onMsg Message_DecodeFixedHeader;
          _ ← (if (b : bool) then deliver else goto DecoderStateReadVariableHeader);
          _ ← mark_;
          mret None
      end
  | DecoderStateReadVariableHeader =>
      _ ← mark_;
      d ← getD;
      match header (cdc d) with
      | None => throw (PError ErrRuntime)
      | Some h =>
          if int32 (bLen (dbuf d)) <? remainingLength h
          then throw (PError ErrInvalidRemainingLength)
          else
            b ← onMsg Message_DecodeVariableHeader;
            _ ← (if (b : bool) then deliver else goto DecoderStateReadPayload);
            _ ← mark_;
            mret None
      end
  | DecoderStateReadPayload =>
      _ ← mark_;
      b ← onMsg Message_DecodePayload;
      _ ← (if (b : bool) then deliver else goto DecoderStateReadPayload);
      _ ← mark_;
      mret None
  end.

(** What the loop ends with. *)
Inductive outcome :=
| Finished (e : option mqttErr) (d : dstate) (* a [return] *)
| Panicked (v : panicv) (d : dstate)
| OutOfFuel.

Fixpoint loop (fuel : nat) (d : dstate) : outcome :=
  match fuel with
  | O => OutOfFuel
  | Datatypes.S fuel =>
      if 0 <? bLen (dbuf d) then
        match step d with
        | (Ok (Some e), d') => Finished (Some e) (DState (dbuf d') (cdc d') [])
        | (Ok None, d') => loop fuel d'
        | (Err v, d') => Panicked v d'
        end
      else Finished None d
  end.

Definition decode_fuel (s : S) : nat := Z.to_nat (3 * bLen s + 3).

(** [doDecode]: the messages, the error, the buffer and the codec; [None] when
    the loop outlives the fuel. *)
Definition doDecode (c : Codec) (s : S) :
    option (list Message * option mqttErr * S * Codec) :=
  if bLen s =? 0 then Some ([], Some ErrInvalidBuffer, s, c)
  else
    match loop (decode_fuel s) (DState s c []) with
    | Finished e d => Some (msgs d, e, dbuf d, cdc d)
    | Panicked v d =>
        match msgs d with
        | [] =>
            Some ([], match v with PError e => Some e | PString _ => None end,
                  bRestore (dbuf d), cdc d)
        | ms => Some (ms, None, dbuf d, cdc d)
        end
    | OutOfFuel => None
    end.

(** [Decode]: each message is handed to the filter, with an identifier from
    the generator, until the filter says [Stop] ([false]). *)
Fixpoint notify (filter : Z → Message → bool) (id : Z) (ms : list Message) :
    list (Z * Message) * Z :=
  match ms with
  | [] => ([], id)
  | m :: ms =>
      let id := uint64 (id + 1) in
      if filter id m then
        let '(l, id') := notify filter id ms in ((id, m) :: l, id')
      else ([(id, m)], id)
  end.

Definition Decode (filter : Z → Message → bool) (id : Z) (c : Codec) (s : S) :
    option (list (Z * Message) * Z * S * Codec) :=
  match doDecode c s with
  | None => None
  | Some (ms, Some _, s', c') => Some ([], id, s', c')
  | Some (ms, None, s', c') =>
      let '(l, id') := notify filter id ms in Some (l, id', s', c')
  end.
End codec.
Arguments dstate : clear implicits.
Arguments outcome : clear implicits.

#[local] Arguments Message_DecodeFixedHeader : simpl never.
#[local] Arguments Message_DecodeVariableHeader : simpl never.
#[local] Arguments Message_DecodePayload : simpl never.

(** ** One message *)

Section one.
Context {S : Type} `{BufferSpec S}.
Implicit Types (s : S) (c : Codec) (ms : list Message) (d : dstate S).

Lemma has_mark s u : has s u → has (bMark s) u.
Proof. intros [t Hr]. eexists. exact (rep_mark _ _ Hr). Qed.

Lemma loop_step n d d' :
  0 < bLen (dbuf d) → step d = (Ok None, d') →
  loop (Datatypes.S n) d = loop n d'.
Proof. intros Hl Hs. cbn [loop]. by rewrite (proj2 (Z.ltb_lt _ _)), Hs by done. Qed.

Lemma loop_done n d :
  bLen (dbuf d) = 0 → loop (Datatypes.S n) d = Finished None d.
Proof. intros Hl. cbn [loop]. by rewrite Hl. Qed.

Lemma zlen_pos (l u : bytes) : l ≠ [] → 0 < zlen (l ++ u).
Proof. destruct l; [done|]. intros _. cbn. rewrite zlen_cons. pose proof (zlen_nonneg (l ++ u)). lia. Qed.

Lemma has_pos s (l u : bytes) : has s (l ++ u) → l ≠ [] → 0 < bLen s.
Proof. intros Hs Hl. rewrite (has_len _ _ Hs). by apply zlen_pos. Qed.

Lemma wire_variable_nonnil m : is_bare m = false → wire_variable m ≠ [].
Proof. by destruct m. Qed.

Lemma wire_payload_nonnil m : has_payload m = true → wire_payload m ≠ [].
Proof.
  destruct m; try done; unfold has_payload; intros Hp E; by rewrite E in Hp.
Qed.

(** The fixed header. *)
Lemma step_fixed s c ms m u :
  valid m → decoderState c = DecoderStateReadFixedHeader →
  has s (enc_header (mtype m) (wire_flag m) (zlen (wire_body m)) ++ u) →
  ∃ s', has s' u ∧
    step (DState s c ms) =
      (Ok None, DState s'
         (MkCodec (Some (wire_hdr m))
            (if is_bare m then DecoderStateReadFixedHeader else DecoderStateReadVariableHeader)
            (if is_bare m then None else Some (start m)))
         (ms ++ if is_bare m then [start m] else [])).
Proof.
  intros Hv Hc Hs. apply has_mark in Hs.
  destruct (fixed_spec (S := S) m Hv) as (m0 & Hnew & Hfix).
  assert (wp Header_decode (λ h s', h = wire_hdr m ∧ has s' u) (bMark s))
    as (h & s' & Eh & -> & Hs')%wp_run.
  { pose proof Hv as (_ & _ & Hl & _).
    eapply wp_Header_decode; [exact Hs|apply mtype_range|by apply wire_flag_range| |].
    - split; [apply zlen_nonneg|done].
    - intros s' Hs'. by split. }
  exists (bMark s'). split; [by apply has_mark|].
  destruct c as [hd q x]. cbn in Hc. subst q.
  unfold step, mbind, stM_bind, getD, mark_, setC, modD, onBuf. cbn. rewrite Eh. cbn.
  rewrite Hnew. unfold onMsg. cbn. rewrite Hfix. cbn.
  destruct (is_bare m); cbn; [done|]. by rewrite app_nil_r.
Qed.

(** The variable header. *)
Lemma step_variable s c ms m u :
  valid m → is_bare m = false → header c = Some (wire_hdr m) →
  decoderState c = DecoderStateReadVariableHeader → msg c = Some (start m) →
  has s (wire_body m ++ u) → zlen (wire_body m ++ u) < 2147483648 →
  ∃ s', has s' (wire_payload m ++ u) ∧
    step (DState s c ms) =
      (Ok None, DState s'
         (MkCodec (Some (wire_hdr m))
            (if has_payload m then DecoderStateReadPayload else DecoderStateReadFixedHeader)
            (if has_payload m then Some (middle m) else None))
         (ms ++ if has_payload m then [] else [middle m])).
Proof.
  intros Hv Hb Hh Hc Hm Hs Hlen. apply has_mark in Hs. pose proof Hs as Hs0.
  unfold wire_body in Hs. rewrite <- app_assoc in Hs.
  destruct (proj1 (wp_run _ _ _) (variable_spec m _ _ Hv Hb Hs))
    as (r & [s' m'] & E & -> & -> & Hs').
  exists (bMark s'). split; [by apply has_mark|].
  destruct c as [hd q x]. cbn in *. subst.
  unfold step, mbind, stM_bind, getD, mark_, modD. cbn.
  rewrite (has_len _ _ Hs0), int32_small by (pose proof (zlen_nonneg (wire_body m ++ u)); lia).
  rewrite (proj2 (Z.ltb_ge _ _)) by (rewrite zlen_app; pose proof (zlen_nonneg u); lia).
  unfold onMsg. cbn. rewrite E. cbn. destruct (has_payload m); cbn; [|done].
  by rewrite app_nil_r.
Qed.

(** The payload. *)
Lemma step_payload s c ms m u :
  valid m → has_payload m = true → decoderState c = DecoderStateReadPayload →
  msg c = Some (middle m) → has s (wire_payload m ++ u) →
  ∃ s', has s' u ∧
    step (DState s c ms) =
      (Ok None, DState s' (MkCodec (header c) DecoderStateReadFixedHeader None)
                  (ms ++ [delivered m])).
Proof.
  intros Hv Hp Hc Hm Hs. apply has_mark in Hs.
  destruct (proj1 (wp_run _ _ _) (payload_spec m u _ Hv Hp Hs))
    as (r & [s' m'] & E & -> & -> & Hs').
  exists (bMark s'). split; [by apply has_mark|].
  destruct c as [hd q x]. cbn in *. subst.
  unfold step, mbind, stM_bind, getD, mark_, modD, onMsg. cbn. by rewrite E.
Qed.

(** From the variable header on. *)
Lemma decode_rest s ms m u :
  valid m → is_bare m = false →
  has s (wire_body m ++ u) → zlen (wire_body m ++ u) < 2147483648 →
  ∃ k s' c', (1 ≤ k ≤ 2)%nat ∧ has s' u ∧ decoderState c' = DecoderStateReadFixedHeader ∧
    ∀ n, loop (k + n) (DState s (MkCodec (Some (wire_hdr m)) DecoderStateReadVariableHeader
                                 (Some (start m))) ms)
         = loop n (DState s' c' (ms ++ [delivered m])).
Proof.
  intros Hv Hb Hs Hlen.
  edestruct (step_variable s (MkCodec (Some (wire_hdr m)) DecoderStateReadVariableHeader
    (Some (start m))) ms m u) as (s2 & Hs2 & E2); try done.
  assert (0 < bLen s) as L1.
  { unfold wire_body in Hs. rewrite <- app_assoc in Hs. eapply has_pos; [exact Hs|].
    by apply wire_variable_nonnil. }
  destruct (has_payload m) eqn:Hp.
  - rewrite app_nil_r in E2.
    edestruct (step_payload s2 (MkCodec (Some (wire_hdr m)) DecoderStateReadPayload
      (Some (middle m))) ms m u) as (s3 & Hs3 & E3); try done.
    assert (0 < bLen s2) as L2.
    { eapply has_pos; [exact Hs2|]. by apply wire_payload_nonnil. }
    eexists 2%nat, s3, _. split; [lia|]. split; [done|]. split; [|intros n].
    2:{ cbn [Nat.add]. etransitivity; [eapply loop_step; [exact L1|exact E2]|].
        eapply loop_step; [exact L2|exact E3]. }
    done.
  - destruct (middle_final m Hv Hb Hp) as [Hmid Hnil]. rewrite Hnil in Hs2. rewrite Hmid in E2.
    eexists 1%nat, s2, _. split; [lia|]. split; [done|]. split; [|intros n].
    2:{ cbn [Nat.add]. eapply loop_step; [exact L1|exact E2]. }
    done.
Qed.

Lemma decode_one s c ms m u :
  valid m → decoderState c = DecoderStateReadFixedHeader →
  has s (wire m ++ u) → zlen (wire m ++ u) < 2147483648 →
  ∃ k s' c', (1 ≤ k ≤ 3)%nat ∧ has s' u ∧ decoderState c' = DecoderStateReadFixedHeader ∧
    ∀ n, loop (k + n) (DState s c ms) = loop n (DState s' c' (ms ++ [delivered m])).
Proof.
  intros Hv Hc Hs Hlen.
  assert (0 < bLen s) as L0 by (eapply has_pos; [exact Hs|done]).
  unfold wire in Hs, Hlen. rewrite <- app_assoc in Hs, Hlen. rewrite zlen_app in Hlen.
  pose proof (zlen_nonneg (enc_header (mtype m) (wire_flag m) (zlen (wire_body m)))).
  destruct (step_fixed s c ms m _ Hv Hc Hs) as (s1 & Hs1 & E1).
  destruct (is_bare m) eqn:Hb.
  { destruct (bare_spec m Hv Hb) as [Hst Hnil]. rewrite Hnil in Hs1. rewrite Hst in E1.
    eexists 1%nat, s1, _. split; [lia|]. split; [done|].
    split; [|intros n; eapply loop_step; [exact L0|exact E1]]. done. }
  rewrite app_nil_r in E1.
  destruct (decode_rest s1 ms m u Hv Hb Hs1) as (k & s' & c' & Hk & Hs' & Hc' & E); [lia|].
  exists (1 + k)%nat, s', c'. split; [lia|]. split; [done|]. split; [done|]. intros n.
  cbn [Nat.add]. etransitivity; [eapply loop_step; [exact L0|exact E1]|]. apply E.
Qed.

Lemma decode_many s c acc ms n :
  Forall valid ms → decoderState c = DecoderStateReadFixedHeader →
  has s (concat (wire <$> ms)) → zlen (concat (wire <$> ms)) < 2147483648 →
  (3 * length ms < n)%nat →
  ∃ s' c', has s' [] ∧ decoderState c' = DecoderStateReadFixedHeader ∧
    loop n (DState s c acc) = Finished None (DState s' c' (acc ++ (delivered <$> ms))).
Proof.
  intros Hv. revert s c acc n. induction Hv as [|m ms Hm _ IH]; intros s c acc n Hc Hs Hlen Hn.
  - destruct n as [|n]; [lia|]. exists s, c. cbn in Hs. rewrite app_nil_r.
    split; [done|]. split; [done|]. apply loop_done. exact (has_len _ _ Hs).
  - change (concat (wire <$> m :: ms)) with (wire m ++ concat (wire <$> ms)) in *.
    destruct (decode_one s c acc m _ Hm Hc Hs Hlen) as (k & s1 & c1 & Hk & Hs1 & Hc1 & E).
    destruct (IH s1 c1 (acc ++ [delivered m]) (n - k)%nat) as (s2 & c2 & Hs2 & Hc2 & E2);
      [done|done| |simpl in Hn; lia|].
    { rewrite zlen_app in Hlen. pose proof (zlen_nonneg (wire m)). lia. }
    exists s2, c2. split; [done|]. split; [done|].
    replace n with (k + (n - k))%nat by (simpl in Hn; lia). rewrite E, E2.
    by rewrite <- app_assoc.
Qed.

Lemma wire_count ms : Z.of_nat (length ms) ≤ zlen (concat (wire <$> ms)).
Proof.
  induction ms as [|m ms IH]; [done|]. rewrite fmap_cons. cbn [concat length].
  rewrite zlen_app. unfold wire at 1, enc_header. cbn [app]. rewrite zlen_cons.
  match goal with |- _ ≤ zlen ?l + 1 + _ => pose proof (zlen_nonneg l) end. lia.
Qed.
End one.

(** ** Properties *)

Section properties.
Context {S : Type} `{BufferSpec S}.

Lemma wire_short m : valid m → zlen (wire m) < 2147483648.
Proof.
  intros (_ & _ & Hl & _). unfold wire, enc_header. cbn [app].
  rewrite zlen_cons, zlen_app. pose proof (zlen_enc_len (zlen (wire_body m))). lia.
Qed.

Lemma decode_all ms (s : S) c :
  Forall valid ms → ms ≠ [] → decoderState c = DecoderStateReadFixedHeader →
  has s (concat (wire <$> ms)) → zlen (concat (wire <$> ms)) < 2147483648 →
  ∃ s' c', doDecode c s = Some (delivered <$> ms, None, s', c') ∧ has s' [] ∧
    decoderState c' = DecoderStateReadFixedHeader.
Proof.
  intros Hv Hne Hc Hs Hlen. pose proof (wire_count ms) as Hcount.
  unfold doDecode, decode_fuel. rewrite (has_len _ _ Hs).
  assert (0 < Z.of_nat (length ms)) by (destruct ms; [done|simpl; lia]).
  rewrite (proj2 (Z.eqb_neq _ _)) by lia.
  destruct (decode_many s c [] ms (Z.to_nat (3 * zlen (concat (wire <$> ms)) + 3)))
    as (s' & c' & Hs' & Hc' & ->); [done..|lia|].
  exists s', c'. done.
Qed.

(** C20: A buffer that holds the encodings of any number of valid messages is
    decoded by one [doDecode] to exactly those messages, in order, with no
    error and nothing left over; the codec is ready for the next message. *)
Theorem decode_stream ms (s : S) c :
  Forall valid ms → ms ≠ [] → decoderState c = DecoderStateReadFixedHeader →
  has s (concat (wire <$> ms)) → zlen (concat (wire <$> ms)) < 2147483648 →
  ∃ s' c', doDecode c s = Some (delivered <$> ms, None, s', c') ∧ has s' [] ∧
    decoderState c' = DecoderStateReadFixedHeader.
Proof. apply decode_all. Qed.

(** C6: Encoding any message whose fields fit the wire format, with any number
    of topic filters, return codes and topic names, never panics and produces
    its wire bytes. With at most one topic filter or return code (the decoders
    read one), decoding those bytes on the receiving side gives the message
    back for thirteen of the fourteen types; an UNSUBSCRIBE comes back with its
    identifier but without its topic names, which [Encode] does not write, so
    that it comes back whole just when it had none. *)
Theorem mqtt_roundtrip m w :
  sendable m → pool_ok w →
  ∃ b w' m', Message_Encode m w = (Ok (Ok b), (w', m')) ∧ pool_ok w' ∧ view b = wire m ∧
    (one_each m → ∀ (s : S) c, decoderState c = DecoderStateReadFixedHeader → has s (view b) →
     ∃ s' c', doDecode c s = Some ([delivered (arrives m)], None, s', c') ∧ has s' []) ∧
    (arrives m = m ↔
     match m with MUnsubscribe u => Unsubscribe.TopicNames u = [] | _ => True end).
Proof.
  intros Hv Hw. pose proof (encode_wire m w Hv Hw) as He.
  destruct (Message_Encode m w) as [[r|] [w' m']]; [|done].
  destruct He as (b & -> & Hw' & Hb & Hvb). exists b, w', m'. do 3 (split; [done|]).
  split; [|apply arrives_same].
  intros H1 s c Hc Hs. rewrite Hvb, <- arrives_wire in Hs.
  pose proof (arrives_valid m Hv H1) as Ha. pose proof (wire_short _ Ha) as Hlen.
  destruct (decode_all [arrives m] s c) as (s' & c' & E & Hs' & _); try done.
  { by constructor. } { cbn. by rewrite app_nil_r. } { cbn. by rewrite app_nil_r. }
  exists s', c'. done.
Qed.

(** A body that arrives in two parts is not lost: with the fixed header and
    a proper prefix of the body in the buffer, [doDecode] delivers nothing and
    keeps the prefix; called again with the whole body, it delivers the
    message. *)
Theorem decode_resumes m (s : S) c part rest :
  valid m → is_bare m = false → decoderState c = DecoderStateReadFixedHeader →
  wire_body m = part ++ rest → rest ≠ [] →
  has s (enc_header (mtype m) (wire_flag m) (zlen (wire_body m)) ++ part) →
  ∃ s1 c1, doDecode c s =
      Some ([], if part =b [] then None else Some ErrInvalidRemainingLength, s1, c1) ∧
    has s1 part ∧
    ∀ s2 : S, has s2 (part ++ rest) →
    ∃ s3 c3, doDecode c1 s2 = Some ([delivered m], None, s3, c3) ∧ has s3 [].
Proof.
  intros Hv Hb Hc Hbody Hrest Hs. pose proof Hv as (_ & _ & Hl & _).
  assert (0 < bLen s) as L0 by (eapply has_pos; [exact Hs|done]).
  destruct (step_fixed s c [] m _ Hv Hc Hs) as (s1 & Hs1 & E1). rewrite Hb in E1. cbn in E1.
  set (c1 := MkCodec (Some (wire_hdr m)) DecoderStateReadVariableHeader (Some (start m))) in *.
  assert (∀ s2 : S, has s2 (part ++ rest) →
    ∃ s3 c3, doDecode c1 s2 = Some ([delivered m], None, s3, c3) ∧ has s3 []) as Hnext.
  { intros s2 Hs2. rewrite <- Hbody, <- (app_nil_r (wire_body m)) in Hs2.
    destruct (decode_rest s2 [] m [] Hv Hb Hs2) as (k & s3 & c3 & Hk & Hs3 & _ & E).
    { rewrite app_nil_r. lia. }
    exists s3, c3. split; [|done].
    assert (0 < bLen s2) as L2.
    { eapply has_pos; [exact Hs2|]. rewrite Hbody. by destruct part. }
    unfold doDecode, decode_fuel. rewrite (proj2 (Z.eqb_neq _ _)) by lia.
    replace (Z.to_nat (3 * bLen s2 + 3)) with (k + (1 + (Z.to_nat (3 * bLen s2 + 2) - k)))%nat by lia.
    rewrite E. cbn [Nat.add]. rewrite loop_done; [done|]. exact (has_len _ _ Hs3). }
  unfold doDecode at 1, decode_fuel. rewrite (proj2 (Z.eqb_neq _ _)) by lia.
  replace (Z.to_nat (3 * bLen s + 3)) with (2 + Z.to_nat (3 * bLen s + 1))%nat by lia.
  cbn [Nat.add]. rewrite (loop_step _ (DState s c []) _ L0 E1).
  pose proof (has_len _ _ Hs1) as L1. destruct part as [|p0 part0].
  - rewrite loop_done by exact L1. exists s1, c1. done.
  - assert (0 < zlen (p0 :: part0)) by (rewrite zlen_cons; pose proof (zlen_nonneg part0); lia).
    assert (zlen (p0 :: part0) < zlen (wire_body m)).
    { rewrite Hbody, zlen_app. destruct rest; [done|]. rewrite (zlen_cons b).
      pose proof (zlen_nonneg rest). lia. }
    pose proof (has_len _ _ (has_mark _ _ Hs1)) as L1'.
    assert (step (DState s1 c1 []) =
      (Err (PError ErrInvalidRemainingLength), DState (bMark s1) c1 [])) as E2.
    { unfold step, mbind, stM_bind, getD, mark_, modD. cbn.
      rewrite L1', int32_small by lia. rewrite (proj2 (Z.ltb_lt _ _)) by lia. done. }
    cbn [loop dbuf]. rewrite (proj2 (Z.ltb_lt 0 (bLen s1))), E2 by lia. cbn [msgs].
    exists (bRestore (bMark s1)), c1. split; [done|]. split; [|done].
    destruct Hs1 as [t Hr]. eexists. exact (rep_restore _ _ (rep_mark _ _ Hr)).
Qed.

(** A fixed header that is cut inside the remaining length is lost: with the
    type byte and one length byte whose continuation bit is set, [doDecode]
    reports the end of file and leaves the buffer empty, so the message cannot
    be decoded when the rest arrives. *)
Theorem decode_loses_split_length (s : S) c b1 b2 :
  decoderState c = DecoderStateReadFixedHeader →
  Type_IsValid (Z.shiftr (Z.land (b2z b1) 0xf0) 4) = true → 128 ≤ b2z b2 →
  has s [b1; b2] →
  ∃ s' c', doDecode c s = Some ([], Some (ErrIO EOF), s', c') ∧ has s' [].
Proof.
  intros Hc Ht Hb2 Hs. apply has_mark in Hs as Hm. pose proof (has_len _ _ Hs) as L.
  change (zlen [b1; b2]) with 2 in L.
  destruct Hm as [t Hr]. destruct (rep_readbyte _ _ Hr) as (s1 & E1 & Hr1). cbn in E1, Hr1.
  destruct (rep_readbyte _ _ Hr1) as (s2 & E2 & Hr2). cbn in E2, Hr2.
  destruct (rep_readbyte _ _ Hr2) as (s3 & E3 & Hr3). cbn in E3, Hr3.
  pose proof (rep_len _ _ Hr1) as L1. change (bLen s1 = 1) in L1.
  assert ((Z.land (b2z b2) 0x80 =? 0) = false) as Hcont.
  { revert Hb2. pose proof (byte_forall (λ b, (b2z b <? 128) || negb (Z.land (b2z b) 0x80 =? 0))
      eq_refl b2) as Hall. cbn beta in Hall. intros Hb2.
    rewrite (proj2 (Z.ltb_ge _ _)) in Hall by lia. by apply negb_true_iff. }
  assert (∃ c', step (DState s c []) = (Err (PError (ErrIO EOF)), DState s3 c' [])) as [c' E].
  { destruct c as [hd q x]. cbn in Hc. subst q. eexists.
    unfold step, mbind, stM_bind, getD, mark_, setC, modD, onBuf. cbn.
    unfold Header_decode, getUint8, decodeLength, lift, bufLen, mbind, stM_bind. cbn.
    rewrite E1. cbn. rewrite Ht. cbn. rewrite L1. cbn.
    unfold mbind, stM_bind, lift. rewrite E2. cbn. rewrite Hcont.
    unfold mbind, stM_bind, lift. rewrite E3. cbn. done. }
  unfold doDecode, decode_fuel. rewrite L. change (Z.to_nat (3 * 2 + 3)) with 9%nat.
  cbn [loop dbuf]. rewrite L. cbn. rewrite E. cbn.
  exists (bRestore s3), c'. split; [done|]. eexists. exact (rep_restore _ _ Hr3).
Qed.
End properties.

(** *** Witnesses *)

Lemma decode_stream_witness :
  ∃ s' c', doDecode NewCodec (recv (concat (wire <$> [pub0; ping0]))) =
      Some (delivered <$> [pub0; ping0], None, s', c') ∧ has s' [] ∧
      decoderState c' = DecoderStateReadFixedHeader.
Proof.
  apply (decode_stream [pub0; ping0]).
  - constructor; [apply pub0_valid|]. constructor; [apply ping0_valid|constructor].
  - done.
  - done.
  - apply recv_has.
  - vm_compute. done.
Defined.

Lemma mqtt_roundtrip_witness :
  let u0 := MUnsubscribe (Unsubscribe.Mk (MkHeader 10 2 0) 7 [bs "a/b"]) in
  (∃ b w' m', Message_Encode pub0 w0 = (Ok (Ok b), (w', m')) ∧ pool_ok w' ∧ view b = wire pub0 ∧
    (one_each pub0 → ∀ (s : world * ioBuffer) c,
     decoderState c = DecoderStateReadFixedHeader → has s (view b) →
     ∃ s' c', doDecode c s = Some ([delivered pub0], None, s', c') ∧ has s' []) ∧
    (pub0 = pub0 ↔ True)) ∧
  ∃ b w' m', Message_Encode u0 w0 = (Ok (Ok b), (w', m')) ∧ pool_ok w' ∧ view b = wire u0 ∧
    (one_each u0 → ∀ (s : world * ioBuffer) c,
     decoderState c = DecoderStateReadFixedHeader → has s (view b) →
     ∃ s' c', doDecode c s = Some ([delivered (arrives u0)], None, s', c') ∧ has s' []) ∧
    (arrives u0 = u0 ↔ [bs "a/b"] = []).
Proof.
  split; apply mqtt_roundtrip; try apply w0_ok; [apply valid_sendable, pub0_valid|].
  repeat split; done.
Defined.

Lemma decode_resumes_witness :
  ∃ s1 c1, doDecode NewCodec (recv (enc_header 3 3 9 ++ [x00; x03])) =
      Some ([], Some ErrInvalidRemainingLength, s1, c1) ∧
    has s1 [x00; x03] ∧
    ∀ s2 : world * ioBuffer, has s2 ([x00; x03] ++ bs "a/b" ++ [x00; x07] ++ bs "hi") →
    ∃ s3 c3, doDecode c1 s2 = Some ([delivered pub0], None, s3, c3) ∧ has s3 [].
Proof.
  apply (decode_resumes pub0 _ NewCodec [x00; x03] (bs "a/b" ++ [x00; x07] ++ bs "hi")).
  - apply pub0_valid.
  - done.
  - done.
  - reflexivity.
  - done.
  - apply recv_has.
Defined.

Lemma decode_loses_split_length_witness :
  ∃ s' c', doDecode NewCodec (recv [x30; x80]) = Some ([], Some (ErrIO EOF), s', c') ∧ has s' [].
Proof.
  apply (decode_loses_split_length _ NewCodec x30 x80);
    [done|reflexivity|vm_compute; congruence|apply recv_has].
Defined.
