(* ===== verification/MqttTotal.v ===== *)
(** * Termination of the MQTT decoder on arbitrary bytes

    The decoders are run on any input here: [tp m Q s] says that [m] either
    panics or ends in [Q].  Every reader shortens the unread bytes by what it
    took ([at_ s n]: [n] bytes are unread), a variable header keeps the
    remaining length below what is unread, and under that invariant a payload
    decoder never asks to be called again; a measure on the codec's state and
    the unread bytes then bounds the loop of [doDecode].  The last part shows
    that the invariant is needed: a truncated SUBSCRIBE leaves the codec in a
    state from which the loop does not end. *)

From S2P Require Import Prelude BytePool IoBuffer Mqtt MqttFacts MqttCodec.

Definition tp {E S A} (m : stM E S A) (Q : A → S → Prop) (s : S) : Prop :=
  wpe m Q (λ _ _, True) s.

Lemma tp_bind {E S A B} (m : stM E S A) (f : A → stM E S B) Q s :
  tp m (λ a s', tp (f a) Q s') s → tp (m ≫= f) Q s.
Proof. apply wpe_bind. Qed.
Lemma tp_ret {E S A} (a : A) (Q : A → S → Prop) s : Q a s → tp (E := E) (mret a) Q s.
Proof. done. Qed.
Lemma tp_throw {E S A} (e : E) (Q : A → S → Prop) s : tp (throw e) Q s.
Proof. done. Qed.
Lemma tp_mono {E S A} (m : stM E S A) (Q Q' : A → S → Prop) s :
  tp m Q s → (∀ a s', Q a s' → Q' a s') → tp m Q' s.
Proof. intros H HQ. by eapply wpe_mono; [exact H| |]. Qed.
Lemma tp_buf_ {S T A} (m : stM panicv S A) (Q : A → S * T → Prop) s t :
  tp m (λ a s', Q a (s', t)) s → tp (buf_ m) Q (s, t).
Proof. unfold tp, wpe, buf_. by destruct (m s) as [[?|?] ?]. Qed.
Lemma tp_this {S T} (Q : T → S * T → Prop) s t : Q t (s, t) → tp (E := panicv) this Q (s, t).
Proof. done. Qed.
Lemma tp_upd {S T} f (Q : unit → S * T → Prop) s t :
  Q tt (s, f t) → tp (E := panicv) (upd f) Q (s, t).
Proof. done. Qed.
Lemma tp_as_ {S T A} inj (t : T) (m : stM panicv (S * T) A) (Q : A → S * Message → Prop) s :
  tp m (λ a '(s', t'), Q a (s', inj t')) (s, t) →
  match as_ inj t m s with (Ok a, x) => Q a x | (Err _, _) => True end.
Proof. unfold tp, wpe, as_. by destruct (m (s, t)) as [[?|?] [? ?]]. Qed.

Section total.
Context {S : Type} `{BufferSpec S}.
Implicit Types (s : S) (n : Z).

Definition at_ s n : Prop := ∃ u, has s u ∧ zlen u = n.

Lemma at_len s n : at_ s n → bLen s = n.
Proof. intros (u & Hs & <-). by apply has_len. Qed.
Lemma at_nonneg s n : at_ s n → 0 ≤ n.
Proof. intros (u & _ & <-). apply zlen_nonneg. Qed.
Lemma at_mark s n : at_ s n → at_ (bMark s) n.
Proof. intros (u & Hs & <-). exists u. split; [by apply has_mark|done]. Qed.

Lemma tp_bufLen n s (Q : Z → S → Prop) : at_ s n → Q n s → tp bufLen Q s.
Proof. intros Hs HQ. unfold tp, wpe, bufLen. by rewrite (at_len _ _ Hs). Qed.

Lemma tp_readByte n s (Q : res ioerr byte → S → Prop) :
  at_ s n → (∀ c s', at_ s' (n - 1) → 1 ≤ n → Q (Ok c) s') → (∀ e s', Q (Err e) s') →
  tp (lift bReadByte) Q s.
Proof.
  intros (u & [t Hr] & <-) HQ He. destruct (rep_readbyte _ _ Hr) as (s' & E & Hr').
  unfold tp, wpe, lift. rewrite E. destruct u as [|c u]; cbn [a_readbyte unread fst snd] in *; [apply He|].
  rewrite zlen_cons in HQ. pose proof (zlen_nonneg u). apply HQ; [|lia].
  exists u. split; [by eexists|lia].
Qed.

Lemma tp_getUint8 n s (Q : Z → S → Prop) :
  at_ s n → (∀ v s', at_ s' (n - 1) → 1 ≤ n → Q v s') → tp getUint8 Q s.
Proof.
  intros Hs HQ. unfold getUint8. apply tp_bind. eapply tp_readByte; [done| |done].
  intros c s' Hs' Hn. by apply tp_ret, HQ.
Qed.

Lemma tp_read n k s (Q : bytes * option ioerr → S → Prop) :
  at_ s n → 0 ≤ k ≤ n → (∀ d e s', at_ s' (n - k) → Q (d, e) s') → tp (lift (bRead k)) Q s.
Proof.
  intros (u & [t Hr] & <-) Hk HQ. destruct (rep_read _ _ k Hr) as (s' & E & Hr'); [lia|].
  unfold tp, wpe, lift. rewrite E. unfold a_read in *. destruct u as [|c u]; cbn [unread] in *.
  - rewrite zlen_nil in *. apply HQ. exists []. split; [by eexists|]. rewrite zlen_nil. lia.
  - apply HQ. eexists. split; [by eexists|]. unfold zlen in *. rewrite length_drop. lia.
Qed.

Lemma tp_getUint16 n s (Q : Z → S → Prop) :
  at_ s n → (∀ v s', at_ s' (n - 2) → 2 ≤ n → 0 ≤ v < 65536 → Q v s') → tp getUint16 Q s.
Proof.
  intros Hs HQ. unfold getUint16. apply tp_bind. eapply tp_bufLen; [done|].
  destruct (n <? 2) eqn:E; bdec; [apply tp_throw|].
  apply tp_bind. eapply tp_read; [done|lia|]. intros d [e|] s' Hs'; [apply tp_throw|].
  destruct d as [|h [|l [|]]]; try apply tp_throw. apply tp_ret, HQ; [done|lia|].
  pose proof (b2z_range h). pose proof (b2z_range l). lia.
Qed.

Lemma tp_getString n s (Q : bytes → S → Prop) :
  at_ s n → (∀ d s' n', at_ s' n' → n' < n → Q d s') → tp getString Q s.
Proof.
  intros Hs HQ. unfold getString. apply tp_bind. eapply tp_getUint16; [done|].
  intros k s1 Hs1 Hn Hk. apply tp_bind. eapply tp_bufLen; [done|].
  destruct (n - 2 <? k) eqn:E; bdec; [apply tp_throw|].
  apply tp_bind. eapply tp_read; [done|lia|]. intros d [e|] s2 Hs2; [apply tp_throw|].
  destruct (negb (zlen d =? k)); [apply tp_throw|]. apply tp_ret. eapply HQ; [done|lia].
Qed.

Lemma tp_decodeLength_loop k v sh n s (Q : Z → S → Prop) :
  at_ s n → 0 ≤ sh → sh + 7 * Z.of_nat k ≤ 28 → 0 ≤ v < 2 ^ sh →
  (∀ l s' n', at_ s' n' → n' < n → 0 ≤ l < 2 ^ 28 → Q l s') →
  tp (decodeLength_loop k v sh) Q s.
Proof.
  revert v sh n s. induction k as [|k IH]; intros v sh n s Hs Hsh Hb Hv HQ; [apply tp_throw|].
  cbn [decodeLength_loop]. apply tp_bind. eapply tp_readByte; [done| |done].
  intros c s1 Hs1 Hn. cbv zeta.
  assert (0 ≤ Z.land (b2z c) 0x7f < 128) as Hd.
  { change 0x7f with (Z.ones 7); rewrite Z.land_ones by lia. by apply Z.mod_pos_bound. }
  assert (Z.land (b2z c) 0x7f * 2 ^ sh ≤ 127 * 2 ^ sh) by (apply Z.mul_le_mono_nonneg_r; lia).
  assert (128 * 2 ^ sh = 2 ^ (sh + 7)) as Hp by (rewrite Z.pow_add_r by lia; lia).
  assert (2 ^ (sh + 7) ≤ 2 ^ 28) by (apply Z.pow_le_mono_r; lia).
  rewrite Z.shiftl_mul_pow2, int32_small by lia.
  rewrite <- Z.shiftl_mul_pow2, lor_shiftl_add by lia.
  destruct (Z.land (b2z c) 0x80 =? 0).
  - apply tp_ret. eapply HQ; [done|lia|lia].
  - eapply IH; [done|lia|lia|lia|]. intros l s2 n2 Hs2 Hn2 Hl. eapply HQ; [done|lia|done].
Qed.

Lemma tp_Header_decode n s (Q : Header → S → Prop) :
  at_ s n →
  (∀ h s' n', at_ s' n' → n' ≤ n - 2 → 0 ≤ remainingLength h < 2 ^ 28 → Q h s') →
  tp Header_decode Q s.
Proof.
  intros Hs HQ. unfold Header_decode. apply tp_bind. eapply tp_getUint8; [done|].
  intros b s1 Hs1 Hn. cbv zeta. destruct (negb _); [apply tp_throw|].
  apply tp_bind. unfold decodeLength. apply tp_bind. eapply tp_bufLen; [done|].
  destruct (0 <? n - 1); [|apply tp_throw].
  eapply tp_decodeLength_loop; [done|lia|simpl; lia|simpl; lia|].
  intros l s2 n2 Hs2 Hn2 Hl. apply tp_ret. eapply HQ; [done|lia|done].
Qed.
End total.

(** Symbolic execution on arbitrary input. *)
Ltac tstep :=
  match goal with
  | |- tp (_ ≫= _) _ _ => apply tp_bind
  | |- tp (buf_ _) _ _ => apply tp_buf_
  | |- tp this _ _ => apply tp_this
  | |- tp (upd _) _ _ => apply tp_upd
  | |- tp (mret _) _ _ => apply tp_ret
  | |- tp (throw _) _ _ => apply tp_throw
  | |- tp implement_me _ _ => apply tp_throw
  | |- tp (if ?b then _ else _) _ _ => let H := fresh "Hif" in destruct b eqn:H
  | Hs : at_ ?s _ |- tp bufLen _ ?s => eapply tp_bufLen; [exact Hs|]
  | Hs : at_ ?s _ |- tp getUint8 _ ?s =>
      eapply tp_getUint8; [exact Hs|]; clear Hs;
      let v := fresh "v" in let s' := fresh "s" in intros v s' Hs ?
  | Hs : at_ ?s _ |- tp getUint16 _ ?s =>
      eapply tp_getUint16; [exact Hs|]; clear Hs;
      let v := fresh "v" in let s' := fresh "s" in intros v s' Hs ? ?
  | Hs : at_ ?s _ |- tp getString _ ?s =>
      eapply tp_getString; [exact Hs|]; clear Hs;
      let d := fresh "d" in let s' := fresh "s" in let n' := fresh "n" in intros d s' n' Hs ?
  end.

(** ** The decoders keep the remaining length below the unread bytes *)

Lemma sub_rl_bound n n' h :
  0 ≤ n' ≤ n → n < 2147483648 → 0 ≤ remainingLength h ≤ n → remainingLength h < 2 ^ 28 →
  remainingLength (sub_rl (n - n') h) ≤ n'.
Proof.
  intros Hn Hb Hr Hr'. unfold sub_rl, set_rl. cbn [remainingLength].
  rewrite (int32_small (n - n')) by lia. rewrite int32_small by lia. lia.
Qed.

Section decoders.
Context {S : Type} `{BufferSpec S}.
Implicit Types (s : S) (n : Z).

(** A decoder that ended in [s'] with receiver header [h'] is within bounds. *)
Definition within s' n (h' : Header) : Prop :=
  ∃ n', at_ s' n' ∧ n' ≤ n ∧ remainingLength h' ≤ n'.

Lemma within_sub s' n n' h :
  at_ s' n' → n' ≤ n → n < 2147483648 → 0 ≤ remainingLength h ≤ n →
  remainingLength h < 2 ^ 28 → within s' n (sub_rl (n - n') h).
Proof.
  intros Hs Hn Hb Hr Hr'. exists n'. split; [done|]. split; [done|].
  pose proof (at_nonneg _ _ Hs). by apply sub_rl_bound.
Qed.

Ltac vh := repeat tstep; cbn; eapply within_sub; (eassumption || lia || done).

Lemma variable_within m s n :
  at_ s n → n < 2147483648 → 0 ≤ remainingLength (hdr_of m) ≤ n →
  remainingLength (hdr_of m) < 2 ^ 28 →
  tp Message_DecodeVariableHeader (λ _ '(s', m'), within s' n (hdr_of m')) (s, m).
Proof.
  intros Hs Hb Hr Hr'.
  destruct m as [c|c|p|a|a|a|a|x|x|y|a|h|h|h]; cbn [hdr_of] in *;
    unfold tp, wpe, Message_DecodeVariableHeader;
    match goal with |- context [as_ ?c _ _ _] =>
      apply (tp_as_ c _ _ (λ _ '(s', m'), within s' n (hdr_of m'))) end;
    cbn [hdr_of].
  - unfold Connect.DecodeVariableHeader. vh.
  - unfold ConnAck.DecodeVariableHeader. vh.
  - unfold Publish.DecodeVariableHeader. vh.
  - unfold PubAck.DecodeVariableHeader. vh.
  - unfold PubRec.DecodeVariableHeader. vh.
  - unfold PubRel.DecodeVariableHeader. vh.
  - unfold PubComp.DecodeVariableHeader. vh.
  - unfold Subscribe.DecodeVariableHeader. vh.
  - unfold SubAck.DecodeVariableHeader. vh.
  - unfold Unsubscribe.DecodeVariableHeader. vh.
  - unfold UnsubAck.DecodeVariableHeader. vh.
  - apply tp_throw.
  - apply tp_throw.
  - apply tp_throw.
Qed.

Ltac pl := repeat tstep; bdec; try lia;
  (split; [done|eexists; (split; [eassumption|lia])]).

Lemma payload_total m s n :
  at_ s n → remainingLength (hdr_of m) ≤ n →
  tp Message_DecodePayload (λ r '(s', _), r = true ∧ ∃ n', at_ s' n' ∧ n' ≤ n) (s, m).
Proof.
  intros Hs Hr.
  destruct m as [c|c|p|a|a|a|a|x|x|y|a|h|h|h]; cbn [hdr_of] in *;
    unfold tp, wpe, Message_DecodePayload;
    match goal with |- context [as_ ?c _ _ _] =>
      apply (tp_as_ c _ _ (λ r '(s', _), r = true ∧ ∃ n', at_ s' n' ∧ n' ≤ n)) end;
    try apply tp_throw.
  - unfold Connect.DecodePayload. pl.
  - unfold Publish.DecodePayload. do 5 tstep.
    repeat tstep; bdec; [lia|].
    eapply tp_read; [exact Hs|lia|]. intros d e s' Hs'. cbv beta iota. pl.
  - unfold Subscribe.DecodePayload. pl.
  - unfold SubAck.DecodePayload. pl.
  - unfold Unsubscribe.DecodePayload. pl.
Qed.
End decoders.

(** ** The loop of [doDecode] ends *)

Definition weight (q : DecoderState) : Z :=
  match q with
  | DecoderStateReadFixedHeader => 0
  | DecoderStateReadPayload => 1
  | DecoderStateReadVariableHeader => 2
  end.

#[local] Arguments Message_DecodeFixedHeader : simpl never.
#[local] Arguments Message_DecodeVariableHeader : simpl never.
#[local] Arguments Message_DecodePayload : simpl never.

Section loop.
Context {S : Type} `{BufferSpec S}.
Implicit Types (s : S) (n : Z) (d : dstate S).

(** What the codec remembers fits what the buffer holds. *)
Definition codec_ok (c : Codec) n : Prop :=
  match decoderState c with
  | DecoderStateReadFixedHeader => True
  | DecoderStateReadVariableHeader =>
      ∃ h m, header c = Some h ∧ msg c = Some m ∧ hdr_of m = h ∧
        0 ≤ remainingLength h < 2 ^ 28
  | DecoderStateReadPayload => ∃ m, msg c = Some m ∧ remainingLength (hdr_of m) ≤ n
  end.

Lemma fixed_keeps_header h m s :
  NewMessage h = Some m →
  ∃ b m', Message_DecodeFixedHeader (s, m) = (Ok b, (s, m')) ∧ hdr_of m' = h.
Proof.
  unfold NewMessage. intros E.
  repeat match type of E with
  | (if ?b then _ else _) = _ => destruct b; [injection E as <-; by eexists _, _|]
  end. done.
Qed.

(** Every iteration that goes on lowers the measure and keeps the invariant. *)
Lemma step_progress d n :
  at_ (dbuf d) n → n < 2147483648 → codec_ok (cdc d) n →
  match step d with
  | (Ok None, d') => ∃ n', at_ (dbuf d') n' ∧ n' ≤ n ∧ codec_ok (cdc d') n' ∧
      3 * n' + weight (decoderState (cdc d')) < 3 * n + weight (decoderState (cdc d))
  | _ => True
  end.
Proof.
  intros Hs Hb Hc. destruct d as [s [hd q x] ms]. cbn in *. apply at_mark in Hs.
  unfold step, mbind, stM_bind, getD, mark_, setC, modD, onBuf, onMsg. cbn.
  destruct q; cbn.
  - assert (tp Header_decode (λ h s', ∃ n', at_ s' n' ∧ n' ≤ n - 2 ∧
      0 ≤ remainingLength h < 2 ^ 28) (bMark s)) as Hh.
    { eapply tp_Header_decode; [exact Hs|]. eauto. }
    unfold tp, wpe in Hh. destruct (Header_decode (bMark s)) as [[h|e] s1]; cbn; [|done].
    destruct Hh as (n1 & Hs1 & Hn1 & Hr). destruct (NewMessage h) as [m|] eqn:Em; cbn; [|done].
    destruct (fixed_keeps_header h m s1 Em) as (b & m' & -> & Hm'). cbn.
    destruct b; cbn; exists n1; (split; [by apply at_mark|]); (split; [lia|]); (split; [|lia]).
    + done.
    + by exists h, m'.
  - destruct Hc as (h & m & Eh & Em & Hm & Hr). cbn in Eh, Em. rewrite Eh, Em. cbn.
    rewrite (at_len _ _ Hs), int32_small by (pose proof (at_nonneg _ _ Hs); lia).
    destruct (n <? remainingLength h) eqn:E; bdec; [done|]. cbn.
    pose proof (variable_within m (bMark s) n Hs Hb) as Hv. rewrite Hm in Hv.
    specialize (Hv ltac:(lia) ltac:(lia)). unfold tp, wpe in Hv.
    destruct (Message_DecodeVariableHeader (bMark s, m)) as [[b|e] [s1 m1]]; cbn; [|done].
    destruct Hv as (n1 & Hs1 & Hn1 & Hr1).
    destruct b; cbn; exists n1; (split; [by apply at_mark|]); (split; [lia|]); (split; [|lia]).
    + done.
    + by exists m1.
  - destruct Hc as (m & Em & Hr). cbn in Em. rewrite Em. cbn.
    pose proof (payload_total m (bMark s) n Hs Hr) as Hv. unfold tp, wpe in Hv.
    destruct (Message_DecodePayload (bMark s, m)) as [[b|e] [s1 m1]]; cbn; [|done].
    destruct Hv as (-> & n1 & Hs1 & Hn1). cbn.
    exists n1. split; [by apply at_mark|]. split; [done|]. split; [done|lia].
Qed.

Lemma loop_terminates fuel d n :
  at_ (dbuf d) n → n < 2147483648 → codec_ok (cdc d) n →
  3 * n + weight (decoderState (cdc d)) < Z.of_nat fuel → loop fuel d ≠ OutOfFuel.
Proof.
  revert d n. induction fuel as [|fuel IH]; intros d n Hs Hb Hc Hf.
  { pose proof (at_nonneg _ _ Hs). destruct (decoderState (cdc d)); simpl in Hf; lia. }
  cbn [loop]. destruct (0 <? bLen (dbuf d)); [|done].
  pose proof (step_progress d n Hs Hb Hc) as Hp.
  destruct (step d) as [[[e|]|v] d']; [done| |done].
  destruct Hp as (n' & Hs' & Hn' & Hc' & Hm). apply (IH d' n'); [done|lia|done|lia].
Qed.

(** C39: On any bytes whatsoever (less than 2 GiB) and any codec whose memory
    fits the buffer, in particular a fresh one, the loop of [doDecode] ends
    within [3 * len + 3] iterations. *)
Theorem decode_terminates c s :
  codec_ok c (bLen s) → (∃ u, has s u) → bLen s < 2147483648 → doDecode c s ≠ None.
Proof.
  intros Hc [u Hs] Hb. assert (at_ s (bLen s)) as Ha.
  { exists u. split; [done|]. symmetry. by apply has_len. }
  unfold doDecode. destruct (bLen s =? 0); [done|].
  pose proof (at_nonneg _ _ Ha).
  assert (loop (decode_fuel s) (DState s c []) ≠ OutOfFuel) as Hl.
  { eapply loop_terminates; [exact Ha|done|done|]. unfold decode_fuel. cbn [cdc].
    destruct (decoderState c); simpl; lia. }
  destruct (loop (decode_fuel s) (DState s c [])) as [e d|v d|]; [done| |done].
  by destruct (msgs d).
Qed.

(** A payload state that expects more than the buffer holds goes nowhere. *)
Lemma payload_spins fuel s hd m ms n :
  at_ s n → 0 < n → (∃ h i tfs, m = MSubscribe (Subscribe.Mk h i tfs)) →
  n < remainingLength (hdr_of m) →
  loop fuel (DState s (MkCodec hd DecoderStateReadPayload (Some m)) ms) = OutOfFuel.
Proof.
  intros Hs Hn (h & i & tfs & ->) Hr. revert s Hs.
  induction fuel as [|fuel IH]; intros s Hs; [done|].
  cbn [loop dbuf]. rewrite (at_len _ _ Hs), (proj2 (Z.ltb_lt _ _)) by done.
  assert (∃ s', at_ s' n ∧ step (DState s (MkCodec hd DecoderStateReadPayload
      (Some (MSubscribe (Subscribe.Mk h i tfs)))) ms) =
    (Ok None, DState s' (MkCodec hd DecoderStateReadPayload
      (Some (MSubscribe (Subscribe.Mk h i tfs)))) ms)) as (s' & Hs' & ->); [|by apply IH].
  apply at_mark in Hs. exists (bMark (bMark s)). split; [by apply at_mark|].
  unfold step, mbind, stM_bind, getD, mark_, modD, onMsg. cbn.
  unfold Message_DecodePayload, as_, Subscribe.DecodePayload, mbind, stM_bind, this, buf_, bufLen. cbn.
  rewrite (at_len _ _ Hs). simpl in Hr. by rewrite (proj2 (Z.ltb_lt _ _)) by lia.
Qed.

(** The three steps of the decoder on the truncated SUBSCRIBE. *)
Definition sub_h : Header := MkHeader 8 2 5.
Definition sub_m : Message := MSubscribe (Subscribe.Mk (MkHeader 8 2 3) 1 []).
Definition sub_c : Codec := MkCodec (Some sub_h) DecoderStateReadPayload (Some sub_m).
Definition sub_v : Codec :=
  MkCodec (Some sub_h) DecoderStateReadVariableHeader (Some (MSubscribe (Subscribe.Mk sub_h 0 []))).

Lemma subscribe_step1 c s :
  decoderState c = DecoderStateReadFixedHeader → has s [x82; x05; x00; x01; x00; x01; x61] →
  ∃ s1, has s1 [x00; x01; x00; x01; x61] ∧ step (DState s c []) = (Ok None, DState s1 sub_v []).
Proof.
  intros Hc Hs. apply has_mark in Hs.
  assert (wp Header_decode (λ h' s', h' = sub_h ∧ has s' [x00; x01; x00; x01; x61]) (bMark s))
    as (h' & s1 & Eh & -> & Hs1)%wp_run.
  { eapply (wp_Header_decode 8 2 5 [x00; x01; x00; x01; x61]); [exact Hs|lia|lia|lia|by eauto]. }
  exists (bMark s1). split; [by apply has_mark|]. destruct c as [hd q x]. cbn in Hc. subst q.
  unfold step, mbind, stM_bind, getD, mark_, setC, modD, onBuf. cbn. by rewrite Eh.
Qed.

Lemma subscribe_step2 s1 :
  has s1 [x00; x01; x00; x01; x61] →
  ∃ s2, has s2 [x00; x01; x61] ∧ step (DState s1 sub_v []) = (Ok None, DState s2 sub_c []).
Proof.
  intros Hs1. apply has_mark in Hs1. pose proof (has_len _ _ Hs1) as L1. change (zlen _) with 5 in L1.
  destruct (proj1 (wp_run _ _ _) (subscribe_variable_spec sub_h 1 [x00; x01; x61] _ Hs1
    ltac:(unfold u16_ok; lia) ltac:(simpl; lia))) as (r & [s2 m'] & E & -> & -> & Hs2).
  exists (bMark s2). split; [by apply has_mark|].
  unfold step, mbind, stM_bind, getD, mark_, modD, onMsg. cbn. rewrite L1.
  change (int32 5 <? 5) with false. cbn.
  unfold Message_DecodeVariableHeader, as_. by rewrite E.
Qed.

(** Reading the missing QoS byte resets the buffer, and the mark with it. *)
Lemma subscribe_step3 s2 :
  has s2 [x00; x01; x61] →
  ∃ s3, rep s3 (Abuf [] None) ∧
    step (DState s2 sub_c []) = (Err (PError (ErrIO EOF)), DState s3 sub_c []).
Proof.
  intros Hs2. apply has_mark in Hs2. pose proof (has_len _ _ Hs2) as L2. change (zlen _) with 3 in L2.
  assert (wp getString (λ (d : bytes) s', d = [x61] ∧ has s' []) (bMark s2))
    as (ds & s3 & Ed & -> & [t Hr])%wp_run.
  { eapply (wp_getString [x61] []); [exact Hs2|done|by eauto]. }
  destruct (rep_readbyte _ _ Hr) as (s4 & E4 & Hr4). cbn in E4, Hr4.
  exists s4. split; [done|].
  unfold step, mbind, stM_bind, getD, mark_, modD, onMsg. cbn.
  unfold Message_DecodePayload, as_, Subscribe.DecodePayload, mbind, stM_bind, this, buf_, bufLen.
  cbn. rewrite L2. cbn. unfold mbind, stM_bind. rewrite Ed. cbn.
  unfold getUint8, mbind, stM_bind, lift. by rewrite E4.
Qed.

(** The decoder can be made to spin for ever: a SUBSCRIBE whose topic filter
    lacks its QoS byte is refused, but leaves the codec waiting for a payload
    with nothing in the buffer; if the next read brings fewer bytes than that
    payload (here one or two), no number of iterations ends the loop. *)
Theorem truncated_subscribe_spins c s :
  decoderState c = DecoderStateReadFixedHeader →
  has s [x82; x05; x00; x01; x00; x01; x61] →
  ∃ s1 c1, doDecode c s = Some ([], Some (ErrIO EOF), s1, c1) ∧ has s1 [] ∧
    ∀ s2 n fuel, at_ s2 n → 0 < n < 3 → loop fuel (DState s2 c1 []) = OutOfFuel.
Proof.
  intros Hc Hs. pose proof (has_len _ _ Hs) as L. change (zlen _) with 7 in L.
  destruct (subscribe_step1 c s Hc Hs) as (s1 & Hs1 & E1).
  pose proof (has_len _ _ Hs1) as L1. change (zlen _) with 5 in L1.
  destruct (subscribe_step2 s1 Hs1) as (s2 & Hs2 & E2).
  pose proof (has_len _ _ Hs2) as L2. change (zlen _) with 3 in L2.
  destruct (subscribe_step3 s2 Hs2) as (s3 & Hs3 & E3).
  exists (bRestore s3), sub_c. split; [|split].
  - assert (0 < bLen s) as P0 by lia. assert (0 < bLen s1) as P1 by lia.
    unfold doDecode, decode_fuel. rewrite L. change (Z.to_nat (3 * 7 + 3)) with 24%nat.
    change (7 =? 0) with false. cbv iota.
    rewrite (loop_step 23 (DState s c []) _ P0 E1).
    rewrite (loop_step 22 (DState s1 _ []) _ P1 E2).
    cbn [loop dbuf]. rewrite L2, E3. done.
  - eexists. exact (rep_restore _ _ Hs3).
  - intros s4 n fuel Hs4 Hn. eapply (payload_spins fuel s4 _ sub_m [] n);
      [done|lia|by eexists _, _, _|simpl; lia].
Qed.
End loop.

(** *** Witnesses *)

Lemma decode_terminates_witness :
  doDecode NewCodec (recv [x10; xff; xff; x00; x01; x02]) ≠ None.
Proof.
  apply (decode_terminates NewCodec (recv [x10; xff; xff; x00; x01; x02]));
    [done|eexists; apply recv_has|vm_compute; done].
Defined.

Lemma truncated_subscribe_spins_witness :
  ∃ s1 c1, doDecode NewCodec (recv [x82; x05; x00; x01; x00; x01; x61]) =
      Some ([], Some (ErrIO EOF), s1, c1) ∧ has s1 [] ∧
    ∀ (s2 : world * ioBuffer) n fuel,
      at_ s2 n → 0 < n < 3 → loop fuel (DState s2 c1 []) = OutOfFuel.
Proof.
  apply (truncated_subscribe_spins NewCodec); [done|apply recv_has].
Defined.
