(* ===== verification/BytesConv.v ===== *)
(** * Byte-level conversions (src/utils/bytesconv.go, and the percent decoders of
      src/utils/args.go)

    Decimal and hexadecimal integers, dotted IPv4 addresses, percent encoding
    and HTML escaping, each with the parser that reads it back. *)

From S2P Require Import Prelude.

(** The constants of the 64-bit build (bytesconv_64.go). *)
Definition maxIntChars : Z := 18.
Definition maxHexIntChars : Z := 15.

Inductive convErr :=
| errEmptyInt | errUnexpectedFirstChar | errUnexpectedTrailingChar | errTooLongInt
| errEmptyHexNum | errTooLargeHexNum | errEOF
| errEmptyIPStr | errNoDot | errIPPart (e : convErr) | errIPRange.

#[export] Instance convErr_eq_dec : EqDecision convErr.
Proof. solve_decision. Defined.

(** ** Decimal integers *)

(** The loop that fills the 20-byte array from its end. *)
Fixpoint AppendUint_loop (fuel : nat) (n : Z) (acc : bytes) : bytes :=
  match fuel with
  | O => acc
  | S fuel =>
      if 10 <=? n then
        let q := n / 10 in
        AppendUint_loop fuel q (z2b (48 + uint8 (n - q * 10)) :: acc)
      else z2b (48 + uint8 n) :: acc
  end.

(** [None] is the panic on a negative argument. *)
Definition AppendUint (dst : bytes) (n : Z) : option bytes :=
  if n <? 0 then None else Some (dst ++ AppendUint_loop 20 n []).

Fixpoint ParseUintBuf_loop (b : bytes) (i v : Z) : Z * Z * option convErr :=
  match b with
  | [] => (v, i, None)
  | c :: b' =>
      let k := uint8 (b2z c - 48) in
      if 9 <? k then
        if i =? 0 then (-1, i, Some errUnexpectedFirstChar) else (v, i, None)
      else if maxIntChars <=? i then (-1, i, Some errTooLongInt)
      else ParseUintBuf_loop b' (i + 1) (int64 (10 * v + k))
  end.

Definition ParseUintBuf (b : bytes) : Z * Z * option convErr :=
  if zlen b =? 0 then (-1, 0, Some errEmptyInt) else ParseUintBuf_loop b 0 0.

Definition ParseUint (buf : bytes) : Z * option convErr :=
  let '(v, n, err) := ParseUintBuf buf in
  if negb (n =? zlen buf) then (-1, Some errUnexpectedTrailingChar) else (v, err).

(** ** Hexadecimal integers *)

Definition hex2int (c : byte) : Z :=
  let i := b2z c in
  if (48 <=? i) && (i <=? 57) then i - 48
  else if (97 <=? i) && (i <=? 102) then i - 97 + 10
  else if (65 <=? i) && (i <=? 70) then i - 65 + 10
  else 16.

Definition int2hexbyte (n : Z) : byte := z2b (if n <? 10 then 48 + n else 97 + n - 10).

Definition hexCharUpper (c : Z) : byte := z2b (if c <? 10 then 48 + c else c - 10 + 65).

(** A [bufio.Reader] over the bytes that are left; [UnreadByte] gives the last
    one back. *)
Fixpoint readHexInt_loop (r : bytes) (n i : Z) : res convErr Z * bytes :=
  match r with
  | [] => (if 0 <? i then Ok n else Err errEOF, [])
  | c :: r' =>
      let k := hex2int c in
      if k =? 16 then
        if i =? 0 then (Err errEmptyHexNum, r') else (Ok n, c :: r')
      else if maxHexIntChars <=? i then (Err errTooLargeHexNum, r')
      else readHexInt_loop r' (Z.lor (int64 (Z.shiftl n 4)) k) (i + 1)
  end.
Definition readHexInt (r : bytes) : res convErr Z * bytes := readHexInt_loop r 0 0.

(** The bytes [WriteHexInt] hands to the writer. *)
Fixpoint WriteHexInt_loop (fuel : nat) (n : Z) (acc : bytes) : bytes :=
  match fuel with
  | O => acc
  | S fuel =>
      let acc := int2hexbyte (Z.land n 0xf) :: acc in
      let n := Z.shiftr n 4 in
      if n =? 0 then acc else WriteHexInt_loop fuel n acc
  end.
Definition WriteHexInt (n : Z) : option bytes :=
  if n <? 0 then None else Some (WriteHexInt_loop 16 n []).

(** ** IPv4 addresses: four bytes *)

Definition AppendIPv4 (dst : bytes) (ip : byte * byte * byte * byte) : option bytes :=
  let '(a, b, c, d) := ip in
  dst ← AppendUint dst (b2z a);
  dst ← AppendUint (dst ++ ["."%byte]) (b2z b);
  dst ← AppendUint (dst ++ ["."%byte]) (b2z c);
  AppendUint (dst ++ ["."%byte]) (b2z d).

(** One part before a dot: the byte and the rest. *)
Definition ip_part (b : bytes) : res convErr byte :=
  match ParseUint b with
  | (_, Some e) => Err (errIPPart e)
  | (v, None) => if 255 <? v then Err errIPRange else Ok (z2b v)
  end.
Definition ip_dotted (b : bytes) : res convErr (byte * bytes) :=
  match IndexByte b "."%byte with
  | None => Err errNoDot
  | Some n =>
      match ip_part (take n b) with
      | Err e => Err e
      | Ok v => Ok (v, drop (S n) b)
      end
  end.

Definition res_bind {E A B} (m : res E A) (f : A → res E B) : res E B :=
  match m with Ok a => f a | Err e => Err e end.

Definition ParseIPv4 (ipStr : bytes) : res convErr (byte * byte * byte * byte) :=
  if zlen ipStr =? 0 then Err errEmptyIPStr
  else
    res_bind (ip_dotted ipStr) (λ '(p0, b),
    res_bind (ip_dotted b) (λ '(p1, b),
    res_bind (ip_dotted b) (λ '(p2, b),
    res_bind (ip_part b) (λ p3, Ok (p0, p1, p2, p3))))).

(** ** Case tables *)

Definition ToLowerTable (c : byte) : byte :=
  if (65 <=? b2z c) && (b2z c <=? 90) then z2b (b2z c + 32) else c.
Definition ToUpperTable (c : byte) : byte :=
  if (97 <=? b2z c) && (b2z c <=? 122) then z2b (b2z c - 32) else c.
Definition LowercaseBytes (b : bytes) : bytes := ToLowerTable <$> b.

(** ** Percent encoding *)

Definition is_alnum (c : byte) : bool :=
  let i := b2z c in
  ((97 <=? i) && (i <=? 122)) || ((65 <=? i) && (i <=? 90)) || ((48 <=? i) && (i <=? 57)).

Definition percent (c : byte) : bytes :=
  ["%"%byte; hexCharUpper (Z.shiftr (b2z c) 4); hexCharUpper (Z.land (b2z c) 15)].

Definition arg_plain (c : byte) : bool :=
  is_alnum c || (c =b "*"%byte) || (c =b "-"%byte) || (c =b "."%byte) || (c =b "_"%byte).
Definition path_plain (c : byte) : bool :=
  is_alnum c || (c =b "/"%byte) || (c =b "."%byte) || (c =b ","%byte) || (c =b "="%byte)
    || (c =b ":"%byte) || (c =b "&"%byte) || (c =b "~"%byte) || (c =b "-"%byte) || (c =b "_"%byte).

Fixpoint AppendQuotedArg (dst src : bytes) : bytes :=
  match src with
  | [] => dst
  | c :: src =>
      if arg_plain c then AppendQuotedArg (dst ++ [c]) src
      else AppendQuotedArg (dst ++ percent c) src
  end.
Fixpoint AppendQuotedPath (dst src : bytes) : bytes :=
  match src with
  | [] => dst
  | c :: src =>
      if path_plain c then AppendQuotedPath (dst ++ [c]) src
      else AppendQuotedPath (dst ++ percent c) src
  end.

(** The slow path of the decoders; [plus] says whether [+] stands for a space. *)
Fixpoint decode_slow (plus : bool) (dst src : bytes) : bytes :=
  match src with
  | [] => dst
  | c :: rest =>
      if c =b "%"%byte then
        match rest with
        | h1 :: h2 :: rest' =>
            let x2 := hex2int h2 in
            let x1 := hex2int h1 in
            if (x1 =? 16) || (x2 =? 16) then decode_slow plus (dst ++ ["%"%byte]) rest
            else decode_slow plus (dst ++ [z2b (Z.lor (uint8 (Z.shiftl x1 4)) x2)]) rest'
        | _ => dst ++ src
        end
      else if plus && (c =b "+"%byte) then decode_slow plus (dst ++ [" "%byte]) rest
      else decode_slow plus (dst ++ [c]) rest
  end.

Definition decodeArgAppend (dst src : bytes) : bytes :=
  match IndexByte src "%"%byte, IndexByte src "+"%byte with
  | None, None => dst ++ src
  | _, _ => decode_slow true dst src
  end.
Definition DecodeArgAppendNoPlus (dst src : bytes) : bytes :=
  match IndexByte src "%"%byte with
  | None => dst ++ src
  | Some _ => decode_slow false dst src
  end.
Definition AppendUnquotedArg (dst src : bytes) : bytes := decodeArgAppend dst src.

(** ** HTML escaping *)

Definition html_sub (c : byte) : bytes :=
  if c =b "<"%byte then bs "&lt;"
  else if c =b ">"%byte then bs "&gt;"
  else if c =b x22 then bs "&quot;"
  else if c =b "'"%byte then bs "&#39;"
  else [].

(** [pend] is [s[prev:i]], the bytes not yet copied. *)
Fixpoint html_slow (dst pend s : bytes) : bytes :=
  match s with
  | [] => dst ++ pend
  | c :: s =>
      let sub := html_sub c in
      if 0 <? zlen sub then html_slow (dst ++ pend ++ sub) [] s
      else html_slow dst (pend ++ [c]) s
  end.

Definition AppendHTMLEscape (dst s : bytes) : bytes :=
  match IndexByte s "<"%byte, IndexByte s ">"%byte, IndexByte s x22, IndexByte s "'"%byte with
  | None, None, None, None => dst ++ s
  | _, _, _, _ => html_slow dst [] s
  end.

(** ** Percent encoding: lemmas *)

Lemma AppendQuotedArg_eq dst src :
  AppendQuotedArg dst src = dst ++ concat ((λ c, if arg_plain c then [c] else percent c) <$> src).
Proof.
  revert dst. induction src as [|c src IH]; intros dst; cbn; [by rewrite app_nil_r|].
  destruct (arg_plain c); rewrite IH, <- app_assoc; done.
Qed.

Lemma AppendQuotedPath_eq dst src :
  AppendQuotedPath dst src = dst ++ concat ((λ c, if path_plain c then [c] else percent c) <$> src).
Proof.
  revert dst. induction src as [|c src IH]; intros dst; cbn; [by rewrite app_nil_r|].
  destruct (path_plain c); rewrite IH, <- app_assoc; done.
Qed.

(** An escaped byte reads back. *)
Lemma percent_hex c :
  hex2int (hexCharUpper (Z.shiftr (b2z c) 4)) ≠ 16 ∧
  hex2int (hexCharUpper (Z.land (b2z c) 15)) ≠ 16 ∧
  z2b (Z.lor (uint8 (Z.shiftl (hex2int (hexCharUpper (Z.shiftr (b2z c) 4))) 4))
             (hex2int (hexCharUpper (Z.land (b2z c) 15)))) = c.
Proof. revert c. refine (byte_forall_dec _ _). vm_compute. reflexivity. Qed.

Lemma arg_plain_not c : arg_plain c = true → c ≠ "%"%byte ∧ c ≠ "+"%byte.
Proof. revert c. refine (byte_forall_dec _ _). vm_compute. reflexivity. Qed.

Lemma path_plain_not c : path_plain c = true → c ≠ "%"%byte.
Proof. revert c. refine (byte_forall_dec _ _). vm_compute. reflexivity. Qed.

(** The decoders only append to their destination. *)
Lemma decode_slow_dst plus dst src : ∃ r, decode_slow plus dst src = dst ++ r.
Proof.
  remember (length src) as n eqn:Hn. revert dst src Hn.
  induction (lt_wf n) as [n _ IH]. intros dst src ->.
  assert (∀ x rest, (length rest < length src)%nat →
    ∃ r, decode_slow plus (dst ++ [x]) rest = dst ++ r) as Hrec.
  { intros x rest Hl. destruct (IH _ Hl (dst ++ [x]) rest eq_refl) as [r ->].
    eexists. by rewrite <- app_assoc. }
  destruct src as [|c rest]; [exists []; by rewrite app_nil_r|]. cbn [decode_slow].
  repeat case_match; eauto; apply Hrec; cbn; lia.
Qed.

Lemma decode_slow_percent plus dst c rest :
  decode_slow plus dst (percent c ++ rest) = decode_slow plus (dst ++ [c]) rest.
Proof.
  destruct (percent_hex c) as (H1 & H2 & H3). unfold percent. cbn [app decode_slow].
  rewrite bool_decide_eq_true_2 by done.
  rewrite (proj2 (Z.eqb_neq _ _) H1), (proj2 (Z.eqb_neq _ _) H2). cbn [orb]. by rewrite H3.
Qed.

Lemma decode_slow_plain (plus : bool) dst c rest :
  c ≠ "%"%byte → (plus = true → c ≠ "+"%byte) →
  decode_slow plus dst (c :: rest) = decode_slow plus (dst ++ [c]) rest.
Proof.
  intros Hp Hq. cbn [decode_slow]. rewrite bool_decide_eq_false_2 by done.
  destruct plus; [|done]. by rewrite bool_decide_eq_false_2 by auto.
Qed.

Lemma decode_slow_id (plus : bool) dst src :
  "%"%byte ∉ src → (plus = true → "+"%byte ∉ src) → decode_slow plus dst src = dst ++ src.
Proof.
  revert dst. induction src as [|c src IH]; intros dst Hp Hq; [by rewrite app_nil_r|].
  rewrite decode_slow_plain by set_solver. rewrite IH by set_solver. by rewrite <- app_assoc.
Qed.

(** The fast paths agree with the slow one. *)
Lemma decodeArgAppend_slow dst src : decodeArgAppend dst src = decode_slow true dst src.
Proof.
  unfold decodeArgAppend. destruct (IndexByte src "%"%byte) eqn:E1; [done|].
  destruct (IndexByte src "+"%byte) eqn:E2; [done|].
  apply IndexByte_None in E1, E2. by rewrite decode_slow_id.
Qed.
Lemma DecodeArgAppendNoPlus_slow dst src :
  DecodeArgAppendNoPlus dst src = decode_slow false dst src.
Proof.
  unfold DecodeArgAppendNoPlus. destruct (IndexByte src "%"%byte) eqn:E1; [done|].
  apply IndexByte_None in E1. by rewrite decode_slow_id.
Qed.

Lemma decode_quoted_arg dst src :
  decodeArgAppend dst (AppendQuotedArg [] src) = dst ++ src.
Proof.
  rewrite decodeArgAppend_slow, AppendQuotedArg_eq. cbn [app]. revert dst.
  induction src as [|c src IH]; intros dst; cbn; [by rewrite app_nil_r|].
  destruct (arg_plain c) eqn:E.
  - apply arg_plain_not in E as [? ?]. cbn [app]. rewrite decode_slow_plain by done.
    rewrite IH. by rewrite <- app_assoc.
  - rewrite decode_slow_percent, IH. by rewrite <- app_assoc.
Qed.

Lemma decode_quoted_path dst src :
  DecodeArgAppendNoPlus dst (AppendQuotedPath [] src) = dst ++ src.
Proof.
  rewrite DecodeArgAppendNoPlus_slow, AppendQuotedPath_eq. cbn [app]. revert dst.
  induction src as [|c src IH]; intros dst; cbn; [by rewrite app_nil_r|].
  destruct (path_plain c) eqn:E.
  - apply path_plain_not in E. cbn [app]. rewrite decode_slow_plain by done.
    rewrite IH. by rewrite <- app_assoc.
  - rewrite decode_slow_percent, IH. by rewrite <- app_assoc.
Qed.

(** ** Decimal integers: lemmas *)

Definition digit (d : Z) : byte := z2b (48 + d).
Definition dval (v : Z) (ds : list Z) : Z := fold_left (λ a d, 10 * a + d) ds v.
Definition digits_ok (ds : list Z) : Prop := Forall (λ d, 0 ≤ d < 10) ds.

Lemma dval_app v ds d : dval v (ds ++ [d]) = 10 * dval v ds + d.
Proof. unfold dval. by rewrite fold_left_app. Qed.

Lemma AppendUint_loop_spec fuel n acc :
  0 ≤ n < 10 ^ Z.of_nat fuel → (0 < fuel)%nat →
  ∃ ds, AppendUint_loop fuel n acc = (digit <$> ds) ++ acc ∧ digits_ok ds ∧ dval 0 ds = n ∧
    ds ≠ [] ∧ ∀ k, (0 < k)%nat → n < 10 ^ Z.of_nat k → (length ds ≤ k)%nat.
Proof.
  revert n acc. induction fuel as [|fuel IH]; intros n acc Hn Hf; [lia|].
  cbn [AppendUint_loop]. destruct (10 <=? n) eqn:E; bdec.
  - rewrite Nat2Z.inj_succ, Z.pow_succ_r in Hn by lia.
    assert (0 ≤ n / 10 < 10 ^ Z.of_nat fuel) as Hq.
    { split; [apply Z.div_pos; lia|]. apply Z.div_lt_upper_bound; lia. }
    pose proof (Z.div_mod n 10 ltac:(lia)) as Hdm.
    pose proof (Z.mod_pos_bound n 10 ltac:(lia)) as Hm.
    destruct fuel as [|fuel]; [cbn in Hn; lia|].
    destruct (IH (n / 10) (z2b (48 + uint8 (n - n / 10 * 10)) :: acc) Hq ltac:(lia))
      as (ds & -> & Hd & Hv & Hne & Hk).
    exists (ds ++ [n mod 10]). split; [|split; [|split; [|split]]].
    + rewrite fmap_app, <- app_assoc. cbn. do 2 f_equal. unfold digit. f_equal. f_equal.
      replace (n - n / 10 * 10) with (n mod 10) by lia.
      unfold uint8. rewrite wrapU_small; simpl; lia.
    + apply Forall_app. split; [done|]. by constructor.
    + rewrite dval_app, Hv. lia.
    + by destruct ds.
    + intros k Hk0 Hlt. rewrite length_app. simpl. destruct k as [|[|k]]; [lia|simpl in Hlt; lia|].
      assert (length ds ≤ S k)%nat; [|lia]. apply Hk; [lia|].
      rewrite Nat2Z.inj_succ, Z.pow_succ_r in Hlt by lia. apply Z.div_lt_upper_bound; lia.
  - exists [n]. split; [|split; [|split; [|split]]].
    + cbn. unfold digit, uint8. rewrite wrapU_small; [done|simpl; lia].
    + constructor; [lia|constructor].
    + done.
    + done.
    + intros k Hk _. simpl. lia.
Qed.

Lemma digit_val d : 0 ≤ d < 10 → uint8 (b2z (digit d) - 48) = d.
Proof.
  intros Hd. unfold digit. rewrite b2z_z2b_small by lia.
  unfold uint8. rewrite wrapU_small; simpl; lia.
Qed.

Lemma ParseUintBuf_loop_digits ds i v :
  digits_ok ds → 0 ≤ i → i + Z.of_nat (length ds) ≤ 18 → 0 ≤ v < 10 ^ i →
  ParseUintBuf_loop (digit <$> ds) i v = (dval v ds, i + Z.of_nat (length ds), None).
Proof.
  intros Hd. revert i v. induction Hd as [|d ds Hd _ IH]; intros i v Hi Hl Hv.
  - cbn. by rewrite Z.add_0_r.
  - rewrite fmap_cons. cbn [ParseUintBuf_loop]. rewrite digit_val by done.
    simpl length in Hl. rewrite (proj2 (Z.ltb_ge _ _)), (proj2 (Z.leb_gt _ _)) by (unfold maxIntChars; lia).
    assert (10 ^ (i + 1) ≤ 10 ^ 18) by (apply Z.pow_le_mono_r; lia).
    rewrite Z.pow_add_r in * by lia. change (10 ^ 1) with 10 in *.
    change (10 ^ 18) with 1000000000000000000 in *.
    rewrite int64_small by lia. rewrite IH; [|lia|lia|rewrite Z.pow_add_r by lia; lia].
    cbn [dval fold_left length]. f_equal. f_equal. lia.
Qed.

Lemma ParseUint_AppendUint n :
  0 ≤ n < 10 ^ 18 → ParseUint (AppendUint_loop 20 n []) = (n, None).
Proof.
  intros Hn. destruct (AppendUint_loop_spec 20 n []) as (ds & -> & Hd & Hv & Hne & Hk);
    [split; [lia|]; apply Z.lt_trans with (10 ^ 18); [lia|by apply Z.pow_lt_mono_r]|lia|].
  rewrite app_nil_r. specialize (Hk 18%nat ltac:(lia) ltac:(simpl; lia)).
  assert (zlen (digit <$> ds) = Z.of_nat (length ds)) as Hz by (unfold zlen; by rewrite length_fmap).
  unfold ParseUint, ParseUintBuf. rewrite Hz.
  rewrite (proj2 (Z.eqb_neq _ _)) by (destruct ds; [done|simpl; lia]).
  rewrite (ParseUintBuf_loop_digits ds 0 0 Hd) by (simpl; lia).
  by rewrite Z.eqb_refl, Hv.
Qed.

Lemma dval_bound ds v :
  digits_ok ds → 0 ≤ v → dval v ds < (v + 1) * 10 ^ Z.of_nat (length ds).
Proof.
  intros Hd. revert v. induction Hd as [|x l Hx _ IH]; intros v Hv; cbn [dval fold_left length].
  - cbn. lia.
  - specialize (IH (10 * v + x) ltac:(lia)). unfold dval in IH.
    rewrite Nat2Z.inj_succ, Z.pow_succ_r by lia.
    apply Z.lt_le_trans with ((10 * v + x + 1) * 10 ^ Z.of_nat (length l)); [done|].
    rewrite Z.mul_assoc. apply Z.mul_le_mono_nonneg_r; [|lia]. apply Z.pow_nonneg. lia.
Qed.

(** A decimal too long for the parser. *)
Lemma ParseUintBuf_loop_long ds rest i v :
  digits_ok ds → 0 ≤ i → i + Z.of_nat (length ds) = 18 →
  ∀ d, 0 ≤ d < 10 →
  ParseUintBuf_loop ((digit <$> ds) ++ digit d :: rest) i v = (-1, 18, Some errTooLongInt).
Proof.
  intros Hd. revert i v. induction Hd as [|d0 ds Hd0 _ IH]; intros i v Hi Hl d Hdd.
  - cbn in Hl. cbn [fmap list_fmap app ParseUintBuf_loop]. rewrite digit_val by done.
    rewrite (proj2 (Z.ltb_ge _ _)), (proj2 (Z.leb_le _ _)) by (unfold maxIntChars; lia).
    repeat f_equal. lia.
  - rewrite fmap_cons. cbn [app ParseUintBuf_loop]. rewrite digit_val by done.
    simpl length in Hl.
    rewrite (proj2 (Z.ltb_ge _ _)), (proj2 (Z.leb_gt _ _)) by (unfold maxIntChars; lia).
    apply IH; [lia|lia|done].
Qed.

(** ** Hexadecimal integers: lemmas *)

Lemma hex_byte d : 0 ≤ d < 16 → hex2int (int2hexbyte d) = d.
Proof.
  intros Hd. assert (∀ k, (k < 16)%nat → hex2int (int2hexbyte (Z.of_nat k)) = Z.of_nat k) as H.
  { intros k Hk. do 16 (destruct k as [|k]; [by vm_compute|]). lia. }
  specialize (H (Z.to_nat d)). rewrite Z2Nat.id in H by lia. apply H. lia.
Qed.

Definition hval (v : Z) (ds : list Z) : Z := fold_left (λ a d, 16 * a + d) ds v.

Lemma WriteHexInt_loop_spec fuel n acc :
  0 ≤ n < 16 ^ Z.of_nat fuel → (0 < fuel)%nat →
  ∃ ds, WriteHexInt_loop fuel n acc = (int2hexbyte <$> ds) ++ acc ∧
    Forall (λ d, 0 ≤ d < 16) ds ∧ hval 0 ds = n ∧ ds ≠ [] ∧
    ∀ k, (0 < k)%nat → n < 16 ^ Z.of_nat k → (length ds ≤ k)%nat.
Proof.
  revert n acc. induction fuel as [|fuel IH]; intros n acc Hn Hf; [lia|].
  cbn [WriteHexInt_loop]. change 0xf with (Z.ones 4). rewrite Z.land_ones by lia.
  rewrite Z.shiftr_div_pow2 by lia. change (2 ^ 4) with 16.
  pose proof (Z.div_mod n 16 ltac:(lia)) as Hdm.
  pose proof (Z.mod_pos_bound n 16 ltac:(lia)) as Hm.
  destruct (n / 16 =? 0) eqn:E; bdec.
  - exists [n mod 16]. split; [done|]. split; [by constructor|]. split; [cbn; lia|].
    split; [done|]. intros k Hk _. simpl. lia.
  - rewrite Nat2Z.inj_succ, Z.pow_succ_r in Hn by lia.
    assert (0 ≤ n / 16 < 16 ^ Z.of_nat fuel) as Hq.
    { split; [apply Z.div_pos; lia|]. apply Z.div_lt_upper_bound; lia. }
    destruct fuel as [|fuel]; [cbn in Hq; lia|].
    destruct (IH (n / 16) (int2hexbyte (n mod 16) :: acc) Hq ltac:(lia))
      as (ds & -> & Hd & Hv & Hne & Hk).
    exists (ds ++ [n mod 16]). split; [|split; [|split; [|split]]].
    + by rewrite fmap_app, <- app_assoc.
    + apply Forall_app. split; [done|]. by constructor.
    + unfold hval in *. rewrite fold_left_app, Hv. cbn. lia.
    + by destruct ds.
    + intros k Hk0 Hlt. rewrite length_app. simpl.
      destruct k as [|[|k]]; [lia| |].
      { exfalso. apply E. apply Z.div_small. simpl in Hlt. lia. }
      assert (length ds ≤ S k)%nat; [|lia]. apply Hk; [lia|].
      rewrite Nat2Z.inj_succ, Z.pow_succ_r in Hlt by lia. apply Z.div_lt_upper_bound; lia.
Qed.

Lemma readHexInt_loop_digits ds rest n i :
  Forall (λ d, 0 ≤ d < 16) ds → 0 ≤ i → i + Z.of_nat (length ds) ≤ 15 → 0 ≤ n < 16 ^ i →
  readHexInt_loop ((int2hexbyte <$> ds) ++ rest) n i =
  readHexInt_loop rest (hval n ds) (i + Z.of_nat (length ds)).
Proof.
  intros Hd. revert n i. induction Hd as [|d ds Hd _ IH]; intros n i Hi Hl Hn.
  - cbn. by rewrite Z.add_0_r.
  - rewrite fmap_cons. cbn [app readHexInt_loop]. rewrite hex_byte by done.
    simpl length in Hl. rewrite (proj2 (Z.eqb_neq _ _)) by lia.
    rewrite (proj2 (Z.leb_gt _ _)) by (unfold maxHexIntChars; lia).
    assert (16 ^ (i + 1) ≤ 16 ^ 15) by (apply Z.pow_le_mono_r; lia).
    rewrite Z.pow_add_r in * by lia. change (16 ^ 1) with 16 in *.
    change (16 ^ 15) with 1152921504606846976 in *.
    rewrite Z.shiftl_mul_pow2 by lia. change (2 ^ 4) with 16.
    rewrite int64_small by lia. rewrite Z.lor_comm.
    change 16 with (2 ^ 4) at 1. rewrite <- Z.shiftl_mul_pow2, lor_shiftl_add by (simpl; lia).
    change (2 ^ 4) with 16. replace (d + n * 16) with (16 * n + d) by lia.
    rewrite IH; [|lia|lia|rewrite Z.pow_add_r by lia; lia].
    cbn [hval fold_left length]. f_equal. lia.
Qed.

(** ** IPv4 addresses: lemmas *)

Definition dec (a : byte) : bytes := AppendUint_loop 20 (b2z a) [].

Lemma dec_spec a :
  ip_part (dec a) = Ok a ∧ "."%byte ∉ dec a ∧ dec a ≠ [].
Proof.
  assert (("."%byte ∉ dec a) ∧ dec a ≠ []) as [H1 H2].
  { revert a. refine (byte_forall_dec _ _). vm_compute. reflexivity. }
  split; [|done]. pose proof (b2z_range a). unfold ip_part, dec.
  rewrite ParseUint_AppendUint by lia. rewrite (proj2 (Z.ltb_ge _ _)) by lia.
  by rewrite z2b_b2z.
Qed.

Lemma ip_dotted_dec a rest : ip_dotted (dec a ++ "."%byte :: rest) = Ok (a, rest).
Proof.
  destruct (dec_spec a) as (H1 & H2 & _). unfold ip_dotted. rewrite IndexByte_app by done.
  rewrite take_app_length, H1. do 2 f_equal. rewrite cons_middle, app_assoc.
  apply drop_app_length'. rewrite length_app. simpl. lia.
Qed.

(** ** HTML escaping: lemmas *)

Definition html_special (c : byte) : bool :=
  (c =b "<"%byte) || (c =b ">"%byte) || (c =b x22) || (c =b "'"%byte).

(** What replaces one byte. *)
Definition html_one (c : byte) : bytes := if html_special c then html_sub c else [c].

Lemma html_sub_special c : (0 <? zlen (html_sub c)) = html_special c.
Proof. revert c. refine (byte_forall_dec _ _). vm_compute. reflexivity. Qed.

Lemma html_slow_eq dst pend s :
  html_slow dst pend s = dst ++ pend ++ concat (html_one <$> s).
Proof.
  revert dst pend. induction s as [|c s IH]; intros dst pend; cbn [html_slow].
  - cbn. by rewrite app_nil_r.
  - rewrite html_sub_special, fmap_cons. cbn [concat].
    change (html_one c) with (if html_special c then html_sub c else [c]).
    destruct (html_special c); rewrite IH; cbn [app]; by rewrite <- !app_assoc.
Qed.

Lemma html_id s :
  Forall (λ c, html_special c = false) s → concat (html_one <$> s) = s.
Proof.
  induction 1 as [|c s Hc _ IH]; [done|]. rewrite fmap_cons. cbn [concat]. rewrite IH.
  change (html_one c) with (if html_special c then html_sub c else [c]). by rewrite Hc.
Qed.

(** The fast path agrees with the slow one. *)
Lemma AppendHTMLEscape_eq dst s : AppendHTMLEscape dst s = dst ++ concat (html_one <$> s).
Proof.
  unfold AppendHTMLEscape.
  destruct (IndexByte s "<"%byte) eqn:E1, (IndexByte s ">"%byte) eqn:E2,
    (IndexByte s x22) eqn:E3, (IndexByte s "'"%byte) eqn:E4;
    rewrite ?html_slow_eq; try done.
  rewrite html_id; [done|]. apply IndexByte_None in E1, E2, E3, E4.
  apply list.Forall_forall. intros c Hc. unfold html_special.
  by rewrite !bool_decide_eq_false_2 by (intros ->; done).
Qed.

(** ** Properties *)

(** [AppendUint] and [ParseUint] round trip on every integer of at most
    eighteen digits; a longer [int] is written but refused by the parser. *)
Theorem uint_roundtrip n :
  0 ≤ n < 2 ^ 63 →
  ∃ d, AppendUint [] n = Some d ∧
    ParseUint d = if n <? 10 ^ 18 then (n, None) else (-1, Some errUnexpectedTrailingChar).
Proof.
  intros Hn. unfold AppendUint. rewrite (proj2 (Z.ltb_ge _ _)) by lia. eexists. split; [done|].
  cbn [app]. destruct (n <? 10 ^ 18) eqn:E; bdec; [apply ParseUint_AppendUint; lia|].
  destruct (AppendUint_loop_spec 20 n []) as (ds & -> & Hd & Hv & Hne & Hk);
    [split; [lia|]; apply Z.lt_trans with (2 ^ 63); [lia|done]|lia|].
  rewrite app_nil_r.
  pose proof (dval_bound ds 0 Hd ltac:(lia)) as Hub. rewrite Hv in Hub.
  assert (19 ≤ length ds)%nat as Hlen.
  { destruct (Nat.le_gt_cases 19 (length ds)); [done|]. exfalso.
    assert (10 ^ Z.of_nat (length ds) ≤ 10 ^ 18) by (apply Z.pow_le_mono_r; lia). lia. }
  assert (zlen (digit <$> ds) = Z.of_nat (length ds)) as Hz by (unfold zlen; by rewrite length_fmap).
  unfold ParseUint, ParseUintBuf. rewrite Hz. rewrite (proj2 (Z.eqb_neq _ _)) by lia.
  rewrite <- (take_drop 18 ds) at 1.
  destruct (drop 18 ds) as [|d rest] eqn:Ed.
  { apply (f_equal length) in Ed. rewrite length_drop in Ed. simpl in Ed. lia. }
  rewrite fmap_app, fmap_cons.
  rewrite (ParseUintBuf_loop_long (take 18 ds)).
  - rewrite (proj2 (Z.eqb_neq _ _)) by lia. done.
  - by apply Forall_take.
  - lia.
  - rewrite length_take. lia.
  - assert (Forall (λ d, 0 ≤ d < 10) (drop 18 ds)) as Hdd by by apply Forall_drop.
    rewrite Ed in Hdd. by inversion Hdd.
Qed.

(** [readHexInt] reads back what [WriteHexInt] wrote (up to fifteen digits),
    and leaves the byte that ended the number unread. *)
Theorem hex_roundtrip n c rest :
  0 ≤ n < 16 ^ 15 → hex2int c = 16 →
  ∃ d, WriteHexInt n = Some d ∧ readHexInt (d ++ c :: rest) = (Ok n, c :: rest).
Proof.
  intros Hn Hc. unfold WriteHexInt. rewrite (proj2 (Z.ltb_ge _ _)) by lia. eexists. split; [done|].
  destruct (WriteHexInt_loop_spec 16 n []) as (ds & -> & Hd & Hv & Hne & Hk);
    [split; [lia|]; apply Z.lt_trans with (16 ^ 15); [lia|done]|lia|].
  specialize (Hk 15%nat ltac:(lia) ltac:(simpl; lia)). rewrite app_nil_r.
  unfold readHexInt. rewrite readHexInt_loop_digits by (try done; simpl; lia).
  cbn [readHexInt_loop]. rewrite Hc, Hv. rewrite (proj2 (Z.eqb_neq (0 + _) 0)) by (destruct ds; [done|simpl; lia]). done.
Qed.

(** Percent encoding round trips: the query decoder undoes [AppendQuotedArg]
    and the path decoder undoes [AppendQuotedPath], for every byte string and
    on the fast and the slow path alike. *)
Theorem quoted_roundtrip dst src :
  AppendUnquotedArg dst (AppendQuotedArg [] src) = dst ++ src ∧
  DecodeArgAppendNoPlus dst (AppendQuotedPath [] src) = dst ++ src.
Proof. split; [apply decode_quoted_arg|apply decode_quoted_path]. Qed.

(** [ParseIPv4] reads back every address [AppendIPv4] writes. *)
Theorem ipv4_roundtrip ip :
  ∃ d, AppendIPv4 [] ip = Some d ∧ ParseIPv4 d = Ok ip.
Proof.
  destruct ip as [[[a b] c] d]. unfold AppendIPv4.
  assert (∀ dst x, AppendUint dst (b2z x) = Some (dst ++ dec x)) as HA.
  { intros dst x. unfold AppendUint. pose proof (b2z_range x).
    by rewrite (proj2 (Z.ltb_ge _ _)) by lia. }
  rewrite HA. cbn [mbind option_bind]. rewrite HA. cbn [mbind option_bind]. rewrite HA.
  cbn [mbind option_bind]. rewrite HA. eexists. split; [done|].
  rewrite <- !app_assoc. cbn [app]. destruct (dec_spec a) as (_ & _ & Hne).
  unfold ParseIPv4. rewrite (proj2 (Z.eqb_neq _ _)).
  2:{ rewrite zlen_0. by destruct (dec a). }
  rewrite ip_dotted_dec. cbn [res_bind]. rewrite ip_dotted_dec. cbn [res_bind].
  rewrite ip_dotted_dec. cbn [res_bind]. destruct (dec_spec d) as (-> & _). done.
Qed.

(** Nothing [AppendHTMLEscape] appends can close a tag or an attribute: no
    angle bracket and no quote survives, on the fast and the slow path. *)
Theorem html_escape_safe dst s :
  ∃ d, AppendHTMLEscape dst s = dst ++ d ∧ Forall (λ c, html_special c = false) d.
Proof.
  rewrite AppendHTMLEscape_eq. eexists. split; [done|]. induction s as [|c s IH]; [constructor|].
  rewrite fmap_cons. cbn [concat]. apply Forall_app. split; [|done]. revert c.
  refine (byte_forall_dec _ _). vm_compute. reflexivity.
Qed.

(** *** Witnesses *)

Lemma uint_roundtrip_witness :
  ∃ d, AppendUint [] 1234567890 = Some d ∧ ParseUint d = (1234567890, None).
Proof. apply (uint_roundtrip 1234567890). lia. Defined.

Lemma hex_roundtrip_witness :
  ∃ d, WriteHexInt 0xbeef = Some d ∧
    readHexInt (d ++ x0d :: [x0a]) = (Ok 0xbeef, x0d :: [x0a]).
Proof. apply (hex_roundtrip 0xbeef x0d [x0a]); [lia|reflexivity]. Defined.
