(* ===== verification/Args.v ===== *)
(** * Query arguments (src/utils/args.go)

    [Args] keeps its key-value pairs in a slice that is cut and refilled, so the
    pairs behind its length are stale.  The model keeps them ([spare]): a pair
    handed out by [AllocArg] holds whatever its last user left there, and the
    parser is proved to give the same result whatever that is. *)

From S2P Require Import Prelude BytesConv.

Record ArgsKV := KV { Key : bytes; Value : bytes }.

#[export] Instance ArgsKV_eq_dec : EqDecision ArgsKV.
Proof. solve_decision. Defined.

(** A slice of pairs: those within its length, and those between its length and
    its capacity. *)
Record argsSlice := ArgsSlice { live : list ArgsKV; spare : list ArgsKV }.

Record Args := MkArgs { args : argsSlice; argsbuf : bytes }.

(** ** Slices of pairs *)

Definition AllocArg (h : argsSlice) : argsSlice :=
  match spare h with
  | kv :: sp => ArgsSlice (live h ++ [kv]) sp
  | [] => ArgsSlice (live h ++ [KV [] []]) []
  end.

(** The pair [&h[n]] that [AllocArg] returned. *)
Definition last_kv (h : argsSlice) : ArgsKV := List.last (live h) (KV [] []).
Definition set_last (kv : ArgsKV) (h : argsSlice) : argsSlice :=
  ArgsSlice (removelast (live h) ++ [kv]) (spare h).

Definition ReleaseArg (h : argsSlice) : argsSlice :=
  ArgsSlice (removelast (live h)) (last_kv h :: spare h).

(** [h[:0]] *)
Definition cut0 (h : argsSlice) : argsSlice := ArgsSlice [] (live h ++ spare h).

Definition AppendArg (h : argsSlice) (key value : bytes) : argsSlice :=
  set_last (KV key value) (AllocArg h).

Fixpoint set_first (l : list ArgsKV) (key value : bytes) : option (list ArgsKV) :=
  match l with
  | [] => None
  | kv :: l =>
      if key =b Key kv then Some (KV (Key kv) value :: l)
      else (cons kv) <$> set_first l key value
  end.
Definition SetArg (h : argsSlice) (key value : bytes) : argsSlice :=
  match set_first (live h) key value with
  | Some l => ArgsSlice l (spare h)
  | None => AppendArg h key value
  end.

Fixpoint PeekArgStr (h : list ArgsKV) (k : bytes) : option bytes :=
  match h with
  | [] => None
  | kv :: h => if Key kv =b k then Some (Value kv) else PeekArgStr h k
  end.
Definition PeekArgBytes := PeekArgStr.

Fixpoint hasArg (h : list ArgsKV) (key : bytes) : bool :=
  match h with
  | [] => false
  | kv :: h => if key =b Key kv then true else hasArg h key
  end.

(** The deleted pair is moved behind the length; the index then advances past
    the pair that took its place. *)
Fixpoint DelAllArgs_loop (fuel i : nat) (key : bytes) (h : argsSlice) : argsSlice :=
  match fuel with
  | O => h
  | S fuel =>
      match live h !! i with
      | None => h
      | Some kv =>
          if key =b Key kv then
            DelAllArgs_loop fuel (S i) key
              (ArgsSlice (take i (live h) ++ drop (S i) (live h)) (kv :: spare h))
          else DelAllArgs_loop fuel (S i) key h
      end
  end.
Definition DelAllArgs (h : argsSlice) (key : bytes) : argsSlice :=
  DelAllArgs_loop (length (live h)) 0 key h.

Definition CopyArgs (dst : argsSlice) (src : list ArgsKV) : argsSlice :=
  let all := live dst ++ spare dst in
  if zlen all <? zlen src
  then ArgsSlice ((λ kv, KV (Key kv) (Value kv)) <$> src) []
  else ArgsSlice ((λ kv, KV (Key kv) (Value kv)) <$> src) (drop (length src) all).

(** ** The scanner *)

Definition kv_empty (kv : ArgsKV) : bool := (Key kv =b []) && (Value kv =b []).

(** The loop over [s.b]: [rest] is what is left of it at index [i]. *)
Fixpoint next_loop (b rest : bytes) (i k : nat) (isKey : bool) (kv : ArgsKV) : ArgsKV * bytes :=
  match rest with
  | [] =>
      (if isKey then KV (decodeArgAppend [] b) []
       else KV (Key kv) (decodeArgAppend [] (drop k b)), [])
  | c :: rest =>
      if c =b "="%byte then
        if isKey
        then next_loop b rest (S i) (S i) false (KV (decodeArgAppend [] (take i b)) (Value kv))
        else next_loop b rest (S i) k isKey kv
      else if c =b "&"%byte then
        (if isKey then KV (decodeArgAppend [] (take i b)) []
         else KV (Key kv) (decodeArgAppend [] (take (i - k) (drop k b))), drop (S i) b)
      else next_loop b rest (S i) k isKey kv
  end.

(** [next]: [None] at the end of the input. *)
Definition next (b : bytes) (kv : ArgsKV) : option (ArgsKV * bytes) :=
  if zlen b =? 0 then None else Some (next_loop b b 0 0 true kv).

Fixpoint ParseBytes_loop (fuel : nat) (h : argsSlice) (b : bytes) : option argsSlice :=
  match fuel with
  | O => None
  | S fuel =>
      match next b (last_kv h) with
      | None => Some h
      | Some (kv, b') =>
          let h := set_last kv h in
          ParseBytes_loop fuel (if kv_empty kv then h else AllocArg h) b'
      end
  end.

(** ** The methods of [Args] *)

Definition Reset (a : Args) : Args := MkArgs (cut0 (args a)) (argsbuf a).

(** [None] when the fuel runs out; every call of [next] shortens the input. *)
Definition ParseBytes (a : Args) (b : bytes) : option Args :=
  h ← ParseBytes_loop (S (length b)) (AllocArg (cut0 (args a))) b;
  Some (MkArgs (ReleaseArg h) (argsbuf a)).

Definition Parse (a : Args) (s : bytes) : option Args :=
  ParseBytes (MkArgs (args a) s) s.

Fixpoint AppendBytes_loop (dst : bytes) (l : list ArgsKV) : bytes :=
  match l with
  | [] => dst
  | kv :: l =>
      let dst := AppendQuotedArg dst (Key kv) in
      let dst := if 0 <? zlen (Value kv)
                 then AppendQuotedArg (dst ++ ["="%byte]) (Value kv) else dst in
      let dst := match l with [] => dst | _ => dst ++ ["&"%byte] end in
      AppendBytes_loop dst l
  end.
Definition AppendBytes (a : Args) (dst : bytes) : bytes := AppendBytes_loop dst (live (args a)).

Definition QueryString (a : Args) : bytes * Args :=
  let q := AppendBytes a [] in (q, MkArgs (args a) q).

Definition CopyTo (a dst : Args) : Args :=
  MkArgs (CopyArgs (cut0 (args dst)) (live (args a))) (argsbuf dst).

Definition Del (a : Args) (key : bytes) : Args := MkArgs (DelAllArgs (args a) key) (argsbuf a).
Definition Add (a : Args) (key value : bytes) : Args :=
  MkArgs (AppendArg (args a) key value) (argsbuf a).
Definition Set_ (a : Args) (key value : bytes) : Args :=
  MkArgs (SetArg (args a) key value) (argsbuf a).
Definition Peek (a : Args) (key : bytes) : option bytes := PeekArgStr (live (args a)) key.
Definition PeekMulti (a : Args) (key : bytes) : list bytes :=
  Value <$> filter (λ kv, Key kv = key) (live (args a)).
Definition Has (a : Args) (key : bytes) : bool := hasArg (live (args a)) key.

Inductive argErr := ErrNoArgValue | ErrConv (e : convErr).

Definition GetUint (a : Args) (key : bytes) : Z * option argErr :=
  match Peek a key with
  | None | Some [] => (-1, Some ErrNoArgValue)
  | Some v => let '(n, e) := ParseUint v in (n, ErrConv <$> e)
  end.
Definition GetUintOrZero (a : Args) (key : bytes) : Z :=
  match GetUint a key with (n, None) => n | (_, Some _) => 0 end.
Definition GetBool (a : Args) (key : bytes) : bool :=
  match Peek a key with
  | Some v => (v =b bs "1") || (v =b bs "y") || (v =b bs "yes")
  | None => false
  end.

(** ** What a query string means *)

Fixpoint split_on (c : byte) (b : bytes) : list bytes :=
  match b with
  | [] => [[]]
  | x :: b =>
      if x =b c then [] :: split_on c b
      else match split_on c b with
           | p :: ps => (x :: p) :: ps
           | [] => [[x]]
           end
  end.

Definition pair_of (p : bytes) : ArgsKV :=
  match IndexByte p "="%byte with
  | None => KV (decodeArgAppend [] p) []
  | Some i => KV (decodeArgAppend [] (take i p)) (decodeArgAppend [] (drop (S i) p))
  end.

Definition query_pairs (b : bytes) : list ArgsKV :=
  filter (λ kv, kv_empty kv = false) (pair_of <$> split_on "&"%byte b).

(** ** The parser *)

Lemma split_at (c : byte) (b : bytes) :
  ∃ p t, b = p ++ t ∧ (c ∉ p) ∧ (t = [] ∨ ∃ r, t = c :: r).
Proof.
  destruct (IndexByte b c) as [n|] eqn:E.
  - apply IndexByte_Some in E as [E H]. exists (take n b), (c :: drop (S n) b). eauto.
  - apply IndexByte_None in E. exists b, []. rewrite app_nil_r. eauto.
Qed.

Lemma split_on_nil c p : c ∉ p → split_on c p = [p].
Proof.
  induction p as [|x p IH]; intros Hc; cbn; [done|].
  rewrite bool_decide_eq_false_2 by set_solver. by rewrite IH by set_solver.
Qed.

Lemma split_on_cons c p r : c ∉ p → split_on c (p ++ c :: r) = p :: split_on c r.
Proof.
  induction p as [|x p IH]; intros Hc; cbn.
  - by rewrite bool_decide_eq_true_2.
  - rewrite bool_decide_eq_false_2 by set_solver. by rewrite IH by set_solver.
Qed.

Lemma next_loop_value b pre q t k kv :
  b = pre ++ q ++ t → (k ≤ length pre)%nat → ("&"%byte ∉ q) →
  (t = [] ∨ ∃ r, t = "&"%byte :: r) →
  next_loop b (q ++ t) (length pre) k false kv =
    (KV (Key kv) (decodeArgAppend [] (drop k (pre ++ q))), tail t).
Proof.
  revert pre. induction q as [|c q IH]; intros pre Hb Hk Hq Ht; cbn [app] in *.
  - rewrite app_nil_r. destruct Ht as [->|[r ->]]; cbn [next_loop tail].
    + by rewrite app_nil_r in Hb; subst.
    + subst. rewrite (bool_decide_eq_false_2 ("&"%byte = "="%byte)) by done.
      rewrite bool_decide_eq_true_2 by done. f_equal.
      * do 2 f_equal. rewrite drop_app_le by done. rewrite take_app_le by (rewrite length_drop; lia).
        rewrite firstn_all2; [done|]. rewrite length_drop. lia.
      * rewrite cons_middle, app_assoc. apply drop_app_length'. rewrite length_app. simpl. lia.
  - specialize (IH (pre ++ [c])). rewrite length_app in IH. cbn [length] in IH.
    rewrite <- app_assoc in IH. cbn [app] in IH.
    cbn [next_loop]. rewrite <- app_assoc in IH. cbn [app] in IH.
    replace (length pre + 1)%nat with (S (length pre)) in IH by lia.
    rewrite (bool_decide_eq_false_2 (c = "&"%byte)) by set_solver.
    destruct (c =b "="%byte); apply IH; (done || lia || set_solver).
Qed.

Lemma pair_of_key p : "="%byte ∉ p → pair_of p = KV (decodeArgAppend [] p) [].
Proof. intros H. unfold pair_of. by rewrite (proj2 (IndexByte_None _ _) H). Qed.

Lemma drop_S_app {A} (p q : list A) x : drop (S (length p)) (p ++ x :: q) = q.
Proof. rewrite cons_middle, app_assoc. apply drop_app_length'. rewrite length_app. simpl. lia. Qed.

Lemma pair_of_pair p q :
  "="%byte ∉ p → pair_of (p ++ "="%byte :: q) = KV (decodeArgAppend [] p) (decodeArgAppend [] q).
Proof.
  intros H. unfold pair_of. rewrite IndexByte_app by done.
  by rewrite take_app_length, drop_S_app.
Qed.

Lemma next_loop_key b pre q t k kv :
  b = pre ++ q ++ t → ("="%byte ∉ pre) → ("&"%byte ∉ q) → (t = [] ∨ ∃ r, t = "&"%byte :: r) →
  next_loop b (q ++ t) (length pre) k true kv = (pair_of (pre ++ q), tail t).
Proof.
  revert pre k kv. induction q as [|c q IH]; intros pre k kv Hb He Hq Ht; cbn [app] in *.
  - rewrite app_nil_r, pair_of_key by done.
    destruct Ht as [->|[r ->]]; cbn [next_loop tail]; subst.
    + by rewrite app_nil_r.
    + rewrite (bool_decide_eq_false_2 ("&"%byte = "="%byte)) by done.
      rewrite bool_decide_eq_true_2 by done. by rewrite take_app_length, drop_S_app.
  - cbn [next_loop].
    rewrite (bool_decide_eq_false_2 (c = "&"%byte)) by set_solver.
    destruct (c =b "="%byte) eqn:Ec; bdec.
    + subst c. rewrite pair_of_pair by done.
      pose proof (next_loop_value b (pre ++ ["="%byte]) q t (S (length pre))
        (KV (decodeArgAppend [] (take (length pre) b)) (Value kv))) as Hn.
      rewrite length_app, <- app_assoc in Hn. cbn [length app] in Hn.
      replace (length pre + 1)%nat with (S (length pre)) in Hn by lia.
      rewrite Hn; [|done|lia|set_solver|done]. cbn [Key]. subst b.
      rewrite take_app_length, <- app_assoc. cbn [app]. by rewrite drop_S_app.
    + specialize (IH (pre ++ [c]) k kv). rewrite length_app, <- !app_assoc in IH.
      cbn [length app] in IH. replace (length pre + 1)%nat with (S (length pre)) in IH by lia.
      apply IH; [done|set_solver|set_solver|done].
Qed.

Lemma next_spec p t kv :
  p ++ t ≠ [] → ("&"%byte ∉ p) → (t = [] ∨ ∃ r, t = "&"%byte :: r) →
  next (p ++ t) kv = Some (pair_of p, tail t).
Proof.
  intros Hne Hp Ht. unfold next. rewrite (proj2 (Z.eqb_neq _ _)) by (by rewrite zlen_0).
  f_equal. apply (next_loop_key (p ++ t) [] p t 0 kv); [done|set_solver|done|done].
Qed.

Lemma query_pairs_nil : query_pairs [] = [].
Proof. done. Qed.

Lemma query_pairs_step p t :
  ("&"%byte ∉ p) → (t = [] ∨ ∃ r, t = "&"%byte :: r) →
  query_pairs (p ++ t) =
    (if kv_empty (pair_of p) then [] else [pair_of p]) ++ query_pairs (tail t).
Proof.
  intros Hp Ht. destruct Ht as [->|[r ->]]; cbn [tail].
  - rewrite app_nil_r, query_pairs_nil, app_nil_r. unfold query_pairs.
    rewrite split_on_nil, fmap_cons by done.
    destruct (kv_empty (pair_of p)) eqn:E.
    + rewrite filter_cons_False by congruence. done.
    + rewrite filter_cons_True by done. done.
  - unfold query_pairs. rewrite split_on_cons, fmap_cons by done.
    destruct (kv_empty (pair_of p)) eqn:E.
    + by rewrite filter_cons_False by congruence.
    + by rewrite filter_cons_True by done.
Qed.

Lemma AllocArg_live h : ∃ kv sp, AllocArg h = ArgsSlice (live h ++ [kv]) sp.
Proof. unfold AllocArg. destruct (spare h); eauto. Qed.

Lemma ParseBytes_loop_spec fuel l kv sp b :
  (length b < fuel)%nat →
  ∃ kv' sp', ParseBytes_loop fuel (ArgsSlice (l ++ [kv]) sp) b =
    Some (ArgsSlice (l ++ query_pairs b ++ [kv']) sp').
Proof.
  revert l kv sp b. induction fuel as [|fuel IH]; intros l kv sp b Hf; [lia|].
  cbn [ParseBytes_loop]. destruct (decide (b = [])) as [->|Hne].
  { exists kv, sp. done. }
  destruct (split_at "&"%byte b) as (p & t & -> & Hp & Ht).
  unfold last_kv. cbn [live]. rewrite last_last, (next_spec p t kv Hne Hp Ht).
  unfold set_last. cbn [live spare]. rewrite removelast_last, query_pairs_step by done.
  assert (length (tail t) < fuel)%nat as Hf'.
  { rewrite length_app in Hf. destruct Ht as [->|[r ->]]; cbn in *; [destruct p; [done|cbn in Hf; lia]|lia]. }
  destruct (kv_empty (pair_of p)); [by apply IH|].
  destruct (AllocArg_live (ArgsSlice (l ++ [pair_of p]) sp)) as (kv1 & sp1 & ->). cbn [live].
  destruct (IH (l ++ [pair_of p]) kv1 sp1 (tail t) Hf') as (kv2 & sp2 & ->).
  exists kv2, sp2. by rewrite <- !app_assoc.
Qed.

Lemma ParseBytes_spec a b :
  ∃ a', ParseBytes a b = Some a' ∧ live (args a') = query_pairs b.
Proof.
  unfold ParseBytes. destruct (AllocArg_live (cut0 (args a))) as (kv & sp & ->). cbn [live cut0 app].
  destruct (ParseBytes_loop_spec (S (length b)) [] kv sp b ltac:(lia)) as (kv' & sp' & E).
  cbn [app] in E. rewrite E. cbn [mbind option_bind]. eexists. split; [done|].
  cbn. apply removelast_last.
Qed.

(** ** Printing *)

Definition quoted (x : bytes) : bytes := AppendQuotedArg [] x.
Definition pair_text (kv : ArgsKV) : bytes :=
  quoted (Key kv) ++ (if 0 <? zlen (Value kv) then "="%byte :: quoted (Value kv) else []).

Lemma quoted_clean x : Forall (λ c, c ≠ "&"%byte ∧ c ≠ "="%byte) (quoted x).
Proof.
  unfold quoted. rewrite AppendQuotedArg_eq. cbn [app]. induction x as [|c x IH]; [constructor|].
  rewrite fmap_cons. cbn [concat]. apply Forall_app. split; [|done]. clear IH. revert c.
  refine (byte_forall_dec _ _). vm_compute. reflexivity.
Qed.

Lemma quoted_not x : ("&"%byte ∉ quoted x) ∧ "="%byte ∉ quoted x.
Proof.
  pose proof (proj1 (list.Forall_forall _ _) (quoted_clean x)) as H.
  split; intros Hin; apply H in Hin; naive_solver.
Qed.

Lemma AppendQuotedArg_dst dst x : AppendQuotedArg dst x = dst ++ quoted x.
Proof. unfold quoted. by rewrite !AppendQuotedArg_eq. Qed.

Lemma AppendBytes_loop_cons dst kv l :
  AppendBytes_loop dst (kv :: l) =
    dst ++ pair_text kv ++ (match l with [] => [] | _ => "&"%byte :: AppendBytes_loop [] l end).
Proof.
  revert dst kv. induction l as [|kv' l IH]; intros dst kv.
  - cbn [AppendBytes_loop]. unfold pair_text. rewrite app_nil_r.
    destruct (0 <? zlen (Value kv)); rewrite !AppendQuotedArg_dst, <- ?app_assoc; [done|].
    by rewrite app_nil_r.
  - set (d := AppendBytes_loop dst (kv :: kv' :: l)). cbn [AppendBytes_loop] in d.
    change (AppendBytes_loop ((if 0 <? zlen (Value kv)
      then AppendQuotedArg (AppendQuotedArg dst (Key kv) ++ ["="%byte]) (Value kv)
      else AppendQuotedArg dst (Key kv)) ++ ["&"%byte]) (kv' :: l) =
      dst ++ pair_text kv ++ "&"%byte :: AppendBytes_loop [] (kv' :: l)).
    rewrite IH, (IH []). unfold pair_text at 2. cbn [app].
    destruct (0 <? zlen (Value kv)); rewrite !AppendQuotedArg_dst, <- ?app_assoc; done.
Qed.

Lemma pair_text_clean kv : "&"%byte ∉ pair_text kv.
Proof.
  unfold pair_text. destruct (quoted_not (Key kv)), (quoted_not (Value kv)).
  destruct (0 <? zlen (Value kv)); set_solver.
Qed.

Lemma decode_quoted x : decodeArgAppend [] (quoted x) = x.
Proof. apply (decode_quoted_arg [] x). Qed.

Lemma pair_of_text kv : pair_of (pair_text kv) = kv.
Proof.
  unfold pair_text. destruct (quoted_not (Key kv)) as [_ Hk].
  destruct (0 <? zlen (Value kv)) eqn:E; bdec.
  - rewrite pair_of_pair, !decode_quoted by done. by destruct kv.
  - assert (Value kv = []) as Hv by (apply zlen_0; pose proof (zlen_nonneg (Value kv)); lia).
    rewrite app_nil_r, pair_of_key, decode_quoted by done. destruct kv. cbn in *. by subst.
Qed.

Lemma query_pairs_text l :
  Forall (λ kv, kv_empty kv = false) l → query_pairs (AppendBytes_loop [] l) = l.
Proof.
  induction 1 as [|kv l Hkv _ IH]; [done|]. rewrite AppendBytes_loop_cons. cbn [app].
  rewrite query_pairs_step by (try apply pair_text_clean; destruct l; eauto).
  rewrite pair_of_text, Hkv. destruct l; [done|]. cbn [tail]. by rewrite IH.
Qed.

(** ** Set, delete and look up *)

Lemma PeekArgStr_set_first l key value l' :
  set_first l key value = Some l' →
  PeekArgStr l' key = Some value ∧ ∀ k, k ≠ key → PeekArgStr l' k = PeekArgStr l k.
Proof.
  revert l'. induction l as [|kv l IH]; cbn [set_first]; [done|]. intros l'.
  destruct (key =b Key kv) eqn:E; bdec.
  - intros [= <-]. cbn. split; [by rewrite bool_decide_eq_true_2|].
    intros k Hk. by rewrite !bool_decide_eq_false_2 by congruence.
  - intros (m & Hm & ->)%fmap_Some. destruct (IH m Hm) as [H1 H2]. cbn. split.
    + by rewrite bool_decide_eq_false_2 by congruence.
    + intros k Hk. by rewrite H2.
Qed.

Lemma set_first_None l key value :
  set_first l key value = None → PeekArgStr l key = None.
Proof.
  induction l as [|kv l IH]; cbn; [done|]. destruct (key =b Key kv) eqn:E; bdec; [done|].
  rewrite fmap_None. intros H. rewrite bool_decide_eq_false_2 by congruence. by apply IH.
Qed.

Lemma PeekArgStr_app l l' k :
  PeekArgStr (l ++ l') k = match PeekArgStr l k with Some v => Some v | None => PeekArgStr l' k end.
Proof. induction l as [|kv l IH]; cbn; [done|]. by destruct (Key kv =b k). Qed.

Lemma AppendArg_live h key value : live (AppendArg h key value) = live h ++ [KV key value].
Proof.
  unfold AppendArg. destruct (AllocArg_live h) as (kv & sp & ->). unfold set_last. cbn.
  by rewrite removelast_last.
Qed.

Lemma SetArg_peek h key value :
  PeekArgStr (live (SetArg h key value)) key = Some value ∧
  ∀ k, k ≠ key → PeekArgStr (live (SetArg h key value)) k = PeekArgStr (live h) k.
Proof.
  unfold SetArg. destruct (set_first (live h) key value) as [l|] eqn:E; cbn [live].
  - by apply (PeekArgStr_set_first _ _ _ _ E).
  - apply set_first_None in E. rewrite AppendArg_live. split.
    + rewrite PeekArgStr_app, E. cbn. by rewrite bool_decide_eq_true_2.
    + intros k Hk. rewrite PeekArgStr_app. cbn. rewrite bool_decide_eq_false_2 by congruence.
      by destruct (PeekArgStr (live h) k).
Qed.

Lemma set_first_length l key value l' :
  set_first l key value = Some l' → length l' = length l.
Proof.
  revert l'. induction l as [|kv l IH]; cbn; [done|]. intros l'.
  destruct (key =b Key kv); [by intros [= <-]|]. intros (m & Hm & ->)%fmap_Some. cbn. by rewrite (IH m).
Qed.

(** What [DelAllArgs] does to the list: after a deletion the next pair is kept
    without being looked at. *)
Fixpoint del_skip (skip : bool) (key : bytes) (l : list ArgsKV) : list ArgsKV :=
  match l with
  | [] => []
  | kv :: l =>
      if negb skip && (key =b Key kv) then del_skip true key l else kv :: del_skip false key l
  end.

Lemma DelAllArgs_loop_end fuel i key h :
  (length (live h) ≤ i)%nat → DelAllArgs_loop fuel i key h = h.
Proof. intros Hi. destruct fuel; [done|]. cbn. by rewrite lookup_ge_None_2. Qed.

Lemma DelAllArgs_loop_spec fuel pre l key sp :
  (length l ≤ fuel)%nat →
  live (DelAllArgs_loop fuel (length pre) key (ArgsSlice (pre ++ l) sp)) = pre ++ del_skip false key l.
Proof.
  revert pre l sp. induction fuel as [|fuel IH]; intros pre l sp Hl.
  { by destruct l; [|cbn in Hl; lia]. }
  destruct l as [|kv l]; [by rewrite DelAllArgs_loop_end by (cbn; rewrite length_app; cbn; lia)|].
  assert (∀ x l' sp', (length l' ≤ fuel)%nat →
    live (DelAllArgs_loop fuel (S (length pre)) key (ArgsSlice (pre ++ x :: l') sp'))
      = pre ++ x :: del_skip false key l') as Hnext.
  { intros x l' sp' Hl'. specialize (IH (pre ++ [x]) l' sp' Hl').
    rewrite length_app, <- !app_assoc in IH. cbn [length app] in IH.
    by replace (length pre + 1)%nat with (S (length pre)) in IH by lia. }
  cbn [DelAllArgs_loop live spare]. rewrite list_lookup_middle by done.
  cbn [del_skip negb andb]. cbn [length] in Hl. destruct (key =b Key kv).
  - rewrite take_app_length, drop_S_app. destruct l as [|y l].
    + rewrite DelAllArgs_loop_end; [done|]. cbn. rewrite length_app. cbn. lia.
    + cbn [del_skip negb andb]. apply Hnext. cbn in Hl. lia.
  - apply Hnext. lia.
Qed.

Lemma DelAllArgs_live h key : live (DelAllArgs h key) = del_skip false key (live h).
Proof. destruct h as [l sp]. by apply (DelAllArgs_loop_spec (length l) [] l key sp). Qed.

Lemma PeekArgStr_del h key k :
  k ≠ key → PeekArgStr (live (DelAllArgs h key)) k = PeekArgStr (live h) k.
Proof.
  intros Hk. rewrite DelAllArgs_live. generalize false.
  induction (live h) as [|kv l IH]; intros skip; cbn [del_skip PeekArgStr]; [done|].
  destruct (negb skip && (key =b Key kv)) eqn:E; cbn [PeekArgStr].
  - apply andb_true_iff in E as [_ E]. bdec. subst.
    rewrite bool_decide_eq_false_2 by congruence. apply IH.
  - by rewrite IH.
Qed.

Lemma hasArg_elem l key : hasArg l key = true ↔ key ∈ (Key <$> l).
Proof.
  induction l as [|kv l IH]; cbn [hasArg].
  - split; [done|]. intros []%not_elem_of_nil.
  - rewrite fmap_cons, list.elem_of_cons, <- IH. destruct (key =b Key kv) eqn:E; bdec; naive_solver.
Qed.

Lemma del_skip_absent (skip : bool) key l :
  key ∉ (Key <$> l) → del_skip skip key l = l.
Proof.
  revert skip. induction l as [|kv l IH]; intros skip Hl; cbn [del_skip]; [done|].
  rewrite fmap_cons in Hl. rewrite bool_decide_eq_false_2 by set_solver.
  rewrite andb_false_r. by rewrite IH by set_solver.
Qed.

(** ** Properties *)

(** Parsing a query string terminates and gives the percent-decoded non-empty
    pairs of the string in order, whatever the recycled storage of [Args] held
    before. *)
Theorem args_parse a b :
  ∃ a', ParseBytes a b = Some a' ∧ live (args a') = query_pairs b.
Proof. apply ParseBytes_spec. Qed.

(** Printing arguments with [QueryString] and parsing the result gives the
    same arguments, for any bytes in keys and values. *)
Theorem args_roundtrip a a0 :
  Forall (λ kv, kv_empty kv = false) (live (args a)) →
  ∃ a', ParseBytes a0 (QueryString a).1 = Some a' ∧ live (args a') = live (args a).
Proof.
  intros Hl. destruct (ParseBytes_spec a0 (QueryString a).1) as (a' & E & Hp).
  exists a'. split; [done|]. rewrite Hp. cbn. by apply query_pairs_text.
Qed.

(** [Set] then [Peek] returns the value set, [Set] changes no other key, and
    keeps the number of pairs when the key is present. *)
Theorem args_set_peek a key value :
  Peek (Set_ a key value) key = Some value ∧
  (∀ k, k ≠ key → Peek (Set_ a key value) k = Peek a k) ∧
  (Has a key = true → length (live (args (Set_ a key value))) = length (live (args a))).
Proof.
  unfold Peek, Set_, Has. cbn [args]. destruct (SetArg_peek (args a) key value) as [H1 H2].
  split; [done|]. split; [done|]. intros Hh. unfold SetArg.
  destruct (set_first (live (args a)) key value) as [l|] eqn:E; [by apply set_first_length in E|].
  exfalso. apply set_first_None in E. revert E Hh. clear H1 H2.
  induction (live (args a)) as [|kv l IH]; cbn; [done|].
  destruct (Key kv =b key) eqn:E1; [done|]. bdec.
  rewrite bool_decide_eq_false_2 by congruence. done.
Qed.

(** When no key occurs twice, [Del] removes exactly the pair of the key. *)
Theorem args_del_unique a key :
  NoDup (Key <$> live (args a)) →
  live (args (Del a key)) = filter (λ kv, Key kv ≠ key) (live (args a)) ∧
  Has (Del a key) key = false.
Proof.
  intros Hn. unfold Del, Has. cbn [args]. rewrite DelAllArgs_live.
  assert (del_skip false key (live (args a)) = filter (λ kv, Key kv ≠ key) (live (args a))) as E.
  { induction (live (args a)) as [|kv l IH]; [done|]. rewrite fmap_cons in Hn.
    apply list.NoDup_cons in Hn as [Hk Hn]. cbn [del_skip negb andb].
    destruct (key =b Key kv) eqn:Ek; bdec.
    - subst key. rewrite filter_cons_False by naive_solver.
      rewrite del_skip_absent by done. rewrite <- (IH Hn). by rewrite del_skip_absent.
    - rewrite filter_cons_True by congruence. by rewrite IH. }
  split; [done|]. rewrite E. apply not_true_is_false. rewrite hasArg_elem.
  intros (kv & -> & Hin)%list_elem_of_fmap. apply list_elem_of_filter in Hin. naive_solver.
Qed.

(** [Del] does not delete a key that occurs in two adjacent pairs: the second
    one survives, although the documentation promises the argument is gone. *)
Theorem args_del_keeps_adjacent key v1 v2 sp buf :
  let a := MkArgs (ArgsSlice [KV key v1; KV key v2] sp) buf in
  live (args (Del a key)) = [KV key v2] ∧ Has (Del a key) key = true.
Proof.
  cbn zeta. unfold Del, Has. cbn [args]. rewrite DelAllArgs_live. cbn [live del_skip negb andb Key].
  rewrite bool_decide_eq_true_2 by done. cbn. split; [done|]. by rewrite bool_decide_eq_true_2.
Qed.

(** *** Witnesses *)

Definition a0 : Args :=
  MkArgs (ArgsSlice [KV (bs "a b") (bs "1&2"); KV (bs "c") []] [KV (bs "old") (bs "stale")]) [].

Lemma args_roundtrip_witness :
  ∃ a', ParseBytes a0 (QueryString a0).1 = Some a' ∧ live (args a') = live (args a0).
Proof. apply (args_roundtrip a0 a0). repeat constructor. Defined.

Lemma args_del_unique_witness :
  live (args (Del a0 (bs "c"))) = filter (λ kv, Key kv ≠ bs "c") (live (args a0)) ∧
  Has (Del a0 (bs "c")) (bs "c") = false.
Proof.
  apply (args_del_unique a0 (bs "c")). apply (bool_decide_eq_true_1 (NoDup _)). reflexivity.
Defined.
