(* ===== verification/HttpUri.v ===== *)
(** * URIs (src/pkg/protocol/http/v1/uri.go, uri_unix.go)

    Parsing, path normalization and printing of a URI, and the lazily parsed
    query arguments.  Where a method asks the request header for its host
    ([u.h.Host()]), the answer is the argument [hh]. *)

From S2P Require Import Prelude BytesConv Args.

Definition StrSlash : bytes := bs "/".
Definition StrSlashSlash : bytes := bs "//".
Definition StrSlashDotDot : bytes := bs "/..".
Definition StrSlashDotSlash : bytes := bs "/./".
Definition StrSlashDotDotSlash : bytes := bs "/../".
Definition StrHTTP : bytes := bs "http".
Definition StrHTTPS : bytes := bs "https".
Definition StrColonSlashSlash : bytes := bs "://".

(** [h] is [u.h != nil]. *)
Record URI := MkURI {
  pathOriginal : bytes; scheme : bytes; path : bytes; queryString : bytes;
  hash : bytes; host : bytes; queryArgs : Args; parsedQueryArgs : bool;
  fullURI : bytes; requestURI : bytes; h : bool
}.

Definition set_path_ (po p : bytes) (u : URI) : URI :=
  MkURI po (scheme u) p (queryString u) (hash u) (host u) (queryArgs u) (parsedQueryArgs u)
    (fullURI u) (requestURI u) (h u).
Definition set_scheme_ (s : bytes) (u : URI) : URI :=
  MkURI (pathOriginal u) s (path u) (queryString u) (hash u) (host u) (queryArgs u)
    (parsedQueryArgs u) (fullURI u) (requestURI u) (h u).
Definition set_query_ (q : bytes) (a : Args) (p : bool) (u : URI) : URI :=
  MkURI (pathOriginal u) (scheme u) (path u) q (hash u) (host u) a p
    (fullURI u) (requestURI u) (h u).
Definition set_hash_ (x : bytes) (u : URI) : URI :=
  MkURI (pathOriginal u) (scheme u) (path u) (queryString u) x (host u) (queryArgs u)
    (parsedQueryArgs u) (fullURI u) (requestURI u) (h u).
Definition set_host_ (x : bytes) (hd : bool) (u : URI) : URI :=
  MkURI (pathOriginal u) (scheme u) (path u) (queryString u) (hash u) x (queryArgs u)
    (parsedQueryArgs u) (fullURI u) (requestURI u) hd.
Definition set_full_ (x : bytes) (u : URI) : URI :=
  MkURI (pathOriginal u) (scheme u) (path u) (queryString u) (hash u) (host u) (queryArgs u)
    (parsedQueryArgs u) x (requestURI u) (h u).
Definition set_request_ (x : bytes) (u : URI) : URI :=
  MkURI (pathOriginal u) (scheme u) (path u) (queryString u) (hash u) (host u) (queryArgs u)
    (parsedQueryArgs u) (fullURI u) x (h u).

(** ** Path normalization *)

Definition addLeadingSlash (dst src : bytes) : bytes :=
  match src with
  | c :: _ => if c =b "/"%byte then dst else dst ++ ["/"%byte]
  | [] => dst ++ ["/"%byte]
  end.

(** Duplicate slashes: [front] is what the window [b] has moved past. *)
Fixpoint dedup_loop (fuel : nat) (front b : bytes) : bytes :=
  match fuel with
  | O => front ++ b
  | S fuel =>
      match Index b StrSlashSlash with
      | None => front ++ b
      | Some n => dedup_loop fuel (front ++ take n b) (drop (S n) b)
      end
  end.

Fixpoint dot_loop (fuel : nat) (b : bytes) : bytes :=
  match fuel with
  | O => b
  | S fuel =>
      match Index b StrSlashDotSlash with
      | None => b
      | Some n => dot_loop fuel (take n b ++ drop (n + 2) b)
      end
  end.

Fixpoint dotdot_loop (fuel : nat) (b : bytes) : bytes :=
  match fuel with
  | O => b
  | S fuel =>
      match Index b StrSlashDotDotSlash with
      | None => b
      | Some n =>
          let nn := default 0%nat (LastIndexByte (take n b) "/"%byte) in
          dotdot_loop fuel (take nn b ++ drop (n + 3) b)
      end
  end.

Definition normalizePath (src : bytes) : bytes :=
  let dst := DecodeArgAppendNoPlus (addLeadingSlash [] src) src in
  let b := dedup_loop (length dst) [] dst in
  let b := dot_loop (length b) b in
  let b := dotdot_loop (length b) b in
  match LastIndex b StrSlashDotDot with
  | Some n =>
      if (n + 3 =? length b)%nat then
        match LastIndexByte (take n b) "/"%byte with
        | None => StrSlash
        | Some nn => take (nn + 1) b
        end
      else b
  | None => b
  end.

(** ** Accessors *)

Definition Hash (u : URI) : bytes := hash u.
Definition SetHash (x : bytes) (u : URI) : URI := set_hash_ x u.
Definition QueryString (u : URI) : bytes := queryString u.
Definition SetQueryString (q : bytes) (u : URI) : URI := set_query_ q (queryArgs u) false u.
Definition Path (u : URI) : bytes := if zlen (path u) =? 0 then StrSlash else path u.
Definition SetPath (p : bytes) (u : URI) : URI := set_path_ p (normalizePath p) u.
Definition Scheme (u : URI) : bytes := if zlen (scheme u) =? 0 then StrHTTP else scheme u.
Definition SetScheme (s : bytes) (u : URI) : URI := set_scheme_ (LowercaseBytes s) u.
Definition SetHost (x : bytes) (u : URI) : URI := set_host_ (LowercaseBytes x) (h u) u.

Definition Reset (u : URI) : URI :=
  MkURI [] [] [] [] [] [] (Args.Reset (queryArgs u)) false (fullURI u) (requestURI u) false.

Definition Host (hh : bytes) (u : URI) : bytes * URI :=
  if (zlen (host u) =? 0) && h u then
    let x := LowercaseBytes hh in (x, set_host_ x false u)
  else (host u, u).

Definition CopyTo (u dst : URI) : URI :=
  MkURI (pathOriginal u) (scheme u) (path u) (queryString u) (hash u) (host u)
    (Args.CopyTo (queryArgs u) (queryArgs (Reset dst))) (parsedQueryArgs u)
    (fullURI dst) (requestURI dst) (h u).

(** ** Parsing *)

Definition splitHostURI (host uri : bytes) : bytes * bytes * bytes :=
  match Index uri StrSlashSlash with
  | None => (StrHTTP, host, uri)
  | Some n =>
      let scheme := take n uri in
      match IndexByte scheme "/"%byte with
      | Some _ => (StrHTTP, host, uri)
      | None =>
          let scheme :=
            match scheme !! (length scheme - 1)%nat with
            | Some c => if c =b ":"%byte then take (length scheme - 1) scheme else scheme
            | None => scheme
            end in
          let uri := drop (n + 2) uri in
          match IndexByte uri "/"%byte with
          | None =>
              match IndexByte uri "?"%byte with
              | Some n => (scheme, take n uri, drop n uri)
              | None => (scheme, uri, StrSlash)
              end
          | Some n => (scheme, take n uri, drop n uri)
          end
      end
  end.

(** Path, query and fragment of what follows the host. *)
Definition split_path (b : bytes) : bytes * bytes * bytes :=
  let queryIndex := IndexByte b "?"%byte in
  let fragmentIndex := IndexByte b "#"%byte in
  let queryIndex :=
    match fragmentIndex, queryIndex with
    | Some f, Some q => if (f <? q)%nat then None else Some q
    | _, q => q
    end in
  match queryIndex, fragmentIndex with
  | None, None => (b, [], [])
  | Some q, None => (take q b, drop (S q) b, [])
  | Some q, Some f => (take q b, take (f - S q) (drop (S q) b), drop (S f) b)
  | None, Some f => (take f b, [], drop (S f) b)
  end.

Definition parse (hostArg uri : bytes) (hd : bool) (u : URI) : URI :=
  let u := Reset u in
  let '(sc, ho, b) := splitHostURI hostArg uri in
  let '(p, q, x) := split_path b in
  MkURI p (LowercaseBytes sc) (normalizePath p) q x (LowercaseBytes ho)
    (queryArgs u) false (fullURI u) (requestURI u) hd.

Definition Parse (hostArg uri : bytes) (u : URI) : URI := parse hostArg uri false u.
Definition parseQuick (uri : bytes) (isTLS : bool) (u : URI) : URI :=
  let u := parse [] uri true u in
  if isTLS then set_scheme_ StrHTTPS u else u.

(** ** Printing *)

Definition RequestURI (u : URI) : bytes * URI :=
  let dst := AppendQuotedPath [] (Path u) in
  let dst :=
    if (0 <? length (live (args (queryArgs u))))%nat
    then Args.AppendBytes (queryArgs u) (dst ++ ["?"%byte])
    else if 0 <? zlen (queryString u) then dst ++ ["?"%byte] ++ queryString u
    else dst in
  let dst := if 0 <? zlen (hash u) then dst ++ ["#"%byte] ++ hash u else dst in
  (dst, set_request_ dst u).

Definition appendSchemeHost (hh dst : bytes) (u : URI) : bytes * URI :=
  let '(ho, u') := Host hh u in (dst ++ Scheme u ++ StrColonSlashSlash ++ ho, u').

Definition AppendBytes (hh dst : bytes) (u : URI) : bytes * URI :=
  let '(dst, u) := appendSchemeHost hh dst u in
  let '(r, u) := RequestURI u in (dst ++ r, u).

Definition FullURI (hh : bytes) (u : URI) : bytes * URI :=
  let '(f, u) := AppendBytes hh [] u in (f, set_full_ f u).

Definition LastPathSegment (u : URI) : bytes :=
  match LastIndexByte (Path u) "/"%byte with
  | None => Path u
  | Some n => drop (n + 1) (Path u)
  end.

(** [UpdateBytes]; [None] is the panic on a path without a slash. *)
Definition updateBytes (hh newURI buf : bytes) (u : URI) : option (bytes * URI) :=
  match newURI with
  | [] => Some (buf, u)
  | c :: rest =>
      match Index newURI StrSlashSlash with
      | Some _ =>
          let schemeOriginal := scheme u in
          let u := Parse [] newURI u in
          Some (buf, if (0 <? zlen schemeOriginal) && (zlen (scheme u) =? 0)
                     then set_scheme_ schemeOriginal u else u)
      | None =>
          if c =b "/"%byte then
            let '(b, u) := appendSchemeHost hh [] u in
            Some (b ++ newURI, Parse [] (b ++ newURI) u)
          else if c =b "?"%byte then
            let '(f, u) := FullURI hh (SetQueryString rest u) in Some (f, u)
          else if c =b "#"%byte then
            let '(f, u) := FullURI hh (SetHash rest u) in Some (f, u)
          else
            let p := Path u in
            match LastIndexByte p "/"%byte with
            | None => None
            | Some n =>
                let '(b, u) := appendSchemeHost hh [] u in
                let b := AppendQuotedPath b (take (n + 1) p) ++ newURI in
                Some (b, Parse [] b u)
            end
      end
  end.

Definition UpdateBytes (hh newURI : bytes) (u : URI) : option URI :=
  '(b, u) ← updateBytes hh newURI (requestURI u) u;
  Some (set_request_ b u).

Definition parseQueryArgs (u : URI) : option URI :=
  if parsedQueryArgs u then Some u
  else
    a ← Args.ParseBytes (queryArgs u) (queryString u);
    Some (set_query_ (queryString u) a true u).

Definition QueryArgs (u : URI) : option (Args * URI) :=
  u ← parseQueryArgs u; Some (queryArgs u, u).

(** ** Substrings *)

Definition contains (s b : bytes) : Prop := ∃ p r, b = p ++ s ++ r.

Lemma Index_contains b s : Index b s = None ↔ ¬ contains s b.
Proof.
  split.
  - intros H (p & r & E). by apply (Index_None b s H p r).
  - intros H. destruct (Index b s) as [n|] eqn:E; [|done]. exfalso. apply H.
    apply Index_Some in E as [r E]. by exists (take n b), r.
Qed.

Lemma Index_first b s n :
  Index b s = Some n → ∀ p r, b = p ++ s ++ r → (n ≤ length p)%nat.
Proof.
  revert n. induction b as [|x b IH]; cbn [Index]; intros n; case_if; try done.
  - intros [= <-]. lia.
  - intros [= <-]. lia.
  - intros (m & Hm & ->)%fmap_Some p r E. destruct p as [|y p].
    + exfalso. assert (HasPrefix (x :: b) s = true) by (apply HasPrefix_spec; by exists r).
      congruence.
    + injection E as -> E. cbn. pose proof (IH m Hm p r E). lia.
Qed.

Lemma contains_app_l s x y : contains s x → contains s (x ++ y).
Proof. intros (p & r & ->). exists p, (r ++ y). by rewrite <- !app_assoc. Qed.
Lemma contains_app_r s x y : contains s y → contains s (x ++ y).
Proof. intros (p & r & ->). exists (x ++ p), r. by rewrite <- !app_assoc. Qed.

(** A pattern with slashes at its two ends only that occurs across a slash
    occurs on one side of it. *)
Lemma contains_slash m u w :
  "/"%byte ∉ m →
  contains ("/"%byte :: m ++ ["/"%byte]) (u ++ "/"%byte :: w) →
  contains ("/"%byte :: m ++ ["/"%byte]) (u ++ ["/"%byte]) ∨
  contains ("/"%byte :: m ++ ["/"%byte]) ("/"%byte :: w).
Proof.
  intros Hm (p & r & E). set (s := "/"%byte :: m ++ ["/"%byte]) in *.
  assert (length s = length m + 2)%nat as Hs by (subst s; cbn; rewrite length_app; cbn; lia).
  destruct (Nat.le_gt_cases (length p + length s) (length u + 1)) as [H1|H1].
  - left. exists p, (drop (length p + length s) (u ++ ["/"%byte])).
    assert (u ++ ["/"%byte] = take (length u + 1) (p ++ s ++ r)) as ->.
    { rewrite <- E. replace (u ++ "/"%byte :: w) with ((u ++ ["/"%byte]) ++ w)
        by (by rewrite <- app_assoc). rewrite take_app_length'; [done|]. by rewrite length_app. }
    rewrite (app_assoc p s r), take_app_ge by (rewrite length_app; lia).
    rewrite <- (length_app p s), drop_app_length, <- app_assoc. done.
  - right. destruct (Nat.le_gt_cases (length u) (length p)) as [H2|H2].
    + exists (drop (length u) p), r.
      apply (f_equal (drop (length u))) in E. rewrite drop_app_length in E.
      rewrite drop_app_le in E by done. done.
    + exfalso. apply (f_equal (.!! length u)) in E.
      rewrite list_lookup_middle in E by done.
      rewrite lookup_app_r in E by lia. rewrite lookup_app_l in E by lia.
      subst s. destruct (length u - length p)%nat as [|i] eqn:Ei; [lia|].
      change (Some "/"%byte = (m ++ ["/"%byte]) !! i) in E.
      rewrite lookup_app_l in E by lia. symmetry in E.
      by apply list_elem_of_lookup_2 in E.
Qed.

(** Dropping what lies between two slashes creates no new pattern. *)
Lemma contains_cut m u v w :
  "/"%byte ∉ m → ¬ contains ("/"%byte :: m ++ ["/"%byte]) (u ++ "/"%byte :: v) →
  ¬ contains ("/"%byte :: m ++ ["/"%byte]) ("/"%byte :: w) →
  ¬ contains ("/"%byte :: m ++ ["/"%byte]) (u ++ "/"%byte :: w).
Proof.
  intros Hm Hu Hw [H|H]%(contains_slash m u w Hm); [|done].
  apply Hu. replace (u ++ "/"%byte :: v) with ((u ++ ["/"%byte]) ++ v)
    by (by rewrite <- app_assoc). by apply contains_app_l.
Qed.

Lemma contains_suffix s x y : ¬ contains s (x ++ y) → ¬ contains s y.
Proof. intros H Hy. by apply H, contains_app_r. Qed.

(** ** Each loop of [normalizePath] *)

Lemma Index_split b s n : Index b s = Some n → b = take n b ++ s ++ drop (n + length s) b.
Proof.
  intros E. pose proof (Index_Some b s n E) as [r Hr].
  assert (n ≤ length b)%nat as Hn.
  { destruct (Nat.le_gt_cases n (length b)); [done|]. rewrite take_ge in Hr by lia.
    apply (f_equal length) in Hr. rewrite !length_app in Hr.
    assert (s = []) as -> by (destruct s; [done|cbn in Hr; lia]).
    destruct b; cbn in E; injection E as <-; lia. }
  rewrite Hr at 1. do 2 f_equal. rewrite Hr. rewrite app_assoc, drop_app_length'; [done|].
  rewrite length_app, length_take. lia.
Qed.

(** The pattern [//] in a concatenation, up to the first byte of the second part. *)
Lemma contains_slashes x y :
  contains StrSlashSlash (x ++ y) →
  contains StrSlashSlash (x ++ take 1 y) ∨ contains StrSlashSlash y.
Proof.
  intros Hc. destruct y as [|c y]; [by left|]. destruct (decide (c = "/"%byte)) as [->|Hne].
  { by apply (contains_slash [] x y); [set_solver|]. }
  destruct Hc as (p & r & E).
  destruct (Nat.le_gt_cases (length p + 2) (length x)) as [H1|H1].
  - left. apply contains_app_l. exists p, (drop (length p + 2) x).
    apply (f_equal (take (length x))) in E. rewrite take_app_length in E.
    rewrite E. rewrite app_assoc, take_app_ge by (rewrite length_app; cbn; lia).
    rewrite (app_assoc p), drop_app_length'; [done|rewrite length_app; done].
  - right. destruct (Nat.le_gt_cases (length x) (length p)) as [H2|H2].
    + exists (drop (length x) p), r. apply (f_equal (drop (length x))) in E.
      rewrite drop_app_length in E. by rewrite drop_app_le in E.
    + exfalso. apply Hne. apply (f_equal (.!! length x)) in E.
      rewrite list_lookup_middle in E by done. rewrite lookup_app_r in E by lia.
      replace (length x - length p)%nat with 1%nat in E by lia. by injection E.
Qed.

Lemma dedup_loop_clean fuel front b :
  (length b ≤ fuel)%nat → ¬ contains StrSlashSlash (front ++ take 1 b) →
  ¬ contains StrSlashSlash (dedup_loop fuel front b).
Proof.
  revert front b. induction fuel as [|fuel IH]; intros front b Hl Hf.
  { by destruct b; [|cbn in Hl; lia]. }
  cbn [dedup_loop]. destruct (Index b StrSlashSlash) as [n|] eqn:E.
  2:{ apply Index_contains in E. by intros [?|?]%contains_slashes. }
  pose proof (Index_split _ _ _ E) as Hb. pose proof (Index_first _ _ _ E) as Hfirst.
  set (r := drop (n + length StrSlashSlash) b) in Hb. clearbody r.
  set (u := take n b) in *. assert (length u = n) as Hu.
  { subst u. rewrite length_take. apply (f_equal length) in Hb. rewrite !length_app in Hb.
    rewrite length_take in Hb. change (length StrSlashSlash) with 2%nat in Hb. lia. }
  clearbody u. subst n. rewrite Hb. change (StrSlashSlash ++ r) with ("/"%byte :: "/"%byte :: r).
  rewrite drop_S_app. rewrite Hb in Hl. apply IH.
  { rewrite length_app in Hl. cbn in *. lia. }
  change (take 1 ("/"%byte :: r)) with ["/"%byte]. rewrite <- app_assoc. intros [Hc|Hc]%contains_slashes.
  - apply Hf. rewrite Hb. by destruct u.
  - destruct Hc as (p & q & Ep). assert (length p < length u)%nat as Hp.
    { apply (f_equal length) in Ep. rewrite !length_app in Ep.
      change (length StrSlashSlash) with 2%nat in Ep. cbn in Ep. lia. }
    assert (length u ≤ length p)%nat; [|lia].
    apply (Hfirst p (q ++ "/"%byte :: r)). rewrite Hb.
    change (StrSlashSlash ++ r) with (["/"%byte] ++ "/"%byte :: r).
    rewrite app_assoc, Ep. by rewrite <- !app_assoc.
Qed.

Lemma contains_nil s : s ≠ [] → ¬ contains s [].
Proof. intros Hs (p & r & E). destruct p, s; done. Qed.

Definition rooted (b : bytes) : Prop := ∃ r, b = "/"%byte :: r.

(** The three forbidden patterns, as a slash, what is between, and a slash. *)
Definition clean (m b : bytes) : Prop := ¬ contains ("/"%byte :: m ++ ["/"%byte]) b.

Lemma clean_cut m u v w :
  "/"%byte ∉ m → clean m (u ++ "/"%byte :: v) → clean m ("/"%byte :: w) →
  clean m (u ++ "/"%byte :: w).
Proof. apply contains_cut. Qed.

Lemma clean_nil m : clean m [].
Proof. by apply contains_nil. Qed.

Lemma clean_suffix m x y : clean m (x ++ y) → clean m y.
Proof. apply contains_suffix. Qed.

Lemma clean_prefix m x y : clean m (x ++ y) → clean m x.
Proof. intros H Hx. by apply H, contains_app_l. Qed.

Lemma rooted_app u v w : rooted (u ++ "/"%byte :: v) → rooted (u ++ "/"%byte :: w).
Proof. intros [r E]. destruct u as [|c u]; [by eexists|]. injection E as -> _. by eexists. Qed.

Lemma Index_take_length b s n :
  Index b s = Some n → (n + length s ≤ length b)%nat.
Proof.
  intros E. destruct (decide (s = [])) as [->|Hs].
  { destruct b; cbn in E; injection E as <-; cbn; lia. }
  pose proof (Index_split _ _ _ E) as Hb. apply (f_equal length) in Hb.
  rewrite !length_app, length_take, length_drop in Hb. destruct s; [done|]. cbn in *. lia.
Qed.

(** [b = u ++ s ++ r] at the first occurrence. *)
Lemma Index_view b s n :
  Index b s = Some n → ∃ u r, b = u ++ s ++ r ∧ length u = n.
Proof.
  intros E. exists (take n b), (drop (n + length s) b). split; [by apply Index_split|].
  rewrite length_take. pose proof (Index_take_length _ _ _ E). lia.
Qed.

Lemma LastIndexByte_view b c n :
  LastIndexByte b c = Some n → ∃ u v, b = u ++ c :: v ∧ length u = n.
Proof.
  intros [E _]%LastIndexByte_Some. exists (take n b), (drop (S n) b). split; [done|].
  apply (f_equal length) in E. rewrite length_app in E. cbn in E.
  rewrite length_take, length_drop in *. lia.
Qed.

Lemma drop_app_add' {A} (u v : list A) k n : n = (length u + k)%nat → drop n (u ++ v) = drop k v.
Proof. intros ->. rewrite <- drop_drop, drop_app_length. done. Qed.

Lemma dot_loop_clean fuel b :
  (length b ≤ fuel)%nat → clean [] b →
  clean [] (dot_loop fuel b) ∧ clean ["."%byte] (dot_loop fuel b) ∧
  (rooted b → rooted (dot_loop fuel b)).
Proof.
  revert b. induction fuel as [|fuel IH]; intros b Hl Hb.
  { destruct b; [|cbn in Hl; lia]. cbn. by split; [|split; [apply clean_nil|]]. }
  cbn [dot_loop]. destruct (Index b StrSlashDotSlash) as [n|] eqn:E.
  2:{ apply Index_contains in E. by split; [|split]. }
  apply Index_view in E as (u & r & -> & Hu).
  change (StrSlashDotSlash ++ r) with ("/"%byte :: "."%byte :: "/"%byte :: r) in *.
  rewrite <- Hu, take_app_length, (drop_app_add' _ _ 2) by done. cbn [drop].
  destruct (IH (u ++ "/"%byte :: r)) as (H1 & H2 & H3).
  - rewrite length_app in *. cbn in *. lia.
  - eapply clean_cut; [set_solver|exact Hb|].
    by apply (clean_suffix [] (u ++ ["/"%byte; "."%byte])); rewrite <- app_assoc.
  - split; [done|]. split; [done|]. intros Hr. apply H3. by eapply rooted_app.
Qed.

Lemma dotdot_loop_clean fuel b :
  (length b ≤ fuel)%nat → clean [] b → clean ["."%byte] b → rooted b →
  clean [] (dotdot_loop fuel b) ∧ clean ["."%byte] (dotdot_loop fuel b) ∧
  clean ["."%byte; "."%byte] (dotdot_loop fuel b) ∧ rooted (dotdot_loop fuel b).
Proof.
  revert b. induction fuel as [|fuel IH]; intros b Hl H1 H2 Hr.
  { destruct b; [|cbn in Hl; lia]. cbn. by repeat (split; [by apply clean_nil|]). }
  cbn [dotdot_loop]. destruct (Index b StrSlashDotDotSlash) as [n|] eqn:E.
  2:{ apply Index_contains in E. done. }
  apply Index_view in E as (u & r & -> & Hu).
  change (StrSlashDotDotSlash ++ r) with
    ("/"%byte :: "."%byte :: "."%byte :: "/"%byte :: r) in *.
  rewrite <- Hu, take_app_length, (drop_app_add' _ _ 3) by done. cbn [drop].
  assert (∀ m, clean m (u ++ "/"%byte :: "."%byte :: "."%byte :: "/"%byte :: r) →
    clean m ("/"%byte :: r)) as Hsuf.
  { intros m Hm. apply (clean_suffix m (u ++ ["/"%byte; "."%byte; "."%byte])).
    by rewrite <- app_assoc. }
  destruct (LastIndexByte u "/"%byte) as [nn|] eqn:El.
  - apply LastIndexByte_view in El as (u1 & u2 & -> & <-).
    change (default 0%nat (Some (length u1))) with (length u1).
    rewrite <- app_assoc in *. rewrite take_app_length. cbn [app] in *.
    apply IH.
    + rewrite !length_app in *. cbn in *. rewrite length_app in Hl. cbn in Hl. lia.
    + eapply clean_cut; [set_solver|exact H1|]. by apply Hsuf.
    + eapply clean_cut; [set_solver|exact H2|]. by apply Hsuf.
    + by eapply rooted_app.
  - change (take (default 0%nat None) ?x) with (@nil byte). cbn [app]. apply IH.
    + rewrite length_app in Hl. cbn in *. lia.
    + by apply Hsuf.
    + by apply Hsuf.
    + by eexists.
Qed.

Lemma normalizePath_decoded_rooted src :
  rooted (DecodeArgAppendNoPlus (addLeadingSlash [] src) src).
Proof.
  rewrite DecodeArgAppendNoPlus_slow. destruct src as [|c src]; [by exists []|].
  unfold addLeadingSlash. destruct (decide (c = "/"%byte)) as [->|Hc].
  - rewrite bool_decide_eq_true_2 by done. rewrite decode_slow_plain by done. cbn [app].
    destruct (decode_slow_dst false ["/"%byte] src) as [r ->]. by exists r.
  - rewrite bool_decide_eq_false_2 by done. cbn [app].
    destruct (decode_slow_dst false ["/"%byte] (c :: src)) as [r ->]. by exists r.
Qed.

Lemma dedup_loop_rooted fuel front b :
  rooted (front ++ b) → rooted (dedup_loop fuel front b).
Proof.
  revert front b. induction fuel as [|fuel IH]; intros front b Hr; [done|].
  cbn [dedup_loop]. destruct (Index b StrSlashSlash) as [n|] eqn:E; [|done].
  apply IH. apply Index_view in E as (u & r & -> & Hu).
  change (StrSlashSlash ++ r) with ("/"%byte :: "/"%byte :: r) in *.
  rewrite <- Hu, take_app_length, drop_S_app. rewrite app_assoc in Hr. by eapply rooted_app.
Qed.

Lemma LastIndex_short b s : (length b < length s)%nat → LastIndex b s = None.
Proof.
  induction b as [|c b IH]; intros Hl; cbn [LastIndex].
  - by destruct s; [cbn in Hl; lia|].
  - rewrite IH by (cbn in Hl; lia). destruct (HasPrefix (c :: b) s) eqn:E; [|done].
    apply HasPrefix_spec in E as [r E]. rewrite E, length_app in Hl. lia.
Qed.

Lemma LastIndex_suffix p s : s ≠ [] → LastIndex (p ++ s) s = Some (length p).
Proof.
  intros Hs. induction p as [|c p IH]; cbn [app LastIndex length]; [|by rewrite IH].
  destruct s as [|c s]; [done|]. cbn [LastIndex]. rewrite LastIndex_short by (cbn; lia).
  assert (HasPrefix (c :: s) (c :: s) = true) as -> by (apply HasPrefix_spec; by exists []; rewrite app_nil_r).
  done.
Qed.

(** A path in normal form: absolute, with no empty, [.] or [..] segment that a
    slash follows, and not ending in [/..].  Its last segment may be empty or [.]. *)
Record normal (p : bytes) : Prop := {
  nf_rooted : rooted p;
  nf_slashes : clean [] p;
  nf_dot : clean ["."%byte] p;
  nf_dotdot : clean ["."%byte; "."%byte] p;
  nf_end : ¬ ∃ q, p = q ++ StrSlashDotDot
}.

Definition trim_dotdot (b : bytes) : bytes :=
  match LastIndex b StrSlashDotDot with
  | Some n =>
      if (n + 3 =? length b)%nat then
        match LastIndexByte (take n b) "/"%byte with
        | None => StrSlash
        | Some nn => take (nn + 1) b
        end
      else b
  | None => b
  end.

Lemma clean_slash m : clean m StrSlash.
Proof.
  intros (p & r & E). apply (f_equal length) in E.
  rewrite !length_app in E. cbn in E. rewrite length_app in E. cbn in E. lia.
Qed.

Lemma normal_slash : normal StrSlash.
Proof.
  constructor; try apply clean_slash; [by exists []|].
  intros [q E]. apply (f_equal length) in E. rewrite length_app in E. cbn in E. lia.
Qed.

Lemma normal_cut q r :
  rooted (q ++ "/"%byte :: r) → clean [] (q ++ "/"%byte :: r) →
  clean ["."%byte] (q ++ "/"%byte :: r) →
  clean ["."%byte; "."%byte] (q ++ "/"%byte :: r) → normal (q ++ StrSlash).
Proof.
  intros H0 H1 H2 H3.
  constructor; try (eapply clean_cut; [set_solver|eassumption|apply clean_slash]).
  - by eapply rooted_app.
  - intros [p E]. unfold StrSlash, StrSlashDotDot in E. cbn in E.
    change ["/"%byte; "."%byte; "."%byte] with (["/"%byte; "."%byte] ++ ["."%byte]) in E.
    rewrite app_assoc in E. by apply app_inj_tail in E as [_ E].
Qed.

Lemma trim_dotdot_normal b :
  rooted b → clean [] b → clean ["."%byte] b → clean ["."%byte; "."%byte] b →
  normal (trim_dotdot b).
Proof.
  intros H0 H1 H2 H3. unfold trim_dotdot.
  assert (LastIndex b StrSlashDotDot ≠ Some (length b - 3)%nat ∨ (length b < 3)%nat → normal b) as Hno.
  { intros Hn. split; [done..|]. intros [q ->]. rewrite length_app, LastIndex_suffix in Hn by done.
    change (length StrSlashDotDot) with 3%nat in Hn. destruct Hn as [Hn|Hn]; [|lia].
    by replace (length q + 3 - 3)%nat with (length q) in Hn by lia. }
  destruct (LastIndex b StrSlashDotDot) as [n|] eqn:E; [|by apply Hno; left].
  destruct (Nat.eqb_spec (n + 3) (length b)) as [Hn|Hn].
  2:{ apply Hno. destruct (Nat.lt_ge_cases (length b) 3); [by right|].
      left. intros [= ->]. lia. }
  destruct (LastIndexByte (take n b) "/"%byte) as [nn|] eqn:El; [|apply normal_slash].
  apply LastIndexByte_view in El as (q & v & El & Hl).
  assert (b = q ++ "/"%byte :: v ++ drop n b) as Eb
    by (rewrite <- (take_drop n b) at 1; by rewrite El, <- app_assoc).
  set (r := v ++ drop n b) in *. clearbody r. clear El E. subst b.
  rewrite <- Hl, Nat.add_1_r, take_app_ge by lia.
  replace (S (length q) - length q)%nat with 1%nat by lia. by eapply normal_cut.
Qed.

Lemma normalizePath_steps src :
  normalizePath src =
  let dst := DecodeArgAppendNoPlus (addLeadingSlash [] src) src in
  let b := dedup_loop (length dst) [] dst in
  let b := dot_loop (length b) b in
  trim_dotdot (dotdot_loop (length b) b).
Proof. done. Qed.

Lemma dedup_loop_clean_top b : clean [] (dedup_loop (length b) [] b).
Proof.
  apply dedup_loop_clean; [done|]. intros (p & r & E). apply (f_equal length) in E.
  rewrite (length_app p), (length_app StrSlashSlash) in E.
  change (length StrSlashSlash) with 2%nat in E. destruct b; cbn in E; [lia|]. rewrite take_0 in E. cbn in E. lia.
Qed.

Lemma normalizePath_nf src : normal (normalizePath src).
Proof.
  rewrite normalizePath_steps. cbn zeta.
  set (dst := DecodeArgAppendNoPlus _ _).
  assert (rooted (dedup_loop (length dst) [] dst)) as Hr
    by (apply dedup_loop_rooted, normalizePath_decoded_rooted).
  pose proof (dedup_loop_clean_top dst) as Hc.
  set (b := dedup_loop _ _ _) in *. clearbody b.
  destruct (dot_loop_clean (length b) b) as (H1 & H2 & H3); [done..|]. specialize (H3 Hr).
  set (b' := dot_loop _ _) in *. clearbody b'.
  destruct (dotdot_loop_clean (length b') b') as (G1 & G2 & G3 & G4); [done..|].
  by apply trim_dotdot_normal.
Qed.

Lemma LastIndex_end b s n :
  LastIndex b s = Some n → (n + length s = length b)%nat → b = take n b ++ s.
Proof.
  revert n. induction b as [|c b IH]; intros n; cbn [LastIndex].
  - case_if; [|done]. intros [= <-] Hl. by destruct s.
  - destruct (LastIndex b s) as [m|] eqn:E.
    + intros [= <-] Hl. cbn. f_equal. apply IH; [done|]. cbn in Hl. lia.
    + destruct (HasPrefix (c :: b) s) eqn:Hp; [|done]. intros [= <-] Hl.
      apply HasPrefix_spec in Hp as [r Hr]. rewrite Hr in Hl |- *. rewrite length_app in Hl.
      destruct r; [|cbn in Hl; lia]. by rewrite take_0, app_nil_r.
Qed.

(** A normal path is left alone. *)
Lemma normalizePath_id p : normal p → normalizePath (AppendQuotedPath [] p) = p.
Proof.
  intros [[r ->] H1 H2 H3 H4]. rewrite normalizePath_steps. cbn zeta.
  assert (addLeadingSlash [] (AppendQuotedPath [] ("/"%byte :: r)) = []) as ->.
  { rewrite AppendQuotedPath_eq. done. }
  rewrite decode_quoted_path. set (p := "/"%byte :: r) in *.
  change ([] ++ p) with p. clearbody p.
  apply Index_contains in H1, H2, H3.
  assert (dedup_loop (length p) [] p = p) as ->.
  { destruct (length p); cbn [dedup_loop]; [done|]. change (Index p _) with (Index p ("/"%byte :: [] ++ ["/"%byte])). by rewrite H1. }
  assert (dot_loop (length p) p = p) as ->.
  { destruct (length p); cbn [dot_loop]; [done|]. unfold StrSlashDotSlash. cbn in H2 |- *. by rewrite H2. }
  assert (dotdot_loop (length p) p = p) as ->.
  { destruct (length p); cbn [dotdot_loop]; [done|]. unfold StrSlashDotDotSlash. cbn in H3 |- *. by rewrite H3. }
  unfold trim_dotdot. destruct (LastIndex p StrSlashDotDot) as [n|] eqn:E; [|done].
  destruct (Nat.eqb_spec (n + 3) (length p)); [|done].
  exfalso. apply H4. exists (take n p). by apply LastIndex_end.
Qed.

(** ** Normalization by segments

    A path that starts with a slash is its segments, each after a slash. *)

Module path_facts.
Definition flat (ss : list bytes) : bytes := concat (cons "/"%byte <$> ss).
(** The segments of what follows the first slash. *)
Fixpoint segments (b : bytes) : list bytes :=
  match b with
  | [] => [[]]
  | c :: b =>
      if c =b "/"%byte then [] :: segments b
      else match segments b with s :: ss => (c :: s) :: ss | [] => [[c]] end
  end.
(** The segments of the normal form; [st] are those that were kept, the last one first.
    An empty segment and a dot are left out and two dots take the one before away, but for
    the last segment, which stays even when it is empty or a dot; two dots at the end
    leave a slash. *)
Fixpoint resolve (st ss : list bytes) : list bytes :=
  match ss with
  | [] => rev st
  | s :: ss' =>
      match ss' with
      | [] => if s =b bs ".." then rev (tail st) ++ [[]] else rev st ++ [s]
      | _ =>
          if (s =b []) || (s =b bs ".") then resolve st ss'
          else if s =b bs ".." then resolve (tail st) ss'
          else resolve (s :: st) ss'
      end
  end.

Definition plain (ss : list bytes) : Prop := Forall (λ s, "/"%byte ∉ s) ss.
Lemma flat_app ss ss' : flat (ss ++ ss') = flat ss ++ flat ss'.
Proof. unfold flat. by rewrite fmap_app, concat_app. Qed.
Lemma flat_cons s ss : flat (s :: ss) = "/"%byte :: s ++ flat ss.
Proof. done. Qed.
Lemma flat_head ss : flat ss = [] ∨ ∃ r, flat ss = "/"%byte :: r.
Proof. destruct ss; [by left|right]. rewrite flat_cons. by eexists. Qed.
Lemma flat_segments b : flat (segments b) = "/"%byte :: b ∧ plain (segments b).
Proof.
  induction b as [|c b [IH1 IH2]]; [split; [done|by repeat constructor; set_solver]|]. cbn [segments].
  case_bool_decide as Ec.
  - rewrite flat_cons, IH1, Ec. split; [done|]. constructor; [set_solver|done].
  - destruct (segments b) as [|s ss]; [done|]. rewrite !flat_cons in *. injection IH1 as IH1.
    split; [cbn; by rewrite IH1|]. apply list.Forall_cons in IH2 as [Hs IH2]. constructor; [set_solver|done].
Qed.

(** A slash-free piece before a slash or the end is determined. *)
Lemma piece_unique (s t x y : bytes) :
  "/"%byte ∉ s → "/"%byte ∉ t → (x = [] ∨ ∃ r, x = "/"%byte :: r) → s ++ x = t ++ "/"%byte :: y →
  s = t ∧ x = "/"%byte :: y.
Proof.
  revert t. induction s as [|c s IH]; intros t Hs Ht Hx E; cbn in E.
  - destruct t as [|d t]; [done|]. destruct Hx as [->|[r ->]]; [done|]. injection E as <- _. set_solver.
  - destruct t as [|d t]; cbn in E; injection E as -> E; [set_solver|].
    destruct (IH t) as [-> ->]; [set_solver..|done|done|done].
Qed.
Lemma piece_prefix (s x p z : bytes) :
  "/"%byte ∉ s → s ++ x = p ++ "/"%byte :: z → ∃ p', p = s ++ p' ∧ x = p' ++ "/"%byte :: z.
Proof.
  revert p. induction s as [|c s IH]; intros p Hs E; [by exists p|].
  destruct p as [|d p]; cbn in E; injection E as -> E; [set_solver|].
  destruct (IH p) as (p' & -> & ->); [set_solver|done|]. by exists p'.
Qed.
(** A pattern between slashes is a segment with another one after it. *)
Lemma flat_pattern ss p m r : plain ss → "/"%byte ∉ m → flat ss = p ++ "/"%byte :: m ++ "/"%byte :: r →
  ∃ A B, ss = A ++ m :: B ∧ p = flat A ∧ flat B = "/"%byte :: r.
Proof.
  revert p. induction ss as [|s ss IH]; intros p Hp Hm E; [by destruct p|].
  apply list.Forall_cons in Hp as [Hs Hp]. rewrite flat_cons in E. destruct p as [|c p]; cbn in E.
  - injection E as E. apply piece_unique in E as [-> E]; [|done|done|apply flat_head]. by exists [], ss.
  - injection E as <- E. apply piece_prefix in E as (p' & -> & E); [|done].
    destruct (IH p' Hp Hm E) as (A & B & -> & -> & EB). by exists (s :: A), B.
Qed.
Lemma flat_cleans ss m : plain ss → "/"%byte ∉ m → clean m (flat ss) ↔ ∀ A B, ss = A ++ m :: B → B = [].
Proof.
  intros Hp Hm. split.
  - intros Hc A B ->. destruct B as [|s B]; [done|]. exfalso. apply Hc. exists (flat A), (s ++ flat B).
    rewrite flat_app, flat_cons, flat_cons. cbn. by rewrite <- !app_assoc.
  - intros Hn (p & r & E). cbn in E. rewrite <- app_assoc in E. apply flat_pattern in E as (A & B & E & _ & EB); [|done..].
    apply Hn in E as ->. done.
Qed.

(** What one turn of a loop takes away does not change the result. *)
Lemma resolve_skip st A m B : m = [] ∨ m = bs "." → B ≠ [] → resolve st (A ++ m :: B) = resolve st (A ++ B).
Proof.
  intros Hm HB. revert st. induction A as [|a A IH]; intros st; cbn [app resolve].
  - destruct B as [|b B]; [done|]. by destruct Hm as [-> | ->].
  - rewrite !IH. destruct A; [|done]. destruct B; [done|]. cbn [app]. done.
Qed.
(** A segment that resolving keeps. *)
Definition kept_seg (s : bytes) : Prop := s ≠ [] ∧ s ≠ bs "." ∧ s ≠ bs "..".
Lemma resolve_keep st s ss : kept_seg s → ss ≠ [] → resolve st (s :: ss) = resolve (s :: st) ss.
Proof.
  intros (H1 & H2 & H3) Hs. destruct ss as [|s' ss]; [done|]. cbn [resolve].
  rewrite (bool_decide_eq_false_2 (s = [])), (bool_decide_eq_false_2 (s = bs ".")) by done. cbn [orb].
  by rewrite (bool_decide_eq_false_2 (s = bs "..")) by done.
Qed.
Lemma resolve_back st A s B : kept_seg s → B ≠ [] → resolve st (A ++ s :: bs ".." :: B) = resolve st (A ++ B).
Proof.
  intros Hs HB. revert st. induction A as [|a A IH]; intros st.
  - cbn [app]. rewrite resolve_keep by done. by destruct B.
  - cbn [app]. cbn [resolve]. rewrite !IH. destruct A; [|done]. destruct B; [done|]. cbn [app]. done.
Qed.
Lemma resolve_back_end st A s : kept_seg s → resolve st (A ++ [s; bs ".."]) = resolve st (A ++ [[]]).
Proof.
  intros Hs. revert st. induction A as [|a A IH]; intros st.
  - cbn [app]. by rewrite resolve_keep by done.
  - cbn [app]. cbn [resolve]. rewrite !IH. destruct A; done.
Qed.
Lemma resolve_kept st ss s : Forall kept_seg ss → s ≠ bs ".." → resolve st (ss ++ [s]) = rev st ++ ss ++ [s].
Proof.
  intros Hk Hs. revert st. induction Hk as [|a ss Ha Hk IH]; intros st; cbn [app].
  - cbn. by rewrite bool_decide_eq_false_2.
  - rewrite resolve_keep, IH by (done || by destruct ss). cbn. by rewrite <- app_assoc.
Qed.

(** A loop whose turns keep the segments up to resolving. *)
Definition resolves (b b' : bytes) : Prop :=
  ∀ ss, plain ss → ss ≠ [] → b = flat ss → ∃ ss', plain ss' ∧ ss' ≠ [] ∧ b' = flat ss' ∧ resolve [] ss' = resolve [] ss.
Lemma resolves_refl b : resolves b b.
Proof. intros ss H1 H2 H3. by exists ss. Qed.
Lemma resolves_trans b1 b2 b3 : resolves b1 b2 → resolves b2 b3 → resolves b1 b3.
Proof.
  intros R1 R2 ss H1 H2 H3. destruct (R1 ss H1 H2 H3) as (s2 & P2 & N2 & F2 & E2).
  destruct (R2 s2 P2 N2 F2) as (s3 & P3 & N3 & F3 & E3). exists s3. split_and!; [done..|congruence].
Qed.
Lemma resolves_drop m p r : m = [] ∨ m = bs "." →
  resolves (p ++ "/"%byte :: m ++ "/"%byte :: r) (p ++ "/"%byte :: r).
Proof.
  intros Hm ss Hp Hn E. symmetry in E. apply flat_pattern in E as (A & B & -> & -> & EB); [|done|destruct Hm; set_solver].
  assert (B ≠ []) as HB by by intros ->. exists (A ++ B). rewrite flat_app, EB.
  apply Forall_app in Hp as [HA HB']. apply list.Forall_cons in HB' as [_ HB'].
  split_and!; [by apply Forall_app|by destruct A|done|by rewrite resolve_skip].
Qed.
Lemma resolves_dedup fuel front b : resolves (front ++ b) (dedup_loop fuel front b).
Proof.
  revert front b. induction fuel as [|fuel IH]; intros front b; [apply resolves_refl|].
  cbn [dedup_loop]. destruct (Index b StrSlashSlash) as [n|] eqn:E; [|apply resolves_refl].
  eapply resolves_trans; [|apply IH]. apply Index_view in E as (u & r & -> & <-).
  change (StrSlashSlash ++ r) with ("/"%byte :: [] ++ "/"%byte :: r). rewrite take_app_length, drop_S_app.
  rewrite (app_assoc front u), <- app_assoc. rewrite (app_assoc front). apply (resolves_drop []). by left.
Qed.
Lemma resolves_dot fuel b : resolves b (dot_loop fuel b).
Proof.
  revert b. induction fuel as [|fuel IH]; intros b; [apply resolves_refl|].
  cbn [dot_loop]. destruct (Index b StrSlashDotSlash) as [n|] eqn:E; [|apply resolves_refl].
  eapply resolves_trans; [|apply IH]. apply Index_view in E as (u & r & -> & <-).
  change (StrSlashDotSlash ++ r) with ("/"%byte :: bs "." ++ "/"%byte :: r).
  rewrite take_app_length, (drop_app_add' _ _ 2) by done. apply (resolves_drop (bs ".")). by right.
Qed.

Lemma LastIndexByte_last x c y : c ∉ y → LastIndexByte (x ++ c :: y) c = Some (length x).
Proof.
  intros Hy. induction x as [|d x IH]; cbn; [|by rewrite IH].
  rewrite (proj2 (LastIndexByte_None y c) Hy). by case_if.
Qed.
Lemma last_piece (u s v t : bytes) : "/"%byte ∉ s → "/"%byte ∉ t →
  u ++ "/"%byte :: s = v ++ "/"%byte :: t → t = s ∧ u = v.
Proof.
  intros Hs Ht E. pose proof (LastIndexByte_last u "/"%byte s Hs) as L. rewrite E, LastIndexByte_last in L by done.
  injection L as L. apply app_inj_1 in E as [-> E]; [|done]. by injection E.
Qed.
(** Without the segments [mid] in the middle no pattern comes up that was not there. *)
Lemma cleans_less A mid B m : plain (A ++ mid ++ B) → "/"%byte ∉ m → B ≠ [] →
  clean m (flat (A ++ mid ++ B)) → clean m (flat (A ++ B)).
Proof.
  intros Hp Hm HB Hc. assert (plain (A ++ B)) as Hp'.
  { apply Forall_app in Hp as [HA Hp]. apply Forall_app in Hp as [_ HB']. by apply Forall_app. }
  apply flat_cleans; [done..|]. intros A0 B0 E. rewrite flat_cleans in Hc by done.
  apply app_eq_inv in E as [(k & -> & E)|(k & -> & ->)].
  - destruct k as [|d k].
    + cbn in E. subst B. apply (Hc (A0 ++ [] ++ mid) B0). by rewrite <- !app_assoc.
    + injection E as -> ->. specialize (Hc A0 (k ++ mid ++ B)). rewrite <- app_assoc in Hc. cbn in Hc.
      specialize (Hc eq_refl). apply app_eq_nil in Hc as [_ Hc]. by apply app_eq_nil in Hc as [_ ->].
  - apply (Hc (A ++ mid ++ k) B0). by rewrite <- !app_assoc.
Qed.
(** The segment before two dots is one that resolving keeps. *)
Lemma before_back A s B : plain (A ++ s :: B) → B ≠ [] → s ≠ bs ".." →
  clean [] (flat (A ++ s :: B)) → clean ["."%byte] (flat (A ++ s :: B)) → kept_seg s.
Proof.
  intros Hp HB Hs H1 H2. rewrite flat_cleans in H1, H2 by (done || set_solver). split_and!; [| |done]; intros ->.
  - by apply HB, (H1 A B).
  - by apply HB, (H2 A B).
Qed.
Lemma back_turn ss n : plain ss → clean [] (flat ss) → clean ["."%byte] (flat ss) →
  Index (flat ss) StrSlashDotDotSlash = Some n →
  ∃ ss', plain ss' ∧ ss' ≠ [] ∧ resolve [] ss' = resolve [] ss ∧ clean [] (flat ss') ∧ clean ["."%byte] (flat ss') ∧
    take (default 0%nat (LastIndexByte (take n (flat ss)) "/"%byte)) (flat ss) ++ drop (n + 3) (flat ss) = flat ss'.
Proof.
  intros Hp H1 H2 E. pose proof (Index_first _ _ _ E) as Hf. apply Index_view in E as (u & r & E & <-).
  change (StrSlashDotDotSlash ++ r) with ("/"%byte :: bs ".." ++ "/"%byte :: r) in E.
  assert (take (length u) (flat ss) = u ∧ drop (length u + 3) (flat ss) = "/"%byte :: r) as [-> ->].
  { rewrite E, take_app_length, (drop_app_add' _ _ 3) by done. done. }
  apply flat_pattern in E as (A & B & -> & -> & EB); [|done|set_solver].
  assert (B ≠ []) as HB by by intros ->.
  destruct A as [|s A _] using rev_ind.
  - exists B. pose proof Hp as Hp'. apply list.Forall_cons in Hp' as [_ Hp'].
    split_and!; [done|done|by destruct B| | |cbn; by rewrite EB].
    + by apply (cleans_less [] [bs ".."] B); [|set_solver|..].
    + by apply (cleans_less [] [bs ".."] B); [|set_solver|..].
  - rewrite <- app_assoc in *. cbn [app] in *.
    assert (s ≠ bs "..") as Hs.
    { intros ->. specialize (Hf (flat A) (bs "../" ++ r)). rewrite flat_app, !flat_cons, EB in Hf. cbn in Hf.
      specialize (Hf eq_refl). rewrite flat_app, length_app in Hf. cbn in Hf. lia. }
    assert (kept_seg s) as Hk by by eapply before_back.
    assert ("/"%byte ∉ s) as Hss. { apply Forall_app in Hp as [_ Hp]. by apply list.Forall_cons in Hp as [? _]. }
    exists (A ++ B). split_and!.
    + apply Forall_app in Hp as [HA Hp]. apply Forall_app. split; [done|]. by do 2 apply list.Forall_cons in Hp as [_ Hp].
    + by destruct A.
    + by rewrite resolve_back.
    + by apply (cleans_less A [s; bs ".."] B); [|set_solver|..].
    + by apply (cleans_less A [s; bs ".."] B); [|set_solver|..].
    + rewrite (flat_app A [s]), flat_cons. change (flat []) with (@nil byte). rewrite app_nil_r, LastIndexByte_last by done.
      change (default 0%nat (Some (length (flat A)))) with (length (flat A)). by rewrite !flat_app, take_app_length, EB.
Qed.
Lemma resolves_dotdot fuel b : clean [] b → clean ["."%byte] b → resolves b (dotdot_loop fuel b).
Proof.
  revert b. induction fuel as [|fuel IH]; intros b H1 H2; [apply resolves_refl|].
  cbn [dotdot_loop]. destruct (Index b StrSlashDotDotSlash) as [n|] eqn:E; [|apply resolves_refl].
  intros ss Hp Hn ->. destruct (back_turn ss n Hp H1 H2 E) as (ss' & P & N & R & C1 & C2 & ->).
  destruct (IH _ C1 C2 ss' P N eq_refl) as (s2 & P2 & N2 & F2 & R2). exists s2. split_and!; [done..|congruence].
Qed.
Lemma resolves_trim b : clean [] b → clean ["."%byte] b → clean ["."%byte; "."%byte] b → resolves b (trim_dotdot b).
Proof.
  intros H1 H2 H3. unfold trim_dotdot. destruct (LastIndex b StrSlashDotDot) as [n|] eqn:E; [|apply resolves_refl].
  destruct (Nat.eqb_spec (n + 3) (length b)) as [Hn|_]; [|apply resolves_refl].
  apply LastIndex_end in E; [|done]. set (u := take n b) in *. clearbody u. subst b. intros ss Hp Hne Ess.
  destruct ss as [|s A _] using rev_ind; [done|]. rewrite flat_app, flat_cons in Ess.
  change (flat []) with (@nil byte) in Ess. rewrite app_nil_r in Ess.
  assert (s = bs ".." ∧ u = flat A) as [-> ->].
  { apply Forall_app in Hp as [_ Hp]. apply list.Forall_cons in Hp as [Hs _].
    destruct (last_piece u (bs "..") (flat A) s) as [-> ->]; [set_solver|done|exact Ess|done]. }
  assert (flat A ++ StrSlashDotDot = flat (A ++ [bs ".."])) as Eb by by rewrite flat_app.
  rewrite Eb in H1, H2, H3. clear Ess Eb Hne.
  destruct A as [|s A _] using rev_ind.
  - exists [[]]. split_and!; [by repeat constructor; set_solver|done|done|done].
  - rewrite <- app_assoc in Hp, H1, H2, H3. cbn [app] in Hp, H1, H2, H3. assert ("/"%byte ∉ s) as Hs.
    { apply Forall_app in Hp as [_ Hp]. by apply list.Forall_cons in Hp as [? _]. }
    rewrite (flat_app A [s]), flat_cons. change (flat []) with (@nil byte). rewrite app_nil_r, LastIndexByte_last by done. exists (A ++ [[]]). split_and!.
    + apply Forall_app in Hp as [HA _]. apply Forall_app. split; [done|]. by repeat constructor; set_solver.
    + by destruct A.
    + rewrite flat_app, <- app_assoc. rewrite take_app_ge by lia.
      replace (length (flat A) + 1 - length (flat A))%nat with 1%nat by lia. done.
    + rewrite <- app_assoc. symmetry. apply resolve_back_end. apply (before_back A s [bs ".."]); [done|done| |done|done].
      intros ->. by pose proof (proj1 (flat_cleans _ (bs "..") Hp ltac:(set_solver)) H3 A [bs ".."] eq_refl).
Qed.

(** The decoded path, with the slash it may lack. *)
Definition decoded_path (src : bytes) : bytes := DecodeArgAppendNoPlus (addLeadingSlash [] src) src.
Lemma normal_kept ss s : plain (ss ++ [s]) → normal (flat (ss ++ [s])) → Forall kept_seg ss ∧ s ≠ bs "..".
Proof.
  intros Hp [_ H1 H2 H3 H4]. rewrite flat_cleans in H1, H2, H3 by (done || set_solver). split.
  - apply list.Forall_forall. intros x (A & B & ->)%list_elem_of_split. rewrite <- app_assoc in *. cbn [app] in *.
    split_and!; intros ->; [by destruct (app_cons_not_nil B [] s); rewrite (H1 A (B ++ [s]) eq_refl)
      |by destruct (app_cons_not_nil B [] s); rewrite (H2 A (B ++ [s]) eq_refl)
      |by destruct (app_cons_not_nil B [] s); rewrite (H3 A (B ++ [s]) eq_refl)].
  - intros ->. apply H4. exists (flat ss). by rewrite flat_app.
Qed.
Lemma normalizePath_resolved src : normalizePath src = flat (resolve [] (segments (tail (decoded_path src)))).
Proof.
  destruct (normalizePath_decoded_rooted src) as [d Hd]. fold (decoded_path src) in Hd.
  destruct (flat_segments d) as [Hf Hp]. rewrite Hd. cbn [tail].
  assert (resolves (decoded_path src) (normalizePath src)) as R.
  { rewrite normalizePath_steps. cbn zeta. fold (decoded_path src).
    pose proof (dedup_loop_clean_top (decoded_path src)) as C1.
    assert (rooted (dedup_loop (length (decoded_path src)) [] (decoded_path src))) as Hr
      by (apply dedup_loop_rooted; rewrite Hd; by eexists).
    eapply resolves_trans; [apply (resolves_dedup (length (decoded_path src)) [])|]. set (b := dedup_loop _ _ _) in *. clearbody b.
    destruct (dot_loop_clean (length b) b) as (H1 & H2 & H3); [done..|]. specialize (H3 Hr).
    eapply resolves_trans; [apply (resolves_dot (length b) b)|]. set (b' := dot_loop _ _) in *. clearbody b'.
    destruct (dotdot_loop_clean (length b') b') as (G1 & G2 & G3 & G4); [done..|].
    eapply resolves_trans; [by apply (resolves_dotdot (length b') b')|]. by apply resolves_trim. }
  destruct (R (segments d)) as (ss & P & N & F & E); [done|by destruct (segments d)|by rewrite Hd|].
  rewrite <- E, F. f_equal. destruct ss as [|s ss _] using rev_ind; [done|].
  pose proof (normalizePath_nf src) as Hn. rewrite F in Hn. destruct (normal_kept ss s P Hn) as [K1 K2].
  by rewrite resolve_kept.
Qed.
End path_facts.

(** ** Splitting a URI *)

(** A component that is written only when it is not empty. *)
Definition opt (c : byte) (s : bytes) : bytes := match s with [] => [] | _ => c :: s end.

Lemma split_path_join p q x :
  "?"%byte ∉ p → "#"%byte ∉ p → "#"%byte ∉ q →
  split_path (p ++ opt "?" q ++ opt "#" x) = (p, q, x).
Proof.
  intros H1 H2 H3. unfold split_path.
  destruct q as [|c q], x as [|d x]; cbn [opt app].
  - rewrite app_nil_r. by rewrite !(proj2 (IndexByte_None _ _)).
  - rewrite (IndexByte_app _ "#"%byte) by done.
    assert (∀ i, IndexByte (p ++ "#"%byte :: d :: x) "?"%byte = Some i → (length p < i)%nat) as Hi.
    { intros i [E Hi]%IndexByte_Some. destruct (Nat.lt_ge_cases (length p) i); [done|exfalso].
      apply (f_equal (.!! i)) in E. rewrite (list_lookup_middle (take _ _)) in E
        by (rewrite length_take, length_app; cbn; lia).
      destruct (decide (i = length p)) as [->|]; [by rewrite list_lookup_middle in E|].
      rewrite lookup_app_l in E by lia. by apply list_elem_of_lookup_2 in E. }
    destruct (IndexByte _ "?"%byte) as [i|] eqn:E.
    + specialize (Hi i eq_refl). apply Nat.ltb_lt in Hi as ->.
      by rewrite take_app_length, drop_S_app.
    + by rewrite take_app_length, drop_S_app.
  - rewrite app_nil_r, (IndexByte_app _ "?"%byte) by done.
    rewrite (proj2 (IndexByte_None _ "#"%byte)) by set_solver.
    by rewrite take_app_length, drop_S_app.
  - rewrite (IndexByte_app _ "?"%byte) by done.
    set (q' := c :: q) in *. change ("?"%byte :: c :: q ++ "#"%byte :: d :: x) with
      (("?"%byte :: q') ++ "#"%byte :: d :: x). rewrite app_assoc.
    rewrite (IndexByte_app _ "#"%byte) by set_solver.
    rewrite length_app. rewrite (proj2 (Nat.ltb_ge _ _)) by lia.
    rewrite <- app_assoc, take_app_length. cbn [app]. rewrite drop_S_app.
    rewrite take_app_length' by (cbn [length]; lia).
    rewrite app_comm_cons, app_assoc, <- (length_app p), drop_S_app. done.
Qed.

Lemma split_path_ok b p q x :
  split_path b = (p, q, x) → "?"%byte ∉ p ∧ "#"%byte ∉ p ∧ "#"%byte ∉ q.
Proof.
  unfold split_path.
  destruct (IndexByte b "?"%byte) as [i|] eqn:Eq; destruct (IndexByte b "#"%byte) as [f|] eqn:Ef.
  - apply IndexByte_Some in Eq as [Eb Hq], Ef as [_ Hf].
    destruct (Nat.ltb_spec f i) as [Hl|Hl]; intros [= <- <- <-].
    + split; [|set_solver]. intros Hin. apply Hq. rewrite <- (take_drop f (take i b)).
      rewrite take_take, Nat.min_l by lia. set_solver.
    + split; [done|]. split.
      * intros Hin. apply Hf. rewrite <- (take_drop i (take f b)).
        rewrite take_take, Nat.min_l by lia. set_solver.
      * intros Hin. apply Hf. rewrite <- (take_drop (S i) (take f b)).
        rewrite skipn_firstn_comm. set_solver.
  - apply IndexByte_Some in Eq as [Eb Hq]. apply IndexByte_None in Ef.
    intros [= <- <- <-]. rewrite Eb in Ef. set_solver.
  - apply IndexByte_Some in Ef as [Eb Hf]. apply IndexByte_None in Eq.
    intros [= <- <- <-]. rewrite Eb in Eq. set_solver.
  - apply IndexByte_None in Eq, Ef. intros [= <- <- <-]. set_solver.
Qed.

Lemma Index_before u r :
  "/"%byte ∉ u → Index (u ++ StrSlashSlash ++ r) StrSlashSlash = Some (length u).
Proof.
  intros Hu. induction u as [|c u IH].
  - done.
  - cbn [app Index length]. rewrite IH by set_solver.
    destruct (HasPrefix (c :: u ++ StrSlashSlash ++ r) StrSlashSlash) eqn:E; [|done].
    apply HasPrefix_spec in E as [z E]. injection E as -> _. set_solver.
Qed.

Lemma splitHostURI_join ha sc ho b :
  "/"%byte ∉ sc → "/"%byte ∉ ho → rooted b →
  splitHostURI ha (sc ++ StrColonSlashSlash ++ ho ++ b) = (sc, ho, b).
Proof.
  intros H1 H2 [r ->]. unfold splitHostURI.
  change (sc ++ StrColonSlashSlash ++ ho ++ "/"%byte :: r) with
    (sc ++ [":"%byte] ++ StrSlashSlash ++ ho ++ "/"%byte :: r). rewrite app_assoc.
  rewrite Index_before by set_solver. rewrite take_app_length.
  rewrite (proj2 (IndexByte_None _ _)) by set_solver.
  rewrite (drop_app_add' _ _ 2) by done. change (drop 2 (StrSlashSlash ++ ?x)) with x.
  rewrite IndexByte_app, take_app_length, drop_app_length by done.
  rewrite length_app, Nat.add_sub, list_lookup_middle, take_app_length by done. done.
Qed.

Lemma StrHTTP_no_slash : "/"%byte ∉ StrHTTP.
Proof. by rewrite <- IndexByte_None. Qed.
#[local] Hint Resolve StrHTTP_no_slash : core.

(** The components of [splitHostURI] hold no slash but in the last. *)
Lemma splitHostURI_ok ha uri sc ho b :
  "/"%byte ∉ ha → splitHostURI ha uri = (sc, ho, b) → "/"%byte ∉ sc ∧ "/"%byte ∉ ho.
Proof.
  intros Hh. unfold splitHostURI.
  destruct (Index uri StrSlashSlash) as [n|]; [|by intros [= <- <- <-]; split].
  destruct (IndexByte (take n uri) "/"%byte) eqn:E; [by intros [= <- <- <-]; split|].
  apply IndexByte_None in E. set (s := match take n uri !! _ with Some c => _ | None => _ end).
  assert ("/"%byte ∉ s) as Hs.
  { subst s. case_match; [|done]. case_match; [|done]. intros Hin. apply E.
    rewrite <- (take_drop (length (take n uri) - 1) (take n uri)). set_solver. }
  clearbody s. set (u := drop (n + 2) uri). clearbody u.
  destruct (IndexByte u "/"%byte) as [i|] eqn:Ei.
  - apply IndexByte_Some in Ei as [_ Ei]. by intros [= <- <- <-].
  - apply IndexByte_None in Ei. destruct (IndexByte u "?"%byte) as [j|] eqn:Ej;
      intros [= <- <- <-]; split; try done.
    intros Hin. apply Ei. rewrite <- (take_drop j u). set_solver.
Qed.

Lemma ToLowerTable_slash c : ToLowerTable c = "/"%byte → c = "/"%byte.
Proof. revert c. refine (byte_forall_dec _ _). vm_compute. reflexivity. Qed.
Lemma ToLowerTable_idem c : ToLowerTable (ToLowerTable c) = ToLowerTable c.
Proof. revert c. refine (byte_forall_dec _ _). vm_compute. reflexivity. Qed.

Lemma LowercaseBytes_slash b : "/"%byte ∉ b → "/"%byte ∉ LowercaseBytes b.
Proof. intros H (c & E & Hc)%list_elem_of_fmap. symmetry in E. apply ToLowerTable_slash in E as ->. done. Qed.
Lemma LowercaseBytes_idem b : LowercaseBytes (LowercaseBytes b) = LowercaseBytes b.
Proof.
  unfold LowercaseBytes. rewrite <- list_fmap_compose. apply list_fmap_ext. intros. apply ToLowerTable_idem.
Qed.

Lemma quoted_char c x :
  x ∈ (if path_plain c then [c] else percent c) → x ≠ "?"%byte ∧ x ≠ "#"%byte.
Proof.
  assert (Forall (λ x, x ≠ "?"%byte ∧ x ≠ "#"%byte)
    (if path_plain c then [c] else percent c)) as HF.
  { revert c. refine (byte_forall_dec _ _). vm_compute. reflexivity. }
  rewrite list.Forall_forall in HF. intros Hx. by apply HF.
Qed.

Lemma AppendQuotedPath_delims p x :
  x ∈ AppendQuotedPath [] p → x ≠ "?"%byte ∧ x ≠ "#"%byte.
Proof.
  rewrite AppendQuotedPath_eq. cbn [app]. intros Hx. apply list_elem_of_In, in_concat in Hx as (l & Hl & Hx). apply list_elem_of_In in Hl, Hx.
  apply list_elem_of_fmap in Hl as (c & -> & _). by eapply quoted_char.
Qed.

Lemma AppendQuotedPath_rooted p : rooted p → rooted (AppendQuotedPath [] p).
Proof. intros [r ->]. rewrite AppendQuotedPath_eq. by eexists. Qed.

(** What a parsed URI satisfies. *)
Record wf (u : URI) : Prop := {
  wf_scheme : "/"%byte ∉ scheme u; wf_scheme_lower : LowercaseBytes (scheme u) = scheme u;
  wf_host : "/"%byte ∉ host u; wf_host_lower : LowercaseBytes (host u) = host u;
  wf_path : normal (path u); wf_query : "#"%byte ∉ queryString u;
  wf_args : live (args (queryArgs u)) = []; wf_h : h u = false
}.

Lemma Parse_wf ha uri u : "/"%byte ∉ ha → wf (Parse ha uri u).
Proof.
  intros Hh. unfold Parse, parse.
  destruct (splitHostURI ha uri) as [[sc ho] b] eqn:Es.
  destruct (splitHostURI_ok _ _ _ _ _ Hh Es) as [H1 H2].
  destruct (split_path b) as [[p q] x] eqn:Ep. apply split_path_ok in Ep as (_ & _ & Hq).
  constructor; cbn; auto using LowercaseBytes_slash, LowercaseBytes_idem, normalizePath_nf.
Qed.

Lemma zlen_posb {A} (l : list A) : (0 <? zlen l) = match l with [] => false | _ => true end.
Proof. by destruct l. Qed.

Lemma RequestURI_eq u :
  live (args (queryArgs u)) = [] →
  (RequestURI u).1 = AppendQuotedPath [] (Path u) ++ opt "?" (queryString u) ++ opt "#" (hash u).
Proof.
  intros Ha. unfold RequestURI. rewrite Ha. cbn [length Nat.ltb Nat.leb fst].
  rewrite !zlen_posb.
  destruct (queryString u), (hash u); cbn; rewrite ?app_nil_r, <- ?app_assoc; done.
Qed.

Lemma FullURI_eq hh u :
  wf u → (FullURI hh u).1 = Scheme u ++ StrColonSlashSlash ++ host u ++ (RequestURI u).1.
Proof.
  intros Hu. unfold FullURI, AppendBytes, appendSchemeHost, Host.
  rewrite (wf_h _ Hu), andb_false_r. destruct (RequestURI u). cbn. by rewrite <- !app_assoc.
Qed.

Lemma Parse_FullURI ha hh u v :
  wf u → let w := Parse ha (FullURI hh u).1 v in
  scheme w = Scheme u ∧ host w = host u ∧ path w = path u ∧
  queryString w = queryString u ∧ hash w = hash u.
Proof.
  intros Hu. rewrite FullURI_eq, RequestURI_eq by (done || apply Hu).
  assert (Path u = path u) as ->.
  { unfold Path. destruct (nf_rooted _ (wf_path _ Hu)) as [r ->]. done. }
  unfold Parse, parse. rewrite splitHostURI_join.
  - rewrite split_path_join.
    + cbn. rewrite normalizePath_id by apply Hu. rewrite (wf_host_lower _ Hu). repeat split.
      unfold Scheme. case_match; [done|]. apply Hu.
    + by intros [? _]%AppendQuotedPath_delims.
    + by intros [_ ?]%AppendQuotedPath_delims.
    + apply Hu.
  - unfold Scheme. case_match; [done|apply Hu].
  - apply Hu.
  - destruct (AppendQuotedPath_rooted _ (nf_rooted _ (wf_path _ Hu))) as [r ->]. by eexists.
Qed.

(** ** Properties *)

(** C38: what [normalizePath] gives for every input, percent-encoded or not.  The decoded
    path is resolved segment by segment: of those that a slash follows, the empty ones and
    the dots are left out, and two dots take away the segment before, or nothing at the
    root.  The last segment stays as it is, also when it is empty or a single dot ([/foo/.]
    keeps its dot), but for two dots, which take away the segment before and leave a slash.
    So the result starts with a slash, holds none of [//], [/./] and [/../] and does not
    end in [/..]: no request path climbs above the root.  Quoted again, the result
    normalizes to itself; without the quoting an escape that was itself escaped, as in
    [/%2525], is decoded once more. *)
Theorem normalizePath_safe src :
  normalizePath src =
    path_facts.flat (path_facts.resolve [] (path_facts.segments (tail (path_facts.decoded_path src)))) ∧
  normal (normalizePath src) ∧
  normalizePath (AppendQuotedPath [] (normalizePath src)) = normalizePath src.
Proof.
  split; [apply path_facts.normalizePath_resolved|]. split; [apply normalizePath_nf|apply normalizePath_id, normalizePath_nf].
Qed.
(** A trailing dot and a trailing slash stay; an escape of an escape is decoded once. *)
Example normalizePath_ends :
  normalizePath (bs "/a//./b/../c/.") = bs "/a/c/." ∧ normalizePath (bs "/../x/") = bs "/x/" ∧
  normalizePath (bs "/a/b/..") = bs "/a/" ∧ normalizePath (bs "/%2525") = bs "/%25".
Proof. vm_compute. repeat split. Qed.

(** Printing a parsed URI with [FullURI] and parsing it again gives the same
    scheme, host, path, query string and fragment, whatever was parsed, for a
    default host without a slash. *)
Theorem uri_roundtrip ha uri u ha' hh v :
  "/"%byte ∉ ha →
  let x := Parse ha uri u in
  let y := Parse ha' (FullURI hh x).1 v in
  scheme y = Scheme x ∧ host y = host x ∧ path y = path x ∧
  queryString y = queryString x ∧ hash y = hash x.
Proof. intros Hh. by apply Parse_FullURI, Parse_wf. Qed.

Definition uri0 : URI :=
  MkURI [] [] [] [] [] [] (MkArgs (ArgsSlice [] []) []) false [] [] false.

Lemma uri_roundtrip_witness :
  path (Parse [] (bs "HTTP://Example.com/a/../b//c%20d?x=1#f") uri0) = bs "/b/c d" ∧
  path (Parse [] (FullURI [] (Parse [] (bs "HTTP://Example.com/a/../b//c%20d?x=1#f") uri0)).1 uri0)
    = bs "/b/c d".
Proof.
  split; [vm_compute; reflexivity|].
  destruct (uri_roundtrip [] (bs "HTTP://Example.com/a/../b//c%20d?x=1#f") uri0 [] [] uri0)
    as (_ & _ & -> & _); [set_solver|]. vm_compute. reflexivity.
Defined.

(** Once the query arguments have been parsed and are not empty,
    [SetQueryString] has no effect on what [RequestURI] prints, although
    [QueryArgs] answers from the new query string. *)
Theorem setquerystring_ignored q u :
  live (args (queryArgs u)) ≠ [] →
  (RequestURI (SetQueryString q u)).1 = (RequestURI u).1.
Proof.
  intros Ha. unfold RequestURI. cbn. by destruct (live (args (queryArgs u))).
Qed.

Definition uri1 : URI := default uri0 (snd <$> QueryArgs (Parse [] (bs "/p?a=1") uri0)).

Lemma setquerystring_ignored_witness :
  (RequestURI (SetQueryString (bs "b=2") uri1)).1 = bs "/p?a=1".
Proof. rewrite setquerystring_ignored; [vm_compute; reflexivity|vm_compute; discriminate]. Defined.
