(* ===== verification/HttpCookie.v ===== *)
(** * Cookies (src/pkg/protocol/http/v1/cookie.go)

    The Set-Cookie value with its attributes, and the scanner that both it and
    the request header's Cookie line are parsed with.  Times are seconds of the
    Unix epoch; the formatting and parsing of the RFC 1123 layout is the
    interface [TimeFormat]. *)

From S2P Require Import Prelude BytesConv Args HttpUri.

(** What the code calls of the time package: [AppendFormat] with the layout
    RFC1123 of a time in UTC, and [ParseInLocation] with that layout and UTC. *)
Class TimeFormat := {
  FormatRFC1123 : Z → bytes;
  ParseRFC1123 : bytes → option Z
}.

(** [time.Time{}], the first of January of year 1. *)
Definition zeroTime : Z := -62135596800.
Definition IsZero (t : Z) : bool := t =? zeroTime.

Definition AppendHTTPDate `{TimeFormat} (dst : bytes) (date : Z) : bytes :=
  let dst := dst ++ FormatRFC1123 date in
  take (length dst - 3) dst ++ bs "GMT".

Definition StrCookieExpires : bytes := bs "expires".
Definition StrCookieDomain : bytes := bs "domain".
Definition StrCookiePath : bytes := bs "path".
Definition StrCookieHTTPOnly : bytes := bs "HttpOnly".
Definition StrCookieSecure : bytes := bs "secure".

(** ** The scanner *)

Definition dquote : byte := x22.

Fixpoint trim_left (src : bytes) : bytes :=
  match src with
  | c :: src' => if c =b " "%byte then trim_left src' else src
  | [] => []
  end.
Fixpoint trim_right (src : bytes) : bytes :=
  match src with
  | [] => []
  | c :: src' =>
      match trim_right src' with
      | [] => if c =b " "%byte then [] else [c]
      | r => c :: r
      end
  end.

Definition decodeCookieArg (dst src : bytes) (skipQuotes : bool) : bytes :=
  let src := trim_right (trim_left src) in
  if skipQuotes then
    if (1 <? zlen src) && bool_decide (head src = Some dquote)
       && bool_decide (src !! (length src - 1)%nat = Some dquote)
    then take (length src - 2) (drop 1 src) else src
  else src.

(** The loop over [s.b]: [rest] is what is left of it at index [i]. *)
Fixpoint scan_loop (b rest : bytes) (i k : nat) (isKey : bool) (kv : ArgsKV) : ArgsKV * bytes :=
  match rest with
  | [] =>
      (KV (if isKey then [] else Key kv) (decodeCookieArg (Value kv) (drop k b) true),
       drop (length b) b)
  | c :: rest =>
      if c =b "="%byte then
        if isKey
        then scan_loop b rest (S i) (i + 1) false
               (KV (decodeCookieArg (Key kv) (take i b) false) (Value kv))
        else scan_loop b rest (S i) k isKey kv
      else if c =b ";"%byte then
        (KV (if isKey then [] else Key kv)
            (decodeCookieArg (Value kv) (take (i - k) (drop k b)) true), drop (i + 1) b)
      else scan_loop b rest (S i) k isKey kv
  end.

(** [cookieScanner.next]: [None] at the end of the input. *)
Definition cookie_next (b : bytes) (kv : ArgsKV) : option (ArgsKV * bytes) :=
  if zlen b =? 0 then None else Some (scan_loop b b 0 0 true kv).

(** ** Cookies of a request *)

Fixpoint parseRequestCookies_loop (fuel : nat) (cookies : argsSlice) (b : bytes) :
    option argsSlice :=
  match fuel with
  | O => None
  | S fuel =>
      match cookie_next b (last_kv cookies) with
      | None => Some cookies
      | Some (kv, b') =>
          let cookies := set_last kv cookies in
          parseRequestCookies_loop fuel
            (if (0 <? zlen (Key kv)) || (0 <? zlen (Value kv)) then AllocArg cookies else cookies) b'
      end
  end.
(** [None] when the fuel runs out; every call of [cookie_next] shortens the input. *)
Definition parseRequestCookies (cookies : argsSlice) (src : bytes) : option argsSlice :=
  cookies ← parseRequestCookies_loop (S (length src)) (AllocArg cookies) src;
  Some (ReleaseArg cookies).

Fixpoint appendRequestCookieBytes (dst : bytes) (cookies : list ArgsKV) : bytes :=
  match cookies with
  | [] => dst
  | kv :: cookies =>
      let dst := if 0 <? zlen (Key kv) then dst ++ Key kv ++ ["="%byte] else dst in
      let dst := dst ++ Value kv in
      appendRequestCookieBytes
        (match cookies with [] => dst | _ => dst ++ [";"%byte; " "%byte] end) cookies
  end.

Definition getCookieKey (dst src : bytes) : bytes :=
  let src := match IndexByte src "="%byte with Some n => take n src | None => src end in
  decodeCookieArg dst src false.

(** ** Cookies of a response *)

Module Cookie.

Record t := Mk {
  key : bytes; value : bytes; expire : Z; domain : bytes; path : bytes;
  httpOnly : bool; secure : bool; bufKV : ArgsKV; buf : bytes
}.

(** What a client can observe, without the scratch buffers. *)
Record eqv (c d : t) : Prop := {
  eqv_key : key c = key d; eqv_value : value c = value d; eqv_expire : expire c = expire d;
  eqv_domain : domain c = domain d; eqv_path : path c = path d;
  eqv_httpOnly : httpOnly c = httpOnly d; eqv_secure : secure c = secure d
}.

Definition Reset (c : t) : t := Mk [] [] zeroTime [] [] false false (bufKV c) (buf c).

Definition CopyTo (c src : t) : t :=
  Mk (key src) (value src) (expire src) (domain src) (path src) (httpOnly src) (secure src)
    (bufKV (Reset c)) (buf (Reset c)).

Definition HTTPOnly (c : t) : bool := httpOnly c.
Definition Secure (c : t) : bool := secure c.
Definition Path (c : t) : bytes := path c.
Definition Domain (c : t) : bytes := domain c.
Definition Expire (c : t) : Z := if IsZero (expire c) then zeroTime else expire c.
Definition Value (c : t) : bytes := value c.
Definition Key (c : t) : bytes := key c.

Definition SetHTTPOnly (b : bool) (c : t) : t :=
  Mk (key c) (value c) (expire c) (domain c) (path c) b (secure c) (bufKV c) (buf c).
Definition SetSecure (b : bool) (c : t) : t :=
  Mk (key c) (value c) (expire c) (domain c) (path c) (httpOnly c) b (bufKV c) (buf c).
Definition SetPath (p : bytes) (c : t) : t :=
  Mk (key c) (value c) (expire c) (domain c) (normalizePath p) (httpOnly c) (secure c) (bufKV c) p.
Definition SetDomain (d : bytes) (c : t) : t :=
  Mk (key c) (value c) (expire c) d (path c) (httpOnly c) (secure c) (bufKV c) (buf c).
Definition SetExpire (e : Z) (c : t) : t :=
  Mk (key c) (value c) e (domain c) (path c) (httpOnly c) (secure c) (bufKV c) (buf c).
Definition SetValue (v : bytes) (c : t) : t :=
  Mk (key c) v (expire c) (domain c) (path c) (httpOnly c) (secure c) (bufKV c) (buf c).
Definition SetKey (k : bytes) (c : t) : t :=
  Mk k (value c) (expire c) (domain c) (path c) (httpOnly c) (secure c) (bufKV c) (buf c).
(** The source's assignment of a path without normalization, of a buffer. *)
Definition set_path_raw (p : bytes) (c : t) : t :=
  Mk (key c) (value c) (expire c) (domain c) p (httpOnly c) (secure c) (bufKV c) (buf c).
Definition set_bufKV (kv : ArgsKV) (c : t) : t :=
  Mk (key c) (value c) (expire c) (domain c) (path c) (httpOnly c) (secure c) kv (buf c).
Definition set_buf (b : bytes) (c : t) : t :=
  Mk (key c) (value c) (expire c) (domain c) (path c) (httpOnly c) (secure c) (bufKV c) b.

Definition appendCookiePart (dst key value : bytes) : bytes :=
  dst ++ [";"%byte; " "%byte] ++ key ++ ["="%byte] ++ value.

Section times.
Context `{TimeFormat}.

Definition AppendBytes (dst : bytes) (c : t) : bytes * t :=
  let dst := if 0 <? zlen (key c) then dst ++ key c ++ ["="%byte] else dst in
  let dst := dst ++ value c in
  let '(dst, c) :=
    if negb (IsZero (expire c)) then
      let v := AppendHTTPDate [] (expire c) in
      (dst ++ [";"%byte; " "%byte] ++ StrCookieExpires ++ ["="%byte] ++ v,
       set_bufKV (KV (Args.Key (bufKV c)) v) c)
    else (dst, c) in
  let dst := if 0 <? zlen (domain c) then appendCookiePart dst StrCookieDomain (domain c) else dst in
  let dst := if 0 <? zlen (path c) then appendCookiePart dst StrCookiePath (path c) else dst in
  let dst := if httpOnly c then dst ++ [";"%byte; " "%byte] ++ StrCookieHTTPOnly else dst in
  let dst := if secure c then dst ++ [";"%byte; " "%byte] ++ StrCookieSecure else dst in
  (dst, c).

(** [Cookie()] *)
Definition Cookie_ (c : t) : bytes * t :=
  let '(b, c) := AppendBytes [] c in (b, set_buf b c).

Inductive cookieError := errNoCookies | errTime.

(** The switch on one attribute; [None] when its time does not parse. *)
Definition attr (kv : ArgsKV) (c : t) : option t :=
  let k := Args.Key kv in
  let v := Args.Value kv in
  if (zlen k =? 0) && (zlen v =? 0) then Some c
  else if k =b StrCookieExpires then
    exptime ← ParseRFC1123 v; Some (SetExpire exptime c)
  else if k =b StrCookieDomain then Some (SetDomain v c)
  else if k =b StrCookiePath then Some (set_path_raw v c)
  else if k =b [] then
    if v =b StrCookieHTTPOnly then Some (SetHTTPOnly true c)
    else if v =b StrCookieSecure then Some (SetSecure true c)
    else Some c
  else Some c.

Fixpoint ParseBytes_attrs (fuel : nat) (b : bytes) (c : t) : option (option cookieError * t) :=
  match fuel with
  | O => None
  | S fuel =>
      match cookie_next b (bufKV c) with
      | None => Some (None, c)
      | Some (kv, b) =>
          let c := set_bufKV kv c in
          match attr kv c with
          | Some c => ParseBytes_attrs fuel b c
          | None => Some (Some errTime, c)
          end
      end
  end.
(** [None] when the fuel runs out. *)
Definition ParseBytes (src : bytes) (c : t) : option (option cookieError * t) :=
  let c := Reset c in
  match cookie_next src (bufKV c) with
  | None => Some (Some errNoCookies, c)
  | Some (kv, b) =>
      ParseBytes_attrs (S (length b)) b
        (SetValue (Args.Value kv) (SetKey (Args.Key kv) (set_bufKV kv c)))
  end.

Definition Parse (src : bytes) (c : t) : option (option cookieError * t) :=
  ParseBytes src (set_buf src c).

End times.

End Cookie.

(** ** The scanner, field by field *)

Definition field_of (p : bytes) : ArgsKV :=
  match IndexByte p "="%byte with
  | None => KV [] (decodeCookieArg [] p true)
  | Some i => KV (decodeCookieArg [] (take i p) false) (decodeCookieArg [] (drop (S i) p) true)
  end.

Definition cookie_pairs (b : bytes) : list ArgsKV :=
  filter (λ kv, kv_empty kv = false) (field_of <$> split_on ";"%byte b).

Definition ends (c : byte) (t : bytes) : Prop := t = [] ∨ ∃ r, t = c :: r.

Lemma field_of_key p : "="%byte ∉ p → field_of p = KV [] (decodeCookieArg [] p true).
Proof. intros H. unfold field_of. by rewrite (proj2 (IndexByte_None _ _) H). Qed.

Lemma field_of_pair p q :
  "="%byte ∉ p →
  field_of (p ++ "="%byte :: q) = KV (decodeCookieArg [] p false) (decodeCookieArg [] q true).
Proof.
  intros H. unfold field_of. rewrite IndexByte_app by done.
  by rewrite take_app_length, drop_S_app.
Qed.

(** The window [b[k:i]] when [k] lies in what has been read. *)
Lemma window {A} (pre t : list A) k :
  (k ≤ length pre)%nat → take (length pre - k) (drop k (pre ++ t)) = drop k pre.
Proof.
  intros Hk. rewrite drop_app_le by done. rewrite take_app_le by (rewrite length_drop; lia).
  rewrite firstn_all2; [done|]. rewrite length_drop. lia.
Qed.

Lemma scan_loop_value b pre q t k kv :
  b = pre ++ q ++ t → (k ≤ length pre)%nat → (";"%byte ∉ q) → ends ";" t →
  scan_loop b (q ++ t) (length pre) k false kv =
    (KV (Args.Key kv) (decodeCookieArg [] (drop k (pre ++ q)) true), tail t).
Proof.
  revert pre. induction q as [|c q IH]; intros pre Hb Hk Hq Ht; cbn [app] in *.
  - rewrite app_nil_r. destruct Ht as [->|[r ->]]; cbn [scan_loop tail].
    + rewrite app_nil_r in Hb. subst. by rewrite drop_all.
    + subst. rewrite (bool_decide_eq_false_2 (";"%byte = "="%byte)) by done.
      rewrite bool_decide_eq_true_2 by done. by rewrite window, Nat.add_1_r, drop_S_app.
  - specialize (IH (pre ++ [c])). rewrite length_app, <- !app_assoc in IH.
    cbn [length app] in IH. rewrite Nat.add_1_r in IH. cbn [scan_loop].
    rewrite (bool_decide_eq_false_2 (c = ";"%byte)) by set_solver.
    destruct (c =b "="%byte); apply IH; (done || lia || set_solver).
Qed.

Lemma scan_loop_key b pre q t kv :
  b = pre ++ q ++ t → ("="%byte ∉ pre) → (";"%byte ∉ q) → ends ";" t →
  scan_loop b (q ++ t) (length pre) 0 true kv = (field_of (pre ++ q), tail t).
Proof.
  revert pre kv. induction q as [|c q IH]; intros pre kv Hb He Hq Ht; cbn [app] in *.
  - rewrite app_nil_r, field_of_key by done.
    destruct Ht as [->|[r ->]]; cbn [scan_loop tail]; subst.
    + by rewrite app_nil_r, drop_all, drop_0.
    + rewrite (bool_decide_eq_false_2 (";"%byte = "="%byte)) by done.
      rewrite bool_decide_eq_true_2 by done.
      by rewrite Nat.sub_0_r, drop_0, take_app_length, Nat.add_1_r, drop_S_app.
  - cbn [scan_loop]. rewrite (bool_decide_eq_false_2 (c = ";"%byte)) by set_solver.
    destruct (c =b "="%byte) eqn:Ec; bdec.
    + subst c. rewrite field_of_pair by done.
      pose proof (scan_loop_value b (pre ++ ["="%byte]) q t (S (length pre))
        (KV (decodeCookieArg (Args.Key kv) (take (length pre) b) false) (Args.Value kv))) as Hn.
      rewrite length_app, <- app_assoc in Hn. cbn [length app] in Hn.
      rewrite Nat.add_1_r in *. rewrite Hn; [|done|lia|set_solver|done]. cbn [Args.Key]. subst b.
      rewrite take_app_length, <- app_assoc. cbn [app]. by rewrite drop_S_app.
    + specialize (IH (pre ++ [c]) kv). rewrite length_app, <- !app_assoc in IH.
      cbn [length app] in IH. rewrite Nat.add_1_r in IH.
      apply IH; [done|set_solver|set_solver|done].
Qed.

Lemma cookie_next_spec p t kv :
  p ++ t ≠ [] → (";"%byte ∉ p) → ends ";" t →
  cookie_next (p ++ t) kv = Some (field_of p, tail t).
Proof.
  intros Hne Hp Ht. unfold cookie_next. rewrite (proj2 (Z.eqb_neq _ _)) by (by rewrite zlen_0).
  f_equal. apply (scan_loop_key (p ++ t) [] p t kv); [done|set_solver|done|done].
Qed.

(** Each field consumed shortens the input. *)
Lemma field_shorter (p t : bytes) :
  p ++ t ≠ [] → ends ";" t → (length (tail t) < length (p ++ t))%nat.
Proof.
  intros Hne [->|[r ->]]; rewrite length_app; cbn; [|lia]. destruct p; [done|cbn; lia].
Qed.

Lemma cookie_pairs_step p t :
  (";"%byte ∉ p) → ends ";" t →
  cookie_pairs (p ++ t) =
    (if kv_empty (field_of p) then [] else [field_of p]) ++ cookie_pairs (tail t).
Proof.
  intros Hp Ht. destruct Ht as [->|[r ->]]; cbn [tail].
  - rewrite app_nil_r. change (cookie_pairs []) with (@nil ArgsKV). rewrite app_nil_r.
    unfold cookie_pairs. rewrite split_on_nil, fmap_cons by done.
    destruct (kv_empty (field_of p)) eqn:E.
    + by rewrite filter_cons_False by congruence.
    + by rewrite filter_cons_True by done.
  - unfold cookie_pairs. rewrite split_on_cons, fmap_cons by done.
    destruct (kv_empty (field_of p)) eqn:E.
    + by rewrite filter_cons_False by congruence.
    + by rewrite filter_cons_True by done.
Qed.

Lemma kv_empty_len kv : (0 <? zlen (Key kv)) || (0 <? zlen (Value kv)) = negb (kv_empty kv).
Proof. destruct kv as [[|] [|]]; done. Qed.

Lemma parseRequestCookies_loop_spec fuel l kv sp b :
  (length b < fuel)%nat →
  ∃ kv' sp', parseRequestCookies_loop fuel (ArgsSlice (l ++ [kv]) sp) b =
    Some (ArgsSlice (l ++ cookie_pairs b ++ [kv']) sp').
Proof.
  revert l kv sp b. induction fuel as [|fuel IH]; intros l kv sp b Hf; [lia|].
  cbn [parseRequestCookies_loop]. destruct (decide (b = [])) as [->|Hne].
  { exists kv, sp. done. }
  destruct (split_at ";"%byte b) as (p & t & -> & Hp & Ht).
  unfold last_kv. cbn [live]. rewrite last_last, (cookie_next_spec p t kv Hne Hp Ht).
  unfold set_last. cbn [live spare]. rewrite removelast_last, cookie_pairs_step, kv_empty_len by done.
  pose proof (field_shorter p t Hne Ht) as Hs.
  destruct (kv_empty (field_of p)); cbn [negb]; [apply IH; lia|].
  destruct (AllocArg_live (ArgsSlice (l ++ [field_of p]) sp)) as (kv1 & sp1 & ->). cbn [live].
  destruct (IH (l ++ [field_of p]) kv1 sp1 (tail t) ltac:(lia)) as (kv2 & sp2 & ->).
  exists kv2, sp2. by rewrite <- !app_assoc.
Qed.

Lemma parseRequestCookies_spec cookies src :
  ∃ h, parseRequestCookies cookies src = Some h ∧ live h = live cookies ++ cookie_pairs src.
Proof.
  unfold parseRequestCookies. destruct (AllocArg_live cookies) as (kv & sp & ->).
  destruct (parseRequestCookies_loop_spec (S (length src)) (live cookies) kv sp src ltac:(lia))
    as (kv' & sp' & E).
  rewrite E. cbn [mbind option_bind]. eexists. split; [done|].
  cbn. rewrite app_assoc. apply removelast_last.
Qed.

(** ** Printing *)

Definition kv_text (kv : ArgsKV) : bytes :=
  (if 0 <? zlen (Key kv) then Key kv ++ ["="%byte] else []) ++ Value kv.

Lemma kv_text_key k v : k ≠ [] → kv_text (KV k v) = k ++ "="%byte :: v.
Proof.
  intros Hk. unfold kv_text. cbn [Key Value].
  assert (0 <? zlen k = true) as -> by (by destruct k). by rewrite <- app_assoc.
Qed.
Lemma kv_text_value v : kv_text (KV [] v) = v.
Proof. done. Qed.

(** Keys and values that the syntax can carry: no delimiter in them, no blank at
    their ends and no pair of quotes around the value. *)
Record text_ok (kv : ArgsKV) : Prop := {
  ok_key_semi : ";"%byte ∉ Key kv; ok_value_semi : ";"%byte ∉ Value kv;
  ok_key_eq : "="%byte ∉ Key kv; ok_value_eq : Key kv = [] → "="%byte ∉ Value kv;
  ok_key_trim : decodeCookieArg [] (Key kv) false = Key kv;
  ok_value_trim : decodeCookieArg [] (Value kv) true = Value kv
}.

(** Optional blank before a field. *)
Definition blank (s : bytes) : Prop := s = [] ∨ s = [" "%byte].

Lemma decodeCookieArg_blank d s x q : blank s → decodeCookieArg d (s ++ x) q = decodeCookieArg d x q.
Proof. by intros [->| ->]. Qed.

Lemma field_of_text s kv : blank s → text_ok kv → field_of (s ++ kv_text kv) = kv.
Proof.
  intros Hs Ht. assert ("="%byte ∉ s) as Hse by (destruct Hs as [->| ->]; set_solver).
  unfold kv_text. destruct (0 <? zlen (Key kv)) eqn:E; bdec.
  - rewrite <- app_assoc, app_assoc. cbn [app].
    rewrite field_of_pair by (pose proof (ok_key_eq _ Ht); set_solver).
    rewrite decodeCookieArg_blank, ok_key_trim, ok_value_trim by done. by destruct kv.
  - assert (Key kv = []) as Hk by (apply zlen_0; pose proof (zlen_nonneg (Key kv)); lia).
    cbn [app]. rewrite field_of_key by (pose proof (ok_value_eq _ Ht Hk); set_solver).
    rewrite decodeCookieArg_blank, ok_value_trim by done. destruct kv. cbn in *. by subst.
Qed.

Lemma kv_text_semi s kv : blank s → text_ok kv → ";"%byte ∉ s ++ kv_text kv.
Proof.
  intros Hs Ht. pose proof (ok_key_semi _ Ht). pose proof (ok_value_semi _ Ht).
  unfold kv_text. destruct Hs as [->| ->]; case_match; set_solver.
Qed.

Lemma appendRequestCookieBytes_dst dst l :
  appendRequestCookieBytes dst l = dst ++ appendRequestCookieBytes [] l.
Proof.
  revert dst. induction l as [|kv l IH]; intros dst; cbn [appendRequestCookieBytes].
  { by rewrite app_nil_r. }
  rewrite IH. symmetry. rewrite IH. rewrite app_assoc. f_equal.
  destruct (0 <? zlen (Key kv)), l; cbn; by rewrite <- ?app_assoc.
Qed.

Lemma appendRequestCookieBytes_cons kv l :
  appendRequestCookieBytes [] (kv :: l) =
  kv_text kv ++ match l with
                | [] => []
                | _ => ";"%byte :: " "%byte :: appendRequestCookieBytes [] l
                end.
Proof.
  cbn [appendRequestCookieBytes]. rewrite appendRequestCookieBytes_dst. unfold kv_text.
  destruct (0 <? zlen (Key kv)), l; cbn; by rewrite <- ?app_assoc, ?app_nil_r.
Qed.

Lemma cookie_pairs_text s l :
  blank s → Forall (λ kv, text_ok kv ∧ kv_empty kv = false) l →
  cookie_pairs (s ++ appendRequestCookieBytes [] l) = l.
Proof.
  intros Hs Hl. revert s Hs. induction Hl as [|kv l [Hkv He] _ IH]; intros s Hs.
  { by destruct Hs as [->| ->]. }
  rewrite appendRequestCookieBytes_cons, app_assoc.
  rewrite cookie_pairs_step by (by apply kv_text_semi || (destruct l; [by left|right; eauto])).
  rewrite field_of_text, He by done. destruct l; [done|]. cbn [tail app]. f_equal.
  apply (IH [" "%byte]). by right.
Qed.

Section set_cookie.
Context `{TimeFormat}.
Import Cookie.

Definition date (e : Z) : bytes := AppendHTTPDate [] e.

(** The attributes in the order they are printed in. *)
Definition attrs (c : Cookie.t) : list ArgsKV :=
  (if negb (IsZero (expire c)) then [KV StrCookieExpires (date (expire c))] else []) ++
  (if 0 <? zlen (domain c) then [KV StrCookieDomain (domain c)] else []) ++
  (if 0 <? zlen (path c) then [KV StrCookiePath (path c)] else []) ++
  (if httpOnly c then [KV [] StrCookieHTTPOnly] else []) ++
  (if secure c then [KV [] StrCookieSecure] else []).

Fixpoint attrs_text (l : list ArgsKV) : bytes :=
  match l with
  | [] => []
  | kv :: l => ";"%byte :: " "%byte :: kv_text kv ++ attrs_text l
  end.

Lemma attrs_text_app l l' : attrs_text (l ++ l') = attrs_text l ++ attrs_text l'.
Proof. induction l as [|kv l IH]; cbn; [done|]. by rewrite IH, <- app_assoc. Qed.

Lemma AppendBytes_text c :
  (Cookie.AppendBytes [] c).1 = kv_text (KV (key c) (value c)) ++ attrs_text (attrs c).
Proof.
  unfold Cookie.AppendBytes, attrs. rewrite !attrs_text_app.
  destruct c as [k v e d p ho se kv bf]; cbn [key value expire domain path httpOnly secure].
  assert ((if 0 <? zlen k then [] ++ k ++ ["="%byte] else []) ++ v = kv_text (KV k v)) as -> by done.
  destruct (IsZero e); cbn [negb expire domain path httpOnly secure set_bufKV];
    destruct (0 <? zlen d), (0 <? zlen p), ho, se; cbn [attrs_text fst];
    unfold appendCookiePart; rewrite ?kv_text_key, ?kv_text_value by done;
    repeat rewrite <- app_assoc || rewrite app_nil_r || cbn [app]; done.
Qed.

(** The attributes read one after the other. *)
Fixpoint run_attrs (l : list ArgsKV) (c : Cookie.t) : option cookieError * Cookie.t :=
  match l with
  | [] => (None, c)
  | kv :: l =>
      let c := set_bufKV kv c in
      match attr kv c with
      | Some c => run_attrs l c
      | None => (Some errTime, c)
      end
  end.

Lemma ParseBytes_attrs_text fuel l c :
  Forall text_ok l → (length (tail (attrs_text l)) < fuel)%nat →
  ParseBytes_attrs fuel (tail (attrs_text l)) c = Some (run_attrs l c).
Proof.
  intros Hl. revert fuel c. induction Hl as [|kv l Hkv _ IH]; intros fuel c Hf.
  { by destruct fuel; [cbn in Hf; lia|]. }
  destruct fuel as [|fuel]; [lia|]. cbn [attrs_text tail ParseBytes_attrs run_attrs].
  change (" "%byte :: kv_text kv ++ attrs_text l) with ([" "%byte] ++ kv_text kv ++ attrs_text l).
  rewrite app_assoc, cookie_next_spec.
  - rewrite field_of_text by (done || by right).
    destruct (attr kv (set_bufKV kv c)); [|done].
    apply IH. cbn [attrs_text tail length] in Hf. rewrite length_app in Hf.
    destruct (attrs_text l); cbn in *; lia.
  - done.
  - by apply kv_text_semi; [right|].
  - destruct l; [by left|right; cbn; eauto].
Qed.

Lemma run_attrs_opt (b : bool) kv l c f :
  (∀ c, attr kv c = Some (f c)) →
  run_attrs ((if b then [kv] else []) ++ l) c =
  run_attrs l (if b then f (set_bufKV kv c) else c).
Proof. intros Hf. destruct b; cbn; [by rewrite Hf|done]. Qed.

(** A cookie that survives printing. *)
Record wf_cookie (c : Cookie.t) : Prop := {
  wfc_pair : text_ok (KV (key c) (value c));
  wfc_attrs : Forall text_ok (attrs c);
  wfc_expire : IsZero (expire c) = true ∨ ParseRFC1123 (date (expire c)) = Some (expire c)
}.

Lemma run_attrs_eqv c d :
  wf_cookie c → key d = key c → value d = value c → expire d = zeroTime →
  domain d = [] → path d = [] → httpOnly d = false → secure d = false →
  ∃ d', run_attrs (attrs c) d = (None, d') ∧ eqv d' c.
Proof.
  intros Hc Hk Hv He Hd Hp Hh Hs. unfold attrs.
  set (kve := KV StrCookieExpires (date (expire c))).
  assert (run_attrs ((if negb (IsZero (expire c)) then [kve] else []) ++
      (if 0 <? zlen (domain c) then [KV StrCookieDomain (domain c)] else []) ++
      (if 0 <? zlen (path c) then [KV StrCookiePath (path c)] else []) ++
      (if httpOnly c then [KV [] StrCookieHTTPOnly] else []) ++
      (if secure c then [KV [] StrCookieSecure] else [])) d =
    run_attrs ((if 0 <? zlen (domain c) then [KV StrCookieDomain (domain c)] else []) ++
      (if 0 <? zlen (path c) then [KV StrCookiePath (path c)] else []) ++
      (if httpOnly c then [KV [] StrCookieHTTPOnly] else []) ++
      (if secure c then [KV [] StrCookieSecure] else []))
      (if negb (IsZero (expire c)) then SetExpire (expire c) (set_bufKV kve d) else d)) as ->.
  { destruct (IsZero (expire c)) eqn:E; [done|]. cbn [negb app run_attrs].
    destruct (wfc_expire _ Hc) as [?|Hx]; [congruence|].
    change (attr kve ?x) with (exptime ← ParseRFC1123 (date (expire c)); Some (SetExpire exptime x)).
    by rewrite Hx. }
  rewrite (run_attrs_opt _ _ _ _ (SetDomain (domain c))) by done.
  rewrite (run_attrs_opt _ _ _ _ (set_path_raw (path c))) by done.
  rewrite (run_attrs_opt _ _ _ _ (SetHTTPOnly true)) by done.
  rewrite <- (app_nil_r (if secure c then _ else _)).
  rewrite (run_attrs_opt _ _ _ _ (SetSecure true)) by done.
  rewrite !zlen_posb. eexists. split; [done|].
  assert (IsZero (expire c) = true → zeroTime = expire c) as Hz
    by (by intros ?%Z.eqb_eq).
  destruct c as [k v e dm p ho se kv bf], d; cbn in *; subst.
  destruct (IsZero e), dm, p, ho, se; split; cbn; auto.
Qed.

Lemma ParseBytes_text c d :
  wf_cookie c → (Cookie.AppendBytes [] c).1 ≠ [] →
  ∃ d', Cookie.ParseBytes (Cookie.AppendBytes [] c).1 d = Some (None, d') ∧ eqv d' c.
Proof.
  intros Hc. rewrite AppendBytes_text. intros Hne. unfold Cookie.ParseBytes.
  rewrite cookie_next_spec; [|done|by apply (kv_text_semi []); [left|apply Hc]|].
  - pose proof (field_of_text [] (KV (key c) (value c)) ltac:(by left) (wfc_pair _ Hc)) as Ef.
    cbn [app] in Ef. rewrite Ef.
    cbn [Args.Key Args.Value]. set (d0 := SetValue _ _).
    destruct (run_attrs_eqv c d0 Hc) as (d' & Hr & Hd); [done..|]. exists d'. split; [|done].
    rewrite <- Hr. apply ParseBytes_attrs_text; [apply Hc|lia].
  - destruct (attrs c); [by left|right; cbn; eauto].
Qed.
End set_cookie.

(** [ParseBytes] always returns. *)
Lemma ParseBytes_attrs_total `{TimeFormat} fuel b c :
  (length b < fuel)%nat → ∃ r, Cookie.ParseBytes_attrs fuel b c = Some r.
Proof.
  revert b c. induction fuel as [|fuel IH]; intros b c Hf; [lia|].
  cbn [Cookie.ParseBytes_attrs]. destruct (decide (b = [])) as [->|Hne]; [eauto|].
  destruct (split_at ";"%byte b) as (p & t & -> & Hp & Ht).
  rewrite cookie_next_spec by done. destruct (Cookie.attr _ _); [|eauto].
  apply IH. pose proof (field_shorter p t Hne Ht). lia.
Qed.

(** ** Properties *)

(** Parsing the Cookie line of a request terminates and appends, to the
    cookies already there, the trimmed and unquoted non-empty fields between
    semicolons in order, whatever the recycled storage held. *)
Theorem request_cookies_parse cookies src :
  ∃ h, parseRequestCookies cookies src = Some h ∧ live h = live cookies ++ cookie_pairs src.
Proof. apply parseRequestCookies_spec. Qed.

(** The Cookie line printed from a list of cookies parses back to that list,
    for names and values without delimiters, outer blanks and outer quotes. *)
Theorem request_cookies_roundtrip l cookies :
  Forall (λ kv, text_ok kv ∧ kv_empty kv = false) l → live cookies = [] →
  ∃ h, parseRequestCookies cookies (appendRequestCookieBytes [] l) = Some h ∧ live h = l.
Proof.
  intros Hl Hc. destruct (parseRequestCookies_spec cookies (appendRequestCookieBytes [] l))
    as (h & E & Hh).
  exists h. split; [done|]. rewrite Hh, Hc. apply (cookie_pairs_text []); [by left|done].
Qed.

(** A Set-Cookie value that is printed from a cookie with all its attributes
    parses back to the same cookie; and parsing returns on every input. *)
Theorem set_cookie_roundtrip `{TimeFormat} c d :
  wf_cookie c → (Cookie.AppendBytes [] c).1 ≠ [] →
  (∃ d', Cookie.ParseBytes (Cookie.AppendBytes [] c).1 d = Some (None, d') ∧ Cookie.eqv d' c) ∧
  ∀ src, ∃ r, Cookie.ParseBytes src d = Some r.
Proof.
  intros Hc Hne. split; [by apply ParseBytes_text|]. intros src. unfold Cookie.ParseBytes.
  destruct (cookie_next src _) as [[kv b]|]; [|eauto]. apply ParseBytes_attrs_total. lia.
Qed.

Definition kv0 : ArgsKV := KV (bs "sid") (bs "a b=c").

Lemma text_ok_dec kv :
  bool_decide (";"%byte ∉ Key kv) && bool_decide (";"%byte ∉ Value kv) &&
  bool_decide ("="%byte ∉ Key kv) && bool_decide (Key kv = [] → "="%byte ∉ Value kv) &&
  bool_decide (decodeCookieArg [] (Key kv) false = Key kv) &&
  bool_decide (decodeCookieArg [] (Value kv) true = Value kv) = true → text_ok kv.
Proof. rewrite !andb_true_iff, !bool_decide_eq_true. intros [[[[[]]]]]. by constructor. Qed.

Lemma request_cookies_roundtrip_witness :
  ∃ h, parseRequestCookies (ArgsSlice [] []) (bs "sid=a b=c; sid=a b=c") = Some h ∧
    live h = [kv0; kv0].
Proof.
  apply (request_cookies_roundtrip [kv0; kv0] (ArgsSlice [] [])); [|reflexivity].
  repeat constructor; by apply text_ok_dec; vm_compute.
Defined.

(** A clock that knows one time. *)
Definition time0 : TimeFormat := {|
  FormatRFC1123 _ := bs "Tue, 10 Nov 2009 23:00:00 UTC";
  ParseRFC1123 v := if v =b bs "Tue, 10 Nov 2009 23:00:00 GMT" then Some 1257894000 else None
|}.

Definition cookie0 : Cookie.t :=
  Cookie.Mk (bs "sid") (bs "x") 1257894000 (bs "example.com") (bs "/a") true true (KV [] []) [].

Lemma set_cookie_roundtrip_witness :
  ∃ d, Cookie.ParseBytes (H := time0)
    (bs "sid=x; expires=Tue, 10 Nov 2009 23:00:00 GMT; domain=example.com; path=/a; HttpOnly; secure")
    cookie0 = Some (None, d) ∧ Cookie.eqv d cookie0.
Proof.
  apply (set_cookie_roundtrip (H := time0) cookie0 cookie0); [|discriminate].
  constructor.
  - by apply text_ok_dec; vm_compute.
  - repeat constructor; by apply text_ok_dec; vm_compute.
  - right. vm_compute. reflexivity.
Defined.
