(* ===== verification/HttpHeader.v ===== *)
(** * Header lines (src/pkg/protocol/http/v1/header.go, strings.go)

    What the request and the response header share: the canonical form of
    header names, the scanners of header lines and of comma-separated values,
    and the two ways of finding the end of a header.

    The source normalizes a header name in place, inside the buffer that is
    parsed; here the scanner returns the normalized name.  Normalizing is
    idempotent ([normalizeHeaderKey_idem]), so that parsing a buffer again
    after more bytes have arrived finds the same names. *)

From S2P Require Import Prelude BytesConv Args HttpUri HttpCookie.

Definition CR : byte := x0d.
Definition LF : byte := x0a.

Definition StrCRLF : bytes := [CR; LF].
Definition StrHTTP11 : bytes := bs "HTTP/1.1".
Definition StrColonSpace : bytes := bs ": ".
Definition StrGet : bytes := bs "GET".
Definition StrHead : bytes := bs "HEAD".
Definition StrPost : bytes := bs "POST".
Definition StrPut : bytes := bs "PUT".
Definition StrDelete : bytes := bs "DELETE".
Definition StrConnection : bytes := bs "Connection".
Definition StrContentLength : bytes := bs "Content-Length".
Definition StrContentType : bytes := bs "Content-Type".
Definition StrDate : bytes := bs "Date".
Definition StrHost : bytes := bs "Host".
Definition StrReferer : bytes := bs "Referer".
Definition StrServer : bytes := bs "Server".
Definition StrTransferEncoding : bytes := bs "Transfer-Encoding".
Definition StrContentEncoding : bytes := bs "Content-Encoding".
Definition StrAcceptEncoding : bytes := bs "Accept-Encoding".
Definition StrUserAgent : bytes := bs "User-Agent".
Definition StrCookie : bytes := bs "Cookie".
Definition StrSetCookie : bytes := bs "Set-Cookie".
Definition StrRange : bytes := bs "Range".
Definition StrContentRange : bytes := bs "Content-Range".
Definition StrClose : bytes := bs "close".
Definition StrKeepAlive : bytes := bs "keep-alive".
Definition StrKeepAliveCamelCase : bytes := bs "Keep-Alive".
Definition StrUpgrade : bytes := bs "Upgrade".
Definition StrChunked : bytes := bs "chunked".
Definition StrIdentity : bytes := bs "identity".
Definition Str100Continue : bytes := bs "100-continue".
Definition StrExpect : bytes := bs "Expect".
Definition StrPostArgsContentType : bytes := bs "application/x-www-form-urlencoded".
Definition StrMultipartFormData : bytes := bs "multipart/form-data".
Definition StrBoundary : bytes := bs "boundary".
Definition StrBytes : bytes := bs "bytes".
Definition StrTextSlash : bytes := bs "text/".
Definition StrApplicationSlash : bytes := bs "application/".
Definition defaultServerName : bytes := bs "strike".
Definition defaultUserAgent : bytes := bs "strike".
Definition defaultContentType : bytes := bs "text/plain; charset=utf-8".

(** ** Names *)

(** The loop from the second byte on. *)
Fixpoint normalize_rest (b : bytes) : bytes :=
  match b with
  | [] => []
  | c :: r =>
      if c =b "-"%byte then
        match r with
        | [] => [c]
        | d :: r' => c :: ToUpperTable d :: normalize_rest r'
        end
      else ToLowerTable c :: normalize_rest r
  end.
Definition normalizeHeaderKey (b : bytes) (disableNormalizing : bool) : bytes :=
  if disableNormalizing then b
  else match b with
       | [] => []
       | c :: r => ToUpperTable c :: normalize_rest r
       end.

Definition getHeaderKeyBytes (key : bytes) (disableNormalizing : bool) : bytes :=
  normalizeHeaderKey key disableNormalizing.
Definition AppendNormalizedHeaderKey (dst key : bytes) : bytes :=
  dst ++ normalizeHeaderKey key false.

(** ** Lines *)

Definition appendHeaderLine (dst key value : bytes) : bytes :=
  dst ++ key ++ StrColonSpace ++ value ++ StrCRLF.

(** [if n > 0 && b[n-1] == c { n-- }] on [b[:n]] *)
Definition strip_last (c : byte) (b : bytes) : bytes :=
  if bool_decide (b !! (length b - 1)%nat = Some c) then take (length b - 1) b else b.

(** [None] is [errNeedMore]. *)
Definition nextLine (b : bytes) : option (bytes * bytes) :=
  match IndexByte b LF with
  | None => None
  | Some nNext => Some (strip_last CR (take nNext b), drop (nNext + 1) b)
  end.

(** The result of [headerScanner.next]: a line and the rest, the end of the
    header and what follows it, or [errNeedMore]. *)
Inductive scanned :=
  | SLine (key value rest : bytes)
  | SEnd (rest : bytes)
  | SNeedMore.

Definition header_next (disableNormalizing : bool) (b : bytes) : scanned :=
  if bool_decide (take 2 b = StrCRLF) then SEnd (drop 2 b)
  else if bool_decide (take 1 b = [LF]) then SEnd (drop 1 b)
  else match IndexByte b ":"%byte with
       | None => SNeedMore
       | Some n =>
           let key := normalizeHeaderKey (take n b) disableNormalizing in
           let b := trim_left (drop (n + 1) b) in
           match IndexByte b LF with
           | None => SNeedMore
           | Some n => SLine key (trim_right (strip_last CR (take n b))) (drop (n + 1) b)
           end
       end.

(** ** Comma-separated values *)

Definition stripSpace (b : bytes) : bytes := trim_right (trim_left b).

Definition value_next (b : bytes) : option (bytes * bytes) :=
  if zlen b =? 0 then None
  else match IndexByte b ","%byte with
       | None => Some (stripSpace b, [])
       | Some n => Some (stripSpace (take n b), drop (n + 1) b)
       end.
(** Every call of [value_next] shortens the input, so that [S (length s)]
    rounds reach its end. *)
Fixpoint hasHeaderValue_loop (fuel : nat) (s value : bytes) : bool :=
  match fuel with
  | O => false
  | S fuel =>
      match value_next s with
      | None => false
      | Some (v, s) => if v =b value then true else hasHeaderValue_loop fuel s value
      end
  end.
Definition hasHeaderValue (s value : bytes) : bool := hasHeaderValue_loop (S (length s)) s value.

(** ** Content length *)

Inductive clError := ErrConv (e : convErr) | ErrNonNumeric.

Definition parseContentLength (b : bytes) : Z * option clError :=
  let '(v, n, err) := ParseUintBuf b in
  match err with
  | Some e => (-1, Some (ErrConv e))
  | None => if negb (n =? zlen b) then (-1, Some ErrNonNumeric) else (v, None)
  end.

(** ** Raw headers *)

Definition isOnlyCRLF (b : bytes) : bool :=
  forallb (λ ch, (ch =b CR) || (ch =b LF)) b.

(** [None] stands for nil, and for the panic at [buf[n]] past the end, which a
    raw header, ending in a line feed, never reaches. *)
Definition peekRawHeader (buf key : bytes) : option bytes :=
  match Index buf key with
  | None => None
  | Some n =>
      if (0 <? n)%nat && negb (bool_decide (buf !! (n - 1)%nat = Some LF)) then None
      else
        let n := (n + length key)%nat in
        if negb (bool_decide (buf !! n = Some ":"%byte)) then None
        else if negb (bool_decide (buf !! S n = Some " "%byte)) then None
        else
          let buf := drop (n + 2) buf in
          match IndexByte buf LF with
          | None => None
          | Some n => Some (strip_last CR (take n buf))
          end
  end.

(** The loop over the lines after the first: [n] bytes have been read and [b]
    is left.  Every round reads a byte at least. *)
Fixpoint readRawHeaders_loop (fuel : nat) (n : nat) (b : bytes) : option nat :=
  match fuel with
  | O => None
  | S fuel =>
      match IndexByte b LF with
      | None => None
      | Some m =>
          let m := S m in
          if ((m =? 2)%nat && bool_decide (head b = Some CR)) || (m =? 1)%nat
          then Some (n + m)%nat
          else readRawHeaders_loop fuel (n + m) (drop m b)
      end
  end.
(** [None] is [errNeedMore]. *)
Definition readRawHeaders (dst buf : bytes) : option (bytes * nat) :=
  match IndexByte buf LF with
  | None => None
  | Some n =>
      if ((n =? 1)%nat && bool_decide (head buf = Some CR)) || (n =? 0)%nat then Some (dst, S n)
      else
        n ← readRawHeaders_loop (length buf) (S n) (drop (S n) buf);
        Some (dst ++ take n buf, n)
  end.

(** ** Names: lemmas *)

Lemma ToUpperTable_idem c : ToUpperTable (ToUpperTable c) = ToUpperTable c.
Proof. revert c. refine (byte_forall_dec _ _). vm_compute. reflexivity. Qed.
Lemma ToLowerTable_dash c : (ToLowerTable c =b "-"%byte) = (c =b "-"%byte).
Proof. revert c. refine (byte_forall_dec _ _). vm_compute. reflexivity. Qed.
Lemma ToUpperTable_lower c : ToUpperTable (ToLowerTable c) = ToUpperTable c.
Proof. revert c. refine (byte_forall_dec _ _). vm_compute. reflexivity. Qed.

(** Two steps of the loop at a time. *)
Lemma normalize_ind (P : bytes → Prop) :
  P [] → (∀ c, P [c]) → (∀ c d r, P r → P (d :: r) → P (c :: d :: r)) → ∀ b, P b.
Proof.
  intros H0 H1 H2 b. assert (P b ∧ ∀ c, P (c :: b)) as [? _]; [|done].
  induction b as [|d b [IH IH']]; auto.
Qed.

Lemma normalize_rest_idem b : normalize_rest (normalize_rest b) = normalize_rest b.
Proof.
  induction b as [|c|c d r IH IH'] using normalize_ind; [done| |].
  - cbn. destruct (c =b "-"%byte) eqn:E; cbn; [by rewrite E|].
    by rewrite ToLowerTable_dash, E, ToLowerTable_idem.
  - cbn [normalize_rest]. destruct (c =b "-"%byte) eqn:E.
    + cbn [normalize_rest]. by rewrite E, IH, ToUpperTable_idem.
    + change (normalize_rest (d :: r)) with (normalize_rest (d :: r)) in IH'.
      cbn [normalize_rest] in *. rewrite ToLowerTable_dash, E, ToLowerTable_idem. by rewrite IH'.
Qed.

Lemma normalizeHeaderKey_idem b dis :
  normalizeHeaderKey (normalizeHeaderKey b dis) dis = normalizeHeaderKey b dis.
Proof.
  unfold normalizeHeaderKey. destruct dis, b; try done.
  by rewrite ToUpperTable_idem, normalize_rest_idem.
Qed.

(** ** Lines: lemmas *)

Definition header_line (kv : ArgsKV) : bytes := appendHeaderLine [] (Key kv) (Value kv).
Definition header_text (l : list ArgsKV) : bytes := concat (header_line <$> l).

(** Names and values that a header line can carry. *)
Record line_ok (kv : ArgsKV) : Prop := {
  lk_colon : ":"%byte ∉ Key kv; lk_key_lf : LF ∉ Key kv; lk_value_lf : LF ∉ Value kv;
  lk_left : trim_left (Value kv) = Value kv; lk_right : trim_right (Value kv) = Value kv
}.

Lemma appendHeaderLine_dst dst key value :
  appendHeaderLine dst key value = dst ++ header_line (KV key value).
Proof. done. Qed.

Lemma header_text_cons kv l : header_text (kv :: l) = header_line kv ++ header_text l.
Proof. done. Qed.

Lemma header_text_app l l' : header_text (l ++ l') = header_text l ++ header_text l'.
Proof. unfold header_text. by rewrite fmap_app, concat_app. Qed.

Lemma strip_last_snoc c b : strip_last c (b ++ [c]) = b.
Proof.
  unfold strip_last. rewrite length_app, Nat.add_sub. rewrite bool_decide_eq_true_2.
  - by rewrite take_app_length.
  - by apply list_lookup_middle.
Qed.

Lemma trim_left_app_cr v r : trim_left v = v → trim_left (v ++ CR :: r) = v ++ CR :: r.
Proof.
  destruct v as [|c v]; [done|]. cbn. destruct (c =b " "%byte) eqn:E; [|done].
  intros Hv. exfalso. assert (length (trim_left v) ≤ length v)%nat as Hl.
  { clear. induction v as [|x v IH]; cbn; [done|]. case_match; cbn; lia. }
  rewrite Hv in Hl. cbn in Hl. lia.
Qed.

Lemma header_next_line dis kv rest :
  line_ok kv →
  header_next dis (header_line kv ++ rest) =
    SLine (normalizeHeaderKey (Key kv) dis) (Value kv) rest.
Proof.
  intros [H1 H2 H3 H4 H5]. destruct kv as [k v]. cbn [Key Value] in *.
  unfold header_line, appendHeaderLine, header_next. cbn [app Key Value].
  change (StrColonSpace ++ v ++ StrCRLF) with (":"%byte :: " "%byte :: v ++ [CR; LF]).
  rewrite <- app_assoc. cbn [app].
  rewrite bool_decide_eq_false_2; cycle 1.
  { destruct k as [|c [|d k]]; try done. cbn. intros [= -> ->]. set_solver. }
  rewrite bool_decide_eq_false_2; cycle 1.
  { destruct k as [|c k]; try done. cbn. intros [= ->]. set_solver. }
  rewrite IndexByte_app by done. rewrite take_app_length, Nat.add_1_r, drop_S_app.
  change (trim_left (" "%byte :: ?x)) with (trim_left x).
  rewrite <- app_assoc. cbn [app]. rewrite trim_left_app_cr by done.
  change (v ++ CR :: LF :: rest) with (v ++ [CR] ++ LF :: rest). rewrite app_assoc.
  rewrite IndexByte_app by set_solver.
  by rewrite take_app_length, Nat.add_1_r, drop_S_app, strip_last_snoc, H5.
Qed.

Lemma header_next_end dis rest : header_next dis (StrCRLF ++ rest) = SEnd rest.
Proof. done. Qed.

(** The scanner moves forward. *)
Lemma trim_left_le b : (length (trim_left b) ≤ length b)%nat.
Proof. induction b as [|x b IH]; cbn; [done|]. case_match; cbn; lia. Qed.

Lemma header_next_shorter dis b :
  match header_next dis b with
  | SLine _ _ r | SEnd r => (length r < length b)%nat
  | SNeedMore => True
  end.
Proof.
  unfold header_next. case_bool_decide as H1.
  { rewrite length_drop. destruct b; [done|cbn; lia]. }
  case_bool_decide as H2.
  { rewrite length_drop. destruct b; [done|cbn; lia]. }
  destruct (IndexByte b ":"%byte) as [n|] eqn:E; [|done].
  destruct (IndexByte (trim_left _) LF) as [m|] eqn:E'; [|done].
  apply IndexByte_lt in E. apply IndexByte_lt in E'. pose proof (trim_left_le (drop (n + 1) b)) as Hl.
  rewrite length_drop in *. lia.
Qed.

Lemma header_line_split kv :
  line_ok kv → ∃ x, header_line kv = x ++ [LF] ∧ LF ∉ x ∧ (2 < length x)%nat.
Proof.
  intros H. exists (Key kv ++ StrColonSpace ++ Value kv ++ [CR]). split_and!.
  - unfold header_line, appendHeaderLine. cbn [app]. by rewrite <- !app_assoc.
  - pose proof (lk_key_lf _ H). pose proof (lk_value_lf _ H).
    assert (LF ∉ StrColonSpace) by (by rewrite <- IndexByte_None). set_solver.
  - rewrite !length_app. change (length StrColonSpace) with 2%nat. cbn. lia.
Qed.

Lemma readRawHeaders_loop_text fuel n l rest :
  Forall line_ok l → (length (header_text l) + 2 ≤ fuel)%nat →
  readRawHeaders_loop fuel n (header_text l ++ StrCRLF ++ rest) =
    Some (n + length (header_text l) + 2)%nat.
Proof.
  intros Hl. revert fuel n. induction Hl as [|kv l Hkv _ IH]; intros fuel n Hf.
  { destruct fuel; [cbn in Hf; lia|]. cbn. f_equal. lia. }
  rewrite header_text_cons in *. destruct (header_line_split kv Hkv) as (x & Hx & Hlf & Hlen).
  rewrite Hx, <- !app_assoc in *. cbn [app] in *. destruct fuel as [|fuel]; [lia|].
  cbn [readRawHeaders_loop]. rewrite IndexByte_app by done.
  rewrite (proj2 (Nat.eqb_neq _ 2)) by lia. rewrite (proj2 (Nat.eqb_neq _ 1)) by lia.
  cbn [andb orb]. rewrite drop_S_app, length_app in *. cbn [length] in *.
  rewrite IH by lia. f_equal. lia.
Qed.

(** Splitting off the raw header of a well-formed text. *)
Lemma readRawHeaders_text dst l rest :
  Forall line_ok l → l ≠ [] →
  readRawHeaders dst (header_text l ++ StrCRLF ++ rest) =
    Some (dst ++ header_text l ++ StrCRLF, length (header_text l ++ StrCRLF)).
Proof.
  intros Hl Hne. destruct Hl as [|kv l Hkv Hl]; [done|].
  destruct (header_line_split kv Hkv) as (x & Hx & Hlf & Hlen).
  assert (header_text (kv :: l) ++ StrCRLF ++ rest = x ++ LF :: header_text l ++ StrCRLF ++ rest) as E.
  { rewrite header_text_cons, Hx. by rewrite <- !app_assoc. }
  unfold readRawHeaders. rewrite E, IndexByte_app by done.
  rewrite (proj2 (Nat.eqb_neq _ 1)) by lia. rewrite (proj2 (Nat.eqb_neq _ 0)) by lia.
  cbn [andb orb]. rewrite drop_S_app, readRawHeaders_loop_text; [|done|].
  2:{ rewrite !length_app. cbn [length]. rewrite !length_app. cbn. lia. }
  cbn [mbind option_bind]. rewrite <- E, app_assoc.
  assert (S (length x) + length (header_text l) + 2 = length (header_text (kv :: l) ++ StrCRLF))%nat
    as Hn.
  { rewrite header_text_cons, Hx, !length_app. cbn. lia. }
  by rewrite Hn, take_app_length.
Qed.
