(* ===== verification/HttpRequest.v ===== *)
(** * The request header (src/pkg/protocol/http/v1/header.go, RequestHeader)

    A header is parsed at once when a body may follow, and kept as raw bytes
    that are parsed on the first access otherwise.  The scratch pair [bufKV],
    which every method that uses it overwrites first, is left out. *)

From S2P Require Import Prelude BytesConv Args HttpUri HttpCookie HttpHeader.

Module RequestHeader.

Record t := Mk {
  disableNormalizing : bool; noHTTP11 : bool; connectionClose : bool; isGet : bool;
  cookiesCollected : bool; rawHeadersParsed : bool; contentLength : Z; contentLengthBytes : bytes;
  method : bytes; requestURI : bytes; host : bytes; contentType : bytes;
  userAgent : bytes; h : argsSlice; cookies : argsSlice; rawHeaders : bytes
}.

Definition set_disableNormalizing (x : bool) (r : t) : t :=
  Mk x (noHTTP11 r) (connectionClose r) (isGet r) (cookiesCollected r) (rawHeadersParsed r)
    (contentLength r) (contentLengthBytes r) (method r) (requestURI r) (host r) (contentType r)
    (userAgent r) (h r) (cookies r) (rawHeaders r).
Definition set_noHTTP11 (x : bool) (r : t) : t :=
  Mk (disableNormalizing r) x (connectionClose r) (isGet r) (cookiesCollected r)
    (rawHeadersParsed r) (contentLength r) (contentLengthBytes r) (method r) (requestURI r)
    (host r) (contentType r) (userAgent r) (h r) (cookies r) (rawHeaders r).
Definition set_connectionClose (x : bool) (r : t) : t :=
  Mk (disableNormalizing r) (noHTTP11 r) x (isGet r) (cookiesCollected r) (rawHeadersParsed r)
    (contentLength r) (contentLengthBytes r) (method r) (requestURI r) (host r) (contentType r)
    (userAgent r) (h r) (cookies r) (rawHeaders r).
Definition set_isGet (x : bool) (r : t) : t :=
  Mk (disableNormalizing r) (noHTTP11 r) (connectionClose r) x (cookiesCollected r)
    (rawHeadersParsed r) (contentLength r) (contentLengthBytes r) (method r) (requestURI r)
    (host r) (contentType r) (userAgent r) (h r) (cookies r) (rawHeaders r).
Definition set_cookiesCollected (x : bool) (r : t) : t :=
  Mk (disableNormalizing r) (noHTTP11 r) (connectionClose r) (isGet r) x (rawHeadersParsed r)
    (contentLength r) (contentLengthBytes r) (method r) (requestURI r) (host r) (contentType r)
    (userAgent r) (h r) (cookies r) (rawHeaders r).
Definition set_rawHeadersParsed (x : bool) (r : t) : t :=
  Mk (disableNormalizing r) (noHTTP11 r) (connectionClose r) (isGet r) (cookiesCollected r) x
    (contentLength r) (contentLengthBytes r) (method r) (requestURI r) (host r) (contentType r)
    (userAgent r) (h r) (cookies r) (rawHeaders r).
Definition set_contentLength (x : Z) (r : t) : t :=
  Mk (disableNormalizing r) (noHTTP11 r) (connectionClose r) (isGet r) (cookiesCollected r)
    (rawHeadersParsed r) x (contentLengthBytes r) (method r) (requestURI r) (host r)
    (contentType r) (userAgent r) (h r) (cookies r) (rawHeaders r).
Definition set_contentLengthBytes (x : bytes) (r : t) : t :=
  Mk (disableNormalizing r) (noHTTP11 r) (connectionClose r) (isGet r) (cookiesCollected r)
    (rawHeadersParsed r) (contentLength r) x (method r) (requestURI r) (host r) (contentType r)
    (userAgent r) (h r) (cookies r) (rawHeaders r).
Definition set_method (x : bytes) (r : t) : t :=
  Mk (disableNormalizing r) (noHTTP11 r) (connectionClose r) (isGet r) (cookiesCollected r)
    (rawHeadersParsed r) (contentLength r) (contentLengthBytes r) x (requestURI r) (host r)
    (contentType r) (userAgent r) (h r) (cookies r) (rawHeaders r).
Definition set_requestURI (x : bytes) (r : t) : t :=
  Mk (disableNormalizing r) (noHTTP11 r) (connectionClose r) (isGet r) (cookiesCollected r)
    (rawHeadersParsed r) (contentLength r) (contentLengthBytes r) (method r) x (host r)
    (contentType r) (userAgent r) (h r) (cookies r) (rawHeaders r).
Definition set_host (x : bytes) (r : t) : t :=
  Mk (disableNormalizing r) (noHTTP11 r) (connectionClose r) (isGet r) (cookiesCollected r)
    (rawHeadersParsed r) (contentLength r) (contentLengthBytes r) (method r) (requestURI r) x
    (contentType r) (userAgent r) (h r) (cookies r) (rawHeaders r).
Definition set_contentType (x : bytes) (r : t) : t :=
  Mk (disableNormalizing r) (noHTTP11 r) (connectionClose r) (isGet r) (cookiesCollected r)
    (rawHeadersParsed r) (contentLength r) (contentLengthBytes r) (method r) (requestURI r)
    (host r) x (userAgent r) (h r) (cookies r) (rawHeaders r).
Definition set_userAgent (x : bytes) (r : t) : t :=
  Mk (disableNormalizing r) (noHTTP11 r) (connectionClose r) (isGet r) (cookiesCollected r)
    (rawHeadersParsed r) (contentLength r) (contentLengthBytes r) (method r) (requestURI r)
    (host r) (contentType r) x (h r) (cookies r) (rawHeaders r).
Definition set_h (x : argsSlice) (r : t) : t :=
  Mk (disableNormalizing r) (noHTTP11 r) (connectionClose r) (isGet r) (cookiesCollected r)
    (rawHeadersParsed r) (contentLength r) (contentLengthBytes r) (method r) (requestURI r)
    (host r) (contentType r) (userAgent r) x (cookies r) (rawHeaders r).
Definition set_cookies (x : argsSlice) (r : t) : t :=
  Mk (disableNormalizing r) (noHTTP11 r) (connectionClose r) (isGet r) (cookiesCollected r)
    (rawHeadersParsed r) (contentLength r) (contentLengthBytes r) (method r) (requestURI r)
    (host r) (contentType r) (userAgent r) (h r) x (rawHeaders r).
Definition set_rawHeaders (x : bytes) (r : t) : t :=
  Mk (disableNormalizing r) (noHTTP11 r) (connectionClose r) (isGet r) (cookiesCollected r)
    (rawHeadersParsed r) (contentLength r) (contentLengthBytes r) (method r) (requestURI r)
    (host r) (contentType r) (userAgent r) (h r) (cookies r) x.


(** ** Resetting and copying *)

Definition ResetSkipNormalize (r : t) : t :=
  Mk (disableNormalizing r) false false false false false 0 [] [] [] [] [] []
    (cut0 (h r)) (cut0 (cookies r)) [].
Definition Reset (r : t) : t := ResetSkipNormalize (set_disableNormalizing false r).
Definition DisableNormalizing (r : t) : t := set_disableNormalizing true r.

Definition CopyTo (r dst : t) : t :=
  let dst := Reset dst in
  Mk (disableNormalizing r) (noHTTP11 r) (connectionClose r) (isGet r) (cookiesCollected r)
    (rawHeadersParsed r) (contentLength r) (contentLengthBytes r) (method r) (requestURI r)
    (host r) (contentType r) (userAgent r) (CopyArgs (h dst) (live (h r)))
    (CopyArgs (cookies dst) (live (cookies r))) (rawHeaders r).

(** ** The request line *)

Definition Method (r : t) : bytes := if zlen (method r) =? 0 then StrGet else method r.
Definition SetMethod (m : bytes) (r : t) : t := set_method m r.
Definition RequestURI (r : t) : bytes :=
  if zlen (requestURI r) =? 0 then StrSlash else requestURI r.
Definition SetRequestURI (u : bytes) (r : t) : t := set_requestURI u r.

(** The answer is cached once it is yes. *)
Definition IsGet (r : t) : bool * t :=
  let r := if negb (isGet r) then set_isGet (Method r =b StrGet) r else r in (isGet r, r).
Definition IsPost (r : t) : bool := Method r =b StrPost.
Definition IsPut (r : t) : bool := Method r =b StrPut.
Definition IsHead (r : t) : bool := if isGet r then false else Method r =b StrHead.
Definition IsDelete (r : t) : bool := Method r =b StrDelete.
Definition IsHTTP11 (r : t) : bool := negb (noHTTP11 r).
Definition NoBody (r : t) : bool * t :=
  let '(g, r) := IsGet r in (g || IsHead r, r).

(** ** Parsing *)

Inductive parseError := errNeedMore | errNoMethod | errEmptyURI.

(** The first line that is not empty and what follows it. *)
Fixpoint first_line (fuel : nat) (b : bytes) : option (bytes * bytes) :=
  match fuel with
  | O => None
  | S fuel =>
      match nextLine b with
      | None => None
      | Some (l, r) => if zlen l =? 0 then first_line fuel r else Some (l, r)
      end
  end.

Definition parseFirstLine (buf : bytes) (r : t) : t * res parseError nat :=
  match first_line (S (length buf)) buf with
  | None => (r, Err errNeedMore)
  | Some (b, bNext) =>
      match IndexByte b " "%byte with
      | None | Some O => (r, Err errNoMethod)
      | Some n =>
          let r := set_method (take n b) r in
          let b := drop (n + 1) b in
          let fin n r := (set_requestURI (take n b) r, Ok (length buf - length bNext)%nat) in
          match LastIndexByte b " "%byte with
          | None => fin (length b) (set_noHTTP11 true r)
          | Some O => (r, Err errEmptyURI)
          | Some n =>
              if drop (n + 1) b =b StrHTTP11 then fin n r else fin n (set_noHTTP11 true r)
          end
      end
  end.

(** The switch on the name of a header line. *)
Definition header_case (key value : bytes) (r : t) : t :=
  if key =b StrHost then set_host value r
  else if key =b StrUserAgent then set_userAgent value r
  else if key =b StrContentType then set_contentType value r
  else if key =b StrContentLength then
    if negb (contentLength r =? -1) then
      match parseContentLength value with
      | (n, None) => set_contentLengthBytes value (set_contentLength n r)
      | (_, Some _) => set_contentLength (-2) r
      end
    else r
  else if key =b StrTransferEncoding then
    if negb (value =b StrIdentity) then
      set_h (SetArg (h r) StrTransferEncoding StrChunked) (set_contentLength (-1) r)
    else r
  else if key =b StrConnection then
    if value =b StrClose then set_connectionClose true r
    else set_h (AppendArg (h r) key value) (set_connectionClose false r)
  else set_h (AppendArg (h r) key value) r.

(** [None] is [errNeedMore]; every line read shortens the input
    ([header_next_shorter]). *)
Fixpoint parse_lines (fuel : nat) (dis : bool) (b : bytes) (r : t) : t * option bytes :=
  match fuel with
  | O => (r, None)
  | S fuel =>
      match header_next dis b with
      | SLine key value b => parse_lines fuel dis b (header_case key value r)
      | SEnd b => (r, Some b)
      | SNeedMore => (r, None)
      end
  end.

(** What [parseHeaders] does after the last line. *)
Definition finish (r : t) : t :=
  let r := if contentLength r <? 0 then set_contentLengthBytes [] r else r in
  let '(nb, r) := NoBody r in
  let r := if nb then set_contentLengthBytes [] (set_contentLength 0 r) else r in
  if noHTTP11 r && negb (connectionClose r) then
    let v := default [] (PeekArgBytes (live (h r)) StrConnection) in
    set_connectionClose
      (negb (hasHeaderValue v StrKeepAlive) && negb (hasHeaderValue v StrKeepAliveCamelCase)) r
  else r.

Definition parseHeaders (buf : bytes) (r : t) : t * option nat :=
  let r := set_contentLength (-2) r in
  match parse_lines (S (length buf)) (disableNormalizing r) buf r with
  | (r, None) => (set_connectionClose true r, None)
  | (r, Some b) => (finish r, Some (length buf - length b)%nat)
  end.

Definition parseRawHeaders (r : t) : t :=
  if rawHeadersParsed r then r
  else
    let r := set_rawHeadersParsed true r in
    if zlen (rawHeaders r) =? 0 then r else (parseHeaders (rawHeaders r) r).1.

Definition Parse (buf : bytes) (r : t) : t * res parseError nat :=
  match parseFirstLine buf r with
  | (r, Err e) => (r, Err e)
  | (r, Ok m) =>
      let '(nb, r) := NoBody r in
      if negb nb || noHTTP11 r then
        match parseHeaders (drop m buf) r with
        | (r, None) => (r, Err errNeedMore)
        | (r, Some n) => (set_rawHeadersParsed true r, Ok (m + n)%nat)
        end
      else
        match readRawHeaders [] (drop m buf) with
        | None => (r, Err errNeedMore)
        | Some (raw, n) => (set_rawHeaders raw r, Ok (m + n)%nat)
        end
  end.

(** ** Cookies *)

(** The loop over [h.h]: [kept] has been looked at, [todo] not yet; a pair that
    is taken out moves behind the length of the slice. *)
Fixpoint collect_loop (kept todo sp : list ArgsKV) (ck : argsSlice) : argsSlice * argsSlice :=
  match todo with
  | [] => (ArgsSlice kept sp, ck)
  | kv :: todo =>
      if Key kv =b StrCookie
      then collect_loop kept todo (kv :: sp) (default ck (parseRequestCookies ck (Value kv)))
      else collect_loop (kept ++ [kv]) todo sp ck
  end.
Definition collectCookies (r : t) : t :=
  if cookiesCollected r then r
  else
    let '(hh, ck) := collect_loop [] (live (h r)) (spare (h r)) (cookies r) in
    set_cookiesCollected true (set_cookies ck (set_h hh r)).

Definition with_cookies (r : t) : t := collectCookies (parseRawHeaders r).
Definition Cookie_ (key : bytes) (r : t) : option bytes * t :=
  let r := with_cookies r in (PeekArgStr (live (cookies r)) key, r).
Definition SetCookie (key value : bytes) (r : t) : t :=
  let r := with_cookies r in set_cookies (SetArg (cookies r) key value) r.
Definition DelCookie (key : bytes) (r : t) : t :=
  let r := with_cookies r in set_cookies (DelAllArgs (cookies r) key) r.
Definition DelAllCookies (r : t) : t :=
  let r := with_cookies r in set_cookies (cut0 (cookies r)) r.
Definition VisitAllCookie (r : t) : list ArgsKV * t :=
  let r := with_cookies r in (live (cookies r), r).

(** ** Fields *)

Definition ConnectionClose (r : t) : bool * t :=
  let r := parseRawHeaders r in (connectionClose r, r).
Definition connectionCloseFast (r : t) : bool := connectionClose r.
Definition SetConnectionClose (r : t) : t := set_connectionClose true r.
Definition ResetConnectionClose (r : t) : t :=
  let r := parseRawHeaders r in
  if connectionClose r
  then set_h (DelAllArgs (h r) StrConnection) (set_connectionClose false r)
  else r.

Definition ContentLength (r : t) : Z * t :=
  let '(nb, r) := NoBody r in
  if nb then (0, r) else let r := parseRawHeaders r in (contentLength r, r).

(** [AppendUint] of a number that is not negative. *)
Definition uint_bytes (n : Z) : bytes := default [] (AppendUint [] n).

Definition SetContentLength (n : Z) (r : t) : t :=
  let r := set_contentLength n (parseRawHeaders r) in
  if 0 <=? n
  then set_h (DelAllArgs (h r) StrTransferEncoding) (set_contentLengthBytes (uint_bytes n) r)
  else set_h (SetArg (h r) StrTransferEncoding StrChunked) (set_contentLengthBytes [] r).

Definition ContentType (r : t) : bytes * t := let r := parseRawHeaders r in (contentType r, r).
Definition SetContentType (v : bytes) (r : t) : t := set_contentType v (parseRawHeaders r).
Definition UserAgent (r : t) : bytes * t := let r := parseRawHeaders r in (userAgent r, r).
Definition SetUserAgent (v : bytes) (r : t) : t := set_userAgent v (parseRawHeaders r).
Definition SetHost (v : bytes) (r : t) : t := set_host v (parseRawHeaders r).

Definition Host (r : t) : bytes * t :=
  if 0 <? zlen (host r) then (host r, r)
  else
    let slow := let r := parseRawHeaders r in (host r, r) in
    if negb (rawHeadersParsed r) then
      match peekRawHeader (rawHeaders r) StrHost with
      | Some ho => if 0 <? zlen ho then (ho, set_host ho r) else slow
      | None => slow
      end
    else slow.

Definition SetMultipartFormBoundary (boundary : bytes) (r : t) : t :=
  SetContentType (StrMultipartFormData ++ [";"%byte; " "%byte] ++ StrBoundary ++ ["="%byte] ++ boundary)
    (parseRawHeaders r).

(** The loop over the parameters of the content type; every round drops a byte
    at least. *)
Fixpoint boundary_loop (fuel n : nat) (b : bytes) : option bytes :=
  match fuel with
  | O => None
  | S fuel =>
      if zlen b =? 0 then None
      else
        let b := trim_left (drop (n + 1) b) in
        if negb (HasPrefix b StrBoundary) then
          match IndexByte b ";"%byte with
          | None => None
          | Some n => boundary_loop fuel n b
          end
        else
          let b := drop (length StrBoundary) b in
          match b with
          | c :: b =>
              if negb (c =b "="%byte) then None
              else
                let b := match IndexByte b ";"%byte with Some n => take n b | None => b end in
                Some (if (1 <? zlen b) && bool_decide (head b = Some dquote)
                         && bool_decide (b !! (length b - 1)%nat = Some dquote)
                      then take (length b - 2) (drop 1 b) else b)
          | [] => None
          end
  end.
Definition MultipartFormBoundary (r : t) : option bytes * t :=
  let '(b, r) := ContentType r in
  if negb (HasPrefix b StrMultipartFormData) then (None, r)
  else
    let b := drop (length StrMultipartFormData) b in
    match b with
    | c :: _ => if negb (c =b ";"%byte) then (None, r) else (boundary_loop (S (length b)) 0 b, r)
    | [] => (None, r)
    end.

(** ** Access by name *)

Definition peek (key : bytes) (r : t) : option bytes * t :=
  let r := parseRawHeaders r in
  if key =b StrHost then let '(v, r) := Host r in (Some v, r)
  else if key =b StrContentType then let '(v, r) := ContentType r in (Some v, r)
  else if key =b StrUserAgent then let '(v, r) := UserAgent r in (Some v, r)
  else if key =b StrConnection then
    let '(c, r) := ConnectionClose r in
    (if c then Some StrClose else PeekArgBytes (live (h r)) key, r)
  else if key =b StrContentLength then (Some (contentLengthBytes r), r)
  else (PeekArgBytes (live (h r)) key, r).
Definition Peek (key : bytes) (r : t) : option bytes * t :=
  peek (getHeaderKeyBytes key (disableNormalizing r)) r.

Definition ConnectionUpgrade (r : t) : bool * t :=
  let '(v, r) := Peek StrConnection (parseRawHeaders r) in
  (hasHeaderValue (default [] v) StrUpgrade, r).

Definition HasAcceptEncodingBytes (acceptEncoding : bytes) (r : t) : bool * t :=
  let '(v, r) := peek StrAcceptEncoding r in
  let ae := default [] v in
  (match Index ae acceptEncoding with
   | None => false
   | Some n =>
       match drop (n + length acceptEncoding) ae with
       | c :: _ =>
           if negb (c =b ","%byte) then false
           else if (n =? 0)%nat then true else bool_decide (ae !! (n - 1)%nat = Some " "%byte)
       | [] => if (n =? 0)%nat then true else bool_decide (ae !! (n - 1)%nat = Some " "%byte)
       end
   end, r).

Definition del (key : bytes) (r : t) : t :=
  let r :=
    if key =b StrHost then set_host [] r
    else if key =b StrContentType then set_contentType [] r
    else if key =b StrUserAgent then set_userAgent [] r
    else if key =b StrCookie then set_cookies (cut0 (cookies r)) r
    else if key =b StrContentLength then set_contentLengthBytes [] (set_contentLength 0 r)
    else if key =b StrConnection then set_connectionClose false r
    else r in
  set_h (DelAllArgs (h r) key) r.
Definition Del (key : bytes) (r : t) : t :=
  let r := parseRawHeaders r in del (getHeaderKeyBytes key (disableNormalizing r)) r.

Definition Add (key value : bytes) (r : t) : t :=
  set_h (AppendArg (h r) (getHeaderKeyBytes key (disableNormalizing r)) value) r.

Definition SetCanonical (key value : bytes) (r : t) : t :=
  let r := parseRawHeaders r in
  if key =b StrHost then SetHost value r
  else if key =b StrContentType then SetContentType value r
  else if key =b StrUserAgent then SetUserAgent value r
  else if key =b StrCookie then
    let r := collectCookies r in
    set_cookies (default (cookies r) (parseRequestCookies (cookies r) value)) r
  else if key =b StrContentLength then
    match parseContentLength value with
    | (n, None) => set_contentLengthBytes value (set_contentLength n r)
    | (_, Some _) => r
    end
  else if key =b StrConnection then
    if StrClose =b value then SetConnectionClose r
    else let r := ResetConnectionClose r in set_h (SetArg (h r) key value) r
  else if key =b StrTransferEncoding then r
  else set_h (SetArg (h r) key value) r.
Definition Set_ (key value : bytes) (r : t) : t :=
  SetCanonical (getHeaderKeyBytes key (disableNormalizing r)) value r.

Definition SetByteRange (startPos endPos : Z) (r : t) : t :=
  let r := parseRawHeaders r in
  let b := StrBytes ++ ["="%byte] in
  let '(b, endPos) := if 0 <=? startPos then (b ++ uint_bytes startPos, endPos) else (b, - startPos) in
  let b := b ++ ["-"%byte] in
  SetCanonical StrRange (if 0 <=? endPos then b ++ uint_bytes endPos else b) r.

(** ** Printing *)

(** The calls [VisitAll] makes of its argument, in order. *)
Definition VisitAll (r : t) : list ArgsKV * t :=
  let r := parseRawHeaders r in
  let '(ho, r) := Host r in
  let one k v := if 0 <? zlen v then [KV k v] else [] in
  let clb := contentLengthBytes r in
  let '(ct, r) := ContentType r in
  let '(ua, r) := UserAgent r in
  let r := collectCookies r in
  let ck := live (cookies r) in
  let hs := live (h r) in
  let '(cc, r) := ConnectionClose r in
  (one StrHost ho ++ one StrContentLength clb ++ one StrContentType ct ++ one StrUserAgent ua ++
   (if (0 <? length ck)%nat then [KV StrCookie (appendRequestCookieBytes [] ck)] else []) ++
   hs ++ (if cc then [KV StrConnection StrClose] else []), r).
Definition Len (r : t) : nat * t := let '(l, r) := VisitAll r in (length l, r).

Definition append_lines (dst : bytes) (l : list ArgsKV) : bytes :=
  fold_left (λ dst kv, appendHeaderLine dst (Key kv) (Value kv)) l dst.

Definition AppendBytes (dst : bytes) (r : t) : bytes * t :=
  let dst := dst ++ Method r ++ [" "%byte] ++ RequestURI r ++ [" "%byte] ++ StrHTTP11 ++ StrCRLF in
  if negb (rawHeadersParsed r) && (0 <? zlen (rawHeaders r)) then (dst ++ rawHeaders r, r)
  else
    let '(ua, r) := UserAgent r in
    let dst := appendHeaderLine dst StrUserAgent (if zlen ua =? 0 then defaultUserAgent else ua) in
    let '(ho, r) := Host r in
    let dst := if 0 <? zlen ho then appendHeaderLine dst StrHost ho else dst in
    let '(ct, r) := ContentType r in
    let '(nb, r) := NoBody r in
    let dst :=
      if negb nb then
        let dst := appendHeaderLine dst StrContentType
          (if zlen ct =? 0 then StrPostArgsContentType else ct) in
        if 0 <? zlen (contentLengthBytes r)
        then appendHeaderLine dst StrContentLength (contentLengthBytes r) else dst
      else if 0 <? zlen ct then appendHeaderLine dst StrContentType ct else dst in
    let dst := append_lines dst (live (h r)) in
    let dst :=
      if (0 <? length (live (cookies r)))%nat
      then dst ++ StrCookie ++ StrColonSpace ++ appendRequestCookieBytes [] (live (cookies r)) ++ StrCRLF
      else dst in
    let '(cc, r) := ConnectionClose r in
    let dst := if cc then appendHeaderLine dst StrConnection StrClose else dst in
    (dst ++ StrCRLF, r).
Definition Header (r : t) : bytes * t := AppendBytes [] r.

End RequestHeader.

(** ** Parsing header lines *)

Section lemmas.
Import RequestHeader.
Implicit Types r : RequestHeader.t.

Definition norm_kv (dis : bool) (kv : ArgsKV) : ArgsKV :=
  KV (normalizeHeaderKey (Key kv) dis) (Value kv).

Definition fold_lines (l : list ArgsKV) r : RequestHeader.t :=
  fold_left (λ r kv, header_case (Key kv) (Value kv) r) l r.

Lemma parse_lines_text fuel dis l rest r :
  Forall line_ok l → (length l < fuel)%nat →
  parse_lines fuel dis (header_text l ++ StrCRLF ++ rest) r =
    (fold_lines (norm_kv dis <$> l) r, Some rest).
Proof.
  intros Hl. revert fuel r. induction Hl as [|kv l Hkv _ IH]; intros fuel r Hf.
  - destruct fuel; [cbn in Hf; lia|]. done.
  - destruct fuel as [|fuel]; [lia|]. cbn [parse_lines].
    rewrite header_text_cons, <- app_assoc, header_next_line by done.
    rewrite IH by (cbn in Hf; lia). done.
Qed.

(** More fuel than the length of the input changes nothing: [errNeedMore] is
    never an exhausted loop. *)
Lemma parse_lines_fuel f f' dis b r :
  (length b < f)%nat → (length b < f')%nat → parse_lines f dis b r = parse_lines f' dis b r.
Proof.
  revert f' b r. induction f as [|f IH]; intros f' b r Hf Hf'; [lia|].
  destruct f' as [|f']; [lia|]. cbn [parse_lines].
  pose proof (header_next_shorter dis b) as Hs. destruct (header_next dis b); try done.
  apply IH; lia.
Qed.

Lemma header_text_length l : (length l ≤ length (header_text l))%nat.
Proof.
  induction l as [|kv l IH]; [cbn; lia|]. rewrite header_text_cons, length_app.
  unfold header_line, appendHeaderLine. rewrite !length_app.
  change (length StrCRLF) with 2%nat. cbn [length]. lia.
Qed.

Lemma parseHeaders_text l rest r :
  Forall line_ok l →
  parseHeaders (header_text l ++ StrCRLF ++ rest) r =
    (finish (fold_lines (norm_kv (disableNormalizing r) <$> l) (set_contentLength (-2) r)),
     Some (length (header_text l ++ StrCRLF))).
Proof.
  intros Hl. unfold parseHeaders. rewrite parse_lines_text; [|done|].
  - cbv iota beta. do 2 f_equal. rewrite app_assoc, (length_app _ rest). lia.
  - pose proof (header_text_length l). rewrite length_app. lia.
Qed.

(** ** The first line *)

Definition request_line (m u : bytes) : bytes :=
  m ++ [" "%byte] ++ u ++ [" "%byte] ++ StrHTTP11 ++ StrCRLF.

Lemma LastIndexByte_app b c q : c ∉ q → LastIndexByte (b ++ c :: q) c = Some (length b).
Proof.
  intros Hq. induction b as [|x b IH]; cbn [app LastIndexByte length]; [|by rewrite IH].
  rewrite (proj2 (LastIndexByte_None _ _) Hq). by rewrite bool_decide_eq_true_2.
Qed.

Lemma nextLine_line x rest : LF ∉ x → nextLine (x ++ StrCRLF ++ rest) = Some (x, rest).
Proof.
  intros Hx. unfold nextLine. change (x ++ StrCRLF ++ rest) with (x ++ [CR] ++ LF :: rest).
  rewrite app_assoc, IndexByte_app by set_solver.
  by rewrite take_app_length, Nat.add_1_r, drop_S_app, strip_last_snoc.
Qed.

Lemma parseFirstLine_line m u rest r :
  m ≠ [] → u ≠ [] → " "%byte ∉ m → LF ∉ m → LF ∉ u →
  parseFirstLine (request_line m u ++ rest) r =
    (set_requestURI u (set_method m r), Ok (length (request_line m u))).
Proof.
  intros Hm Hu Hs Hl1 Hl2. unfold parseFirstLine.
  assert (request_line m u ++ rest =
    (m ++ " "%byte :: u ++ " "%byte :: StrHTTP11) ++ StrCRLF ++ rest) as E.
  { unfold request_line. repeat (rewrite <- app_assoc || cbn [app]). done. }
  assert (LF ∉ StrHTTP11) as H11 by (by rewrite <- IndexByte_None).
  rewrite E. cbn [first_line]. rewrite nextLine_line by set_solver.
  rewrite (proj2 (Z.eqb_neq _ _)) by (rewrite zlen_0; by destruct m).
  rewrite IndexByte_app by done. destruct m as [|c m']; [done|]. set (m := c :: m') in *.
  change (length m) with (S (length m')). change (S (length m')) with (length m).
  rewrite take_app_length, Nat.add_1_r, drop_S_app, LastIndexByte_app by (by rewrite <- IndexByte_None).
  destruct u as [|d u']; [done|]. set (u := d :: u') in *.
  change (length u) with (S (length u')). change (S (length u')) with (length u).
  rewrite Nat.add_1_r, drop_S_app, take_app_length, bool_decide_eq_true_2 by done.
  f_equal. f_equal. rewrite <- E, length_app. lia.
Qed.
End lemmas.

Section roundtrip.
Import RequestHeader.
Implicit Types r : RequestHeader.t.

(** Names the parser keeps in the list of other headers. *)
Definition special (k : bytes) : bool :=
  (k =b StrHost) || (k =b StrUserAgent) || (k =b StrContentType) || (k =b StrContentLength)
    || (k =b StrTransferEncoding) || (k =b StrConnection).

Lemma header_case_plain k v r :
  special k = false → header_case k v r = set_h (AppendArg (h r) k v) r.
Proof.
  unfold special, header_case. rewrite !orb_false_iff. intros [[[[[-> ->] ->] ->] ->] ->]. done.
Qed.

Lemma fold_lines_cons kv l r :
  fold_lines (kv :: l) r = fold_lines l (header_case (Key kv) (Value kv) r).
Proof. done. Qed.

Lemma fold_lines_plain l r :
  Forall (λ kv, special (Key kv) = false) l →
  ∃ hh, fold_lines l r = set_h hh r ∧ live hh = live (h r) ++ l.
Proof.
  intros Hl. revert r. induction Hl as [|kv l Hk _ IH]; intros r.
  - exists (h r). rewrite app_nil_r. by destruct r.
  - rewrite fold_lines_cons, header_case_plain by done.
    destruct (IH (set_h (AppendArg (h r) (Key kv) (Value kv)) r)) as (hh & E & Hh).
    exists hh. split; [by rewrite E; destruct r|].
    rewrite Hh. cbn [h set_h]. rewrite AppendArg_live, <- app_assoc. by destruct kv.
Qed.

Lemma fold_lines_app l l' r : fold_lines (l ++ l') r = fold_lines l' (fold_lines l r).
Proof. apply fold_left_app. Qed.

(** The lines [AppendBytes] prints for a parsed request with a body. *)
Definition cookie_lines r : list ArgsKV :=
  match live (cookies r) with
  | [] => []
  | l => [KV StrCookie (appendRequestCookieBytes [] l)]
  end.
Definition host_lines r : list ArgsKV :=
  match host r with [] => [] | ho => [KV StrHost ho] end.
Definition close_lines r : list ArgsKV :=
  if connectionClose r then [KV StrConnection StrClose] else [].
Definition body_lines r : list ArgsKV :=
  [KV StrUserAgent (userAgent r)] ++ host_lines r ++
  [KV StrContentType (contentType r); KV StrContentLength (contentLengthBytes r)] ++
  (live (h r) ++ cookie_lines r) ++ close_lines r.

(** A parsed request with a body, with its fields set, whose other headers have
    ordinary canonical names, and whose cookies have been collected. *)
Record wf_request r : Prop := {
  wr_parsed : rawHeadersParsed r = true; wr_collected : cookiesCollected r = true;
  wr_norm : disableNormalizing r = false; wr_http11 : noHTTP11 r = false;
  wr_method : method r ≠ [] ∧ method r ≠ StrGet ∧ method r ≠ StrHead ∧ isGet r = false;
  wr_method_ok : " "%byte ∉ method r ∧ LF ∉ method r;
  wr_uri : requestURI r ≠ [] ∧ LF ∉ requestURI r;
  wr_agent : userAgent r ≠ []; wr_type : contentType r ≠ [];
  wr_length : parseContentLength (contentLengthBytes r) = (contentLength r, None);
  wr_length_ok : 0 ≤ contentLength r ∧ contentLengthBytes r ≠ [];
  wr_names : Forall (λ kv, special (Key kv) = false ∧ Key kv ≠ StrCookie ∧
    normalizeHeaderKey (Key kv) false = Key kv) (live (h r));
  wr_cookies : Forall (λ kv, text_ok kv ∧ kv_empty kv = false) (live (cookies r));
  wr_lines : Forall line_ok (body_lines r)
}.

Lemma append_lines_text dst l : append_lines dst l = dst ++ header_text l.
Proof.
  revert dst. induction l as [|kv l IH]; intros dst; cbn [append_lines fold_left].
  - by rewrite app_nil_r.
  - fold (append_lines (appendHeaderLine dst (Key kv) (Value kv)) l).
    rewrite IH, header_text_cons, app_assoc. f_equal.
Qed.

Lemma header_line_eq k v : header_line (KV k v) = k ++ StrColonSpace ++ v ++ StrCRLF.
Proof. done. Qed.

Lemma header_text_one k v : header_text [KV k v] = header_line (KV k v).
Proof. unfold header_text. cbn [fmap list_fmap concat]. apply app_nil_r. Qed.

Lemma NoBody_body r :
  method r ≠ [] → method r ≠ StrGet → method r ≠ StrHead → isGet r = false →
  NoBody r = (false, r).
Proof.
  intros H1 H2 H3 H4. unfold NoBody, IsGet, IsHead. rewrite H4. cbn [negb].
  assert (Method r = method r) as HM by (unfold Method; by destruct (method r)).
  rewrite HM, bool_decide_eq_false_2 by done.
  assert (set_isGet false r = r) as -> by (destruct r; cbn in *; by subst).
  by rewrite H4, HM, bool_decide_eq_false_2.
Qed.

Lemma AppendBytes_body r :
  wf_request r →
  AppendBytes [] r =
    (request_line (method r) (requestURI r) ++ header_text (body_lines r) ++ StrCRLF, r).
Proof.
  intros Hr. destruct (wr_method _ Hr) as (Hm1 & Hm2 & Hm3 & Hm4).
  assert (parseRawHeaders r = r) as Hp by (unfold parseRawHeaders; by rewrite (wr_parsed _ Hr)).
  assert (Host r = (host r, r)) as Hho.
  { unfold Host. rewrite Hp, (wr_parsed _ Hr). by destruct (0 <? zlen (host r)). }
  unfold AppendBytes. rewrite (wr_parsed _ Hr). cbn [negb andb].
  unfold UserAgent, ContentType, ConnectionClose. rewrite Hp, Hho, Hp, NoBody_body, Hp by done.
  cbn [negb]. rewrite !append_lines_text. unfold body_lines, Method, RequestURI.
  rewrite !header_text_app, !appendHeaderLine_dst.
  change (header_text [KV StrContentType (contentType r); KV StrContentLength (contentLengthBytes r)])
    with (header_text ([KV StrContentType (contentType r)] ++ [KV StrContentLength (contentLengthBytes r)])).
  rewrite header_text_app, !header_text_one.
  rewrite !zlen_posb. unfold host_lines, cookie_lines, close_lines.
  destruct (wr_uri _ Hr) as [Hu _]. pose proof (wr_agent _ Hr). pose proof (wr_type _ Hr).
  destruct (wr_length_ok _ Hr) as [_ Hcl].
  destruct (method r), (requestURI r), (userAgent r), (contentType r), (contentLengthBytes r); try done.
  destruct (host r), (live (cookies r)), (connectionClose r);
    cbn [length Nat.ltb Nat.leb]; rewrite ?header_text_one;
    change (header_text []) with (@nil byte); rewrite ?app_nil_r, ?appendHeaderLine_dst;
    unfold request_line; rewrite ?(header_line_eq StrCookie);
    repeat (rewrite <- !app_assoc || cbn [app]); done.
Qed.
End roundtrip.

Section reparse.
Import RequestHeader.
Implicit Types r : RequestHeader.t.

Lemma norm_kv_id l :
  Forall (λ kv, normalizeHeaderKey (Key kv) false = Key kv) l → norm_kv false <$> l = l.
Proof.
  induction 1 as [|kv l Hk _ IH]; [done|]. rewrite fmap_cons, IH. f_equal.
  unfold norm_kv. rewrite Hk. by destruct kv.
Qed.

Lemma body_lines_norm r :
  wf_request r → Forall (λ kv, normalizeHeaderKey (Key kv) false = Key kv) (body_lines r).
Proof.
  intros Hr. unfold body_lines, host_lines, cookie_lines, close_lines.
  repeat (apply Forall_app; split); repeat case_match; repeat constructor.
  eapply list.Forall_impl; [apply (wr_names _ Hr)|]. by intros kv (_ & _ & ?).
Qed.

(** The fields of their own, which are printed first. *)
Lemma fold_lines_head r x :
  host x = [] → contentLength x = -2 →
  parseContentLength (contentLengthBytes r) = (contentLength r, None) →
  fold_lines ([KV StrUserAgent (userAgent r)] ++ host_lines r ++
    [KV StrContentType (contentType r); KV StrContentLength (contentLengthBytes r)]) x =
  set_contentLengthBytes (contentLengthBytes r) (set_contentLength (contentLength r)
    (set_contentType (contentType r) (set_host (host r) (set_userAgent (userAgent r) x)))).
Proof.
  intros Hh Hn Hp. rewrite !fold_lines_app.
  rewrite (fold_lines_cons (KV StrUserAgent _)). change (fold_lines [] ?y) with y.
  change (header_case (Key (KV StrUserAgent ?v)) (Value (KV StrUserAgent ?v)) ?y) with (set_userAgent v y).
  assert (fold_lines (host_lines r)
    (set_userAgent (userAgent r) x) = set_host (host r) (set_userAgent (userAgent r) x)) as ->.
  { unfold host_lines. destruct (host r); [|done]. destruct x. cbn in *. by subst. }
  rewrite (fold_lines_cons (KV StrContentType _)), (fold_lines_cons (KV StrContentLength _)).
  change (fold_lines [] ?y) with y.
  change (header_case (Key (KV StrContentType ?v)) _ ?y) with (set_contentType v y).
  set (y := set_contentType _ _). assert (contentLength y = -2) as Hy by done. clearbody y.
  change (header_case (Key (KV StrContentLength ?v)) _ ?y) with
    (if negb (contentLength y =? -1) then
       match parseContentLength v with
       | (n, None) => set_contentLengthBytes v (set_contentLength n y)
       | (_, Some _) => set_contentLength (-2) y
       end else y).
  by rewrite Hy, Hp.
Qed.

Lemma collect_loop_plain kept l todo sp ck :
  Forall (λ kv, Key kv ≠ StrCookie) l →
  collect_loop kept (l ++ todo) sp ck = collect_loop (kept ++ l) todo sp ck.
Proof.
  intros Hl. revert kept. induction Hl as [|kv l Hk _ IH]; intros kept.
  - by rewrite app_nil_r.
  - cbn [app collect_loop]. rewrite bool_decide_eq_false_2 by done.
    rewrite IH, <- app_assoc. done.
Qed.

Lemma collect_loop_cookies r hh ck :
  wf_request r → live hh = live (h r) ++ cookie_lines r → live ck = [] →
  ∃ hh' ck', collect_loop [] (live hh) (spare hh) ck = (hh', ck') ∧
    live hh' = live (h r) ∧ live ck' = live (cookies r).
Proof.
  intros Hr Hh Hc. rewrite Hh, collect_loop_plain; cycle 1.
  { eapply list.Forall_impl; [apply (wr_names _ Hr)|]. by intros kv (_ & ? & _). }
  unfold cookie_lines. pose proof (wr_cookies _ Hr) as Hck.
  destruct (live (cookies r)) as [|kv l] eqn:E.
  - exists (ArgsSlice (live (h r)) (spare hh)), ck. done.
  - cbn [collect_loop app Key Value]. rewrite bool_decide_eq_true_2 by done.
    destruct (parseRequestCookies_spec ck (appendRequestCookieBytes [] (kv :: l))) as (ck' & Ep & Hl).
    rewrite Ep. cbn [default]. eexists _, ck'. split; [done|]. split; [done|].
    rewrite Hl, Hc. apply (cookie_pairs_text [] (kv :: l)); [by left|done].
Qed.

(** What a client can observe once the cookies are collected. *)
Record same (a b : RequestHeader.t) : Prop := {
  sm_method : method a = method b; sm_uri : requestURI a = requestURI b;
  sm_host : host a = host b; sm_type : contentType a = contentType b;
  sm_agent : userAgent a = userAgent b; sm_length : contentLength a = contentLength b;
  sm_lengthBytes : contentLengthBytes a = contentLengthBytes b;
  sm_close : connectionClose a = connectionClose b; sm_http11 : noHTTP11 a = noHTTP11 b;
  sm_h : live (h a) = live (h b); sm_cookies : live (cookies a) = live (cookies b)
}.

(** A parsed copy of [r] whose cookies are still among the other headers. *)
Record fresh (y r : RequestHeader.t) : Prop := {
  fr_parsed : rawHeadersParsed y = true; fr_uncollected : cookiesCollected y = false;
  fr_norm : disableNormalizing y = false; fr_get : isGet y = false;
  fr_method : method y = method r; fr_uri : requestURI y = requestURI r;
  fr_host : host y = host r; fr_type : contentType y = contentType r;
  fr_agent : userAgent y = userAgent r; fr_length : contentLength y = contentLength r;
  fr_lengthBytes : contentLengthBytes y = contentLengthBytes r;
  fr_close : connectionClose y = connectionClose r; fr_http11 : noHTTP11 y = noHTTP11 r;
  fr_h : live (h y) = live (h r) ++ cookie_lines r; fr_cookies : live (cookies y) = []
}.

Lemma fresh_same y r : wf_request r → fresh y r → same (with_cookies y) r.
Proof.
  intros Hr Hy. unfold with_cookies, parseRawHeaders. rewrite (fr_parsed _ _ Hy).
  unfold collectCookies. rewrite (fr_uncollected _ _ Hy).
  destruct (collect_loop_cookies r (h y) (cookies y) Hr (fr_h _ _ Hy) (fr_cookies _ _ Hy))
    as (hh' & ck' & -> & H1 & H2).
  destruct Hy. by split.
Qed.

Lemma parseHeaders_body r r0 rest :
  wf_request r → disableNormalizing r0 = false →
  let x := set_requestURI (requestURI r) (set_method (method r) (ResetSkipNormalize r0)) in
  ∃ y, parseHeaders (header_text (body_lines r) ++ StrCRLF ++ rest) x =
      (y, Some (length (header_text (body_lines r) ++ StrCRLF))) ∧
    fresh (set_rawHeadersParsed true y) r.
Proof.
  intros Hr Hd x. rewrite parseHeaders_text by apply Hr.
  change (disableNormalizing x) with (disableNormalizing r0). rewrite Hd.
  rewrite norm_kv_id by (by apply body_lines_norm). eexists. split; [done|].
  unfold body_lines. rewrite 2!app_assoc, <- (app_assoc [_]), fold_lines_app, fold_lines_app.
  rewrite fold_lines_head by (done || apply Hr).
  set (z := set_contentLengthBytes _ _).
  destruct (fold_lines_plain (live (h r) ++ cookie_lines r) z) as (hh & -> & Hh).
  { apply Forall_app; split.
    - eapply list.Forall_impl; [apply (wr_names _ Hr)|]. by intros kv (? & _ & _).
    - unfold cookie_lines. case_match; repeat constructor. }
  assert (fold_lines (close_lines r) (set_h hh z) =
    set_connectionClose (connectionClose r) (set_h hh z)) as ->.
  { unfold close_lines. by destruct (connectionClose r). }
  set (w := set_connectionClose _ _).
  destruct (wr_method _ Hr) as (Hm1 & Hm2 & Hm3 & Hm4).
  assert (finish w = w) as ->.
  { unfold finish. change (contentLength w) with (contentLength r).
    destruct (wr_length_ok _ Hr) as [Hcl _].
    rewrite (proj2 (Z.ltb_ge _ _)) by done. by rewrite NoBody_body. }
  split; try done. symmetry. apply (wr_http11 _ Hr).
Qed.

Lemma Parse_body r r0 rest :
  wf_request r → disableNormalizing r0 = false →
  ∃ y, Parse ((AppendBytes [] r).1 ++ rest) (ResetSkipNormalize r0) =
      (y, Ok (length (AppendBytes [] r).1)) ∧ fresh y r.
Proof.
  intros Hr Hd. rewrite AppendBytes_body by done. cbn [fst].
  destruct (wr_method _ Hr) as (Hm1 & Hm2 & Hm3 & Hm4).
  destruct (wr_method_ok _ Hr) as [Hm5 Hm6]. destruct (wr_uri _ Hr) as [Hu1 Hu2].
  unfold Parse. rewrite <- app_assoc, parseFirstLine_line by done.
  rewrite drop_app_length, <- app_assoc.
  set (x := set_requestURI _ _). rewrite (NoBody_body x) by done. cbn [negb orb].
  destruct (parseHeaders_body r r0 rest Hr Hd) as (y & E & Hs). cbv zeta in E.
  fold x in E. rewrite E. eexists. split; [|exact Hs].
  by rewrite (length_app (request_line _ _)).
Qed.
End reparse.

(** ** Access by name: lemmas *)

Section names.
Import RequestHeader.
Implicit Types r x : RequestHeader.t.

(** What parsing the header lines leaves alone. *)
Definition keeps (r r' : RequestHeader.t) : Prop :=
  disableNormalizing r' = disableNormalizing r ∧ rawHeadersParsed r' = rawHeadersParsed r.

Lemma header_case_keeps k v r : keeps r (header_case k v r).
Proof. unfold header_case. repeat case_match; done. Qed.

Lemma parse_lines_keeps fuel dis b r : keeps r (parse_lines fuel dis b r).1.
Proof.
  revert b r. induction fuel as [|fuel IH]; intros b r; cbn [parse_lines]; [done|].
  destruct (header_next dis b) as [k v b'| |]; try done.
  destruct (IH b' (header_case k v r)) as [H1 H2], (header_case_keeps k v r) as [H3 H4].
  split; congruence.
Qed.

Lemma finish_keeps r : keeps r (finish r).
Proof.
  unfold finish, NoBody, IsGet. repeat case_match; simplify_eq; cbn; repeat case_match; done.
Qed.

Lemma parseHeaders_keeps b r : keeps r (parseHeaders b r).1.
Proof.
  unfold parseHeaders.
  pose proof (parse_lines_keeps (S (length b)) (disableNormalizing (set_contentLength (-2) r)) b
    (set_contentLength (-2) r)) as [H1 H2].
  destruct (parse_lines _ _ _ _) as [x [b'|]]; cbn [fst] in *; [|done].
  destruct (finish_keeps x). split; cbn in *; congruence.
Qed.

Lemma parseRawHeaders_keeps r :
  disableNormalizing (parseRawHeaders r) = disableNormalizing r ∧
  rawHeadersParsed (parseRawHeaders r) = true.
Proof.
  unfold parseRawHeaders. destruct (rawHeadersParsed r) eqn:E; [done|]. case_match; [done|].
  apply (parseHeaders_keeps _ (set_rawHeadersParsed true r)).
Qed.

Lemma parseRawHeaders_id x : rawHeadersParsed x = true → parseRawHeaders x = x.
Proof. intros H. unfold parseRawHeaders. by rewrite H. Qed.

(** What [peek] answers for a parsed header. *)
Definition view (k : bytes) x : option bytes :=
  if k =b StrHost then Some (host x)
  else if k =b StrContentType then Some (contentType x)
  else if k =b StrUserAgent then Some (userAgent x)
  else if k =b StrConnection then
    if connectionClose x then Some StrClose else PeekArgBytes (live (h x)) k
  else if k =b StrContentLength then Some (contentLengthBytes x)
  else PeekArgBytes (live (h x)) k.

Lemma peek_view k r : (peek k r).1 = view k (parseRawHeaders r).
Proof.
  unfold peek, view. destruct (parseRawHeaders_keeps r) as [_ Hp].
  set (x := parseRawHeaders r) in *. clearbody x.
  unfold Host, ContentType, UserAgent, ConnectionClose. rewrite parseRawHeaders_id, Hp by done.
  cbn [negb]. repeat case_match; simplify_eq; done.
Qed.

Lemma Peek_view key r :
  (Peek key r).1 = view (normalizeHeaderKey key (disableNormalizing r)) (parseRawHeaders r).
Proof. apply peek_view. Qed.

Definition settable (k v : bytes) : Prop :=
  k ≠ StrCookie ∧ k ≠ StrTransferEncoding ∧ (k = StrContentLength → (parseContentLength v).2 = None).

Lemma view_set_h k x hh :
  special k = false → view k (set_h hh x) = PeekArgBytes (live hh) k.
Proof.
  unfold special, view. rewrite !orb_false_iff. intros [[[[[-> ->] ->] ->] _] ->]. done.
Qed.

(** Another list of pairs with the same answer for a name. *)
Lemma view_set_h_other k' x hh :
  PeekArgStr (live hh) k' = PeekArgStr (live (h x)) k' → view k' (set_h hh x) = view k' x.
Proof. intros E. unfold view, PeekArgBytes. cbn [host contentType userAgent connectionClose contentLengthBytes h set_h]. by rewrite E. Qed.

Lemma view_set_close k' x b : k' ≠ StrConnection → view k' (set_connectionClose b x) = view k' x.
Proof. intros Hk. unfold view. by rewrite (bool_decide_eq_false_2 (k' = StrConnection)). Qed.

Lemma SetConnection_view v x :
  rawHeadersParsed x = true →
  let y := if StrClose =b v then SetConnectionClose x
           else let r := ResetConnectionClose x in set_h (SetArg (h r) StrConnection v) r in
  view StrConnection y = Some v ∧ (∀ k', k' ≠ StrConnection → view k' y = view k' x) ∧
  rawHeadersParsed y = true ∧ disableNormalizing y = disableNormalizing x.
Proof.
  intros Hp. unfold ResetConnectionClose. rewrite parseRawHeaders_id by done. cbv zeta.
  destruct (StrClose =b v) eqn:Ev; bdec.
  { subst v. split_and!; try done. intros k' Hk'. by apply view_set_close. }
  set (x1 := if connectionClose x then _ else x).
  assert (connectionClose x1 = false ∧ rawHeadersParsed x1 = true ∧
    disableNormalizing x1 = disableNormalizing x ∧
    ∀ k', k' ≠ StrConnection → view k' x1 = view k' x) as (H1 & H2 & H3 & H4).
  { subst x1. destruct (connectionClose x) eqn:Ec; split_and!; try done. intros k' Hk'.
    rewrite view_set_h_other by (by apply PeekArgStr_del). by apply view_set_close. }
  clearbody x1. destruct (SetArg_peek (h x1) StrConnection v) as [Hs1 Hs2].
  split_and!; try done.
  - change (view StrConnection ?z) with
      (if connectionClose z then Some StrClose else PeekArgBytes (live (h z)) StrConnection).
    cbn [connectionClose set_h h]. by rewrite H1.
  - intros k' Hk'. rewrite view_set_h_other by (by apply Hs2). by apply H4.
Qed.

Lemma SetCanonical_view k v r :
  settable k v →
  let x := parseRawHeaders r in let y := SetCanonical k v r in
  view k y = Some v ∧ (∀ k', k' ≠ k → view k' y = view k' x) ∧
  rawHeadersParsed y = true ∧ disableNormalizing y = disableNormalizing r.
Proof.
  intros (Hc & Ht & Hn) x y. subst y. unfold SetCanonical. fold x.
  destruct (parseRawHeaders_keeps r) as [Hd Hp]. fold x in Hd, Hp. rewrite <- Hd. clearbody x. clear Hd r.
  unfold SetHost, SetContentType, SetUserAgent. rewrite !parseRawHeaders_id by done.
  assert (∀ k' c, c = k → k' ≠ k → (k' =b c) = false) as Hne
    by (intros; apply bool_decide_eq_false_2; congruence).
  destruct (k =b StrHost) eqn:E1; bdec.
  { subst k. split_and!; try done. intros k' Hk'. unfold view. by rewrite (Hne k' StrHost). }
  destruct (k =b StrContentType) eqn:E2; bdec.
  { subst k. split_and!; try done. intros k' Hk'. unfold view. by rewrite (Hne k' StrContentType). }
  destruct (k =b StrUserAgent) eqn:E3; bdec.
  { subst k. split_and!; try done. intros k' Hk'. unfold view. by rewrite (Hne k' StrUserAgent). }
  rewrite (bool_decide_eq_false_2 (k = StrCookie)) by done.
  destruct (k =b StrContentLength) eqn:E4; bdec.
  { subst k. destruct (parseContentLength v) as [n [e|]]; [by specialize (Hn eq_refl)|].
    split_and!; try done. intros k' Hk'. unfold view. by rewrite (Hne k' StrContentLength). }
  destruct (k =b StrConnection) eqn:E5; bdec; [subst k; by apply SetConnection_view|].
  rewrite (bool_decide_eq_false_2 (k = StrTransferEncoding)) by done.
  destruct (SetArg_peek (h x) k v) as [Hs1 Hs2]. split_and!; try done.
  - rewrite view_set_h; [done|]. unfold special. rewrite !bool_decide_eq_false_2 by done. done.
  - intros k' Hk'. by apply view_set_h_other, Hs2.
Qed.
End names.

Section lazy.
Import RequestHeader.
(** A request without a body keeps its header raw. *)
Lemma lazy_parse m u l rest r0 :
  m = StrGet ∨ m = StrHead → u ≠ [] → LF ∉ u → Forall line_ok l → l ≠ [] →
  let text := request_line m u ++ header_text l ++ StrCRLF in
  ∃ y, Parse (text ++ rest) (ResetSkipNormalize r0) = (y, Ok (length text)) ∧
    (AppendBytes [] y).1 = text ∧
    (∃ g, y = set_rawHeaders (header_text l ++ StrCRLF) (set_isGet g (set_requestURI u (set_method m (ResetSkipNormalize r0))))) ∧
    parseRawHeaders y =
      (parseHeaders (header_text l ++ StrCRLF ++ rest) (set_rawHeadersParsed true y)).1.
Proof.
  intros Hm Hu Hu' Hl Hne text.
  assert (m ≠ [] ∧ " "%byte ∉ m ∧ LF ∉ m) as (Hm1 & Hm2 & Hm3).
  { destruct Hm as [->| ->]; (split; [done|]); rewrite <- !IndexByte_None; done. }
  unfold Parse, text. rewrite <- !app_assoc, parseFirstLine_line by done.
  rewrite drop_app_length. set (x := set_requestURI _ _).
  assert (∃ g, NoBody x = (true, set_isGet g x)) as [g ->].
  { destruct Hm as [->| ->]; [by exists true|by exists false]. }
  cbn [negb orb]. change (noHTTP11 (set_isGet g x)) with false.
  rewrite readRawHeaders_text by done. cbn [app]. eexists. split_and!.
  - by rewrite (length_app (request_line m u)).
  - unfold AppendBytes. cbn [rawHeadersParsed rawHeaders set_rawHeaders set_isGet x].
    change (negb _ && ?b) with b.
    assert (0 <? zlen (header_text l ++ StrCRLF) = true) as ->.
    { rewrite zlen_posb. by destruct (header_text l). }
    cbn [fst app]. unfold Method, RequestURI. subst x. cbn [method requestURI set_rawHeaders set_isGet].
    destruct m, u; done.
  - by exists g.
  - set (y := set_rawHeaders _ _). unfold parseRawHeaders.
    change (rawHeadersParsed y) with false. cbv iota.
    change (rawHeaders (set_rawHeadersParsed true y)) with (header_text l ++ StrCRLF).
    assert (zlen (header_text l ++ StrCRLF) =? 0 = false) as ->.
    { apply Z.eqb_neq. rewrite zlen_0. by destruct (header_text l). }
    rewrite parseHeaders_text by done.
    pose proof (parseHeaders_text l [] (set_rawHeadersParsed true y) Hl) as E.
    rewrite app_nil_r in E. by rewrite E.
Qed.
End lazy.

(** ** Properties *)

Import RequestHeader.

(** C7: A request with a body, printed by [AppendBytes] and followed by any bytes,
    is parsed back by [Parse] into a header whose own copy was in any state: same
    method, URI, host, content type and length, user agent, connection flag,
    other headers and cookies, and exactly the printed bytes are consumed. *)
Theorem request_roundtrip r r0 rest :
  wf_request r → disableNormalizing r0 = false →
  ∃ y, Parse ((AppendBytes [] r).1 ++ rest) (ResetSkipNormalize r0) =
      (y, Ok (length (AppendBytes [] r).1)) ∧ same (with_cookies y) r.
Proof.
  intros Hr Hd. destruct (Parse_body r r0 rest Hr Hd) as (y & E & Hy).
  exists y. split; [done|]. by apply fresh_same.
Qed.

(** The header of a request without a body is kept raw: it is forwarded byte
    for byte, exactly the header is consumed, and the deferred parse gives what
    parsing the whole buffer at once would have given. *)
Theorem request_lazy m u l rest r0 :
  m = StrGet ∨ m = StrHead → u ≠ [] → LF ∉ u → Forall line_ok l → l ≠ [] →
  let text := request_line m u ++ header_text l ++ StrCRLF in
  ∃ y, Parse (text ++ rest) (ResetSkipNormalize r0) = (y, Ok (length text)) ∧
    (AppendBytes [] y).1 = text ∧
    parseRawHeaders y =
      (parseHeaders (header_text l ++ StrCRLF ++ rest) (set_rawHeadersParsed true y)).1.
Proof.
  intros Hm Hu Hu' Hl Hne text. destruct (lazy_parse m u l rest r0 Hm Hu Hu' Hl Hne) as (y & E & Et & _ & Ep).
  by exists y.
Qed.

(** [Set] then [Peek] gives the value back, under the canonical form of the
    name, and changes what no other name gives; for every name but Cookie and
    Transfer-Encoding, and for a Content-Length that is a number. *)
Theorem request_set_peek key value r :
  let norm k := normalizeHeaderKey k (disableNormalizing r) in
  settable (norm key) value →
  (Peek key (Set_ key value r)).1 = Some value ∧
  ∀ key', norm key' ≠ norm key → (Peek key' (Set_ key value r)).1 = (Peek key' r).1.
Proof.
  intros norm Hs. rewrite Peek_view.
  destruct (SetCanonical_view (norm key) value r Hs) as (H1 & H2 & H3 & H4).
  change (Set_ key value r) with (SetCanonical (norm key) value r).
  rewrite H4, parseRawHeaders_id by done. split; [done|].
  intros key' Hk'. rewrite !Peek_view, H4, (parseRawHeaders_id (SetCanonical _ _ _)) by done. by apply H2.
Qed.

(** A header that [Add] appends to a request whose raw header has not been
    parsed is not printed: the same bytes are sent as without it.  The same holds
    of [SetConnectionClose]. *)
Theorem request_add_lost key value dst r :
  rawHeadersParsed r = false → rawHeaders r ≠ [] →
  (AppendBytes dst (Add key value r)).1 = (AppendBytes dst r).1 ∧
  (AppendBytes dst (SetConnectionClose r)).1 = (AppendBytes dst r).1.
Proof.
  intros Hp Hr. unfold AppendBytes, Add, SetConnectionClose.
  cbn [rawHeadersParsed rawHeaders set_h set_connectionClose]. rewrite Hp, zlen_posb.
  by destruct (rawHeaders r).
Qed.

(** [IsGet] remembers that the method was GET, and [SetMethod] does not clear
    this: a request that has been asked once is still taken for a GET, and so for
    one without a body, after its method has been changed. *)
Theorem request_method_stale m r :
  (IsGet r).1 = true →
  (IsGet (SetMethod m (IsGet r).2)).1 = true ∧ (NoBody (SetMethod m (IsGet r).2)).1 = true.
Proof.
  intros Hg. change (isGet (IsGet r).2 = true) in Hg. set (x := (IsGet r).2) in *. clearbody x.
  unfold NoBody, IsGet, SetMethod. cbn [isGet set_method]. rewrite Hg. cbn [negb].
  cbn [isGet set_method]. by rewrite Hg.
Qed.

(** ** Concrete requests *)

Lemma line_ok_dec kv :
  bool_decide (":"%byte ∉ Key kv) && bool_decide (LF ∉ Key kv) && bool_decide (LF ∉ Value kv) &&
  bool_decide (trim_left (Value kv) = Value kv) && bool_decide (trim_right (Value kv) = Value kv) = true →
  line_ok kv.
Proof. rewrite !andb_true_iff, !bool_decide_eq_true. intros [[[[]]]]. by constructor. Qed.

Definition req_empty : RequestHeader.t :=
  Mk false false false false false false 0 [] [] [] [] [] [] (ArgsSlice [] []) (ArgsSlice [] []) [].

Definition req0 : RequestHeader.t :=
  Mk false false true false true true 5 (bs "5") (bs "POST") (bs "/a b?c") (bs "example.com")
    (bs "text/plain") (bs "curl") (ArgsSlice [KV (bs "X-Id") (bs "7")] [])
    (ArgsSlice [KV (bs "sid") (bs "x")] []) [].

Lemma request_roundtrip_witness :
  ∃ y, Parse ((AppendBytes [] req0).1 ++ bs "hello") (ResetSkipNormalize req_empty) =
    (y, Ok (length (AppendBytes [] req0).1)) ∧ same (with_cookies y) req0.
Proof.
  apply (request_roundtrip req0 req_empty (bs "hello")); [|reflexivity]. constructor; try done.
  - by apply (bool_decide_eq_true _); vm_compute.
  - by apply (bool_decide_eq_true _); vm_compute.
  - by repeat constructor.
  - repeat constructor; by apply text_ok_dec; vm_compute.
  - repeat constructor; by apply line_ok_dec; vm_compute.
Defined.

Definition lines0 : list ArgsKV := [KV (bs "host") (bs "h"); KV (bs "accept") (bs "*")].

Lemma request_lazy_witness :
  ∃ y, Parse (bs "GET / HTTP/1.1" ++ StrCRLF ++ header_text lines0 ++ StrCRLF ++ bs "tail")
      (ResetSkipNormalize req_empty) = (y, Ok 38%nat) ∧
    (AppendBytes [] y).1 = bs "GET / HTTP/1.1" ++ StrCRLF ++ header_text lines0 ++ StrCRLF ∧
    parseRawHeaders y =
      (parseHeaders (header_text lines0 ++ StrCRLF ++ bs "tail") (set_rawHeadersParsed true y)).1.
Proof.
  apply (request_lazy StrGet (bs "/") lines0 (bs "tail") req_empty); try done; [by left| |].
  - by apply (bool_decide_eq_true _); vm_compute.
  - repeat constructor; by apply line_ok_dec; vm_compute.
Defined.

Lemma request_set_peek_witness :
  (Peek (bs "x-id") (Set_ (bs "X-ID") (bs "8") req0)).1 = Some (bs "8") ∧
  (Peek (bs "host") (Set_ (bs "X-ID") (bs "8") req0)).1 = Some (bs "example.com").
Proof.
  destruct (request_set_peek (bs "X-ID") (bs "8") req0) as [_ H]; [by split_and!|].
  split; [vm_compute; reflexivity|]. rewrite H by done. reflexivity.
Defined.

Definition req_raw : RequestHeader.t :=
  Mk false false false false false false 0 [] (bs "GET") (bs "/") [] [] []
    (ArgsSlice [] []) (ArgsSlice [] []) (header_text lines0 ++ StrCRLF).

Lemma request_add_lost_witness :
  (AppendBytes [] (Add (bs "X-Id") (bs "7") req_raw)).1 =
    bs "GET / HTTP/1.1" ++ StrCRLF ++ header_text lines0 ++ StrCRLF.
Proof.
  destruct (request_add_lost (bs "X-Id") (bs "7") [] req_raw) as [H _]; [done|done|].
  rewrite H. reflexivity.
Defined.

Lemma request_method_stale_witness :
  (NoBody (SetMethod (bs "POST") (IsGet req_raw).2)).1 = true.
Proof. apply (request_method_stale (bs "POST") req_raw). reflexivity. Defined.
