(* ===== verification/HttpCodec.v ===== *)
(** * The HTTP codec (src/pkg/protocol/http/v1/codec.go, request.go)

    The request and the decoder that takes requests off a buffer: the header
    with [doParse], then a body of known length.  A body buffer keeps the bytes
    between its length and its capacity, which the next body may expose.  The
    multipart reader of the library is an argument ([readForm]), as are the
    answers of the filter that is notified of every request. *)

From S2P Require Import Prelude BytePool IoBuffer BytesConv Args HttpUri HttpCookie HttpHeader HttpRequest.

(** [ByteBuffer]: the bytes of [B], and those between its length and capacity. *)
Record ByteBuffer := MkBB { bb : bytes; bbspare : bytes }.
Definition bb_reset (b : ByteBuffer) : ByteBuffer := MkBB [] (bb b ++ bbspare b).

(** Without the body stream, which the decoder leaves nil. *)
Record Request := MkRequest {
  rHeader : RequestHeader.t; uri : URI; postArgs : Args; body : option ByteBuffer;
  multipartForm : bool; multipartFormBoundary : bytes;
  parsedURI : bool; parsedPostArgs : bool; keepBodyBuffer : bool; isTLS : bool
}.

Definition set_header (x : RequestHeader.t) (r : Request) : Request :=
  MkRequest x (uri r) (postArgs r) (body r) (multipartForm r) (multipartFormBoundary r)
    (parsedURI r) (parsedPostArgs r) (keepBodyBuffer r) (isTLS r).
Definition set_uri (x : URI) (p : bool) (r : Request) : Request :=
  MkRequest (rHeader r) x (postArgs r) (body r) (multipartForm r) (multipartFormBoundary r)
    p (parsedPostArgs r) (keepBodyBuffer r) (isTLS r).
Definition set_postArgs (x : Args) (p : bool) (r : Request) : Request :=
  MkRequest (rHeader r) (uri r) x (body r) (multipartForm r) (multipartFormBoundary r)
    (parsedURI r) p (keepBodyBuffer r) (isTLS r).
Definition set_body (x : option ByteBuffer) (r : Request) : Request :=
  MkRequest (rHeader r) (uri r) (postArgs r) x (multipartForm r) (multipartFormBoundary r)
    (parsedURI r) (parsedPostArgs r) (keepBodyBuffer r) (isTLS r).
Definition set_form (f : bool) (x : bytes) (r : Request) : Request :=
  MkRequest (rHeader r) (uri r) (postArgs r) (body r) f x
    (parsedURI r) (parsedPostArgs r) (keepBodyBuffer r) (isTLS r).
Definition set_isTLS (x : bool) (r : Request) : Request :=
  MkRequest (rHeader r) (uri r) (postArgs r) (body r) (multipartForm r) (multipartFormBoundary r)
    (parsedURI r) (parsedPostArgs r) (keepBodyBuffer r) x.

(** ** The request *)

Definition RemoveMultipartFormFiles (r : Request) : Request := set_form false [] r.

(** A body that is not kept goes back to the pool. *)
Definition ResetBody (r : Request) : Request :=
  let r := RemoveMultipartFormFiles r in
  match body r with
  | Some b => set_body (if keepBodyBuffer r then Some (bb_reset b) else None) r
  | None => r
  end.
Definition resetSkipHeader (r : Request) : Request :=
  let r := ResetBody r in
  let r := set_uri (HttpUri.Reset (uri r)) false r in
  let r := set_postArgs (Args.Reset (postArgs r)) false r in
  set_isTLS false r.
Definition Reset (r : Request) : Request :=
  resetSkipHeader (set_header (RequestHeader.Reset (rHeader r)) r).

Definition parseURI (r : Request) : Request :=
  if parsedURI r then r
  else set_uri (parseQuick (RequestHeader.RequestURI (rHeader r)) (isTLS r) (uri r)) true r.
Definition SetRequestURI (u : bytes) (r : Request) : Request :=
  set_uri (uri r) false (set_header (RequestHeader.SetRequestURI u (rHeader r)) r).
Definition RequestURI (r : Request) : bytes * Request :=
  let r :=
    if parsedURI r then
      let '(q, u) := HttpUri.RequestURI (uri r) in
      SetRequestURI q (set_uri u true r)
    else r in
  (RequestHeader.RequestURI (rHeader r), r).

Definition bodyBytes (r : Request) : bytes :=
  match body r with None => [] | Some b => bb b end.
(** [pooled] is what [requestBodyPool.Get] hands out. *)
Definition bodyBuffer (pooled : ByteBuffer) (r : Request) : ByteBuffer :=
  match body r with None => pooled | Some b => b end.

Definition parsePostArgs (r : Request) : option Request :=
  if parsedPostArgs r then Some r
  else
    let '(ct, hd) := RequestHeader.ContentType (rHeader r) in
    let r := set_postArgs (postArgs r) true (set_header hd r) in
    if negb (HasPrefix ct StrPostArgsContentType) then Some r
    else a ← Args.ParseBytes (postArgs r) (bodyBytes r); Some (set_postArgs a true r).

Definition MayContinue (r : Request) : bool * Request :=
  let '(v, hd) := RequestHeader.peek StrExpect (rHeader r) in
  (default [] v =b Str100Continue, set_header hd r).

(** ** The codec *)

Inductive httpErr :=
  | ErrEOF | ErrSmallBuffer | ErrNeedMore | ErrHeader (e : RequestHeader.parseError)
  | ErrBodyTooLarge | ErrUnexpectedEOF | ErrIO (e : ioerr) | ErrForm.

(** The loop of [round2]; a 64-bit integer has at most 63 bits. *)
Fixpoint round2_loop (fuel : nat) (n x : Z) : Z :=
  match fuel with
  | O => x
  | S fuel => if 0 <? n then round2_loop fuel (Z.shiftr n 1) (x + 1) else x
  end.
Definition round2 (n : Z) : Z :=
  if n <=? 0 then 0 else Z.shiftl 1 (round2_loop 63 (n - 1) 0).

(** [dst[:n]] *)
Definition bb_cut (n : Z) (b : ByteBuffer) : ByteBuffer :=
  let all := bb b ++ bbspare b in MkBB (take (Z.to_nat n) all) (drop (Z.to_nat n) all).

Definition appendBodyFixedSize (dst : ByteBuffer) (n : Z) : bufM (ByteBuffer * option httpErr) :=
  if n =? 0 then mret (dst, None)
  else
    let offset := zlen (bb dst) in
    let dstLen := offset + n in
    let dst :=
      if offset + zlen (bbspare dst) <? dstLen
      then MkBB (bb dst) (replicate (Z.to_nat (round2 dstLen - offset)) x00)
      else dst in
    let dst := bb_cut dstLen dst in
    '(d, err) ← Read n;
    if zlen d <=? 0 then
      match err with
      | Some EOF => mret (bb_cut offset dst, Some ErrUnexpectedEOF)
      | Some e => mret (bb_cut offset dst, Some (ErrIO e))
      | None => throw PanicMessage
      end
    else
      mret (MkBB (take (Z.to_nat offset) (bb dst) ++ d ++ drop (Z.to_nat (offset + zlen d)) (bb dst))
                 (bbspare dst), None).

(** [nil, nil] for a chunked body. *)
Definition readBody (contentLength maxBodySize : Z) (dst : ByteBuffer) :
    bufM (ByteBuffer * option httpErr) :=
  let dst := bb_cut 0 dst in
  if 0 <=? contentLength then
    if (0 <? maxBodySize) && (maxBodySize <? contentLength) then mret (dst, Some ErrBodyTooLarge)
    else appendBodyFixedSize dst contentLength
  else mret (MkBB [] [], None).

Section codec.
(** [readMultipartForm] with the boundary and the size: whether it failed. *)
Context (readForm : bytes → Z → bufM bool).
(** The buffer that the body pool hands out. *)
Context (pooled : ByteBuffer).

Definition continueReadBody (maxBodySize : Z) (req : Request) : bufM (option httpErr * Request) :=
  let '(contentLength, hd) := RequestHeader.ContentLength (rHeader req) in
  let req := set_header hd req in
  let rest (req : Request) : bufM (option httpErr * Request) :=
    if contentLength =? -2 then
      mret (None, set_header (RequestHeader.SetContentLength 0 (rHeader req)) req)
    else
      let bodyBuf := bb_reset (bodyBuffer pooled req) in
      '(b, err) ← readBody contentLength maxBodySize bodyBuf;
      let req := set_body (Some b) req in
      match err with
      | Some e => mret (Some e, Reset req)
      | None => mret (None, set_header (RequestHeader.SetContentLength (zlen (bb b)) (rHeader req)) req)
      end in
  if 0 <? contentLength then
    if (0 <? maxBodySize) && (maxBodySize <? contentLength) then mret (Some ErrBodyTooLarge, req)
    else
      let '(bd, hd) := RequestHeader.MultipartFormBoundary (rHeader req) in
      let bd := default [] bd in
      let req := set_form (multipartForm req) bd (set_header hd req) in
      let '(ce, hd) :=
        if 0 <? zlen bd then RequestHeader.peek StrContentEncoding (rHeader req)
        else (None, rHeader req) in
      let req := set_header hd req in
      if (0 <? zlen bd) && (zlen (default [] ce) =? 0) then
        failed ← readForm bd contentLength;
        if (failed : bool) then mret (Some ErrForm, Reset req)
        else mret (None, set_form true bd req)
      else rest req
  else rest req.

(** [doParse] *)
Definition doParse (n : Z) (hd : RequestHeader.t) : bufM (option httpErr * RequestHeader.t) :=
  λ '(w, b),
  let hd := RequestHeader.ResetSkipNormalize hd in
  match IoBuffer.Peek n b with
  | Err p => (Err p, (w, b))
  | Ok None | Ok (Some []) =>
      (Ok (Some (if n =? 1 then ErrEOF else ErrSmallBuffer), hd), (w, b))
  | Ok (Some _) =>
      match IoBuffer.Peek (Len b) b with
      | Err p => (Err p, (w, b))
      | Ok None | Ok (Some []) => (Err PanicMessage, (w, b))
      | Ok (Some data) =>
          match RequestHeader.Parse data hd with
          | (hd, Ok headersLen) => (Ok (None, hd), (w, Drain (Z.of_nat headersLen) b))
          | (hd, Err RequestHeader.errNeedMore) => (Ok (Some ErrNeedMore, hd), (w, b))
          | (hd, Err e) => (Ok (Some (ErrHeader e), hd), (w, b))
          end
      end
  end.

Definition parseHeader (hd : RequestHeader.t) : bufM (option httpErr * RequestHeader.t) :=
  '(err, hd) ← doParse 1 hd;
  mret (err, match err with
             | None | Some ErrNeedMore => hd
             | Some _ => RequestHeader.ResetSkipNormalize hd
             end).

Definition readLimitBody (maxBodySize : Z) (req : Request) : bufM (option httpErr * Request) :=
  let req := resetSkipHeader req in
  '(err, hd) ← parseHeader (rHeader req);
  let req := set_header hd req in
  match err with
  | Some e => mret (Some e, req)
  | None =>
      let '(nb, hd) := RequestHeader.NoBody (rHeader req) in
      let req := set_header hd req in
      if (nb : bool) then mret (None, req)
      else
        let '(mc, req) := MayContinue req in
        if (mc : bool) then mret (None, req) else continueReadBody maxBodySize req
  end.

(** [req] is what [AcquireRequest] hands out. *)
Definition decodeHttpReq (req : Request) : bufM (option httpErr * Request) :=
  readLimitBody 40000 req.

(** [Decode]: the requests the filter is notified of with their identifiers,
    the error it is told last, and the last identifier; [stop] is the filter's
    answer.  [None] when the fuel runs out. *)
Fixpoint Decode (fuel : nat) (acquire : Request) (stop : Z → Request → bool) (id : Z) :
    bufM (option (list (Z * Request) * option httpErr * Z)) :=
  match fuel with
  | O => mret None
  | S fuel =>
      b ← getB;
      if 0 <? Len b then
        '(err, req) ← decodeHttpReq acquire;
        match err with
        | Some e => mret (Some ([], Some e, id))
        | None =>
            let id := uint64 (id + 1) in
            _ ← (if stop id req then modB (λ b, Drain (Len b) b) else mret tt);
            r ← Decode fuel acquire stop id;
            mret ((λ '(l, e, i), ((id, req) :: l, e, i)) <$> r)
        end
      else mret (Some ([], None, id))
  end.
End codec.

(** ** Sizes *)

(** The loop counts the bits of [n]. *)
Lemma round2_loop_spec fuel n x :
  0 ≤ n < 2 ^ Z.of_nat fuel →
  ∃ k, round2_loop fuel n x = x + k ∧ 0 ≤ k ∧ n < 2 ^ k ∧
    (n = 0 ∧ k = 0 ∨ 0 < k ∧ 2 ^ (k - 1) ≤ n).
Proof.
  revert n x. induction fuel as [|fuel IH]; intros n x Hn.
  { exists 0. cbn in *. split_and!; lia. }
  cbn [round2_loop]. destruct (Z.ltb_spec 0 n) as [Hp|Hp].
  2:{ exists 0. assert (n = 0) by lia. subst. cbn. split_and!; lia. }
  rewrite Z.shiftr_div_pow2 by lia. change (2 ^ 1) with 2.
  rewrite Nat2Z.inj_succ, Z.pow_succ_r in Hn by lia.
  destruct (IH (n / 2) (x + 1)) as (k & -> & Hk & H1 & H2).
  { split; [apply Z.div_pos; lia|]. apply Z.div_lt_upper_bound; lia. }
  exists (k + 1). split; [lia|]. split; [lia|]. rewrite Z.add_simpl_r, Z.pow_add_r by lia.
  change (2 ^ 1) with 2. pose proof (Z.div_mod n 2 ltac:(lia)). pose proof (Z.mod_pos_bound n 2 ltac:(lia)).
  split; [lia|]. right. split; [lia|]. destruct H2 as [[E ->]|[H2 H3]]; [cbn; lia|].
  replace k with ((k - 1) + 1) by lia. rewrite Z.pow_add_r by lia. change (2 ^ 1) with 2. lia.
Qed.

(** [round2] gives the next power of two. *)
Lemma round2_spec n : 0 < n ≤ 2 ^ 63 → n ≤ round2 n < 2 * n.
Proof.
  intros Hn. unfold round2. rewrite (proj2 (Z.leb_gt _ _)) by lia.
  destruct (round2_loop_spec 63 (n - 1) 0) as (k & -> & Hk & H1 & H2).
  { change (2 ^ Z.of_nat 63) with (2 ^ 63). lia. }
  rewrite Z.shiftl_mul_pow2, Z.mul_1_l, Z.add_0_l by lia.
  destruct H2 as [[E ->]|[H2 H3]]; [cbn; lia|].
  replace k with ((k - 1) + 1) in * by lia. rewrite Z.pow_add_r in * by lia.
  change (2 ^ 1) with 2 in *. replace (k - 1 + 1 - 1) with (k - 1) in H3 by lia. lia.
Qed.

Lemma nextLine_shorter b l r : nextLine b = Some (l, r) → (length r < length b)%nat.
Proof.
  unfold nextLine. destruct (IndexByte b LF) as [n|] eqn:E; [|done]. intros [= <- <-].
  apply IndexByte_lt in E. rewrite length_drop. lia.
Qed.

Lemma first_line_shorter fuel b l r :
  RequestHeader.first_line fuel b = Some (l, r) → (length r < length b)%nat.
Proof.
  revert b. induction fuel as [|fuel IH]; intros b; cbn [RequestHeader.first_line]; [done|].
  destruct (nextLine b) as [[x y]|] eqn:E; [|done]. apply nextLine_shorter in E.
  case_if; [intros ?%IH; lia|]. by intros [= -> ->].
Qed.

Lemma readRawHeaders_loop_le fuel n b k :
  readRawHeaders_loop fuel n b = Some k → (k ≤ n + length b)%nat.
Proof.
  revert n b. induction fuel as [|fuel IH]; intros n b; cbn [readRawHeaders_loop]; [done|].
  destruct (IndexByte b LF) as [m|] eqn:E; [|done]. apply IndexByte_lt in E.
  case_match; [intros [= <-]; lia|]. intros Hk%IH. rewrite length_drop in Hk. lia.
Qed.

Lemma readRawHeaders_le dst b x k : readRawHeaders dst b = Some (x, k) → (k ≤ length b)%nat.
Proof.
  unfold readRawHeaders. destruct (IndexByte b LF) as [n|] eqn:E; [|done].
  apply IndexByte_lt in E. case_match; [intros [= <- <-]; lia|].
  destruct (readRawHeaders_loop _ _ _) as [m|] eqn:El; [|done]. cbn. intros [= _ <-].
  apply readRawHeaders_loop_le in El. rewrite length_drop in El. lia.
Qed.

(** A header that is parsed takes at least one byte, and no more than there are. *)
Lemma Parse_consumes buf hd hd' n :
  RequestHeader.Parse buf hd = (hd', Ok n) → (0 < n ≤ length buf)%nat.
Proof.
  unfold RequestHeader.Parse.
  destruct (RequestHeader.parseFirstLine buf hd) as [h1 [m|e]] eqn:E1; [|done].
  assert (0 < m ≤ length buf)%nat as Hm.
  { revert E1. unfold RequestHeader.parseFirstLine.
    destruct (RequestHeader.first_line _ buf) as [[l r]|] eqn:Ef; [|done].
    apply first_line_shorter in Ef. repeat case_match; intros; simplify_eq; lia. }
  destruct (RequestHeader.NoBody h1) as [nb h2]. case_match.
  - unfold RequestHeader.parseHeaders.
    destruct (RequestHeader.parse_lines _ _ _ _) as [h3 [b|]]; [|done].
    intros [= <- <-]. rewrite length_drop. lia.
  - destruct (readRawHeaders [] (drop m buf)) as [[x k]|] eqn:Er; [|done].
    intros [= <- <-]. apply readRawHeaders_le in Er. rewrite length_drop in Er. lia.
Qed.

(** ** Bodies *)

#[local] Abbreviation bwf := IoBuffer.wf.
#[local] Abbreviation bview := IoBuffer.view.

Definition is_ok {A} (m : bufM A) (s : world * ioBuffer) (a : A) (s' : world * ioBuffer) : Prop :=
  m s = (Ok a, s').

Lemma is_ok_bind {A B} (m : bufM A) (f : A → bufM B) s a s1 c s2 :
  is_ok m s a s1 → is_ok (f a) s1 c s2 → is_ok (m ≫= f) s c s2.
Proof. unfold is_ok, mbind, stM_bind. intros -> H. done. Qed.

Lemma doParse_run w b hd n y :
  bwf b → bview b ≠ [] →
  RequestHeader.Parse (bview b) (RequestHeader.ResetSkipNormalize hd) = (y, Ok n) →
  is_ok (doParse 1 hd) (w, b) (None, y) (w, Drain (Z.of_nat n) b).
Proof.
  intros Hb Hv Hp. unfold is_ok, doParse. pose proof (length_view b Hb) as Hl.
  rewrite !Peek_spec by (done || lia || (rewrite <- Hl; apply zlen_nonneg)).
  rewrite <- Hl, Z.ltb_irrefl, (proj2 (Z.ltb_ge _ _)); cycle 1.
  { destruct (bview b); [done|]. unfold zlen. cbn. lia. }
  unfold zlen. rewrite Nat2Z.id, firstn_all.
  destruct (bview b) as [|c v]; [done|]. change (take (Z.to_nat 1) (c :: v)) with [c]. by rewrite Hp.
Qed.

(** The storage of a body of [n] bytes: what the recycled buffer held when it is
    large enough, a new array otherwise. *)
Definition storage (sp : bytes) (n : Z) : bytes :=
  if zlen sp <? n then replicate (Z.to_nat (round2 n)) x00 else sp.

(** The body that is read into the storage when the buffer holds [p]. *)
Definition body_of (sp p : bytes) (n : Z) : bytes :=
  let d := take (Z.to_nat n) p in d ++ drop (length d) (take (Z.to_nat n) (storage sp n)).

Lemma body_of_length sp p n : 0 < n ≤ 2 ^ 63 → zlen (body_of sp p n) = n.
Proof.
  intros Hn. assert (n ≤ zlen (storage sp n)) as Hs.
  { unfold storage. destruct (Z.ltb_spec (zlen sp) n); [|lia].
    pose proof (round2_spec n Hn). unfold zlen. rewrite length_replicate. lia. }
  unfold body_of, zlen in *. rewrite length_app, length_drop, !length_take. lia.
Qed.

Lemma body_of_full sp p n : 0 < n ≤ zlen p → n ≤ 2 ^ 63 → body_of sp p n = take (Z.to_nat n) p.
Proof.
  intros Hn Hm. pose proof (body_of_length sp p n ltac:(lia)) as Hl. revert Hl. unfold body_of, zlen in *.
  rewrite length_app. destruct (drop _ _) eqn:E; [by rewrite app_nil_r|].
  rewrite length_take. cbn. lia.
Qed.

Lemma appendBody_run w b n sp :
  bwf b → 0 < n → bview b ≠ [] →
  ∃ b' sp', is_ok (appendBodyFixedSize (MkBB [] sp) n) (w, b)
      (MkBB (body_of sp (bview b) n) sp', None) (w, b') ∧
    bwf b' ∧ bview b' = drop (Z.to_nat n) (bview b).
Proof.
  intros Hb Hn Hv. destruct (Read_ok n w b Hb Hv ltac:(lia)) as (b' & Er & Hb' & Hv' & _).
  unfold appendBodyFixedSize. rewrite (proj2 (Z.eqb_neq _ _)) by lia.
  cbn [bb bbspare]. change (zlen []) with 0. rewrite !Z.add_0_l, Z.sub_0_r.
  exists b', (drop (Z.to_nat n) (storage sp n)). split; [|done].
  eapply is_ok_bind; [exact Er|]. unfold is_ok.
  rewrite (proj2 (Z.leb_gt _ _)); cycle 1.
  { destruct (bview b); [done|]. unfold zlen. rewrite length_take. cbn. lia. }
  unfold body_of, storage, bb_cut. rewrite Z.add_0_l. change (take (Z.to_nat 0) ?x) with (@nil byte).
  cbn [app]. unfold zlen at 1. rewrite Nat2Z.id.
  destruct (zlen sp <? n); cbn [bb bbspare app]; done.
Qed.

(** ** A request with a body *)

Section body.
Context (readForm : bytes → Z → bufM bool) (pooled : ByteBuffer).

(** A request that the decoder reads in full: it fits the limit, does not wait
    for a go-ahead and is not a form. *)
Record decodable (r : RequestHeader.t) : Prop := {
  dc_wf : wf_request r;
  dc_limit : 0 < RequestHeader.contentLength r ≤ 40000;
  dc_bytes : RequestHeader.contentLengthBytes r =
    RequestHeader.uint_bytes (RequestHeader.contentLength r);
  dc_form : HasPrefix (RequestHeader.contentType r) StrMultipartFormData = false;
  dc_expect : PeekArgStr (live (RequestHeader.h r)) StrExpect ≠ Some Str100Continue
}.

Lemma cookie_lines_peek r k : k ≠ StrCookie → PeekArgStr (cookie_lines r) k = None.
Proof.
  intros Hk. unfold cookie_lines. case_match; [done|]. cbn [PeekArgStr Key].
  by rewrite bool_decide_eq_false_2 by congruence.
Qed.

Lemma fresh_NoBody y r : wf_request r → fresh y r → RequestHeader.NoBody y = (false, y).
Proof.
  intros Hr Hy. destruct (wr_method _ Hr) as (H1 & H2 & H3 & _).
  apply NoBody_body; rewrite ?(fr_method _ _ Hy); try done. apply Hy.
Qed.

Lemma fresh_peek y r k :
  fresh y r → special k = false → k ≠ StrCookie →
  RequestHeader.peek k y = (PeekArgStr (live (RequestHeader.h r)) k, y).
Proof.
  intros Hy Hs Hk. unfold RequestHeader.peek. rewrite parseRawHeaders_id by apply Hy.
  revert Hs. unfold special. rewrite !orb_false_iff. intros [[[[[-> ->] ->] ->] _] ->].
  unfold PeekArgBytes. rewrite (fr_h _ _ Hy), PeekArgStr_app, cookie_lines_peek by done.
  by destruct (PeekArgStr _ k).
Qed.

Lemma fresh_SetContentLength y r :
  decodable r → fresh y r →
  fresh (RequestHeader.SetContentLength (RequestHeader.contentLength r) y) r.
Proof.
  intros Hd Hy. unfold RequestHeader.SetContentLength. rewrite parseRawHeaders_id by apply Hy.
  pose proof (dc_limit _ Hd). rewrite (proj2 (Z.leb_le _ _)) by lia.
  assert (live (DelAllArgs (RequestHeader.h y) StrTransferEncoding) =
    live (RequestHeader.h r) ++ cookie_lines r) as Hh.
  { rewrite DelAllArgs_live, (fr_h _ _ Hy). apply del_skip_absent.
    rewrite fmap_app, elem_of_app. intros [Hin|Hin].
    - apply list_elem_of_fmap in Hin as (kv & Ek & Hin).
      pose proof (wr_names _ (dc_wf _ Hd)) as Hn. rewrite list.Forall_forall in Hn.
      apply Hn in Hin as [Hs _]. revert Hs. rewrite <- Ek. done.
    - revert Hin. unfold cookie_lines. case_match; set_solver. }
  destruct Hy. pose proof (dc_bytes _ Hd). by split.
Qed.

Lemma continueReadBody_run w b y r req :
  decodable r → fresh y r → rHeader req = y → body req = None → bwf b → bview b ≠ [] →
  let n := RequestHeader.contentLength r in
  ∃ req' b', is_ok (continueReadBody readForm pooled 40000 req) (w, b) (None, req') (w, b') ∧
    bwf b' ∧ bview b' = drop (Z.to_nat n) (bview b) ∧
    bodyBytes req' = body_of (bb pooled ++ bbspare pooled) (bview b) n ∧ fresh (rHeader req') r.
Proof.
  intros Hd Hy Hh Hbody Hb Hv n. unfold continueReadBody, RequestHeader.ContentLength.
  pose proof (dc_limit _ Hd) as Hn. fold n in Hn.
  rewrite Hh, (fresh_NoBody y r), parseRawHeaders_id by (apply Hd || apply Hy || done).
  rewrite (fr_length _ _ Hy). fold n. cbv zeta.
  rewrite (proj2 (Z.ltb_lt 0 n)), (proj2 (Z.ltb_ge 40000 n)) by lia. rewrite andb_false_r.
  unfold RequestHeader.MultipartFormBoundary, RequestHeader.ContentType. cbn [rHeader set_header].
  rewrite parseRawHeaders_id by apply Hy. rewrite (fr_type _ _ Hy), (dc_form _ Hd). cbn [negb].
  change (0 <? zlen (default [] None)) with false. cbv iota. cbn [andb].
  rewrite (proj2 (Z.eqb_neq _ _)) by lia.
  set (req2 := set_header _ _). assert (body req2 = None ∧ rHeader req2 = y) as [Hb2 Hh2] by done.
  clearbody req2. unfold bodyBuffer. rewrite Hb2. unfold bb_reset.
  destruct (appendBody_run w b n (bb pooled ++ bbspare pooled) Hb ltac:(lia) Hv)
    as (b' & sp' & Er & Hb' & Hv').
  eexists _, b'. split; [|split; [done|]; split; [done|]].
  - eapply is_ok_bind.
    + unfold readBody. rewrite (proj2 (Z.leb_le 0 n)), (proj2 (Z.ltb_ge 40000 n)) by lia.
      rewrite andb_false_r. exact Er.
    + cbn. reflexivity.
  - split; [done|]. cbn [rHeader set_header set_body bb]. rewrite body_of_length, Hh2 by lia.
    by apply fresh_SetContentLength.
Qed.

Lemma resetSkipHeader_header req : rHeader (resetSkipHeader req) = rHeader req.
Proof. unfold resetSkipHeader, ResetBody. cbn. by destruct (body req). Qed.

(** What the decoder does with a printed request followed by the bytes [p]. *)
Lemma decodeHttpReq_run w b r req p :
  decodable r → RequestHeader.disableNormalizing (rHeader req) = false → keepBodyBuffer req = false →
  bwf b → bview b = (RequestHeader.AppendBytes [] r).1 ++ p → p ≠ [] →
  let n := RequestHeader.contentLength r in
  ∃ req' b', is_ok (decodeHttpReq readForm pooled req) (w, b) (None, req') (w, b') ∧
    bwf b' ∧ bview b' = drop (Z.to_nat n) p ∧
    bodyBytes req' = body_of (bb pooled ++ bbspare pooled) p n ∧
    same (RequestHeader.with_cookies (rHeader req')) r.
Proof.
  intros Hd Hdis Hk Hb Hv Hp n.
  assert (body (resetSkipHeader req) = None) as Hbody.
  { unfold resetSkipHeader, ResetBody, RemoveMultipartFormFiles. cbn.
    destruct (body req) eqn:E; cbn; by rewrite ?Hk. }
  destruct (Parse_body r (rHeader req) p (dc_wf _ Hd) Hdis) as (y & Ep & Hy).
  rewrite <- Hv in Ep. set (m := length (RequestHeader.AppendBytes [] r).1) in *.
  pose proof (length_view b Hb) as Hl.
  destruct (Drain_spec (Z.of_nat m) b Hb ltac:(lia)) as [Hb1 Hv1].
  rewrite (proj2 (Z.ltb_ge _ _)), Nat2Z.id, Hv in Hv1
    by (rewrite <- Hl, Hv; unfold zlen; rewrite length_app; fold m; lia).
  subst m. rewrite drop_app_length in Hv1. set (b1 := Drain _ b) in *.
  destruct (continueReadBody_run w b1 y r (set_header y (set_header y (set_header y (resetSkipHeader req)))) Hd Hy)
    as (req' & b' & Er & Hb' & Hv' & Hbd & Hf); [done|done|done|by rewrite Hv1|].
  rewrite Hv1 in *. exists req', b'. split_and!; try done; [|apply fresh_same; [apply Hd|done]].
  unfold decodeHttpReq, readLimitBody. rewrite resetSkipHeader_header. eapply is_ok_bind.
  { unfold parseHeader. eapply is_ok_bind.
    - apply doParse_run; [done| |exact Ep]. rewrite Hv. by intros [_ ?]%app_eq_nil.
    - reflexivity. }
  cbn [rHeader set_header]. rewrite (fresh_NoBody y r) by (apply Hd || done).
  cbv zeta iota. unfold MayContinue. cbn [rHeader set_header].
  rewrite (fresh_peek y r StrExpect) by done.
  rewrite bool_decide_eq_false_2; [exact Er|].
  pose proof (dc_expect _ Hd) as He. destruct (PeekArgStr _ StrExpect); [|done].
  intros E. by apply He; rewrite <- E.
Qed.
End body.

(** ** Progress of the decoder *)

(** [m] returns, keeps the buffer well formed and does not put bytes back. *)
Definition shrinks {A} (m : bufM A) : Prop :=
  ∀ w b, bwf b → ∃ a w' b', is_ok m (w, b) a (w', b') ∧ bwf b' ∧ zlen (bview b') ≤ zlen (bview b).

Lemma shrinks_ret {A} (a : A) : shrinks (mret a).
Proof. intros w b Hb. exists a, w, b. done. Qed.

Lemma shrinks_bind {A B} (m : bufM A) (f : A → bufM B) :
  shrinks m → (∀ a, shrinks (f a)) → shrinks (m ≫= f).
Proof.
  intros Hm Hf w b Hb. destruct (Hm w b Hb) as (a & w1 & b1 & E1 & Hb1 & L1).
  destruct (Hf a w1 b1 Hb1) as (c & w2 & b2 & E2 & Hb2 & L2).
  exists c, w2, b2. split_and!; [by eapply is_ok_bind|done|lia].
Qed.

Lemma shrinks_append dst n : 0 ≤ n → shrinks (appendBodyFixedSize dst n).
Proof.
  intros Hn w b Hb. unfold appendBodyFixedSize. destruct (Z.eqb_spec n 0) as [|Hne].
  { by apply shrinks_ret. }
  destruct (decide (bview b = [])) as [Hv|Hv].
  - eexists _, w, _. split; [eapply is_ok_bind|].
    + apply Read_empty; done.
    + rewrite (proj2 (Z.eqb_neq _ _)) by done. reflexivity.
    + split; [by apply Reset_wf|]. rewrite Reset_view. unfold zlen. cbn. lia.
  - destruct (Read_ok n w b Hb Hv Hn) as (b' & Er & Hb' & Hv' & _).
    eexists _, w, b'. split; [eapply is_ok_bind; [exact Er|]|].
    + cbv iota beta. rewrite (proj2 (Z.leb_gt _ _)); [reflexivity|].
      destruct (bview b); [done|]. unfold zlen. rewrite length_take. cbn. lia.
    + split; [done|]. rewrite Hv'. unfold zlen. rewrite length_drop. lia.
Qed.

Lemma shrinks_readBody n mx dst : shrinks (readBody n mx dst).
Proof.
  unfold readBody. destruct (Z.leb_spec 0 n); [|apply shrinks_ret].
  case_match; [apply shrinks_ret|by apply shrinks_append].
Qed.

Section progress.
Context (readForm : bytes → Z → bufM bool) (pooled : ByteBuffer).
Hypothesis readForm_shrinks : ∀ bd n, shrinks (readForm bd n).

Lemma shrinks_continue mx req : shrinks (continueReadBody readForm pooled mx req).
Proof.
  unfold continueReadBody.
  repeat case_match; try apply shrinks_ret;
    (apply shrinks_bind; [apply shrinks_readBody || apply readForm_shrinks|]);
    intros []; repeat case_match; apply shrinks_ret.
Qed.

(** A header that is parsed is taken off the buffer. *)
Lemma doParse_total hd w b :
  bwf b → bview b ≠ [] →
  ∃ e y b', is_ok (doParse 1 hd) (w, b) (e, y) (w, b') ∧ bwf b' ∧
    zlen (bview b') ≤ zlen (bview b) ∧ (e = None → zlen (bview b') < zlen (bview b)).
Proof.
  intros Hb Hv. pose proof (length_view b Hb) as Hl.
  destruct (RequestHeader.Parse (bview b) (RequestHeader.ResetSkipNormalize hd)) as [y [n|e]] eqn:Ep.
  - exists None, y, (Drain (Z.of_nat n) b). split; [by apply doParse_run|].
    apply Parse_consumes in Ep. destruct (Drain_spec (Z.of_nat n) b Hb ltac:(lia)) as [Hb1 Hv1].
    rewrite (proj2 (Z.ltb_ge _ _)) in Hv1 by (rewrite <- Hl; unfold zlen; lia).
    rewrite Hv1. unfold zlen. rewrite length_drop. split; [done|]. lia.
  - exists (Some match e with RequestHeader.errNeedMore => ErrNeedMore | e => ErrHeader e end), y, b.
    split; [|done]. unfold is_ok, doParse.
    rewrite !Peek_spec by (done || lia || (rewrite <- Hl; apply zlen_nonneg)).
    rewrite <- Hl, Z.ltb_irrefl, (proj2 (Z.ltb_ge _ _)); cycle 1.
    { destruct (bview b); [done|]. unfold zlen. cbn. lia. }
    unfold zlen. rewrite Nat2Z.id, firstn_all.
    destruct (bview b) as [|c v]; [done|]. change (take (Z.to_nat 1) (c :: v)) with [c].
    rewrite Ep. by destruct e.
Qed.

Lemma decodeHttpReq_total req w b :
  bwf b → bview b ≠ [] →
  ∃ e req' w' b', is_ok (decodeHttpReq readForm pooled req) (w, b) (e, req') (w', b') ∧ bwf b' ∧
    zlen (bview b') ≤ zlen (bview b) ∧ (e = None → zlen (bview b') < zlen (bview b)).
Proof.
  intros Hb Hv. unfold decodeHttpReq, readLimitBody.
  destruct (doParse_total (rHeader (resetSkipHeader req)) w b Hb Hv)
    as (e & y & b1 & E1 & Hb1 & L1 & S1).
  assert (∃ z, is_ok (parseHeader (rHeader (resetSkipHeader req))) (w, b) (e, z) (w, b1)) as [z Ez].
  { eexists. unfold parseHeader. eapply is_ok_bind; [exact E1|reflexivity]. }
  destruct e as [e|].
  { eexists _, _, w, b1. split; [eapply is_ok_bind; [exact Ez|reflexivity]|]. split; [done|]. done. }
  specialize (S1 eq_refl).
  set (k := λ '(err, hd), _) in |- *.
  assert (shrinks (k (None, z))) as Hk.
  { subst k. cbv beta iota. repeat case_match; try apply shrinks_ret. apply shrinks_continue. }
  destruct (Hk w b1 Hb1) as ([e req'] & w2 & b2 & E2 & Hb2 & L2).
  exists e, req', w2, b2. split; [by eapply is_ok_bind|]. split; [done|]. lia.
Qed.

Lemma Decode_total fuel acquire stop id w b :
  bwf b → zlen (bview b) < Z.of_nat fuel →
  ∃ r w' b', is_ok (Decode readForm pooled fuel acquire stop id) (w, b) (Some r) (w', b').
Proof.
  revert id w b. induction fuel as [|fuel IH]; intros id w b Hb Hf.
  { pose proof (zlen_nonneg (bview b)). lia. }
  cbn [Decode]. unfold is_ok. unfold getB at 1. unfold mbind at 1, stM_bind at 1. cbv beta iota zeta.
  rewrite <- (length_view b Hb). destruct (Z.ltb_spec 0 (zlen (bview b))) as [Hp|Hp]; [|by eexists _, _, _].
  assert (bview b ≠ []) as Hne by (intros E; rewrite E in Hp; done).
  destruct (decodeHttpReq_total acquire w b Hb Hne) as (e & req & w1 & b1 & E1 & Hb1 & L1 & S1).
  unfold mbind, stM_bind. rewrite E1. destruct e as [e|]; [by eexists _, _, _|].
  specialize (S1 eq_refl). set (id' := uint64 (id + 1)).
  assert (∃ b2, (if stop id' req then modB (λ b, Drain (Len b) b) else mret tt) (w1, b1) = (Ok tt, (w1, b2)) ∧
    bwf b2 ∧ zlen (bview b2) ≤ zlen (bview b1)) as (b2 & -> & Hb2 & L2).
  { destruct (stop id' req); [|by exists b1]. exists (Drain (Len b1) b1). split; [done|].
    pose proof (length_view b1 Hb1) as Hl. pose proof (zlen_nonneg (bview b1)).
    destruct (Drain_spec (Len b1) b1 Hb1 ltac:(lia)) as [Hw ->]. split; [done|].
    rewrite Z.ltb_irrefl. unfold zlen. rewrite length_drop. lia. }
  destruct (IH id' w1 b2 Hb2 ltac:(lia)) as (r & w' & b' & E). rewrite E.
  destruct r as [[l e] i]. by eexists _, _, _.
Qed.
End progress.

(** ** A chunked request *)

Definition chunked_lines : list ArgsKV := [KV StrTransferEncoding StrChunked].
Definition chunked_text : bytes :=
  request_line StrPost StrSlash ++ header_text chunked_lines ++ StrCRLF.

Lemma chunked_lines_ok : Forall line_ok chunked_lines.
Proof. repeat constructor; by apply line_ok_dec; vm_compute. Qed.

Lemma Parse_chunked hd p :
  RequestHeader.disableNormalizing hd = false →
  ∃ y, RequestHeader.Parse (chunked_text ++ p) (RequestHeader.ResetSkipNormalize hd) =
      (y, Ok (length chunked_text)) ∧
    RequestHeader.rawHeadersParsed y = true ∧ RequestHeader.contentLength y = -1 ∧
    RequestHeader.method y = StrPost ∧ RequestHeader.isGet y = false ∧
    live (RequestHeader.h y) = chunked_lines.
Proof.
  intros Hd. unfold chunked_text, RequestHeader.Parse. rewrite <- !app_assoc.
  rewrite parseFirstLine_line by (done || (rewrite <- IndexByte_None; done)).
  rewrite drop_app_length. set (x := RequestHeader.set_requestURI _ _).
  rewrite (NoBody_body x) by done. cbn [negb orb].
  rewrite parseHeaders_text by apply chunked_lines_ok.
  change (RequestHeader.disableNormalizing x) with (RequestHeader.disableNormalizing hd). rewrite Hd.
  change (norm_kv false <$> chunked_lines) with chunked_lines.
  set (z := fold_lines _ _).
  assert (RequestHeader.contentLength z = -1 ∧ RequestHeader.method z = StrPost ∧
    RequestHeader.isGet z = false ∧ RequestHeader.noHTTP11 z = false ∧
    live (RequestHeader.h z) = chunked_lines) as (H1 & H2 & H3 & H4 & H5).
  { split_and!; try done. subst z. unfold fold_lines, chunked_lines. cbn [fold_left Key Value].
    change (RequestHeader.header_case StrTransferEncoding StrChunked ?r) with
      (RequestHeader.set_h (SetArg (RequestHeader.h r) StrTransferEncoding StrChunked)
        (RequestHeader.set_contentLength (-1) r)).
    cbn [RequestHeader.h RequestHeader.set_h]. unfold SetArg.
    change (live (RequestHeader.h (RequestHeader.set_contentLength (-2) x))) with (@nil ArgsKV).
    cbn [set_first]. by rewrite AppendArg_live. }
  clearbody z. eexists. split; [by rewrite (length_app (request_line _ _))|].
  unfold RequestHeader.finish. rewrite H1. cbn [Z.ltb Z.compare].
  rewrite NoBody_body by (cbn; rewrite ?H2; done).
  cbn [RequestHeader.noHTTP11 RequestHeader.set_contentLengthBytes]. rewrite H4. done.
Qed.

(** ** Properties *)

Definition received (data : bytes) : ioBuffer :=
  IoBuffer (Slice data (zlen data)) 0 ResetOffMark 1 false false false.

Lemma received_ok data : bwf (received data) ∧ bview (received data) = data.
Proof.
  split.
  - split; cbn; [split; cbn; [apply zlen_nonneg|done]|]. pose proof (zlen_nonneg data). lia.
  - unfold bview, contents. cbn. unfold zlen. by rewrite Nat2Z.id, firstn_all, drop_0.
Qed.

(** C21: A request printed with its body and followed by other bytes is decoded to
    the same header and exactly that body, and the bytes that follow are what is
    left in the buffer, whatever the recycled request and body buffer held. *)
Theorem http_decode_request readForm pooled w b r req d rest :
  decodable r → RequestHeader.disableNormalizing (rHeader req) = false → keepBodyBuffer req = false →
  bwf b → bview b = (RequestHeader.AppendBytes [] r).1 ++ d ++ rest →
  zlen d = RequestHeader.contentLength r →
  ∃ req' b', decodeHttpReq readForm pooled req (w, b) = (Ok (None, req'), (w, b')) ∧
    bwf b' ∧ bview b' = rest ∧ bodyBytes req' = d ∧
    same (RequestHeader.with_cookies (rHeader req')) r.
Proof.
  intros Hd H1 H2 Hb Hv Hl. pose proof (dc_limit _ Hd) as Hn.
  destruct (decodeHttpReq_run readForm pooled w b r req (d ++ rest) Hd H1 H2 Hb Hv)
    as (req' & b' & E & Hb' & Hv' & Hbd & Hs).
  { destruct d; [|done]. change (zlen []) with 0 in Hl. lia. }
  exists req', b'. split; [exact E|]. rewrite <- Hl in *. unfold zlen in Hv' |- *.
  rewrite Nat2Z.id, drop_app_length in Hv'. split_and!; try done.
  rewrite Hbd, body_of_full by (unfold zlen in *; rewrite ?length_app; lia).
  unfold zlen. by rewrite Nat2Z.id, take_app_length.
Qed.

(** When only a part of the body has arrived, the decoder does not wait: it
    delivers a body of the announced length whose missing end is what the
    recycled body buffer held before, or zeros, and empties the buffer, so that
    the bytes of the body that arrive later are read as the next request. *)
Theorem http_short_body readForm pooled w b r req d :
  decodable r → RequestHeader.disableNormalizing (rHeader req) = false → keepBodyBuffer req = false →
  bwf b → bview b = (RequestHeader.AppendBytes [] r).1 ++ d →
  d ≠ [] → zlen d < RequestHeader.contentLength r →
  let n := RequestHeader.contentLength r in
  ∃ req' b', decodeHttpReq readForm pooled req (w, b) = (Ok (None, req'), (w, b')) ∧
    bview b' = [] ∧ zlen (bodyBytes req') = n ∧
    bodyBytes req' = d ++ drop (length d) (take (Z.to_nat n) (storage (bb pooled ++ bbspare pooled) n)).
Proof.
  intros Hd H1 H2 Hb Hv Hne Hl n. pose proof (dc_limit _ Hd) as Hn.
  destruct (decodeHttpReq_run readForm pooled w b r req d Hd H1 H2 Hb Hv Hne)
    as (req' & b' & E & Hb' & Hv' & Hbd & _).
  assert (length d ≤ Z.to_nat n)%nat as Hle by (unfold zlen in Hl; lia).
  exists req', b'. split; [exact E|]. fold n in Hv', Hbd. rewrite drop_ge in Hv' by done.
  split; [done|]. split; [rewrite Hbd; apply body_of_length; lia|].
  rewrite Hbd. unfold body_of. by rewrite take_ge.
Qed.

(** The body of a chunked request is not read: the request is delivered with an
    empty body and the chunks stay in the buffer, where they are decoded as the
    next request. *)
Theorem http_chunked_unread readForm pooled w b req p :
  RequestHeader.disableNormalizing (rHeader req) = false → keepBodyBuffer req = false →
  bwf b → bview b = chunked_text ++ p →
  ∃ req' b', decodeHttpReq readForm pooled req (w, b) = (Ok (None, req'), (w, b')) ∧
    bwf b' ∧ bview b' = p ∧ bodyBytes req' = [].
Proof.
  intros Hdis Hk Hb Hv. destruct (Parse_chunked (rHeader req) p Hdis)
    as (y & Ep & Hp & Hc & Hm & Hg & Hh).
  rewrite <- Hv in Ep. pose proof (length_view b Hb) as Hl.
  destruct (Drain_spec (Z.of_nat (length chunked_text)) b Hb ltac:(lia)) as [Hb1 Hv1].
  rewrite (proj2 (Z.ltb_ge _ _)), Nat2Z.id, Hv, drop_app_length in Hv1
    by (rewrite <- Hl, Hv; unfold zlen; rewrite length_app; lia).
  set (b1 := Drain _ b) in *.
  assert (RequestHeader.NoBody y = (false, y)) as Hnb by (apply NoBody_body; rewrite ?Hm; done).
  assert (∃ req', is_ok (decodeHttpReq readForm pooled req) (w, b) (None, req') (w, b1) ∧
    bodyBytes req' = []) as (req' & E & Hbd); [|by exists req', b1].
  eexists. split; [unfold decodeHttpReq, readLimitBody; rewrite resetSkipHeader_header; eapply is_ok_bind|].
  { unfold parseHeader. eapply is_ok_bind; [apply doParse_run; [done|by rewrite Hv|exact Ep]|reflexivity]. }
  { cbn [rHeader set_header]. rewrite Hnb. cbv iota zeta. unfold MayContinue. cbn [rHeader set_header].
    unfold RequestHeader.peek. rewrite parseRawHeaders_id by done.
    change (StrExpect =b ?k) with false. cbv iota. unfold PeekArgBytes. rewrite Hh.
    change (default [] (PeekArgStr chunked_lines StrExpect) =b Str100Continue) with false. cbv iota.
    unfold continueReadBody, RequestHeader.ContentLength. cbn [rHeader set_header].
    rewrite Hnb, parseRawHeaders_id, Hc by done. reflexivity. }
  reflexivity.
Qed.

(** C35: The decoder never panics and ends on every buffer: each request it delivers
    takes a byte at least off the buffer, and on an error it stops; for a
    multipart reader that does not put bytes back. *)
Theorem http_decode_terminates readForm pooled acquire stop id w b :
  (∀ bd n, shrinks (readForm bd n)) → bwf b →
  ∃ l e i w' b', Decode readForm pooled (S (length (bview b))) acquire stop id (w, b) =
    (Ok (Some (l, e, i)), (w', b')).
Proof.
  intros Hf Hb. destruct (Decode_total readForm pooled Hf (S (length (bview b))) acquire stop id w b Hb)
    as ([[l e] i] & w' & b' & E); [unfold zlen; lia|].
  by exists l, e, i, w', b'.
Qed.

(** ** Concrete requests *)

Definition noForm (bd : bytes) (n : Z) : bufM bool := mret true.
Definition request0 : Request :=
  MkRequest req_empty uri0 (MkArgs (ArgsSlice [] []) []) None false [] false false false false.
(** A recycled body buffer that still holds an earlier body. *)
Definition pooled0 : ByteBuffer := MkBB [] (bs "secret00").

Lemma req0_decodable : decodable req0.
Proof.
  split; try done.
  - constructor; try done.
    + by apply (bool_decide_eq_true _); vm_compute.
    + by apply (bool_decide_eq_true _); vm_compute.
    + by repeat constructor.
    + repeat constructor; by apply text_ok_dec; vm_compute.
    + repeat constructor; by apply line_ok_dec; vm_compute.
Qed.

Lemma http_decode_request_witness :
  ∃ req' b', decodeHttpReq noForm pooled0 request0
      (w0, received ((RequestHeader.AppendBytes [] req0).1 ++ bs "hello" ++ bs "GET")) =
      (Ok (None, req'), (w0, b')) ∧
    bwf b' ∧ bview b' = bs "GET" ∧ bodyBytes req' = bs "hello" ∧
    same (RequestHeader.with_cookies (rHeader req')) req0.
Proof.
  apply (http_decode_request noForm pooled0 w0 _ req0 request0 (bs "hello") (bs "GET"));
    try apply received_ok; try done. apply req0_decodable.
Defined.

Lemma http_short_body_witness :
  ∃ req' b', decodeHttpReq noForm pooled0 request0
      (w0, received ((RequestHeader.AppendBytes [] req0).1 ++ bs "he")) = (Ok (None, req'), (w0, b')) ∧
    bview b' = [] ∧ zlen (bodyBytes req') = 5 ∧ bodyBytes req' = bs "hecre".
Proof.
  apply (http_short_body noForm pooled0 w0 _ req0 request0 (bs "he"));
    try apply received_ok; try done. apply req0_decodable.
Defined.

Lemma http_chunked_unread_witness :
  ∃ req' b', decodeHttpReq noForm pooled0 request0 (w0, received (chunked_text ++ bs "0")) =
      (Ok (None, req'), (w0, b')) ∧ bwf b' ∧ bview b' = bs "0" ∧ bodyBytes req' = [].
Proof. apply (http_chunked_unread noForm pooled0 w0); try apply received_ok; done. Defined.

Lemma http_decode_terminates_witness :
  ∃ l e i w' b', Decode noForm pooled0
    (S (length (bview (received (chunked_text ++ bs "junk"))))) request0 (λ _ _, false) 0
    (w0, received (chunked_text ++ bs "junk")) = (Ok (Some (l, e, i)), (w', b')).
Proof.
  apply (http_decode_terminates noForm pooled0 request0 (λ _ _, false) 0 w0).
  - intros bd n. apply shrinks_ret.
  - apply received_ok.
Defined.
