(* ===== verification/HttpResponse.v ===== *)
(** * The response header (src/pkg/protocol/http/v1/header.go, ResponseHeader;
      status.go)

    The status lines with their cache, and the header of a response.  The cache
    is a value that is passed along; the current date, which the source keeps in
    a variable that a goroutine refreshes every second, is an argument. *)

From S2P Require Import Prelude BytesConv Args HttpUri HttpCookie HttpHeader HttpRequest.

(** ** Status lines *)

Definition StatusOK : Z := 200.
Definition StatusNoContent : Z := 204.
Definition StatusNotModified : Z := 304.

Definition statusMessages : list (Z * bytes) :=
  [(100, bs "Continue");
   (101, bs "Switching Protocols");
   (102, bs "Processing");
   (200, bs "OK");
   (201, bs "Created");
   (202, bs "Accepted");
   (203, bs "Non-Authoritative Information");
   (204, bs "No Content");
   (205, bs "Reset Content");
   (206, bs "Partial Content");
   (207, bs "Multi-Status");
   (208, bs "Already Reported");
   (226, bs "IM Used");
   (300, bs "Multiple Choices");
   (301, bs "Moved Permanently");
   (302, bs "Found");
   (303, bs "See Other");
   (304, bs "Not Modified");
   (305, bs "Use Proxy");
   (307, bs "Temporary Redirect");
   (308, bs "Permanent Redirect");
   (400, bs "Bad Request");
   (401, bs "Unauthorized");
   (402, bs "Payment Required");
   (403, bs "Forbidden");
   (404, bs "Not Found");
   (405, bs "Method Not Allowed");
   (406, bs "Not Acceptable");
   (407, bs "Proxy Authentication Required");
   (408, bs "Request Timeout");
   (409, bs "Conflict");
   (410, bs "Gone");
   (411, bs "Length Required");
   (412, bs "Precondition Failed");
   (413, bs "Request Entity Too Large");
   (414, bs "Request URI Too Long");
   (415, bs "Unsupported Media Type");
   (416, bs "Requested Range Not Satisfiable");
   (417, bs "Expectation Failed");
   (418, bs "I'm a teapot");
   (422, bs "Unprocessable Entity");
   (423, bs "Locked");
   (424, bs "Failed Dependency");
   (426, bs "Upgrade Required");
   (428, bs "Precondition Required");
   (429, bs "Too Many Requests");
   (431, bs "Request Header Fields Too Large");
   (451, bs "Unavailable For Legal Reasons");
   (500, bs "Internal Server Error");
   (501, bs "Not Implemented");
   (502, bs "Bad Gateway");
   (503, bs "Service Unavailable");
   (504, bs "Gateway Timeout");
   (505, bs "HTTP Version Not Supported");
   (506, bs "Variant Also Negotiates");
   (507, bs "Insufficient Storage");
   (508, bs "Loop Detected");
   (510, bs "Not Extended");
   (511, bs "Network Authentication Required")].

Fixpoint lookup_status (l : list (Z * bytes)) (c : Z) : bytes :=
  match l with
  | [] => []
  | (k, v) :: l => if k =? c then v else lookup_status l c
  end.
Definition StatusMessage (statusCode : Z) : bytes :=
  let s := lookup_status statusMessages statusCode in
  if s =b [] then bs "Unknown Status Code" else s.

(** [%d] of an integer *)
Definition decimal (n : Z) : bytes :=
  if n <? 0 then "-"%byte :: default [] (AppendUint [] (- n)) else default [] (AppendUint [] n).

Definition format_line (statusCode : Z) : bytes :=
  bs "HTTP/1.1 " ++ decimal statusCode ++ [" "%byte] ++ StatusMessage statusCode ++ StrCRLF.

(** [statusLine] with the map of [statusLines]. *)
Definition statusLine (m : gmap Z bytes) (statusCode : Z) : bytes * gmap Z bytes :=
  match m !! statusCode with
  | Some h => (h, m)
  | None => let h := format_line statusCode in (h, <[statusCode := h]> m)
  end.

Module ResponseHeader.

Record t := Mk {
  disableNormalizing : bool; noHTTP11 : bool; connectionClose : bool; statusCode : Z;
  contentLength : Z; contentLengthBytes : bytes; contentType : bytes; server : bytes;
  h : argsSlice; cookies : argsSlice
}.

Definition set_disableNormalizing (x : bool) (r : t) : t :=
  Mk x (noHTTP11 r) (connectionClose r) (statusCode r) (contentLength r) (contentLengthBytes r)
    (contentType r) (server r) (h r) (cookies r).
Definition set_noHTTP11 (x : bool) (r : t) : t :=
  Mk (disableNormalizing r) x (connectionClose r) (statusCode r) (contentLength r)
    (contentLengthBytes r) (contentType r) (server r) (h r) (cookies r).
Definition set_connectionClose (x : bool) (r : t) : t :=
  Mk (disableNormalizing r) (noHTTP11 r) x (statusCode r) (contentLength r)
    (contentLengthBytes r) (contentType r) (server r) (h r) (cookies r).
Definition set_statusCode (x : Z) (r : t) : t :=
  Mk (disableNormalizing r) (noHTTP11 r) (connectionClose r) x (contentLength r)
    (contentLengthBytes r) (contentType r) (server r) (h r) (cookies r).
Definition set_contentLength (x : Z) (r : t) : t :=
  Mk (disableNormalizing r) (noHTTP11 r) (connectionClose r) (statusCode r) x
    (contentLengthBytes r) (contentType r) (server r) (h r) (cookies r).
Definition set_contentLengthBytes (x : bytes) (r : t) : t :=
  Mk (disableNormalizing r) (noHTTP11 r) (connectionClose r) (statusCode r) (contentLength r) x
    (contentType r) (server r) (h r) (cookies r).
Definition set_contentType (x : bytes) (r : t) : t :=
  Mk (disableNormalizing r) (noHTTP11 r) (connectionClose r) (statusCode r) (contentLength r)
    (contentLengthBytes r) x (server r) (h r) (cookies r).
Definition set_server (x : bytes) (r : t) : t :=
  Mk (disableNormalizing r) (noHTTP11 r) (connectionClose r) (statusCode r) (contentLength r)
    (contentLengthBytes r) (contentType r) x (h r) (cookies r).
Definition set_h (x : argsSlice) (r : t) : t :=
  Mk (disableNormalizing r) (noHTTP11 r) (connectionClose r) (statusCode r) (contentLength r)
    (contentLengthBytes r) (contentType r) (server r) x (cookies r).
Definition set_cookies (x : argsSlice) (r : t) : t :=
  Mk (disableNormalizing r) (noHTTP11 r) (connectionClose r) (statusCode r) (contentLength r)
    (contentLengthBytes r) (contentType r) (server r) (h r) x.

(** ** Fields *)

Definition ResetSkipNormalize (r : t) : t :=
  Mk (disableNormalizing r) false false 0 0 [] [] [] (cut0 (h r)) (cut0 (cookies r)).
Definition Reset (r : t) : t := ResetSkipNormalize (set_disableNormalizing false r).
Definition DisableNormalizing (r : t) : t := set_disableNormalizing true r.

Definition CopyTo (r dst : t) : t :=
  let dst := Reset dst in
  Mk (disableNormalizing r) (noHTTP11 r) (connectionClose r) (statusCode r) (contentLength r)
    (contentLengthBytes r) (contentType r) (server r) (CopyArgs (h dst) (live (h r)))
    (CopyArgs (cookies dst) (live (cookies r))).

Definition StatusCode (r : t) : Z := if statusCode r =? 0 then StatusOK else statusCode r.
Definition SetStatusCode (c : Z) (r : t) : t := set_statusCode c r.
Definition ConnectionClose (r : t) : bool := connectionClose r.
Definition SetConnectionClose (r : t) : t := set_connectionClose true r.
Definition ResetConnectionClose (r : t) : t :=
  if connectionClose r
  then set_h (DelAllArgs (h r) StrConnection) (set_connectionClose false r)
  else r.
Definition IsHTTP11 (r : t) : bool := negb (noHTTP11 r).
Definition ContentLength (r : t) : Z := contentLength r.
Definition ContentType (r : t) : bytes :=
  if zlen (contentType r) =? 0 then defaultContentType else contentType r.
Definition SetContentType (v : bytes) (r : t) : t := set_contentType v r.
Definition isCompressibleContentType (r : t) : bool :=
  HasPrefix (ContentType r) StrTextSlash || HasPrefix (ContentType r) StrApplicationSlash.
Definition Server (r : t) : bytes := server r.
Definition SetServer (v : bytes) (r : t) : t := set_server v r.

Definition mustSkipContentLength (r : t) : bool :=
  let statusCode := StatusCode r in
  if (statusCode <? 100) || (statusCode =? StatusOK) then false
  else (statusCode =? StatusNotModified) || (statusCode =? StatusNoContent) || (statusCode <? 200).

Definition uint_bytes (n : Z) : bytes := default [] (AppendUint [] n).

Definition SetContentLength (n : Z) (r : t) : t :=
  if mustSkipContentLength r then r
  else
    let r := set_contentLength n r in
    if 0 <=? n
    then set_h (DelAllArgs (h r) StrTransferEncoding) (set_contentLengthBytes (uint_bytes n) r)
    else
      let r := set_contentLengthBytes [] r in
      let '(r, value) :=
        if n =? -2 then (SetConnectionClose r, StrIdentity) else (r, StrChunked) in
      set_h (SetArg (h r) StrTransferEncoding value) r.

(** ** Access by name *)

Definition peek (key : bytes) (r : t) : option bytes :=
  if key =b StrContentType then Some (ContentType r)
  else if key =b StrServer then Some (Server r)
  else if key =b StrConnection then
    if ConnectionClose r then Some StrClose else PeekArgBytes (live (h r)) key
  else if key =b StrContentLength then Some (contentLengthBytes r)
  else PeekArgBytes (live (h r)) key.
Definition Peek (key : bytes) (r : t) : option bytes :=
  peek (getHeaderKeyBytes key (disableNormalizing r)) r.
Definition ConnectionUpgrade (r : t) : bool :=
  hasHeaderValue (default [] (Peek StrConnection r)) StrUpgrade.

Definition del (key : bytes) (r : t) : t :=
  let r :=
    if key =b StrContentType then set_contentType [] r
    else if key =b StrServer then set_server [] r
    else if key =b StrSetCookie then set_cookies (cut0 (cookies r)) r
    else if key =b StrContentLength then set_contentLengthBytes [] (set_contentLength 0 r)
    else if key =b StrConnection then set_connectionClose false r
    else r in
  set_h (DelAllArgs (h r) key) r.
Definition Del (key : bytes) (r : t) : t := del (getHeaderKeyBytes key (disableNormalizing r)) r.

Definition Add (key value : bytes) (r : t) : t :=
  set_h (AppendArg (h r) (getHeaderKeyBytes key (disableNormalizing r)) value) r.

(** [AllocArg] and the two assignments of a Set-Cookie line. *)
Definition add_cookie (value : bytes) (r : t) : t :=
  set_cookies (AppendArg (cookies r) (getCookieKey [] value) value) r.

Definition SetCanonical (key value : bytes) (r : t) : t :=
  if key =b StrContentType then SetContentType value r
  else if key =b StrServer then SetServer value r
  else if key =b StrSetCookie then add_cookie value r
  else if key =b StrContentLength then
    match parseContentLength value with
    | (n, None) => set_contentLengthBytes value (set_contentLength n r)
    | (_, Some _) => r
    end
  else if key =b StrConnection then
    if StrClose =b value then SetConnectionClose r
    else let r := ResetConnectionClose r in set_h (SetArg (h r) key value) r
  else if key =b StrTransferEncoding then r
  else if key =b StrDate then r
  else set_h (SetArg (h r) key value) r.
Definition Set_ (key value : bytes) (r : t) : t :=
  SetCanonical (getHeaderKeyBytes key (disableNormalizing r)) value r.

Definition SetContentRange (startPos endPos contentLength : Z) (r : t) : t :=
  SetCanonical StrContentRange
    (StrBytes ++ [" "%byte] ++ uint_bytes startPos ++ ["-"%byte] ++ uint_bytes endPos ++
     ["/"%byte] ++ uint_bytes contentLength) r.

Definition SetCookie `{TimeFormat} (c : Cookie.t) (r : t) : t * Cookie.t :=
  let '(b, c) := Cookie.Cookie_ c in
  (set_cookies (SetArg (cookies r) (Cookie.Key c) b) r, c).
Definition DelCookie (key : bytes) (r : t) : t := set_cookies (DelAllArgs (cookies r) key) r.
Definition DelAllCookies (r : t) : t := set_cookies (cut0 (cookies r)) r.
Definition CookieExpireDelete : Z := 1257894000.
(** [c] is what [AcquireCookie] hands out, a cookie that has been reset. *)
Definition DelClientCookie `{TimeFormat} (key : bytes) (c : Cookie.t) (r : t) : t :=
  (SetCookie (Cookie.SetExpire CookieExpireDelete (Cookie.SetKey key c)) (DelCookie key r)).1.

(** ** Printing *)

(** The calls [VisitAll] makes of its argument, in order. *)
Definition VisitAll (r : t) : list ArgsKV :=
  let one k v := if 0 <? zlen v then [KV k v] else [] in
  one StrContentLength (contentLengthBytes r) ++ one StrContentType (ContentType r) ++
  one StrServer (Server r) ++ ((λ kv, KV StrSetCookie (Value kv)) <$> live (cookies r)) ++
  live (h r) ++ (if ConnectionClose r then [KV StrConnection StrClose] else []).
Definition Len (r : t) : nat := length (VisitAll r).

Definition append_lines (dst : bytes) (l : list ArgsKV) : bytes :=
  fold_left (λ dst kv, appendHeaderLine dst (Key kv) (Value kv)) l dst.

(** [AppendBytes] with the cache of status lines and the server's date. *)
Definition AppendBytes (m : gmap Z bytes) (date dst : bytes) (r : t) : bytes * gmap Z bytes :=
  let statusCode := if StatusCode r <? 0 then StatusOK else StatusCode r in
  let '(sl, m) := statusLine m statusCode in
  let dst := dst ++ sl in
  let dst := appendHeaderLine dst StrServer
    (if zlen (Server r) =? 0 then defaultServerName else Server r) in
  let dst := appendHeaderLine dst StrDate date in
  let dst :=
    if negb (ContentLength r =? 0) || (0 <? zlen (contentType r))
    then appendHeaderLine dst StrContentType (ContentType r) else dst in
  let dst :=
    if 0 <? zlen (contentLengthBytes r)
    then appendHeaderLine dst StrContentLength (contentLengthBytes r) else dst in
  let dst := append_lines dst (filter (λ kv, Key kv ≠ StrDate) (live (h r))) in
  let dst := append_lines dst ((λ kv, KV StrSetCookie (Value kv)) <$> live (cookies r)) in
  let dst := if ConnectionClose r then appendHeaderLine dst StrConnection StrClose else dst in
  (dst ++ StrCRLF, m).

(** ** Parsing *)

Inductive parseError := errNeedMore | errNoSpace | errStatus (e : convErr) | errStatusChar.

(** The first line that is not empty and what follows it. *)
Fixpoint first_line (fuel : nat) (b : bytes) : option (bytes * bytes) :=
  match fuel with
  | O => None
  | S fuel =>
      match nextLine b with
      | None => None
      | Some (l, r) => if zlen l =? 0 then first_line fuel r else Some (l, r)
      end
  end.

Definition parseFirstLine (buf : bytes) (r : t) : t * res parseError nat :=
  match first_line (S (length buf)) buf with
  | None => (r, Err errNeedMore)
  | Some (b, bNext) =>
      match IndexByte b " "%byte with
      | None => (r, Err errNoSpace)
      | Some n =>
          let r := set_noHTTP11 (negb (take n b =b StrHTTP11)) r in
          let b := drop (n + 1) b in
          let '(v, n, err) := ParseUintBuf b in
          let r := set_statusCode v r in
          match err with
          | Some e => (r, Err (errStatus e))
          | None =>
              match b !! Z.to_nat n with
              | Some c =>
                  if c =b " "%byte then (r, Ok (length buf - length bNext)%nat)
                  else (r, Err errStatusChar)
              | None => (r, Ok (length buf - length bNext)%nat)
              end
          end
      end
  end.

(** The switch on the name of a header line. *)
Definition header_case (key value : bytes) (r : t) : t :=
  if key =b StrContentType then set_contentType value r
  else if key =b StrServer then set_server value r
  else if key =b StrContentLength then
    if negb (contentLength r =? -1) then
      match parseContentLength value with
      | (n, None) => set_contentLengthBytes value (set_contentLength n r)
      | (_, Some _) => set_contentLength (-2) r
      end
    else r
  else if key =b StrTransferEncoding then
    if negb (value =b StrIdentity) then
      set_h (SetArg (h r) StrTransferEncoding StrChunked) (set_contentLength (-1) r)
    else r
  else if key =b StrSetCookie then add_cookie value r
  else if key =b StrConnection then
    if value =b StrClose then set_connectionClose true r
    else set_h (AppendArg (h r) key value) (set_connectionClose false r)
  else set_h (AppendArg (h r) key value) r.

(** [None] is [errNeedMore]. *)
Fixpoint parse_lines (fuel : nat) (dis : bool) (b : bytes) (r : t) : t * option bytes :=
  match fuel with
  | O => (r, None)
  | S fuel =>
      match header_next dis b with
      | SLine key value b => parse_lines fuel dis b (header_case key value r)
      | SEnd b => (r, Some b)
      | SNeedMore => (r, None)
      end
  end.

Definition finish (r : t) : t :=
  let r := if contentLength r <? 0 then set_contentLengthBytes [] r else r in
  let r :=
    if (contentLength r =? -2) && negb (ConnectionUpgrade r) && negb (mustSkipContentLength r)
    then set_connectionClose true (set_h (SetArg (h r) StrTransferEncoding StrIdentity) r)
    else r in
  if noHTTP11 r && negb (connectionClose r) then
    let v := default [] (PeekArgBytes (live (h r)) StrConnection) in
    set_connectionClose
      (negb (hasHeaderValue v StrKeepAlive) && negb (hasHeaderValue v StrKeepAliveCamelCase)) r
  else r.

Definition parseHeaders (buf : bytes) (r : t) : t * option nat :=
  let r := set_contentLength (-2) r in
  match parse_lines (S (length buf)) (disableNormalizing r) buf r with
  | (r, None) => (set_connectionClose true r, None)
  | (r, Some b) => (finish r, Some (length buf - length b)%nat)
  end.

Definition parse (buf : bytes) (r : t) : t * res parseError nat :=
  match parseFirstLine buf r with
  | (r, Err e) => (r, Err e)
  | (r, Ok m) =>
      match parseHeaders (drop m buf) r with
      | (r, None) => (r, Err errNeedMore)
      | (r, Some n) => (r, Ok (m + n)%nat)
      end
  end.

End ResponseHeader.

(** ** The status line *)

(** The cache holds formatted lines. *)
Definition cache_ok (m : gmap Z bytes) : Prop := map_Forall (λ c l, l = format_line c) m.

Lemma statusLine_ok m c :
  cache_ok m → (statusLine m c).1 = format_line c ∧ cache_ok (statusLine m c).2.
Proof.
  intros Hm. unfold statusLine. destruct (m !! c) as [l|] eqn:E; cbn.
  - split; [|done]. by apply Hm.
  - split; [done|]. by apply map_Forall_insert_2.
Qed.

Lemma ParseUintBuf_loop_stop ds c t i v :
  digits_ok ds → 0 ≤ i → 0 < i + Z.of_nat (length ds) ≤ 18 → 0 ≤ v < 10 ^ i →
  9 < uint8 (b2z c - 48) →
  ParseUintBuf_loop ((digit <$> ds) ++ c :: t) i v = (dval v ds, i + Z.of_nat (length ds), None).
Proof.
  intros Hd. revert i v. induction Hd as [|d ds Hd _ IH]; intros i v Hi Hl Hv Hc.
  - cbn [fmap list_fmap app ParseUintBuf_loop length dval fold_left] in *.
    rewrite (proj2 (Z.ltb_lt _ _)), (proj2 (Z.eqb_neq _ _)) by lia. by rewrite Z.add_0_r.
  - rewrite fmap_cons. cbn [app ParseUintBuf_loop]. rewrite digit_val by done.
    simpl length in Hl. rewrite (proj2 (Z.ltb_ge _ _)), (proj2 (Z.leb_gt _ _)) by (unfold maxIntChars; lia).
    assert (10 ^ (i + 1) ≤ 10 ^ 18) by (apply Z.pow_le_mono_r; lia).
    rewrite Z.pow_add_r in * by lia. change (10 ^ 1) with 10 in *.
    change (10 ^ 18) with 1000000000000000000 in *.
    rewrite int64_small by lia. rewrite IH; [|lia|lia|rewrite Z.pow_add_r by lia; lia|done].
    cbn [dval fold_left length]. f_equal. f_equal. lia.
Qed.

Lemma digit_not_lf d : 0 ≤ d < 10 → digit d ≠ LF.
Proof.
  intros Hd E. apply (f_equal b2z) in E. unfold digit in E. rewrite b2z_z2b_small in E by lia.
  change (b2z LF) with 10 in E. lia.
Qed.

(** A printed number, followed by a blank. *)
Lemma decimal_spec n t :
  0 < n < 10 ^ 18 →
  ParseUintBuf (decimal n ++ " "%byte :: t) = (n, zlen (decimal n), None) ∧ LF ∉ decimal n.
Proof.
  intros Hn. unfold decimal, AppendUint. rewrite !(proj2 (Z.ltb_ge _ _)) by lia.
  change (default [] (Some ([] ++ ?x))) with x.
  destruct (AppendUint_loop_spec 20 n []) as (ds & -> & Hd & Hv & Hne & Hk);
    [split; [lia|]; apply Z.lt_trans with (10 ^ 18); [lia|by apply Z.pow_lt_mono_r]|lia|].
  specialize (Hk 18%nat ltac:(lia) ltac:(simpl; lia)). rewrite app_nil_r.
  assert (zlen (digit <$> ds) = Z.of_nat (length ds)) as Hz by (unfold zlen; by rewrite length_fmap).
  assert (0 < Z.of_nat (length ds)) as Hp by (destruct ds; [done|simpl; lia]).
  split.
  - unfold ParseUintBuf. rewrite (proj2 (Z.eqb_neq _ _)); cycle 1.
    { rewrite zlen_app. pose proof (zlen_nonneg (" "%byte :: t)). lia. }
    rewrite ParseUintBuf_loop_stop by (done || lia). by rewrite Hv, Hz.
  - intros (d & E & Hin)%list_elem_of_fmap. unfold digits_ok in Hd.
    rewrite list.Forall_forall in Hd. apply Hd in Hin. symmetry in E. by apply digit_not_lf in E.
Qed.

Lemma StatusMessage_lf c : LF ∉ StatusMessage c.
Proof.
  unfold StatusMessage. case_bool_decide; [by rewrite <- IndexByte_None|].
  assert (Forall (λ p : Z * bytes, IndexByte p.2 LF = None) statusMessages) as HF
    by (repeat constructor).
  revert HF. generalize statusMessages. induction 1 as [|[k v] l Hv _ IH]; cbn; [set_solver|].
  case_match; [|done]. by apply IndexByte_None.
Qed.

Section response.
Import ResponseHeader.
Implicit Types r x : ResponseHeader.t.

Lemma parseFirstLine_status c rest r :
  0 < c < 10 ^ 18 →
  parseFirstLine (format_line c ++ rest) r =
    (set_statusCode c (set_noHTTP11 false r), Ok (length (format_line c))).
Proof.
  intros Hc. unfold parseFirstLine, format_line.
  destruct (decimal_spec c (StatusMessage c) Hc) as [Hd Hlf].
  set (l := StrHTTP11 ++ " "%byte :: decimal c ++ " "%byte :: StatusMessage c).
  assert (∀ s, (bs "HTTP/1.1 " ++ decimal c ++ [" "%byte] ++ StatusMessage c ++ StrCRLF) ++ s =
    l ++ StrCRLF ++ s) as E.
  { intros s. subst l. change (bs "HTTP/1.1 ") with (StrHTTP11 ++ [" "%byte]).
    repeat (rewrite <- app_assoc || cbn [app]). done. }
  rewrite E. cbn [first_line]. rewrite nextLine_line; cycle 1.
  { subst l. pose proof (StatusMessage_lf c).
    assert (LF ∉ StrHTTP11) by (by rewrite <- IndexByte_None). set_solver. }
  change (zlen l =? 0) with false. cbv iota. subst l.
  rewrite IndexByte_app by (by rewrite <- IndexByte_None).
  rewrite take_app_length, Nat.add_1_r, drop_S_app, Hd. cbv iota.
  unfold zlen. rewrite Nat2Z.id, list_lookup_middle by done.
  rewrite !bool_decide_eq_true_2 by done. do 2 f_equal.
  rewrite <- E, length_app. cbn [length]. lia.
Qed.

(** ** Header lines *)

Definition fold_resp (l : list ArgsKV) x : ResponseHeader.t :=
  fold_left (λ x kv, header_case (Key kv) (Value kv) x) l x.

Lemma fold_resp_cons kv l x : fold_resp (kv :: l) x = fold_resp l (header_case (Key kv) (Value kv) x).
Proof. done. Qed.
Lemma fold_resp_app l l' x : fold_resp (l ++ l') x = fold_resp l' (fold_resp l x).
Proof. apply fold_left_app. Qed.

Lemma resp_lines_text fuel dis l rest x :
  Forall line_ok l → (length l < fuel)%nat →
  parse_lines fuel dis (header_text l ++ StrCRLF ++ rest) x =
    (fold_resp (norm_kv dis <$> l) x, Some rest).
Proof.
  intros Hl. revert fuel x. induction Hl as [|kv l Hkv _ IH]; intros fuel x Hf.
  - destruct fuel; [cbn in Hf; lia|]. done.
  - destruct fuel as [|fuel]; [lia|]. cbn [parse_lines].
    rewrite header_text_cons, <- app_assoc, header_next_line by done.
    rewrite IH by (cbn in Hf; lia). done.
Qed.

(** More fuel than the length of the input changes nothing: [errNeedMore] is
    never an exhausted loop. *)
Lemma resp_lines_fuel f f' dis b x :
  (length b < f)%nat → (length b < f')%nat → parse_lines f dis b x = parse_lines f' dis b x.
Proof.
  revert f' b x. induction f as [|f IH]; intros f' b x Hf Hf'; [lia|].
  destruct f' as [|f']; [lia|]. cbn [parse_lines].
  pose proof (header_next_shorter dis b) as Hs. destruct (header_next dis b); try done.
  apply IH; lia.
Qed.

Definition special_resp (k : bytes) : bool :=
  (k =b StrContentType) || (k =b StrServer) || (k =b StrContentLength)
    || (k =b StrTransferEncoding) || (k =b StrSetCookie) || (k =b StrConnection).

Lemma fold_resp_plain l x :
  Forall (λ kv, special_resp (Key kv) = false) l →
  ∃ hh, fold_resp l x = set_h hh x ∧ live hh = live (h x) ++ l.
Proof.
  intros Hl. revert x. induction Hl as [|kv l Hk _ IH]; intros x.
  - exists (h x). rewrite app_nil_r. by destruct x.
  - assert (header_case (Key kv) (Value kv) x = set_h (AppendArg (h x) (Key kv) (Value kv)) x) as E.
    { revert Hk. unfold special_resp, header_case. rewrite !orb_false_iff.
      intros [[[[[-> ->] ->] ->] ->] ->]. done. }
    rewrite fold_resp_cons, E.
    destruct (IH (set_h (AppendArg (h x) (Key kv) (Value kv)) x)) as (hh & E' & Hh).
    exists hh. split; [by rewrite E'; destruct x|].
    rewrite Hh. cbn [h set_h]. rewrite AppendArg_live, <- app_assoc. by destruct kv.
Qed.

Definition cookie_line (kv : ArgsKV) : ArgsKV := KV StrSetCookie (Value kv).

Lemma fold_resp_cookies l x :
  Forall (λ kv, Key kv = getCookieKey [] (Value kv)) l →
  ∃ ck, fold_resp (cookie_line <$> l) x = set_cookies ck x ∧ live ck = live (cookies x) ++ l.
Proof.
  intros Hl. revert x. induction Hl as [|kv l Hk _ IH]; intros x.
  - exists (cookies x). rewrite app_nil_r. by destruct x.
  - rewrite fmap_cons, fold_resp_cons.
    change (header_case (Key (cookie_line kv)) (Value (cookie_line kv)) x) with (add_cookie (Value kv) x).
    destruct (IH (add_cookie (Value kv) x)) as (ck & E & Hc).
    exists ck. split; [by rewrite E; destruct x|].
    rewrite Hc. unfold add_cookie. cbn [cookies set_cookies].
    rewrite AppendArg_live, <- Hk, <- app_assoc. by destruct kv.
Qed.

(** The lines [AppendBytes] prints. *)
Definition resp_close r : list ArgsKV := if connectionClose r then [KV StrConnection StrClose] else [].
Definition resp_head (date : bytes) r : list ArgsKV :=
  [KV StrServer (server r); KV StrDate date; KV StrContentType (contentType r);
   KV StrContentLength (contentLengthBytes r)].
Definition resp_lines (date : bytes) r : list ArgsKV :=
  resp_head date r ++ live (h r) ++ (cookie_line <$> live (cookies r)) ++ resp_close r.

(** A response with its fields set and a body of known length. *)
Record wf_response (date : bytes) r : Prop := {
  ws_norm : disableNormalizing r = false; ws_http11 : noHTTP11 r = false;
  ws_status : 0 < statusCode r < 10 ^ 18;
  ws_server : server r ≠ []; ws_type : contentType r ≠ [];
  ws_length : parseContentLength (contentLengthBytes r) = (contentLength r, None);
  ws_length_ok : 0 ≤ contentLength r ∧ contentLengthBytes r ≠ [];
  ws_names : Forall (λ kv, special_resp (Key kv) = false ∧ Key kv ≠ StrDate ∧
    normalizeHeaderKey (Key kv) false = Key kv) (live (h r));
  ws_cookies : Forall (λ kv, Key kv = getCookieKey [] (Value kv)) (live (cookies r));
  ws_lines : Forall line_ok (resp_lines date r)
}.

Lemma resp_append_lines dst l : append_lines dst l = dst ++ header_text l.
Proof.
  revert dst. induction l as [|kv l IH]; intros dst; cbn [append_lines fold_left].
  - by rewrite app_nil_r.
  - fold (append_lines (appendHeaderLine dst (Key kv) (Value kv)) l).
    rewrite IH, header_text_cons, app_assoc. f_equal.
Qed.

Lemma filter_all {A} (P : A → Prop) `{∀ y, Decision (P y)} l : Forall P l → filter P l = l.
Proof. induction 1 as [|y l Hy _ IH]; [done|]. rewrite filter_cons_True by done. by rewrite IH. Qed.

Lemma AppendBytes_resp m date r :
  wf_response date r → cache_ok m →
  (AppendBytes m date [] r).1 = format_line (statusCode r) ++ header_text (resp_lines date r) ++ StrCRLF
  ∧ cache_ok (AppendBytes m date [] r).2.
Proof.
  intros Hr Hm. pose proof (ws_status _ _ Hr) as Hs. unfold AppendBytes.
  assert (StatusCode r = statusCode r) as ->
    by (unfold StatusCode; by rewrite (proj2 (Z.eqb_neq _ _)) by lia).
  rewrite (proj2 (Z.ltb_ge _ _)) by lia.
  destruct (statusLine_ok m (statusCode r) Hm) as [Hl Hm'].
  destruct (statusLine m (statusCode r)) as [sl m'']. cbn [fst snd] in *. split; [|done]. subst sl.
  rewrite !resp_append_lines, filter_all; cycle 1.
  { eapply list.Forall_impl; [apply (ws_names _ _ Hr)|]. by intros kv (_ & ? & _). }
  unfold resp_lines, resp_head, resp_close, Server, ContentType, ConnectionClose. rewrite !header_text_app.
  rewrite !zlen_posb. pose proof (ws_server _ _ Hr). pose proof (ws_type _ _ Hr).
  destruct (ws_length_ok _ _ Hr) as [_ Hcl]. rewrite !appendHeaderLine_dst.
  rewrite !header_text_cons. change (header_text []) with (@nil byte).
  destruct (server r), (contentType r), (contentLengthBytes r); try done.
  rewrite orb_true_r. destruct (connectionClose r); rewrite ?header_text_one, ?appendHeaderLine_dst;
    repeat (rewrite <- !app_assoc || cbn [app]); done.
Qed.

Lemma fold_resp_head date r x :
  contentLength x = -2 →
  parseContentLength (contentLengthBytes r) = (contentLength r, None) →
  fold_resp (resp_head date r) x =
  set_contentLengthBytes (contentLengthBytes r) (set_contentLength (contentLength r)
    (set_contentType (contentType r) (set_h (AppendArg (h x) StrDate date) (set_server (server r) x)))).
Proof.
  intros Hn Hp. unfold resp_head. rewrite !fold_resp_cons. change (fold_resp [] ?y) with y.
  change (header_case (Key (KV StrServer ?v)) _ ?y) with (set_server v y).
  change (header_case (Key (KV StrDate ?v)) _ ?y) with (set_h (AppendArg (h y) StrDate v) y).
  change (header_case (Key (KV StrContentType ?v)) _ ?y) with (set_contentType v y).
  set (y := set_contentType _ _). assert (contentLength y = -2) as Hy by done.
  change (header_case (Key (KV StrContentLength ?v)) _ ?y) with
    (if negb (contentLength y =? -1) then
       match parseContentLength v with
       | (n, None) => set_contentLengthBytes v (set_contentLength n y)
       | (_, Some _) => set_contentLength (-2) y
       end else y).
  by rewrite Hy, Hp.
Qed.

(** What a client can observe; a Date line is added by the printer. *)
Record same_resp (date : bytes) (a b : ResponseHeader.t) : Prop := {
  sr_status : statusCode a = statusCode b; sr_server : server a = server b;
  sr_type : contentType a = contentType b; sr_length : contentLength a = contentLength b;
  sr_lengthBytes : contentLengthBytes a = contentLengthBytes b;
  sr_close : connectionClose a = connectionClose b; sr_http11 : noHTTP11 a = noHTTP11 b;
  sr_h : live (h a) = KV StrDate date :: live (h b); sr_cookies : live (cookies a) = live (cookies b)
}.

Lemma resp_lines_norm date r : wf_response date r → norm_kv false <$> resp_lines date r = resp_lines date r.
Proof.
  intros Hr. apply norm_kv_id. unfold resp_lines, resp_head, resp_close.
  repeat (apply Forall_app; split).
  - by repeat constructor.
  - eapply list.Forall_impl; [apply (ws_names _ _ Hr)|]. by intros kv (_ & _ & ?).
  - apply Forall_fmap, list.Forall_forall. done.
  - case_match; by repeat constructor.
Qed.

Lemma parseHeaders_resp date r r0 rest :
  wf_response date r → disableNormalizing r0 = false →
  let x := set_statusCode (statusCode r) (set_noHTTP11 false (ResetSkipNormalize r0)) in
  ∃ y, parseHeaders (header_text (resp_lines date r) ++ StrCRLF ++ rest) x =
      (y, Some (length (header_text (resp_lines date r) ++ StrCRLF))) ∧ same_resp date y r.
Proof.
  intros Hr Hd x. unfold parseHeaders.
  change (disableNormalizing (set_contentLength (-2) x)) with (disableNormalizing r0). rewrite Hd.
  rewrite resp_lines_text; [|apply Hr|pose proof (header_text_length (resp_lines date r)); rewrite length_app; lia].
  rewrite resp_lines_norm by done. cbv iota. unfold resp_lines at 1.
  rewrite !fold_resp_app, fold_resp_head by (done || apply Hr).
  set (z := set_contentLengthBytes _ _).
  destruct (fold_resp_plain (live (h r)) z) as (hh & -> & Hh).
  { eapply list.Forall_impl; [apply (ws_names _ _ Hr)|]. by intros kv (? & _ & _). }
  destruct (fold_resp_cookies (live (cookies r)) (set_h hh z) (ws_cookies _ _ Hr)) as (ck & -> & Hck).
  assert (fold_resp (resp_close r) (set_cookies ck (set_h hh z)) =
    set_connectionClose (connectionClose r) (set_cookies ck (set_h hh z))) as ->.
  { unfold resp_close. by destruct (connectionClose r). }
  set (w := set_connectionClose _ _). destruct (ws_length_ok _ _ Hr) as [Hcl _].
  assert (finish w = w) as ->.
  { unfold finish. change (contentLength w) with (contentLength r).
    rewrite (proj2 (Z.ltb_ge (contentLength r) 0)) by lia. cbv zeta.
    change (contentLength w) with (contentLength r).
    by rewrite (proj2 (Z.eqb_neq (contentLength r) (-2))) by lia. }
  eexists. split.
  - do 2 f_equal. rewrite app_assoc, (length_app _ rest). lia.
  - split; try done; [symmetry; apply (ws_http11 _ _ Hr)|].
    change (live hh = KV StrDate date :: live (h r)). rewrite Hh.
    change (h z) with (AppendArg (cut0 (h r0)) StrDate date). by rewrite AppendArg_live.
Qed.
End response.

Lemma response_parses m date r r0 rest :
  wf_response date r → cache_ok m → ResponseHeader.disableNormalizing r0 = false →
  let text := (ResponseHeader.AppendBytes m date [] r).1 in
  cache_ok (ResponseHeader.AppendBytes m date [] r).2 ∧
  ∃ y, ResponseHeader.parse (text ++ rest) (ResponseHeader.ResetSkipNormalize r0) =
      (y, Ok (length text)) ∧ same_resp date y r.
Proof.
  intros Hr Hm Hd text. destruct (AppendBytes_resp m date r Hr Hm) as [Ht Hm']. split; [done|].
  subst text. rewrite Ht. unfold ResponseHeader.parse.
  rewrite <- app_assoc, parseFirstLine_status by apply Hr. rewrite drop_app_length, <- app_assoc.
  destruct (parseHeaders_resp date r r0 rest Hr Hd) as (y & E & Hs). cbv zeta in E. rewrite E.
  exists y. split; [|done]. by rewrite (length_app (format_line _)).
Qed.

(** ** Properties *)

(** A response header printed by [AppendBytes], with any consistent cache of
    status lines and any date, and followed by any bytes, parses back to the same
    status, server, content type and length, connection flag, headers and
    cookies, with the Date line in front of the headers; exactly the printed bytes
    are consumed, and the cache stays consistent. *)
Theorem response_roundtrip m date r r0 rest :
  wf_response date r → cache_ok m → ResponseHeader.disableNormalizing r0 = false →
  let text := (ResponseHeader.AppendBytes m date [] r).1 in
  cache_ok (ResponseHeader.AppendBytes m date [] r).2 ∧
  ∃ y, ResponseHeader.parse (text ++ rest) (ResponseHeader.ResetSkipNormalize r0) =
      (y, Ok (length text)) ∧ same_resp date y r.
Proof. apply response_parses. Qed.

Definition resp0 : ResponseHeader.t :=
  ResponseHeader.Mk false false true 404 5 (bs "5") (bs "text/html") (bs "strike")
    (ArgsSlice [KV (bs "X-Id") (bs "7")] [])
    (ArgsSlice [KV (bs "sid") (bs "sid=x; HttpOnly")] []).
Definition resp_empty : ResponseHeader.t :=
  ResponseHeader.Mk false false false 0 0 [] [] [] (ArgsSlice [] []) (ArgsSlice [] []).
Definition date0 : bytes := bs "Tue, 10 Nov 2009 23:00:00 GMT".

Lemma response_roundtrip_witness :
  cache_ok (ResponseHeader.AppendBytes ∅ date0 [] resp0).2 ∧
  ∃ y, ResponseHeader.parse ((ResponseHeader.AppendBytes ∅ date0 [] resp0).1 ++ bs "hello")
      (ResponseHeader.ResetSkipNormalize resp_empty) =
      (y, Ok (length (ResponseHeader.AppendBytes ∅ date0 [] resp0).1)) ∧ same_resp date0 y resp0.
Proof.
  apply (response_roundtrip ∅ date0 resp0 resp_empty (bs "hello")); [|apply map_Forall_empty|reflexivity].
  constructor; try done.
  - by repeat constructor.
  - by repeat constructor.
  - repeat constructor; by apply line_ok_dec; vm_compute.
Defined.
