(* ===== verification/SList.v ===== *)
(** * Containers: the locked list

    src/utils/container/slist: a doubly linked list of Go's container/list under
    a mutex.  [dlist] is what is used of container/list: the elements from front
    to back, each with its address, and the address of the list itself, by which
    container/list tells its own elements from others.  Every method of slist
    holds the mutex from beginning to end, so it is one atomic operation; its
    loops are written out, with [None] for the panic of a nil element.

    The theorems: the methods that deal in values refine an abstract deque of
    values and never panic; the methods that deal in elements keep the elements
    distinct and do to the order what their names say. *)
From S2P Require Import Prelude.

(** An element: its address (of the list that allocated it, and a serial
    number) and its value. *)
Record Element (V : Type) : Type := mkElement { eptr : nat * nat; Value : V }.
Arguments mkElement {V} eptr Value.
Arguments eptr {V} e : rename.
Arguments Value {V} e : rename.

(** ** container/list *)

Module dlist.
Record t (V : Type) : Type := mk { addr : nat; serial : nat; elems : list (Element V) }.
Arguments mk {V} addr serial elems.
Arguments addr {V} l : rename.
Arguments serial {V} l : rename.
Arguments elems {V} l : rename.

Section dlist.
Context {V : Type}.
Implicit Types (l : t V) (e p : Element V) (v : V).

Definition New (a : nat) : t V := mk a 0 [].
Definition Len l : Z := zlen (elems l).
Definition Front l : option (Element V) := head (elems l).
Definition Back l : option (Element V) := list.last (elems l).

(** [e.list == l] *)
Definition mine l e : bool := bool_decide (eptr e ∈ eptr <$> elems l).
Definition same e p : bool := bool_decide (eptr e = eptr p).

Fixpoint next_in (es : list (Element V)) e : option (Element V) :=
  match es with
  | [] => None
  | x :: es' => if same x e then head es' else next_in es' e
  end.
Definition Next l e : option (Element V) := next_in (elems l) e.
Definition Prev l e : option (Element V) := next_in (reverse (elems l)) e.

Definition with_elems l (es : list (Element V)) : t V := mk (addr l) (serial l) es.
Definition alloc l v : Element V * t V :=
  (mkElement (addr l, serial l) v, mk (addr l) (S (serial l)) (elems l)).

Definition PushFront l v : Element V * t V :=
  let '(e, l') := alloc l v in (e, with_elems l' (e :: elems l')).
Definition PushBack l v : Element V * t V :=
  let '(e, l') := alloc l v in (e, with_elems l' (elems l' ++ [e])).

Fixpoint without (es : list (Element V)) e : list (Element V) :=
  match es with
  | [] => []
  | x :: es' => if same x e then es' else x :: without es' e
  end.
Fixpoint before (es : list (Element V)) e p : list (Element V) :=
  match es with
  | [] => []
  | x :: es' => if same x p then e :: x :: es' else x :: before es' e p
  end.
Fixpoint after (es : list (Element V)) e p : list (Element V) :=
  match es with
  | [] => []
  | x :: es' => if same x p then x :: e :: es' else x :: after es' e p
  end.

Definition Remove l e : V * t V :=
  (Value e, if mine l e then with_elems l (without (elems l) e) else l).
Definition MoveToFront l e : t V :=
  if mine l e then with_elems l (e :: without (elems l) e) else l.
Definition MoveToBack l e : t V :=
  if mine l e then with_elems l (without (elems l) e ++ [e]) else l.
Definition MoveBefore l e p : t V :=
  if negb (mine l e) || same e p || negb (mine l p) then l
  else with_elems l (before (without (elems l) e) e p).
Definition MoveAfter l e p : t V :=
  if negb (mine l e) || same e p || negb (mine l p) then l
  else with_elems l (after (without (elems l) e) e p).
Definition InsertBefore l v p : option (Element V) * t V :=
  if mine l p then
    let '(e, l') := alloc l v in (Some e, with_elems l' (before (elems l') e p))
  else (None, l).
Definition InsertAfter l v p : option (Element V) * t V :=
  if mine l p then
    let '(e, l') := alloc l v in (Some e, with_elems l' (after (elems l') e p))
  else (None, l).

(** The values of [other], read before the loop adds to [l], which may be the
    same list. *)
Definition PushBackList l (other : t V) : t V :=
  foldl (λ l v, (PushBack l v).2) l (Value <$> elems other).
Definition PushFrontList l (other : t V) : t V :=
  foldl (λ l v, (PushFront l v).2) l (reverse (Value <$> elems other)).
End dlist.
End dlist.

(** ** slist.go *)

Module slist.
Record List (V : Type) : Type := mkList { list : dlist.t V }.
Arguments mkList {V} list.
Arguments list {V} l : rename.

Section slist.
Context {V : Type}.
Implicit Types (l : List V) (v : V) (e p : Element V).

Definition New (a : nat) : List V := mkList (dlist.New a).

Definition PushFront l v : Element V * List V :=
  let '(e, d) := dlist.PushFront (list l) v in (e, mkList d).
Definition PushBack l v : Element V * List V :=
  let '(e, d) := dlist.PushBack (list l) v in (e, mkList d).

Fixpoint PushFronts_loop (d : dlist.t V) (values : Datatypes.list V) : dlist.t V :=
  match values with
  | [] => d
  | v :: values' => PushFronts_loop (dlist.PushFront d v).2 values'
  end.
Definition PushFronts l values : List V := mkList (PushFronts_loop (list l) values).
Fixpoint PushBacks_loop (d : dlist.t V) (values : Datatypes.list V) : dlist.t V :=
  match values with
  | [] => d
  | v :: values' => PushBacks_loop (dlist.PushBack d v).2 values'
  end.
Definition PushBacks l values : List V := mkList (PushBacks_loop (list l) values).

Definition PopBack l : option V * List V :=
  match dlist.Back (list l) with
  | Some e => let '(value, d) := dlist.Remove (list l) e in (Some value, mkList d)
  | None => (None, l)
  end.
Definition PopFront l : option V * List V :=
  match dlist.Front (list l) with
  | Some e => let '(value, d) := dlist.Remove (list l) e in (Some value, mkList d)
  | None => (None, l)
  end.

(** [values[i] = l.list.Remove(end_())], [n] times. *)
Fixpoint pop_loop (end_ : dlist.t V → option (Element V)) (n : nat) (d : dlist.t V)
    : option (Datatypes.list V * dlist.t V) :=
  match n with
  | O => Some ([], d)
  | S n' =>
      e ← end_ d;
      let '(value, d1) := dlist.Remove d e in
      '(values, d2) ← pop_loop end_ n' d1;
      Some (value :: values, d2)
  end.
Definition pops (end_ : dlist.t V → option (Element V)) l (max : Z)
    : option (Datatypes.list V * List V) :=
  let length := dlist.Len (list l) in
  if 0 <? length then
    let length := if (0 <? max) && (max <? length) then max else length in
    '(values, d) ← pop_loop end_ (Z.to_nat length) (list l);
    Some (values, mkList d)
  else Some ([], l).
Definition PopBacks l (max : Z) := pops dlist.Back l max.
Definition PopFronts l (max : Z) := pops dlist.Front l max.
Definition PopBackAll l := PopBacks l (-1).
Definition PopFrontAll l := PopFronts l (-1).

(** The loops that walk the elements: [e.Value] of a nil element panics, the
    [Next] of the last round is not looked at. *)
Fixpoint walk (next : Element V → option (Element V)) (n : nat) (o : option (Element V))
    : option (Datatypes.list V) :=
  match n with
  | O => Some []
  | S n' => e ← o; values ← walk next n' (next e); Some (Value e :: values)
  end.
Definition FrontAll l : option (Datatypes.list V) :=
  let length := dlist.Len (list l) in
  if 0 <? length then
    walk (dlist.Next (list l)) (Z.to_nat length) (dlist.Front (list l))
  else Some [].
Definition BackAll l : option (Datatypes.list V) :=
  let length := dlist.Len (list l) in
  if 0 <? length then
    walk (dlist.Prev (list l)) (Z.to_nat length) (dlist.Back (list l))
  else Some [].

Definition FrontValue l : option V := Value <$> dlist.Front (list l).
Definition BackValue l : option V := Value <$> dlist.Back (list l).
Definition Front l : option (Element V) := dlist.Front (list l).
Definition Back l : option (Element V) := dlist.Back (list l).
Definition Len l : Z := dlist.Len (list l).
Definition Size l : Z := Len l.

Definition MoveBefore l e p : List V := mkList (dlist.MoveBefore (list l) e p).
Definition MoveAfter l e p : List V := mkList (dlist.MoveAfter (list l) e p).
Definition MoveToFront l e : List V := mkList (dlist.MoveToFront (list l) e).
Definition MoveToBack l e : List V := mkList (dlist.MoveToBack (list l) e).
Definition PushBackList l (other : List V) : List V :=
  mkList (dlist.PushBackList (list l) (list other)).
Definition PushFrontList l (other : List V) : List V :=
  mkList (dlist.PushFrontList (list l) (list other)).
Definition InsertAfter l v p : option (Element V) * List V :=
  let '(e, d) := dlist.InsertAfter (list l) v p in (e, mkList d).
Definition InsertBefore l v p : option (Element V) * List V :=
  let '(e, d) := dlist.InsertBefore (list l) v p in (e, mkList d).
Definition Remove l e : V * List V :=
  let '(value, d) := dlist.Remove (list l) e in (value, mkList d).
Definition Removes l (es : Datatypes.list (Element V)) : List V :=
  mkList (foldl (λ d e, (dlist.Remove d e).2) (list l) es).

(** The fresh list is allocated at address [a]. *)
Definition RemoveAll (a : nat) l : List V := mkList (dlist.New a).
Definition Clear (a : nat) l : List V := RemoveAll a l.

Definition RLockFunc {A} l (f : dlist.t V → A) : A := f (list l).
Definition LockFunc l (f : dlist.t V → dlist.t V) : List V := mkList (f (list l)).

(** The iterators, for a callback that works on a state [St]. *)
Fixpoint iterate {St} (next : Element V → option (Element V)) (f : Element V → St → bool * St)
    (n : nat) (o : option (Element V)) (s : St) : option St :=
  match n with
  | O => Some s
  | S n' =>
      e ← o;
      let '(go, s1) := f e s in
      if go then iterate next f n' (next e) s1 else Some s1
  end.
Definition IteratorAsc {St} l (f : Element V → St → bool * St) (s : St) : option St :=
  let length := dlist.Len (list l) in
  if 0 <? length then
    iterate (dlist.Next (list l)) f (Z.to_nat length) (dlist.Front (list l)) s
  else Some s.
Definition IteratorDesc {St} l (f : Element V → St → bool * St) (s : St) : option St :=
  let length := dlist.Len (list l) in
  if 0 <? length then
    iterate (dlist.Prev (list l)) f (Z.to_nat length) (dlist.Back (list l)) s
  else Some s.
Definition Iterator {St} l (f : Element V → St → bool * St) (s : St) := IteratorAsc l f s.
End slist.
End slist.

(** ** Well-formed lists

    The elements have distinct addresses, all allocated by this list. *)

Module facts.
Import dlist.
Section facts.
Context {V : Type}.
Implicit Types (l d : t V) (e p : Element V) (v : V) (es : list (Element V)).

Definition wf l : Prop :=
  NoDup (eptr <$> elems l) ∧
  Forall (λ e, (eptr e).1 = addr l ∧ ((eptr e).2 < serial l)%nat) (elems l).

Definition values l : list V := Value <$> elems l.

Lemma New_wf a : wf (@New V a).
Proof. split; constructor. Qed.

Lemma same_true e p : same e p = true ↔ eptr e = eptr p.
Proof. unfold same. apply bool_decide_eq_true. Qed.
Lemma same_refl e : same e e = true.
Proof. by apply same_true. Qed.

Lemma fresh_ptr l : wf l → (addr l, serial l) ∉ eptr <$> elems l.
Proof.
  intros [_ F] (e & E & He)%list_elem_of_fmap.
  rewrite list.Forall_forall in F. apply F in He as [_ He]. rewrite <- E in He. simpl in He. lia.
Qed.

Lemma wf_grow l : wf l →
  Forall (λ e, (eptr e).1 = addr l ∧ ((eptr e).2 < S (serial l))%nat) (elems l).
Proof. intros [_ F]. eapply list.Forall_impl; [exact F|]. simpl. lia. Qed.

Lemma PushFront_spec l v : wf l →
  wf (PushFront l v).2 ∧ values (PushFront l v).2 = v :: values l.
Proof.
  intros W. split; [|done]. pose proof (fresh_ptr _ W). pose proof (wf_grow _ W).
  destruct W as [N F]. split; simpl; constructor; auto; simpl; lia.
Qed.

Lemma PushBack_spec l v : wf l →
  wf (PushBack l v).2 ∧ values (PushBack l v).2 = values l ++ [v].
Proof.
  intros W. pose proof (fresh_ptr _ W). pose proof (wf_grow _ W). destruct W as [N F].
  split; [|unfold values; simpl; by rewrite fmap_app].
  split; simpl.
  - rewrite fmap_app. apply list.NoDup_app. split; [done|]. split; [set_solver|].
    apply NoDup_singleton.
  - apply Forall_app. split; [done|]. repeat constructor.
Qed.

Lemma mine_elem l e : e ∈ elems l → mine l e = true.
Proof. intros. unfold mine. apply bool_decide_eq_true. by apply list_elem_of_fmap_2. Qed.

Lemma without_notin es e : eptr e ∉ eptr <$> es → without es e = es.
Proof.
  induction es as [|x es IH]; simpl; intros H; [done|].
  destruct (same x e) eqn:E; [apply same_true in E; set_solver|].
  by rewrite IH by set_solver.
Qed.

Lemma without_mid es e es' : eptr e ∉ eptr <$> es →
  without (es ++ e :: es') e = es ++ es'.
Proof.
  induction es as [|x es IH]; simpl; intros H; [by rewrite same_refl|].
  destruct (same x e) eqn:E; [apply same_true in E; set_solver|].
  by rewrite IH by set_solver.
Qed.

(** An element of a list splits it; its address is on neither side. *)
Lemma wf_split l es e es' : wf l → elems l = es ++ e :: es' →
  eptr e ∉ eptr <$> es ∧ eptr e ∉ eptr <$> es' ∧ NoDup (eptr <$> es ++ es').
Proof.
  intros [N _] E. rewrite E, fmap_app, fmap_cons in N.
  apply list.NoDup_app in N as (N1 & D & N2). apply list.NoDup_cons in N2 as [N2 N3].
  split_and!; [|done|].
  - intros H. apply (D _ H). set_solver.
  - rewrite fmap_app. apply list.NoDup_app. split_and!; [done|set_solver|done].
Qed.

Lemma Remove_spec l es e es' : wf l → elems l = es ++ e :: es' →
  Remove l e = (Value e, with_elems l (es ++ es')) ∧ wf (with_elems l (es ++ es')).
Proof.
  intros W E. destruct (wf_split _ _ _ _ W E) as (H1 & H2 & N).
  unfold Remove. rewrite mine_elem by (rewrite E; set_solver). split.
  - by rewrite E, without_mid.
  - split; [done|]. simpl. destruct W as [_ F]. rewrite E in F.
    apply Forall_app in F as [F1 F2]. inversion F2; subst. by apply Forall_app.
Qed.

Lemma Front_cons l e es : elems l = e :: es → Front l = Some e.
Proof. unfold Front. by intros ->. Qed.
Lemma Back_snoc l e es : elems l = es ++ [e] → Back l = Some e.
Proof. unfold Back. intros ->. by rewrite last_snoc. Qed.

Lemma elems_nil l : values l = [] → elems l = [].
Proof. apply fmap_nil_inv. Qed.

(** ** The loops *)

Lemma pop_loop_S end_ n d e d1 : end_ d = Some e → Remove d e = (Value e, d1) →
  slist.pop_loop end_ (S n) d =
  '(vs, d2) ← slist.pop_loop end_ n d1; Some (Value e :: vs, d2).
Proof. intros E R. cbn [slist.pop_loop]. rewrite E. cbn [mbind option_bind]. by rewrite R. Qed.

Lemma pop_front_loop n d : wf d → (n ≤ length (elems d))%nat →
  ∃ d', slist.pop_loop Front n d = Some (take n (values d), d') ∧
    wf d' ∧ values d' = drop n (values d).
Proof.
  revert d. induction n as [|n IH]; intros d W L.
  - exists d. by rewrite take_0, drop_0.
  - destruct (elems d) as [|e es] eqn:E; simpl in L; [lia|].
    destruct (Remove_spec d [] e es W E) as [R W'].
    rewrite (pop_loop_S _ _ _ _ _ (Front_cons _ _ _ E) R). cbn [app].
    destruct (IH (with_elems d es) W') as (d' & H1 & H2 & H3); [simpl; lia|].
    rewrite H1. simpl. exists d'. unfold values in *. rewrite E. simpl. done.
Qed.

Lemma pop_back_loop n d : wf d → (n ≤ length (elems d))%nat →
  ∃ d', slist.pop_loop Back n d = Some (take n (reverse (values d)), d') ∧
    wf d' ∧ values d' = take (length (elems d) - n) (values d).
Proof.
  revert d. induction n as [|n IH]; intros d W L.
  - exists d. rewrite take_0. split_and!; [done|done|].
    rewrite take_ge; [done|]. unfold values. rewrite length_fmap. lia.
  - destruct (elems d) as [|e es _] eqn:E using rev_ind; simpl in L; [lia|].
    rewrite length_app in L. simpl in L.
    destruct (Remove_spec d es e [] W E) as [R W'].
    rewrite (pop_loop_S _ _ _ _ _ (Back_snoc _ _ _ E) R), app_nil_r. rewrite app_nil_r in W'.
    destruct (IH (with_elems d es) W') as (d' & H1 & H2 & H3); [simpl; lia|].
    rewrite H1. simpl. exists d'. unfold values in *. simpl in *. rewrite E.
    rewrite fmap_app, reverse_app. simpl. split_and!; [done|done|].
    rewrite H3, length_app. simpl.
    rewrite take_app_le by (rewrite length_fmap; lia). f_equal. lia.
Qed.

Lemma next_in_mid es e es' : eptr e ∉ eptr <$> es →
  next_in (es ++ e :: es') e = head es'.
Proof.
  induction es as [|x es IH]; simpl; intros H; [by rewrite same_refl|].
  destruct (same x e) eqn:E; [apply same_true in E; set_solver|]. apply IH. set_solver.
Qed.

Lemma next_in_all all es e es' : NoDup (eptr <$> all) → all = es ++ e :: es' →
  next_in all e = head es'.
Proof.
  intros N ->. apply next_in_mid. rewrite fmap_app, fmap_cons in N.
  apply list.NoDup_app in N as (_ & D & _). intros H. apply (D _ H). set_solver.
Qed.

(** Walking from a suffix visits the suffix. *)
Lemma walk_suffix all es es' : NoDup (eptr <$> all) → all = es ++ es' →
  slist.walk (next_in all) (length es') (head es') = Some (Value <$> es').
Proof.
  revert es. induction es' as [|e es' IH]; simpl; intros es N E; [done|].
  rewrite (next_in_all _ _ _ _ N E). by rewrite (IH (es ++ [e])) by (by rewrite <- ?app_assoc).
Qed.

Lemma iterate_suffix {St} (f : Element V → St → bool * St) all es es' s :
  NoDup (eptr <$> all) → all = es ++ es' →
  slist.iterate (next_in all) f (length es') (head es') s =
  Some ((fix go es s := match es with
         | [] => s
         | e :: es => let '(b, s') := f e s in if b then go es s' else s'
         end) es' s).
Proof.
  revert es s. induction es' as [|e es' IH]; simpl; intros es s N E; [done|].
  destruct (f e s) as [[] s']; [|done].
  rewrite (next_in_all _ _ _ _ N E). apply (IH (es ++ [e]));
    by rewrite <- ?app_assoc.
Qed.
End facts.
End facts.

(** ** The abstract deque and the refinement

    A client that deals in values sees a sequence of them.  [deque] is that
    contract, one equation per operation; [exec] runs the methods. *)

Module refine.
Import facts.
Section refine.
Context {V : Type}.

Inductive op : Type :=
| opPushFront (v : V) | opPushBack (v : V)
| opPushFronts (vs : list V) | opPushBacks (vs : list V)
| opPopFront | opPopBack | opPopFronts (max : Z) | opPopBacks (max : Z)
| opPopFrontAll | opPopBackAll | opFrontAll | opBackAll
| opFrontValue | opBackValue | opLen | opRemoveAll (a : nat)
| opPushBackSelf | opPushFrontSelf.

Inductive out : Type :=
| outUnit | outValue (o : option V) | outValues (vs : list V) | outLen (n : Z).

(** How many elements [max] asks for. *)
Definition batch (max : Z) (q : list V) : nat :=
  if (0 <? max) && (max <? zlen q) then Z.to_nat max else length q.

Definition deque (o : op) (q : list V) : out * list V :=
  match o with
  | opPushFront v => (outUnit, v :: q)
  | opPushBack v => (outUnit, q ++ [v])
  | opPushFronts vs => (outUnit, reverse vs ++ q)
  | opPushBacks vs => (outUnit, q ++ vs)
  | opPopFront => (outValue (head q), tail q)
  | opPopBack => (outValue (list.last q), take (length q - 1) q)
  | opPopFronts max => (outValues (take (batch max q) q), drop (batch max q) q)
  | opPopBacks max =>
      (outValues (take (batch max q) (reverse q)), take (length q - batch max q) q)
  | opPopFrontAll => (outValues q, [])
  | opPopBackAll => (outValues (reverse q), [])
  | opFrontAll => (outValues q, q)
  | opBackAll => (outValues (reverse q), q)
  | opFrontValue => (outValue (head q), q)
  | opBackValue => (outValue (list.last q), q)
  | opLen => (outLen (zlen q), q)
  | opRemoveAll _ => (outUnit, [])
  | opPushBackSelf | opPushFrontSelf => (outUnit, q ++ q)
  end.

Definition exec (o : op) (l : slist.List V) : option (out * slist.List V) :=
  match o with
  | opPushFront v => Some (outUnit, (slist.PushFront l v).2)
  | opPushBack v => Some (outUnit, (slist.PushBack l v).2)
  | opPushFronts vs => Some (outUnit, slist.PushFronts l vs)
  | opPushBacks vs => Some (outUnit, slist.PushBacks l vs)
  | opPopFront => let '(r, l') := slist.PopFront l in Some (outValue r, l')
  | opPopBack => let '(r, l') := slist.PopBack l in Some (outValue r, l')
  | opPopFronts max => '(r, l') ← slist.PopFronts l max; Some (outValues r, l')
  | opPopBacks max => '(r, l') ← slist.PopBacks l max; Some (outValues r, l')
  | opPopFrontAll => '(r, l') ← slist.PopFrontAll l; Some (outValues r, l')
  | opPopBackAll => '(r, l') ← slist.PopBackAll l; Some (outValues r, l')
  | opFrontAll => r ← slist.FrontAll l; Some (outValues r, l)
  | opBackAll => r ← slist.BackAll l; Some (outValues r, l)
  | opFrontValue => Some (outValue (slist.FrontValue l), l)
  | opBackValue => Some (outValue (slist.BackValue l), l)
  | opLen => Some (outLen (slist.Len l), l)
  | opRemoveAll a => Some (outUnit, slist.RemoveAll a l)
  | opPushBackSelf => Some (outUnit, slist.PushBackList l l)
  | opPushFrontSelf => Some (outUnit, slist.PushFrontList l l)
  end.

Fixpoint deques (os : list op) (q : list V) : list out * list V :=
  match os with
  | [] => ([], q)
  | o :: os' => let '(r, q1) := deque o q in let '(rs, q2) := deques os' q1 in (r :: rs, q2)
  end.
Fixpoint execs (os : list op) (l : slist.List V) : option (list out * slist.List V) :=
  match os with
  | [] => Some ([], l)
  | o :: os' =>
      '(r, l1) ← exec o l; '(rs, l2) ← execs os' l1; Some (r :: rs, l2)
  end.

(** The list represents a sequence of values. *)
Definition rep (l : slist.List V) (q : list V) : Prop :=
  wf (slist.list l) ∧ values (slist.list l) = q.

Implicit Types (l : slist.List V) (q : list V).

Lemma rep_length l q : rep l q → length (dlist.elems (slist.list l)) = length q.
Proof. intros [_ <-]. unfold values. by rewrite length_fmap. Qed.

Lemma rep_Len l q : rep l q → dlist.Len (slist.list l) = zlen q.
Proof. intros R. unfold dlist.Len, zlen. by rewrite (rep_length _ _ R). Qed.

Lemma PushFronts_rep vs (d : dlist.t V) : wf d →
  wf (slist.PushFronts_loop d vs) ∧
  values (slist.PushFronts_loop d vs) = reverse vs ++ values d.
Proof.
  revert d. induction vs as [|v vs IH]; intros d W; [done|].
  cbn [slist.PushFronts_loop]. destruct (PushFront_spec d v W) as [W' E].
  destruct (IH _ W') as [W2 E2]. split; [done|].
  by rewrite E2, E, reverse_cons, <- app_assoc.
Qed.

Lemma PushBacks_rep vs (d : dlist.t V) : wf d →
  wf (slist.PushBacks_loop d vs) ∧ values (slist.PushBacks_loop d vs) = values d ++ vs.
Proof.
  revert d. induction vs as [|v vs IH]; intros d W; [by rewrite app_nil_r|].
  cbn [slist.PushBacks_loop]. destruct (PushBack_spec d v W) as [W' E].
  destruct (IH _ W') as [W2 E2]. split; [done|]. by rewrite E2, E, <- app_assoc.
Qed.

(** The loops of container/list are those of slist. *)
Lemma PushBackList_loop (d other : dlist.t V) :
  dlist.PushBackList d other = slist.PushBacks_loop d (values other).
Proof.
  unfold dlist.PushBackList, values. generalize (Value <$> dlist.elems other). intros vs.
  revert d. induction vs; intros d; [done|]. simpl. apply IHvs.
Qed.
Lemma PushFrontList_loop (d other : dlist.t V) :
  dlist.PushFrontList d other = slist.PushFronts_loop d (reverse (values other)).
Proof.
  unfold dlist.PushFrontList, values.
  generalize (reverse (Value <$> dlist.elems other)). intros vs.
  revert d. induction vs; intros d; [done|]. simpl. apply IHvs.
Qed.

Lemma pops_rep max l q : rep l q →
  (∃ l', slist.PopFronts l max = Some (take (batch max q) q, l') ∧ rep l' (drop (batch max q) q)) ∧
  (∃ l', slist.PopBacks l max = Some (take (batch max q) (reverse q), l') ∧
     rep l' (take (length q - batch max q) q)).
Proof.
  intros R. pose proof (rep_Len _ _ R) as EL. pose proof (rep_length _ _ R) as En.
  unfold slist.PopFronts, slist.PopBacks, slist.pops. rewrite EL.
  destruct (0 <? zlen q) eqn:L; bdec.
  2:{ assert (q = []) as -> by (apply zlen_0; pose proof (zlen_nonneg q); lia).
      rewrite reverse_nil, !take_nil, drop_nil. split; by exists l. }
  set (n := Z.to_nat _). assert (n = batch max q) as Eb.
  { subst n. unfold batch. case_if; [done|]. unfold zlen. lia. }
  assert (n ≤ length (dlist.elems (slist.list l)))%nat as Hn.
  { rewrite En, Eb. unfold batch. case_if; unfold zlen in *; lia. }
  rewrite Eb in *. destruct R as [W <-]. split.
  - destruct (pop_front_loop _ _ W Hn) as (d' & H & W' & E'). rewrite H. simpl.
    exists (slist.mkList d'). by split; [|split].
  - destruct (pop_back_loop _ _ W Hn) as (d' & H & W' & E'). rewrite H. simpl.
    exists (slist.mkList d'). split; [done|]. split; [done|]. simpl. by rewrite E', En.
Qed.

Lemma batch_all q : batch (-1) q = length q.
Proof. done. Qed.

Lemma FrontAll_rep l q : rep l q → slist.FrontAll l = Some q.
Proof.
  intros R. pose proof (rep_Len _ _ R) as EL. unfold slist.FrontAll.
  destruct (0 <? _) eqn:L; bdec.
  - destruct R as [[N _] <-]. unfold dlist.Len, zlen, dlist.Next. rewrite Nat2Z.id.
    by apply (walk_suffix (dlist.elems (slist.list l)) []).
  - rewrite EL in L. f_equal. symmetry. apply zlen_0. pose proof (zlen_nonneg q). lia.
Qed.

Lemma BackAll_rep l q : rep l q → slist.BackAll l = Some (reverse q).
Proof.
  intros R. pose proof (rep_Len _ _ R) as EL. unfold slist.BackAll.
  destruct (0 <? _) eqn:L; bdec.
  - destruct R as [[N _] <-]. unfold dlist.Len, zlen, dlist.Prev, dlist.Back, values.
    rewrite Nat2Z.id, <- fmap_reverse, <- length_reverse, <- head_reverse.
    apply (walk_suffix _ []); [|done]. by rewrite fmap_reverse, reverse_Permutation.
  - rewrite EL in L. assert (q = []) as -> by (apply zlen_0; pose proof (zlen_nonneg q); lia).
    done.
Qed.

Lemma PopFront_rep l q : rep l q →
  (slist.PopFront l).1 = head q ∧ rep (slist.PopFront l).2 (tail q).
Proof.
  intros [W <-]. unfold slist.PopFront, values.
  destruct (dlist.elems (slist.list l)) as [|e es] eqn:E.
  - unfold dlist.Front. rewrite E. simpl. split; [done|]. split; [done|]. unfold values. by rewrite E.
  - rewrite (Front_cons _ _ _ E). destruct (Remove_spec _ [] e es W E) as [R W'].
    rewrite R. by split; [|split].
Qed.

Lemma PopBack_rep l q : rep l q →
  (slist.PopBack l).1 = list.last q ∧ rep (slist.PopBack l).2 (take (length q - 1) q).
Proof.
  intros [W <-]. unfold slist.PopBack, values.
  destruct (dlist.elems (slist.list l)) as [|e es _] eqn:E using rev_ind.
  - unfold dlist.Back. rewrite E. simpl. split; [done|]. split; [done|]. unfold values. by rewrite E.
  - rewrite (Back_snoc _ _ _ E). destruct (Remove_spec _ es e [] W E) as [R W'].
    rewrite R, fmap_app. simpl. rewrite last_snoc, length_app. simpl.
    rewrite Nat.add_sub, take_app_length. split; [done|]. rewrite app_nil_r in *.
    by split.
Qed.

(** One operation: no panic, the output of the deque, and the representation
    relation again. *)
Lemma exec_refines o l q : rep l q →
  ∃ r l', exec o l = Some (r, l') ∧ (deque o q).1 = r ∧ rep l' (deque o q).2.
Proof.
  intros R. pose proof R as [W E].
  destruct o; cbn [exec deque fst snd]; try (eexists _, _; split; [reflexivity|]; split; [reflexivity|]).
  all: try done.
  - destruct (PushFront_spec _ v W). split; [done|]. rewrite <- E. done.
  - destruct (PushBack_spec _ v W). split; [done|]. rewrite <- E. done.
  - destruct (PushFronts_rep vs _ W). split; [done|]. rewrite <- E. done.
  - destruct (PushBacks_rep vs _ W). split; [done|]. rewrite <- E. done.
  - destruct (PopFront_rep _ _ R). destruct (slist.PopFront l). eexists _, _. split; [done|].
    simpl in *. subst. done.
  - destruct (PopBack_rep _ _ R). destruct (slist.PopBack l). eexists _, _. split; [done|].
    simpl in *. subst. done.
  - destruct (pops_rep max _ _ R) as [(l' & H & R') _]. rewrite H. by eexists _, _.
  - destruct (pops_rep max _ _ R) as [_ (l' & H & R')]. rewrite H. by eexists _, _.
  - destruct (pops_rep (-1) _ _ R) as [(l' & H & R') _]. rewrite batch_all in *.
    rewrite drop_all in R'. rewrite firstn_all in H.
    unfold slist.PopFrontAll. rewrite H. by eexists _, _.
  - destruct (pops_rep (-1) _ _ R) as [_ (l' & H & R')]. rewrite batch_all in *.
    rewrite Nat.sub_diag, take_0 in R'. rewrite <- (length_reverse q), firstn_all in H.
    unfold slist.PopBackAll. rewrite H. by eexists _, _.
  - rewrite (FrontAll_rep _ _ R). by eexists _, _.
  - rewrite (BackAll_rep _ _ R). by eexists _, _.
  - eexists _, _. split; [done|]. split; [|done]. unfold slist.FrontValue, dlist.Front.
    rewrite <- E. unfold values. by destruct (dlist.elems _).
  - eexists _, _. split; [done|]. split; [|done]. unfold slist.BackValue, dlist.Back.
    rewrite <- E. unfold values. by rewrite fmap_last.
  - eexists _, _. split; [done|]. split; [|done]. unfold slist.Len. by rewrite (rep_Len _ _ R).
  - split; [apply New_wf|done].
  - unfold slist.PushBackList. rewrite PushBackList_loop.
    destruct (PushBacks_rep (values (slist.list l)) _ W). split; [done|]. rewrite <- E. done.
  - unfold slist.PushFrontList. rewrite PushFrontList_loop.
    destruct (PushFronts_rep (reverse (values (slist.list l))) _ W). split; [done|].
    rewrite <- E. rewrite reverse_involutive in *. done.
Qed.

Lemma execs_refines os l q : rep l q →
  ∃ l', execs os l = Some ((deques os q).1, l') ∧ rep l' (deques os q).2.
Proof.
  revert l q. induction os as [|o os IH]; intros l q R; [by exists l|].
  cbn [execs deques]. destruct (exec_refines o l q R) as (r & l1 & H & Hr & R1).
  destruct (deque o q) as [r' q1]. simpl in *. subst r'. rewrite H. simpl.
  destruct (IH _ _ R1) as (l2 & H2 & R2). rewrite H2. simpl.
  destruct (deques os q1) as [rs q2]. by exists l2.
Qed.
End refine.
Arguments op V : clear implicits.
Arguments out V : clear implicits.

(** C27: The list of slist implements a deque of values: any sequence of its
    value operations (pushes at both ends, single and in batches, pops of one,
    of at most [max] or of all, reads from both ends, length, removal of all,
    appending the list to itself), run from a new list, panics nowhere and
    returns what the abstract deque returns, and the list ends up holding the
    values of the abstract deque, in order. *)
Theorem slist_refines_deque {V} (a : nat) (os : list (op V)) :
  ∃ l, execs os (slist.New a) = Some ((deques os []).1, l) ∧
    values (slist.list l) = (deques os []).2.
Proof.
  destruct (execs_refines os (slist.New a) []) as (l & H & _ & E).
  - split; [apply New_wf|done].
  - by exists l.
Qed.
End refine.

(** ** Elements *)

Module elements.
Import facts.
Section elements.
Context {V : Type}.
Implicit Types (l : slist.List V) (e p : Element V) (es : list (Element V)).

Lemma before_mid es p es' e : eptr p ∉ eptr <$> es →
  dlist.before (es ++ p :: es') e p = es ++ e :: p :: es'.
Proof.
  induction es as [|x es IH]; simpl; intros H; [by rewrite same_refl|].
  destruct (dlist.same x p) eqn:E; [apply same_true in E; set_solver|].
  by rewrite IH by set_solver.
Qed.
Lemma after_mid es p es' e : eptr p ∉ eptr <$> es →
  dlist.after (es ++ p :: es') e p = es ++ p :: e :: es'.
Proof.
  induction es as [|x es IH]; simpl; intros H; [by rewrite same_refl|].
  destruct (dlist.same x p) eqn:E; [apply same_true in E; set_solver|].
  by rewrite IH by set_solver.
Qed.

Lemma same_false e p : eptr e ≠ eptr p → dlist.same e p = false.
Proof. intros. by apply bool_decide_eq_false. Qed.

(** Reordering the elements keeps a list well formed. *)
Lemma wf_perm (d : dlist.t V) es : wf d → es ≡ₚ dlist.elems d → wf (dlist.with_elems d es).
Proof.
  intros [N F] P. split; simpl; [by rewrite P|]. by rewrite P.
Qed.

Lemma not_mine (d : dlist.t V) e : eptr e ∉ eptr <$> dlist.elems d → dlist.mine d e = false.
Proof. intros. by apply bool_decide_eq_false. Qed.
End elements.

(** The element operations of slist on a well-formed list [es ++ e :: es']:
    Remove takes out exactly that element and returns its value; MoveToFront and
    MoveToBack carry it to the ends; MoveBefore and MoveAfter put it next to the
    mark, the other elements staying in order; and an element of another list is
    left alone. *)
Theorem slist_elements {V} (l : slist.List V) (es es' es'' : list (Element V)) (e p : Element V)
    (W : wf (slist.list l)) :
  (dlist.elems (slist.list l) = es ++ e :: es' →
     (slist.Remove l e).1 = Value e ∧
     dlist.elems (slist.list (slist.Remove l e).2) = es ++ es' ∧
     dlist.elems (slist.list (slist.MoveToFront l e)) = e :: es ++ es' ∧
     dlist.elems (slist.list (slist.MoveToBack l e)) = (es ++ es') ++ [e]) ∧
  (dlist.elems (slist.list l) = es ++ e :: es' ++ p :: es'' →
     dlist.elems (slist.list (slist.MoveBefore l e p)) = es ++ es' ++ e :: p :: es'' ∧
     dlist.elems (slist.list (slist.MoveAfter l e p)) = es ++ es' ++ p :: e :: es'' ∧
     dlist.elems (slist.list (slist.MoveBefore l p e)) = es ++ p :: e :: es' ++ es'' ∧
     dlist.elems (slist.list (slist.MoveAfter l p e)) = es ++ e :: p :: es' ++ es'') ∧
  (eptr e ∉ eptr <$> dlist.elems (slist.list l) →
     (slist.Remove l e).2 = l ∧ slist.MoveToFront l e = l ∧ slist.MoveToBack l e = l ∧
     slist.MoveBefore l e p = l ∧ slist.MoveAfter l e p = l).
Proof.
  split_and!.
  - intros E. destruct (Remove_spec _ _ _ _ W E) as [R _].
    destruct (wf_split _ _ _ _ W E) as (H1 & H2 & _).
    unfold slist.Remove, slist.MoveToFront, slist.MoveToBack, dlist.MoveToFront, dlist.MoveToBack.
    rewrite R, mine_elem by (rewrite E; set_solver). simpl. rewrite E, without_mid by done. done.
  - intros E. assert (E' := E). change (e :: es' ++ p :: es'') with ([e] ++ es' ++ p :: es'') in E'.
    rewrite 2!app_assoc in E'.
    destruct (wf_split _ _ _ _ W E) as (H1 & H2 & _).
    destruct (wf_split _ _ _ _ W E') as (H3 & H4 & _).
    unfold slist.MoveBefore, slist.MoveAfter, dlist.MoveBefore, dlist.MoveAfter.
    rewrite !mine_elem by (rewrite E; set_solver).
    rewrite (same_false e p), (same_false p e) by set_solver. simpl.
    rewrite E' at 3 4. rewrite without_mid by done. rewrite E, without_mid by done.
    rewrite app_assoc, before_mid, after_mid, <- !app_assoc by set_solver. simpl.
    rewrite before_mid, after_mid by set_solver. done.
  - intros H. unfold slist.Remove, slist.MoveToFront, slist.MoveToBack, slist.MoveBefore,
      slist.MoveAfter, dlist.Remove, dlist.MoveToFront, dlist.MoveToBack, dlist.MoveBefore,
      dlist.MoveAfter. rewrite not_mine by done. simpl. by destruct l.
Qed.

(** Two lists: moving the middle element of the first, and an element of the
    second. *)
Lemma slist_elements_witness :
  let l := slist.PushBacks (slist.New 1) [10; 20; 30] in
  let e := mkElement (1%nat, 1%nat) 20 in let p := mkElement (1%nat, 2%nat) 30 in
  let x := mkElement (2%nat, 0%nat) 99 in
  dlist.elems (slist.list (slist.MoveToFront l e)) =
    [e; mkElement (1%nat, 0%nat) 10; p] ∧
  dlist.elems (slist.list (slist.MoveAfter l e p)) =
    [mkElement (1%nat, 0%nat) 10; p; e] ∧
  slist.MoveToFront l x = l.
Proof.
  set (l := slist.PushBacks (slist.New 1) [10; 20; 30]).
  assert (wf (slist.list l)) as W by (apply refine.PushBacks_rep, New_wf).
  split_and!.
  - apply (slist_elements l [mkElement (1%nat, 0%nat) 10] [mkElement (1%nat, 2%nat) 30] []
      (mkElement (1%nat, 1%nat) 20) (mkElement (1%nat, 1%nat) 20) W). reflexivity.
  - apply (slist_elements l [mkElement (1%nat, 0%nat) 10] [] [] (mkElement (1%nat, 1%nat) 20)
      (mkElement (1%nat, 2%nat) 30) W). reflexivity.
  - apply (slist_elements l [] [] [] (mkElement (2%nat, 0%nat) 99)
      (mkElement (2%nat, 0%nat) 99) W). by apply (bool_decide_eq_true _); vm_compute.
Defined.
End elements.
