(* ===== verification/SQueue.v ===== *)
(** * Containers: the dynamic queue

    src/utils/container/squeue: an unbounded queue whose values are moved by a
    goroutine from a locked list to a channel, in batches, on signals of an
    events channel; or, with a limit, a bare channel.

    The state is the struct, the point the goroutine of [startAsyncLoop] has
    reached and the points the calls in progress have reached.  [step] performs
    one atomic action of one of them, so that a sequence of actions is an
    interleaving; an action that would block is not enabled.

    The theorems: every interleaving refines an abstract queue with a committed
    part (what a front push no longer overtakes); without front pushes the
    delivered values are those pushed, in order, and at most 522 values are
    committed; and no wake-up is lost: from every reachable state of an open
    queue all that was pushed can be delivered without another push. *)
From S2P Require Import Prelude SList.

Definition DEFAULT_QUEUE_SIZE : nat := 512.
Definition DEFAULT_MAX_BATCH_SIZE : nat := 10.

(** Where startAsyncLoop stands. *)
Inductive looppc (V : Type) : Type :=
| LOuter                   (** for closed < 1 *)
| LRecv                    (** <-q.events *)
| LInner                   (** for closed < 1, inside *)
| LLen                     (** length := q.list.Len() *)
| LPop (length : Z)        (** q.list.PopFronts(length) *)
| LSend (vs : list V)      (** q.C <- v, for the rest of the batch *)
| LClear (i : nat)         (** i < len(q.events)-1 *)
| LClearRecv (i : nat)     (** <-q.events, to clear it *)
| LClose                   (** close(q.C) *)
| LNone.                   (** not started, or returned *)
Arguments LOuter {V}.
Arguments LRecv {V}.
Arguments LInner {V}.
Arguments LLen {V}.
Arguments LPop {V} length.
Arguments LSend {V} vs.
Arguments LClear {V} i.
Arguments LClearRecv {V} i.
Arguments LClose {V}.
Arguments LNone {V}.

(** Where a call of Push, PushFront or Close stands. *)
Inductive callpc (V : Type) : Type :=
| TEvents                  (** push: len(q.events) < DEFAULT_QUEUE_SIZE *)
| TSignal                  (** push: q.events <- struct{}{} *)
| TSendC (v : V)           (** Push with a limit: q.C <- v *)
| TCloseEvents             (** Close: close(q.events) *)
| TClosePop (i : nat).     (** Close: [i] more Pops *)
Arguments TEvents {V}.
Arguments TSignal {V}.
Arguments TSendC {V} v.
Arguments TCloseEvents {V}.
Arguments TClosePop {V} i.

Record Queue (V : Type) : Type := mkQueue {
  limit : Z;
  lst : option (slist.List V);
  closed : Z;
  events : option (chan unit);
  C : chan V;
  loop : looppc V;
  calls : list (callpc V)
}.
Arguments mkQueue {V} limit lst closed events C loop calls.
Arguments limit {V} q : rename.
Arguments lst {V} q : rename.
Arguments closed {V} q : rename.
Arguments events {V} q : rename.
Arguments C {V} q : rename.
Arguments loop {V} q : rename.
Arguments calls {V} q : rename.

Section squeue.
Context {V : Type}.
Implicit Types (q : Queue V) (v : V).

Definition set_lst q l := mkQueue (limit q) l (closed q) (events q) (C q) (loop q) (calls q).
Definition set_closed q c := mkQueue (limit q) (lst q) c (events q) (C q) (loop q) (calls q).
Definition set_events q e := mkQueue (limit q) (lst q) (closed q) e (C q) (loop q) (calls q).
Definition set_C q c := mkQueue (limit q) (lst q) (closed q) (events q) c (loop q) (calls q).
Definition set_loop q p := mkQueue (limit q) (lst q) (closed q) (events q) (C q) p (calls q).
Definition set_calls q t := mkQueue (limit q) (lst q) (closed q) (events q) (C q) (loop q) t.

(** New(limit...): [None] is a call without a limit.  A negative size makes
    [make] panic ([None]). *)
Definition New (a : nat) (l : option Z) : option (Queue V) :=
  match l with
  | Some n =>
      if n <? 0 then None
      else Some (mkQueue n None 0 None (make_chan (Z.to_nat n)) LNone [])
  | None =>
      Some (mkQueue 0 (Some (slist.New a)) 0
              (Some (make_chan (DEFAULT_QUEUE_SIZE + DEFAULT_MAX_BATCH_SIZE)))
              (make_chan DEFAULT_QUEUE_SIZE) LOuter [])
  end.

(** What an action shows: nothing, a value popped by a consumer (or the nil of a
    closed queue), a value taken out by Close, or a panic. *)
Inductive outcome : Type :=
| Silent | Popped (o : option V) | Dropped (o : option V) | Panicked.

Inductive action : Type :=
| APush (v : V) (front : bool)   (** a call of Push or PushFront begins *)
| AClose                         (** a call of Close begins *)
| APop                           (** a consumer's Pop *)
| ACall (i : nat)                (** the i-th call in progress goes on *)
| ALoop.                         (** the goroutine goes on *)

Definition spawn q (t : callpc V) : Queue V := set_calls q (calls q ++ [t]).
Definition finish q (i : nat) : Queue V :=
  set_calls q (take i (calls q) ++ drop (S i) (calls q)).
Definition goto q (i : nat) (t : callpc V) : Queue V := set_calls q (<[i := t]> (calls q)).

(** Push, PushFront and the list part of push. *)
Definition Push q v (front : bool) : outcome * Queue V :=
  if 0 <? limit q then (Silent, spawn q (TSendC v))
  else match lst q with
       | None => (Panicked, q)
       | Some l =>
           let l' := if front then (slist.PushFront l v).2 else (slist.PushBack l v).2 in
           (Silent, spawn (set_lst q (Some l')) TEvents)
       end.

Definition events_len q : nat := match events q with Some e => length (cbuf e) | None => 0 end.

Definition Pop q : option (option V * Queue V) :=
  match recv (C q) with
  | Received v c => Some (Some v, set_C q c)
  | RecvZero => Some (None, q)
  | RecvBlock => None
  end.

(** The first statement of Close. *)
Definition Close q : Queue V := spawn (set_closed q 1) TCloseEvents.

Definition step_call q (i : nat) : option (outcome * Queue V) :=
  t ← calls q !! i;
  match t with
  | TEvents =>
      if bool_decide (events_len q < DEFAULT_QUEUE_SIZE)%nat
      then Some (Silent, goto q i TSignal) else Some (Silent, finish q i)
  | TSignal =>
      e ← events q;
      match send e () with
      | Sent e' => Some (Silent, finish (set_events q (Some e')) i)
      | SendPanic => Some (Panicked, finish q i)
      | SendBlock => None
      end
  | TSendC v =>
      match send (C q) v with
      | Sent c => Some (Silent, finish (set_C q c) i)
      | SendPanic => Some (Panicked, finish q i)
      | SendBlock => None
      end
  | TCloseEvents =>
      match events q with
      | None => Some (Silent, goto q i (TClosePop DEFAULT_MAX_BATCH_SIZE))
      | Some e =>
          match close_chan e with
          | Some e' => Some (Silent, goto (set_events q (Some e')) i (TClosePop DEFAULT_MAX_BATCH_SIZE))
          | None => Some (Panicked, finish q i)
          end
      end
  | TClosePop O => Some (Silent, finish q i)
  | TClosePop (S n) => '(o, q') ← Pop q; Some (Dropped o, goto q' i (TClosePop n))
  end.

(** One statement of startAsyncLoop.  The panic of a send on a closed q.C is
    recovered when the queue is closed, and is fatal otherwise. *)
Definition startAsyncLoop q : option (outcome * Queue V) :=
  match loop q with
  | LOuter => Some (Silent, set_loop q (if closed q <? 1 then LRecv else LClose))
  | LRecv =>
      e ← events q;
      match recv e with
      | Received _ e' => Some (Silent, set_loop (set_events q (Some e')) LInner)
      | RecvZero => Some (Silent, set_loop q LInner)
      | RecvBlock => None
      end
  | LInner => Some (Silent, set_loop q (if closed q <? 1 then LLen else LClear 0))
  | LLen =>
      l ← lst q;
      let length := slist.Len l in
      if 0 <? length then
        let length := if Z.of_nat DEFAULT_MAX_BATCH_SIZE <? length
                      then Z.of_nat DEFAULT_MAX_BATCH_SIZE else length in
        Some (Silent, set_loop q (LPop length))
      else Some (Silent, set_loop q (LClear 0))
  | LPop length =>
      l ← lst q;
      '(vs, l') ← slist.PopFronts l length;
      Some (Silent, set_loop (set_lst q (Some l')) (LSend vs))
  | LSend [] => Some (Silent, set_loop q LInner)
  | LSend (v :: vs) =>
      match send (C q) v with
      | Sent c => Some (Silent, set_loop (set_C q c) (LSend vs))
      | SendPanic => Some (if 0 <? closed q then Silent else Panicked, set_loop q LNone)
      | SendBlock => None
      end
  | LClear i =>
      Some (Silent, set_loop q (if bool_decide (S i < events_len q)%nat
                                then LClearRecv i else LOuter))
  | LClearRecv i =>
      e ← events q;
      match recv e with
      | Received _ e' => Some (Silent, set_loop (set_events q (Some e')) (LClear (S i)))
      | RecvZero => Some (Silent, set_loop q (LClear (S i)))
      | RecvBlock => None
      end
  | LClose =>
      match close_chan (C q) with
      | Some c => Some (Silent, set_loop (set_C q c) LNone)
      | None => Some (Panicked, set_loop q LNone)
      end
  | LNone => None
  end.

Definition step (a : action) q : option (outcome * Queue V) :=
  match a with
  | APush v front => Some (Push q v front)
  | AClose => Some (Silent, Close q)
  | APop => '(o, q') ← Pop q; Some (Popped o, q')
  | ACall i => step_call q i
  | ALoop => startAsyncLoop q
  end.

Fixpoint run (acts : list action) q : option (list outcome * Queue V) :=
  match acts with
  | [] => Some ([], q)
  | a :: acts' =>
      '(o, q1) ← step a q; '(os, q2) ← run acts' q1; Some (o :: os, q2)
  end.

Definition Len q : Z :=
  match lst q with Some l => slist.Len l | None => 0 end + zlen (cbuf (C q)).
Definition Size q : Z := Len q.
End squeue.
Arguments action V : clear implicits.
Arguments outcome V : clear implicits.

(** ** The abstract queue

    Its values in two parts: those already committed to the consumers, and those
    waiting, which a front push overtakes.  Committing moves at most one batch. *)

Module spec.
Section spec.
Context {V : Type}.

Definition aqueue : Type := list V * list V.

Inductive label : Type := Pushed (v : V) (front : bool) | Took (v : V).

Inductive trans : aqueue → option label → aqueue → Prop :=
| trans_back c w v : trans (c, w) (Some (Pushed v false)) (c, w ++ [v])
| trans_front c w v : trans (c, w) (Some (Pushed v true)) (c, v :: w)
| trans_take c w v : trans (v :: c, w) (Some (Took v)) (c, w)
| trans_commit c w1 w2 : (length w1 ≤ DEFAULT_MAX_BATCH_SIZE)%nat →
    trans (c, w1 ++ w2) None (c ++ w1, w2)
| trans_stutter x : trans x None x.

Inductive transs : aqueue → list (option label) → aqueue → Prop :=
| transs_nil x : transs x [] x
| transs_cons x y z l ls : trans x l y → transs y ls z → transs x (l :: ls) z.

(** The values pushed and taken along a run. *)
Definition pushed (ls : list (option label)) : list V :=
  omap (λ l, match l with Some (Pushed v _) => Some v | _ => None end) ls.
Definition took (ls : list (option label)) : list V :=
  omap (λ l, match l with Some (Took v) => Some v | _ => None end) ls.
Definition backs (ls : list (option label)) : Prop :=
  Forall (λ l, match l with Some (Pushed _ true) => False | _ => True end) ls.

Lemma transs_fifo x ls y : transs x ls y → backs ls →
  took ls ++ y.1 ++ y.2 = x.1 ++ x.2 ++ pushed ls.
Proof.
  induction 1 as [x|x y z l ls T _ IH]; intros B.
  - cbn. by rewrite app_nil_r.
  - inversion B; subst. specialize (IH H2). revert IH.
    unfold took, pushed. inversion T; subst; cbn; intros IH; try done.
    + by rewrite IH, <- !app_assoc.
    + by rewrite IH.
    + by rewrite IH, <- !app_assoc.
Qed.
End spec.
Arguments aqueue V : clear implicits.
Arguments label V : clear implicits.
End spec.

(** ** The refinement *)

Section refinement.
Context {V : Type}.
Implicit Types (q : Queue V) (v : V) (vs : list V).
Import spec.

Definition batch_of (p : looppc V) : list V := match p with LSend vs => vs | _ => [] end.
Definition waiting q : list V :=
  match lst q with Some l => facts.values (slist.list l) | None => [] end.
Definition committed q : list V := cbuf (C q) ++ batch_of (loop q).
Definition abs q : aqueue V := (committed q, waiting q).

(** What an action and its outcome mean to the abstract queue. *)
Definition label_of (a : action V) (o : outcome V) : option (label V) :=
  match a, o with
  | APush v front, Silent => Some (Pushed v front)
  | _, Popped (Some v) | _, Dropped (Some v) => Some (Took v)
  | _, _ => None
  end.
Definition labels (acts : list (action V)) (os : list (outcome V)) : list (option (label V)) :=
  zip_with label_of acts os.

(** The pc of a call on a queue without a limit. *)
Definition unlimited_call (t : callpc V) : Prop :=
  match t with TSendC _ => False | _ => True end.

Record inv q : Prop := {
  inv_limit : limit q = 0;
  inv_list : ∃ l, lst q = Some l ∧ facts.wf (slist.list l);
  inv_events : ∃ e, events q = Some e ∧
    ccap e = (DEFAULT_QUEUE_SIZE + DEFAULT_MAX_BATCH_SIZE)%nat;
  inv_C : ccap (C q) = DEFAULT_QUEUE_SIZE ∧ (length (cbuf (C q)) ≤ DEFAULT_QUEUE_SIZE)%nat;
  inv_shut : cshut (C q) = true → loop q = LNone;
  inv_loop : match loop q with
             | LPop n => 0 < n ≤ 10
             | LSend vs => (length vs ≤ DEFAULT_MAX_BATCH_SIZE)%nat
             | _ => True
             end;
  inv_calls : Forall unlimited_call (calls q)
}.

Lemma New_inv a q : New a None = Some q → inv q.
Proof.
  intros [= <-]. split; simpl; auto.
  - exists (slist.New a). split; [done|]. apply facts.New_wf.
  - by eexists.
  - split; [done|]. unfold DEFAULT_QUEUE_SIZE. lia.
  - done.
Qed.

Lemma Pop_spec q o q' : Pop q = Some (o, q') →
  (∃ v c, o = Some v ∧ cbuf (C q) = v :: cbuf c ∧ ccap c = ccap (C q) ∧ cshut c = cshut (C q) ∧
     q' = set_C q c) ∨ (o = None ∧ q' = q ∧ cshut (C q) = true).
Proof.
  unfold Pop, recv. destruct (cbuf (C q)) as [|v b] eqn:E.
  - destruct (cshut (C q)) eqn:S; [|done]. intros [= <- <-]. auto.
  - intros [= <- <-]. left. by exists v, (mkChan (ccap (C q)) b (cshut (C q))).
Qed.

Lemma Pop_inv q o q' : inv q → Pop q = Some (o, q') → inv q'.
Proof.
  intros I [(v & c & -> & E & Ec & Es & ->)|(-> & -> & _)]%Pop_spec; [|done].
  destruct I as [? ? ? [? L] S ? ?]. split; simpl; auto.
  - rewrite E in L. simpl in L. split; [congruence|lia].
  - by rewrite Es.
Qed.

Lemma inv_set_calls q cs : inv q → Forall unlimited_call cs → inv (set_calls q cs).
Proof. intros [] ?. by split. Qed.

Lemma inv_finish q i : inv q → inv (finish q i).
Proof.
  intros I. apply inv_set_calls; [done|]. pose proof (inv_calls _ I).
  apply Forall_app. split; [by apply Forall_take|by apply Forall_drop].
Qed.
Lemma inv_goto q i t : inv q → unlimited_call t → inv (goto q i t).
Proof. intros I ?. apply inv_set_calls; [done|]. apply Forall_insert; [apply I|done]. Qed.
Lemma inv_spawn q t : inv q → unlimited_call t → inv (spawn q t).
Proof.
  intros I ?. apply inv_set_calls; [done|]. apply Forall_app. split; [apply I|by constructor].
Qed.
Lemma inv_set_events q e e' : inv q → events q = Some e → ccap e' = ccap e →
  inv (set_events q (Some e')).
Proof.
  intros [? ? (e1 & E1 & Hc) ? ? ? ?] E Hc'. split; simpl; auto. exists e'.
  split; [done|]. rewrite E in E1. injection E1 as <-. by rewrite Hc'.
Qed.

Lemma inv_set_loop q p : inv q → cshut (C q) = false ∨ p = LNone →
  match p with
  | LPop n => 0 < n ≤ 10
  | LSend vs => (length vs ≤ DEFAULT_MAX_BATCH_SIZE)%nat
  | _ => True
  end → inv (set_loop q p).
Proof. intros [] H ?. split; simpl; auto. destruct H; congruence. Qed.

Lemma step_call_sim q i o q' : inv q → step_call q i = Some (o, q') →
  inv q' ∧ trans (abs q) (label_of (ACall i) o) (abs q').
Proof.
  intros I H. unfold step_call in H. step_cases.
  pose proof (list.Forall_lookup_1 _ _ _ _ (inv_calls _ I) H) as U.
  destruct x as [| |v| |[|n]].
  - case_bool_decide; step_cases; subst; (split; [|apply trans_stutter]).
    + by apply inv_goto.
    + by apply inv_finish.
  - step_cases. destruct (send x ()) as [e'| |] eqn:S; step_cases; subst;
      (split; [|apply trans_stutter]).
    + apply inv_finish. apply send_spec in S as (_ & ? & _). by eapply inv_set_events.
    + by apply inv_finish.
  - done.
  - destruct (events q) as [e|] eqn:E.
    2:{ step_cases; subst. split; [by apply inv_goto|apply trans_stutter]. }
    unfold close_chan in H0. destruct (cshut e); step_cases; subst; (split; [|apply trans_stutter]).
    + by apply inv_finish.
    + apply inv_goto; [|done]. by eapply inv_set_events.
  - step_cases; subst. split; [by apply inv_finish|apply trans_stutter].
  - step_cases; subst. split; [by apply inv_goto; [eapply Pop_inv|]|].
    apply Pop_spec in H0 as [(v & c & -> & E & Ec & Es & ->)|(-> & -> & _)].
    + unfold abs, committed. simpl. rewrite E. apply trans_take.
    + apply trans_stutter.
Qed.

Lemma loop_open q : inv q → loop q ≠ LNone → cshut (C q) = false.
Proof. intros I H. pose proof (inv_shut _ I). destruct (cshut (C q)); [by exfalso; auto|done]. Qed.

(** The steps of the goroutine that move no value. *)
Lemma loop_silent q p : inv q → cshut (C q) = false → batch_of (loop q) = [] → batch_of p = [] →
  match p with LPop n => 0 < n ≤ 10 | _ => True end →
  inv (set_loop q p) ∧ trans (abs q) None (abs (set_loop q p)).
Proof.
  intros I Ho E1 E2 Hp. split.
  - apply inv_set_loop; auto. destruct p; auto. simpl in *. subst. simpl. lia.
  - unfold abs, committed, waiting. simpl. rewrite E1, E2. apply trans_stutter.
Qed.

Lemma loop_recv_sim q e e' u p : inv q → loop q ≠ LNone → events q = Some e →
  recv e = Received u e' → batch_of (loop q) = [] → batch_of p = [] →
  match p with LPop n => 0 < n ≤ 10 | _ => True end →
  inv (set_loop (set_events q (Some e')) p) ∧
  trans (abs q) None (abs (set_loop (set_events q (Some e')) p)).
Proof.
  intros I Hn E R E1 E2 Hp. apply recv_spec in R as (_ & Hc & _).
  pose proof (inv_set_events _ _ e' I E Hc) as I'.
  pose proof (loop_silent (set_events q (Some e')) p I' (loop_open _ I Hn) E1 E2 Hp) as [? T].
  done.
Qed.

Lemma pop_sim q n l vs l' : inv q → loop q = LPop n → lst q = Some l →
  slist.PopFronts l n = Some (vs, l') →
  inv (set_loop (set_lst q (Some l')) (LSend vs)) ∧
  trans (abs q) None (abs (set_loop (set_lst q (Some l')) (LSend vs))).
Proof.
  intros I Ep El H. destruct (inv_list _ I) as (l0 & El0 & W). rewrite El in El0.
  injection El0 as <-. pose proof (inv_loop _ I) as Hn. rewrite Ep in Hn.
  destruct (refine.pops_rep n l (facts.values (slist.list l)) (conj W eq_refl))
    as [(l1 & H1 & W1 & E1) _]. rewrite H in H1. injection H1 as -> <-.
  set (w := facts.values (slist.list l)) in *. set (k := refine.batch n w) in *.
  assert (length (take k w) ≤ DEFAULT_MAX_BATCH_SIZE)%nat as Lk.
  { rewrite length_take. unfold k, refine.batch, DEFAULT_MAX_BATCH_SIZE.
    destruct (0 <? n) eqn:?, (n <? zlen w) eqn:?; bdec; simpl; unfold zlen in *; lia. }
  split.
  - apply inv_set_loop; [|left; apply (loop_open _ I); congruence|done].
    destruct I. split; simpl; eauto.
  - unfold abs, committed, waiting. simpl. rewrite Ep, El, E1. fold w. simpl.
    rewrite app_nil_r. rewrite <- (take_drop k w) at 1. by apply trans_commit.
Qed.

Lemma send_sim q v vs c : inv q → loop q = LSend (v :: vs) → send (C q) v = Sent c →
  inv (set_loop (set_C q c) (LSend vs)) ∧
  trans (abs q) None (abs (set_loop (set_C q c) (LSend vs))).
Proof.
  intros I Ep (Eb & Ec & Es & Eo & L)%send_spec. destruct (inv_C _ I) as [Hc Hl].
  pose proof (inv_loop _ I) as Hn. rewrite Ep in Hn. simpl in Hn. split.
  - destruct I. split; simpl; auto.
    + split; [congruence|]. rewrite Eb, length_app. simpl. lia.
    + congruence.
    + lia.
  - unfold abs, committed, waiting. simpl. rewrite Eb, Ep, <- app_assoc. apply trans_stutter.
Qed.

Lemma loop_sim q o q' : inv q → startAsyncLoop q = Some (o, q') →
  inv q' ∧ trans (abs q) (label_of ALoop o) (abs q').
Proof.
  intros I H. unfold startAsyncLoop in H.
  destruct (loop q) as [| | | |n|[|v vs]|i|i| |] eqn:Ep; step_cases; subst; simpl;
    try (apply loop_silent; rewrite ?Ep; auto;
         first [apply (loop_open _ I); congruence | by case_if]; fail).
  - destruct (recv x) as [u e'| |] eqn:R; step_cases; subst.
    + eapply loop_recv_sim; rewrite ?Ep; eauto.
    + apply loop_silent; rewrite ?Ep; auto. apply (loop_open _ I). congruence.
  - destruct (0 <? slist.Len x) eqn:L; bdec; step_cases; subst;
      apply loop_silent; rewrite ?Ep; auto; try (apply (loop_open _ I); congruence).
    unfold DEFAULT_MAX_BATCH_SIZE. case_if; lia.
  - eapply pop_sim; eauto.
  - destruct (send (C q) v) eqn:S; step_cases; subst.
    + by eapply send_sim.
    + apply send_panic in S. pose proof (inv_shut _ I S). congruence.
  - destruct (recv x) as [u e'| |] eqn:R; step_cases; subst.
    + eapply loop_recv_sim; rewrite ?Ep; eauto.
    + apply loop_silent; rewrite ?Ep; auto. apply (loop_open _ I). congruence.
  - unfold close_chan in H. pose proof (loop_open _ I) as Ho. rewrite Ho in H by congruence.
    step_cases; subst. split.
    + destruct I. split; simpl; auto.
    + unfold abs, committed, waiting. simpl. rewrite Ep. apply trans_stutter.
Qed.

Lemma push_sim q v front o q' : inv q → Push q v front = (o, q') →
  inv q' ∧ trans (abs q) (label_of (APush v front) o) (abs q').
Proof.
  intros I. unfold Push. rewrite (inv_limit _ I). cbn [Z.ltb Z.compare].
  destruct (inv_list _ I) as (l & El & W). rewrite El. intros [<- <-]%pair_equal_spec. split.
  - apply inv_spawn; [|done]. destruct I. split; simpl; auto.
    eexists. split; [done|]. destruct front; simpl.
    + by apply facts.PushFront_spec.
    + by apply facts.PushBack_spec.
  - assert (∀ x y, abs q = (x, y) → abs (spawn (set_lst q (Some (slist.PushBack l v).2)) TEvents)
      = (x, y ++ [v]) ∧ abs (spawn (set_lst q (Some (slist.PushFront l v).2)) TEvents)
      = (x, v :: y)) as Ha.
    { unfold abs, waiting. rewrite El. intros x y [= <- <-]. split; [|done]. f_equal.
      apply (facts.PushBack_spec (slist.list l) v W). }
    destruct (abs q) as [x y]. destruct (Ha _ _ eq_refl) as [E1 E2].
    destruct front; rewrite ?E1, ?E2; constructor.
Qed.

(** Every step of the code is a step of the abstract queue. *)
Lemma step_sim a q o q' : inv q → step a q = Some (o, q') →
  inv q' ∧ trans (abs q) (label_of a o) (abs q').
Proof.
  intros I H. destruct a; simpl in H.
  - apply Some_inj in H. by eapply push_sim.
  - step_cases; subst. split; [|apply trans_stutter].
    apply inv_spawn; [|done]. destruct I. by split.
  - step_cases; subst. split; [by eapply Pop_inv|].
    apply Pop_spec in H as [(v & c & -> & E & Ec & Es & ->)|(-> & -> & _)].
    + unfold abs, committed. simpl. rewrite E. apply trans_take.
    + apply trans_stutter.
  - by eapply step_call_sim.
  - by eapply loop_sim.
Qed.

Lemma run_sim acts q os q' : inv q → run acts q = Some (os, q') →
  inv q' ∧ transs (abs q) (labels acts os) (abs q').
Proof.
  revert q os. induction acts as [|a acts IH]; simpl; intros q os I H.
  - injection H as <- <-. split; [done|constructor].
  - step_cases. subst. destruct (step_sim _ _ _ _ I H) as [I1 T].
    destruct (IH _ _ I1 H0) as [I2 Ts]. split; [done|]. by econstructor.
Qed.
End refinement.

(** ** No lost wake-up

    [live] is the invariant of a queue that nobody closes.  Its last but one
    field is the heart: when the goroutine is between two batches and values are
    waiting, a signal is in the channel or a pusher is about to look at it. *)

Section liveness.
Context {V : Type}.
Implicit Types (q : Queue V) (v : V) (vs : list V).
Import spec.

Definition between (p : looppc V) : bool :=
  match p with LOuter | LRecv | LClear _ | LClearRecv _ => true | _ => false end.
Definition pushing (t : callpc V) : Prop := t = TEvents ∨ t = TSignal.

Record live q : Prop := {
  live_inv : inv q;
  live_closed : closed q = 0;
  live_events : ∃ e, events q = Some e ∧ cshut e = false;
  live_C : cshut (C q) = false;
  live_loop : loop q ≠ LNone ∧ loop q ≠ LClose;
  live_calls : Forall pushing (calls q);
  live_wake : between (loop q) = true → waiting q ≠ [] → (0 < events_len q)%nat ∨ calls q ≠ [];
  live_clear : ∀ i, loop q = LClearRecv i → (1 < events_len q)%nat
}.

(** The actions other than Close. *)
Definition opens (a : action V) : Prop := a ≠ AClose.

Lemma New_live a q : New a None = Some q → live q.
Proof.
  intros H. pose proof (New_inv _ _ H). injection H as <-. split; simpl; auto; try done.
  by eexists.
Qed.

Lemma live_Pop q o q' : live q → Pop q = Some (o, q') →
  live q' ∧ ∃ v c, o = Some v ∧ cbuf (C q) = v :: cbuf c ∧ q' = set_C q c.
Proof.
  intros L H. pose proof (Pop_inv _ _ _ (live_inv _ L) H) as I.
  apply Pop_spec in H as [(v & c & -> & E & Ec & Es & ->)|(_ & _ & S)].
  - split; [|by exists v, c]. destruct L. split; simpl; auto. congruence.
  - pose proof (live_C _ L). congruence.
Qed.

Lemma live_call q i o q' : live q → step_call q i = Some (o, q') → live q'.
Proof.
  intros L H. destruct (step_call_sim _ _ _ _ (live_inv _ L) H) as [I _].
  unfold step_call in H. step_cases. destruct (live_events _ L) as (e & Ee & Eo).
  pose proof (list.Forall_lookup_1 _ _ _ _ (live_calls _ L) H) as U.
  pose proof (lookup_lt_Some _ _ _ H) as Hi. pose proof (live_calls _ L) as Hc.
  destruct U as [-> | ->].
  - destruct (bool_decide _) eqn:B; bdec; step_cases; subst; destruct L; split; simpl; auto.
    + apply Forall_insert; [done|]. by right.
    + intros. right. intros E. apply (f_equal length) in E. rewrite length_insert in E.
      destruct (calls q); simpl in *; [lia|done].
    + apply Forall_app. split; [by apply Forall_take|by apply Forall_drop].
    + intros. left. revert B. unfold DEFAULT_QUEUE_SIZE.
      change (events_len (finish q i)) with (events_len q). lia.
  - step_cases. rewrite Ee in H0. injection H0 as <-.
    destruct (send e ()) as [e'| |] eqn:S; step_cases; subst.
    + apply send_spec in S as (Eb & Ec & Es & _ & Ll).
      destruct L; split; simpl; auto.
      * exists e'. split; [done|]. congruence.
      * apply Forall_app. split; [by apply Forall_take|by apply Forall_drop].
      * intros. left. unfold events_len. simpl. rewrite Eb, length_app. simpl. lia.
      * intros j Hj. specialize (live_clear0 j Hj). unfold events_len in *. simpl.
        rewrite Ee in live_clear0. rewrite Eb, length_app. lia.
    + apply send_panic in S. congruence.
Qed.

Lemma Len_waiting q l : lst q = Some l → slist.Len l = zlen (waiting q).
Proof.
  intros E. unfold waiting, slist.Len, dlist.Len, facts.values, zlen. by rewrite E, length_fmap.
Qed.

Lemma live_set_loop q p : live q → inv (set_loop q p) → p ≠ LNone → p ≠ LClose →
  (between p = true → between (loop q) = true ∨ waiting q = []) →
  (∀ i, p = LClearRecv i → (1 < events_len q)%nat) → live (set_loop q p).
Proof.
  intros L I H1 H2 H3 H4. destruct L. split; simpl; auto.
  intros B W. destruct (H3 B) as [?|E]; [by apply live_wake0|by destruct W].
Qed.

Lemma live_recv q e e' u p : live q → events q = Some e → recv e = Received u e' →
  inv (set_loop (set_events q (Some e')) p) → (p = LInner ∨ ∃ i, p = LClear i ∧ (1 < events_len q)%nat) →
  live (set_loop (set_events q (Some e')) p).
Proof.
  intros L E R I H. apply recv_spec in R as (Eb & Ec & Es).
  destruct (live_events _ L) as (e1 & E1 & Eo). rewrite E in E1. injection E1 as <-.
  destruct L. split; simpl; auto.
  - exists e'. split; [done|]. congruence.
  - destruct H as [->|(? & -> & ?)]; done.
  - intros B _. destruct H as [->|(i & -> & Hl)]; [done|]. left.
    unfold events_len in *. rewrite E, Eb in Hl. simpl in *. lia.
  - intros j Hj. destruct H as [->|(i & -> & Hl)]; done.
Qed.

Lemma live_ALoop q o q' : live q → startAsyncLoop q = Some (o, q') → live q'.
Proof.
  intros L H. destruct (loop_sim _ _ _ (live_inv _ L) H) as [I _].
  destruct (live_events _ L) as (e & Ee & Eo). pose proof (live_closed _ L) as Ecl.
  pose proof (live_loop _ L) as [Hn1 Hn2]. pose proof (live_clear _ L) as Hcl.
  unfold startAsyncLoop in H. rewrite ?Ecl in H.
  destruct (loop q) as [| | | |n|[|v vs]|i|i| |] eqn:Ep; try done; step_cases; subst.
  - apply live_set_loop; rewrite ?Ep; auto; done.
  - rewrite Ee in H. injection H as <-. destruct (recv e) eqn:R; step_cases; subst.
    + eapply live_recv; eauto.
    + unfold recv in R. destruct (cbuf e); [|done]. by rewrite Eo in R.
  - apply live_set_loop; rewrite ?Ep; auto; done.
  - destruct (0 <? slist.Len x) eqn:Hl; bdec; step_cases; subst;
      apply live_set_loop; rewrite ?Ep; auto; try done.
    intros _. right. apply zlen_0. rewrite (Len_waiting _ _ H) in Hl.
    pose proof (zlen_nonneg (waiting q)). lia.
  - assert (live (set_lst q (Some l0))) as L'.
    { destruct L. split; simpl; auto. destruct I. by split; simpl in *; auto; destruct live_inv0.
      intros Hb. by rewrite Ep in Hb. }
    apply live_set_loop; auto; try done.
  - apply live_set_loop; rewrite ?Ep; auto; done.
  - destruct (send (C q) v) eqn:S; step_cases; subst.
    + apply send_spec in S as (_ & _ & Es & Ec & _). rewrite Ec in Es.
      destruct L. split; simpl; auto; done.
    + apply send_panic in S. pose proof (live_C _ L). congruence.
  - case_bool_decide; apply live_set_loop; rewrite ?Ep; auto; try done. intros. lia.
  - rewrite Ee in H. injection H as <-. destruct (recv e) eqn:R; step_cases; subst.
    + eapply live_recv; eauto.
    + unfold recv in R. destruct (cbuf e); [|done]. by rewrite Eo in R.
Qed.

Lemma live_step a q o q' : opens a → live q → step a q = Some (o, q') → live q'.
Proof.
  intros Ha L H. destruct a; simpl in H.
  - step_cases. pose proof (push_sim _ _ _ _ _ (live_inv _ L) H) as [I _].
    unfold Push in H. rewrite (inv_limit _ (live_inv _ L)) in H.
    destruct (inv_list _ (live_inv _ L)) as (l & El & W). rewrite El in H.
    cbn [Z.ltb Z.compare] in H. step_cases. subst.
    destruct L. split; auto; simpl.
    + apply Forall_app. split; [done|]. repeat constructor.
    + intros _ _. right. by destruct (calls q).
  - done.
  - step_cases; subst. by destruct (live_Pop _ _ _ L H).
  - by eapply live_call.
  - by eapply live_ALoop.
Qed.

Lemma live_run acts q os q' : Forall opens acts → live q → run acts q = Some (os, q') → live q'.
Proof.
  revert q os. induction acts as [|a acts IH]; simpl; intros q os F L H.
  - by injection H as <- <-.
  - step_cases. subst. inversion F; subst. eauto using live_step.
Qed.

(** Steps of the goroutine, the calls in progress and the consumers, without
    another push, and the values the consumers get. *)
Definition internal (a : action V) : Prop :=
  match a with APush _ _ | AClose => False | _ => True end.

Definition got (o : outcome V) : list V :=
  match o with Popped (Some v) | Dropped (Some v) => [v] | _ => [] end.

Inductive delivers : Queue V → list V → Queue V → Prop :=
| del_nil q : delivers q [] q
| del_step a q o q1 vs q2 : internal a → step a q = Some (o, q1) → delivers q1 vs q2 →
    delivers q (got o ++ vs) q2.

Lemma del_trans q1 vs1 q2 vs2 q3 :
  delivers q1 vs1 q2 → delivers q2 vs2 q3 → delivers q1 (vs1 ++ vs2) q3.
Proof.
  induction 1; intros; [done|]. rewrite <- app_assoc. econstructor; eauto.
Qed.

Lemma del_silent a q q1 vs q2 : internal a → step a q = Some (Silent, q1) →
  delivers q1 vs q2 → delivers q vs q2.
Proof. intros Ha H D. exact (del_step a q Silent q1 vs q2 Ha H D). Qed.

Lemma del_live q vs q' : live q → delivers q vs q' → live q'.
Proof.
  intros L D. revert L. induction D as [|a q o q1 vs q2 Ha H _ IH]; [done|].
  intros L. apply IH. eapply (live_step a); eauto. by destruct a.
Qed.

Lemma del_run q vs q' : delivers q vs q' →
  ∃ acts os, Forall internal acts ∧ run acts q = Some (os, q') ∧ vs = concat (got <$> os).
Proof.
  induction 1 as [q|a q o q1 vs q2 Ha H _ (acts & os & F & R & ->)].
  - by exists [], [].
  - exists (a :: acts), (o :: os). split; [by constructor|]. simpl. by rewrite H; simpl; rewrite R.
Qed.

(** The consumers empty the channel. *)
Lemma drain_C q : live q →
  ∃ c, delivers q (cbuf (C q)) (set_C q c) ∧ cbuf c = [].
Proof.
  remember (cbuf (C q)) as b eqn:E. revert q E. induction b as [|v b IH]; intros q E L.
  - exists (C q). split; [|done]. destruct q. constructor.
  - set (q1 := set_C q (mkChan (ccap (C q)) b (cshut (C q)))).
    assert (step APop q = Some (Popped (Some v), q1)) as H.
    { simpl. unfold Pop, recv. by rewrite <- E. }
    destruct (IH q1 eq_refl) as (c & D & Ec); [by eapply (live_step APop)|].
    exists c. split; [|done]. by apply (del_step APop q (Popped (Some v)) q1 b).
Qed.

(** The goroutine and the consumers pass on the batch. *)
Lemma flush_batch vs q : live q → loop q = LSend vs →
  ∃ q', delivers q (cbuf (C q) ++ vs) q' ∧ loop q' = LInner ∧ cbuf (C q') = [] ∧ lst q' = lst q.
Proof.
  revert q. induction vs as [|v vs IH]; intros q L E.
  - destruct (drain_C q L) as (c & D & Ec). exists (set_loop (set_C q c) LInner).
    split_and!; try done. apply (del_trans _ _ _ [] _ D).
    eapply (del_silent ALoop); [done| |constructor].
    simpl. unfold startAsyncLoop. simpl. by rewrite E.
  - destruct (drain_C q L) as (c & D & Ec). pose proof (del_live _ _ _ L D) as L1.
    set (q2 := set_loop (set_C q (mkChan (ccap c) [v] (cshut c))) (LSend vs)).
    assert (step ALoop (set_C q c) = Some (Silent, q2)) as H.
    { simpl. unfold startAsyncLoop. simpl. rewrite E.
      destruct (inv_C _ (live_inv _ L1)) as [Hc _]. simpl in Hc.
      pose proof (live_C _ L1) as Hs. simpl in Hs. unfold send.
      rewrite Hs, Ec, bool_decide_eq_true_2 by (rewrite Hc; unfold DEFAULT_QUEUE_SIZE; simpl; lia).
      unfold q2. by rewrite Hs. }
    destruct (IH q2) as (q' & D' & Hq); [by eapply (live_step ALoop)|done|].
    exists q'. split; [|done]. apply (del_trans _ _ _ _ _ D). eapply (del_silent ALoop); done.
Qed.

(** The next batch is taken off the list. *)
Definition takes q : Prop :=
  ∃ q' vs, delivers q [] q' ∧ loop q' = LSend vs ∧ C q' = C q ∧ vs ≠ [] ∧
    waiting q = vs ++ waiting q'.

Lemma waiting_pos q : waiting q ≠ [] → 0 < zlen (waiting q).
Proof.
  intros W. pose proof (zlen_nonneg (waiting q)).
  assert (zlen (waiting q) ≠ 0) by (by rewrite zlen_0). lia.
Qed.

Lemma pop_takes q n : live q → loop q = LPop n → waiting q ≠ [] → takes q.
Proof.
  intros L E W. destruct (inv_list _ (live_inv _ L)) as (l & El & Wl).
  pose proof (inv_loop _ (live_inv _ L)) as Hn. rewrite E in Hn.
  pose proof (waiting_pos _ W) as Hpos.
  destruct (refine.pops_rep n l (waiting q)) as [(l' & H1 & W1 & E1) _].
  { split; [done|]. unfold waiting. by rewrite El. }
  set (k := refine.batch n (waiting q)) in *.
  assert (k ≠ 0)%nat as Hk.
  { unfold k, refine.batch. case_if; [|unfold zlen in Hpos; lia]. lia. }
  exists (set_loop (set_lst q (Some l')) (LSend (take k (waiting q)))), (take k (waiting q)).
  split_and!; try done.
  - eapply (del_silent ALoop); [done| |constructor].
    simpl. unfold startAsyncLoop. rewrite E, El. simpl. by rewrite H1.
  - intros Ht. apply (f_equal length) in Ht. rewrite length_take in Ht.
    unfold zlen in Hpos. simpl in Ht. lia.
  - unfold waiting at 3. simpl. rewrite E1. by rewrite take_drop.
Qed.

Lemma step_takes q q1 : live q → step ALoop q = Some (Silent, q1) → C q1 = C q → lst q1 = lst q →
  (live q1 → waiting q1 ≠ [] → takes q1) → waiting q ≠ [] → takes q.
Proof.
  intros L H HC Hl T W. assert (waiting q1 = waiting q) as Ew by (unfold waiting; by rewrite Hl).
  destruct T as (q' & vs & D & E & C1 & Hv & W1); [by eapply (live_step ALoop)|by rewrite Ew|].
  exists q', vs. split_and!; [by eapply (del_silent ALoop)|done|congruence|done|congruence].
Qed.

Lemma len_takes q : live q → loop q = LLen → waiting q ≠ [] → takes q.
Proof.
  intros L E W. destruct (inv_list _ (live_inv _ L)) as (l & El & Wl).
  pose proof (waiting_pos _ W) as Hpos. rewrite <- (Len_waiting _ _ El) in Hpos.
  eapply (step_takes q _ L).
  - simpl. unfold startAsyncLoop. rewrite E, El. simpl. by rewrite (proj2 (Z.ltb_lt _ _) Hpos).
  - done.
  - done.
  - intros L1. by eapply pop_takes.
  - done.
Qed.

Lemma inner_takes q : live q → loop q = LInner → waiting q ≠ [] → takes q.
Proof.
  intros L E W. eapply (step_takes q (set_loop q LLen) L); try done.
  - simpl. unfold startAsyncLoop. by rewrite E, (live_closed _ L).
  - intros L1. by apply len_takes.
Qed.

(** From the inner loop everything is passed on. *)
Lemma inner_drains n q : live q → loop q = LInner → (length (waiting q) ≤ n)%nat →
  ∃ q', delivers q (cbuf (C q) ++ waiting q) q' ∧ abs q' = ([], []).
Proof.
  revert q. induction n as [|n IH]; intros q L E Hn;
    (destruct (waiting q) as [|w0 w] eqn:Ew;
       [destruct (drain_C q L) as (c & D & Ec); exists (set_C q c); split;
          [by rewrite app_nil_r|unfold abs, committed; simpl; rewrite Ec, E;
           change (waiting (set_C q c)) with (waiting q); by rewrite Ew]|]).
  - simpl in Hn. lia.
  - destruct (inner_takes q L E) as (q1 & vs & D1 & E1 & C1 & Hv & W1); [by rewrite Ew|].
    pose proof (del_live _ _ _ L D1) as L1.
    destruct (flush_batch vs q1 L1 E1) as (q2 & D2 & E2 & C2 & W2).
    pose proof (del_live _ _ _ L1 D2) as L2.
    assert (waiting q2 = waiting q1) as W3 by (unfold waiting; by rewrite W2).
    rewrite Ew in W1. destruct (IH q2 L2 E2) as (q3 & D3 & E3).
    { rewrite W3. apply (f_equal length) in W1. rewrite length_app in W1.
      destruct vs; [done|]. simpl in *. lia. }
    exists q3. split; [|done]. rewrite W1, <- W3, <- C1, app_assoc.
    apply (del_trans _ [] q1); [done|]. apply (del_trans _ _ q2); [done|].
    by rewrite C2 in D3.
Qed.

(** ** The goroutine wakes up *)

(** A pusher in progress signals. *)
Lemma call_signals q : live q → events_len q = 0%nat → calls q ≠ [] →
  ∃ q', delivers q [] q' ∧ (0 < events_len q')%nat ∧ loop q' = loop q ∧ C q' = C q ∧ lst q' = lst q.
Proof.
  intros L E Hc. destruct (live_events _ L) as (e & Ee & Eo).
  destruct (inv_events _ (live_inv _ L)) as (e1 & Ee1 & Hcap). rewrite Ee in Ee1. injection Ee1 as <-.
  assert (cbuf e = []) as Eb.
  { unfold events_len in E. rewrite Ee in E. by destruct (cbuf e). }
  assert (send e () = Sent (mkChan (ccap e) [()] (cshut e))) as Hs.
  { unfold send. rewrite Eo, Eb, bool_decide_eq_true_2; [done|]. rewrite Hcap. simpl. lia. }
  assert (∀ q1, live q1 → calls q1 !! 0%nat = Some TSignal → events q1 = Some e →
    step (ACall 0) q1 = Some (Silent, finish (set_events q1 (Some (mkChan (ccap e) [()] (cshut e)))) 0))
    as Hsig.
  { intros q1 L1 H1 H2. simpl. unfold step_call. rewrite H1. simpl. rewrite H2. simpl. by rewrite Hs. }
  pose proof (live_calls _ L) as F. destruct (calls q) as [|t ts] eqn:Ec; [done|].
  apply list.Forall_cons in F as [[-> | ->] _].
  - set (q1 := goto q 0 TSignal). assert (step (ACall 0) q = Some (Silent, q1)) as H.
    { simpl. unfold step_call. rewrite Ec. simpl. by rewrite E. }
    eexists. split; [|split].
    + eapply (del_silent (ACall 0)); [done|exact H|].
      eapply (del_silent (ACall 0)); [done| |constructor].
      apply Hsig; [by eapply (live_step (ACall 0))| |done]. simpl. by rewrite Ec.
    + simpl. unfold events_len. simpl. lia.
    + done.
  - eexists. split; [|split].
    + eapply (del_silent (ACall 0)); [done| |constructor]. apply Hsig; [done|by rewrite Ec|done].
    + simpl. unfold events_len. simpl. lia.
    + done.
Qed.

Lemma recv_wakes q : live q → loop q = LRecv → waiting q ≠ [] →
  ∃ q', delivers q [] q' ∧ loop q' = LInner ∧ C q' = C q ∧ lst q' = lst q.
Proof.
  intros L E W.
  assert (∀ q1, live q1 → loop q1 = LRecv → (0 < events_len q1)%nat →
    ∃ q', delivers q1 [] q' ∧ loop q' = LInner ∧ C q' = C q1 ∧ lst q' = lst q1) as Hr.
  { intros q1 L1 E1 H1. unfold events_len in H1. destruct (events q1) as [e|] eqn:Ee; [|lia].
    destruct (cbuf e) as [|u b] eqn:Eb; simpl in H1; [lia|].
    exists (set_loop (set_events q1 (Some (mkChan (ccap e) b (cshut e)))) LInner).
    split; [|done]. eapply (del_silent ALoop); [done| |constructor].
    simpl. unfold startAsyncLoop. rewrite E1, Ee. simpl. unfold recv. by rewrite Eb. }
  destruct (decide (events_len q = 0%nat)) as [E0|Hne]; [|apply Hr; auto; lia].
  destruct (live_wake _ L) as [?|Hc]; [by rewrite E|done|lia|].
  destruct (call_signals q L E0 Hc) as (q1 & D1 & H1 & E1 & C1 & W1).
  destruct (Hr q1) as (q2 & D2 & E2 & C2 & W2); [by eapply del_live|congruence|done|].
  exists q2. split_and!; [by apply (del_trans _ [] q1 [])|done|congruence|congruence].
Qed.

(** From between two batches the goroutine gets back to its receive. *)
Lemma clear_ends n i q : live q → loop q = LClear i → (events_len q ≤ n)%nat →
  ∃ q', delivers q [] q' ∧ loop q' = LOuter ∧ C q' = C q ∧ lst q' = lst q.
Proof.
  revert i q. induction n as [|n IH]; intros i q L E Hn; destruct (decide (S i < events_len q)%nat) as [Hi|Hi].
  1: lia. 1,3: (exists (set_loop q LOuter); split; [|done]; eapply (del_silent ALoop); [done| |constructor];
      simpl; unfold startAsyncLoop; rewrite E; by rewrite bool_decide_eq_false_2).
  set (q1 := set_loop q (LClearRecv i)).
  assert (step ALoop q = Some (Silent, q1)) as H1.
  { simpl. unfold startAsyncLoop. rewrite E. by rewrite bool_decide_eq_true_2. }
  assert (live q1) as L1 by (by eapply (live_step ALoop)).
  unfold events_len in Hi, Hn. destruct (events q) as [e|] eqn:Ee; [|lia].
  destruct (cbuf e) as [|u b] eqn:Eb; simpl in Hi, Hn; [lia|].
  set (q2 := set_loop (set_events q (Some (mkChan (ccap e) b (cshut e)))) (LClear (S i))).
  assert (step ALoop q1 = Some (Silent, q2)) as H2.
  { simpl. unfold startAsyncLoop. simpl. rewrite Ee. simpl. unfold recv. by rewrite Eb. }
  destruct (IH (S i) q2) as (q' & D & Hq); [by eapply (live_step ALoop)|done|simpl; unfold events_len; simpl; lia|].
  exists q'. split; [|done]. by eapply (del_silent ALoop); [done|done|]; eapply (del_silent ALoop).
Qed.

Lemma outer_wakes q : live q → loop q = LOuter → waiting q ≠ [] →
  ∃ q', delivers q [] q' ∧ loop q' = LInner ∧ C q' = C q ∧ lst q' = lst q.
Proof.
  intros L E W. set (q1 := set_loop q LRecv). assert (step ALoop q = Some (Silent, q1)) as H.
  { simpl. unfold startAsyncLoop. by rewrite E, (live_closed _ L). }
  destruct (recv_wakes q1) as (q' & D & Hq); [by eapply (live_step ALoop)|done|done|].
  exists q'. split; [|done]. by eapply (del_silent ALoop).
Qed.

Lemma clear_wakes i q : live q → loop q = LClear i → waiting q ≠ [] →
  ∃ q', delivers q [] q' ∧ loop q' = LInner ∧ C q' = C q ∧ lst q' = lst q.
Proof.
  intros L E W. destruct (clear_ends _ i q L E (le_n _)) as (q1 & D1 & E1 & C1 & W1).
  destruct (outer_wakes q1) as (q2 & D2 & E2 & C2 & W2);
    [by eapply del_live|done|unfold waiting; by rewrite W1|].
  exists q2. split_and!; [by apply (del_trans _ [] q1 [])|done|congruence|congruence].
Qed.

(** Once a batch is taken, everything is passed on. *)
Lemma takes_drains q : live q → batch_of (loop q) = [] → takes q →
  ∃ q', delivers q (committed q ++ waiting q) q' ∧ abs q' = ([], []).
Proof.
  intros L B (q1 & vs & D1 & E1 & C1 & _ & W1). pose proof (del_live _ _ _ L D1) as L1.
  destruct (flush_batch vs q1 L1 E1) as (q2 & D2 & E2 & C2 & W2).
  destruct (inner_drains _ q2 (del_live _ _ _ L1 D2) E2 (le_n _)) as (q3 & D3 & E3).
  exists q3. split; [|done]. unfold committed. rewrite B, app_nil_r, W1, app_assoc, <- C1.
  apply (del_trans _ [] q1); [done|]. apply (del_trans _ _ q2); [done|].
  rewrite C2 in D3. unfold waiting in *. rewrite W2 in D3. done.
Qed.

Lemma wakes_drains q : live q → batch_of (loop q) = [] →
  (∃ q', delivers q [] q' ∧ loop q' = LInner ∧ C q' = C q ∧ lst q' = lst q) →
  ∃ q', delivers q (committed q ++ waiting q) q' ∧ abs q' = ([], []).
Proof.
  intros L B (q1 & D1 & E1 & C1 & W1).
  destruct (inner_drains _ q1 (del_live _ _ _ L D1) E1 (le_n _)) as (q2 & D2 & E2).
  exists q2. split; [|done]. unfold committed. rewrite B, app_nil_r.
  apply (del_trans _ [] q1); [done|]. unfold waiting in *. by rewrite C1, W1 in D2.
Qed.

Lemma clear_recv_wakes i q : live q → loop q = LClearRecv i → waiting q ≠ [] →
  ∃ q', delivers q [] q' ∧ loop q' = LInner ∧ C q' = C q ∧ lst q' = lst q.
Proof.
  intros L E W. pose proof (live_clear _ L i E) as Hl. unfold events_len in Hl.
  destruct (events q) as [e|] eqn:Ee; [|lia]. destruct (cbuf e) as [|u b] eqn:Eb; simpl in Hl; [lia|].
  set (q1 := set_loop (set_events q (Some (mkChan (ccap e) b (cshut e)))) (LClear (S i))).
  assert (step ALoop q = Some (Silent, q1)) as H.
  { simpl. unfold startAsyncLoop. rewrite E, Ee. simpl. unfold recv. by rewrite Eb. }
  destruct (clear_wakes (S i) q1) as (q' & D & Hq); [by eapply (live_step ALoop)|done|done|].
  exists q'. split; [|done]. by eapply (del_silent ALoop).
Qed.

Lemma live_drains q : live q →
  ∃ q', delivers q (committed q ++ waiting q) q' ∧ abs q' = ([], []).
Proof.
  intros L. destruct (loop q) as [| | | |n|vs|i|i| |] eqn:E.
  6:{ destruct (flush_batch vs q L E) as (q1 & D1 & E1 & C1 & W1).
      destruct (inner_drains _ q1 (del_live _ _ _ L D1) E1 (le_n _)) as (q2 & D2 & E2).
      exists q2. split; [|done]. unfold committed. rewrite E. simpl.
      apply (del_trans _ _ q1); [done|]. unfold waiting in *. by rewrite C1, W1 in D2. }
  all: try (by destruct (live_loop _ L); congruence).
  all: destruct (decide (waiting q = [])) as [W|W];
    [destruct (drain_C q L) as (c & D & Ec); exists (set_C q c); split;
       [unfold committed; rewrite E, W, !app_nil_r; done
       |unfold abs, committed; change (waiting (set_C q c)) with (waiting q);
        simpl; by rewrite Ec, E, W]|].
  1,2,6,7: apply wakes_drains; [done|by rewrite E|];
    eauto using outer_wakes, recv_wakes, clear_wakes, clear_recv_wakes.
  all: apply takes_drains; [done|by rewrite E|]; eauto using inner_takes, len_takes, pop_takes.
Qed.
End liveness.

(** ** The properties *)

(** C5: For every interleaving of pushes at both ends, pops, closes and the
    goroutine, from a new queue without a limit, the queue behaves as the
    abstract queue: each action is a push, a take or a commit of the abstract
    queue or leaves it alone, every value taken is the head of the committed
    part, and the committed part, which a front push does not overtake, never
    exceeds the 512 values of the channel and a batch of 10. *)
Theorem squeue_refines {V} (a : nat) (q0 q : Queue V) (acts : list (action V)) (os : list (outcome V))
    (H0 : New a None = Some q0) (Hr : run acts q0 = Some (os, q)) :
  spec.transs ([], []) (labels acts os) (abs q) ∧ (length (committed q) ≤ 522)%nat.
Proof.
  pose proof (New_inv _ _ H0) as I. destruct (run_sim _ _ _ _ I Hr) as [I' T]. split.
  - injection H0 as <-. exact T.
  - pose proof (inv_C _ I') as [_ L]. pose proof (inv_loop _ I') as B.
    unfold committed, DEFAULT_QUEUE_SIZE, DEFAULT_MAX_BATCH_SIZE in *. rewrite length_app.
    destruct (loop q); simpl; lia.
Qed.

(** An interleaving with a front push: 1 is committed before 3 is pushed in
    front of 2. *)
Lemma squeue_refines_witness :
  let acts := [APush 1 false; ACall 0; ACall 0; ALoop; ALoop; ALoop; ALoop; ALoop;
               APush 2 false; APush 3 true; ALoop; APop] in
  ∃ q0 q os, New 0 None = Some q0 ∧ run acts q0 = Some (os, q) ∧
    spec.transs ([], []) (labels acts os) (abs q) ∧ abs q = ([], [3; 2]) ∧
    (length (committed q) ≤ 522)%nat.
Proof.
  intros acts. set (q0 := mkQueue 0 (Some (slist.New 0)) 0
    (Some (make_chan (DEFAULT_QUEUE_SIZE + DEFAULT_MAX_BATCH_SIZE)))
    (make_chan DEFAULT_QUEUE_SIZE) LOuter [] : Queue Z).
  destruct (run acts q0) as [[os q]|] eqn:Hr; [|by vm_compute in Hr].
  destruct (squeue_refines 0 q0 q acts os eq_refl Hr) as [T L].
  exists q0, q, os. split_and!; [done|done|done| |done].
  vm_compute in Hr. injection Hr as <- <-. reflexivity.
Defined.

(** Without front pushes the queue is first in, first out: whatever the
    interleaving, the values taken out, followed by those in the channel, in the
    goroutine's batch and in the list, are the values pushed, in order. *)
Theorem squeue_fifo {V} (a : nat) (q0 q : Queue V) (acts : list (action V)) (os : list (outcome V))
    (H0 : New a None = Some q0) (Hr : run acts q0 = Some (os, q))
    (Hb : spec.backs (labels acts os)) :
  spec.took (labels acts os) ++ committed q ++ waiting q = spec.pushed (labels acts os).
Proof.
  destruct (run_sim _ _ _ _ (New_inv _ _ H0) Hr) as [_ T].
  apply spec.transs_fifo in T; [|done]. injection H0 as <-. exact T.
Qed.

Lemma squeue_fifo_witness :
  let acts := [APush 1 false; APush 2 false; ACall 1; ACall 1; ALoop; ALoop; ALoop; ALoop; ALoop;
               ALoop; APush 3 false; APop] in
  ∃ q0 q os, New 0 None = Some q0 ∧ run acts q0 = Some (os, q) ∧
    spec.took (labels acts os) = [1] ∧
    [1] ++ committed q ++ waiting q = [1; 2; 3].
Proof.
  intros acts. set (q0 := mkQueue 0 (Some (slist.New 0)) 0
    (Some (make_chan (DEFAULT_QUEUE_SIZE + DEFAULT_MAX_BATCH_SIZE)))
    (make_chan DEFAULT_QUEUE_SIZE) LOuter [] : Queue Z).
  destruct (run acts q0) as [[os q]|] eqn:Hr; [|by vm_compute in Hr].
  assert (os = [Silent; Silent; Silent; Silent; Silent; Silent; Silent; Silent; Silent;
    Silent; Silent; Popped (Some 1)]) as Eo by (vm_compute in Hr; by injection Hr as <- <-).
  pose proof (squeue_fifo 0 q0 q acts os eq_refl Hr) as F. rewrite Eo in *.
  exists q0, q, os. split_and!; [done|by rewrite Eo|by rewrite Eo|].
  apply F. repeat constructor.
Defined.

(** C16: No wake-up is lost and nothing gets stuck: from every state an
    interleaving of pushes, pops and the goroutine can reach on a queue without
    a limit that is not closed, the goroutine, the calls already in progress and
    the consumers can go on, without another push, until the consumers have
    received every value of the queue, in its order, and it is empty. *)
Theorem squeue_delivers {V} (a : nat) (q0 q : Queue V) (acts : list (action V)) (os : list (outcome V))
    (H0 : New a None = Some q0) (Hr : run acts q0 = Some (os, q)) (Ho : Forall opens acts) :
  ∃ acts' os' q', Forall internal acts' ∧ run acts' q = Some (os', q') ∧
    concat (got <$> os') = committed q ++ waiting q ∧ abs q' = ([], []).
Proof.
  pose proof (live_run _ _ _ _ Ho (New_live _ _ H0) Hr) as L.
  destruct (live_drains q L) as (q' & D & E).
  destruct (del_run _ _ _ D) as (acts' & os' & F & R & Ev).
  exists acts', os', q'. by rewrite <- Ev.
Qed.

(** Two values pushed, the second without a signal yet, while the goroutine
    sleeps. *)
Lemma squeue_delivers_witness :
  ∃ q0 q os acts' os' q', New 0 None = Some q0 ∧
    run [ALoop; APush 7 false; APush 8 false] q0 = Some (os, q) ∧
    run acts' q = Some (os', q') ∧ concat (got <$> os') = [7; 8] ∧ abs q' = ([], []).
Proof.
  set (q0 := mkQueue 0 (Some (slist.New 0)) 0
    (Some (make_chan (DEFAULT_QUEUE_SIZE + DEFAULT_MAX_BATCH_SIZE)))
    (make_chan DEFAULT_QUEUE_SIZE) LOuter [] : Queue Z).
  destruct (run [ALoop; APush 7 false; APush 8 false] q0) as [[os q]|] eqn:Hr; [|by vm_compute in Hr].
  destruct (squeue_delivers 0 q0 q _ os eq_refl Hr) as (acts' & os' & q' & _ & R & E & Ea).
  { repeat constructor; done. }
  exists q0, q, os, acts', os', q'. split_and!; try done.
  rewrite E. vm_compute in Hr. by injection Hr as <- <-.
Defined.

(** ** The queue with a limit *)

(** A queue with a limit does not keep what its comments promise: PushFront
    does what Push does; a queue made with the limit 0 has neither list nor room,
    and pushing to it panics; and Close of an empty queue closes no channel and
    waits for ever for a value, since its next step is not enabled and no
    goroutine is running. *)
Theorem squeue_limited {V} (a : nat) (v : V) :
  (∀ (q : Queue V), 0 < limit q → Push q v true = Push q v false) ∧
  (∃ q, New a (Some 0) = Some q ∧ ∀ front, step (APush v front) q = Some (Panicked, q)) ∧
  (∀ n (q0 : Queue V), New a (Some n) = Some q0 →
     ∃ os q, run [AClose; ACall 0] q0 = Some (os, q) ∧
       step (ACall 0) q = None ∧ step ALoop q = None ∧ cshut (C q) = false).
Proof.
  split_and!.
  - intros q Hq. unfold Push. by rewrite (proj2 (Z.ltb_lt _ _) Hq).
  - eexists. split; [reflexivity|]. by intros [].
  - intros n q0 H. unfold New in H. destruct (n <? 0); [done|]. injection H as <-.
    eexists _, _. split; [reflexivity|]. by split_and!.
Qed.

(** A queue with room for two values. *)
Lemma squeue_limited_witness :
  ∃ q0 : Queue Z, New 0 (Some 2) = Some q0 ∧ Push q0 5 true = Push q0 5 false ∧
    ∃ os q, run [AClose; ACall 0] q0 = Some (os, q) ∧ step (ACall 0) q = None.
Proof.
  destruct (New 0 (Some 2)) as [q0|] eqn:E; [|done]. exists q0. split; [done|].
  destruct (squeue_limited (V := Z) 0 5) as (P & _ & K). split.
  - apply P. injection E as <-. done.
  - destruct (K 2 q0 E) as (os & q & R & S & _). by exists os, q.
Defined.

(** Clearing the events of a finished round stops half-way: of five signals it
    takes two, not four. *)
Lemma clear_leaves_half :
  let q := mkQueue 0 (Some (slist.New 0)) 0 (Some (mkChan 522 (replicate 5 ()) false))
             (make_chan 512) (LClear 0) [] : Queue Z in
  ∃ os q', run [ALoop; ALoop; ALoop; ALoop; ALoop] q = Some (os, q') ∧
    loop q' = LOuter ∧ events_len q' = 3%nat.
Proof. eexists _, _. split; [reflexivity|]. by split. Qed.
