(* ===== verification/ShardPool.v ===== *)
(** * The sharded worker pool and the proxy's events

    src/pkg/sync/shardworkerpool.go: a fixed number of shards, each a queue
    (SQueue.v) and a goroutine that handles its jobs one after the other and is
    started again when a job panics, a bounded number of times; and
    src/pkg/filter/network/proxy/event.go with initWorkerPool of proxy.go, which
    send the events of the two directions of a connection to different shards.

    The pool is a list of shards; [pstep] is one action of one of its parts, as
    in SQueue.v.  The product with the ratio is computed in float64 by the
    executable model of the IEEE operations; the conversion to uint8 of a float
    out of its range, which the language leaves to the implementation, is the
    parameter [to_uint8].

    The theorems: a job is always offered to a shard that exists; with 2 to 255
    shards the two directions never share one; with 257 (513, ...) they do, since
    the count wraps at eight bits; the events of a connection in a direction are
    handled in the order they were offered; and a shard survives exactly 64
    panics. *)
From Stdlib Require Import SpecFloat.
From S2P Require Import Prelude SList SQueue.

(** ** Events *)

Definition diFromDownstream : Z := 1.
Definition diFromUpstream : Z := 2.
Definition recvHeader : Z := 1.
Definition recvData : Z := 2.
Definition recvTrailer : Z := 3.
Definition recvAll : Z := 4.
Definition resetEvt : Z := 5.

(** [handle], a closure, is whatever the client calls it by. *)
Record event (J : Type) : Type := mkEvent { id : Z; dir : Z; evt : Z; sid : Z; handle : J }.
Arguments mkEvent {J} id dir evt sid handle.
Arguments id {J} e : rename.
Arguments dir {J} e : rename.
Arguments evt {J} e : rename.
Arguments sid {J} e : rename.
Arguments handle {J} e : rename.

(** 3.0 / 10.0 as a float64, and the operations of float64. *)
Definition ratio : spec_float := S754_finite false 5404319552844595 (-54).
Definition float64 (n : Z) : spec_float := binary_normalize 53 1024 n 0 false.

(** math.Round: to the nearest integer, half away from zero, of a finite
    float. *)
Definition Round (f : spec_float) : Z :=
  match f with
  | S754_finite s m e =>
      let a := if 0 <=? e then Z.pos m * 2 ^ e
               else (Z.pos m + 2 ^ (- e - 1)) / 2 ^ (- e) in
      if s then - a else a
  | _ => 0
  end.

Section gap.
(** uint8 of a float. *)
Variable to_uint8 : Z → Z.

Definition initEvent (shardsNum : Z) : Z :=
  let gap := to_uint8 (Round (SFmul 53 1024 (float64 shardsNum) ratio)) in
  let gap := if gap =? 0 then 1 else gap in
  if uint8 shardsNum <=? gap then uint8 (shardsNum - 1) else gap.
End gap.

Section pool.
Context {J : Type}.
Implicit Types (e : event J).

(** Source: the identifier to hash, the number of shards to spread over, and the
    first of them. *)
Definition Source (gap : Z) e (sourceShards : Z) : Z * Z * Z :=
  if dir e =? diFromDownstream then (sid e, uint64 (sourceShards - gap), 0)
  else if dir e =? diFromUpstream then (sid e, gap, uint64 (sourceShards - gap))
  else (0, 0, 0).

Definition Shard (source numShards offset : Z) : Z :=
  if numShards =? 0 then 0 else uint64 (source mod numShards + offset).

(** ** The pool *)

Definition maxRespawnTimes : Z := 64.
Definition minimumShardsNum : Z := 2.

Record shard : Type := mkShard {
  index : nat; respawnTimes : Z; queue : Queue (event J); alive : bool
}.

(** NewShardWorkerPool and Init: the queue of shard [i] allocates its list at
    address [i], and its worker is spawned. *)
Definition newShard (i : nat) : option shard :=
  q ← New i None; Some (mkShard i 0 q true).
Definition NewShardWorkerPool (numShards : Z) : option (list shard) :=
  mapM newShard (seq 0 (Z.to_nat numShards)).

(** initWorkerPool: the number of shards, the pool and the gap. *)
Definition shardsNumOf (numCPU : Z) (data : option Z) : Z :=
  let n := match data with Some p => if 0 <? p then p else numCPU | None => numCPU end in
  if n <? minimumShardsNum then minimumShardsNum else n.
Definition initWorkerPool (to_uint8 : Z → Z) (numCPU : Z) (data : option Z)
    : option (list shard * Z) :=
  let shardsNum := shardsNumOf numCPU data in
  pool ← NewShardWorkerPool shardsNum;
  Some (pool, initEvent to_uint8 shardsNum).

(** The shard an event is offered to. *)
Definition target (gap : Z) (numShards : Z) e : Z :=
  let '(source, n, offset) := Source gap e numShards in Shard source n offset.

Definition set_queue (s : shard) q : shard := mkShard (index s) (respawnTimes s) q (alive s).

(** Offer without blocking: an index out of range panics ([None]).  The
    blocking variant sends to q.C itself. *)
Inductive offered : Type := Offered (o : outcome (event J)) (pool : list shard) | OfferPanic | OfferBlock.
Definition Offer (gap : Z) (pool : list shard) e (prioritized block : bool) : offered :=
  let i := Z.to_nat (target gap (zlen pool) e) in
  match pool !! i with
  | None => OfferPanic
  | Some s =>
      if block then
        match send (C (queue s)) e with
        | Sent c => Offered Silent (<[i := set_queue s (set_C (queue s) c)]> pool)
        | SendPanic => OfferPanic
        | SendBlock => OfferBlock
        end
      else let '(o, q) := Push (queue s) e prioritized in
           Offered o (<[i := set_queue s q]> pool)
  end.

(** The worker of a shard takes the next job of the channel (eventDispatch) and
    handles it (eventProcess); [panics] says how the handler ends.  A panic is
    recovered by the deferred function of spawnWorker. *)
Definition eventDispatch (s : shard) (panics : bool) : option (outcome (event J) * shard) :=
  if alive s then
    '(o, q) ← Pop (queue s);
    match o with
    | None => Some (Popped None, mkShard (index s) (respawnTimes s) q false)
    | Some e =>
        if panics then
          if respawnTimes s <? maxRespawnTimes
          then Some (Popped (Some e), mkShard (index s) (respawnTimes s + 1) q true)
          else Some (Popped (Some e), mkShard (index s) (respawnTimes s) q false)
        else Some (Popped (Some e), mkShard (index s) (respawnTimes s) q true)
    end
  else None.

Inductive paction : Type :=
| POffer (e : event J) (prioritized : bool)
| PQueue (i : nat) (a : action (event J))     (** the goroutine or a call of a queue *)
| PWork (i : nat) (panics : bool).            (** the worker of a shard *)

Definition on_shard (pool : list shard) (i : nat) (f : shard → option (outcome (event J) * shard))
    : option (outcome (event J) * list shard) :=
  s ← pool !! i; '(o, s') ← f s; Some (o, <[i := s']> pool).

Definition pstep (gap : Z) (a : paction) (pool : list shard)
    : option (outcome (event J) * list shard) :=
  match a with
  | POffer e prioritized =>
      match Offer gap pool e prioritized false with
      | Offered o pool' => Some (o, pool')
      | _ => None
      end
  | PQueue i a => on_shard pool i (λ s, '(o, q) ← step a (queue s); Some (o, set_queue s q))
  | PWork i panics => on_shard pool i (λ s, eventDispatch s panics)
  end.

Fixpoint prun (gap : Z) (acts : list paction) (pool : list shard)
    : option (list (outcome (event J)) * list shard) :=
  match acts with
  | [] => Some ([], pool)
  | a :: acts' =>
      '(o, p1) ← pstep gap a pool; '(os, p2) ← prun gap acts' p1; Some (o :: os, p2)
  end.
End pool.
Arguments shard J : clear implicits.
Arguments paction J : clear implicits.
Arguments offered J : clear implicits.

(** ** Bounds *)

Lemma uint64_small z : 0 ≤ z < 18446744073709551616 → uint64 z = z.
Proof. intros H. apply wrapU_small. exact H. Qed.
Lemma uint8_small z : 0 ≤ z < 256 → uint8 z = z.
Proof. intros H. apply wrapU_small. exact H. Qed.
Lemma uint8_range z : 0 ≤ uint8 z < 256.
Proof. apply Z.mod_pos_bound. lia. Qed.

Section bounds.
Variable to_uint8 : Z → Z.
Hypothesis to_uint8_range : ∀ z, 0 ≤ to_uint8 z < 256.

Lemma initEvent_range n : 2 ≤ n → 0 ≤ initEvent to_uint8 n < Z.min 256 n.
Proof.
  intros Hn. unfold initEvent. set (r := Round _). pose proof (to_uint8_range r).
  pose proof (uint8_range (n - 1)). set (g := if _ =? 0 then _ else _).
  assert (1 ≤ g < 256) as Hg by (unfold g; case_if; lia).
  case_if; [|destruct (Z.lt_ge_cases n 256); [rewrite uint8_small in Hif by lia|]; lia].
  destruct (Z.lt_ge_cases n 256); [rewrite uint8_small by lia|]; lia.
Qed.

Lemma initEvent_pos n : 2 ≤ n < 256 → 1 ≤ initEvent to_uint8 n.
Proof.
  intros Hn. unfold initEvent. set (r := Round _). pose proof (to_uint8_range r).
  set (g := if _ =? 0 then _ else _). assert (1 ≤ g < 256) as Hg by (unfold g; case_if; lia).
  rewrite !uint8_small by lia. case_if; lia.
Qed.

Context {J : Type}.
Implicit Types e : event J.

(** The three cases of [target], for a gap below the number of shards. *)
Lemma target_cases gap n e : 0 ≤ gap < n → n < 9223372036854775808 →
  (dir e = diFromDownstream ∧ target gap n e = sid e mod (n - gap)) ∨
  (dir e = diFromUpstream ∧ gap ≠ 0 ∧ target gap n e = sid e mod gap + (n - gap)) ∨
  (target gap n e = 0 ∧ (dir e = diFromUpstream → gap = 0) ∧ dir e ≠ diFromDownstream).
Proof.
  intros Hg Hn. unfold target, Source, Shard.
  destruct (dir e =? diFromDownstream) eqn:D; bdec.
  - left. rewrite uint64_small by lia. rewrite (proj2 (Z.eqb_neq (n - gap) 0)) by lia.
    rewrite Z.add_0_r, uint64_small; [done|].
    pose proof (Z.mod_pos_bound (sid e) (n - gap) ltac:(lia)). lia.
  - right. destruct (dir e =? diFromUpstream) eqn:U; bdec.
    + rewrite (uint64_small (n - gap)) by lia. case_if; [by right|]. left.
      pose proof (Z.mod_pos_bound (sid e) gap ltac:(lia)).
      rewrite uint64_small by lia. done.
    + right. done.
Qed.

Lemma target_range gap n e : 0 ≤ gap < n → n < 9223372036854775808 → 0 ≤ target gap n e < n.
Proof.
  intros Hg Hn. destruct (target_cases gap n e Hg Hn) as [(_ & ->)|[(_ & ? & ->)|(-> & _)]].
  - pose proof (Z.mod_pos_bound (sid e) (n - gap) ltac:(lia)). lia.
  - pose proof (Z.mod_pos_bound (sid e) gap ltac:(lia)). lia.
  - lia.
Qed.
End bounds.

(** Whatever the number of processors and the configured number (below
    2^63), the shard computed for any event, in any direction, is an index of
    the pool, so that Offer never indexes out of range; and as long as there are
    at most 255 shards, an event from downstream and an event from upstream never
    go to the same shard, so that neither waits behind the other. *)
Theorem shard_in_range {J} (to_uint8 : Z → Z) (numCPU : Z) (data : option Z)
    (Hf : ∀ z, 0 ≤ to_uint8 z < 256) (Hn : shardsNumOf numCPU data < 2 ^ 63) :
  let n := shardsNumOf numCPU data in
  let gap := initEvent to_uint8 n in
  (∀ e : event J, 0 ≤ target gap n e < n) ∧
  (n < 256 → ∀ e e' : event J, dir e = diFromDownstream → dir e' = diFromUpstream →
     target gap n e < n - gap ≤ target gap n e').
Proof.
  intros n gap. assert (2 ≤ n) as H2.
  { unfold n, shardsNumOf, minimumShardsNum. case_if; lia. }
  change (2 ^ 63) with 9223372036854775808 in Hn. change (shardsNumOf numCPU data) with n in Hn.
  pose proof (initEvent_range _ Hf n H2) as Hg. fold gap in Hg. split.
  - intros e. apply target_range; lia.
  - intros Hl e e' He He'. unfold diFromDownstream, diFromUpstream in *. pose proof (initEvent_pos _ Hf n ltac:(lia)) as Hp. fold gap in Hp.
    destruct (target_cases gap n e ltac:(lia) Hn) as [(_ & ->)|[(Hu & _)|(_ & _ & ?)]];
      [|unfold diFromUpstream in Hu; lia|done].
    destruct (target_cases gap n e' ltac:(lia) Hn) as [(Hd & _)|[(_ & ? & ->)|(_ & G & _)]];
      [unfold diFromDownstream in Hd; lia| |specialize (G He'); lia].
    pose proof (Z.mod_pos_bound (sid e) (n - gap) ltac:(lia)).
    pose proof (Z.mod_pos_bound (sid e') gap ltac:(lia)). lia.
Qed.

(** Eight processors: a gap of two shards, connection 13 on shards 1 and 7. *)
Lemma shard_in_range_witness :
  let e d := mkEvent 1 d recvAll 13 () in
  initEvent uint8 8 = 2 ∧ target 2 8 (e diFromDownstream) = 1 ∧
  target 2 8 (e diFromUpstream) = 7 ∧
  target 2 8 (e diFromDownstream) < 8 - 2 ≤ target 2 8 (e diFromUpstream).
Proof.
  intros e. split; [reflexivity|]. split; [reflexivity|]. split; [reflexivity|].
  destruct (shard_in_range (J := unit) uint8 8 None uint8_range) as [_ S]; [done|].
  change (initEvent uint8 (shardsNumOf 8 None)) with 2 in S. by apply S.
Defined.

(** The gap is kept in eight bits.  With 257 shards, or any number above 1
    that leaves 1 modulo 256, it becomes 0, and then every event from upstream
    goes to shard 0, whatever its connection, among events from downstream. *)
Theorem shard_gap_wraps {J} (to_uint8 : Z → Z) (n : Z)
    (Hf : ∀ z, 0 ≤ to_uint8 z < 256) (Hn : 1 < n < 2 ^ 63) (Hm : n mod 256 = 1) :
  initEvent to_uint8 n = 0 ∧
  ∀ e : event J, dir e = diFromUpstream → target (initEvent to_uint8 n) n e = 0.
Proof.
  assert (initEvent to_uint8 n = 0) as E.
  { unfold initEvent. set (r := Round _). pose proof (Hf r).
    set (g := if _ =? 0 then _ else _). assert (1 ≤ g) by (unfold g; case_if; lia).
    assert (uint8 n = 1) as -> by done. rewrite (proj2 (Z.leb_le 1 g)) by done.
    unfold uint8, wrapU. change (2 ^ 8) with 256. rewrite Zminus_mod, Hm. done. }
  split; [done|]. intros e He. rewrite E. unfold target, Source. by rewrite He.
Qed.

Lemma shard_gap_wraps_witness :
  initEvent uint8 257 = 0 ∧
  target (initEvent uint8 257) 257 (mkEvent 1 diFromUpstream recvAll 12345 ()) = 0.
Proof.
  destruct (shard_gap_wraps (J := unit) uint8 257 uint8_range) as [E H]; [done|done|].
  split; [exact E|]. by apply H.
Defined.

(** ** Runs of the pool *)

Section order.
Context {J : Type}.
Implicit Types (e : event J) (s : shard J) (pool : list (shard J)).

(** The jobs of a shard that are not handled yet, in the order they will be. *)
Definition content s : list (event J) := committed (queue s) ++ waiting (queue s).

(** Offers at the back, the goroutines of the queues and the workers. *)
Definition ordered (a : paction J) : Prop :=
  match a with
  | POffer _ prioritized => prioritized = false
  | PQueue _ ALoop | PQueue _ (ACall _) => True
  | PQueue _ _ => False
  | PWork _ _ => True
  end.

Definition offered_to (gap n : Z) (i : nat) (acts : list (paction J)) : list (event J) :=
  omap (λ a, match a with
             | POffer e _ => if bool_decide (Z.to_nat (target gap n e) = i) then Some e else None
             | _ => None
             end) acts.

Definition handled_by (i : nat) (acts : list (paction J)) (os : list (outcome (event J)))
    : list (event J) :=
  omap (λ '(a, o), match a, o with
                   | PWork j _, Popped (Some e) => if bool_decide (j = i) then Some e else None
                   | _, _ => None
                   end) (zip acts os).

Definition offered_all (acts : list (paction J)) : list (event J) :=
  omap (λ a, match a with POffer e _ => Some e | _ => None end) acts.
Definition handled_all (acts : list (paction J)) (os : list (outcome (event J))) : list (event J) :=
  omap (λ '(a, o), match a, o with PWork _ _, Popped (Some e) => Some e | _, _ => None end)
    (zip acts os).

(** Every queue of the pool is open and consistent, and a worker stops only
    after its last respawn. *)
Definition good s : Prop :=
  live (queue s) ∧ 0 ≤ respawnTimes s ≤ maxRespawnTimes ∧
  (alive s = false → respawnTimes s = maxRespawnTimes).

Lemma newShard_good i s : newShard i = Some s → good s ∧ content s = [] ∧ respawnTimes s = 0.
Proof.
  unfold newShard. intros (q & Hq & [= <-])%bind_Some.
  pose proof (New_live _ _ Hq) as L. injection Hq as <-.
  split; [|done]. split; [done|]. split; [|done]. simpl. unfold maxRespawnTimes. lia.
Qed.

Lemma New_good n pool : NewShardWorkerPool n = Some pool →
  length pool = Z.to_nat n ∧
  Forall (λ s, good s ∧ content s = [] ∧ respawnTimes s = 0) pool.
Proof.
  intros H. unfold NewShardWorkerPool in H. apply mapM_Some in H. split.
  - apply Forall2_length in H. by rewrite length_seq in H.
  - clear -H. induction H; constructor; [by eapply newShard_good|done].
Qed.

(** What a step on a queue does to its contents. *)
Definition moved (before : list (event J)) (took put after : list (event J)) : Prop :=
  took ++ after = before ++ put.

Lemma trans_moved q l q' : spec.trans (abs q) l (abs q') → spec.backs [l] →
  moved (committed q ++ waiting q) (spec.took [l]) (spec.pushed [l])
    (committed q' ++ waiting q' : list (event J)).
Proof.
  intros T B. unfold moved.
  pose proof (spec.transs_fifo (abs q) [l] (abs q')) as F. rewrite <- app_assoc. apply F; [|done].
  econstructor; [done|constructor].
Qed.

Lemma call_silent (q : Queue (event J)) i o q' : live q → step_call q i = Some (o, q') → o = Silent.
Proof.
  intros L H. unfold step_call in H. step_cases.
  pose proof (list.Forall_lookup_1 _ _ _ _ (live_calls _ L) H) as U.
  destruct (live_events _ L) as (e & Ee & Eo).
  destruct U as [-> | ->].
  - by case_bool_decide; step_cases.
  - step_cases. rewrite Ee in H0. injection H0 as <-.
    destruct (send e ()) eqn:S; step_cases; [done|]. apply send_panic in S. congruence.
Qed.

Lemma loop_outcome (q : Queue (event J)) o q' : startAsyncLoop q = Some (o, q') → got o = [].
Proof.
  unfold startAsyncLoop. intros H.
  destruct (loop q) as [| | | |n|[|v vs]|i|i| |]; step_cases; subst; try done;
    repeat (case_match; step_cases; subst; try done).
Qed.

(** The contribution of one action to shard [i]. *)
Definition took1 (i : nat) (a : paction J) (o : outcome (event J)) : list (event J) :=
  handled_by i [a] [o].
Definition put1 (gap n : Z) (i : nat) (a : paction J) : list (event J) := offered_to gap n i [a].

Lemma offer_step gap pool e i s s' q o : good s → Push (queue s) e false = (o, q) →
  s' = set_queue s q → pool !! i = Some s → Z.to_nat (target gap (zlen pool) e) = i →
  good s' ∧ moved (content s) [] [e] (content s').
Proof.
  intros (L & G) H -> Hi Ht.
  assert (live q) as L' by (eapply (live_step (APush e false)); [done|exact L|]; simpl; by rewrite H).
  destruct (push_sim _ _ _ _ _ (live_inv _ L) H) as [_ T].
  assert (o = Silent) as ->.
  { unfold Push in H. rewrite (inv_limit _ (live_inv _ L)) in H.
    destruct (inv_list _ (live_inv _ L)) as (l & El & _). rewrite El in H.
    cbn [Z.ltb Z.compare] in H. by step_cases. }
  split; [by split|]. apply trans_moved in T; [exact T|]. by repeat constructor.
Qed.

Lemma queue_step a s o q : good s → ordered (PQueue 0 a) → step a (queue s) = Some (o, q) →
  good (set_queue s q) ∧ moved (content s) [] [] (content (set_queue s q)).
Proof.
  intros (L & G) Ha H. destruct a; try done; simpl in H.
  - pose proof (call_silent _ _ _ _ L H) as ->. split; [by split; [eapply live_call|]|].
    destruct (step_call_sim _ _ _ _ (live_inv _ L) H) as [_ T].
    apply trans_moved in T; [exact T|]. by repeat constructor.
  - pose proof (loop_outcome _ _ _ H) as Eo. split; [by split; [eapply live_ALoop|]|].
    destruct (loop_sim _ _ _ (live_inv _ L) H) as [_ T].
    assert (label_of ALoop o = None) as El by (by destruct o as [| [] | [] |]).
    rewrite El in T. apply trans_moved in T; [exact T|]. by repeat constructor.
Qed.

Lemma work_step s panics o s' : good s → eventDispatch s panics = Some (o, s') →
  good s' ∧ ∃ e, o = Popped (Some e) ∧ moved (content s) [e] [] (content s') ∧
    alive s = true ∧
    respawnTimes s' + (if alive s' then 0 else 1) = respawnTimes s + (if panics then 1 else 0).
Proof.
  intros (L & Hr & Hd) H. unfold eventDispatch in H. destruct (alive s) eqn:A; [|done].
  step_cases. destruct (live_Pop _ _ _ L H) as (L' & v & c & -> & Eb & ->).
  assert (moved (content s) [v] [] (content (set_queue s (set_C (queue s) c)))) as M.
  { unfold moved, content, committed, waiting. simpl. by rewrite Eb, app_nil_r. }
  destruct panics; [destruct (respawnTimes s <? maxRespawnTimes) eqn:R; bdec|]; step_cases; subst;
    unfold good; simpl.
  - split; [split_and!; [done|lia|lia|done]|]. exists v. split_and!; [done|done|done|lia].
  - split; [split_and!; [done|lia|lia|intros; lia]|]. exists v. split_and!; [done|done|done|lia].
  - split; [split_and!; [done|lia|lia|done]|]. exists v. split_and!; [done|done|done|lia].
Qed.

Lemma prun_cons gap a acts pool o os p1 p2 : pstep gap a pool = Some (o, p1) →
  prun gap acts p1 = Some (os, p2) → prun gap (a :: acts) pool = Some (o :: os, p2).
Proof. intros H1 H2. simpl. rewrite H1. simpl. by rewrite H2. Qed.

(** One action: each shard keeps its invariant, and its contents change by what
    the action takes from it and offers to it. *)
Lemma pstep_moved gap a pool o pool' : ordered a → Forall good pool →
  pstep gap a pool = Some (o, pool') →
  length pool' = length pool ∧ Forall good pool' ∧
  ∀ i s s', pool !! i = Some s → pool' !! i = Some s' →
    moved (content s) (took1 i a o) (put1 gap (zlen pool) i a) (content s').
Proof.
  intros Ha G H.
  assert (∀ j s s1, pool !! j = Some s → pool' = <[j := s1]> pool → good s1 →
    (∀ i, i ≠ j → took1 i a o = [] ∧ put1 gap (zlen pool) i a = []) →
    moved (content s) (took1 j a o) (put1 gap (zlen pool) j a) (content s1) →
    length pool' = length pool ∧ Forall good pool' ∧
    ∀ i s s', pool !! i = Some s → pool' !! i = Some s' →
      moved (content s) (took1 i a o) (put1 gap (zlen pool) i a) (content s')) as K.
  { intros j s s1 Hj -> G1 Hn M. split; [apply length_insert|].
    split; [by apply Forall_insert|]. intros i si si' Hi Hi'.
    destruct (decide (i = j)) as [->|Hne].
    - rewrite list_lookup_insert_eq in Hi' by (by eapply lookup_lt_Some).
      congruence.
    - rewrite list_lookup_insert_ne in Hi' by done. destruct (Hn i Hne) as [-> ->].
      unfold moved. rewrite app_nil_r. simpl. congruence. }
  destruct a as [e p|j a|j p]; simpl in H, Ha.
  - unfold Offer in H. destruct (pool !! _) as [s|] eqn:Hj; [|done]. subst p.
    destruct (Push (queue s) e false) as [o1 q] eqn:P. step_cases. subst.
    pose proof (list.Forall_lookup_1 _ _ _ _ G Hj) as Gs.
    destruct (offer_step gap pool e _ s _ q o Gs P eq_refl Hj eq_refl) as [G1 M].
    eapply K; [exact Hj|done|done| |].
    + intros i Hi. unfold took1, put1, offered_to, handled_by. simpl.
      by rewrite bool_decide_eq_false_2.
    + unfold took1, put1, offered_to, handled_by. simpl. by rewrite bool_decide_eq_true_2.
  - unfold on_shard in H. step_cases. subst. pose proof (list.Forall_lookup_1 _ _ _ _ G H) as Gs.
    destruct (queue_step a x o q Gs) as [G1 M]; [by destruct a|done|].
    eapply K; [exact H|done|done|by intros|exact M].
  - unfold on_shard in H. step_cases. subst. pose proof (list.Forall_lookup_1 _ _ _ _ G H) as Gs.
    destruct (work_step x p o s Gs H0) as (G1 & e & -> & M & _).
    eapply K; [exact H|done|done| |].
    + intros i Hi. unfold took1, put1, offered_to, handled_by. simpl.
      by rewrite bool_decide_eq_false_2.
    + unfold took1, put1, offered_to, handled_by. simpl. by rewrite bool_decide_eq_true_2.
Qed.

Lemma handled_cons i a o acts os :
  handled_by i (a :: acts) (o :: os) = took1 i a o ++ handled_by i acts os.
Proof. unfold took1, handled_by. simpl. by case_match. Qed.
Lemma offered_cons gap n i a acts :
  offered_to gap n i (a :: acts) = put1 gap n i a ++ offered_to gap n i acts.
Proof. unfold put1, offered_to. simpl. by case_match. Qed.

Lemma prun_moved gap acts pool os pool' : Forall ordered acts → Forall good pool →
  prun gap acts pool = Some (os, pool') →
  length pool' = length pool ∧ Forall good pool' ∧
  ∀ i s s', pool !! i = Some s → pool' !! i = Some s' →
    moved (content s) (handled_by i acts os) (offered_to gap (zlen pool) i acts) (content s').
Proof.
  revert pool os. induction acts as [|a acts IH]; intros pool os F G H.
  - injection H as <- <-. split_and!; [done|done|]. intros i s s' Hs Hs'.
    unfold moved. rewrite app_nil_r. simpl. congruence.
  - simpl in H. step_cases. subst. apply list.Forall_cons in F as [Fa F].
    destruct (pstep_moved _ _ _ _ _ Fa G H) as (L1 & G1 & M1).
    destruct (IH _ _ F G1 H0) as (L2 & G2 & M2).
    split_and!; [congruence|done|]. intros i s s' Hs Hs'.
    assert (zlen l = zlen pool) as Ez by (unfold zlen; by rewrite L1).
    destruct (lookup_lt_is_Some_2 l i) as [s1 Hs1].
    { rewrite L1. by eapply lookup_lt_Some. }
    specialize (M1 i s s1 Hs Hs1). specialize (M2 i s1 s' Hs1 Hs').
    rewrite handled_cons, offered_cons. unfold moved in *.
    rewrite <- app_assoc, <- Ez, M2, app_assoc, Ez, M1, <- app_assoc. done.
Qed.

(** The panics of the worker of shard [i], and the count its shard keeps. *)
Definition panic1 (i : nat) (a : paction J) : Z :=
  match a with PWork j true => if bool_decide (j = i) then 1 else 0 | _ => 0 end.
Definition panics_on (i : nat) (acts : list (paction J)) : Z := foldr (λ a n, panic1 i a + n) 0 acts.
Definition fallen s : Z := respawnTimes s + (if alive s then 0 else 1).

Lemma pstep_fallen gap a pool o pool' : Forall good pool → pstep gap a pool = Some (o, pool') →
  ∀ i s s', pool !! i = Some s → pool' !! i = Some s' →
    fallen s' = fallen s + panic1 i a.
Proof.
  intros G H.
  assert (∀ j s s1, pool !! j = Some s → pool' = <[j := s1]> pool →
    (∀ i, i ≠ j → panic1 i a = 0) → fallen s1 = fallen s + panic1 j a →
    ∀ i s s', pool !! i = Some s → pool' !! i = Some s' →
      fallen s' = fallen s + panic1 i a) as K.
  { intros j s s1 Hj -> Hn E i si si' Hi Hi'. destruct (decide (i = j)) as [->|Hne].
    - rewrite list_lookup_insert_eq in Hi' by (by eapply lookup_lt_Some). congruence.
    - rewrite list_lookup_insert_ne in Hi' by done. rewrite (Hn i Hne).
      assert (si = si') as -> by congruence. lia. }
  destruct a as [e p|j a|j p]; simpl in H.
  - unfold Offer in H. destruct (pool !! _) as [s|] eqn:Hj; [|done].
    destruct (Push (queue s) e p) as [o1 q] eqn:P. step_cases. subst.
    eapply K; [exact Hj|done|by intros|].
    unfold fallen, panic1. simpl. lia.
  - unfold on_shard in H. step_cases. subst.
    eapply K; [exact H|done|by intros|].
    unfold fallen, panic1. simpl. lia.
  - unfold on_shard in H. step_cases. subst.
    destruct (work_step x p o s (list.Forall_lookup_1 _ _ _ _ G H) H0) as (_ & e & _ & _ & A & E).
    eapply K; [exact H|done| |]; unfold panic1.
    + intros i Hi. destruct p; [|done]. by rewrite bool_decide_eq_false_2.
    + unfold fallen. rewrite A, E. destruct p; [rewrite bool_decide_eq_true_2 by done|]; lia.
Qed.

Lemma prun_fallen gap acts pool os pool' : Forall ordered acts → Forall good pool →
  prun gap acts pool = Some (os, pool') →
  ∀ i s s', pool !! i = Some s → pool' !! i = Some s' →
    fallen s' = fallen s + panics_on i acts.
Proof.
  revert pool os. induction acts as [|a acts IH]; intros pool os F G H i s s' Hs Hs'.
  - injection H as <- <-. assert (s = s') as -> by congruence. simpl. lia.
  - simpl in H. step_cases. subst. apply list.Forall_cons in F as [Fa F].
    destruct (pstep_moved _ _ _ _ _ Fa G H) as (L1 & G1 & _).
    destruct (lookup_lt_is_Some_2 l i) as [s1 Hs1].
    { rewrite L1. by eapply lookup_lt_Some. }
    simpl. rewrite (IH _ _ F G1 H0 i s1 s' Hs1 Hs').
    rewrite (pstep_fallen _ _ _ _ _ G H i s s1 Hs Hs1). lia.
Qed.

(** ** Per connection *)

Lemma offered_target gap n i acts e : e ∈ offered_to gap n i acts → Z.to_nat (target gap n e) = i.
Proof.
  unfold offered_to. intros (a & _ & H)%list_elem_of_omap. destruct a; try done.
  case_bool_decide; [|done]. by injection H as <-.
Qed.

(** There is no worker for a shard that does not exist. *)
Lemma pstep_length gap a pool o pool' : pstep gap a pool = Some (o, pool') → length pool' = length pool.
Proof.
  destruct a; simpl; unfold Offer, on_shard; intros H.
  - destruct (pool !! _); [|done]. destruct (Push _ _ _). step_cases. subst. apply length_insert.
  - step_cases. subst. apply length_insert.
  - step_cases. subst. apply length_insert.
Qed.

Lemma handled_none gap acts pool os pool' i : prun gap acts pool = Some (os, pool') →
  pool' !! i = None → ∀ e, e ∉ handled_by i acts os.
Proof.
  revert pool os. induction acts as [|a acts IH]; intros pool os H Hi e.
  - injection H as <- <-. set_solver.
  - simpl in H. step_cases. subst. rewrite handled_cons. intros [He|He]%elem_of_app; [|by eapply IH].
    assert (pool !! i = None) as Hn.
    { apply lookup_ge_None. apply lookup_ge_None in Hi. apply pstep_length in H.
      assert (length pool' = length l) as E; [|lia].
      clear -H0. revert l l0 H0. induction acts as [|a acts IH]; intros l l0 H0; simpl in H0.
      - by injection H0 as <- <-.
      - step_cases. subst. apply IH in H0. apply pstep_length in H. lia. }
    unfold took1, handled_by in He. destruct a as [| |j p]; simpl in He; try set_solver.
    destruct o as [|[e'|]| |]; simpl in He; try set_solver.
    case_bool_decide; [|set_solver]. subst. simpl in H. unfold on_shard in H. by rewrite Hn in H.
Qed.

Lemma handled_all_cons a o acts os :
  handled_all (a :: acts) (o :: os) = handled_all [a] [o] ++ handled_all acts os.
Proof. unfold handled_all. simpl. by case_match. Qed.

Lemma offered_all_cons a acts :
  offered_all (a :: acts) = offered_all [a] ++ offered_all acts.
Proof. unfold offered_all. simpl. by case_match. Qed.

(** When every worker handles only jobs of its shard, the jobs with a given key
    are those its shard handles. *)
Lemma filter_handled (P : event J → Prop) {HP : ∀ e, Decision (P e)} (t : nat) acts os :
  (∀ i e, e ∈ handled_by i acts os → P e → i = t) →
  filter P (handled_all acts os) = filter P (handled_by t acts os).
Proof.
  revert os. induction acts as [|a acts IH]; intros os H; [done|].
  destruct os as [|o os]; [done|].
  assert (filter P (handled_all acts os) = filter P (handled_by t acts os)) as E.
  { apply IH. intros i e He. apply (H i e). rewrite handled_cons. apply elem_of_app. by right. }
  rewrite handled_cons, handled_all_cons, !list.filter_app, E. f_equal.
  unfold took1, handled_by, handled_all. simpl.
  destruct a as [| |j p]; simpl; try done. destruct o as [|[e|]| |]; simpl; try done.
  rewrite filter_cons, filter_nil. case_bool_decide as Hj; simpl.
  - subst. rewrite filter_cons, filter_nil. by case_decide.
  - rewrite filter_nil. case_decide as HPe; [|done]. destruct Hj. apply (H j e); [|done].
    rewrite handled_cons. apply elem_of_app. left. unfold took1, handled_by. simpl.
    rewrite bool_decide_eq_true_2 by done. set_solver.
Qed.

Lemma filter_offered (P : event J → Prop) {HP : ∀ e, Decision (P e)} gap n (t : nat) acts :
  (∀ e, P e → Z.to_nat (target gap n e) = t) →
  filter P (offered_to gap n t acts) = filter P (offered_all acts).
Proof.
  intros H. induction acts as [|a acts IH]; [done|].
  rewrite offered_cons, offered_all_cons, !list.filter_app, IH. f_equal.
  unfold put1, offered_to, offered_all. simpl. destruct a as [e p| |]; simpl; try done.
  case_bool_decide as Ht; [done|]. simpl. rewrite filter_cons, filter_nil.
  case_decide; [|done]. by destruct Ht; apply H.
Qed.
End order.

(** C26: For every interleaving of offers (at the back), queue goroutines and
    workers of a new pool: on each shard the jobs handled, followed by those
    still in its queue, are the jobs offered to it, in order; and so the events
    of a connection in a direction are handled in the order they were offered,
    whatever the other connections do. *)
Theorem shard_order {J} (gap n : Z) (pool pool' : list (shard J)) (acts : list (paction J))
    (os : list (outcome (event J)))
    (Hp : NewShardWorkerPool n = Some pool) (Ho : Forall ordered acts)
    (Hr : prun gap acts pool = Some (os, pool')) :
  (∀ i s, pool' !! i = Some s →
     handled_by i acts os ++ content s = offered_to gap (zlen pool) i acts) ∧
  (∀ c d, filter (λ e, sid e = c ∧ dir e = d) (handled_all acts os)
     `prefix_of` filter (λ e, sid e = c ∧ dir e = d) (offered_all acts)).
Proof.
  destruct (New_good _ _ Hp) as [Hl F].
  assert (Forall good pool) as G by (eapply list.Forall_impl; [exact F|by intros ? [? _]]).
  destruct (prun_moved _ _ _ _ _ Ho G Hr) as (L & G' & M).
  assert (∀ i s, pool' !! i = Some s →
     handled_by i acts os ++ content s = offered_to gap (zlen pool) i acts) as A.
  { intros i s Hs. destruct (lookup_lt_is_Some_2 pool i) as [s0 Hs0].
    { rewrite <- L. by eapply lookup_lt_Some. }
    specialize (M i s0 s Hs0 Hs). unfold moved in M. rewrite M.
    by destruct (list.Forall_lookup_1 _ _ _ _ F Hs0) as (_ & -> & _). }
  split; [exact A|]. intros c d.
  set (t := Z.to_nat (target gap (zlen pool) (mkEvent 0 d 0 c (0%nat : nat)))).
  assert (∀ e : event J, sid e = c ∧ dir e = d → Z.to_nat (target gap (zlen pool) e) = t) as Ht.
  { intros e [<- <-]. done. }
  assert (∀ i e, e ∈ handled_by i acts os → sid e = c ∧ dir e = d → i = t) as Hh.
  { intros i e He Hk. destruct (pool' !! i) as [s|] eqn:Hs.
    - rewrite <- (Ht e Hk). symmetry. apply (offered_target _ _ _ acts). rewrite <- (A i s Hs). set_solver.
    - exfalso. revert He. apply (handled_none gap acts pool os pool' i Hr Hs). }
  rewrite (filter_handled _ t) by exact Hh.
  rewrite <- (filter_offered _ gap (zlen pool) t) by exact Ht.
  destruct (pool' !! t) as [s|] eqn:Hs.
  - rewrite <- (A t s Hs), list.filter_app. by eexists.
  - assert (handled_by t acts os = []) as ->; [|by apply prefix_nil].
    destruct (handled_by t acts os) as [|e l] eqn:E; [done|]. exfalso.
    apply (handled_none gap acts pool os pool' t Hr Hs e). rewrite E. set_solver.
Qed.

(** Two connections on a pool of two shards with a gap of one: shard 0 has
    handled the first event of connection 4. *)
Lemma shard_order_witness :
  let e i s := mkEvent i diFromDownstream recvAll s (0%nat : nat) in
  let acts := [POffer (e 1 4) false; POffer (e 2 5) false; POffer (e 3 4) false;
               PQueue 0 (ACall 0); PQueue 0 (ACall 0); PQueue 0 ALoop; PQueue 0 ALoop;
               PQueue 0 ALoop; PQueue 0 ALoop; PQueue 0 ALoop; PQueue 0 ALoop; PWork 0 false] in
  ∃ pool os pool', NewShardWorkerPool 2 = Some pool ∧ prun 1 acts pool = Some (os, pool') ∧
    filter (λ e, sid e = 4 ∧ dir e = diFromDownstream) (handled_all acts os) = [e 1 4] ∧
    filter (λ e, sid e = 4 ∧ dir e = diFromDownstream) (handled_all acts os)
      `prefix_of` [e 1 4; e 3 4].
Proof.
  intros e acts. destruct (NewShardWorkerPool 2) as [pool|] eqn:Hp; [|by vm_compute in Hp].
  destruct (prun 1 acts pool) as [[os pool']|] eqn:Hr.
  - exists pool, os, pool'. split_and!; [done|done| |].
    + vm_compute in Hp. injection Hp as <-. vm_compute in Hr. injection Hr as <- <-. reflexivity.
    + refine (proj2 (shard_order 1 2 pool pool' acts os Hp _ Hr) 4 diFromDownstream).
      by repeat constructor.
  - exfalso. vm_compute in Hp. injection Hp as <-. by vm_compute in Hr.
Defined.

(** The worker of a shard survives 64 panicking jobs and no more: whatever
    the interleaving, a shard sees at most 65 panics, its worker is running
    exactly as long as there were at most 64, and once it is gone no job of the
    shard is handled any more. *)
Theorem shard_respawns {J} (gap n : Z) (pool pool' : list (shard J)) (acts : list (paction J))
    (os : list (outcome (event J))) (i : nat) (s : shard J)
    (Hp : NewShardWorkerPool n = Some pool) (Ho : Forall ordered acts)
    (Hr : prun gap acts pool = Some (os, pool')) (Hs : pool' !! i = Some s) :
  panics_on i acts ≤ 65 ∧ (alive s = true ↔ panics_on i acts ≤ 64) ∧
  (alive s = false → ∀ panics, eventDispatch s panics = None).
Proof.
  destruct (New_good _ _ Hp) as [Hl F].
  assert (Forall good pool) as G by (eapply list.Forall_impl; [exact F|by intros ? [? _]]).
  destruct (prun_moved _ _ _ _ _ Ho G Hr) as (L & G' & _).
  destruct (lookup_lt_is_Some_2 pool i) as [s0 Hs0].
  { rewrite <- L. by eapply lookup_lt_Some. }
  pose proof (prun_fallen _ _ _ _ _ Ho G Hr i s0 s Hs0 Hs) as E.
  destruct (list.Forall_lookup_1 _ _ _ _ F Hs0) as ((_ & _ & Ha) & _ & E0).
  destruct (list.Forall_lookup_1 _ _ _ _ G' Hs) as (_ & B & D).
  unfold fallen, maxRespawnTimes in *. rewrite E0 in E.
  destruct (alive s0); [|by specialize (Ha eq_refl); lia].
  split_and!.
  - destruct (alive s); lia.
  - destruct (alive s); [split; [lia|done]|]. specialize (D eq_refl). split; [done|lia].
  - intros A p. unfold eventDispatch. by rewrite A.
Qed.

(** One panic: the worker of shard 0 is still running. *)
Lemma shard_respawns_witness :
  let acts := [POffer (mkEvent 1 diFromDownstream recvAll 4 (0%nat : nat)) false;
               PQueue 0 (ACall 0); PQueue 0 (ACall 0); PQueue 0 ALoop; PQueue 0 ALoop;
               PQueue 0 ALoop; PQueue 0 ALoop; PQueue 0 ALoop; PQueue 0 ALoop; PWork 0 true] in
  ∃ pool os pool' s, NewShardWorkerPool 2 = Some pool ∧ prun 1 acts pool = Some (os, pool') ∧
    pool' !! 0%nat = Some s ∧ panics_on 0 acts = 1 ∧ alive s = true.
Proof.
  intros acts. destruct (NewShardWorkerPool 2) as [pool|] eqn:Hp; [|by vm_compute in Hp].
  destruct (prun 1 acts pool) as [[os pool']|] eqn:Hr.
  - destruct (pool' !! 0%nat) as [s|] eqn:Hs.
    + exists pool, os, pool', s. split_and!; try done.
      apply (shard_respawns 1 2 pool pool' acts os 0 s Hp); [by repeat constructor|done|done|].
      vm_compute. discriminate.
    + exfalso. vm_compute in Hp. injection Hp as <-. vm_compute in Hr. injection Hr as <- <-.
      by vm_compute in Hs.
  - exfalso. vm_compute in Hp. injection Hp as <-. by vm_compute in Hr.
Defined.
