(* ===== verification/WorkerPool.v ===== *)
(** * The pool of worker goroutines

    src/pkg/sync/workerpool.go, which serves the read and write loops of the
    connections.  The state is the struct, the workers with their channels and
    the points their goroutines have reached, and the points the calls in
    progress have reached; [step] performs one atomic action, so that a list of
    actions is an interleaving.  A critical section under wp.lock is one action;
    what happens outside of it is not.  Which waiter Cond.Signal wakes and what
    sync.Pool hands back are choices of the action.  Time is an integer the
    actions carry.

    workerChanCap is 1, its value with more than one processor.

    The theorems: a task that was accepted is started once and no call ever
    blocks on a worker's channel; the counter of running goroutines is right, up
    to the workers that leave after Release; the number of goroutines exceeds the
    capacity by less than the number of calls that are spawning at the same time,
    and does so; and a waiting call can be left behind. *)
From S2P Require Import Prelude.

Definition DEFAULT_CONCURRENCY : Z := 256 * 1024.
Definition DEFAULT_PURGE_INTERVAL_TIME : Z := 5.
Definition workerChanCap (gomaxprocs : Z) : nat := if gomaxprocs =? 1 then 0 else 1.

(** Where a worker's goroutine stands: at its receive, in a task, in
    revertWorker before and after its look at wp.release, leaving (decRunning,
    then Put to the cache), gone, or gone without having counted down. *)
Inductive wpc (T : Type) : Type :=
| WRecv | WRun (t : T) | WRevert | WAppend | WExit | WPut | WGone | WLost.
Arguments WRecv {T}.
Arguments WRun {T} t.
Arguments WRevert {T}.
Arguments WAppend {T}.
Arguments WExit {T}.
Arguments WPut {T}.
Arguments WGone {T}.
Arguments WLost {T}.

(** A worker; the value [None] in its channel is the nil that stops it. *)
Record worker (T : Type) : Type := mkWorker {
  task : chan (option T); recycleTime : Z; pc : wpc T
}.
Arguments mkWorker {T} task recycleTime pc.
Arguments task {T} w : rename.
Arguments recycleTime {T} w : rename.
Arguments pc {T} w : rename.

(** Where a call stands.  Serve, and each round of Tune, gets a worker for a
    task ([None]: nil); [more] rounds of Tune are still to come. *)
Inductive cpc (T : Type) : Type :=
| KServe (t : T)                          (** Serve: is the pool closed? *)
| KTune (size : Z)                        (** Tune: diff := Running() - size *)
| KRetrieve (t : option T) (more : nat)   (** retrieveWorker: the critical section *)
| KWait (t : option T) (more : nat)       (** in cond.Wait *)
| KWoken (t : option T) (more : nat)      (** signalled *)
| KSpawn (t : option T) (more : nat)      (** after the unlock: a worker of the cache *)
| KRun (w : nat) (t : option T) (more : nat)    (** w.run() *)
| KSend (w : nat) (t : option T) (more : nat)   (** w.task <- t *)
| KRelease.                               (** Release: the critical section *)
Arguments KServe {T} t.
Arguments KTune {T} size.
Arguments KRetrieve {T} t more.
Arguments KWait {T} t more.
Arguments KWoken {T} t more.
Arguments KSpawn {T} t more.
Arguments KRun {T} w t more.
Arguments KSend {T} w t more.
Arguments KRelease {T}.

Record workerPool (T : Type) : Type := mkPool {
  capacity : Z;
  running : Z;
  release : Z;
  expiryDuration : Z;
  workers : list nat;
  once : bool;
  workerCache : list nat;
  ws : list (worker T);
  calls : list (cpc T)
}.
Arguments mkPool {T} capacity running release expiryDuration workers once workerCache ws calls.
Arguments capacity {T} p : rename.
Arguments running {T} p : rename.
Arguments release {T} p : rename.
Arguments expiryDuration {T} p : rename.
Arguments workers {T} p : rename.
Arguments once {T} p : rename.
Arguments workerCache {T} p : rename.
Arguments ws {T} p : rename.
Arguments calls {T} p : rename.

Section workerpool.
Context {T : Type}.
Implicit Types (p : workerPool T).

Definition set_running p r := mkPool (capacity p) r (release p) (expiryDuration p) (workers p) (once p) (workerCache p) (ws p) (calls p).
Definition set_capacity p c := mkPool c (running p) (release p) (expiryDuration p) (workers p) (once p) (workerCache p) (ws p) (calls p).
Definition set_workers p l := mkPool (capacity p) (running p) (release p) (expiryDuration p) l (once p) (workerCache p) (ws p) (calls p).
Definition set_cache p l := mkPool (capacity p) (running p) (release p) (expiryDuration p) (workers p) (once p) l (ws p) (calls p).
Definition set_ws p l := mkPool (capacity p) (running p) (release p) (expiryDuration p) (workers p) (once p) (workerCache p) l (calls p).
Definition set_calls p l := mkPool (capacity p) (running p) (release p) (expiryDuration p) (workers p) (once p) (workerCache p) (ws p) l.
Definition set_release p := mkPool (capacity p) (running p) 1 (expiryDuration p) (workers p) true (workerCache p) (ws p) (calls p).

(** NewWorkerPool; a second is 10^9 of the unit of time. *)
Definition NewWorkerPool (size expiry : Z) : workerPool T :=
  let size := if size <=? 0 then DEFAULT_CONCURRENCY else size in
  let expiry := if expiry <=? 0 then DEFAULT_PURGE_INTERVAL_TIME else expiry in
  mkPool (int32 size) 0 0 (expiry * 1000000000) [] false [] [] [].

Definition Running p : Z := running p.
Definition Cap p : Z := capacity p.
Definition Free p : Z := int32 (capacity p - running p).
Definition incRunning p := set_running p (int32 (running p + 1)).
Definition decRunning p := set_running p (int32 (running p - 1)).

Definition set_worker p (w : nat) (x : worker T) := set_ws p (<[w := x]> (ws p)).
Definition goto p (i : nat) (k : cpc T) := set_calls p (<[i := k]> (calls p)).
Definition finish p (i : nat) := set_calls p (take i (calls p) ++ drop (S i) (calls p)).
Definition spawn p (k : cpc T) := set_calls p (calls p ++ [k]).

(** [w.task <- t]: the send, when the channel has room. *)
Definition send_task p (w : nat) (t : option T) : option (workerPool T) :=
  x ← ws p !! w;
  match send (task x) t with
  | Sent c => Some (set_worker p w (mkWorker c (recycleTime x) (pc x)))
  | _ => None
  end.
Fixpoint stop_all (l : list nat) p : option (workerPool T) :=
  match l with
  | [] => Some p
  | w :: l' => p1 ← send_task p w None; stop_all l' p1
  end.

(** The idle workers whose time is over, from the front. *)
Fixpoint expired p (now : Z) (l : list nat) : list nat :=
  match l with
  | [] => []
  | w :: l' =>
      match ws p !! w with
      | Some x => if now - recycleTime x <=? expiryDuration p then [] else w :: expired p now l'
      | None => []
      end
  end.

(** One tick of periodicallyPurge at time [now]. *)
Definition periodicallyPurge p (now : Z) : option (workerPool T) :=
  if release p =? 1 then Some p
  else
    let dead := expired p now (workers p) in
    p1 ← stop_all dead p;
    Some (set_workers p1 (drop (length dead) (workers p))).

Definition Release p : workerPool T :=
  if once p then p else spawn (set_release p) KRelease.

(** What an action shows: an accepted task, a rejected one (ErrPoolClosed), a
    task that a worker starts. *)
Inductive outcome : Type := Silent | Accepted (t : T) | Rejected (t : T) | Started (t : T).

Inductive action : Type :=
| AServe (t : T) | ATune (size : Z) | ARelease | APurge (now : Z)
| ACall (i : nat) (cached : option nat)        (** a call goes on; the choice of the cache *)
| AWorker (w : nat) (panics : bool) (now : Z) (wake : option nat).

(** The end of a round: Serve returns, Tune may have rounds to come. *)
Definition next_round p (i : nat) (more : nat) : workerPool T :=
  match more with O => finish p i | S n => goto p i (KRetrieve None n) end.

Definition Tune p (size : Z) : workerPool T :=
  if size =? Cap p then p else spawn (set_capacity p (int32 size)) (KTune size).

Definition step_call p (i : nat) (cached : option nat) : option (outcome * workerPool T) :=
  k ← calls p !! i;
  match k with
  | KServe t =>
      if release p =? 1 then Some (Rejected t, finish p i)
      else Some (Accepted t, goto p i (KRetrieve (Some t) 0))
  | KTune size =>
      let diff := Running p - size in
      Some (Silent, if 0 <? diff then goto p i (KRetrieve None (Z.to_nat (diff - 1))) else finish p i)
  | KRetrieve t more =>
      match list.last (workers p) with
      | Some w => Some (Silent, goto (set_workers p (removelast (workers p))) i (KSend w t more))
      | None => Some (Silent, goto p i (if Running p <? Cap p then KSpawn t more else KWait t more))
      end
  | KWait _ _ => None
  | KWoken t more =>
      match list.last (workers p) with
      | Some w => Some (Silent, goto (set_workers p (removelast (workers p))) i (KSend w t more))
      | None => Some (Silent, goto p i (KWait t more))
      end
  | KSpawn t more =>
      match cached with
      | Some j =>
          w ← workerCache p !! j;
          Some (Silent, goto (set_cache p (take j (workerCache p) ++ drop (S j) (workerCache p))) i
                          (KRun w t more))
      | None =>
          Some (Silent, goto (set_ws p (ws p ++ [mkWorker (make_chan (workerChanCap 2)) 0 WGone])) i
                          (KRun (length (ws p)) t more))
      end
  | KRun w t more =>
      x ← ws p !! w;
      Some (Silent, goto (set_worker (incRunning p) w (mkWorker (task x) (recycleTime x) WRecv)) i
                      (KSend w t more))
  | KSend w t more => p1 ← send_task p w t; Some (Silent, next_round p1 i more)
  | KRelease => p1 ← stop_all (workers p) p; Some (Silent, finish (set_workers p1 []) i)
  end.

(** cond.Signal: one of the waiting calls, if there is any, chosen by [wake]. *)
Definition waits (k : cpc T) : bool := match k with KWait _ _ => true | _ => false end.
Definition woken (k : cpc T) : cpc T := match k with KWait t more => KWoken t more | _ => k end.
Definition Signal p (wake : option nat) : option (workerPool T) :=
  match wake with
  | Some j =>
      k ← calls p !! j;
      if waits k then Some (goto p j (woken k)) else None
  | None => if existsb waits (calls p) then None else Some p
  end.

Definition set_pc (x : worker T) (c : wpc T) := mkWorker (task x) (recycleTime x) c.

(** The goroutine of worker.run. *)
Definition step_worker p (w : nat) (panics : bool) (now : Z) (wake : option nat)
    : option (outcome * workerPool T) :=
  x ← ws p !! w;
  match pc x with
  | WRecv =>
      match recv (task x) with
      | Received None c => Some (Silent, set_worker p w (mkWorker c (recycleTime x) WExit))
      | Received (Some t) c => Some (Started t, set_worker p w (mkWorker c (recycleTime x) (WRun t)))
      | _ => None
      end
  | WRun _ => Some (Silent, set_worker p w (set_pc x (if panics then WExit else WRevert)))
  | WRevert => Some (Silent, set_worker p w (set_pc x (if release p =? 1 then WLost else WAppend)))
  | WAppend =>
      let p1 := set_worker p w (mkWorker (task x) now WRecv) in
      p2 ← Signal (set_workers p1 (workers p ++ [w])) wake;
      Some (Silent, p2)
  | WExit => Some (Silent, set_worker (decRunning p) w (set_pc x WPut))
  | WPut => Some (Silent, set_cache (set_worker p w (set_pc x WGone)) (w :: workerCache p))
  | WGone | WLost => None
  end.

Definition step (a : action) p : option (outcome * workerPool T) :=
  match a with
  | AServe t => Some (Silent, spawn p (KServe t))
  | ATune size => Some (Silent, Tune p size)
  | ARelease => Some (Silent, Release p)
  | APurge now => p1 ← periodicallyPurge p now; Some (Silent, p1)
  | ACall i cached => step_call p i cached
  | AWorker w panics now wake => step_worker p w panics now wake
  end.

Fixpoint run (acts : list action) p : option (list outcome * workerPool T) :=
  match acts with
  | [] => Some ([], p)
  | a :: acts' =>
      '(o, p1) ← step a p; '(os, p2) ← run acts' p1; Some (o :: os, p2)
  end.
End workerpool.
Arguments action T : clear implicits.
Arguments outcome T : clear implicits.

(** ** Who holds a worker

    A worker that waits for a task is held once: by the list of idle workers, by
    a call that is about to send to it, or by the task in its channel.  One whose
    goroutine is gone is held at most once, by the cache or by a call that is
    about to run it. *)

Section holders.
Context {T : Type}.
Implicit Types (p : workerPool T) (w : nat) (x : worker T).

Definition one (w w' : nat) : Z := if w =b w' then 1 else 0.
Definition sends (w : nat) (k : cpc T) : Z := match k with KSend w' _ _ => one w w' | _ => 0 end.
Definition runs (w : nat) (k : cpc T) : Z := match k with KRun w' _ _ => one w w' | _ => 0 end.
Definition chanlen p w : Z := match ws p !! w with Some x => zlen (cbuf (task x)) | None => 0 end.

Definition held p w : Z := zsum (one w) (workers p) + zsum (sends w) (calls p) + chanlen p w.
Definition spare p w : Z := zsum (one w) (workerCache p) + zsum (runs w) (calls p).

Definition winv p w : Prop :=
  match ws p !! w with
  | None => held p w = 0 ∧ spare p w = 0
  | Some x =>
      ccap (task x) = 1%nat ∧ cshut (task x) = false ∧
      match pc x with
      | WRecv => held p w = 1 ∧ spare p w = 0
      | WGone => held p w = 0 ∧ spare p w ≤ 1
      | _ => held p w = 0 ∧ spare p w = 0
      end
  end.

Lemma one_nonneg w w' : 0 ≤ one w w'.
Proof. unfold one. case_if; lia. Qed.
Lemma one_refl w : one w w = 1.
Proof. unfold one. by rewrite bool_decide_eq_true_2. Qed.
Lemma one_ne w w' : w ≠ w' → one w w' = 0.
Proof. intros. unfold one. by rewrite bool_decide_eq_false_2. Qed.
Lemma sends_nonneg w k : 0 ≤ sends w k.
Proof. destruct k; simpl; try lia. apply one_nonneg. Qed.
Lemma runs_nonneg w k : 0 ≤ runs w k.
Proof. destruct k; simpl; try lia. apply one_nonneg. Qed.
Lemma chanlen_nonneg p w : 0 ≤ chanlen p w.
Proof. unfold chanlen. case_match; [apply zlen_nonneg|lia]. Qed.
Lemma held_parts p w :
  0 ≤ zsum (one w) (workers p) ∧ 0 ≤ zsum (sends w) (calls p) ∧ 0 ≤ chanlen p w ∧
  0 ≤ zsum (one w) (workerCache p) ∧ 0 ≤ zsum (runs w) (calls p).
Proof.
  split_and!; auto using zsum_nonneg, one_nonneg, sends_nonneg, runs_nonneg, chanlen_nonneg.
Qed.

(** [winv] depends on the worker, [held] and [spare] only. *)
Lemma winv_same p p' w : winv p w → ws p' !! w = ws p !! w → held p' w = held p w →
  spare p' w = spare p w → winv p' w.
Proof. unfold winv. intros H -> -> ->. done. Qed.

Lemma lookup_worker p w x y v :
  ws p !! w = Some x →
  ws (set_worker p w y) !! v = if v =b w then Some y else ws p !! v.
Proof.
  intros H. simpl. case_if; subst.
  - by rewrite list_lookup_insert_eq by (by eapply lookup_lt_Some).
  - by rewrite list_lookup_insert_ne.
Qed.

Lemma chanlen_set p w x y v : ws p !! w = Some x →
  chanlen (set_worker p w y) v = chanlen p v + one v w * (zlen (cbuf (task y)) - zlen (cbuf (task x))).
Proof.
  intros H. unfold chanlen. rewrite (lookup_worker _ _ _ _ _ H). unfold one.
  case_if; subst; rewrite ?H; lia.
Qed.

Lemma last_app (l : list nat) w : list.last l = Some w → l = removelast l ++ [w].
Proof. intros H. apply last_Some in H as [l' ->]. by rewrite removelast_last. Qed.

(** Sending to a worker adds to its channel, and changes nothing else. *)
Lemma send_task_spec p w t p' : send_task p w t = Some p' →
  ∃ x c, ws p !! w = Some x ∧ cbuf c = cbuf (task x) ++ [t] ∧ ccap c = ccap (task x) ∧
    cshut c = cshut (task x) ∧ p' = set_worker p w (mkWorker c (recycleTime x) (pc x)).
Proof.
  unfold send_task. intros H. step_cases.
  destruct (send (task x) t) as [c| |] eqn:S; step_cases; subst.
  apply send_spec in S as (? & ? & ? & _). by exists x, c.
Qed.

Lemma send_task_ok p w t : winv p w → 1 ≤ zsum (one w) (workers p) + zsum (sends w) (calls p) →
  ∃ p', send_task p w t = Some p'.
Proof.
  intros I H. pose proof (held_parts p w). unfold winv, held in I.
  destruct (ws p !! w) as [x|] eqn:E; [|lia].
  assert (chanlen p w = 0) as E0 by (destruct I as (_ & _ & I); destruct (pc x); lia).
  destruct I as (Ic & Is & _). unfold chanlen in E0. rewrite E in E0. apply zlen_0 in E0.
  unfold send_task. rewrite E. simpl. unfold send. rewrite Is, E0, Ic.
  rewrite bool_decide_eq_true_2 by (simpl; lia). by eexists.
Qed.

(** ** Sending nil to a list of workers *)

Lemma stop_all_spec l p p' : stop_all l p = Some p' →
  workers p' = workers p ∧ calls p' = calls p ∧ workerCache p' = workerCache p ∧
  running p' = running p ∧ capacity p' = capacity p ∧ release p' = release p ∧
  length (ws p') = length (ws p) ∧
  ∀ w, match ws p !! w with
       | Some x => ∃ c, ws p' !! w = Some (mkWorker c (recycleTime x) (pc x)) ∧
           ccap c = ccap (task x) ∧ cshut c = cshut (task x) ∧
           ∃ n, cbuf c = cbuf (task x) ++ replicate n None ∧ Z.of_nat n = zsum (one w) l
       | None => ws p' !! w = None ∧ zsum (one w) l = 0
       end.
Proof.
  revert p. induction l as [|v l IH]; simpl; intros p H.
  - injection H as <-. split_and!; try done. intros w.
    destruct (ws p !! w) as [[c r q]|] eqn:E; [|done]. exists c. split_and!; try done.
    exists 0%nat. split; [by rewrite app_nil_r|done].
  - apply bind_Some in H as (p1 & H & H0).
    apply send_task_spec in H as (x & c & E & Eb & Ec & Es & ->).
    destruct (IH _ H0) as (H1 & H2 & H3 & H4 & H5 & H6 & H7 & H8).
    split_and!; try done.
    { rewrite H7. simpl. apply length_insert. }
    intros w. specialize (H8 w). rewrite (lookup_worker _ _ _ _ _ E) in H8.
    unfold one at 1 3. case_if; subst.
    + rewrite E. simpl in H8. destruct H8 as (c' & Ew & Hc & Hs & n & Hb & Hn).
      exists c'. split_and!; try congruence. exists (S n). split; [|lia].
      rewrite Hb, Eb, <- app_assoc. done.
    + destruct (ws p !! w) as [y|] eqn:Ey.
      * destruct H8 as (c' & Ew & Hc & Hs & n & Hb & Hn). exists c'. split_and!; try done.
        exists n. split; [done|lia].
      * destruct H8. split; [done|lia].
Qed.

Lemma stop_all_ok l p : (∀ w, winv p w) →
  (∀ w, w ∈ l → zsum (one w) l + chanlen p w ≤ 1 ∧ is_Some (ws p !! w)) →
  ∃ p', stop_all l p = Some p'.
Proof.
  intros I. assert (∀ w x, ws p !! w = Some x → ccap (task x) = 1%nat ∧ cshut (task x) = false) as Ic.
  { intros w x E. specialize (I w). unfold winv in I. rewrite E in I. tauto. }
  clear I. revert p Ic. induction l as [|v l IH]; intros p Ic H; [by eexists|].
  destruct (H v) as [Hv [x E]]; [set_solver|]. simpl in Hv. rewrite one_refl in Hv.
  pose proof (zsum_nonneg (one v) l (one_nonneg v)). pose proof (chanlen_nonneg p v).
  destruct (Ic v x E) as [Cx Sx].
  assert (cbuf (task x) = []) as Eb.
  { apply zlen_0. unfold chanlen in *. rewrite E in *. pose proof (zlen_nonneg (cbuf (task x))). lia. }
  simpl. unfold send_task. rewrite E. simpl. unfold send. rewrite Sx, Eb, Cx.
  rewrite bool_decide_eq_true_2 by (simpl; lia). simpl.
  set (y := mkWorker _ _ _). apply IH.
  - intros w z Hz. rewrite (lookup_worker _ _ _ _ _ E) in Hz. case_bool_decide; simplify_eq.
    + by simpl.
    + by apply (Ic w).
  - intros w Hw. destruct (H w) as [Hb Hs]; [set_solver|].
    rewrite (lookup_worker _ _ _ _ _ E), (chanlen_set _ _ _ _ _ E). unfold one at 2.
    simpl in Hb. unfold one at 1 in Hb. case_bool_decide; subst.
    + exfalso. pose proof (zsum_elem (one v) l v (one_nonneg v) Hw). rewrite one_refl in *. lia.
    + split; [lia|done].
Qed.

(** ** The invariant *)

Definition pinv p : Prop := ∀ w, winv p w.

Lemma New_pinv size expiry : pinv (NewWorkerPool size expiry).
Proof. intros w. done. Qed.

Lemma held_goto p i k k' w : calls p !! i = Some k →
  held (goto p i k') w = held p w - sends w k + sends w k' ∧
  spare (goto p i k') w = spare p w - runs w k + runs w k'.
Proof.
  intros H. unfold held, spare, chanlen. simpl.
  rewrite (zsum_insert _ _ _ _ _ H), (zsum_insert _ _ _ _ _ H). lia.
Qed.
Lemma held_finish p i k w : calls p !! i = Some k →
  held (finish p i) w = held p w - sends w k ∧ spare (finish p i) w = spare p w - runs w k.
Proof.
  intros H. unfold held, spare, chanlen. simpl.
  rewrite (zsum_delete _ _ _ _ H), (zsum_delete _ _ _ _ H). lia.
Qed.
Lemma held_workers p l w :
  held (set_workers p l) w = held p w - zsum (one w) (workers p) + zsum (one w) l.
Proof. unfold held, chanlen. simpl. lia. Qed.
Lemma held_spawn p k w : sends w k = 0 → runs w k = 0 →
  held (spawn p k) w = held p w ∧ spare (spawn p k) w = spare p w.
Proof.
  intros H1 H2. unfold held, spare, chanlen. simpl. rewrite !zsum_app. simpl. lia.
Qed.

(** A call moves on without touching a worker. *)
Lemma goto_pinv p i k k' : pinv p → calls p !! i = Some k →
  (∀ w, sends w k = sends w k' ∧ runs w k = runs w k') → pinv (goto p i k').
Proof.
  intros I H E w. destruct (held_goto p i k k' w H). destruct (E w).
  apply (winv_same p); [apply I|done|lia|lia].
Qed.
Lemma finish_pinv p i k : pinv p → calls p !! i = Some k →
  (∀ w, sends w k = 0 ∧ runs w k = 0) → pinv (finish p i).
Proof.
  intros I H E w. destruct (held_finish p i k w H). destruct (E w).
  apply (winv_same p); [apply I|done|lia|lia].
Qed.

(** An idle worker goes from the list to the call. *)
Lemma claim_pinv p i k w0 t more : pinv p → calls p !! i = Some k →
  (∀ w, sends w k = 0 ∧ runs w k = 0) → list.last (workers p) = Some w0 →
  pinv (goto (set_workers p (removelast (workers p))) i (KSend w0 t more)).
Proof.
  intros I H E L w. pose proof (last_app _ _ L) as El.
  destruct (held_goto (set_workers p (removelast (workers p))) i k (KSend w0 t more) w H) as [H1 H2].
  destruct (E w). rewrite held_workers in H1. simpl in H1, H2.
  assert (zsum (one w) (workers p) = zsum (one w) (removelast (workers p)) + one w w0) as E2.
  { rewrite El at 1. rewrite zsum_app. simpl. lia. }
  apply (winv_same p); [apply I|done|lia|]. rewrite H2. unfold spare. simpl. lia.
Qed.

Lemma cached_pinv p i j w0 t more : pinv p → calls p !! i = Some (KSpawn t more) →
  workerCache p !! j = Some w0 →
  pinv (goto (set_cache p (take j (workerCache p) ++ drop (S j) (workerCache p))) i (KRun w0 t more)).
Proof.
  intros I H Hj w. set (p1 := set_cache p _).
  destruct (held_goto p1 i _ (KRun w0 t more) w H) as [H1 H2]. simpl in H1, H2.
  apply (winv_same p); [apply I|done|rewrite H1; unfold held, chanlen; simpl; lia|].
  rewrite H2. unfold spare. simpl. rewrite (zsum_delete _ _ _ _ Hj). lia.
Qed.

Lemma fresh_pinv p i t more x : pinv p → calls p !! i = Some (KSpawn t more) →
  x = mkWorker (make_chan (workerChanCap 2)) 0 WGone →
  pinv (goto (set_ws p (ws p ++ [x])) i (KRun (length (ws p)) t more)).
Proof.
  intros I H -> w. set (p1 := set_ws p _).
  destruct (held_goto p1 i _ (KRun (length (ws p)) t more) w H) as [H1 H2]. simpl in H1, H2.
  specialize (I w). unfold winv in *. rewrite H1, H2. unfold held, spare, chanlen in *. simpl.
  destruct (decide (w < length (ws p))%nat) as [Hw|Hw].
  - rewrite lookup_app_l by done. rewrite one_ne by lia.
    destruct (ws p !! w) as [y|]; [destruct (pc y)|]; simpl in *; intuition lia.
  - rewrite (proj2 (lookup_ge_None _ _)) in I by lia.
    destruct (decide (w = length (ws p))) as [->|Hne].
    + rewrite lookup_app_r, Nat.sub_diag by lia. simpl. rewrite one_refl.
      split; [done|]. split; [done|]. rewrite zlen_nil. destruct I. split; lia.
    + rewrite (proj2 (lookup_ge_None _ _)) by (rewrite length_app; simpl; lia).
      rewrite one_ne by done. intuition lia.
Qed.

Lemma spare_runs p i w t more : calls p !! i = Some (KRun w t more) → 1 ≤ spare p w.
Proof.
  intros H. pose proof (held_parts p w). unfold spare.
  pose proof (zsum_lookup (runs w) _ _ _ (runs_nonneg w) H) as L. simpl in L. rewrite one_refl in L. lia.
Qed.
Lemma held_sends p i w t more : calls p !! i = Some (KSend w t more) →
  1 ≤ zsum (sends w) (calls p).
Proof.
  intros H. pose proof (zsum_lookup (sends w) _ _ _ (sends_nonneg w) H) as L.
  simpl in L. by rewrite one_refl in L.
Qed.

Lemma run_pinv p i w0 t more x : pinv p → calls p !! i = Some (KRun w0 t more) →
  ws p !! w0 = Some x →
  pinv (goto (set_worker (incRunning p) w0 (mkWorker (task x) (recycleTime x) WRecv)) i (KSend w0 t more)).
Proof.
  intros I H E w. set (y := mkWorker _ _ _). set (p1 := set_worker (incRunning p) w0 y).
  destruct (held_goto p1 i _ (KSend w0 t more) w H) as [H1 H2]. simpl in H1, H2.
  assert (held p1 w = held p w) as Hh.
  { unfold held, p1. rewrite (chanlen_set (incRunning p) w0 x y w E).
    change (chanlen (incRunning p) w) with (chanlen p w). simpl. lia. }
  assert (spare p1 w = spare p w) as Hs by done.
  pose proof (spare_runs _ _ _ _ _ H) as Hr. pose proof (I w0) as I0. unfold winv in I0. rewrite E in I0.
  specialize (I w). unfold winv in *. rewrite H1, H2, Hh, Hs.
  change (ws (goto p1 i (KSend w0 t more)) !! w) with (ws p1 !! w).
  unfold p1. rewrite (lookup_worker _ _ _ _ _ (E : ws (incRunning p) !! w0 = Some x)).
  case_bool_decide as Ew.
  - subst w. rewrite one_refl. simpl. destruct I0 as (A & B & C). destruct (pc x); intuition lia.
  - rewrite one_ne by done. change (ws (incRunning p) !! w) with (ws p !! w).
    destruct (ws p !! w) as [z|]; [destruct (pc z)|]; intuition lia.
Qed.

Lemma next_round_pinv p i w0 t more p1 : pinv p → calls p !! i = Some (KSend w0 t more) →
  send_task p w0 t = Some p1 → pinv (next_round p1 i more).
Proof.
  intros I H S w. apply send_task_spec in S as (x & c & E & Eb & Ec & Es & ->).
  set (y := mkWorker c (recycleTime x) (pc x)). set (p1 := set_worker p w0 y).
  assert (held (next_round p1 i more) w = held p1 w - one w w0 ∧
          spare (next_round p1 i more) w = spare p w) as [H1 H2].
  { destruct more as [|n]; simpl.
    - destruct (held_finish p1 i _ w H) as [H1 H2]. simpl in H1, H2. rewrite H1, H2.
      split; [done|]. unfold spare. simpl. lia.
    - destruct (held_goto p1 i _ (KRetrieve None n) w H) as [H1 H2]. simpl in H1, H2.
      rewrite H1, H2. split; [lia|]. unfold spare. simpl. lia. }
  assert (held p1 w = held p w + one w w0) as Hh.
  { unfold held, p1. rewrite (chanlen_set _ _ _ _ _ E). simpl. rewrite Eb.
    autorewrite with strike. lia. }
  assert (ws (next_round p1 i more) !! w = ws p1 !! w) as Hw by (by destruct more).
  specialize (I w). unfold winv in *. rewrite Hw, H1, H2, Hh. unfold p1.
  rewrite (lookup_worker _ _ _ _ _ E). replace (held p w + one w w0 - one w w0) with (held p w) by lia.
  case_bool_decide as Ew; [|done]. subst w. rewrite E in I. simpl. rewrite Ec, Es. done.
Qed.

(** The workers of a prefix or the whole of the idle list are stopped. *)
Lemma stop_pinv p l k p1 : pinv p → workers p = l ++ k → stop_all l p = Some p1 →
  pinv (set_workers p1 k).
Proof.
  intros I E S w. apply stop_all_spec in S as (H1 & H2 & H3 & _ & _ & _ & _ & H8).
  specialize (I w). specialize (H8 w). unfold winv in *. simpl.
  assert (spare (set_workers p1 k) w = spare p w) as Hs.
  { unfold spare. simpl. by rewrite H2, H3. }
  rewrite Hs. unfold held in *. simpl. rewrite H2. rewrite E, zsum_app in I.
  unfold chanlen in *. simpl.
  destruct (ws p !! w) as [x|].
  - destruct H8 as (c & Ew & Hc & Hsh & n & Hb & Hn). rewrite Ew. simpl. rewrite Hb, Hc, Hsh.
    unfold zlen in *. rewrite length_app, length_replicate. destruct (pc x); intuition lia.
  - destruct H8 as [Ew Hz]. rewrite Ew. intuition lia.
Qed.

Lemma expired_prefix p now l : ∃ k, l = expired p now l ++ k ∧ k = drop (length (expired p now l)) l.
Proof.
  induction l as [|w l (k & E & Ek)]; simpl; [by exists []|].
  destruct (ws p !! w) as [x|]; [|by exists (w :: l)].
  case_if; [by exists (w :: l)|]. exists k. simpl. split; [by f_equal|done].
Qed.

Lemma step_call_pinv p i c o p' : pinv p → step_call p i c = Some (o, p') → pinv p'.
Proof.
  intros I H. unfold step_call in H. apply bind_Some in H as (k & Hk & H).
  destruct k as [t|size|t more|t more|t more|t more|w t more|w t more|].
  - destruct (release p =? 1); step_cases; subst; [by eapply finish_pinv|by eapply goto_pinv].
  - step_cases; subst. case_if; [by eapply goto_pinv|by eapply finish_pinv].
  - destruct (list.last (workers p)) eqn:L; step_cases; subst; [by eapply claim_pinv|].
    eapply goto_pinv; [done|done|]. intros w. by case_if.
  - done.
  - destruct (list.last (workers p)) eqn:L; step_cases; subst; [by eapply claim_pinv|].
    by eapply goto_pinv.
  - destruct c as [j|]; step_cases; subst; [by eapply cached_pinv|by eapply fresh_pinv].
  - step_cases; subst. by eapply run_pinv.
  - step_cases; subst. by eapply next_round_pinv.
  - step_cases; subst. assert (pinv (set_workers x [])) as I1.
    { eapply stop_pinv; [done| |done]. by rewrite app_nil_r. }
    apply stop_all_spec in H as (_ & Hc & _). apply (finish_pinv _ _ KRelease); [done| |done].
    simpl. by rewrite Hc.
Qed.

Lemma Signal_pinv p wake p' : pinv p → Signal p wake = Some p' → pinv p'.
Proof.
  intros I H. unfold Signal in H. destruct wake as [j|].
  - step_cases. destruct (waits x) eqn:W; step_cases; subst. destruct x; try done.
    by eapply goto_pinv.
  - by destruct (existsb waits (calls p)); step_cases; subst.
Qed.

(** A worker's own step, seen from the others and from itself. *)
Lemma set_worker_pinv p p1 w0 x y : pinv p → ws p !! w0 = Some x →
  ws p1 = ws p → calls p1 = calls p →
  (∀ w, w ≠ w0 → zsum (one w) (workers p1) = zsum (one w) (workers p) ∧
                  zsum (one w) (workerCache p1) = zsum (one w) (workerCache p)) →
  ccap (task y) = ccap (task x) → cshut (task y) = cshut (task x) →
  (held p w0 = (match pc x with WRecv => 1 | _ => 0 end) →
   held (set_worker p1 w0 y) w0 = match pc y with WRecv => 1 | _ => 0 end) →
  (spare (set_worker p1 w0 y) w0 ≤ spare p w0 + (match pc y with WGone => 1 | _ => 0 end)) →
  pc x ≠ WGone → pinv (set_worker p1 w0 y).
Proof.
  intros I E Ew Ec Hne Hc Hs Hh Hsp Hx w. pose proof (I w0) as I0. unfold winv in I0. rewrite E in I0.
  unfold winv. assert (ws p1 !! w0 = Some x) as E1 by (by rewrite Ew).
  rewrite (lookup_worker _ _ _ _ _ E1). case_bool_decide as Eq.
  - subst w. rewrite Hc, Hs. destruct I0 as (A & B & D). split_and!; [done|done|].
    pose proof (held_parts (set_worker p1 w0 y) w0).
    assert (held p w0 = match pc x with WRecv => 1 | _ => 0 end) as Hp by (destruct (pc x); tauto).
    assert (spare p w0 = 0) as Hz by (destruct (pc x); tauto).
    specialize (Hh Hp). unfold spare in *. destruct (pc y); intuition lia.
  - destruct (Hne w Eq) as [N1 N2].
    assert (held (set_worker p1 w0 y) w = held p w) as ->.
    { unfold held. rewrite (chanlen_set _ _ _ _ _ E1), one_ne by done. simpl. rewrite N1, Ec.
      unfold chanlen. rewrite Ew. lia. }
    assert (spare (set_worker p1 w0 y) w = spare p w) as ->.
    { unfold spare. simpl. by rewrite N2, Ec. }
    rewrite Ew. apply I.
Qed.

Lemma step_worker_pinv p w b now wake o p' : pinv p →
  step_worker p w b now wake = Some (o, p') → pinv p'.
Proof.
  intros I H. unfold step_worker in H. apply bind_Some in H as (x & E & H).
  destruct (pc x) eqn:P; try done.
  - destruct (recv (task x)) as [t c| |] eqn:R; [|by destruct (pc x)..].
    apply recv_spec in R as (Rb & Rc & Rs).
    assert (∀ q, q ≠ WRecv → q ≠ WGone → pinv (set_worker p w (mkWorker c (recycleTime x) q))) as K.
    { intros q Hq Hq'. eapply (set_worker_pinv p p); try done; [| |by rewrite P].
      - rewrite P. intros Hh. unfold held in *. rewrite (chanlen_set _ _ _ _ _ E), one_refl.
        simpl. rewrite Rb. autorewrite with strike. destruct q; try done; lia.
      - simpl. unfold spare. simpl. destruct q; try done; lia. }
    destruct t; step_cases; subst; by apply K.
  - step_cases; subst. eapply (set_worker_pinv p p); try done; [| |by rewrite P].
    + rewrite P. unfold held. rewrite (chanlen_set _ _ _ _ _ E). simpl. destruct b; lia.
    + unfold spare. simpl. destruct b; lia.
  - step_cases; subst. eapply (set_worker_pinv p p); try done; [| |by rewrite P].
    + rewrite P. unfold held. rewrite (chanlen_set _ _ _ _ _ E). simpl. destruct (release p =? 1); lia.
    + unfold spare. simpl. destruct (release p =? 1); lia.
  - step_cases; subst. eapply Signal_pinv; [|done].
    change (pinv (set_worker (set_workers p (workers p ++ [w])) w (mkWorker (task x) now WRecv))).
    eapply (set_worker_pinv p); try done; [| | |by rewrite P].
    + intros v Hv. simpl. rewrite zsum_app. simpl. rewrite one_ne by done. lia.
    + rewrite P. unfold held. simpl. rewrite zsum_app. simpl. rewrite one_refl.
      rewrite (chanlen_set (set_workers p (workers p ++ [w])) w x _ _ E). simpl.
      change (chanlen (set_workers p (workers p ++ [w])) w) with (chanlen p w). lia.
    + unfold spare. simpl. lia.
  - step_cases; subst.
    change (pinv (set_worker (decRunning p) w (set_pc x WPut))).
    eapply (set_worker_pinv p (decRunning p)); try done; [| |by rewrite P].
    + rewrite P. unfold held. rewrite (chanlen_set (decRunning p) w x _ _ E). simpl.
      change (chanlen (decRunning p) w) with (chanlen p w). lia.
    + unfold spare. simpl. lia.
  - step_cases; subst.
    change (pinv (set_worker (set_cache p (w :: workerCache p)) w (set_pc x WGone))).
    eapply (set_worker_pinv p); try done; [| | |by rewrite P].
    + intros v Hv. simpl. rewrite one_ne by done. lia.
    + rewrite P. unfold held. rewrite (chanlen_set (set_cache p (w :: workerCache p)) w x _ _ E). simpl.
      change (chanlen (set_cache p (w :: workerCache p)) w) with (chanlen p w). lia.
    + unfold spare. simpl. rewrite one_refl. lia.
Qed.

Lemma step_pinv a p o p' : pinv p → step a p = Some (o, p') → pinv p'.
Proof.
  intros I H. destruct a as [t|size| |now|i c|w b now wake]; simpl in H.
  - step_cases; subst. intros w. destruct (held_spawn p (KServe t) w) as [? ?]; [done|done|].
    by apply (winv_same p).
  - step_cases; subst. unfold Tune. case_if; [done|]. intros w.
    destruct (held_spawn (set_capacity p (int32 size)) (KTune size) w) as [? ?]; [done|done|].
    by apply (winv_same p).
  - step_cases; subst. unfold Release. destruct (once p); [done|]. intros w.
    destruct (held_spawn (set_release p) KRelease w) as [? ?]; [done|done|].
    by apply (winv_same p).
  - step_cases; subst. unfold periodicallyPurge in H. destruct (release p =? 1); step_cases; subst; [done|].
    destruct (expired_prefix p now (workers p)) as (k & E & Ek). rewrite <- Ek. by eapply stop_pinv.
  - by eapply step_call_pinv.
  - by eapply step_worker_pinv.
Qed.

Lemma run_pinv_all acts p os p' : pinv p → run acts p = Some (os, p') → pinv p'.
Proof.
  revert p os. induction acts as [|a acts IH]; simpl; intros p os I H.
  - by injection H as <- <-.
  - step_cases; subst. eauto using step_pinv.
Qed.
End holders.

(** ** Tasks *)

Section tasks.
Context {T : Type} (f : T → Z).
Implicit Types (p : workerPool T).

Definition weigh (o : option T) : Z := match o with Some t => f t | None => 0 end.
(** The accepted task a call still holds. *)
Definition call_task (k : cpc T) : option T :=
  match k with
  | KRetrieve t _ | KWait t _ | KWoken t _ | KSpawn t _ | KRun _ t _ | KSend _ t _ => t
  | _ => None
  end.
Definition call_weight (k : cpc T) : Z := weigh (call_task k).
Definition worker_weight (x : worker T) : Z := zsum weigh (cbuf (task x)).
Definition weight p : Z := zsum call_weight (calls p) + zsum worker_weight (ws p).
Definition out_weight (o : outcome T) : Z :=
  match o with Accepted t => f t | Started t => - f t | _ => 0 end.

Lemma weight_goto p i k k' : calls p !! i = Some k →
  weight (goto p i k') = weight p - call_weight k + call_weight k'.
Proof. intros H. unfold weight. simpl. rewrite (zsum_insert _ _ _ _ _ H). lia. Qed.
Lemma weight_finish p i k : calls p !! i = Some k → weight (finish p i) = weight p - call_weight k.
Proof. intros H. unfold weight. simpl. rewrite (zsum_delete _ _ _ _ H). lia. Qed.
Lemma weight_worker p w x y : ws p !! w = Some x →
  weight (set_worker p w y) = weight p - worker_weight x + worker_weight y.
Proof. intros H. unfold weight. simpl. rewrite (zsum_insert _ _ _ _ _ H). lia. Qed.

Lemma send_weight p w t p' : send_task p w t = Some p' → weight p' = weight p + weigh t.
Proof.
  intros (x & c & E & Eb & _ & _ & ->)%send_task_spec. rewrite (weight_worker _ _ _ _ E).
  unfold worker_weight. simpl. rewrite Eb, zsum_app. simpl. lia.
Qed.
Lemma stop_weight l p p' : stop_all l p = Some p' → weight p' = weight p.
Proof.
  revert p. induction l as [|w l IH]; simpl; intros p H; [by injection H as <-|].
  step_cases. rewrite (IH _ H0), (send_weight _ _ _ _ H). simpl. lia.
Qed.

Lemma call_step_weight p i c o p' : step_call p i c = Some (o, p') →
  weight p' = weight p + out_weight o.
Proof.
  intros H. unfold step_call in H. apply bind_Some in H as (k & Hk & H).
  destruct k as [t|size|t more|t more|t more|t more|w t more|w t more|].
  - destruct (release p =? 1); step_cases; subst.
    + rewrite (weight_finish _ _ _ Hk). simpl. unfold call_weight. simpl. lia.
    + rewrite (weight_goto _ _ _ _ Hk). unfold call_weight. simpl. lia.
  - step_cases; subst. case_if; [rewrite (weight_goto _ _ _ _ Hk)|rewrite (weight_finish _ _ _ Hk)];
      unfold call_weight; simpl; lia.
  - destruct (list.last (workers p)) eqn:L; step_cases; subst.
    + rewrite (weight_goto (set_workers p _) _ _ _ Hk). unfold call_weight, weight. simpl. lia.
    + rewrite (weight_goto _ _ _ _ Hk). unfold call_weight. case_if; simpl; lia.
  - done.
  - destruct (list.last (workers p)) eqn:L; step_cases; subst.
    + rewrite (weight_goto (set_workers p _) _ _ _ Hk). unfold call_weight, weight. simpl. lia.
    + rewrite (weight_goto _ _ _ _ Hk). unfold call_weight. simpl; lia.
  - destruct c as [j|]; step_cases; subst.
    + rewrite (weight_goto (set_cache p _) _ _ _ Hk). unfold call_weight, weight. simpl. lia.
    + rewrite (weight_goto (set_ws p _) _ _ _ Hk). unfold call_weight, weight. simpl.
      rewrite zsum_app. unfold worker_weight at 2. simpl. lia.
  - apply bind_Some in H as (x & E & H). step_cases; subst.
    rewrite (weight_goto (set_worker (incRunning p) w (mkWorker (task x) (recycleTime x) WRecv)) _ _ _ Hk).
    rewrite (weight_worker (incRunning p) _ x _ E).
    unfold call_weight, weight, worker_weight. simpl. lia.
  - apply bind_Some in H as (p1 & S & H). step_cases; subst. pose proof (send_weight _ _ _ _ S) as E.
    assert (calls p1 !! i = Some (KSend w t more)) as Hk1.
    { apply send_task_spec in S as (x & c1 & _ & _ & _ & _ & ->). done. }
    destruct more; simpl; [rewrite (weight_finish _ _ _ Hk1)|rewrite (weight_goto _ _ _ _ Hk1)];
      rewrite E; unfold call_weight; simpl; lia.
  - apply bind_Some in H as (p1 & S & H). step_cases; subst. pose proof (stop_weight _ _ _ S) as E.
    assert (calls p1 !! i = Some KRelease) as Hk1.
    { apply stop_all_spec in S as (_ & -> & _). done. }
    rewrite (weight_finish (set_workers p1 []) i KRelease Hk1). unfold call_weight. simpl.
    change (weight (set_workers p1 [])) with (weight p1). lia.
Qed.

Lemma Signal_weight p wake p' : Signal p wake = Some p' → weight p' = weight p.
Proof.
  unfold Signal. intros H. destruct wake as [j|].
  - step_cases. destruct x as [| | |t more| | | | |]; try done. cbn [waits] in H0. step_cases; subst.
    rewrite (weight_goto _ _ _ _ H). unfold call_weight. simpl. lia.
  - by destruct (existsb waits (calls p)); step_cases; subst.
Qed.

Lemma worker_step_weight p w b now wake o p' : step_worker p w b now wake = Some (o, p') →
  weight p' = weight p + out_weight o.
Proof.
  intros H. unfold step_worker in H. apply bind_Some in H as (x & E & H).
  destruct (pc x) eqn:P; try done.
  - destruct (recv (task x)) as [[t|] c| |] eqn:R; try done; step_cases; subst;
      apply recv_spec in R as (Rb & _); rewrite (weight_worker _ _ _ _ E);
      unfold worker_weight; rewrite Rb; simpl; lia.
  - step_cases; subst. rewrite (weight_worker _ _ _ _ E). unfold worker_weight. simpl. lia.
  - step_cases; subst. rewrite (weight_worker _ _ _ _ E). unfold worker_weight. simpl. lia.
  - step_cases; subst. rewrite (Signal_weight _ _ _ H).
    change (weight (set_worker (set_workers p (workers p ++ [w])) w (mkWorker (task x) now WRecv)) =
            weight p + 0).
    rewrite (weight_worker (set_workers p (workers p ++ [w])) w x _ E).
    unfold weight, worker_weight. simpl. lia.
  - step_cases; subst. rewrite (weight_worker (decRunning p) w x _ E).
    unfold weight, worker_weight. simpl. lia.
  - step_cases; subst.
    change (weight (set_worker (set_cache p (w :: workerCache p)) w (set_pc x WGone)) = weight p + 0).
    rewrite (weight_worker (set_cache p (w :: workerCache p)) w x _ E).
    unfold weight, worker_weight. simpl. lia.
Qed.

Lemma step_weight a p o p' : step a p = Some (o, p') → weight p' = weight p + out_weight o.
Proof.
  intros H. destruct a as [t|size| |now|i c|w b now wake]; simpl in H.
  - step_cases; subst. unfold weight. simpl. rewrite zsum_app. unfold call_weight at 2. simpl. lia.
  - step_cases; subst. unfold Tune. case_if; simpl; [lia|].
    unfold weight. simpl. rewrite zsum_app. unfold call_weight at 2. simpl. lia.
  - step_cases; subst. unfold Release. destruct (once p); simpl; [lia|].
    unfold weight. simpl. rewrite zsum_app. unfold call_weight at 2. simpl. lia.
  - step_cases; subst. unfold periodicallyPurge in H.
    destruct (release p =? 1); [step_cases; subst; simpl; lia|].
    apply bind_Some in H as (p1 & H & H0). step_cases; subst. rewrite <- (stop_weight _ _ _ H).
    unfold weight. simpl. lia.
  - by eapply call_step_weight.
  - by eapply worker_step_weight.
Qed.

Lemma run_weight acts p os p' : run acts p = Some (os, p') →
  weight p' = weight p + zsum out_weight os.
Proof.
  revert p os. induction acts as [|a acts IH]; simpl; intros p os H.
  - injection H as <- <-. simpl. lia.
  - step_cases; subst. rewrite (IH _ _ H0), (step_weight _ _ _ _ H). simpl. lia.
Qed.
End tasks.

(** ** Goroutines *)

Section goroutines.
Context {T : Type}.
Implicit Types (p : workerPool T).

(** A goroutine that has not counted down. *)
Definition counted (x : worker T) : Z := match pc x with WPut | WGone => 0 | _ => 1 end.
Definition lost (x : worker T) : Z := match pc x with WLost => 1 | _ => 0 end.
Definition spawns (k : cpc T) : Z := match k with KSpawn _ _ | KRun _ _ _ => 1 | _ => 0 end.
Definition goroutines p : Z := zsum counted (ws p).
Definition spawning p : Z := zsum spawns (calls p).

Lemma int32_add a b : int32 (int32 a + b) = int32 (a + b).
Proof.
  unfold int32, wrapS. set (M := 2 ^ 32). set (H := 2 ^ (32 - 1)).
  replace ((a + H) mod M - H + b + H) with ((a + H) mod M + b) by lia.
  rewrite Z.add_mod_idemp_l by done. do 2 f_equal. lia.
Qed.

(** The counter, the flag, and what a step does to them. *)
Record cinv p : Prop := {
  cinv_pool : pinv p;
  cinv_running : running p = int32 (goroutines p);
  cinv_lost : release p = 1 ∨ zsum lost (ws p) = 0
}.

Lemma New_cinv size expiry : cinv (@NewWorkerPool T size expiry).
Proof. split; [apply New_pinv|done|by right]. Qed.

Lemma counted_nonneg x : 0 ≤ counted x.
Proof. unfold counted. destruct (pc x); lia. Qed.

Lemma sum_send_task (h : worker T → Z) p w t p' :
  (∀ c r x, h (mkWorker c r (pc x)) = h x) → send_task p w t = Some p' →
  zsum h (ws p') = zsum h (ws p).
Proof.
  intros Hh (x & c & E & _ & _ & _ & ->)%send_task_spec. simpl.
  rewrite (zsum_insert _ _ _ _ _ E), Hh. lia.
Qed.
Lemma sum_stop_all (h : worker T → Z) l p p' :
  (∀ c r x, h (mkWorker c r (pc x)) = h x) → stop_all l p = Some p' →
  zsum h (ws p') = zsum h (ws p).
Proof.
  intros Hh. revert p. induction l as [|w l IH]; simpl; intros p H; [by injection H as <-|].
  step_cases. by rewrite (IH _ H0), (sum_send_task _ _ _ _ _ Hh H).
Qed.

(** How a step changes the counter, the goroutines and the lost ones. *)
Definition tick p p' : Prop :=
  ∃ d, running p' = int32 (running p + d) ∧ goroutines p' = goroutines p + d ∧
    (release p = 1 → release p' = 1) ∧
    (release p' = 1 ∨ zsum lost (ws p') = zsum lost (ws p)) ∧
    capacity p' = capacity p.

Lemma tick_same p p' : running p = int32 (running p) → running p' = running p →
  release p' = release p → capacity p' = capacity p →
  zsum counted (ws p') = zsum counted (ws p) → zsum lost (ws p') = zsum lost (ws p) → tick p p'.
Proof.
  intros Hi E1 E2 Ec E3 E4. exists 0. unfold goroutines. rewrite E1, E2, Ec, E3, E4, !Z.add_0_r.
  split_and!; auto.
Qed.

Lemma Signal_frame p wake p' : Signal p wake = Some p' →
  running p' = running p ∧ release p' = release p ∧ capacity p' = capacity p ∧ ws p' = ws p ∧
  spawning p' = spawning p.
Proof.
  unfold Signal. intros H. destruct wake as [j|].
  - step_cases. destruct x as [| | |t more| | | | |]; try done. cbn [waits] in H0. step_cases; subst.
    split_and!; try done. unfold spawning. simpl. rewrite (zsum_insert _ _ _ _ _ H). simpl. lia.
  - by destruct (existsb waits (calls p)); step_cases; subst.
Qed.

Lemma call_tick p i c o p' : cinv p → step_call p i c = Some (o, p') → tick p p'.
Proof.
  intros [I Hr Hl] H. assert (running p = int32 (running p)) as Hi.
  { rewrite Hr at 1. rewrite <- (Z.add_0_r (running p)), Hr, int32_add. f_equal. lia. }
  unfold step_call in H. apply bind_Some in H as (k & Hk & H).
  destruct k as [t|size|t more|t more|t more|t more|w t more|w t more|].
  - destruct (release p =? 1); step_cases; subst; by apply tick_same.
  - step_cases; subst. case_if; by apply tick_same.
  - destruct (list.last (workers p)) eqn:L; step_cases; subst; by apply tick_same.
  - done.
  - destruct (list.last (workers p)) eqn:L; step_cases; subst; by apply tick_same.
  - destruct c as [j|]; step_cases; subst; apply tick_same; try done; simpl;
      rewrite zsum_app; cbn; lia.
  - apply bind_Some in H as (x & E & H). step_cases; subst.
    assert (pc x = WGone) as Px.
    { pose proof (spare_runs _ _ _ _ _ Hk). specialize (I w). unfold winv in I. rewrite E in I.
      destruct (pc x); intuition lia. }
    exists 1. simpl. unfold goroutines. simpl.
    rewrite !(zsum_insert _ _ _ _ _ E). unfold counted at 2 3, lost at 2 3. simpl. rewrite Px.
    split_and!; try done; [lia|]. right. lia.
  - apply bind_Some in H as (p1 & S & H). step_cases; subst.
    pose proof (sum_send_task counted _ _ _ _ (λ c r x, eq_refl) S).
    pose proof (sum_send_task lost _ _ _ _ (λ c r x, eq_refl) S).
    apply send_task_spec in S as (x & c1 & _ & _ & _ & _ & ->).
    destruct more; by apply tick_same.
  - apply bind_Some in H as (p1 & S & H). step_cases; subst.
    pose proof (sum_stop_all counted _ _ _ (λ c r x, eq_refl) S).
    pose proof (sum_stop_all lost _ _ _ (λ c r x, eq_refl) S).
    apply stop_all_spec in S as (_ & _ & _ & ? & ? & ? & _). by apply tick_same.
Qed.

Lemma worker_tick p w b now wake o p' : cinv p → step_worker p w b now wake = Some (o, p') → tick p p'.
Proof.
  intros [I Hr Hl] H. assert (running p = int32 (running p)) as Hi.
  { rewrite Hr at 1. rewrite <- (Z.add_0_r (running p)), Hr, int32_add. f_equal. lia. }
  unfold step_worker in H. apply bind_Some in H as (x & E & H).
  assert (∀ y, counted y = counted x → lost y = lost x → tick p (set_worker p w y)) as K.
  { intros y E1 E2. apply tick_same; try done; simpl; rewrite (zsum_insert _ _ _ _ _ E); lia. }
  unfold counted, lost in K. destruct (pc x) eqn:P; try done.
  - destruct (recv (task x)) as [[t|] c| |] eqn:R; try done; step_cases; subst; by apply K.
  - step_cases; subst. destruct b; by apply K.
  - step_cases; subst. destruct (release p =? 1) eqn:R; bdec; [|by apply K].
    exists 0. unfold goroutines. simpl. rewrite (zsum_insert _ _ _ _ _ E). unfold counted at 2 3.
    simpl. rewrite P, Z.add_0_r. split_and!; [done|lia|done|by left|done].
  - step_cases; subst. apply Signal_frame in H as (E1 & E2 & Ec & E3 & _). apply tick_same; try done.
    all: rewrite E3; simpl; rewrite (zsum_insert _ _ _ _ _ E); unfold counted, lost; simpl; rewrite P; lia.
  - step_cases; subst. exists (-1). unfold goroutines. simpl. rewrite !(zsum_insert _ _ _ _ _ E).
    unfold counted at 2 3, lost at 2 3. simpl. rewrite P. split_and!; try done; [lia|]. right. lia.
  - step_cases; subst. apply tick_same; try done; simpl; rewrite (zsum_insert _ _ _ _ _ E);
      unfold counted, lost; simpl; rewrite P; lia.
Qed.

Lemma step_cinv a p o p' : cinv p → step a p = Some (o, p') → cinv p'.
Proof.
  intros C H. pose proof (step_pinv _ _ _ _ (cinv_pool _ C) H) as I'.
  assert (∃ d, running p' = int32 (running p + d) ∧ goroutines p' = goroutines p + d ∧
    (release p = 1 → release p' = 1) ∧
    (release p' = 1 ∨ zsum lost (ws p') = zsum lost (ws p))) as (d & E1 & E2 & E3 & E4).
  { assert (running p = int32 (running p + 0)) as Hi.
    { rewrite (cinv_running _ C) at 2. rewrite int32_add, Z.add_0_r. apply (cinv_running _ C). }
    assert (∀ q, running q = running p → zsum counted (ws q) = zsum counted (ws p) →
      (release p = 1 → release q = 1) → zsum lost (ws q) = zsum lost (ws p) →
      ∃ d, running q = int32 (running p + d) ∧ goroutines q = goroutines p + d ∧
        (release p = 1 → release q = 1) ∧
        (release q = 1 ∨ zsum lost (ws q) = zsum lost (ws p))) as K.
    { intros q K1 K2 K3 K4. exists 0. unfold goroutines. rewrite K1, K2. split_and!; auto. lia. }
    destruct a as [t|size| |now|i c|w b now wake]; simpl in H.
    - step_cases; subst. by apply K.
    - step_cases; subst. unfold Tune. case_if; by apply K.
    - step_cases; subst. unfold Release. destruct (once p); by apply K.
    - apply bind_Some in H as (q & H & H0). step_cases; subst.
      unfold periodicallyPurge in H. destruct (release p =? 1); step_cases; subst; [by apply K|].
      pose proof (sum_stop_all counted _ _ _ (λ c r x, eq_refl) H) as S1.
      pose proof (sum_stop_all lost _ _ _ (λ c r x, eq_refl) H) as S2.
      apply stop_all_spec in H as (_ & _ & _ & F1 & F2 & F3 & _). apply K; simpl; congruence.
    - destruct (call_tick _ _ _ _ _ C H) as (d & ?). exists d. tauto.
    - destruct (worker_tick _ _ _ _ _ _ _ C H) as (d & ?). exists d. tauto. }
  split; [done| |].
  - rewrite E1, E2, (cinv_running _ C). apply int32_add.
  - destruct (cinv_lost _ C) as [?|Hz]; [auto|]. destruct E4; [auto|]. right. congruence.
Qed.

Lemma run_cinv acts p os p' : cinv p → run acts p = Some (os, p') → cinv p'.
Proof.
  revert p os. induction acts as [|a acts IH]; simpl; intros p os I H.
  - by injection H as <- <-.
  - step_cases; subst. eauto using step_cinv.
Qed.
End goroutines.

(** ** The capacity *)

Section capacity.
Context {T : Type}.
Implicit Types (p : workerPool T).

(** A predicate of every state along a run. *)
Fixpoint along (P : workerPool T → Prop) (acts : list (action T)) p : Prop :=
  P p ∧ match acts with
        | [] => True
        | a :: acts' => match step a p with Some (_, p1) => along P acts' p1 | None => True end
        end.

Fixpoint alongb (P : workerPool T → bool) (acts : list (action T)) p : bool :=
  P p && match acts with
         | [] => true
         | a :: acts' => match step a p with Some (_, p1) => alongb P acts' p1 | None => true end
         end.
Lemma along_bool (P : workerPool T → Prop) (Pb : workerPool T → bool) acts p :
  (∀ p, Pb p = true → P p) → alongb Pb acts p = true → along P acts p.
Proof.
  intros H. revert p. induction acts as [|a acts IH]; simpl; intros p [Hp Ha]%andb_true_iff.
  - split; [by apply H|done].
  - split; [by apply H|]. destruct (step a p) as [[o p1]|]; [by apply IH|done].
Qed.

Definition untuned (a : action T) : Prop := match a with ATune _ => False | _ => True end.

Lemma spawning_goto p i k k' : calls p !! i = Some k →
  spawning (goto p i k') = spawning p - spawns k + spawns k'.
Proof. intros H. unfold spawning. simpl. rewrite (zsum_insert _ _ _ _ _ H). lia. Qed.
Lemma spawning_finish p i k : calls p !! i = Some k →
  spawning (finish p i) = spawning p - spawns k.
Proof. intros H. unfold spawning. simpl. rewrite (zsum_delete _ _ _ _ H). lia. Qed.

(** A call adds to the goroutines and the spawning calls together only by the
    look at the capacity. *)
Lemma call_spawning p i c o p' : cinv p → step_call p i c = Some (o, p') →
  capacity p' = capacity p ∧
  (goroutines p' + spawning p' = goroutines p + spawning p ∨
   running p < capacity p ∧ goroutines p' = goroutines p).
Proof.
  intros C H. unfold step_call in H. apply bind_Some in H as (k & Hk & H).
  destruct k as [t|size|t more|t more|t more|t more|w t more|w t more|].
  - destruct (release p =? 1); step_cases; subst; (split; [done|]); left;
      rewrite ?(spawning_finish _ _ _ Hk), ?(spawning_goto _ _ _ _ Hk); unfold goroutines; simpl; lia.
  - step_cases; subst. case_if; (split; [done|]); left;
      rewrite ?(spawning_finish _ _ _ Hk), ?(spawning_goto _ _ _ _ Hk); unfold goroutines; simpl; lia.
  - destruct (list.last (workers p)) eqn:L; step_cases; subst.
    + split; [done|]. left. rewrite (spawning_goto (set_workers p _) _ _ _ Hk).
      unfold goroutines, spawning. simpl. lia.
    + split; [done|]. unfold Running, Cap. destruct (running p <? capacity p) eqn:R; bdec; [by right|].
      left. rewrite (spawning_goto _ _ _ _ Hk). unfold goroutines. simpl. lia.
  - done.
  - destruct (list.last (workers p)) eqn:L; step_cases; subst; (split; [done|]); left.
    + rewrite (spawning_goto (set_workers p _) _ _ _ Hk). unfold goroutines, spawning. simpl. lia.
    + rewrite (spawning_goto _ _ _ _ Hk). unfold goroutines. simpl. lia.
  - destruct c as [j|]; step_cases; subst; (split; [done|]); left.
    + rewrite (spawning_goto (set_cache p _) _ _ _ Hk). unfold goroutines, spawning. simpl. lia.
    + rewrite (spawning_goto (set_ws p _) _ _ _ Hk). unfold goroutines, spawning. simpl.
      rewrite zsum_app. cbn. lia.
  - apply bind_Some in H as (x & E & H). step_cases; subst. split; [done|]. left.
    assert (pc x = WGone) as Px.
    { pose proof (spare_runs _ _ _ _ _ Hk). pose proof (cinv_pool _ C w) as I. unfold winv in I.
      rewrite E in I. destruct (pc x); intuition lia. }
    set (y := mkWorker _ _ _). rewrite (spawning_goto (set_worker (incRunning p) w y) _ _ _ Hk).
    unfold goroutines, spawning. simpl. rewrite (zsum_insert _ _ _ _ _ E). unfold counted at 2 3. simpl.
    rewrite Px. lia.
  - apply bind_Some in H as (p1 & S & H). step_cases; subst.
    pose proof (sum_send_task counted _ _ _ _ (λ c r x, eq_refl) S) as Es.
    apply send_task_spec in S as (x & c1 & _ & _ & _ & _ & ->). set (p1 := set_worker p w _) in *.
    destruct more; (split; [done|]); left; simpl;
      rewrite ?(spawning_finish p1 _ _ Hk), ?(spawning_goto p1 _ _ _ Hk);
      unfold goroutines, spawning in *; simpl in *; lia.
  - apply bind_Some in H as (p1 & S & H). step_cases; subst.
    pose proof (sum_stop_all counted _ _ _ (λ c r x, eq_refl) S) as Es.
    apply stop_all_spec in S as (_ & Ec & _ & _ & Ecap & _). split; [done|]. left.
    assert (calls (set_workers p1 []) !! i = Some KRelease) as Hk1 by (simpl; by rewrite Ec).
    rewrite (spawning_finish _ _ _ Hk1). unfold goroutines, spawning. simpl. rewrite Ec, Es. lia.
Qed.

Lemma worker_spawning p w b now wake o p' : step_worker p w b now wake = Some (o, p') →
  capacity p' = capacity p ∧ goroutines p' ≤ goroutines p ∧ spawning p' = spawning p.
Proof.
  intros H. unfold step_worker in H. apply bind_Some in H as (x & E & H).
  assert (∀ y, counted y ≤ counted x → goroutines (set_worker p w y) ≤ goroutines p) as K.
  { intros y Hy. unfold goroutines. simpl. rewrite (zsum_insert _ _ _ _ _ E). lia. }
  unfold counted in K. destruct (pc x) eqn:P; try done.
  - destruct (recv (task x)) as [[t|] c| |] eqn:R; try done; step_cases; subst; split_and!; try done;
      by apply K.
  - step_cases; subst. split_and!; try done. apply K. by destruct b.
  - step_cases; subst. split_and!; try done. apply K. simpl. by destruct (release p =? 1).
  - step_cases; subst. apply Signal_frame in H as (_ & _ & E2 & E3 & E4).
    split_and!; [done| |done]. unfold goroutines. rewrite E3. by apply K.
  - step_cases; subst. split_and!; try done. by apply K.
  - step_cases; subst. split_and!; try done. by apply K.
Qed.

Definition bounded (c M : Z) p : Prop :=
  cinv p ∧ capacity p = c ∧ goroutines p + spawning p ≤ c - 1 + M.

Lemma goroutines_nonneg p : 0 ≤ goroutines p.
Proof. apply zsum_nonneg. apply counted_nonneg. Qed.
Lemma spawning_nonneg p : 0 ≤ spawning p.
Proof. apply zsum_nonneg. intros k. destruct k; simpl; lia. Qed.

Lemma step_bounded c M a p o p' : 1 ≤ M → c + M ≤ 2147483648 → untuned a → spawning p' ≤ M →
  bounded c M p → step a p = Some (o, p') → bounded c M p'.
Proof.
  intros HM Hc Ha Hs (C & Ec & B) H. pose proof (step_cinv _ _ _ _ C H) as C'.
  pose proof (goroutines_nonneg p) as Gp. pose proof (spawning_nonneg p) as Sp.
  assert (running p = goroutines p) as Er.
  { rewrite (cinv_running _ C). apply int32_small. lia. }
  unfold bounded. destruct a as [t|size| |now|i ca|w b now wake]; simpl in H, Ha; try done.
  - step_cases; subst. split_and!; try done. unfold goroutines, spawning in *. simpl.
    rewrite zsum_app. simpl. lia.
  - step_cases; subst. unfold Release in *. destruct (once p); [done|]. split_and!; try done.
    unfold goroutines, spawning in *. simpl. rewrite zsum_app. simpl. lia.
  - apply bind_Some in H as (q & H & H0). step_cases; subst.
    unfold periodicallyPurge in H. destruct (release p =? 1); step_cases; subst; [done|].
    pose proof (sum_stop_all counted _ _ _ (λ c r x, eq_refl) H) as S1.
    apply stop_all_spec in H as (_ & F0 & _ & F1 & F2 & _).
    unfold goroutines, spawning in *. simpl in *. rewrite S1, F0. split_and!; [done|congruence|lia].
  - destruct (call_spawning _ _ _ _ _ C H) as [E1 [E2|[E2 E3]]]; (split_and!; [done|congruence|lia]).
  - destruct (worker_spawning _ _ _ _ _ _ _ H) as (E1 & E2 & E3). split_and!; [done|congruence|lia].
Qed.

Lemma run_bounded c M acts p os p' : 1 ≤ M → c + M ≤ 2147483648 → Forall untuned acts →
  along (λ p, spawning p ≤ M) acts p → bounded c M p → run acts p = Some (os, p') → bounded c M p'.
Proof.
  intros HM Hc. revert p os. induction acts as [|a acts IH]; simpl; intros p os F A B H.
  - by injection H as <- <-.
  - apply list.Forall_cons in F as [Fa F]. destruct A as [_ A]. step_cases; subst.
    rewrite H in A. eapply IH; [done|exact A| |done].
    eapply step_bounded; [done|done|done| |done|done]. by destruct acts; destruct A.
Qed.
End capacity.

(** ** The properties *)

Definition accepted {T} (os : list (outcome T)) : list T :=
  omap (λ o, match o with Accepted t => Some t | _ => None end) os.
Definition started {T} (os : list (outcome T)) : list T :=
  omap (λ o, match o with Started t => Some t | _ => None end) os.
(** The tasks that calls and channels hold. *)
Definition in_flight {T} (p : workerPool T) : list T :=
  omap call_task (calls p) ++ concat ((λ x, omap (λ o, o) (cbuf (task x))) <$> ws p).
Definition times {T} `{EqDecision T} (t : T) (l : list T) : Z :=
  zsum (λ x, if x =b t then 1 else 0) l.

Section counting.
Context {T : Type} `{EqDecision T}.

Lemma times_app (t : T) l k : times t (l ++ k) = times t l + times t k.
Proof. apply zsum_app. Qed.

Lemma zsum_weigh (t : T) (l : list (option T)) :
  zsum (weigh (λ x, if x =b t then 1 else 0)) l = times t (omap (λ o, o) l).
Proof. induction l as [|[x|] l IH]; [done| |done]. cbn [zsum weigh]. rewrite IH. reflexivity. Qed.

Lemma weight_times (t : T) p :
  weight (λ x, if x =b t then 1 else 0) p = times t (in_flight p).
Proof.
  unfold weight, in_flight. rewrite times_app. f_equal.
  - induction (calls p) as [|k l IH]; simpl; [done|]. rewrite IH. unfold call_weight.
    destruct (call_task k); reflexivity.
  - induction (ws p) as [|x l IH]; simpl; [done|]. rewrite IH, times_app. f_equal. apply zsum_weigh.
Qed.

Lemma out_times (t : T) os :
  zsum (out_weight (λ x, if x =b t then 1 else 0)) os = times t (accepted os) - times t (started os).
Proof.
  assert (∀ (o : outcome T) os, accepted (o :: os) = accepted [o] ++ accepted os ∧
    started (o :: os) = started [o] ++ started os) as K by (by intros []).
  induction os as [|o os IH]; [done|]. cbn [zsum]. rewrite IH.
  destruct (K o os) as [-> ->]. rewrite !times_app. destruct o; cbn; lia.
Qed.
End counting.

(** C19: In every interleaving of calls, workers, purges and releases, each task
    that Serve accepted has been started by a worker exactly as often as it was
    accepted, except while a call or a channel holds it; and a call that has a
    worker for its task never blocks, neither do the purge and Release, since no
    other party can have filled the worker's channel. *)
Theorem wp_tasks {T} `{EqDecision T} (size expiry : Z) (acts : list (action T))
    (os : list (outcome T)) (p : workerPool T)
    (Hr : run acts (NewWorkerPool size expiry) = Some (os, p)) :
  (∀ t, times t (accepted os) = times t (started os) + times t (in_flight p)) ∧
  (∀ i w t more c, calls p !! i = Some (KSend w t more) → is_Some (step (ACall i c) p)) ∧
  (∀ i c, calls p !! i = Some KRelease → is_Some (step (ACall i c) p)) ∧
  (∀ now, is_Some (step (APurge now) p)).
Proof.
  pose proof (run_pinv_all _ _ _ _ (New_pinv size expiry) Hr) as I.
  assert (∀ l k, workers p = l ++ k → ∃ p', stop_all l p = Some p') as K.
  { intros l k E. apply stop_all_ok; [done|]. intros w Hw. pose proof (held_parts p w) as Hp.
    specialize (I w). unfold winv, held in I. rewrite E, zsum_app in *.
    pose proof (zsum_elem (one w) l w (one_nonneg w) Hw) as L. rewrite one_refl in L.
    pose proof (zsum_nonneg (one w) k (one_nonneg w)).
    destruct (ws p !! w) as [x|]; [|lia]. split; [|done]. destruct (pc x); lia. }
  split_and!.
  - intros t. pose proof (run_weight (λ x, if x =b t then 1 else 0) _ _ _ _ Hr) as W.
    rewrite out_times, weight_times in W. unfold weight in W. simpl in W. lia.
  - intros i w t more c Hk. pose proof (held_sends _ _ _ _ _ Hk). pose proof (held_parts p w).
    destruct (send_task_ok p w t (I w)) as [p' Hp]; [lia|].
    simpl. unfold step_call. rewrite Hk. simpl. rewrite Hp. simpl. by eexists.
  - intros i c Hk. destruct (K (workers p) []) as [p' Hp]; [by rewrite app_nil_r|].
    simpl. unfold step_call. rewrite Hk. simpl. rewrite Hp. simpl. by eexists.
  - intros now. simpl. unfold periodicallyPurge. destruct (release p =? 1); [by eexists|].
    destruct (expired_prefix p now (workers p)) as (k & E & _).
    destruct (K _ _ E) as [p' Hp]. rewrite Hp. simpl. by eexists.
Qed.

(** Two tasks, one started and one in a worker's channel. *)
Lemma wp_tasks_witness :
  let acts := [AServe 1; AServe 2; ACall 0 None; ACall 1 None; ACall 0 None; ACall 0 None;
               ACall 0 None; ACall 0 None; AWorker 0 false 0 None; ACall 0 None; ACall 0 None;
               ACall 0 None; ACall 0 None] in
  ∃ os p, run acts (NewWorkerPool 4 5) = Some (os, p) ∧ started os = [1] ∧ in_flight p = [2] ∧
    times 2 (accepted os) = times 2 (started os) + times 2 (in_flight p).
Proof.
  intros acts. destruct (run acts (NewWorkerPool 4 5)) as [[os p]|] eqn:Hr; [|by vm_compute in Hr].
  pose proof (proj1 (wp_tasks 4 5 acts os p Hr) 2) as E. exists os, p.
  split; [done|]. split; [by vm_compute in Hr; injection Hr as <- <-|].
  split; [by vm_compute in Hr; injection Hr as <- <-|exact E].
Defined.

(** The counter of running goroutines is right: in every reachable state it
    is, in 32 bits, the number of worker goroutines that are alive, plus those
    that ended after Release without counting down; before Release there are
    none of these. *)
Theorem wp_running {T} (size expiry : Z) (acts : list (action T)) (os : list (outcome T))
    (p : workerPool T) (Hr : run acts (NewWorkerPool size expiry) = Some (os, p)) :
  Running p = int32 (goroutines p) ∧ (release p = 1 ∨ zsum lost (ws p) = 0).
Proof.
  pose proof (run_cinv _ _ _ _ (New_cinv size expiry) Hr) as C. destruct C. done.
Qed.

(** A worker that finishes its task after Release is counted for ever. *)
Lemma wp_running_witness :
  let acts := [AServe 1; ACall 0 None; ACall 0 None; ACall 0 None; ACall 0 None; ACall 0 None;
               AWorker 0 false 0 None; ARelease; ACall 0 None; AWorker 0 false 0 None;
               AWorker 0 false 0 None] in
  ∃ os p, run acts (NewWorkerPool 4 5) = Some (os, p) ∧ Running p = 1 ∧ zsum lost (ws p) = 1 ∧
    Running p = int32 (goroutines p).
Proof.
  intros acts. destruct (run acts (NewWorkerPool 4 5)) as [[os p]|] eqn:Hr; [|by vm_compute in Hr].
  pose proof (proj1 (wp_running 4 5 acts os p Hr)) as E. exists os, p.
  split; [done|]. split; [by vm_compute in Hr; injection Hr as <- <-|].
  split; [by vm_compute in Hr; injection Hr as <- <-|exact E].
Defined.

(** As long as at most [M] calls are past the look at the capacity and not
    yet counted at any one time, and Tune is not used, the number of goroutines
    stays below the capacity plus [M]; so calls that do not overlap keep to the
    capacity. *)
Theorem wp_bound {T} (size expiry M : Z) (acts : list (action T)) (os : list (outcome T))
    (p : workerPool T) (Hsize : 0 < size) (HM : 1 ≤ M) (Hmax : size + M ≤ 2147483648)
    (Ht : Forall untuned acts)
    (Ha : along (λ p, spawning p ≤ M) acts (NewWorkerPool size expiry))
    (Hr : run acts (NewWorkerPool size expiry) = Some (os, p)) :
  goroutines p ≤ Cap p + M - 1 ∧ Running p = goroutines p ∧ Cap p = size.
Proof.
  assert (capacity (@NewWorkerPool T size expiry) = size) as Ec.
  { simpl. rewrite (proj2 (Z.leb_gt size 0)) by lia. apply int32_small. lia. }
  destruct (run_bounded size M acts (NewWorkerPool size expiry) os p HM Hmax Ht Ha) as (C & E & B); [|done|].
  - split_and!; [apply New_cinv|done|]. unfold goroutines, spawning. simpl. lia.
  - pose proof (spawning_nonneg p). pose proof (goroutines_nonneg p). unfold Cap, Running.
    split_and!; [lia| |done]. rewrite (cinv_running _ C). apply int32_small. lia.
Qed.

(** Two calls that overlap start two goroutines in a pool of capacity one. *)
Lemma wp_bound_witness :
  let acts := [AServe 1; AServe 2; ACall 0 None; ACall 1 None; ACall 0 None; ACall 1 None;
               ACall 0 None; ACall 1 None; ACall 0 None; ACall 1 None] in
  ∃ os p, run acts (NewWorkerPool 1 5) = Some (os, p) ∧ Running p = 2 ∧ Cap p = 1 ∧
    goroutines p ≤ Cap p + 2 - 1.
Proof.
  intros acts. destruct (run acts (NewWorkerPool 1 5)) as [[os p]|] eqn:Hr; [|by vm_compute in Hr].
  exists os, p. split; [done|]. split; [by vm_compute in Hr; injection Hr as <- <-|].
  split; [by vm_compute in Hr; injection Hr as <- <-|].
  refine (proj1 (wp_bound 1 5 2 acts os p _ _ _ _ _ Hr)); [lia|lia|lia|by repeat constructor|].
  apply (along_bool _ (λ p, spawning p <=? 2)); [intros q; apply Z.leb_le|]. vm_compute. reflexivity.
Defined.

(** A call that waits can be left behind.  In a pool of capacity one, while
    a task runs a second Serve waits; the task panics, its worker counts down and
    leaves without a signal; then no goroutine is left, the pool has room, and
    yet no step of the pool can ever wake the waiting call until another call
    comes. *)
Theorem wp_stranded {T} (t1 t2 : T) :
  ∃ acts os p, run acts (NewWorkerPool 1 5) = Some (os, p) ∧
    accepted os = [t1; t2] ∧ started os = [t1] ∧ Running p = 0 ∧ Running p < Cap p ∧
    calls p = [KWait (Some t2) 0] ∧
    (∀ i c, step (ACall i c) p = None) ∧ (∀ w b now wake, step (AWorker w b now wake) p = None) ∧
    (∀ now, step (APurge now) p = Some (Silent, p)).
Proof.
  exists [AServe t1; ACall 0 None; ACall 0 None; ACall 0 None; ACall 0 None; ACall 0 None;
    AWorker 0 true 0 None; AServe t2; ACall 0 None; ACall 0 None; AWorker 0 true 0 None;
    AWorker 0 true 0 None; AWorker 0 true 0 None].
  exists [Silent; Accepted t1; Silent; Silent; Silent; Silent; Started t1; Silent; Accepted t2;
    Silent; Silent; Silent; Silent].
  exists (mkPool 1 0 0 5000000000 [] false [0%nat] [mkWorker (make_chan 1) 0 WGone] [KWait (Some t2) 0]).
  split; [vm_compute; reflexivity|]. split_and!; try reflexivity.
  - intros [|[|i]] c; reflexivity.
  - intros [|[|w]] b now wake; reflexivity.
Qed.
