(* ===== verification/Proxy.v ===== *)
(** * The proxy: a request and its response

    src/pkg/filter/network/proxy: downstream.go, upstream.go, streamfilter.go and
    the parts of proxy.go and event.go that a stream uses.  A stream is a
    downStream and the upstreamRequest allocated with it in one recycled buffer.
    The stream layers call it (OnReceive, OnResetStream, ... and, for the
    response, the methods of upstreamRequest); most of these calls offer a job to
    the shard of their direction, where it runs later (ShardPool.v).

    [state] holds both structs, the jobs of the two directions and the trace of
    what the stream did to its surroundings.  A method is a function in the monad
    of Prelude.v; its error is a nil dereference, after which the state stays as
    it is (the worker is respawned).  A pointer or interface the stream only
    tests for nil is a [bool].  Giving the buffers back zeroes both structs, as
    proxyBufferCtx.Reset does: later jobs find them so.  That another stream may
    use the memory by then is not modelled, nor that a hijack marks the headers
    it is given in place.

    A filter answers a callback with the calls it makes on its handler and a
    status; ContinueReceiving is an input of its own, made between jobs (on a
    stream that was given back it is counted as a nil dereference; in the code it
    is one, or without effect when the filter had continued before).  What
    ConnectionPool.NewStream does (calling OnReady, OnFailure, or neither) is a
    parameter.  A job runs to its end before the next one.

    The theorems: a request is forwarded and its response sent back, piece by
    piece, and the buffers are given back; whatever happens a stream is removed
    from the proxy, destroyed and given back at most once; the response of a
    request without trailers is ended at most once; and three cases in which the
    code dereferences nil or sends after the end. *)
From S2P Require Import Prelude.

(** types/exception.go *)
Definition CodecExceptionCode : Z := 0.
Definition UnknownCode : Z := 2.
Definition DeserialExceptionCode : Z := 3.
Definition NoHealthUpstreamCode : Z := 502.
Definition UpstreamOverFlowCode : Z := 503.

(** streamfilter.go: the stages, numbered from 0. *)
Definition DecodeHeaders : Z := 0.
Definition DecodeData : Z := 1.
Definition DecodeTrailers : Z := 2.
Definition EncodeHeaders : Z := 3.
Definition EncodeData : Z := 4.
Definition EncodeTrailers : Z := 5.

Record Timeout : Type := mkTimeout { GlobalTimeout : Z; TryTimeout : Z }.

Inductive codecError : Type := CodecException | DeserializeException | OtherError.
Inductive poolFailure : Type := Overflow | ConnectionFailure | NoFailureReason.
Inductive resetReason : Type :=
| StreamLocalReset | StreamOverflow | StreamConnectionFailed | NoReason.

Inductive panic : Type := NilDereference.

(** [Continue] or [Stop] of a filter. *)
Inductive status : Type := Continue | Stop.

Section proxy.
(** protocol.HeaderMap, with the status it is given by a hijack and the empty
    map. *)
Context {H : Type} (set_status : Z → H → H) (no_headers : H).

(** ** Filters *)

Inductive filterOp : Type :=
| FAppendHeaders (h : option H) (endStream : bool)
| FAppendData (d : bytes) (endStream : bool)
| FAppendTrailers (t : option H)
| FSendHijackReply (code : Z) (h : option H) (doConv : bool).

Record receiverFilter : Type := mkFilter {
  OnReceiveHeadersF : option H → bool → list filterOp * status;
  OnReceiveTrailersF : option H → list filterOp * status
}.

(** activeStreamReceiverFilter *)
Record activeFilter : Type := mkActive {
  index : nat; stopped : bool; stoppedNoBuf : bool; headersContinued : bool;
  filter : receiverFilter
}.

(** ** The structs *)

Record downStream : Type := mkDownStream {
  ID : Z;
  hasProxy : bool;
  element : bool;
  bufferLimit : Z;
  timeout : option Timeout;
  responseSender : bool;
  hasUpstreamRequest : bool;
  perRetryTimer : bool;
  responseTimer : bool;
  downstreamReqHeaders : option H;
  downstreamReqDataBuf : option bytes;
  downstreamReqTrailers : option H;
  downstreamRespHeaders : option H;
  downstreamRespDataBuf : option bytes;
  downstreamRespTrailers : option H;
  downstreamResponseStarted : bool;
  downstreamRecvDone : bool;
  upstreamRequestSent : bool;
  upstreamProcessDone : bool;
  filterStage : Z;
  downstreamReset : bool;
  downstreamCleaned : bool;
  upstreamReset : bool;
  reuseBuffer : bool;
  receiverFilters : list activeFilter;
  hasContext : bool
}.

Record upstreamRequest : Type := mkRequest {
  hasDownStream : bool;
  requestSender : bool;
  sendComplete : bool;
  dataSent : bool;
  trailerSent : bool;
  setupRetry : bool
}.

(** What a stream does to the response, to the request upstream, to its filters,
    the proxy and the pools. *)
Inductive effect : Type :=
| ERespHeaders (h : option H) (endStream : bool)
| ERespData (d : option bytes) (endStream : bool)
| ERespTrailers (t : option H)
| EReqHeaders (h : option H) (endStream : bool)
| EReqData (d : option bytes) (endStream : bool)
| EReqTrailers (t : option H)
| ENewStream | EResetRequest | EResetResponse
| EDestroy (i : nat) | EDelete | EPutIoBuffer | EGive.

(** The jobs: of the downstream shard, then of the upstream shard. *)
Inductive job : Type :=
| JReceive | JReceiveHeaders (h : option H) (e : bool) | JReceiveData (e : bool)
| JReceiveTrailers (t : option H) | JReset
| JUpReceive | JUpReceiveHeaders (h : option H) (e : bool) | JUpReceiveData (e : bool)
| JUpReceiveTrailers (t : option H) | JUpReset.

Record state : Type := mkState {
  ds : downStream;
  rq : upstreamRequest;
  downJobs : list job;
  upJobs : list job;
  trace : list effect
}.

Definition set_ID (x : Z) (s : downStream) : downStream :=
  mkDownStream x (hasProxy s) (element s) (bufferLimit s) (timeout s) (responseSender s) (hasUpstreamRequest s) (perRetryTimer s) (responseTimer s) (downstreamReqHeaders s) (downstreamReqDataBuf s) (downstreamReqTrailers s) (downstreamRespHeaders s) (downstreamRespDataBuf s) (downstreamRespTrailers s) (downstreamResponseStarted s) (downstreamRecvDone s) (upstreamRequestSent s) (upstreamProcessDone s) (filterStage s) (downstreamReset s) (downstreamCleaned s) (upstreamReset s) (reuseBuffer s) (receiverFilters s) (hasContext s).
Definition set_hasProxy (x : bool) (s : downStream) : downStream :=
  mkDownStream (ID s) x (element s) (bufferLimit s) (timeout s) (responseSender s) (hasUpstreamRequest s) (perRetryTimer s) (responseTimer s) (downstreamReqHeaders s) (downstreamReqDataBuf s) (downstreamReqTrailers s) (downstreamRespHeaders s) (downstreamRespDataBuf s) (downstreamRespTrailers s) (downstreamResponseStarted s) (downstreamRecvDone s) (upstreamRequestSent s) (upstreamProcessDone s) (filterStage s) (downstreamReset s) (downstreamCleaned s) (upstreamReset s) (reuseBuffer s) (receiverFilters s) (hasContext s).
Definition set_element (x : bool) (s : downStream) : downStream :=
  mkDownStream (ID s) (hasProxy s) x (bufferLimit s) (timeout s) (responseSender s) (hasUpstreamRequest s) (perRetryTimer s) (responseTimer s) (downstreamReqHeaders s) (downstreamReqDataBuf s) (downstreamReqTrailers s) (downstreamRespHeaders s) (downstreamRespDataBuf s) (downstreamRespTrailers s) (downstreamResponseStarted s) (downstreamRecvDone s) (upstreamRequestSent s) (upstreamProcessDone s) (filterStage s) (downstreamReset s) (downstreamCleaned s) (upstreamReset s) (reuseBuffer s) (receiverFilters s) (hasContext s).
Definition set_bufferLimit (x : Z) (s : downStream) : downStream :=
  mkDownStream (ID s) (hasProxy s) (element s) x (timeout s) (responseSender s) (hasUpstreamRequest s) (perRetryTimer s) (responseTimer s) (downstreamReqHeaders s) (downstreamReqDataBuf s) (downstreamReqTrailers s) (downstreamRespHeaders s) (downstreamRespDataBuf s) (downstreamRespTrailers s) (downstreamResponseStarted s) (downstreamRecvDone s) (upstreamRequestSent s) (upstreamProcessDone s) (filterStage s) (downstreamReset s) (downstreamCleaned s) (upstreamReset s) (reuseBuffer s) (receiverFilters s) (hasContext s).
Definition set_timeout (x : option Timeout) (s : downStream) : downStream :=
  mkDownStream (ID s) (hasProxy s) (element s) (bufferLimit s) x (responseSender s) (hasUpstreamRequest s) (perRetryTimer s) (responseTimer s) (downstreamReqHeaders s) (downstreamReqDataBuf s) (downstreamReqTrailers s) (downstreamRespHeaders s) (downstreamRespDataBuf s) (downstreamRespTrailers s) (downstreamResponseStarted s) (downstreamRecvDone s) (upstreamRequestSent s) (upstreamProcessDone s) (filterStage s) (downstreamReset s) (downstreamCleaned s) (upstreamReset s) (reuseBuffer s) (receiverFilters s) (hasContext s).
Definition set_responseSender (x : bool) (s : downStream) : downStream :=
  mkDownStream (ID s) (hasProxy s) (element s) (bufferLimit s) (timeout s) x (hasUpstreamRequest s) (perRetryTimer s) (responseTimer s) (downstreamReqHeaders s) (downstreamReqDataBuf s) (downstreamReqTrailers s) (downstreamRespHeaders s) (downstreamRespDataBuf s) (downstreamRespTrailers s) (downstreamResponseStarted s) (downstreamRecvDone s) (upstreamRequestSent s) (upstreamProcessDone s) (filterStage s) (downstreamReset s) (downstreamCleaned s) (upstreamReset s) (reuseBuffer s) (receiverFilters s) (hasContext s).
Definition set_hasUpstreamRequest (x : bool) (s : downStream) : downStream :=
  mkDownStream (ID s) (hasProxy s) (element s) (bufferLimit s) (timeout s) (responseSender s) x (perRetryTimer s) (responseTimer s) (downstreamReqHeaders s) (downstreamReqDataBuf s) (downstreamReqTrailers s) (downstreamRespHeaders s) (downstreamRespDataBuf s) (downstreamRespTrailers s) (downstreamResponseStarted s) (downstreamRecvDone s) (upstreamRequestSent s) (upstreamProcessDone s) (filterStage s) (downstreamReset s) (downstreamCleaned s) (upstreamReset s) (reuseBuffer s) (receiverFilters s) (hasContext s).
Definition set_perRetryTimer (x : bool) (s : downStream) : downStream :=
  mkDownStream (ID s) (hasProxy s) (element s) (bufferLimit s) (timeout s) (responseSender s) (hasUpstreamRequest s) x (responseTimer s) (downstreamReqHeaders s) (downstreamReqDataBuf s) (downstreamReqTrailers s) (downstreamRespHeaders s) (downstreamRespDataBuf s) (downstreamRespTrailers s) (downstreamResponseStarted s) (downstreamRecvDone s) (upstreamRequestSent s) (upstreamProcessDone s) (filterStage s) (downstreamReset s) (downstreamCleaned s) (upstreamReset s) (reuseBuffer s) (receiverFilters s) (hasContext s).
Definition set_responseTimer (x : bool) (s : downStream) : downStream :=
  mkDownStream (ID s) (hasProxy s) (element s) (bufferLimit s) (timeout s) (responseSender s) (hasUpstreamRequest s) (perRetryTimer s) x (downstreamReqHeaders s) (downstreamReqDataBuf s) (downstreamReqTrailers s) (downstreamRespHeaders s) (downstreamRespDataBuf s) (downstreamRespTrailers s) (downstreamResponseStarted s) (downstreamRecvDone s) (upstreamRequestSent s) (upstreamProcessDone s) (filterStage s) (downstreamReset s) (downstreamCleaned s) (upstreamReset s) (reuseBuffer s) (receiverFilters s) (hasContext s).
Definition set_downstreamReqHeaders (x : option H) (s : downStream) : downStream :=
  mkDownStream (ID s) (hasProxy s) (element s) (bufferLimit s) (timeout s) (responseSender s) (hasUpstreamRequest s) (perRetryTimer s) (responseTimer s) x (downstreamReqDataBuf s) (downstreamReqTrailers s) (downstreamRespHeaders s) (downstreamRespDataBuf s) (downstreamRespTrailers s) (downstreamResponseStarted s) (downstreamRecvDone s) (upstreamRequestSent s) (upstreamProcessDone s) (filterStage s) (downstreamReset s) (downstreamCleaned s) (upstreamReset s) (reuseBuffer s) (receiverFilters s) (hasContext s).
Definition set_downstreamReqDataBuf (x : option bytes) (s : downStream) : downStream :=
  mkDownStream (ID s) (hasProxy s) (element s) (bufferLimit s) (timeout s) (responseSender s) (hasUpstreamRequest s) (perRetryTimer s) (responseTimer s) (downstreamReqHeaders s) x (downstreamReqTrailers s) (downstreamRespHeaders s) (downstreamRespDataBuf s) (downstreamRespTrailers s) (downstreamResponseStarted s) (downstreamRecvDone s) (upstreamRequestSent s) (upstreamProcessDone s) (filterStage s) (downstreamReset s) (downstreamCleaned s) (upstreamReset s) (reuseBuffer s) (receiverFilters s) (hasContext s).
Definition set_downstreamReqTrailers (x : option H) (s : downStream) : downStream :=
  mkDownStream (ID s) (hasProxy s) (element s) (bufferLimit s) (timeout s) (responseSender s) (hasUpstreamRequest s) (perRetryTimer s) (responseTimer s) (downstreamReqHeaders s) (downstreamReqDataBuf s) x (downstreamRespHeaders s) (downstreamRespDataBuf s) (downstreamRespTrailers s) (downstreamResponseStarted s) (downstreamRecvDone s) (upstreamRequestSent s) (upstreamProcessDone s) (filterStage s) (downstreamReset s) (downstreamCleaned s) (upstreamReset s) (reuseBuffer s) (receiverFilters s) (hasContext s).
Definition set_downstreamRespHeaders (x : option H) (s : downStream) : downStream :=
  mkDownStream (ID s) (hasProxy s) (element s) (bufferLimit s) (timeout s) (responseSender s) (hasUpstreamRequest s) (perRetryTimer s) (responseTimer s) (downstreamReqHeaders s) (downstreamReqDataBuf s) (downstreamReqTrailers s) x (downstreamRespDataBuf s) (downstreamRespTrailers s) (downstreamResponseStarted s) (downstreamRecvDone s) (upstreamRequestSent s) (upstreamProcessDone s) (filterStage s) (downstreamReset s) (downstreamCleaned s) (upstreamReset s) (reuseBuffer s) (receiverFilters s) (hasContext s).
Definition set_downstreamRespDataBuf (x : option bytes) (s : downStream) : downStream :=
  mkDownStream (ID s) (hasProxy s) (element s) (bufferLimit s) (timeout s) (responseSender s) (hasUpstreamRequest s) (perRetryTimer s) (responseTimer s) (downstreamReqHeaders s) (downstreamReqDataBuf s) (downstreamReqTrailers s) (downstreamRespHeaders s) x (downstreamRespTrailers s) (downstreamResponseStarted s) (downstreamRecvDone s) (upstreamRequestSent s) (upstreamProcessDone s) (filterStage s) (downstreamReset s) (downstreamCleaned s) (upstreamReset s) (reuseBuffer s) (receiverFilters s) (hasContext s).
Definition set_downstreamRespTrailers (x : option H) (s : downStream) : downStream :=
  mkDownStream (ID s) (hasProxy s) (element s) (bufferLimit s) (timeout s) (responseSender s) (hasUpstreamRequest s) (perRetryTimer s) (responseTimer s) (downstreamReqHeaders s) (downstreamReqDataBuf s) (downstreamReqTrailers s) (downstreamRespHeaders s) (downstreamRespDataBuf s) x (downstreamResponseStarted s) (downstreamRecvDone s) (upstreamRequestSent s) (upstreamProcessDone s) (filterStage s) (downstreamReset s) (downstreamCleaned s) (upstreamReset s) (reuseBuffer s) (receiverFilters s) (hasContext s).
Definition set_downstreamResponseStarted (x : bool) (s : downStream) : downStream :=
  mkDownStream (ID s) (hasProxy s) (element s) (bufferLimit s) (timeout s) (responseSender s) (hasUpstreamRequest s) (perRetryTimer s) (responseTimer s) (downstreamReqHeaders s) (downstreamReqDataBuf s) (downstreamReqTrailers s) (downstreamRespHeaders s) (downstreamRespDataBuf s) (downstreamRespTrailers s) x (downstreamRecvDone s) (upstreamRequestSent s) (upstreamProcessDone s) (filterStage s) (downstreamReset s) (downstreamCleaned s) (upstreamReset s) (reuseBuffer s) (receiverFilters s) (hasContext s).
Definition set_downstreamRecvDone (x : bool) (s : downStream) : downStream :=
  mkDownStream (ID s) (hasProxy s) (element s) (bufferLimit s) (timeout s) (responseSender s) (hasUpstreamRequest s) (perRetryTimer s) (responseTimer s) (downstreamReqHeaders s) (downstreamReqDataBuf s) (downstreamReqTrailers s) (downstreamRespHeaders s) (downstreamRespDataBuf s) (downstreamRespTrailers s) (downstreamResponseStarted s) x (upstreamRequestSent s) (upstreamProcessDone s) (filterStage s) (downstreamReset s) (downstreamCleaned s) (upstreamReset s) (reuseBuffer s) (receiverFilters s) (hasContext s).
Definition set_upstreamRequestSent (x : bool) (s : downStream) : downStream :=
  mkDownStream (ID s) (hasProxy s) (element s) (bufferLimit s) (timeout s) (responseSender s) (hasUpstreamRequest s) (perRetryTimer s) (responseTimer s) (downstreamReqHeaders s) (downstreamReqDataBuf s) (downstreamReqTrailers s) (downstreamRespHeaders s) (downstreamRespDataBuf s) (downstreamRespTrailers s) (downstreamResponseStarted s) (downstreamRecvDone s) x (upstreamProcessDone s) (filterStage s) (downstreamReset s) (downstreamCleaned s) (upstreamReset s) (reuseBuffer s) (receiverFilters s) (hasContext s).
Definition set_upstreamProcessDone (x : bool) (s : downStream) : downStream :=
  mkDownStream (ID s) (hasProxy s) (element s) (bufferLimit s) (timeout s) (responseSender s) (hasUpstreamRequest s) (perRetryTimer s) (responseTimer s) (downstreamReqHeaders s) (downstreamReqDataBuf s) (downstreamReqTrailers s) (downstreamRespHeaders s) (downstreamRespDataBuf s) (downstreamRespTrailers s) (downstreamResponseStarted s) (downstreamRecvDone s) (upstreamRequestSent s) x (filterStage s) (downstreamReset s) (downstreamCleaned s) (upstreamReset s) (reuseBuffer s) (receiverFilters s) (hasContext s).
Definition set_filterStage (x : Z) (s : downStream) : downStream :=
  mkDownStream (ID s) (hasProxy s) (element s) (bufferLimit s) (timeout s) (responseSender s) (hasUpstreamRequest s) (perRetryTimer s) (responseTimer s) (downstreamReqHeaders s) (downstreamReqDataBuf s) (downstreamReqTrailers s) (downstreamRespHeaders s) (downstreamRespDataBuf s) (downstreamRespTrailers s) (downstreamResponseStarted s) (downstreamRecvDone s) (upstreamRequestSent s) (upstreamProcessDone s) x (downstreamReset s) (downstreamCleaned s) (upstreamReset s) (reuseBuffer s) (receiverFilters s) (hasContext s).
Definition set_downstreamReset (x : bool) (s : downStream) : downStream :=
  mkDownStream (ID s) (hasProxy s) (element s) (bufferLimit s) (timeout s) (responseSender s) (hasUpstreamRequest s) (perRetryTimer s) (responseTimer s) (downstreamReqHeaders s) (downstreamReqDataBuf s) (downstreamReqTrailers s) (downstreamRespHeaders s) (downstreamRespDataBuf s) (downstreamRespTrailers s) (downstreamResponseStarted s) (downstreamRecvDone s) (upstreamRequestSent s) (upstreamProcessDone s) (filterStage s) x (downstreamCleaned s) (upstreamReset s) (reuseBuffer s) (receiverFilters s) (hasContext s).
Definition set_downstreamCleaned (x : bool) (s : downStream) : downStream :=
  mkDownStream (ID s) (hasProxy s) (element s) (bufferLimit s) (timeout s) (responseSender s) (hasUpstreamRequest s) (perRetryTimer s) (responseTimer s) (downstreamReqHeaders s) (downstreamReqDataBuf s) (downstreamReqTrailers s) (downstreamRespHeaders s) (downstreamRespDataBuf s) (downstreamRespTrailers s) (downstreamResponseStarted s) (downstreamRecvDone s) (upstreamRequestSent s) (upstreamProcessDone s) (filterStage s) (downstreamReset s) x (upstreamReset s) (reuseBuffer s) (receiverFilters s) (hasContext s).
Definition set_upstreamReset (x : bool) (s : downStream) : downStream :=
  mkDownStream (ID s) (hasProxy s) (element s) (bufferLimit s) (timeout s) (responseSender s) (hasUpstreamRequest s) (perRetryTimer s) (responseTimer s) (downstreamReqHeaders s) (downstreamReqDataBuf s) (downstreamReqTrailers s) (downstreamRespHeaders s) (downstreamRespDataBuf s) (downstreamRespTrailers s) (downstreamResponseStarted s) (downstreamRecvDone s) (upstreamRequestSent s) (upstreamProcessDone s) (filterStage s) (downstreamReset s) (downstreamCleaned s) x (reuseBuffer s) (receiverFilters s) (hasContext s).
Definition set_reuseBuffer (x : bool) (s : downStream) : downStream :=
  mkDownStream (ID s) (hasProxy s) (element s) (bufferLimit s) (timeout s) (responseSender s) (hasUpstreamRequest s) (perRetryTimer s) (responseTimer s) (downstreamReqHeaders s) (downstreamReqDataBuf s) (downstreamReqTrailers s) (downstreamRespHeaders s) (downstreamRespDataBuf s) (downstreamRespTrailers s) (downstreamResponseStarted s) (downstreamRecvDone s) (upstreamRequestSent s) (upstreamProcessDone s) (filterStage s) (downstreamReset s) (downstreamCleaned s) (upstreamReset s) x (receiverFilters s) (hasContext s).
Definition set_receiverFilters (x : list activeFilter) (s : downStream) : downStream :=
  mkDownStream (ID s) (hasProxy s) (element s) (bufferLimit s) (timeout s) (responseSender s) (hasUpstreamRequest s) (perRetryTimer s) (responseTimer s) (downstreamReqHeaders s) (downstreamReqDataBuf s) (downstreamReqTrailers s) (downstreamRespHeaders s) (downstreamRespDataBuf s) (downstreamRespTrailers s) (downstreamResponseStarted s) (downstreamRecvDone s) (upstreamRequestSent s) (upstreamProcessDone s) (filterStage s) (downstreamReset s) (downstreamCleaned s) (upstreamReset s) (reuseBuffer s) x (hasContext s).
Definition set_hasContext (x : bool) (s : downStream) : downStream :=
  mkDownStream (ID s) (hasProxy s) (element s) (bufferLimit s) (timeout s) (responseSender s) (hasUpstreamRequest s) (perRetryTimer s) (responseTimer s) (downstreamReqHeaders s) (downstreamReqDataBuf s) (downstreamReqTrailers s) (downstreamRespHeaders s) (downstreamRespDataBuf s) (downstreamRespTrailers s) (downstreamResponseStarted s) (downstreamRecvDone s) (upstreamRequestSent s) (upstreamProcessDone s) (filterStage s) (downstreamReset s) (downstreamCleaned s) (upstreamReset s) (reuseBuffer s) (receiverFilters s) x.

Definition set_hasDownStream (x : bool) (r : upstreamRequest) : upstreamRequest :=
  mkRequest x (requestSender r) (sendComplete r) (dataSent r) (trailerSent r) (setupRetry r).
Definition set_requestSender (x : bool) (r : upstreamRequest) : upstreamRequest :=
  mkRequest (hasDownStream r) x (sendComplete r) (dataSent r) (trailerSent r) (setupRetry r).
Definition set_sendComplete (x : bool) (r : upstreamRequest) : upstreamRequest :=
  mkRequest (hasDownStream r) (requestSender r) x (dataSent r) (trailerSent r) (setupRetry r).
Definition set_dataSent (x : bool) (r : upstreamRequest) : upstreamRequest :=
  mkRequest (hasDownStream r) (requestSender r) (sendComplete r) x (trailerSent r) (setupRetry r).
Definition set_trailerSent (x : bool) (r : upstreamRequest) : upstreamRequest :=
  mkRequest (hasDownStream r) (requestSender r) (sendComplete r) (dataSent r) x (setupRetry r).
Definition set_setupRetry (x : bool) (r : upstreamRequest) : upstreamRequest :=
  mkRequest (hasDownStream r) (requestSender r) (sendComplete r) (dataSent r) (trailerSent r) x.

Definition set_ds (x : downStream) (st : state) : state :=
  mkState x (rq st) (downJobs st) (upJobs st) (trace st).
Definition set_rq (x : upstreamRequest) (st : state) : state :=
  mkState (ds st) x (downJobs st) (upJobs st) (trace st).
Definition set_downJobs (x : list job) (st : state) : state :=
  mkState (ds st) (rq st) x (upJobs st) (trace st).
Definition set_upJobs (x : list job) (st : state) : state :=
  mkState (ds st) (rq st) (downJobs st) x (trace st).
Definition set_trace (x : list effect) (st : state) : state :=
  mkState (ds st) (rq st) (downJobs st) (upJobs st) x.

(** The memory after proxyBufferCtx.Reset. *)
Definition zeroStream : downStream :=
  mkDownStream 0 false false 0 None false false false false None None None None None None false false false false 0 false false false false [] false.
Definition zeroRequest : upstreamRequest :=
  mkRequest false false false false false false.

Abbreviation M := (stM panic state).

Definition upd (f : downStream → downStream) : M unit :=
  st ← getS; putS (set_ds (f (ds st)) st).
Definition updr (f : upstreamRequest → upstreamRequest) : M unit :=
  st ← getS; putS (set_rq (f (rq st)) st).
Definition emit (e : effect) : M unit :=
  st ← getS; putS (set_trace (trace st ++ [e]) st).
Definition nil_deref {A} : M A := throw NilDereference.
Definition offerDown (j : job) (prioritized : bool) : M unit :=
  st ← getS; putS (set_downJobs (if prioritized then j :: downJobs st else downJobs st ++ [j]) st).
Definition offerUp (j : job) (prioritized : bool) : M unit :=
  st ← getS; putS (set_upJobs (if prioritized then j :: upJobs st else upJobs st ++ [j]) st).
Definition when (b : bool) (m : M unit) : M unit := if b then m else mret ().
(** A deferred recover. *)
Definition recovered (m : M unit) : M unit := λ st, (Ok (), (m st).2).

(** ** The end of a stream *)

Definition processDone : M bool :=
  st ← getS;
  mret (upstreamProcessDone (ds st) || downstreamReset (ds st) || downstreamCleaned (ds st)).

Definition giveStream : M unit :=
  st ← getS;
  if negb (reuseBuffer (ds st)) then mret ()
  else if upstreamReset (ds st) || downstreamReset (ds st) then mret ()
  else
    when (bool_decide (is_Some (downstreamReqDataBuf (ds st)))) (emit EPutIoBuffer);;
    st ← getS;
    if hasContext (ds st)
    then emit EGive;; upd (λ _, zeroStream);; updr (λ _, zeroRequest)
    else mret ().

Definition deleteActiveStream : M unit :=
  st ← getS; when (element (ds st)) (emit EDelete).

(** upstreamRequest.resetStream *)
Definition resetRequest : M unit :=
  st ← getS; when (requestSender (rq st)) (emit EResetRequest).

Definition cleanUp : M unit :=
  st ← getS;
  when (hasUpstreamRequest (ds st)) (updr (set_requestSender false));;
  upd (set_perRetryTimer false);; upd (set_responseTimer false).

Fixpoint destroyAll (fs : list activeFilter) : M unit :=
  match fs with
  | [] => mret ()
  | f :: fs' => emit (EDestroy (index f));; destroyAll fs'
  end.

Definition cleanStream : M unit :=
  st ← getS;
  if downstreamCleaned (ds st) then mret ()
  else
    upd (set_downstreamCleaned true);;
    when (hasUpstreamRequest (ds st) && negb (upstreamProcessDone (ds st)))
      (upd (set_upstreamProcessDone true);; resetRequest);;
    cleanUp;;
    st ← getS;
    destroyAll (receiverFilters (ds st));;
    deleteActiveStream;;
    giveStream.

Definition endStream : M unit :=
  st ← getS;
  when (responseSender (ds st) && negb (downstreamRecvDone (ds st))) (upd (set_reuseBuffer false));;
  cleanStream.

(** ** The response *)

Definition doAppendHeaders (h : option H) (e : bool) : M unit :=
  st ← getS;
  if responseSender (ds st)
  then emit (ERespHeaders h e);; when e endStream
  else nil_deref.
Definition doAppendData (d : option bytes) (e : bool) : M unit :=
  st ← getS;
  if responseSender (ds st)
  then emit (ERespData d e);; when e endStream
  else nil_deref.
Definition doAppendTrailers (t : option H) : M unit :=
  st ← getS;
  if responseSender (ds st)
  then emit (ERespTrailers t);; endStream
  else nil_deref.

Definition convertHeader (h : option H) : option H := h.
Definition convertData (d : option bytes) : option bytes := d.
Definition convertTrailer (t : option H) : option H := t.

Definition appendHeaders (h : option H) (e : bool) : M unit :=
  upd (set_upstreamProcessDone e);; doAppendHeaders h e.
Definition appendData (d : option bytes) (e : bool) : M unit :=
  upd (set_upstreamProcessDone e);; doAppendData (convertData d) e.
Definition appendTrailers (t : option H) : M unit :=
  upd (set_upstreamProcessDone true);; doAppendTrailers (convertTrailer t).

Definition sendHijackReply (code : Z) (h : option H) (doConv : bool) : M unit :=
  let headers := set_status code (match h with Some x => x | None => no_headers end) in
  let nh := if doConv then convertHeader (Some headers) else Some headers in
  appendHeaders nh true.

(** ** The timers *)

Definition setupPerReqTimeout : M unit :=
  st ← getS;
  match timeout (ds st) with
  | Some t => when (0 <? TryTimeout t) (upd (set_perRetryTimer true))
  | None => nil_deref
  end.

Definition onUpstreamRequestSent : M unit :=
  upd (set_upstreamRequestSent true);;
  st ← getS;
  match timeout (ds st) with
  | Some t =>
      when (hasUpstreamRequest (ds st))
        (setupPerReqTimeout;; when (0 <? GlobalTimeout t) (upd (set_responseTimer true)))
  | None => mret ()
  end.

(** ** The request upstream *)

(** upstreamRequest.ResetStream and OnFailure. *)
Definition ResetStreamUp (reason : resetReason) : M unit := updr (set_requestSender false).
Definition OnFailure (reason : poolFailure) : M unit :=
  ResetStreamUp (match reason with
                 | Overflow => StreamOverflow
                 | ConnectionFailure => StreamConnectionFailed
                 | NoFailureReason => NoReason
                 end).

Definition OnReady : M unit :=
  updr (set_requestSender true);;
  st ← getS;
  if hasDownStream (rq st) then
    let e := sendComplete (rq st) && negb (dataSent (rq st)) && negb (trailerSent (rq st)) in
    emit (EReqHeaders (convertHeader (downstreamReqHeaders (ds st))) e)
  else nil_deref.

(** What NewStream of a pool does with its listener before it returns. *)
Inductive newStream : Type := PoolReady | PoolFailed (reason : poolFailure) | PoolLater.

(** The proxy a stream belongs to: the protocols of its configuration and of its
    connection, and the pools that are registered. *)
Record proxyEnv : Type := mkEnv {
  DownstreamProtocol : String.string; UpstreamProtocol : String.string;
  serverProtocol : option String.string;
  ConnPoolFactories : String.string → option newStream
}.
Definition Auto : String.string := "Auto".

Variable env : proxyEnv.

Definition getDownstreamProtocol : String.string :=
  match serverProtocol env with None => DownstreamProtocol env | Some p => p end.
Definition getUpstreamProtocol : String.string :=
  if bool_decide (UpstreamProtocol env = Auto) then getDownstreamProtocol else UpstreamProtocol env.
Definition getUpstreamConnPool (prot : String.string) : option newStream := ConnPoolFactories env prot.
Definition convertProtocol : String.string * String.string :=
  let dp := getDownstreamProtocol in
  (dp, if bool_decide (UpstreamProtocol env = Auto) then dp else UpstreamProtocol env).
(** [None]: the error "no health upstream connection found". *)
Definition initializeUpstreamConnectionPool : M (option newStream) :=
  st ← getS;
  if hasProxy (ds st) then mret (getUpstreamConnPool getUpstreamProtocol) else nil_deref.

(** upstreamRequest.appendHeaders, appendData and appendTrailers, for a pointer
    that may be nil. *)
Definition withRequest (m : M unit) : M unit :=
  st ← getS;
  if hasUpstreamRequest (ds st) && hasDownStream (rq st) then m else nil_deref.

Definition reqAppendHeaders (h : option H) (e : bool) (pool : newStream) : M unit :=
  withRequest
    (done ← processDone;
     if (done : bool) then mret ()
     else updr (set_sendComplete e);;
          emit ENewStream;;
          match pool with
          | PoolReady => OnReady
          | PoolFailed reason => OnFailure reason
          | PoolLater => mret ()
          end).

Definition reqAppendData (d : option bytes) (e : bool) : M unit :=
  withRequest
    (done ← processDone;
     if (done : bool) then mret ()
     else updr (set_sendComplete e);; updr (set_dataSent true);;
          st ← getS;
          if requestSender (rq st) then emit (EReqData d e)
          else upd (set_upstreamProcessDone true);;
               sendHijackReply UpstreamOverFlowCode (downstreamReqHeaders (ds st)) false).

Definition reqAppendTrailers (t : option H) : M unit :=
  withRequest
    (done ← processDone;
     if (done : bool) then mret ()
     else updr (set_sendComplete true);; updr (set_trailerSent true);;
          st ← getS;
          if requestSender (rq st) then emit (EReqTrailers t) else nil_deref).

(** ** The filter chain *)

(** The methods of activeStreamReceiverFilter as a handler. *)
Definition filterOp_run (o : filterOp) : M unit :=
  match o with
  | FAppendHeaders h e => upd (set_downstreamRespHeaders h);; doAppendHeaders h e
  | FAppendData d e => doAppendData (Some d) e
  | FAppendTrailers t => upd (set_downstreamRespTrailers t);; doAppendTrailers t
  | FSendHijackReply code h doConv => sendHijackReply code h doConv
  end.
Fixpoint filterOps_run (os : list filterOp) : M unit :=
  match os with [] => mret () | o :: os' => filterOp_run o;; filterOps_run os' end.

Definition updFilter (i : nat) (g : activeFilter → activeFilter) : M unit :=
  upd (λ s, set_receiverFilters (alter g i (receiverFilters s)) s).

Definition handleHeaderStatus (i : nat) (c : status) : M bool :=
  match c with
  | Stop => updFilter i (λ f, mkActive (index f) true (stoppedNoBuf f) (headersContinued f) (filter f));;
            mret true
  | Continue => updFilter i (λ f, mkActive (index f) (stopped f) (stoppedNoBuf f) true (filter f));;
                mret false
  end.

(** The index a run starts at: after [from], if given. *)
Definition start (from : option nat) : nat := match from with Some i => S i | None => 0 end.

Definition enterStage (d : Z) : M unit := upd (λ s, set_filterStage (Z.lor (filterStage s) d) s).
Definition leaveStage (d : Z) : M unit :=
  upd (λ s, set_filterStage (Z.land (filterStage s) (Z.lnot d)) s).

Fixpoint headers_loop (fuel i : nat) (h : option H) (e : bool) : M bool :=
  match fuel with
  | O => mret false
  | S fuel' =>
      st ← getS;
      match receiverFilters (ds st) !! i with
      | None => mret false
      | Some f =>
          enterStage DecodeHeaders;;
          let '(ops, c) := OnReceiveHeadersF (filter f) h e in
          filterOps_run ops;;
          leaveStage DecodeHeaders;;
          stop ← handleHeaderStatus i c;
          if (stop : bool) then mret true else headers_loop fuel' (S i) h e
      end
  end.
Definition runReceiveHeadersFilters (from : option nat) (h : option H) (e : bool) : M bool :=
  st ← getS; headers_loop (S (length (receiverFilters (ds st)))) (start from) h e.

Definition doReceiveHeaders (from : option nat) (h : option H) (e : bool) : M unit :=
  stop ← runReceiveHeadersFilters from h e;
  if (stop : bool) then mret ()
  else
    pool ← initializeUpstreamConnectionPool;
    match pool with
    | None =>
        st ← getS;
        sendHijackReply NoHealthUpstreamCode (downstreamReqHeaders (ds st)) false
    | Some p =>
        upd (set_hasUpstreamRequest true);; updr (set_hasDownStream true);;
        reqAppendHeaders h e p;;
        when e onUpstreamRequestSent
    end.

Definition cleanIfDone : M unit :=
  st ← getS; when (upstreamProcessDone (ds st)) cleanStream.

Definition doReceiveData (from : option nat) (d : option bytes) (e : bool) : M unit :=
  when e onUpstreamRequestSent;;
  reqAppendData d e;;
  cleanIfDone.

Section trailers.
(** doContinue of a later filter. *)
Variable doContinue : nat → M unit.

Definition handleTrailerStatus (i : nat) (f : activeFilter) (c : status) : M bool :=
  match c with
  | Stop => mret true
  | Continue => if stopped f then doContinue i;; mret true else mret false
  end.

Fixpoint trailers_loop (fuel i : nat) (t : option H) : M bool :=
  match fuel with
  | O => mret false
  | S fuel' =>
      st ← getS;
      match receiverFilters (ds st) !! i with
      | None => mret false
      | Some f =>
          enterStage DecodeTrailers;;
          let '(ops, c) := OnReceiveTrailersF (filter f) t in
          filterOps_run ops;;
          leaveStage DecodeTrailers;;
          stop ← handleTrailerStatus i f c;
          if (stop : bool) then mret true else trailers_loop fuel' (S i) t
      end
  end.
Definition runReceiveTrailersFilters (from : option nat) (t : option H) : M bool :=
  st ← getS;
  if upstreamProcessDone (ds st) then mret false
  else trailers_loop (S (length (receiverFilters (ds st)))) (start from) t.

Definition doReceiveTrailers_with (from : option nat) (t : option H) : M unit :=
  stop ← runReceiveTrailersFilters from t;
  if (stop : bool) then mret ()
  else
    upd (set_downstreamReqTrailers t);;
    onUpstreamRequestSent;;
    reqAppendTrailers t;;
    cleanIfDone.
End trailers.

(** A filter continues the filters after it, so that the number of filters
    bounds the recursion. *)
Fixpoint doContinue (fuel i : nat) : M unit :=
  match fuel with
  | O => mret ()
  | S fuel' =>
      st ← getS;
      match receiverFilters (ds st) !! i with
      | None => nil_deref
      | Some f =>
          if upstreamProcessDone (ds st) then mret ()
          else
            updFilter i (λ f, mkActive (index f) false (stoppedNoBuf f) (headersContinued f) (filter f));;
            let hasBuffedData := bool_decide (is_Some (downstreamReqDataBuf (ds st))) in
            let hasTrailer := bool_decide (is_Some (downstreamReqTrailers (ds st))) in
            when (negb (headersContinued f))
              (updFilter i (λ f, mkActive (index f) (stopped f) (stoppedNoBuf f) true (filter f));;
               st ← getS;
               doReceiveHeaders (Some (index f)) (downstreamReqHeaders (ds st))
                 (downstreamRecvDone (ds st) && negb hasBuffedData && negb hasTrailer));;
            when (hasBuffedData || stoppedNoBuf f)
              (st ← getS;
               when (stoppedNoBuf f || bool_decide (downstreamReqDataBuf (ds st) = None))
                 (upd (set_downstreamReqDataBuf (Some [])));;
               st ← getS;
               doReceiveData (Some (index f)) (downstreamReqDataBuf (ds st))
                 (downstreamRecvDone (ds st) && negb hasTrailer));;
            when hasTrailer
              (st ← getS;
               doReceiveTrailers_with (doContinue fuel') (Some (index f)) (downstreamReqTrailers (ds st)))
      end
  end.
Definition ContinueReceiving (i : nat) : M unit :=
  st ← getS; doContinue (S (length (receiverFilters (ds st)))) i.
Definition doReceiveTrailers (from : option nat) (t : option H) : M unit :=
  st ← getS; doReceiveTrailers_with (doContinue (S (length (receiverFilters (ds st))))) from t.

(** ** The jobs of the downstream shard *)

Definition ReceiveHeaders (h : option H) (e : bool) : M unit :=
  upd (set_downstreamRecvDone e);; doReceiveHeaders None h e.
Definition ReceiveData (d : option bytes) (e : bool) : M unit :=
  done ← processDone;
  if (done : bool) then mret ()
  else upd (set_downstreamRecvDone e);; doReceiveData None d e.
Definition ReceiveTrailers (t : option H) : M unit :=
  done ← processDone;
  if (done : bool) then mret ()
  else upd (set_downstreamRecvDone true);; doReceiveTrailers None t.

Definition Receive : M unit :=
  st ← getS;
  let hasBody := bool_decide (is_Some (downstreamReqDataBuf (ds st))) in
  let hasTrailer := bool_decide (is_Some (downstreamReqTrailers (ds st))) in
  ReceiveHeaders (downstreamReqHeaders (ds st)) (negb hasBody);;
  when hasBody (st ← getS; ReceiveData (downstreamReqDataBuf (ds st)) (negb hasTrailer));;
  when hasTrailer (st ← getS; ReceiveTrailers (downstreamReqTrailers (ds st))).

Definition ResetStream : M unit := cleanStream.

(** ** Calls of the server's stream layer *)

Definition OnReceive (h : option H) (d : option bytes) (t : option H) (prioritized : bool) : M unit :=
  upd (set_downstreamReqHeaders h);;
  when (bool_decide (is_Some d)) (upd (set_downstreamReqDataBuf d));;
  upd (set_downstreamReqTrailers t);;
  offerDown JReceive prioritized.
Definition OnReceiveHeaders (h : option H) (e : bool) : M unit :=
  upd (set_downstreamReqHeaders h);; offerDown (JReceiveHeaders h e) false.
Definition OnReceiveData (d : bytes) (e : bool) : M unit :=
  upd (set_downstreamReqDataBuf (Some d));; offerDown (JReceiveData e) false.
Definition OnReceiveTrailers (t : option H) : M unit := offerDown (JReceiveTrailers t) false.

Definition OnResetStream : M unit :=
  st ← getS;
  if downstreamReset (ds st) then mret ()
  else upd (set_downstreamReset true);;
       (if hasContext (ds st) then offerDown JReset false else nil_deref).

Definition OnDecodeError (err : codecError) (h : option H) : M unit :=
  st ← getS;
  if upstreamProcessDone (ds st) then mret ()
  else
    sendHijackReply (match err with
                     | CodecException => CodecExceptionCode
                     | DeserializeException => DeserialExceptionCode
                     | OtherError => UnknownCode
                     end) h true;;
    OnResetStream.

(** downStream.resetStream *)
Definition resetResponse : M unit :=
  st ← getS;
  when (responseSender (ds st) && negb (upstreamProcessDone (ds st)))
    (upd (set_upstreamProcessDone true);; emit EResetResponse;; OnResetStream).

(** ** The jobs of the upstream shard *)

Definition onUpstreamResponseRecvFinished : M unit :=
  st ← getS;
  when (negb (upstreamRequestSent (ds st)))
    (if hasUpstreamRequest (ds st) then resetRequest else nil_deref);;
  cleanUp.
Definition onUpstreamHeaders (h : option H) (e : bool) : M unit :=
  upd (set_downstreamRespHeaders h);;
  upd (set_downstreamResponseStarted true);;
  when e onUpstreamResponseRecvFinished;;
  appendHeaders (convertHeader h) e.
Definition onUpstreamData (d : option bytes) (e : bool) : M unit :=
  when e onUpstreamResponseRecvFinished;; appendData d e.
Definition onUpstreamTrailers (t : option H) : M unit :=
  onUpstreamResponseRecvFinished;; appendTrailers t.

(** Methods of upstreamRequest that dereference its downStream. *)
Definition withDownStream (m : M unit) : M unit :=
  st ← getS; if hasDownStream (rq st) then m else nil_deref.

Definition UpReceiveHeaders (h : option H) (e : bool) : M unit :=
  withDownStream (onUpstreamHeaders h e).
Definition UpReceiveData (d : option bytes) (e : bool) : M unit :=
  withDownStream
    (done ← processDone;
     st ← getS;
     if (done : bool) || setupRetry (rq st) then mret () else onUpstreamData d e).
Definition UpReceiveTrailers (t : option H) : M unit :=
  withDownStream
    (done ← processDone;
     st ← getS;
     if (done : bool) || setupRetry (rq st) then mret () else onUpstreamTrailers t).
Definition UpReceive : M unit :=
  withDownStream
    (done ← processDone;
     st ← getS;
     if (done : bool) || setupRetry (rq st) then mret ()
     else
       let hasBody := bool_decide (is_Some (downstreamRespDataBuf (ds st))) in
       let hasTrailer := bool_decide (is_Some (downstreamRespTrailers (ds st))) in
       UpReceiveHeaders (downstreamRespHeaders (ds st)) (negb hasBody);;
       when hasBody
         (st ← getS; UpReceiveData (downstreamRespDataBuf (ds st)) (negb hasTrailer));;
       when hasTrailer
         (st ← getS; UpReceiveTrailers (downstreamRespTrailers (ds st)))).

(** ** Calls of the client's stream layer *)

Definition UpOnReceive (h : option H) (d : option bytes) (t : option H) (prioritized : bool) : M unit :=
  withDownStream
    (upd (set_downstreamRespHeaders h);;
     when (bool_decide (is_Some d)) (upd (set_downstreamRespDataBuf d));;
     upd (set_downstreamRespTrailers t);;
     offerUp JUpReceive prioritized).
Definition UpOnReceiveHeaders (h : option H) (e : bool) : M unit :=
  withDownStream (offerUp (JUpReceiveHeaders h e) false).
Definition UpOnReceiveData (d : bytes) (e : bool) : M unit :=
  withDownStream (upd (set_downstreamRespDataBuf (Some d));; offerUp (JUpReceiveData e) false).
Definition UpOnReceiveTrailers (t : option H) : M unit :=
  withDownStream (offerUp (JUpReceiveTrailers t) false).
Definition UpOnResetStream : M unit := withDownStream (offerUp JUpReset false).
Definition UpOnDecodeError : M unit := UpOnResetStream.

(** ** Timeouts *)

Definition onResponseTimeout : M unit :=
  recovered
    (upd (set_responseTimer false);;
     st ← getS;
     when (hasUpstreamRequest (ds st))
       (upd (set_reuseBuffer false);; resetRequest;; UpOnResetStream)).
Definition onPerReqTimeout : M unit :=
  recovered
    (st ← getS;
     when (negb (downstreamResponseStarted (ds st)))
       (upd (set_perRetryTimer false);; upd (set_reuseBuffer false);;
        (if hasUpstreamRequest (ds st) then resetRequest;; UpOnResetStream else nil_deref))).
(** The callbacks of the timers, set when the stream had identifier [id]. *)
Definition timerFires (id : Z) (m : M unit) : M unit :=
  st ← getS;
  if downstreamCleaned (ds st) then mret ()
  else if negb (id =? ID (ds st)) then mret () else m.

(** ** New streams, and steps *)

(** newActiveStream and NewStreamDetect: the buffers are fresh or zeroed, the
    filters come from the factories. *)
Definition AddStreamReceiverFilter (f : receiverFilter) (s : downStream) : downStream :=
  set_receiverFilters
    (receiverFilters s ++ [mkActive (length (receiverFilters s)) false false false f]) s.
Definition newActiveStream (id : Z) : downStream :=
  set_reuseBuffer true (set_hasContext true (set_responseSender true
    (set_hasProxy true (set_ID id zeroStream)))).
Definition NewStreamDetect (id : Z) (filters : list receiverFilter) : state :=
  let s := foldl (λ s f, AddStreamReceiverFilter f s) (newActiveStream id) filters in
  mkState (set_element true s) zeroRequest [] [] [].

Inductive input : Type :=
| IReceive (h : option H) (d : option bytes) (t : option H) (prioritized : bool)
| IReceiveHeaders (h : option H) (e : bool) | IReceiveData (d : bytes) (e : bool)
| IReceiveTrailers (t : option H) | IDecodeError (err : codecError) (h : option H) | IReset
| IContinue (i : nat) | IFilterOp (o : filterOp)
| IUpReceive (h : option H) (d : option bytes) (t : option H) (prioritized : bool)
| IUpReceiveHeaders (h : option H) (e : bool) | IUpReceiveData (d : bytes) (e : bool)
| IUpReceiveTrailers (t : option H) | IUpReset | IReady | IFailure (reason : poolFailure)
| IResponseTimer (id : Z) | IRetryTimer (id : Z)
| WDown | WUp.                      (** the worker of a shard runs its next job *)

Definition runJob (j : job) : M unit :=
  match j with
  | JReceive => Receive
  | JReceiveHeaders h e => ReceiveHeaders h e
  | JReceiveData e => st ← getS; ReceiveData (downstreamReqDataBuf (ds st)) e
  | JReceiveTrailers t => ReceiveTrailers t
  | JReset => ResetStream
  | JUpReceive => UpReceive
  | JUpReceiveHeaders h e => UpReceiveHeaders h e
  | JUpReceiveData e =>
      withDownStream (st ← getS; UpReceiveData (downstreamRespDataBuf (ds st)) e)
  | JUpReceiveTrailers t => UpReceiveTrailers t
  | JUpReset => ResetStreamUp StreamLocalReset
  end.

Definition step (a : input) : M unit :=
  match a with
  | IReceive h d t p => OnReceive h d t p
  | IReceiveHeaders h e => OnReceiveHeaders h e
  | IReceiveData d e => OnReceiveData d e
  | IReceiveTrailers t => OnReceiveTrailers t
  | IDecodeError err h => OnDecodeError err h
  | IReset => OnResetStream
  | IContinue i => ContinueReceiving i
  | IFilterOp o => filterOp_run o
  | IUpReceive h d t p => UpOnReceive h d t p
  | IUpReceiveHeaders h e => UpOnReceiveHeaders h e
  | IUpReceiveData d e => UpOnReceiveData d e
  | IUpReceiveTrailers t => UpOnReceiveTrailers t
  | IUpReset => UpOnResetStream
  | IReady => OnReady
  | IFailure reason => OnFailure reason
  | IResponseTimer id => timerFires id onResponseTimeout
  | IRetryTimer id => timerFires id onPerReqTimeout
  | WDown =>
      st ← getS;
      match downJobs st with
      | [] => mret ()
      | j :: js => putS (set_downJobs js st);; runJob j
      end
  | WUp =>
      st ← getS;
      match upJobs st with
      | [] => mret ()
      | j :: js => putS (set_upJobs js st);; runJob j
      end
  end.

(** A panic ends its step only. *)
Fixpoint run (acts : list input) (st : state) : list (res panic unit) * state :=
  match acts with
  | [] => ([], st)
  | a :: acts' =>
      let '(r, st1) := step a st in
      let '(rs, st2) := run acts' st1 in (r :: rs, st2)
  end.
End proxy.

(** ** Once only

    [noninc w m]: the method [m] never increases the weight [w].  The weights
    count an effect in the trace and the chance that is left for it. *)

Section once.
Context {H : Type} (set_status : Z → H → H) (no_headers : H) (env : @proxyEnv).
Abbreviation St := (state (H := H)).
Implicit Types (st : St) (w : St → Z).

Definition noninc {A} w (m : stM panic St A) : Prop := ∀ st, w (m st).2 ≤ w st.

Lemma noninc_bind {A B} w (m : stM panic St A) (k : A → stM panic St B) :
  noninc w m → (∀ a, noninc w (k a)) → noninc w (m ≫= k).
Proof.
  intros Hm Hk st. specialize (Hm st). unfold mbind, stM_bind.
  destruct (m st) as [[a|e] st1]; simpl in *; [|done]. specialize (Hk a st1). lia.
Qed.
Lemma noninc_ret {A} w (a : A) : noninc w (mret a).
Proof. intros st. simpl. lia. Qed.
Lemma noninc_get w : noninc w getS.
Proof. intros st. simpl. lia. Qed.
Lemma noninc_nil {A} w : noninc w (@nil_deref H A).
Proof. intros st. simpl. lia. Qed.
Lemma noninc_when w b (m : stM panic St unit) : noninc w m → noninc w (when b m).
Proof. intros Hm. destruct b; [done|apply noninc_ret]. Qed.
Lemma noninc_recovered w (m : stM panic St unit) : noninc w m → noninc w (recovered m).
Proof. intros Hm st. simpl. apply Hm. Qed.

(** The part of a weight that depends on the trace, and the rest. *)
Definition cnt (p : effect (H := H) → bool) (l : list effect) : Z :=
  zsum (λ e, if p e then 1 else 0) l.
Lemma cnt_app p l k : cnt p (l ++ k) = cnt p l + cnt p k.
Proof. apply zsum_app. Qed.

Definition isDelete (e : effect (H := H)) : bool := match e with EDelete => true | _ => false end.
Definition isGive (e : effect (H := H)) : bool := match e with EGive => true | _ => false end.
Definition isDestroy (i : nat) (e : effect (H := H)) : bool :=
  match e with EDestroy j => j =b i | _ => false end.

(** What is left to happen, as long as the stream is not cleaned. *)
Definition left_ (b : bool) st : Z := if negb (downstreamCleaned (ds st)) && b then 1 else 0.
Definition destroys (i : nat) (fs : list (activeFilter (H := H))) : Z :=
  zsum (λ f, if index f =b i then 1 else 0) fs.
Definition wDelete st : Z := cnt isDelete (trace st) + left_ (element (ds st)) st.
Definition wGive st : Z := cnt isGive (trace st) + left_ (reuseBuffer (ds st)) st.
Definition wDestroy (i : nat) st : Z :=
  cnt (isDestroy i) (trace st) +
  (if downstreamCleaned (ds st) then 0 else destroys i (receiverFilters (ds st))).

Lemma destroys_alter i g j fs : (∀ f, index (g f) = index f) → destroys i (alter g j fs) = destroys i fs.
Proof.
  intros Hg. revert j. induction fs as [|f fs IH]; intros [|j]; try done; simpl.
  - unfold destroys. simpl. by rewrite Hg.
  - unfold destroys in *. simpl. f_equal. apply IH.
Qed.

Lemma destroyAll_eq fs st :
  destroyAll fs st = (Ok (), set_trace (trace st ++ ((λ f, EDestroy (index f)) <$> fs)) st).
Proof.
  revert st. induction fs as [|f fs IH]; intros st; simpl.
  - rewrite app_nil_r. by destruct st.
  - unfold mbind, stM_bind, emit, getS, putS. simpl. rewrite IH. simpl. by rewrite <- app_assoc.
Qed.

(** What cleanStream does to a stream that is not cleaned. *)
Definition giveable (s : downStream (H := H)) : bool :=
  reuseBuffer s && negb (upstreamReset s || downstreamReset s) && hasContext s.
Definition resets st : bool :=
  hasUpstreamRequest (ds st) && negb (upstreamProcessDone (ds st)) && requestSender (rq st).
Definition cleanTrace st : list (effect (H := H)) :=
  (if resets st then [EResetRequest] else []) ++
  ((λ f, EDestroy (index f)) <$> receiverFilters (ds st)) ++
  (if element (ds st) then [EDelete] else []) ++
  (if reuseBuffer (ds st) && negb (upstreamReset (ds st) || downstreamReset (ds st)) &&
      bool_decide (is_Some (downstreamReqDataBuf (ds st))) then [EPutIoBuffer] else []) ++
  (if giveable (ds st) then [EGive] else []).

Lemma giveStream_eq st :
  giveStream st = (Ok (), mkState (if giveable (ds st) then zeroStream else ds st)
    (if giveable (ds st) then zeroRequest else rq st) (downJobs st) (upJobs st)
    (trace st ++
     (if reuseBuffer (ds st) && negb (upstreamReset (ds st) || downstreamReset (ds st)) &&
         bool_decide (is_Some (downstreamReqDataBuf (ds st))) then [EPutIoBuffer] else []) ++
     (if giveable (ds st) then [EGive] else []))).
Proof.
  destruct st as [s r dj uj tr]. unfold giveable. simpl.
  unfold giveStream, when, upd, updr, emit, getS, putS, mbind, stM_bind, mret, stM_ret. simpl.
  destruct (reuseBuffer s); simpl; [|by rewrite app_nil_r].
  destruct (upstreamReset s || downstreamReset s); simpl; [by rewrite app_nil_r|].
  destruct (bool_decide (is_Some (downstreamReqDataBuf s))), (hasContext s) eqn:E; simpl;
    rewrite ?E; simpl; by rewrite <- ?app_assoc, ?app_nil_r.
Qed.

Lemma cleanUp_eq st :
  cleanUp st = (Ok (), mkState (set_responseTimer false (set_perRetryTimer false (ds st)))
    (if hasUpstreamRequest (ds st) then set_requestSender false (rq st) else rq st)
    (downJobs st) (upJobs st) (trace st)).
Proof.
  destruct st as [s r dj uj tr]. simpl.
  unfold cleanUp, when, upd, updr, getS, putS, mbind, stM_bind, mret, stM_ret. simpl.
  by destruct (hasUpstreamRequest s).
Qed.

Lemma bind_eq {A B} (m : stM panic St A) (k : A → stM panic St B) st a st1 :
  m st = (Ok a, st1) → (m ≫= k) st = k a st1.
Proof. unfold mbind, stM_bind. by intros ->. Qed.

Lemma cleanStream_eq st : downstreamCleaned (ds st) = false →
  ∃ s r, cleanStream st = (Ok (), mkState s r (downJobs st) (upJobs st) (trace st ++ cleanTrace st)) ∧
    (if giveable (ds st) then s = zeroStream ∧ r = zeroRequest
     else downstreamCleaned s = true ∧ responseSender s = responseSender (ds st) ∧
       element s = element (ds st) ∧ hasContext s = hasContext (ds st) ∧
       downstreamReqTrailers s = downstreamReqTrailers (ds st) ∧
       receiverFilters s = receiverFilters (ds st)).
Proof.
  intros Hc. destruct st as [s r dj uj tr]. simpl in Hc.
  set (b := hasUpstreamRequest s && negb (upstreamProcessDone s)).
  set (s1 := if b then set_upstreamProcessDone true (set_downstreamCleaned true s)
             else set_downstreamCleaned true s).
  set (tr1 := tr ++ if b && requestSender r then [EResetRequest] else []).
  assert (when b (upd (set_upstreamProcessDone true);; resetRequest)
    (mkState (set_downstreamCleaned true s) r dj uj tr) = (Ok (), mkState s1 r dj uj tr1)) as E1.
  { unfold s1, tr1. destruct b; simpl; [|by rewrite app_nil_r].
    unfold resetRequest, when, emit, upd, mbind, stM_bind, getS, putS. simpl.
    destruct (requestSender r); simpl; [done|by rewrite app_nil_r]. }
  unfold cleanStream. erewrite bind_eq by reflexivity. simpl. rewrite Hc.
  erewrite bind_eq by reflexivity. cbn [ds set_ds rq downJobs upJobs trace].
  erewrite bind_eq by exact E1. erewrite bind_eq by apply cleanUp_eq.
  cbn [ds set_ds rq downJobs upJobs trace]. erewrite bind_eq by reflexivity.
  erewrite bind_eq by apply destroyAll_eq. cbn [set_trace ds rq downJobs upJobs trace].
  set (s2 := set_responseTimer false (set_perRetryTimer false s1)).
  set (r2 := if hasUpstreamRequest s1 then set_requestSender false r else r).
  set (tr2 := tr1 ++ _).
  assert (deleteActiveStream (mkState s2 r2 dj uj tr2) =
    (Ok (), mkState s2 r2 dj uj (tr2 ++ if element s then [EDelete] else []))) as E2.
  { unfold deleteActiveStream, when, emit, mbind, stM_bind, getS, putS. simpl.
    assert (element s1 = element s) as -> by (unfold s1; by destruct b).
    destruct (element s); [done|by rewrite app_nil_r]. }
  erewrite bind_eq by exact E2. rewrite giveStream_eq. cbn [ds rq downJobs upJobs trace].
  assert (giveable s2 = giveable s) as Eg by (unfold giveable, s2, s1; by destruct b).
  rewrite Eg. eexists _, _. split.
  - do 2 f_equal. unfold cleanTrace, tr2, tr1, resets, s2, s1. cbn [ds rq].
    rewrite <- !app_assoc. fold b. destruct b; reflexivity.
  - cbn [ds]. destruct (giveable s); [done|]. unfold s2, s1. by destruct b.
Qed.

(** Updates and effects that touch no weight. *)
Definition mild (f : downStream (H := H) → downStream) : Prop := ∀ s,
  element (f s) = element s ∧ downstreamCleaned (f s) = downstreamCleaned s ∧
  (reuseBuffer (f s) = true → reuseBuffer s = true) ∧
  ∀ i, destroys i (receiverFilters (f s)) = destroys i (receiverFilters s).
Definition plain (e : effect (H := H)) : Prop :=
  isDelete e = false ∧ isGive e = false ∧ ∀ i, isDestroy i e = false.

(** A weight that the parts of the methods respect. *)
Record fair w : Prop := {
  fair_upd : ∀ f, mild f → noninc w (upd f);
  fair_updr : ∀ f, noninc w (updr f);
  fair_emit : ∀ e, plain e → noninc w (emit e);
  fair_down : ∀ st js, w (set_downJobs js st) = w st;
  fair_up : ∀ st js, w (set_upJobs js st) = w st;
  fair_clean : noninc w cleanStream
}.

Lemma left_mono b b' s s' r r' dj dj' uj uj' tr tr' :
  downstreamCleaned s' = downstreamCleaned s → (b' = true → b = true) →
  left_ b' (mkState s' r' dj' uj' tr') ≤ left_ b (mkState s r dj uj tr).
Proof.
  intros E Hb. unfold left_. simpl. rewrite E.
  destruct (downstreamCleaned s), b, b'; simpl; try lia; specialize (Hb eq_refl); done.
Qed.

Lemma cnt_destroyed (q : effect (H := H) → bool) (fs : list (activeFilter (H := H))) :
  cnt q ((λ f, EDestroy (index f)) <$> fs) = zsum (λ f, if q (EDestroy (index f)) then 1 else 0) fs.
Proof. unfold cnt. induction fs as [|f fs IH]; [done|]. rewrite fmap_cons. cbn [zsum]. by rewrite IH. Qed.

Lemma zsum_zero {A} (l : list A) : zsum (λ _, 0) l = 0.
Proof. induction l; simpl; lia. Qed.

(** The effects of cleaning, counted. *)
Lemma cnt_clean st :
  cnt isDelete (cleanTrace st) = (if element (ds st) then 1 else 0) ∧
  cnt isGive (cleanTrace st) = (if giveable (ds st) then 1 else 0) ∧
  ∀ i, cnt (isDestroy i) (cleanTrace st) = destroys i (receiverFilters (ds st)).
Proof.
  unfold cleanTrace. split_and!; [| |intros i]; rewrite !cnt_app, cnt_destroyed; simpl;
    rewrite ?zsum_zero;
    destruct (resets st), (element (ds st)), (giveable (ds st)),
      (reuseBuffer (ds st) && negb (upstreamReset (ds st) || downstreamReset (ds st)) &&
       bool_decide (is_Some (downstreamReqDataBuf (ds st)))); cbn; unfold destroys; lia.
Qed.

Lemma clean_fair w st (d : bool) :
  (∀ s r dj uj tr, downstreamCleaned (ds st) = false →
     (giveable (ds st) = true ∧ s = zeroStream ∨ downstreamCleaned s = true) →
     w (mkState s r dj uj (tr ++ cleanTrace st)) ≤ w (mkState (ds st) (rq st) dj uj tr)) →
  w (cleanStream st).2 ≤ w st.
Proof.
  intros K. destruct (downstreamCleaned (ds st)) eqn:E.
  - unfold cleanStream, mbind, stM_bind, getS. simpl. rewrite E. simpl. lia.
  - destruct (cleanStream_eq st E) as (s & r & -> & G). simpl.
    destruct st as [s0 r0 dj uj tr]. simpl in *. apply K; [done|].
    destruct (giveable s0); [left; tauto|right; tauto].
Qed.

Lemma fair_wDelete : fair wDelete.
Proof.
  split.
  - intros f Hf st. destruct st as [s r dj uj tr]. unfold wDelete. simpl.
    destruct (Hf s) as (E1 & E2 & _). apply Z.add_le_mono_l. apply left_mono; [done|]. by rewrite E1.
  - intros f st. unfold wDelete, left_. simpl. lia.
  - intros e (He & _) st. unfold wDelete, left_. simpl. rewrite cnt_app. cbn. rewrite He. lia.
  - done.
  - done.
  - intros st. apply clean_fair; [exact false|]. intros s r dj uj tr E G.
    unfold wDelete. simpl. rewrite cnt_app. destruct (cnt_clean st) as (-> & _).
    unfold left_. simpl. rewrite E. destruct G as [[_ ->] | ->]; simpl; destruct (element (ds st)); lia.
Qed.

Lemma fair_wGive : fair wGive.
Proof.
  split.
  - intros f Hf st. destruct st as [s r dj uj tr]. unfold wGive. simpl.
    destruct (Hf s) as (_ & E2 & E3 & _). apply Z.add_le_mono_l. apply left_mono; auto.
  - intros f st. unfold wGive, left_. simpl. lia.
  - intros e (_ & He & _) st. unfold wGive, left_. simpl. rewrite cnt_app. cbn. rewrite He. lia.
  - done.
  - done.
  - intros st. apply clean_fair; [exact false|]. intros s r dj uj tr E G.
    unfold wGive. simpl. rewrite cnt_app. destruct (cnt_clean st) as (_ & -> & _).
    unfold left_. simpl. rewrite E.
    assert ((if giveable (ds st) then 1 else 0) ≤ if reuseBuffer (ds st) then 1 else 0).
    { unfold giveable. destruct (reuseBuffer (ds st)); simpl; [|lia]. case_match; lia. }
    destruct G as [[_ ->] | ->]; simpl in *; destruct (reuseBuffer (ds st)); simpl; lia.
Qed.

Lemma fair_wDestroy i : fair (wDestroy i).
Proof.
  split.
  - intros f Hf st. destruct st as [s r dj uj tr]. unfold wDestroy. simpl.
    destruct (Hf s) as (_ & E2 & _ & E4). rewrite E2, E4. lia.
  - intros f st. unfold wDestroy. simpl. lia.
  - intros e (_ & _ & He) st. unfold wDestroy. simpl. rewrite cnt_app. cbn. rewrite He. lia.
  - done.
  - done.
  - intros st. apply clean_fair; [exact false|]. intros s r dj uj tr E G.
    unfold wDestroy. simpl. rewrite cnt_app. destruct (cnt_clean st) as (_ & _ & ->).
    rewrite E. destruct G as [[_ ->] | ->]; unfold destroys; simpl; lia.
Qed.
End once.

(** ** The methods respect every fair weight *)

Create HintDb fair discriminated.
#[export] Hint Resolve noninc_ret noninc_get noninc_nil : fair.

Ltac mild := intros ?; split_and!; [done|done|done || (by intros [=]) || (by intros)|done].
Ltac plain := repeat split.

Section fair_methods.
Context {H : Type} (set_status : Z → H → H) (no_headers : H) (env : @proxyEnv).
Context (w : state (H := H) → Z) (Fw : fair w).

Lemma fair_offerDown j b : noninc w (offerDown j b).
Proof. intros st. unfold offerDown, mbind, stM_bind, getS, putS. simpl. by rewrite fair_down. Qed.
Lemma fair_offerUp j b : noninc w (offerUp j b).
Proof. intros st. unfold offerUp, mbind, stM_bind, getS, putS. simpl. by rewrite fair_up. Qed.
Lemma fair_updFilter i g : (∀ f, index (g f) = index f) → noninc w (updFilter i g).
Proof.
  intros Hg. apply fair_upd; [done|]. intros s. split_and!; try done.
  intros j. simpl. by apply destroys_alter.
Qed.

(** The method is taken apart; an update is [mild], an effect [plain]. *)
Ltac fair1 :=
  match goal with
  | |- noninc _ (_ ≫= _) => apply noninc_bind; [|intros ?]
  | |- noninc _ (when _ _) => apply noninc_when
  | |- noninc _ (recovered _) => apply noninc_recovered
  | |- noninc _ (upd _) => apply (fair_upd _ Fw); mild
  | |- noninc _ (updr _) => apply (fair_updr _ Fw)
  | |- noninc _ (emit _) => apply (fair_emit _ Fw); plain
  | |- noninc _ (updFilter _ _) => apply fair_updFilter; done
  | |- noninc _ (offerDown _ _) => apply fair_offerDown
  | |- noninc _ (offerUp _ _) => apply fair_offerUp
  | |- noninc _ cleanStream => apply (fair_clean _ Fw)
  | |- noninc _ (mret _) => apply noninc_ret
  | |- noninc _ getS => apply noninc_get
  | |- noninc _ nil_deref => apply noninc_nil
  | |- noninc _ (if ?b then _ else _) => destruct b
  | |- noninc _ (match ?x with _ => _ end) => destruct x
  | |- noninc _ _ => solve [auto with fair]
  end.
Ltac fair := repeat fair1.

Lemma fair_endStream : noninc w endStream.
Proof. unfold endStream. fair. Qed.
Hint Resolve fair_endStream : fair.
Lemma fair_doAppendHeaders h e : noninc w (doAppendHeaders h e).
Proof. unfold doAppendHeaders. fair. Qed.
Lemma fair_doAppendData d e : noninc w (doAppendData d e).
Proof. unfold doAppendData. fair. Qed.
Lemma fair_doAppendTrailers t : noninc w (doAppendTrailers t).
Proof. unfold doAppendTrailers. fair. Qed.
Hint Resolve fair_doAppendHeaders fair_doAppendData fair_doAppendTrailers : fair.
Lemma fair_appendHeaders h e : noninc w (appendHeaders h e).
Proof. unfold appendHeaders. fair. Qed.
Lemma fair_appendData d e : noninc w (appendData d e).
Proof. unfold appendData. fair. Qed.
Lemma fair_appendTrailers t : noninc w (appendTrailers t).
Proof. unfold appendTrailers. fair. Qed.
Hint Resolve fair_appendHeaders fair_appendData fair_appendTrailers : fair.
Lemma fair_sendHijackReply c h d : noninc w (sendHijackReply set_status no_headers c h d).
Proof. unfold sendHijackReply. fair. Qed.
Hint Resolve fair_sendHijackReply : fair.
Lemma fair_onUpstreamRequestSent : noninc w onUpstreamRequestSent.
Proof. unfold onUpstreamRequestSent, setupPerReqTimeout. fair. Qed.
Lemma fair_resetRequest : noninc w resetRequest.
Proof. unfold resetRequest. fair. Qed.
Lemma fair_cleanUp : noninc w cleanUp.
Proof. unfold cleanUp. fair. Qed.
Lemma fair_processDone : noninc w processDone.
Proof. unfold processDone. fair. Qed.
Lemma fair_OnReady : noninc w OnReady.
Proof. unfold OnReady. fair. Qed.
Lemma fair_OnFailure r : noninc w (OnFailure r).
Proof. unfold OnFailure, ResetStreamUp. fair. Qed.
Hint Resolve fair_onUpstreamRequestSent fair_resetRequest fair_cleanUp fair_processDone
  fair_OnReady fair_OnFailure : fair.
Lemma fair_reqAppendHeaders h e pool : noninc w (reqAppendHeaders h e pool).
Proof. unfold reqAppendHeaders, withRequest. fair. Qed.
Lemma fair_reqAppendData d e : noninc w (reqAppendData set_status no_headers d e).
Proof. unfold reqAppendData, withRequest. fair. Qed.
Lemma fair_reqAppendTrailers t : noninc w (reqAppendTrailers t).
Proof. unfold reqAppendTrailers, withRequest. fair. Qed.
Hint Resolve fair_reqAppendHeaders fair_reqAppendData fair_reqAppendTrailers : fair.
Lemma fair_filterOp o : noninc w (filterOp_run set_status no_headers o).
Proof. unfold filterOp_run. fair. Qed.
Hint Resolve fair_filterOp : fair.
Lemma fair_filterOps os : noninc w (filterOps_run set_status no_headers os).
Proof. induction os; simpl; fair. Qed.
Hint Resolve fair_filterOps : fair.
Lemma fair_handleHeaderStatus i c : noninc w (handleHeaderStatus i c).
Proof. unfold handleHeaderStatus. fair. Qed.
Hint Resolve fair_handleHeaderStatus : fair.
Lemma fair_headers_loop fuel i h e : noninc w (headers_loop set_status no_headers fuel i h e).
Proof.
  revert i. induction fuel as [|fuel IH]; intros i; simpl; unfold enterStage, leaveStage; fair.
Qed.
Hint Resolve fair_headers_loop : fair.
Lemma fair_doReceiveHeaders from h e : noninc w (doReceiveHeaders set_status no_headers env from h e).
Proof. unfold doReceiveHeaders, runReceiveHeadersFilters, initializeUpstreamConnectionPool. fair. Qed.
Lemma fair_doReceiveData from d e : noninc w (doReceiveData set_status no_headers from d e).
Proof. unfold doReceiveData, cleanIfDone. fair. Qed.
Hint Resolve fair_doReceiveHeaders fair_doReceiveData : fair.
Lemma fair_doReceiveTrailers_with c from t : (∀ i, noninc w (c i)) →
  noninc w (doReceiveTrailers_with set_status no_headers c from t).
Proof.
  intros Hc.
  assert (∀ fuel i t, noninc w (trailers_loop set_status no_headers c fuel i t)) as Hl.
  { intros fuel. induction fuel as [|fuel IH]; intros i t'; simpl;
      unfold enterStage, leaveStage, handleTrailerStatus; fair. }
  unfold doReceiveTrailers_with, runReceiveTrailersFilters, cleanIfDone. fair.
Qed.
Lemma fair_doContinue fuel i : noninc w (doContinue set_status no_headers env fuel i).
Proof.
  revert i. induction fuel as [|fuel IH]; intros i; simpl; fair.
  by apply fair_doReceiveTrailers_with.
Qed.
Hint Resolve fair_doContinue : fair.
Lemma fair_doReceiveTrailers from t : noninc w (doReceiveTrailers set_status no_headers env from t).
Proof. unfold doReceiveTrailers. fair. apply fair_doReceiveTrailers_with. auto with fair. Qed.
Hint Resolve fair_doReceiveTrailers : fair.
Lemma fair_ReceiveHeaders h e : noninc w (ReceiveHeaders set_status no_headers env h e).
Proof. unfold ReceiveHeaders. fair. Qed.
Lemma fair_ReceiveData d e : noninc w (ReceiveData set_status no_headers d e).
Proof. unfold ReceiveData. fair. Qed.
Lemma fair_ReceiveTrailers t : noninc w (ReceiveTrailers set_status no_headers env t).
Proof. unfold ReceiveTrailers. fair. Qed.
Hint Resolve fair_ReceiveHeaders fair_ReceiveData fair_ReceiveTrailers : fair.
Lemma fair_Receive : noninc w (Receive set_status no_headers env).
Proof. unfold Receive. fair. Qed.
Lemma fair_OnResetStream : noninc w OnResetStream.
Proof. unfold OnResetStream. fair. Qed.
Hint Resolve fair_Receive fair_OnResetStream : fair.
Lemma fair_finished : noninc w onUpstreamResponseRecvFinished.
Proof. unfold onUpstreamResponseRecvFinished. fair. Qed.
Hint Resolve fair_finished : fair.
Lemma fair_UpReceiveHeaders h e : noninc w (UpReceiveHeaders h e).
Proof. unfold UpReceiveHeaders, withDownStream, onUpstreamHeaders. fair. Qed.
Lemma fair_UpReceiveData d e : noninc w (UpReceiveData d e).
Proof. unfold UpReceiveData, withDownStream, onUpstreamData. fair. Qed.
Lemma fair_UpReceiveTrailers t : noninc w (UpReceiveTrailers t).
Proof. unfold UpReceiveTrailers, withDownStream, onUpstreamTrailers. fair. Qed.
Hint Resolve fair_UpReceiveHeaders fair_UpReceiveData fair_UpReceiveTrailers : fair.
Lemma fair_UpReceive : noninc w UpReceive.
Proof. unfold UpReceive, withDownStream. fair. Qed.
Lemma fair_UpOnResetStream : noninc w UpOnResetStream.
Proof. unfold UpOnResetStream, withDownStream. fair. Qed.
Hint Resolve fair_UpReceive fair_UpOnResetStream : fair.

Lemma fair_runJob j : noninc w (runJob set_status no_headers env j).
Proof. destruct j; simpl; unfold ResetStream, withDownStream, ResetStreamUp; fair. Qed.
Hint Resolve fair_runJob : fair.

Lemma fair_step a : noninc w (step set_status no_headers env a).
Proof.
  destruct a; simpl; unfold OnReceive, OnReceiveHeaders, OnReceiveData, OnReceiveTrailers,
    OnDecodeError, ContinueReceiving, UpOnReceive, UpOnReceiveHeaders, UpOnReceiveData,
    UpOnReceiveTrailers, withDownStream, timerFires, onResponseTimeout, onPerReqTimeout;
    try (by fair).
  - intros st. unfold mbind at 1, stM_bind at 1, getS. destruct (downJobs st) as [|j js]; [simpl; lia|].
    rewrite (bind_eq _ _ _ () (set_downJobs js st)) by done.
    pose proof (fair_runJob j (set_downJobs js st)) as L. by rewrite fair_down in L.
  - intros st. unfold mbind at 1, stM_bind at 1, getS. destruct (upJobs st) as [|j js]; [simpl; lia|].
    rewrite (bind_eq _ _ _ () (set_upJobs js st)) by done.
    pose proof (fair_runJob j (set_upJobs js st)) as L. by rewrite fair_up in L.
Qed.

Lemma fair_run acts st : w (run set_status no_headers env acts st).2 ≤ w st.
Proof.
  revert st. induction acts as [|a acts IH]; intros st; simpl; [lia|].
  pose proof (fair_step a st) as Hs. destruct (step set_status no_headers env a st) as [r st1].
  specialize (IH st1). destruct (run _ _ _ acts st1) as [rs st2]. simpl in *. lia.
Qed.
End fair_methods.

(** ** A new stream *)

Section new.
Context {H : Type} (set_status : Z → H → H) (no_headers : H) (env : @proxyEnv).
Implicit Types (fs : list (receiverFilter (H := H))).

(** The active filters of a stream, before and after the headers have passed. *)
Definition actives (b : bool) fs : list activeFilter :=
  imap (λ i f, mkActive i false false b f) fs.

Lemma addFilters_eq fs (s : downStream (H := H)) :
  foldl (λ s f, AddStreamReceiverFilter f s) s fs =
  set_receiverFilters (receiverFilters s ++
    imap (λ i f, mkActive (length (receiverFilters s) + i) false false false f) fs) s.
Proof.
  revert s. induction fs as [|f fs IH]; intros s; simpl.
  - rewrite app_nil_r. by destruct s.
  - rewrite IH. unfold AddStreamReceiverFilter. simpl. rewrite length_app, <- app_assoc. simpl.
    rewrite Nat.add_0_r. change (set_receiverFilters ?a (set_receiverFilters ?b s))
      with (set_receiverFilters a s).
    assert (imap (λ i f, mkActive (length (receiverFilters s) + 1 + i) false false false f) fs =
      imap ((λ i f, mkActive (length (receiverFilters s) + i) false false false f) ∘ S) fs) as ->; [|done].
    apply imap_ext. intros i x _. simpl. f_equal. lia.
Qed.

Lemma new_eq id fs :
  NewStreamDetect id fs =
  mkState (set_receiverFilters (actives false fs) (set_element true (newActiveStream id)))
    zeroRequest [] [] [].
Proof. unfold NewStreamDetect. by rewrite addFilters_eq. Qed.

Lemma actives_index b fs : index <$> actives b fs = seq 0 (length fs).
Proof.
  unfold actives. apply list_eq. intros i. rewrite list_lookup_fmap, list_lookup_imap.
  destruct (fs !! i) as [f|] eqn:E; simpl.
  - symmetry. apply lookup_seq. split; [done|]. by eapply lookup_lt_Some.
  - symmetry. apply lookup_ge_None. rewrite length_seq. by apply lookup_ge_None.
Qed.

Lemma destroys_actives i b fs : destroys i (actives b fs) ≤ 1.
Proof.
  assert (∀ l : list activeFilter, NoDup (index <$> l) → destroys (H := H) i l ≤ 1) as K.
  { induction l as [|f l IH]; unfold destroys in *; simpl; intros N; [lia|].
    apply list.NoDup_cons in N as [Nf N]. specialize (IH N). case_bool_decide as E; [|lia].
    assert (zsum (λ f, if index f =b i then 1 else 0) l = 0) as ->; [|lia].
    subst i. clear IH N. induction l as [|g l IHl]; simpl; [done|].
    rewrite bool_decide_eq_false_2 by set_solver. rewrite IHl by set_solver. done. }
  apply K. rewrite actives_index. apply NoDup_ListNoDup, seq_NoDup.
Qed.

Lemma destroy_actives b fs :
  (λ f, EDestroy (H := H) (index f)) <$> actives b fs = EDestroy <$> seq 0 (length fs).
Proof. rewrite <- (actives_index b fs), <- list_fmap_compose. done. Qed.

(** ** Filters that let the headers pass *)

Definition passes (f : receiverFilter (H := H)) : Prop :=
  ∀ h e, OnReceiveHeadersF f h e = ([], Continue).

Lemma stage_noop (s : downStream (H := H)) :
  set_filterStage (Z.land (Z.lor (filterStage s) DecodeHeaders) (Z.lnot DecodeHeaders)) s = s.
Proof.
  unfold DecodeHeaders. rewrite Z.lor_0_r. change (Z.lnot 0) with (-1). rewrite Z.land_m1_r. by destruct s.
Qed.

Definition continued (f : activeFilter (H := H)) : activeFilter :=
  mkActive (index f) (stopped f) (stoppedNoBuf f) true (filter f).

Lemma alter_prefix {A} (g : A → A) (l : list A) i x : l !! i = Some x →
  take (S i) (alter g i l) ++ (g <$> drop (S i) (alter g i l)) = take i l ++ (g <$> drop i l).
Proof.
  revert i. induction l as [|y l IH]; intros [|i] E; simplify_eq/=; [done|].
  f_equal. by apply IH.
Qed.

Lemma headers_loop_eq fuel i h e (st : state (H := H)) :
  let fs := receiverFilters (ds st) in
  Forall (λ f, passes (filter f)) fs → (length fs < fuel + i)%nat →
  headers_loop set_status no_headers fuel i h e st =
  (Ok false, set_ds (set_receiverFilters (take i fs ++ (continued <$> drop i fs)) (ds st)) st).
Proof.
  intros fs. revert i st fs. induction fuel as [|fuel IH]; intros i st fs F Hl.
  - simpl. rewrite take_ge, drop_ge by lia. rewrite app_nil_r. by destruct st as [[] ? ? ? ?].
  - cbn [headers_loop]. erewrite bind_eq by reflexivity. fold fs.
    destruct (fs !! i) as [f|] eqn:Ef.
    2:{ apply lookup_ge_None in Ef. rewrite take_ge, drop_ge by done. rewrite app_nil_r.
        by destruct st as [[] ? ? ? ?]. }
    unfold enterStage. erewrite bind_eq by reflexivity.
    rewrite (list.Forall_lookup_1 _ _ _ _ F Ef). cbn [filterOps_run].
    erewrite bind_eq by reflexivity. unfold leaveStage. erewrite bind_eq by reflexivity.
    cbn [handleHeaderStatus]. erewrite bind_eq by reflexivity.
    destruct st as [s r dj uj tr]. simpl in *.
    set (s1 := set_filterStage _ _). assert (s1 = s) as ->.
    { unfold s1. simpl. exact (stage_noop s). }
    rewrite IH; cbn [ds set_ds receiverFilters set_receiverFilters].
    + fold fs. change (set_ds ?x (set_ds _ ?y)) with (set_ds x y).
      unfold set_ds. cbn [rq downJobs upJobs trace].
      change (alter _ i fs) with (alter continued i fs).
      rewrite (alter_prefix continued fs i f Ef). done.
    + apply list.Forall_alter; [done|]. by intros.
    + rewrite length_alter. fold fs. lia.
Qed.

Lemma continued_actives fs : continued <$> actives false fs = actives true fs.
Proof. unfold actives. by rewrite fmap_imap. Qed.

Lemma actives_all (P : receiverFilter → Prop) b fs :
  Forall P fs → Forall (λ f, P (filter f)) (actives b fs).
Proof.
  intros F. apply list.Forall_lookup. intros i x Hx. unfold actives in Hx.
  rewrite list_lookup_imap in Hx. apply fmap_Some in Hx as (f & Hf & ->). simpl.
  by apply (list.Forall_lookup_1 _ _ _ _ F Hf).
Qed.

Lemma passes_run h e (st : state (H := H)) :
  Forall (λ f, passes (filter f)) (receiverFilters (ds st)) →
  runReceiveHeadersFilters set_status no_headers None h e st =
  (Ok false, set_ds (set_receiverFilters (continued <$> receiverFilters (ds st)) (ds st)) st).
Proof.
  intros F. unfold runReceiveHeadersFilters. erewrite bind_eq by reflexivity.
  cbn [start]. rewrite headers_loop_eq by (done || lia). by rewrite take_0, drop_0.
Qed.

(** The effects in a trace are bounded by its weight, and a new stream weighs at
    most one. *)
Lemma weights (st : state (H := H)) :
  cnt isDelete (trace st) ≤ wDelete st ∧ cnt isGive (trace st) ≤ wGive st ∧
  ∀ i, cnt (isDestroy i) (trace st) ≤ wDestroy i st.
Proof.
  unfold wDelete, wGive, wDestroy, left_. split_and!; [case_match; lia|case_match; lia|].
  intros i. assert (0 ≤ destroys i (receiverFilters (ds st))); [|case_match; lia].
  apply zsum_nonneg. intros x. case_match; lia.
Qed.
Lemma weights_new id fs :
  wDelete (NewStreamDetect id fs) = 1 ∧ wGive (NewStreamDetect id fs) = 1 ∧
  ∀ i, wDestroy i (NewStreamDetect id fs) ≤ 1.
Proof. rewrite new_eq. split_and!; [done|done|]. intros i. apply (destroys_actives i false fs). Qed.

(** C3: a stream whose life takes any course — requests, filters that reply or
    stop, responses, resets, errors, timeouts and panics in any order, also after
    its buffers were given back — is removed from the proxy at most once, gives
    its buffers back at most once and destroys each of its filters at most once. *)
Theorem stream_once acts id fs :
  let tr := trace (run set_status no_headers env acts (NewStreamDetect id fs)).2 in
  cnt isDelete tr ≤ 1 ∧ cnt isGive tr ≤ 1 ∧ ∀ i, cnt (isDestroy i) tr ≤ 1.
Proof.
  intros tr. destruct (weights_new id fs) as (E1 & E2 & E3).
  pose proof (λ w F, fair_run set_status no_headers env w F acts (NewStreamDetect id fs)) as D.
  destruct (weights (run set_status no_headers env acts (NewStreamDetect id fs)).2) as (L1 & L2 & L3).
  split_and!; [|intros|intros i].
  - specialize (D _ fair_wDelete). unfold tr. lia.
  - specialize (D _ fair_wGive). unfold tr. lia.
  - specialize (D _ (fair_wDestroy i)). specialize (E3 i). specialize (L3 i). unfold tr. lia.
Qed.

Definition body (d : option bytes) (e : effect (H := H)) : list (effect (H := H)) :=
  match d with Some _ => [e] | None => [] end.
Definition no_body (d : option bytes) : bool := match d with Some _ => false | None => true end.

(** The headers pass the filters and go upstream at once. *)
Lemma ReceiveHeaders_pass h e s dj uj tr :
  Forall (λ f, passes (filter f)) (receiverFilters s) →
  getUpstreamConnPool env (getUpstreamProtocol env) = Some PoolReady →
  hasProxy s = true → timeout s = None →
  upstreamProcessDone s || downstreamReset s || downstreamCleaned s = false →
  ReceiveHeaders set_status no_headers env h e (mkState s zeroRequest dj uj tr) =
  (Ok (), mkState
    (set_upstreamRequestSent (e || upstreamRequestSent s) (set_hasUpstreamRequest true
      (set_receiverFilters (continued <$> receiverFilters s) (set_downstreamRecvDone e s))))
    (mkRequest true true e false false false) dj uj
    (tr ++ [ENewStream; EReqHeaders (downstreamReqHeaders s) e])).
Proof.
  intros F Hp Hx Ht Hd. unfold ReceiveHeaders. erewrite bind_eq by reflexivity.
  unfold doReceiveHeaders. erewrite bind_eq by (by apply passes_run).
  unfold initializeUpstreamConnectionPool. erewrite bind_eq; cycle 1.
  { erewrite bind_eq by reflexivity. cbn [ds set_ds hasProxy set_receiverFilters set_downstreamRecvDone].
    rewrite Hx, Hp. reflexivity. }
  cbv beta iota. erewrite bind_eq by reflexivity. erewrite bind_eq by reflexivity.
  unfold reqAppendHeaders, withRequest. erewrite bind_eq; cycle 1.
  { erewrite bind_eq by reflexivity. cbn. erewrite bind_eq by reflexivity. cbn. rewrite Hd.
    do 2 erewrite bind_eq by reflexivity. unfold OnReady. do 2 erewrite bind_eq by reflexivity. cbn.
    reflexivity. }
  unfold onUpstreamRequestSent. destruct e; cbn [when].
  - do 2 erewrite bind_eq by reflexivity. cbn. by rewrite Ht, <- app_assoc.
  - cbn. rewrite <- app_assoc. by destruct s.
Qed.

(** The headers pass the filters, and the pool has no stream for them. *)
Lemma ReceiveHeaders_lost h s dj uj tr reason :
  Forall (λ f, passes (filter f)) (receiverFilters s) →
  getUpstreamConnPool env (getUpstreamProtocol env) = Some (PoolFailed reason) →
  hasProxy s = true → timeout s = None →
  upstreamProcessDone s || downstreamReset s || downstreamCleaned s = false →
  ∃ s' r', ReceiveHeaders set_status no_headers env h true (mkState s zeroRequest dj uj tr) =
    (Ok (), mkState s' r' dj uj (tr ++ [ENewStream])) ∧
    downstreamReqDataBuf s' = downstreamReqDataBuf s ∧ downstreamReqTrailers s' = downstreamReqTrailers s.
Proof.
  intros F Hp Hx Ht Hd. unfold ReceiveHeaders. eexists _, _. erewrite bind_eq by reflexivity.
  unfold doReceiveHeaders. erewrite bind_eq by (by apply passes_run).
  unfold initializeUpstreamConnectionPool. erewrite bind_eq; cycle 1.
  { erewrite bind_eq by reflexivity. cbn [ds set_ds hasProxy set_receiverFilters set_downstreamRecvDone].
    rewrite Hx, Hp. reflexivity. }
  cbv beta iota. erewrite bind_eq by reflexivity. erewrite bind_eq by reflexivity.
  unfold reqAppendHeaders, withRequest. erewrite bind_eq; cycle 1.
  { erewrite bind_eq by reflexivity. cbn. erewrite bind_eq by reflexivity. cbn. rewrite Hd.
    do 2 erewrite bind_eq by reflexivity. reflexivity. }
  unfold onUpstreamRequestSent. cbn [when]. do 2 erewrite bind_eq by reflexivity. cbn. rewrite Ht. done.
Qed.

(** The end of a stream that nothing was reset in: its memory is given back. *)
Lemma endStream_give s r dj uj tr :
  downstreamCleaned s = false → downstreamRecvDone s = true → giveable s = true →
  upstreamProcessDone s = true → element s = true →
  endStream (mkState s r dj uj tr) =
  (Ok (), mkState zeroStream zeroRequest dj uj
    (tr ++ ((λ f, EDestroy (index f)) <$> receiverFilters s) ++ [EDelete] ++
     body (downstreamReqDataBuf s) EPutIoBuffer ++ [EGive])).
Proof.
  intros Hc Hr Hg Hp He. unfold endStream. erewrite bind_eq by reflexivity. cbn [ds].
  rewrite Hr, andb_false_r. cbn [when]. erewrite bind_eq by reflexivity.
  destruct (cleanStream_eq (mkState s r dj uj tr) Hc) as (s' & r' & -> & G). cbn [ds] in G.
  rewrite Hg in G. destruct G as [-> ->]. cbn [downJobs upJobs trace]. do 3 f_equal.
  unfold cleanTrace, resets. cbn [ds rq]. rewrite Hp, He, Hg, andb_false_r. simpl. do 3 f_equal.
  unfold giveable in Hg. apply andb_true_iff in Hg as [Hg _]. rewrite Hg.
  by destruct (downstreamReqDataBuf s).
Qed.

(** A request that has been sent upstream, the structs and the trace. *)
Definition askedStream id fs h d : downStream (H := H) :=
  set_downstreamReqHeaders h (set_downstreamReqDataBuf d
    (set_receiverFilters (actives false fs) (set_element true (newActiveStream id)))).
Definition sentStream id fs h d : downStream (H := H) :=
  set_upstreamRequestSent true (set_hasUpstreamRequest true
    (set_receiverFilters (actives true fs) (set_downstreamRecvDone true (askedStream id fs h d)))).
Definition sentRequest (d : option bytes) : upstreamRequest :=
  mkRequest true true true (negb (no_body d)) false false.

Lemma request_asked id fs h d p :
  step set_status no_headers env (IReceive h d None p) (NewStreamDetect id fs) =
  (Ok (), mkState (askedStream id fs h d) zeroRequest [JReceive] [] []).
Proof. rewrite new_eq. destruct d, p; by vm_compute. Qed.

Lemma request_sent id fs h d :
  getUpstreamConnPool env (getUpstreamProtocol env) = Some PoolReady → Forall passes fs →
  step set_status no_headers env WDown (mkState (askedStream id fs h d) zeroRequest [JReceive] [] []) =
  (Ok (), mkState (sentStream id fs h d) (sentRequest d) [] []
     ([ENewStream; EReqHeaders h (no_body d)] ++ body d (EReqData d true))).
Proof.
  intros Hp F. cbn [step]. erewrite bind_eq by reflexivity. cbn [downJobs].
  erewrite bind_eq by reflexivity. cbn [runJob]. unfold Receive.
  erewrite bind_eq by reflexivity. cbv zeta.
  erewrite bind_eq by (apply ReceiveHeaders_pass; try done; by apply actives_all).
  cbn [set_downJobs downJobs upJobs trace ds receiverFilters askedStream
    set_downstreamReqHeaders set_downstreamReqDataBuf set_receiverFilters].
  rewrite continued_actives. destruct d; by vm_compute.
Qed.

(** A request without a body that no upstream takes: no answer and no further job. *)
Lemma request_lost id fs h reason :
  getUpstreamConnPool env (getUpstreamProtocol env) = Some (PoolFailed reason) → Forall passes fs →
  ∃ s' r', step set_status no_headers env WDown (mkState (askedStream id fs h None) zeroRequest [JReceive] [] []) =
    (Ok (), mkState s' r' [] [] [ENewStream]).
Proof.
  intros Hp F. cbn [step]. erewrite bind_eq by reflexivity. cbn [downJobs].
  erewrite bind_eq by reflexivity. cbn [runJob]. unfold Receive.
  destruct (ReceiveHeaders_lost h (askedStream id fs h None) [] [] [] reason) as (s' & r' & E & E1 & E2); try done.
  { by apply actives_all. }
  exists s', r'. erewrite bind_eq by reflexivity. cbv zeta. erewrite bind_eq by exact E. done.
Qed.

Definition answeredStream id fs h d h' d' : downStream (H := H) :=
  set_downstreamRespHeaders h' (set_downstreamRespDataBuf d' (sentStream id fs h d)).
Lemma response_asked id fs h d h' d' p' tr :
  step set_status no_headers env (IUpReceive h' d' None p')
    (mkState (sentStream id fs h d) (sentRequest d) [] [] tr) =
  (Ok (), mkState (answeredStream id fs h d h' d') (sentRequest d) [] [JUpReceive] tr).
Proof. destruct d', p'; by vm_compute. Qed.

(** A piece of the response goes on; after the last one the stream ends. *)
Definition answering h (s : downStream (H := H)) : downStream :=
  set_downstreamResponseStarted true (set_downstreamRespHeaders h s).
Definition timersOff (s : downStream (H := H)) : downStream :=
  set_responseTimer false (set_perRetryTimer false s).
Lemma UpReceiveHeaders_eq h e s r dj uj tr :
  hasDownStream r = true → responseSender s = true → upstreamRequestSent s = true →
  hasUpstreamRequest s = true →
  UpReceiveHeaders h e (mkState s r dj uj tr) =
  if e then endStream (mkState (set_upstreamProcessDone true (timersOff (answering h s)))
    (set_requestSender false r) dj uj (tr ++ [ERespHeaders h e]))
  else (Ok (), mkState (set_upstreamProcessDone false (answering h s)) r dj uj (tr ++ [ERespHeaders h e])).
Proof.
  intros Hd Hs Hq Hu. unfold UpReceiveHeaders, withDownStream. erewrite bind_eq by reflexivity. cbn [rq].
  rewrite Hd. unfold onUpstreamHeaders. do 2 erewrite bind_eq by reflexivity. destruct e; cbn [when].
  - unfold onUpstreamResponseRecvFinished. erewrite bind_eq; cycle 1.
    { erewrite bind_eq by reflexivity. cbn [ds set_ds upstreamRequestSent set_downstreamResponseStarted
        set_downstreamRespHeaders]. rewrite Hq. erewrite bind_eq by reflexivity. apply cleanUp_eq. }
    cbn. rewrite Hu. unfold appendHeaders. erewrite bind_eq by reflexivity.
    unfold doAppendHeaders. erewrite bind_eq by reflexivity. cbn. rewrite Hs. by erewrite bind_eq.
  - erewrite bind_eq by reflexivity. unfold appendHeaders. erewrite bind_eq by reflexivity.
    unfold doAppendHeaders. erewrite bind_eq by reflexivity. cbn. rewrite Hs. by erewrite bind_eq.
Qed.
Lemma UpReceiveData_eq d s r dj uj tr :
  hasDownStream r = true → setupRetry r = false → responseSender s = true →
  upstreamRequestSent s = true → hasUpstreamRequest s = true →
  upstreamProcessDone s || downstreamReset s || downstreamCleaned s = false →
  UpReceiveData d true (mkState s r dj uj tr) =
  endStream (mkState (set_upstreamProcessDone true (timersOff s))
    (set_requestSender false r) dj uj (tr ++ [ERespData d true])).
Proof.
  intros Hd Hr Hs Hq Hu Hp. unfold UpReceiveData, withDownStream. erewrite bind_eq by reflexivity. cbn [rq].
  rewrite Hd. do 2 erewrite bind_eq by reflexivity. cbn [ds rq]. rewrite Hp, Hr. cbn [orb].
  unfold onUpstreamData. cbn [when]. unfold onUpstreamResponseRecvFinished. erewrite bind_eq; cycle 1.
  { erewrite bind_eq by reflexivity. cbn [ds]. rewrite Hq. erewrite bind_eq by reflexivity. apply cleanUp_eq. }
  cbn. rewrite Hu. unfold appendData. erewrite bind_eq by reflexivity.
  unfold doAppendData. erewrite bind_eq by reflexivity. cbn. rewrite Hs. by erewrite bind_eq.
Qed.

Lemma response_sent id fs h d h' d' tr :
  step set_status no_headers env WUp
    (mkState (answeredStream id fs h d h' d') (sentRequest d) [] [JUpReceive] tr) =
  (Ok (), mkState zeroStream zeroRequest [] []
     (tr ++ [ERespHeaders h' (no_body d')] ++ body d' (ERespData d' true) ++
      (EDestroy <$> seq 0 (length fs)) ++ [EDelete] ++ body d EPutIoBuffer ++ [EGive])).
Proof.
  rewrite <- (destroy_actives true). cbn [step]. erewrite bind_eq by reflexivity. cbn [upJobs].
  erewrite bind_eq by reflexivity. cbn [runJob]. unfold UpReceive, withDownStream.
  erewrite bind_eq by reflexivity. cbn [rq set_upJobs sentRequest hasDownStream].
  do 2 erewrite bind_eq by reflexivity. cbn -[UpReceiveHeaders UpReceiveData].
  destruct d' as [d'|].
  - change (negb (bool_decide (is_Some (Some d')))) with false.
    unfold set_upJobs. cbn [ds rq downJobs trace].
    erewrite bind_eq by (by apply (UpReceiveHeaders_eq h' false)).
    change (bool_decide (is_Some (Some d'))) with true. cbn [when].
    erewrite bind_eq; [reflexivity|]. erewrite bind_eq by reflexivity. cbn [ds].
    rewrite UpReceiveData_eq by done. rewrite endStream_give by done.
    by rewrite <- !app_assoc.
  - change (negb (bool_decide (is_Some None))) with true.
    unfold set_upJobs. cbn [ds rq downJobs trace].
    erewrite bind_eq; [reflexivity|]. rewrite UpReceiveHeaders_eq by done.
    rewrite endStream_give by done. by rewrite <- !app_assoc.
Qed.

(** C18: when the pool of the upstream protocol is ready and the filters let the
    request pass, the request is sent upstream piece by piece, the last piece
    marked as the end, and so is the response downstream; then every filter is
    destroyed, the stream removed, the request's data and the stream's memory
    given back, and no job is left. *)
Theorem proxy_forwards id fs h d p h' d' p' :
  getUpstreamConnPool env (getUpstreamProtocol env) = Some PoolReady →
  Forall passes fs →
  run set_status no_headers env [IReceive h d None p; WDown; IUpReceive h' d' None p'; WUp]
    (NewStreamDetect id fs) =
  ([Ok (); Ok (); Ok (); Ok ()],
   mkState zeroStream zeroRequest [] []
     ([ENewStream; EReqHeaders h (no_body d)] ++ body d (EReqData d true) ++
      [ERespHeaders h' (no_body d')] ++ body d' (ERespData d' true) ++
      (EDestroy <$> seq 0 (length fs)) ++ [EDelete] ++ body d EPutIoBuffer ++ [EGive])).
Proof.
  intros Hp F. cbn [run]. rewrite request_asked, request_sent, response_asked, response_sent by done.
  by rewrite <- !app_assoc.
Qed.
End new.

(** ** One end of the response

    [K] holds between the steps of a stream that receives one whole request
    without trailers: what was sent after the end of the response, and what jobs
    there are. *)

Section ending.
Context {H : Type} (set_status : Z → H → H) (no_headers : H) (env : @proxyEnv).
Abbreviation St := (state (H := H)).
Implicit Types (st : St) (e : effect (H := H)).

Definition isResp e : bool :=
  match e with ERespHeaders _ _ | ERespData _ _ | ERespTrailers _ => true | _ => false end.
Definition isEnd e : bool :=
  match e with ERespHeaders _ b | ERespData _ b => b | ERespTrailers _ => true | _ => false end.
Fixpoint one_end (tr : list (effect (H := H))) : Prop :=
  match tr with
  | [] => True
  | e :: tr' => (isEnd e = true → Forall (λ x, isResp x = false) tr') ∧ one_end tr'
  end.

Lemma isEnd_resp e : isResp e = false → isEnd e = false.
Proof. by destruct e. Qed.
Lemma one_end_other tr l : one_end tr → Forall (λ x, isResp x = false) l → one_end (tr ++ l).
Proof.
  intros E F. induction tr as [|e tr IH]; simpl in *.
  - induction F; simpl; [done|]. split; [done|]. done.
  - destruct E as [E1 E2]. split; [|by apply IH]. intros He. apply Forall_app. auto.
Qed.
Lemma one_end_first tr e : Forall (λ x, isEnd x = false) tr → one_end (tr ++ [e]).
Proof. induction 1 as [|x tr Hx _ IH]; simpl; [done|]. split; [by rewrite Hx|done]. Qed.

(** A filter that ends the response, if at all, by its last call, and then stops. *)
Definition ends (o : filterOp (H := H)) : bool :=
  match o with
  | FAppendHeaders _ b | FAppendData _ b => b
  | FAppendTrailers _ | FSendHijackReply _ _ _ => true
  end.
Fixpoint last_ends (os : list (filterOp (H := H))) : bool :=
  match os with
  | [] => false
  | [o] => ends o
  | _ :: os' => last_ends os'
  end.
Fixpoint early_end (os : list (filterOp (H := H))) : bool :=
  match os with
  | o :: (_ :: _) as os' => ends o || early_end os'
  | _ => false
  end.
Definition tidy (f : receiverFilter (H := H)) : Prop := ∀ h b,
  let '(ops, c) := OnReceiveHeadersF f h b in
  early_end ops = false ∧ (last_ends ops = true → c = Stop).

Definition isUpJob (j : job (H := H)) : bool :=
  match j with
  | JUpReceive | JUpReceiveData _ | JUpReceiveTrailers _ | JUpReset => true
  | _ => false
  end.
Definition open st : bool := negb (downstreamCleaned (ds st)) && responseSender (ds st).

Record K st : Prop := mkK {
  K_end : one_end (trace st);
  K_open : open st = true → Forall (λ x, isEnd x = false) (trace st);
  K_down : Forall (λ j, j = JReset) (downJobs st);
  K_up : Forall (λ j, isUpJob j = true) (upJobs st);
  K_trailers : downstreamReqTrailers (ds st) = None;
  K_filters : Forall (λ f, tidy (filter f)) (receiverFilters (ds st))
}.

(** [keeps m]: from [K] always; [sends m φ]: from a stream that is not cleaned,
    and then it still is not if [m] returned a value with [φ]. *)
Definition keeps {A} (m : stM panic St A) : Prop := ∀ st, K st → K (m st).2.
Definition sends {A} (m : stM panic St A) (φ : A → Prop) : Prop := ∀ st,
  K st → downstreamCleaned (ds st) = false →
  K (m st).2 ∧ ∀ a, (m st).1 = Ok a → φ a → downstreamCleaned (ds (m st).2) = false.

Lemma keeps_bind {A B} (m : stM panic St A) (k : A → stM panic St B) :
  keeps m → (∀ a, keeps (k a)) → keeps (m ≫= k).
Proof.
  intros Hm Hk st HK. specialize (Hm st HK). unfold mbind, stM_bind.
  destruct (m st) as [[a|x] st1]; simpl in *; [|done]. by apply Hk.
Qed.
Lemma keeps_ret {A} (a : A) : keeps (mret a).
Proof. by intros st. Qed.
Lemma keeps_get : keeps getS.
Proof. by intros st. Qed.
Lemma keeps_nil {A} : keeps (@nil_deref H A).
Proof. by intros st. Qed.
Lemma keeps_when b (m : stM panic St unit) : keeps m → keeps (when b m).
Proof. intros Hm. destruct b; [done|apply keeps_ret]. Qed.
Lemma keeps_recovered (m : stM panic St unit) : keeps m → keeps (recovered m).
Proof. intros Hm st HK. simpl. by apply Hm. Qed.

Lemma sends_then {A B} (m : stM panic St A) (k : A → stM panic St B) :
  sends m (λ _, False) → (∀ a, keeps (k a)) → sends (m ≫= k) (λ _, False).
Proof.
  intros Hm Hk st HK Hc. destruct (Hm st HK Hc) as [H1 _]. split; [|done].
  unfold mbind, stM_bind. destruct (m st) as [[a|x] st1]; simpl in *; [|done]. by apply Hk.
Qed.
Lemma sends_bind {A B} (m : stM panic St A) (k : A → stM panic St B) φ :
  sends m (λ _, True) → (∀ a, sends (k a) φ) → sends (m ≫= k) φ.
Proof.
  intros Hm Hk st HK Hc. destruct (Hm st HK Hc) as [H1 H2]. unfold mbind, stM_bind.
  destruct (m st) as [[a|x] st1]; simpl in *; [|done]. apply Hk; eauto.
Qed.
Lemma sends_keeps {A} (m : stM panic St A) : keeps m → sends m (λ _, False).
Proof. intros Hm st HK _. split; [by apply Hm|done]. Qed.
Lemma sends_weaken {A} (m : stM panic St A) (φ ψ : A → Prop) :
  (∀ a, ψ a → φ a) → sends m φ → sends m ψ.
Proof. intros Hi Hm st HK Hc. destruct (Hm st HK Hc) as [? Hs]. split; [done|]. eauto. Qed.

(** A guard by processDone. *)
Lemma keeps_guard (m : St → stM panic St unit) (x : St → bool) :
  (∀ st, sends (m st) (λ _, False)) →
  keeps (done ← processDone; st ← getS; if ((done : bool) || x st) then mret () else m st).
Proof.
  intros Hm st HK. unfold processDone, mbind, stM_bind, getS. simpl.
  destruct (downstreamCleaned (ds st)) eqn:E.
  - by rewrite orb_true_r.
  - destruct (_ || _ || _ || x st); [done|]. by apply Hm.
Qed.
Lemma keeps_guard' (m : stM panic St unit) :
  sends m (λ _, False) → keeps (done ← processDone; if (done : bool) then mret () else m).
Proof.
  intros Hm st HK. unfold processDone, mbind, stM_bind, getS. simpl.
  destruct (downstreamCleaned (ds st)) eqn:E.
  - by rewrite orb_true_r.
  - destruct (_ || _ || _); [done|]. by apply Hm.
Qed.

(** Updates that open nothing. *)
Definition gentle (f : downStream (H := H) → downStream) : Prop := ∀ s,
  downstreamCleaned (f s) = downstreamCleaned s ∧ responseSender (f s) = responseSender s ∧
  downstreamReqTrailers (f s) = downstreamReqTrailers s ∧
  (Forall (λ f, tidy (filter f)) (receiverFilters s) →
   Forall (λ f, tidy (filter f)) (receiverFilters (f s))).

Lemma keeps_upd f : gentle f → keeps (upd f).
Proof.
  intros Hf st []. destruct (Hf (ds st)) as (E1 & E2 & E3 & E4). split; simpl; try done.
  - intros Ho. apply K_open0. unfold open in *. simpl in Ho. by rewrite E1, E2 in Ho.
  - by rewrite E3.
  - by apply E4.
Qed.
Lemma sends_upd f : gentle f → sends (upd f) (λ _, True).
Proof.
  intros Hf st HK Hc. split; [by apply keeps_upd|]. intros _ _ _. simpl.
  by destruct (Hf (ds st)) as (-> & _).
Qed.
Lemma keeps_updr f : keeps (updr f).
Proof. by intros st []. Qed.
Lemma sends_updr f : sends (updr f) (λ _, True).
Proof. intros st HK Hc. split; [by apply keeps_updr|done]. Qed.
Lemma keeps_emit e : isResp e = false → keeps (emit e).
Proof.
  intros He st []. split; simpl; try done.
  - apply one_end_other; [done|]. by constructor.
  - intros Ho. apply Forall_app. split; [by apply K_open0|]. constructor; [by apply isEnd_resp|done].
Qed.
Lemma keeps_offerDown b : keeps (offerDown JReset b).
Proof.
  intros st []. split; simpl; try done. destruct b; [by constructor|]. apply Forall_app. split; [done|].
  by constructor.
Qed.
Lemma keeps_offerUp j b : isUpJob j = true → keeps (offerUp j b).
Proof.
  intros Hj st []. split; simpl; try done. destruct b; [by constructor|]. apply Forall_app.
  split; [done|]. by constructor.
Qed.

Lemma cleanTrace_other st : Forall (λ e, isResp e = false) (cleanTrace st).
Proof.
  assert (∀ (b : bool) e, isResp e = false → Forall (λ x, isResp x = false) (if b then [e] else [])) as L.
  { intros [] e He; by repeat constructor. }
  unfold cleanTrace. rewrite !Forall_app. split_and!; try (by apply L).
  apply list.Forall_fmap. by apply list.Forall_true.
Qed.
Lemma clean_closes st : downstreamCleaned (ds st) = false → one_end (trace st) →
  Forall (λ j, j = JReset) (downJobs st) → Forall (λ j, isUpJob j = true) (upJobs st) →
  downstreamReqTrailers (ds st) = None → Forall (λ f, tidy (filter f)) (receiverFilters (ds st)) →
  K (cleanStream st).2.
Proof.
  intros Hc H1 H2 H3 H4 H5. destruct (cleanStream_eq st Hc) as (s & r & -> & G).
  assert (one_end (trace st ++ cleanTrace st)) by (by apply one_end_other, cleanTrace_other).
  destruct (giveable (ds st)); [by destruct G as [-> ->]|]. destruct G as (G1 & _ & _ & _ & G5 & G6).
  split; simpl; try done; [|congruence|by rewrite G6]. unfold open. simpl. by rewrite G1.
Qed.
Lemma keeps_clean : keeps cleanStream.
Proof.
  intros st HK. destruct (downstreamCleaned (ds st)) eqn:E; [|destruct HK; by apply clean_closes].
  unfold cleanStream, mbind, stM_bind, getS. simpl. by rewrite E.
Qed.

(** Sending a piece of the response. *)
Lemma sends_piece e b : isEnd e = b →
  sends (st ← getS; if responseSender (ds st) then emit e;; when b endStream else nil_deref)
    (λ _, b = false).
Proof.
  intros He st HK Hc. unfold mbind, stM_bind, getS. simpl. destruct (responseSender (ds st)) eqn:Hs; [|done].
  unfold emit, mbind, stM_bind, getS, putS. simpl. set (st1 := set_trace _ st).
  assert (open st = true) as Ho by (unfold open; by rewrite Hc, Hs).
  assert (one_end (trace st1)) as H1 by (apply one_end_first; by apply K_open).
  destruct HK as [K1 K2 K3 K4 K5 K6]. specialize (K2 Ho). destruct b; cbn [when].
  - unfold endStream. split; [|done]. unfold mbind, stM_bind, getS. simpl.
    destruct (_ && _); cbn [when]; simpl; by apply clean_closes.
  - split; [|done]. split; try done. intros _. apply Forall_app. split; [done|]. by constructor.
Qed.

Lemma keeps_updFilter i g : (∀ f, filter (g f) = filter f) → keeps (updFilter i g).
Proof.
  intros Hg. apply keeps_upd. intros s. split_and!; try done. simpl. intros F.
  apply list.Forall_alter; [done|]. intros f _ Hf. by rewrite Hg.
Qed.

Ltac gentle := intros ?; split_and!; [done|done|done|by intros].
Ltac keep1 :=
  match goal with
  | |- keeps (_ ≫= _) => apply keeps_bind; [|intros ?]
  | |- keeps (when _ _) => apply keeps_when
  | |- keeps (recovered _) => apply keeps_recovered
  | |- keeps (upd _) => apply keeps_upd; gentle
  | |- keeps (updr _) => apply keeps_updr
  | |- keeps (emit _) => apply keeps_emit; done
  | |- keeps (updFilter _ _) => apply keeps_updFilter; done
  | |- keeps (offerDown _ _) => apply keeps_offerDown
  | |- keeps (offerUp _ _) => apply keeps_offerUp; done
  | |- keeps cleanStream => apply keeps_clean
  | |- keeps (mret _) => apply keeps_ret
  | |- keeps getS => apply keeps_get
  | |- keeps nil_deref => apply keeps_nil
  | |- keeps (if ?b then _ else _) => destruct b
  | |- keeps (match ?x with _ => _ end) => destruct x
  | |- keeps _ => solve [auto with keeping]
  end.
Ltac keep := repeat keep1.
Create HintDb keeping discriminated.

Lemma keeps_onUpstreamRequestSent : keeps onUpstreamRequestSent.
Proof. unfold onUpstreamRequestSent, setupPerReqTimeout. keep. Qed.
Lemma keeps_resetRequest : keeps resetRequest.
Proof. unfold resetRequest. keep. Qed.
Lemma keeps_cleanUp : keeps cleanUp.
Proof. unfold cleanUp. keep. Qed.
Lemma keeps_processDone : keeps processDone.
Proof. unfold processDone. keep. Qed.
Lemma keeps_OnReady : keeps OnReady.
Proof. unfold OnReady. keep. Qed.
Lemma keeps_OnFailure r : keeps (OnFailure r).
Proof. unfold OnFailure, ResetStreamUp. keep. Qed.
Hint Resolve keeps_onUpstreamRequestSent keeps_resetRequest keeps_cleanUp keeps_processDone
  keeps_OnReady keeps_OnFailure : keeping.
Lemma keeps_reqAppendHeaders h b pool : keeps (reqAppendHeaders h b pool).
Proof. unfold reqAppendHeaders, withRequest. keep. Qed.
Lemma keeps_OnResetStream : keeps OnResetStream.
Proof. unfold OnResetStream. keep. Qed.
Lemma keeps_UpOnResetStream : keeps UpOnResetStream.
Proof. unfold UpOnResetStream, withDownStream. keep. Qed.
Hint Resolve keeps_reqAppendHeaders keeps_OnResetStream keeps_UpOnResetStream : keeping.

(** What sends: the response's own methods, hijacks, and the filters. *)
Lemma sends_appendHeaders h b : sends (appendHeaders h b) (λ _, b = false).
Proof. unfold appendHeaders. apply sends_bind; [apply sends_upd; gentle|intros _]. by apply sends_piece. Qed.
Lemma sends_appendData d b : sends (appendData d b) (λ _, b = false).
Proof. unfold appendData. apply sends_bind; [apply sends_upd; gentle|intros _]. by apply sends_piece. Qed.
Lemma sends_appendTrailers t : sends (appendTrailers t) (λ _, False).
Proof.
  unfold appendTrailers. apply sends_bind; [apply sends_upd; gentle|intros _].
  eapply sends_weaken; [|by apply (sends_piece (ERespTrailers t) true)]. done.
Qed.
Lemma sends_hijack c h b : sends (sendHijackReply set_status no_headers c h b) (λ _, False).
Proof. eapply sends_weaken; [|apply (sends_appendHeaders _ true)]. done. Qed.
Lemma sends_filterOp o : sends (filterOp_run set_status no_headers o) (λ _, ends o = false).
Proof.
  destruct o; simpl.
  - apply sends_bind; [apply sends_upd; gentle|intros _]. by apply sends_piece.
  - by apply sends_piece.
  - apply sends_bind; [apply sends_upd; gentle|intros _].
    eapply sends_weaken; [|by apply (sends_piece (ERespTrailers t) true)]. done.
  - eapply sends_weaken; [|apply sends_hijack]. done.
Qed.
Lemma sends_filterOps os : early_end os = false →
  sends (filterOps_run set_status no_headers os) (λ _, last_ends os = false).
Proof.
  induction os as [|o os IH]; intros He; [by intros st HK Hc|]. cbn [filterOps_run].
  destruct os as [|o' os].
  - intros st HK Hc. destruct (sends_filterOp o st HK Hc) as [H1 H2]. cbn [filterOps_run].
    unfold mbind, stM_bind. by destruct (filterOp_run _ _ o st) as [[[]|x] st1].
  - cbn [early_end] in He. apply orb_false_iff in He as [Ho He]. apply sends_bind; [|intros _; by apply IH].
    eapply sends_weaken; [|apply sends_filterOp]. done.
Qed.

Lemma sends_stop {A} (m : stM panic St A) (k : A → stM panic St bool) :
  sends m (λ _, False) → (∀ a st, (k a st).1 = Ok true) → (∀ a, keeps (k a)) →
  sends (m ≫= k) (λ r, r = false).
Proof.
  intros Hm Ht Hk st HK Hc. destruct (Hm st HK Hc) as [HK1 _]. unfold mbind, stM_bind.
  destruct (m st) as [[a|x] st1]; simpl in *; [|done]. split; [by apply Hk|].
  intros r. rewrite Ht. by intros [= <-].
Qed.
Lemma sends_loop fuel i h b : sends (headers_loop set_status no_headers fuel i h b) (λ r, r = false).
Proof.
  revert i. induction fuel as [|fuel IH]; intros i; [by intros st HK Hc|]. cbn [headers_loop].
  intros st HK Hc. erewrite bind_eq by reflexivity.
  destruct (receiverFilters (ds st) !! i) as [f|] eqn:Ef; [|done].
  pose proof (list.Forall_lookup_1 _ _ _ _ (K_filters _ HK) Ef h b) as T. cbv beta in T.
  destruct (OnReceiveHeadersF (filter f) h b) as [ops c]. destruct T as [T1 T2].
  revert st HK Hc Ef. cut (sends (enterStage DecodeHeaders;; filterOps_run set_status no_headers ops;;
    leaveStage DecodeHeaders;; stop ← handleHeaderStatus i c;
    if (stop : bool) then mret true else headers_loop set_status no_headers fuel (S i) h b) (λ r, r = false)).
  { intros Hs st HK Hc _. by apply Hs. }
  unfold enterStage, leaveStage. apply sends_bind; [apply sends_upd; gentle|intros _]. destruct c.
  - assert (last_ends ops = false) as Hl by (destruct (last_ends ops); [by specialize (T2 eq_refl)|done]).
    apply sends_bind; [|intros _; apply sends_bind; [apply sends_upd; gentle|intros _]].
    + eapply sends_weaken; [|by apply sends_filterOps]. done.
    + cbn [handleHeaderStatus]. apply sends_bind; [|intros []].
      * apply sends_bind; [|by intros _ st].
        intros st HK Hc. split; [by apply keeps_updFilter|done].
      * intros st HK Hc. by split.
      * apply IH.
  - apply sends_stop; [|done|].
    + eapply sends_weaken; [|by apply sends_filterOps]. done.
    + intros _. apply keeps_bind; [keep|intros _]. intros st HK.
      change (K (handleHeaderStatus i Stop st).2). revert st HK.
      change (keeps (handleHeaderStatus i Stop)). unfold handleHeaderStatus. keep.
Qed.

Lemma sends_doReceiveHeaders from h b :
  sends (doReceiveHeaders set_status no_headers env from h b) (λ _, False).
Proof.
  intros st HK Hc. split; [|done]. unfold doReceiveHeaders, runReceiveHeadersFilters, mbind at 1, stM_bind at 1.
  erewrite bind_eq by reflexivity. set (m := headers_loop _ _ _ _ _ _).
  assert (sends m (λ r, r = false)) as Hm by apply sends_loop.
  destruct (Hm st HK Hc) as [HK1 Hc1]. destruct (m st) as [[[]|x] st1]; [done| |done]. simpl in HK1, Hc1.
  specialize (Hc1 false eq_refl eq_refl). revert st1 HK1 Hc1.
  cut (sends (pool ← initializeUpstreamConnectionPool env;
    match pool with
    | None => st ← getS; sendHijackReply set_status no_headers NoHealthUpstreamCode (downstreamReqHeaders (ds st)) false
    | Some p => upd (set_hasUpstreamRequest true);; updr (set_hasDownStream true);;
                reqAppendHeaders h b p;; when b onUpstreamRequestSent
    end) (λ _, False)). { intros Hs st1 HK1 Hc1. by apply Hs. }
  apply sends_bind.
  { intros st1 HK1 Hc1. unfold initializeUpstreamConnectionPool, mbind, stM_bind, getS. simpl.
    by destruct (hasProxy (ds st1)). }
  intros [p|]; [apply sends_keeps; keep|]. apply sends_bind; [by intros st1 HK1 Hc1|].
  intros st1. apply sends_hijack.
Qed.

Lemma keeps_reqAppendData d b : keeps (reqAppendData set_status no_headers d b).
Proof.
  unfold reqAppendData, withRequest. apply keeps_bind; [keep|intros st0]. destruct (_ && _); [|keep].
  apply keeps_guard'. apply sends_bind; [apply sends_updr|intros _].
  apply sends_bind; [apply sends_updr|intros _]. apply sends_bind; [by intros st|intros st1].
  destruct (requestSender (rq st1)); [apply sends_keeps; keep|].
  apply sends_bind; [apply sends_upd; gentle|intros _]. apply sends_hijack.
Qed.
Hint Resolve keeps_reqAppendData : keeping.
Lemma keeps_ReceiveData d b : keeps (ReceiveData set_status no_headers d b).
Proof. unfold ReceiveData, doReceiveData, cleanIfDone. keep. Qed.
Hint Resolve keeps_ReceiveData : keeping.

Lemma sends_Receive : sends (Receive set_status no_headers env) (λ _, False).
Proof.
  intros st HK Hc. split; [|done]. unfold Receive. erewrite bind_eq by reflexivity. cbv zeta.
  rewrite (K_trailers _ HK). change (bool_decide (is_Some None)) with false. cbn [when].
  revert st HK Hc. cut (∀ (x y : bool) h, sends (ReceiveHeaders set_status no_headers env h x;;
    when y (st ← getS; ReceiveData set_status no_headers (downstreamReqDataBuf (ds st)) (negb false));;
    mret ()) (λ _, False)). { intros Hs st HK Hc. by apply Hs. }
  intros x y h. apply sends_then; [|intros _; keep]. unfold ReceiveHeaders.
  apply sends_bind; [apply sends_upd; gentle|intros _]. apply sends_doReceiveHeaders.
Qed.

(** *** The response *)

Lemma keeps_finished : keeps onUpstreamResponseRecvFinished.
Proof. unfold onUpstreamResponseRecvFinished. keep. Qed.
(** Nothing is cleaned on the way. *)
Lemma sends_ret {A} (a : A) φ : sends (mret a) φ.
Proof. by intros st HK Hc. Qed.
Lemma sends_when b (m : stM panic St unit) : sends m (λ _, True) → sends (when b m) (λ _, True).
Proof. intros Hm. destruct b; [done|apply sends_ret]. Qed.
Lemma sends_get φ : sends getS φ.
Proof. by intros st HK Hc. Qed.
Lemma sends_finished : sends onUpstreamResponseRecvFinished (λ _, True).
Proof.
  unfold onUpstreamResponseRecvFinished, cleanUp, resetRequest.
  apply sends_bind; [apply sends_get|intros st]. apply sends_bind.
  - apply sends_when. destruct (hasUpstreamRequest (ds st)).
    + apply sends_bind; [apply sends_get|intros st1]. apply sends_when.
      intros st2 HK Hc. split; [by apply keeps_emit|done].
    + by intros st1 HK Hc.
  - intros _. apply sends_bind; [apply sends_get|intros st1]. apply sends_bind.
    { apply sends_when, sends_updr. }
    intros _. apply sends_bind; [apply sends_upd; gentle|intros _]. apply sends_upd; gentle.
Qed.
Lemma sends_when_finished b : sends (when b onUpstreamResponseRecvFinished) (λ _, True).
Proof. apply sends_when, sends_finished. Qed.
Lemma sends_UpReceiveHeaders h b : sends (UpReceiveHeaders h b) (λ _, False).
Proof.
  unfold UpReceiveHeaders, withDownStream. apply sends_bind; [by intros st|intros st].
  destruct (hasDownStream (rq st)); [|by apply sends_keeps, keeps_nil]. unfold onUpstreamHeaders.
  apply sends_bind; [apply sends_upd; gentle|intros _]. apply sends_bind; [apply sends_upd; gentle|intros _].
  apply sends_bind; [apply sends_when_finished|intros _].
  eapply sends_weaken; [|apply sends_appendHeaders]. done.
Qed.
Lemma keeps_UpReceiveData d b : keeps (UpReceiveData d b).
Proof.
  unfold UpReceiveData, withDownStream. apply keeps_bind; [keep|intros st0]. destruct (hasDownStream _); [|keep].
  apply (keeps_guard (λ _, onUpstreamData d b) (λ st, setupRetry (rq st))). intros _. unfold onUpstreamData.
  apply sends_bind; [apply sends_when_finished|intros _].
  eapply sends_weaken; [|apply sends_appendData]. done.
Qed.
Lemma keeps_UpReceiveTrailers t : keeps (UpReceiveTrailers t).
Proof.
  unfold UpReceiveTrailers, withDownStream. apply keeps_bind; [keep|intros st0].
  destruct (hasDownStream _); [|keep].
  apply (keeps_guard (λ _, onUpstreamTrailers t) (λ st, setupRetry (rq st))). intros _.
  unfold onUpstreamTrailers. apply sends_bind; [apply sends_finished|intros _]. apply sends_appendTrailers.
Qed.
Hint Resolve keeps_UpReceiveData keeps_UpReceiveTrailers : keeping.
Lemma keeps_UpReceive : keeps UpReceive.
Proof.
  unfold UpReceive, withDownStream. apply keeps_bind; [keep|intros st0].
  destruct (hasDownStream _); [|keep].
  cbv zeta. refine (keeps_guard _ (λ st, setupRetry (rq st)) _).
  intros st. apply sends_then; [apply sends_UpReceiveHeaders|intros _]. keep.
Qed.
Hint Resolve keeps_UpReceive : keeping.

(** *** Runs *)

(** The calls that follow OnReceive when the client speaks whole responses, data
    or trailers: no second request, no bare headers, no decode error, no call of
    a filter outside its callback. *)
Definition calm (a : input (H := H)) : bool :=
  match a with
  | IReset | IUpReceive _ _ _ _ | IUpReceiveData _ _ | IUpReceiveTrailers _ | IUpReset
  | IReady | IFailure _ | IResponseTimer _ | IRetryTimer _ | WDown | WUp => true
  | _ => false
  end.

Lemma K_jobs st js ks : K st → Forall (λ j, j = JReset) js → Forall (λ j, isUpJob j = true) ks →
  K (set_upJobs ks (set_downJobs js st)).
Proof. intros [] ? ?. by split. Qed.

Lemma keeps_step a : calm a = true → keeps (step set_status no_headers env a).
Proof.
  destruct a; intros Hc; try discriminate Hc; simpl; unfold UpOnReceive, UpOnReceiveData,
    UpOnReceiveTrailers, withDownStream, timerFires, onResponseTimeout, onPerReqTimeout; try (by keep).
  - intros st HK. erewrite bind_eq by reflexivity. pose proof (K_down _ HK) as F.
    destruct (downJobs st) as [|j js]; [done|]. inversion F; subst. erewrite bind_eq by reflexivity.
    apply keeps_clean. apply (K_jobs st js (upJobs st)); [done|done|]. by apply K_up.
  - intros st HK. erewrite bind_eq by reflexivity. pose proof (K_up _ HK) as F.
    destruct (upJobs st) as [|j js]; [done|]. inversion F as [|? ? Hj Fj]; subst.
    erewrite bind_eq by reflexivity.
    assert (K (set_upJobs js st)) as HK1 by (apply (K_jobs st (downJobs st) js); [done|by apply K_down|done]).
    revert HK1. generalize (set_upJobs js st). change (keeps (runJob set_status no_headers env j)).
    destruct j; try discriminate Hj; simpl; unfold withDownStream, ResetStreamUp; keep.
Qed.

(** Until its worker has run, the request waits at the head of the queue. *)
Record pending st : Prop := mkPending {
  p_jobs : ∃ js, downJobs st = JReceive :: js ∧ Forall (λ j, j = JReset) js;
  p_up : upJobs st = [];
  p_trace : trace st = [];
  p_cleaned : downstreamCleaned (ds st) = false;
  p_asked : hasUpstreamRequest (ds st) = false;
  p_stream : hasDownStream (rq st) = false;
  p_trailers : downstreamReqTrailers (ds st) = None;
  p_filters : Forall (λ f, tidy (filter f)) (receiverFilters (ds st))
}.
Lemma pending_step a st : calm a = true → a ≠ WDown → pending st →
  pending (step set_status no_headers env a st).2.
Proof.
  intros Hc Ha [(js & J1 & J2) ? ? ? Hu Hd ? ?].
  destruct a; try discriminate Hc; try done; simpl; unfold UpOnReceive, UpOnReceiveData,
    UpOnReceiveTrailers, UpOnResetStream, withDownStream, timerFires, onResponseTimeout, onPerReqTimeout,
    OnResetStream, OnReady, OnFailure, ResetStreamUp, offerDown, recovered, when, upd, updr, mbind,
    stM_bind, getS, putS; simpl; repeat (case_match; simplify_eq/=); try congruence;
    split; simpl; try done; try (by eauto).
  exists (js ++ [JReset]). rewrite J1. split; [done|]. apply Forall_app. split; [done|]. by constructor.
Qed.
Lemma pending_down st : pending st → K (step set_status no_headers env WDown st).2.
Proof.
  intros [(js & J1 & J2) P1 P2 P3 _ _ P4 P5]. cbn [step]. erewrite bind_eq by reflexivity. rewrite J1.
  erewrite bind_eq by reflexivity. apply sends_Receive; [|done].
  split; simpl; rewrite ?P1, ?P2; try done.
Qed.
Lemma run_K acts st : Forall (λ a, calm a = true) acts → K st →
  K (run set_status no_headers env acts st).2.
Proof.
  intros F. revert st. induction F as [|a acts Ha _ IH]; intros st HK; [done|]. cbn [run].
  pose proof (keeps_step a Ha st HK) as HK1. destruct (step _ _ _ a st) as [r st1].
  specialize (IH st1 HK1). by destruct (run _ _ _ acts st1).
Qed.
Lemma run_pending acts st : Forall (λ a, calm a = true) acts → pending st →
  one_end (trace (run set_status no_headers env acts st).2).
Proof.
  intros F. revert st. induction F as [|a acts Ha F IH]; intros st HP; cbn [run].
  - simpl. by rewrite (p_trace _ HP).
  - assert (a = WDown ∨ a ≠ WDown) as [->|Hn] by
      (destruct a; first [by left|right; discriminate]).
    + pose proof (pending_down st HP) as HK. destruct (step _ _ _ WDown st) as [r st1].
      pose proof (K_end _ (run_K acts st1 F HK)) as E. by destruct (run _ _ _ acts st1).
    + pose proof (pending_step a st Ha Hn HP) as HP1. destruct (step _ _ _ a st) as [r st1].
      specialize (IH st1 HP1). by destruct (run _ _ _ acts st1).
Qed.

Lemma one_end_spec tr pre e post : one_end tr → tr = pre ++ e :: post → isEnd e = true →
  Forall (λ x, isResp x = false) post.
Proof.
  intros E ->. induction pre as [|x pre IH]; simpl in E; [by apply E|]. apply IH, E.
Qed.

(** C9: a stream that receives one whole request without trailers, whose filters
    end the response at most by their last call before they stop, and whose
    upstream stream delivers whole responses, data or trailers: whatever the
    order of responses, resets, pool events, timeouts and jobs, nothing of a
    response is sent after the piece that ends it; in particular it ends at most
    once. *)
Theorem one_response id fs h d p acts pre e post :
  Forall tidy fs → Forall (λ a, calm a = true) acts →
  trace (run set_status no_headers env (IReceive h d None p :: acts) (NewStreamDetect id fs)).2 =
    pre ++ e :: post →
  isEnd e = true → Forall (λ x, isResp x = false) post.
Proof.
  intros F C E. eapply one_end_spec, E. cbn [run]. rewrite request_asked.
  pose proof (run_pending acts (mkState (askedStream id fs h d) zeroRequest [JReceive] [] []) C) as R.
  destruct (run _ _ _ acts _). apply R. split; try done; simpl; [by eexists|]. by apply actives_all.
Qed.
End ending.

(** ** Where the guards are missing *)

Section missing.
Context {H : Type} (set_status : Z → H → H) (no_headers : H) (env : @proxyEnv).

(** Headers that the client announces alone are sent downstream although the
    stream was reset, cleaned and removed while their job waited; a whole response
    that waits in the same way is dropped. *)
Theorem late_headers id h h' p :
  getUpstreamConnPool env (getUpstreamProtocol env) = Some PoolReady →
  let ask := [IReceive h None None p; WDown] in
  let reset := [IReset; WDown; WUp] in
  let past := [ENewStream; EReqHeaders h true; EResetRequest; EDelete] in
  trace (run set_status no_headers env (ask ++ [IUpReceiveHeaders h' true] ++ reset)
    (NewStreamDetect id [])).2 = past ++ [ERespHeaders h' true] ∧
  trace (run set_status no_headers env (ask ++ [IUpReceive h' None None false] ++ reset)
    (NewStreamDetect id [])).2 = past.
Proof.
  intros Hp ask reset past. subst ask reset. cbn [app run].
  rewrite request_asked, request_sent by done.
  split; by vm_compute.
Qed.

Lemma trailers_asked id h t p :
  step set_status no_headers env (IReceive h None (Some t) p) (NewStreamDetect id []) =
  (Ok (), mkState (set_downstreamReqTrailers (Some t) (askedStream id [] h None))
     zeroRequest [JReceive] [] []).
Proof. destruct p; by vm_compute. Qed.
Lemma stopped_body id h d f :
  (∀ b, OnReceiveHeadersF f h b = ([], Stop)) →
  (step set_status no_headers env WDown
    (mkState (askedStream id [f] h (Some d)) zeroRequest [JReceive] [] [])).1 = Err NilDereference.
Proof.
  intros Hf. cbn [step]. erewrite bind_eq by reflexivity. cbn [downJobs].
  erewrite bind_eq by reflexivity. cbn [runJob]. unfold Receive. erewrite bind_eq by reflexivity.
  cbv zeta. unfold ReceiveHeaders, doReceiveHeaders, runReceiveHeadersFilters. erewrite bind_eq; cycle 1.
  { erewrite bind_eq by reflexivity. erewrite bind_eq; cycle 1.
    { erewrite bind_eq by reflexivity. cbn [headers_loop ds receiverFilters askedStream length].
      erewrite bind_eq by reflexivity. cbn. rewrite Hf. do 3 erewrite bind_eq by reflexivity.
      erewrite bind_eq by reflexivity. reflexivity. }
    reflexivity. }
  by vm_compute.
Qed.
(** A reply of the proxy itself ends the stream. *)
Lemma hijack_give code h b s r dj uj tr :
  downstreamCleaned s = false → downstreamRecvDone s = true → giveable s = true →
  element s = true → responseSender s = true →
  sendHijackReply set_status no_headers code h b (mkState s r dj uj tr) =
  (Ok (), mkState zeroStream zeroRequest dj uj
    ((tr ++ [ERespHeaders (Some (set_status code (default no_headers h))) true]) ++
     ((λ f, EDestroy (index f)) <$> receiverFilters s) ++ [EDelete] ++
     body (downstreamReqDataBuf s) EPutIoBuffer ++ [EGive])).
Proof.
  intros Hc Hr Hg He Hs. unfold sendHijackReply, appendHeaders. cbv zeta. erewrite bind_eq by reflexivity.
  unfold doAppendHeaders. erewrite bind_eq by reflexivity. cbn. rewrite Hs.
  erewrite bind_eq by reflexivity. cbn [when]. unfold convertHeader, default, id. rewrite Tauto.if_same.
  exact (endStream_give (set_upstreamProcessDone true s) r dj uj _ Hc Hr Hg eq_refl He).
Qed.
Lemma unpooled_headers h s dj uj tr :
  getUpstreamConnPool env (getUpstreamProtocol env) = None → receiverFilters s = [] →
  hasProxy s = true → downstreamCleaned s = false → giveable s = true → element s = true →
  responseSender s = true →
  ReceiveHeaders set_status no_headers env h true (mkState s zeroRequest dj uj tr) =
  (Ok (), mkState zeroStream zeroRequest dj uj
    ((tr ++ [ERespHeaders (Some (set_status NoHealthUpstreamCode
               (default no_headers (downstreamReqHeaders s)))) true]) ++ [] ++ [EDelete] ++
     body (downstreamReqDataBuf s) EPutIoBuffer ++ [EGive])).
Proof.
  intros Hp Hf Hx Hc Hg He Hs. unfold ReceiveHeaders. erewrite bind_eq by reflexivity.
  unfold doReceiveHeaders. erewrite bind_eq; cycle 1.
  { apply passes_run. simpl. by rewrite Hf. }
  unfold initializeUpstreamConnectionPool. erewrite bind_eq; cycle 1.
  { erewrite bind_eq by reflexivity. cbn. rewrite Hx, Hp. reflexivity. }
  cbv beta iota. erewrite bind_eq by reflexivity. cbn [ds set_ds downJobs upJobs trace rq].
  rewrite Hf. unfold set_ds. simpl. by rewrite hijack_give.
Qed.
Lemma unpooled_trailers id h t :
  getUpstreamConnPool env (getUpstreamProtocol env) = None →
  (step set_status no_headers env WDown
    (mkState (set_downstreamReqTrailers (Some t) (askedStream id [] h None))
      zeroRequest [JReceive] [] [])).1 = Err NilDereference.
Proof.
  intros Hp. cbn [step]. erewrite bind_eq by reflexivity. cbn [downJobs].
  erewrite bind_eq by reflexivity. cbn [runJob]. unfold Receive. erewrite bind_eq by reflexivity.
  cbv zeta. erewrite bind_eq by (by apply unpooled_headers). by vm_compute.
Qed.

(** Two requests on which the worker panics: one with a body that a filter
    stops without a reply, to continue it later; and one with trailers and no body
    for which there is no pool. *)
Theorem proxy_panics id h d t p f :
  (∀ b, OnReceiveHeadersF f h b = ([], Stop)) →
  getUpstreamConnPool env (getUpstreamProtocol env) = None →
  (run set_status no_headers env [IReceive h (Some d) None p; WDown] (NewStreamDetect id [f])).1 =
    [Ok (); Err NilDereference] ∧
  (run set_status no_headers env [IReceive h None (Some t) p; WDown] (NewStreamDetect id [])).1 =
    [Ok (); Err NilDereference].
Proof.
  intros Hf Hp. cbn [run]. rewrite request_asked, trailers_asked.
  pose proof (stopped_body id h d f Hf) as E1. pose proof (unpooled_trailers id h t Hp) as E2.
  destruct (step _ _ _ WDown _) as [r1 st1], (step _ _ _ WDown _) as [r2 st2]. simpl in *. by subst.
Qed.
End missing.

(** ** Witnesses

    Headers are lists of pairs; the filters let the request pass, or stop it. *)

Module example.
Abbreviation Hd := (list (bytes * Z)).
Definition status_of (c : Z) (h : Hd) : Hd := (bs "status", c) :: h.
Definition env (pool : option newStream) : proxyEnv :=
  mkEnv "Http1"%string Auto (Some "Http1"%string)
    (λ p, if bool_decide (p = "Http1"%string) then pool else None).
Definition passing : receiverFilter (H := Hd) := mkFilter (λ _ _, ([], Continue)) (λ _, ([], Continue)).
Definition waiting : receiverFilter (H := Hd) := mkFilter (λ _ _, ([], Stop)) (λ _, ([], Continue)).
Definition denying : receiverFilter (H := Hd) :=
  mkFilter (λ h _, ([FSendHijackReply 403 h false], Stop)) (λ _, ([], Continue)).
Definition h0 : Hd := [(bs "length", 2)].

Lemma passing_passes : passes passing.
Proof. done. Qed.
Lemma denying_tidy : tidy denying.
Proof. by intros h b. Qed.
End example.

Lemma proxy_forwards_witness :
  trace (run example.status_of [] (example.env (Some PoolReady))
    [IReceive (Some example.h0) (Some (bs "hi")) None false; WDown; IUpReceive None None None false; WUp]
    (NewStreamDetect 7 [example.passing; example.passing])).2 =
  [ENewStream; EReqHeaders (Some example.h0) false; EReqData (Some (bs "hi")) true;
   ERespHeaders None true; EDestroy 0; EDestroy 1; EDelete; EPutIoBuffer; EGive].
Proof.
  rewrite (proxy_forwards example.status_of [] (example.env (Some PoolReady)) 7
    [example.passing; example.passing] (Some example.h0) (Some (bs "hi")) false None None false).
  - reflexivity.
  - reflexivity.
  - repeat constructor; apply example.passing_passes.
Defined.

Lemma one_response_witness :
  Forall (λ x, isResp (H := example.Hd) x = false) [EDestroy 0; EDelete].
Proof.
  apply (one_response example.status_of [] (example.env (Some PoolReady)) 7 [example.denying]
    (Some example.h0) (Some (bs "hi")) false [IReset; WDown; WDown; WUp] []
    (ERespHeaders (Some (example.status_of 403 example.h0)) true)).
  - repeat constructor; apply example.denying_tidy.
  - repeat constructor.
  - vm_compute. reflexivity.
  - reflexivity.
Defined.

Lemma late_headers_witness :
  let reset := [IReset; WDown; WUp] in
  trace (run example.status_of [] (example.env (Some PoolReady))
    ([IReceive None None None false; WDown] ++ [IUpReceiveHeaders (Some example.h0) true] ++ reset)
    (NewStreamDetect 7 [])).2 =
  [ENewStream; EReqHeaders None true; EResetRequest; EDelete; ERespHeaders (Some example.h0) true].
Proof.
  apply (late_headers example.status_of [] (example.env (Some PoolReady)) 7 None (Some example.h0) false).
  reflexivity.
Defined.

Lemma proxy_panics_witness :
  (run example.status_of [] (example.env None) [IReceive None (Some (bs "x")) None false; WDown]
    (NewStreamDetect 7 [example.waiting])).1 = [Ok (); Err NilDereference].
Proof.
  apply (proxy_panics example.status_of [] (example.env None) 7 None (bs "x") [] false example.waiting);
    reflexivity.
Defined.
