(* ===== verification/Headers.v ===== *)
(** * Header maps and numbers in them

    src/pkg/protocol/types.go: [CommonHeader], a map from strings to strings, and
    the keys under which the stream layers and the proxy pass what they know of a
    message (also src/pkg/types/exception.go).  strconv.Itoa and strconv.Atoi, by
    which numbers travel in it, are inverse; strings.Split for a separator of one byte. *)

From S2P Require Import Prelude BytesConv.

(** ** Keys *)

Definition HeaderStatus : bytes := bs "x-strike-status".
Definition HeaderMethod : bytes := bs "x-strike-method".
Definition HeaderPacketID : bytes := bs "x-strike-packet-id".
Definition HeaderUsername : bytes := bs "x-strike-username".
Definition StrikeHeaderHostKey : bytes := bs "x-strike-host".
Definition StrikeHeaderPathKey : bytes := bs "x-strike-path".
Definition StrikeHeaderQueryStringKey : bytes := bs "x-strike-querystring".
Definition StrikeHeaderMethod : bytes := bs "x-strike-method".
Definition StrikeHeaderCredential : bytes := bs "x-strike-credential".
Definition IstioHeaderHostKey : bytes := bs "authority".
Definition StrikeHeaderPacketID : bytes := bs "x-strike-packet-id".
Definition StrikeHeaderTopicName : bytes := bs "x-strike-topic-name".
Definition StrikeHeaderTopicFilter : bytes := bs "x-strike-topic-filter".
Definition StrikeHeaderMessageDup : bytes := bs "x-strike-message-dup".
Definition StrikeHeaderMessageQos : bytes := bs "x-strike-message-qos".
Definition StrikeHeaderMessageRetain : bytes := bs "x-strike-message-retain".
Definition StrikeHeaderClientID : bytes := bs "x-strike-client-id".
Definition StrikeHeaderWillTopic : bytes := bs "x-strike-will-topic".
Definition StrikeHeaderWillMessage : bytes := bs "x-strike-will-message".
Definition StrikeHeaderUsername : bytes := bs "x-strike-username".
Definition StrikeHeaderKeepAlive : bytes := bs "x-strike-keep-alive".

Definition SuccessCode : Z := 200.
Definition Unauthorized : Z := 401.
Definition RouterUnavailableCode : Z := 404.
Definition LimitExceededCode : Z := 509.

(** ** The map *)

Abbreviation CommonHeader := (gmap bytes bytes).

Definition Get (key : bytes) (h : CommonHeader) : option bytes := h !! key.
(** The value of [value, _ := h.Get(key)]. *)
Definition GetValue (key : bytes) (h : CommonHeader) : bytes := default [] (h !! key).
Definition Set_ (key value : bytes) (h : CommonHeader) : CommonHeader := <[key := value]> h.
Definition Del (key : bytes) (h : CommonHeader) : CommonHeader := delete key h.
Definition Clone (h : CommonHeader) : CommonHeader := map_fold (λ k v c, <[k := v]> c) ∅ h.
Definition ByteSize (h : CommonHeader) : Z := map_fold (λ k v s, uint64 (s + (zlen k + zlen v))) 0 h.

Lemma Clone_id h : Clone h = h.
Proof.
  unfold Clone. apply (map_fold_weak_ind (λ (c m : gmap bytes bytes), c = m)); [done|].
  by intros k v m c _ ->.
Qed.

(** ** Parts of a string *)

(** strings.Split(s, c), for a separator of one byte. *)
Fixpoint Split (c : byte) (s : bytes) : list bytes :=
  match s with
  | [] => [[]]
  | x :: s' =>
      match Split c s' with
      | [] => [[x]]
      | p :: ps => if x =b c then [] :: p :: ps else (x :: p) :: ps
      end
  end.
(** strings.SplitN(s, c, 2), and whether it gives two. *)
Definition SplitN2 (c : byte) (s : bytes) : option (bytes * bytes) :=
  n ← IndexByte s c; Some (take n s, drop (S n) s).

Lemma Split_none c s : c ∉ s → Split c s = [s].
Proof.
  induction s as [|x s IH]; intros N; [done|]. apply not_elem_of_cons in N as [N1 N2]. simpl.
  rewrite IH by done. by rewrite bool_decide_eq_false_2.
Qed.
Lemma Split_nonnil c s : Split c s ≠ [].
Proof. induction s as [|x s IH]; [done|]. simpl. destruct (Split c s); [done|]. by destruct (x =b c). Qed.
Lemma Split_app c s s' : c ∉ s → Split c (s ++ c :: s') = s :: Split c s'.
Proof.
  induction s as [|x s IH]; intros N.
  - simpl. pose proof (Split_nonnil c s'). destruct (Split c s'); [done|]. by rewrite bool_decide_eq_true_2.
  - apply not_elem_of_cons in N as [N1 N2]. simpl. rewrite IH by done. by rewrite bool_decide_eq_false_2.
Qed.

(** ** Numbers *)

Definition Itoa (n : Z) : bytes :=
  if n <? 0 then "-"%byte :: AppendUint_loop 20 (- n) [] else AppendUint_loop 20 n [].

Fixpoint digits_val (b : bytes) (v : Z) : option Z :=
  match b with
  | [] => Some v
  | c :: b' =>
      if (48 <=? b2z c) && (b2z c <=? 57) then digits_val b' (10 * v + (b2z c - 48)) else None
  end.
(** The number before it is checked to fit; [None] is a syntax error. *)
Definition parse_int (s : bytes) : option Z :=
  let '(neg, d) := match s with
    | [] => (false, [])
    | c :: r => if c =b "-"%byte then (true, r) else if c =b "+"%byte then (false, r) else (false, s)
    end in
  match d with
  | [] => None
  | _ => v ← digits_val d 0; Some (if neg : bool then - v else v)
  end.
(** [None] is an error. *)
Definition Atoi (s : bytes) : option Z :=
  n ← parse_int s; if (-9223372036854775808 <=? n) && (n <=? 9223372036854775807) then Some n else None.
(** The number that is given, with or without an error: 0 for what is no number and
    the nearest integer for what does not fit. *)
Definition AtoiValue (s : bytes) : Z :=
  match parse_int s with
  | None => 0
  | Some n => Z.max (-9223372036854775808) (Z.min n 9223372036854775807)
  end.
Definition FormatBool (b : bool) : bytes := if b then bs "true" else bs "false".

Lemma digit_b2z d : 0 ≤ d < 10 → b2z (digit d) = 48 + d.
Proof. intros. unfold digit. apply b2z_z2b_small. lia. Qed.

Lemma digits_val_digits ds v : digits_ok ds → digits_val (digit <$> ds) v = Some (dval v ds).
Proof.
  intros F. revert v. induction F as [|d ds Hd _ IH]; intros v; [done|].
  rewrite fmap_cons. cbn [digits_val]. rewrite digit_b2z by done.
  rewrite (proj2 (Z.leb_le _ _)), (proj2 (Z.leb_le _ _)) by lia. simpl. rewrite IH.
  unfold dval. simpl. do 2 f_equal. lia.
Qed.

(** The digits of a number: not empty, and the first is no sign. *)
Lemma uint_digits n : 0 ≤ n ≤ 9223372036854775808 →
  ∃ c r, AppendUint_loop 20 n [] = c :: r ∧ c ≠ "-"%byte ∧ c ≠ "+"%byte ∧
    digits_val (c :: r) 0 = Some n.
Proof.
  intros Hn. destruct (AppendUint_loop_spec 20 n []) as (ds & E & Hd & Hv & Hne & _); [lia|lia|].
  rewrite app_nil_r in E. destruct ds as [|d ds]; [done|]. rewrite fmap_cons in E.
  inversion Hd as [|? ? Hd0 _]; subst. exists (digit d), (digit <$> ds). split; [done|].
  pose proof (digit_b2z d Hd0) as Eb.
  split; [intros C; rewrite C in Eb; change (b2z "-"%byte) with 45 in Eb; lia|].
  split; [intros C; rewrite C in Eb; change (b2z "+"%byte) with 43 in Eb; lia|].
  rewrite <- fmap_cons. by apply digits_val_digits.
Qed.

Lemma parse_Itoa n : -9223372036854775808 ≤ n ≤ 9223372036854775807 → parse_int (Itoa n) = Some n.
Proof.
  intros Hn. unfold Itoa. destruct (n <? 0) eqn:E; bdec.
  - destruct (uint_digits (- n)) as (c & r & -> & _ & _ & V); [lia|].
    unfold parse_int. rewrite bool_decide_eq_true_2 by done. rewrite V. simpl. by rewrite Z.opp_involutive.
  - destruct (uint_digits n) as (c & r & -> & N1 & N2 & V); [lia|].
    unfold parse_int. rewrite bool_decide_eq_false_2, bool_decide_eq_false_2 by done. by rewrite V.
Qed.
Lemma Atoi_Itoa n : -9223372036854775808 ≤ n ≤ 9223372036854775807 → Atoi (Itoa n) = Some n.
Proof.
  intros Hn. unfold Atoi. rewrite parse_Itoa by done. simpl.
  by rewrite (proj2 (Z.leb_le _ _)), (proj2 (Z.leb_le _ _)) by lia.
Qed.
Lemma AtoiValue_Itoa n : -9223372036854775808 ≤ n ≤ 9223372036854775807 → AtoiValue (Itoa n) = n.
Proof. intros Hn. unfold AtoiValue. rewrite parse_Itoa by done. lia. Qed.
