(* ===== verification/Streams.v ===== *)
(** * The streams around the proxy

    src/pkg/stream: the listeners of a stream (stream.go), the client and its
    wrapper (client.go), the pools of connections (http/v1/connpool.go,
    qmq/connpool.go) and the MQ client's stream (qmq/stream.go), which answers at
    once.  [StreamSender] is the interface the proxy sends a response through;
    MqttStream.v and HttpStream.v are its instances.

    [drive] runs one step of the proxy (Proxy.v) and then what its effects make
    the two streams do; a reply of the client is offered to the proxy as it
    comes.  In the code the streams are called from within the step; they only
    write or offer a job, so that the order is the same. *)

From S2P Require Import Prelude Headers Proxy.

(** ** Listeners *)

Module BaseStream.
(** A listener is known by a number. *)
Definition t : Type := list nat.
Definition AddEventListener (cb : nat) (s : t) : t := s ++ [cb].
(** The loop variable hides the argument, so that the first listener is found. *)
Definition RemoveEventListener (cb : nat) (s : t) : t :=
  match list_find (λ x, x = x) s with
  | Some (i, _) => take i s ++ drop (S i) s
  | None => s
  end.
Inductive call : Type := OnResetStream (cb : nat) | OnDestroyStream (cb : nat).
Definition DestroyStream (s : t) : list call := OnDestroyStream <$> s.
Definition ResetStream (s : t) : list call := (OnResetStream <$> s) ++ DestroyStream s.

(** Whatever listener is to be removed, the one that was added first is. *)
Lemma remove_first cb s : RemoveEventListener cb s = tail s.
Proof. destruct s; [done|]. unfold RemoveEventListener. simpl. by destruct (decide _). Qed.
End BaseStream.

(** ** Pools *)

Definition MQ : String.string := "MQ".
Definition HTTP1 : String.string := "Http1".
Definition MQTT : String.string := "Mqtt".

(** The MQ pool makes its client at the first call and has a stream ready. *)
Definition mq_NewStream (activeClient : bool) : newStream := PoolReady.
(** getAvailableClient of the HTTP pool: no client, and no reason. *)
Definition getAvailableClient : option unit * poolFailure := (None, NoFailureReason).
Definition http_NewStream : newStream :=
  let '(ac, reason) := getAvailableClient in
  match ac with None => PoolFailed reason | Some _ => PoolLater end.
(** The pools that are registered, by what their NewStream does. *)
Definition registeredPools (p : String.string) : option newStream :=
  if p =b MQ then Some (mq_NewStream true)
  else if p =b HTTP1 then Some http_NewStream
  else None.

(** ** The MQ client's stream *)

Record clientStream : Type := mkClient {
  cheader : option CommonHeader; ctopic : bytes; cmsg : option bytes
}.
(** clientStreamConnection.NewStream *)
Definition NewStream : clientStream := mkClient None [] None.

Definition copy_key (k : bytes) (from h : CommonHeader) : CommonHeader :=
  match Get k from with Some v => Set_ k v h | None => h end.
(** The header handed to OnReceiveHeaders, with the end of the stream. *)
Definition handleSuccess (header : CommonHeader) : CommonHeader :=
  copy_key HeaderUsername header (copy_key HeaderPacketID header (copy_key HeaderMethod header
    (Set_ HeaderStatus (Itoa SuccessCode) ∅))).
Definition handleFailure (header : CommonHeader) : CommonHeader :=
  copy_key HeaderMethod header (Set_ HeaderStatus (Itoa RouterUnavailableCode) ∅).

Fixpoint TrimLeft (c : byte) (s : bytes) : bytes :=
  match s with [] => [] | x :: s' => if x =b c then TrimLeft c s' else s end.

(** The reply, if the stream is ended; [None] is a panic. *)
Definition cEndStream (c : clientStream) : option (option CommonHeader) :=
  h ← cheader c; Some (Some (handleSuccess h)).
Definition cAppendHeaders (headers : CommonHeader) (e : bool) (c : clientStream)
    : option (clientStream * option CommonHeader) :=
  let c := mkClient (Some headers)
             (match Get StrikeHeaderPathKey headers with
              | Some path => TrimLeft "/"%byte path | None => ctopic c end) (cmsg c) in
  r ← (if e then cEndStream c else Some None); Some (c, r).
Definition cAppendData (d : option bytes) (e : bool) (c : clientStream)
    : option (clientStream * option CommonHeader) :=
  let c := mkClient (cheader c) (ctopic c) d in
  r ← (if e then cEndStream c else Some None); Some (c, r).

(** ** The interface of a response, and the two streams around the proxy *)

(** stream.StreamSender of the server's side; [None] is a panic. *)
Class StreamSender (V : Type) : Type := {
  sAppendHeaders : CommonHeader → bool → V → option V;
  sAppendData : option bytes → bool → V → option V;
  sAppendTrailers : option CommonHeader → V → option V
}.

Section system.
Context {V : Type} `{StreamSender V}.
Context (env : proxyEnv) (fs : list (receiverFilter (H := CommonHeader))).

Definition set_status (code : Z) (h : CommonHeader) : CommonHeader := Set_ HeaderStatus (Itoa code) h.
Abbreviation pstep := (Proxy.step set_status ∅ env).

Record system : Type := mkSystem {
  px : Proxy.state (H := CommonHeader); client : clientStream; server : V
}.

(** clientStreamReceiverWrapper.OnReceiveHeaders: the listeners of the stream do
    nothing when it is destroyed. *)
Definition reply (r : option CommonHeader) (s : system) : system :=
  match r with
  | Some h => mkSystem (pstep (IUpReceiveHeaders (Some h) true) (px s)).2 (client s) (server s)
  | None => s
  end.

Definition handle (e : effect (H := CommonHeader)) (s : system) : option system :=
  match e with
  | ENewStream => Some (mkSystem (px s) NewStream (server s))
  | EReqHeaders h b => h ← h; '(c, r) ← cAppendHeaders h b (client s); Some (reply r (mkSystem (px s) c (server s)))
  | EReqData d b => '(c, r) ← cAppendData d b (client s); Some (reply r (mkSystem (px s) c (server s)))
  | EReqTrailers _ => None
  | ERespHeaders h b => h ← h; v ← sAppendHeaders h b (server s); Some (mkSystem (px s) (client s) v)
  | ERespData d b => v ← sAppendData d b (server s); Some (mkSystem (px s) (client s) v)
  | ERespTrailers t => v ← sAppendTrailers t (server s); Some (mkSystem (px s) (client s) v)
  | _ => Some s
  end.
Fixpoint handles (es : list (effect (H := CommonHeader))) (s : system) : option system :=
  match es with [] => Some s | e :: es' => s1 ← handle e s; handles es' s1 end.

(** A step of the proxy, and its effects. *)
Definition drive (a : input (H := CommonHeader)) (s : system) : option system :=
  let st := (pstep a (px s)).2 in
  handles (drop (length (trace (px s))) (trace st)) (mkSystem st (client s) (server s)).

(** A request that the server's stream hands to the proxy, and the jobs of the
    proxy's two workers. *)
Definition serve (id : Z) (h : CommonHeader) (d : option bytes) (v : V) : option system :=
  s1 ← drive (IReceive (Some h) d None false) (mkSystem (NewStreamDetect id fs) NewStream v);
  s2 ← drive WDown s1;
  drive WUp s2.

(** ** Lemmas *)

Lemma copy_key_ne k j f h : k ≠ j → copy_key k f h !! j = h !! j.
Proof. intros N. unfold copy_key, Set_. destruct (Get k f); [by rewrite lookup_insert_ne|done]. Qed.
Lemma copy_key_eq k f h : h !! k = None → copy_key k f h !! k = f !! k.
Proof. intros N. unfold copy_key, Set_, Get. destruct (f !! k); [by rewrite lookup_insert_eq|done]. Qed.

Lemma success_status h : handleSuccess h !! HeaderStatus = Some (bs "200").
Proof. unfold handleSuccess. rewrite !copy_key_ne by done. unfold Set_. by rewrite lookup_insert_eq. Qed.
Lemma success_method h : handleSuccess h !! HeaderMethod = h !! HeaderMethod.
Proof.
  unfold handleSuccess. rewrite !copy_key_ne by done. apply copy_key_eq.
  unfold Set_. by rewrite lookup_insert_ne.
Qed.
Lemma success_packet h : handleSuccess h !! HeaderPacketID = h !! HeaderPacketID.
Proof.
  unfold handleSuccess. rewrite (copy_key_ne HeaderUsername) by done. apply copy_key_eq.
  rewrite copy_key_ne by done. unfold Set_. by rewrite lookup_insert_ne.
Qed.

Lemma mq_ready : UpstreamProtocol env = MQ → ConnPoolFactories env = registeredPools →
  getUpstreamConnPool env (getUpstreamProtocol env) = Some PoolReady.
Proof.
  intros E1 E2. unfold getUpstreamConnPool, getUpstreamProtocol. rewrite E1, E2. reflexivity.
Qed.

Lemma handles_app l k s : handles (l ++ k) s = s1 ← handles l s; handles k s1.
Proof.
  revert s. induction l as [|e l IH]; intros s; [done|]. simpl.
  destruct (handle e s); simpl; [apply IH|done].
Qed.
Definition quiet (e : effect (H := CommonHeader)) : bool :=
  match e with EDestroy _ | EDelete | EPutIoBuffer | EGive | EResetRequest | EResetResponse => true | _ => false end.
Lemma handles_quiet l s : Forall (λ e, quiet e = true) l → handles l s = Some s.
Proof. induction 1 as [|e l He _ IH]; [done|]. simpl. by destruct e. Qed.
Lemma ending_quiet (d : option bytes) :
  Forall (λ e, quiet e = true) ((EDestroy <$> seq 0 (length fs)) ++ [EDelete] ++ body d EPutIoBuffer ++ [EGive]).
Proof.
  rewrite !Forall_app. split_and!; [|by repeat constructor|by destruct d; repeat constructor|by repeat constructor].
  apply list.Forall_fmap. by apply list.Forall_true.
Qed.

(** The stream of the proxy with the reply of the client waiting for its worker,
    and at its end. *)
Definition waitingReply (id : Z) (h : option CommonHeader) (d : option bytes) (h' : option CommonHeader)
    (tr : list effect) : Proxy.state (H := CommonHeader) :=
  mkState (sentStream id fs h d) (sentRequest d) [] [JUpReceiveHeaders h' true] tr.
Definition endedStream (tr : list effect) (h' : option CommonHeader) (d : option bytes)
    : Proxy.state (H := CommonHeader) :=
  mkState zeroStream zeroRequest [] []
    (tr ++ [ERespHeaders h' true] ++ (EDestroy <$> seq 0 (length fs)) ++ [EDelete] ++
     body d EPutIoBuffer ++ [EGive]).

Lemma reply_sent (id : Z) (h : option CommonHeader) (d : option bytes) (h' : option CommonHeader)
    (tr : list (effect (H := CommonHeader))) :
  pstep WUp (waitingReply id h d h' tr) = (Ok (), endedStream tr h' d).
Proof.
  unfold endedStream. rewrite <- (destroy_actives true). unfold waitingReply. cbn [Proxy.step].
  erewrite bind_eq by reflexivity. cbn [upJobs]. erewrite bind_eq by reflexivity. cbn [runJob].
  unfold set_upJobs. cbn [ds rq downJobs trace]. rewrite UpReceiveHeaders_eq by done.
  rewrite endStream_give by done. by rewrite <- !app_assoc.
Qed.

Lemma drive_receive (id : Z) (h : CommonHeader) (d : option bytes) (v : V) :
  drive (IReceive (Some h) d None false) (mkSystem (NewStreamDetect id fs) NewStream v) =
  Some (mkSystem (mkState (askedStream id fs (Some h) d) zeroRequest [JReceive] [] []) NewStream v).
Proof. unfold drive. cbn [px]. rewrite request_asked, new_eq. reflexivity. Qed.

Section flow.
Context (Hpool : getUpstreamConnPool env (getUpstreamProtocol env) = Some PoolReady)
        (Hpass : Forall passes fs).

Lemma drive_down (id : Z) (h : CommonHeader) (d : option bytes) (v : V) :
  ∃ (c : clientStream) (tr : list (effect (H := CommonHeader))), drive WDown (mkSystem (mkState (askedStream id fs (Some h) d) zeroRequest [JReceive] [] []) NewStream v) =
    Some (mkSystem (waitingReply id (Some h) d (Some (handleSuccess h)) tr) c v).
Proof.
  unfold drive. cbn [px trace]. rewrite request_sent by done. cbn [snd trace length drop client server].
  destruct d; eexists _, _; cbn [no_body body app handles handle]; cbn [mbind option_bind client]; reflexivity.
Qed.

Lemma drive_up (id : Z) (h h' : CommonHeader) (d : option bytes) (tr : list (effect (H := CommonHeader)))
    (c : clientStream) (v : V) :
  drive WUp (mkSystem (waitingReply id (Some h) d (Some h') tr) c v) =
  v' ← sAppendHeaders h' true v; Some (mkSystem (endedStream tr (Some h') d) c v').
Proof.
  unfold drive. cbn [px]. rewrite reply_sent. cbn [snd trace waitingReply endedStream client server].
  rewrite drop_app_length. rewrite handles_app. simpl.
  destruct (sAppendHeaders h' true v); simpl; [|done]. apply handles_quiet, ending_quiet.
Qed.

(** The MQ client's answer reaches the server's stream, and the stream ends. *)
Lemma serve_answered (id : Z) (h : CommonHeader) (d : option bytes) (v : V) :
  ∃ (c : clientStream) (tr : list (effect (H := CommonHeader))), serve id h d v =
    v' ← sAppendHeaders (handleSuccess h) true v;
    Some (mkSystem (endedStream tr (Some (handleSuccess h)) d) c v').
Proof.
  unfold serve. rewrite drive_receive. cbn [mbind option_bind].
  destruct (drive_down id h d v) as (c & tr & ->). cbn [mbind option_bind]. exists c, tr. apply drive_up.
Qed.
End flow.

(** A request without a body that the pool has no stream for: the server's stream
    is never called, and no job is left. *)
Lemma serve_lost (reason : poolFailure) (id : Z) (h : CommonHeader) (v : V) :
  getUpstreamConnPool env (getUpstreamProtocol env) = Some (PoolFailed reason) → Forall passes fs →
  ∃ s, serve id h None v = Some s ∧ server s = v ∧ downJobs (px s) = [] ∧ upJobs (px s) = [].
Proof.
  intros Hpool Hpass. unfold serve. rewrite drive_receive. cbn [mbind option_bind].
  destruct (request_lost set_status ∅ env id fs (Some h) reason Hpool Hpass) as (s' & r' & E).
  assert (drive WDown (mkSystem (mkState (askedStream id fs (Some h) None) zeroRequest [JReceive] [] []) NewStream v) =
    Some (mkSystem (mkState s' r' [] [] [ENewStream]) NewStream v)) as ->.
  { unfold drive. cbn [px trace]. rewrite E. reflexivity. }
  cbn [mbind option_bind]. by eexists.
Qed.
End system.
Arguments system V : clear implicits.
