(* ===== verification/MqttStream.v ===== *)
(** * MQTT streams, end to end

    src/pkg/stream/mqtt/stream.go (the server's side of a connection), and GetHeader
    and GetPayload of the messages of src/pkg/protocol/mqtt/message.

    A message decoded from a connection becomes a header map and a payload, a
    stream of the proxy (Proxy.v), a request to the MQ client (Streams.v), an answer
    with its status, method and packet identifier, and again a message that is
    encoded and written to the connection.

    The theorem: on a connection that is read as a sequence of valid messages,
    with filters that let them pass, exactly the acknowledgements of the messages
    that have one are written, in order, each with the packet identifier of its
    request. *)

From S2P Require Import Prelude BytePool IoBuffer BytesConv Mqtt MqttFacts MqttCodec Headers Proxy Streams.

(** ** Messages as headers *)

Definition StrMsgTypeConnect : bytes := bs "Connect".
Definition StrMsgTypeConnectAck : bytes := bs "ConnAck".
Definition StrMsgTypePublish : bytes := bs "Publish".
Definition StrMsgTypeSubscribe : bytes := bs "Subscribe".
Definition StrMsgTypePing : bytes := bs "Ping".
Definition StrMsgTypeDisconnect : bytes := bs "Disconnect".
Definition StrMsgTypePingResp : bytes := bs "PingResp".
Definition StrMsgTypePubAck : bytes := bs "PubAck".
Definition StrMsgTypePubRec : bytes := bs "PubRec".
Definition StrMsgTypePubRel : bytes := bs "PubRel".
Definition StrMsgTypePubComp : bytes := bs "PubComp".
Definition StrMsgTypeSubAck : bytes := bs "SubAck".
Definition StrMsgTypeUnsubscribe : bytes := bs "Unsubscribe".
Definition StrMsgTypeUnsubAck : bytes := bs "UnsubAck".

Section streams.
(** json.Marshal of the topic filters and of the topic names. *)
Context (marshal_filters : list Subscribe.TopicFilter → option bytes)
        (marshal_names : list bytes → option bytes).

Definition with_topics (o : option bytes) (h : CommonHeader) : CommonHeader :=
  match o with Some b => Set_ StrikeHeaderTopicFilter b h | None => h end.

Definition Connect_GetHeader (c : Connect.t) : CommonHeader :=
  Set_ StrikeHeaderKeepAlive (Itoa (Connect.KeepAlive c))
  (Set_ StrikeHeaderUsername (Connect.Username c)
  (Set_ StrikeHeaderWillMessage (Connect.WillMessage c)
  (Set_ StrikeHeaderWillTopic (Connect.WillTopic c)
  (Set_ StrikeHeaderClientID (Connect.ClientId c)
  (Set_ StrikeHeaderCredential (Connect.Password c)
  (Set_ StrikeHeaderMethod StrMsgTypeConnect ∅)))))).
Definition ConnAck_GetHeader : CommonHeader := Set_ StrikeHeaderMethod StrMsgTypeConnectAck ∅.
Definition Publish_GetHeader (p : Publish.t) : CommonHeader :=
  Set_ StrikeHeaderMessageRetain (FormatBool (Publish.Retain p))
  (Set_ StrikeHeaderMessageQos (Itoa (Publish.Qos p))
  (Set_ StrikeHeaderMessageDup (FormatBool (Publish.Dup p))
  (Set_ StrikeHeaderTopicName (Publish.TopicName p)
  (Set_ StrikeHeaderPacketID (Itoa (Publish.PacketIdentifier p))
  (Set_ StrikeHeaderMethod StrMsgTypePublish ∅))))).
Definition PubAck_GetHeader : CommonHeader := Set_ StrikeHeaderMethod StrMsgTypePubAck ∅.
Definition PubRec_GetHeader (a : ackMsg) : CommonHeader :=
  Set_ StrikeHeaderPacketID (Itoa (a_id a)) (Set_ StrikeHeaderMethod StrMsgTypePubRec ∅).
Definition PubRel_GetHeader (a : ackMsg) : CommonHeader :=
  Set_ StrikeHeaderPacketID (Itoa (a_id a)) (Set_ StrikeHeaderMethod StrMsgTypePubRel ∅).
Definition PubComp_GetHeader (a : ackMsg) : CommonHeader :=
  Set_ StrikeHeaderPacketID (Itoa (a_id a)) (Set_ StrikeHeaderMethod StrMsgTypePubComp ∅).
Definition Subscribe_GetHeader (s : Subscribe.t) : CommonHeader :=
  with_topics (marshal_filters (Subscribe.TopicFilters s))
  (Set_ StrikeHeaderPacketID (Itoa (Subscribe.PacketIdentifier s))
  (Set_ StrikeHeaderMethod StrMsgTypeSubscribe ∅)).
Definition SubAck_GetHeader : CommonHeader := Set_ StrikeHeaderMethod StrMsgTypeSubAck ∅.
Definition Unsubscribe_GetHeader (u : Unsubscribe.t) : CommonHeader :=
  with_topics (marshal_names (Unsubscribe.TopicNames u))
  (Set_ StrikeHeaderPacketID (Itoa (Unsubscribe.PacketIdentifier u))
  (Set_ StrikeHeaderMethod StrMsgTypeUnsubscribe ∅)).
Definition UnsubAck_GetHeader (a : ackMsg) : CommonHeader :=
  Set_ StrikeHeaderPacketID (Itoa (a_id a)) (Set_ StrikeHeaderMethod StrMsgTypeUnsubAck ∅).
Definition PingReq_GetHeader : CommonHeader := Set_ StrikeHeaderMethod StrMsgTypePing ∅.
Definition PingResp_GetHeader : CommonHeader := Set_ StrikeHeaderMethod StrMsgTypePingResp ∅.
Definition Disconnect_GetHeader : CommonHeader := Set_ StrikeHeaderMethod StrMsgTypeDisconnect ∅.
Definition GetHeader (m : Message) : CommonHeader :=
  match m with
  | MConnect c => Connect_GetHeader c
  | MConnAck _ => ConnAck_GetHeader
  | MPublish p => Publish_GetHeader p
  | MPubAck _ => PubAck_GetHeader
  | MPubRec a => PubRec_GetHeader a
  | MPubRel a => PubRel_GetHeader a
  | MPubComp a => PubComp_GetHeader a
  | MSubscribe s => Subscribe_GetHeader s
  | MSubAck _ => SubAck_GetHeader
  | MUnsubscribe u => Unsubscribe_GetHeader u
  | MUnsubAck a => UnsubAck_GetHeader a
  | MPingReq _ => PingReq_GetHeader
  | MPingResp _ => PingResp_GetHeader
  | MDisconnect _ => Disconnect_GetHeader
  end.

(** The contents of the buffer; only a PUBLISH has one. *)
Definition GetPayload (m : Message) : option bytes :=
  match m with MPublish p => Some (default [] (Publish.Payload p)) | _ => None end.

(** ** The server's stream *)

Definition RetCodeAccepted : Z := 0.
Definition RetCodeNotAuthorized : Z := 5.

(** A connection: whether it is closed, what was written to it, the listener's
    store; and the stream's request and response. *)
Record serverStream : Type := mkServer {
  connID : Z;
  closed : bool;
  written : list bytes;
  store : gmap bytes Z;
  wld : world;
  sreq : option Message;
  sres : option Message
}.
Definition set_written (l : list bytes) (s : serverStream) : serverStream :=
  mkServer (connID s) (closed s) l (store s) (wld s) (sreq s) (sres s).
Definition set_store (m : gmap bytes Z) (s : serverStream) : serverStream :=
  mkServer (connID s) (closed s) (written s) m (wld s) (sreq s) (sres s).
Definition set_sreq (m : option Message) (s : serverStream) : serverStream :=
  mkServer (connID s) (closed s) (written s) (store s) (wld s) m (sres s).
Definition set_sres (m : option Message) (s : serverStream) : serverStream :=
  mkServer (connID s) (closed s) (written s) (store s) (wld s) (sreq s) m.
Definition set_encoded (w : world) (m : Message) (s : serverStream) : serverStream :=
  mkServer (connID s) (closed s) (written s) (store s) w (sreq s) (Some m).

(** [None] is a panic of the encoder. *)
Definition doSend (s : serverStream) : option serverStream :=
  match sres s with
  | None => Some s
  | Some m =>
      match Message_Encode m (wld s) with
      | (Ok (Ok buf), (w, m')) =>
          let s1 := set_encoded w m' s in
          Some (if closed s1 then s1 else set_written (written s1 ++ [view buf]) s1)
      | (Ok (Err _), (w, m')) => Some (set_encoded w m' s)
      | (Err _, _) => None
      end
  end.
Definition endStream (s : serverStream) : option serverStream := doSend s.

(** The packet identifier of the header, if it is a number. *)
Definition packetId (h : CommonHeader) (id : Z) : Z :=
  match Atoi (GetValue HeaderPacketID h) with Some n => uint16 n | None => id end.

Definition AppendHeaders (headerIn : CommonHeader) (e : bool) (s : serverStream) : option serverStream :=
  let status := GetValue HeaderStatus headerIn in
  let headerIn := Del HeaderStatus headerIn in
  let '(msgType, status, headerIn) :=
    match Get HeaderMethod headerIn with
    | Some t => (t, status, Del HeaderMethod headerIn)
    | None => ([], [], headerIn)
    end in
  let s :=
    if msgType =b StrMsgTypeConnect then
      let code := if status =b bs "200" then RetCodeAccepted else RetCodeNotAuthorized in
      let ack := ConnAck.Mk (ConnAck.hdr ConnAck.NewConnAck) (ConnAck.SessionPresentFlag ConnAck.NewConnAck) code in
      set_store (<[bs "a" := connID s]> (store s)) (set_sres (Some (MConnAck ack)) s)
    else if msgType =b StrMsgTypeSubscribe then
      let ack := SubAck.NewSubAck in
      set_sres (Some (MSubAck (SubAck.Mk (SubAck.hdr ack)
        (packetId headerIn (SubAck.PacketIdentifier ack)) (SubAck.acks ack)))) s
    else if msgType =b StrMsgTypeUnsubscribe then
      let ack := UnsubAck.NewUnsubAck in
      set_sres (Some (MUnsubAck (MkAck (a_hdr ack) (packetId headerIn (a_id ack))))) s
    else if msgType =b StrMsgTypePing then set_sres (Some (MPingResp PingResp.NewPingResp)) s
    else s in
  if e then endStream s else Some s.
Definition AppendData (d : option bytes) (e : bool) (s : serverStream) : option serverStream :=
  if e then endStream s else Some s.
Definition AppendTrailers (t : option CommonHeader) (s : serverStream) : option serverStream := endStream s.

#[export] Instance mqtt_sender : StreamSender serverStream := {
  sAppendHeaders := AppendHeaders; sAppendData := AppendData; sAppendTrailers := AppendTrailers
}.

(** OnEvent, of a close or of a failure to connect. *)
Definition OnEvent (close : bool) (s : serverStream) : serverStream :=
  if close then set_store (delete (bs "a") (store s)) s else s.

Context (env : proxyEnv) (fs : list (receiverFilter (H := CommonHeader))).

(** handleMessage, with the stream of the proxy that NewStreamDetect made and the
    jobs of its two workers. *)
Definition handleMessage (id : Z) (v : serverStream) : option (system serverStream) :=
  match sreq v with
  | None => Some (mkSystem (NewStreamDetect id fs) NewStream v)
  | Some m => serve env fs id (GetHeader m) (GetPayload m) v
  end.
Definition OnDecodeDone (id : Z) (m : Message) (v : serverStream) : option (system serverStream) :=
  handleMessage id (set_sres None (set_sreq (Some m) v)).

Fixpoint deliver_all (ms : list (Z * Message)) (v : serverStream) : option serverStream :=
  match ms with
  | [] => Some v
  | (id, m) :: ms' => s ← OnDecodeDone id m v; deliver_all ms' (server s)
  end.

(** Dispatch: what a read brings. *)
Definition Dispatch {S} `{BufferImpl S} (id : Z) (c : Codec) (b : S) (v : serverStream)
    : option (serverStream * Z * S * Codec) :=
  '(ms, id', b', c') ← Decode (λ _ _, true) id c b;
  v' ← deliver_all ms v;
  Some (v', id', b', c').

(** ** The answer to a message *)

Definition answer (m : Message) : option Message :=
  match m with
  | MConnect _ => Some (MConnAck (ConnAck.Mk (MkHeader MsgTypeConnAck 0 0) false RetCodeAccepted))
  | MSubscribe s => Some (MSubAck (SubAck.Mk (MkHeader MsgTypeSubAck 0 0) (Subscribe.PacketIdentifier s) []))
  | MUnsubscribe u => Some (MUnsubAck (MkAck (MkHeader MsgTypeUnsubAck 0 0) (Unsubscribe.PacketIdentifier u)))
  | MPingReq _ => Some (MPingResp (MkHeader MsgTypePingResp 0 0))
  | _ => None
  end.

Lemma answer_valid m a : fields_ok m → answer m = Some a → valid a.
Proof.
  destruct m; intros Hm [= <-]; (split; [done|split; [done|split; [done|]]]); simpl in *; try done.
  - split; [apply Hm|]. split; [simpl; lia|constructor].
  - apply Hm.
Qed.


(** The names and identifiers a message is known by. *)
Definition name (m : Message) : bytes :=
  match m with
  | MConnect _ => StrMsgTypeConnect | MConnAck _ => StrMsgTypeConnectAck
  | MPublish _ => StrMsgTypePublish | MPubAck _ => StrMsgTypePubAck
  | MPubRec _ => StrMsgTypePubRec | MPubRel _ => StrMsgTypePubRel
  | MPubComp _ => StrMsgTypePubComp | MSubscribe _ => StrMsgTypeSubscribe
  | MSubAck _ => StrMsgTypeSubAck | MUnsubscribe _ => StrMsgTypeUnsubscribe
  | MUnsubAck _ => StrMsgTypeUnsubAck | MPingReq _ => StrMsgTypePing
  | MPingResp _ => StrMsgTypePingResp | MDisconnect _ => StrMsgTypeDisconnect
  end.

Lemma with_topics_ne o h k : k ≠ StrikeHeaderTopicFilter → with_topics o h !! k = h !! k.
Proof. intros N. destruct o; [|done]. simpl. unfold Set_. by rewrite lookup_insert_ne. Qed.
Lemma header_method m : GetHeader m !! HeaderMethod = Some (name m).
Proof.
  destruct m; cbn [GetHeader]; unfold Connect_GetHeader, ConnAck_GetHeader, Publish_GetHeader, PubAck_GetHeader, PubRec_GetHeader, PubRel_GetHeader, PubComp_GetHeader, Subscribe_GetHeader, SubAck_GetHeader, Unsubscribe_GetHeader, UnsubAck_GetHeader, PingReq_GetHeader, PingResp_GetHeader, Disconnect_GetHeader;
    rewrite ?with_topics_ne by done; unfold Set_;
    repeat (rewrite lookup_insert_ne by done); by rewrite lookup_insert_eq.
Qed.
Lemma header_subscribe t : GetHeader (MSubscribe t) !! HeaderPacketID = Some (Itoa (Subscribe.PacketIdentifier t)).
Proof. unfold GetHeader, Subscribe_GetHeader. rewrite with_topics_ne by done. unfold Set_. by rewrite lookup_insert_eq. Qed.
Lemma header_unsubscribe t :
  GetHeader (MUnsubscribe t) !! HeaderPacketID = Some (Itoa (Unsubscribe.PacketIdentifier t)).
Proof. unfold GetHeader, Unsubscribe_GetHeader. rewrite with_topics_ne by done. unfold Set_. by rewrite lookup_insert_eq. Qed.

Lemma packetId_eq h n i : h !! HeaderPacketID = Some (Itoa n) → u16_ok n → packetId h i = n.
Proof.
  intros E [? ?]. unfold packetId, GetValue. rewrite E. simpl. rewrite Atoi_Itoa by lia.
  unfold uint16. apply wrapU_small; simpl; lia.
Qed.

(** The store after the answer to [m]. *)
Definition stored (m : Message) (v : serverStream) : gmap bytes Z :=
  match m with MConnect _ => <[bs "a" := connID v]> (store v) | _ => store v end.

Lemma AppendHeaders_answer m v : fields_ok m → sres v = None →
  AppendHeaders (handleSuccess (GetHeader m)) true v =
  endStream (set_store (stored m v) (set_sres (answer m) v)).
Proof.
  intros Hm Hn. unfold AppendHeaders. unfold GetValue at 1. rewrite success_status. cbn [default].
  unfold Get, Del. rewrite lookup_delete_ne by done. rewrite success_method, header_method.
  assert (∀ k, packetId (delete HeaderMethod (delete HeaderStatus (handleSuccess (GetHeader m)))) k =
    packetId (GetHeader m) k) as P.
  { intros k. unfold packetId, GetValue. rewrite !lookup_delete_ne by done. by rewrite success_packet. }
  f_equal. destruct v as [ci cl wr sto wl rq rs]; simpl in Hn; subst rs.
  destruct m; cbn [name]; try reflexivity.
  - rewrite !P, !(packetId_eq _ _ _ (header_subscribe m)) by apply Hm. reflexivity.
  - rewrite !P, !(packetId_eq _ _ _ (header_unsubscribe m)) by apply Hm. reflexivity.
Qed.

(** What doSend writes. *)
Definition sent (m : Message) : list bytes := match answer m with Some a => [wire a] | None => [] end.

Lemma doSend_answer m v : fields_ok m → pool_ok (wld v) → closed v = false → sres v = answer m →
  ∃ v', endStream v = Some v' ∧ written v' = written v ++ sent m ∧ pool_ok (wld v') ∧
    closed v' = false ∧ connID v' = connID v ∧ store v' = store v.
Proof.
  intros Hm Hw Hc Hr. unfold endStream, doSend, sent. rewrite Hr. destruct (answer m) as [a|] eqn:Ea.
  - pose proof (encode_wire a (wld v) (valid_sendable a (answer_valid m a Hm Ea)) Hw) as He.
    destruct (Message_Encode a (wld v)) as [[r|] [w' m']]; [|done].
    destruct He as (b & -> & Hw' & _ & Hvb). simpl. rewrite Hc. eexists. split; [done|]. simpl. by rewrite Hvb.
  - eexists. split; [done|]. by rewrite app_nil_r.
Qed.

(** ** The proxy's part *)

Section flow.
Context (Hproto : UpstreamProtocol env = MQ) (Hpools : ConnPoolFactories env = registeredPools)
        (Hpass : Forall passes fs).

Lemma OnDecodeDone_answer id m v :
  fields_ok m → pool_ok (wld v) → closed v = false →
  ∃ s, OnDecodeDone id m v = Some s ∧ px s = mkState zeroStream zeroRequest [] [] (trace (px s)) ∧
    written (server s) = written v ++ sent m ∧ pool_ok (wld (server s)) ∧ closed (server s) = false ∧
    connID (server s) = connID v ∧ store (server s) = stored m v.
Proof.
  intros Hm Hw Hc. unfold OnDecodeDone, handleMessage. cbn [sreq set_sres set_sreq].
  set (v1 := set_sres None (set_sreq (Some m) v)).
  destruct (serve_answered env fs (mq_ready env Hproto Hpools) Hpass id (GetHeader m) (GetPayload m) v1)
    as (c & tr & ->).
  cbn [sAppendHeaders mqtt_sender]. rewrite AppendHeaders_answer by done.
  destruct (doSend_answer m (set_store (stored m v1) (set_sres (answer m) v1))) as (v' & -> & E); try done.
  eexists. split; [done|]. split; [done|]. exact E.
Qed.

(** The entry a connection leaves in the listener's store. *)
Definition stores (ms : list Message) (v : serverStream) : gmap bytes Z :=
  if existsb (λ m, match m with MConnect _ => true | _ => false end) ms
  then <[bs "a" := connID v]> (store v) else store v.

Lemma deliver_all_answers ms v :
  Forall (λ p, fields_ok p.2) ms → pool_ok (wld v) → closed v = false →
  ∃ v', deliver_all ms v = Some v' ∧ written v' = written v ++ (ms ≫= λ p, sent p.2) ∧
    pool_ok (wld v') ∧ closed v' = false ∧ connID v' = connID v ∧ store v' = stores ms.*2 v.
Proof.
  intros F. revert v. induction F as [|[id m] ms Hm F IH]; intros v Hw Hc.
  - exists v. rewrite app_nil_r. done.
  - destruct (OnDecodeDone_answer id m v Hm Hw Hc) as (s & E & _ & E1 & E2 & E3 & E4 & E5).
    cbn [deliver_all]. rewrite E. cbn [mbind option_bind].
    destruct (IH (server s) E2 E3) as (v' & -> & E6 & E7 & E8 & E9 & E10).
    exists v'. split; [done|]. rewrite E6, E1. cbn. rewrite <- app_assoc. do 4 (split; [done || congruence|]).
    rewrite E10. unfold stores. rewrite E4, E5. destruct m; simpl; try done. by destruct (existsb _ _); rewrite ?insert_insert_eq.
Qed.

(** ** Reading a connection *)

Lemma fields_delivered m : fields_ok m → fields_ok (delivered m).
Proof. by destruct m. Qed.
Lemma answer_delivered m : answer (delivered m) = answer m.
Proof. by destruct m. Qed.
Lemma notify_all id ms : (notify (λ _ _, true) id ms).1.*2 = ms.
Proof.
  revert id. induction ms as [|m ms IH]; intros id; [done|]. cbn [notify].
  specialize (IH (uint64 (id + 1))). destruct (notify _ _ ms) as [l id']. simpl in *. by f_equal.
Qed.
Lemma bind_snd {A B C} (l : list (A * B)) (f : B → list C) : (l ≫= λ p, f p.2) = l.*2 ≫= f.
Proof. induction l as [|x l IH]; [done|]. cbn. by rewrite <- IH. Qed.
Lemma stores_delivered ms v : stores (delivered <$> ms) v = stores ms v.
Proof.
  unfold stores. generalize (store v) (connID v). intros.
  induction ms as [|m ms IH]; [done|]. rewrite fmap_cons. cbn [existsb]. by destruct m.
Qed.

Lemma Dispatch_answers {S} `{BufferSpec S} (id : Z) (c : Codec) (b : S) (v : serverStream) (ms : list Message) :
  Forall valid ms → ms ≠ [] → decoderState c = DecoderStateReadFixedHeader →
  has b (concat (wire <$> ms)) → zlen (concat (wire <$> ms)) < 2147483648 →
  pool_ok (wld v) → closed v = false →
  ∃ v' id' b' c', Dispatch id c b v = Some (v', id', b', c') ∧ has b' [] ∧
    decoderState c' = DecoderStateReadFixedHeader ∧
    written v' = written v ++ (ms ≫= sent) ∧ store v' = stores ms v.
Proof.
  intros Hv Hne Hc Hb Hl Hw Ho. destruct (decode_all ms b c Hv Hne Hc Hb Hl) as (b' & c' & E & Hb' & Hc').
  unfold Dispatch, Decode. rewrite E. pose proof (notify_all id (delivered <$> ms)) as N.
  destruct (notify _ id _) as [l id'] eqn:En. cbn [fst] in N. cbn [mbind option_bind].
  assert (Forall (λ p, fields_ok p.2) l) as F.
  { apply (proj1 (list.Forall_fmap snd fields_ok l)). rewrite N. apply list.Forall_fmap.
    eapply list.Forall_impl; [exact Hv|]. intros m (_ & _ & _ & Hm). by apply fields_delivered. }
  destruct (deliver_all_answers l v F Hw Ho) as (v' & -> & E1 & _ & _ & _ & E5).
  exists v', id', b', c'. split; [done|]. split; [done|]. split; [done|].
  rewrite E1, E5, bind_snd, N, stores_delivered. split; [|done]. f_equal.
  clear -ms. induction ms as [|m ms IH]; [done|]. cbn. rewrite IH. unfold sent. by rewrite answer_delivered.
Qed.
End flow.

(** C1: a connection is served end to end.  When what a read brings is a sequence
    of valid messages, the upstream protocol is MQ and the filters let the messages
    pass, then dispatching it decodes every message, runs it
    through the proxy to the client's stream and back, and writes to the
    connection exactly the acknowledgements of the messages that have one, in the
    order of the messages: CONNACK (accepted), SUBACK and UNSUBACK with the packet
    identifier of the request, PINGRESP.  The buffer is used up, the codec is
    ready for the next message, and the listener's store has the connection if it
    sent a CONNECT. *)
Theorem mqtt_session {S} `{BufferSpec S} (id : Z) (c : Codec) (b : S) (v : serverStream) (ms : list Message) :
  UpstreamProtocol env = MQ → ConnPoolFactories env = registeredPools → Forall passes fs →
  Forall valid ms → ms ≠ [] → decoderState c = DecoderStateReadFixedHeader →
  has b (concat (wire <$> ms)) → zlen (concat (wire <$> ms)) < 2147483648 →
  pool_ok (wld v) → closed v = false →
  ∃ v' id' b' c', Dispatch id c b v = Some (v', id', b', c') ∧ has b' [] ∧
    decoderState c' = DecoderStateReadFixedHeader ∧
    written v' = written v ++ (ms ≫= sent) ∧ store v' = stores ms v.
Proof. intros Hp Hr Hf. by apply Dispatch_answers. Qed.
End streams.

(** ** Witness: a SUBSCRIBE and a PINGREQ in one read *)

Module mqtt_example.
Definition env : proxyEnv :=
  mkEnv MQTT MQ (Some MQTT) registeredPools.
Definition sub0 : Message :=
  MSubscribe (Subscribe.Mk (MkHeader 8 2 0) 7 [Subscribe.MkTF (bs "a/b") 1]).
Definition conn0 : serverStream := mkServer 1 false [] ∅ w0 None None.

Lemma sub0_valid : valid sub0.
Proof.
  split; [done|]. split; [done|]. split; [by vm_compute|]. simpl. split; [done|]. split; [lia|].
  constructor; [|constructor]. done.
Qed.
End mqtt_example.

Lemma mqtt_session_witness :
  ∃ v' id' b' c', Dispatch (λ _, None) (λ _, None) mqtt_example.env [] 4 NewCodec
      (recv (concat (wire <$> [mqtt_example.sub0; ping0]))) mqtt_example.conn0 = Some (v', id', b', c') ∧
    written v' = [[x90; x02; x00; x07]; [xd0; x00]].
Proof.
  destruct (mqtt_session (λ _, None) (λ _, None) mqtt_example.env [] 4 NewCodec
    (recv (concat (wire <$> [mqtt_example.sub0; ping0]))) mqtt_example.conn0 [mqtt_example.sub0; ping0])
    as (v' & id' & b' & c' & E & _ & _ & W & _).
  - reflexivity.
  - reflexivity.
  - constructor.
  - constructor; [apply mqtt_example.sub0_valid|]. constructor; [apply ping0_valid|constructor].
  - done.
  - done.
  - apply recv_has.
  - vm_compute. done.
  - apply w0_ok.
  - done.
  - exists v', id', b', c'. split; [exact E|]. rewrite W. by vm_compute.
Defined.
