(* ===== verification/HttpBody.v ===== *)
(** * Responses and their bodies

    src/pkg/protocol/http/v1/response.go: a response with its body, held in a
    buffer or read from a stream, and how it is written: with its length, or in
    chunks when the length is not known.

    [bufio] is a bufio.Writer of the default size over the statsWriter of
    [writeBufio] and a connection that takes the whole of a write or fails
    ([cut]); its error is sticky.  [Reader] is an io.Reader by the results of its
    reads, each of some bytes or of an error alone, and io.LimitedReader around
    one.  The date of the server and the cache of status lines are those of
    HttpResponse.v.  [dechunk] is the reader of the chunked coding (RFC 7230, 4.1,
    without extensions and trailers) that the round trip is stated with. *)

From S2P Require Import Prelude BytesConv Args HttpUri HttpCookie HttpHeader HttpRequest HttpResponse.

(** ** Errors, readers and writers *)

Inductive wErr : Type :=
  | ErrConn | ErrRead (e : Z) | ErrNoProgress | ErrClose (e : Z) | ErrCopied (n size : Z).

(** The reads that give bytes, what comes after them (end of file or an error),
    and the result of Close where the reader has one. *)
Record source : Type := mkSource { reads : list bytes; after : option Z; closing : option (option Z) }.
Inductive Reader : Type := Plain (s : source) | Limited (s : source) (N : Z).

Definition source_read (k : Z) (s : source) : bytes * bool * source :=
  match reads s with
  | [] => ([], true, s)
  | c :: l =>
      if zlen c <=? k then (c, false, mkSource l (after s) (closing s))
      else (take (Z.to_nat k) c, false, mkSource (drop (Z.to_nat k) c :: l) (after s) (closing s))
  end.
(** Read into a slice of [k] bytes: the bytes, and whether with them the reader is
    at its end, which is [ended]. *)
Definition Read (k : Z) (r : Reader) : bytes * bool * Reader :=
  match r with
  | Plain s => let '(p, e, s) := source_read k s in (p, e, Plain s)
  | Limited s N =>
      if N <=? 0 then ([], true, r)
      else let '(p, e, s) := source_read (Z.min k N) s in (p, e, Limited s (N - zlen p))
  end.
(** [None] is io.EOF. *)
Definition ended (r : Reader) : option wErr :=
  match r with
  | Plain s => ErrRead <$> after s
  | Limited s N => if N <=? 0 then None else ErrRead <$> after s
  end.
Definition remaining (r : Reader) : nat :=
  match r with Plain s | Limited s _ => length (concat (reads s)) + length (reads s) end.

Definition bufSize : Z := 4096.
Record bufio : Type := mkBufio {
  wbuf : bytes; werr : bool; cut : bool; wout : list bytes; bytesWritten : Z
}.
Definition bufio_new (cut : bool) (out : list bytes) : bufio := mkBufio [] false cut out 0.
(** statsWriter.Write to streamConnection.Write, which reports every byte as
    written, with the connection's error. *)
Definition conn_write (p : bytes) (w : bufio) : bufio :=
  mkBufio [] (cut w) (cut w) (if cut w then wout w else wout w ++ [p]) (bytesWritten w + zlen p).
Definition set_wbuf (p : bytes) (w : bufio) : bufio :=
  mkBufio p (werr w) (cut w) (wout w) (bytesWritten w).
Definition Flush (w : bufio) : bufio :=
  if werr w then w else if zlen (wbuf w) =? 0 then w else conn_write (wbuf w) w.
Definition avail (w : bufio) : Z := bufSize - zlen (wbuf w).
(** Since the connection takes whole writes, at most one flush comes before what is
    left of [p] fits or is handed over. *)
Definition bwrite (p : bytes) (w : bufio) : bufio :=
  if werr w then w
  else if zlen p <=? avail w then set_wbuf (wbuf w ++ p) w
  else if zlen (wbuf w) =? 0 then conn_write p w
  else
    let k := Z.to_nat (avail w) in
    let w1 := conn_write (wbuf w ++ take k p) w in
    if werr w1 then w1
    else if zlen (drop k p) <=? bufSize then set_wbuf (drop k p) w1
    else conn_write (drop k p) w1.
Definition err_of (w : bufio) : option wErr := if werr w then Some ErrConn else None.

Definition maxConsecutiveEmptyReads : nat := 100.
(** bufio.Writer.ReadFrom; [None] when the fuel runs out.  The counts of bytes are
    not wrapped: no stream gives 2^63 of them. *)
Fixpoint ReadFrom (fuel nr : nat) (r : Reader) (n : Z) (w : bufio)
    : option (Z * option wErr * Reader * bufio) :=
  match fuel with
  | O => None
  | S fuel =>
      let full := avail w =? 0 in
      let w := if full then Flush w else w in
      if full && werr w then Some (n, err_of w, r, w)
      else if (maxConsecutiveEmptyReads <=? nr)%nat then Some (n, Some ErrNoProgress, r, w)
      else
        let '(p, e, r) := Read (avail w) r in
        let w := set_wbuf (wbuf w ++ p) w in
        let n := n + zlen p in
        if e : bool then
          match ended r with
          | Some e => Some (n, Some e, r, w)
          | None => let w := if avail w =? 0 then Flush w else w in Some (n, err_of w, r, w)
          end
        else ReadFrom fuel (if zlen p =? 0 then S nr else O) r n w
  end.
(** io.CopyBuffer to a bufio.Writer reads from it. *)
Definition copyZeroAlloc (w : bufio) (r : Reader) : option (Z * option wErr * Reader * bufio) :=
  ReadFrom (remaining r + 2) 0 r 0 w.

(** ** Writing a body *)

Definition maxSmallFileSize : Z := 2 * 4096.
Definition copyBufSize : Z := 4096.

(** [None] is a panic. *)
Definition writeChunk (b : bytes) (w : bufio) : option (option wErr * bufio) :=
  d ← WriteHexInt (zlen b);
  let w := bwrite StrCRLF (bwrite b (bwrite StrCRLF (bwrite d w))) in
  let err := err_of w in
  let w := Flush w in
  Some (match err with None => err_of w | Some e => Some e end, w).

(** [None] is a panic, of a read of nothing without an error, or the end of the
    fuel. *)
Fixpoint writeBodyChunked_loop (fuel : nat) (r : Reader) (w : bufio) : option (option wErr * Reader * bufio) :=
  match fuel with
  | O => None
  | S fuel =>
      let '(p, e, r) := Read copyBufSize r in
      if zlen p =? 0 then
        if e : bool then
          match ended r with
          | None => '(err, w) ← writeChunk [] w; Some (err, r, w)
          | Some err => Some (Some err, r, w)
          end
        else None
      else
        '(err, w) ← writeChunk p w;
        match err with
        | Some err => Some (Some err, r, w)
        | None => writeBodyChunked_loop fuel r w
        end
  end.
Definition writeBodyChunked (w : bufio) (r : Reader) : option (option wErr * Reader * bufio) :=
  writeBodyChunked_loop (remaining r + 2) r w.

(** A limited reader is unwrapped: the copy is of the reader inside. *)
Definition writeBodyFixedSize (w : bufio) (r : Reader) (size : Z) : option (option wErr * Reader * bufio) :=
  let w := if maxSmallFileSize <? size then Flush w else w in
  if (maxSmallFileSize <? size) && werr w then Some (Some ErrConn, r, w)
  else
    let inner := match r with Limited s _ => Plain s | Plain _ => r end in
    '(n, err, inner, w) ← copyZeroAlloc w inner;
    let r := match r, inner with Limited _ N, Plain s => Limited s (N - n) | _, _ => inner end in
    Some (match err with None => if n =? size then None else Some (ErrCopied n size) | Some e => Some e end, r, w).

Definition limitedReaderSize (r : Reader) : Z := match r with Limited _ N => N | Plain _ => -1 end.

(** ** The response *)

Module Response.
(** The storage behind the body is appended to and never shown, and so left out. *)
Record t : Type := Mk {
  Header : ResponseHeader.t; bodyStream : option Reader; body : option bytes;
  SkipBody : bool; keepBodyBuffer : bool
}.
Definition set_Header (h : ResponseHeader.t) (r : t) : t :=
  Mk h (bodyStream r) (body r) (SkipBody r) (keepBodyBuffer r).
Definition set_bodyStream (s : option Reader) (r : t) : t :=
  Mk (Header r) s (body r) (SkipBody r) (keepBodyBuffer r).
Definition set_body (b : option bytes) (r : t) : t :=
  Mk (Header r) (bodyStream r) b (SkipBody r) (keepBodyBuffer r).
Definition set_SkipBody (b : bool) (r : t) : t :=
  Mk (Header r) (bodyStream r) (body r) b (keepBodyBuffer r).

Definition closeBodyStream (r : t) : option wErr * t :=
  match bodyStream r with
  | None => (None, r)
  | Some s => (match s with Plain s => closing s ≫= fmap ErrClose | Limited _ _ => None end, set_bodyStream None r)
  end.
(** A buffer of the pool is empty. *)
Definition bodyBuffer (r : t) : bytes := default [] (body r).
Definition AppendBodyString (s : bytes) (r : t) : t :=
  let r := (closeBodyStream r).2 in set_body (Some (bodyBuffer r ++ s)) r.
Definition AppendBody (p : bytes) (r : t) : t := AppendBodyString p r.
Definition ResetBody (r : t) : t :=
  let r := (closeBodyStream r).2 in
  match body r with
  | Some _ => set_body (if keepBodyBuffer r then Some [] else None) r
  | None => r
  end.
Definition resetSkipHeader (r : t) : t := ResetBody r.
Definition Reset (r : t) : t :=
  set_SkipBody false (resetSkipHeader (set_Header (ResponseHeader.Reset (Header r)) r)).
Definition mustSkipBody (r : t) : bool := SkipBody r || ResponseHeader.mustSkipContentLength (Header r).
Definition StatusCode (r : t) : Z := ResponseHeader.StatusCode (Header r).
Definition SetStatusCode (c : Z) (r : t) : t := set_Header (ResponseHeader.SetStatusCode c (Header r)) r.
Definition ConnectionClose (r : t) : bool := ResponseHeader.ConnectionClose (Header r).
Definition SetConnectionClose (r : t) : t := set_Header (ResponseHeader.SetConnectionClose (Header r)) r.
Definition SetContentLength (n : Z) (r : t) : t := set_Header (ResponseHeader.SetContentLength n (Header r)) r.
Definition SetBodyStream (s : Reader) (bodySize : Z) (r : t) : t :=
  SetContentLength bodySize (set_bodyStream (Some s) (ResetBody r)).
Definition IsBodyStream (r : t) : bool := match bodyStream r with Some _ => true | None => false end.
Definition bodyBytes (r : t) : bytes := default [] (body r).

Section write.
Context (date : bytes).

(** ResponseHeader.Write, with the cache of status lines. *)
Definition Header_Write (m : gmap Z bytes) (h : ResponseHeader.t) (w : bufio) : gmap Z bytes * bufio :=
  let '(text, m) := ResponseHeader.AppendBytes m date [] h in (m, bwrite text w).

Definition output : Type := option wErr * t * gmap Z bytes * bufio.

(** The stream that is left after a copy, closed. *)
Definition finish_stream (err : option wErr) (s : Reader) (m : gmap Z bytes) (w : bufio) (r : t) : output :=
  let '(err1, r) := closeBodyStream (set_bodyStream (Some s) r) in
  (match err with None => err1 | Some e => Some e end, r, m, w).

Definition writeBodyStream (m : gmap Z bytes) (s : Reader) (sendBody : bool) (r : t) (w : bufio) : option output :=
  let contentLength := ResponseHeader.ContentLength (Header r) in
  let '(contentLength, r) :=
    if (contentLength <? 0) && (0 <=? limitedReaderSize s)
    then (limitedReaderSize s, SetContentLength (limitedReaderSize s) r)
    else (contentLength, r) in
  if 0 <=? contentLength then
    let '(m, w) := Header_Write m (Header r) w in
    if negb (werr w) && sendBody then
      '(err, s, w) ← writeBodyFixedSize w s contentLength; Some (finish_stream err s m w r)
    else Some (finish_stream (err_of w) s m w r)
  else
    let r := SetContentLength (-1) r in
    let '(m, w) := Header_Write m (Header r) w in
    if negb (werr w) && sendBody then
      '(err, s, w) ← writeBodyChunked w s; Some (finish_stream err s m w r)
    else Some (finish_stream (err_of w) s m w r).

Definition Write (m : gmap Z bytes) (r : t) (w : bufio) : option output :=
  let sendBody := negb (mustSkipBody r) in
  match bodyStream r with
  | Some s => writeBodyStream m s sendBody r w
  | None =>
      let body := bodyBytes r in
      let r := if sendBody || (0 <? zlen body) then SetContentLength (zlen body) r else r in
      let '(m, w) := Header_Write m (Header r) w in
      if werr w then Some (Some ErrConn, r, m, w)
      else let w := if sendBody then bwrite body w else w in Some (err_of w, r, m, w)
  end.

(** WriteTo, by writeBufio with a recycled writer: the bytes that were written, the
    error, the response, the cache and what the connection has got. *)
Definition WriteTo (m : gmap Z bytes) (r : t) (cut : bool) (out : list bytes)
    : option (Z * option wErr * t * gmap Z bytes * list bytes) :=
  '(err1, r, m, w) ← Write m r (bufio_new cut out);
  let w := Flush w in
  Some (bytesWritten w, match err1 with None => err_of w | Some e => Some e end, r, m, wout w).
End write.
End Response.

(** ** The chunked coding, read *)

Definition strip (p b : bytes) : option bytes := if HasPrefix b p then Some (drop (length p) b) else None.
Fixpoint dechunk (fuel : nat) (b : bytes) : option (bytes * bytes) :=
  match fuel with
  | O => None
  | S fuel =>
      match readHexInt b with
      | (Ok n, b) =>
          b ← strip StrCRLF b;
          if n =? 0 then b ← strip StrCRLF b; Some ([], b)
          else
            let d := take (Z.to_nat n) b in
            if zlen d =? n then
              b ← strip StrCRLF (drop (Z.to_nat n) b);
              '(rest, b) ← dechunk fuel b; Some (d ++ rest, b)
            else None
      | (Err _, _) => None
      end
  end.

(** ** What a healthy writer writes *)

Definition wok (w : bufio) : Prop := werr w = false ∧ cut w = false ∧ zlen (wbuf w) ≤ bufSize.
Definition content (w : bufio) : bytes := concat (wout w) ++ wbuf w.
Definition total (w : bufio) : Z := bytesWritten w + zlen (wbuf w).
(** From [w] to [w'], [p] was written. *)
Record wrote (p : bytes) (w w' : bufio) : Prop := {
  wr_ok : wok w'; wr_content : content w' = content w ++ p; wr_total : total w' = total w + zlen p
}.

Lemma wrote_refl w : wok w → wrote [] w w.
Proof. split; [done|by rewrite app_nil_r|unfold zlen; simpl; lia]. Qed.
Lemma wrote_trans p q w w1 w2 : wrote p w w1 → wrote q w1 w2 → wrote (p ++ q) w w2.
Proof. intros [? E1 T1] [? E2 T2]. split; [done|by rewrite E2, E1, app_assoc|rewrite zlen_app; lia]. Qed.

Lemma wrote_conn p w : werr w = false → cut w = false →
  wrote p (set_wbuf [] w) (conn_write p w).
Proof.
  intros E1 E2. unfold conn_write. rewrite E2. split.
  - split_and!; simpl; [done|done|unfold zlen, bufSize; simpl; lia].
  - unfold content. simpl. rewrite concat_app. simpl. by rewrite !app_nil_r.
  - unfold total. simpl. unfold zlen. simpl. lia.
Qed.
Lemma wrote_set p w : wok w → zlen p ≤ avail w → wrote p w (set_wbuf (wbuf w ++ p) w).
Proof.
  intros (? & ? & ?) L. split.
  - split_and!; simpl; [done|done|]. unfold avail in L. rewrite zlen_app. lia.
  - unfold content. simpl. by rewrite app_assoc.
  - unfold total. simpl. rewrite zlen_app. lia.
Qed.
Lemma wrote_over p q w : werr w = false → cut w = false → wbuf w ++ p = q → wrote p w (conn_write q w).
Proof.
  intros E1 E2 <-. destruct (wrote_conn (wbuf w ++ p) w E1 E2) as [H1 H2 H3]. split; [done| |].
  - rewrite H2. unfold content. simpl. by rewrite app_nil_r, app_assoc.
  - rewrite H3. unfold total. simpl. rewrite zlen_app. unfold zlen. simpl. lia.
Qed.

Lemma bwrite_wrote p w : wok w → wrote p w (bwrite p w).
Proof.
  intros Hw. destruct Hw as (E1 & E2 & L). unfold bwrite. rewrite E1.
  destruct (zlen p <=? avail w) eqn:Ea; bdec; [by apply wrote_set|].
  destruct (zlen (wbuf w) =? 0) eqn:Eb; bdec.
  { apply wrote_over; [done..|]. by rewrite (proj1 (zlen_0 _) Eb). }
  cbv zeta. set (k := Z.to_nat (avail w)).
  assert (wrote (take k p) w (conn_write (wbuf w ++ take k p) w)) as W1 by by apply wrote_over.
  set (w1 := conn_write (wbuf w ++ take k p) w) in *.
  assert (wbuf w1 = []) as B1 by done. assert (werr w1 = false) as B2 by apply W1. rewrite B2.
  rewrite <- (take_drop k p) at 1. eapply wrote_trans; [exact W1|].
  destruct (zlen (drop k p) <=? bufSize) eqn:Ec; bdec.
  - assert (zlen (drop k p) ≤ avail w1) as Hq by (unfold avail; rewrite B1; unfold zlen; simpl; unfold zlen in Ec; lia).
    pose proof (wrote_set (drop k p) w1 (wr_ok _ _ _ W1) Hq) as W. by rewrite B1 in W.
  - apply wrote_over; [done|apply W1|]. by rewrite B1.
Qed.
Lemma Flush_wrote w : wok w → wrote [] w (Flush w) ∧ wbuf (Flush w) = [].
Proof.
  intros Hw. pose proof Hw as (E1 & E2 & L). unfold Flush. rewrite E1.
  destruct (zlen (wbuf w) =? 0) eqn:Eb; bdec.
  - split; [by apply wrote_refl|by apply zlen_0].
  - split; [|done]. apply wrote_over; [done..|]. by rewrite app_nil_r.
Qed.

(** A chunk on the wire. *)
Definition chunk (c : bytes) : bytes := WriteHexInt_loop 16 (zlen c) [] ++ StrCRLF ++ c ++ StrCRLF.

Lemma writeChunk_wrote c w : wok w →
  ∃ w', writeChunk c w = Some (None, w') ∧ wrote (chunk c) w w' ∧ wbuf w' = [].
Proof.
  intros Hw. unfold writeChunk, WriteHexInt. pose proof (zlen_nonneg c) as Hc.
  rewrite (proj2 (Z.ltb_ge _ _)) by lia. cbn [mbind option_bind].
  set (d := WriteHexInt_loop 16 (zlen c) []).
  pose proof (bwrite_wrote d w Hw) as W1. pose proof (bwrite_wrote StrCRLF _ (wr_ok _ _ _ W1)) as W2.
  pose proof (bwrite_wrote c _ (wr_ok _ _ _ W2)) as W3. pose proof (bwrite_wrote StrCRLF _ (wr_ok _ _ _ W3)) as W4.
  destruct (Flush_wrote _ (wr_ok _ _ _ W4)) as [W5 B].
  eexists. split; [|split; [|exact B]].
  - unfold err_of. rewrite (proj1 (wr_ok _ _ _ W4)), (proj1 (wr_ok _ _ _ W5)). done.
  - pose proof (wrote_trans _ _ _ _ _ W1 (wrote_trans _ _ _ _ _ W2 (wrote_trans _ _ _ _ _ W3
      (wrote_trans _ _ _ _ _ W4 W5)))) as W. rewrite app_nil_r in W. exact W.
Qed.

Lemma chunks_length cs : (length cs ≤ length (concat (chunk <$> cs)))%nat.
Proof.
  induction cs as [|c cs IH]; [done|]. rewrite fmap_cons. cbn [concat length]. rewrite length_app.
  enough (0 < length (chunk c))%nat by lia. unfold chunk. rewrite !length_app. cbn [StrCRLF length]. lia.
Qed.

(** A source that gives bytes with every read but the last. *)
Definition gives (s : source) (d : bytes) : Prop :=
  Forall (λ c, c ≠ []) (reads s) ∧ concat (reads s) = d ∧ after s = None.

Lemma source_read_step k s d : 0 < k → gives s d →
  (reads s = [] ∧ d = [] ∧ source_read k s = ([], true, s)) ∨
  ∃ p d' s', source_read k s = (p, false, s') ∧ gives s' d' ∧ d = p ++ d' ∧ p ≠ [] ∧ zlen p ≤ k ∧
    closing s' = closing s ∧ (length d' + length (reads s') < length d + length (reads s))%nat.
Proof.
  intros Hk (F & <- & E). unfold source_read. destruct (reads s) as [|c l] eqn:Er; [by left|]. right.
  inversion_clear F as [|? ? Hc F']. destruct (zlen c <=? k) eqn:El; bdec.
  - exists c, (concat l), (mkSource l (after s) (closing s)). split; [done|]. split; [done|].
    split_and!; [done|done|done|done|]. simpl. rewrite length_app. lia.
  - assert (0 < length (take (Z.to_nat k) c))%nat as Hp by (rewrite length_take; unfold zlen in El; lia).
    exists (take (Z.to_nat k) c), (drop (Z.to_nat k) c ++ concat l), (mkSource (drop (Z.to_nat k) c :: l) (after s) (closing s)).
    split; [done|]. split_and!.
    + split; [constructor; [|done]|done]. simpl. intros E0%(f_equal length).
      rewrite length_drop in E0. unfold zlen in El. simpl in E0. lia.
    + simpl. by rewrite app_assoc, take_drop.
    + by intros E0; rewrite E0 in Hp; simpl in Hp; lia.
    + unfold zlen. rewrite length_take. lia.
    + done.
    + simpl. rewrite !length_app, length_drop. rewrite length_take in Hp. lia.
Qed.

Lemma chunked_wrote fuel s d w : wok w → gives s d → (length d + length (reads s) < fuel)%nat →
  ∃ cs s' w', writeBodyChunked_loop fuel (Plain s) w = Some (None, Plain s', w') ∧ closing s' = closing s ∧
    Forall (λ c, c ≠ [] ∧ zlen c ≤ copyBufSize) cs ∧ concat cs = d ∧
    wrote (concat (chunk <$> cs) ++ chunk []) w w'.
Proof.
  revert s d w. induction fuel as [|fuel IH]; intros s d w Hw Hs Hf; [lia|]. cbn [writeBodyChunked_loop Read].
  destruct (source_read_step copyBufSize s d ltac:(done) Hs) as [(E0 & -> & ->)|(p & d' & s' & E & Hs' & -> & Hp & Hl & Hcl & Hm)].
  - cbn [zlen length]. change (zlen [] =? 0) with true. cbn [ended].
    destruct Hs as (_ & _ & ->). cbn [fmap option_fmap option_map].
    destruct (writeChunk_wrote [] w Hw) as (w' & -> & W & _). cbn [mbind option_bind].
    exists [], s, w'. split_and!; try done.
  - rewrite E. rewrite (proj2 (Z.eqb_neq (zlen p) 0)) by (by rewrite zlen_0).
    destruct (writeChunk_wrote p w Hw) as (w1 & -> & W & _). cbn [mbind option_bind].
    destruct (IH s' d' w1 (wr_ok _ _ _ W) Hs' ltac:(lia)) as (cs & s2 & w2 & -> & C & F & <- & W2).
    exists (p :: cs), s2, w2. split; [done|]. split_and!; [|by constructor|done|].
    + by rewrite C.
    + rewrite fmap_cons. cbn [concat]. rewrite <- app_assoc. by eapply wrote_trans.
Qed.

Lemma strip_app p b : strip p (p ++ b) = Some b.
Proof.
  unfold strip. rewrite (proj2 (HasPrefix_spec (p ++ b) p)) by (by exists b). by rewrite drop_app_length.
Qed.

Lemma read_size c rest : zlen c ≤ copyBufSize → readHexInt (chunk c ++ rest) = (Ok (zlen c), StrCRLF ++ c ++ StrCRLF ++ rest).
Proof.
  intros L. destruct (hex_roundtrip (zlen c) CR (LF :: c ++ StrCRLF ++ rest)) as (d & E & R).
  - pose proof (zlen_nonneg c). unfold copyBufSize in L. split; [lia|]. apply Z.le_lt_trans with 4096; done.
  - done.
  - unfold WriteHexInt in E. rewrite (proj2 (Z.ltb_ge _ _)) in E by (apply zlen_nonneg). apply (inj Some) in E.
    rewrite <- E in R. unfold chunk. rewrite <- !app_assoc. exact R.
Qed.

Lemma dechunk_chunks cs rest fuel : Forall (λ c, c ≠ [] ∧ zlen c ≤ copyBufSize) cs → (length cs < fuel)%nat →
  dechunk fuel (concat (chunk <$> cs) ++ chunk [] ++ rest) = Some (concat cs, rest).
Proof.
  intros F. revert fuel. induction F as [|c cs [Hc Hl] F IH]; intros fuel Hf; (destruct fuel as [|fuel]; [simpl in Hf; lia|]);
    cbn [dechunk].
  - rewrite fmap_nil. cbn [concat app]. rewrite read_size by done. rewrite strip_app. cbn [mbind option_bind].
    change (zlen [] =? 0) with true. cbv iota. cbn [app]. rewrite strip_app. done.
  - rewrite fmap_cons. cbn [concat]. rewrite <- app_assoc, read_size by done. rewrite strip_app. cbn [mbind option_bind].
    rewrite (proj2 (Z.eqb_neq (zlen c) 0)) by (by rewrite zlen_0).
    assert (Z.to_nat (zlen c) = length c) as -> by (unfold zlen; lia). cbv zeta.
    rewrite take_app_length, Z.eqb_refl, drop_app_length, strip_app. cbn [mbind option_bind].
    rewrite IH by (simpl in Hf; lia). done.
Qed.

Lemma ReadFrom_wrote fuel s d n w : wok w → gives s d → (length d + length (reads s) < fuel)%nat →
  ∃ s' w', ReadFrom fuel 0 (Plain s) n w = Some (n + zlen d, None, Plain s', w') ∧
    closing s' = closing s ∧ wrote d w w'.
Proof.
  revert s d n w. induction fuel as [|fuel IH]; intros s d n w Hw Hs Hf; [lia|]. cbn [ReadFrom].
  set (full := avail w =? 0). set (w1 := if full then Flush w else w).
  assert (wrote [] w w1 ∧ 0 < avail w1) as [W1 A1].
  { subst w1 full. destruct (avail w =? 0) eqn:E; bdec.
    - destruct (Flush_wrote w Hw) as [W B]. split; [done|]. unfold avail. rewrite B. done.
    - split; [by apply wrote_refl|]. destruct Hw as (_ & _ & L). unfold avail in *. lia. }
  pose proof (wr_ok _ _ _ W1) as Hw1. rewrite (proj1 Hw1), andb_false_r. cbn [maxConsecutiveEmptyReads Nat.leb Read].
  destruct (source_read_step (avail w1) s d A1 Hs) as [(E0 & -> & ->)|(p & d' & s' & -> & Hs' & -> & Hp & Hl & Hc & Hm)].
  - cbn [ended]. destruct Hs as (_ & _ & ->). cbn [fmap option_fmap option_map].
    pose proof (wrote_set [] w1 Hw1 ltac:(unfold zlen; simpl; lia)) as W2. set (w2 := set_wbuf _ w1) in *.
    assert (wrote [] w2 (if avail w2 =? 0 then Flush w2 else w2)) as W3.
    { destruct (avail w2 =? 0); [apply Flush_wrote|apply wrote_refl]; apply W2. }
    exists s. eexists. split; [|split; [done|exact (wrote_trans _ _ _ _ _ W1 (wrote_trans _ _ _ _ _ W2 W3))]].
    unfold err_of. rewrite (proj1 (wr_ok _ _ _ W3)). done.
  - rewrite (proj2 (Z.eqb_neq (zlen p) 0)) by (by rewrite zlen_0).
    pose proof (wrote_set p w1 Hw1 Hl) as W2.
    destruct (IH s' d' (n + zlen p) _ (wr_ok _ _ _ W2) Hs' ltac:(lia)) as (s2 & w3 & -> & Hc2 & W3).
    exists s2, w3. split; [by rewrite zlen_app, Z.add_assoc|]. split; [by rewrite Hc2|].
    exact (wrote_trans _ _ _ _ _ W1 (wrote_trans _ _ _ _ _ W2 W3)).
Qed.

(** A body of a given size is written in full, and an error is given if it is not
    of that size. *)
Lemma fixed_wrote s d w r size : wok w → gives s d → (r = Plain s ∨ ∃ N, r = Limited s N) →
  ∃ s' w', writeBodyFixedSize w r size =
    Some (if zlen d =? size then None else Some (ErrCopied (zlen d) size),
          match r with Plain _ => Plain s' | Limited _ N => Limited s' (N - zlen d) end, w') ∧
    closing s' = closing s ∧ wrote d w w'.
Proof.
  intros Hw Hs Hr. unfold writeBodyFixedSize. set (big := maxSmallFileSize <? size).
  assert (wrote [] w (if big then Flush w else w)) as W1.
  { destruct big; [by apply Flush_wrote|by apply wrote_refl]. }
  set (w1 := if big then Flush w else w) in *. rewrite (proj1 (wr_ok _ _ _ W1)), andb_false_r. cbv zeta iota.
  assert (match r with Limited s _ => Plain s | Plain _ => r end = Plain s) as -> by (by destruct Hr as [->|[N ->]]).
  unfold copyZeroAlloc. destruct (ReadFrom_wrote (remaining (Plain s) + 2) s d 0 w1 (wr_ok _ _ _ W1) Hs) as (s' & w' & -> & Hc & W2).
  { destruct Hs as (_ & <- & _). simpl. lia. }
  cbn [mbind option_bind]. rewrite Z.add_0_l. exists s', w'. split; [|split; [done|exact (wrote_trans _ _ _ _ _ W1 W2)]].
  by destruct Hr as [->|[N ->]].
Qed.

(** ** What is written of a response *)

Section written.
Context (date : bytes) (m : gmap Z bytes).
Implicit Types (r : Response.t) (h : ResponseHeader.t).

Definition header_of h : bytes := (ResponseHeader.AppendBytes m date [] h).1.

Lemma Header_Write_wrote h w : wok w →
  ∃ w', Response.Header_Write date m h w = ((ResponseHeader.AppendBytes m date [] h).2, w') ∧ wrote (header_of h) w w'.
Proof.
  intros Hw. unfold Response.Header_Write, header_of. destruct (ResponseHeader.AppendBytes m date [] h) as [t m'].
  eexists. split; [done|]. by apply bwrite_wrote.
Qed.

(** From what Write wrote to what the connection has got. *)
Lemma WriteTo_wrote r out err r' m' t :
  (∃ w', Response.Write date m r (bufio_new false out) = Some (err, r', m', w') ∧ wrote t (bufio_new false out) w') →
  ∃ out', Response.WriteTo date m r false out = Some (zlen t, err, r', m', out') ∧ concat out' = concat out ++ t.
Proof.
  intros (w' & E & W). unfold Response.WriteTo. rewrite E. cbn [mbind option_bind].
  destruct (Flush_wrote w' (wr_ok _ _ _ W)) as [W' B].
  pose proof (wrote_trans _ _ _ _ _ W W') as [Hok Hc Ht]. rewrite app_nil_r in Hc, Ht.
  unfold content, total in Hc, Ht. rewrite B in Hc, Ht. cbn [bufio_new wout wbuf bytesWritten] in Hc, Ht.
  rewrite !app_nil_r in Hc. exists (wout (Flush w')). split; [|done].
  rewrite zlen_nil, !Z.add_0_r, Z.add_0_l in Ht. unfold err_of. rewrite (proj1 Hok), Ht. by destruct err.
Qed.

Lemma new_ok out : wok (bufio_new false out).
Proof. split_and!; done. Qed.

(** A response with its body in the buffer. *)
Lemma body_written r out : Response.bodyStream r = None → Response.mustSkipBody r = false →
  let r' := Response.SetContentLength (zlen (Response.bodyBytes r)) r in
  ∃ out', Response.WriteTo date m r false out =
      Some (zlen (header_of (Response.Header r') ++ Response.bodyBytes r), None, r',
        (ResponseHeader.AppendBytes m date [] (Response.Header r')).2, out') ∧
    concat out' = concat out ++ header_of (Response.Header r') ++ Response.bodyBytes r.
Proof.
  intros Es Hskip r'. destruct (Header_Write_wrote (Response.Header r') _ (new_ok out)) as (w1 & E1 & W1).
  pose proof (bwrite_wrote (Response.bodyBytes r) _ (wr_ok _ _ _ W1)) as W2.
  apply WriteTo_wrote. eexists. split; [|exact (wrote_trans _ _ _ _ _ W1 W2)].
  unfold Response.Write. rewrite Es, Hskip. cbn [negb orb]. cbv zeta. fold r'. rewrite E1.
  rewrite (proj1 (wr_ok _ _ _ W1)). unfold err_of. rewrite (proj1 (wr_ok _ _ _ W2)). done.
Qed.

(** A stream that closes without an error. *)
Definition closes (s : source) : Prop := closing s = None ∨ closing s = Some None.
Lemma finish_closed err s s' w m' r : closes s → closing s' = closing s →
  Response.finish_stream err (Plain s') m' w r = (err, Response.set_bodyStream None r, m', w).
Proof.
  intros H E. unfold Response.finish_stream, Response.closeBodyStream. cbn [Response.bodyStream Response.set_bodyStream].
  rewrite E. destruct H as [-> | ->]; by destruct err.
Qed.

Lemma chunked_written r s d out : Response.bodyStream r = Some (Plain s) → gives s d → closes s →
  Response.mustSkipBody r = false → ResponseHeader.ContentLength (Response.Header r) < 0 →
  let r' := Response.SetContentLength (-1) r in
  ∃ cs m' out', Response.WriteTo date m r false out =
      Some (zlen (header_of (Response.Header r') ++ concat (chunk <$> cs) ++ chunk []), None,
            Response.set_bodyStream None r', m', out') ∧
    concat out' = concat out ++ header_of (Response.Header r') ++ concat (chunk <$> cs) ++ chunk [] ∧
    Forall (λ c, c ≠ [] ∧ zlen c ≤ copyBufSize) cs ∧ concat cs = d.
Proof.
  intros Es Hs Hc Hskip Hn r'. destruct (Header_Write_wrote (Response.Header r') _ (new_ok out)) as (w1 & E1 & W1).
  destruct (chunked_wrote (remaining (Plain s) + 2) s d w1 (wr_ok _ _ _ W1) Hs) as (cs & s' & w2 & E2 & C & F & Ed & W2).
  { destruct Hs as (_ & <- & _). simpl. lia. }
  destruct (WriteTo_wrote r out None (Response.set_bodyStream None r')
    (ResponseHeader.AppendBytes m date [] (Response.Header r')).2
    (header_of (Response.Header r') ++ concat (chunk <$> cs) ++ chunk [])) as (out' & E & Eo).
  { eexists. split; [|exact (wrote_trans _ _ _ _ _ W1 W2)].
    unfold Response.Write. rewrite Es, Hskip. unfold Response.writeBodyStream. cbn [limitedReaderSize].
    change (0 <=? -1) with false. rewrite andb_false_r, (proj2 (Z.leb_gt _ _)) by done. cbv zeta. fold r'. rewrite E1.
    rewrite (proj1 (wr_ok _ _ _ W1)). cbn [negb andb]. unfold writeBodyChunked. rewrite E2. cbn [mbind option_bind].
    by rewrite finish_closed with (s := s). }
  by exists cs, (ResponseHeader.AppendBytes m date [] (Response.Header r')).2, out'.
Qed.

(** The stream of a limited reader, of unknown length: the length that is announced
    is the limit, and what is written is all that the reader inside gives. *)
Lemma limited_written r s N d out : Response.bodyStream r = Some (Limited s N) → gives s d → 0 ≤ N →
  Response.mustSkipBody r = false → ResponseHeader.ContentLength (Response.Header r) < 0 →
  let r' := Response.SetContentLength N r in
  ∃ m' out', Response.WriteTo date m r false out =
      Some (zlen (header_of (Response.Header r') ++ d), if zlen d =? N then None else Some (ErrCopied (zlen d) N),
            Response.set_bodyStream None r', m', out') ∧
    concat out' = concat out ++ header_of (Response.Header r') ++ d.
Proof.
  intros Es Hs HN Hskip Hn r'. destruct (Header_Write_wrote (Response.Header r') _ (new_ok out)) as (w1 & E1 & W1).
  destruct (fixed_wrote s d w1 (Limited s N) N (wr_ok _ _ _ W1) Hs (or_intror (ex_intro _ N eq_refl)))
    as (s' & w2 & E2 & C & W2).
  eexists. apply WriteTo_wrote. eexists. split; [|exact (wrote_trans _ _ _ _ _ W1 W2)].
  unfold Response.Write. rewrite Es, Hskip. unfold Response.writeBodyStream. cbn [limitedReaderSize].
  rewrite (proj2 (Z.ltb_lt _ _)), (proj2 (Z.leb_le 0 N)) by done. cbn [andb negb].
  rewrite (proj2 (Z.leb_le 0 N)) by done. fold r'. rewrite E1. rewrite (proj1 (wr_ok _ _ _ W1)). cbn [negb andb].
  rewrite E2. cbn [mbind option_bind]. unfold Response.finish_stream. by destruct (zlen d =? N).
Qed.
End written.

Lemma SetContentLength_chunked h : ResponseHeader.mustSkipContentLength h = false →
  PeekArgStr (live (ResponseHeader.h (ResponseHeader.SetContentLength (-1) h))) StrTransferEncoding = Some StrChunked ∧
  ResponseHeader.contentLengthBytes (ResponseHeader.SetContentLength (-1) h) = [].
Proof. intros E. unfold ResponseHeader.SetContentLength. rewrite E. split; [apply SetArg_peek|done]. Qed.

(** ** Properties *)

(** C36: a body of unknown length survives the chunked coding.  A response whose
    body is a stream of unknown length is written as a header that announces the
    chunked coding and no length, and then chunks that a reader of the coding puts
    together to exactly the bytes of the stream, whatever the sizes in which the
    stream gives them, leaving what follows on the connection; the count that is
    returned is of all the bytes written, there is no error, and the stream is
    closed and gone from the response. *)
Theorem http_chunked_roundtrip date m r s d out :
  Response.bodyStream r = Some (Plain s) → gives s d → closes s →
  Response.mustSkipBody r = false → ResponseHeader.ContentLength (Response.Header r) < 0 →
  ∃ text body r' m' out',
    Response.WriteTo date m r false out = Some (zlen (text ++ body), None, r', m', out') ∧
    concat out' = concat out ++ text ++ body ∧
    text = (ResponseHeader.AppendBytes m date [] (Response.Header r')).1 ∧
    PeekArgStr (live (ResponseHeader.h (Response.Header r'))) StrTransferEncoding = Some StrChunked ∧
    ResponseHeader.contentLengthBytes (Response.Header r') = [] ∧ Response.bodyStream r' = None ∧
    ∀ rest, dechunk (S (length body)) (body ++ rest) = Some (d, rest).
Proof.
  intros Es Hs Hc Hskip Hn. destruct (chunked_written date m r s d out Es Hs Hc Hskip Hn) as (cs & m' & out' & E & Eo & F & Ed).
  assert (ResponseHeader.mustSkipContentLength (Response.Header r) = false) as Hm by (by apply orb_false_elim in Hskip as [_ ?]).
  eexists _, _, _, m', out'. split; [exact E|]. split; [exact Eo|]. split; [done|]. cbn [Response.Header Response.set_bodyStream].
  destruct (SetContentLength_chunked _ Hm) as [H1 H2].
  split; [exact H1|]. split; [exact H2|]. split; [done|]. intros rest.
  rewrite <- app_assoc, <- Ed. apply dechunk_chunks; [done|].
  pose proof (chunks_length cs). rewrite length_app. lia.
Qed.

(** C37: a response with its body in the buffer, written to a connection and read
    as a client reads it: the header parses to the fields that were set, with the
    length of the body, exactly the header is consumed, and what follows begins
    with exactly the body. *)
Theorem http_response_roundtrip date m r r0 out rest :
  Response.bodyStream r = None → Response.mustSkipBody r = false → cache_ok m →
  ResponseHeader.disableNormalizing r0 = false →
  let body := Response.bodyBytes r in
  let r' := Response.SetContentLength (zlen body) r in
  wf_response date (Response.Header r') →
  ∃ n m' out', Response.WriteTo date m r false out = Some (n, None, r', m', out') ∧
  ∃ text y, concat out' = concat out ++ text ++ body ∧ n = zlen text + zlen body ∧
    ResponseHeader.parse (text ++ body ++ rest) (ResponseHeader.ResetSkipNormalize r0) = (y, Ok (length text)) ∧
    same_resp date y (Response.Header r') ∧ ResponseHeader.contentLength y = zlen body.
Proof.
  intros Es Hskip Hm Hd body r' Hwf. destruct (body_written date m r out Es Hskip) as (out' & E & Eo).
  destruct (response_parses m date (Response.Header r') r0 (body ++ rest) Hwf Hm Hd) as (_ & y & Ey & Hy).
  eexists _, _, out'. split; [exact E|]. exists (header_of date m (Response.Header r')), y.
  split; [exact Eo|]. split; [by rewrite zlen_app|]. split; [exact Ey|]. split; [done|].
  rewrite (sr_length _ _ _ Hy). subst r'. cbn [Response.Header Response.SetContentLength Response.set_Header].
  unfold ResponseHeader.SetContentLength. apply orb_false_elim in Hskip as [_ ->].
  pose proof (zlen_nonneg body). by rewrite (proj2 (Z.leb_le _ _)) by lia.
Qed.

(** The limit of a limited reader is announced but not kept.  When the body is
    a limited reader around a stream that has more, the header gives the limit as
    the length of the body and all the bytes of the stream follow; only then is an
    error given.  What a client reads of the next response begins with the bytes
    that are too many. *)
Theorem http_limit_overrun date m r s N d out :
  Response.bodyStream r = Some (Limited s N) → gives s d → 0 ≤ N < zlen d →
  Response.mustSkipBody r = false → ResponseHeader.ContentLength (Response.Header r) < 0 →
  ∃ text r' m' out',
    Response.WriteTo date m r false out = Some (zlen (text ++ d), Some (ErrCopied (zlen d) N), r', m', out') ∧
    concat out' = concat out ++ text ++ d ∧
    text = (ResponseHeader.AppendBytes m date [] (Response.Header r')).1 ∧
    ResponseHeader.contentLengthBytes (Response.Header r') = ResponseHeader.uint_bytes N.
Proof.
  intros Es Hs HN Hskip Hn. destruct (limited_written date m r s N d out Es Hs) as (m' & out' & E & Eo); [lia|done..|].
  rewrite (proj2 (Z.eqb_neq _ _)) in E by lia. eexists _, _, m', out'. split; [exact E|]. split; [exact Eo|].
  split; [done|]. cbn [Response.Header Response.SetContentLength Response.set_Header Response.set_bodyStream].
  unfold ResponseHeader.SetContentLength. apply orb_false_elim in Hskip as [_ ->].
  by rewrite (proj2 (Z.leb_le 0 N)) by lia.
Qed.

(** ** Witnesses *)

Module body_example.
Definition src : source := mkSource [bs "hello "; bs "world"] None None.
Definition unknown : ResponseHeader.t := ResponseHeader.SetContentLength (-1) resp_empty.
Definition streamed : Response.t := Response.Mk unknown (Some (Plain src)) None false false.
Definition limited : Response.t := Response.Mk unknown (Some (Limited src 5)) None false false.
Definition buffered : Response.t := Response.Mk resp0 None (Some (bs "hello")) false false.

Lemma src_gives : gives src (bs "hello world").
Proof. split; [repeat constructor; done|done]. Qed.
End body_example.

Lemma http_chunked_roundtrip_witness :
  ∃ text body r' m' out',
    Response.WriteTo date0 ∅ body_example.streamed false [] = Some (zlen (text ++ body), None, r', m', out') ∧
    concat out' = text ++ body ∧ dechunk (S (length body)) (body ++ bs "next") = Some (bs "hello world", bs "next").
Proof.
  destruct (http_chunked_roundtrip date0 ∅ body_example.streamed body_example.src (bs "hello world") [])
    as (text & body & r' & m' & out' & E & Eo & _ & _ & _ & _ & D);
    [reflexivity|apply body_example.src_gives|by left|reflexivity|reflexivity|].
  exists text, body, r', m', out'. split; [exact E|]. split; [exact Eo|apply D].
Defined.

Lemma http_response_roundtrip_witness :
  ∃ n m' out' text y, Response.WriteTo date0 ∅ body_example.buffered false [] =
      Some (n, None, Response.SetContentLength 5 body_example.buffered, m', out') ∧
    concat out' = text ++ bs "hello" ∧ ResponseHeader.contentLength y = 5 ∧
    ResponseHeader.parse (text ++ bs "hello" ++ bs "next") (ResponseHeader.ResetSkipNormalize resp_empty) =
      (y, Ok (length text)).
Proof.
  destruct (http_response_roundtrip date0 ∅ body_example.buffered resp_empty [] (bs "next"))
    as (n & m' & out' & E & text & y & Eo & _ & Ep & _ & El); [reflexivity|reflexivity|apply map_Forall_empty|reflexivity| |].
  - constructor; try done.
    + by repeat constructor.
    + by repeat constructor.
    + repeat constructor; by apply line_ok_dec; vm_compute.
  - exists n, m', out', text, y. split; [exact E|]. split; [exact Eo|]. split; [exact El|exact Ep].
Defined.

Lemma http_limit_overrun_witness :
  ∃ text r' m' out',
    Response.WriteTo date0 ∅ body_example.limited false [] =
      Some (zlen (text ++ bs "hello world"), Some (ErrCopied 11 5), r', m', out') ∧
    concat out' = text ++ bs "hello world" ∧ ResponseHeader.contentLengthBytes (Response.Header r') = bs "5".
Proof.
  destruct (http_limit_overrun date0 ∅ body_example.limited body_example.src 5 (bs "hello world") [])
    as (text & r' & m' & out' & E & Eo & _ & El); [reflexivity|apply body_example.src_gives|by vm_compute|reflexivity|reflexivity|].
  exists text, r', m', out'. split; [exact E|]. split; [exact Eo|]. rewrite El. by vm_compute.
Defined.
