(* ===== verification/HttpStream.v ===== *)
(** * HTTP streams, end to end

    src/pkg/stream/http/v1/stream.go: the server's side of a connection.  A request
    taken off the buffer (HttpCodec.v) becomes a header map and a body, a stream of
    the proxy (Proxy.v), a request to the upstream (Streams.v), and the answer a
    response (HttpBody.v) that is written to the connection.  The reader of the
    connection waits for [responseDoneChan], which the end of the response closes.

    What AcquireResponse hands out ([acquired]) and the text that the multipart
    library makes of a form ([marshalForm]) are arguments. *)

From S2P Require Import Prelude BytePool IoBuffer BytesConv Args HttpUri HttpCookie HttpHeader HttpRequest HttpCodec HttpResponse HttpBody Headers Proxy Streams.

(** ** The body of a request *)

Definition onlyMultipartForm (r : Request) : bool :=
  multipartForm r && match HttpCodec.body r with None => true | Some b => zlen (bb b) =? 0 end.
(** Body, of a request without a stream; [None] is the panic of a form without a
    boundary. *)
Definition Body (marshalForm : bytes → bytes) (r : Request) : option bytes :=
  if onlyMultipartForm r then
    if zlen (multipartFormBoundary r) =? 0 then None else Some (marshalForm (multipartFormBoundary r))
  else Some (bodyBytes r).

(** The calls of VisitAll, on a copy of the header. *)
Definition decodeReqHeader (h : RequestHeader.t) : CommonHeader :=
  fold_left (λ out kv, <[Key kv := Value kv]> out) (RequestHeader.VisitAll h).1 ∅.

(** ** The server's stream *)

(** A connection: whether it is closed, the writes that reached it, the cache of
    status lines, whether a stream is registered; and the stream's request,
    response and channel. *)
Record serverStream : Type := mkServer {
  connCut : bool; written : list bytes; lines : gmap Z bytes; connStream : bool;
  sreq : option Request; sres : option Response.t; readDisableCount : Z; responseDone : bool
}.
Definition set_conn (out : list bytes) (m : gmap Z bytes) (s : serverStream) : serverStream :=
  mkServer (connCut s) out m (connStream s) (sreq s) (sres s) (readDisableCount s) (responseDone s).
Definition set_connStream (b : bool) (s : serverStream) : serverStream :=
  mkServer (connCut s) (written s) (lines s) b (sreq s) (sres s) (readDisableCount s) (responseDone s).
Definition set_sreq (r : option Request) (s : serverStream) : serverStream :=
  mkServer (connCut s) (written s) (lines s) (connStream s) r (sres s) (readDisableCount s) (responseDone s).
Definition set_sres (r : option Response.t) (s : serverStream) : serverStream :=
  mkServer (connCut s) (written s) (lines s) (connStream s) (sreq s) r (readDisableCount s) (responseDone s).
Definition set_readDisableCount (n : Z) (s : serverStream) : serverStream :=
  mkServer (connCut s) (written s) (lines s) (connStream s) (sreq s) (sres s) n (responseDone s).
Definition set_responseDone (b : bool) (s : serverStream) : serverStream :=
  mkServer (connCut s) (written s) (lines s) (connStream s) (sreq s) (sres s) (readDisableCount s) b.

Section streams.
Context (date : bytes) (acquired : Response.t) (marshalForm : bytes → bytes).

(** [None] is a panic, here of a response that is nil. *)
Definition doSend (s : serverStream) : option serverStream :=
  r ← sres s;
  '(_, _, r, m, out) ← Response.WriteTo date (lines s) r (connCut s) (written s);
  Some (set_sres (Some r) (set_conn out m s)).

(** The request and the response go back to their pools. *)
Definition endStream (s : serverStream) : option serverStream :=
  s ← doSend s;
  if responseDone s then None
  else Some (set_connStream false (set_sres None (set_sreq None (set_responseDone true s)))).

Definition AppendHeaders (headerIn : CommonHeader) (e : bool) (s : serverStream) : option serverStream :=
  let r := default acquired (sres s) in
  let r := match Get HeaderStatus headerIn with
           | Some status => Response.SetStatusCode (AtoiValue status) r
           | None => r
           end in
  let '(r, req) :=
    match sreq s with
    | Some req =>
        let '(c, hd) := RequestHeader.ConnectionClose (rHeader req) in
        (if c : bool then Response.SetConnectionClose r else r, Some (set_header hd req))
    | None => (r, None)
    end in
  let s := set_sres (Some r) (set_sreq req s) in
  if e then endStream s else Some s.
(** The body of the response and its end are ignored. *)
Definition AppendData (d : option bytes) (e : bool) (s : serverStream) : option serverStream := Some s.
Definition AppendTrailers (t : option CommonHeader) (s : serverStream) : option serverStream := endStream s.

#[local] Instance http_sender : StreamSender serverStream := {
  sAppendHeaders := AppendHeaders; sAppendData := AppendData; sAppendTrailers := AppendTrailers
}.

Context (env : proxyEnv) (fs : list (receiverFilter (H := CommonHeader))).

(** What handleRequest gives to the receiver, and the request after it; [None] is a
    panic. *)
Definition request_parts (req : Request) : option (CommonHeader * option bytes * Request) :=
  let header := decodeReqHeader (rHeader req) in
  let '(host, hd) := RequestHeader.Host (rHeader req) in
  let req := set_header hd req in
  let header := Set_ IstioHeaderHostKey host (Set_ StrikeHeaderHostKey host header) in
  let header := Set_ StrikeHeaderMethod (RequestHeader.Method (rHeader req)) header in
  let '(uri, req) := RequestURI req in
  let header := Set_ StrikeHeaderPathKey uri header in
  let '(noBody, hd) := RequestHeader.NoBody (rHeader req) in
  let req := set_header hd req in
  if noBody : bool then Some (header, None, req)
  else b ← Body marshalForm req; Some (header, Some b, req).

(** handleRequest, with the stream of the proxy that NewStreamDetect made and the
    jobs of its two workers. *)
Definition handleRequest (id : Z) (v : serverStream) : option (system serverStream) :=
  match sreq v with
  | None => Some (mkSystem (NewStreamDetect id fs) NewStream v)
  | Some req => '(h, d, req) ← request_parts req; serve env fs id h d (set_sreq (Some req) v)
  end.

(** OnDecodeDone up to where it waits for [responseDone].  The stream is new, and
    nothing has disabled its reading. *)
Definition OnDecodeDone (id : Z) (req : Request) (v : serverStream) : option (system serverStream) :=
  let v := mkServer (connCut v) (written v) (lines v) true (Some req) None 0 false in
  if readDisableCount v <=? 0 then handleRequest id v else Some (mkSystem (NewStreamDetect id fs) NewStream v).

(** How OnDecodeDone ends, for every request it is called for: it waits forever
    ([Blocked]), or all are done. *)
Inductive dispatched : Type := Blocked (v : serverStream) | Done (v : serverStream).
Fixpoint deliver_all (rs : list (Z * Request)) (v : serverStream) : option dispatched :=
  match rs with
  | [] => Some (Done v)
  | (id, req) :: rs =>
      s ← OnDecodeDone id req v;
      if responseDone (server s) then deliver_all rs (server s) else Some (Blocked (server s))
  end.
End streams.

(** ** Clean responses *)

(** What is in the pool of responses. *)
Record clean (r : Response.t) : Prop := {
  cl_header : ∃ hh ck, Response.Header r = ResponseHeader.Mk false false false 0 0 [] [] [] hh ck ∧
    live hh = [] ∧ live ck = [];
  cl_stream : Response.bodyStream r = None; cl_body : Response.bodyBytes r = []; cl_skip : Response.SkipBody r = false
}.
Lemma Reset_clean r : clean (Response.Reset r).
Proof.
  destruct r as [h s b k p]. unfold Response.Reset, Response.resetSkipHeader, Response.ResetBody, Response.closeBodyStream.
  destruct s, b; cbn; (split; [by eexists _, _| | |]; try done); cbn; by destruct p.
Qed.

(** The text of an answer without a body. *)
Definition answer_lines (date : bytes) (close : bool) : list ArgsKV :=
  [KV StrServer defaultServerName; KV StrDate date; KV StrContentLength (bs "0")] ++
  (if close then [KV StrConnection StrClose] else []).
Definition answer_text (date : bytes) (code : Z) (close : bool) : bytes :=
  format_line code ++ header_text (answer_lines date close) ++ StrCRLF.

Definition answer_fields (hh ck : argsSlice) (code : Z) (close : bool) : ResponseHeader.t :=
  ResponseHeader.Mk false false close code 0 [] [] [] hh ck.

Lemma answer_length hh ck code close : 200 ≤ code → code ≠ 204 → code ≠ 304 →
  ResponseHeader.mustSkipContentLength (answer_fields hh ck code close) = false.
Proof.
  intros H1 H2 H3. unfold ResponseHeader.mustSkipContentLength, ResponseHeader.StatusCode, StatusNotModified, StatusNoContent.
  cbn [answer_fields ResponseHeader.statusCode]. rewrite (proj2 (Z.eqb_neq code 0)) by lia.
  rewrite (proj2 (Z.eqb_neq code 304)), (proj2 (Z.eqb_neq code 204)) by done.
  rewrite (proj2 (Z.ltb_ge code 100)), (proj2 (Z.ltb_ge code 200)) by lia. by destruct (code =? StatusOK).
Qed.

Lemma answer_header date m hh ck code close :
  cache_ok m → live hh = [] → live ck = [] → 200 ≤ code → code ≠ 204 → code ≠ 304 →
  let h := ResponseHeader.SetContentLength 0 (answer_fields hh ck code close) in
  (ResponseHeader.AppendBytes m date [] h).1 = answer_text date code close ∧
  cache_ok (ResponseHeader.AppendBytes m date [] h).2.
Proof.
  intros Hm E1 E2 H1 H2 H3 h. subst h. unfold ResponseHeader.SetContentLength. rewrite answer_length by done.
  assert (live (DelAllArgs hh StrTransferEncoding) = []) as E3 by (unfold DelAllArgs; rewrite E1; exact E1).
  destruct (statusLine_ok m code Hm) as [Hl Hm']. destruct (statusLine m code) as [sl m'] eqn:Es. cbn [fst snd] in *. subst sl.
  change (0 <=? 0) with true. cbv zeta iota. unfold ResponseHeader.AppendBytes, ResponseHeader.StatusCode.
  cbn [answer_fields ResponseHeader.set_h ResponseHeader.set_contentLengthBytes ResponseHeader.set_contentLength
       ResponseHeader.statusCode ResponseHeader.h ResponseHeader.cookies ResponseHeader.contentLengthBytes
       ResponseHeader.Server ResponseHeader.server ResponseHeader.ContentLength ResponseHeader.contentLength
       ResponseHeader.contentType ResponseHeader.ConnectionClose ResponseHeader.connectionClose].
  rewrite (proj2 (Z.eqb_neq code 0)), (proj2 (Z.ltb_ge code 0)), Es, E2, E3 by lia. split; [|done].
  change (zlen [] =? 0) with true. change (0 <? zlen []) with false. change (negb (0 =? 0) || false) with false.
  change (ResponseHeader.uint_bytes 0) with (bs "0"). change (0 <? zlen (bs "0")) with true. cbv zeta iota.
  rewrite !resp_append_lines, !appendHeaderLine_dst. change (header_text []) with (@nil byte).
  unfold answer_text, answer_lines. rewrite header_text_app, !header_text_cons. change (header_text []) with (@nil byte).
  rewrite !app_nil_r. destruct close; rewrite ?header_text_one; cbn [app]; rewrite <- !app_assoc; done.
Qed.

Lemma clean_written date m r out code close :
  clean r → cache_ok m → 200 ≤ code → code ≠ 204 → code ≠ 304 →
  let r1 := Response.SetStatusCode code r in
  let r2 := if close : bool then Response.SetConnectionClose r1 else r1 in
  ∃ n r' m' out', Response.WriteTo date m r2 false out = Some (n, None, r', m', out') ∧
    concat out' = concat out ++ answer_text date code close ∧ cache_ok m'.
Proof.
  intros [(hh & ck & E & E1 & E2) Es Eb Ek] Hm H1 H2 H3 r1 r2.
  assert (Response.Header r2 = answer_fields hh ck code close) as Eh.
  { subst r2 r1. destruct r; simpl in E; subst. by destruct close. }
  assert (Response.bodyBytes r2 = []) as Eb2 by (subst r2 r1; by destruct close).
  destruct (body_written date m r2 out) as (out' & Ew & Eo).
  - subst r2 r1. by destruct close.
  - unfold Response.mustSkipBody. rewrite Eh, answer_length, orb_false_r by done. subst r2 r1. by destruct close.
  - rewrite Eb2 in Ew, Eo. cbn [Response.SetContentLength Response.set_Header Response.Header] in Ew, Eo.
    rewrite Eh in Ew, Eo. change (zlen []) with 0 in Ew, Eo. rewrite app_nil_r in Ew, Eo.
    destruct (answer_header date m hh ck code close Hm E1 E2 H1 H2 H3) as [Ht Hc].
    eexists _, _, _, out'. split; [exact Ew|]. split; [|exact Hc]. by rewrite Eo, <- Ht.
Qed.

(** ** The connection flag of a request *)

(** What the flag depends on. *)
Record alike (r r' : RequestHeader.t) : Prop := {
  al_close : RequestHeader.connectionClose r = RequestHeader.connectionClose r';
  al_h : RequestHeader.h r = RequestHeader.h r';
  al_http11 : RequestHeader.noHTTP11 r = RequestHeader.noHTTP11 r';
  al_norm : RequestHeader.disableNormalizing r = RequestHeader.disableNormalizing r';
  al_parsed : RequestHeader.rawHeadersParsed r = RequestHeader.rawHeadersParsed r';
  al_raw : RequestHeader.rawHeaders r = RequestHeader.rawHeaders r'
}.
Lemma alike_refl r : alike r r.
Proof. done. Qed.
Lemma alike_trans r1 r2 r3 : alike r1 r2 → alike r2 r3 → alike r1 r3.
Proof. intros [] []. split; congruence. Qed.

Lemma header_case_alike k v r r' : alike r r' → alike (RequestHeader.header_case k v r) (RequestHeader.header_case k v r').
Proof.
  intros [? ? ? ? ? ?]. destruct r, r'. cbn in *; subst. unfold RequestHeader.header_case. cbn. repeat case_match; done.
Qed.
Lemma NoBody_alike r : alike (RequestHeader.NoBody r).2 r.
Proof. unfold RequestHeader.NoBody, RequestHeader.IsGet. by destruct (negb (RequestHeader.isGet r)). Qed.
(** The end of [finish], on a header that only its length and method flag may set
    apart. *)
Definition implied_close (r : RequestHeader.t) : RequestHeader.t :=
  if RequestHeader.noHTTP11 r && negb (RequestHeader.connectionClose r) then
    let v := default [] (PeekArgBytes (live (RequestHeader.h r)) StrConnection) in
    RequestHeader.set_connectionClose
      (negb (hasHeaderValue v StrKeepAlive) && negb (hasHeaderValue v StrKeepAliveCamelCase)) r
  else r.
Lemma finish_implied r : ∃ x, alike x r ∧ RequestHeader.finish r = implied_close x.
Proof.
  unfold RequestHeader.finish.
  set (r1 := if RequestHeader.contentLength r <? 0 then _ else r).
  assert (alike r1 r) as H1 by (subst r1; by destruct (_ <? 0)).
  pose proof (NoBody_alike r1) as H2. destruct (RequestHeader.NoBody r1) as [nb r2]. cbn [snd] in H2.
  eexists. split; [|reflexivity]. eapply alike_trans; [|by eapply alike_trans]. by destruct nb.
Qed.
Lemma implied_alike r r' : alike r r' → alike (implied_close r) (implied_close r').
Proof.
  intros H. unfold implied_close. rewrite (al_http11 _ _ H), (al_close _ _ H), (al_h _ _ H).
  destruct (_ && _); [destruct H; by split|done].
Qed.
Lemma alike_sym r r' : alike r r' → alike r' r.
Proof. intros []. by split. Qed.
Lemma finish_alike r r' : alike r r' → alike (RequestHeader.finish r) (RequestHeader.finish r').
Proof.
  intros H. destruct (finish_implied r) as (x & Hx & ->), (finish_implied r') as (x' & Hx' & ->).
  apply implied_alike. eapply alike_trans; [exact Hx|]. eapply alike_trans; [exact H|]. by apply alike_sym.
Qed.
Lemma parse_lines_alike fuel dis b r r' : alike r r' →
  alike (RequestHeader.parse_lines fuel dis b r).1 (RequestHeader.parse_lines fuel dis b r').1 ∧
  (RequestHeader.parse_lines fuel dis b r).2 = (RequestHeader.parse_lines fuel dis b r').2.
Proof.
  revert b r r'. induction fuel as [|fuel IH]; intros b r r' H; cbn [RequestHeader.parse_lines]; [done|].
  destruct (header_next dis b) as [k v b'| |]; try done. by apply IH, header_case_alike.
Qed.
Lemma parseRawHeaders_alike r r' : alike r r' → alike (RequestHeader.parseRawHeaders r) (RequestHeader.parseRawHeaders r').
Proof.
  intros H. unfold RequestHeader.parseRawHeaders. rewrite (al_parsed _ _ H).
  destruct (RequestHeader.rawHeadersParsed r'); [done|].
  set (x := RequestHeader.set_rawHeadersParsed true r). set (x' := RequestHeader.set_rawHeadersParsed true r').
  assert (alike x x') as Hx by (destruct H; by split). cbv zeta. rewrite (al_raw _ _ Hx). case_match; [done|].
  unfold RequestHeader.parseHeaders. set (y := RequestHeader.set_contentLength (-2) x).
  set (y' := RequestHeader.set_contentLength (-2) x').
  assert (alike y y') as Hy by (destruct Hx; by split). rewrite (al_norm _ _ Hy).
  set (n := S _). set (d := RequestHeader.disableNormalizing y'). set (b := RequestHeader.rawHeaders x').
  destruct (parse_lines_alike n d b y y' Hy) as [H1 H2].
  destruct (RequestHeader.parse_lines n d b y) as [z o], (RequestHeader.parse_lines n d b y') as [z' o'].
  simpl in H1, H2. subst o'. destruct o; simpl; [by apply finish_alike|]. destruct H1. by split.
Qed.

(** From [r] to [x], at most the headers were parsed and other fields changed. *)
Definition advanced (r x : RequestHeader.t) : Prop := alike x r ∨ alike x (RequestHeader.parseRawHeaders r).
Lemma advanced_close r x : advanced r x → (RequestHeader.ConnectionClose x).1 = (RequestHeader.ConnectionClose r).1.
Proof.
  intros [H|H]; apply parseRawHeaders_alike in H; unfold RequestHeader.ConnectionClose; cbn [fst].
  - apply H.
  - rewrite (parseRawHeaders_id (RequestHeader.parseRawHeaders r)) in H by apply parseRawHeaders_keeps. apply H.
Qed.
Lemma advanced_alike r x y : advanced r x → alike y x → advanced r y.
Proof. intros [H|H] E; [left|right]; by eapply alike_trans. Qed.
Lemma Host_advanced r : advanced r (RequestHeader.Host r).2.
Proof.
  unfold RequestHeader.Host. destruct (0 <? zlen (RequestHeader.host r)); [by left|].
  destruct (negb (RequestHeader.rawHeadersParsed r)); [|by right].
  destruct (peekRawHeader (RequestHeader.rawHeaders r) StrHost) as [ho|]; [|by right].
  destruct (0 <? zlen ho); [by left|by right].
Qed.
Lemma RequestURI_alike r : alike (rHeader (RequestURI r).2) (rHeader r).
Proof. unfold RequestURI. destruct (parsedURI r); [|done]. by destruct (HttpUri.RequestURI (uri r)). Qed.

Lemma request_parts_close mf req h d req' : request_parts mf req = Some (h, d, req') →
  (RequestHeader.ConnectionClose (rHeader req')).1 = (RequestHeader.ConnectionClose (rHeader req)).1.
Proof.
  intros E. apply advanced_close. unfold request_parts in E.
  pose proof (Host_advanced (rHeader req)) as A1. destruct (RequestHeader.Host (rHeader req)) as [ho hd].
  pose proof (RequestURI_alike (set_header hd req)) as A2. destruct (RequestURI (set_header hd req)) as [u r2].
  pose proof (NoBody_alike (rHeader r2)) as A3. destruct (RequestHeader.NoBody (rHeader r2)) as [nb hd3].
  cbn [snd rHeader set_header] in *.
  assert (rHeader req' = hd3) as ->.
  { destruct nb; [by injection E as _ _ <-|]. destruct (Body mf _); [by injection E as _ _ <-|done]. }
  eapply advanced_alike; [exact A1|]. by eapply alike_trans.
Qed.

(** ** The answer *)

Section answered.
Context (date : bytes) (acquired : Response.t) (marshalForm : bytes → bytes).
Context (env : proxyEnv) (fs : list (receiverFilter (H := CommonHeader))).
Context (Hproto : UpstreamProtocol env = MQ) (Hpools : ConnPoolFactories env = registeredPools)
        (Hpass : Forall passes fs) (Hacq : clean acquired).

(** A connection that is open, with lines of the cache that are right. *)
Definition ready (v : serverStream) : Prop := connCut v = false ∧ cache_ok (lines v).
(** The stream is over and has let go of what it held. *)
Definition over (v : serverStream) : Prop :=
  responseDone v = true ∧ sreq v = None ∧ sres v = None ∧ connStream v = false.

Lemma headers_answered (h : CommonHeader) (v : serverStream) (req : Request) :
  ready v → sreq v = Some req → sres v = None → responseDone v = false →
  ∃ v', AppendHeaders date acquired (handleSuccess h) true v = Some v' ∧ ready v' ∧ over v' ∧
    concat (written v') = concat (written v) ++ answer_text date 200 (RequestHeader.ConnectionClose (rHeader req)).1.
Proof.
  intros [Hcut Hm] Hreq Hres Hdone. unfold AppendHeaders. rewrite Hreq, Hres. cbn [default].
  unfold Get. rewrite success_status. change (AtoiValue (bs "200")) with 200.
  destruct (RequestHeader.ConnectionClose (rHeader req)) as [c hd]. cbn [fst].
  destruct (clean_written date (lines v) acquired (written v) 200 c Hacq Hm) as (n & r' & m' & out' & Ew & Eo & Hm'); try lia.
  unfold endStream, doSend. cbn [sres set_sres mbind option_bind lines connCut written set_sreq]. rewrite Hcut, Ew.
  cbn [mbind option_bind responseDone set_sres set_conn set_sreq]. rewrite Hdone.
  eexists. split; [done|]. split; [by split|]. split; [by split_and!|]. exact Eo.
Qed.

Lemma request_answered (id : Z) (req : Request) (v : serverStream) :
  ready v → request_parts marshalForm req ≠ None →
  ∃ s, OnDecodeDone date acquired marshalForm env fs id req v = Some s ∧
    px s = mkState zeroStream zeroRequest [] [] (trace (px s)) ∧ ready (server s) ∧ over (server s) ∧
    concat (written (server s)) =
      concat (written v) ++ answer_text date 200 (RequestHeader.ConnectionClose (rHeader req)).1.
Proof.
  intros Hv Hp. destruct (request_parts marshalForm req) as [[[h d] req']|] eqn:Ep; [|done].
  unfold OnDecodeDone, handleRequest. cbn [readDisableCount sreq]. change (0 <=? 0) with true. cbv zeta iota.
  rewrite Ep. cbn [mbind option_bind].
  set (v1 := set_sreq (Some req') _).
  destruct (serve_answered (V := serverStream) (H := http_sender date acquired) env fs (mq_ready env Hproto Hpools) Hpass id h d v1)
    as (c & tr & ->).
  destruct (headers_answered h v1 req') as (v' & E & Hr & Ho & Ew); [by destruct Hv|done|done|done|].
  cbn [sAppendHeaders http_sender]. rewrite E. cbn [mbind option_bind]. eexists. split; [done|]. split; [done|].
  split; [done|]. split; [done|]. cbn [server]. by rewrite Ew, (request_parts_close _ _ _ _ _ Ep).
Qed.
End answered.

(** ** Reading a connection *)

#[local] Abbreviation bwf := IoBuffer.wf.
#[local] Abbreviation bview := IoBuffer.view.

(** Dispatch: what a read brings.  OnDecodeDone asks to stop after every request, so
    that at most one is decoded; when it does not return, what is left in the
    buffer does not matter. *)
Definition Dispatch (date : bytes) (acquired : Response.t) (marshalForm : bytes → bytes) (env : proxyEnv)
    (fs : list (receiverFilter (H := CommonHeader))) (readForm : bytes → Z → bufM bool) (pooled : ByteBuffer)
    (acquire : Request) (id : Z) (s : world * ioBuffer) (v : serverStream)
    : option (dispatched * option httpErr * Z * (world * ioBuffer)) :=
  match Decode readForm pooled (S (length (bview s.2))) acquire (λ _ _, true) id s with
  | (Ok (Some (rs, err, id')), s') =>
      d ← deliver_all date acquired marshalForm env fs rs v; Some (d, err, id', s')
  | _ => None
  end.

(** A request that is decoded, and the rest of the buffer dropped. *)
Lemma Decode_one readForm pooled fuel acquire id w b req b1 :
  bwf b → bview b ≠ [] → is_ok (decodeHttpReq readForm pooled acquire) (w, b) (None, req) (w, b1) → bwf b1 →
  ∃ b', Decode readForm pooled (S (S fuel)) acquire (λ _ _, true) id (w, b) =
      (Ok (Some ([(uint64 (id + 1), req)], None, uint64 (id + 1))), (w, b')) ∧ bwf b' ∧ bview b' = [].
Proof.
  intros Hb Hv E Hb1. pose proof (length_view b Hb) as Hl. pose proof (length_view b1 Hb1) as Hl1.
  assert (0 ≤ Len b1) as Hn by (rewrite <- Hl1; apply zlen_nonneg).
  destruct (Drain_spec (Len b1) b1 Hb1 Hn) as [Hb' Hv'].
  rewrite Z.ltb_irrefl in Hv'. rewrite drop_ge in Hv' by (rewrite <- Hl1; unfold zlen; lia).
  exists (Drain (Len b1) b1). split; [|done].
  assert (0 <? Len b = true) as Eb
    by (apply Z.ltb_lt; rewrite <- Hl; destruct (bview b); [done|unfold zlen; simpl; lia]).
  assert (0 <? Len (Drain (Len b1) b1) = false) as Ed by (by rewrite <- (length_view _ Hb'), Hv').
  cbn [Decode]. unfold getB, mbind, stM_bind. cbv beta iota zeta. rewrite Eb, E.
  unfold modB. cbn beta iota. rewrite Ed. done.
Qed.

(** The last Connection line decides. *)
Definition wants_close (l : list ArgsKV) : bool :=
  fold_left (λ c kv, if normalizeHeaderKey (Key kv) false =b StrConnection then Value kv =b StrClose else c) l false.

Lemma header_case_close k v r : RequestHeader.connectionClose (RequestHeader.header_case k v r) =
  if k =b StrConnection then v =b StrClose else RequestHeader.connectionClose r.
Proof.
  unfold RequestHeader.header_case.
  destruct (k =b StrConnection) eqn:E; bdec; [subst k; by destruct (v =b StrClose)|].
  repeat (destruct (k =b _); [by repeat case_match|]). done.
Qed.
Lemma fold_lines_close l r : RequestHeader.connectionClose (fold_lines (norm_kv false <$> l) r) =
  fold_left (λ c kv, if normalizeHeaderKey (Key kv) false =b StrConnection then Value kv =b StrClose else c) l
    (RequestHeader.connectionClose r).
Proof.
  revert r. induction l as [|kv l IH]; intros r; [done|].
  rewrite fmap_cons, fold_lines_cons, IH, header_case_close. done.
Qed.
Lemma finish_close r : RequestHeader.noHTTP11 r = false →
  RequestHeader.connectionClose (RequestHeader.finish r) = RequestHeader.connectionClose r.
Proof.
  intros E. destruct (finish_implied r) as (x & Hx & ->). unfold implied_close.
  rewrite (al_http11 _ _ Hx), E. apply Hx.
Qed.

(** A request as it may arrive, and whether it asks for the connection to be closed:
    with a body, or a GET or HEAD with any header lines. *)
Inductive request_text : bytes → bool → Prop :=
  | WithBody r d : decodable r → zlen d = RequestHeader.contentLength r →
      request_text ((RequestHeader.AppendBytes [] r).1 ++ d) (RequestHeader.connectionClose r)
  | WithoutBody m u l : m = StrGet ∨ m = StrHead → u ≠ [] → LF ∉ u → Forall line_ok l → l ≠ [] →
      request_text (request_line m u ++ header_text l ++ StrCRLF) (wants_close l).

Lemma collectCookies_close r :
  RequestHeader.connectionClose (RequestHeader.collectCookies r) = RequestHeader.connectionClose r.
Proof. unfold RequestHeader.collectCookies. repeat case_match; done. Qed.

(** A request with bytes in its body is no form alone. *)
Lemma parts_body mf req : bodyBytes req ≠ [] → request_parts mf req ≠ None.
Proof.
  intros Hb. unfold request_parts. destruct (RequestHeader.Host (rHeader req)) as [ho hd].
  assert (bodyBytes (RequestURI (set_header hd req)).2 = bodyBytes req) as E.
  { unfold RequestURI. destruct (parsedURI _); [|done]. by destruct (HttpUri.RequestURI _). }
  destruct (RequestURI (set_header hd req)) as [u r2]. cbn [snd] in E.
  destruct (RequestHeader.NoBody (rHeader r2)) as [[] hd3]; [done|].
  unfold Body, onlyMultipartForm.
  replace (match HttpCodec.body (set_header hd3 r2) with None => true | Some b => zlen (bb b) =? 0 end) with false;
    [by rewrite andb_false_r|].
  rewrite <- E in Hb. unfold bodyBytes in Hb. change (HttpCodec.body (set_header hd3 r2)) with (HttpCodec.body r2).
  destruct (HttpCodec.body r2) as [x|]; [|done]. symmetry. apply Z.eqb_neq. by rewrite zlen_0.
Qed.

Lemma decode_with_body readForm pooled w b acquire r d rest :
  decodable r → zlen d = RequestHeader.contentLength r →
  RequestHeader.disableNormalizing (rHeader acquire) = false → keepBodyBuffer acquire = false →
  bwf b → bview b = (RequestHeader.AppendBytes [] r).1 ++ d ++ rest →
  ∃ req b1, is_ok (decodeHttpReq readForm pooled acquire) (w, b) (None, req) (w, b1) ∧ bwf b1 ∧
    (∀ mf, request_parts mf req ≠ None) ∧
    (RequestHeader.ConnectionClose (rHeader req)).1 = RequestHeader.connectionClose r.
Proof.
  intros Hd Hl H1 H2 Hb Hv. pose proof (dc_limit _ Hd) as Hn.
  destruct (decodeHttpReq_run readForm pooled w b r acquire (d ++ rest) Hd H1 H2 Hb Hv) as (req & b1 & E & Hb1 & _ & Hbd & Hs).
  { destruct d; [|done]. change (zlen []) with 0 in Hl. lia. }
  exists req, b1. split; [exact E|]. split; [done|]. split.
  - intros mf. apply parts_body.
    intros E0. rewrite E0 in Hbd. pose proof (body_of_length (bb pooled ++ bbspare pooled) (d ++ rest) (RequestHeader.contentLength r)) as L.
    rewrite <- Hbd in L. change (zlen []) with 0 in L. lia.
  - rewrite <- (sm_close _ _ Hs). unfold RequestHeader.with_cookies, RequestHeader.ConnectionClose. cbn [fst].
    by rewrite collectCookies_close.
Qed.

(** What reading the header lines does not change. *)
Definition line_keeps (r r' : RequestHeader.t) : Prop :=
  RequestHeader.method r' = RequestHeader.method r ∧ RequestHeader.noHTTP11 r' = RequestHeader.noHTTP11 r.
Lemma header_case_line k v r : line_keeps r (RequestHeader.header_case k v r).
Proof. unfold RequestHeader.header_case. repeat case_match; done. Qed.
Lemma fold_lines_line l r : line_keeps r (fold_lines l r).
Proof.
  revert r. induction l as [|kv l IH]; intros r; [done|]. rewrite fold_lines_cons.
  destruct (IH (RequestHeader.header_case (Key kv) (Value kv) r)) as [H1 H2], (header_case_line (Key kv) (Value kv) r).
  split; congruence.
Qed.
Lemma finish_method r : RequestHeader.method (RequestHeader.finish r) = RequestHeader.method r.
Proof.
  unfold RequestHeader.finish, RequestHeader.NoBody, RequestHeader.IsGet.
  repeat case_match; simplify_eq; cbn; repeat case_match; done.
Qed.
Lemma parse_lines_method fuel dis b r : RequestHeader.method (RequestHeader.parse_lines fuel dis b r).1 = RequestHeader.method r.
Proof.
  revert b r. induction fuel as [|fuel IH]; intros b r; cbn [RequestHeader.parse_lines]; [done|].
  destruct (header_next dis b) as [k v b'| |]; try done. rewrite IH. apply header_case_line.
Qed.
Lemma parseRawHeaders_method r : RequestHeader.method (RequestHeader.parseRawHeaders r) = RequestHeader.method r.
Proof.
  unfold RequestHeader.parseRawHeaders. destruct (RequestHeader.rawHeadersParsed r); [done|]. case_match; [done|].
  unfold RequestHeader.parseHeaders.
  pose proof (parse_lines_method (S (length (RequestHeader.rawHeaders (RequestHeader.set_rawHeadersParsed true r))))
    (RequestHeader.disableNormalizing (RequestHeader.set_contentLength (-2) (RequestHeader.set_rawHeadersParsed true r)))
    (RequestHeader.rawHeaders (RequestHeader.set_rawHeadersParsed true r))
    (RequestHeader.set_contentLength (-2) (RequestHeader.set_rawHeadersParsed true r))) as E.
  destruct (RequestHeader.parse_lines _ _ _ _) as [z [o|]]; cbn [fst] in *; [by rewrite finish_method|done].
Qed.
Lemma Host_method r : RequestHeader.method (RequestHeader.Host r).2 = RequestHeader.method r.
Proof. unfold RequestHeader.Host. repeat case_match; try done; apply parseRawHeaders_method. Qed.

Definition bodiless (m : bytes) : Prop := m = StrGet ∨ m = StrHead.
Lemma NoBody_bodiless r : bodiless (RequestHeader.method r) → (RequestHeader.NoBody r).1 = true.
Proof.
  intros H. unfold RequestHeader.NoBody, RequestHeader.IsGet, RequestHeader.IsHead, RequestHeader.Method.
  destruct (RequestHeader.isGet r) eqn:E; cbn [negb]; [by rewrite E|]. cbn.
  by destruct H as [-> | ->].
Qed.

Lemma RequestURI_method r : RequestHeader.method (rHeader (RequestURI r).2) = RequestHeader.method (rHeader r).
Proof. unfold RequestURI. destruct (parsedURI r); [|done]. by destruct (HttpUri.RequestURI (uri r)). Qed.
Lemma parts_bodiless mf req : bodiless (RequestHeader.method (rHeader req)) → request_parts mf req ≠ None.
Proof.
  intros Hm. unfold request_parts. pose proof (Host_method (rHeader req)) as E1.
  destruct (RequestHeader.Host (rHeader req)) as [ho hd]. cbn [snd] in E1.
  pose proof (RequestURI_method (set_header hd req)) as E2. cbn [rHeader set_header] in E2. rewrite E1 in E2.
  destruct (RequestURI (set_header hd req)) as [u r2]. cbn [snd] in E2. rewrite <- E2 in Hm.
  pose proof (NoBody_bodiless _ Hm) as E3. destruct (RequestHeader.NoBody (rHeader r2)) as [nb hd3].
  cbn [fst] in E3. by subst nb.
Qed.

Lemma decode_without_body readForm pooled w b acquire m u l rest :
  bodiless m → u ≠ [] → LF ∉ u → Forall line_ok l → l ≠ [] →
  RequestHeader.disableNormalizing (rHeader acquire) = false →
  bwf b → bview b = (request_line m u ++ header_text l ++ StrCRLF) ++ rest →
  ∃ req b1, is_ok (decodeHttpReq readForm pooled acquire) (w, b) (None, req) (w, b1) ∧ bwf b1 ∧
    bodiless (RequestHeader.method (rHeader req)) ∧
    (RequestHeader.ConnectionClose (rHeader req)).1 = wants_close l.
Proof.
  intros Hm Hu Hu' Hl Hne H1 Hb Hv.
  destruct (lazy_parse m u l rest (rHeader acquire) Hm Hu Hu' Hl Hne) as (y & Ey & _ & (g & Hy) & Ep).
  set (text := request_line m u ++ header_text l ++ StrCRLF) in *. rewrite <- Hv in Ey.
  assert (bodiless (RequestHeader.method y)) as Hmy by (by rewrite Hy).
  pose proof (NoBody_bodiless y Hmy) as Eb.
  assert (alike (RequestHeader.NoBody y).2 y) as Ha by apply NoBody_alike.
  assert (RequestHeader.method (RequestHeader.NoBody y).2 = RequestHeader.method y) as Em.
  { unfold RequestHeader.NoBody, RequestHeader.IsGet. by destruct (negb _). }
  pose proof (length_view b Hb) as Hlb.
  exists (set_header (RequestHeader.NoBody y).2 (set_header y (resetSkipHeader acquire))), (Drain (Z.of_nat (length text)) b).
  split; [|split; [|split]].
  - unfold decodeHttpReq, readLimitBody. rewrite resetSkipHeader_header. eapply is_ok_bind.
    { unfold parseHeader. eapply is_ok_bind; [apply doParse_run; [done| |exact Ey]|reflexivity].
      rewrite Hv. subst text. unfold request_line. destruct Hm as [-> | ->]; done. }
    cbv iota. cbn [rHeader set_header]. destruct (RequestHeader.NoBody y) as [nb y2]. cbn [fst] in Eb. by subst nb.
  - apply Drain_spec; [done|lia].
  - cbn [rHeader set_header]. by rewrite Em.
  - cbn [rHeader set_header]. rewrite (advanced_close y) by (by left).
    unfold RequestHeader.ConnectionClose. cbn [fst]. rewrite Ep, parseHeaders_text by done. cbn [fst].
    rewrite finish_close; [|rewrite (proj2 (fold_lines_line _ _)); by rewrite Hy].
    replace (RequestHeader.disableNormalizing _) with false by (by rewrite Hy).
    rewrite fold_lines_close. unfold wants_close. by rewrite Hy.
Qed.

Lemma request_parts_bodiless mf req h d req' :
  bodiless (RequestHeader.method (rHeader req)) → request_parts mf req = Some (h, d, req') → d = None.
Proof.
  intros Hm E. unfold request_parts in E. pose proof (Host_method (rHeader req)) as E1.
  destruct (RequestHeader.Host (rHeader req)) as [ho hd]. cbn [snd] in E1.
  pose proof (RequestURI_method (set_header hd req)) as E2. cbn [rHeader set_header] in E2. rewrite E1 in E2.
  destruct (RequestURI (set_header hd req)) as [u r2]. cbn [snd] in E2. rewrite <- E2 in Hm.
  pose proof (NoBody_bodiless _ Hm) as E3. destruct (RequestHeader.NoBody (rHeader r2)) as [nb hd3].
  cbn [fst] in E3. subst nb. by injection E as _ <- _.
Qed.

(** No upstream takes the request, and the reader waits for good. *)
Lemma OnDecodeDone_lost date acquired mf env fs reason (id : Z) (req : Request) (v : serverStream) :
  getUpstreamConnPool env (getUpstreamProtocol env) = Some (PoolFailed reason) → Forall passes fs →
  bodiless (RequestHeader.method (rHeader req)) →
  ∃ s, OnDecodeDone date acquired mf env fs id req v = Some s ∧ responseDone (server s) = false ∧
    written (server s) = written v ∧ downJobs (px s) = [] ∧ upJobs (px s) = [].
Proof.
  intros Hp Hf Hm. pose proof (parts_bodiless mf req Hm) as Hq.
  destruct (request_parts mf req) as [[[h d] req']|] eqn:Ep; [|done].
  pose proof (request_parts_bodiless _ _ _ _ _ Hm Ep) as ->.
  unfold OnDecodeDone, handleRequest. cbn [readDisableCount sreq]. change (0 <=? 0) with true. cbv zeta iota.
  rewrite Ep. cbn [mbind option_bind]. set (v1 := set_sreq (Some req') _).
  destruct (serve_lost (V := serverStream) (H := http_sender date acquired) env fs reason id h v1 Hp Hf) as (s & -> & E & J).
  exists s. by rewrite E.
Qed.

Lemma request_text_ne text close : request_text text close → text ≠ [].
Proof.
  intros [r d Hd Hl|m u l Hm _ _ _ _].
  - pose proof (dc_limit _ Hd) as Hn. intros [_ ->]%app_eq_nil. change (zlen []) with 0 in Hl. lia.
  - unfold request_line. by destruct Hm as [-> | ->].
Qed.

(** ** Properties *)

(** C2: an HTTP request is answered end to end.  When what a read brings is a
    request with its body, or a GET or HEAD with its header lines, followed by any
    bytes, the upstream protocol is MQ and the filters let it pass, then
    dispatching it decodes the request, runs it through the proxy to the MQ client
    and back, and writes to the connection exactly one response: status 200, no
    body, and a Connection line exactly when the request asked to close.  The
    reader is let go, the stream has released its request and response, and the
    bytes that followed the request are dropped. *)
Theorem http_exchange date acquired marshalForm env fs readForm pooled acquire id w b v text close rest :
  UpstreamProtocol env = MQ → ConnPoolFactories env = registeredPools → Forall passes fs → clean acquired →
  RequestHeader.disableNormalizing (rHeader acquire) = false → keepBodyBuffer acquire = false →
  bwf b → request_text text close → bview b = text ++ rest →
  connCut v = false → cache_ok (lines v) →
  ∃ v' b', Dispatch date acquired marshalForm env fs readForm pooled acquire id (w, b) v =
      Some (Done v', None, uint64 (id + 1), (w, b')) ∧
    bwf b' ∧ bview b' = [] ∧ over v' ∧ cache_ok (lines v') ∧
    concat (written v') = concat (written v) ++ answer_text date 200 close.
Proof.
  intros Hp Hr Hf Ha H1 H2 Hb Ht Hv Hc Hm.
  assert (∃ req b1, is_ok (decodeHttpReq readForm pooled acquire) (w, b) (None, req) (w, b1) ∧ bwf b1 ∧
    (∀ mf, request_parts mf req ≠ None) ∧ (RequestHeader.ConnectionClose (rHeader req)).1 = close)
    as (req & b1 & E & Hb1 & Hq & Hcl).
  { destruct Ht as [r d Hd Hl|m u l Hmm Hu Hu' Hl Hne].
    - rewrite <- app_assoc in Hv. by eapply decode_with_body.
    - destruct (decode_without_body readForm pooled w b acquire m u l rest) as (req & b1 & ? & ? & Hq & ?); try done.
      exists req, b1. split_and!; try done. intros mf. by apply parts_bodiless. }
  assert (bview b ≠ []) as Hne by (rewrite Hv; pose proof (request_text_ne _ _ Ht); by destruct text).
  destruct (length (bview b)) as [|n] eqn:El; [by destruct (bview b)|].
  destruct (Decode_one readForm pooled n acquire id w b req b1 Hb Hne E Hb1) as (b' & Ed & Hb' & Hv').
  destruct (request_answered date acquired marshalForm env fs Hp Hr Hf Ha (uint64 (id + 1)) req v (conj Hc Hm) (Hq marshalForm))
    as (s & Es & _ & Hs & Ho & Ew).
  exists (server s), b'. split.
  - unfold Dispatch. cbn [snd]. rewrite El, Ed. cbn [deliver_all]. rewrite Es. cbn [mbind option_bind].
    by rewrite (proj1 Ho).
  - split_and!; [done|done|apply Ho..|apply Hs|]. by rewrite Ew, Hcl.
Qed.

(** With HTTP upstream, a request without a body is never answered.  The pool of
    HTTP connections has no client and fails without a reason, which resets the
    request and tells no one: nothing is written to the connection, the proxy has
    no job left, and the reader of the connection waits forever for a response. *)
Theorem http_pool_blocks date acquired marshalForm env fs readForm pooled acquire id w b v m u l rest :
  UpstreamProtocol env = HTTP1 → ConnPoolFactories env = registeredPools → Forall passes fs →
  m = StrGet ∨ m = StrHead → u ≠ [] → LF ∉ u → Forall line_ok l → l ≠ [] →
  RequestHeader.disableNormalizing (rHeader acquire) = false → bwf b →
  bview b = (request_line m u ++ header_text l ++ StrCRLF) ++ rest →
  ∃ v' s', Dispatch date acquired marshalForm env fs readForm pooled acquire id (w, b) v =
      Some (Blocked v', None, uint64 (id + 1), s') ∧ written v' = written v ∧ responseDone v' = false.
Proof.
  intros Hp Hr Hf Hm Hu Hu' Hl Hne H1 Hb Hv.
  destruct (decode_without_body readForm pooled w b acquire m u l rest) as (req & b1 & E & Hb1 & Hmm & _); try done.
  assert (bview b ≠ []) as Hv0 by (rewrite Hv; unfold request_line; by destruct Hm as [-> | ->]).
  destruct (length (bview b)) as [|n] eqn:El; [by destruct (bview b)|].
  destruct (Decode_one readForm pooled n acquire id w b req b1 Hb Hv0 E Hb1) as (b' & Ed & _ & _).
  assert (getUpstreamConnPool env (getUpstreamProtocol env) = Some (PoolFailed NoFailureReason)) as Hpool.
  { unfold getUpstreamConnPool, getUpstreamProtocol. by rewrite Hp, Hr. }
  destruct (OnDecodeDone_lost date acquired marshalForm env fs _ (uint64 (id + 1)) req v Hpool Hf Hmm) as (s & Es & Hd & Hw & _).
  exists (server s), (w, b'). split; [|done]. unfold Dispatch. cbn [snd]. rewrite El, Ed. cbn [deliver_all].
  rewrite Es. cbn [mbind option_bind]. by rewrite Hd.
Qed.

(** ** Witnesses: a GET that asks to close, upstream MQ and upstream HTTP *)

Module http_example.
Definition env (upstream : String.string) : proxyEnv := mkEnv HTTP1 upstream (Some HTTP1) registeredPools.
Definition acquired0 : Response.t := Response.Mk resp_empty None None false false.
Definition conn0 : serverStream := mkServer false [] ∅ false None None 0 false.
Definition get_lines : list ArgsKV := [KV (bs "Host") (bs "h"); KV (bs "connection") (bs "close")].
Definition get_text : bytes := request_line StrGet (bs "/a") ++ header_text get_lines ++ StrCRLF.

Lemma acquired0_clean : clean acquired0.
Proof. split; try done. by exists (ArgsSlice [] []), (ArgsSlice [] []). Qed.
Lemma get_ok : request_text get_text true.
Proof.
  apply (WithoutBody StrGet (bs "/a") get_lines); try done; [by left| |].
  - by apply (bool_decide_eq_true _); vm_compute.
  - repeat constructor; by apply line_ok_dec; vm_compute.
Qed.
End http_example.

Lemma http_exchange_witness :
  ∃ v' b', Dispatch date0 http_example.acquired0 (λ _, []) (http_example.env MQ) [] noForm pooled0 request0 4
      (w0, received (http_example.get_text ++ bs "GET")) http_example.conn0 =
      Some (Done v', None, 5, (w0, b')) ∧
    concat (written v') = bs "HTTP/1.1 200 OK" ++ StrCRLF ++ bs "Server: strike" ++ StrCRLF ++
      bs "Date: Tue, 10 Nov 2009 23:00:00 GMT" ++ StrCRLF ++ bs "Content-Length: 0" ++ StrCRLF ++
      bs "Connection: close" ++ StrCRLF ++ StrCRLF.
Proof.
  destruct (http_exchange date0 http_example.acquired0 (λ _, []) (http_example.env MQ) [] noForm pooled0 request0 4 w0
    (received (http_example.get_text ++ bs "GET")) http_example.conn0 http_example.get_text true (bs "GET"))
    as (v' & b' & E & _ & _ & _ & _ & W);
    [reflexivity|reflexivity|constructor|apply http_example.acquired0_clean|reflexivity|reflexivity|apply received_ok
    |apply http_example.get_ok|apply received_ok|reflexivity|apply map_Forall_empty|].
  exists v', b'. split; [exact E|]. rewrite W. by vm_compute.
Defined.

Lemma http_pool_blocks_witness :
  ∃ v' s', Dispatch date0 http_example.acquired0 (λ _, []) (http_example.env HTTP1) [] noForm pooled0 request0 4
      (w0, received (http_example.get_text ++ [])) http_example.conn0 = Some (Blocked v', None, 5, s') ∧ written v' = [].
Proof.
  destruct (http_pool_blocks date0 http_example.acquired0 (λ _, []) (http_example.env HTTP1) [] noForm pooled0 request0 4 w0
    (received (http_example.get_text ++ [])) http_example.conn0 StrGet (bs "/a") http_example.get_lines [])
    as (v' & s' & E & W & _);
    [reflexivity|reflexivity|constructor|by left|done| | |done|reflexivity|apply received_ok|apply received_ok|].
  - by apply (bool_decide_eq_true _); vm_compute.
  - repeat constructor; by apply line_ok_dec; vm_compute.
  - exists v', s'. split; [exact E|exact W].
Defined.
