(* ===== verification/Limit.v ===== *)
(** * Limiters

    src/pkg/filter/stream/common/limit: a limiter by periods (qps.go), one by a
    stable interval with stored permits (rate.go), one with a token bucket for
    every user (userqps.go), and the engine that chooses between them (engine.go);
    src/utils/time/rate/rate.go: the token bucket.

    Every call takes the lock for its whole length, so that a run is a sequence of
    calls.  The clock is an argument: a call is given the time it reads.  A
    time.Time is its nanoseconds since 1970, a time.Duration an int64.  Floats are
    the binary64 of SpecFloat; the integer that a float out of range is converted to
    depends on the machine and is an argument ([oor]).  The cache of buckets is
    code of another library: class [Cache] is what it documents.

    The theorems: what the limiter by periods grants in any stretch of time, and
    that the users of a per-user limiter do not affect each other. *)

From Stdlib Require Import Floats.SpecFloat.
From S2P Require Import Prelude.

(** ** Floats *)

Abbreviation float := spec_float.
Definition float64 (n : Z) : float := binary_normalize 53 1024 n 0 false.
Definition fadd : float → float → float := SFadd 53 1024.
Definition fsub : float → float → float := SFsub 53 1024.
Definition fmul : float → float → float := SFmul 53 1024.
Definition fdiv : float → float → float := SFdiv 53 1024.
Definition fneg (x : float) : float := SFopp x.
Definition flt (x y : float) : bool := SFltb x y.
Definition fle (x y : float) : bool := SFleb x y.
(** math.Min, for arguments that are no NaN and no zeros of different signs. *)
Definition fmin (x y : float) : float := if flt x y then x else y.

(** Conversion to int64, to the integer towards zero. *)
Definition toInt64 (oor : Z) (f : float) : Z :=
  match f with
  | S754_zero _ => 0
  | S754_finite s m e =>
      let a := if 0 <=? e then Z.pos m * 2 ^ e else Z.pos m / 2 ^ (- e) in
      let v := if s then - a else a in
      if (- 2 ^ 63 <=? v) && (v <? 2 ^ 63) then v else oor
  | _ => oor
  end.

(** ** Time *)

Definition Millisecond : Z := 1000000.
Definition Second : Z := 1000000000.
(** t.Sub(u), which stays in range. *)
Definition Sub (t u : Z) : Z := Z.max (- 2 ^ 63) (Z.min (t - u) (2 ^ 63 - 1)).
(** d.Seconds() *)
Definition Seconds (d : Z) : float :=
  fadd (float64 (Z.quot d Second)) (fdiv (float64 (Z.rem d Second)) (float64 Second)).
(** time.Time{}, the first of January of the year 1. *)
Definition zeroTime : Z := - 62135596800 * Second.

(** ** By periods (qps.go) *)

Module QPS.
Record t : Type := Mk {
  maxAllows : Z; periodMicros : Z; nextPeriodMicros : Z; currentPermits : Z
}.
(** [since] is the time since the limiter's start; [None] is the error. *)
Definition NewQPSLimiter (maxAllows periodMs since : Z) : option t :=
  if (maxAllows <? 0) || (periodMs <=? 0) then None
  else
    let periodMicros := int64 (periodMs * Millisecond) in
    Some (Mk maxAllows periodMicros (int64 (since + periodMicros)) 0).
Definition TryAcquire (nowMicros : Z) (l : t) : bool * t :=
  if maxAllows l <=? 0 then (false, l)
  else
    let l := if nextPeriodMicros l <=? nowMicros
             then Mk (maxAllows l) (periodMicros l) (int64 (nowMicros + periodMicros l)) 0 else l in
    let l := Mk (maxAllows l) (periodMicros l) (nextPeriodMicros l) (int64 (currentPermits l + 1)) in
    (currentPermits l <=? maxAllows l, l).
End QPS.

(** ** By a stable interval (rate.go) *)

Module Smooth.
Record t : Type := Mk {
  maxAllows : Z; maxPermits : float; stableIntervalMicros : float;
  storedPermits : float; nextFreeTicketMicros : Z
}.
Definition NewRateLimiter (maxAllows periodMs : Z) (maxBurstRatio : float) (since : Z) : option t :=
  if (maxAllows <? 0) || (periodMs <=? 0) || fle maxBurstRatio (float64 0) then None
  else
    let interval :=
      if maxAllows =? 0 then float64 Millisecond
      else fdiv (fmul (float64 periodMs) (float64 Millisecond)) (float64 maxAllows) in
    Some (Mk maxAllows (fmul maxBurstRatio (float64 maxAllows)) interval (float64 0) since).
Definition reserveEarliestAvailable (oor nowMicros : Z) (l : t) : t :=
  let newPermits := fdiv (float64 (int64 (nowMicros - nextFreeTicketMicros l))) (stableIntervalMicros l) in
  let stored := fmin (maxPermits l) (fadd (storedPermits l) newPermits) in
  let toSpend := fmin (float64 1) stored in
  let freshPermits := fsub (float64 1) toSpend in
  let waitMicros := toInt64 oor (fmul freshPermits (stableIntervalMicros l)) in
  Mk (maxAllows l) (maxPermits l) (stableIntervalMicros l) (fsub stored toSpend) (int64 (nowMicros + waitMicros)).
Definition TryAcquire (oor nowMicros : Z) (l : t) : bool * t :=
  if maxAllows l <=? 0 then (false, l)
  else if nowMicros <=? nextFreeTicketMicros l then (false, l)
  else (true, reserveEarliestAvailable oor nowMicros l).
End Smooth.

(** ** The token bucket (utils/time/rate) *)

Module Bucket.
Record Limiter : Type := Mk { limit : float; burst : Z; tokens : float; last : Z; lastEvent : Z }.
Record Reservation : Type := MkRes { ok : bool; rtokens : Z; timeToAct : Z; rlimit : float }.

(** math.MaxFloat64 *)
Definition Inf : float := S754_finite false 9007199254740991 971.
Definition InfDuration : Z := 2 ^ 63 - 1.
Definition Every (interval : Z) : float :=
  if interval <=? 0 then Inf else fdiv (float64 1) (Seconds interval).
Definition NewLimiter (r : float) (b : Z) : Limiter := Mk r b (float64 0) zeroTime zeroTime.
Definition Limit (l : Limiter) : float := limit l.
Definition Burst (l : Limiter) : Z := burst l.
Definition isInf (f : float) : bool := SFeqb f Inf.

Section conversions.
Context (oor : Z).

Definition durationFromTokens (limit tokens : float) : Z :=
  let seconds := fdiv tokens limit in toInt64 oor (fmul (float64 Second) seconds).
Definition tokensFromDuration (limit : float) (d : Z) : float := fmul (Seconds d) limit.

(** The new last time and the tokens at [now]. *)
Definition advance (now : Z) (lim : Limiter) : Z * float :=
  let last := if now <? last lim then now else last lim in
  let maxElapsed := durationFromTokens (limit lim) (fsub (float64 (burst lim)) (tokens lim)) in
  let elapsed := Sub now last in
  let elapsed := if maxElapsed <? elapsed then maxElapsed else elapsed in
  let delta := tokensFromDuration (limit lim) elapsed in
  let tokens := fadd (tokens lim) delta in
  (last, if flt (float64 (burst lim)) tokens then float64 (burst lim) else tokens).

Definition reserveN (now n maxFutureReserve : Z) (lim : Limiter) : Reservation * Limiter :=
  if isInf (limit lim) then (MkRes true n now (float64 0), lim)
  else
    let '(last, tokens) := advance now lim in
    let tokens := fsub tokens (float64 n) in
    let waitDuration :=
      if flt tokens (float64 0) then durationFromTokens (limit lim) (fneg tokens) else 0 in
    let ok := (n <=? burst lim) && (waitDuration <=? maxFutureReserve) in
    if ok then
      (MkRes true n (now + waitDuration) (limit lim),
       Mk (limit lim) (burst lim) tokens now (now + waitDuration))
    else
      (MkRes false 0 zeroTime (limit lim), Mk (limit lim) (burst lim) (Bucket.tokens lim) last (lastEvent lim)).

Definition AllowN (now n : Z) (lim : Limiter) : bool * Limiter :=
  let '(r, lim) := reserveN now n 0 lim in (ok r, lim).
Definition Allow (now : Z) (lim : Limiter) : bool * Limiter := AllowN now 1 lim.
Definition ReserveN (now n : Z) (lim : Limiter) : Reservation * Limiter := reserveN now n InfDuration lim.
Definition Reserve (now : Z) (lim : Limiter) : Reservation * Limiter := ReserveN now 1 lim.
Definition DelayFrom (now : Z) (r : Reservation) : Z :=
  if ok r then let delay := Sub (timeToAct r) now in if delay <? 0 then 0 else delay else InfDuration.

Definition CancelAt (now : Z) (r : Reservation) (lim : Limiter) : Limiter :=
  if negb (ok r) then lim
  else if isInf (limit lim) || (rtokens r =? 0) || (timeToAct r <? now) then lim
  else
    let restore := fsub (float64 (rtokens r))
                     (tokensFromDuration (rlimit r) (Sub (lastEvent lim) (timeToAct r))) in
    if fle restore (float64 0) then lim
    else
      let '(_, tokens) := advance now lim in
      let tokens := fadd tokens restore in
      let tokens := if flt (float64 (burst lim)) tokens then float64 (burst lim) else tokens in
      let prevEvent := timeToAct r + durationFromTokens (rlimit r) (float64 (- rtokens r)) in
      let ev := if (timeToAct r =? lastEvent lim) && negb (prevEvent <? now) then prevEvent else lastEvent lim in
      Mk (limit lim) (burst lim) tokens now ev.

Definition OK (r : Reservation) : bool := ok r.
(** Delay, Cancel and (below) SetLimit and Wait read the clock. *)
Definition Delay (now : Z) (r : Reservation) : Z := DelayFrom now r.
Definition Cancel (now : Z) (r : Reservation) (lim : Limiter) : Limiter := CancelAt now r lim.
Definition SetLimitAt (now : Z) (newLimit : float) (lim : Limiter) : Limiter :=
  let '(_, tokens) := advance now lim in Mk newLimit (burst lim) tokens now (lastEvent lim).
Definition SetLimit (now : Z) (newLimit : float) (lim : Limiter) : Limiter := SetLimitAt now newLimit lim.

(** WaitN, with what its context says ([cancelled] at the start, [deadline], and
    whether it is cancelled during the wait, at what time): [Ok] is the time it
    waits for. *)
Inductive waitErr : Type := ExceedsBurst | ExceedsDeadline | Cancelled.
Definition WaitN (now n : Z) (cancelled : bool) (deadline during : option Z) (lim : Limiter)
    : res waitErr Z * Limiter :=
  if (burst lim <? n) && negb (isInf (limit lim)) then (Err ExceedsBurst, lim)
  else if cancelled then (Err Cancelled, lim)
  else
    let waitLimit := match deadline with Some d => Sub d now | None => InfDuration end in
    let '(r, lim) := reserveN now n waitLimit lim in
    if negb (ok r) then (Err ExceedsDeadline, lim)
    else
      let delay := DelayFrom now r in
      if delay =? 0 then (Ok 0, lim)
      else match during with
           | None => (Ok delay, lim)
           | Some t => (Err Cancelled, CancelAt t r lim)
           end.
Definition Wait (now : Z) (cancelled : bool) (deadline during : option Z) (lim : Limiter)
    : res waitErr Z * Limiter := WaitN now 1 cancelled deadline during lim.
End conversions.
End Bucket.

(** ** Per user (userqps.go) *)

(** go-cache, by its documentation: Get finds what Set stored for the key until it
    has expired, and other keys are not affected.  A value is a pointer: [cput]
    changes what it points to and leaves the expiration alone. *)
Class Cache (C V : Type) : Type := {
  cget : Z → bytes → C → option V;
  cset : Z → bytes → V → Z → C → C;
  cput : bytes → V → C → C
}.
Class CacheSpec (C V : Type) `{Cache C V} : Prop := {
  cget_set : ∀ now now' k v ttl c, 0 < ttl →
    cget now' k (cset now k v ttl c) = if now' <=? now + ttl then Some v else None;
  cget_set_ne : ∀ now now' k k' v ttl c, k ≠ k' → cget now' k' (cset now k v ttl c) = cget now' k' c;
  cget_put : ∀ now k v c, cget now k (cput k v c) = match cget now k c with Some _ => Some v | None => None end;
  cget_put_ne : ∀ now k k' v c, k ≠ k' → cget now k' (cput k v c) = cget now k' c
}.

Definition DefaultTokenBucketTTL : Z := 4 * 3600 * Second.

Module UserQPS.
Section users.
Context {C : Type} `{Cache C Bucket.Limiter} (oor : Z).
Record t : Type := Mk { maxAllows : Z; periodMicros : Z; maxAllowsPerSecond : float; tokenBuckets : C }.
Definition NewUserQPSLimiter (maxAllows periodMs : Z) (empty : C) : option t :=
  if (maxAllows <? 0) || (periodMs <=? 0) then None
  else Some (Mk maxAllows (int64 (periodMs * Millisecond))
               (fdiv (float64 (int64 (maxAllows * 1000))) (float64 periodMs)) empty).
(** The times that a call reads, one after the other. *)
Record clock : Type := MkClock { tGet1 : Z; tSet : Z; tGet2 : Z; tAllow : Z }.
Definition TryAcquire (ck : clock) (key : bytes) (l : t) : bool * t :=
  if maxAllows l <=? 0 then (false, l)
  else
    let c := match cget (tGet1 ck) key (tokenBuckets l) with
             | Some _ => tokenBuckets l
             | None => cset (tSet ck) key (Bucket.NewLimiter (maxAllowsPerSecond l) (maxAllows l))
                         DefaultTokenBucketTTL (tokenBuckets l)
             end in
    match cget (tGet2 ck) key c with
    | None => (false, Mk (maxAllows l) (periodMicros l) (maxAllowsPerSecond l) c)
    | Some lim =>
        let '(ok, lim) := Bucket.Allow oor (tAllow ck) lim in
        (ok, Mk (maxAllows l) (periodMicros l) (maxAllowsPerSecond l) (cput key lim c))
    end.
(** A run of calls, and the answers. *)
Fixpoint acquires (calls : list (clock * bytes)) (l : t) : list bool * t :=
  match calls with
  | [] => ([], l)
  | (ck, key) :: calls =>
      let '(ok, l) := TryAcquire ck key l in
      let '(oks, l) := acquires calls l in (ok :: oks, l)
  end.
End users.
End UserQPS.

(** ** The engine (engine.go) *)

Definition QPSStrategy : bytes := bs "QPS".
Definition RateLimiterStrategy : bytes := bs "RateLimiter".
Definition UserQPSStrategy : bytes := bs "UserQPS".

Record LimitConfig : Type := MkLimit {
  LimitStrategy : bytes; MaxBurstRatio : float; PeriodMs : Z; MaxAllows : Z; LKey : bytes
}.

Section engine.
Context {C : Type} `{Cache C Bucket.Limiter} (oor : Z) (empty : C).

Inductive Limiter : Type :=
  | LQPS (l : QPS.t) | LRate (l : Smooth.t) | LUser (l : UserQPS.t (C := C)).
(** [None] is an error. *)
Definition NewLimitEngine (config : LimitConfig) (since : Z) : option Limiter :=
  if LimitStrategy config =b QPSStrategy then LQPS <$> QPS.NewQPSLimiter (MaxAllows config) (PeriodMs config) since
  else if LimitStrategy config =b RateLimiterStrategy then
    LRate <$> Smooth.NewRateLimiter (MaxAllows config) (PeriodMs config) (MaxBurstRatio config) since
  else if LimitStrategy config =b UserQPSStrategy then
    LUser <$> UserQPS.NewUserQPSLimiter (MaxAllows config) (PeriodMs config) empty
  else None.
(** What a call reads of the clock: the time since the limiter's start, and the
    times of the cache. *)
Record reading : Type := MkReading { rSince : Z; rClock : UserQPS.clock }.
Definition TryAcquire (rd : reading) (key : bytes) (l : Limiter) : bool * Limiter :=
  match l with
  | LQPS l => let '(ok, l) := QPS.TryAcquire (rSince rd) l in (ok, LQPS l)
  | LRate l => let '(ok, l) := Smooth.TryAcquire oor (rSince rd) l in (ok, LRate l)
  | LUser l => let '(ok, l) := UserQPS.TryAcquire oor (rClock rd) key l in (ok, LUser l)
  end.
Definition OverLimit (rd : reading) (key : bytes) (l : Limiter) : bool * Limiter :=
  let '(ok, l) := TryAcquire rd key l in (negb ok, l).
End engine.
Arguments Limiter C : clear implicits.

(** ** Grants of the limiter by periods *)

Module qps_facts.
Import QPS.
(** The times at which a run of calls, at the given times, is let through. *)
Fixpoint grants (ts : list Z) (l : t) : list Z :=
  match ts with
  | [] => []
  | now :: ts => let '(ok, l) := TryAcquire now l in (if ok then [now] else []) ++ grants ts l
  end.
(** How many of them are in the [p] nanoseconds from [a] on. *)
Definition within (a p : Z) (g : list Z) : Z := zlen (filter (λ t, a ≤ t < a + p) g).

Fixpoint rising (lo : Z) (ts : list Z) : Prop :=
  match ts with [] => True | t :: ts => lo ≤ t ∧ rising t ts end.
Lemma rising_weaken lo lo' ts : lo' ≤ lo → rising lo ts → rising lo' ts.
Proof. destruct ts; simpl; [done|]. intros ? [? ?]. split; [lia|done]. Qed.

Lemma within_cons a p t g : within a p (t :: g) = (if decide (a ≤ t < a + p) then 1 else 0) + within a p g.
Proof.
  unfold within. rewrite filter_cons. destruct (decide _); unfold zlen; simpl; lia.
Qed.
Lemma within_app a p g g' : within a p (g ++ g') = within a p g + within a p g'.
Proof. induction g as [|t g IH]; [done|]. simpl. rewrite !within_cons, IH. lia. Qed.
Lemma within_late a p lo ts l : rising lo ts → a + p ≤ lo → within a p (grants ts l) = 0.
Proof.
  revert lo l. induction ts as [|t ts IH]; intros lo l Hr Hl; [done|]. destruct Hr as [H1 H2].
  cbn [grants]. destruct (TryAcquire t l) as [ok l']. rewrite within_app, (IH t) by (done || lia).
  destruct ok; [|done]. rewrite within_cons. rewrite decide_False by lia. done.
Qed.

(** What can still be granted from [a] on when the period ends at [n] and [k] of
    its [m] permits are gone. *)
Definition allowance (m p a n k : Z) : Z :=
  if a + p <=? n then Z.max 0 (m - k) else if a <? n then Z.max 0 (m - k) + m else 2 * m.

Lemma grants_bound m p a ts lo n k :
  0 < m → 0 < p < 2 ^ 61 → 0 ≤ k → k + zlen ts < 2 ^ 62 → m < 2 ^ 62 → 0 ≤ lo → rising lo ts →
  Forall (λ t, t < 2 ^ 61) ts → within a p (grants ts (Mk m p n k)) ≤ allowance m p a n k.
Proof.
  intros Hm Hp. revert lo n k. induction ts as [|t ts IH]; intros lo n k Hk Hl Hm2 Hlo Hr F.
  { unfold allowance. cbn. change (within a p []) with 0. repeat case_match; lia. }
  destruct Hr as [Hr1 Hr2]. inversion_clear F as [|? ? Ht F']. rewrite zlen_cons in Hl.
  pose proof (zlen_nonneg ts) as Hz.
  cbn [grants]. unfold TryAcquire. cbn [maxAllows nextPeriodMicros periodMicros currentPermits].
  rewrite (proj2 (Z.leb_gt m 0)) by done. destruct (n <=? t) eqn:En; bdec.
  - cbn [maxAllows nextPeriodMicros periodMicros currentPermits].
    rewrite (int64_small (t + p)), (int64_small (0 + 1)) by lia.
    assert (0 + 1 <=? m = true) as -> by (apply Z.leb_le; lia).
    specialize (IH t (t + p) (0 + 1) ltac:(lia) ltac:(lia) Hm2 ltac:(lia) Hr2 F').
    pose proof (within_late a p t ts (Mk m p (t + p) (0 + 1)) Hr2) as L.
    rewrite within_app, within_cons. change (within a p []) with 0.
    unfold allowance in *. destruct (decide _); repeat case_match; bdec; lia.
  - cbn [maxAllows nextPeriodMicros periodMicros currentPermits]. rewrite (int64_small (k + 1)) by lia.
    specialize (IH t n (k + 1) ltac:(lia) ltac:(lia) Hm2 ltac:(lia) Hr2 F').
    rewrite within_app. destruct (k + 1 <=? m) eqn:Ek; bdec; rewrite ?within_cons; change (within a p []) with 0;
      unfold allowance in *; try destruct (decide _); repeat case_match; bdec; lia.
Qed.

Lemma grants_all m p n k ts :
  0 < m < 2 ^ 62 → 0 ≤ k → k + zlen ts ≤ m → Forall (λ t, t < n) ts → grants ts (Mk m p n k) = ts.
Proof.
  intros Hm. revert k. induction ts as [|t ts IH]; intros k Hk Hl F; [done|].
  inversion_clear F as [|? ? Ht F']. rewrite zlen_cons in Hl. pose proof (zlen_nonneg ts).
  cbn [grants]. unfold TryAcquire. cbn [maxAllows nextPeriodMicros periodMicros currentPermits].
  rewrite (proj2 (Z.leb_gt m 0)), (proj2 (Z.leb_gt n t)) by lia.
  cbn [maxAllows nextPeriodMicros periodMicros currentPermits]. rewrite (int64_small (k + 1)) by lia.
  rewrite (proj2 (Z.leb_le (k + 1) m)) by lia. simpl. f_equal. apply IH; [lia|lia|done].
Qed.

(** Both, for a new limiter. *)
Lemma qps_in_window m ms since l a ts :
  NewQPSLimiter m ms since = Some l →
  0 < m < 2 ^ 62 → ms < 10 ^ 12 → 0 ≤ since < 2 ^ 61 → rising since ts →
  Forall (λ t, t < 2 ^ 61) ts → zlen ts < 2 ^ 62 →
  within a (ms * Millisecond) (grants ts l) ≤ 2 * m ∧
  (zlen ts ≤ m → Forall (λ t, t < since + ms * Millisecond) ts → grants ts l = ts).
Proof.
  intros E Hm Hms Hs Hr F Hl. unfold NewQPSLimiter in E.
  destruct ((m <? 0) || (ms <=? 0)) eqn:Eb; [done|]. apply orb_false_elim in Eb as [_ Eb]. bdec.
  unfold Millisecond in *. rewrite !int64_small in E by lia. injection E as <-. split.
  - etrans; [eapply (grants_bound _ _ a ts since); (done || lia)|]. unfold allowance. repeat case_match; lia.
  - intros Hn Hp. by apply grants_all; [| |lia|].
Qed.
End qps_facts.

(** What a limiter of [m] permits in [ms] milliseconds grants.  Over any run of
    calls, in any stretch of time as long as a period at most twice [m] calls are
    let through, wherever the stretch begins; and of the calls in the first period
    the first [m] are. *)
Theorem qps_window m ms since l a ts :
  QPS.NewQPSLimiter m ms since = Some l →
  0 < m < 2 ^ 62 → ms < 10 ^ 12 → 0 ≤ since < 2 ^ 61 → qps_facts.rising since ts →
  Forall (λ t, t < 2 ^ 61) ts → zlen ts < 2 ^ 62 →
  qps_facts.within a (ms * Millisecond) (qps_facts.grants ts l) ≤ 2 * m ∧
  (zlen ts ≤ m → Forall (λ t, t < since + ms * Millisecond) ts → qps_facts.grants ts l = ts).
Proof. apply qps_facts.qps_in_window. Qed.

Lemma qps_window_witness :
  QPS.NewQPSLimiter 2 1 0 = Some (QPS.Mk 2 1000000 1000000 0) ∧
  qps_facts.grants [999998; 999999; 1000000; 1000001; 1000002] (QPS.Mk 2 1000000 1000000 0) =
    [999998; 999999; 1000000; 1000001] ∧
  qps_facts.within 999998 1000000 (qps_facts.grants [999998; 999999; 1000000; 1000001; 1000002]
    (QPS.Mk 2 1000000 1000000 0)) ≤ 2 * 2.
Proof.
  split; [reflexivity|]. split; [reflexivity|].
  apply (qps_window 2 1 0 (QPS.Mk 2 1000000 1000000 0) 999998 [999998; 999999; 1000000; 1000001; 1000002]);
    [reflexivity|lia|lia|lia|simpl; lia|repeat constructor; lia|done].
Defined.

(** ** Users *)

Module user_facts.
Section users.
Context {C : Type} `{CacheSpec C Bucket.Limiter} (oor : Z).
Import UserQPS.
Implicit Types l : UserQPS.t (C := C).

(** Two limiters that are the same to [key]. *)
Record same (key : bytes) l l' : Prop := {
  sm_max : maxAllows l = maxAllows l'; sm_rate : maxAllowsPerSecond l = maxAllowsPerSecond l';
  sm_get : ∀ now, cget now key (tokenBuckets l) = cget now key (tokenBuckets l')
}.

(** A call for another user changes nothing for [key]. *)
Lemma other_same key k ck l : k ≠ key → same key (TryAcquire oor ck k l).2 l.
Proof.
  intros N. unfold TryAcquire. destruct (maxAllows l <=? 0); [by split|].
  set (c := match cget (tGet1 ck) k (tokenBuckets l) with Some _ => _ | None => _ end).
  assert (∀ now, cget now key c = cget now key (tokenBuckets l)) as Hc.
  { intros now. subst c. destruct (cget (tGet1 ck) k (tokenBuckets l)); [done|]. by apply cget_set_ne. }
  destruct (cget (tGet2 ck) k c) as [lim|]; [|by split].
  destruct (Bucket.Allow oor (tAllow ck) lim) as [ok lim']. split; [done|done|].
  intros now. cbn [snd tokenBuckets]. by rewrite cget_put_ne.
Qed.

(** A call for [key] answers the same, and what it leaves is the same to [key]. *)
Lemma own_same key ck l l' : same key l l' →
  (TryAcquire oor ck key l).1 = (TryAcquire oor ck key l').1 ∧
  same key (TryAcquire oor ck key l).2 (TryAcquire oor ck key l').2.
Proof.
  intros [E1 E2 E3]. unfold TryAcquire. rewrite E1, E2, E3. destruct (maxAllows l' <=? 0); [by split|].
  set (v := Bucket.NewLimiter (maxAllowsPerSecond l') (maxAllows l')).
  set (c := match cget (tGet1 ck) key (tokenBuckets l') with Some _ => tokenBuckets l | None => _ end).
  set (c' := match cget (tGet1 ck) key (tokenBuckets l') with Some _ => tokenBuckets l' | None => _ end).
  assert (∀ now, cget now key c = cget now key c') as Hc.
  { intros now. subst c c'. destruct (cget (tGet1 ck) key (tokenBuckets l')); [done|]. by rewrite !cget_set. }
  rewrite Hc. destruct (cget (tGet2 ck) key c') as [lim|]; [|by split].
  destruct (Bucket.Allow oor (tAllow ck) lim) as [ok lim']. split; [done|]. split; [done|done|].
  intros now. cbn [snd tokenBuckets]. by rewrite !cget_put, Hc.
Qed.

(** The answers to the calls for [key]. *)
Definition own {A} (key : bytes) (calls : list (clock * bytes)) (oks : list A) : list A :=
  (filter (λ p : clock * bytes * A, p.1.2 = key) (zip calls oks)).*2.
Lemma acquires_own key calls l l' : same key l l' →
  own key calls (acquires oor calls l).1 = (acquires oor (filter (λ c : clock * bytes, c.2 = key) calls) l').1.
Proof.
  revert l l'. induction calls as [|[ck k] calls IH]; intros l l' Hs; [done|].
  cbn [acquires]. rewrite filter_cons. cbn [snd]. destruct (decide (k = key)) as [->|N].
  - destruct (own_same key ck l l' Hs) as [E1 E2]. cbn [acquires].
    destruct (TryAcquire oor ck key l) as [ok l1], (TryAcquire oor ck key l') as [ok' l1']. cbn [fst snd] in *. subst ok'.
    specialize (IH l1 l1' E2). destruct (acquires oor calls l1) as [oks l2].
    destruct (acquires oor (filter _ calls) l1') as [oks' l2']. cbn [fst] in *.
    unfold own in *. cbn [zip zip_with]. rewrite filter_cons_True by done. cbn. by rewrite IH.
  - pose proof (other_same key k ck l N) as E. destruct (TryAcquire oor ck k l) as [ok l1]. cbn [snd] in E.
    assert (same key l1 l') as Hs' by (destruct Hs, E; split; [congruence|congruence|intros now; congruence]).
    specialize (IH l1 l' Hs'). destruct (acquires oor calls l1) as [oks l2]. cbn [fst] in *.
    unfold own in *. cbn [zip zip_with]. by rewrite filter_cons_False.
Qed.
End users.
End user_facts.

(** Users do not affect each other.  In any run of calls on a per-user limiter,
    the answers to the calls of one user are those of the run of that user's calls
    alone. *)
Theorem userqps_isolated {C} `{CacheSpec C Bucket.Limiter} oor key calls (l : UserQPS.t (C := C)) :
  user_facts.own key calls (UserQPS.acquires oor calls l).1 =
  (UserQPS.acquires oor (filter (λ c : UserQPS.clock * bytes, c.2 = key) calls) l).1.
Proof. by apply user_facts.acquires_own. Qed.

(** A cache as a map of values and the times they expire at. *)
#[export] Instance map_cache (V : Type) : Cache (gmap bytes (V * Z)) V := {
  cget := λ now k c, match c !! k with Some (v, e) => if now <=? e then Some v else None | None => None end;
  cset := λ now k v ttl c, <[k := (v, now + ttl)]> c;
  cput := λ k v c, match c !! k with Some (_, e) => <[k := (v, e)]> c | None => c end
}.
#[export] Instance map_cache_spec V : CacheSpec (gmap bytes (V * Z)) V.
Proof.
  split; simpl.
  - intros. by rewrite lookup_insert_eq.
  - intros. by rewrite lookup_insert_ne.
  - intros now k v c. destruct (c !! k) as [[v' e]|] eqn:E; [rewrite lookup_insert_eq|rewrite E; done].
    by destruct (now <=? e).
  - intros now k k' v c N. destruct (c !! k) as [[v' e]|]; [|done]. by rewrite lookup_insert_ne.
Qed.

Lemma userqps_isolated_witness :
  let ck t := UserQPS.MkClock t t t t in
  let a := bs "a" in let b := bs "b" in
  let l := UserQPS.Mk 1 (1000 * Millisecond) (float64 1) (∅ : gmap bytes (Bucket.Limiter * Z)) in
  let calls := [(ck 0, a); (ck 1, b); (ck 2, a); (ck 3, b); (ck (2 * Second), a)] in
  UserQPS.NewUserQPSLimiter 1 1000 ∅ = Some l ∧
  (UserQPS.acquires 0 calls l).1 = [true; true; false; false; true] ∧
  user_facts.own a calls (UserQPS.acquires 0 calls l).1 =
  (UserQPS.acquires 0 (filter (λ c : UserQPS.clock * bytes, c.2 = a) calls) l).1.
Proof.
  intros ck a b l calls. split; [vm_compute; reflexivity|]. split; [vm_compute; reflexivity|].
  apply (userqps_isolated (C := gmap bytes (Bucket.Limiter * Z)) 0 a calls l).
Defined.
