(* ===== verification/RuleFilter.v ===== *)
(** * Rule filters

    src/pkg/filter/stream/common and src/pkg/filter/stream/auth: stream filters that
    apply rules to the headers of a request.  A rule names the requests it is about
    by their headers and query parameters (resource/); the common filter refuses
    what a limiter of [Limit] does not grant, with 509, the auth filter what carries
    no valid token, with 401.  The two packages are twins, modelled by a Module each.

    The matchers are read as a formula over the headers and the parsed query; the
    rules of one filter share the variable of the loop that made them; the filters
    are plugged into the stream of [Proxy].  The JWT library is a parameter
    ([decode_token]).  Reading the JSON of a configuration is not modelled. *)

From S2P Require Import Prelude BytesConv Headers Limit Proxy.

(** ** Configuration *)

Definition RunModeControl : bytes := bs "CONTROL".
Definition RunModeMonitor : bytes := bs "MONITOR".
Definition CompareEquals : bytes := bs "EQUALS".
Definition CompareNotEquals : bytes := bs "NOTEQUALS".
Definition RelationAnd : bytes := bs "AND".
Definition RelationOr : bytes := bs "OR".

Record ComparisonCofig : Type := MkComparison { CompareType : bytes; Key : bytes; Value : bytes }.
Record ResourceConfig : Type := MkResource {
  RHeaders : list ComparisonCofig; HeadersRelation : bytes;
  Params : list ComparisonCofig; ParamsRelation : bytes
}.

(** ** The common filter *)

Module Common.

Record RuleConfig : Type := MkRule {
  Id : Z; Index : Z; Name : bytes; AppName : bytes; Enable : bool; RunMode : bytes;
  Limits : LimitConfig; ResourceConfigs : list ResourceConfig
}.

Definition compare (config : ComparisonCofig) (target : bytes) : bool :=
  if CompareType config =b CompareEquals then Value config =b target
  else if CompareType config =b CompareNotEquals then negb (Value config =b target)
  else true.
Fixpoint compares_eq (value : bytes) (targets : list bytes) : bool :=
  match targets with [] => false | t :: targets => if value =b t then true else compares_eq value targets end.
Fixpoint compares_ne (value : bytes) (targets : list bytes) : bool :=
  match targets with [] => true | t :: targets => if value =b t then false else compares_ne value targets end.
Definition compares (config : ComparisonCofig) (targets : list bytes) : bool :=
  if CompareType config =b CompareEquals then compares_eq (Value config) targets
  else if CompareType config =b CompareNotEquals then compares_ne (Value config) targets
  else true.

Definition matchHeaders (headers : CommonHeader) (r : ResourceConfig) : bool :=
  foldl (λ matched c,
    let flag := compare c (GetValue (Key c) headers) in
    if negb (ParamsRelation r =b RelationOr) then matched && flag else matched || flag)
    (negb (ParamsRelation r =b RelationOr)) (RHeaders r).

Definition queryParams (queryString : bytes) : gmap bytes (list bytes) :=
  foldl (λ m item,
    match SplitN2 "="%byte item with
    | Some (k, v) => <[k := default [] (m !! k) ++ [v]]> m
    | None => m
    end) ∅ (Split "&"%byte queryString).
Definition matchQueryParams (queryString : bytes) (r : ResourceConfig) : bool :=
  let params := queryParams queryString in
  foldl (λ matched c,
    let flag := compares c (default [] (params !! Key c)) in
    if negb (ParamsRelation r =b RelationOr) then matched && flag else matched || flag)
    (negb (ParamsRelation r =b RelationOr)) (Params r).

Definition MatcherMatch (headers : CommonHeader) (r : ResourceConfig) : bool :=
  if (0 <? zlen (RHeaders r)) && negb (matchHeaders headers r) then false
  else
    let value := GetValue StrikeHeaderQueryStringKey headers in
    if (0 <? zlen (Params r)) && negb (matchQueryParams value r) then false else true.
Fixpoint EngineMatch (headers : CommonHeader) (rs : list ResourceConfig) : bool :=
  match rs with
  | [] => false
  | r :: rs => if MatcherMatch headers r then true else EngineMatch headers rs
  end.

Section rules.
Context {C : Type} `{Cache C Bucket.Limiter} (oor : Z) (empty : C).

(** The limiter of a rule; its configuration is a pointer to [ruleVar], the
    variable of the loop in NewRuleEngineFactory, which go 1.12 has once for the
    whole loop. *)
Definition NewRuleEngine (config : RuleConfig) (since : Z) : option (Limiter C) :=
  NewLimitEngine empty (Limits config) since.
Record RuleEngineFactory : Type := MkFactory {
  ruleVar : option RuleConfig; ruleEngines : list (Limiter C)
}.
(** [since] is what the clock says, for each rule. *)
Definition NewRuleEngineFactory (configs : list (RuleConfig * Z)) : RuleEngineFactory :=
  foldl (λ f '(rc, since),
    MkFactory (Some rc)
      (if Enable rc then match NewRuleEngine rc since with
                         | Some e => ruleEngines f ++ [e]
                         | None => ruleEngines f
                         end
       else ruleEngines f)) (MkFactory None []) configs.

(** One rule: whether the request passes. *)
Definition ruleInvoke (rc : RuleConfig) (rd : reading) (headers : CommonHeader) (e : Limiter C)
    : bool * Limiter C :=
  if EngineMatch headers (ResourceConfigs rc) then
    let key := GetValue (LKey (Limits rc)) headers in
    let '(over, e) := OverLimit oor rd key e in
    if over then (negb (RunMode rc =b RunModeControl), e) else (true, e)
  else (true, e).
Fixpoint invoke_loop (rc : RuleConfig) (i : nat) (rds : nat → reading) (headers : CommonHeader)
    (es : list (Limiter C)) : bool * list (Limiter C) :=
  match es with
  | [] => (true, [])
  | e :: es =>
      let '(ok, e) := ruleInvoke rc (rds i) headers e in
      if ok then let '(ok, es) := invoke_loop rc (S i) rds headers es in (ok, e :: es) else (false, e :: es)
  end.
(** [rds] is what each limiter reads of its clock. *)
Definition invoke (rds : nat → reading) (headers : CommonHeader) (f : RuleEngineFactory)
    : bool * RuleEngineFactory :=
  match ruleVar f with
  | None => (true, f)
  | Some rc => let '(ok, es) := invoke_loop rc 0 rds headers (ruleEngines f) in (ok, MkFactory (Some rc) es)
  end.

(** OnReceiveHeaders: what is done with the handler, and the filter after it. *)
Definition OnReceiveHeaders (rds : nat → reading) (headers : CommonHeader) (f : RuleEngineFactory)
    : list (filterOp (H := CommonHeader)) * status * RuleEngineFactory :=
  let '(ok, f) := invoke rds headers f in
  if ok then ([], Continue, f)
  else ([FAppendHeaders (Some (Set_ HeaderStatus (Itoa LimitExceededCode) headers)) true], Stop, f).
End rules.
Arguments RuleEngineFactory C : clear implicits.
End Common.

(** ** The auth filter *)

Module Auth.

Record AuthConfig : Type := MkAuth { PublicKey : bytes; TokenKey : bytes }.
Record RuleConfig : Type := MkRule {
  Id : Z; Index : Z; Name : bytes; AppName : bytes; Enable : bool; RunMode : bytes;
  Auths : AuthConfig; ResourceConfigs : list ResourceConfig
}.

Definition compare (config : ComparisonCofig) (target : bytes) : bool :=
  if CompareType config =b CompareEquals then Value config =b target
  else if CompareType config =b CompareNotEquals then negb (Value config =b target)
  else true.
Fixpoint compares_eq (value : bytes) (targets : list bytes) : bool :=
  match targets with [] => false | t :: targets => if value =b t then true else compares_eq value targets end.
Fixpoint compares_ne (value : bytes) (targets : list bytes) : bool :=
  match targets with [] => true | t :: targets => if value =b t then false else compares_ne value targets end.
Definition compares (config : ComparisonCofig) (targets : list bytes) : bool :=
  if CompareType config =b CompareEquals then compares_eq (Value config) targets
  else if CompareType config =b CompareNotEquals then compares_ne (Value config) targets
  else true.

Definition matchHeaders (headers : CommonHeader) (r : ResourceConfig) : bool :=
  foldl (λ matched c,
    let flag := compare c (GetValue (Key c) headers) in
    if negb (HeadersRelation r =b RelationOr) then matched && flag else matched || flag)
    (negb (HeadersRelation r =b RelationOr)) (RHeaders r).

Definition queryParams (queryString : bytes) : gmap bytes (list bytes) :=
  foldl (λ m item,
    match SplitN2 "="%byte item with
    | Some (k, v) => <[k := default [] (m !! k) ++ [v]]> m
    | None => m
    end) ∅ (Split "&"%byte queryString).
Definition matchQueryParams (queryString : bytes) (r : ResourceConfig) : bool :=
  let params := queryParams queryString in
  foldl (λ matched c,
    let flag := compares c (default [] (params !! Key c)) in
    if negb (ParamsRelation r =b RelationOr) then matched && flag else matched || flag)
    (negb (ParamsRelation r =b RelationOr)) (Params r).

Definition MatcherMatch (headers : CommonHeader) (r : ResourceConfig) : bool :=
  if (0 <? zlen (RHeaders r)) && negb (matchHeaders headers r) then false
  else
    let value := GetValue StrikeHeaderQueryStringKey headers in
    if (0 <? zlen (Params r)) && negb (matchQueryParams value r) then false else true.
Fixpoint EngineMatch (headers : CommonHeader) (rs : list ResourceConfig) : bool :=
  match rs with
  | [] => false
  | r :: rs => if MatcherMatch headers r then true else EngineMatch headers rs
  end.

(** What the JWT library makes of a token: jwt.Parse and Valid fail, or give the
    claims; [None] is a claim orgi that is not there or no string. *)
Inductive token : Type := TokenErr | TokenClaims (orgi : option bytes).
(** BadKey: the panic of decode; BadClaim: that of the type assertion. *)
Inductive panic : Type := BadKey | BadClaim.

Section rules.
(** jwt.ParseRSAPublicKeyFromPEM, and jwt.Parse with Valid. *)
Context {K : Type} (parse_key : bytes → option K) (decode_token : K → bytes → token).

Definition decode (pubKey tokenString : bytes) : res panic token :=
  match parse_key pubKey with
  | None => Err BadKey
  | Some key => Ok (decode_token key tokenString)
  end.

(** One rule: whether the request passes, and the headers after it. *)
Definition ruleInvoke (rc : RuleConfig) (headers : CommonHeader) : res panic (bool * CommonHeader) :=
  if EngineMatch headers (ResourceConfigs rc) then
    match Get (TokenKey (Auths rc)) headers with
    | Some tok =>
        match decode (PublicKey (Auths rc)) tok with
        | Err p => Err p
        | Ok TokenErr => Ok (false, headers)
        | Ok (TokenClaims None) => Err BadClaim
        | Ok (TokenClaims (Some orgi)) => Ok (true, Set_ StrikeHeaderUsername orgi headers)
        end
    | None => Ok (false, headers)
    end
  else Ok (true, headers).

(** As many engines as enabled rules, all with the configuration in [ruleVar]. *)
Record RuleEngineFactory : Type := MkFactory { ruleVar : option RuleConfig; ruleEngines : nat }.
Definition NewRuleEngineFactory (configs : list RuleConfig) : RuleEngineFactory :=
  foldl (λ f rc, MkFactory (Some rc) (if Enable rc then S (ruleEngines f) else ruleEngines f))
    (MkFactory None 0) configs.
Fixpoint invoke_loop (n : nat) (rc : RuleConfig) (headers : CommonHeader) : res panic (bool * CommonHeader) :=
  match n with
  | O => Ok (true, headers)
  | S n =>
      match ruleInvoke rc headers with
      | Ok (true, headers) => invoke_loop n rc headers
      | r => r
      end
  end.
Definition invoke (f : RuleEngineFactory) (headers : CommonHeader) : res panic (bool * CommonHeader) :=
  match ruleVar f with
  | None => Ok (true, headers)
  | Some rc => invoke_loop (ruleEngines f) rc headers
  end.

(** OnReceiveHeaders: what is done with the handler, and the headers after it. *)
Definition OnReceiveHeaders (f : RuleEngineFactory) (headers : CommonHeader)
    : res panic (list (filterOp (H := CommonHeader)) * status * CommonHeader) :=
  match invoke f headers with
  | Err p => Err p
  | Ok (true, headers) => Ok ([], Continue, headers)
  | Ok (false, headers) =>
      let headers := Set_ HeaderStatus (Itoa Unauthorized) headers in
      Ok ([FAppendHeaders (Some headers) true], Stop, headers)
  end.
End rules.
End Auth.

(** ** What a rule matches *)

Module match_facts.

(** The parameters of a query string, in their order, and the values of one. *)
Definition pairs (q : bytes) : list (bytes * bytes) := omap (SplitN2 "="%byte) (Split "&"%byte q).
Definition values (k : bytes) (kvs : list (bytes * bytes)) : list bytes :=
  (base.filter (λ kv : bytes * bytes, kv.1 = k) kvs).*2.

(** What a comparison says of a header, and of a parameter. *)
Definition sat_header (h : CommonHeader) (c : ComparisonCofig) : Prop :=
  (CompareType c = CompareEquals → Value c = GetValue (Key c) h) ∧
  (CompareType c = CompareNotEquals → Value c ≠ GetValue (Key c) h).
Definition sat_param (q : bytes) (c : ComparisonCofig) : Prop :=
  (CompareType c = CompareEquals → Value c ∈ values (Key c) (pairs q)) ∧
  (CompareType c = CompareNotEquals → Value c ∉ values (Key c) (pairs q)).
(** All of a list, or one of it. *)
Definition related {A} (rel : bytes) (P : A → Prop) (l : list A) : Prop :=
  if rel =b RelationOr then Exists P l else Forall P l.
(** What a resource says of a request, where [hrel] relates its headers. *)
Definition says (hrel : bytes) (h : CommonHeader) (r : ResourceConfig) : Prop :=
  (RHeaders r = [] ∨ related hrel (sat_header h) (RHeaders r)) ∧
  (Params r = [] ∨ related (ParamsRelation r) (sat_param (GetValue StrikeHeaderQueryStringKey h)) (Params r)).

(** The loop over a list of comparisons. *)
Lemma fold_related {A} rel (f : A → bool) (P : A → Prop) l :
  (∀ x, f x = true ↔ P x) →
  foldl (λ m x, if negb (rel =b RelationOr) then m && f x else m || f x) (negb (rel =b RelationOr)) l = true ↔
  related rel P l.
Proof.
  intros HP. unfold related. destruct (rel =b RelationOr); simpl.
  - assert (∀ m, foldl (λ m x, m || f x) m l = m || existsb f l) as ->.
    { induction l as [|x l IH]; intros m; simpl; [by rewrite orb_false_r|]. by rewrite IH, orb_assoc. }
    simpl. rewrite existsb_exists, list.Exists_exists. split; intros (x & Hx & E); exists x;
      (split; [by apply list_elem_of_In|by apply HP]).
  - assert (∀ m, foldl (λ m x, m && f x) m l = m && forallb f l) as ->.
    { induction l as [|x l IH]; intros m; simpl; [by rewrite andb_true_r|]. by rewrite IH, andb_assoc. }
    simpl. rewrite forallb_forall, list.Forall_forall. split; intros F x Hx; apply HP, F; by apply list_elem_of_In.
Qed.

Lemma compares_eq_spec v l : Common.compares_eq v l = true ↔ v ∈ l.
Proof.
  induction l as [|t l IH]; simpl; [by rewrite elem_of_nil|]. rewrite elem_of_cons.
  case_bool_decide; [naive_solver|]. rewrite IH. naive_solver.
Qed.
Lemma compares_ne_spec v l : Common.compares_ne v l = true ↔ v ∉ l.
Proof.
  induction l as [|t l IH]; simpl; [split; [intros _; apply not_elem_of_nil|done]|]. rewrite not_elem_of_cons.
  case_bool_decide; [naive_solver|]. rewrite IH. naive_solver.
Qed.
Lemma equals_ne : CompareEquals ≠ CompareNotEquals.
Proof. done. Qed.
Lemma compare_spec h c : Common.compare c (GetValue (Key c) h) = true ↔ sat_header h c.
Proof.
  unfold Common.compare, sat_header. pose proof equals_ne. repeat case_bool_decide; simpl; naive_solver congruence.
Qed.
Lemma compares_spec q c :
  Common.compares c (values (Key c) (pairs q)) = true ↔ sat_param q c.
Proof.
  unfold Common.compares, sat_param. pose proof equals_ne. repeat case_bool_decide; simpl.
  - rewrite compares_eq_spec. naive_solver congruence.
  - rewrite compares_ne_spec. naive_solver congruence.
  - naive_solver.
Qed.

(** The map of the parameters holds the values of each. *)
Lemma queryParams_values q k : default [] (Common.queryParams q !! k) = values k (pairs q).
Proof.
  unfold Common.queryParams, pairs, values.
  assert (∀ items m, default [] (foldl (λ (m : gmap bytes (list bytes)) item,
      match SplitN2 "="%byte item with
      | Some (k, v) => <[k := default [] (m !! k) ++ [v]]> m | None => m end) m items !! k) =
    default [] (m !! k) ++
      (base.filter (λ kv : bytes * bytes, kv.1 = k) (omap (SplitN2 "="%byte) items)).*2) as E.
  { induction items as [|x items IH]; intros m; simpl; [by rewrite app_nil_r|]. rewrite IH.
    destruct (SplitN2 "="%byte x) as [[k' v]|]; [|done]. rewrite filter_cons. simpl.
    destruct (decide (k' = k)) as [->|N]; [|by rewrite lookup_insert_ne].
    rewrite lookup_insert_eq. simpl. by rewrite <- app_assoc. }
  by rewrite E, lookup_empty.
Qed.

Lemma guarded {A} (l : list A) b (P : Prop) : (b = true ↔ P) →
  (0 <? zlen l) && negb b = false ↔ l = [] ∨ P.
Proof.
  intros E. destruct l as [|x l]; [naive_solver|]. rewrite zlen_cons.
  pose proof (zlen_nonneg l). rewrite (proj2 (Z.ltb_lt 0 _)) by lia. simpl.
  rewrite negb_false_iff, E. naive_solver.
Qed.
Lemma two_guards (b c : bool) : (if b then false else if c then false else true) = true ↔ b = false ∧ c = false.
Proof. destruct b, c; naive_solver. Qed.

Lemma common_matcher h r : Common.MatcherMatch h r = true ↔ says (ParamsRelation r) h r.
Proof.
  unfold Common.MatcherMatch, says. cbv zeta. rewrite two_guards.
  rewrite (guarded (RHeaders r) _ (related (ParamsRelation r) (sat_header h) (RHeaders r))).
  2:{ apply fold_related. intros c. apply compare_spec. }
  rewrite (guarded (Params r) _ (related (ParamsRelation r)
    (sat_param (GetValue StrikeHeaderQueryStringKey h)) (Params r))); [done|].
  apply fold_related. intros c. rewrite queryParams_values. apply compares_spec.
Qed.
(** The twin, from its other relation on the headers. *)
Lemma auth_matcher h r : Auth.MatcherMatch h r = true ↔ says (HeadersRelation r) h r.
Proof.
  unfold Auth.MatcherMatch, says. cbv zeta. rewrite two_guards.
  rewrite (guarded (RHeaders r) _ (related (HeadersRelation r) (sat_header h) (RHeaders r))).
  2:{ apply fold_related. intros c. apply compare_spec. }
  rewrite (guarded (Params r) _ (related (ParamsRelation r)
    (sat_param (GetValue StrikeHeaderQueryStringKey h)) (Params r))); [done|].
  apply fold_related. intros c. pose proof (queryParams_values (GetValue StrikeHeaderQueryStringKey h) (Key c)) as E.
  change (Common.queryParams ?q) with (Auth.queryParams q) in E. rewrite E. apply compares_spec.
Qed.
End match_facts.

(** C30: what a rule matches, as a formula.  One of its resources has no conditions
    on headers or they hold, and no conditions on parameters or they hold; they
    hold all, or one of them where the relation is OR.  A parameter is compared
    with all the values it has in the query string.  The common filter relates the
    conditions on headers by ParamsRelation, the auth filter by HeadersRelation. *)
Theorem rule_matches h rs :
  (Common.EngineMatch h rs = true ↔ Exists (λ r, match_facts.says (ParamsRelation r) h r) rs) ∧
  (Auth.EngineMatch h rs = true ↔ Exists (λ r, match_facts.says (HeadersRelation r) h r) rs).
Proof.
  split; (induction rs as [|r rs IH]; simpl; [by rewrite List.Exists_nil|]; rewrite List.Exists_cons, <- IH).
  - rewrite <- match_facts.common_matcher. destruct (Common.MatcherMatch h r); naive_solver.
  - rewrite <- match_facts.auth_matcher. destruct (Auth.MatcherMatch h r); naive_solver.
Qed.

(** ** Query strings *)

Module query_facts.
(** A query string written from its parameters. *)
Definition item (kv : bytes * bytes) : bytes := kv.1 ++ "="%byte :: kv.2.
Fixpoint query (kvs : list (bytes * bytes)) : bytes :=
  match kvs with
  | [] => []
  | [kv] => item kv
  | kv :: kvs => item kv ++ "&"%byte :: query kvs
  end.
Definition plain (kv : bytes * bytes) : Prop :=
  "="%byte ∉ kv.1 ∧ "&"%byte ∉ kv.1 ∧ "&"%byte ∉ kv.2.

Lemma item_plain kv : plain kv → "&"%byte ∉ item kv ∧ SplitN2 "="%byte (item kv) = Some kv.
Proof.
  intros (N1 & N2 & N3). unfold item. split.
  - rewrite elem_of_app, elem_of_cons. naive_solver.
  - unfold SplitN2. rewrite IndexByte_app by done. simpl.
    rewrite take_app_length, drop_app_ge by lia. replace (S (length kv.1) - length kv.1)%nat with 1%nat by lia.
    by destruct kv.
Qed.
End query_facts.

(** The parameters of a query string.  Keys without = and &, and values without
    &, written as a query string and read back, are the same in the same order: so
    that each key has its values, an = in a value included. *)
Theorem query_roundtrip kvs k :
  Forall query_facts.plain kvs →
  match_facts.pairs (query_facts.query kvs) = kvs ∧
  default [] (Common.queryParams (query_facts.query kvs) !! k) = match_facts.values k kvs.
Proof.
  intros F. rewrite match_facts.queryParams_values.
  assert (match_facts.pairs (query_facts.query kvs) = kvs) as E; [|by rewrite E].
  unfold match_facts.pairs. induction F as [|kv kvs [N P]%query_facts.item_plain _ IH]; [done|].
  destruct kvs as [|kv' kvs].
  - simpl. rewrite Split_none by done. simpl. by rewrite P.
  - cbn [query_facts.query]. rewrite Split_app by done. cbn [omap list_omap]. rewrite P. by f_equal.
Qed.

Lemma query_roundtrip_witness :
  let kvs := [(bs "a", bs "1=2"); (bs "b", []); (bs "a", bs "3")] in
  query_facts.query kvs = bs "a=1=2&b=&a=3" ∧
  default [] (Common.queryParams (bs "a=1=2&b=&a=3") !! bs "a") = [bs "1=2"; bs "3"].
Proof.
  intros kvs. split; [reflexivity|].
  apply (query_roundtrip kvs (bs "a")).
  repeat constructor; apply (bool_decide_unpack _); vm_compute; exact I.
Defined.

(** ** Rules *)

Module rule_facts.
Section rules.
Context {C : Type} `{Cache C Bucket.Limiter} (oor : Z) (empty : C).
Import Common.
Abbreviation NewF := (NewRuleEngineFactory (C := C) empty).

Lemma factory_last cs c : ruleVar (NewF (cs ++ [c])) = Some c.1.
Proof. unfold NewRuleEngineFactory. rewrite foldl_app. by destruct c. Qed.

Lemma loop_quiet rc i rds h (es : list (Limiter C)) :
  EngineMatch h (ResourceConfigs rc) = false → invoke_loop oor rc i rds h es = (true, es).
Proof.
  intros E. revert i. induction es as [|e es IH]; intros i; [done|]. simpl. unfold ruleInvoke. rewrite E. by rewrite IH.
Qed.
Lemma loop_monitor rc i rds h (es : list (Limiter C)) :
  RunMode rc ≠ RunModeControl → (invoke_loop oor rc i rds h es).1 = true.
Proof.
  intros N. revert i. induction es as [|e es IH]; intros i; [done|]. simpl. unfold ruleInvoke.
  specialize (IH (S i)). destruct (EngineMatch h (ResourceConfigs rc)).
  - destruct (OverLimit _ _ _ e) as [over e']. rewrite bool_decide_eq_false_2 by done.
    destruct over; simpl; by destruct (invoke_loop _ _ _ _ _ es).
  - by destruct (invoke_loop _ _ _ _ _ es).
Qed.

(** The answers to a run of requests. *)
Fixpoint invokes (reqs : list ((nat → reading) * CommonHeader)) (f : RuleEngineFactory C) : list bool :=
  match reqs with
  | [] => []
  | (rds, h) :: reqs => let '(ok, f) := invoke oor rds h f in ok :: invokes reqs f
  end.
(** The times of the requests that a rule matches, and of those that pass too. *)
Definition times (rc : RuleConfig) (reqs : list ((nat → reading) * CommonHeader)) : list Z :=
  omap (λ '(rds, h), if EngineMatch h (ResourceConfigs rc) then Some (rSince (rds 0%nat)) else None) reqs.
Definition passed (rc : RuleConfig) (reqs : list ((nat → reading) * CommonHeader)) (oks : list bool) : list Z :=
  omap (λ '((rds, h), ok),
    if EngineMatch h (ResourceConfigs rc) && ok then Some (rSince (rds 0%nat)) else None) (zip reqs oks).

Lemma invokes_grants rc reqs l : RunMode rc = RunModeControl →
  let f := MkFactory (Some rc) [LQPS l] in
  passed rc reqs (invokes reqs f) = qps_facts.grants (times rc reqs) l ∧
  Forall2 (λ rq ok, EngineMatch rq.2 (ResourceConfigs rc) = false → ok = true) reqs (invokes reqs f).
Proof.
  intros Hm. revert l. induction reqs as [|[rds h] reqs IH]; intros l; [split; [done|constructor]|].
  cbv zeta in *. cbn [invokes]. unfold invoke. cbn [ruleVar ruleEngines invoke_loop].
  unfold ruleInvoke, times. cbn [omap list_omap]. destruct (EngineMatch h (ResourceConfigs rc)) eqn:Em.
  - unfold OverLimit, TryAcquire. destruct (QPS.TryAcquire (rSince (rds 0%nat)) l) as [ok l'] eqn:Eq.
    rewrite Hm, bool_decide_eq_true_2 by done. destruct (IH l') as [IH1 IH2].
    destruct ok; cbn [negb]; (split; [|constructor; [simpl; congruence|exact IH2]]);
      unfold passed in *; cbn [zip zip_with omap list_omap qps_facts.grants]; rewrite Em, Eq; cbn [andb app];
      [by f_equal|done].
  - destruct (IH l) as [IH1 IH2]. split; [|by constructor].
    unfold passed in *. cbn [zip zip_with omap list_omap]. rewrite Em. cbn [andb]. done.
Qed.

Lemma factory_qps rc since l :
  Enable rc = true → LimitStrategy (Limits rc) = QPSStrategy →
  QPS.NewQPSLimiter (MaxAllows (Limits rc)) (PeriodMs (Limits rc)) since = Some l →
  NewF [(rc, since)] = MkFactory (Some rc) [LQPS l].
Proof.
  intros En Es El. unfold NewRuleEngineFactory. simpl. rewrite En. unfold NewRuleEngine, NewLimitEngine.
  rewrite Es. simpl. by rewrite El.
Qed.
End rules.
End rule_facts.

(** The rules of one filter share their configuration.  The rule that a filter
    applies is the last of its list, enabled or not, with each limiter that was
    made: a request that the last rule does not match passes, however many of the
    other rules match it, and none is refused when the last rule only monitors. *)
Theorem rules_share_last {C} `{Cache C Bucket.Limiter} oor (empty : C) cs rc since rds h :
  let f := Common.NewRuleEngineFactory empty (cs ++ [(rc, since)]) in
  (Common.EngineMatch h (Common.ResourceConfigs rc) = false → Common.invoke oor rds h f = (true, f)) ∧
  (Common.RunMode rc ≠ RunModeControl → (Common.invoke oor rds h f).1 = true).
Proof.
  intros f. unfold Common.invoke. subst f.
  assert (∀ f : Common.RuleEngineFactory C, Common.MkFactory (Common.ruleVar f) (Common.ruleEngines f) = f)
    as Eta by by intros [].
  set (f := Common.NewRuleEngineFactory empty (cs ++ [(rc, since)])).
  pose proof (rule_facts.factory_last empty cs (rc, since)) as El. fold f in El. simpl in El. split.
  - intros E. rewrite El, rule_facts.loop_quiet by done. rewrite <- El. by rewrite Eta.
  - intros N. rewrite El. pose proof (rule_facts.loop_monitor oor rc 0 rds h (Common.ruleEngines f) N) as Hm.
    by destruct (Common.invoke_loop oor rc 0 rds h (Common.ruleEngines f)).
Qed.

(** Two rules, the first with no permits at all, the second for another path. *)
Definition rule_at (path : bytes) (mode : bytes) (m : Z) : Common.RuleConfig :=
  Common.MkRule 1 0 [] [] true mode (MkLimit QPSStrategy (float64 1) 1 m [])
    [MkResource [MkComparison CompareEquals StrikeHeaderPathKey path] RelationAnd [] RelationAnd].
Definition request_at (path : bytes) : CommonHeader := <[StrikeHeaderPathKey := path]> ∅.
Definition at_time (t : Z) : nat → reading := λ _, MkReading t (UserQPS.MkClock t t t t).

Lemma rules_share_last_witness :
  let a := rule_at (bs "/a") RunModeControl 0 in
  let b := rule_at (bs "/b") RunModeControl 5 in
  let h := request_at (bs "/a") in
  (Common.invoke 0 (at_time 7) h (Common.NewRuleEngineFactory (∅ : gmap bytes (Bucket.Limiter * Z)) [(a, 0)])).1 = false ∧
  (Common.invoke 0 (at_time 7) h (Common.NewRuleEngineFactory (∅ : gmap bytes (Bucket.Limiter * Z)) [(a, 0); (b, 0)])).1 = true.
Proof.
  intros a b h. split; [vm_compute; reflexivity|].
  pose proof (proj1 (rules_share_last 0 (∅ : gmap bytes (Bucket.Limiter * Z)) [(a, 0)] b 0 (at_time 7) h)
    ltac:(vm_compute; reflexivity)) as E. exact (f_equal fst E).
Defined.

(** C24: a filter with one rule, by periods.  Requests that the rule does not match
    pass; of the others there pass those that the limiter grants, so that in any
    stretch of time as long as a period at most twice the configured number do. *)
Theorem rule_limits {C} `{Cache C Bucket.Limiter} oor (empty : C) rc since l reqs a :
  Common.Enable rc = true → Common.RunMode rc = RunModeControl →
  LimitStrategy (Common.Limits rc) = QPSStrategy →
  let m := MaxAllows (Common.Limits rc) in
  let ms := PeriodMs (Common.Limits rc) in
  QPS.NewQPSLimiter m ms since = Some l →
  0 < m < 2 ^ 62 → ms < 10 ^ 12 → 0 ≤ since < 2 ^ 61 →
  let ts := rule_facts.times rc reqs in
  qps_facts.rising since ts → Forall (λ t, t < 2 ^ 61) ts → zlen ts < 2 ^ 62 →
  let oks := rule_facts.invokes oor reqs (Common.NewRuleEngineFactory empty [(rc, since)]) in
  Forall2 (λ rq ok, Common.EngineMatch rq.2 (Common.ResourceConfigs rc) = false → ok = true) reqs oks ∧
  rule_facts.passed rc reqs oks = qps_facts.grants ts l ∧
  qps_facts.within a (ms * Millisecond) (rule_facts.passed rc reqs oks) ≤ 2 * m.
Proof.
  intros En Hr Hs m ms El Hm Hms Hsi ts Hri Ht Hl oks. subst oks.
  rewrite (rule_facts.factory_qps empty rc since l) by done.
  destruct (rule_facts.invokes_grants oor rc reqs l Hr) as [E F]. split; [done|]. split; [done|].
  rewrite E. by apply (qps_facts.qps_in_window m ms since l a ts).
Qed.

Lemma rule_limits_witness :
  let rc := rule_at (bs "/a") RunModeControl 1 in
  let reqs := [(at_time 5, request_at (bs "/a")); (at_time 6, request_at (bs "/b"));
               (at_time 7, request_at (bs "/a")); (at_time 1000001, request_at (bs "/a"))] in
  let oks := rule_facts.invokes 0 reqs
    (Common.NewRuleEngineFactory (∅ : gmap bytes (Bucket.Limiter * Z)) [(rc, 0)]) in
  oks = [true; true; false; true] ∧
  qps_facts.within 5 (1 * Millisecond) (rule_facts.passed rc reqs oks) ≤ 2 * 1.
Proof.
  intros rc reqs oks. split; [vm_compute; reflexivity|].
  refine (proj2 (proj2 (rule_limits 0 (∅ : gmap bytes (Bucket.Limiter * Z)) rc 0
    (QPS.Mk 1 1000000 1000000 0) reqs 5 _ _ _ _ _ _ _ _ _ _)));
    [vm_compute; reflexivity|vm_compute; reflexivity|vm_compute; reflexivity|vm_compute; reflexivity
    |simpl; lia|simpl; lia|lia| | |vm_compute; reflexivity].
  all: replace (rule_facts.times rc reqs) with [5; 7; 1000001] by (vm_compute; reflexivity).
  - simpl. lia.
  - repeat constructor; lia.
Defined.

(** ** Tokens *)

Module auth_facts.
Section auth.
Context {K : Type} (parse_key : bytes → option K) (decode_token : K → bytes → Auth.token).
Import Auth.

(** A valid token in the headers that names [orgi]. *)
Definition valid (rc : RuleConfig) (h : CommonHeader) (orgi : bytes) : Prop :=
  ∃ key tok, parse_key (PublicKey (Auths rc)) = Some key ∧ Get (TokenKey (Auths rc)) h = Some tok ∧
    decode_token key tok = TokenClaims (Some orgi).

Lemma factory_fold cs f rc : NewRuleEngineFactory (cs ++ [rc]) = f →
  ruleVar f = Some rc ∧ (Exists (λ c, Enable c = true) (cs ++ [rc]) → ruleEngines f ≠ 0%nat).
Proof.
  intros <-. unfold NewRuleEngineFactory. split; [by rewrite foldl_app|].
  generalize (MkFactory None 0). induction (cs ++ [rc]) as [|c l IH]; intros f E; [by inversion E|].
  simpl. inversion E as [? ? Ec|? ? El]; subst; [|by apply IH]. rewrite Ec.
  assert (∀ l f, ruleEngines f ≠ 0%nat → ruleEngines (foldl (λ f rc,
    MkFactory (Some rc) (if Enable rc then S (ruleEngines f) else ruleEngines f)) f l) ≠ 0%nat) as G.
  { clear. induction l as [|c l IH]; intros f N; [done|]. simpl. apply IH. simpl. by destruct (Enable c). }
  by apply G.
Qed.

Lemma ruleInvoke_pass rc h h' :
  ruleInvoke parse_key decode_token rc h = Ok (true, h') →
  if EngineMatch h (ResourceConfigs rc) then ∃ orgi, valid rc h orgi ∧ h' = Set_ StrikeHeaderUsername orgi h
  else h' = h.
Proof.
  unfold ruleInvoke, decode. destruct (EngineMatch h (ResourceConfigs rc)); [|congruence].
  destruct (Get (TokenKey (Auths rc)) h) as [tok|] eqn:Et; [|congruence].
  destruct (parse_key (PublicKey (Auths rc))) as [key|] eqn:Ek; [|congruence].
  destruct (decode_token key tok) as [|[orgi|]] eqn:Ed; [congruence| |congruence].
  intros [= <-]. exists orgi. split; [|done]. by exists key, tok.
Qed.
Lemma ruleInvoke_refused rc h h' :
  ruleInvoke parse_key decode_token rc h = Ok (false, h') →
  h' = h ∧ EngineMatch h (ResourceConfigs rc) = true ∧ ∀ orgi, ¬ valid rc h orgi.
Proof.
  unfold ruleInvoke, decode, valid. destruct (EngineMatch h (ResourceConfigs rc)); [|congruence].
  destruct (Get (TokenKey (Auths rc)) h) as [tok|] eqn:Et; [|naive_solver congruence].
  destruct (parse_key (PublicKey (Auths rc))) as [key|] eqn:Ek; [|congruence].
  destruct (decode_token key tok) as [|[orgi|]] eqn:Ed; [naive_solver congruence|congruence|congruence].
Qed.

(** A rule only changes the name of the user. *)
Lemma loop_frame n rc h r h' k : k ≠ StrikeHeaderUsername →
  invoke_loop parse_key decode_token n rc h = Ok (r, h') → h' !! k = h !! k.
Proof.
  intros N. revert h. induction n as [|n IH]; intros h E; simpl in E; [congruence|].
  destruct (ruleInvoke parse_key decode_token rc h) as [[[] h1]|] eqn:E1; [| |done].
  - apply ruleInvoke_pass in E1. apply IH in E. rewrite E.
    destruct (EngineMatch h (ResourceConfigs rc)); [|congruence]. destruct E1 as (orgi & _ & ->).
    unfold Set_. by rewrite lookup_insert_ne.
  - apply ruleInvoke_refused in E1 as [-> _]. congruence.
Qed.
End auth.
End auth_facts.

(** C22: the auth filter lets no request pass that its rule matches and that carries
    no valid token.  With any list of rules of which one is enabled, [rc] the last:
    what passes has such a token or is not matched, and keeps its headers but for
    the name of the user; with one rule, the name is that of the token, and what is
    refused has no valid token and is answered with 401. *)
Theorem auth_guards {K} (parse_key : bytes → option K) decode_token cs rc h :
  Exists (λ c, Auth.Enable c = true) (cs ++ [rc]) →
  let f := Auth.NewRuleEngineFactory (cs ++ [rc]) in
  let answer := Auth.OnReceiveHeaders parse_key decode_token f h in
  let matched := Auth.EngineMatch h (Auth.ResourceConfigs rc) in
  (∀ ops h', answer = Ok (ops, Continue, h') →
     ops = [] ∧ (matched = true → ∃ orgi, auth_facts.valid parse_key decode_token rc h orgi) ∧
     (∀ k, k ≠ StrikeHeaderUsername → h' !! k = h !! k)) ∧
  (cs = [] → ∀ ops s h', answer = Ok (ops, s, h') →
     if s is Continue then
       if matched then ∃ orgi, auth_facts.valid parse_key decode_token rc h orgi ∧
                               h' = Set_ StrikeHeaderUsername orgi h
       else h' = h
     else matched = true ∧ (∀ orgi, ¬ auth_facts.valid parse_key decode_token rc h orgi) ∧
          ops = [FAppendHeaders (Some (Set_ HeaderStatus (Itoa 401) h)) true]).
Proof.
  intros Ex f answer matched.
  destruct (auth_facts.factory_fold cs f rc eq_refl) as [Ev En]. specialize (En Ex).
  unfold answer, Auth.OnReceiveHeaders, Auth.invoke, matched. rewrite Ev. split.
  - intros ops h' E. destruct (Auth.ruleEngines f) as [|n]; [done|].
    destruct (Auth.invoke_loop parse_key decode_token (S n) rc h) as [[[] h1]|] eqn:El; [|congruence|congruence].
    injection E as <- <-. split; [done|]. split; [|intros k N; by eapply auth_facts.loop_frame].
    intros Em. cbn in El. destruct (Auth.ruleInvoke parse_key decode_token rc h) as [[[] h2]|] eqn:Ei; [|congruence|congruence].
    apply auth_facts.ruleInvoke_pass in Ei. rewrite Em in Ei. destruct Ei as (orgi & V & _). by exists orgi.
  - intros -> ops s h' E. assert (Auth.ruleEngines f = 1%nat) as Hn.
    { simpl in Ex. inversion Ex as [? ? He|? ? He]; subst; [|by inversion He].
      unfold f, Auth.NewRuleEngineFactory. simpl. by rewrite He. }
    rewrite Hn in E. cbn in E.
    destruct (Auth.ruleInvoke parse_key decode_token rc h) as [[[] h2]|] eqn:Ei; [| |congruence].
    + injection E as <- <- <-. by apply auth_facts.ruleInvoke_pass in Ei.
    + injection E as <- <- <-. by apply auth_facts.ruleInvoke_refused in Ei as (-> & ? & ?).
Qed.

Definition auth_rule (path : bytes) : Auth.RuleConfig :=
  Auth.MkRule 1 0 [] [] true RunModeControl (Auth.MkAuth (bs "pem") (bs "token"))
    [MkResource [MkComparison CompareEquals StrikeHeaderPathKey path] RelationAnd [] RelationAnd].
(** A library for which the only valid token is abc, of the user joe. *)
Definition only_abc (_ : unit) (tok : bytes) : Auth.token :=
  if tok =b bs "abc" then Auth.TokenClaims (Some (bs "joe")) else Auth.TokenErr.

(** What an answer does, without the headers. *)
Definition decision {E A B} (r : res E (A * status * B)) : option status :=
  match r with Ok (_, s, _) => Some s | Err _ => None end.

Lemma auth_guards_witness :
  let h := request_at (bs "/a") in
  let h1 := Set_ (bs "token") (bs "abc") h in
  let answer := Auth.OnReceiveHeaders (λ _, Some ()) only_abc (Auth.NewRuleEngineFactory [auth_rule (bs "/a")]) in
  decision (answer h) = Some Stop ∧ decision (answer h1) = Some Continue ∧
  ∃ orgi, auth_facts.valid (λ _, Some ()) only_abc (auth_rule (bs "/a")) h1 orgi.
Proof.
  intros h h1 answer. split; [vm_compute; reflexivity|].
  assert (decision (answer h1) = Some Continue) as Ed by (vm_compute; reflexivity). split; [exact Ed|].
  assert (Exists (λ c, Auth.Enable c = true) ([] ++ [auth_rule (bs "/a")])) as Ex by (left; reflexivity).
  pose proof (proj1 (auth_guards (λ _, Some ()) only_abc [] (auth_rule (bs "/a")) h1 Ex)) as G.
  change (Auth.OnReceiveHeaders _ _ _ h1) with (answer h1) in G.
  destruct (answer h1) as [[[ops s] h']|]; [|discriminate]. injection Ed as ->.
  apply (G ops h' eq_refl). vm_compute. reflexivity.
Defined.

(** ** In the proxy *)

Module refuse_facts.
Section refuse.
Context {H : Type} (set_status : Z → H → H) (no_headers : H) (env : @proxyEnv).

(** A filter that answers [h] with [h'] and stops. *)
Definition refuses (g : receiverFilter (H := H)) (h h' : H) : Prop :=
  ∀ b, OnReceiveHeadersF g (Some h) b = ([FAppendHeaders (Some h') true], Stop).

(** The stop of a filter is the end of the chain. *)
Lemma refused_chain g fs h h' e s dj uj tr :
  refuses g h h' → receiverFilters s = mkActive 0 false false false g :: fs →
  responseSender s = true → downstreamCleaned s = false → hasUpstreamRequest s = false →
  upstreamReset s = false → downstreamReset s = false → hasContext s = true → reuseBuffer s = true →
  element s = true →
  (e = true → downstreamReqDataBuf s = None) →
  ∃ s' r', ReceiveHeaders set_status no_headers env (Some h) e (mkState s zeroRequest dj uj tr) =
    (Ok (), mkState s' r' dj uj (tr ++ [ERespHeaders (Some h') true] ++
      ((λ f, EDestroy (index f)) <$> receiverFilters s) ++ [EDelete] ++ (if e then [EGive] else []))) ∧
    (e = false → downstreamCleaned s' = true).
Proof.
  intros G Hf Hr Hc Hu H1 H2 H3 H4 H5 Hd. unfold ReceiveHeaders. erewrite bind_eq by reflexivity.
  unfold doReceiveHeaders, runReceiveHeadersFilters.
  set (s1 := set_filterStage (Z.lor (filterStage s) DecodeHeaders) (set_downstreamRecvDone e s)).
  set (s2 := set_downstreamRespHeaders (Some h') s1).
  set (s3 := if e then s2 else set_reuseBuffer false s2).
  set (tr1 := tr ++ [ERespHeaders (Some h') true]).
  assert (downstreamCleaned s3 = false) as Hc3 by (unfold s3; by destruct e).
  destruct (cleanStream_eq (mkState s3 zeroRequest dj uj tr1) Hc3) as (s4 & r4 & E4 & G4). cbn [ds] in G4.
  cbn [downJobs upJobs trace] in E4.
  assert (filterOps_run set_status no_headers [FAppendHeaders (Some h') true] (mkState s1 zeroRequest dj uj tr) =
    (Ok (), mkState s4 r4 dj uj (tr1 ++ cleanTrace (mkState s3 zeroRequest dj uj tr1)))) as E.
  { cbn [filterOps_run filterOp_run]. erewrite bind_eq; [reflexivity|]. erewrite bind_eq by reflexivity.
    unfold doAppendHeaders. erewrite bind_eq by reflexivity. cbn. rewrite Hr. erewrite bind_eq by reflexivity.
    cbn [when]. unfold endStream. erewrite bind_eq by reflexivity. cbn. rewrite Hr.
    destruct e; erewrite bind_eq by reflexivity; exact E4. }
  assert (cleanTrace (mkState s3 zeroRequest dj uj tr1) =
    ((λ f, EDestroy (index f)) <$> receiverFilters s) ++ [EDelete] ++ (if e then [EGive] else [])) as Et.
  { unfold cleanTrace, resets, giveable, s3, s2, s1. destruct e; cbn;
      rewrite ?Hu, ?H1, ?H2, ?H3, ?H4, ?H5, ?Hd by done; reflexivity. }
  rewrite Et in E. unfold tr1 in E. rewrite <- app_assoc in E. eexists _, _. split.
  - erewrite bind_eq; cycle 1.
    { erewrite bind_eq by reflexivity. cbn [headers_loop ds receiverFilters set_ds set_downstreamRecvDone].
      rewrite Hf. cbn [length start headers_loop]. erewrite bind_eq by reflexivity.
      cbn [ds receiverFilters set_ds set_downstreamRecvDone]. rewrite Hf. cbn [lookup list_lookup filter].
      unfold enterStage. erewrite bind_eq by reflexivity. rewrite G. erewrite bind_eq by exact E.
      unfold leaveStage. erewrite bind_eq by reflexivity. cbn [handleHeaderStatus].
      erewrite bind_eq by reflexivity. reflexivity. }
    reflexivity.
  - intros ->. unfold giveable, s3 in G4. cbn in G4. destruct G4 as [G4 _]. exact G4.
Qed.

Lemma refused_request id g fs h h' d p :
  refuses g h h' →
  let '(rs, st) := run set_status no_headers env [IReceive (Some h) d None p; WDown] (NewStreamDetect id (g :: fs)) in
  rs = [Ok (); Ok ()] ∧ downJobs st = [] ∧ upJobs st = [] ∧
  trace st = [ERespHeaders (Some h') true] ++ (EDestroy <$> seq 0 (S (length fs))) ++ [EDelete] ++
    (if no_body d then [EGive] else []).
Proof.
  intros G. cbn [run]. rewrite request_asked. cbn [step]. erewrite bind_eq by reflexivity. cbn [downJobs].
  erewrite bind_eq by reflexivity. cbn [runJob]. unfold Receive. erewrite bind_eq by reflexivity. cbv zeta.
  destruct (refused_chain g (imap (λ i f, mkActive (S i) false false false f) fs) h h' (no_body d)
    (askedStream id (g :: fs) (Some h) d) [] [] [] G) as (s' & r' & E & Ec); try reflexivity.
  { by destruct d. }
  assert ((λ f, EDestroy (index f)) <$> receiverFilters (askedStream id (g :: fs) (Some h) d) =
    (EDestroy (H := H) <$> seq 0 (S (length fs)))) as Ed.
  { cbn [askedStream receiverFilters set_downstreamReqHeaders set_downstreamReqDataBuf set_receiverFilters].
    change (λ f, EDestroy (index f)) with (EDestroy (H := H) ∘ index (H := H)).
    rewrite (list_fmap_compose index EDestroy), actives_index. reflexivity. }
  rewrite Ed in E. destruct d as [d|].
  - erewrite bind_eq by exact E. cbn [when]. erewrite bind_eq; cycle 1.
    { cbn. erewrite bind_eq by reflexivity. unfold ReceiveData, processDone.
      erewrite bind_eq by (erewrite bind_eq by reflexivity; reflexivity). cbn.
      rewrite Ec by done. rewrite orb_true_r. reflexivity. }
    by cbn.
  - erewrite bind_eq by exact E. by cbn.
Qed.
End refuse.

(** The filters of this file as filters of the proxy. *)
Definition common_filter {C} `{Cache C Bucket.Limiter} (oor : Z) (rds : nat → reading)
    (f : Common.RuleEngineFactory C) : receiverFilter (H := CommonHeader) :=
  mkFilter (λ h _, (Common.OnReceiveHeaders oor rds (default ∅ h) f).1) (λ _, ([], Continue)).
End refuse_facts.

(** C15: a request over its limit is not forwarded.  When the common filter comes
    first and its rules refuse the request, the client is answered with 509 and
    nothing else, also when there is a body; no upstream is asked for a stream; the
    filters are destroyed and the stream ends. *)
Theorem refused_not_forwarded {C} `{Cache C Bucket.Limiter} (set_status : Z → CommonHeader → CommonHeader)
    (env : @proxyEnv) (oor : Z) (rds : nat → reading) (f : Common.RuleEngineFactory C) (id : Z) (fs : list (receiverFilter (H := CommonHeader)))
    (h : CommonHeader) (d : option bytes) (p : bool) :
  (Common.invoke oor rds h f).1 = false →
  let g := refuse_facts.common_filter (C := C) oor rds f in
  let '(rs, st) := run set_status ∅ env [IReceive (Some h) d None p; WDown] (NewStreamDetect id (g :: fs)) in
  rs = [Ok (); Ok ()] ∧ downJobs st = [] ∧ upJobs st = [] ∧
  trace st = [ERespHeaders (Some (<[HeaderStatus := Itoa 509]> h)) true] ++
    (EDestroy <$> seq 0 (S (length fs))) ++ [EDelete] ++ (if no_body d then [EGive] else []).
Proof.
  intros E g. apply refuse_facts.refused_request. intros b. unfold g. simpl. unfold Common.OnReceiveHeaders.
  destruct (Common.invoke oor rds h f) as [ok f']. simpl in E. by subst.
Qed.

Lemma refused_not_forwarded_witness :
  let f := Common.NewRuleEngineFactory (∅ : gmap bytes (Bucket.Limiter * Z)) [(rule_at (bs "/a") RunModeControl 0, 0)] in
  let h := request_at (bs "/a") in
  let g := refuse_facts.common_filter 0 (at_time 3) f in
  trace (run (λ _ h, h) ∅ (Proxy.example.env None) [IReceive (Some h) (Some (bs "x")) None false; WDown]
    (NewStreamDetect 1 [g])).2 =
  [ERespHeaders (Some (<[HeaderStatus := Itoa 509]> h)) true; EDestroy 0; EDelete].
Proof.
  intros f h g.
  pose proof (refused_not_forwarded (λ _ h, h) (Proxy.example.env None) 0 (at_time 3) f 1 [] h (Some (bs "x")) false
    ltac:(vm_compute; reflexivity)) as R. fold g in R. cbv zeta in R. fold g in R.
  destruct (run _ _ _ _ _) as [rs st]. exact (proj2 (proj2 (proj2 R))).
Defined.
