(* ===== verification/FilterManager.v ===== *)
(** * Filter chains of a connection

    src/pkg/network/filtermanager.go: the read filters of a connection, which are
    told of the connection once and of data each time some is read, in their order
    and until one stops; and the write filters.

    What the filters do to the connection is what the handlers of class
    [ReadFilter] say, on a state [S] of the connection that this file does not look
    into but for the length of the data that has been read (class [Readable]).  A
    filter that continues the chain from inside of one of its own handlers, or that
    adds filters from there, is not covered. *)

From S2P Require Import Prelude.

Inductive FilterStatus : Type := Continue | Stop.
#[export] Instance FilterStatus_eq_dec : EqDecision FilterStatus.
Proof. solve_decision. Defined.

(** A read filter of state [F] on a connection of state [S]. *)
Class ReadFilter (F S : Type) : Type := {
  OnNewConnection : F → S → FilterStatus * F * S;
  OnData : F → S → FilterStatus * F * S
}.
(** The length of GetReadBuffer(), 0 when there is none. *)
Class Readable (S : Type) : Type := readLen : S → Z.

Record activeReadFilter (F : Type) : Type := mkActive { index : nat; initialized : bool; filter : F }.
Arguments mkActive {F} index initialized filter.
Arguments index {F} _.
Arguments initialized {F} _.
Arguments filter {F} _.

(** [B] is the type of the buffers that are written; a write filter looks at them. *)
Record filterManager (F B : Type) : Type := mkManager {
  downstreamFilters : list (activeReadFilter F);
  upstreamFilters : list (list B → FilterStatus)
}.
Arguments mkManager {F B} downstreamFilters upstreamFilters.
Arguments downstreamFilters {F B} _.
Arguments upstreamFilters {F B} _.

(** A call of a filter, by its place in the chain. *)
Inductive call : Type := CNew (i : nat) | CData (i : nat).
#[export] Instance call_eq_dec : EqDecision call.
Proof. solve_decision. Defined.

Section manager.
Context {F B S : Type} `{ReadFilter F S, Readable S}.
Implicit Types (fm : filterManager F B) (fs : list (activeReadFilter F)) (s : S).

Definition newFilterManager : filterManager F B := mkManager [] [].
Definition AddReadFilter (rf : F) fm : filterManager F B :=
  mkManager (downstreamFilters fm ++ [mkActive 0 false rf]) (upstreamFilters fm).
Definition AddWriteFilter (wf : list B → FilterStatus) fm : filterManager F B :=
  mkManager (downstreamFilters fm) (upstreamFilters fm ++ [wf]).
Definition ListReadFilter fm : list F := filter <$> downstreamFilters fm.
Definition ListWriteFilters fm : list (list B → FilterStatus) := upstreamFilters fm.

(** The loop of onContinueReading, on the filters from place [i] on. *)
Fixpoint reading_loop (i : nat) fs s : list call * list (activeReadFilter F) * S :=
  match fs with
  | [] => ([], [], s)
  | uf :: fs =>
      let '(status, f, s) :=
        if initialized uf then (Continue, filter uf, s) else OnNewConnection (filter uf) s in
      let told := if initialized uf then [] else [CNew i] in
      match status with
      | Stop => (told, mkActive i true f :: fs, s)
      | Continue =>
          if 0 <? readLen s then
            let '(status, f, s) := OnData f s in
            match status with
            | Stop => (told ++ [CData i], mkActive i true f :: fs, s)
            | Continue =>
                let '(cs, fs, s) := reading_loop (Datatypes.S i) fs s in
                (told ++ [CData i] ++ cs, mkActive i true f :: fs, s)
            end
          else
            let '(cs, fs, s) := reading_loop (Datatypes.S i) fs s in
            (told ++ cs, mkActive i true f :: fs, s)
      end
  end.
(** [from] is the place of the filter that goes on, if one does. *)
Definition onContinueReading (from : option nat) fm s : list call * filterManager F B * S :=
  let i := match from with
           | None => 0%nat
           | Some k => match downstreamFilters fm !! k with
                       | Some uf => Datatypes.S (index uf)
                       | None => 0%nat
                       end
           end in
  let '(cs, fs, s) := reading_loop i (drop i (downstreamFilters fm)) s in
  (cs, mkManager (take i (downstreamFilters fm) ++ fs) (upstreamFilters fm), s).
Definition InitializeReadFilters fm s : bool * list call * filterManager F B * S :=
  if zlen (downstreamFilters fm) =? 0 then (false, [], fm, s)
  else let '(cs, fm, s) := onContinueReading None fm s in (true, cs, fm, s).
Definition ContinueReading (k : nat) fm s : list call * filterManager F B * S :=
  onContinueReading (Some k) fm s.
Definition OnRead fm s : list call * filterManager F B * S := onContinueReading None fm s.

Fixpoint writing_loop (wfs : list (list B → FilterStatus)) (bufs : list B) : FilterStatus :=
  match wfs with
  | [] => Continue
  | wf :: wfs => match wf bufs with Stop => Stop | Continue => writing_loop wfs bufs end
  end.
Definition OnWrite fm (bufs : list B) : FilterStatus := writing_loop (upstreamFilters fm) bufs.

(** What each handler keeps, a pass keeps. *)
Lemma reading_loop_keeps (P : S → Prop) i fs s :
  (∀ f s, P s → P (OnNewConnection f s).2) → (∀ f s, P s → P (OnData f s).2) →
  P s → P (reading_loop i fs s).2.
Proof.
  intros HN HD. revert i s. induction fs as [|uf fs IH]; intros i s Ps; [done|]. cbn [reading_loop].
  assert (P (if initialized uf then (Continue, filter uf, s) else OnNewConnection (filter uf) s).2) as P1
    by (destruct (initialized uf); [done|by apply HN]).
  destruct (if initialized uf then (Continue, _, _) else _) as [[[] f] s1]; [|done].
  assert (∀ s2, P s2 → P (let '(cs, fs, s) := reading_loop (Datatypes.S i) fs s2 in s)) as Hr.
  { intros s2 P2. specialize (IH (Datatypes.S i) s2 P2). by destruct (reading_loop (Datatypes.S i) fs s2) as [[cs fs'] s3]. }
  destruct (0 <? readLen s1).
  - pose proof (HD f s1 P1) as P2. destruct (OnData f s1) as [[[] f2] s2]; [|done].
    specialize (Hr s2 P2). by destruct (reading_loop (Datatypes.S i) fs s2) as [[cs fs'] s3].
  - specialize (Hr s1 P1). by destruct (reading_loop (Datatypes.S i) fs s1) as [[cs fs'] s3].
Qed.
Lemma continue_keeps (P : S → Prop) from fm s :
  (∀ f s, P s → P (OnNewConnection f s).2) → (∀ f s, P s → P (OnData f s).2) →
  P s → P (onContinueReading from fm s).2.
Proof.
  intros HN HD Ps. unfold onContinueReading. set (i := match from with None => _ | Some _ => _ end).
  pose proof (reading_loop_keeps P i (drop i (downstreamFilters fm)) s HN HD Ps) as Hr.
  by destruct (reading_loop i (drop i (downstreamFilters fm)) s) as [[cs fs] s'].
Qed.

(** ** A life of a chain *)

Inductive op : Type :=
| ORead                                  (** OnRead, or InitializeReadFilters *)
| OContinue (k : nat)                    (** ContinueReading of a filter *)
| OConn (g : S → S)                      (** anything that happens to the connection *)
| OAdd (rf : F).
Definition op_step (o : op) fm s : list call * filterManager F B * S :=
  match o with
  | ORead => OnRead fm s
  | OContinue k => ContinueReading k fm s
  | OConn g => ([], fm, g s)
  | OAdd rf => ([], AddReadFilter rf fm, s)
  end.
Fixpoint chain_run (os : list op) fm s : list call * filterManager F B * S :=
  match os with
  | [] => ([], fm, s)
  | o :: os =>
      let '(cs, fm, s) := op_step o fm s in
      let '(cs', fm, s) := chain_run os fm s in (cs ++ cs', fm, s)
  end.

(** What has been called, against the flags of the filters: [CNew i] once for the
    filters that are marked, before each [CData i]. *)
Definition newCount (i : nat) (cs : list call) : nat := length (base.filter (λ c, c = CNew i) cs).
Fixpoint data_ok (told : list nat) (cs : list call) : Prop :=
  match cs with
  | [] => True
  | CNew i :: cs => i ∉ told ∧ data_ok (i :: told) cs
  | CData i :: cs => i ∈ told ∧ data_ok told cs
  end.
Fixpoint told_after (told : list nat) (cs : list call) : list nat :=
  match cs with
  | [] => told
  | CNew i :: cs => told_after (i :: told) cs
  | CData _ :: cs => told_after told cs
  end.
(** [told] is the places of the filters that are marked. *)
Definition marks (told : list nat) (i : nat) fs : Prop :=
  ∀ k uf, fs !! k = Some uf → initialized uf = true ↔ (i + k)%nat ∈ told.

Lemma data_ok_app told cs cs' :
  data_ok told (cs ++ cs') ↔ data_ok told cs ∧ data_ok (told_after told cs) cs'.
Proof.
  revert told. induction cs as [|[i|i] cs IH]; intros told; simpl; [naive_solver| |]; rewrite IH; naive_solver.
Qed.
Lemma told_after_app told cs cs' : told_after told (cs ++ cs') = told_after (told_after told cs) cs'.
Proof. revert told. induction cs as [|[i|i] cs IH]; intros told; simpl; [done|apply IH|apply IH]. Qed.

(** A pass keeps the flags in step with what has been called. *)
Record pass_ok (told : list nat) (i : nat) fs (cs : list call) (fs' : list (activeReadFilter F)) : Prop := {
  po_data : data_ok told cs;
  po_marks : marks (told_after told cs) i fs';
  po_len : length fs' = length fs;
  po_frame : ∀ j, (j < i ∨ i + length fs ≤ j)%nat → j ∈ told_after told cs ↔ j ∈ told
}.

Lemma marks_cons told i uf fs :
  marks told i (uf :: fs) ↔ (initialized uf = true ↔ i ∈ told) ∧ marks told (Datatypes.S i) fs.
Proof.
  split.
  - intros M. split.
    + rewrite (M 0%nat uf eq_refl). by rewrite Nat.add_0_r.
    + intros k u E. rewrite (M (Datatypes.S k) u E). by rewrite Nat.add_succ_r.
  - intros [M0 M] [|k] u E; simpl in E; [injection E as <-|].
    + by rewrite Nat.add_0_r.
    + rewrite (M k u E). by rewrite Nat.add_succ_r.
Qed.

(** The step of a pass over the first filter: [cs0] is what it is called with. *)
Lemma pass_cons told i uf f fs cs0 cs fs' :
  data_ok told cs0 → i ∈ told_after told cs0 → (∀ j, j ≠ i → j ∈ told_after told cs0 ↔ j ∈ told) →
  pass_ok (told_after told cs0) (Datatypes.S i) fs cs fs' →
  pass_ok told i (uf :: fs) (cs0 ++ cs) (mkActive i true f :: fs').
Proof.
  intros D I Fr [P1 P2 P3 P4]. split.
  - by apply data_ok_app.
  - rewrite told_after_app. apply marks_cons. split; [|done]. simpl. split; [|done]. intros _. apply P4; [lia|done].
  - simpl. by rewrite P3.
  - intros j Hj. rewrite told_after_app, P4, Fr; [done|simpl in Hj; lia|simpl in Hj; lia].
Qed.
Lemma pass_nothing told i fs : marks told i fs → pass_ok told i fs [] fs.
Proof. by split. Qed.

Lemma first_told told i uf fs :
  marks told i (uf :: fs) →
  let cs := if initialized uf then [] else [CNew i] in
  data_ok told cs ∧ i ∈ told_after told cs ∧ (∀ j, j ≠ i → j ∈ told_after told cs ↔ j ∈ told) ∧
  data_ok told (cs ++ [CData i]) ∧ told_after told (cs ++ [CData i]) = told_after told cs.
Proof.
  intros [M _]%marks_cons. destruct (initialized uf); simpl; [by naive_solver|].
  assert (i ∉ told) as N by (intros I; by apply M in I).
  split; [done|]. split; [set_solver|]. split; [intros j Hj; set_solver|]. split; [|done].
  split; [done|]. split; [set_solver|done].
Qed.

Lemma marks_frame told told' i fs :
  (∀ j, (i ≤ j)%nat → j ∈ told' ↔ j ∈ told) → marks told i fs → marks told' i fs.
Proof. intros E M k u Hk. rewrite (M k u Hk). symmetry. apply E. lia. Qed.

Lemma reading_loop_ok told i fs s : marks told i fs →
  let '(cs, fs', _) := reading_loop i fs s in pass_ok told i fs cs fs'.
Proof.
  revert told i s. induction fs as [|uf fs IH]; intros told i s M; [by apply pass_nothing|].
  destruct (first_told told i uf fs M) as (D1 & I1 & Fr & D2 & E2).
  apply marks_cons in M as [M0 M]. cbn [reading_loop].
  set (told0 := if initialized uf then [] else [CNew i]) in *.
  assert (marks (told_after told told0) (Datatypes.S i) fs) as M'
    by (eapply marks_frame; [|exact M]; intros j Hj; apply Fr; lia).
  destruct (if initialized uf then (Continue, _, _) else _) as [[[] f] s1].
  - assert (marks (told_after told (told0 ++ [CData i])) (Datatypes.S i) fs) as M2 by by rewrite E2.
    assert (i ∈ told_after told (told0 ++ [CData i])) as I2 by by rewrite E2.
    assert (∀ j, j ≠ i → j ∈ told_after told (told0 ++ [CData i]) ↔ j ∈ told) as Fr2 by by rewrite E2.
    destruct (0 <? readLen s1).
    + destruct (OnData f s1) as [[[] f2] s2].
      * specialize (IH _ (Datatypes.S i) s2 M2). destruct (reading_loop (Datatypes.S i) fs s2) as [[cs fs'] s3].
        rewrite app_assoc. by eapply pass_cons.
      * rewrite <- (app_nil_r (told0 ++ [CData i])). eapply pass_cons; [done..|]. by apply pass_nothing.
    + specialize (IH _ (Datatypes.S i) s1 M'). destruct (reading_loop (Datatypes.S i) fs s1) as [[cs fs'] s3].
      by eapply pass_cons.
  - rewrite <- (app_nil_r told0). eapply pass_cons; [done..|]. by apply pass_nothing.
Qed.

Lemma marks_app told i fs fs' :
  marks told i (fs ++ fs') ↔ marks told i fs ∧ marks told (i + length fs) fs'.
Proof.
  revert i. induction fs as [|uf fs IH]; intros i; simpl.
  - rewrite Nat.add_0_r. unfold marks. split; [intros M; split; [by intros k u|done]|by intros [_ M]].
  - rewrite !marks_cons, IH. rewrite Nat.add_succ_r. naive_solver.
Qed.
Lemma marks_frame' told told' i fs :
  (∀ j, (i ≤ j < i + length fs)%nat → j ∈ told' ↔ j ∈ told) → marks told i fs → marks told' i fs.
Proof. intros E M k u Hk. rewrite (M k u Hk). apply lookup_lt_Some in Hk. symmetry. apply E. lia. Qed.

(** The invariant of a life: what is told is in the chain. *)
Definition chain_ok (told : list nat) fm : Prop :=
  marks told 0 (downstreamFilters fm) ∧ ∀ j, j ∈ told → (j < length (downstreamFilters fm))%nat.

Lemma continue_ok told from fm s : chain_ok told fm →
  let '(cs, fm', _) := onContinueReading from fm s in
  data_ok told cs ∧ chain_ok (told_after told cs) fm'.
Proof.
  intros [M L]. unfold onContinueReading. set (i := match from with None => _ | Some _ => _ end).
  rewrite <- (take_drop i (downstreamFilters fm)) in M. apply marks_app in M as [M1 M2]. simpl in M2.
  rewrite length_take in M2.
  destruct (decide (i ≤ length (downstreamFilters fm))%nat) as [Hi|Hi].
  2:{ rewrite drop_ge by lia. simpl. split; [done|]. rewrite app_nil_r, take_ge by lia. split; [|done].
      simpl. rewrite take_ge in M1 by lia. done. }
  rewrite Nat.min_l in M2 by done.
  pose proof (reading_loop_ok told i (drop i (downstreamFilters fm)) s M2) as P.
  destruct (reading_loop i (drop i (downstreamFilters fm)) s) as [[cs fs'] s']. destruct P as [P1 P2 P3 P4].
  rewrite length_drop in P3, P4. split; [done|]. split; simpl.
  - apply marks_app. rewrite length_take, Nat.min_l by done. split; [|done].
    eapply marks_frame'; [|exact M1]. intros j Hj. rewrite length_take in Hj. apply P4. lia.
  - intros j Hj. rewrite length_app, length_take, P3.
    destruct (decide (j < i ∨ i + (length (downstreamFilters fm) - i) ≤ j)%nat) as [C|C]; [|lia].
    apply P4, L in Hj; [|done]. lia.
Qed.

Lemma op_step_ok told o fm s : chain_ok told fm →
  let '(cs, fm', _) := op_step o fm s in data_ok told cs ∧ chain_ok (told_after told cs) fm'.
Proof.
  intros C. destruct o as [|k|g|rf]; simpl; [by apply continue_ok|by apply continue_ok|done|].
  split; [done|]. destruct C as [M L]. split; simpl.
  - apply marks_app. split; [done|]. apply marks_cons. split; [|by intros k u]. simpl. split; [done|].
    intros I. apply L in I. lia.
  - intros j Hj. apply L in Hj. rewrite length_app. lia.
Qed.
Lemma chain_run_ok told os fm s : chain_ok told fm → data_ok told (chain_run os fm s).1.1.
Proof.
  revert told fm s. induction os as [|o os IH]; intros told fm s C; [done|]. cbn [chain_run].
  pose proof (op_step_ok told o fm s C) as P. destruct (op_step o fm s) as [[cs fm1] s1]. destruct P as [P1 P2].
  specialize (IH _ fm1 s1 P2). destruct (chain_run os fm1 s1) as [[cs' fm2] s2]. simpl in *. by apply data_ok_app.
Qed.

Lemma data_ok_new told cs pre i post : data_ok told cs → cs = pre ++ CNew i :: post → i ∉ told ∧ CNew i ∉ pre.
Proof.
  intros D ->. revert told D. induction pre as [|[k|k] pre IH]; intros told D; simpl in D.
  - destruct D as [D _]. split; [done|apply not_elem_of_nil].
  - destruct D as [D1 D2]. apply IH in D2 as [N1 N2]. set_solver.
  - destruct D as [D1 D2]. apply IH in D2 as [N1 N2]. set_solver.
Qed.
Lemma data_ok_data told cs pre i post : data_ok told cs → cs = pre ++ CData i :: post → i ∈ told ∨ CNew i ∈ pre.
Proof.
  intros D ->. revert told D. induction pre as [|[k|k] pre IH]; intros told D; simpl in D.
  - left. apply D.
  - destruct D as [D1 D2]. apply IH in D2 as [I|I]; set_solver.
  - destruct D as [D1 D2]. apply IH in D2 as [I|I]; set_solver.
Qed.
End manager.

(** C33: a read filter is told of its connection once, and before any data.  In any
    life of a chain, with filters that stop, go on later or are added, and anything
    happening to the connection in between, OnNewConnection is called at most once
    for each filter, and before each OnData of it. *)
Theorem filters_told_once {F B S} `{ReadFilter F S, Readable S} (os : list (op (F := F) (S := S))) s pre i post :
  let cs := (chain_run os (newFilterManager (F := F) (B := B)) s).1.1 in
  (cs = pre ++ CNew i :: post → CNew i ∉ pre) ∧ (cs = pre ++ CData i :: post → CNew i ∈ pre).
Proof.
  intros cs. assert (data_ok [] cs) as D.
  { apply chain_run_ok. split; [by intros k u|]. by intros j ?%elem_of_nil. }
  split; intros E.
  - by eapply data_ok_new.
  - destruct (data_ok_data [] cs pre i post D E) as [?%elem_of_nil|]; done.
Qed.

(** Filters that stop once when they are told of the connection, on a connection
    that is the length of its data. *)
Module chain_example.
#[local] Instance z_readable : Readable Z := λ s, s.
#[local] Instance once_filter : ReadFilter bool Z := {
  OnNewConnection := λ f s, (if f then Stop else Continue, f, s);
  OnData := λ f s, (Continue, f, s)
}.

Lemma filters_told_once_witness :
  let os := [OAdd true; OAdd false; OConn (λ _, 3); ORead; OContinue 0; ORead] in
  let cs := (chain_run os (newFilterManager (F := bool) (B := unit)) 0).1.1 in
  cs = [CNew 0; CNew 1; CData 1; CData 0; CData 1] ∧ CNew 0 ∈ [CNew 0; CNew 1; CData 1].
Proof.
  intros os cs. split; [reflexivity|].
  apply (proj2 (filters_told_once (B := unit) os 0 [CNew 0; CNew 1; CData 1] 0 [CData 1])). reflexivity.
Defined.
End chain_example.
