(* ===== verification/Session.v ===== *)
(** * Sessions

    src/pkg/network/session.go: a connection with its two loops.  Write hands
    buffers to a channel of 32, or to a goroutine of its own when the channel is
    full; the write loop takes up to eleven entries from it and writes them with one
    call; the read loop reads into the read buffer and runs the read filters; Close
    may be called from anywhere and more than once.  Also the events and types of
    src/pkg/network/types.go.

    A run is a sequence of actions, each done whole: a call, one step of a loop (the
    write loop has a step for each receive and one for the write), a goroutine of
    Write.  [late] on a step of a loop says that it looked at the stop channel
    before it was closed.  What the socket answers to writes is a script; past its
    end it takes everything.  A read gives what [ReadOnce] of [IoBuffer] read, and
    the read buffer is its unread bytes, by the contract of that file.  The read
    filters act on the session by its methods ([sessionOp]).  A socket whose
    connection is nil, and panics of filters, are not covered.

    [trace] is what the session did, in its order. *)

From S2P Require Import Prelude IoBuffer FilterManager.

(** ** Types *)

Inductive ConnectionEvent : Type :=
| RemoteClose | LocalClose | OnReadErrClose | OnWriteErrClose | OnConnect | Connected
| ConnectTimeout | ConnectFailed | OnReadTimeout.
Inductive ConnectionCloseType : Type := FlushWrite | NoFlush.
Definition IsClose (ce : ConnectionEvent) : bool :=
  match ce with LocalClose | RemoteClose | OnReadErrClose | OnWriteErrClose => true | _ => false end.
Definition IsCloseExceptLocal (ce : ConnectionEvent) : bool :=
  match ce with RemoteClose | OnReadErrClose | OnWriteErrClose => true | _ => false end.
Definition ConnectFailure (ce : ConnectionEvent) : bool :=
  match ce with ConnectFailed | ConnectTimeout => true | _ => false end.

(** Errors of a write: a timeout, buffer.EOF, io.EOF, any other. *)
Inductive writeErr : Type := WTimeout | WBufferEOF | WIoEOF | WOther.
#[export] Instance writeErr_eq_dec : EqDecision writeErr.
Proof. solve_decision. Defined.
(** What the socket answers: an error after so many bytes, or none. *)
Record sockRes : Type := mkSock { accepted : Z; failure : option writeErr }.

Inductive writePc : Type := WIdle | WTop | WInner (i : nat) | WExit.
Inductive readPc : Type := RIdle | RTop | RExit.

Inductive effect : Type :=
| EQueue (bufs : list (option bytes))      (** into the channel *)
| ESpawn (bufs : list (option bytes))      (** to a goroutine *)
| ELost (bufs : list (option bytes))       (** a send on the closed channel, recovered *)
| ESent (d : bytes) | EPut (b : bytes)     (** to the socket; back to the pool *)
| ERecv (d : bytes) | EDrain (d : bytes)   (** from the socket; taken by a filter *)
| ETimeout (cb : nat) | EEvent (cb : nat) (ev : ConnectionEvent)
| ECloseRead | ECloseStop | ECloseChan | ECloseConn
| EPanic.                                  (** a channel closed twice *)

Record Session : Type := mkSession {
  id : Z;
  closeFlag : bool;
  closeWithFlush : bool;
  connCallbacks : nat;
  emitters : list nat;
  readBuffer : option bytes;
  readTimeout : Z;
  bufferLimit : Z;
  writeBuffers : list bytes;
  ioBuffers : list bytes;
  writeBufferChan : chan (list (option bytes));
  sendq : list (list (option bytes));
  spawned : list (list (option bytes));
  internalLoopStarted : bool;
  internalStopChan : bool;
  startOnce : bool;
  rawClosed : bool;
  script : list sockRes;
  wpc : writePc;
  rpc : readPc;
  trace : list effect
}.
Definition set_closeFlag (x : bool) (s : Session) : Session :=
  mkSession (id s) x (closeWithFlush s) (connCallbacks s) (emitters s) (readBuffer s) (readTimeout
    s) (bufferLimit s) (writeBuffers s) (ioBuffers s) (writeBufferChan s) (sendq s) (spawned s)
    (internalLoopStarted s) (internalStopChan s) (startOnce s) (rawClosed s) (script s) (wpc s) (rpc
    s) (trace s).
Definition set_closeWithFlush (x : bool) (s : Session) : Session :=
  mkSession (id s) (closeFlag s) x (connCallbacks s) (emitters s) (readBuffer s) (readTimeout s)
    (bufferLimit s) (writeBuffers s) (ioBuffers s) (writeBufferChan s) (sendq s) (spawned s)
    (internalLoopStarted s) (internalStopChan s) (startOnce s) (rawClosed s) (script s) (wpc s) (rpc
    s) (trace s).
Definition set_connCallbacks (x : nat) (s : Session) : Session :=
  mkSession (id s) (closeFlag s) (closeWithFlush s) x (emitters s) (readBuffer s) (readTimeout s)
    (bufferLimit s) (writeBuffers s) (ioBuffers s) (writeBufferChan s) (sendq s) (spawned s)
    (internalLoopStarted s) (internalStopChan s) (startOnce s) (rawClosed s) (script s) (wpc s) (rpc
    s) (trace s).
Definition set_emitters (x : list nat) (s : Session) : Session :=
  mkSession (id s) (closeFlag s) (closeWithFlush s) (connCallbacks s) x (readBuffer s) (readTimeout
    s) (bufferLimit s) (writeBuffers s) (ioBuffers s) (writeBufferChan s) (sendq s) (spawned s)
    (internalLoopStarted s) (internalStopChan s) (startOnce s) (rawClosed s) (script s) (wpc s) (rpc
    s) (trace s).
Definition set_readBuffer (x : option bytes) (s : Session) : Session :=
  mkSession (id s) (closeFlag s) (closeWithFlush s) (connCallbacks s) (emitters s) x (readTimeout s)
    (bufferLimit s) (writeBuffers s) (ioBuffers s) (writeBufferChan s) (sendq s) (spawned s)
    (internalLoopStarted s) (internalStopChan s) (startOnce s) (rawClosed s) (script s) (wpc s) (rpc
    s) (trace s).
Definition set_readTimeout (x : Z) (s : Session) : Session :=
  mkSession (id s) (closeFlag s) (closeWithFlush s) (connCallbacks s) (emitters s) (readBuffer s) x
    (bufferLimit s) (writeBuffers s) (ioBuffers s) (writeBufferChan s) (sendq s) (spawned s)
    (internalLoopStarted s) (internalStopChan s) (startOnce s) (rawClosed s) (script s) (wpc s) (rpc
    s) (trace s).
Definition set_bufferLimit (x : Z) (s : Session) : Session :=
  mkSession (id s) (closeFlag s) (closeWithFlush s) (connCallbacks s) (emitters s) (readBuffer s)
    (readTimeout s) x (writeBuffers s) (ioBuffers s) (writeBufferChan s) (sendq s) (spawned s)
    (internalLoopStarted s) (internalStopChan s) (startOnce s) (rawClosed s) (script s) (wpc s) (rpc
    s) (trace s).
Definition set_writeBuffers (x : list bytes) (s : Session) : Session :=
  mkSession (id s) (closeFlag s) (closeWithFlush s) (connCallbacks s) (emitters s) (readBuffer s)
    (readTimeout s) (bufferLimit s) x (ioBuffers s) (writeBufferChan s) (sendq s) (spawned s)
    (internalLoopStarted s) (internalStopChan s) (startOnce s) (rawClosed s) (script s) (wpc s) (rpc
    s) (trace s).
Definition set_ioBuffers (x : list bytes) (s : Session) : Session :=
  mkSession (id s) (closeFlag s) (closeWithFlush s) (connCallbacks s) (emitters s) (readBuffer s)
    (readTimeout s) (bufferLimit s) (writeBuffers s) x (writeBufferChan s) (sendq s) (spawned s)
    (internalLoopStarted s) (internalStopChan s) (startOnce s) (rawClosed s) (script s) (wpc s) (rpc
    s) (trace s).
Definition set_writeBufferChan (x : chan (list (option bytes))) (s : Session) : Session :=
  mkSession (id s) (closeFlag s) (closeWithFlush s) (connCallbacks s) (emitters s) (readBuffer s)
    (readTimeout s) (bufferLimit s) (writeBuffers s) (ioBuffers s) x (sendq s) (spawned s)
    (internalLoopStarted s) (internalStopChan s) (startOnce s) (rawClosed s) (script s) (wpc s) (rpc
    s) (trace s).
Definition set_sendq (x : list (list (option bytes))) (s : Session) : Session :=
  mkSession (id s) (closeFlag s) (closeWithFlush s) (connCallbacks s) (emitters s) (readBuffer s)
    (readTimeout s) (bufferLimit s) (writeBuffers s) (ioBuffers s) (writeBufferChan s) x (spawned s)
    (internalLoopStarted s) (internalStopChan s) (startOnce s) (rawClosed s) (script s) (wpc s) (rpc
    s) (trace s).
Definition set_spawned (x : list (list (option bytes))) (s : Session) : Session :=
  mkSession (id s) (closeFlag s) (closeWithFlush s) (connCallbacks s) (emitters s) (readBuffer s)
    (readTimeout s) (bufferLimit s) (writeBuffers s) (ioBuffers s) (writeBufferChan s) (sendq s) x
    (internalLoopStarted s) (internalStopChan s) (startOnce s) (rawClosed s) (script s) (wpc s) (rpc
    s) (trace s).
Definition set_internalLoopStarted (x : bool) (s : Session) : Session :=
  mkSession (id s) (closeFlag s) (closeWithFlush s) (connCallbacks s) (emitters s) (readBuffer s)
    (readTimeout s) (bufferLimit s) (writeBuffers s) (ioBuffers s) (writeBufferChan s) (sendq s)
    (spawned s) x (internalStopChan s) (startOnce s) (rawClosed s) (script s) (wpc s) (rpc s) (trace
    s).
Definition set_internalStopChan (x : bool) (s : Session) : Session :=
  mkSession (id s) (closeFlag s) (closeWithFlush s) (connCallbacks s) (emitters s) (readBuffer s)
    (readTimeout s) (bufferLimit s) (writeBuffers s) (ioBuffers s) (writeBufferChan s) (sendq s)
    (spawned s) (internalLoopStarted s) x (startOnce s) (rawClosed s) (script s) (wpc s) (rpc s)
    (trace s).
Definition set_startOnce (x : bool) (s : Session) : Session :=
  mkSession (id s) (closeFlag s) (closeWithFlush s) (connCallbacks s) (emitters s) (readBuffer s)
    (readTimeout s) (bufferLimit s) (writeBuffers s) (ioBuffers s) (writeBufferChan s) (sendq s)
    (spawned s) (internalLoopStarted s) (internalStopChan s) x (rawClosed s) (script s) (wpc s) (rpc
    s) (trace s).
Definition set_rawClosed (x : bool) (s : Session) : Session :=
  mkSession (id s) (closeFlag s) (closeWithFlush s) (connCallbacks s) (emitters s) (readBuffer s)
    (readTimeout s) (bufferLimit s) (writeBuffers s) (ioBuffers s) (writeBufferChan s) (sendq s)
    (spawned s) (internalLoopStarted s) (internalStopChan s) (startOnce s) x (script s) (wpc s) (rpc
    s) (trace s).
Definition set_script (x : list sockRes) (s : Session) : Session :=
  mkSession (id s) (closeFlag s) (closeWithFlush s) (connCallbacks s) (emitters s) (readBuffer s)
    (readTimeout s) (bufferLimit s) (writeBuffers s) (ioBuffers s) (writeBufferChan s) (sendq s)
    (spawned s) (internalLoopStarted s) (internalStopChan s) (startOnce s) (rawClosed s) x (wpc s)
    (rpc s) (trace s).
Definition set_wpc (x : writePc) (s : Session) : Session :=
  mkSession (id s) (closeFlag s) (closeWithFlush s) (connCallbacks s) (emitters s) (readBuffer s)
    (readTimeout s) (bufferLimit s) (writeBuffers s) (ioBuffers s) (writeBufferChan s) (sendq s)
    (spawned s) (internalLoopStarted s) (internalStopChan s) (startOnce s) (rawClosed s) (script s)
    x (rpc s) (trace s).
Definition set_rpc (x : readPc) (s : Session) : Session :=
  mkSession (id s) (closeFlag s) (closeWithFlush s) (connCallbacks s) (emitters s) (readBuffer s)
    (readTimeout s) (bufferLimit s) (writeBuffers s) (ioBuffers s) (writeBufferChan s) (sendq s)
    (spawned s) (internalLoopStarted s) (internalStopChan s) (startOnce s) (rawClosed s) (script s)
    (wpc s) x (trace s).
Definition set_trace (x : list effect) (s : Session) : Session :=
  mkSession (id s) (closeFlag s) (closeWithFlush s) (connCallbacks s) (emitters s) (readBuffer s)
    (readTimeout s) (bufferLimit s) (writeBuffers s) (ioBuffers s) (writeBufferChan s) (sendq s)
    (spawned s) (internalLoopStarted s) (internalStopChan s) (startOnce s) (rawClosed s) (script s)
    (wpc s) (rpc s) x.
Definition emit (e : effect) (s : Session) : Session := set_trace (trace s ++ [e]) s.
Definition emits (es : list effect) (s : Session) : Session := set_trace (trace s ++ es) s.

(** ** Simple methods *)

Definition NewSession (i : Z) (answers : list sockRes) : Session :=
  mkSession i false false 0 [] None 0 0 [] [] (make_chan 32) [] [] false false false false answers
    WIdle RIdle [].
Definition IsClosed (s : Session) : bool := closeFlag s.
Definition SetBufferLimit (limit : Z) (s : Session) : Session :=
  if 0 <? limit then set_bufferLimit limit s else s.
Definition BufferLimit (s : Session) : Z := bufferLimit s.
Definition SetReadTimeout (duration : Z) (s : Session) : Session := set_readTimeout duration s.
Definition AddConnectionEventListener (s : Session) : Session := set_connCallbacks (S (connCallbacks s)) s.
Definition GetReadBuffer (s : Session) : option bytes := readBuffer s.
Definition AddEmitter (e : nat) (s : Session) : Session := set_emitters (emitters s ++ [e]) s.
(** Emit stops at the first emitter that fails. *)
Fixpoint Emit_loop {E} (emit1 : nat → option E) (es : list nat) : list nat * option E :=
  match es with
  | [] => ([], None)
  | e :: es => match emit1 e with
               | Some err => ([e], Some err)
               | None => let '(called, r) := Emit_loop emit1 es in (e :: called, r)
               end
  end.
Definition Emit {E} (emit1 : nat → option E) (s : Session) : list nat * option E :=
  Emit_loop emit1 (emitters s).

(** ** Writing *)

Definition appendBuffer (iobuffers : list (option bytes)) (s : Session) : Session :=
  foldl (λ s buf,
    match buf with
    | None => s
    | Some b => set_writeBuffers (writeBuffers s ++ [b]) (set_ioBuffers (ioBuffers s ++ [b]) s)
    end) s iobuffers.
Definition resetBuffer (s : Session) : Session := set_writeBuffers [] (set_ioBuffers [] s).
Definition writeBufLen (s : Session) : Z := zlen (concat (writeBuffers s)).

Section session.
(** Whether net.Buffers clears the slots that it has written, which it does since
    go 1.17 and did not in go 1.12, the version of the module. *)
Context (clears : bool).
(** The write filters. *)
Context (wfs : list (list (option bytes) → FilterStatus)).

(** net.Buffers.consume: the array that is left, and the slice of it. *)
Fixpoint consume (n : Z) (v : list bytes) : list bytes * list bytes :=
  match v with
  | [] => ([], [])
  | b :: v =>
      if n <? zlen b then (drop (Z.to_nat n) b :: v, drop (Z.to_nat n) b :: v)
      else let '(a, r) := consume (n - zlen b) v in ((if clears then [] else b) :: a, r)
  end.
(** The next answer to a write of [total] bytes. *)
Definition answer (total : Z) (s : Session) : Z * option writeErr * Session :=
  if rawClosed s then (0, Some WOther, s)
  else match script s with
       | [] => (total, None, s)
       | mkSock k e :: rest =>
           (match e with None => total | Some _ => Z.max 0 (Z.min k total) end, e, set_script rest s)
       end.

Definition doWriteIo (s : Session) : Z * option writeErr * Session :=
  let '(bytesSent, err, s) := answer (writeBufLen s) s in
  let '(array, buffers) := consume bytesSent (writeBuffers s) in
  let s := emit (ESent (take (Z.to_nat bytesSent) (concat (writeBuffers s)))) s in
  match err with
  | Some _ => (bytesSent, err, set_writeBuffers array s)
  | None =>
      let s := resetBuffer (emits (EPut <$> ioBuffers s) s) in
      let s := if zlen buffers =? 0 then s else set_writeBuffers (writeBuffers s ++ buffers) s in
      (bytesSent, None, s)
  end.
Definition doWrite (s : Session) : Z * option writeErr * Session := doWriteIo s.

Definition Write (bufs : list (option bytes)) (s : Session) : Session :=
  match writing_loop wfs bufs with
  | Stop => s
  | Continue =>
      match send (writeBufferChan s) bufs with
      | Sent c => emit (EQueue bufs) (set_writeBufferChan c s)
      | SendPanic => emit (ELost bufs) s
      | SendBlock => emit (ESpawn bufs) (set_spawned (spawned s ++ [bufs]) s)
      end
  end.
(** The goroutine of a Write sends, or waits in the queue of the channel. *)
Definition spawn_run (i : nat) (s : Session) : Session :=
  match spawned s !! i with
  | None => s
  | Some bufs =>
      let s := set_spawned (delete i (spawned s)) s in
      match send (writeBufferChan s) bufs with
      | Sent c => emit (EQueue bufs) (set_writeBufferChan c s)
      | SendPanic => emit (ELost bufs) s
      | SendBlock => set_sendq (sendq s ++ [bufs]) s
      end
  end.
(** A receive, which lets in the first that waits. *)
Definition chanRecv (s : Session) : received (list (option bytes)) * Session :=
  let r := recv (writeBufferChan s) in
  (r, match r with
      | Received v c =>
          match sendq s with
          | [] => set_writeBufferChan c s
          | q :: qs => emit (EQueue q) (set_sendq qs (set_writeBufferChan (mkChan (ccap c) (cbuf c ++ [q]) (cshut c)) s))
          end
      | _ => s
      end).

(** ** Closing *)

(** The loop of a Close with FlushWrite; [None] when the fuel is out. *)
Fixpoint flush_loop (fuel : nat) (s : Session) : option Session :=
  match fuel with
  | O => None
  | S fuel =>
      let '(bytesSent, err, s) := doWrite s in
      if bool_decide (is_Some err) && negb (err =b Some WTimeout) then Some s
      else if bytesSent =? 0 then Some s
      else flush_loop fuel s
  end.
Definition closeStop (s : Session) : Session :=
  if internalStopChan s then emit EPanic s else emit ECloseStop (set_internalStopChan true s).
Definition closeChan (s : Session) : Session :=
  match close_chan (writeBufferChan s) with
  | None => emit EPanic s
  | Some c => emits (ECloseChan :: (ELost <$> sendq s)) (set_sendq [] (set_writeBufferChan c s))
  end.

Definition Close (ccType : ConnectionCloseType) (eventType : ConnectionEvent) (s : Session) : Session :=
  if closeFlag s then s
  else
    let s := emit ECloseRead (set_closeFlag true s) in
    let s := match ccType with
             | FlushWrite =>
                 if 0 <? writeBufLen s then
                   let s := set_closeWithFlush true s in
                   default s (flush_loop (2 + length (script s)) s)
                 else s
             | NoFlush => s
             end in
    let s := if internalLoopStarted s then closeChan (closeStop s) else s in
    let s := emit ECloseConn (set_rawClosed true s) in
    let s := emits ((λ cb, EEvent cb eventType) <$> seq 0 (connCallbacks s)) s in
    set_emitters [] s.

(** ** The loops *)

Definition Start (s : Session) : Session :=
  if closeFlag s || startOnce s then s
  else set_rpc RTop (set_wpc WTop (set_internalLoopStarted true (set_startOnce true s))).

Definition writeStep (late : bool) (s : Session) : Session :=
  match wpc s with
  | WIdle | WExit => s
  | WTop =>
      if internalStopChan s && negb late then set_wpc WExit s
      else match chanRecv s with
           | (Received v _, s) => set_wpc (WInner 0) (appendBuffer v s)
           | (RecvZero, s) => set_wpc WExit s
           | (RecvBlock, s) => s
           end
  | WInner i =>
      if Nat.ltb i 10 then
        match chanRecv s with
        | (Received v _, s) => set_wpc (WInner (S i)) (appendBuffer v s)
        | (RecvZero, s) => set_wpc WExit (resetBuffer s)
        | (RecvBlock, s) => set_wpc (WInner (S i)) s
        end
      else
        match doWrite s with
        | (_, None, s) | (_, Some WTimeout, s) => set_wpc WTop s
        | (_, Some WBufferEOF, s) => set_wpc WExit (Close NoFlush LocalClose s)
        | (_, Some WIoEOF, s) => set_wpc WExit (Close NoFlush RemoteClose s)
        | (_, Some WOther, s) => set_wpc WExit (Close NoFlush OnWriteErrClose s)
        end
  end.

(** What a read filter may do. *)
Inductive sessionOp : Type :=
| SWrite (bufs : list (option bytes)) | SClose (ty : ConnectionCloseType) (ev : ConnectionEvent)
| SDrain (n : nat).
Definition sop_run (s : Session) (o : sessionOp) : Session :=
  match o with
  | SWrite bufs => Write bufs s
  | SClose ty ev => Close ty ev s
  | SDrain n =>
      let rb := default [] (readBuffer s) in
      emit (EDrain (take n rb)) (set_readBuffer (Some (drop n rb)) s)
  end.
Class SessionFilter (F : Type) : Type := {
  filterNew : F → option bytes → FilterStatus * F * list sessionOp;
  filterData : F → bytes → FilterStatus * F * list sessionOp
}.
#[export] Instance session_readable : Readable Session := λ s, zlen (default [] (readBuffer s)).
#[export] Instance session_filter {F} `{SessionFilter F} : ReadFilter F Session := {
  OnNewConnection := λ f s,
    let '(st, f, ops) := filterNew f (readBuffer s) in (st, f, foldl sop_run s ops);
  OnData := λ f s,
    let '(st, f, ops) := filterData f (default [] (readBuffer s)) in (st, f, foldl sop_run s ops)
}.

Section reading.
Context {F : Type} `{SessionFilter F}.
Abbreviation fmT := (filterManager F (option bytes)).

Definition onRead (bytesRead : Z) (fm : fmT) (s : Session) : fmT * Session :=
  if bytesRead =? 0 then (fm, s)
  else let '(_, fm, s) := OnRead fm s in (fm, s).
(** ReadOnce gives [d] and [e]. *)
Definition doReadConn (d : bytes) (e : option ioerr) (fm : fmT) (s : Session) : option ioerr * fmT * Session :=
  let s := emit (ERecv d) (set_readBuffer (Some (default [] (readBuffer s) ++ d)) s) in
  match e with
  | Some ErrTimeout =>
      let s := emits (ETimeout <$> seq 0 (connCallbacks s)) s in
      if zlen d =? 0 then (e, fm, s)
      else let '(fm, s) := onRead (zlen d) fm s in (e, fm, s)
  | Some ErrOther => (e, fm, s)
  | Some EOF | None => let '(fm, s) := onRead (zlen d) fm s in (e, fm, s)
  end.
Definition readStep (late : bool) (d : bytes) (e : option ioerr) (fm : fmT) (s : Session) : fmT * Session :=
  match rpc s with
  | RIdle | RExit => (fm, s)
  | RTop =>
      if internalStopChan s && negb late then (fm, set_rpc RExit s)
      else
        let '(d, e) := if rawClosed s then ([], Some ErrOther) else (d, e) in
        let '(e, fm, s) := doReadConn d e fm s in
        match e with
        | None | Some ErrTimeout => (fm, s)
        | Some EOF => (fm, set_rpc RExit (Close NoFlush RemoteClose s))
        | Some ErrOther => (fm, set_rpc RExit (Close NoFlush OnReadErrClose s))
        end
  end.
(** The entry from an event loop: the bytes are given. *)
Definition doRead (d : bytes) (fm : fmT) (s : Session) : fmT * Session :=
  let s := emit (ERecv d) (set_readBuffer (Some (default [] (readBuffer s) ++ d)) s) in
  onRead (zlen d) fm s.

(** ** Runs *)

Inductive action : Type :=
| AStart | AListener | AAddReadFilter (f : F)
| AWrite (bufs : list (option bytes)) | ASpawned (i : nat)
| AClose (ty : ConnectionCloseType) (ev : ConnectionEvent)
| AWriteLoop (late : bool) | AReadLoop (late : bool) (d : bytes) (e : option ioerr)
| AData (d : bytes) | AContinue (k : nat).
Definition step (a : action) (st : fmT * Session) : fmT * Session :=
  let '(fm, s) := st in
  match a with
  | AStart => (fm, Start s)
  | AListener => (fm, AddConnectionEventListener s)
  | AAddReadFilter f => (AddReadFilter f fm, s)
  | AWrite bufs => (fm, Write bufs s)
  | ASpawned i => (fm, spawn_run i s)
  | AClose ty ev => (fm, Close ty ev s)
  | AWriteLoop late => (fm, writeStep late s)
  | AReadLoop late d e => readStep late d e fm s
  | AData d => doRead d fm s
  | AContinue k => let '(_, fm, s) := ContinueReading k fm s in (fm, s)
  end.
Definition run (acts : list action) (st : fmT * Session) : fmT * Session := foldl (λ st a, step a st) st acts.
End reading.
End session.

(** ** What every action keeps *)

Section keep.
Context (clears : bool) (wfs : list (list (option bytes) → FilterStatus)).
Context {F : Type} `{SessionFilter F}.
Implicit Types s : Session.

(** A property of sessions that the methods keep. *)
Record kept (P : Session → Prop) : Prop := {
  kp_write : ∀ bufs s, P s → P (Write wfs bufs s);
  kp_spawn : ∀ i s, P s → P (spawn_run i s);
  kp_close : ∀ ty ev s, P s → P (Close clears ty ev s);
  kp_drain : ∀ n s, P s → P (emit (EDrain (take n (default [] (readBuffer s))))
                          (set_readBuffer (Some (drop n (default [] (readBuffer s)))) s));
  kp_recv : ∀ d s, P s → P (emit (ERecv d) (set_readBuffer (Some (default [] (readBuffer s) ++ d)) s));
  kp_timeout : ∀ s, P s → P (emits (ETimeout <$> seq 0 (connCallbacks s)) s);
  kp_start : ∀ s, P s → P (Start s);
  kp_listener : ∀ s, P s → P (AddConnectionEventListener s);
  kp_rpc : ∀ p s, P s → P (set_rpc p s);
  kp_wstep : ∀ late s, P s → P (writeStep clears late s)
}.

Lemma sops_keep P ops s : kept P → P s → P (foldl (sop_run clears wfs) s ops).
Proof.
  intros K. revert s. induction ops as [|o ops IH]; intros s Ps; [done|]. simpl. apply IH.
  destruct o; simpl; [by apply kp_write|by apply kp_close|by apply kp_drain].
Qed.
Lemma continue_kept P from (fm : filterManager F (option bytes)) s : kept P → P s →
  P (onContinueReading (S := Session) (H := session_filter clears wfs) from fm s).2.
Proof.
  intros K. apply continue_keeps.
  - intros f s' Ps. simpl. destruct (filterNew f (readBuffer s')) as [[st f'] ops]. by apply sops_keep.
  - intros f s' Ps. simpl. destruct (filterData f (default [] (readBuffer s'))) as [[st f'] ops]. by apply sops_keep.
Qed.
Lemma onRead_kept P n (fm : filterManager F (option bytes)) s : kept P → P s → P (onRead clears wfs n fm s).2.
Proof.
  intros K Ps. unfold onRead. destruct (n =? 0); [done|]. unfold OnRead.
  pose proof (continue_kept P None fm s K Ps) as Q. by destruct (onContinueReading None fm s) as [[cs fm'] s'].
Qed.
Lemma doReadConn_kept P d e (fm : filterManager F (option bytes)) s : kept P → P s →
  P (doReadConn clears wfs d e fm s).2.
Proof.
  intros K Ps. unfold doReadConn.
  pose proof (kp_recv P K d s Ps) as P1. set (s1 := emit (ERecv d) _) in *.
  assert (∀ s, P s → P (let '(fm, s) := onRead clears wfs (zlen d) fm s in (e, fm, s)).2) as R.
  { intros s2 P2. pose proof (onRead_kept P (zlen d) fm s2 K P2) as P3. by destruct (onRead clears wfs (zlen d) fm s2). }
  destruct e as [[]|]; [by apply R| |done|by apply R].
  pose proof (kp_timeout P K s1 P1). destruct (zlen d =? 0); [done|]. by apply R.
Qed.
Lemma readStep_kept P late d e (fm : filterManager F (option bytes)) s : kept P → P s →
  P (readStep clears wfs late d e fm s).2.
Proof.
  intros K Ps. unfold readStep. destruct (rpc s); [done| |done].
  destruct (internalStopChan s && negb late); [by apply kp_rpc|].
  destruct (if rawClosed s then ([], Some ErrOther) else (d, e)) as [d' e'].
  pose proof (doReadConn_kept P d' e' fm s K Ps) as P1.
  destruct (doReadConn clears wfs d' e' fm s) as [[[[]|] fm1] s1]; simpl in *;
    [apply kp_rpc, kp_close; done|done|apply kp_rpc, kp_close; done|done].
Qed.
Lemma step_kept P a st : kept P → P st.2 → P (step (F := F) clears wfs a st).2.
Proof.
  intros K. destruct st as [fm s]. intros Ps. simpl in Ps. destruct a as [| | |bufs|i|ty ev|late|late d e|d|k]; simpl.
  - by apply kp_start.
  - by apply kp_listener.
  - done.
  - by apply kp_write.
  - by apply kp_spawn.
  - by apply kp_close.
  - by apply kp_wstep.
  - by apply readStep_kept.
  - unfold doRead. cbv zeta. apply onRead_kept; [done|]. by apply kp_recv.
  - pose proof (continue_kept P (Some k) fm s K Ps) as Q. unfold ContinueReading.
    by destruct (onContinueReading (Some k) fm s) as [[cs fm'] s'].
Qed.
Lemma run_kept P acts st : kept P → P st.2 → P (run (F := F) clears wfs acts st).2.
Proof.
  intros K. unfold run. revert st. induction acts as [|a acts IH]; intros st Ps; [done|]. simpl. apply IH.
  by apply step_kept.
Qed.
End keep.

(** ** What a write to the socket leaves alone *)

Section frame.
Context (clears : bool) (wfs : list (list (option bytes) → FilterStatus)).
Implicit Types s : Session.

Definition isWritten (e : effect) : Prop := match e with ESent _ | EPut _ => True | _ => False end.
Record wframe s s' : Prop := {
  wf_closed : closeFlag s' = closeFlag s; wf_chan : writeBufferChan s' = writeBufferChan s;
  wf_sendq : sendq s' = sendq s; wf_spawned : spawned s' = spawned s;
  wf_loops : internalLoopStarted s' = internalLoopStarted s; wf_stop : internalStopChan s' = internalStopChan s;
  wf_once : startOnce s' = startOnce s; wf_raw : rawClosed s' = rawClosed s;
  wf_cbs : connCallbacks s' = connCallbacks s; wf_read : readBuffer s' = readBuffer s;
  wf_wpc : wpc s' = wpc s;
  wf_trace : ∃ es, trace s' = trace s ++ es ∧ Forall isWritten es
}.
Lemma wframe_refl s : wframe s s.
Proof. split; try done. exists []. by rewrite app_nil_r. Qed.
Lemma wframe_trans s1 s2 s3 : wframe s1 s2 → wframe s2 s3 → wframe s1 s3.
Proof.
  intros [] []. split; try congruence. destruct wf_trace0 as (es & E & F), wf_trace1 as (es' & E' & F').
  exists (es ++ es'). split; [by rewrite E', E, app_assoc|]. by apply List.Forall_app.
Qed.

Lemma answer_frame n s : wframe s (answer n s).2.
Proof.
  unfold answer. destruct (rawClosed s) eqn:E; [apply wframe_refl|].
  destruct (script s) as [|[k e] rest]; [apply wframe_refl|]. split; try done. exists []. by rewrite app_nil_r.
Qed.
Lemma doWrite_frame s : wframe s (doWrite clears s).2.
Proof.
  unfold doWrite, doWriteIo. pose proof (answer_frame (writeBufLen s) s) as Fr.
  destruct (answer (writeBufLen s) s) as [[n e] s1]. simpl in Fr. eapply wframe_trans; [exact Fr|]. clear.
  destruct (consume clears n (writeBuffers s1)) as [array buffers]. destruct e as [e|]; simpl.
  - split; try done. simpl. eexists. split; [done|]. by repeat constructor.
  - assert (∀ s2 : Session, wframe s1 s2 → wframe s1 (if zlen buffers =? 0 then s2
      else set_writeBuffers (writeBuffers s2 ++ buffers) s2)) as K.
    { intros s2 [? ? ? ? ? ? ? ? ? ? ? Ht]. destruct (zlen buffers =? 0); split; done. }
    apply K. split; try done. simpl. rewrite <- app_assoc. eexists. split; [done|]. constructor; [done|].
    by apply Forall_fmap, list.Forall_true.
Qed.
Lemma flush_frame fuel s s' : flush_loop clears fuel s = Some s' → wframe s s'.
Proof.
  revert s. induction fuel as [|fuel IH]; intros s E; [done|]. simpl in E.
  pose proof (doWrite_frame s) as Fr. destruct (doWrite clears s) as [[n e] s1]. simpl in Fr.
  destruct (_ && _); [by injection E as <-|]. destruct (n =? 0); [by injection E as <-|].
  eapply wframe_trans; [exact Fr|]. by apply IH.
Qed.
(** The part of Close before the channels. *)
Definition flushed (ty : ConnectionCloseType) (s : Session) : Session :=
  match ty with
  | FlushWrite =>
      if 0 <? writeBufLen s then
        let s := set_closeWithFlush true s in
        default s (flush_loop clears (2 + length (script s)) s)
      else s
  | NoFlush => s
  end.
Lemma flushed_frame ty s : wframe s (flushed ty s).
Proof.
  destruct ty; [|apply wframe_refl]. unfold flushed. destruct (0 <? writeBufLen s); [|apply wframe_refl].
  cbv zeta. assert (wframe s (set_closeWithFlush true s)) as E by (split; try done; exists []; by rewrite app_nil_r).
  destruct (flush_loop clears _ _) as [s'|] eqn:Ef; [|done]. simpl. eapply wframe_trans; [exact E|]. by eapply flush_frame.
Qed.

Lemma Close_flag ty ev s : closeFlag (Close clears ty ev s) = true.
Proof.
  unfold Close. destruct (closeFlag s) eqn:Ec; [done|]. cbv zeta.
  change (match ty with FlushWrite => _ | NoFlush => _ end) with (flushed ty (emit ECloseRead (set_closeFlag true s))).
  pose proof (wf_closed _ _ (flushed_frame ty (emit ECloseRead (set_closeFlag true s)))) as E.
  set (s1 := flushed ty _) in *. simpl in E. simpl. destruct (internalLoopStarted s1); [|done].
  unfold closeChan, closeStop. by destruct (internalStopChan s1), (close_chan _).
Qed.

Lemma Close_once ty ev s : startOnce (Close clears ty ev s) = startOnce s.
Proof.
  unfold Close. destruct (closeFlag s) eqn:Ec; [done|]. cbv zeta.
  change (match ty with FlushWrite => _ | NoFlush => _ end) with (flushed ty (emit ECloseRead (set_closeFlag true s))).
  pose proof (wf_once _ _ (flushed_frame ty (emit ECloseRead (set_closeFlag true s)))) as E.
  set (s1 := flushed ty _) in *. simpl in E. simpl. destruct (internalLoopStarted s1); [|done].
  unfold closeChan, closeStop. by destruct (internalStopChan s1), (close_chan _).
Qed.

(** The buffers of an entry that are not nil. *)
Definition live (v : list (option bytes)) : list bytes := omap (λ b, b) v.
Lemma appendBuffer_eq v s :
  appendBuffer v s = set_writeBuffers (writeBuffers s ++ live v) (set_ioBuffers (ioBuffers s ++ live v) s).
Proof.
  unfold appendBuffer. revert s. induction v as [|[b|] v IH]; intros s; simpl.
  - rewrite !app_nil_r. by destruct s.
  - rewrite IH. simpl. rewrite <- !app_assoc. done.
  - rewrite IH. done.
Qed.
End frame.

(** ** Frames

    Steps that keep the view [p] of a session and only do effects of the kind [Q]. *)
Section framed.
Context {A : Type} (p : Session → A) (Q : effect → Prop).
Definition framed (s s' : Session) : Prop := p s' = p s ∧ ∃ es, trace s' = trace s ++ es ∧ Forall Q es.
Lemma framed_trans s1 s2 s3 : framed s1 s2 → framed s2 s3 → framed s1 s3.
Proof.
  intros [E (es & T & F)] [E' (es' & T' & F')]. split; [congruence|]. exists (es ++ es').
  split; [by rewrite T', T, app_assoc|]. by apply List.Forall_app.
Qed.
Lemma framed_same s s' : p s' = p s → trace s' = trace s → framed s s'.
Proof. intros E T. split; [done|]. exists []. by rewrite app_nil_r. Qed.
Lemma framed_refl s : framed s s.
Proof. by apply framed_same. Qed.
Lemma framed_emits s s' es : (p (emits es s') = p s') → framed s s' → Forall Q es → framed s (emits es s').
Proof. intros E R F. eapply framed_trans; [exact R|]. split; [done|]. by exists es. Qed.
Lemma framed_emit s s' e : (p (emit e s') = p s') → framed s s' → Q e → framed s (emit e s').
Proof. intros E R Hs. apply (framed_emits s s' [e] E R). by repeat constructor. Qed.
End framed.

(** ** What is read *)

Module read_facts.
Definition received (tr : list effect) : bytes :=
  concat (omap (λ e, match e with ERecv d => Some d | _ => None end) tr).
Definition drained (tr : list effect) : bytes :=
  concat (omap (λ e, match e with EDrain d => Some d | _ => None end) tr).
Lemma received_app tr es : received (tr ++ es) = received tr ++ received es.
Proof. unfold received. by rewrite omap_app, concat_app. Qed.
Lemma drained_app tr es : drained (tr ++ es) = drained tr ++ drained es.
Proof. unfold drained. by rewrite omap_app, concat_app. Qed.
Definition silent (e : effect) : Prop := match e with ERecv _ | EDrain _ => False | _ => True end.
Lemma silent_none es : Forall silent es → received es = [] ∧ drained es = [].
Proof. intros F. induction F as [|e es He F [IH1 IH2]]; [done|]. by destruct e. Qed.

(** What has been read is what the filters took and what is in the read buffer. *)
Definition reads (s : Session) : Prop := drained (trace s) ++ default [] (readBuffer s) = received (trace s).

(** Steps that neither read nor take what was read. *)
Abbreviation quiet := (framed readBuffer silent).
Lemma quiet_frame s s' : wframe s s' → quiet s s'.
Proof.
  intros Fr. split; [apply Fr|]. destruct (wf_trace _ _ Fr) as (es & E & F). exists es. split; [done|].
  eapply list.Forall_impl; [exact F|]. by intros [].
Qed.

Lemma quiet_write wfs bufs s : quiet s (Write wfs bufs s).
Proof.
  unfold Write. destruct (writing_loop wfs bufs); [|apply framed_refl].
  destruct (send (writeBufferChan s) bufs); (apply framed_emit; [done|by apply framed_same|done]).
Qed.
Lemma quiet_spawn i s : quiet s (spawn_run i s).
Proof.
  unfold spawn_run. destruct (spawned s !! i); [|apply framed_refl]. cbv zeta.
  destruct (send _ _); [apply framed_emit; [done|by apply framed_same|done]..|by apply framed_same].
Qed.
Lemma quiet_recv s : quiet s (chanRecv s).2.
Proof.
  unfold chanRecv. simpl. destruct (recv (writeBufferChan s)); [|apply framed_refl|apply framed_refl].
  destruct (sendq s); [by apply framed_same|apply framed_emit; [done|by apply framed_same|done]].
Qed.
Lemma quiet_close clears ty ev s : quiet s (Close clears ty ev s).
Proof.
  unfold Close. destruct (closeFlag s); [apply framed_refl|]. cbv zeta.
  change (match ty with FlushWrite => _ | NoFlush => _ end)
    with (flushed clears ty (emit ECloseRead (set_closeFlag true s))).
  set (s1 := emit ECloseRead (set_closeFlag true s)).
  assert (quiet s (flushed clears ty s1)) as Q.
  { eapply framed_trans; [|apply quiet_frame, flushed_frame]. apply framed_emit; [done|by apply framed_same|done]. }
  set (s2 := flushed clears ty s1) in *.
  set (s3 := if internalLoopStarted s2 then closeChan (closeStop s2) else s2).
  assert (quiet s s3) as Q3.
  { eapply framed_trans; [exact Q|]. unfold s3. destruct (internalLoopStarted s2); [|apply framed_refl].
    eapply framed_trans with (closeStop s2).
    - unfold closeStop. destruct (internalStopChan s2); (apply framed_emit; [done|by apply framed_same|done]).
    - unfold closeChan. destruct (close_chan _); [|apply framed_emit; [done|apply framed_refl|done]].
      apply framed_emits; [done|by apply framed_same|]. constructor; [done|]. by apply Forall_fmap, list.Forall_true. }
  eapply framed_trans; [|by apply framed_same]. apply framed_emits; [done| |by apply Forall_fmap, list.Forall_true].
  apply framed_emit; [done| |done]. eapply framed_trans; [exact Q3|by apply framed_same].
Qed.
Lemma quiet_wstep clears late s : quiet s (writeStep clears late s).
Proof.
  unfold writeStep. destruct (wpc s) as [| |i|]; [apply framed_refl| | |apply framed_refl].
  - destruct (_ && _); [by apply framed_same|]. pose proof (quiet_recv s) as Q.
    destruct (chanRecv s) as [[v c| |] s1]; [|eapply framed_trans; [exact Q|by apply framed_same]|done].
    rewrite appendBuffer_eq. eapply framed_trans; [exact Q|by apply framed_same].
  - destruct (Nat.ltb i 10).
    + pose proof (quiet_recv s) as Q. destruct (chanRecv s) as [[v c| |] s1];
        rewrite ?appendBuffer_eq; (eapply framed_trans; [exact Q|by apply framed_same]).
    + pose proof (quiet_frame _ _ (doWrite_frame clears s)) as Q.
      destruct (doWrite clears s) as [[n [[]|]] s1]; simpl in Q;
        (eapply framed_trans; [exact Q|]); [by apply framed_same|..|by apply framed_same];
        (eapply framed_trans; [apply quiet_close|by apply framed_same]).
Qed.
Lemma reads_quiet s s' : quiet s s' → reads s → reads s'.
Proof.
  unfold reads. intros [-> (es & -> & F)] R. destruct (silent_none es F) as [E1 E2].
  by rewrite received_app, drained_app, E1, E2, !app_nil_r.
Qed.

Lemma reads_kept clears wfs : kept clears wfs reads.
Proof.
  split.
  - intros bufs s. apply reads_quiet, quiet_write.
  - intros i s. apply reads_quiet, quiet_spawn.
  - intros ty ev s. apply reads_quiet, quiet_close.
  - intros n s R. unfold reads in *. simpl. rewrite received_app, drained_app. unfold received at 2, drained at 2. simpl.
    rewrite !app_nil_r, <- app_assoc, take_drop. done.
  - intros d s R. unfold reads in *. simpl. rewrite received_app, drained_app. unfold received at 2, drained at 2. simpl.
    rewrite !app_nil_r, <- R, app_assoc. done.
  - intros s. apply reads_quiet. apply framed_emits; [done|apply framed_refl|]. by apply Forall_fmap, list.Forall_true.
  - intros s. apply reads_quiet. unfold Start. destruct (_ || _); by apply framed_same.
  - intros s. by apply reads_quiet, framed_same.
  - intros p s. by apply reads_quiet, framed_same.
  - intros late s. apply reads_quiet, quiet_wstep.
Qed.
End read_facts.

(** What is read from the socket reaches the filters, once and in order.  In any
    run of a session, what the filters have taken, and after it what is in the read
    buffer, is what was read. *)
Theorem session_reads clears wfs {F} `{SessionFilter F} acts fm i answers :
  let s := (run (F := F) clears wfs acts (fm, NewSession i answers)).2 in
  read_facts.drained (trace s) ++ default [] (readBuffer s) = read_facts.received (trace s).
Proof. apply (run_kept clears wfs read_facts.reads acts (fm, NewSession i answers)); [apply read_facts.reads_kept|done]. Qed.

(** ** How a session closes *)

Module close_facts.
Definition closing (e : effect) : bool :=
  match e with EEvent _ _ | ECloseRead | ECloseStop | ECloseChan | ECloseConn | EPanic => true | _ => false end.
Definition closings (tr : list effect) : list effect := base.filter (λ e, closing e = true) tr.
Lemma closings_app tr es : closings (tr ++ es) = closings tr ++ closings es.
Proof. apply list.filter_app. Qed.
Lemma closings_none es : Forall (λ e, closing e = false) es → closings es = [].
Proof. intros F. induction F as [|e es He F IH]; [done|]. unfold closings. rewrite filter_cons_False by congruence. done. Qed.
Lemma closings_all es : Forall (λ e, closing e = true) es → closings es = es.
Proof. intros F. induction F as [|e es He F IH]; [done|]. unfold closings. rewrite filter_cons_True by done. by f_equal. Qed.

(** The one order in which a session closes, with its loops started or not. *)
Definition closing_seq (loops : bool) (n : nat) (ev : ConnectionEvent) : list effect :=
  [ECloseRead] ++ (if loops then [ECloseStop; ECloseChan] else []) ++ [ECloseConn] ++
  ((λ cb, EEvent cb ev) <$> seq 0 n).

Definition gates (s : Session) : bool * bool * bool * bool * bool * nat :=
  (closeFlag s, internalLoopStarted s, internalStopChan s, cshut (writeBufferChan s), startOnce s, connCallbacks s).
(** [m] listeners were there while the session was open. *)
Record closes (m : nat) (s : Session) : Prop := {
  cl_low : (m ≤ connCallbacks s)%nat;
  cl_seq : if closeFlag s
           then ∃ n ev, (m ≤ n ≤ connCallbacks s)%nat ∧ closings (trace s) = closing_seq (internalLoopStarted s) n ev
           else closings (trace s) = [];
  cl_stop : internalStopChan s = closeFlag s && internalLoopStarted s;
  cl_chan : cshut (writeBufferChan s) = closeFlag s && internalLoopStarted s;
  cl_once : startOnce s = internalLoopStarted s
}.

(** Steps that close nothing. *)
Abbreviation calm := (framed gates (λ e, closing e = false)).
Lemma closes_calm m s s' : calm s s' → closes m s → closes m s'.
Proof.
  intros [G (es & T & F)] [C0 C1 C2 C3 C4]. unfold gates in G. injection G as G1 G2 G3 G4 G5 G6.
  split; rewrite ?G1, ?G2, ?G3, ?G4, ?G5, ?G6; [done| |done..]. rewrite T, closings_app, (closings_none es F), app_nil_r. done.
Qed.
Lemma calm_frame s s' : wframe s s' → calm s s'.
Proof.
  intros Fr. destruct (wf_trace _ _ Fr) as (es & E & F). split.
  - unfold gates. destruct Fr. congruence.
  - exists es. split; [done|]. eapply list.Forall_impl; [exact F|]. by intros [].
Qed.
Lemma send_gate {A} (c c' : chan A) v : send c v = Sent c' → cshut c' = cshut c.
Proof. unfold send. destruct (cshut c) eqn:E; [done|]. case_bool_decide; [|done]. intros [= <-]. done. Qed.
Lemma recv_gate {A} (c c' : chan A) v : recv c = Received v c' → cshut c' = cshut c.
Proof. unfold recv. destruct (cbuf c); [by destruct (cshut c)|]. intros [= <- <-]. done. Qed.
Ltac calm_same := apply framed_same; [unfold gates; simpl; congruence|done].

Lemma calm_write wfs bufs s : calm s (Write wfs bufs s).
Proof.
  unfold Write. destruct (writing_loop wfs bufs); [|apply framed_refl].
  destruct (send (writeBufferChan s) bufs) eqn:E; try apply send_gate in E;
    (apply framed_emit; [done|calm_same|done]).
Qed.
Lemma calm_spawn i s : calm s (spawn_run i s).
Proof.
  unfold spawn_run. destruct (spawned s !! i); [|apply framed_refl]. cbv zeta.
  destruct (send _ _) eqn:E; try apply send_gate in E; simpl in E;
    [apply framed_emit; [done|calm_same|done]..|calm_same].
Qed.
Lemma calm_recv s : calm s (chanRecv s).2.
Proof.
  unfold chanRecv. simpl. destruct (recv (writeBufferChan s)) eqn:E; [|apply framed_refl|apply framed_refl].
  apply recv_gate in E. destruct (sendq s); [calm_same|apply framed_emit; [done|calm_same|done]].
Qed.

(** A Close of an open session does the whole sequence, for the listeners there. *)
Lemma close_whole m clears ty ev s : closes m s → closeFlag s = false →
  let s' := Close clears ty ev s in
  closes m s' ∧ closeFlag s' = true ∧
  closings (trace s') = closing_seq (internalLoopStarted s) (connCallbacks s) ev.
Proof.
  intros C Ec. unfold Close. rewrite Ec. cbv zeta.
  change (match ty with FlushWrite => _ | NoFlush => _ end)
    with (flushed clears ty (emit ECloseRead (set_closeFlag true s))).
  set (s1 := emit ECloseRead (set_closeFlag true s)).
  pose proof (flushed_frame clears ty s1) as Fr. destruct (wf_trace _ _ Fr) as (es & Et & Fe).
  set (s2 := flushed clears ty s1) in *. destruct C as [C0 C1 C2 C3 C4]. rewrite Ec in C1, C2, C3.
  pose proof (wf_loops _ _ Fr) as El. pose proof (wf_stop _ _ Fr) as Es. pose proof (wf_chan _ _ Fr) as Eh.
  pose proof (wf_once _ _ Fr) as Eo. pose proof (wf_cbs _ _ Fr) as Eb. pose proof (wf_closed _ _ Fr) as Ef.
  unfold s1 in El, Es, Eh, Eo, Eb, Ef, Et. simpl in El, Es, Eh, Eo, Eb, Ef, Et.
  assert (closings es = []) as En.
  { apply closings_none. eapply list.Forall_impl; [exact Fe|]. by intros []. }
  assert (∀ n, closings ((λ cb, EEvent cb ev) <$> seq 0 n) = (λ cb, EEvent cb ev) <$> seq 0 n) as Ev.
  { intros n. apply closings_all. by apply Forall_fmap, list.Forall_true. }
  assert (∀ q, closings (ELost <$> q) = []) as Eq.
  { intros q. apply closings_none. by apply Forall_fmap, list.Forall_true. }
  assert (closings (trace s2) = [ECloseRead]) as E2 by (by rewrite Et, !closings_app, C1, En).
  unfold closeChan, closeStop, close_chan. destruct (internalLoopStarted s2) eqn:E3.
  - rewrite Es, C2. simpl. rewrite Eh, C3. simpl. rewrite ?Ef, <- El, Eb, !closings_app, E2.
    change (closings (ECloseChan :: (ELost <$> sendq s2))) with (ECloseChan :: closings (ELost <$> sendq s2)).
    rewrite Eq, Ev. split; [|done]. split; simpl; rewrite ?Ef, ?E3; [lia| |done|done|congruence].
    exists (connCallbacks s), ev. split; [lia|]. rewrite ?Eb, !closings_app, E2.
    change (closings (ECloseChan :: (ELost <$> sendq s2))) with (ECloseChan :: closings (ELost <$> sendq s2)).
    rewrite Eq, Ev. done.
  - simpl. rewrite ?Ef, <- El, Eb, !closings_app, E2, Ev. split; [|done].
    split; simpl; rewrite ?Ef, ?E3; [lia| |by rewrite Es, C2|by rewrite Eh, C3|congruence].
    exists (connCallbacks s), ev. split; [lia|]. rewrite ?Eb, !closings_app, E2, Ev. done.
Qed.
Lemma closes_close m clears ty ev s : closes m s → closes m (Close clears ty ev s).
Proof.
  intros C. destruct (closeFlag s) eqn:Ec; [unfold Close; by rewrite Ec|by apply close_whole].
Qed.
Lemma closes_wpc m p s : closes m s → closes m (set_wpc p s).
Proof. by intros []. Qed.
Lemma closes_bufs m v w s : closes m s → closes m (set_writeBuffers v (set_ioBuffers w s)).
Proof. by intros []. Qed.
Lemma closes_wstep m clears late s : closes m s → closes m (writeStep clears late s).
Proof.
  intros C. unfold writeStep. destruct (wpc s) as [| |i|]; [done| | |done].
  - destruct (_ && _); [by apply closes_wpc|]. pose proof (closes_calm m _ _ (calm_recv s) C) as C'.
    destruct (chanRecv s) as [[v c| |] s1]; simpl in C'; rewrite ?appendBuffer_eq; [|by apply closes_wpc|done].
    by apply closes_wpc, closes_bufs.
  - destruct (Nat.ltb i 10).
    + pose proof (closes_calm m _ _ (calm_recv s) C) as C'. destruct (chanRecv s) as [[v c| |] s1]; simpl in C';
        rewrite ?appendBuffer_eq; apply closes_wpc; [by apply closes_bufs|by apply closes_bufs|done].
    + pose proof (closes_calm m _ _ (calm_frame _ _ (doWrite_frame clears s)) C) as C'.
      destruct (doWrite clears s) as [[n [[]|]] s1]; simpl in C'; apply closes_wpc;
        [done|apply closes_close..|]; done.
Qed.
Lemma closes_kept m clears wfs : kept clears wfs (closes m).
Proof.
  split.
  - intros bufs s. apply closes_calm, calm_write.
  - intros i s. apply closes_calm, calm_spawn.
  - intros ty ev s. apply closes_close.
  - intros n s. apply closes_calm. apply framed_emit; [done|calm_same|done].
  - intros d s. apply closes_calm. apply framed_emit; [done|calm_same|done].
  - intros s. apply closes_calm. apply framed_emits; [done|apply framed_refl|]. by apply Forall_fmap, list.Forall_true.
  - intros s C. unfold Start. destruct (closeFlag s || startOnce s) eqn:E; [done|].
    apply orb_false_elim in E as [Ec Eo]. destruct C as [C0 C1 C2 C3 C4]. rewrite Ec in *. by split; simpl; rewrite ?Ec.
  - intros s [C0 C1 C2 C3 C4]. split; simpl; try done; [lia|]. destruct (closeFlag s); [|done].
    destruct C1 as (n & ev & Hn & E). exists n, ev. split; [lia|done].
  - intros p s. apply closes_calm. calm_same.
  - intros late s. apply closes_wstep.
Qed.

(** After a closing nothing of one is done again. *)
Definition over (cl : list effect) (s : Session) : Prop := closeFlag s = true ∧ closings (trace s) = cl.
Lemma over_calm cl s s' : calm s s' → over cl s → over cl s'.
Proof.
  intros [G (es & T & Fe)] [L1 L2]. unfold gates in G. injection G as G1 _ _ _ _ _.
  split; [congruence|]. by rewrite T, closings_app, (closings_none es Fe), app_nil_r.
Qed.
Lemma wstep_calm clears late s : closeFlag s = true → calm s (writeStep clears late s).
Proof.
  intros Hc. unfold writeStep. destruct (wpc s) as [| |i|]; [apply framed_refl| | |apply framed_refl].
  - destruct (_ && _); [by apply framed_same|]. pose proof (calm_recv s) as Q.
    destruct (chanRecv s) as [[v c| |] s1]; rewrite ?appendBuffer_eq; [|eapply framed_trans; [exact Q|by apply framed_same]|done].
    eapply framed_trans; [exact Q|by apply framed_same].
  - destruct (Nat.ltb i 10).
    + pose proof (calm_recv s) as Q. destruct (chanRecv s) as [[v c| |] s1];
        rewrite ?appendBuffer_eq; (eapply framed_trans; [exact Q|by apply framed_same]).
    + pose proof (calm_frame _ _ (doWrite_frame clears s)) as Q.
      pose proof (wf_closed _ _ (doWrite_frame clears s)) as Ec. rewrite Hc in Ec.
      destruct (doWrite clears s) as [[n [[]|]] s1]; simpl in Q, Ec; unfold Close; rewrite ?Ec;
        (eapply framed_trans; [exact Q|by apply framed_same]).
Qed.
Lemma over_kept clears wfs cl : kept clears wfs (over cl).
Proof.
  split.
  - intros bufs s. apply over_calm, calm_write.
  - intros i s. apply over_calm, calm_spawn.
  - intros ty ev s L. unfold Close. by rewrite (proj1 L).
  - intros n s. apply over_calm. apply framed_emit; [done|by apply framed_same|done].
  - intros d s. apply over_calm. apply framed_emit; [done|by apply framed_same|done].
  - intros s. apply over_calm. apply framed_emits; [done|apply framed_refl|by apply Forall_fmap, list.Forall_true].
  - intros s L. unfold Start. by rewrite (proj1 L).
  - by intros s.
  - by intros p s.
  - intros late s L. eapply over_calm; [|exact L]. apply wstep_calm, L.
Qed.
Lemma closing_panicless loops n ev : EPanic ∉ closing_seq loops n ev.
Proof. unfold closing_seq. destruct loops; set_solver. Qed.
End close_facts.

(** C10: a session closes once, and tells every listener.  Let [s1] be the session
    after some of a run and [s] at its end, with Close called by both loops, by
    filters and by anybody else any number of times.  No channel is closed twice.
    While [s] is open nothing has been closed.  If [s1] was open and [s] is closed,
    one closing sequence was done: reading off, the channels of the loops, the
    connection, and then one event, the same for each listener, told once to at
    least every listener that was there in [s1].  If [s1] was open and the next
    call is Close with event [ev], the session is closed with the sequence for
    exactly the listeners of [s1] and the event [ev].  If [s1] was closed already,
    nothing of a closing is done after it. *)
Theorem session_closes_once clears wfs {F} `{SessionFilter F} acts1 acts2 fm i answers :
  let s1 := (run (F := F) clears wfs acts1 (fm, NewSession i answers)).2 in
  let s := (run (F := F) clears wfs (acts1 ++ acts2) (fm, NewSession i answers)).2 in
  EPanic ∉ trace s ∧
  (closeFlag s = false → close_facts.closings (trace s) = []) ∧
  (closeFlag s1 = false → closeFlag s = true →
   ∃ n ev, (connCallbacks s1 ≤ n ≤ connCallbacks s)%nat ∧
     close_facts.closings (trace s) = close_facts.closing_seq (internalLoopStarted s) n ev) ∧
  (closeFlag s1 = false → ∀ ty ev acts, acts2 = AClose ty ev :: acts →
   closeFlag s = true ∧
   close_facts.closings (trace s) =
     close_facts.closing_seq (internalLoopStarted s1) (connCallbacks s1) ev) ∧
  (closeFlag s1 = true →
   closeFlag s = true ∧ close_facts.closings (trace s) = close_facts.closings (trace s1)).
Proof.
  intros s1 s. assert (close_facts.closes 0 s1) as C1.
  { apply (run_kept clears wfs (close_facts.closes 0)); [apply close_facts.closes_kept|by split]. }
  assert (∀ P, kept clears wfs P → P s1 → P s) as Hk.
  { intros P K Ps. unfold s, run. rewrite foldl_app. by apply (run_kept clears wfs P). }
  pose proof (Hk _ (close_facts.closes_kept 0 clears wfs) C1) as C. split_and!.
  - intros I. assert (EPanic ∈ close_facts.closings (trace s)) as I' by by apply list_elem_of_filter.
    destruct C as [_ C _ _ _]. destruct (closeFlag s); [|rewrite C in I'; by apply elem_of_nil in I'].
    destruct C as (n & ev & _ & E). rewrite E in I'. by apply close_facts.closing_panicless in I'.
  - intros Ec. destruct C as [_ C _ _ _]. by rewrite Ec in C.
  - intros E1 Ec. destruct (Hk _ (close_facts.closes_kept (connCallbacks s1) clears wfs)) as [_ C' _ _ _].
    { destruct C1 as [_ C1 C2 C3 C4]. rewrite E1 in *. by split; rewrite ?E1. }
    by rewrite Ec in C'.
  - intros E1 ty ev acts ->. destruct (close_facts.close_whole 0 clears ty ev s1 C1 E1) as (_ & Hf & Ht).
    assert (close_facts.over (close_facts.closing_seq (internalLoopStarted s1) (connCallbacks s1) ev) s) as O; [|exact O].
    unfold s, run. rewrite foldl_app. cbn [foldl].
    apply (run_kept clears wfs (close_facts.over _)); [apply close_facts.over_kept|].
    unfold s1, run in *. by destruct (foldl _ _ acts1).
  - intros E1. by apply (Hk (close_facts.over (close_facts.closings (trace s1)))); [apply close_facts.over_kept|].
Qed.

(** ** What is written *)

Module write_facts.
Definition sentOf (tr : list effect) : bytes :=
  concat (omap (λ e, match e with ESent d => Some d | _ => None end) tr).
Definition putsOf (tr : list effect) : list bytes := omap (λ e, match e with EPut b => Some b | _ => None end) tr.
Definition queuedOf (tr : list effect) : list bytes :=
  concat (omap (λ e, match e with EQueue v => Some (live v) | _ => None end) tr).
Definition spawns (tr : list effect) : list (list (option bytes)) :=
  omap (λ e, match e with ESpawn v => Some v | _ => None end) tr.
Lemma sentOf_app tr es : sentOf (tr ++ es) = sentOf tr ++ sentOf es.
Proof. unfold sentOf. by rewrite omap_app, concat_app. Qed.
Lemma putsOf_app tr es : putsOf (tr ++ es) = putsOf tr ++ putsOf es.
Proof. apply omap_app. Qed.
Lemma queuedOf_app tr es : queuedOf (tr ++ es) = queuedOf tr ++ queuedOf es.
Proof. unfold queuedOf. by rewrite omap_app, concat_app. Qed.
Lemma spawns_app tr es : spawns (tr ++ es) = spawns tr ++ spawns es.
Proof. apply omap_app. Qed.
Lemma putsOf_puts l : putsOf (EPut <$> l) = l.
Proof. unfold putsOf. induction l as [|b l IH]; [done|]. simpl. by f_equal. Qed.

(** Effects that are not about what is written. *)
Definition noise (e : effect) : Prop :=
  match e with ESent _ | EPut _ | EQueue _ | ESpawn _ => False | _ => True end.
Lemma noise_none es : Forall noise es → sentOf es = [] ∧ putsOf es = [] ∧ queuedOf es = [] ∧ spawns es = [].
Proof. intros F. induction F as [|e es He F (IH1 & IH2 & IH3 & IH4)]; [done|]. by destruct e. Qed.
Lemma puts_others l : sentOf (EPut <$> l) = [] ∧ queuedOf (EPut <$> l) = [] ∧ spawns (EPut <$> l) = [].
Proof. induction l as [|b l IH]; done. Qed.

(** net.Buffers.consume takes bytes from the front. *)
Lemma consume_slice clears n v : 0 ≤ n ≤ zlen (concat v) →
  concat (consume clears n v).2 = drop (Z.to_nat n) (concat v) ∧
  (clears = true → concat (consume clears n v).1 = drop (Z.to_nat n) (concat v)).
Proof.
  revert n. induction v as [|b v IH]; intros n Hn; simpl; [by rewrite drop_nil|].
  simpl in Hn. rewrite zlen_app in Hn. destruct (n <? zlen b) eqn:E; bdec.
  - simpl. rewrite drop_app_le by (unfold zlen in *; lia). done.
  - destruct (IH (n - zlen b)) as [E1 E2]; [lia|]. destruct (consume clears (n - zlen b) v) as [a r]. simpl in *.
    rewrite drop_app_ge by (unfold zlen in *; lia).
    replace (Z.to_nat n - length b)%nat with (Z.to_nat (n - zlen b)) by (unfold zlen in *; lia).
    split; [done|]. intros ->. simpl. by apply E2.
Qed.
Lemma consume_all clears v : (consume clears (zlen (concat v)) v).2 = [].
Proof.
  induction v as [|b v IH]; [done|]. simpl. rewrite zlen_app.
  pose proof (zlen_nonneg (concat v)). rewrite (proj2 (Z.ltb_ge _ _)) by lia.
  replace (zlen b + zlen (concat v) - zlen b) with (zlen (concat v)) by lia.
  destruct (consume clears (zlen (concat v)) v) as [a r]. done.
Qed.

Section writes.
Context (clears : bool) (wfs : list (list (option bytes) → FilterStatus)).
Implicit Types s : Session.

(** What was queued is put back, or held by the loop, or in the channel; what was
    sent and what is left of the held buffers is the former. *)
Record balanced s : Prop := {
  bl_bytes : sentOf (trace s) ++ concat (writeBuffers s) = concat (putsOf (trace s) ++ ioBuffers s);
  bl_bufs : putsOf (trace s) ++ ioBuffers s ++ concat (live <$> cbuf (writeBufferChan s)) = queuedOf (trace s)
}.
Definition inOrder s : Prop :=
  sentOf (trace s) `prefix_of` concat (queuedOf (trace s)) ∧ putsOf (trace s) `prefix_of` queuedOf (trace s).
Lemma balanced_order s : balanced s → inOrder s.
Proof.
  intros [E1 E2]. split; rewrite <- E2; [|by exists (ioBuffers s ++ concat (live <$> cbuf (writeBufferChan s)))].
  rewrite app_assoc, concat_app, <- E1, <- app_assoc. by eexists.
Qed.
(** No timeouts, or slots that are cleared. *)
Definition fine s : Prop := clears = true ∨ Forall (λ r, failure r ≠ Some WTimeout) (script s).

Lemma answer_spec n s : 0 ≤ n → fine s →
  let '(k, e, s') := answer n s in
  0 ≤ k ≤ n ∧ fine s' ∧ (e = None → k = n) ∧ (e = Some WTimeout → clears = true) ∧
  writeBuffers s' = writeBuffers s ∧ ioBuffers s' = ioBuffers s ∧ trace s' = trace s ∧
  writeBufferChan s' = writeBufferChan s.
Proof.
  intros Hn Hf. unfold answer. destruct (rawClosed s); [by repeat split; try lia|].
  destruct (script s) as [|[k e] rest] eqn:Es; [by repeat split; try lia|].
  assert (fine (set_script rest s)) as Hf'.
  { destruct Hf as [Hc|F]; [by left|]. right. simpl. rewrite Es in F. by inversion F. }
  destruct e as [e|]; (split; [lia|]); (split; [done|]); (split; [done || lia|]); [|done].
  split; [|done]. intros [= ->]. destruct Hf as [Hc|F]; [done|]. rewrite Es in F. by inversion F.
Qed.

Lemma doWrite_balanced s : balanced s → fine s →
  let '(_, e, s') := doWrite clears s in
  inOrder s' ∧ fine s' ∧ (e = None ∨ e = Some WTimeout → balanced s').
Proof.
  intros [B1 B2] Hf. unfold doWrite, doWriteIo.
  pose proof (answer_spec (writeBufLen s) s (zlen_nonneg _) Hf) as A.
  destruct (answer (writeBufLen s) s) as [[n e] s1]. destruct A as (Hn & Hf1 & Hk & Hc & Ew & Ei & Et & Eh).
  unfold writeBufLen in Hn, Hk. rewrite Ew. destruct (consume_slice clears n (writeBuffers s) Hn) as [C1 C2].
  pose proof (consume_all clears (writeBuffers s)) as Ca.
  destruct (consume clears n (writeBuffers s)) as [array buffers] eqn:Ec. simpl in C1, C2.
  set (d := take (Z.to_nat n) (concat (writeBuffers s))).
  assert (sentOf (trace s) ++ d ++ drop (Z.to_nat n) (concat (writeBuffers s)) =
    concat (putsOf (trace s) ++ ioBuffers s)) as E1 by (unfold d; by rewrite take_drop).
  destruct e as [e|].
  - assert (inOrder (set_writeBuffers array (emit (ESent d) s1))) as O.
    { unfold inOrder. simpl. rewrite Et, sentOf_app, putsOf_app, queuedOf_app. unfold sentOf at 2, putsOf at 2, queuedOf at 2 4.
      simpl. rewrite !app_nil_r, <- B2. split; [|by eexists].
      rewrite app_assoc, concat_app, <- E1. eexists. by rewrite <- !app_assoc. }
    split; [done|]. split; [done|]. intros [?|[= ->]]; [done|]. split; simpl.
    + rewrite Et, sentOf_app, putsOf_app. unfold sentOf at 2, putsOf at 2. simpl. rewrite !app_nil_r, Ei.
      rewrite C2 by auto. by rewrite <- app_assoc.
    + rewrite Et, putsOf_app, queuedOf_app. unfold putsOf at 2, queuedOf at 2. simpl. by rewrite !app_nil_r, Ei, Eh.
  - specialize (Hk eq_refl). subst n. rewrite Ec in Ca. simpl in Ca. subst buffers. simpl.
    rewrite Ei. assert (balanced (resetBuffer (emits (EPut <$> ioBuffers s) (emit (ESent d) s1)))) as Bal.
    { destruct (puts_others (ioBuffers s)) as (P1 & P2 & _). split; simpl; rewrite Et, ?app_nil_r.
      - rewrite !sentOf_app, !putsOf_app, P1, putsOf_puts, app_nil_r. unfold sentOf at 2, putsOf at 2. simpl.
        rewrite !app_nil_r. rewrite <- E1. simpl in C1. by rewrite <- C1, app_nil_r.
      - rewrite !putsOf_app, !queuedOf_app, P2, putsOf_puts. unfold putsOf at 2, queuedOf at 2. simpl.
        by rewrite !app_nil_r, Eh, <- app_assoc. }
    split; [by apply balanced_order|]. split; [done|]. by intros _.
Qed.
Lemma doWrite_fine s : fine s → fine (doWrite clears s).2.
Proof.
  intros Hf. unfold doWrite, doWriteIo. pose proof (answer_spec (writeBufLen s) s (zlen_nonneg _) Hf) as A.
  destruct (answer (writeBufLen s) s) as [[n e] s1]. destruct A as (_ & Hf1 & _).
  destruct (consume clears n (writeBuffers s1)) as [array buffers]. destruct e; [done|]. simpl. by destruct (zlen buffers =? 0).
Qed.
Lemma flush_fine fuel s s' : fine s → flush_loop clears fuel s = Some s' → fine s'.
Proof.
  revert s. induction fuel as [|fuel IH]; intros s Hf E; [done|]. simpl in E. pose proof (doWrite_fine s Hf) as D.
  destruct (doWrite clears s) as [[n e] s1]. simpl in D.
  destruct (_ && _); [by injection E as <-|]. destruct (n =? 0); [by injection E as <-|]. by apply (IH s1).
Qed.
Lemma flushed_fine ty s : fine s → fine (flushed clears ty s).
Proof.
  intros Hf. destruct ty; unfold flushed; [|done]. destruct (0 <? writeBufLen s); [|done]. cbv zeta.
  destruct (flush_loop clears _ _) as [s'|] eqn:E; [|done].
  by apply (flush_fine (2 + length (script (set_closeWithFlush true s))) (set_closeWithFlush true s) s').
Qed.
Lemma flush_order fuel s s' : balanced s → fine s → flush_loop clears fuel s = Some s' → inOrder s'.
Proof.
  revert s. induction fuel as [|fuel IH]; intros s B Hf E; [done|]. simpl in E.
  pose proof (doWrite_balanced s B Hf) as D. destruct (doWrite clears s) as [[n e] s1]. destruct D as (D1 & D2 & D3).
  destruct (_ && _) eqn:Eb; [by injection E as <-|]. destruct (n =? 0); [by injection E as <-|].
  apply (IH s1); [|done|done]. apply D3. destruct e as [e|]; [right|by left].
  simpl in Eb. apply negb_false_iff, bool_decide_eq_true_1 in Eb. done.
Qed.
Lemma flushed_order ty s : balanced s → fine s → inOrder (flushed clears ty s).
Proof.
  intros B Hf. destruct ty; unfold flushed; [|by apply balanced_order].
  destruct (0 <? writeBufLen s); [|by apply balanced_order]. cbv zeta.
  assert (balanced (set_closeWithFlush true s)) as B' by (destruct B; by split).
  destruct (flush_loop clears _ _) as [s'|] eqn:E.
  - by apply (flush_order (2 + length (script (set_closeWithFlush true s))) (set_closeWithFlush true s) s').
  - by apply balanced_order.
Qed.

(** The invariant of a run in which nothing was left to a goroutine. *)
Record calmly s : Prop := {
  ca_spawned : spawned s = []; ca_sendq : sendq s = []; ca_order : inOrder s;
  ca_balanced : closeFlag s = false → balanced s
}.
Record writes s : Prop := {
  wr_fine : fine s;
  wr_raw : closeFlag s = true → rawClosed s = true;
  wr_pc : closeFlag s = false → wpc s ≠ WExit;
  wr_calm : spawns (trace s) = [] → calmly s
}.

(** Steps that only make noise. *)
Definition view s : list sockRes * bool * bool * writePc * list (list (option bytes)) * list (list (option bytes)) *
    list bytes * list bytes * list (list (option bytes)) :=
  (script s, closeFlag s, rawClosed s, wpc s, spawned s, sendq s, writeBuffers s, ioBuffers s,
   cbuf (writeBufferChan s)).
Lemma order_noise s s' es : trace s' = trace s ++ es → Forall noise es → inOrder s → inOrder s'.
Proof.
  unfold inOrder. intros -> F O. destruct (noise_none es F) as (E1 & E2 & E3 & _).
  by rewrite sentOf_app, putsOf_app, queuedOf_app, E1, E2, E3, !app_nil_r.
Qed.
Lemma writes_noise s s' : framed view noise s s' → writes s → writes s'.
Proof.
  intros [V (es & T & F)] [W1 W2 W3 W4]. unfold view in V. injection V as V1 V2 V3 V4 V5 V6 V7 V8 V9.
  destruct (noise_none es F) as (E1 & E2 & E3 & E4). split.
  - unfold fine in *. by rewrite V1.
  - by rewrite V2, V3.
  - by rewrite V2, V4.
  - rewrite T, spawns_app, E4, app_nil_r. intros Hn. destruct (W4 Hn) as [C1 C2 C3 C4].
    split; [congruence|congruence|by eapply order_noise|]. rewrite V2. intros Hc. destruct (C4 Hc) as [B1 B2].
    split; rewrite T, ?V7, ?V8, ?V9, ?sentOf_app, ?putsOf_app, ?queuedOf_app, ?E1, ?E2, ?E3, ?app_nil_r; done.
Qed.

(** An entry that is queued. *)
Lemma order_queue s s' v : trace s' = trace s ++ [EQueue v] → inOrder s → inOrder s'.
Proof.
  unfold inOrder. intros -> [O1 O2]. rewrite sentOf_app, putsOf_app, queuedOf_app.
  unfold sentOf at 2, putsOf at 2. simpl. rewrite !app_nil_r, concat_app. split; by apply prefix_app_r.
Qed.
Lemma balanced_queue s c v :
  balanced s → cbuf c = cbuf (writeBufferChan s) ++ [v] → balanced (emit (EQueue v) (set_writeBufferChan c s)).
Proof.
  intros [B1 B2] Ec. split; simpl; rewrite ?sentOf_app, ?putsOf_app, ?queuedOf_app; unfold putsOf at 2; simpl.
  - unfold sentOf at 2. simpl. by rewrite !app_nil_r.
  - unfold queuedOf at 2. simpl. by rewrite !app_nil_r, Ec, fmap_app, concat_app, <- B2, <- !app_assoc; simpl; rewrite app_nil_r.
Qed.
Lemma send_buf {A} (c c' : chan A) v : send c v = Sent c' → cbuf c' = cbuf c ++ [v].
Proof. unfold send. destruct (cshut c); [done|]. case_bool_decide; [|done]. by intros [= <-]. Qed.

Lemma writes_write bufs s : writes s → writes (Write wfs bufs s).
Proof.
  intros W. unfold Write. destruct (writing_loop wfs bufs); [|done]. destruct (send (writeBufferChan s) bufs) as [c| |] eqn:E.
  - apply send_buf in E. destruct W as [W1 W2 W3 W4]. split; [done|done|done|]. simpl. rewrite spawns_app, app_nil_r.
    intros Hn. destruct (W4 Hn) as [C1 C2 C3 C4]. split; [done|done|by eapply order_queue|]. simpl. intros Hc.
    by apply balanced_queue; [apply C4|].
  - revert W. apply writes_noise. apply framed_emit; [done|by apply framed_refl|done].
  - destruct W as [W1 W2 W3 W4]. split; [done|done|done|]. simpl. rewrite spawns_app. intros Hn.
    by apply app_nil in Hn as [_ ?].
Qed.
Lemma writes_spawn i s : writes s → writes (spawn_run i s).
Proof.
  intros W. unfold spawn_run. destruct (spawned s !! i) as [bufs|] eqn:Ei; [|done]. destruct W as [W1 W2 W3 W4].
  assert (spawns (trace s) = [] → False) as Hno.
  { intros Hn. destruct (W4 Hn) as [C1 _ _ _]. by rewrite C1 in Ei. }
  cbv zeta. destruct (send _ _) as [c| |]; (split; [done|done|done|]); simpl; rewrite ?spawns_app, ?app_nil_r; by intros ?%Hno.
Qed.

(** Close, from what flushing leaves. *)
Lemma writes_closing ty ev s :
  closeFlag s = false → (let s1 := flushed clears ty (emit ECloseRead (set_closeFlag true s)) in
    fine s1 ∧ (spawns (trace s1) = [] → spawned s1 = [] ∧ sendq s1 = [] ∧ inOrder s1)) →
  writes (Close clears ty ev s).
Proof.
  intros Hc Hs. unfold Close. rewrite Hc. cbv zeta.
  change (match ty with FlushWrite => _ | NoFlush => _ end)
    with (flushed clears ty (emit ECloseRead (set_closeFlag true s))).
  pose proof (flushed_frame clears ty (emit ECloseRead (set_closeFlag true s))) as Fr.
  set (s1 := flushed clears ty _) in *. destruct Hs as [Hf Hs].
  assert (closeFlag s1 = true) as Hc1 by by rewrite (wf_closed _ _ Fr).
  set (s2 := if internalLoopStarted s1 then closeChan (closeStop s1) else s1).
  assert (framed (λ s, (script s, closeFlag s, spawned s)) noise s1 s2 ∧ (sendq s1 = [] → sendq s2 = [])) as [[Hv (es & Ht & Hn)] Hq].
  { unfold s2. destruct (internalLoopStarted s1); [|split; [apply framed_refl|done]].
    assert (framed (λ s, (script s, closeFlag s, spawned s)) noise s1 (closeStop s1) ∧ sendq (closeStop s1) = sendq s1) as [Fs Es].
    { unfold closeStop. destruct (internalStopChan s1); (split; [|done]); apply framed_emit; try done; by apply framed_same. }
    unfold closeChan. destruct (close_chan _); (split; [|simpl; congruence]).
    - apply framed_emits; [done| |constructor; [done|by apply Forall_fmap, list.Forall_true]].
      eapply framed_trans; [exact Fs|by apply framed_same].
    - by apply framed_emit. }
  injection Hv as V1 V2 V3. split; simpl; [unfold fine in *; simpl; by rewrite V1|done|congruence|].
  rewrite !spawns_app, Ht, spawns_app. destruct (noise_none es Hn) as (_ & _ & _ & ->).
  assert (Forall noise ([ECloseConn] ++ ((λ cb, EEvent cb ev) <$> seq 0 (connCallbacks s2)))) as Fn
    by (constructor; [done|by apply Forall_fmap, list.Forall_true]).
  intros Hsp. apply app_nil in Hsp as [Hsp _]. apply app_nil in Hsp as [Hsp _]. rewrite app_nil_r in Hsp.
  destruct (Hs Hsp) as (S1 & S2 & S3). split; simpl; [congruence|by apply Hq| |congruence].
  eapply (order_noise s1 _ (es ++ [ECloseConn] ++ ((λ cb, EEvent cb ev) <$> seq 0 (connCallbacks s2)))); [|by apply List.Forall_app|done].
  simpl. by rewrite Ht, <- !app_assoc.
Qed.
Lemma writes_close ty ev s : writes s → writes (Close clears ty ev s).
Proof.
  intros W. destruct (closeFlag s) eqn:Hc; [unfold Close; by rewrite Hc|]. apply writes_closing; [done|]. cbv zeta.
  destruct W as [W1 W2 W3 W4]. set (s1 := emit ECloseRead (set_closeFlag true s)).
  pose proof (flushed_frame clears ty s1) as Fr. split; [by apply flushed_fine|]. intros Hn.
  destruct (wf_trace _ _ Fr) as (es & Et & _). rewrite Et in Hn. unfold s1 in Hn. simpl in Hn.
  rewrite !spawns_app in Hn. apply app_nil in Hn as [Hn _]. apply app_nil in Hn as [Hn _].
  destruct (W4 Hn) as [C1 C2 C3 C4]. split; [by rewrite (wf_spawned _ _ Fr)|]. split; [by rewrite (wf_sendq _ _ Fr)|].
  apply flushed_order; [|done]. destruct (C4 Hc) as [B1 B2]. split; simpl;
    rewrite ?sentOf_app, ?putsOf_app, ?queuedOf_app; [by rewrite !app_nil_r|by rewrite !app_nil_r].
Qed.

(** The steps of the write loop. *)
Lemma writes_wpc p s : (closeFlag s = false → p ≠ WExit) → writes s → writes (set_wpc p s).
Proof.
  intros Hp [W1 W2 W3 W4]. split; [done|done|done|]. intros Hn. destruct (W4 Hn) as [C1 C2 C3 C4].
  split; [done|done|done|]. intros Hc. by destruct (C4 Hc).
Qed.
Lemma writes_recv s :
  writes s → let '(r, s') := chanRecv s in
  closeFlag s' = closeFlag s ∧
  match r with
  | Received v _ => writes (appendBuffer v s')
  | RecvZero => s' = s ∧ cshut (writeBufferChan s) = true
  | RecvBlock => s' = s
  end.
Proof.
  intros [W1 W2 W3 W4]. unfold chanRecv, recv. destruct (cbuf (writeBufferChan s)) as [|v b] eqn:Eb.
  { by destruct (cshut (writeBufferChan s)). }
  split; [by destruct (sendq s)|]. rewrite appendBuffer_eq. destruct (sendq s) as [|q qs] eqn:Eq.
  - split; [done|done|done|]. intros Hn. destruct (W4 Hn) as [C1 C2 C3 C4]. split; [done|done|done|]. intros Hc.
    destruct (C4 Hc) as [B1 B2]. rewrite Eb in B2. simpl in B2. split; simpl.
    + by rewrite !concat_app, app_assoc, B1, concat_app, <- app_assoc.
    + rewrite <- B2. by rewrite <- !app_assoc.
  - split; [done|done|done|]. simpl. rewrite spawns_app, app_nil_r. intros Hn. destruct (W4 Hn) as [_ C2 _ _]. congruence.
Qed.
(** A socket that is closed takes nothing. *)
Lemma doWrite_closed s : rawClosed s = true →
  ∃ v, doWrite clears s = (0, Some WOther, set_writeBuffers v (emit (ESent []) s)).
Proof.
  intros Hr. unfold doWrite, doWriteIo, answer. rewrite Hr.
  destruct (consume clears 0 (writeBuffers s)) as [array buffers]. by exists array.
Qed.
Lemma writes_written s : writes s →
  let '(_, e, s') := doWrite clears s in
  (e = None ∨ e = Some WTimeout → writes s') ∧
  (e ≠ None → e ≠ Some WTimeout → ∀ ev, writes (set_wpc WExit (Close clears NoFlush ev s'))).
Proof.
  intros W. destruct (closeFlag s) eqn:Hc.
  - destruct (doWrite_closed s (wr_raw s W Hc)) as [v ->]. split; [by intros [|]|]. intros _ _ ev.
    unfold Close. simpl. rewrite Hc. destruct W as [W1 W2 W3 W4]. split; [done|done|simpl; congruence|].
    simpl. rewrite spawns_app, app_nil_r. intros Hn. destruct (W4 Hn) as [C1 C2 C3 C4].
    split; [done|done| |simpl; congruence]. unfold inOrder in *. simpl.
    rewrite sentOf_app, putsOf_app, queuedOf_app. unfold sentOf at 2, putsOf at 2, queuedOf at 2 4. simpl.
    by rewrite !app_nil_r.
  - pose proof (doWrite_frame clears s) as Fr. pose proof (doWrite_fine s (wr_fine s W)) as Hf.
    destruct W as [W1 W2 W3 W4]. pose proof (λ Hn, doWrite_balanced s (ca_balanced s (W4 Hn) Hc) W1) as D.
    destruct (doWrite clears s) as [[n e] s1]. simpl in Fr, Hf. destruct (wf_trace _ _ Fr) as (es & Et & Fe).
    assert (spawns (trace s1) = [] → spawns (trace s) = []) as Hsp.
    { rewrite Et, spawns_app. by intros [? _]%app_nil. }
    pose proof (wf_closed _ _ Fr) as Ec. rewrite Hc in Ec. split.
    + intros He. split; [done|congruence|rewrite (wf_wpc _ _ Fr); auto|]. intros Hn%Hsp.
      destruct (D Hn) as (D1 & D2 & D3). destruct (W4 Hn) as [C1 C2 C3 C4].
      split; [by rewrite (wf_spawned _ _ Fr)|by rewrite (wf_sendq _ _ Fr)|done|]. intros _. by apply D3.
    + intros _ _ ev. assert (writes (Close clears NoFlush ev s1)) as Wc.
      { apply writes_closing; [done|]. simpl. split; [done|]. rewrite spawns_app, app_nil_r. intros Hn%Hsp.
        destruct (D Hn) as (D1 & _). destruct (W4 Hn) as [C1 C2 C3 C4].
        split; [by rewrite (wf_spawned _ _ Fr)|]. split; [by rewrite (wf_sendq _ _ Fr)|].
        eapply order_noise; [simpl; reflexivity| |exact D1]. by repeat constructor. }
      apply writes_wpc; [|done]. by rewrite Close_flag.
Qed.
Lemma writes_wstep late s : close_facts.closes 0 s → writes s → writes (writeStep clears late s).
Proof.
  intros C W. unfold writeStep. destruct (wpc s) as [| |i|]; [done| | |done].
  - destruct (internalStopChan s && negb late) eqn:Es.
    { apply writes_wpc; [|done]. intros Hc. apply andb_true_iff in Es as [Es _].
      rewrite (close_facts.cl_stop 0 s C), Hc in Es. done. }
    pose proof (writes_recv s W) as R. destruct (chanRecv s) as [[v c| |] s1]; destruct R as [Ec R].
    + by apply writes_wpc.
    + destruct R as [-> Hs]. apply writes_wpc; [|done]. intros Hc. by rewrite (close_facts.cl_chan 0 s C), Hc in Hs.
    + by subst.
  - destruct (Nat.ltb i 10).
    + pose proof (writes_recv s W) as R. destruct (chanRecv s) as [[v c| |] s1]; destruct R as [Ec R].
      * by apply writes_wpc.
      * destruct R as [-> Hs]. rewrite (close_facts.cl_chan 0 s C) in Hs. apply andb_true_iff in Hs as [Hc _].
        destruct W as [W1 W2 W3 W4]. split; [done|done|simpl; congruence|]. intros Hn. destruct (W4 Hn) as [C1 C2 C3 C4].
        split; [done|done|done|simpl; congruence].
      * subst. by apply writes_wpc.
    + pose proof (writes_written s W) as D. destruct (doWrite clears s) as [[n [[]|]] s1]; destruct D as [D1 D2];
        [apply writes_wpc; auto|by apply D2..|apply writes_wpc; auto].
Qed.
Lemma writes_start s : writes s → writes (Start s).
Proof.
  intros W. unfold Start. destruct (closeFlag s || startOnce s); [done|]. destruct W as [W1 W2 W3 W4].
  split; [done|done|done|]. intros Hn. destruct (W4 Hn) as [C1 C2 C3 C4]. split; [done|done|done|].
  intros Hc. by destruct (C4 Hc).
Qed.
Lemma writes_kept : kept clears wfs (λ s, close_facts.closes 0 s ∧ writes s).
Proof.
  pose proof (close_facts.closes_kept 0 clears wfs) as [K1 K2 K3 K4 K5 K6 K7 K8 K9 K10].
  split.
  - intros bufs s [C W]. split; [by apply K1|by apply writes_write].
  - intros i s [C W]. split; [by apply K2|by apply writes_spawn].
  - intros ty ev s [C W]. split; [by apply K3|by apply writes_close].
  - intros n s [C W]. split; [by apply K4|]. eapply writes_noise; [|done].
    apply framed_emit; [done|by apply framed_same|done].
  - intros d s [C W]. split; [by apply K5|]. eapply writes_noise; [|done].
    apply framed_emit; [done|by apply framed_same|done].
  - intros s [C W]. split; [by apply K6|]. eapply writes_noise; [|done].
    apply framed_emits; [done|apply framed_refl|by apply Forall_fmap, list.Forall_true].
  - intros s [C W]. split; [by apply K7|by apply writes_start].
  - intros s [C W]. split; [by apply K8|]. eapply writes_noise; [|done]. by apply framed_same.
  - intros p s [C W]. split; [by apply K9|]. eapply writes_noise; [|done]. by apply framed_same.
  - intros late s [C W]. split; [by apply K10|by apply writes_wstep].
Qed.
End writes.
End write_facts.

(** C4: what is written leaves in order.  In any run in which the channel is never
    full (no write is left to a goroutine), with a socket that does not time out or
    slots that are cleared: what was sent is the start of what was queued, in the
    order of the writes, with nothing lost or doubled; each buffer goes back to the
    pool at most once, in the same order; and while the session is open, what was
    not sent is held by the write loop or in the channel, so that all was sent when
    these are empty. *)
Theorem session_writes clears wfs {F} `{SessionFilter F} acts fm i answers :
  clears = true ∨ Forall (λ r, failure r ≠ Some WTimeout) answers →
  let s := (run (F := F) clears wfs acts (fm, NewSession i answers)).2 in
  write_facts.spawns (trace s) = [] →
  let sent := write_facts.sentOf (trace s) in
  let queued := write_facts.queuedOf (trace s) in
  sent `prefix_of` concat queued ∧ write_facts.putsOf (trace s) `prefix_of` queued ∧
  (closeFlag s = false →
    sent ++ concat (writeBuffers s) ++ concat (concat (live <$> cbuf (writeBufferChan s))) = concat queued).
Proof.
  intros Hf s Hn sent queued.
  destruct (run_kept clears wfs _ acts (fm, NewSession i answers) (write_facts.writes_kept clears wfs)) as [_ W].
  { split; [by split|]. split; [exact Hf|done|done|]. intros _. split; [done|done|by split|by split]. }
  fold s in W. destruct (write_facts.wr_calm _ _ W Hn) as [_ _ [O1 O2] B]. split; [exact O1|]. split; [exact O2|].
  intros Hc. destruct (B Hc) as [B1 B2]. unfold queued. rewrite <- B2, !concat_app, app_assoc.
  unfold sent. by rewrite B1, concat_app, <- app_assoc.
Qed.

(** ** Flushing *)

Module flush_facts.
Section flush.
Context (clears : bool) (wfs : list (list (option bytes) → FilterStatus)).

(** A write takes one answer from the script; without one it takes everything. *)
Lemma doWrite_script s : rawClosed s = false →
  script (doWrite clears s).2 = tail (script s) ∧
  (script s = [] → (doWrite clears s).1 = (writeBufLen s, None) ∧ writeBuffers (doWrite clears s).2 = []).
Proof.
  intros Hr. unfold doWrite, doWriteIo, answer. rewrite Hr. destruct (script s) as [|[k e] rest] eqn:Es.
  - pose proof (write_facts.consume_all clears (writeBuffers s)) as Ca. change (zlen _) with (writeBufLen s) in Ca.
    destruct (consume clears (writeBufLen s) (writeBuffers s)) as [array buffers]. simpl in Ca. subst.
    simpl. by rewrite Es.
  - split; [|done]. simpl. destruct (consume clears _ (writeBuffers s)) as [array buffers].
    destruct e; [done|]. simpl. by destruct (zlen buffers =? 0).
Qed.
Lemma flush_total n s : length (script s) = n → is_Some (flush_loop clears (2 + n) s).
Proof.
  revert s. induction n as [|n IH]; intros s Hn.
  - destruct (script s) eqn:Es; [|done]. cbn [Nat.add flush_loop].
    destruct (rawClosed s) eqn:Hr.
    { destruct (write_facts.doWrite_closed clears s Hr) as [v ->]. by eexists. }
    destruct (doWrite_script s Hr) as [E1 E2]. destruct (E2 Es) as [E3 E4].
    pose proof (wf_raw _ _ (doWrite_frame clears s)) as Er.
    destruct (doWrite clears s) as [[m e] s1]. simpl in *. injection E3 as -> ->. simpl.
    destruct (writeBufLen s =? 0); [by eexists|]. rewrite Es in E1.
    destruct (doWrite_script s1) as [_ E5]; [congruence|]. destruct (E5 E1) as [E6 _].
    destruct (doWrite clears s1) as [[m' e'] s2]. simpl in E6. injection E6 as -> ->. unfold writeBufLen. rewrite E4. by eexists.
  - change (2 + S n)%nat with (S (2 + n)). cbn [flush_loop]. destruct (rawClosed s) eqn:Hr.
    { destruct (write_facts.doWrite_closed clears s Hr) as [v ->]. by eexists. }
    destruct (doWrite_script s Hr) as [E1 _]. destruct (doWrite clears s) as [[m e] s1]. simpl in E1.
    destruct (_ && _); [by eexists|]. destruct (m =? 0); [by eexists|]. apply IH. rewrite E1.
    destruct (script s); [done|]. simpl in *. lia.
Qed.

(** A closed session, with what it had sent. *)
Definition silenced (d : bytes) (s : Session) : Prop :=
  closeFlag s = true ∧ rawClosed s = true ∧ write_facts.sentOf (trace s) = d.
Definition unsent (e : effect) : Prop := match e with ESent (_ :: _) => False | _ => True end.
Lemma unsent_none es : Forall unsent es → write_facts.sentOf es = [].
Proof. intros F. induction F as [|e es He F IH]; [done|]. by destruct e as [| | |[]| | | | | | | | | |]. Qed.
Lemma silenced_framed d s s' : framed (λ s, (closeFlag s, rawClosed s)) unsent s s' → silenced d s → silenced d s'.
Proof.
  intros [E (es & T & F)] (S1 & S2 & S3). injection E as E1 E2. split; [congruence|]. split; [congruence|].
  by rewrite T, write_facts.sentOf_app, (unsent_none es F), app_nil_r.
Qed.
Lemma silenced_wstep d late s : silenced d s → silenced d (writeStep clears late s).
Proof.
  intros Hs. assert (Hs' := Hs). destruct Hs' as (S1 & S2 & _).
  assert (framed (λ s, (closeFlag s, rawClosed s)) unsent s (chanRecv s).2) as Fc.
  { unfold chanRecv. simpl. destruct (recv (writeBufferChan s)); [|apply framed_refl|apply framed_refl].
    destruct (sendq s); [by apply framed_same|apply framed_emit; [done|by apply framed_same|done]]. }
  pose proof (silenced_framed d _ _ Fc Hs) as Hr.
  unfold writeStep. destruct (wpc s) as [| |i|]; [done| | |done].
  - destruct (_ && _); [done|]. destruct (chanRecv s) as [[v c| |] s1]; rewrite ?appendBuffer_eq; done.
  - destruct (Nat.ltb i 10); [destruct (chanRecv s) as [[v c| |] s1]; rewrite ?appendBuffer_eq; done|].
    destruct (write_facts.doWrite_closed clears s S2) as [v ->]. unfold Close. simpl. rewrite S1.
    eapply silenced_framed; [|exact Hs]. split; [done|]. exists [ESent []]. split; [done|by repeat constructor].
Qed.
Lemma silenced_kept d : kept clears wfs (silenced d).
Proof.
  split.
  - intros bufs s. apply silenced_framed. unfold Write. destruct (writing_loop wfs bufs); [|apply framed_refl].
    destruct (send _ _); (apply framed_emit; [done|by apply framed_same|done]).
  - intros i s. apply silenced_framed. unfold spawn_run. destruct (spawned s !! i); [|apply framed_refl]. cbv zeta.
    destruct (send _ _); [apply framed_emit; [done|by apply framed_same|done]..|by apply framed_same].
  - intros ty ev s Hs. assert (Hs' := Hs). destruct Hs' as (S1 & _). unfold Close. by rewrite S1.
  - intros n s. apply silenced_framed. apply framed_emit; [done|by apply framed_same|done].
  - intros d' s. apply silenced_framed. apply framed_emit; [done|by apply framed_same|done].
  - intros s. apply silenced_framed. apply framed_emits; [done|apply framed_refl|by apply Forall_fmap, list.Forall_true].
  - intros s. apply silenced_framed. unfold Start. destruct (_ || _); by apply framed_same.
  - intros s. by apply silenced_framed, framed_same.
  - intros p s. by apply silenced_framed, framed_same.
  - intros late s. apply silenced_wstep.
Qed.
(** A Close that finds nothing to flush sends nothing. *)
Lemma close_silences ty ev s :
  closeFlag s = false → writeBuffers s = [] → silenced (write_facts.sentOf (trace s)) (Close clears ty ev s).
Proof.
  intros Hc Hw. unfold Close. rewrite Hc. cbv zeta.
  set (s1 := emit ECloseRead (set_closeFlag true s)).
  replace (match ty with FlushWrite => _ | NoFlush => _ end) with s1.
  2:{ destruct ty; [|done]. unfold writeBufLen, s1. simpl. by rewrite Hw. }
  set (s2 := if internalLoopStarted s1 then _ else s1).
  assert (framed closeFlag unsent s1 s2) as [E (es & T & F)].
  { unfold s2. destruct (internalLoopStarted s1); [|apply framed_refl].
    eapply framed_trans with (closeStop s1).
    - unfold closeStop. destruct (internalStopChan s1); (apply framed_emit; [done|by apply framed_same|done]).
    - unfold closeChan. destruct (close_chan _); [|apply framed_emit; [done|apply framed_refl|done]].
      apply framed_emits; [done|by apply framed_same|]. constructor; [done|]. by apply Forall_fmap, list.Forall_true. }
  split; [simpl; by rewrite E|]. split; [done|]. simpl. rewrite T.
  rewrite !write_facts.sentOf_app, (unsent_none es F), (unsent_none ((λ cb, EEvent cb ev) <$> _))
    by by apply Forall_fmap, list.Forall_true.
  unfold s1. simpl. rewrite write_facts.sentOf_app. unfold write_facts.sentOf at 2 3. simpl. by rewrite !app_nil_r.
Qed.
End flush.
End flush_facts.

(** A Close that flushes ends, and with what it does not flush.  Its loop ends
    within one write for each answer of the socket and two more.  It flushes what
    the write loop holds; what is still in the channel is never sent, then or
    later: a Close with FlushWrite between two rounds of the write loop loses all
    that was written since. *)
Theorem flush_ends clears wfs {F} `{SessionFilter F} s ty ev acts fm :
  is_Some (flush_loop clears (2 + length (script s)) s) ∧
  (closeFlag s = false → writeBuffers s = [] →
    write_facts.sentOf (trace (run (F := F) clears wfs acts (fm, Close clears ty ev s)).2) =
    write_facts.sentOf (trace s)).
Proof.
  split; [by apply flush_facts.flush_total|]. intros Hc Hw.
  by apply (run_kept clears wfs (flush_facts.silenced (write_facts.sentOf (trace s))) acts (fm, Close clears ty ev s)
    (flush_facts.silenced_kept clears wfs _)), flush_facts.close_silences.
Qed.

(** ** Runs *)

Module session_example.
(** A filter that echoes what it gets, and closes on a q. *)
#[local] Instance echo : SessionFilter unit := {
  filterNew := λ f _, (Continue, f, []);
  filterData := λ f d, (Continue, f, [SDrain (length d); SWrite [Some d]] ++
                          (if bool_decide ("q"%byte ∈ d) then [SClose FlushWrite LocalClose] else []))
}.
Abbreviation runs clears answers acts :=
  (run (F := unit) clears [] acts (newFilterManager, NewSession 1 answers)).2.
(** A full round of the write loop. *)
Definition round : list action := replicate 12 (AWriteLoop (F := unit) false).

Lemma session_writes_witness :
  let acts := [AAddReadFilter (); AStart; AReadLoop false (bs "ab") None; AWrite [Some (bs "c"); None]] ++ round in
  let s := runs false [] acts in
  closeFlag s = false ∧ writeBuffers s = [] ∧
  write_facts.sentOf (trace s) ++ concat (writeBuffers s) ++ concat (concat (live <$> cbuf (writeBufferChan s))) = bs "abc".
Proof.
  intros acts s. split; [vm_compute; reflexivity|]. split; [vm_compute; reflexivity|].
  pose proof (session_writes false [] acts newFilterManager 1 []
    ltac:(right; constructor) ltac:(vm_compute; reflexivity)) as (_ & _ & E).
  etrans; [apply E; vm_compute; reflexivity|vm_compute; reflexivity].
Defined.

Lemma session_closes_once_witness :
  let acts1 := [AListener; AListener; AStart (F := unit)] in
  let acts2 := [AReadLoop true [] None; AWrite [Some (bs "x")]] ++ round ++ [AClose FlushWrite RemoteClose] in
  let s := runs false [] (acts1 ++ AClose NoFlush LocalClose :: acts2) in
  closeFlag s = true ∧ EPanic ∉ trace s ∧
  close_facts.closings (trace s) =
    [ECloseRead; ECloseStop; ECloseChan; ECloseConn; EEvent 0 LocalClose; EEvent 1 LocalClose].
Proof.
  intros acts1 acts2 s.
  destruct (session_closes_once (F := unit) false [] acts1 (AClose NoFlush LocalClose :: acts2) newFilterManager 1 [])
    as (H1 & _ & _ & H2 & _).
  destruct (H2 ltac:(vm_compute; reflexivity) _ _ _ eq_refl) as [H3 H4].
  split; [exact H3|]. split; [exact H1|]. etrans; [exact H4|vm_compute; reflexivity].
Defined.

(** What the filter echoes and the Close that follows it: nothing is sent. *)
Lemma flush_ends_witness :
  let s := runs false [] [AAddReadFilter (); AStart; AWrite [Some (bs "bye")]] in
  cbuf (writeBufferChan s) = [[Some (bs "bye")]] ∧
  write_facts.sentOf (trace (run (F := unit) false [] round (newFilterManager, Close false FlushWrite LocalClose s)).2) = [].
Proof.
  intros s. split; [vm_compute; reflexivity|].
  etrans; [apply (proj2 (flush_ends (F := unit) false [] s FlushWrite LocalClose round newFilterManager));
    vm_compute; reflexivity|vm_compute; reflexivity].
Defined.

(** A write that finds the channel full is overtaken by the next one, when the
    write loop makes room before its goroutine runs. *)
Example overtaken :
  let w c := AWrite (F := unit) [Some [c]] in
  let acts := [AStart] ++ replicate 32 (w "a"%byte) ++ [w "b"%byte; AWriteLoop false; w "c"%byte; ASpawned 0] ++
    concat (replicate 4 round) in
  write_facts.sentOf (trace (runs false [] acts)) = replicate 32 "a"%byte ++ bs "cb".
Proof. vm_compute. reflexivity. Qed.

(** After a timeout in the second of two buffers, go 1.12 sends the first again;
    the second goes on where it stopped. *)
Example resent :
  let acts := [AStart; AWrite (F := unit) [Some (bs "ab"); Some (bs "cd")]] ++ round ++
    [AWrite [Some (bs "e")]] ++ round in
  write_facts.sentOf (trace (runs false [mkSock 3 (Some WTimeout)] acts)) = bs "abcabde" ∧
  write_facts.sentOf (trace (runs true [mkSock 3 (Some WTimeout)] acts)) = bs "abcde".
Proof. vm_compute. done. Qed.
End session_example.
