(* ===== verification/Cluster.v ===== *)
(** * Clusters and hosts

    src/pkg/upstream/cluster: the manager of clusters (clustermanager.go), a cluster
    with its hosts (cluster.go, concreteclusters.go), hosts and host sets (host.go),
    from the configuration of src/pkg/api/v2/types.go.

    The list of hosts of a cluster is replaced by a difference against the new list,
    which would keep the objects of hosts that stay; but the methods of a host that it
    calls for such a host, Weight and SetWeight of host.go, are not written and panic.

    Every operation takes a lock for its whole length.  The fields of a
    configuration that nothing reads are left out.  Panics are values; an operation
    that panics has changed nothing before. *)

From S2P Require Import Prelude.

(** ** Configuration *)

Definition SIMPLE_CLUSTER : bytes := bs "SIMPLE".
Definition DYNAMIC_CLUSTER : bytes := bs "DYNAMIC".
Definition EDS_CLUSTER : bytes := bs "EDS".

Record HostConfig : Type := MkHostConfig {
  Address : bytes; Hostname : bytes; Weight : Z; TLSDisable : bool; MetaData : gmap bytes bytes
}.
Record ClusterConfig : Type := MkClusterConfig {
  Name : bytes; ClusterType : bytes; MaxRequestPerConn : Z; ConnBufferLimitBytes : Z;
  HealthCheckProtocol : bytes; CHosts : list HostConfig
}.

Inductive panic : Type := NotImplemented | NilDereference | IndexOutOfRange | BadAssertion.

(** ** Hosts *)

(** host, with its hostInfo; the address that is resolved is not used. *)
Record host : Type := MkHost {
  addressString : bytes; hostname : bytes; weight : Z; tlsDisable : bool; hconfig : HostConfig
}.
Definition NewHost (config : HostConfig) : host :=
  MkHost (Address config) (Hostname config) (Weight config) (TLSDisable config) config.

(** Two methods that are not written: [None] is their panic. *)
Definition host_Weight (h : host) : option Z := None.
Definition host_SetWeight (w : Z) (h : host) : option host := None.
(** [c].SetWeight([nh].Weight()). *)
Definition reweigh (c nh : host) : option host := w ← host_Weight nh; host_SetWeight w c.

(** ** Host sets *)

Record hostSet : Type := MkHostSet {
  priority : Z; hosts : list host; healthyHosts : list host; hsCallbacks : nat
}.
(** hostSet.UpdateHosts has no body. *)
Definition hostSet_UpdateHosts (hosts healthy added removed : list host) (hs : hostSet) : hostSet := hs.

Record prioritySet : Type := MkPrioritySet { hostSets : list hostSet; updateCallbacks : nat }.
Definition AddMemberUpdateCb (ps : prioritySet) : prioritySet :=
  MkPrioritySet (hostSets ps) (S (updateCallbacks ps)).
Definition createHostSet (p : Z) : hostSet := MkHostSet p [] [] 0.
Definition addMemberUpdateCb (hs : hostSet) : hostSet :=
  MkHostSet (priority hs) (hosts hs) (healthyHosts hs) (S (hsCallbacks hs)).
(** The host set of a priority (a uint32), and the host sets after it. *)
Definition GetOrCreateHostSet (p : Z) (ps : prioritySet) : res panic (hostSet * prioritySet) :=
  let n := zlen (hostSets ps) in
  let created :=
    if n <? uint32 (p + 1) then
      (λ i, addMemberUpdateCb (createHostSet (n + Z.of_nat i))) <$> seq 0 (Z.to_nat (p + 1 - n))
    else [] in
  let ps := MkPrioritySet (hostSets ps ++ created) (updateCallbacks ps) in
  match hostSets ps !! Z.to_nat p with
  | Some hs => Ok (hs, ps)
  | None => Err IndexOutOfRange
  end.
Definition GetHostsInfo (p : Z) (ps : prioritySet) : list host :=
  if p <? zlen (hostSets ps) then
    match hostSets ps !! Z.to_nat p with Some hs => hosts hs | None => [] end
  else [].

(** ** A list of hosts against another *)

(** The inner loop: the current hosts with the address of [nh], reweighed, and the
    others. *)
Fixpoint match_loop (nh : host) (cur : list host) : option (list host * list host) :=
  match cur with
  | [] => Some ([], [])
  | c :: cur =>
      if addressString nh =b addressString c then
        c' ← reweigh c nh; '(found, rest) ← match_loop nh cur; Some (c' :: found, rest)
      else '(found, rest) ← match_loop nh cur; Some (found, c :: rest)
  end.
(** The outer loop: the final and the added hosts, and the current ones that are
    left. *)
Fixpoint diff_loop (news cur : list host) (hostAddrs : gset bytes) : option (list host * list host * list host) :=
  match news with
  | [] => Some ([], [], cur)
  | nh :: news =>
      if bool_decide (addressString nh ∈ hostAddrs) then diff_loop news cur hostAddrs
      else
        '(found, rest) ← match_loop nh cur;
        '(final, added, remain) ← diff_loop news rest ({[addressString nh]} ∪ hostAddrs);
        match found with
        | [] => Some (nh :: final, nh :: added, remain)
        | _ => Some (found ++ final, added, remain)
        end
  end.
Definition updateDynamicHostList (newHosts currentHosts : list host)
    : option (bool * list host * list host * list host) :=
  '(final, added, removed) ← diff_loop newHosts currentHosts ∅;
  Some ((0 <? zlen added) || (0 <? zlen removed), final, added, removed).

(** ** Clusters *)

Record clusterInfo : Type := MkInfo {
  iname : bytes; iclusterType : bytes; iaddedViaAPI : bool; imaxRequestsPerConn : Z; iconnBufferLimitBytes : Z
}.
(** simpleInMemCluster, with the cluster in it.  No cluster has a health checker. *)
Record cluster : Type := MkCluster { cprioritySet : prioritySet; info : clusterInfo; chosts : list host }.

Definition newSimpleInMemCluster (config : ClusterConfig) (addedViaAPI : bool) : cluster :=
  MkCluster (MkPrioritySet [] 0)
    (MkInfo (Name config) (ClusterType config) addedViaAPI (MaxRequestPerConn config) (ConnBufferLimitBytes config)) [].
(** The factory of health checkers of package upstream is never set, and the one
    there is gives nil: either is dereferenced. *)
Definition NewCluster (config : ClusterConfig) (addedViaAPI : bool) : res panic (option cluster) :=
  if (ClusterType config =b SIMPLE_CLUSTER) || (ClusterType config =b DYNAMIC_CLUSTER) ||
     (ClusterType config =b EDS_CLUSTER)
  then if HealthCheckProtocol config =b [] then Ok (Some (newSimpleInMemCluster config addedViaAPI))
       else Err NilDereference
  else Ok None.
(** Initialize, with a callback; there is no helper. *)
Definition Initialize (cb : cluster → cluster) (c : cluster) : cluster := cb c.

Definition UpdateHosts (newHosts : list host) (c : cluster) : res panic cluster :=
  match updateDynamicHostList newHosts (chosts c) with
  | None => Err NotImplemented
  | Some (changed, final, added, removed) =>
      if (changed : bool) then
        match GetOrCreateHostSet 0 (cprioritySet c) with
        | Err p => Err p
        | Ok (hs, ps) =>
            let hs := hostSet_UpdateHosts final final added removed hs in
            Ok (MkCluster (MkPrioritySet (<[0%nat := hs]> (hostSets ps)) (updateCallbacks ps)) (info c) final)
        end
      else Ok c
  end.

(** ** The manager *)

Record primaryCluster : Type := MkPrimary { pcluster : cluster; addedViaAPI : bool; configUsed : ClusterConfig }.
Abbreviation clusterManager := (gmap bytes primaryCluster).

Definition NewPrimaryCluster (c : cluster) (config : ClusterConfig) (api : bool) : primaryCluster :=
  MkPrimary c api config.
Definition UpdateCluster (c : cluster) (config : ClusterConfig) (api : bool) (pc : primaryCluster) : primaryCluster :=
  MkPrimary c api config.

Definition primary_UpdateHosts (hs : list host) (pc : primaryCluster) : res panic primaryCluster :=
  match UpdateHosts hs (pcluster pc) with
  | Err p => Err p
  | Ok c =>
      let cf := configUsed pc in
      Ok (MkPrimary c (addedViaAPI pc)
        (MkClusterConfig (Name cf) (ClusterType cf) (MaxRequestPerConn cf) (ConnBufferLimitBytes cf)
           (HealthCheckProtocol cf) (hconfig <$> hs)))
  end.

Definition loadCluster (config : ClusterConfig) (api : bool) (cm : clusterManager) : res panic (bool * clusterManager) :=
  match NewCluster config api with
  | Err p => Err p
  | Ok None => Ok (false, cm)
  | Ok (Some c) =>
      let c := Initialize (λ c, MkCluster (AddMemberUpdateCb (cprioritySet c)) (info c) (chosts c)) c in
      Ok (true, <[Name config := NewPrimaryCluster c config api]> cm)
  end.
(** reflect.DeepEqual compares a configuration with a pointer to one and is false. *)
Definition updateCluster (config : ClusterConfig) (pc : primaryCluster) (api : bool) (cm : clusterManager)
    : res panic (bool * clusterManager) :=
  match NewCluster config api with
  | Err p => Err p
  | Ok None => Err BadAssertion
  | Ok (Some c) =>
      match UpdateHosts (chosts (pcluster pc)) c with
      | Err p => Err p
      | Ok c => Ok (true, <[Name config := UpdateCluster c config api pc]> cm)
      end
  end.
Definition AddOrUpdatePrimaryCluster (config : ClusterConfig) (cm : clusterManager)
    : res panic (bool * clusterManager) :=
  match cm !! Name config with
  | Some pc => if negb (addedViaAPI pc) then Ok (false, cm) else updateCluster config pc true cm
  | None => loadCluster config true cm
  end.
(** [Ok None] is the error that there is no such cluster. *)
Definition UpdateClusterHosts (clusterName : bytes) (hostConfigs : list HostConfig) (cm : clusterManager)
    : res panic (option clusterManager) :=
  match cm !! clusterName with
  | None => Ok None
  | Some pc =>
      match primary_UpdateHosts (NewHost <$> hostConfigs) pc with
      | Err p => Err p
      | Ok pc => Ok (Some (<[clusterName := pc]> cm))
      end
  end.

Fixpoint add_clusters (cs : list ClusterConfig) (cm : clusterManager) : res panic clusterManager :=
  match cs with
  | [] => Ok cm
  | c :: cs => match AddOrUpdatePrimaryCluster c cm with Err p => Err p | Ok (_, cm) => add_clusters cs cm end
  end.
Fixpoint add_hosts (hs : list (bytes * list HostConfig)) (cm : clusterManager) : res panic clusterManager :=
  match hs with
  | [] => Ok cm
  | (n, h) :: hs =>
      match UpdateClusterHosts n h cm with
      | Err p => Err p
      | Ok None => add_hosts hs cm
      | Ok (Some cm) => add_hosts hs cm
      end
  end.
(** The one manager: [instance] is what is there.  [clusterMap] is a map, in the
    order it is read in. *)
Definition NewClusterManager (instance : option clusterManager) (clusters : list ClusterConfig)
    (clusterMap : list (bytes * list HostConfig)) : res panic clusterManager :=
  match instance with
  | Some cm => Ok cm
  | None => match add_clusters clusters ∅ with Err p => Err p | Ok cm => add_hosts clusterMap cm end
  end.

(** The operations of a manager that was made; one that fails or panics leaves it as
    it was. *)
Inductive manager_op : Type :=
| OpCluster (config : ClusterConfig)
| OpHosts (clusterName : bytes) (hostConfigs : list HostConfig).
Definition manager_step (cm : clusterManager) (op : manager_op) : clusterManager :=
  match op with
  | OpCluster config => match AddOrUpdatePrimaryCluster config cm with Ok (_, cm') => cm' | Err _ => cm end
  | OpHosts n hcs => match UpdateClusterHosts n hcs cm with Ok (Some cm') => cm' | _ => cm end
  end.

(** ** What the difference is *)

Module diff_facts.
Abbreviation addrs := (fmap addressString).

(** The hosts of a list without those whose address is [seen] or came before. *)
Fixpoint first_hosts (seen : gset bytes) (l : list host) : list host :=
  match l with
  | [] => []
  | h :: l =>
      if bool_decide (addressString h ∈ seen) then first_hosts seen l
      else h :: first_hosts ({[addressString h]} ∪ seen) l
  end.
Lemma first_in seen l a : a ∈ addrs (first_hosts seen l) ↔ a ∈ addrs l ∧ a ∉ seen.
Proof.
  revert seen. induction l as [|b l IH]; intros seen; simpl; [set_solver|].
  case_bool_decide; [rewrite IH; set_solver|]. rewrite fmap_cons, elem_of_cons, IH, elem_of_cons.
  destruct (decide (a = addressString b)) as [->|]; set_solver.
Qed.
Lemma first_nodup seen l : NoDup (addrs (first_hosts seen l)).
Proof.
  revert seen. induction l as [|b l IH]; intros seen; simpl; [constructor|].
  case_bool_decide; [done|]. rewrite fmap_cons. constructor; [|done]. rewrite first_in. set_solver.
Qed.
Lemma first_same seen l : NoDup (addrs l) → (∀ a, a ∈ addrs l → a ∉ seen) → first_hosts seen l = l.
Proof.
  revert seen. induction l as [|b l IH]; intros seen Hn Hs; [done|]. simpl. rewrite fmap_cons in Hn, Hs.
  apply list.NoDup_cons in Hn as [N Hn]. rewrite bool_decide_eq_false_2 by (apply Hs; constructor).
  f_equal. apply IH; [done|]. intros a Ha. specialize (Hs a). set_solver.
Qed.

Lemma match_loop_none nh cur : addressString nh ∉ addrs cur → match_loop nh cur = Some ([], cur).
Proof.
  induction cur as [|c cur IH]; intros N; [done|]. rewrite fmap_cons in N. apply not_elem_of_cons in N as [N1 N2].
  cbn [match_loop]. rewrite bool_decide_eq_false_2 by done. by rewrite IH.
Qed.
Lemma match_loop_found nh cur : addressString nh ∈ addrs cur → match_loop nh cur = None.
Proof.
  induction cur as [|c cur IH]; intros I; [by apply elem_of_nil in I|]. rewrite fmap_cons in I. cbn [match_loop].
  case_bool_decide as Ea; [done|]. apply elem_of_cons in I as [I|I]; [done|]. by rewrite IH.
Qed.
Lemma diff_loop_apart news cur seen : (∀ nh, nh ∈ news → addressString nh ∉ addrs cur) →
  diff_loop news cur seen = Some (first_hosts seen news, first_hosts seen news, cur).
Proof.
  revert seen. induction news as [|x news IH]; intros seen N; [done|]. cbn [diff_loop first_hosts].
  assert (∀ nh, nh ∈ news → addressString nh ∉ addrs cur) as N' by (intros nh I; apply N; by constructor).
  case_bool_decide; [by apply IH|]. rewrite match_loop_none by (apply N; constructor). simpl. by rewrite IH.
Qed.
Lemma diff_loop_stuck news cur seen :
  (∃ nh, nh ∈ news ∧ addressString nh ∈ addrs cur ∧ addressString nh ∉ seen) → diff_loop news cur seen = None.
Proof.
  revert seen. induction news as [|x news IH]; intros seen (nh & I & A & S); [by apply elem_of_nil in I|].
  cbn [diff_loop]. case_bool_decide as Es.
  - apply IH. apply elem_of_cons in I as [->|I]; [done|]. by exists nh.
  - destruct (decide (addressString x ∈ addrs cur)) as [Ix|Ix]; [by rewrite match_loop_found|].
    rewrite (match_loop_none x cur Ix). simpl. rewrite IH; [done|].
    apply elem_of_cons in I as [->|I]; [done|]. exists nh. split; [done|]. split; [done|].
    assert (addressString nh ≠ addressString x) by congruence. set_solver.
Qed.

(** A new host has an address of a current one. *)
Definition stays (news cur : list host) : Prop := Exists (λ nh, addressString nh ∈ addrs cur) news.
#[export] Instance stays_dec news cur : Decision (stays news cur).
Proof. unfold stays. apply _. Defined.
Lemma update_list news cur :
  updateDynamicHostList news cur =
    if bool_decide (stays news cur) then None
    else Some ((0 <? zlen (first_hosts ∅ news)) || (0 <? zlen cur), first_hosts ∅ news, first_hosts ∅ news, cur).
Proof.
  unfold updateDynamicHostList. case_bool_decide as X.
  - apply list.Exists_exists in X as (nh & I & A). rewrite diff_loop_stuck; [done|]. exists nh. set_solver.
  - rewrite diff_loop_apart; [done|]. intros nh I A. apply X, list.Exists_exists. by exists nh.
Qed.

(** The host set of priority 0 is there, or is made. *)
Lemma hostset0 ps : ∃ hs ps', GetOrCreateHostSet 0 ps = Ok (hs, ps').
Proof.
  unfold GetOrCreateHostSet. destruct (hostSets ps) as [|h hs] eqn:E; [by eexists _, _|].
  simpl. eexists _, _. done.
Qed.
Lemma UpdateHosts_spec news c :
  if decide (stays news (chosts c)) then UpdateHosts news c = Err NotImplemented
  else ∃ c', UpdateHosts news c = Ok c' ∧ info c' = info c ∧ chosts c' = first_hosts ∅ news ∧
    (cprioritySet c' = cprioritySet c ∨ ∃ hs ps, GetOrCreateHostSet 0 (cprioritySet c) = Ok (hs, ps) ∧
       cprioritySet c' = MkPrioritySet (<[0%nat := hs]> (hostSets ps)) (updateCallbacks ps)).
Proof.
  unfold UpdateHosts. rewrite update_list. destruct (decide _) as [X|X].
  { by rewrite bool_decide_eq_true_2. }
  rewrite bool_decide_eq_false_2 by done. destruct (_ || _) eqn:Ech.
  - destruct (hostset0 (cprioritySet c)) as (hs & ps & E). rewrite E. eexists. do 3 (split; [done|]).
    right. by eexists _, _.
  - apply orb_false_elim in Ech as [E1 E2]. exists c. do 2 (split; [done|]). split; [|by left].
    destruct (first_hosts ∅ news), (chosts c); done || (by rewrite zlen_cons in *; pose proof (zlen_nonneg l); lia) || idtac.
    all: unfold zlen in *; simpl in *; lia.
Qed.
End diff_facts.

(** C25: what UpdateClusterHosts does.  Without a cluster of the name it is an error.
    It panics exactly when one of the new hosts has the address of a current one, for
    the weight of that host cannot be set.  In every other case the new hosts, each
    address once at its first place, take the place of all the current ones: they are
    the final and the added hosts, and the current ones are the removed ones.  The
    configuration that is kept has the given hosts; the rest of it, what is known of the
    cluster and all other clusters stay as they were. *)
Theorem hosts_diff (cm : clusterManager) n hcs :
  match cm !! n with
  | None => UpdateClusterHosts n hcs cm = Ok None
  | Some pc =>
      let cur := chosts (pcluster pc) in
      let news := diff_facts.first_hosts ∅ (NewHost <$> hcs) in
      (UpdateClusterHosts n hcs cm = Err NotImplemented ↔
        ∃ hc, hc ∈ hcs ∧ Address hc ∈ addressString <$> cur) ∧
      (UpdateClusterHosts n hcs cm ≠ Err NotImplemented →
        ∃ changed pc', updateDynamicHostList (NewHost <$> hcs) cur = Some (changed, news, news, cur) ∧
          UpdateClusterHosts n hcs cm = Ok (Some (<[n := pc']> cm)) ∧
          chosts (pcluster pc') = news ∧ NoDup (addressString <$> news) ∧
          (∀ a, a ∈ addressString <$> news ↔ a ∈ Address <$> hcs) ∧
          info (pcluster pc') = info (pcluster pc) ∧ addedViaAPI pc' = addedViaAPI pc ∧
          configUsed pc' = (let cf := configUsed pc in
            MkClusterConfig (Name cf) (ClusterType cf) (MaxRequestPerConn cf) (ConnBufferLimitBytes cf)
              (HealthCheckProtocol cf) hcs))
  end.
Proof.
  unfold UpdateClusterHosts, primary_UpdateHosts. destruct (cm !! n) as [pc|]; [|done]. cbv zeta.
  set (cur := chosts (pcluster pc)).
  assert (diff_facts.stays (NewHost <$> hcs) cur ↔ ∃ hc, hc ∈ hcs ∧ Address hc ∈ addressString <$> cur) as Hst.
  { unfold diff_facts.stays. rewrite list.Exists_fmap, list.Exists_exists. done. }
  pose proof (diff_facts.UpdateHosts_spec (NewHost <$> hcs) (pcluster pc)) as U. fold cur in U.
  pose proof (diff_facts.update_list (NewHost <$> hcs) cur) as L.
  destruct (decide _) as [X|X] in U.
  - rewrite U. split; [|done]. by rewrite <- Hst.
  - destruct U as (c' & -> & U1 & U2 & _). rewrite bool_decide_eq_false_2 in L by done.
    split; [by rewrite <- Hst|]. intros _. eexists _, _. split; [exact L|]. split; [done|]. simpl.
    split; [done|]. split; [apply diff_facts.first_nodup|]. split_and!; [|done|done|].
    + intros a. rewrite diff_facts.first_in, <- list_fmap_compose. set_solver.
    + f_equal. rewrite <- list_fmap_compose. apply list_fmap_id.
Qed.

(** ** The manager *)

Module manager_facts.
(** A cluster is stored under its name, has each address once and host sets that
    are numbered by their priority. *)
Record cluster_ok (n : bytes) (pc : primaryCluster) : Prop := {
  co_name : iname (info (pcluster pc)) = n;
  co_config : Name (configUsed pc) = n;
  co_api : addedViaAPI pc = iaddedViaAPI (info (pcluster pc));
  co_via : addedViaAPI pc = true;
  co_nodup : NoDup (addressString <$> chosts (pcluster pc));
  co_sets : ∀ i hs, hostSets (cprioritySet (pcluster pc)) !! i = Some hs → priority hs = Z.of_nat i ∧ hosts hs = []
}.
Definition manager_ok (cm : clusterManager) : Prop := ∀ n pc, cm !! n = Some pc → cluster_ok n pc.

Lemma hostset_ok p ps hs ps' :
  0 ≤ p → (∀ i hs, hostSets ps !! i = Some hs → priority hs = Z.of_nat i ∧ hosts hs = []) →
  GetOrCreateHostSet p ps = Ok (hs, ps') →
  hostSets ps' !! Z.to_nat p = Some hs ∧
  (∀ i hs, hostSets ps' !! i = Some hs → priority hs = Z.of_nat i ∧ hosts hs = []).
Proof.
  intros Hp Hs E. unfold GetOrCreateHostSet in E. cbn [hostSets] in E.
  set (created := if zlen (hostSets ps) <? uint32 (p + 1) then _ else []) in E.
  destruct ((hostSets ps ++ created) !! Z.to_nat p) as [hs'|] eqn:El; [|done].
  injection E as <- <-. split; [done|]. intros i h Hi. cbn [hostSets] in Hi.
  apply lookup_app_Some in Hi as [Hi|[Hl Hi]]; [by apply Hs|]. unfold created in Hi.
  destruct (zlen (hostSets ps) <? uint32 (p + 1)); [|done].
  apply list_lookup_fmap_Some in Hi as (k & -> & Hk). apply lookup_seq in Hk as [-> _].
  simpl. split; [|done]. unfold zlen. lia.
Qed.
Lemma UpdateHosts_ok hs c c' :
  (∀ i hs, hostSets (cprioritySet c) !! i = Some hs → priority hs = Z.of_nat i ∧ hosts hs = []) →
  UpdateHosts hs c = Ok c' →
  info c' = info c ∧ chosts c' = diff_facts.first_hosts ∅ hs ∧
  (∀ i hs, hostSets (cprioritySet c') !! i = Some hs → priority hs = Z.of_nat i ∧ hosts hs = []).
Proof.
  intros Hs E. pose proof (diff_facts.UpdateHosts_spec hs c) as U. rewrite E in U.
  destruct (decide _); [done|]. destruct U as (c1 & [= <-] & E1 & E2 & E3). split; [done|]. split; [done|].
  destruct E3 as [->|(h & ps & Eg & ->)]; [done|]. destruct (hostset_ok 0 _ _ _ (Z.le_refl 0) Hs Eg) as [H1 H2].
  simpl. by rewrite list_insert_id by exact H1.
Qed.
Lemma NewCluster_ok config api c : NewCluster config api = Ok (Some c) →
  c = newSimpleInMemCluster config api.
Proof. unfold NewCluster. destruct (_ || _); [|done]. case_bool_decide; [|done]. by intros [= <-]. Qed.
Lemma manager_insert cm n pc : manager_ok cm → cluster_ok n pc → manager_ok (<[n := pc]> cm).
Proof.
  intros M C n' pc'. destruct (decide (n = n')) as [->|N].
  - rewrite lookup_insert_eq. by intros [= <-].
  - rewrite lookup_insert_ne by done. apply M.
Qed.

(** What AddOrUpdatePrimaryCluster does to a well-formed manager. *)
Definition known_type (config : ClusterConfig) : Prop :=
  ClusterType config ∈ [SIMPLE_CLUSTER; DYNAMIC_CLUSTER; EDS_CLUSTER].
Definition added (config : ClusterConfig) (cm cm' : clusterManager) : Prop :=
  ∃ pc, cm' = <[Name config := pc]> cm ∧ cluster_ok (Name config) pc ∧ configUsed pc = config ∧
    chosts (pcluster pc) = from_option (λ old, chosts (pcluster old)) [] (cm !! Name config).
Lemma NewCluster_cases config api :
  NewCluster config api =
    if bool_decide (known_type config) then
      if HealthCheckProtocol config =b [] then Ok (Some (newSimpleInMemCluster config api)) else Err NilDereference
    else Ok None.
Proof.
  unfold NewCluster. replace (_ || _) with (bool_decide (known_type config)); [done|]. apply Bool.eq_iff_eq_true.
  rewrite !orb_true_iff, !bool_decide_eq_true. unfold known_type. rewrite !elem_of_cons, elem_of_nil. tauto.
Qed.
Lemma add_spec config cm : manager_ok cm →
  match AddOrUpdatePrimaryCluster config cm with
  | Ok (true, cm') => known_type config ∧ HealthCheckProtocol config = [] ∧ added config cm cm'
  | Ok (false, cm') => cm' = cm ∧ ¬ known_type config ∧ cm !! Name config = None
  | Err p => p = NilDereference ∧ known_type config ∧ HealthCheckProtocol config ≠ [] ∨
             p = BadAssertion ∧ ¬ known_type config ∧ is_Some (cm !! Name config)
  end.
Proof.
  intros M. unfold AddOrUpdatePrimaryCluster, added. destruct (cm !! Name config) as [pc|] eqn:El.
  - destruct (M _ _ El) as [C1 C2 C3 C4 C5 C6]. rewrite C4. cbn [negb]. unfold updateCluster. rewrite NewCluster_cases.
    case_bool_decide as K; [|right; by eauto]. case_bool_decide as Hh; [|by left].
    pose proof (diff_facts.UpdateHosts_spec (chosts (pcluster pc)) (newSimpleInMemCluster config true)) as U.
    destruct (decide _) as [X|X].
    { apply list.Exists_exists in X as (x & _ & X). by apply elem_of_nil in X. }
    destruct U as (c' & E & _). rewrite E. apply UpdateHosts_ok in E as (E1 & E2 & E3); [|done].
    rewrite diff_facts.first_same in E2 by (done || set_solver).
    split; [done|]. split; [done|]. eexists. split; [done|]. split; [|by split].
    split; simpl; rewrite ?E1, ?E2; done.
  - unfold loadCluster. rewrite NewCluster_cases. case_bool_decide as K; [|done]. case_bool_decide as Hh; [|by left].
    split; [done|]. split; [done|]. eexists. split; [done|]. split; [|done]. split; done || constructor.
Qed.
Lemma add_ok config cm b cm' : manager_ok cm → AddOrUpdatePrimaryCluster config cm = Ok (b, cm') → manager_ok cm'.
Proof.
  intros M E. pose proof (add_spec config cm M) as A. rewrite E in A. destruct b; [|by destruct A as [-> _]].
  destruct A as (_ & _ & pc & -> & C & _). by apply manager_insert.
Qed.
Lemma hosts_ok n hcs cm cm' : manager_ok cm → UpdateClusterHosts n hcs cm = Ok (Some cm') → manager_ok cm'.
Proof.
  intros M E. unfold UpdateClusterHosts in E. destruct (cm !! n) as [pc|] eqn:El; [|done].
  unfold primary_UpdateHosts in E. destruct (UpdateHosts _ _) as [c|] eqn:Eu; [|done]. injection E as <-.
  destruct (M n pc El) as [C1 C2 C3 C4 C5 C6]. apply UpdateHosts_ok in Eu as (E1 & E2 & E3); [|done].
  apply manager_insert; [done|].
  split; simpl; [by rewrite E1|done|by rewrite E1|done|rewrite E2; apply diff_facts.first_nodup|done].
Qed.
Lemma add_clusters_ok cs cm cm' : manager_ok cm → add_clusters cs cm = Ok cm' → manager_ok cm'.
Proof.
  revert cm. induction cs as [|c cs IH]; intros cm M E; [by injection E as <-|]. simpl in E.
  destruct (AddOrUpdatePrimaryCluster c cm) as [[b cm1]|] eqn:Ea; [|done]. apply (IH cm1); [|done]. by eapply add_ok.
Qed.
Lemma add_hosts_ok hs cm cm' : manager_ok cm → add_hosts hs cm = Ok cm' → manager_ok cm'.
Proof.
  revert cm. induction hs as [|[n h] hs IH]; intros cm M E; [by injection E as <-|]. simpl in E.
  destruct (UpdateClusterHosts n h cm) as [[cm1|]|] eqn:Ea; [| |done].
  - apply (IH cm1); [|done]. by eapply hosts_ok.
  - by apply (IH cm).
Qed.
Lemma manager_new_ok cs hs cm : NewClusterManager None cs hs = Ok cm → manager_ok cm.
Proof.
  unfold NewClusterManager. destruct (add_clusters cs ∅) as [cm1|] eqn:Ea; [|done].
  apply add_hosts_ok. by apply (add_clusters_ok cs ∅).
Qed.
Lemma steps_ok ops cm : manager_ok cm → manager_ok (foldl manager_step cm ops).
Proof.
  revert cm. induction ops as [|op ops IH]; intros cm M; [done|]. simpl. apply IH. destruct op as [config|n hcs]; simpl.
  - destruct (AddOrUpdatePrimaryCluster config cm) as [[b cm']|] eqn:E; [|done]. by eapply add_ok.
  - destruct (UpdateClusterHosts n hcs cm) as [[cm'|]|] eqn:E; [|done|done]. by eapply hosts_ok.
Qed.
End manager_facts.

(** C28: what the manager of clusters holds.  After it has been made from any
    configuration, and after any operations on it, each cluster is stored under its
    name, the configuration kept with it has this name, it is marked as added through
    the API, no address is twice in its hosts, and its host sets are numbered by
    priority.  AddOrUpdatePrimaryCluster of such a manager returns true for a
    configuration of a known type without a health check: the cluster is then there with
    this configuration and the hosts it had before (none if it is new), and all others
    are as they were.  It returns false for a new cluster of an unknown type, and
    changes nothing.  It panics for a known type with a health check, and for an unknown
    type when there is a cluster of the name. *)
Theorem manager_wf cs hs cm0 ops config :
  NewClusterManager None cs hs = Ok cm0 →
  let cm := foldl manager_step cm0 ops in
  (∀ n pc, cm !! n = Some pc →
    iname (info (pcluster pc)) = n ∧ Name (configUsed pc) = n ∧
    addedViaAPI pc = true ∧ iaddedViaAPI (info (pcluster pc)) = true ∧
    NoDup (addressString <$> chosts (pcluster pc)) ∧
    ∀ i h, hostSets (cprioritySet (pcluster pc)) !! i = Some h → priority h = Z.of_nat i) ∧
  match AddOrUpdatePrimaryCluster config cm with
  | Ok (true, cm') =>
      manager_facts.known_type config ∧ HealthCheckProtocol config = [] ∧
      ∃ pc, cm' = <[Name config := pc]> cm ∧ configUsed pc = config ∧
        chosts (pcluster pc) = from_option (λ old, chosts (pcluster old)) [] (cm !! Name config)
  | Ok (false, cm') => cm' = cm ∧ ¬ manager_facts.known_type config ∧ cm !! Name config = None
  | Err p =>
      p = NilDereference ∧ manager_facts.known_type config ∧ HealthCheckProtocol config ≠ [] ∨
      p = BadAssertion ∧ ¬ manager_facts.known_type config ∧ is_Some (cm !! Name config)
  end.
Proof.
  intros E cm. assert (manager_facts.manager_ok cm) as M by by eapply manager_facts.steps_ok, manager_facts.manager_new_ok.
  split.
  - intros n pc El. destruct (M n pc El) as [C1 C2 C3 C4 C5 C6]. rewrite <- C3. split_and!; try done.
    intros i h Hi. by apply C6 in Hi as [? _].
  - pose proof (manager_facts.add_spec config cm M) as A.
    destruct (AddOrUpdatePrimaryCluster config cm) as [[[] cm']|]; [|done|done].
    destruct A as (A1 & A2 & pc & A3 & _ & A4 & A5). split; [done|]. split; [done|]. by exists pc.
Qed.

(** ** Examples *)

Definition config_of (n : bytes) : ClusterConfig := MkClusterConfig n SIMPLE_CLUSTER 0 0 [] [].
Definition at_address (a : bytes) : HostConfig := MkHostConfig a a 1 false ∅.
(** The addresses of the hosts of a cluster. *)
Definition addresses (n : bytes) (r : res panic clusterManager) : option (list bytes) :=
  match r with
  | Ok cm => (λ pc, addressString <$> chosts (pcluster pc)) <$> cm !! n
  | Err _ => None
  end.
Definition made : res panic clusterManager :=
  NewClusterManager None [config_of (bs "x")] [(bs "x", [at_address (bs "1"); at_address (bs "1")])].

Definition cm0 : clusterManager := match made with Ok cm => cm | Err _ => ∅ end.
Lemma made_ok : made = Ok cm0.
Proof. vm_compute. reflexivity. Qed.
Lemma known_config n : manager_facts.known_type (config_of n).
Proof. left. Qed.

(** Hosts that are set, replaced by others and kept by an update of their cluster. *)
Lemma manager_wf_witness :
  let cm := foldl manager_step cm0 [OpHosts (bs "x") [at_address (bs "2"); at_address (bs "3")]] in
  addresses (bs "x") (Ok cm) = Some [bs "2"; bs "3"] ∧
  match AddOrUpdatePrimaryCluster (config_of (bs "x")) cm with
  | Ok (true, cm') => addresses (bs "x") (Ok cm') = Some [bs "2"; bs "3"]
  | _ => False
  end.
Proof.
  intros cm. assert (addresses (bs "x") (Ok cm) = Some [bs "2"; bs "3"]) as Ea by (vm_compute; reflexivity).
  split; [exact Ea|].
  pose proof (manager_wf _ _ cm0 [OpHosts (bs "x") [at_address (bs "2"); at_address (bs "3")]]
    (config_of (bs "x")) made_ok) as [_ A]. fold cm in A. cbv zeta in A.
  destruct (AddOrUpdatePrimaryCluster (config_of (bs "x")) cm) as [[[] cm']|].
  - destruct A as (_ & _ & pc & -> & _ & Eh). unfold addresses in *. cbn [Name config_of] in *.
    rewrite lookup_insert_eq. cbn. rewrite Eh. destruct (cm !! bs "x") as [old|]; [|discriminate]. exact Ea.
  - destruct A as (_ & A & _). apply A, known_config.
  - destruct A as [(_ & _ & A)|(_ & A & _)]; apply A; [reflexivity|apply known_config].
Defined.

Lemma hosts_diff_witness :
  UpdateClusterHosts (bs "x") [at_address (bs "2"); at_address (bs "1")] cm0 = Err NotImplemented ∧
  UpdateClusterHosts (bs "y") [] cm0 = Ok None.
Proof.
  assert (addresses (bs "x") (Ok cm0) = Some [bs "1"]) as H by (vm_compute; reflexivity).
  assert (addresses (bs "y") (Ok cm0) = None) as Hy by (vm_compute; reflexivity). unfold addresses in H, Hy. split.
  - pose proof (hosts_diff cm0 (bs "x") [at_address (bs "2"); at_address (bs "1")]) as D.
    destruct (cm0 !! bs "x") as [pc|]; [|discriminate]. injection H as H.
    apply (proj1 D). exists (at_address (bs "1")). split; [right; left|]. rewrite H. left.
  - pose proof (hosts_diff cm0 (bs "y") []) as D. destruct (cm0 !! bs "y") as [pc|]; [discriminate|exact D].
Defined.
