(* ===== verification/Handler.v ===== *)
(** * The connection handler

    src/pkg/server/handler.go: the listeners of the server, which are added, updated
    by their name, found and removed, and its connections, which are counted.  A
    connection that is accepted becomes a session ([Session]) with the filters of
    its listener; the handler listens to the session's events and counts it down
    when it closes.  Also UpdateClusterConfig and UpdateClusterHost, on [Cluster].

    The parts of a configuration that only reflect.DeepEqual looks at are one field
    ([Rest]).  Making the TLS context of a listener may fail ([tls_ok]).  The worker
    pool in which connections are served is that of [WorkerPool].  Starting and
    stopping a listener is in Listener.v. *)

From S2P Require Import Prelude BytesConv Headers FilterManager Session Cluster.

(** ** Listeners *)

Record ListenerConfig : Type := MkListener {
  LName : bytes; LNetwork : bytes; LAddr : bytes; ListenerTag : Z; DisableConnIo : bool; Rest : bytes
}.
#[export] Instance ListenerConfig_eq_dec : EqDecision ListenerConfig.
Proof. solve_decision. Defined.

Section listeners.
(** The factories of network and stream filters, compared by reflect.DeepEqual. *)
Context {N T : Type} `{EqDecision N, EqDecision T} (tls_ok : ListenerConfig → bool).

(** activeListener, with its listener: the name and the address are those of the
    configuration it was made from. *)
Record activeListener : Type := MkActive {
  disableConnIo : bool; name : bytes; network : bytes; addr : bytes; config : ListenerConfig; tag : Z;
  networkFiltersFactories : list N; streamFiltersFactories : list T;
  listenIP : bytes; listenPort : Z; updatedLabel : bool; stopped : bool
}.
Implicit Types ls : list activeListener.

Definition findActiveListenerByName (n : bytes) ls : option activeListener :=
  snd <$> list_find (λ l, name l = n) ls.
Definition findActiveListenerByAddress (net a : bytes) ls : option activeListener :=
  snd <$> list_find (λ l, network l = net ∧ addr l = a) ls.

Definition newActiveListener (lc : ListenerConfig) (nfs : list N) (sfs : list T) : option activeListener :=
  let temps := Split ":"%byte (LAddr lc) in
  if tls_ok lc
  then Some (MkActive (DisableConnIo lc) (LName lc) (LNetwork lc) (LAddr lc) lc (ListenerTag lc) nfs sfs
         (default [] (head temps)) (AtoiValue (List.last temps [])) false false)
  else None.

Inductive addResult : Type := AddressMismatch | TlsError | Duplicate | Updated | Added.
(** An update, of the listener that was found. *)
Definition updateListener (lc : ListenerConfig) (nfs : list N) (sfs : list T) (al : activeListener) : activeListener :=
  let equalConfig := bool_decide (config al = lc) in
  let equalNetworkFilter := bool_decide (networkFiltersFactories al = nfs) in
  let equalStreamFilters := bool_decide (streamFiltersFactories al = sfs) in
  MkActive (if equalConfig then disableConnIo al else DisableConnIo lc) (name al) (network al) (addr al)
    (if equalConfig then config al else lc) (if equalConfig then tag al else ListenerTag lc)
    (if equalNetworkFilter then networkFiltersFactories al else nfs)
    (if equalStreamFilters then streamFiltersFactories al else sfs)
    (listenIP al) (listenPort al) true (stopped al).
(** [uuid] is the name that is made for a configuration without one. *)
Definition AddOrUpdateListener (uuid : bytes) (lc : ListenerConfig) (nfs : list N) (sfs : list T) ls
    : addResult * list activeListener :=
  let lc := if LName lc =b [] then MkListener uuid (LNetwork lc) (LAddr lc) (ListenerTag lc) (DisableConnIo lc) (Rest lc)
            else lc in
  match list_find (λ l, name l = LName lc) ls with
  | Some (i, al) =>
      if negb (bool_decide (addr al = LAddr lc)) || negb (bool_decide (network al = LNetwork lc))
      then (AddressMismatch, ls)
      else if bool_decide (config al = lc) && bool_decide (networkFiltersFactories al = nfs)
      then (Duplicate, ls)
      else (Updated, <[i := updateListener lc nfs sfs al]> ls)
  | None =>
      match newActiveListener lc nfs sfs with
      | None => (TlsError, ls)
      | Some al => (Added, ls ++ [al])
      end
  end.

(** RemoveListeners, on the array of the slice, of which the loop ranges over the
    first [n] elements; [len] is the length of ch.listeners now.  Removing shifts
    the elements after it in the array.  [None] is a panic. *)
Fixpoint remove_loop (n i : nat) (nm : bytes) (arr : list activeListener) (len : nat) : option (list activeListener * nat) :=
  match n with
  | O => Some (arr, len)
  | S n =>
      match arr !! i with
      | Some l =>
          if name l =b nm then
            if bool_decide (i < len)%nat then
              remove_loop n (S i) nm (take i arr ++ drop (S i) (take len arr) ++ drop (len - 1) arr) (len - 1)
            else None
          else remove_loop n (S i) nm arr len
      | None => Some (arr, len)
      end
  end.
Definition RemoveListeners (nm : bytes) ls : option (list activeListener) :=
  '(arr, len) ← remove_loop (length ls) 0 nm ls (length ls); Some (take len arr).

(** Closing a channel that is closed panics. *)
Definition StopConnections ls : option (list activeListener) :=
  if existsb stopped ls then None
  else Some ((λ l, MkActive (disableConnIo l) (name l) (network l) (addr l) (config l) (tag l)
    (networkFiltersFactories l) (streamFiltersFactories l) (listenIP l) (listenPort l) (updatedLabel l) true) <$> ls).
(** The listeners that StartListener starts, and the one that StopListener stops. *)
Definition StartListener (t : Z) ls : list activeListener := base.filter (λ l, tag l = t) ls.
Definition StopListener (n : bytes) ls : option activeListener := findActiveListenerByName n ls.
End listeners.
Arguments activeListener N T : clear implicits.

(** ** Clusters *)

Fixpoint UpdateClusterConfig (clusters : list ClusterConfig) (cm : clusterManager)
    : res Cluster.panic (bool * clusterManager) :=
  match clusters with
  | [] => Ok (true, cm)
  | c :: clusters =>
      match AddOrUpdatePrimaryCluster c cm with
      | Err p => Err p
      | Ok (false, cm) => Ok (false, cm)
      | Ok (true, cm) => UpdateClusterConfig clusters cm
      end
  end.
Definition UpdateClusterHost (cluster : bytes) (hosts : list HostConfig) (cm : clusterManager)
    : res Cluster.panic (option clusterManager) := UpdateClusterHosts cluster hosts cm.

(** ** Connections *)

Section connections.
Context (clears : bool) (wfs : list (list (option bytes) → FilterStatus)).
Context {F : Type} `{SessionFilter F}.

(** A connection: its filters, its session, and the place of its activeConnection
    among the session's listeners, if it has one. *)
Record conn : Type := MkConn {
  cfilters : filterManager F (option bytes); csession : Session; counted : option nat
}.
Record connHandler : Type := MkHandler { numConnections : Z; conns : list conn }.

Definition NumConnections (ch : connHandler) : Z := uint64 (numConnections ch).

(** activeConnection.OnEvent, for what the session did: how often removeConnection
    is called. *)
Definition removes (cb : nat) (e : effect) : bool :=
  match e with EEvent i ev => bool_decide (i = cb) && IsClose ev | _ => false end.
Definition removals (cb : option nat) (es : list effect) : Z :=
  match cb with None => 0 | Some cb => zlen (base.filter (λ e, removes cb e = true) es) end.
(** What the session did since it had done [tr]. *)
Definition since (tr : list effect) (s : Session) : list effect := drop (length tr) (trace s).

(** A connection is accepted, with the read filters that the factories make:
    NewSession and OnNewConnection. *)
Definition newConnection (id : Z) (answers : list sockRes) (fs : list F) (ch : connHandler) : connHandler :=
  let fm := foldl (λ fm f, AddReadFilter f fm) (mkManager [] wfs) fs in
  let '(_, _, fm, s) := InitializeReadFilters (H := session_filter clears wfs) fm (NewSession id answers) in
  if (zlen (downstreamFilters fm) =? 0) && (zlen (upstreamFilters fm) =? 0)
  then MkHandler (numConnections ch) (conns ch ++ [MkConn fm (Close clears NoFlush LocalClose s) None])
  else
    let cb := connCallbacks s in
    MkHandler (int64 (numConnections ch + 1))
      (conns ch ++ [MkConn fm (Start (AddConnectionEventListener s)) (Some cb)]).

(** Something happens to a connection. *)
Definition connAction (i : nat) (a : action (F := F)) (ch : connHandler) : connHandler :=
  match conns ch !! i with
  | None => ch
  | Some c =>
      let '(fm, s) := step clears wfs a (cfilters c, csession c) in
      MkHandler (int64 (numConnections ch - removals (counted c) (since (trace (csession c)) s)))
        (<[i := MkConn fm s (counted c)]> (conns ch))
  end.

Inductive event : Type :=
| Accept (id : Z) (answers : list sockRes) (fs : list F) | Act (i : nat) (a : action (F := F)).
Definition handle (ch : connHandler) (e : event) : connHandler :=
  match e with
  | Accept id answers fs => newConnection id answers fs ch
  | Act i a => connAction i a ch
  end.
Definition handles (es : list event) : connHandler := foldl handle (MkHandler 0 []) es.
End connections.

(** ** What is counted *)

Module count_facts.

(** Effects are only added. *)
Lemma grows_kept clears wfs tr : kept clears wfs (λ s, tr `prefix_of` trace s).
Proof.
  assert (∀ s s', read_facts.quiet s s' → tr `prefix_of` trace s → tr `prefix_of` trace s') as Q.
  { intros s s' [_ (es & -> & _)]. by apply prefix_app_r. }
  split.
  - intros bufs s. apply Q, read_facts.quiet_write.
  - intros i s. apply Q, read_facts.quiet_spawn.
  - intros ty ev s. apply Q, read_facts.quiet_close.
  - intros n s. by apply prefix_app_r.
  - intros d s. by apply prefix_app_r.
  - intros s. by apply prefix_app_r.
  - intros s. unfold Start. by destruct (_ || _).
  - by intros s.
  - by intros p s.
  - intros late s. apply Q, read_facts.quiet_wstep.
Qed.

Lemma removals_app cb es es' : removals cb (es ++ es') = removals cb es + removals cb es'.
Proof. destruct cb as [cb|]; [|done]. simpl. by rewrite list.filter_app, zlen_app. Qed.
Lemma removals_closings cb es : removals cb (close_facts.closings es) = removals cb es.
Proof.
  destruct cb as [cb|]; [|done]. simpl. unfold close_facts.closings. rewrite list_filter_filter. f_equal.
  apply list_filter_iff. intros e. split; [by intros []|]. intros E. split; [done|]. by destruct e.
Qed.
(** A closing tells each listener once. *)
Lemma removals_seq cb loops n ev :
  removals (Some cb) (close_facts.closing_seq loops n ev) = if bool_decide (cb < n)%nat && IsClose ev then 1 else 0.
Proof.
  unfold close_facts.closing_seq. rewrite !removals_app.
  assert (removals (Some cb) ((λ i, EEvent i ev) <$> seq 0 n) = if bool_decide (cb < n)%nat && IsClose ev then 1 else 0) as ->.
  { induction n as [|n IH]; [by rewrite bool_decide_eq_false_2 by lia|].
    rewrite seq_S, fmap_app, removals_app, IH. simpl.
    rewrite filter_cons. simpl. destruct (IsClose ev); rewrite ?andb_false_r, ?andb_true_r;
      repeat case_bool_decide; repeat (destruct (decide _)); try lia; try congruence; done. }
  by destruct loops.
Qed.

(** A session that was closed before it was started does nothing of a closing again. *)
Definition lost (cl : list effect) (s : Session) : Prop :=
  closeFlag s = true ∧ startOnce s = false ∧ close_facts.closings (trace s) = cl.
Lemma lost_calm cl s s' : close_facts.calm s s' → lost cl s → lost cl s'.
Proof.
  intros [G (es & T & Fe)] (L1 & L2 & L3). unfold close_facts.gates in G. injection G as G1 G2 G3 G4 G5 G6.
  split; [congruence|]. split; [congruence|]. by rewrite T, close_facts.closings_app, (close_facts.closings_none es Fe), app_nil_r.
Qed.
Lemma lost_close clears cl ty ev s : lost cl s → lost cl (Close clears ty ev s).
Proof. intros L. assert (L' := L). destruct L' as [L1 _]. unfold Close. by rewrite L1. Qed.
Lemma lost_kept clears wfs cl : kept clears wfs (lost cl).
Proof.
  split.
  - intros bufs s. apply lost_calm, close_facts.calm_write.
  - intros i s. apply lost_calm, close_facts.calm_spawn.
  - intros ty ev s. apply lost_close.
  - intros n s. apply lost_calm. apply framed_emit; [done|by apply framed_same|done].
  - intros d s. apply lost_calm. apply framed_emit; [done|by apply framed_same|done].
  - intros s. apply lost_calm. apply framed_emits; [done|apply framed_refl|by apply Forall_fmap, list.Forall_true].
  - intros s L. assert (L' := L). destruct L' as [L1 _]. unfold Start. by rewrite L1.
  - by intros s.
  - by intros p s.
  - intros late s L. eapply lost_calm; [|exact L]. apply close_facts.wstep_calm, L.
Qed.

Lemma began_kept clears wfs : kept clears wfs (λ s, startOnce s = true).
Proof.
  assert (∀ s s', close_facts.calm s s' → startOnce s = true → startOnce s' = true) as Q.
  { intros s s' [G _]. unfold close_facts.gates in G. injection G as _ _ _ _ -> _. done. }
  split.
  - intros bufs s. apply Q, close_facts.calm_write.
  - intros i s. apply Q, close_facts.calm_spawn.
  - intros ty ev s E. by rewrite Close_once.
  - done.
  - done.
  - done.
  - intros s E. unfold Start. rewrite E, orb_true_r. done.
  - done.
  - done.
  - intros late s E. unfold writeStep. destruct (wpc s) as [| |i|]; [done| | |done].
    + destruct (_ && _); [done|]. pose proof (Q _ _ (close_facts.calm_recv s) E) as E'.
      by destruct (chanRecv s) as [[v c| |] s1]; rewrite ?appendBuffer_eq.
    + destruct (Nat.ltb i 10).
      * pose proof (Q _ _ (close_facts.calm_recv s) E) as E'. by destruct (chanRecv s) as [[v c| |] s1]; rewrite ?appendBuffer_eq.
      * pose proof (Q _ _ (close_facts.calm_frame _ _ (doWrite_frame clears s)) E) as E'.
        destruct (doWrite clears s) as [[n [[]|]] s1]; simpl in *; rewrite ?Close_once; done.
Qed.

(** A connection that is counted: it was open when it was, or it had been closed by
    its filters, without a word to the handler. *)
Definition counted_ok (cb : nat) (s : Session) : Prop :=
  close_facts.closes 0 s ∧
  (startOnce s = true ∧ close_facts.closes (S cb) s ∨ ∃ cl, lost cl s ∧ removals (Some cb) cl = 0).

Section counting.
Context (clears : bool) (wfs : list (list (option bytes) → FilterStatus)).
Context {F : Type} `{SessionFilter F}.

Lemma counted_step cb a st : counted_ok cb st.2 → counted_ok cb (step (F := F) clears wfs a st).2.
Proof.
  intros [C [[Hs Hc]|(cl & L & R)]]; (split; [by apply step_kept; [apply close_facts.closes_kept|]|]).
  - left. split.
    + by apply (step_kept clears wfs (λ s, startOnce s = true)); [apply began_kept|].
    + by apply step_kept; [apply close_facts.closes_kept|].
  - right. exists cl. split; [|done]. by apply step_kept; [apply lost_kept|].
Qed.
(** It is removed at most once, and not while it is open. *)
Lemma counted_removals cb s : counted_ok cb s →
  0 ≤ removals (Some cb) (trace s) ≤ 1 ∧ (closeFlag s = false → removals (Some cb) (trace s) = 0) ∧
  (closeFlag s = true → startOnce s = true →
    ∃ ev, EEvent cb ev ∈ trace s ∧ removals (Some cb) (trace s) = if IsClose ev then 1 else 0).
Proof.
  intros [[_ C _ _ _] D]. rewrite <- removals_closings. destruct (closeFlag s) eqn:Ec.
  - destruct C as (n & ev & Hn & E). rewrite E, removals_seq. split; [destruct (_ && _); lia|]. split; [done|]. intros _ Hs.
    destruct D as [[_ [_ D _ _ _]]|(cl & (_ & Hf & _) & _)]; [|congruence]. rewrite Ec in D.
    destruct D as (n' & ev' & Hn' & E'). exists ev'. split.
    + assert (EEvent cb ev' ∈ close_facts.closings (trace s)) as I.
      { rewrite E'. unfold close_facts.closing_seq. rewrite !elem_of_app. right. right. right.
        apply list_elem_of_fmap. exists cb. split; [done|]. apply elem_of_seq. lia. }
      by apply list_elem_of_filter in I as [_ I].
    + rewrite <- (removals_seq cb (internalLoopStarted s) n ev), <- E, E', removals_seq.
      rewrite bool_decide_eq_true_2 by lia. done.
  - rewrite C. by split.
Qed.

(** The state of a handler: what it counts is what was not removed. *)
Definition present (c : conn (F := F)) : Z :=
  match counted c with None => 0 | Some cb => 1 - removals (Some cb) (trace (csession c)) end.
Record handler_ok (n : Z) (ch : connHandler (F := F)) : Prop := {
  ho_count : numConnections ch = zsum present (conns ch);
  ho_len : zlen (conns ch) ≤ n;
  ho_conns : ∀ c cb, c ∈ conns ch → counted c = Some cb → counted_ok cb (csession c)
}.
Lemma present_range c : (∀ cb, counted c = Some cb → counted_ok cb (csession c)) → 0 ≤ present c ≤ 1.
Proof.
  intros Hc. unfold present. destruct (counted c) as [cb|]; [|lia].
  destruct (counted_removals cb (csession c) (Hc cb eq_refl)) as [R _]. lia.
Qed.
Lemma sum_range (cs : list (conn (F := F))) :
  (∀ c cb, c ∈ cs → counted c = Some cb → counted_ok cb (csession c)) → 0 ≤ zsum present cs ≤ zlen cs.
Proof.
  induction cs as [|c cs IH]; intros Hc; [done|]. rewrite zlen_cons. simpl.
  pose proof (present_range c (λ cb, Hc c cb ltac:(constructor))).
  destruct IH as [I1 I2]; [intros c' cb I; apply Hc; by constructor|]. lia.
Qed.

(** A session that its filters have been told of, before it is counted. *)
Lemma init_ok fs id answers :
  let fm := foldl (λ fm f, AddReadFilter f fm) (mkManager [] wfs) fs in
  let s := (InitializeReadFilters (F := F) (H := session_filter clears wfs) fm (NewSession id answers)).2 in
  close_facts.closes 0 s ∧ startOnce s = false.
Proof.
  intros fm s. unfold s, InitializeReadFilters. destruct (zlen (downstreamFilters fm) =? 0); [by split|].
  pose proof (continue_kept clears wfs (close_facts.closes 0) None fm (NewSession id answers)
    (close_facts.closes_kept 0 clears wfs)) as C.
  assert (startOnce (onContinueReading (H := session_filter clears wfs) None fm (NewSession id answers)).2 = false) as E.
  { assert (∀ ops s, startOnce s = false → startOnce (foldl (sop_run clears wfs) s ops) = false) as O.
    { induction ops as [|o ops IH]; intros s' E'; [done|]. simpl. apply IH. destruct o; simpl; [|by rewrite Close_once|done].
      destruct (close_facts.calm_write wfs bufs s') as [G _]. unfold close_facts.gates in G. injection G as _ _ _ _ -> _. done. }
    apply (continue_keeps (λ s, startOnce s = false)); [| |done]; intros f s' E'; simpl.
    - destruct (filterNew f (readBuffer s')) as [[st f'] ops]. by apply O.
    - destruct (filterData f (default [] (readBuffer s'))) as [[st f'] ops]. by apply O. }
  destruct (onContinueReading None fm (NewSession id answers)) as [[cs fm'] s']. split; [|done]. apply C. by split.
Qed.
Lemma started_ok s : close_facts.closes 0 s → startOnce s = false →
  let cb := connCallbacks s in
  let s' := Start (AddConnectionEventListener s) in
  counted_ok cb s' ∧ removals (Some cb) (trace s') = 0.
Proof.
  intros C Hs cb s'. assert (trace s' = trace s) as Et by (unfold s', Start; by destruct (_ || _)).
  assert (removals (Some cb) (close_facts.closings (trace s)) = 0) as R.
  { destruct C as [_ C _ _ _]. destruct (closeFlag s); [|by rewrite C]. destruct C as (n & ev & Hn & ->).
    rewrite removals_seq, bool_decide_eq_false_2 by (unfold cb; lia). done. }
  split; [|by rewrite Et, <- removals_closings]. split.
  { by apply (kp_start _ _ _ (close_facts.closes_kept 0 clears wfs)), (kp_listener _ _ _ (close_facts.closes_kept 0 clears wfs)). }
  unfold s', Start. simpl. rewrite Hs, orb_false_r. destruct (closeFlag s) eqn:Ec.
  - right. exists (close_facts.closings (trace s)). split; [|done]. by split.
  - left. split; [done|]. destruct C as [_ C1 C2 C3 C4]. rewrite Ec in *. split; simpl; rewrite ?Ec; done || (unfold cb; lia).
Qed.

Lemma handle_ok n ch e : handler_ok n ch → n + 1 < 2 ^ 62 → handler_ok (n + 1) (handle clears wfs ch e).
Proof.
  intros [H1 H2 H3] Hn. pose proof (sum_range (conns ch) H3) as Hr. destruct e as [id answers fs|i a]; simpl.
  - unfold newConnection. pose proof (init_ok fs id answers) as I. cbv zeta in I. cbv zeta.
    set (fm := foldl (λ fm f, AddReadFilter f fm) (mkManager [] wfs) fs) in *.
    destruct (InitializeReadFilters fm (NewSession id answers)) as [[[b cs] fm'] s]. simpl in I. destruct I as [C Hs].
    destruct (_ && _).
    + split; simpl; [|rewrite zlen_app; unfold zlen in *; simpl in *; lia|].
      * rewrite zsum_app. simpl. unfold present at 2. simpl. lia.
      * intros c cb [I|I%list_elem_of_singleton]%elem_of_app; [by apply H3|]. by subst.
    + destruct (started_ok s C Hs) as [K R]. cbv zeta in K, R. split; simpl; [|rewrite zlen_app; unfold zlen in *; simpl in *; lia|].
      * rewrite zsum_app, int64_small by lia. simpl. unfold present at 2. cbn [counted csession]. rewrite R. lia.
      * intros c cb [I|I%list_elem_of_singleton]%elem_of_app; [by apply H3|]. subst. by intros [= <-].
  - unfold connAction. destruct (conns ch !! i) as [c|] eqn:Ei; [|split; [done|lia|done]].
    pose proof (list_elem_of_lookup_2 _ _ _ Ei) as Ii.
    assert (trace (csession c) `prefix_of` trace (step clears wfs a (cfilters c, csession c)).2) as Gr.
    { apply (step_kept clears wfs (λ s, trace (csession c) `prefix_of` trace s)); [apply grows_kept|done]. }
    assert (∀ cb, counted c = Some cb → counted_ok cb (step clears wfs a (cfilters c, csession c)).2) as Hc.
    { intros cb Ec. apply (counted_step cb a (cfilters c, csession c)). by apply (H3 c). }
    destruct (step clears wfs a (cfilters c, csession c)) as [fm s]. simpl in Gr, Hc. destruct Gr as [es Es].
    assert (since (trace (csession c)) s = es) as -> by (unfold since; by rewrite Es, drop_app_length).
    set (c' := MkConn fm s (counted c)).
    assert (present c' = present c - removals (counted c) es) as Ep.
    { unfold present, c'. cbn [counted csession]. destruct (counted c) as [cb|]; [|done]. rewrite Es, removals_app. lia. }
    assert (∀ x cb, x ∈ <[i := c']> (conns ch) → counted x = Some cb → counted_ok cb (csession x)) as H3'.
    { intros x cb Ix. apply list_elem_of_lookup in Ix as [j Hj]. apply list_lookup_insert_Some in Hj as [(-> & <- & _)|(_ & Hj)].
      - apply Hc.
      - apply H3. by apply list_elem_of_lookup_2 in Hj. }
    pose proof (sum_range _ H3') as Hr'. pose proof (zsum_insert present (conns ch) i c c' Ei) as Es'.
    assert (zlen (<[i := c']> (conns ch)) = zlen (conns ch)) as El by (unfold zlen; by rewrite length_insert).
    split; simpl; [|lia|done]. rewrite H1, int64_small by lia. lia.
Qed.
Lemma handles_ok es : zlen es < 2 ^ 62 → handler_ok (zlen es) (handles clears wfs es).
Proof.
  unfold handles. assert (∀ n ch, handler_ok n ch → n + zlen es < 2 ^ 62 →
    handler_ok (n + zlen es) (foldl (handle clears wfs) ch es)) as G.
  { induction es as [|e es IH]; intros n ch Ho Hn; [by rewrite Z.add_0_r|]. rewrite zlen_cons in *. simpl.
    pose proof (zlen_nonneg es). replace (n + (zlen es + 1)) with (n + 1 + zlen es) in * by lia.
    apply IH; [|lia]. apply handle_ok; [done|lia]. }
  intros Hl. rewrite <- (Z.add_0_l (zlen es)). apply G; [|lia]. split; [done|done|].
  intros c cb I. by apply elem_of_nil in I.
Qed.
End counting.
End count_facts.

(** C11: the connections that the handler counts.  After any run of accepts and of
    anything happening to the connections, the number is that of the counted
    connections that were not removed, each of which is removed at most once and
    none while it is open; and a connection that was started and has been closed is
    removed, if the event it was closed with is one of a close. *)
Theorem conn_count clears wfs {F} `{SessionFilter F} (es : list (event (F := F))) :
  zlen es < 2 ^ 62 →
  let ch := handles clears wfs es in
  numConnections ch = zlen (base.filter (λ c, counted c ≠ None ∧ removals (counted c) (trace (csession c)) = 0) (conns ch)) ∧
  ∀ c cb, c ∈ conns ch → counted c = Some cb →
    let s := csession c in
    (closeFlag s = false → removals (counted c) (trace s) = 0) ∧
    (closeFlag s = true → startOnce s = true →
      ∃ ev, EEvent cb ev ∈ trace s ∧ removals (counted c) (trace s) = if IsClose ev then 1 else 0).
Proof.
  intros Hl ch. destruct (count_facts.handles_ok clears wfs es Hl) as [H1 _ H3]. fold ch in H1, H3. split.
  - rewrite H1. clear H1. induction (conns ch) as [|c cs IH]; [done|]. simpl. rewrite IH by (intros x cb I; apply H3; by constructor).
    rewrite filter_cons. unfold count_facts.present. destruct (counted c) as [cb|] eqn:Ec.
    + destruct (count_facts.counted_removals cb (csession c) (H3 c cb ltac:(constructor) Ec)) as [R _].
      destruct (decide _) as [[_ D]|D]; [rewrite zlen_cons; simpl in *; lia|].
      assert (removals (Some cb) (trace (csession c)) ≠ 0) by (intros E; by apply D). lia.
    + destruct (decide _) as [[D _]|D]; [done|]. done.
  - intros c cb I Ec. rewrite Ec. by destruct (count_facts.counted_removals cb (csession c) (H3 c cb I Ec)) as (_ & A & B).
Qed.

Module handler_example.
(** A filter that may close the connection that it is told of. *)
#[local] Instance closing : SessionFilter bool := {
  filterNew := λ f _, (Continue, f, if f then [SClose NoFlush LocalClose] else []);
  filterData := λ f d, (Continue, f, [SDrain (length d)])
}.
Abbreviation handled es := (handles (F := bool) false [] es).

Lemma conn_count_witness :
  let es := [Accept 1 [] [false]; Accept 2 [] [false]; Act 0 (AReadLoop false [] (Some IoBuffer.EOF))] in
  numConnections (handled es) = 1 ∧
  zlen (base.filter (λ c, counted c ≠ None ∧ removals (counted c) (trace (csession c)) = 0) (conns (handled es))) = 1.
Proof.
  intros es. assert (numConnections (handled es) = 1) as E by (vm_compute; reflexivity). split; [exact E|].
  pose proof (proj1 (conn_count (F := bool) false [] es ltac:(vm_compute; reflexivity))) as C. cbv zeta in C.
  rewrite E in C. symmetry. exact C.
Defined.

(** A connection that a filter closes when it is told of it is counted for good. *)
Example counted_for_good :
  numConnections (handled [Accept 1 [] [true]; Act 0 (AReadLoop false [] (Some IoBuffer.EOF)); Act 0 (AWriteLoop true)]) = 1.
Proof. vm_compute. reflexivity. Qed.
End handler_example.

(** ** What is listened on *)

Module listener_facts.
Section listeners.
Context {N T : Type} `{EqDecision N, EqDecision T} (tls_ok : ListenerConfig → bool).
Implicit Types ls : list (activeListener N T).

Lemma add_names uuid lc nfs sfs ls :
  NoDup (name <$> ls) → NoDup (name <$> (AddOrUpdateListener tls_ok uuid lc nfs sfs ls).2).
Proof.
  intros Hn. unfold AddOrUpdateListener. set (lc' := if LName lc =b [] then _ else lc).
  destruct (list_find _ ls) as [[i al]|] eqn:Ef.
  - destruct (_ || _); [done|]. destruct (_ && _); [done|]. simpl. rewrite list_fmap_insert.
    apply list_find_Some in Ef as (Ei & En & _).
    rewrite list_insert_id; [done|]. rewrite list_lookup_fmap, Ei. simpl. done.
  - unfold newActiveListener. destruct (tls_ok lc'); [|done]. simpl. rewrite fmap_app. simpl.
    apply list.NoDup_app. split; [done|]. split; [|apply list.NoDup_singleton]. intros x Hx ->%list_elem_of_singleton.
    apply list_elem_of_fmap in Hx as (l & E & I). apply list_find_None in Ef. apply (proj1 (list.Forall_forall _ _) Ef l I). done.
Qed.

Lemma filter_every {A} (P : A → Prop) `{∀ x, Decision (P x)} (l : list A) : Forall P l → base.filter P l = l.
Proof. intros Fl. induction Fl as [|x l Hx Fl IH]; [done|]. rewrite filter_cons_True by done. by f_equal. Qed.
(** The loop of RemoveListeners when no more than one has the name. *)
Lemma remove_rest n i nm arr len : (∀ j l, (i ≤ j)%nat → arr !! j = Some l → name l ≠ nm) →
  remove_loop (N := N) (T := T) n i nm arr len = Some (arr, len).
Proof.
  revert i. induction n as [|n IH]; intros i Hi; [done|]. simpl. destruct (arr !! i) as [l|] eqn:E; [|done].
  rewrite bool_decide_eq_false_2 by (by apply (Hi i)). apply IH. intros j l' Hj. apply Hi. lia.
Qed.
Lemma nodup_first nm ls i l : NoDup (name <$> ls) → ls !! i = Some l → name l = nm →
  ∀ j l', j ≠ i → ls !! j = Some l' → name l' ≠ nm.
Proof.
  intros Hn Ei En j l' Hj Ej E. apply Hj. eapply (proj1 (list.NoDup_alt _) Hn j i nm); rewrite list_lookup_fmap.
  - rewrite Ej. simpl. by rewrite E.
  - rewrite Ei. simpl. by rewrite En.
Qed.
Lemma remove_loop_ok nm ls n i : NoDup (name <$> ls) → (n + i = length ls)%nat →
  (∀ j l, (j < i)%nat → ls !! j = Some l → name l ≠ nm) →
  ∃ arr len, remove_loop n i nm ls (length ls) = Some (arr, len) ∧ take len arr = base.filter (λ l, name l ≠ nm) ls.
Proof.
  intros Hn. revert i. induction n as [|n IH]; intros i Hi Hb.
  - exists ls, (length ls). split; [done|]. rewrite take_ge by lia. symmetry. apply filter_every.
    apply list.Forall_forall. intros l (j & Ej)%list_elem_of_lookup. apply (Hb j); [|done]. apply lookup_lt_Some in Ej. lia.
  - simpl. destruct (lookup_lt_is_Some_2 ls i ltac:(lia)) as [l El]. rewrite El. case_bool_decide as En.
    + rewrite bool_decide_eq_true_2 by lia. rewrite (take_ge ls (length ls)) by lia.
      pose proof (nodup_first nm ls i l Hn El En) as Ho.
      exists (take i ls ++ drop (S i) ls ++ drop (length ls - 1) ls), (length ls - 1)%nat. split.
      * apply remove_rest. intros j l' Hj. rewrite app_assoc. intros Ej.
        destruct (decide (j < length ls - 1)%nat) as [Hl|Hl].
        -- rewrite lookup_app_l in Ej by (rewrite length_app, length_take, length_drop; lia).
           rewrite lookup_app_r in Ej by (rewrite length_take; lia). rewrite lookup_drop in Ej.
           eapply (Ho (S i + (j - length (take i ls)))%nat); [|exact Ej]. rewrite length_take. lia.
        -- rewrite lookup_app_r in Ej by (rewrite length_app, length_take, length_drop; lia). rewrite lookup_drop in Ej.
           eapply Ho; [|exact Ej]. apply lookup_lt_Some in Ej. rewrite length_app, length_take, length_drop in *. lia.
      * rewrite app_assoc, take_app_le by (rewrite length_app, length_take, length_drop; lia).
        rewrite take_ge by (rewrite length_app, length_take, length_drop; lia).
        rewrite <- (take_drop_middle ls i l El) at 3. rewrite list.filter_app, filter_cons_False by naive_solver.
        f_equal; symmetry; apply filter_every, list.Forall_forall; intros x (j & Ej)%list_elem_of_lookup.
        -- apply lookup_take_Some in Ej as [Ej Hj]. apply (Ho j); [lia|done].
        -- rewrite lookup_drop in Ej. eapply Ho; [|exact Ej]. lia.
    + apply IH; [lia|]. intros j l' Hj Ej. destruct (decide (j = i)) as [->|]; [congruence|]. apply (Hb j); [lia|done].
Qed.
End listeners.
End listener_facts.

(** The listeners have different names, and one that is removed is gone.  Adding
    or updating keeps the names of the listeners different; removing a name never
    panics, although it shifts the list it ranges over, leaves the others in their
    order, and afterwards no listener is found by that name. *)
Theorem listeners_by_name {N T} `{EqDecision N, EqDecision T} tls_ok uuid lc nfs sfs nm (ls : list (activeListener N T)) :
  NoDup (name <$> ls) →
  NoDup (name <$> (AddOrUpdateListener tls_ok uuid lc nfs sfs ls).2) ∧
  RemoveListeners nm ls = Some (base.filter (λ l, name l ≠ nm) ls) ∧
  findActiveListenerByName nm (base.filter (λ l, name l ≠ nm) ls) = None.
Proof.
  intros Hn. split; [by apply listener_facts.add_names|]. split.
  - unfold RemoveListeners. destruct (listener_facts.remove_loop_ok nm ls (length ls) 0 Hn) as (arr & len & -> & E);
      [lia|intros j l Hj; lia|]. simpl. by rewrite E.
  - unfold findActiveListenerByName. rewrite (proj2 (list_find_None _ _)); [done|].
    apply list.Forall_forall. by intros l [? _]%list_elem_of_filter.
Qed.

(** What an update of a listener keeps.  A listener that exists is updated only
    with its own address; with the same configuration and network filters nothing
    is changed, so that new stream filters alone never take effect. *)
Theorem listener_update {N T} `{EqDecision N, EqDecision T} tls_ok uuid lc nfs sfs (ls : list (activeListener N T)) i al :
  LName lc ≠ [] → NoDup (name <$> ls) → ls !! i = Some al → name al = LName lc →
  (addr al ≠ LAddr lc ∨ network al ≠ LNetwork lc →
    AddOrUpdateListener tls_ok uuid lc nfs sfs ls = (AddressMismatch, ls)) ∧
  (addr al = LAddr lc → network al = LNetwork lc → config al = lc → networkFiltersFactories al = nfs →
    AddOrUpdateListener tls_ok uuid lc nfs sfs ls = (Duplicate, ls)) ∧
  (addr al = LAddr lc → network al = LNetwork lc → (config al ≠ lc ∨ networkFiltersFactories al ≠ nfs) →
    ∃ al', AddOrUpdateListener tls_ok uuid lc nfs sfs ls = (Updated, <[i := al']> ls) ∧
      config al' = lc ∧ networkFiltersFactories al' = nfs ∧ streamFiltersFactories al' = sfs ∧
      name al' = name al ∧ addr al' = addr al ∧ stopped al' = stopped al).
Proof.
  intros Hne Hn Ei En. unfold AddOrUpdateListener. rewrite (bool_decide_eq_false_2 (LName lc = [])) by done.
  assert (list_find (λ l, name l = LName lc) ls = Some (i, al)) as ->.
  { apply list_find_Some. split; [done|]. split; [done|]. intros j l Ej Hj.
    apply (listener_facts.nodup_first (LName lc) ls i al Hn Ei En j l); [lia|done]. }
  split; [|split].
  - intros D. destruct (decide (addr al = LAddr lc)) as [Ea|Ea]; [|by rewrite bool_decide_eq_false_2].
    rewrite (bool_decide_eq_true_2 (addr al = LAddr lc)) by done. rewrite bool_decide_eq_false_2 by naive_solver. done.
  - intros E1 E2 E3 E4. by rewrite !bool_decide_eq_true_2 by done.
  - intros E1 E2 D. rewrite (bool_decide_eq_true_2 (addr al = LAddr lc)), (bool_decide_eq_true_2 (network al = LNetwork lc)) by done.
    cbn [negb orb]. assert (bool_decide (config al = lc) && bool_decide (networkFiltersFactories al = nfs) = false) as ->.
    { apply andb_false_iff. destruct D; [left|right]; by apply bool_decide_eq_false_2. }
    eexists. split; [done|]. unfold updateListener. simpl. split_and!; try done; by case_bool_decide.
Qed.

Definition listener_at (n a r : bytes) : ListenerConfig := MkListener n (bs "tcp") a 0 false r.
Definition made (n a : bytes) : list (activeListener bytes bytes) :=
  (AddOrUpdateListener (λ _, true) [] (listener_at n a []) [bs "proxy"] [] []).2.
Lemma listeners_by_name_witness :
  let ls := made (bs "x") (bs "127.0.0.1:80") ++ made (bs "y") (bs ":81") in
  RemoveListeners (bs "x") ls = Some (made (bs "y") (bs ":81")) ∧ listenPort <$> ls = [80; 81].
Proof.
  intros ls. split; [|vm_compute; reflexivity].
  apply (proj1 (proj2 (listeners_by_name (λ _, true) [] (listener_at [] [] []) [] [] (bs "x") ls
    ltac:(apply (bool_decide_unpack _); vm_compute; exact I)))).
Defined.
Lemma listener_update_witness :
  let ls := made (bs "x") (bs ":80") in
  AddOrUpdateListener (λ _, true) [] (listener_at (bs "x") (bs ":80") []) [bs "proxy"] [bs "auth"] ls = (Duplicate, ls).
Proof.
  intros ls. destruct (ls !! 0%nat) as [al|] eqn:E; [|discriminate].
  assert (al = default al (ls !! 0%nat)) as Ea by (by rewrite E).
  apply (proj1 (proj2 (listener_update (λ _, true) [] (listener_at (bs "x") (bs ":80") []) [bs "proxy"] [bs "auth"] ls 0 al
    ltac:(discriminate) ltac:(apply (bool_decide_unpack _); vm_compute; exact I) E
    ltac:(rewrite Ea; vm_compute; reflexivity)))); rewrite Ea; vm_compute; reflexivity.
Defined.
