(* ===== verification/HttpBufPool.v ===== *)
(** * The pool of HTTP body buffers

    src/pkg/protocol/http/v1/bytebufferpool.go: byte buffers that grow, and the pool
    that recycles them.  The pool counts by size class how long the buffers are that
    come back, and every 42000 of a class it recalibrates: the commonest class
    becomes the size of new buffers, and buffers larger than the classes that make
    up the commonest 95 percent are no longer kept.

    sort.Sort is a class with what it documents (it need not be stable); sync.Pool
    hands out any of its items or none, as a choice says; the percentage is computed
    in binary64 (Limit.v).  Calls are not interleaved. *)

From stdpp Require Import sorting.
From Stdlib Require Import Floats.SpecFloat.
From S2P Require Import Prelude BytesConv Limit HttpCodec HttpBody.
#[local] Open Scope Z_scope.

(** ** Buffers *)

Definition bcap (b : ByteBuffer) : Z := zlen (bb b) + zlen (bbspare b).
Definition Len (b : ByteBuffer) : Z := zlen (bb b).
Definition Bytes (b : ByteBuffer) : bytes := bb b.
(** Writing over the spare bytes, or in new memory, of which append may take more. *)
Definition append (p : bytes) (more : nat) (b : ByteBuffer) : ByteBuffer :=
  MkBB (bb b ++ p)
    (if zlen p <=? zlen (bbspare b) then drop (length p) (bbspare b) else replicate more x00).
Definition Write (p : bytes) (more : nat) (b : ByteBuffer) : Z * ByteBuffer := (zlen p, append p more b).
Definition WriteByte (c : byte) (more : nat) (b : ByteBuffer) : ByteBuffer := append [c] more b.
Definition WriteString (s : bytes) (more : nat) (b : ByteBuffer) : Z * ByteBuffer := (zlen s, append s more b).
Definition Reset (b : ByteBuffer) : ByteBuffer := bb_reset b.
Definition Set_ (p : bytes) (more : nat) (b : ByteBuffer) : ByteBuffer := append p more (Reset b).
Definition SetString (s : bytes) (more : nat) (b : ByteBuffer) : ByteBuffer := append s more (Reset b).
Definition String_ (b : ByteBuffer) : bytes := bb b.
(** To a writer that answers with a number and an error. *)
Definition WriteTo {E} (w : bytes → Z * option E) (b : ByteBuffer) : Z * option E := w (bb b).

(** The loop of ReadFrom on the slice [p] of which [n] bytes are read; [None] when
    out of fuel. *)
Fixpoint ReadFrom_loop (fuel : nat) (p : bytes) (n nStart : Z) (r : Reader) : option (Z * option wErr * Reader * ByteBuffer) :=
  match fuel with
  | O => None
  | S fuel =>
      let p := if n =? zlen p then p ++ replicate (length p) x00 else p in
      let '(d, e, r) := Read (zlen p - n) r in
      let p := take (Z.to_nat n) p ++ d ++ drop (Z.to_nat n + length d) p in
      let n := n + zlen d in
      if e then Some (n - nStart, ended r, r, MkBB (take (Z.to_nat n) p) (drop (Z.to_nat n) p))
      else ReadFrom_loop fuel p n nStart r
  end.
Definition ReadFrom (r : Reader) (b : ByteBuffer) : option (Z * option wErr * Reader * ByteBuffer) :=
  let p := if bcap b =? 0 then replicate 64 x00 else bb b ++ bbspare b in
  ReadFrom_loop (S (remaining r)) p (zlen (bb b)) (zlen (bb b)) r.

(** ** Size classes *)

Definition minBitSize : Z := 6.
Definition steps : nat := 20.
Definition minSize : Z := Z.shiftl 1 minBitSize.
Definition calibrateCallsThreshold : Z := 42000.
(** 0.95 as a float64 *)
Definition maxPercentile : float := S754_finite false 8556839292003942 (-53).

(** [for n > 0 { n >>= 1; idx++ }]; an int has at most 63 bits. *)
Fixpoint index_loop (fuel : nat) (n idx : Z) : Z :=
  match fuel with
  | O => idx
  | S fuel => if 0 <? n then index_loop fuel (Z.shiftr n 1) (idx + 1) else idx
  end.
Definition index (n : Z) : Z :=
  let idx := index_loop 63 (Z.shiftr (n - 1) minBitSize) 0 in
  if Z.of_nat steps <=? idx then Z.of_nat steps - 1 else idx.

Record callSize : Type := mkCall { calls : Z; size : Z }.
Definition Less (a b : callSize) : bool := calls b <? calls a.

(** sort.Sort, for Less above. *)
Class Sort : Type := {
  sort : list callSize → list callSize;
  sort_permutation l : sort l ≡ₚ l;
  sort_sorted l : StronglySorted (λ a b, calls b ≤ calls a) (sort l)
}.

Record Pool : Type := mkPool {
  pcalls : list Z; calibrating : bool; defaultSize : Z; maxSize : Z; pool : list ByteBuffer
}.
Definition zeroPool : Pool := mkPool (replicate steps 0) false 0 0 [].

Section pool.
Context `{Sort} (oor : Z).

(** uint64(float64(sum) * maxPercentile); [oor] is what a value out of range gives. *)
Definition percentile (sum : Z) : Z :=
  match fmul (float64 sum) maxPercentile with
  | S754_zero _ => 0
  | S754_finite false m e =>
      let a := if 0 <=? e then Z.pos m * 2 ^ e else Z.pos m / 2 ^ (- e) in
      if a <? 2 ^ 64 then a else uint64 oor
  | _ => uint64 oor
  end.

(** The loop over the classes, commonest first. *)
Fixpoint max_loop (l : list callSize) (callsSum maxSum maxSize : Z) : Z :=
  match l with
  | [] => maxSize
  | c :: l =>
      if maxSum <? callsSum then maxSize
      else max_loop l (uint64 (callsSum + calls c)) maxSum (if maxSize <? size c then size c else maxSize)
  end.

Definition classes (cs : list Z) : list callSize :=
  imap (λ i c, mkCall c (uint64 (Z.shiftl minSize (Z.of_nat i)))) cs.
Definition calls_sum (cs : list Z) : Z := fold_left (λ s c, uint64 (s + c)) cs 0.
Definition calibrate (p : Pool) : Pool :=
  if calibrating p then p
  else
    let a := sort (classes (pcalls p)) in
    let maxSum := percentile (calls_sum (pcalls p)) in
    let defaultSize := match a with c :: _ => size c | [] => 0 end in
    mkPool (replicate steps 0) false defaultSize (max_loop a 0 maxSum defaultSize) (pool p).

(** Get; the choice is that of sync.Pool. *)
Definition Get (choice : nat) (p : Pool) : ByteBuffer * Pool :=
  match pool p !! choice with
  | Some b => (b, mkPool (pcalls p) (calibrating p) (defaultSize p) (maxSize p) (delete choice (pool p)))
  | None => (MkBB [] (replicate (Z.to_nat (defaultSize p)) x00), p)
  end.
Definition Put (b : ByteBuffer) (p : Pool) : Pool :=
  let idx := Z.to_nat (index (zlen (bb b))) in
  let n := uint64 (default 0 (pcalls p !! idx) + 1) in
  let p := mkPool (<[idx := n]> (pcalls p)) (calibrating p) (defaultSize p) (maxSize p) (pool p) in
  let p := if calibrateCallsThreshold <? n then calibrate p else p in
  let max := int64 (maxSize p) in
  if (max =? 0) || (bcap b <=? max)
  then mkPool (pcalls p) (calibrating p) (defaultSize p) (maxSize p) (Reset b :: pool p)
  else p.

(** Buffers that go back and forth: a Get, any use, a Put. *)
Inductive reach : Pool → Prop :=
| reach_zero : reach zeroPool
| reach_get p choice : reach p → reach (Get choice p).2
| reach_put p b : reach p → zlen (bb b) < 2 ^ 63 → reach (Put b p).
End pool.

(** ** Size classes: lemmas *)

Definition classSize (i : Z) : Z := minSize * 2 ^ i.

Lemma index_loop_spec fuel n idx : 0 < n < 2 ^ Z.of_nat fuel → index_loop fuel n idx = idx + Z.log2 n + 1.
Proof.
  revert n idx. induction fuel as [|fuel IH]; intros n idx Hn; [simpl in Hn; lia|].
  cbn [index_loop]. rewrite (proj2 (Z.ltb_lt _ _)) by lia. rewrite Z.shiftr_div_pow2 by lia. change (2 ^ 1) with 2.
  destruct (decide (n = 1)) as [->|N].
  - change (1 / 2) with 0. destruct fuel; simpl; change (Z.log2 1) with 0; lia.
  - rewrite IH.
    + pose proof (Z.log2_shiftr n 1 ltac:(lia)) as L. rewrite Z.shiftr_div_pow2 in L by lia. change (2 ^ 1) with 2 in L.
      rewrite L. pose proof (Z.log2_le_mono 2 n ltac:(lia)). change (Z.log2 2) with 1 in *. lia.
    + rewrite Nat2Z.inj_succ, Z.pow_succ_r in Hn by lia.
      split; [apply Z.div_str_pos; lia|apply Z.div_lt_upper_bound; lia].
Qed.
(** The class of a length is the smallest that it fits in, and the last one for those
    that fit in none. *)
Lemma index_spec n : 0 ≤ n < 2 ^ 63 →
  0 ≤ index n < Z.of_nat steps ∧ (n ≤ classSize (index n) ∨ index n = Z.of_nat steps - 1) ∧
  (0 < index n → classSize (index n - 1) < n).
Proof.
  intros Hn. unfold index, classSize, minSize, minBitSize, steps. change (Z.shiftl 1 6) with 64.
  rewrite Z.shiftr_div_pow2 by lia. change (2 ^ 6) with 64.
  destruct (decide (n ≤ 64)) as [Hs|Hs].
  { assert (index_loop 63 ((n - 1) / 64) 0 = 0) as ->.
    { cbn [index_loop]. rewrite (proj2 (Z.ltb_ge _ _)); [done|]. apply Z.lt_succ_r, Z.div_lt_upper_bound; lia. }
    simpl. change (64 * 2 ^ 0) with 64. lia. }
  assert (0 < (n - 1) / 64 < 2 ^ 57) as Hm by (split; [apply Z.div_str_pos; lia|apply Z.div_lt_upper_bound; lia]).
  rewrite index_loop_spec by (change (2 ^ Z.of_nat 63) with (2 ^ 57 * 64); lia).
  set (m := (n - 1) / 64) in *. assert (64 * m ≤ n - 1 < 64 * (m + 1)) as Hd.
  { pose proof (Z.div_mod (n - 1) 64 ltac:(lia)). pose proof (Z.mod_pos_bound (n - 1) 64 ltac:(lia)). unfold m. lia. }
  destruct (Z.log2_spec m) as [L1 L2]; [lia|]. pose proof (Z.log2_nonneg m) as L0. rewrite <- Z.add_1_r in L2.
  rewrite Z.add_0_l. destruct (Z.of_nat 20 <=? Z.log2 m + 1) eqn:E; bdec.
  - split; [lia|]. split; [by right|]. intros _. change (Z.of_nat 20 - 1 - 1) with 18.
    assert (2 ^ 18 ≤ 2 ^ Z.log2 m) by (apply Z.pow_le_mono_r; lia). lia.
  - split; [lia|]. split; [left; lia|]. intros _. replace (Z.log2 m + 1 - 1) with (Z.log2 m) by lia. lia.
Qed.

(** ** Calibration *)

(** The calls of the classes that fit in [m]. *)
Definition covered (m : Z) (l : list callSize) : Z := zsum (λ c, if size c <=? m then calls c else 0) l.

Lemma covered_mono m l : Forall (λ c, 0 ≤ calls c) l → 0 ≤ covered m l ≤ zsum calls l.
Proof.
  induction 1 as [|c l Hc _ IH]; unfold covered in *; simpl; [lia|]. destruct (size c <=? m); lia.
Qed.
Lemma covered_perm m l k : l ≡ₚ k → covered m l = covered m k.
Proof. unfold covered. induction 1; simpl; lia. Qed.
Lemma zsum_perm {A} (f : A → Z) l k : l ≡ₚ k → zsum f l = zsum f k.
Proof. induction 1; simpl; lia. Qed.

Lemma max_loop_spec l : ∀ s maxSum m, Forall (λ c, 0 ≤ calls c) l → 0 ≤ s → s + zsum calls l < 2 ^ 64 →
  let r := max_loop l s maxSum m in
  m ≤ r ∧ (r = m ∨ ∃ c, c ∈ l ∧ r = size c) ∧ (maxSum < s + covered r l ∨ Forall (λ c, size c ≤ r) l).
Proof.
  induction l as [|c l IH]; intros s maxSum m F Hs Ho; simpl in *.
  { split; [lia|]. split; [by left|by right]. }
  apply list.Forall_cons in F as [Fc F]. pose proof (covered_mono 0 l F) as C0.
  destruct (maxSum <? s) eqn:E; bdec.
  { split; [lia|]. split; [by left|]. left. pose proof (covered_mono m (c :: l) ltac:(by constructor)) as C1. lia. }
  unfold uint64. rewrite wrapU_small by lia.
  destruct (IH (s + calls c) maxSum (if m <? size c then size c else m) F) as (H1 & H2 & H3); [lia|lia|].
  set (r := max_loop l _ _ _) in *. assert (m ≤ r ∧ size c ≤ r) as [H4 H5] by (destruct (m <? size c) eqn:?; bdec; lia).
  split; [done|]. split.
  - destruct H2 as [H2|(d & Hd & H2)]; [|right; exists d; split; [by right|done]].
    destruct (m <? size c); [right; exists c; split; [by left|done]|by left].
  - destruct H3 as [H3|H3]; [left|right; by constructor]. unfold covered in *. simpl.
    rewrite (proj2 (Z.leb_le _ _)) by done. lia.
Qed.

(** A pool as it is between calls; while a call counts, one class may be over. *)
Record pool_ok (p : Pool) : Prop := {
  po_len : length (pcalls p) = steps;
  po_calls : Forall (λ c, 0 ≤ c ≤ calibrateCallsThreshold + 1) (pcalls p);
  po_calibrating : calibrating p = false;
  po_default : defaultSize p = 0 ∨ ∃ i, (i < steps)%nat ∧ defaultSize p = classSize (Z.of_nat i);
  po_max : maxSize p = 0 ∨ ∃ i, (i < steps)%nat ∧ maxSize p = classSize (Z.of_nat i);
  po_le : defaultSize p ≤ maxSize p;
  po_pool : Forall (λ b, bb b = []) (pool p)
}.

Lemma sum_bound cs : Forall (λ c, 0 ≤ c ≤ calibrateCallsThreshold + 1) cs → 
  0 ≤ zsum id cs ≤ 42001 * zlen cs.
Proof.
  unfold calibrateCallsThreshold. induction 1 as [|c cs Hc _ IH]; simpl; unfold zlen in *; simpl in *; lia.
Qed.
Lemma calls_sum_spec cs : Forall (λ c, 0 ≤ c ≤ calibrateCallsThreshold + 1) cs → zlen cs ≤ 20 → calls_sum cs = zsum id cs.
Proof.
  intros F L. unfold calls_sum.
  assert (∀ s, 0 ≤ s → s + 42001 * zlen cs < 2 ^ 64 → fold_left (λ s c, uint64 (s + c)) cs s = s + zsum id cs) as G.
  { clear L. induction F as [|c cs Hc F IH]; intros s Hs Ho; simpl; [lia|].
    pose proof (sum_bound cs F). unfold calibrateCallsThreshold, zlen in *. simpl in *. unfold uint64. rewrite wrapU_small by lia.
    rewrite IH by lia. unfold id. lia. }
  rewrite G by lia. lia.
Qed.
Lemma classes_spec cs c : c ∈ classes cs → (length cs ≤ steps)%nat →
  ∃ i, (i < steps)%nat ∧ cs !! i = Some (calls c) ∧ size c = classSize (Z.of_nat i).
Proof.
  intros H L. unfold classes in H. apply elem_of_lookup_imap in H as (i & x & -> & E). exists i. pose proof (lookup_lt_Some _ _ _ E).
  split; [lia|]. split; [done|]. simpl. unfold uint64, classSize. rewrite Z.shiftl_mul_pow2 by lia. apply wrapU_small.
  unfold minSize, minBitSize, steps in *. change (Z.shiftl 1 6) with (2 ^ 6). rewrite <- Z.pow_add_r by lia.
  split; [apply Z.pow_nonneg; lia|]. apply Z.pow_lt_mono_r; lia.
Qed.
Lemma classes_calls cs : zsum calls (classes cs) = zsum id cs.
Proof.
  assert (∀ g : nat → Z, zsum calls (imap (λ i c, mkCall c (g i)) cs) = zsum id cs) as G; [|apply G].
  induction cs as [|c cs IH]; intros g; [done|]. rewrite imap_cons. simpl. f_equal. apply (IH (g ∘ S)).
Qed.

Lemma classSize_le i : (i < steps)%nat → classSize (Z.of_nat i) ≤ classSize (Z.of_nat steps - 1).
Proof.
  intros Hi. unfold classSize. apply Z.mul_le_mono_nonneg_l; [done|]. apply Z.pow_le_mono_r; lia.
Qed.
Lemma classes_last cs : length cs = steps → ∃ c, c ∈ classes cs ∧ size c = classSize (Z.of_nat steps - 1).
Proof.
  intros L. destruct (lookup_lt_is_Some_2 cs 19) as [x Ex]; [rewrite L; unfold steps; lia|].
  exists (mkCall x (uint64 (Z.shiftl minSize (Z.of_nat 19)))). split; [apply elem_of_lookup_imap; by exists 19%nat, x|done].
Qed.

Section calibrate.
Context `{Sort} (oor : Z).

(** Calibration, of counts that do not overflow. *)
Lemma calibrate_spec p : length (pcalls p) = steps → Forall (λ c, 0 ≤ c ≤ calibrateCallsThreshold + 1) (pcalls p) →
  calibrating p = false →
  let p' := calibrate oor p in
  pcalls p' = replicate steps 0 ∧ calibrating p' = false ∧ pool p' = pool p ∧ defaultSize p' ≤ maxSize p' ∧
  (∃ i c, (i < steps)%nat ∧ pcalls p !! i = Some c ∧ Forall (λ x, x ≤ c) (pcalls p) ∧ defaultSize p' = classSize (Z.of_nat i)) ∧
  (∃ j, (j < steps)%nat ∧ maxSize p' = classSize (Z.of_nat j)) ∧
  (percentile oor (zsum id (pcalls p)) < covered (maxSize p') (classes (pcalls p)) ∨
   maxSize p' = classSize (Z.of_nat steps - 1)).
Proof.
  intros L F C p'. unfold p', calibrate. rewrite C. simpl.
  pose proof (sort_permutation (classes (pcalls p))) as P. pose proof (sort_sorted (classes (pcalls p))) as S.
  assert (∀ c, c ∈ sort (classes (pcalls p)) → ∃ i, (i < steps)%nat ∧ pcalls p !! i = Some (calls c) ∧ size c = classSize (Z.of_nat i)) as Hc.
  { intros c Hc. rewrite P in Hc. apply (classes_spec _ _ Hc). lia. }
  assert (Forall (λ c, 0 ≤ calls c) (sort (classes (pcalls p)))) as Fn.
  { apply list.Forall_forall. intros c (i & _ & E & _)%Hc. apply (Forall_lookup_1 _ _ _ _ F E). }
  assert (zlen (pcalls p) = 20) as Lz by (unfold zlen; by rewrite L).
  rewrite calls_sum_spec by (done || lia). pose proof (sum_bound _ F) as Sb.
  assert (zsum calls (sort (classes (pcalls p))) = zsum id (pcalls p)) as Es by (rewrite (zsum_perm _ _ _ P); apply classes_calls).
  destruct (sort (classes (pcalls p))) as [|c0 a] eqn:Ea.
  { apply Permutation_length in P. unfold classes in P. by rewrite length_imap, L in P. }
  destruct (max_loop_spec (c0 :: a) 0 (percentile oor (zsum id (pcalls p))) (size c0) Fn) as (M1 & M2 & M3); [lia|lia|].
  set (r := max_loop _ _ _ _) in *. destruct (Hc c0) as (i0 & I0 & C0 & S0); [by left|].
  assert (∃ j, (j < steps)%nat ∧ r = classSize (Z.of_nat j)) as Mj.
  { destruct M2 as [->|(c & Hcc & ->)]; [by exists i0|]. destruct (Hc c Hcc) as (i & ? & _ & ?). by exists i. }
  split_and!; try done.
  - exists i0, (calls c0). split_and!; try done. apply list.Forall_forall. intros x (k & Ek)%list_elem_of_lookup.
    apply StronglySorted_inv in S as [_ S]. 
    assert (mkCall x (uint64 (Z.shiftl minSize (Z.of_nat k))) ∈ c0 :: a) as Hx.
    { rewrite P. apply elem_of_lookup_imap. by exists k, x. }
    apply elem_of_cons in Hx as [<-|Hx]; [done|]. rewrite list.Forall_forall in S. by apply (S _ Hx).
  - destruct M3 as [M3|M3]; [left; rewrite <- (covered_perm _ _ _ P); lia|right].
    destruct (classes_last _ L) as (cl & Hl & Sl). rewrite <- P in Hl. rewrite list.Forall_forall in M3. specialize (M3 _ Hl).
    destruct Mj as (j & Hj & Er). pose proof (classSize_le j Hj). lia.
Qed.

Lemma calibrate_ok p : pool_ok p → pool_ok (calibrate oor p) ∧ pcalls (calibrate oor p) = replicate steps 0.
Proof.
  intros [L F C _ _ _ E]. destruct (calibrate_spec p L F C) as (P1 & P2 & P3 & P4 & (i & c & Hi & _ & _ & D) & (j & Hj & M) & _).
  split; [|done]. split; [by rewrite P1|rewrite P1|done|right; by exists i|right; by exists j|done|by rewrite P3].
  apply Forall_replicate. unfold calibrateCallsThreshold. lia.
Qed.

Definition counts_ok (p : Pool) : Prop := Forall (λ c, 0 ≤ c ≤ calibrateCallsThreshold) (pcalls p).
Lemma Put_ok b p : pool_ok p → counts_ok p → zlen (bb b) < 2 ^ 63 → pool_ok (Put oor b p) ∧ counts_ok (Put oor b p).
Proof.
  intros W Cn Lb. unfold Put, counts_ok in *. pose proof (zlen_nonneg (bb b)) as Nb.
  destruct (index_spec (zlen (bb b))) as ([I1 I2] & _); [lia|]. set (k := Z.to_nat (index (zlen (bb b)))).
  destruct (lookup_lt_is_Some_2 (pcalls p) k) as [c Hc]; [rewrite (po_len _ W); lia|].
  pose proof (Forall_lookup_1 _ _ _ _ Cn Hc) as Bc. cbv beta in Bc.
  rewrite Hc. simpl. unfold uint64, calibrateCallsThreshold in *. rewrite wrapU_small by lia.
  set (p1 := mkPool (<[k := c + 1]> (pcalls p)) (calibrating p) (defaultSize p) (maxSize p) (pool p)).
  assert (pool_ok p1) as W1.
  { destruct W. split; try done; simpl; [by rewrite length_insert|].
    apply Forall_insert; [done|]. unfold calibrateCallsThreshold. lia. }
  set (p2 := if 42000 <? c + 1 then calibrate oor p1 else p1).
  assert (pool_ok p2 ∧ Forall (λ c, 0 ≤ c ≤ 42000) (pcalls p2)) as [W2 C2].
  { unfold p2. destruct (42000 <? c + 1) eqn:E; bdec.
    - destruct (calibrate_ok p1 W1) as [W2 ->]. split; [done|]. apply Forall_replicate. lia.
    - split; [done|]. simpl. apply Forall_insert; [done|lia]. }
  destruct ((int64 (maxSize p2) =? 0) || (bcap b <=? int64 (maxSize p2))); [|done].
  split; [|done]. destruct W2. split; try done. simpl. by constructor.
Qed.
Lemma reach_ok p : reach oor p → pool_ok p ∧ counts_ok p.
Proof.
  induction 1 as [|p choice _ [W Cn]|p b _ [W Cn] Lb].
  - split; [split|]; try done; simpl; try (by left); try lia; repeat constructor; unfold calibrateCallsThreshold; lia.
  - unfold Get. destruct (pool p !! choice) as [b|] eqn:E; [|done]. simpl. split; [|done]. destruct W. split; try done. simpl.
    rewrite delete_take_drop. apply Forall_app. split; [by apply Forall_take|by apply Forall_drop].
  - by apply Put_ok.
Qed.
End calibrate.

(** The pool of body buffers.  However buffers are taken, used and put back, a
    buffer that is handed out is empty; the counts of the size classes stay below
    the threshold, so that their sum does not overflow; and the sizes the pool works
    with are none or those of classes, the default one not above the largest. *)
Theorem bufpool_invariant `{Sort} (oor : Z) p choice : reach oor p →
  bb (Get choice p).1 = [] ∧ Forall (λ c, 0 ≤ c ≤ 42000) (pcalls p) ∧ defaultSize p ≤ maxSize p ∧
  (maxSize p = 0 ∨ ∃ i, (i < steps)%nat ∧ maxSize p = 64 * 2 ^ Z.of_nat i) ∧
  (defaultSize p = 0 ∨ ∃ i, (i < steps)%nat ∧ defaultSize p = 64 * 2 ^ Z.of_nat i).
Proof.
  intros [W Cn]%reach_ok. destruct W. split_and!; try done.
  unfold Get. destruct (pool p !! choice) as [b|] eqn:E; [|done]. by apply (Forall_lookup_1 _ _ _ _ po_pool0 E).
Qed.

(** Calibration.  When the pool calibrates, the counts start again, the commonest
    class becomes the size of new buffers, and the classes of the buffers that are
    still kept make up more than 95 percent of the calls counted (as computed in
    binary64), or are all of them. *)
Theorem calibrate_covers `{Sort} (oor : Z) p : reach oor p →
  let p' := calibrate oor p in
  pcalls p' = replicate steps 0 ∧ pool p' = pool p ∧
  (∃ i c, pcalls p !! i = Some c ∧ Forall (λ x, x ≤ c) (pcalls p) ∧ defaultSize p' = 64 * 2 ^ Z.of_nat i) ∧
  (percentile oor (zsum id (pcalls p)) < covered (maxSize p') (classes (pcalls p)) ∨ maxSize p' = 64 * 2 ^ 19).
Proof.
  intros [W Cn]%reach_ok p'. destruct (calibrate_spec oor p) as (P1 & _ & P3 & _ & (i & c & _ & Hc & Fc & D) & _ & Cv);
    [apply W..|]. split_and!; try done. by exists i, c.
Qed.

(** ** Reading *)

Module readfrom.
Lemma loop_gives fuel : ∀ s d p n n0, gives s d → (length d + length (reads s) < fuel)%nat → 0 ≤ n ≤ zlen p → 0 < zlen p →
  ∃ r' b', ReadFrom_loop fuel p n n0 (Plain s) = Some (n + zlen d - n0, None, r', b') ∧ bb b' = take (Z.to_nat n) p ++ d.
Proof.
  induction fuel as [|fuel IH]; intros s d p n n0 G Hf Hn Hp; [lia|]. cbn [ReadFrom_loop].
  set (p1 := if n =? zlen p then p ++ replicate (length p) x00 else p).
  assert (n < zlen p1 ∧ take (Z.to_nat n) p1 = take (Z.to_nat n) p) as [H1 T1].
  { unfold p1. destruct (n =? zlen p) eqn:E; bdec; [|split; [lia|done]]. rewrite zlen_app. unfold zlen in *. rewrite length_replicate.
    split; [lia|]. rewrite take_app_le by lia. done. }
  unfold Read. destruct (source_read_step (zlen p1 - n) s d ltac:(lia) G) as
    [(Er & -> & ->)|(q & d' & s' & -> & G' & -> & Nq & Lq & _ & Lt)].
  - destruct G as (_ & _ & E). unfold ended. rewrite E, zlen_nil, Z.add_0_r. eexists _, _. split; [done|]. simpl.
    rewrite take_app_length' by (rewrite length_take; unfold zlen in *; lia). by rewrite T1, app_nil_r.
  - set (p2 := take (Z.to_nat n) p1 ++ q ++ drop (Z.to_nat n + length q) p1).
    assert (length (take (Z.to_nat n) p1) = Z.to_nat n) as L1 by (rewrite length_take; unfold zlen in *; lia).
    assert (0 < length q)%nat as Lq0 by (destruct q; [done|simpl; lia]).
    destruct (IH s' d' p2 (n + zlen q) n0 G') as (r' & b' & E & B); [lia| | |].
    + unfold p2. rewrite !zlen_app. unfold zlen in *. rewrite L1. lia.
    + unfold p2. rewrite !zlen_app. unfold zlen in *. rewrite L1. lia.
    + exists r', b'. rewrite E, zlen_app, Z.add_assoc. split; [done|]. rewrite B. unfold p2.
      rewrite app_assoc, take_app_length'; [by rewrite <- app_assoc, T1|]. rewrite length_app, L1. unfold zlen in *. lia.
Qed.
End readfrom.

(** ReadFrom reads to the end.  From a reader that ends, ReadFrom returns, with the
    number of bytes it gave and no error, and has appended exactly these to the
    buffer, whatever stale bytes are behind its length. *)
Theorem bytebuffer_readfrom s d b : gives s d →
  ∃ r' b', ReadFrom (Plain s) b = Some (zlen d, None, r', b') ∧ bb b' = bb b ++ d.
Proof.
  intros G. unfold ReadFrom. set (p := if bcap b =? 0 then replicate 64 x00 else bb b ++ bbspare b).
  assert (zlen (bb b) ≤ zlen p ∧ 0 < zlen p ∧ take (Z.to_nat (zlen (bb b))) p = bb b) as (H1 & H2 & H3).
  { unfold p, bcap. pose proof (zlen_nonneg (bb b)). pose proof (zlen_nonneg (bbspare b)).
    destruct (zlen (bb b) + zlen (bbspare b) =? 0) eqn:E; bdec.
    - assert (bb b = []) as -> by (apply zlen_0; lia). done.
    - rewrite zlen_app. split_and!; [lia|lia|]. unfold zlen. by rewrite Nat2Z.id, take_app_length. }
  pose proof (zlen_nonneg (bb b)) as Nb.
  destruct (readfrom.loop_gives (S (remaining (Plain s))) s d p (zlen (bb b)) (zlen (bb b)) G) as (r' & b' & E & B); [|lia|lia|].
  { destruct G as (_ & <- & _). simpl. lia. }
  exists r', b'. rewrite E, Z.add_simpl_l. by rewrite B, H3.
Qed.

(** ** An instance, and examples *)

Module bufpool_example.
Definition by_calls (a b : callSize) : Prop := calls b ≤ calls a.
#[export] Instance by_calls_dec a b : Decision (by_calls a b) := decide (calls b ≤ calls a).
#[export] Instance by_calls_total : Total by_calls.
Proof. intros a b. unfold by_calls. lia. Qed.
#[export] Instance by_calls_trans : Transitive by_calls.
Proof. intros a b c. unfold by_calls. lia. Qed.
#[export] Instance merge_sorting : Sort := {
  sort := merge_sort by_calls;
  sort_permutation := merge_sort_Permutation by_calls;
  sort_sorted := StronglySorted_merge_sort by_calls
}.

Definition b100 : ByteBuffer := MkBB (replicate 100 x00) (replicate 28 x00).
Lemma one_put : reach 0 (Put 0 b100 zeroPool).
Proof. apply reach_put; [apply reach_zero|done]. Qed.

Lemma bufpool_invariant_witness : bb (Get 0 (Put 0 b100 zeroPool)).1 = [] ∧ pool (Put 0 b100 zeroPool) ≠ [].
Proof. split; [apply (bufpool_invariant 0 _ 0 one_put)|done]. Defined.

(** One call is counted, in the second class: 95 percent of it is none. *)
Lemma calibrate_covers_witness :
  defaultSize (calibrate 0 (Put 0 b100 zeroPool)) = 128 ∧ percentile 0 1 = 0 ∧
  pcalls (calibrate 0 (Put 0 b100 zeroPool)) = replicate steps 0.
Proof.
  pose proof (calibrate_covers 0 _ one_put) as R. cbv zeta in R. destruct R as (R & _).
  split; [vm_compute; reflexivity|]. split; [vm_compute; reflexivity|exact R].
Defined.

Example percentile_42001 : percentile 0 42001 = 39900.
Proof. vm_compute. reflexivity. Qed.

Lemma bytebuffer_readfrom_witness :
  ∃ r' b', ReadFrom (Plain (mkSource [bs "hello "; bs "world"] None None)) (MkBB (bs "> ") (bs "stale")) = Some (11, None, r', b') ∧
    bb b' = bs "> hello world".
Proof.
  apply (bytebuffer_readfrom (mkSource [bs "hello "; bs "world"] None None) (bs "hello world") (MkBB (bs "> ") (bs "stale"))).
  split_and!; [repeat constructor; done|reflexivity|reflexivity].
Defined.
End bufpool_example.
