(* ===== verification/Controller.v ===== *)
(** * The controller: requests for a connection

    src/pkg/filter/network/controller: controller.go, sourcestream.go, buffer.go and
    the part of streamfilter.go that is used.  A request names a connection by its
    path; the controller looks it up in the stores of the listeners of its scope
    and has the connection emit the action that the request's method names
    (Session.Emit, which passes it to the stream layer), and answers with 200 or 404.

    [state] holds the struct of a stream, the filters it was given (which keep
    pointers to the struct, and outlive its reset) and the trace of what it did.
    Giving the buffers back zeroes the struct; that another stream may use the
    memory by then is not modelled, nor that a sender takes the status out of the
    headers it is given.  A pointer that is only tested for nil is a [bool].  Filters and their operations are those of the proxy (Proxy.v).
    handleDataStatus, handleTrailerStatus and handleBufferData have no callers and
    are left out, as is OnDestroyStream, which is empty.

    The theorems: a request is answered once, after one action on the connection
    found; filters are destroyed and memory is given back at most once; what becomes
    of a request that a filter stops; and which connection is found, over the life of
    the MQTT connections that a listener stores (MqttStream.v). *)

From S2P Require Import Prelude BytesConv Headers Limit MqttStream FilterManager Session Cluster Handler Proxy RuleFilter.

(** strings.TrimLeft(s, "/") *)
Fixpoint TrimLeftSlash (s : bytes) : bytes :=
  match s with
  | [] => []
  | c :: s' => if c =b "/"%byte then TrimLeftSlash s' else s
  end.

Inductive panic : Type := NilDereference | TypeAssertion | NotImplemented.

Abbreviation activeFilter := (Proxy.activeFilter (H := CommonHeader)).
Abbreviation receiverFilter := (Proxy.receiverFilter (H := CommonHeader)).
Abbreviation filterOp := (Proxy.filterOp (H := CommonHeader)).

Inductive effect : Type :=
| ERespHeaders (h : CommonHeader) (endStream : bool)
| ERespData (d : bytes) (endStream : bool)
| ERespTrailers (t : option CommonHeader)
| EEmit (conn : Z) (action : bytes) (args : list bytes)
| EDestroy (i : nat) | EPutIoBuffer | EGive.

Record sourceStream : Type := mkStream {
  ID : Z;
  controller : bool;
  bufferLimit : Z;
  timeout : option Timeout;
  responseSender : bool;
  perRetryTimer : bool;
  responseTimer : bool;
  sourceStreamReqHeaders : option CommonHeader;
  sourceStreamReqDataBuf : option bytes;
  sourceStreamReqTrailers : option CommonHeader;
  sourceStreamRespHeaders : option CommonHeader;
  sourceStreamRespDataBuf : option bytes;
  sourceStreamRespTrailers : option CommonHeader;
  sourceStreamResponseStarted : bool;
  sourceStreamRecvDone : bool;
  controlRequestSent : bool;
  controlProcessDone : bool;
  emitter : option Z;
  filterStage : Z;
  receiverFilters : list nat;
  sourceStreamReset : bool;
  sourceStreamCleaned : bool;
  reuseBuffer : bool;
  context : bool
}.

Record state : Type := mkState {
  ss : sourceStream;
  handlers : list activeFilter;
  trace : list effect
}.

Definition set_perRetryTimer (x : bool) (s : sourceStream) : sourceStream :=
  mkStream (ID s) (controller s) (bufferLimit s) (timeout s) (responseSender s) x (responseTimer s) (sourceStreamReqHeaders s) (sourceStreamReqDataBuf s) (sourceStreamReqTrailers s) (sourceStreamRespHeaders s) (sourceStreamRespDataBuf s) (sourceStreamRespTrailers s) (sourceStreamResponseStarted s) (sourceStreamRecvDone s) (controlRequestSent s) (controlProcessDone s) (emitter s) (filterStage s) (receiverFilters s) (sourceStreamReset s) (sourceStreamCleaned s) (reuseBuffer s) (context s).
Definition set_responseTimer (x : bool) (s : sourceStream) : sourceStream :=
  mkStream (ID s) (controller s) (bufferLimit s) (timeout s) (responseSender s) (perRetryTimer s) x (sourceStreamReqHeaders s) (sourceStreamReqDataBuf s) (sourceStreamReqTrailers s) (sourceStreamRespHeaders s) (sourceStreamRespDataBuf s) (sourceStreamRespTrailers s) (sourceStreamResponseStarted s) (sourceStreamRecvDone s) (controlRequestSent s) (controlProcessDone s) (emitter s) (filterStage s) (receiverFilters s) (sourceStreamReset s) (sourceStreamCleaned s) (reuseBuffer s) (context s).
Definition set_sourceStreamReqHeaders (x : option CommonHeader) (s : sourceStream) : sourceStream :=
  mkStream (ID s) (controller s) (bufferLimit s) (timeout s) (responseSender s) (perRetryTimer s) (responseTimer s) x (sourceStreamReqDataBuf s) (sourceStreamReqTrailers s) (sourceStreamRespHeaders s) (sourceStreamRespDataBuf s) (sourceStreamRespTrailers s) (sourceStreamResponseStarted s) (sourceStreamRecvDone s) (controlRequestSent s) (controlProcessDone s) (emitter s) (filterStage s) (receiverFilters s) (sourceStreamReset s) (sourceStreamCleaned s) (reuseBuffer s) (context s).
Definition set_sourceStreamReqDataBuf (x : option bytes) (s : sourceStream) : sourceStream :=
  mkStream (ID s) (controller s) (bufferLimit s) (timeout s) (responseSender s) (perRetryTimer s) (responseTimer s) (sourceStreamReqHeaders s) x (sourceStreamReqTrailers s) (sourceStreamRespHeaders s) (sourceStreamRespDataBuf s) (sourceStreamRespTrailers s) (sourceStreamResponseStarted s) (sourceStreamRecvDone s) (controlRequestSent s) (controlProcessDone s) (emitter s) (filterStage s) (receiverFilters s) (sourceStreamReset s) (sourceStreamCleaned s) (reuseBuffer s) (context s).
Definition set_sourceStreamReqTrailers (x : option CommonHeader) (s : sourceStream) : sourceStream :=
  mkStream (ID s) (controller s) (bufferLimit s) (timeout s) (responseSender s) (perRetryTimer s) (responseTimer s) (sourceStreamReqHeaders s) (sourceStreamReqDataBuf s) x (sourceStreamRespHeaders s) (sourceStreamRespDataBuf s) (sourceStreamRespTrailers s) (sourceStreamResponseStarted s) (sourceStreamRecvDone s) (controlRequestSent s) (controlProcessDone s) (emitter s) (filterStage s) (receiverFilters s) (sourceStreamReset s) (sourceStreamCleaned s) (reuseBuffer s) (context s).
Definition set_sourceStreamRespHeaders (x : option CommonHeader) (s : sourceStream) : sourceStream :=
  mkStream (ID s) (controller s) (bufferLimit s) (timeout s) (responseSender s) (perRetryTimer s) (responseTimer s) (sourceStreamReqHeaders s) (sourceStreamReqDataBuf s) (sourceStreamReqTrailers s) x (sourceStreamRespDataBuf s) (sourceStreamRespTrailers s) (sourceStreamResponseStarted s) (sourceStreamRecvDone s) (controlRequestSent s) (controlProcessDone s) (emitter s) (filterStage s) (receiverFilters s) (sourceStreamReset s) (sourceStreamCleaned s) (reuseBuffer s) (context s).
Definition set_sourceStreamRespTrailers (x : option CommonHeader) (s : sourceStream) : sourceStream :=
  mkStream (ID s) (controller s) (bufferLimit s) (timeout s) (responseSender s) (perRetryTimer s) (responseTimer s) (sourceStreamReqHeaders s) (sourceStreamReqDataBuf s) (sourceStreamReqTrailers s) (sourceStreamRespHeaders s) (sourceStreamRespDataBuf s) x (sourceStreamResponseStarted s) (sourceStreamRecvDone s) (controlRequestSent s) (controlProcessDone s) (emitter s) (filterStage s) (receiverFilters s) (sourceStreamReset s) (sourceStreamCleaned s) (reuseBuffer s) (context s).
Definition set_sourceStreamRecvDone (x : bool) (s : sourceStream) : sourceStream :=
  mkStream (ID s) (controller s) (bufferLimit s) (timeout s) (responseSender s) (perRetryTimer s) (responseTimer s) (sourceStreamReqHeaders s) (sourceStreamReqDataBuf s) (sourceStreamReqTrailers s) (sourceStreamRespHeaders s) (sourceStreamRespDataBuf s) (sourceStreamRespTrailers s) (sourceStreamResponseStarted s) x (controlRequestSent s) (controlProcessDone s) (emitter s) (filterStage s) (receiverFilters s) (sourceStreamReset s) (sourceStreamCleaned s) (reuseBuffer s) (context s).
Definition set_controlProcessDone (x : bool) (s : sourceStream) : sourceStream :=
  mkStream (ID s) (controller s) (bufferLimit s) (timeout s) (responseSender s) (perRetryTimer s) (responseTimer s) (sourceStreamReqHeaders s) (sourceStreamReqDataBuf s) (sourceStreamReqTrailers s) (sourceStreamRespHeaders s) (sourceStreamRespDataBuf s) (sourceStreamRespTrailers s) (sourceStreamResponseStarted s) (sourceStreamRecvDone s) (controlRequestSent s) x (emitter s) (filterStage s) (receiverFilters s) (sourceStreamReset s) (sourceStreamCleaned s) (reuseBuffer s) (context s).
Definition set_emitter (x : option Z) (s : sourceStream) : sourceStream :=
  mkStream (ID s) (controller s) (bufferLimit s) (timeout s) (responseSender s) (perRetryTimer s) (responseTimer s) (sourceStreamReqHeaders s) (sourceStreamReqDataBuf s) (sourceStreamReqTrailers s) (sourceStreamRespHeaders s) (sourceStreamRespDataBuf s) (sourceStreamRespTrailers s) (sourceStreamResponseStarted s) (sourceStreamRecvDone s) (controlRequestSent s) (controlProcessDone s) x (filterStage s) (receiverFilters s) (sourceStreamReset s) (sourceStreamCleaned s) (reuseBuffer s) (context s).
Definition set_filterStage (x : Z) (s : sourceStream) : sourceStream :=
  mkStream (ID s) (controller s) (bufferLimit s) (timeout s) (responseSender s) (perRetryTimer s) (responseTimer s) (sourceStreamReqHeaders s) (sourceStreamReqDataBuf s) (sourceStreamReqTrailers s) (sourceStreamRespHeaders s) (sourceStreamRespDataBuf s) (sourceStreamRespTrailers s) (sourceStreamResponseStarted s) (sourceStreamRecvDone s) (controlRequestSent s) (controlProcessDone s) (emitter s) x (receiverFilters s) (sourceStreamReset s) (sourceStreamCleaned s) (reuseBuffer s) (context s).
Definition set_receiverFilters (x : list nat) (s : sourceStream) : sourceStream :=
  mkStream (ID s) (controller s) (bufferLimit s) (timeout s) (responseSender s) (perRetryTimer s) (responseTimer s) (sourceStreamReqHeaders s) (sourceStreamReqDataBuf s) (sourceStreamReqTrailers s) (sourceStreamRespHeaders s) (sourceStreamRespDataBuf s) (sourceStreamRespTrailers s) (sourceStreamResponseStarted s) (sourceStreamRecvDone s) (controlRequestSent s) (controlProcessDone s) (emitter s) (filterStage s) x (sourceStreamReset s) (sourceStreamCleaned s) (reuseBuffer s) (context s).
Definition set_sourceStreamReset (x : bool) (s : sourceStream) : sourceStream :=
  mkStream (ID s) (controller s) (bufferLimit s) (timeout s) (responseSender s) (perRetryTimer s) (responseTimer s) (sourceStreamReqHeaders s) (sourceStreamReqDataBuf s) (sourceStreamReqTrailers s) (sourceStreamRespHeaders s) (sourceStreamRespDataBuf s) (sourceStreamRespTrailers s) (sourceStreamResponseStarted s) (sourceStreamRecvDone s) (controlRequestSent s) (controlProcessDone s) (emitter s) (filterStage s) (receiverFilters s) x (sourceStreamCleaned s) (reuseBuffer s) (context s).
Definition set_sourceStreamCleaned (x : bool) (s : sourceStream) : sourceStream :=
  mkStream (ID s) (controller s) (bufferLimit s) (timeout s) (responseSender s) (perRetryTimer s) (responseTimer s) (sourceStreamReqHeaders s) (sourceStreamReqDataBuf s) (sourceStreamReqTrailers s) (sourceStreamRespHeaders s) (sourceStreamRespDataBuf s) (sourceStreamRespTrailers s) (sourceStreamResponseStarted s) (sourceStreamRecvDone s) (controlRequestSent s) (controlProcessDone s) (emitter s) (filterStage s) (receiverFilters s) (sourceStreamReset s) x (reuseBuffer s) (context s).
Definition set_reuseBuffer (x : bool) (s : sourceStream) : sourceStream :=
  mkStream (ID s) (controller s) (bufferLimit s) (timeout s) (responseSender s) (perRetryTimer s) (responseTimer s) (sourceStreamReqHeaders s) (sourceStreamReqDataBuf s) (sourceStreamReqTrailers s) (sourceStreamRespHeaders s) (sourceStreamRespDataBuf s) (sourceStreamRespTrailers s) (sourceStreamResponseStarted s) (sourceStreamRecvDone s) (controlRequestSent s) (controlProcessDone s) (emitter s) (filterStage s) (receiverFilters s) (sourceStreamReset s) (sourceStreamCleaned s) x (context s).

Definition set_ss (x : sourceStream) (st : state) : state :=
  mkState x (handlers st) (trace st).
Definition set_handlers (x : list activeFilter) (st : state) : state :=
  mkState (ss st) x (trace st).
Definition set_trace (x : list effect) (st : state) : state :=
  mkState (ss st) (handlers st) x.

(** The memory after controllerBufferCtx.Reset. *)
Definition zeroStream : sourceStream :=
  mkStream 0 false 0 None false false false None None None None None None false false false false None 0 [] false false false false.

(** ** The connection handler and the controller's configuration *)

Section controller.
Context {N T : Type} `{EqDecision N, EqDecision T}.

(** The connection handler of the context, the store of a listener (an edgeListener
    has none: its Load panics), the Scope of the configuration and whether
    connection.Emit succeeds. *)
Record env : Type := mkEnv {
  connHandlerRef : option (list (activeListener N T));
  storeOf : activeListener N T → option (gmap bytes Z);
  Scope : list bytes;
  connEmit : Z → bytes → list bytes → bool
}.
Context (e : env).

Abbreviation M := (stM panic state).

Definition upd (f : sourceStream → sourceStream) : M unit := st ← getS; putS (set_ss (f (ss st)) st).
Definition emitE (x : effect) : M unit := st ← getS; putS (set_trace (trace st ++ [x]) st).
Definition when (b : bool) (m : M unit) : M unit := if b then m else mret ().
Definition nil_deref {A} : M A := throw NilDereference.

Definition FindListenerByName (nm : bytes) (ls : list (activeListener N T)) : option (activeListener N T) :=
  findActiveListenerByName nm ls.

Fixpoint GetTargetEmitter_loop (ls : list (activeListener N T)) (scope : list bytes) (topic : bytes) : M (option Z) :=
  match scope with
  | [] => mret None
  | nm :: scope =>
      match FindListenerByName nm ls with
      | None => GetTargetEmitter_loop ls scope topic
      | Some l =>
          match storeOf e l with
          | None => throw NotImplemented
          | Some m => match m !! topic with
                      | Some c => mret (Some c)
                      | None => GetTargetEmitter_loop ls scope topic
                      end
          end
      end
  end.
(** [None] is the error "emitter not found". *)
Definition GetTargetEmitter (topic : bytes) : M (option Z) :=
  match connHandlerRef e with
  | None => throw TypeAssertion
  | Some ls => GetTargetEmitter_loop ls (Scope e) topic
  end.

(** ** The end of a stream *)

Definition giveStream : M unit :=
  st ← getS;
  if negb (reuseBuffer (ss st)) then mret ()
  else
    when (bool_decide (is_Some (sourceStreamReqDataBuf (ss st)))) (emitE EPutIoBuffer);;
    when (context (ss st)) (emitE EGive;; upd (λ _, zeroStream)).
Definition cleanUp : M unit := upd (set_perRetryTimer false);; upd (set_responseTimer false).
Fixpoint destroyAll (fs : list nat) : M unit :=
  match fs with [] => mret () | i :: fs' => emitE (EDestroy i);; destroyAll fs' end.
Definition cleanStream : M unit :=
  st ← getS;
  if sourceStreamCleaned (ss st) then mret ()
  else
    upd (set_sourceStreamCleaned true);;
    cleanUp;;
    destroyAll (receiverFilters (ss st));;
    giveStream.
Definition endStream : M unit :=
  st ← getS;
  when (responseSender (ss st) && negb (sourceStreamRecvDone (ss st))) (upd (set_reuseBuffer false));;
  cleanStream.
Definition processDone : M bool :=
  st ← getS;
  mret (controlProcessDone (ss st) || sourceStreamReset (ss st) || sourceStreamCleaned (ss st)).

(** ** The response *)

Definition doAppendHeaders (h : CommonHeader) (b : bool) : M unit :=
  st ← getS;
  if responseSender (ss st) then emitE (ERespHeaders h b);; when b endStream else nil_deref.
Definition doAppendData (d : bytes) (b : bool) : M unit :=
  st ← getS;
  if responseSender (ss st) then emitE (ERespData d b);; when b endStream else nil_deref.
Definition doAppendTrailers (t : option CommonHeader) : M unit :=
  st ← getS;
  if responseSender (ss st) then emitE (ERespTrailers t);; endStream else nil_deref.
Definition appendHeaders (h : CommonHeader) (b : bool) : M unit :=
  upd (set_controlProcessDone b);; doAppendHeaders h b.
Definition appendData (d : bytes) (b : bool) : M unit :=
  upd (set_controlProcessDone b);; doAppendData d b.
Definition appendTrailers (t : option CommonHeader) : M unit :=
  upd (set_controlProcessDone true);; doAppendTrailers t.
Definition sendHijackReply (code : Z) (h : option CommonHeader) (doConv : bool) : M unit :=
  appendHeaders (Set_ HeaderStatus (Itoa code) (default ∅ h)) true.

(** ** The action *)

Definition doEmit (args : list bytes) : M unit :=
  st ← getS;
  match emitter (ss st) with
  | None => sendHijackReply RouterUnavailableCode (sourceStreamRespHeaders (ss st)) false
  | Some c =>
      match sourceStreamReqHeaders (ss st) with
      | None => nil_deref
      | Some h =>
          ok ← match Get StrikeHeaderMethod h with
               | Some action => emitE (EEmit c action args);; mret (connEmit e c action args)
               | None => mret false
               end;
          sendHijackReply (if ok : bool then SuccessCode else RouterUnavailableCode)
            (sourceStreamRespHeaders (ss st)) false
      end
  end.

(** ** Filters *)

(** The operations of a handler.  AppendHeaders of nil headers is not made. *)
Definition filterOp_run (o : filterOp) : M unit :=
  match o with
  | FAppendHeaders h b => upd (set_sourceStreamRespHeaders h);; doAppendHeaders (default ∅ h) b
  | FAppendData d b => doAppendData d b
  | FAppendTrailers t => upd (set_sourceStreamRespTrailers t);; doAppendTrailers t
  | FSendHijackReply code h doConv => sendHijackReply code h doConv
  end.
Fixpoint filterOps_run (os : list filterOp) : M unit :=
  match os with [] => mret () | o :: os' => filterOp_run o;; filterOps_run os' end.

Definition updFilter (i : nat) (g : activeFilter → activeFilter) : M unit :=
  st ← getS; putS (set_handlers (alter g i (handlers st)) st).
Definition handleHeaderStatus (i : nat) (c : status) : M bool :=
  match c with
  | Stop => updFilter i (λ f, mkActive (index f) true (stoppedNoBuf f) (headersContinued f) (filter f));; mret true
  | Continue => updFilter i (λ f, mkActive (index f) (stopped f) (stoppedNoBuf f) true (filter f));; mret false
  end.
(** The stage DecodeHeaders is 0. *)
Definition enterStage : M unit := upd (λ s, set_filterStage (Z.lor (filterStage s) DecodeHeaders) s).
Definition leaveStage : M unit :=
  upd (λ s, set_filterStage (Z.land (filterStage s) (Z.lnot DecodeHeaders)) s).

Fixpoint headers_loop (fuel i : nat) (h : option CommonHeader) (b : bool) : M bool :=
  match fuel with
  | O => mret false
  | S fuel' =>
      st ← getS;
      match receiverFilters (ss st) !! i ≫= (λ k, handlers st !! k) with
      | None => mret false
      | Some f =>
          enterStage;;
          let '(ops, c) := OnReceiveHeadersF (filter f) h b in
          filterOps_run ops;;
          leaveStage;;
          stop ← handleHeaderStatus (index f) c;
          if (stop : bool) then mret true else headers_loop fuel' (S i) h b
      end
  end.
Definition start (from : option nat) : nat := match from with Some i => S i | None => 0%nat end.
Definition runReceiveHeadersFilters (from : option nat) (h : option CommonHeader) (b : bool) : M bool :=
  st ← getS; headers_loop (S (length (receiverFilters (ss st)))) (start from) h b.

(** ** The request *)

Definition doReceiveHeaders (from : option nat) (h : option CommonHeader) (b : bool) : M unit :=
  stop ← runReceiveHeadersFilters from h b;
  if (stop : bool) then mret ()
  else
    st ← getS;
    match sourceStreamReqHeaders (ss st) with
    | None => nil_deref
    | Some hs =>
        match Get StrikeHeaderPathKey hs with
        | Some path =>
            if controller (ss st)
            then c ← GetTargetEmitter (TrimLeftSlash path); upd (set_emitter c)
            else nil_deref
        | None => mret ()
        end;;
        when b (doEmit [])
    end.
(** Draining empties the buffer; [own]: it is the one the stream holds. *)
Definition drain (own : bool) : M unit :=
  when own (upd (λ s, set_sourceStreamReqDataBuf ((λ _, []) <$> sourceStreamReqDataBuf s) s)).
Definition doReceiveData (own : bool) (d : option bytes) (b : bool) : M unit :=
  when b (match d with
          | None => nil_deref
          | Some x => doEmit [x];; drain own
          end).
Definition doReceiveTrailers (t : option CommonHeader) : M unit := mret ().
Definition doReceive : M unit :=
  st ← getS;
  let hasBody := bool_decide (is_Some (sourceStreamReqDataBuf (ss st))) in
  let hasTrailer := bool_decide (is_Some (sourceStreamReqTrailers (ss st))) in
  doReceiveHeaders None (sourceStreamReqHeaders (ss st)) (negb hasBody);;
  when hasBody (st ← getS; doReceiveData true (sourceStreamReqDataBuf (ss st)) (negb hasTrailer));;
  when hasTrailer (st ← getS; doReceiveTrailers (sourceStreamReqTrailers (ss st))).
Definition OnReceive (h : option CommonHeader) (d : option bytes) (t : option CommonHeader) : M unit :=
  upd (set_sourceStreamReqHeaders h);;
  match d with Some x => upd (set_sourceStreamReqDataBuf (Some x)) | None => mret () end;;
  upd (set_sourceStreamReqTrailers t);;
  doReceive.
Definition OnReceiveHeaders (h : option CommonHeader) (b : bool) : M unit :=
  upd (set_sourceStreamRecvDone b);; upd (set_sourceStreamReqHeaders h);; doReceiveHeaders None h b.
Definition OnReceiveData (d : option bytes) (b : bool) : M unit :=
  done ← processDone;
  if (done : bool) then mret () else upd (set_sourceStreamRecvDone b);; doReceiveData false d b.
Definition OnReceiveTrailers (t : option CommonHeader) : M unit := mret ().
Definition OnResetStream : M unit :=
  st ← getS; if sourceStreamReset (ss st) then mret () else upd (set_sourceStreamReset true).
Definition OnDecodeError (x : codecError) (h : option CommonHeader) : M unit :=
  sendHijackReply (match x with
                   | CodecException => CodecExceptionCode
                   | DeserializeException => DeserialExceptionCode
                   | OtherError => UnknownCode
                   end) h true;;
  OnResetStream.

(** ContinueReceiving of the filter [i], that is doContinue. *)
Definition doContinue (i : nat) : M unit :=
  st ← getS;
  if controlProcessDone (ss st) then mret ()
  else
    match handlers st !! i with
    | None => mret ()
    | Some f =>
        updFilter i (λ f, mkActive (index f) false (stoppedNoBuf f) (headersContinued f) (filter f));;
        let hasBuffedData := bool_decide (is_Some (sourceStreamReqDataBuf (ss st))) in
        let hasTrailer := bool_decide (is_Some (sourceStreamReqTrailers (ss st))) in
        when (negb (headersContinued f))
          (updFilter i (λ f, mkActive (index f) (stopped f) (stoppedNoBuf f) true (filter f));;
           doReceiveHeaders (Some (index f)) (sourceStreamReqHeaders (ss st))
             (sourceStreamRecvDone (ss st) && negb hasBuffedData && negb hasTrailer));;
        when (hasBuffedData || stoppedNoBuf f)
          (st ← getS;
           when (stoppedNoBuf f || negb (bool_decide (is_Some (sourceStreamReqDataBuf (ss st)))))
             (upd (set_sourceStreamReqDataBuf (Some [])));;
           st ← getS;
           doReceiveData true (sourceStreamReqDataBuf (ss st)) (sourceStreamRecvDone (ss st) && negb hasTrailer));;
        when hasTrailer (st ← getS; doReceiveTrailers (sourceStreamReqTrailers (ss st)))
    end.

(** ** A stream and what is called on it *)

Definition AddStreamReceiverFilter (f : receiverFilter) (st : state) : state :=
  let i := length (receiverFilters (ss st)) in
  mkState (set_receiverFilters (receiverFilters (ss st) ++ [i]) (ss st))
    (handlers st ++ [mkActive i false false false f]) (trace st).
(** newActiveStream, on memory that is zero. *)
Definition newActiveStream (id : Z) : state :=
  mkState (mkStream (uint32 id) true 0 None true false false None None None None None None
    false false false false None 0 [] false false true true) [] [].
(** The filters are those that the factories of the context add. *)
Definition NewStreamDetect (id : Z) (fs : list receiverFilter) : state :=
  fold_left (λ st f, AddStreamReceiverFilter f st) fs (newActiveStream id).

Inductive input : Type :=
| IReceive (h : CommonHeader) (d : option bytes) (t : option CommonHeader)
| IReceiveHeaders (h : CommonHeader) (b : bool)
| IReceiveData (d : bytes) (b : bool)
| IReceiveTrailers (t : CommonHeader)
| IDecodeError (x : codecError) (h : option CommonHeader)
| IReset
| IContinue (i : nat)
| IFilterOp (o : filterOp).
Definition handle (i : input) : M unit :=
  match i with
  | IReceive h d t => OnReceive (Some h) d t
  | IReceiveHeaders h b => OnReceiveHeaders (Some h) b
  | IReceiveData d b => OnReceiveData (Some d) b
  | IReceiveTrailers t => OnReceiveTrailers (Some t)
  | IDecodeError x h => OnDecodeError x h
  | IReset => OnResetStream
  | IContinue i => doContinue i
  | IFilterOp o => filterOp_run o
  end.
(** A panic of one call is that call's: the state stays as it is then. *)
Fixpoint run (ins : list input) (st : state) : state :=
  match ins with [] => st | i :: ins => run ins (handle i st).2 end.
End controller.
Arguments env N T : clear implicits.

(** ** Reasoning *)

(** The part of a trace that ends a stream. *)
Definition is_end (x : effect) : bool :=
  match x with EDestroy _ | EPutIoBuffer | EGive => true | _ => false end.
Definition ends (tr : list effect) : list effect := base.filter (λ x, is_end x = true) tr.

Lemma ends_app l k : ends (l ++ k) = ends l ++ ends k.
Proof. apply list.filter_app. Qed.
Lemma ends_destroy l : ends (EDestroy <$> l) = EDestroy <$> l.
Proof. induction l as [|i l IH]; [done|]. unfold ends in *. rewrite fmap_cons, filter_cons_True by done. by rewrite IH. Qed.

(** Before its end a stream has destroyed and given back nothing; after it, each
    filter is destroyed once, the buffers are given back at most once, and either
    the stream is marked or its memory is zero. *)
Definition after_end (n : nat) (tr : list effect) : Prop :=
  ∃ put give : bool,
    tr = (EDestroy <$> seq 0 n) ++ (if put then [EPutIoBuffer] else []) ++ (if give then [EGive] else []).
Inductive ends_once (n : nat) (st : state) : Prop :=
| Before : sourceStreamCleaned (ss st) = false → receiverFilters (ss st) = seq 0 n →
    ends (trace st) = [] → ends_once n st
| After : sourceStreamCleaned (ss st) = true ∨ (receiverFilters (ss st) = [] ∧ reuseBuffer (ss st) = false) →
    after_end n (ends (trace st)) → ends_once n st.

Module keep.
Definition keeps {A} (n : nat) (m : stM panic state A) : Prop := ∀ st, ends_once n st → ends_once n (m st).2.
Section steps.
Context (n : nat).

Lemma kept_ret {A} (a : A) : keeps n (mret a).
Proof. intros st I. exact I. Qed.
Lemma kept_throw {A} p : keeps n (throw p : stM panic state A).
Proof. intros st I. exact I. Qed.
Lemma kept_get : keeps n getS.
Proof. intros st I. exact I. Qed.
Lemma kept_bind {A B} (m : stM panic state A) (f : A → stM panic state B) :
  keeps n m → (∀ a, keeps n (f a)) → keeps n (m ≫= f).
Proof.
  intros Hm Hf st I. specialize (Hm st I). unfold mbind, stM_bind.
  destruct (m st) as [[a|p] st']; [by apply Hf|done].
Qed.
Lemma kept_when (b : bool) m : keeps n m → keeps n (when b m).
Proof. destruct b; [done|]. intros _. apply kept_ret. Qed.
(** A field that is not about the end. *)
Lemma kept_upd f :
  (∀ s, sourceStreamCleaned (f s) = sourceStreamCleaned s) → (∀ s, receiverFilters (f s) = receiverFilters s) →
  (∀ s, reuseBuffer s = false → reuseBuffer (f s) = false) → keeps n (upd f).
Proof.
  intros F1 F2 F3 st [C R E|D E]; simpl.
  - apply Before; simpl; [by rewrite F1|by rewrite F2|done].
  - apply After; simpl; [|done]. rewrite F1, F2. destruct D as [?|[? ?]]; [by left|right; auto].
Qed.
Lemma kept_emitE x : is_end x = false → keeps n (emitE x).
Proof.
  intros X st I. assert (ends (trace st ++ [x]) = ends (trace st)) as E.
  { rewrite ends_app. unfold ends at 2. rewrite filter_cons_False by congruence. apply app_nil_r. }
  destruct I as [C R E'|D E']; [apply Before|apply After]; simpl; rewrite ?E; done.
Qed.
Lemma kept_updFilter i g : keeps n (updFilter i g).
Proof. intros st [C R E|D E]; [by apply Before|by apply After]. Qed.
End steps.

Lemma destroyAll_run fs st : destroyAll fs st = (Ok (), set_trace (trace st ++ (EDestroy <$> fs)) st).
Proof.
  revert st. induction fs as [|i fs IH]; intros st; simpl.
  - rewrite app_nil_r. by destruct st.
  - unfold mbind, stM_bind. simpl. rewrite IH. simpl. by rewrite <- app_assoc.
Qed.

Definition puts (st : state) : bool := reuseBuffer (ss st) && bool_decide (is_Some (sourceStreamReqDataBuf (ss st))).
Definition gives (st : state) : bool := reuseBuffer (ss st) && context (ss st).
Definition cleaned (s : sourceStream) : sourceStream :=
  set_responseTimer false (set_perRetryTimer false (set_sourceStreamCleaned true s)).
(** Cleaning, the first time. *)
Lemma cleanStream_run st : sourceStreamCleaned (ss st) = false →
  cleanStream st = (Ok (), mkState (if gives st then zeroStream else cleaned (ss st)) (handlers st)
    (trace st ++ (EDestroy <$> receiverFilters (ss st)) ++
     (if puts st then [EPutIoBuffer] else []) ++ (if gives st then [EGive] else []))).
Proof.
  intros C. unfold cleanStream, puts, gives. unfold mbind at 1, stM_bind at 1. simpl. rewrite C.
  unfold cleanUp, upd. unfold mbind, stM_bind. simpl. rewrite destroyAll_run. simpl.
  unfold giveStream, when. unfold mbind, stM_bind. simpl.
  destruct (reuseBuffer (ss st)); simpl; [|by rewrite !app_nil_r].
  destruct (bool_decide (is_Some (sourceStreamReqDataBuf (ss st)))), (context (ss st)); simpl;
    by rewrite ?app_nil_r, <- ?app_assoc.
Qed.

Section methods.
Context (n : nat).

Lemma kept_cleanStream : keeps n cleanStream.
Proof.
  intros st I. destruct (sourceStreamCleaned (ss st)) eqn:C.
  { unfold cleanStream, mbind, stM_bind. simpl. by rewrite C. }
  rewrite cleanStream_run by done. simpl. destruct I as [_ R E|D (put & give & E)].
  - apply After; simpl; [destruct (gives st); simpl; auto|].
    rewrite !ends_app, E, ends_destroy, R. exists (puts st), (gives st). by destruct (puts st), (gives st).
  - destruct D as [?|[R U]]; [congruence|]. unfold gives, puts. rewrite U, R. simpl. rewrite app_nil_r.
    apply After; simpl; [by left|]. by exists put, give.
Qed.

Create HintDb keep discriminated.
Hint Resolve kept_ret kept_throw kept_get kept_updFilter kept_cleanStream : keep.
(** One step of a method. *)
Ltac keep1 :=
  match goal with
  | |- keeps _ (_ ≫= _) => apply kept_bind; [|intros ?]
  | |- keeps _ (when _ _) => apply kept_when
  | |- keeps _ (upd _) => apply kept_upd; [done|done|done]
  | |- keeps _ (emitE _) => apply kept_emitE; done
  | |- keeps _ nil_deref => apply kept_throw
  | |- keeps _ (match ?x with _ => _ end) => destruct x
  | |- keeps _ (let '(_, _) := ?x in _) => destruct x
  | |- _ => progress eauto with keep
  end.
Ltac keep := repeat keep1.

Lemma kept_endStream : keeps n endStream.
Proof. unfold endStream. keep. Qed.
Hint Resolve kept_endStream : keep.
Lemma kept_doAppendHeaders h b : keeps n (doAppendHeaders h b).
Proof. unfold doAppendHeaders. keep. Qed.
Hint Resolve kept_doAppendHeaders : keep.
Lemma kept_sendHijackReply c h b : keeps n (sendHijackReply c h b).
Proof. unfold sendHijackReply, appendHeaders. keep. Qed.
Hint Resolve kept_sendHijackReply : keep.
Lemma kept_filterOp_run o : keeps n (filterOp_run o).
Proof. destruct o; simpl; unfold doAppendData, doAppendTrailers; keep. Qed.
Hint Resolve kept_filterOp_run : keep.
Lemma kept_filterOps_run os : keeps n (filterOps_run os).
Proof. induction os; simpl; keep. Qed.
Hint Resolve kept_filterOps_run : keep.
Lemma kept_headers_loop fuel i h b : keeps n (headers_loop fuel i h b).
Proof.
  revert i. induction fuel as [|fuel IH]; intros i; simpl; [keep|].
  unfold enterStage, leaveStage, handleHeaderStatus. keep.
Qed.
Hint Resolve kept_headers_loop : keep.

Context {N T : Type} (e : env N T).
Lemma kept_GetTargetEmitter topic : keeps n (GetTargetEmitter e topic).
Proof.
  unfold GetTargetEmitter. destruct (connHandlerRef e) as [ls|]; [|keep].
  induction (Scope e) as [|nm sc IH]; simpl; keep.
Qed.
Hint Resolve kept_GetTargetEmitter : keep.
Lemma kept_doEmit args : keeps n (doEmit e args).
Proof. unfold doEmit. keep. Qed.
Hint Resolve kept_doEmit : keep.
Lemma kept_doReceiveHeaders from h b : keeps n (doReceiveHeaders e from h b).
Proof. unfold doReceiveHeaders, runReceiveHeadersFilters. keep. Qed.
Hint Resolve kept_doReceiveHeaders : keep.
Lemma kept_doReceiveData own d b : keeps n (doReceiveData e own d b).
Proof. unfold doReceiveData, drain. keep. Qed.
Hint Resolve kept_doReceiveData : keep.
Lemma kept_OnResetStream : keeps n OnResetStream.
Proof. unfold OnResetStream. keep. Qed.
Hint Resolve kept_OnResetStream : keep.
Lemma kept_handle i : keeps n (handle e i).
Proof.
  destruct i; simpl; unfold OnReceive, doReceive, OnReceiveHeaders, OnReceiveData, OnReceiveTrailers, processDone,
    OnDecodeError, doContinue, doReceiveTrailers; keep.
Qed.
Lemma kept_run ins st : ends_once n st → ends_once n (run e ins st).
Proof. revert st. induction ins as [|i ins IH]; intros st I; simpl; [done|]. by apply IH, kept_handle. Qed.
End methods.
End keep.

(** The stream that a request starts on. *)
Definition active (fs : list receiverFilter) : list activeFilter := imap (λ i f, mkActive i false false false f) fs.
Lemma NewStreamDetect_run id fs : NewStreamDetect id fs =
  mkState (set_receiverFilters (seq 0 (length fs)) (ss (newActiveStream id))) (active fs) [].
Proof.
  unfold NewStreamDetect. induction fs as [|f fs IH] using rev_ind; [done|].
  rewrite fold_left_app. simpl. rewrite IH. unfold AddStreamReceiverFilter. simpl.
  rewrite length_seq, length_app, seq_app. simpl. f_equal. unfold active. rewrite imap_app. simpl.
  by rewrite Nat.add_0_r.
Qed.

(** A stream of the controller ends at most once.  Whatever the stream layer and
    the filters call, in any order, each filter is destroyed at most once and the
    memory of the request and of the stream is given back at most once, and after
    the filters are destroyed. *)
Theorem control_ends_once {N T} (e : env N T) id fs ins :
  let tr := trace (run e ins (NewStreamDetect id fs)) in
  ends tr = [] ∨ after_end (length fs) (ends tr).
Proof.
  intros tr. destruct (keep.kept_run (length fs) e ins (NewStreamDetect id fs)) as [_ _ E|_ E].
  - rewrite NewStreamDetect_run. by apply Before.
  - by left.
  - by right.
Qed.

(** ** Runs of the filters *)

Definition passes (f : receiverFilter) : Prop := ∀ h b, OnReceiveHeadersF f h b = ([], Continue).
Definition silent (f : receiverFilter) : Prop := ∀ h b, (OnReceiveHeadersF f h b).1 = [].
Definition stops (f : receiverFilter) : Prop := ∀ h b, (OnReceiveHeadersF f h b).2 = Stop.

Module filters.
(** The parts of a filter that stay. *)
Definition fixed (f : activeFilter) : nat * bool * receiverFilter := (index f, stoppedNoBuf f, filter f).
Definition fixed_in (fs : list receiverFilter) : list (nat * bool * receiverFilter) :=
  imap (λ i f, (i, false, f)) fs.
Record loaded (fs : list receiverFilter) (st : state) : Prop := {
  ld_index : receiverFilters (ss st) = seq 0 (length fs);
  ld_fixed : fixed <$> handlers st = fixed_in fs
}.

Lemma loaded_new id fs : loaded fs (NewStreamDetect id fs).
Proof.
  rewrite NewStreamDetect_run. split; [done|]. simpl. unfold active, fixed_in. by rewrite fmap_imap.
Qed.
Lemma loaded_lookup fs st i f : loaded fs st → fs !! i = Some f →
  ∃ a, handlers st !! i = Some a ∧ fixed a = (i, false, f) ∧
    receiverFilters (ss st) !! i ≫= (λ k, handlers st !! k) = Some a.
Proof.
  intros [I F] E. assert ((fixed <$> handlers st) !! i = Some (i, false, f)) as L.
  { rewrite F. unfold fixed_in. by rewrite list_lookup_imap, E. }
  rewrite list_lookup_fmap in L. apply fmap_Some in L as (a & L & ?). exists a. split; [done|]. split; [done|].
  rewrite I, lookup_seq_lt by (by eapply lookup_lt_Some). done.
Qed.
Lemma loaded_handlers fs st i g : loaded fs st → (∀ a, fixed (g a) = fixed a) →
  loaded fs (set_handlers (alter g i (handlers st)) st).
Proof.
  intros [I F] G. split; [done|]. simpl. rewrite <- F. apply list_eq. intros j.
  rewrite !list_lookup_fmap. destruct (decide (i = j)) as [->|].
  - rewrite list_lookup_alter_eq. destruct (handlers st !! j); simpl; [by rewrite G|done].
  - by rewrite list_lookup_alter_ne.
Qed.

Lemma stage_same s y :
  set_filterStage (Z.land (Z.lor (filterStage s) DecodeHeaders) (Z.lnot DecodeHeaders)) (set_filterStage y s) = s.
Proof. unfold DecodeHeaders. rewrite Z.lor_0_r, Z.land_m1_r. by destruct s. Qed.

(** One round of the loop, for a filter without operations. *)
Lemma loop_round fs st fuel i h b f c : loaded fs st → fs !! i = Some f → OnReceiveHeadersF f h b = ([], c) →
  ∃ hs', loaded fs (set_handlers hs' st) ∧
    headers_loop (S fuel) i h b st =
      match c with
      | Stop => (Ok true, set_handlers hs' st)
      | Continue => headers_loop fuel (S i) h b (set_handlers hs' st)
      end.
Proof.
  intros L E O. destruct (loaded_lookup _ _ _ _ L E) as (a & Ea & Fa & El).
  assert (index a = i ∧ filter a = f) as [Ei Ef] by (unfold fixed in Fa; by simplify_eq).
  set (g := λ a, mkActive (index a) (match c with Stop => true | Continue => stopped a end) (stoppedNoBuf a)
    (match c with Stop => headersContinued a | Continue => true end) (filter a) : activeFilter).
  exists (alter g i (handlers st)). split; [by apply loaded_handlers|].
  cbn [headers_loop]. unfold mbind at 1, stM_bind at 1. simpl. rewrite El.
  unfold mbind, stM_bind, enterStage, upd, mbind, stM_bind. simpl. rewrite Ef, O. simpl.
  unfold leaveStage, upd, handleHeaderStatus, updFilter. unfold mbind, stM_bind. simpl.
  rewrite Ei. destruct st as [s hs tr]. simpl in *.
  rewrite stage_same. by destruct c.
Qed.

Lemma loop_past fs st fuel i h b : loaded fs st → (length fs ≤ i)%nat → headers_loop fuel i h b st = (Ok false, st).
Proof.
  intros [I _] L. destruct fuel; [done|]. simpl. unfold mbind at 1, stM_bind at 1. simpl. rewrite I.
  rewrite lookup_seq_ge by done. done.
Qed.

(** Passing filters change nothing but the filters. *)
Lemma loop_pass fs ps qs st fuel i h b : loaded fs st → fs = take i fs ++ ps ++ qs → (i ≤ length fs)%nat →
  Forall passes ps → (length ps ≤ fuel)%nat →
  ∃ hs', loaded fs (set_handlers hs' st) ∧
    headers_loop fuel i h b st = headers_loop (fuel - length ps) (i + length ps) h b (set_handlers hs' st).
Proof.
  intros L. revert i st fuel L. induction ps as [|p ps IH]; intros i st fuel L Efs Hi Fp Hf.
  { exists (handlers st). rewrite Nat.sub_0_r, Nat.add_0_r. by destruct st. }
  apply list.Forall_cons in Fp as [Pp Fp]. simpl in Hf. destruct fuel as [|fuel]; [lia|].
  assert (fs !! i = Some p) as Ei.
  { rewrite Efs, lookup_app_r, length_take by (rewrite length_take; lia). by rewrite Nat.min_l, Nat.sub_diag by lia. }
  destruct (loop_round fs st fuel i h b p Continue L Ei (Pp h b)) as (hs1 & L1 & E1).
  destruct (IH (S i) (set_handlers hs1 st) fuel L1) as (hs2 & L2 & E2); [| |done|lia|].
  { rewrite Efs at 1. rewrite (take_S_r _ _ _ Ei), <- !app_assoc. done. }
  { by apply lookup_lt_Some in Ei. }
  exists hs2. split; [done|]. rewrite E1, E2. simpl. by rewrite Nat.add_succ_r.
Qed.
Lemma run_pass fs st h b : loaded fs st → Forall passes fs →
  ∃ hs', loaded fs (set_handlers hs' st) ∧ runReceiveHeadersFilters None h b st = (Ok false, set_handlers hs' st).
Proof.
  intros L Fp. destruct (loop_pass fs fs [] st (S (length fs)) 0 h b L) as (hs & L' & E); [by rewrite app_nil_r|lia|done|lia|].
  exists hs. split; [done|]. unfold runReceiveHeadersFilters, mbind, stM_bind. simpl. rewrite (ld_index _ _ L), length_seq.
  etrans; [exact E|]. by apply (loop_past fs).
Qed.

(** Filters without operations change nothing but the filters, and one that stops
    ends the loop. *)
Lemma silent_loop fs st fuel i h b : loaded fs st → Forall silent fs →
  ∃ r hs', loaded fs (set_handlers hs' st) ∧ headers_loop fuel i h b st = (Ok r, set_handlers hs' st) ∧
    (∀ k f, fs !! k = Some f → stops f → (i ≤ k < i + fuel)%nat → r = true).
Proof.
  intros L Fs. revert i st L. induction fuel as [|fuel IH]; intros i st L.
  { exists false, (handlers st). destruct st as [t hs tr]. split; [done|]. split; [done|]. intros; lia. }
  destruct (fs !! i) as [f|] eqn:Ef; cycle 1.
  { apply lookup_ge_None in Ef. exists false, (handlers st). rewrite (loop_past fs) by done. destruct st as [t hs tr].
    split; [done|]. split; [done|]. intros k f E _ ?. apply lookup_lt_Some in E. lia. }
  assert (∃ c, OnReceiveHeadersF f h b = ([], c)) as [c Ec].
  { pose proof (Forall_lookup_1 _ _ _ _ Fs Ef h b). destruct (OnReceiveHeadersF f h b) as [ops c]. simpl in *. subst. by exists c. }
  destruct (loop_round fs st fuel i h b f c L Ef Ec) as (hs1 & L1 & ->). destruct c.
  - destruct (IH (S i) (set_handlers hs1 st) L1) as (r & hs2 & L2 & E2 & S2). exists r, hs2. split; [done|]. split; [done|].
    intros k f' E' St Hk. destruct (decide (k = i)) as [->|]; [|apply (S2 k f' E' St); lia].
    specialize (St h b). simplify_eq. by rewrite Ec in St.
  - exists true, hs1. done.
Qed.
Lemma run_silent fs st from h b : loaded fs st → Forall silent fs →
  ∃ r hs', loaded fs (set_handlers hs' st) ∧ runReceiveHeadersFilters from h b st = (Ok r, set_handlers hs' st) ∧
    (∀ k f, fs !! k = Some f → stops f → (start from ≤ k)%nat → r = true).
Proof.
  intros L Fs.
  destruct (silent_loop fs st (S (length (receiverFilters (ss st)))) (start from) h b L Fs) as (r & hs & L' & E & R).
  exists r, hs. split; [done|]. split; [exact E|]. intros k f Ek St Hk. apply (R k f Ek St).
  rewrite (ld_index _ _ L), length_seq. apply lookup_lt_Some in Ek. lia.
Qed.
End filters.

(** ** Replies *)

Definition status_reply (code : Z) : CommonHeader := {[HeaderStatus := Itoa code]}.

Module replies.
(** A reply on an open stream whose request is not marked as complete ends it,
    without giving its memory back; on an ended one it is sent all the same. *)
Lemma append_open h st :
  responseSender (ss st) = true → sourceStreamRecvDone (ss st) = false → sourceStreamCleaned (ss st) = false →
  doAppendHeaders h true st = (Ok (),
    mkState (keep.cleaned (set_reuseBuffer false (ss st))) (handlers st)
      (trace st ++ ERespHeaders h true :: (EDestroy <$> receiverFilters (ss st)))).
Proof.
  intros R D C. unfold doAppendHeaders, upd, endStream, emitE, when.
  unfold mbind, stM_bind. simpl. rewrite R. simpl. rewrite R, D. simpl. rewrite keep.cleanStream_run by done.
  unfold keep.gives, keep.puts. simpl. rewrite app_nil_r, <- app_assoc. done.
Qed.
Lemma hijack_open code h b st :
  responseSender (ss st) = true → sourceStreamRecvDone (ss st) = false → sourceStreamCleaned (ss st) = false →
  sendHijackReply code h b st = (Ok (),
    mkState (keep.cleaned (set_reuseBuffer false (set_controlProcessDone true (ss st)))) (handlers st)
      (trace st ++ ERespHeaders (Set_ HeaderStatus (Itoa code) (default ∅ h)) true :: (EDestroy <$> receiverFilters (ss st)))).
Proof.
  intros R D C. unfold sendHijackReply, appendHeaders, upd. unfold mbind, stM_bind. simpl. by rewrite append_open.
Qed.
Lemma hijack_ended code h b st :
  responseSender (ss st) = true → sourceStreamRecvDone (ss st) = false → sourceStreamCleaned (ss st) = true →
  ∃ s', sendHijackReply code h b st = (Ok (),
    mkState s' (handlers st) (trace st ++ [ERespHeaders (Set_ HeaderStatus (Itoa code) (default ∅ h)) true])).
Proof.
  intros R D C. exists (set_reuseBuffer false (set_controlProcessDone true (ss st))).
  unfold sendHijackReply, appendHeaders, upd, doAppendHeaders, endStream, emitE, when, cleanStream.
  unfold mbind, stM_bind. simpl. rewrite R. simpl. rewrite R, D. simpl. by rewrite C.
Qed.
End replies.

(** ** What a request is for *)

Section target.
Context {N T : Type} (e : env N T).

(** The connection of the first listener of the scope that has stored the topic. *)
Definition stored (ls : list (activeListener N T)) (topic : bytes) : option Z :=
  head (omap (λ nm, l ← findActiveListenerByName nm ls; m ← storeOf e l; m !! topic) (Scope e)).
Definition target (ls : list (activeListener N T)) (h : CommonHeader) : option Z :=
  path ← h !! StrikeHeaderPathKey; stored ls (TrimLeftSlash path).
(** No listener of the scope is an edgeListener. *)
Definition no_edge (ls : list (activeListener N T)) : Prop :=
  ∀ nm l, nm ∈ Scope e → findActiveListenerByName nm ls = Some l → is_Some (storeOf e l).

Lemma GetTargetEmitter_spec ls topic st : connHandlerRef e = Some ls → no_edge ls →
  GetTargetEmitter e topic st = (Ok (stored ls topic), st).
Proof.
  intros E NE. unfold GetTargetEmitter, stored, no_edge in *. rewrite E. clear E.
  induction (Scope e) as [|nm sc IH]; [done|]. simpl. unfold FindListenerByName.
  destruct (findActiveListenerByName nm ls) as [l|] eqn:El; simpl.
  - destruct (NE nm l) as [m Em]; [by left|done|]. rewrite Em. simpl.
    destruct (m !! topic) as [c|]; [done|]. apply IH. intros nm' l' Hn. apply NE. by right.
  - apply IH. intros nm' l' Hn. apply NE. by right.
Qed.

(** What is asked of the connection, and the answer. *)
Definition asked (c : option Z) (h : CommonHeader) (args : list bytes) : list effect :=
  match c, h !! StrikeHeaderMethod with Some c, Some a => [EEmit c a args] | _, _ => [] end.
Definition answer (c : option Z) (h : CommonHeader) (args : list bytes) : Z :=
  match c, h !! StrikeHeaderMethod with
  | Some c, Some a => if connEmit e c a args then SuccessCode else RouterUnavailableCode
  | _, _ => RouterUnavailableCode
  end.

Lemma doEmit_open h args st : sourceStreamReqHeaders (ss st) = Some h →
  responseSender (ss st) = true → sourceStreamRecvDone (ss st) = false → sourceStreamCleaned (ss st) = false →
  sourceStreamRespHeaders (ss st) = None →
  doEmit e args st = (Ok (),
    mkState (keep.cleaned (set_reuseBuffer false (set_controlProcessDone true (ss st)))) (handlers st)
      (trace st ++ asked (emitter (ss st)) h args ++
       ERespHeaders (status_reply (answer (emitter (ss st)) h args)) true :: (EDestroy <$> receiverFilters (ss st)))).
Proof.
  intros Eh R D C Er. unfold doEmit, asked, answer. unfold mbind at 1, stM_bind at 1. simpl. rewrite Er.
  destruct (emitter (ss st)) as [c|]; [|by apply replies.hijack_open]. rewrite Eh. unfold Get.
  destruct (h !! StrikeHeaderMethod) as [a|]; unfold mbind at 1, stM_bind at 1; simpl; [|by apply replies.hijack_open].
  rewrite replies.hijack_open by done. simpl. rewrite <- app_assoc. done.
Qed.

Lemma doReceiveHeaders_pass ls fs h b st : connHandlerRef e = Some ls → no_edge ls → filters.loaded fs st → Forall passes fs →
  sourceStreamReqHeaders (ss st) = Some h → controller (ss st) = true → emitter (ss st) = None →
  ∃ hs', filters.loaded fs (set_handlers hs' st) ∧
    doReceiveHeaders e None (Some h) b st =
      when b (doEmit e []) (set_ss (set_emitter (target ls h) (ss st)) (set_handlers hs' st)).
Proof.
  intros El NE L Fp Eh Ec Ee. destruct (filters.run_pass fs st (Some h) b L Fp) as (hs' & L' & E).
  exists hs'. split; [done|]. unfold doReceiveHeaders. unfold mbind at 1, stM_bind at 1. rewrite E.
  unfold mbind at 1, stM_bind at 1. simpl. rewrite Eh. unfold target, Get.
  destruct (h !! StrikeHeaderPathKey) as [path|]; simpl.
  - rewrite Ec. unfold mbind at 1 2, stM_bind at 1 2. rewrite (GetTargetEmitter_spec ls) by done.
    unfold upd, mbind at 1, stM_bind at 1. done.
  - unfold mbind, stM_bind. simpl. f_equal. destruct st as [t hs tr]. simpl in *. unfold set_ss. simpl. f_equal.
    destruct t. simpl in *. by subst.
Qed.
End target.

(** A request as it comes in. *)
Lemma open_request id fs h d : ∃ st, filters.loaded fs st ∧
  (∀ (m : stM panic state unit),
    (upd (set_sourceStreamReqHeaders (Some h));;
     match d with Some x => upd (set_sourceStreamReqDataBuf (Some x)) | None => mret () end;;
     upd (set_sourceStreamReqTrailers None);; m) (NewStreamDetect id fs) = m st) ∧
  sourceStreamReqHeaders (ss st) = Some h ∧ sourceStreamReqDataBuf (ss st) = d ∧ sourceStreamReqTrailers (ss st) = None ∧
  controller (ss st) = true ∧ responseSender (ss st) = true ∧ sourceStreamRecvDone (ss st) = false ∧
  sourceStreamCleaned (ss st) = false ∧ sourceStreamRespHeaders (ss st) = None ∧ emitter (ss st) = None ∧ trace st = [].
Proof.
  destruct (filters.loaded_new id fs) as [Li Lf]. rewrite NewStreamDetect_run in *. simpl in *.
  destruct d as [x|]; eexists; (split; [|split; [intros m; reflexivity|done]]); by split.
Qed.

(** C14: a control request is answered once.  With filters that let it pass, a
    request (without trailers) makes the connection that its path names emit the
    action that its method names, once and with the body as its argument, and is
    answered once: with 200 if the action succeeded, and with 404 if it failed or no
    such connection or no method is given.  Then the filters are destroyed; the
    memory of the request is not given back. *)
Theorem control_answered {N T} (e : env N T) ls id fs h d :
  connHandlerRef e = Some ls → no_edge e ls → Forall passes fs →
  let c := target e ls h in
  let args := match d with Some x => [x] | None => [] end in
  let '(r, st) := OnReceive e (Some h) d None (NewStreamDetect id fs) in
  r = Ok () ∧ sourceStreamCleaned (ss st) = true ∧
  trace st = asked c h args ++ ERespHeaders (status_reply (answer e c h args)) true :: (EDestroy <$> seq 0 (length fs)).
Proof.
  intros El NE Fp c args. unfold OnReceive.
  destruct (open_request id fs h d) as (st & L & Eo & F). rewrite Eo. destruct F as (Eh & Ed & Et & Ec & Er & Dn & Cl & Rh & Ee & Tr).
  unfold doReceive. unfold mbind at 1, stM_bind at 1. simpl. rewrite Eh, Ed, Et.
  destruct (doReceiveHeaders_pass e ls fs h (negb (bool_decide (is_Some d))) st El NE) as (hs' & L' & E); [done..|].
  unfold mbind at 1, stM_bind at 1. rewrite E. unfold args, c.
  pose proof (filters.ld_index _ _ L) as Li.
  destruct d as [x|]; simpl.
  - unfold mbind at 1 2, stM_bind at 1 2. simpl. rewrite Ed. simpl. unfold mbind at 1, stM_bind at 1.
    rewrite (doEmit_open e h) by done. simpl. by rewrite Tr, Li.
  - rewrite (doEmit_open e h) by done. simpl. by rewrite Tr, Li.
Qed.

(** ** Requests that a filter stops *)

Lemma doReceiveHeaders_stop {N T} (e : env N T) from h b st st' :
  runReceiveHeadersFilters from h b st = (Ok true, st') → doReceiveHeaders e from h b st = (Ok (), st').
Proof. intros E. unfold doReceiveHeaders, mbind at 1, stM_bind at 1. by rewrite E. Qed.

Module paused.
Section paused.
Context {N T : Type} (e : env N T) (fs : list receiverFilter) (Fs : Forall silent fs).

Lemma GetTargetEmitter_pure topic st : (GetTargetEmitter e topic st).2 = st.
Proof.
  unfold GetTargetEmitter. destruct (connHandlerRef e) as [ls|]; [|done].
  induction (Scope e) as [|nm sc IH]; simpl; [done|]. destruct (FindListenerByName nm ls) as [l|]; [|done].
  destruct (storeOf e l) as [m|]; [|done]. by destruct (m !! topic).
Qed.

(** A stream that has done nothing, of a request without a body that is not marked as
    complete. *)
Record quiet (st : state) : Prop := {
  q_loaded : filters.loaded fs st;
  q_trace : trace st = [];
  q_done : sourceStreamRecvDone (ss st) = false;
  q_data : sourceStreamReqDataBuf (ss st) = None;
  q_trailers : sourceStreamReqTrailers (ss st) = None
}.
Lemma quiet_handlers st i g : quiet st → (∀ a, filters.fixed (g a) = filters.fixed a) →
  quiet (set_handlers (alter g i (handlers st)) st).
Proof. intros [L ? ? ? ?] G. split; try done. by apply filters.loaded_handlers. Qed.
Lemma quiet_doReceiveHeaders from h st : quiet st → quiet (doReceiveHeaders e from h false st).2.
Proof.
  intros [L Tr D B Tl]. unfold doReceiveHeaders. unfold mbind at 1, stM_bind at 1.
  destruct (filters.run_silent fs st from h false L Fs) as (r & hs & L' & E & _). rewrite E. assert (quiet (set_handlers hs st)) as Q by (split; done).
  destruct r; [done|]. unfold mbind at 1, stM_bind at 1. simpl.
  destruct (sourceStreamReqHeaders (ss st)) as [h'|]; [|done]. destruct (Get StrikeHeaderPathKey h') as [path|]; [|done].
  destruct (controller (ss st)); [|done]. unfold mbind at 1 2, stM_bind at 1 2.
  pose proof (GetTargetEmitter_pure (TrimLeftSlash path) (set_handlers hs st)) as P.
  destruct (GetTargetEmitter e (TrimLeftSlash path) (set_handlers hs st)) as [[c|p] st']; simpl in *; subst; [|done].
  destruct Q as [[? ?] ? ? ? ?]. by split.
Qed.
Lemma quiet_continue i st : quiet st → quiet (doContinue e i st).2.
Proof.
  intros Q. destruct (Q) as [L Tr D B Tl]. unfold doContinue. unfold mbind at 1, stM_bind at 1. simpl.
  destruct (controlProcessDone (ss st)); [done|]. destruct (handlers st !! i) as [f|] eqn:Ei; [|done].
  assert (stoppedNoBuf f = false) as Ns.
  { destruct L as [_ Lf]. apply (f_equal (λ l, l !! i)) in Lf. rewrite list_lookup_fmap, Ei in Lf.
    unfold filters.fixed_in in Lf. rewrite list_lookup_imap in Lf. destruct (fs !! i); [|done]. simpl in Lf.
    unfold filters.fixed in Lf. by simplify_eq. }
  rewrite B, Tl, D, Ns. unfold mbind at 1, stM_bind at 1. simpl.
  pose proof (quiet_handlers st i (λ f, mkActive (index f) false (stoppedNoBuf f) (headersContinued f) (filter f)) Q ltac:(done)) as Q1.
  set (st1 := set_handlers _ st) in *. unfold mbind, stM_bind, when. destruct (headersContinued f); simpl; [done|].
  pose proof (quiet_handlers st1 i (λ f, mkActive (index f) (stopped f) (stoppedNoBuf f) true (filter f)) Q1 ltac:(done)) as Q2.
  set (st2 := set_handlers (alter _ i (handlers st1)) st1) in *.
  pose proof (quiet_doReceiveHeaders (Some (index f)) (sourceStreamReqHeaders (ss st)) st2 Q2) as Q3.
  change (set_handlers _ _) with st2. by destruct (doReceiveHeaders e _ _ false st2) as [[]].
Qed.
Lemma quiet_request h id : Exists stops fs → quiet (OnReceive e (Some h) None None (NewStreamDetect id fs)).2.
Proof.
  intros (f & Hf & St)%list.Exists_exists. apply list_elem_of_lookup in Hf as [k Ek].
  unfold OnReceive. destruct (open_request id fs h None) as (st & L & Eo & F). rewrite Eo.
  destruct F as (Eh & Ed & Et & Ec & Er & Dn & Cl & Rh & Ee & Tr).
  unfold doReceive. unfold mbind at 1, stM_bind at 1. simpl. rewrite Eh, Ed, Et. simpl.
  destruct (filters.run_silent fs st None (Some h) true L Fs) as (r & hs & L' & E & R).
  rewrite (R k f Ek St) in E by (simpl; lia). unfold mbind at 1, stM_bind at 1.
  rewrite (doReceiveHeaders_stop e _ _ _ _ _ E). simpl. by split.
Qed.
Lemma quiet_continues ks st : quiet st → quiet (run e (IContinue <$> ks) st).
Proof. revert st. induction ks as [|k ks IH]; intros st Q; [done|]. simpl. by apply IH, quiet_continue. Qed.
End paused.
End paused.

(** A control request that a filter pauses is never carried out.  If a filter
    stops a request without a body, the request is neither acted on nor answered,
    however often the filters call ContinueReceiving afterwards. *)
Theorem control_paused {N T} (e : env N T) id fs h ks :
  Forall silent fs → Exists stops fs →
  trace (run e (IReceive h None None :: (IContinue <$> ks)) (NewStreamDetect id fs)) = [].
Proof.
  intros Fs Ex. apply (paused.q_trace fs). simpl. by apply paused.quiet_continues, paused.quiet_request.
Qed.

(** A filter that answers a request with its headers, marked with a status, and stops:
    what the rule filters do with a request they refuse. *)
Definition refuses (code : Z) (h : CommonHeader) (f : receiverFilter) : Prop :=
  ∀ b, OnReceiveHeadersF f (Some h) b = ([FAppendHeaders (Some (Set_ HeaderStatus (Itoa code) h)) true], Stop).

Module refused.
(** The stream after the answer. *)
Definition refused_stream (code : Z) (h : CommonHeader) (s : sourceStream) : sourceStream :=
  keep.cleaned (set_reuseBuffer false (set_sourceStreamRespHeaders (Some (Set_ HeaderStatus (Itoa code) h)) s)).
Section refused.
Context (fs : list receiverFilter).

Lemma loop_refuse code f st fuel i h b : filters.loaded fs st → fs !! i = Some f → refuses code h f →
  responseSender (ss st) = true → sourceStreamRecvDone (ss st) = false → sourceStreamCleaned (ss st) = false →
  ∃ hs', headers_loop (S fuel) i (Some h) b st = (Ok true, mkState (refused_stream code h (ss st)) hs'
    (trace st ++ ERespHeaders (Set_ HeaderStatus (Itoa code) h) true :: (EDestroy <$> seq 0 (length fs)))).
Proof.
  intros L Ei Rf R D C. destruct (filters.loaded_lookup _ _ _ _ L Ei) as (a & Ea & Fa & El).
  assert (filter a = f) as Ef by (unfold filters.fixed in Fa; by simplify_eq).
  eexists. cbn [headers_loop]. unfold mbind at 1, stM_bind at 1. simpl. rewrite El.
  unfold mbind at 1, stM_bind at 1. simpl. rewrite Ef, Rf. unfold mbind at 1, stM_bind at 1. simpl.
  unfold mbind at 1, stM_bind at 1. unfold mbind at 1, stM_bind at 1. simpl. rewrite replies.append_open by done. simpl.
  unfold mbind, stM_bind. simpl. rewrite (filters.ld_index _ _ L).
  do 3 f_equal. destruct (ss st). unfold refused_stream, keep.cleaned. simpl. f_equal. unfold DecodeHeaders.
  by rewrite Z.lor_0_r, Z.land_m1_r.
Qed.

Lemma run_refuse ps f qs code st h b : fs = ps ++ f :: qs → Forall passes ps → refuses code h f → filters.loaded fs st →
  responseSender (ss st) = true → sourceStreamRecvDone (ss st) = false → sourceStreamCleaned (ss st) = false →
  ∃ hs', runReceiveHeadersFilters None (Some h) b st = (Ok true, mkState (refused_stream code h (ss st)) hs'
    (trace st ++ ERespHeaders (Set_ HeaderStatus (Itoa code) h) true :: (EDestroy <$> seq 0 (length fs)))).
Proof.
  intros Efs Fp Rf L R D C. assert (length fs = length ps + S (length qs))%nat as Ln by (subst fs; by rewrite length_app).
  destruct (filters.loop_pass fs ps (f :: qs) st (S (length fs)) 0 (Some h) b L) as (hs & L' & E); [done|lia|done|lia|].
  unfold runReceiveHeadersFilters. unfold mbind at 1, stM_bind at 1. cbn [getS start]. rewrite (filters.ld_index _ _ L), length_seq.
  rewrite E. replace (S (length fs) - length ps)%nat with (S (S (length qs))) by lia.
  apply (loop_refuse code f (set_handlers hs st)); try done. subst fs. simpl.
  rewrite lookup_app_r, Nat.sub_diag by done. done.
Qed.
End refused.

Lemma refused_body {N T} (e : env N T) id code ps f qs h x : Forall passes ps → refuses code h f →
  trace (run e [IReceive h (Some x) None] (NewStreamDetect id (ps ++ f :: qs))) =
  [ERespHeaders (<[HeaderStatus := Itoa code]> h) true] ++ (EDestroy <$> seq 0 (length (ps ++ f :: qs))) ++
  [ERespHeaders (<[HeaderStatus := Itoa 404]> h) true].
Proof.
  intros Fp Rf. simpl. unfold OnReceive. set (n := length (ps ++ f :: qs)).
  destruct (open_request id (ps ++ f :: qs) h (Some x)) as (st & L & Eo & F). rewrite Eo.
  destruct F as (Eh & Ed & Et & Ec & Er & Dn & Cl & Rh & Ee & Tr).
  unfold doReceive. unfold mbind at 1, stM_bind at 1. simpl. rewrite Eh, Ed, Et. simpl.
  destruct (run_refuse _ ps f qs code st h false eq_refl Fp Rf L Er Dn Cl) as (hs & E).
  unfold mbind at 1, stM_bind at 1. rewrite (doReceiveHeaders_stop e _ _ _ _ _ E). simpl.
  unfold mbind at 1 2, stM_bind at 1 2. simpl. rewrite Ed. unfold mbind at 1, stM_bind at 1.
  unfold doEmit. unfold mbind at 1, stM_bind at 1. simpl. rewrite Ee.
  destruct (replies.hijack_ended RouterUnavailableCode (Some (Set_ HeaderStatus (Itoa code) h)) false
    (mkState (refused_stream code h (ss st)) hs
      (trace st ++ ERespHeaders (Set_ HeaderStatus (Itoa code) h) true :: (EDestroy <$> seq 0 n)))) as (s' & E'); [done..|].
  unfold n in E'. rewrite E'. simpl. rewrite Tr. unfold n, Set_. simpl. by rewrite insert_insert_eq.
Qed.
End refused.

(** A refused control request with a body is answered twice.  When the rules of
    the common filter refuse a request, the filter answers it with 509 and stops, and
    the stream has ended; but its body is handled all the same, and a second complete
    response, 404, is sent on the stream. *)
Theorem control_refused_twice {N T C} `{Cache C Bucket.Limiter} (e : env N T) oor rds (f : Common.RuleEngineFactory C) id ps qs h x :
  Forall passes ps → (Common.invoke oor rds h f).1 = false →
  let fs := ps ++ refuse_facts.common_filter oor rds f :: qs in
  trace (run e [IReceive h (Some x) None] (NewStreamDetect id fs)) =
  [ERespHeaders (<[HeaderStatus := Itoa 509]> h) true] ++ (EDestroy <$> seq 0 (length fs)) ++
  [ERespHeaders (<[HeaderStatus := Itoa 404]> h) true].
Proof.
  intros Fp E fs. apply (refused.refused_body e id 509); [done|]. intros b. simpl. unfold Common.OnReceiveHeaders.
  destruct (Common.invoke oor rds h f) as [ok f']. simpl in E. by subst.
Qed.

(** ** The connections of a listener

    What the MQTT connections of a listener do to its store: a response to a CONNECT,
    another response, and a close. *)

Inductive connEvent : Type := Connected (c : Z) | Answered (c : Z) | Closed (c : Z).
Inductive store_run : gmap bytes Z → list connEvent → gmap bytes Z → Prop :=
| store_nil m : store_run m [] m
| store_connect s s' h b evs m' : MqttStream.AppendHeaders h b s = Some s' →
    h !! HeaderMethod = Some StrMsgTypeConnect → store_run (store s') evs m' →
    store_run (store s) (Connected (connID s) :: evs) m'
| store_answer s s' h b evs m' : MqttStream.AppendHeaders h b s = Some s' →
    h !! HeaderMethod ≠ Some StrMsgTypeConnect → store_run (store s') evs m' →
    store_run (store s) (Answered (connID s) :: evs) m'
| store_close s evs m' : store_run (store (MqttStream.OnEvent true s)) evs m' →
    store_run (store s) (Closed (connID s) :: evs) m'.

(** The connection that connected last, if none closed since. *)
Definition last_connected (evs : list connEvent) (o : option Z) : option Z :=
  fold_left (λ o ev, match ev with Connected c => Some c | Answered _ => o | Closed _ => None end) evs o.

Module stores.
Lemma store_doSend s s' : MqttStream.doSend s = Some s' → store s' = store s.
Proof.
  unfold MqttStream.doSend. destruct (sres s) as [m|]; [|by intros [= <-]].
  destruct (Mqtt.Message_Encode m (wld s)) as [[[buf|err]|p] [w m']]; intros; simplify_eq; [|done].
  simpl. by destruct (closed s).
Qed.
Lemma store_AppendHeaders h b s s' : MqttStream.AppendHeaders h b s = Some s' →
  store s' = if bool_decide (h !! HeaderMethod = Some StrMsgTypeConnect)
             then <[bs "a" := connID s]> (store s) else store s.
Proof.
  unfold MqttStream.AppendHeaders, MqttStream.endStream, Get, Del. rewrite lookup_delete_ne by done.
  destruct (h !! HeaderMethod) as [t|]; cbv iota beta zeta.
  - destruct (decide (t = StrMsgTypeConnect)) as [->|Nt].
    + rewrite !(bool_decide_eq_true_2 (_ = _ :> bytes)), (bool_decide_eq_true_2 (Some _ = _)) by done.
      destruct b; [intros ->%store_doSend|intros [= <-]]; done.
    + rewrite (bool_decide_eq_false_2 (t = StrMsgTypeConnect)), (bool_decide_eq_false_2 (Some _ = _)) by congruence.
      repeat case_match; (intros ->%store_doSend || intros [= <-]); done.
  - rewrite (bool_decide_eq_false_2 (None = _)) by done. cbn. destruct b; [intros ->%store_doSend|intros [= <-]]; done.
Qed.
(** Only one key is ever used. *)
Lemma store_run_spec m evs m' : store_run m evs m' →
  m' !! bs "a" = last_connected evs (m !! bs "a") ∧ ∀ k, k ≠ bs "a" → m' !! k = m !! k.
Proof.
  unfold last_connected. induction 1 as [m|s s' h b evs m' E Eh _ IH|s s' h b evs m' E Eh _ IH|s evs m' _ IH]; [done|..].
  - rewrite (store_AppendHeaders _ _ _ _ E), bool_decide_eq_true_2 in IH by done. destruct IH as [I1 I2].
    split; [by rewrite I1, lookup_insert_eq|]. intros k Hk. by rewrite I2, lookup_insert_ne.
  - rewrite (store_AppendHeaders _ _ _ _ E), bool_decide_eq_false_2 in IH by done. done.
  - destruct IH as [I1 I2]. unfold MqttStream.OnEvent in *. simpl in *.
    split; [by rewrite I1, lookup_delete_eq|]. intros k Hk. by rewrite I2, lookup_delete_ne.
Qed.
End stores.

(** Which connection a control request reaches.  A listener's connections are
    stored under one constant key: a request for that key reaches the connection that
    connected last, and none once any connection has closed since, be it another
    one; a request for any other name reaches none. *)
Theorem control_reaches {N T} (e : env N T) ls l nm evs m h path :
  store_run ∅ evs m → Scope e = [nm] → findActiveListenerByName nm ls = Some l → storeOf e l = Some m →
  h !! StrikeHeaderPathKey = Some path →
  target e ls h = if bool_decide (TrimLeftSlash path = bs "a") then last_connected evs None else None.
Proof.
  intros [Ma Mk]%stores.store_run_spec Es Ef Eo Ep. unfold target, stored. rewrite Ep, Es. simpl. rewrite Ef. simpl.
  rewrite Eo. simpl. case_bool_decide as Et.
  - rewrite Et, Ma, lookup_empty. by destruct (last_connected evs None).
  - by rewrite Mk, lookup_empty.
Qed.

(** ** Examples *)

Module control_example.
Definition lc : ListenerConfig := MkListener (bs "mqtt") (bs "tcp") (bs "127.0.0.1:1883") 1 false [].
Definition al : activeListener unit unit :=
  MkActive false (bs "mqtt") (bs "tcp") (bs "127.0.0.1:1883") lc 1 [] [] (bs "127.0.0.1") 1883 false false.
Definition env1 (m : gmap bytes Z) : env unit unit :=
  mkEnv (Some [al]) (λ _, Some m) [bs "mqtt"] (λ _ a _, bool_decide (a = bs "POST")).
Definition request (path method : bytes) : CommonHeader :=
  <[StrikeHeaderPathKey := path]> {[StrikeHeaderMethod := method]}.
Definition pass : receiverFilter := mkFilter (λ _ _, ([], Continue)) (λ _, ([], Continue)).
Definition stop : receiverFilter := mkFilter (λ _ _, ([], Stop)) (λ _, ([], Continue)).
Definition stored1 : gmap bytes Z := {[bs "a" := 7]}.

Lemma control_answered_witness :
  (OnReceive (env1 stored1) (Some (request (bs "/a") (bs "POST"))) (Some (bs "on")) None (NewStreamDetect 1 [pass])).1 = Ok () ∧
  asked (target (env1 stored1) [al] (request (bs "/a") (bs "POST"))) (request (bs "/a") (bs "POST")) [bs "on"] =
    [EEmit 7 (bs "POST") [bs "on"]] ∧
  answer (env1 stored1) (target (env1 stored1) [al] (request (bs "/a") (bs "POST"))) (request (bs "/a") (bs "POST")) [bs "on"] = 200.
Proof.
  assert (no_edge (env1 stored1) [al]) as NE by (intros nm l _ _; by exists stored1).
  assert (Forall passes [pass]) as Fp by (repeat constructor; done).
  pose proof (control_answered (env1 stored1) [al] 1 [pass] (request (bs "/a") (bs "POST")) (Some (bs "on")) eq_refl NE Fp) as R.
  cbv zeta in R. destruct (OnReceive _ _ _ _ _) as [r st]. destruct R as (-> & _ & _).
  split; [done|]. split; vm_compute; reflexivity.
Defined.

Lemma control_paused_witness :
  trace (run (env1 stored1) [IReceive (request (bs "/a") (bs "POST")) None None; IContinue 1; IContinue 1]
    (NewStreamDetect 1 [pass; stop])) = [].
Proof.
  apply (control_paused (env1 stored1) 1 [pass; stop] (request (bs "/a") (bs "POST")) [1%nat; 1%nat]).
  - repeat constructor; done.
  - apply Exists_cons_tl, Exists_cons_hd. done.
Defined.

Definition limited : Common.RuleEngineFactory (gmap bytes (Bucket.Limiter * Z)) :=
  Common.NewRuleEngineFactory ∅ [(rule_at (bs "/a") RunModeControl 0, 0)].
Lemma control_refused_twice_witness :
  trace (run (env1 stored1) [IReceive (request_at (bs "/a")) (Some (bs "on")) None]
    (NewStreamDetect 1 [pass; refuse_facts.common_filter 0 (at_time 3) limited])) =
  [ERespHeaders (<[HeaderStatus := Itoa 509]> (request_at (bs "/a"))) true; EDestroy 0; EDestroy 1;
   ERespHeaders (<[HeaderStatus := Itoa 404]> (request_at (bs "/a"))) true].
Proof.
  apply (control_refused_twice (env1 stored1) 0 (at_time 3) limited 1 [pass] []);
    [repeat constructor; done|vm_compute; reflexivity].
Defined.

(** Two connections connect, and the first of them closes. *)
Definition server (c : Z) (m : gmap bytes Z) : serverStream := mkServer c false [] m (BytePool.World BytePool.newByteBufferPool []) None None.
Definition connect_ok : CommonHeader := <[HeaderStatus := bs "200"]> {[HeaderMethod := StrMsgTypeConnect]}.
Lemma two_connections : store_run ∅ [Connected 1; Connected 2; Closed 1]
  (delete (bs "a") (<[bs "a" := 2]> (<[bs "a" := 1]> ∅))).
Proof.
  eapply (store_connect (server 1 ∅) _ connect_ok false); [reflexivity|reflexivity|]. simpl.
  eapply (store_connect (server 2 _) _ connect_ok false); [reflexivity|reflexivity|]. simpl.
  apply (store_close (server 1 _)). apply store_nil.
Qed.
Lemma control_reaches_witness :
  target (env1 (delete (bs "a") (<[bs "a" := 2]> (<[bs "a" := 1]> ∅)))) [al] (request (bs "/a") (bs "POST")) = None.
Proof.
  apply (control_reaches _ _ al (bs "mqtt") _ _ _ (bs "/a") two_connections); [done|vm_compute; reflexivity|done|vm_compute; reflexivity].
Defined.
End control_example.
