(* ===== verification/Emitter.v ===== *)
(** * The event emitter

    src/pkg/emitter: emitter.go and event.go.  An Emitter keeps, under one mutex,
    the listeners of each topic and the middlewares of each pattern.  Emit plans
    one push for each listener that its topic covers; a push runs at once, or in a
    goroutine of its own that takes the mutex.  Listeners that are to be removed
    are taken off by deferred calls of Off, which take the mutex again.

    [World] is the emitter, its channels, the [done] channels and wait groups of
    the calls of Emit and the points its goroutines have reached; [step] performs
    one atomic action, so that a list of actions is an interleaving.  A push holds
    the mutex until its channel operation can proceed.  The order in which Go
    ranges over a map and the choice of a select are parts of the action.
    path.Match is a parameter; [path_match] is the matcher its documentation
    describes, on bytes, for the examples.  A middleware is a function on events.

    The theorems: whatever calls and goroutines interleave, no channel is closed
    twice, a channel is open exactly as long as its listener is registered, and
    the goroutine of Emit closes done only when every push has ended; Off removes
    and closes exactly the listeners it names; Emit plans exactly one push per
    covered listener that is not void; a channel loses and reorders nothing.  A
    Once listener may get two events, and a blocked push blocks the emitter. *)
From S2P Require Import Prelude.

(** ** Events: event.go *)

(** The dynamic types that an argument may have.  A float64 is its 64 bits. *)
Inductive Value := VInt (z : Z) | VString (s : bytes) | VFloat (bits : Z) | VBool (b : bool)
                 | VOther (n : nat).

Record Event := mkEvent { Topic : bytes; OriginalTopic : bytes; Flags : Z; Args : list Value }.

Definition FlagReset : Z := 0.
Definition FlagOnce : Z := Z.shiftl 1 1.
Definition FlagVoid : Z := Z.shiftl 1 2.
Definition FlagSkip : Z := Z.shiftl 1 3.
Definition FlagClose : Z := Z.shiftl 1 4.
Definition FlagSync : Z := Z.shiftl 1 5.

Definition setFlags (e : Event) (f : Z) : Event := mkEvent (Topic e) (OriginalTopic e) f (Args e).
Definition Reset (e : Event) : Event := setFlags e FlagReset.
Definition Once_ (e : Event) : Event := setFlags e (Z.lor (Flags e) FlagOnce).
Definition Void (e : Event) : Event := setFlags e (Z.lor (Flags e) FlagVoid).
Definition Skip (e : Event) : Event := setFlags e (Z.lor (Flags e) FlagSkip).
Definition Close (e : Event) : Event := setFlags e (Z.lor (Flags e) FlagClose).
Definition Sync (e : Event) : Event := setFlags e (Z.lor (Flags e) FlagSync).
(** The tests [(e.Flags | f) == e.Flags]. *)
Definition hasFlag (e : Event) (f : Z) : bool := Z.lor (Flags e) f =? Flags e.

(** The four getters differ in the type they assert and its zero value; [None] is
    the panic of an index out of range.  [index] is a uint: int(index) wraps. *)
Section getter.
Context {A : Type} (cast : Value → option A) (zero : A).
Definition get_arg (e : Event) (index : Z) (dflt : list A) : option A :=
  let d := match dflt with first :: _ => first | [] => zero end in
  if bool_decide (zlen (Args e) > int64 index) then
    v ← (if bool_decide (index < zlen (Args e)) then Args e !! Z.to_nat index else None);
    Some (match cast v with Some casted => casted | None => d end)
  else Some d.
End getter.

Definition Int : Event → Z → list Z → option Z :=
  get_arg (λ v, match v with VInt z => Some z | _ => None end) 0.
Definition String_ : Event → Z → list bytes → option bytes :=
  get_arg (λ v, match v with VString s => Some s | _ => None end) [].
Definition Float : Event → Z → list Z → option Z :=
  get_arg (λ v, match v with VFloat z => Some z | _ => None end) 0.
Definition Bool : Event → Z → list bool → option bool :=
  get_arg (λ v, match v with VBool b => Some b | _ => None end) false.

(** ** The emitter's data *)

Definition middleware : Type := Event → Event.

(** A channel is named by its number. *)
Record listener := mkListener { ch : nat; lmiddlewares : list middleware }.

Record Emitter := mkEmitter {
  Cap : nat; listeners : gmap bytes (list listener); isInit : bool;
  emiddlewares : gmap bytes (list middleware)
}.

Definition New (capacity : nat) : Emitter := mkEmitter capacity ∅ true ∅.

(** A nil map reads as an empty one: [init] changes the flag of a zero Emitter. *)
Definition init (e : Emitter) : Emitter :=
  if isInit e then e else mkEmitter (Cap e) ∅ true ∅.
Definition setListeners (e : Emitter) (m : gmap bytes (list listener)) : Emitter :=
  mkEmitter (Cap e) m (isInit e) (emiddlewares e).
Definition setMiddlewares (e : Emitter) (m : gmap bytes (list middleware)) : Emitter :=
  mkEmitter (Cap e) (listeners e) (isInit e) m.

(** A listener's channel: the Go channel, the receivers that wait at it and what
    receivers have got so far. *)
Record port := mkPort { pchan : chan Event; waiting : nat; got : list Event }.
Definition newPort (capacity : nat) : port := mkPort (make_chan capacity) 0 [].
(** Everything ever sent on the channel, in order. *)
Definition history (p : port) : list Event := got p ++ cbuf (pchan p).

(** A send takes place when a receiver waits or there is room. *)
Definition portSend (p : port) (e : Event) : sent Event * port :=
  if cshut (pchan p) then (SendPanic, p)
  else match waiting p with
       | S n => (Sent (pchan p), mkPort (pchan p) n (got p ++ [e]))
       | O => match Prelude.send (pchan p) e with
              | Sent c => (Sent c, mkPort c 0 (got p))
              | r => (r, p)
              end
       end.

(** A receiver takes what is there, or waits; at a closed channel it returns. *)
Definition portRecv (p : port) : port :=
  match recv (pchan p) with
  | Received v c => mkPort c (waiting p) (got p ++ [v])
  | RecvZero => p
  | RecvBlock => mkPort (pchan p) (S (waiting p)) (got p)
  end.

(** close: the waiting receivers return. *)
Definition closePort (p : port) : option port :=
  c ← close_chan (pchan p); Some (mkPort c 0 (got p)).

Abbreviation ports := (gmap nat port).

(** The channel [done] that Emit returns: a value in it, closed, closed by the
    caller, and whether Emit has returned it. *)
Record done_ := mkDone { dbuf : bool; dclosed : bool; dcaller : bool; dreturned : bool }.

(** What a select over [done] and the listener's channel did. *)
Inductive selected := SelDone | SelSent | SelDefault | SelPanic | SelBlock.

(** send: [pick] is the choice of the select when both cases are ready. *)
Definition select_ (pick : bool) (d : done_) (p : port) (e : Event) (wait : bool) : selected :=
  let ready := dbuf d || dclosed d in
  match (portSend p e).1 with
  | SendBlock => if ready then SelDone else if wait then SelBlock else SelDefault
  | Sent _ => if ready && pick then SelDone else SelSent
  | SendPanic => if ready && pick then SelDone else SelPanic
  end.

(** [None]: the goroutine blocks.  Otherwise the state, and [(sent, canceled)]. *)
Definition send_ (pick : bool) (d : done_) (p : port) (e : Event) (wait : bool)
  : option (done_ * port * (bool * bool)) :=
  match select_ pick d p e wait with
  | SelDone => Some (mkDone false (dclosed d) (dcaller d) (dreturned d), p, (false, true))
  | SelSent => Some (d, (portSend p e).2, (true, false))
  | SelDefault => Some (d, p, (false, false))
  | SelPanic => Some (d, p, (false, false))   (* recovered *)
  | SelBlock => None
  end.

(** The results are [(success, remove)]; the error is always nil. *)
Definition pushEvent (pick : bool) (d : done_) (p : port) (e : Event)
  : option (done_ * port * (bool * bool)) :=
  let isOnce := hasFlag e FlagOnce in
  let isSkip := hasFlag e FlagSkip in
  let isClose := hasFlag e FlagClose in
  '(d', p', (sent, canceled)) ← send_ pick d p e (negb (isSkip || isClose));
  Some (d', p', (sent, if negb sent && negb canceled then isClose
                       else if negb canceled then isOnce else false)).

Definition applyMiddlewares (e : Event) (fns : list middleware) : Event :=
  fold_left (λ e f, f e) fns e.

(** drop, which moves the tail down in the shared array.  The map's slice is the
    only one over that array while the mutex is held. *)
Definition drop_ (l : list listener) (i : nat) : list listener := take i l ++ drop (S i) l.

(** ** The operations, for a pattern matcher *)

(** A call of Emit pushes [ev] to [lst]; a listener that is to be removed is taken
    off [offTopic]. *)
Record task := mkTask { lst : listener; ev : Event; offTopic : bytes }.

(** Where a goroutine stands:
    - [TEmit]: in Emit, with the mutex, with the pushes left, the deferred calls
      of Off (last deferred first) and haveToWait;
    - [TOffs]: at its deferred calls of Off, of the call of Emit that it returns from;
    - [TAsync]: a push's goroutine, at its e.mu.Lock();
    - [TPush]: a push's goroutine, in pushEvent, with the mutex;
    - [TWait]: at wg.Wait(). *)
Inductive goroutine :=
| TEmit (id : nat) (plan : list task) (offs : list (bytes * nat)) (haveToWait : bool)
| TOffs (offs : list (bytes * nat)) (ret : option nat)
| TAsync (id : nat) (l : listener) (e : Event)
| TPush (id : nat) (l : listener) (e : Event)
| TWait (id : nat).

Record World := mkWorld {
  em : Emitter; chans : ports; dones : gmap nat done_; wgs : gmap nat nat;
  mu : bool; gs : list goroutine; panicked : bool
}.

(** The order in which a range over a map visits its keys. *)
Definition order : Type := list bytes → list bytes.

Inductive action :=
| AUse (pattern : bytes) (ms : list middleware)
| AOn (topic : bytes) (ms : list middleware)
| AOnce (topic : bytes) (ms : list middleware)
| AOff (o : order) (topic : bytes) (cs : list nat)
| AEmit (o : order) (mo : bytes → order) (topic : bytes) (args : list Value)
| ARecv (c : nat)               (** a receiver arrives at a listener's channel *)
| ACancel (id : nat)            (** the caller of Emit closes the channel it got *)
| APoke (id : nat)              (** the caller of Emit sends on the channel it got *)
| ARun (i : nat) (pick : bool) (o : order).  (** goroutine [i] goes on *)

Section operations.
(** path.Match: whether it matches, and whether the pattern is malformed. *)
Context (path_Match : bytes → bytes → bool * bool).

Definition keys {A} (o : order) (m : gmap bytes A) : list bytes := o (map_to_list m).*1.

(** The loop of matched: [None] is the early return with an error. *)
Fixpoint matched_loop (topic : bytes) (ks acc : list bytes) : option (list bytes) :=
  match ks with
  | [] => Some acc
  | k :: ks' =>
      let '(m, err) := path_Match topic k in
      if (err : bool) then None
      else if (m : bool) then matched_loop topic ks' (acc ++ [k])
      else if (path_Match k topic).1 then matched_loop topic ks' (acc ++ [k])
      else matched_loop topic ks' acc
  end.
Definition matched (o : order) (e : Emitter) (topic : bytes) : list bytes * bool :=
  match matched_loop topic (keys o (listeners e)) [] with
  | Some acc => (acc, false)
  | None => ([], true)
  end.

Definition getMiddlewares (o : order) (e : Emitter) (topic : bytes) : list middleware :=
  foldl (λ acc pattern,
    let v := default [] (emiddlewares e !! pattern) in
    if (path_Match pattern topic).1 then acc ++ v
    else if (path_Match topic pattern).1 then acc ++ v else acc)
  [] (keys o (emiddlewares e)).

Definition Use (e : Emitter) (pattern : bytes) (ms : list middleware) : Emitter :=
  let e := init e in
  let e := setMiddlewares e (<[pattern := ms]> (emiddlewares e)) in
  if bool_decide (length (default [] (emiddlewares e !! pattern)) = 0%nat)
  then setMiddlewares e (delete pattern (emiddlewares e)) else e.

Definition newListener (capacity : nat) (ms : list middleware) (chs : ports) : listener * ports :=
  let c := fresh (dom chs) in (mkListener c ms, <[c := newPort capacity]> chs).

(** The result also has the number of the channel that On returns. *)
Definition On (e : Emitter) (chs : ports) (topic : bytes) (ms : list middleware)
  : nat * Emitter * ports :=
  let e := init e in
  let '(l, chs) := newListener (Cap e) ms chs in
  (ch l,
   match listeners e !! topic with
   | Some ls => setListeners e (<[topic := ls ++ [l]]> (listeners e))
   | None => setListeners e (<[topic := [l]]> (listeners e))
   end, chs).
Definition Once (e : Emitter) (chs : ports) (topic : bytes) (ms : list middleware)
  : nat * Emitter * ports := On e chs topic (ms ++ [Once_]).

(** close(ch): [None] is the panic. *)
Definition close_ (chs : ports) (c : nat) : option ports :=
  p ← chs !! c; p' ← closePort p; Some (<[c := p']> chs).

(** The loops of Off over the indices below [i], from the last one down: all
    listeners, and those with one channel. *)
Fixpoint off_all (i : nat) (ls : list listener) (chs : ports) : option (list listener * ports) :=
  match i with
  | O => Some (ls, chs)
  | S j => l ← ls !! j; chs' ← close_ chs (ch l); off_all j (drop_ ls j) chs'
  end.
Fixpoint off_one (curr i : nat) (ls : list listener) (chs : ports)
  : option (list listener * ports) :=
  match i with
  | O => Some (ls, chs)
  | S j =>
      l ← ls !! j;
      if bool_decide (curr = ch l)
      then chs' ← close_ chs (ch l); off_one curr j (drop_ ls j) chs'
      else off_one curr j ls chs
  end.
Fixpoint off_channels (cs : list nat) (ls : list listener) (chs : ports)
  : option (list listener * ports) :=
  match cs with
  | [] => Some (ls, chs)
  | curr :: cs' => '(ls', chs') ← off_one curr (length ls) ls chs; off_channels cs' ls' chs'
  end.

(** One round of the loop over the matched topics. *)
Definition off_topic (cs : list nat) (e : Emitter) (chs : ports) (t : bytes)
  : option (Emitter * ports) :=
  '(e, chs) ← match listeners e !! t with
              | Some ls =>
                  '(ls', chs') ← (if bool_decide (length cs = 0%nat)
                                  then off_all (length ls) ls chs
                                  else off_channels cs ls chs);
                  Some (setListeners e (<[t := ls']> (listeners e)), chs')
              | None => Some (e, chs)
              end;
  Some (if bool_decide (length (default [] (listeners e !! t)) = 0%nat)
        then setListeners e (delete t (listeners e)) else e, chs).
Fixpoint off_topics (cs : list nat) (ts : list bytes) (e : Emitter) (chs : ports)
  : option (Emitter * ports) :=
  match ts with
  | [] => Some (e, chs)
  | t :: ts' => '(e, chs) ← off_topic cs e chs t; off_topics cs ts' e chs
  end.
Definition Off (o : order) (e : Emitter) (chs : ports) (topic : bytes) (cs : list nat)
  : option (Emitter * ports) :=
  let e := init e in off_topics cs (matched o e topic).1 e chs.

Definition Listeners (o : order) (e : Emitter) (topic : bytes) : list nat :=
  let e := init e in
  foldl (λ acc t, acc ++ (ch <$> default [] (listeners e !! t))) [] (matched o e topic).1.
Definition Topics (o : order) (e : Emitter) : list bytes := keys o (listeners (init e)).

(** ** Emit *)

(** The loop over a topic's listeners, from the last one down. *)
Fixpoint plan_listeners (event : Event) (ls : list listener) (i : nat) : list task :=
  match i with
  | O => []
  | S j =>
      match ls !! j with
      | Some l =>
          let evn := applyMiddlewares event (lmiddlewares l) in
          if hasFlag evn FlagVoid then plan_listeners event ls j
          else mkTask l evn (if hasFlag evn FlagSync then Topic event else Topic evn)
                 :: plan_listeners event ls j
      | None => []
      end
  end.
(** The pushes that Emit starts, in order.  The mutex is held throughout, so that
    the maps do not change between them. *)
Definition plan (o : order) (mo : bytes → order) (e : Emitter) (topic : bytes)
    (args : list Value) : list task :=
  flat_map (λ t,
    let ls := default [] (listeners e !! t) in
    let event := applyMiddlewares (mkEvent t topic 0 args) (getMiddlewares (mo t) e t) in
    plan_listeners event ls (length ls)) (matched o e topic).1.

Definition newDone : done_ := mkDone false false false false.

(** Emit up to its loop.  Its number is new. *)
Definition Emit (o : order) (mo : bytes → order) (topic : bytes) (args : list Value)
    (w : World) : World :=
  let e := init (em w) in
  let id := fresh (dom (dones w)) in
  mkWorld e (chans w) (<[id := newDone]> (dones w)) (<[id := 0%nat]> (wgs w)) true
    (gs w ++ [TEmit id (plan o mo e topic args) [] false]) (panicked w).

Definition setGs (w : World) (g : list goroutine) : World :=
  mkWorld (em w) (chans w) (dones w) (wgs w) (mu w) g (panicked w).
Definition setMu (w : World) (b : bool) : World :=
  mkWorld (em w) (chans w) (dones w) (wgs w) b (gs w) (panicked w).
Definition setPanicked (w : World) : World :=
  mkWorld (em w) (chans w) (dones w) (wgs w) (mu w) (gs w) true.
Definition setDone (w : World) (id : nat) (d : done_) : World :=
  mkWorld (em w) (chans w) (<[id := d]> (dones w)) (wgs w) (mu w) (gs w) (panicked w).
Definition setWg (w : World) (id n : nat) : World :=
  mkWorld (em w) (chans w) (dones w) (<[id := n]> (wgs w)) (mu w) (gs w) (panicked w).
Definition setEm (w : World) (e : Emitter) (chs : ports) : World :=
  mkWorld e chs (dones w) (wgs w) (mu w) (gs w) (panicked w).
(** Goroutine [i] becomes the goroutines [new]. *)
Definition splice (i : nat) (new l : list goroutine) : list goroutine :=
  take i l ++ new ++ drop (S i) l.
Definition become (w : World) (i : nat) (new : list goroutine) : World :=
  setGs w (splice i new (gs w)).

(** A push to the channel of [l] in the world. *)
Definition push (pick : bool) (w : World) (id : nat) (l : listener) (e : Event)
  : option (World * bool) :=
  d ← dones w !! id; p ← chans w !! ch l;
  '(d', p', (_, remove)) ← pushEvent pick d p e;
  Some (mkWorld (em w) (<[ch l := p']> (chans w)) (<[id := d']> (dones w)) (wgs w) (mu w)
          (gs w) (panicked w), remove).

(** close(done); a second close panics. *)
Definition closeDone (w : World) (id : nat) : option World :=
  d ← dones w !! id;
  if dclosed d then None
  else Some (setDone w id (mkDone (dbuf d) true (dcaller d) (dreturned d))).

(** One iteration of Emit's loop, or what follows the loop up to the unlock. *)
Definition run_emit (pick : bool) (w : World) (i id : nat) (tasks : list task)
    (offs : list (bytes * nat)) (haveToWait : bool) : option World :=
  match tasks with
  | t :: ts =>
      if hasFlag (ev t) FlagSync then
        '(w, remove) ← push pick w id (lst t) (ev t);
        let offs := if (remove : bool) then (offTopic t, ch (lst t)) :: offs else offs in
        Some (become w i [TEmit id ts offs haveToWait])
      else
        n ← wgs w !! id;
        Some (become (setWg w id (S n)) i
                [TEmit id ts offs true; TAsync id (lst t) (ev t)])
  | [] =>
      if haveToWait then Some (become (setMu w false) i [TOffs offs (Some id); TWait id])
      else Some (match closeDone w id with
                 | Some w => become (setMu w false) i [TOffs offs (Some id)]
                 | None => setPanicked w
                 end)
  end.

(** A deferred call of Off, or the end of the goroutine; Emit returns done. *)
Definition run_offs (o : order) (w : World) (i : nat) (offs : list (bytes * nat))
    (ret : option nat) : option World :=
  match offs with
  | (t, c) :: offs' =>
      if mu w then None
      else match Off o (em w) (chans w) t [c] with
           | Some (e, chs) => Some (become (setEm w e chs) i [TOffs offs' ret])
           | None => Some (setPanicked w)
           end
  | [] =>
      match ret with
      | Some id =>
          d ← dones w !! id;
          Some (become (setDone w id (mkDone (dbuf d) (dclosed d) (dcaller d) true)) i [])
      | None => Some (become w i [])
      end
  end.

(** A push's goroutine with the mutex: pushEvent, wg.Done and the unlock.  A
    negative counter of a WaitGroup panics. *)
Definition run_push (pick : bool) (w : World) (i id : nat) (l : listener) (e : Event)
  : option World :=
  '(w, remove) ← push pick w id l e;
  n ← wgs w !! id;
  match n with
  | O => Some (setPanicked w)
  | S n => Some (become (setMu (setWg w id n) false) i
                   [TOffs (if (remove : bool) then [(Topic e, ch l)] else []) None])
  end.

Definition run (pick : bool) (o : order) (w : World) (i : nat) (g : goroutine) : option World :=
  match g with
  | TEmit id ts offs h => run_emit pick w i id ts offs h
  | TOffs offs ret => run_offs o w i offs ret
  | TAsync id l e => if mu w then None else Some (become (setMu w true) i [TPush id l e])
  | TPush id l e => run_push pick w i id l e
  | TWait id =>
      n ← wgs w !! id;
      if bool_decide (n = 0%nat)
      then Some (become (default w (closeDone w id)) i [])   (* the panic is recovered *)
      else None
  end.

(** One action; [None]: it is not possible now.  A call of a method is possible
    when the mutex is free. *)
Definition step (w : World) (a : action) : option World :=
  if panicked w then None else
  match a with
  | AUse pattern ms => if mu w then None else Some (setEm w (Use (em w) pattern ms) (chans w))
  | AOn topic ms =>
      if mu w then None
      else let '(_, e, chs) := On (em w) (chans w) topic ms in Some (setEm w e chs)
  | AOnce topic ms =>
      if mu w then None
      else let '(_, e, chs) := Once (em w) (chans w) topic ms in Some (setEm w e chs)
  | AOff o topic cs =>
      if mu w then None
      else Some (match Off o (em w) (chans w) topic cs with
                 | Some (e, chs) => setEm w e chs
                 | None => setPanicked w
                 end)
  | AEmit o mo topic args => if mu w then None else Some (Emit o mo topic args w)
  | ARecv c =>
      p ← chans w !! c; Some (setEm w (em w) (<[c := portRecv p]> (chans w)))
  | ACancel id =>
      d ← dones w !! id;
      if dreturned d && negb (dclosed d)
      then Some (setDone w id (mkDone (dbuf d) true true (dreturned d))) else None
  | APoke id =>
      d ← dones w !! id;
      if dreturned d && negb (dclosed d) && negb (dbuf d)
      then Some (setDone w id (mkDone true (dclosed d) (dcaller d) (dreturned d))) else None
  | ARun i pick o => g ← gs w !! i; run pick o w i g
  end.

Definition start (e : Emitter) : World := mkWorld e ∅ ∅ ∅ false [] false.
Definition exec (w : World) (l : list action) : option World :=
  foldl (λ r a, w ← r; step w a) (Some w) l.
End operations.

(** ** Registered listeners *)

(** The channels of the listeners of a topic. *)
Definition topicChans (e : Emitter) (t : bytes) : list nat := ch <$> default [] (listeners e !! t).
Definition open (chs : ports) (c : nat) : Prop :=
  ∃ p, chs !! c = Some p ∧ cshut (pchan p) = false.

(** No channel is registered twice, a topic in the map has listeners, and a channel
    is open exactly as long as it is registered. *)
Record EInv (e : Emitter) (chs : ports) : Prop := {
  einv_nodup : ∀ t, NoDup (topicChans e t);
  einv_topic : ∀ t1 t2 c, c ∈ topicChans e t1 → c ∈ topicChans e t2 → t1 = t2;
  einv_nonempty : ∀ t, listeners e !! t ≠ Some [];
  einv_open : ∀ c, open chs c ↔ ∃ t, c ∈ topicChans e t;
  einv_init : isInit e = false → listeners e = ∅
}.

(** What Off asks to remove: all channels, or those listed. *)
Definition asked (cs : list nat) (c : nat) : Prop := cs = [] ∨ c ∈ cs.
Lemma list_filter_all {A} (P : A → Prop) `{∀ x, Decision (P x)} (l : list A) :
  (∀ x, P x) → base.filter P l = l.
Proof. intros HP. induction l as [|x l IH]; [done|]. by rewrite filter_cons, decide_True, IH. Qed.

#[local] Instance asked_dec cs c : Decision (asked cs c).
Proof. unfold asked. apply _. Defined.
Definition shutPort (p : port) : port := mkPort (mkChan (ccap (pchan p)) (cbuf (pchan p)) true) 0 (got p).
(** The listeners of a topic that Off leaves; a topic without listeners has no entry. *)
Definition survivors (cs : list nat) (e : Emitter) (t : bytes) : option (list listener) :=
  ls ← listeners e !! t;
  match base.filter (λ l, ¬ asked cs (ch l)) ls with [] => None | k => Some k end.
Definition closes (chs chs' : ports) (P : nat → Prop) `{∀ c, Decision (P c)} : Prop :=
  ∀ c, chs' !! c = if decide (P c) then shutPort <$> chs !! c else chs !! c.

Lemma closePort_open p : cshut (pchan p) = false → closePort p = Some (shutPort p).
Proof. intros H. unfold closePort, close_chan. by rewrite H. Qed.

Lemma close_open chs c : open chs c →
  ∃ chs', close_ chs c = Some chs' ∧ closes chs chs' (λ x, x = c).
Proof.
  intros (p & Hp & Ho). unfold close_. rewrite Hp. simpl. rewrite closePort_open by done. simpl.
  eexists. split; [done|]. intros x. destruct (decide (x = c)) as [->|Hne].
  - by rewrite lookup_insert_eq, Hp.
  - by rewrite lookup_insert_ne.
Qed.

Lemma open_closes chs chs' P `{∀ c, Decision (P c)} c :
  closes chs chs' P → open chs' c ↔ open chs c ∧ ¬ P c.
Proof.
  intros Hc. unfold open. rewrite (Hc c). destruct (decide (P c)) as [HP|HP].
  - split; [|tauto]. intros (p & Hp & Ho). destruct (chs !! c); simpl in Hp; [|done].
    injection Hp as <-. done.
  - tauto.
Qed.

Lemma closes_ext chs chs' P Q `{∀ c, Decision (P c)} `{∀ c, Decision (Q c)} :
  (∀ c, P c ↔ Q c) → closes chs chs' P → closes chs chs' Q.
Proof.
  intros HPQ Hc c. rewrite (Hc c). destruct (decide (P c)), (decide (Q c)); try done; naive_solver.
Qed.

Lemma closes_trans chs1 chs2 chs3 P Q `{∀ c, Decision (P c)} `{∀ c, Decision (Q c)} :
  closes chs1 chs2 P → closes chs2 chs3 Q → closes chs1 chs3 (λ c, P c ∨ Q c).
Proof.
  intros H1 H2 c. rewrite (H2 c), (H1 c).
  destruct (decide (P c)), (decide (Q c)), (decide (P c ∨ Q c)); try tauto.
  by destruct (chs1 !! c).
Qed.

Lemma closes_none chs (P : nat → Prop) `{∀ c, Decision (P c)} : (∀ c, ¬ P c) → closes chs chs P.
Proof. intros HP c. by rewrite decide_False. Qed.

(** ** The loops of Off *)

Lemma drop_app_ pre (l : listener) suf : drop_ (pre ++ l :: suf) (length pre) = pre ++ suf.
Proof.
  unfold drop_. rewrite take_app_length. f_equal.
  by rewrite (drop_app_ge _ _ (S (length pre))), Nat.sub_succ_l, Nat.sub_diag by lia.
Qed.

Lemma off_all_spec pre suf chs :
  NoDup (ch <$> pre) → (∀ l, l ∈ pre → open chs (ch l)) →
  ∃ chs', off_all (length pre) (pre ++ suf) chs = Some (suf, chs') ∧
    closes chs chs' (λ c, c ∈ ch <$> pre).
Proof.
  revert suf chs. induction pre as [|l pre IH] using rev_ind; intros suf chs Hnd Ho.
  { exists chs. split; [done|]. apply closes_none. intros c. simpl. by apply not_elem_of_nil. }
  rewrite fmap_app in Hnd. apply list.NoDup_app in Hnd as (Hnd & Hd & _).
  rewrite length_app, Nat.add_comm. simpl.
  rewrite <- app_assoc. simpl. rewrite list_lookup_middle by done. simpl.
  destruct (close_open chs (ch l)) as (chs1 & -> & H1). { apply Ho. set_solver. }
  simpl. rewrite drop_app_.
  destruct (IH suf chs1 Hnd) as (chs2 & -> & H2).
  { intros x Hx. apply (open_closes _ _ _ _ H1). split; [apply Ho; set_solver|].
    intros E. apply (Hd (ch x)); [by apply list_elem_of_fmap_2|]. rewrite E. set_solver. }
  exists chs2. split; [done|].
  eapply closes_ext; [|by eapply closes_trans].
  intros c. rewrite fmap_app, elem_of_app. set_solver.
Qed.

Lemma off_one_spec curr pre suf chs :
  NoDup (ch <$> pre) → (∀ l, l ∈ pre → open chs (ch l)) →
  ∃ chs', off_one curr (length pre) (pre ++ suf) chs =
            Some (base.filter (λ l, ¬ ch l = curr) pre ++ suf, chs') ∧
    closes chs chs' (λ c, c = curr ∧ c ∈ ch <$> pre).
Proof.
  revert suf chs. induction pre as [|l pre IH] using rev_ind; intros suf chs Hnd Ho.
  { exists chs. split; [done|]. apply closes_none. set_solver. }
  rewrite fmap_app in Hnd. apply list.NoDup_app in Hnd as (Hnd & Hd & _).
  rewrite length_app, Nat.add_comm. simpl.
  rewrite <- app_assoc. simpl. rewrite list_lookup_middle by done. simpl.
  rewrite list.filter_app, filter_cons, filter_nil. case_bool_decide as Hc.
  - destruct (close_open chs (ch l)) as (chs1 & -> & H1). { apply Ho. set_solver. }
    simpl. rewrite drop_app_, (decide_False (P := ¬ _)), app_nil_r by (subst; tauto).
    destruct (IH suf chs1 Hnd) as (chs2 & -> & H2).
    { intros x Hx. apply (open_closes _ _ _ _ H1). split; [apply Ho; set_solver|].
      intros E. apply (Hd (ch x)); [by apply list_elem_of_fmap_2|]. rewrite E. set_solver. }
    exists chs2. split; [done|]. eapply closes_ext; [|by eapply closes_trans].
    intros c. rewrite fmap_app, elem_of_app. simpl. rewrite list_elem_of_singleton. naive_solver.
  - rewrite decide_True by naive_solver.
    destruct (IH (l :: suf) chs Hnd) as (chs1 & -> & H1). { intros. apply Ho. set_solver. }
    exists chs1. split; [by rewrite <- app_assoc|]. eapply closes_ext; [|done].
    intros c. simpl. rewrite fmap_app, elem_of_app. simpl. rewrite list_elem_of_singleton. naive_solver.
Qed.

Lemma off_channels_spec cs ls chs :
  NoDup (ch <$> ls) → (∀ l, l ∈ ls → open chs (ch l)) →
  ∃ chs', off_channels cs ls chs = Some (base.filter (λ l, ch l ∉ cs) ls, chs') ∧
    closes chs chs' (λ c, c ∈ cs ∧ c ∈ ch <$> ls).
Proof.
  revert ls chs. induction cs as [|curr cs IH]; intros ls chs Hnd Ho; simpl.
  { exists chs. split; [|apply closes_none; set_solver].
    f_equal. f_equal. symmetry. apply list_filter_all. intros x. apply not_elem_of_nil. }
  destruct (off_one_spec curr ls [] chs Hnd Ho) as (chs1 & H1 & Hc1).
  rewrite !app_nil_r in H1. rewrite H1. simpl.
  destruct (IH (base.filter (λ l, ¬ ch l = curr) ls) chs1) as (chs2 & -> & Hc2).
  { eapply sublist_NoDup; [done|]. apply fmap_sublist, sublist_filter. }
  { intros l [Hl1 Hl2]%list_elem_of_filter. apply (open_closes _ _ _ _ Hc1). naive_solver. }
  exists chs2. split.
  - f_equal. f_equal. rewrite list_filter_filter. apply list_filter_iff. set_solver.
  - eapply closes_ext; [|by eapply closes_trans]. intros c. simpl.
    rewrite elem_of_cons, !list_elem_of_fmap. setoid_rewrite list_elem_of_filter.
    destruct (decide (c = curr)); naive_solver.
Qed.

Lemma einv_listeners e chs t l : EInv e chs →
  l ∈ default [] (listeners e !! t) → open chs (ch l).
Proof.
  intros HI Hl. apply (einv_open e chs HI). exists t. by apply list_elem_of_fmap_2.
Qed.

Lemma off_topic_spec cs e chs t : EInv e chs →
  ∃ chs', off_topic cs e chs t =
      Some (setListeners e (partial_alter (λ _, survivors cs e t) t (listeners e)), chs') ∧
    closes chs chs' (λ c, asked cs c ∧ c ∈ topicChans e t).
Proof.
  intros HI. pose proof (einv_nodup e chs HI t) as Hnd.
  assert (Ho := λ l, einv_listeners e chs t l HI).
  unfold off_topic, topicChans, survivors in *. destruct (listeners e !! t) as [ls|] eqn:Hls; simpl in *.
  2:{ exists chs. split; [|apply closes_none; set_solver].
      rewrite Hls. simpl. repeat f_equal. }
  assert (∃ chs', (if bool_decide (length cs = 0%nat) then off_all (length ls) ls chs
                   else off_channels cs ls chs) =
            Some (base.filter (λ l, ¬ asked cs (ch l)) ls, chs') ∧
          closes chs chs' (λ c, asked cs c ∧ c ∈ ch <$> ls)) as (chs' & -> & Hc).
  { destruct cs as [|c0 cs']; [rewrite bool_decide_true by done|rewrite bool_decide_false by done].
    - destruct (off_all_spec ls [] chs Hnd Ho) as (chs' & Hoff & Hc). rewrite app_nil_r in Hoff.
      exists chs'. rewrite Hoff. split.
      + f_equal. f_equal. clear. induction ls as [|l ls IH]; [done|].
        rewrite filter_cons, decide_False by (unfold asked; tauto). done.
      + eapply closes_ext; [|done]. intros c. unfold asked. tauto.
    - destruct (off_channels_spec (c0 :: cs') ls chs Hnd Ho) as (chs' & -> & Hc).
      exists chs'. split.
      + f_equal. f_equal. apply list_filter_iff. intros l. unfold asked. naive_solver.
      + eapply closes_ext; [|done]. intros c. unfold asked. naive_solver. }
  exists chs'. split; [|done]. simpl. rewrite lookup_insert_eq. simpl.
  destruct (base.filter _ ls) as [|l k] eqn:Hk; simpl; [|done].
  unfold setListeners. simpl. by rewrite delete_insert_eq.
Qed.

Lemma filter_fmap_ch (P : nat → Prop) `{∀ c, Decision (P c)} (ls : list listener) :
  base.filter P (ch <$> ls) = ch <$> base.filter (λ l, P (ch l)) ls.
Proof.
  induction ls as [|l ls IH]; [done|]. rewrite fmap_cons, !filter_cons, IH. by case_decide.
Qed.

Lemma survivors_chans cs e e' t : listeners e' !! t = survivors cs e t →
  topicChans e' t = base.filter (λ c, ¬ asked cs c) (topicChans e t).
Proof.
  intros Hl. unfold topicChans. rewrite Hl. unfold survivors.
  destruct (listeners e !! t) as [ls|]; simpl; [|done]. clear Hl.
  rewrite filter_fmap_ch. by destruct (base.filter _ ls).
Qed.

Lemma survivors_idem cs e e' t : listeners e' !! t = survivors cs e t →
  survivors cs e' t = survivors cs e t.
Proof.
  intros Hl. unfold survivors at 1. rewrite Hl. unfold survivors.
  destruct (listeners e !! t) as [ls|]; simpl; [|done].
  pose proof (list_filter_filter (λ l, ¬ asked cs (ch l)) (λ l, ¬ asked cs (ch l)) ls) as Hf.
  rewrite (list_filter_filter_l (λ l, ¬ asked cs (ch l))) in Hf by done.
  destruct (base.filter (λ l, ¬ asked cs (ch l)) ls) as [|l k] eqn:Hk; [done|]. simpl.
  rewrite <- Hk, list_filter_filter_l, Hk by done. done.
Qed.

(** Off on a set of topics, as an update of the whole emitter. *)
Definition offed (cs : list nat) (ts : list bytes) (e e' : Emitter) : Prop :=
  Cap e' = Cap e ∧ isInit e' = isInit e ∧ emiddlewares e' = emiddlewares e ∧
  ∀ t, listeners e' !! t = if decide (t ∈ ts) then survivors cs e t else listeners e !! t.

Lemma offed_chans cs ts e e' : offed cs ts e e' →
  ∀ t c, c ∈ topicChans e' t ↔ c ∈ topicChans e t ∧ ¬ (asked cs c ∧ t ∈ ts).
Proof.
  intros (_ & _ & _ & Hl) t c. specialize (Hl t). case_decide as Ht.
  - rewrite (survivors_chans cs e e' t Hl), list_elem_of_filter. tauto.
  - unfold topicChans. rewrite Hl. tauto.
Qed.

Lemma offed_einv cs ts e e' chs chs' : EInv e chs → offed cs ts e e' →
  closes chs chs' (λ c, asked cs c ∧ Exists (λ t, c ∈ topicChans e t) ts) → EInv e' chs'.
Proof.
  intros HI Hoff Hc. pose proof (offed_chans cs ts e e' Hoff) as Hm.
  destruct Hoff as (_ & Hini & _ & Hl). split.
  - intros t. specialize (Hl t). pose proof (einv_nodup e chs HI t) as Hnd. case_decide as Ht.
    + rewrite (survivors_chans cs e e' t Hl). by apply list.NoDup_filter.
    + unfold topicChans in *. by rewrite Hl.
  - intros t1 t2 c [H1 _]%Hm [H2 _]%Hm. eauto using einv_topic.
  - intros t. rewrite Hl. case_decide; [|apply (einv_nonempty e chs HI)].
    unfold survivors. destruct (listeners e !! t) as [ls|]; simpl; [|done].
    by destruct (base.filter _ ls).
  - intros c. rewrite (open_closes _ _ _ _ Hc), (einv_open e chs HI c). setoid_rewrite Hm.
    rewrite list.Exists_exists. split.
    + intros [[t Ht] Hn]. exists t. split; [done|]. naive_solver.
    + intros [t [Ht Hn]]. split; [eauto|]. intros [Ha (t' & Ht' & Hc')].
      pose proof (einv_topic e chs HI t t' c Ht Hc'). naive_solver.
  - rewrite Hini. intros Hi. pose proof (einv_init e chs HI Hi) as Hem.
    apply map_eq. intros t. rewrite Hl, lookup_empty. unfold survivors. rewrite Hem, lookup_empty.
    by case_decide.
Qed.

Lemma off_topics_spec cs ts e chs : EInv e chs →
  ∃ e' chs', off_topics cs ts e chs = Some (e', chs') ∧ offed cs ts e e' ∧
    closes chs chs' (λ c, asked cs c ∧ Exists (λ t, c ∈ topicChans e t) ts).
Proof.
  revert e chs. induction ts as [|t ts IH]; intros e chs HI; simpl.
  { exists e, chs. split_and!; [done| |apply closes_none; intros c [_ H]; by inversion H].
    split_and!; [done..|]. intros t. rewrite decide_False; [done|apply not_elem_of_nil]. }
  destruct (off_topic_spec cs e chs t HI) as (chs1 & -> & Hc1). simpl.
  set (e1 := setListeners e _).
  assert (Ho1 : offed cs [t] e e1).
  { split_and!; [done..|]. intros t'. simpl. rewrite lookup_partial_alter.
    destruct (decide (t = t')) as [<-|Hne]; case_decide; set_solver. }
  assert (HI1 : EInv e1 chs1).
  { eapply offed_einv; [done..|]. eapply closes_ext; [|done]. intros c.
    rewrite Exists_cons, Exists_nil. tauto. }
  destruct (IH e1 chs1 HI1) as (e2 & chs2 & -> & Ho2 & Hc2).
  exists e2, chs2. split_and!; [done| |].
  - destruct Ho1 as (H1 & H2 & H3 & Hl1), Ho2 as (H4 & H5 & H6 & Hl2).
    split_and!; [by etrans..|]. intros x. specialize (Hl1 x). rewrite Hl2.
    destruct (decide (x = t)) as [->|Hx].
    + rewrite (decide_True (P := t ∈ t :: ts)) by set_solver.
      rewrite decide_True in Hl1 by set_solver. rewrite (survivors_idem cs e e1) by done.
      by case_decide.
    + rewrite decide_False in Hl1 by set_solver. unfold survivors. rewrite Hl1.
      destruct (decide (x ∈ ts)), (decide (x ∈ t :: ts)); set_solver.
  - eapply closes_ext; [|by eapply closes_trans]. intros c. simpl.
    rewrite Exists_cons, !list.Exists_exists. setoid_rewrite (offed_chans _ _ _ _ Ho1).
    setoid_rewrite list_elem_of_singleton. split; [naive_solver|].
    intros [Ha [Hc|(x & Hx & Hc)]]; [by left|].
    destruct (decide (x = t)) as [->|Hne]; [by left|right]. naive_solver.
Qed.

(** ** Matching topics, Use and On *)

Lemma listeners_init e chs : EInv e chs → listeners (init e) = listeners e.
Proof.
  intros HI. unfold init. destruct (isInit e) eqn:Hi; [done|]. by rewrite (einv_init e chs HI Hi).
Qed.

Lemma einv_same e e' chs chs' : EInv e chs → listeners e' = listeners e →
  (isInit e' = false → isInit e = false) → (∀ c, open chs' c ↔ open chs c) → EInv e' chs'.
Proof.
  intros [H1 H2 H3 H4 H5] Hl Hi Ho. unfold topicChans in *.
  split; unfold topicChans; rewrite ?Hl; auto.
  intros c. by rewrite Ho.
Qed.

Lemma init_einv e chs : EInv e chs → EInv (init e) chs.
Proof.
  intros HI. eapply einv_same; [exact HI|exact (listeners_init e chs HI)| |done].
  unfold init. destruct (isInit e) eqn:Hi; simpl; congruence.
Qed.

Lemma Use_einv e chs pattern ms : EInv e chs → EInv (Use e pattern ms) chs.
Proof.
  intros HI%init_einv. unfold Use. case_if; (eapply einv_same; [exact HI|done..]).
Qed.

Lemma On_spec e chs topic ms : EInv e chs →
  ∃ e' chs', On e chs topic ms = (fresh (dom chs), e', chs') ∧ EInv e' chs' ∧
    (∀ t, topicChans e' t = topicChans e t ++ (if decide (t = topic) then [fresh (dom chs)] else [])) ∧
    chs' = <[fresh (dom chs) := newPort (Cap e)]> chs ∧ emiddlewares e' = emiddlewares (init e).
Proof.
  intros HI. pose proof (init_einv e chs HI) as HI'.
  assert (Hcap : Cap (init e) = Cap e) by (unfold init; by destruct (isInit e)).
  pose proof (listeners_init e chs HI) as Hli.
  unfold On, newListener. rewrite Hcap, Hli. set (c := fresh (dom chs)). simpl.
  assert (Hc : chs !! c = None). { apply not_elem_of_dom, is_fresh. }
  set (l := mkListener c ms).
  set (m := <[topic := default [] (listeners e !! topic) ++ [l]]> (listeners e)).
  exists (setListeners (init e) m), (<[c := newPort (Cap e)]> chs).
  assert (Hch : ∀ t, topicChans (setListeners (init e) m) t =
                  topicChans e t ++ (if decide (t = topic) then [c] else [])).
  { intros t. unfold topicChans. simpl. destruct (decide (t = topic)) as [->|Hne].
    - unfold m. rewrite lookup_insert_eq. simpl. by rewrite fmap_app.
    - unfold m. by rewrite lookup_insert_ne, app_nil_r by done. }
  assert (Hnc : ∀ t, c ∉ topicChans e t).
  { intros t Ht. destruct (proj2 (einv_open e chs HI c)) as (p & Hp & _); [by exists t|]. congruence. }
  split_and!; [by destruct (listeners e !! topic)| |done|done|done].
  split.
  - intros t. rewrite Hch. case_decide; [|rewrite app_nil_r; apply (einv_nodup e chs HI)].
    apply list.NoDup_app. split_and!; [apply (einv_nodup e chs HI)| |apply NoDup_singleton].
    intros x Hx ->%list_elem_of_singleton. by apply (Hnc t).
  - intros t1 t2 x. rewrite !Hch, !elem_of_app. intros [H1|H1] [H2|H2].
    1: by eapply (einv_topic e chs HI).
    all: repeat case_decide; subst; try (by apply not_elem_of_nil in H1);
         try (by apply not_elem_of_nil in H2); try done;
         rewrite ?list_elem_of_singleton in *; subst; naive_solver.
  - intros t. simpl. unfold m. destruct (decide (t = topic)) as [->|Hne].
    + rewrite lookup_insert_eq. intros [= Hn]. by apply app_nil in Hn as [_ ?].
    + rewrite lookup_insert_ne by done. apply (einv_nonempty e chs HI).
  - intros x. setoid_rewrite Hch. setoid_rewrite elem_of_app. unfold open.
    destruct (decide (x = c)) as [->|Hne].
    + rewrite lookup_insert_eq. split; [|by eauto]. intros _. exists topic. right.
      rewrite decide_True by done. by apply list_elem_of_singleton.
    + rewrite lookup_insert_ne by done. fold (open chs x). rewrite (einv_open e chs HI x).
      split; [naive_solver|]. intros [t [Ht|Ht]]; [by eauto|]. case_decide; set_solver.
  - simpl. intros Hi. pose proof (einv_init _ _ HI' Hi). unfold init in Hi.
    destruct (isInit e) eqn:Hie; simpl in Hi; congruence.
Qed.

Section worlds.
Context (path_Match : bytes → bytes → bool * bool).

(** Topic [t] is covered: one of the two matches the other as a pattern. *)
Definition covers (topic t : bytes) : Prop :=
  (path_Match topic t).1 = true ∨ (path_Match t topic).1 = true.
(** Off and Emit do nothing when the topic, as a pattern, is malformed for a key. *)
Definition covered (e : Emitter) (topic t : bytes) : Prop :=
  is_Some (listeners e !! t) ∧ covers topic t ∧
  ∀ k, is_Some (listeners e !! k) → (path_Match topic k).2 = false.

Definition permutes (o : order) : Prop := ∀ l, o l ≡ₚ l.

Lemma elem_keys {A} (o : order) (m : gmap bytes A) k : permutes o → k ∈ keys o m ↔ is_Some (m !! k).
Proof.
  intros Ho. unfold keys. rewrite (Ho _), list_elem_of_fmap. split.
  - intros ([k' v] & -> & Hkv). apply elem_of_map_to_list in Hkv. simpl. by eauto.
  - intros [v Hv]. exists (k, v). split; [done|]. by apply elem_of_map_to_list.
Qed.

Lemma matched_loop_spec topic ks acc :
  match matched_loop path_Match topic ks acc with
  | Some r => (∀ k, k ∈ ks → (path_Match topic k).2 = false) ∧
      r = acc ++ base.filter (λ k, (path_Match topic k).1 || (path_Match k topic).1 = true) ks
  | None => ∃ k, k ∈ ks ∧ (path_Match topic k).2 = true
  end.
Proof.
  revert acc. induction ks as [|k ks IH]; intros acc; cbn [matched_loop].
  { split; [set_solver|]. by rewrite filter_nil, app_nil_r. }
  rewrite filter_cons. destruct (path_Match topic k) as [m err] eqn:Hm; simpl.
  destruct err; [exists k; rewrite Hm; split; [set_solver|done]|].
  assert (Hloop : ∀ acc', match matched_loop path_Match topic ks acc' with
    | Some r => (∀ k', k' ∈ k :: ks → (path_Match topic k').2 = false) ∧
        r = acc' ++ base.filter (λ k, (path_Match topic k).1 || (path_Match k topic).1 = true) ks
    | None => ∃ k', k' ∈ k :: ks ∧ (path_Match topic k').2 = true
    end).
  { intros acc'. specialize (IH acc'). destruct (matched_loop _ _ ks acc').
    - destruct IH as [H1 H2]. split; [|done]. intros k' [->|Hk']%elem_of_cons; [by rewrite Hm|auto].
    - destruct IH as (k' & H1 & H2). exists k'. set_solver. }
  destruct m; simpl; [|destruct (path_Match k topic).1]; simpl.
  1,2: specialize (Hloop (acc ++ [k])); rewrite <- app_assoc in Hloop; exact Hloop.
  apply Hloop.
Qed.

(** matched gives the covered topics, each once. *)
Lemma matched_spec o e topic : permutes o →
  NoDup (matched path_Match o e topic).1 ∧
  ∀ t, t ∈ (matched path_Match o e topic).1 ↔ covered e topic t.
Proof.
  intros Ho. unfold matched.
  pose proof (matched_loop_spec topic (keys o (listeners e)) []) as H.
  destruct (matched_loop _ _ _ _) as [r|]; simpl.
  - destruct H as [Herr ->]. simpl. split.
    + apply list.NoDup_filter. unfold keys. rewrite (Ho _). apply NoDup_fst_map_to_list.
    + intros t. rewrite list_elem_of_filter, (elem_keys o) by done. unfold covered, covers.
      rewrite orb_true_iff. setoid_rewrite (elem_keys o) in Herr; [|done]. tauto.
  - destruct H as (k & Hk & Herr). rewrite elem_keys in Hk by done. split; [constructor|].
    intros t. split; [by intros ?%not_elem_of_nil|]. intros (_ & _ & Hall).
    rewrite Hall in Herr; done.
Qed.

Lemma Off_spec o e chs topic cs : permutes o → EInv e chs →
  ∃ e' chs', Off path_Match o e chs topic cs = Some (e', chs') ∧ EInv e' chs' ∧
    offed cs (matched path_Match o e topic).1 (init e) e' ∧
    closes chs chs' (λ c, asked cs c ∧
      Exists (λ t, c ∈ topicChans e t) (matched path_Match o e topic).1).
Proof.
  intros Ho HI. pose proof (init_einv e chs HI) as HI'.
  pose proof (listeners_init e chs HI) as Hli.
  assert (Hm : matched path_Match o (init e) topic = matched path_Match o e topic).
  { unfold matched. by rewrite Hli. }
  assert (Hch : ∀ t, topicChans (init e) t = topicChans e t).
  { intros t. unfold topicChans. by rewrite Hli. }
  unfold Off. rewrite Hm.
  destruct (off_topics_spec cs (matched path_Match o e topic).1 (init e) chs HI')
    as (e' & chs' & Heq & Hoff & Hc).
  exists e', chs'. split_and!; [done|by eapply offed_einv|done|].
  eapply closes_ext; [|done]. intros c. rewrite !list.Exists_exists. by setoid_rewrite Hch.
Qed.

(** ** Counting goroutines *)

(** Goroutines that hold the mutex; that are a push of call [id]; that are the
    call [id] before its unlock, and have started no push's goroutine; that are what is left of the call [id] after it. *)
Definition holds (g : goroutine) : nat :=
  match g with TEmit _ _ _ _ | TPush _ _ _ => 1 | _ => 0 end.
Definition pushes (id : nat) (g : goroutine) : nat :=
  match g with TAsync x _ _ | TPush x _ _ => if decide (x = id) then 1 else 0 | _ => 0 end.
Definition emits (id : nat) (g : goroutine) : nat :=
  match g with TEmit x _ _ _ => if decide (x = id) then 1 else 0 | _ => 0 end.
Definition nowait (id : nat) (g : goroutine) : nat :=
  match g with TEmit x _ _ false => if decide (x = id) then 1 else 0 | _ => 0 end.
Definition after (id : nat) (g : goroutine) : nat :=
  match g with TOffs _ (Some x) | TWait x => if decide (x = id) then 1 else 0 | _ => 0 end.
Abbreviation count f l := (sum_list_with f l).

#[local] Arguments splice : simpl never.

Lemma count_splice f l i g new : l !! i = Some g →
  (count f (splice i new l) + f g = count f l + count f new)%nat.
Proof.
  intros Hg. unfold splice. rewrite <- (take_drop_middle l i g Hg) at 3.
  rewrite !sum_list_with_app. simpl. lia.
Qed.

Lemma elem_splice l i new g : g ∈ splice i new l → g ∈ l ∨ g ∈ new.
Proof.
  unfold splice. rewrite !elem_of_app. intros [H|[H|H]]; [left|by right|left].
  - rewrite <- (take_drop i l), elem_of_app. by left.
  - rewrite <- (take_drop (S i) l), elem_of_app. by right.
Qed.

(** The channels that a goroutine may push to. *)
Definition mentions (g : goroutine) : list nat :=
  match g with
  | TEmit _ ts _ _ => (λ t, ch (lst t)) <$> ts
  | TAsync _ l _ | TPush _ l _ => [ch l]
  | _ => []
  end.

(** The state of the call [id]: its done channel and wait group, and the numbers of
    its goroutines. *)
Definition IdOk (od : option done_) (on : option nat) (np ne nn na : nat) : Prop :=
  match od, on with
  | None, None => np = 0%nat ∧ ne = 0%nat ∧ na = 0%nat
  | Some d, Some n =>
      n = np ∧
      ((0 < ne)%nat → dclosed d = false ∧ dreturned d = false ∧ na = 0%nat) ∧
      (dclosed d = true → dcaller d = false → np = 0%nat ∧ ne = 0%nat) ∧
      ((0 < nn)%nat → np = 0%nat)
  | _, _ => False
  end.

Record WInv (w : World) : Prop := {
  winv_em : EInv (em w) (chans w);
  winv_panic : panicked w = false;
  winv_mu : count holds (gs w) = if mu w then 1%nat else 0%nat;
  winv_id : ∀ id, IdOk (dones w !! id) (wgs w !! id) (count (pushes id) (gs w))
    (count (emits id) (gs w)) (count (nowait id) (gs w)) (count (after id) (gs w));
  winv_chans : ∀ g c, g ∈ gs w → c ∈ mentions g → is_Some (chans w !! c)
}.

Lemma emits_holds id l : (count (nowait id) l ≤ count (emits id) l ≤ count holds l)%nat.
Proof.
  induction l as [|g l IH]; simpl; [lia|].
  destruct g as [x ? ? []|? ?|? ? ?|? ? ?|?]; simpl; try case_decide; lia.
Qed.

Lemma start_winv e : listeners e = ∅ → WInv (start e).
Proof.
  intros He. assert (Hch : ∀ t, topicChans e t = []).
  { intros t. unfold topicChans. by rewrite He, lookup_empty. }
  split; simpl; try done; [|intros g c; by intros ?%not_elem_of_nil].
  split; try done.
  - intros t. rewrite Hch. constructor.
  - intros t1 t2 c. rewrite Hch. by intros ?%not_elem_of_nil.
  - intros t. by rewrite He, lookup_empty.
  - intros c. split; [by intros (p & ? & _)|]. intros [t Ht]. rewrite Hch in Ht.
    by apply not_elem_of_nil in Ht.
Qed.

(** A change of the emitter and its channels only. *)
Lemma setEm_winv w e chs : WInv w → EInv e chs → dom (chans w) ⊆ dom chs → WInv (setEm w e chs).
Proof.
  intros [] HI Hd. split; try done. simpl.
  intros g c Hg Hc. apply elem_of_dom, Hd, elem_of_dom. eauto.
Qed.

Lemma closes_dom chs chs' P `{∀ c, Decision (P c)} : closes chs chs' P → dom chs' = dom chs.
Proof.
  intros Hc. apply set_eq. intros c. rewrite !elem_of_dom, (Hc c). case_decide; [|done].
  by rewrite fmap_is_Some.
Qed.

Lemma Off_winv o w e' chs' topic cs : permutes o → WInv w →
  Off path_Match o (em w) (chans w) topic cs = Some (e', chs') → WInv (setEm w e' chs').
Proof.
  intros Ho HW HO. destruct (Off_spec o (em w) (chans w) topic cs Ho (winv_em w HW))
    as (e2 & chs2 & Heq & HI & _ & Hc). rewrite Heq in HO. injection HO as <- <-.
  apply setEm_winv; [done..|]. by rewrite (closes_dom _ _ _ Hc).
Qed.

(** Goroutine [g] becomes [new] while the mutex, the done channels and the wait
    groups change. *)
Lemma splice_winv w w' i g new : WInv w → gs w !! i = Some g → gs w' = splice i new (gs w) →
  EInv (em w') (chans w') → dom (chans w) ⊆ dom (chans w') → panicked w' = false →
  (∀ g' c, g' ∈ new → c ∈ mentions g' → c ∈ mentions g) →
  (count holds new + (if mu w then 1 else 0) = holds g + if mu w' then 1 else 0)%nat →
  (∀ id np ne nn na, (nn ≤ ne)%nat → (ne + holds g ≤ 1)%nat →
     IdOk (dones w !! id) (wgs w !! id) (np + pushes id g) (ne + emits id g)
       (nn + nowait id g) (na + after id g) →
     IdOk (dones w' !! id) (wgs w' !! id) (np + count (pushes id) new)
       (ne + count (emits id) new) (nn + count (nowait id) new) (na + count (after id) new)) →
  WInv w'.
Proof.
  intros HW Hg Hgs HI Hd Hp Hm Hmu Hid. pose proof (list_elem_of_lookup_2 _ _ _ Hg) as Hin.
  assert (Hcnt : ∀ f, count f (gs w') = (count f (take i (gs w)) + count f (drop (S i) (gs w)) + count f new)%nat
    ∧ count f (gs w) = (count f (take i (gs w)) + count f (drop (S i) (gs w)) + f g)%nat).
  { intros f. rewrite Hgs. unfold splice. split.
    - rewrite !sum_list_with_app. lia.
    - rewrite <- (take_drop_middle (gs w) i g Hg) at 1. rewrite sum_list_with_app. simpl. lia. }
  split; [done..| | |].
  - destruct (Hcnt holds) as [H1 H2]. pose proof (winv_mu w HW). rewrite H1. lia.
  - intros id. pose proof (winv_id w HW id) as Hok.
    destruct (Hcnt (pushes id)) as [-> E1], (Hcnt (emits id)) as [-> E2],
      (Hcnt (nowait id)) as [-> E3], (Hcnt (after id)) as [-> E4].
    rewrite E1, E2, E3, E4 in Hok.
    pose proof (emits_holds id (take i (gs w))). pose proof (emits_holds id (drop (S i) (gs w))).
    apply Hid; [lia| |done]. destruct (Hcnt holds) as [_ H2]. pose proof (winv_mu w HW).
    destruct (mu w); lia.
  - rewrite Hgs. intros g' c [Hg'|Hg']%elem_splice Hc; apply elem_of_dom, Hd, elem_of_dom;
      eapply winv_chans; eauto.
Qed.

Lemma portSend_shut p e : cshut (pchan (portSend p e).2) = cshut (pchan p).
Proof.
  unfold portSend. destruct (cshut (pchan p)) eqn:Hs; [done|]. destruct (waiting p); [|done].
  unfold Prelude.send. rewrite Hs. by case_if.
Qed.
Lemma portRecv_shut p : cshut (pchan (portRecv p)) = cshut (pchan p).
Proof. unfold portRecv, recv. destruct (cbuf (pchan p)); [by destruct (cshut (pchan p)) eqn:?|done]. Qed.

Lemma pushEvent_spec pick d p e d' p' r : pushEvent pick d p e = Some (d', p', r) →
  dclosed d' = dclosed d ∧ dcaller d' = dcaller d ∧ dreturned d' = dreturned d ∧
  cshut (pchan p') = cshut (pchan p).
Proof.
  unfold pushEvent, send_. intros H. step_cases.
  destruct (select_ _ _ _ _ _); naive_solver eauto using portSend_shut.
Qed.

Lemma open_insert chs c p p' : chs !! c = Some p → cshut (pchan p') = cshut (pchan p) →
  ∀ x, open (<[c := p']> chs) x ↔ open chs x.
Proof.
  intros Hp Hs x. unfold open. destruct (decide (x = c)) as [->|Hne].
  - rewrite lookup_insert_eq, Hp. naive_solver congruence.
  - by rewrite lookup_insert_ne.
Qed.

Lemma insert_einv e chs c p p' : EInv e chs → chs !! c = Some p →
  cshut (pchan p') = cshut (pchan p) → EInv e (<[c := p']> chs).
Proof. intros HI Hp Hs. eapply einv_same; [exact HI|done..|]. by eapply open_insert. Qed.

(** What a push changes. *)
Lemma push_spec pick w id l e w' r : push pick w id l e = Some (w', r) →
  ∃ p p' d d', chans w !! ch l = Some p ∧ dones w !! id = Some d ∧
    cshut (pchan p') = cshut (pchan p) ∧
    dclosed d' = dclosed d ∧ dcaller d' = dcaller d ∧ dreturned d' = dreturned d ∧
    w' = mkWorld (em w) (<[ch l := p']> (chans w)) (<[id := d']> (dones w)) (wgs w) (mu w)
           (gs w) (panicked w).
Proof.
  unfold push. intros H. step_cases.
  match goal with H : pushEvent _ _ _ _ = Some (?a, ?b, ?c) |- _ => 
    pose proof (pushEvent_spec _ _ _ _ _ _ _ H) end.
  subst. naive_solver.
Qed.

(** The numbers of one call, when its done channel or wait group may change. *)
Ltac ids id :=
  let x := fresh "x" in
  intros x np ne nn na ? ?; simpl in *; destruct (decide (id = x)) as [<-|?];
  [ rewrite ?lookup_insert_eq, ?decide_True by done
  | rewrite ?lookup_insert_ne, ?decide_False by done; try (let H := fresh in intros H; exact H) ];
  unfold IdOk; simpl.

(** Nothing new is mentioned. *)
Ltac ment :=
  let Hg := fresh in
  intros ? ? Hg; rewrite ?elem_of_cons, ?elem_of_nil in Hg; destruct_or? Hg; subst; simpl;
  rewrite ?elem_of_cons, ?elem_of_nil; tauto.

Lemma run_emit_winv pick w w' i id ts offs h : WInv w → gs w !! i = Some (TEmit id ts offs h) →
  run_emit pick w i id ts offs h = Some w' → WInv w'.
Proof.
  intros HW Hg Hrun. pose proof (winv_em w HW) as HI. pose proof (winv_panic w HW) as Hp.
  pose proof (winv_mu w HW) as Hmu.
  assert (Hheld : mu w = true).
  { pose proof (count_splice holds _ _ _ [] Hg). simpl in *. destruct (mu w); [done|lia]. }
  destruct ts as [|t ts]; simpl in Hrun.
  - destruct h; [injection Hrun as <-|].
    + eapply splice_winv; [done..|ment|by rewrite Hheld|].
      ids id; destruct (dones w !! _), (wgs w !! _); naive_solver lia.
    + pose proof (winv_id w HW id) as Hok.
      pose proof (count_splice (emits id) _ _ _ [] Hg). pose proof (count_splice (nowait id) _ _ _ [] Hg).
      simpl in *. rewrite decide_True in * by done.
      unfold closeDone in Hrun. unfold IdOk in Hok.
      destruct (dones w !! id) as [d|] eqn:Hd, (wgs w !! id) as [n|] eqn:Hn; try lia.
      destruct Hok as (Hnp & Hem & _ & Hnw). destruct Hem as (Hcl & _ & _); [lia|]. simpl in Hrun.
      rewrite Hcl in Hrun. injection Hrun as <-.
      eapply splice_winv; [done..|ment|by rewrite Hheld|].
      ids id; rewrite ?Hd, ?Hn; naive_solver lia.
  - destruct (hasFlag (ev t) FlagSync).
    + step_cases. apply push_spec in H as (p & p' & d & d' & Hpo & Hd & Hs & E1 & E2 & E3 & ->).
      subst. eapply splice_winv; [done..| | |done|ment|by simpl; rewrite Hheld|].
      * by eapply insert_einv.
      * simpl. set_solver.
      * destruct h; ids id; rewrite Hd, E1, E2, E3; done.
    + step_cases. subst. eapply splice_winv; [done..|ment|by simpl; rewrite Hheld|].
      destruct h; ids id; rewrite H; destruct (dones w !! id); naive_solver lia.
Qed.

Lemma run_offs_winv o w w' i offs ret : permutes o → WInv w → gs w !! i = Some (TOffs offs ret) →
  run_offs path_Match o w i offs ret = Some w' → WInv w'.
Proof.
  intros Ho HW Hg Hrun. pose proof (winv_em w HW) as HI. pose proof (winv_panic w HW) as Hp.
  destruct offs as [|[t c] offs]; simpl in Hrun.
  - destruct ret as [id|]; step_cases; subst; (eapply splice_winv; [done..|ment|done|]).
    + ids id. rewrite H. destruct (wgs w !! id); naive_solver lia.
    + by ids 0%nat.
  - destruct (mu w) eqn:Hmu; [done|].
    destruct (Off_spec o (em w) (chans w) t [c] Ho HI) as (e' & chs' & Heq & HI' & _ & Hc).
    rewrite Heq in Hrun. injection Hrun as <-.
    eapply splice_winv; [done..| |done|ment|done|].
    + simpl. by rewrite (closes_dom _ _ _ Hc).
    + destruct ret as [id|]; [by ids id|by ids 0%nat].
Qed.

Lemma run_push_winv pick w w' i id l e : WInv w → gs w !! i = Some (TPush id l e) →
  run_push pick w i id l e = Some w' → WInv w'.
Proof.
  intros HW Hg Hrun. pose proof (winv_em w HW) as HI. pose proof (winv_panic w HW) as Hp.
  pose proof (winv_mu w HW) as Hmu. pose proof (winv_id w HW id) as Hok.
  pose proof (count_splice holds _ _ _ [] Hg) as Hh.
  pose proof (count_splice (pushes id) _ _ _ [] Hg) as Hps. simpl in *.
  rewrite decide_True in Hps by done.
  assert (Hheld : mu w = true). { destruct (mu w); [done|lia]. }
  unfold run_push in Hrun. step_cases.
  apply push_spec in H as (p & p' & d & d' & Hpo & Hd & Hs & E1 & E2 & E3 & ->). simpl in *.
  rewrite Hd, H0 in Hok. destruct x0 as [|n]; [unfold IdOk in Hok; lia|]. injection H1 as <-.
  eapply splice_winv; [done..| | |done|ment|by simpl; rewrite Hheld|].
  - by eapply insert_einv.
  - simpl. set_solver.
  - ids id. rewrite Hd, H0, E1, E2, E3. naive_solver lia.
Qed.

Lemma run_winv pick o w w' i g : permutes o → WInv w → gs w !! i = Some g →
  run path_Match pick o w i g = Some w' → WInv w'.
Proof.
  intros Ho HW Hg Hrun. pose proof (winv_em w HW) as HI. pose proof (winv_panic w HW) as Hp.
  destruct g as [id ts offs h|offs ret|id l e|id l e|id]; simpl in Hrun.
  - by eapply run_emit_winv.
  - by eapply run_offs_winv.
  - destruct (mu w) eqn:Hmu; [done|]. injection Hrun as <-.
    eapply splice_winv; [done..|ment|by rewrite Hmu|]. ids id.
    destruct (dones w !! id), (wgs w !! id); naive_solver lia.
  - by eapply run_push_winv.
  - step_cases. destruct (bool_decide _) eqn:Hn; [|done]. bdec. subst. injection H0 as <-.
    unfold closeDone. destruct (dones w !! id) as [d|] eqn:Hd; simpl.
    2:{ eapply splice_winv; [done..|ment|done|]. ids id. rewrite Hd, H. naive_solver lia. }
    destruct (dclosed d) eqn:Hcl; simpl.
    + eapply splice_winv; [done..|ment|done|]. ids id. rewrite Hd, H. naive_solver lia.
    + eapply splice_winv; [done..|ment|done|]. ids id. rewrite Hd, H. naive_solver lia.
Qed.

(** A change of one call's done channel by its caller. *)
Lemma setDone_winv w id d d' : WInv w → dones w !! id = Some d → dreturned d = true →
  dreturned d' = true → dclosed d' = dclosed d ∧ dcaller d' = dcaller d ∨ dcaller d' = true →
  WInv (setDone w id d').
Proof.
  intros HW Hd Hr Hr' Hc. destruct HW as [HI Hp Hm Hid Hch]. split; [done..| |done].
  intros x. specialize (Hid x). simpl. destruct (decide (id = x)) as [<-|Hne].
  - rewrite lookup_insert_eq. rewrite Hd in Hid. unfold IdOk in *.
    destruct (wgs w !! id); [|done]. destruct Hc as [[-> ->]|Hc]; naive_solver congruence.
  - by rewrite lookup_insert_ne.
Qed.

Lemma plan_chans o mo e topic args t : t ∈ plan path_Match o mo e topic args →
  ∃ x, ch (lst t) ∈ topicChans e x.
Proof.
  unfold plan. intros (x & Hx & Ht)%list_elem_of_In%in_flat_map. exists x.
  apply list_elem_of_In in Ht. unfold topicChans.
  set (ls := default [] (listeners e !! x)) in *. clearbody ls. set (ev0 := applyMiddlewares _ _) in Ht.
  clearbody ev0. generalize dependent (length ls). intros n.
  induction n as [|n IH]; simpl; [by intros ?%not_elem_of_nil|].
  destruct (ls !! n) as [l|] eqn:Hl; [|by intros ?%not_elem_of_nil].
  destruct (hasFlag _ FlagVoid); [done|]. intros [->|Ht]%elem_of_cons; [|by apply IH].
  simpl. apply list_elem_of_fmap_2. by eapply list_elem_of_lookup_2.
Qed.

Lemma Emit_winv o mo topic args w : WInv w → mu w = false → WInv (Emit path_Match o mo topic args w).
Proof.
  intros HW Hmu. destruct HW as [HI Hp Hm Hid Hch]. set (id := fresh (dom (dones w))).
  assert (Hnew : dones w !! id = None) by (apply not_elem_of_dom, is_fresh).
  split; simpl; [by apply init_einv|done| | |].
  - rewrite sum_list_with_app, Hm, Hmu. done.
  - intros x. specialize (Hid x). rewrite !sum_list_with_app. simpl. fold id.
    destruct (decide (id = x)) as [<-|Hne].
    + rewrite !lookup_insert_eq. rewrite Hnew in Hid. unfold IdOk in *. simpl.
      destruct (wgs w !! id); [done|]. naive_solver lia.
    + rewrite !lookup_insert_ne, !Nat.add_0_r by done. done.
  - intros g c. rewrite elem_of_app, list_elem_of_singleton. intros [Hg| ->]; [by eauto|]. simpl.
    intros (t & -> & Ht)%list_elem_of_fmap. apply plan_chans in Ht.
    apply (einv_open _ _ (init_einv _ _ HI)) in Ht as (p & Hpc & _). by rewrite Hpc.
Qed.

Definition action_ok (a : action) : Prop :=
  match a with
  | AOff o _ _ | ARun _ _ o => permutes o
  | AEmit o mo _ _ => permutes o ∧ ∀ t, permutes (mo t)
  | _ => True
  end.

Lemma step_winv w a w' : action_ok a → WInv w → step path_Match w a = Some w' → WInv w'.
Proof.
  intros Ha HW Hs. unfold step in Hs. rewrite (winv_panic w HW) in Hs.
  pose proof (winv_em w HW) as HI.
  destruct a as [p ms|t ms|t ms|o t cs|o mo t args|c|id|id|i pick o]; simpl in Ha.
  1-5: destruct (mu w) eqn:Hmu; [done|].
  - injection Hs as <-. apply setEm_winv; [done|by apply Use_einv|done].
  - destruct (On_spec (em w) (chans w) t ms HI) as (e & chs & Heq & HI' & _ & -> & _).
    rewrite Heq in Hs. injection Hs as <-. apply setEm_winv; [done..|]. set_solver.
  - destruct (On_spec (em w) (chans w) t (ms ++ [Once_]) HI) as (e & chs & Heq & HI' & _ & -> & _).
    unfold Once in Hs. rewrite Heq in Hs. injection Hs as <-. apply setEm_winv; [done..|]. set_solver.
  - destruct (Off_spec o (em w) (chans w) t cs Ha HI) as (e & chs & Heq & _).
    rewrite Heq in Hs. injection Hs as <-. by eapply Off_winv.
  - injection Hs as <-. by apply Emit_winv.
  - step_cases. subst. apply setEm_winv; [done| |set_solver].
    eapply insert_einv; [done..|]. apply portRecv_shut.
  - step_cases. destruct (dreturned _ && _) eqn:Hc; [|done]. bdec. injection H0 as <-.
    eapply setDone_winv; [done..|]. by right.
  - step_cases. destruct (dreturned _ && _ && _) eqn:Hc; [|done]. bdec. injection H0 as <-.
    eapply setDone_winv; [done..|]. by left.
  - step_cases. by eapply run_winv.
Qed.

(** What the calls and goroutines of the emitter may do, from [w0] on. *)
Inductive reach (w0 : World) : World → Prop :=
| reach_start : reach w0 w0
| reach_step w a w' : reach w0 w → action_ok a → step path_Match w a = Some w' → reach w0 w'.

Lemma reach_winv e w : listeners e = ∅ → reach (start e) w → WInv w.
Proof. intros He Hr. induction Hr; [by apply start_winv|by eapply step_winv]. Qed.

(** A goroutine counts one: [n] of them are none when the sum is 0. *)
Lemma count_zero (f : goroutine → nat) l g : count f l = 0%nat → g ∈ l → f g = 0%nat.
Proof.
  intros H Hg. apply list_elem_of_split in Hg as (l1 & l2 & ->).
  rewrite sum_list_with_app in H. simpl in H. lia.
Qed.

(** C17: the calls of an emitter and its goroutines, however they interleave, never
    close a channel twice and never panic; a listener's channel is open exactly as
    long as it is registered, under one topic and once; when Emit has closed the
    channel it returned, every push it started has ended. *)
Theorem emitter_safe (e : Emitter) (w : World) : listeners e = ∅ → reach (start e) w →
  panicked w = false ∧
  (∀ c, open (chans w) c ↔ ∃ t, c ∈ topicChans (em w) t) ∧
  (∀ t, NoDup (topicChans (em w) t)) ∧
  (∀ t1 t2 c, c ∈ topicChans (em w) t1 → c ∈ topicChans (em w) t2 → t1 = t2) ∧
  (∀ id d, dones w !! id = Some d → dclosed d = true → dcaller d = false →
     wgs w !! id = Some 0%nat ∧
     ∀ g, g ∈ gs w → ∀ l x, g ≠ TAsync id l x ∧ g ≠ TPush id l x).
Proof.
  intros He Hr. pose proof (reach_winv e w He Hr) as [[H1 H2 H3 H4 H5] Hp Hm Hid Hch].
  split_and!; [done..|]. intros id d Hd Hc Hu. specialize (Hid id). rewrite Hd in Hid.
  unfold IdOk in Hid. destruct (wgs w !! id) as [n|]; [|done]. destruct Hid as (-> & _ & Hcl & _).
  destruct (Hcl Hc Hu) as [Hps _]. split; [by rewrite Hps|]. intros g Hg l x.
  pose proof (count_zero _ _ _ Hps Hg). split; intros ->; simpl in *; by rewrite decide_True in *.
Qed.

(** Off closes and removes exactly the listeners it is asked for, of the topics
    that its topic covers, and keeps the order of the others; with a malformed
    pattern it does nothing. *)
Theorem off_removes (o : order) (e : Emitter) (chs : ports) (topic : bytes) (cs : list nat) :
  permutes o → EInv e chs →
  ∃ e' chs', Off path_Match o e chs topic cs = Some (e', chs') ∧ EInv e' chs' ∧
    (∀ t, covered e topic t →
       topicChans e' t = base.filter (λ c, ¬ asked cs c) (topicChans e t)) ∧
    (∀ t, ¬ covered e topic t → topicChans e' t = topicChans e t) ∧
    (∀ c, (∃ t, covered e topic t ∧ c ∈ topicChans e t ∧ asked cs c) →
       chs' !! c = shutPort <$> chs !! c ∧ ¬ open chs' c) ∧
    (∀ c, ¬ (∃ t, covered e topic t ∧ c ∈ topicChans e t ∧ asked cs c) → chs' !! c = chs !! c).
Proof.
  intros Ho HI. destruct (Off_spec o e chs topic cs Ho HI) as (e' & chs' & Heq & HI' & Hoff & Hc).
  destruct (matched_spec o e topic Ho) as [_ Hm]. pose proof (listeners_init e chs HI) as Hli.
  destruct Hoff as (_ & _ & _ & Hl). exists e', chs'. split_and!; [done..| | | |].
  - intros t Ht. specialize (Hl t). rewrite decide_True in Hl by by apply Hm.
    rewrite (survivors_chans cs (init e) e' t Hl). unfold topicChans. by rewrite Hli.
  - intros t Ht. specialize (Hl t). rewrite decide_False in Hl by by rewrite Hm.
    unfold topicChans. by rewrite Hl, Hli.
  - intros c (t & Ht & Hin & Ha).
    assert (HP : asked cs c ∧ Exists (λ t, c ∈ topicChans e t) (matched path_Match o e topic).1).
    { split; [done|]. apply list.Exists_exists. exists t. by rewrite Hm. }
    split; [by rewrite (Hc c), decide_True|]. rewrite (open_closes _ _ _ _ Hc). tauto.
  - intros c Hn. rewrite (Hc c), decide_False; [done|]. intros [Ha (t & Ht & Hin)%list.Exists_exists].
    apply Hn. exists t. by rewrite <- Hm.
Qed.

(** The push of a listener, unless its event is void. *)
Definition push_of (event : Event) (l : listener) : option task :=
  let evn := applyMiddlewares event (lmiddlewares l) in
  if hasFlag evn FlagVoid then None
  else Some (mkTask l evn (if hasFlag evn FlagSync then Topic event else Topic evn)).

Lemma plan_listeners_spec event pre suf :
  plan_listeners event (pre ++ suf) (length pre) = omap (push_of event) (reverse pre).
Proof.
  revert suf. induction pre as [|l pre IH] using rev_ind; intros suf; [done|].
  rewrite length_app, Nat.add_comm, reverse_snoc. simpl.
  rewrite <- app_assoc. simpl. rewrite list_lookup_middle by done. unfold push_of at 1.
  destruct (hasFlag _ FlagVoid); by rewrite IH.
Qed.

Lemma plan_eq o mo e topic args : plan path_Match o mo e topic args =
  (matched path_Match o e topic).1 ≫= λ t,
    omap (push_of (applyMiddlewares (mkEvent t topic 0 args) (getMiddlewares path_Match (mo t) e t)))
      (reverse (default [] (listeners e !! t))).
Proof.
  unfold plan. rewrite flat_map_concat_map. induction (matched path_Match o e topic).1 as [|t ts IH];
    [done|]. simpl. rewrite IH. f_equal.
  pose proof (plan_listeners_spec (applyMiddlewares (mkEvent t topic 0 args)
    (getMiddlewares path_Match (mo t) e t)) (default [] (listeners e !! t)) []) as H.
  by rewrite app_nil_r in H.
Qed.

Lemma omap_push_chans event ls : (λ t, ch (lst t)) <$> omap (push_of event) ls `sublist_of` ch <$> ls.
Proof.
  induction ls as [|l ls IH]; simpl; [done|]. unfold push_of at 1.
  destruct (hasFlag _ FlagVoid); simpl; by constructor.
Qed.

(** Emit starts exactly one push for each listener of a covered topic whose event
    is not void, with the middlewares of the topic's patterns and then those of the
    listener applied, and no channel gets two. *)
Theorem emit_plans (o : order) (mo : bytes → order) (e : Emitter) (chs : ports) (topic : bytes)
    (args : list Value) : permutes o → EInv e chs →
  NoDup ((λ t, ch (lst t)) <$> plan path_Match o mo e topic args) ∧
  ∀ l evn ot, mkTask l evn ot ∈ plan path_Match o mo e topic args ↔
    ∃ t, covered e topic t ∧ l ∈ default [] (listeners e !! t) ∧
      let event := applyMiddlewares (mkEvent t topic 0 args) (getMiddlewares path_Match (mo t) e t) in
      evn = applyMiddlewares event (lmiddlewares l) ∧ hasFlag evn FlagVoid = false ∧
      ot = if hasFlag evn FlagSync then Topic event else Topic evn.
Proof.
  intros Ho HI. destruct (matched_spec o e topic Ho) as [Hnd Hm]. rewrite plan_eq. split.
  - induction (matched path_Match o e topic).1 as [|t ts IH] in Hnd |- *; [constructor|].
    clear Hm. apply list.NoDup_cons in Hnd as [Ht Hnd]. simpl. rewrite fmap_app.
    apply list.NoDup_app. split_and!; [| |by apply IH].
    + eapply sublist_NoDup; [|apply omap_push_chans]. rewrite fmap_reverse.
      rewrite reverse_Permutation. apply (einv_nodup e chs HI).
    + intros c Hc1 Hc2. apply Ht.
      assert (c ∈ topicChans e t) as Hct.
      { eapply elem_of_submseteq; [exact Hc1|]. etrans; [apply sublist_submseteq, omap_push_chans|].
        by rewrite fmap_reverse, reverse_Permutation. }
      apply list_elem_of_fmap in Hc2 as (x & -> & Hx). apply list_elem_of_bind in Hx as (t' & Hx & Ht').
      assert (ch (lst x) ∈ topicChans e t') as Hct'.
      { eapply elem_of_submseteq; [apply (list_elem_of_fmap_2 (λ t, ch (lst t))), Hx|].
        etrans; [apply sublist_submseteq, omap_push_chans|]. by rewrite fmap_reverse, reverse_Permutation. }
      by rewrite (einv_topic e chs HI _ _ _ Hct Hct').
  - intros l evn ot. rewrite list_elem_of_bind. setoid_rewrite list_elem_of_omap.
    setoid_rewrite elem_of_reverse. setoid_rewrite Hm. unfold push_of. split.
    + intros (t & (l' & Hl & Heq) & Hc). destruct (hasFlag _ FlagVoid) eqn:Hv; [done|].
      injection Heq as -> <- <-. by exists t.
    + intros (t & Hc & Hl & -> & Hv & ->). exists t. split; [|done]. exists l. by rewrite Hv.
Qed.

(** ** Channels keep what they get *)

Definition PortOk (p : port) : Prop :=
  ((0 < waiting p)%nat → cbuf (pchan p) = []) ∧ (length (cbuf (pchan p)) ≤ ccap (pchan p))%nat.
(** What one action may do to a channel. *)
Definition grows (p p' : port) : Prop :=
  PortOk p' ∧ got p `prefix_of` got p' ∧
  ∃ s, history p' = history p ++ s ∧ (length s ≤ 1)%nat ∧ (cshut (pchan p) = true → s = []).

Lemma grows_refl p : PortOk p → grows p p.
Proof. intros H. split_and!; [done..|]. exists []. rewrite app_nil_r. split_and!; [done|simpl; lia|done]. Qed.

Lemma portSend_grows p e : PortOk p → grows p (portSend p e).2.
Proof.
  intros Hp. pose proof Hp as [Hw Hlen]. unfold portSend.
  destruct (cshut (pchan p)) eqn:Hs; [by apply grows_refl|]. destruct (waiting p) as [|n] eqn:Hwt.
  - unfold Prelude.send. rewrite Hs. case_if; [|by apply grows_refl].
    split_and!; [|done|].
    + split; simpl; [lia|]. rewrite length_app. simpl. lia.
    + exists [e]. unfold history. simpl. rewrite app_assoc. split_and!; [done|simpl; lia|congruence].
  - split_and!; simpl; [|by apply prefix_app_r|].
    + split; simpl; [|lia]. intros _. apply Hw. lia.
    + exists [e]. unfold history. simpl. rewrite Hw, !app_nil_r by lia.
      split_and!; [done|simpl; lia|congruence].
Qed.

Lemma portRecv_grows p : PortOk p → grows p (portRecv p).
Proof.
  intros Hp. pose proof Hp as [Hw Hlen]. unfold portRecv, recv.
  destruct (cbuf (pchan p)) as [|v b] eqn:Hb.
  - destruct (cshut (pchan p)) eqn:Hs; [by apply grows_refl|]. split_and!; [|done|].
    + split; simpl; rewrite Hb; [done|simpl; lia].
    + exists []. unfold history. simpl. rewrite app_nil_r. split_and!; [done|simpl; lia|done].
  - split_and!; simpl.
    + split; simpl in *; [intros Hn; by specialize (Hw Hn)|lia].
    + by apply prefix_app_r.
    + exists []. unfold history. simpl. rewrite Hb, app_nil_r, <- app_assoc. split_and!; [done|simpl; lia|done].
Qed.

Lemma shutPort_grows p : PortOk p → grows p (shutPort p).
Proof.
  intros [Hw Hlen]. split_and!; [by split; simpl; [lia|]|done|].
  exists []. unfold history. simpl. rewrite app_nil_r. split_and!; [done|simpl; lia|done].
Qed.

Definition PortsOk (chs : ports) : Prop := ∀ c p, chs !! c = Some p → PortOk p.
Definition grown (chs chs' : ports) : Prop :=
  PortsOk chs' ∧ ∀ c p, chs !! c = Some p → ∃ p', chs' !! c = Some p' ∧ grows p p'.

Lemma grown_refl chs : PortsOk chs → grown chs chs.
Proof. intros H. split; [done|]. intros c p Hp. eauto using grows_refl. Qed.

Lemma grown_insert chs c p p' : PortsOk chs → chs !! c = Some p → grows p p' →
  grown chs (<[c := p']> chs).
Proof.
  intros H Hp Hg. split.
  - intros x q [[<- <-]|[_ Hq]]%lookup_insert_Some; [apply Hg|by eapply H].
  - intros x q Hq. destruct (decide (c = x)) as [<-|Hne].
    + rewrite lookup_insert_eq. simplify_eq. eauto.
    + rewrite lookup_insert_ne by done. eauto using grows_refl.
Qed.

Lemma grown_new chs c p : PortsOk chs → chs !! c = None → PortOk p → grown chs (<[c := p]> chs).
Proof.
  intros H Hn Hp. split.
  - intros x q [[<- <-]|[_ Hq]]%lookup_insert_Some; [done|by eapply H].
  - intros x q Hq. rewrite lookup_insert_ne by congruence. eauto using grows_refl.
Qed.

Lemma grown_closes chs chs' P `{∀ c, Decision (P c)} : PortsOk chs → closes chs chs' P → grown chs chs'.
Proof.
  intros H0 Hc. split.
  - intros c p. rewrite (Hc c). case_decide; [|by eauto].
    intros (q & Hq & ->)%fmap_Some. by apply shutPort_grows, (H0 c).
  - intros c p Hp. rewrite (Hc c), Hp. case_decide; simpl; eauto using grows_refl, shutPort_grows.
Qed.

Lemma push_grown pick w id l e w' r : PortsOk (chans w) → push pick w id l e = Some (w', r) →
  grown (chans w) (chans w').
Proof.
  unfold push. intros H0 H. step_cases. subst. simpl.
  eapply grown_insert; [done..|]. unfold pushEvent, send_ in *. step_cases.
  destruct (select_ _ _ _ _ _); simplify_eq/=; eauto using grows_refl, portSend_grows.
Qed.

Lemma run_grown pick o w i g w' : permutes o → WInv w → PortsOk (chans w) →
  run path_Match pick o w i g = Some w' → grown (chans w) (chans w').
Proof.
  intros Ho HW H0 Hrun. destruct g as [id ts offs h|offs ret|id l e|id l e|id]; simpl in Hrun.
  - destruct ts as [|t ts]; simpl in Hrun.
    + destruct h; [injection Hrun as <-; by apply grown_refl|]. injection Hrun as <-.
      unfold closeDone. destruct (dones w !! id) as [d|]; simpl; [|by apply grown_refl].
      destruct (dclosed d); by apply grown_refl.
    + destruct (hasFlag _ _); step_cases; subst; [|by apply grown_refl].
      exact (push_grown _ _ _ _ _ _ _ H0 H).
  - destruct offs as [|[t c] offs]; simpl in Hrun.
    + destruct ret; step_cases; subst; by apply grown_refl.
    + destruct (mu w); [done|].
      destruct (Off_spec o (em w) (chans w) t [c] Ho (winv_em w HW)) as (e' & chs' & Heq & _ & _ & Hc).
      rewrite Heq in Hrun. injection Hrun as <-. by eapply grown_closes.
  - destruct (mu w); [done|]. injection Hrun as <-. by apply grown_refl.
  - unfold run_push in Hrun. step_cases. apply push_grown in H; [|done].
    destruct x0; injection H2 as <-; done.
  - step_cases. destruct (bool_decide _); [|done]. injection H1 as <-.
    unfold closeDone. destruct (dones w !! id) as [d|]; simpl; [|by apply grown_refl].
    destruct (dclosed d); by apply grown_refl.
Qed.

Lemma step_grown w a w' : action_ok a → WInv w → PortsOk (chans w) →
  step path_Match w a = Some w' → grown (chans w) (chans w').
Proof.
  intros Ha HW H0 Hs. unfold step in Hs. rewrite (winv_panic w HW) in Hs.
  pose proof (winv_em w HW) as HI.
  assert (Hon : ∀ t ms, grown (chans w) (On (em w) (chans w) t ms).2).
  { intros t ms. destruct (On_spec (em w) (chans w) t ms HI) as (e & chs & -> & _ & _ & -> & _).
    apply grown_new; [done|apply not_elem_of_dom, is_fresh|]. split; simpl; lia. }
  destruct a as [p ms|t ms|t ms|o t cs|o mo t args|c|id|id|i pick o]; simpl in Ha.
  1-5: destruct (mu w) eqn:Hmu; [done|].
  - injection Hs as <-. by apply grown_refl.
  - specialize (Hon t ms). destruct (On _ _ _ _) as [[? e] chs]. by injection Hs as <-.
  - unfold Once in Hs. specialize (Hon t (ms ++ [Once_])). destruct (On _ _ _ _) as [[? e] chs].
    by injection Hs as <-.
  - destruct (Off_spec o (em w) (chans w) t cs Ha HI) as (e & chs & Heq & _ & _ & Hc).
    rewrite Heq in Hs. injection Hs as <-. by eapply grown_closes.
  - injection Hs as <-. by apply grown_refl.
  - step_cases. subst. eapply grown_insert; [done..|]. apply portRecv_grows. by eapply H0.
  - step_cases. destruct (_ && _); [|done]. injection H1 as <-. by apply grown_refl.
  - step_cases. destruct (_ && _ && _); [|done]. injection H1 as <-. by apply grown_refl.
  - step_cases. by eapply run_grown.
Qed.

Lemma reach_ports e w : listeners e = ∅ → reach (start e) w → PortsOk (chans w).
Proof.
  intros He Hr. induction Hr as [|w a w' Hr IH Ha Hs]; [by intros c p ?|].
  eapply step_grown; [done|by eapply reach_winv|done..].
Qed.

(** Nothing is lost or overtaken in a listener's channel: each action leaves what
    was sent on it, adds at most one event at the end, adds none once it is closed,
    and never takes back what a receiver got. *)
Theorem channel_fifo (e : Emitter) (w w' : World) (a : action) (c : nat) (p : port) :
  listeners e = ∅ → reach (start e) w → action_ok a → step path_Match w a = Some w' →
  chans w !! c = Some p →
  ∃ p' s, chans w' !! c = Some p' ∧ history p' = history p ++ s ∧ (length s ≤ 1)%nat ∧
    (cshut (pchan p) = true → s = []) ∧ got p `prefix_of` got p' ∧
    (length (cbuf (pchan p')) ≤ ccap (pchan p'))%nat.
Proof.
  intros He Hr Ha Hs Hp. destruct (step_grown w a w') as [_ Hg]; [done|by eapply reach_winv|
    by eapply reach_ports|done|]. destruct (Hg c p Hp) as (p' & Hp' & [_ Hlen] & Hgot & s & H1 & H2 & H3).
  by exists p', s.
Qed.
End worlds.

(** What pushEvent reports.  It asks for the removal of a listener only after a
    send to a Once listener, or when a listener with the Close flag could not take
    the event at once and done was not ready; it blocks only without Skip and Close. *)
Theorem push_outcome (pick : bool) (d : done_) (p : port) (e : Event) :
  match pushEvent pick d p e with
  | Some (_, p', (success, remove)) =>
      (success = true → p' = (portSend p e).2 ∧ remove = hasFlag e FlagOnce) ∧
      (success = false → p' = p) ∧
      (success = false → remove = true → hasFlag e FlagClose = true) ∧
      (dbuf d || dclosed d = true → success = false → remove = true → cshut (pchan p) = true)
  | None => hasFlag e FlagSkip = false ∧ hasFlag e FlagClose = false ∧
      dbuf d || dclosed d = false ∧ cshut (pchan p) = false ∧ waiting p = 0%nat ∧
      (ccap (pchan p) ≤ length (cbuf (pchan p)))%nat
  end.
Proof.
  unfold pushEvent, send_, select_.
  assert (Hb : (portSend p e).1 = SendBlock → cshut (pchan p) = false ∧ waiting p = 0%nat ∧
     (ccap (pchan p) ≤ length (cbuf (pchan p)))%nat).
  { unfold portSend. destruct (cshut (pchan p)) eqn:Hs; [done|]. destruct (waiting p); [|done].
    unfold Prelude.send. rewrite Hs. case_if; [done|]. intros _. split_and!; [done..|lia]. }
  assert (Hpn : (portSend p e).1 = SendPanic → cshut (pchan p) = true).
  { unfold portSend. destruct (cshut (pchan p)) eqn:Hs; [done|]. destruct (waiting p); [|done].
    unfold Prelude.send. rewrite Hs. by case_if. }
  destruct (portSend p e).1 as [| |] eqn:Hr, (dbuf d || dclosed d), pick,
    (hasFlag e FlagSkip), (hasFlag e FlagClose), (hasFlag e FlagOnce); simpl; naive_solver.
Qed.

(** A getter gives the argument when it is there and of the type, and the default
    otherwise, for every index below 2^63; at and above 2^63 it panics. *)
Theorem getter_default {A} (cast : Value → option A) (zero : A) (e : Event) (index : Z)
    (dflt : list A) : 0 ≤ index < 2 ^ 64 → zlen (Args e) < 2 ^ 63 →
  get_arg cast zero e index dflt =
    if bool_decide (index < 2 ^ 63)
    then Some (default (default zero (head dflt)) (Args e !! Z.to_nat index ≫= cast))
    else None.
Proof.
  intros Hi Hlen. unfold get_arg, int64, wrapS, zlen in *.
  destruct (decide (index < 2 ^ 63)) as [Hlt|Hge].
  - rewrite (bool_decide_true (index < 2 ^ 63)) by done. rewrite Z.mod_small by lia.
    assert (Hd : match dflt with [] => zero | first :: _ => first end = default zero (head dflt))
      by by destruct dflt. rewrite Hd.
    case_if.
    + destruct (lookup_lt_is_Some_2 (Args e) (Z.to_nat index)) as [v Hv]; [lia|].
      rewrite bool_decide_true, Hv by lia. simpl. by destruct (cast v).
    + by rewrite lookup_ge_None_2 by lia.
  - rewrite (bool_decide_false (index < 2 ^ 63)) by done.
    assert ((index + 2 ^ (64 - 1)) mod 2 ^ 64 = index - 2 ^ 63) as ->.
    { rewrite <- (Z.mod_add _ (-1)) by lia. rewrite Z.mod_small by lia. lia. }
    by rewrite bool_decide_true, bool_decide_false by lia.
Qed.

(** ** A matcher, for the examples

    The patterns of path.Match: [*] stands for a sequence and [?] for one of the
    bytes other than [/], [\c] for [c], [[...]] for a byte of the ranges listed, or
    of none of them after [^]; any other byte stands for itself. *)
Inductive term := TStar | TAny | TClass (neg : bool) (rs : list (Z * Z)) | TByte (c : byte).

Definition in_ranges (rs : list (Z * Z)) (c : byte) : bool :=
  existsb (λ '(lo, hi), (lo <=? b2z c) && (b2z c <=? hi)) rs.

(** A byte of a class, which may be escaped. *)
Definition class_byte (p : bytes) : option (byte * bytes) :=
  match p with
  | x5c :: c :: p' => Some (c, p')
  | x5c :: [] | x2d :: _ | x5d :: _ | [] => None
  | c :: p' => Some (c, p')
  end.
Fixpoint class_ranges (fuel : nat) (p : bytes) (rs : list (Z * Z)) : option (list (Z * Z) * bytes) :=
  match fuel with
  | O => None
  | S n =>
      if (head p =b Some x5d) && negb (rs =b []) then Some (rs, tail p)
      else
        '(lo, p1) ← class_byte p;
        if head p1 =b Some x2d
        then '(hi, p3) ← class_byte (tail p1); class_ranges n p3 (rs ++ [(b2z lo, b2z hi)])
        else class_ranges n p1 (rs ++ [(b2z lo, b2z lo)])
  end.
Fixpoint terms (fuel : nat) (p : bytes) : option (list term) :=
  match fuel with
  | O => None
  | S n =>
      match p with
      | [] => Some []
      | x2a :: p' => ts ← terms n p'; Some (TStar :: ts)
      | x3f :: p' => ts ← terms n p'; Some (TAny :: ts)
      | x5c :: [] => None
      | x5c :: c :: p' => ts ← terms n p'; Some (TByte c :: ts)
      | x5b :: p' =>
          let '(neg, p1) := match p' with x5e :: q => (true, q) | _ => (false, p') end in
          '(rs, p2) ← class_ranges n p1 []; ts ← terms n p2; Some (TClass neg rs :: ts)
      | c :: p' => ts ← terms n p'; Some (TByte c :: ts)
      end
  end.
Fixpoint match_terms (ts : list term) : bytes → bool :=
  match ts with
  | [] => λ name, match name with [] => true | _ => false end
  | TStar :: ts' =>
      fix star (name : bytes) : bool :=
        match_terms ts' name ||
        match name with x2f :: _ | [] => false | _ :: name' => star name' end
  | TAny :: ts' => λ name, match name with x2f :: _ | [] => false | _ :: name' => match_terms ts' name' end
  | TByte c :: ts' => λ name, match name with [] => false | x :: name' => (x =b c) && match_terms ts' name' end
  | TClass neg rs :: ts' => λ name,
      match name with
      | x2f :: _ | [] => false
      | x :: name' => xorb neg (in_ranges rs x) && match_terms ts' name'
      end
  end.
Definition path_match (pattern name : bytes) : bool * bool :=
  match terms (S (length pattern)) pattern with
  | Some ts => (match_terms ts name, false)
  | None => (false, true)
  end.

Module emitter_example.

Example glob : path_match (bs "a*/?[b-d]") (bs "axy/zc") = (true, false) ∧
  path_match (bs "a*") (bs "a/b") = (false, false) ∧ path_match (bs "[a]") (bs "[a]") = (false, false) ∧
  path_match (bs "[]a]") (bs "a") = (false, true).
Proof. by vm_compute. Qed.

Definition o : order := λ l, l.
Lemma o_permutes : permutes o. Proof. by intros l. Qed.
Definition t : bytes := bs "t".
Definition acts (l : list action) : option World := exec path_match (start (New 2)) l.
(** Goroutine [i] goes on. *)
Definition go (i : nat) : action := ARun i false o.
Definition emit : action := AEmit o (λ _, o) t [].

Lemma exec_reach w0 l w : (∀ a, a ∈ l → action_ok a) → exec path_match w0 l = Some w →
  reach path_match w0 w.
Proof.
  revert w. induction l as [|a l IH] using rev_ind; simpl; intros w Hok He.
  { injection He as <-. constructor. }
  unfold exec in He. rewrite foldl_app in He. simpl in He. apply bind_Some in He as (w1 & H1 & H2).
  eapply reach_step; [|apply (Hok a); set_solver|exact H2]. apply IH; [|done]. intros x Hx. apply Hok. set_solver.
Qed.

(** Two calls of Emit for a Once listener, whose goroutines both push before the
    first one's call of Off. *)
Definition once_acts : list action :=
  [AOnce t []; emit; go 0; go 0; emit; go 3; go 3; go 2; go 2; go 5; go 5; go 2; go 5].

(** How many events channel [c] has got, and whether it is closed. *)
Definition look (w : option World) (c : nat) : option (nat * bool) :=
  w ← w; p ← chans w !! c; Some (length (history p), cshut (pchan p)).

Definition onces (w : option World) (c : nat) : option bool :=
  w ← w; p ← chans w !! c; Some (forallb (λ e, hasFlag e FlagOnce) (history p)).

Lemma acts_reach n l w : (∀ a, a ∈ l → action_ok a) →
  exec path_match (start (New n)) l = Some w → reach path_match (start (New n)) w.
Proof. apply exec_reach. Qed.

Lemma ok_go i : action_ok (go i). Proof. apply o_permutes. Qed.
Lemma ok_emit : action_ok emit. Proof. split; [|intros ?]; apply o_permutes. Qed.
Lemma ok_all l : Forall action_ok l → ∀ a, a ∈ l → action_ok a.
Proof. intros H a. by apply list.Forall_forall. Qed.
Ltac all_ok :=
  apply ok_all;
  repeat (apply List.Forall_cons; [first [exact I|apply ok_go|apply ok_emit]|]); apply List.Forall_nil.

(** A listener registered with Once gets two events when a second call of Emit
    pushes before the goroutine of the first one has come to its call of Off. *)
Theorem once_twice : ∃ w p, reach path_match (start (New 2)) w ∧ chans w !! 0%nat = Some p ∧
  length (history p) = 2%nat ∧ cshut (pchan p) = true ∧
  Forall (λ e, hasFlag e FlagOnce = true) (history p).
Proof.
  destruct (acts once_acts) as [w|] eqn:Hw; [|by vm_compute in Hw].
  assert (Hl : look (Some w) 0 = Some (2%nat, true)) by (rewrite <- Hw; by vm_compute).
  assert (Hf : onces (Some w) 0 = Some true) by (rewrite <- Hw; by vm_compute).
  unfold look in Hl. unfold onces in Hf. simpl in Hl, Hf. destruct (chans w !! 0%nat) as [p|] eqn:Hp; [|done].
  simpl in *. injection Hl as Hn Hs. exists w, p. split_and!; [|exact Hp|exact Hn|exact Hs|].
  - apply (acts_reach 2 once_acts); [unfold once_acts; all_ok|exact Hw].
  - injection Hf as Hf. apply list.Forall_forall. intros x Hx. rewrite forallb_forall in Hf.
    by apply Hf, list_elem_of_In.
Qed.

(** A listener of the topic [[a]], which is a pattern that does not match itself: Off
    never finds it, and it gets every event for [a] though registered with Once. *)
Definition sync_emit : action := AEmit o (λ _, o) (bs "a") [].
Example once_never_removed :
  look (acts [AOnce (bs "[a]") [Sync]; sync_emit; go 0; go 0; go 0; go 0;
              sync_emit; go 0; go 0; go 0; go 0]) 0 = Some (2%nat, false).
Proof. by vm_compute. Qed.

(** A push without a receiver keeps the mutex: no call of a method is possible, Off of
    the listener itself included, until there is a receiver. *)
Definition stuck : list action := [AOn t []; emit; go 0; go 0; go 2].
Definition possible (l : list action) (a : action) : bool :=
  match exec path_match (start (New 0)) (l ++ [a]) with Some _ => true | None => false end.
Example push_keeps_mutex :
  possible stuck (AOff o t [0%nat]) = false ∧ possible stuck (AOn t []) = false ∧
  possible stuck emit = false ∧ possible stuck (go 2) = false ∧
  possible (stuck ++ [ARecv 0]) (go 2) = true.
Proof. by vm_compute. Qed.

(** At 2^63 the conversion of the index wraps and the test does not see it. *)
Example getter_panics : Int (mkEvent [] [] 0 [VInt 7]) 0 [5] = Some 7 ∧
  Int (mkEvent [] [] 0 [VInt 7]) 1 [5] = Some 5 ∧ Int (mkEvent [] [] 0 [VInt 7]) (2 ^ 63) [5] = None.
Proof. by vm_compute. Qed.

Definition w1 : World := default (start (New 2)) (acts [AOn t []; emit; go 0]).
Lemma w1_reach : reach path_match (start (New 2)) w1.
Proof. apply (acts_reach 2 [AOn t []; emit; go 0]); [all_ok|]. unfold w1. by vm_compute. Qed.

Lemma emitter_safe_witness : panicked w1 = false ∧ ∀ t, NoDup (topicChans (em w1) t).
Proof.
  destruct (emitter_safe path_match (New 2) w1 eq_refl w1_reach) as (H & _ & H2 & _). by split.
Defined.

Definition e1 : Emitter := (On (New 2) ∅ t []).1.2.
Definition chs1 : ports := (On (New 2) ∅ t []).2.
Lemma e1_inv : EInv e1 chs1.
Proof.
  destruct (On_spec (New 2) ∅ t []) as (e & chs & Heq & HI & _).
  - exact (winv_em _ (start_winv (New 2) eq_refl)).
  - unfold e1, chs1. by rewrite Heq.
Qed.
Lemma off_removes_witness : ∃ e' chs', Off path_match o e1 chs1 t [] = Some (e', chs') ∧ EInv e' chs'.
Proof.
  destruct (off_removes path_match o e1 chs1 t [] o_permutes e1_inv) as (e' & chs' & H1 & H2 & _).
  exists e', chs'. split; [exact H1|exact H2].
Defined.
Lemma emit_plans_witness :
  NoDup ((λ x, ch (lst x)) <$> plan path_match o (λ _, o) e1 t [VInt 1]).
Proof. destruct (emit_plans path_match o (λ _, o) e1 chs1 t [VInt 1] o_permutes e1_inv) as [H _]. exact H. Defined.
Lemma channel_fifo_witness : ∃ p p' s, chans w1 !! 0%nat = Some p ∧ history p' = history p ++ s.
Proof.
  destruct (step path_match w1 (ARecv 0)) as [w2|] eqn:Hs; [|by vm_compute in Hs].
  destruct (chans w1 !! 0%nat) as [p|] eqn:Hp; [|by vm_compute in Hp].
  destruct (channel_fifo path_match (New 2) w1 w2 (ARecv 0) 0 p eq_refl w1_reach I Hs Hp)
    as (p' & s & _ & H & _).
  exists p, p', s. split; [exact eq_refl|exact H].
Defined.
Lemma getter_default_witness : Int (mkEvent [] [] 0 [VInt 7]) 0 [5] = Some 7.
Proof.
  pose proof (getter_default (λ v, match v with VInt z => Some z | _ => None end) 0
    (mkEvent [] [] 0 [VInt 7]) 0 [5]) as H. unfold Int. rewrite H; [reflexivity|lia|].
  unfold zlen. simpl. lia.
Defined.
End emitter_example.
