(* ===== verification/HeaderScan.v ===== *)
(** * The scanner of header lines reads only what it consumes

    Lemmas about nextLine, headerScanner.next and readRawHeaders of
    src/pkg/protocol/http/v1/header.go: each result depends on the bytes up to the
    end of what was scanned only, so that it stays the same when other bytes follow;
    and the scanner, which normalizes names in the buffer it reads, finds the same
    lines when it starts again on what it left there.

    [scan] is the loop [for s.next()] of the two functions parseHeaders; [scan_effect]
    is the buffer after it. *)
From S2P Require Import Prelude BytesConv Args HttpUri HttpCookie HttpHeader HttpRequest HttpResponse HttpCodec.

(** ** The loop over the lines *)

Fixpoint scan (fuel : nat) (dis : bool) (b : bytes) : list (bytes * bytes) * option bytes :=
  match fuel with
  | O => ([], None)
  | S fuel =>
      match header_next dis b with
      | SLine k v b' => let '(l, o) := scan fuel dis b' in ((k, v) :: l, o)
      | SEnd b' => ([], Some b')
      | SNeedMore => ([], None)
      end
  end.

(** The buffer after the loop: [s.key] is a part of it, and is normalized in place. *)
Fixpoint scan_effect (fuel : nat) (dis : bool) (b : bytes) : bytes :=
  match fuel with
  | O => b
  | S fuel =>
      if bool_decide (take 2 b = StrCRLF) then b
      else if bool_decide (take 1 b = [LF]) then b
      else match IndexByte b ":"%byte with
           | None => b
           | Some n =>
               let key := normalizeHeaderKey (take n b) dis in
               let t := trim_left (drop (n + 1) b) in
               match IndexByte t LF with
               | None => key ++ drop n b
               | Some m =>
                   let rest := drop (m + 1) t in
                   key ++ drop n (take (length b - length rest) b) ++ scan_effect fuel dis rest
               end
           end
  end.

Lemma request_scan fuel dis b r :
  RequestHeader.parse_lines fuel dis b r =
    (foldl (λ r kv, RequestHeader.header_case kv.1 kv.2 r) r (scan fuel dis b).1, (scan fuel dis b).2).
Proof.
  revert b r. induction fuel as [|fuel IH]; intros b r; [done|]. simpl.
  destruct (header_next dis b) as [k v b'| |]; [|done..]. rewrite IH. by destruct (scan fuel dis b').
Qed.
Lemma response_scan fuel dis b r :
  ResponseHeader.parse_lines fuel dis b r =
    (foldl (λ r kv, ResponseHeader.header_case kv.1 kv.2 r) r (scan fuel dis b).1, (scan fuel dis b).2).
Proof.
  revert b r. induction fuel as [|fuel IH]; intros b r; [done|]. simpl.
  destruct (header_next dis b) as [k v b'| |]; [|done..]. rewrite IH. by destruct (scan fuel dis b').
Qed.

Lemma scan_fuel f f' dis b : (length b < f)%nat → (length b < f')%nat → scan f dis b = scan f' dis b.
Proof.
  revert f' b. induction f as [|f IH]; intros f' b Hf Hf'; [lia|]. destruct f' as [|f']; [lia|]. simpl.
  pose proof (header_next_shorter dis b) as Hs. destruct (header_next dis b) as [k v b'| |]; try done.
  by rewrite (IH f') by lia.
Qed.

(** ** Bytes that end a line or a name are kept by normalization *)

Definition alike (a c : byte) : Prop :=
  (a =b CR) = (c =b CR) ∧ (a =b LF) = (c =b LF) ∧ (a =b ":"%byte) = (c =b ":"%byte).

Lemma upper_alike c : alike c (ToUpperTable c).
Proof. revert c. refine (byte_forall_dec _ _). vm_compute. reflexivity. Qed.
Lemma lower_alike c : alike c (ToLowerTable c).
Proof. revert c. refine (byte_forall_dec _ _). vm_compute. reflexivity. Qed.

Lemma normalize_rest_alike b : Forall2 alike b (normalize_rest b).
Proof.
  induction b as [|c|c d r IH IH'] using normalize_ind; [constructor| |].
  - simpl. case_if; repeat constructor; [done..|apply lower_alike| |]; apply lower_alike.
  - cbn [normalize_rest]. case_if.
    + constructor; [done|]. constructor; [apply upper_alike|done].
    + constructor; [apply lower_alike|done].
Qed.
Lemma normalize_alike b dis : Forall2 alike b (normalizeHeaderKey b dis).
Proof.
  unfold normalizeHeaderKey. destruct dis; [by apply Forall_Forall2_diag, Forall_true|].
  destruct b; constructor; [apply upper_alike|apply normalize_rest_alike].
Qed.

Lemma alike_elem a b c : Forall2 alike a b → c = CR ∨ c = LF ∨ c = ":"%byte → c ∈ a ↔ c ∈ b.
Proof.
  intros H Hc. induction H as [|x y a b (H1 & H2 & H3) _ IH]; [done|]. rewrite !elem_of_cons, IH.
  assert (Hxy : c = x ↔ c = y); [|by rewrite Hxy].
  destruct Hc as [->|[->| ->]]; repeat case_bool_decide; try done; naive_solver.
Qed.

(** How a block of lines begins. *)
Definition ends (b : bytes) : bool := bool_decide (take 2 b = StrCRLF) || bool_decide (take 1 b = [LF]).

Lemma alike_ends a b t : Forall2 alike a b → ends (a ++ ":"%byte :: t) = ends (b ++ ":"%byte :: t).
Proof.
  intros H. unfold ends, StrCRLF. inversion H as [|x y a' b' (H1 & H2 & _) H']; subst; simpl; [done|].
  inversion H' as [|x' y' a'' b'' (_ & H3 & _) _]; subst; simpl.
  - repeat case_bool_decide; naive_solver.
  - repeat case_bool_decide; simplify_eq; naive_solver.
Qed.

(** ** One line *)

Lemma trim_left_split t : ∃ sp, t = sp ++ trim_left t ∧
  ∀ w, trim_left t ≠ [] → head w = head (trim_left t) → trim_left (sp ++ w) = w.
Proof.
  induction t as [|c t (sp & IH1 & IH2)]; [by exists []|]. simpl. case_if.
  - exists (c :: sp). simpl. rewrite <- IH1. split; [done|]. intros w H1 H2. rewrite Hif.
    rewrite bool_decide_true by done. by apply IH2.
  - exists []. split; [done|]. intros w _ Hw. destruct w as [|c' w]; [done|]. simpl in *.
    injection Hw as ->. by rewrite bool_decide_false.
Qed.

Lemma header_next_ends dis b : ends b = true →
  ∃ u rest, b = u ++ rest ∧ u ≠ [] ∧ ∀ x, ends (u ++ x) = true ∧ header_next dis (u ++ x) = SEnd x.
Proof.
  unfold ends, header_next. intros [H|H]%orb_true_iff; bdec.
  - exists StrCRLF, (drop 2 b). split; [by rewrite <- H, take_drop|done].
  - exists [LF], (drop 1 b). split; [by rewrite <- H, take_drop|]. split; [done|]. intros x. simpl.
    split; [done|]. by destruct x.
Qed.

Lemma header_next_not_ends dis b : ends b = false → header_next dis b =
  match IndexByte b ":"%byte with
  | None => SNeedMore
  | Some n =>
      let t := trim_left (drop (n + 1) b) in
      match IndexByte t LF with
      | None => SNeedMore
      | Some m => SLine (normalizeHeaderKey (take n b) dis) (trim_right (strip_last CR (take m t)))
                    (drop (m + 1) t)
      end
  end.
Proof. unfold ends, header_next. intros [H1 H2]%orb_false_iff. by rewrite H1, H2. Qed.

(** A line from its name on. *)
Lemma header_next_name dis kb t : ":"%byte ∉ kb → ends (kb ++ ":"%byte :: t) = false →
  header_next dis (kb ++ ":"%byte :: t) =
    match IndexByte (trim_left t) LF with
    | None => SNeedMore
    | Some m => SLine (normalizeHeaderKey kb dis) (trim_right (strip_last CR (take m (trim_left t))))
                  (drop (m + 1) (trim_left t))
    end.
Proof.
  intros Hk He. rewrite header_next_not_ends, IndexByte_app by done.
  rewrite take_app_length, drop_app_ge by lia.
  replace (length kb + 1 - length kb)%nat with 1%nat by lia. done.
Qed.

(** It is found again, with the same name, when the name has been normalized. *)
Lemma header_next_normalized dis kb t : ":"%byte ∉ kb → ends (kb ++ ":"%byte :: t) = false →
  let kb' := normalizeHeaderKey kb dis in
  ":"%byte ∉ kb' ∧ ends (kb' ++ ":"%byte :: t) = false ∧
  header_next dis (kb' ++ ":"%byte :: t) = header_next dis (kb ++ ":"%byte :: t).
Proof.
  intros Hk He kb'. pose proof (normalize_alike kb dis) as Ha.
  assert (Hk' : ":"%byte ∉ kb'). { intros Hin. apply Hk. apply (alike_elem _ _ ":"%byte Ha); [tauto|exact Hin]. }
  assert (He' : ends (kb' ++ ":"%byte :: t) = false). { unfold kb'. by rewrite <- (alike_ends _ _ t Ha). }
  split_and!; [done..|]. rewrite !header_next_name by done. unfold kb'.
  by rewrite normalizeHeaderKey_idem.
Qed.

(** A complete line: its name, and the rest of it up to the line feed. *)
Lemma header_next_line_parts dis b k v rest : header_next dis b = SLine k v rest →
  ∃ kb tl, b = kb ++ ":"%byte :: tl ++ rest ∧ ":"%byte ∉ kb ∧ tl ≠ [] ∧
    k = normalizeHeaderKey kb dis ∧
    (∀ x, ends (kb ++ ":"%byte :: tl ++ x) = false ∧
       IndexByte (trim_left (tl ++ x)) LF = IndexByte (trim_left (tl ++ rest)) LF ∧
       IndexByte (trim_left (tl ++ rest)) LF ≠ None ∧
       header_next dis (kb ++ ":"%byte :: tl ++ x) = SLine k v x).
Proof.
  destruct (ends b) eqn:He.
  { destruct (header_next_ends dis b He) as (u & r & -> & _ & Hx). destruct (Hx r) as [_ ->]. done. }
  rewrite header_next_not_ends by done.
  destruct (IndexByte b ":"%byte) as [n|] eqn:Hn; [|done].
  apply IndexByte_Some in Hn as [Hb Hk]. set (kb := take n b) in *.
  assert (Hnk : length kb = n).
  { apply (f_equal length) in Hb. rewrite length_app in Hb. simpl in Hb. unfold kb in *.
    rewrite length_take, length_drop in *. lia. }
  replace (drop (n + 1) b) with (drop (S n) b) by (f_equal; lia). set (t := drop (S n) b) in *.
  destruct (trim_left_split t) as (sp & Ht & Hsp). cbv zeta.
  destruct (IndexByte (trim_left t) LF) as [m|] eqn:Hm; [|done]. intros [= <- <- <-].
  pose proof Hm as Hm0. apply IndexByte_Some in Hm as [Hw Hlf]. set (w := trim_left t) in *.
  set (vl := take m w) in *. assert (Hml : length vl = m).
  { apply (f_equal length) in Hw. rewrite length_app in Hw. simpl in Hw. unfold vl in *.
    rewrite length_take, length_drop in *. lia. }
  replace (drop (m + 1) w) with (drop (S m) w) by (f_equal; lia). set (rest := drop (S m) w) in *.
  assert (Htrim : ∀ x, trim_left ((sp ++ vl ++ [LF]) ++ x) = vl ++ LF :: x).
  { intros x. rewrite <- !app_assoc. simpl. apply Hsp; rewrite Hw; [by destruct vl|by destruct vl]. }
  exists kb, (sp ++ vl ++ [LF]). split_and!; [| done | by destruct sp, vl | done |].
  - rewrite Hb at 1. f_equal. f_equal. rewrite Ht, Hw at 1. by rewrite <- !app_assoc.
  - intros x.
    assert (He' : ends (kb ++ ":"%byte :: (sp ++ vl ++ [LF]) ++ x) = false).
    { rewrite <- He. transitivity (ends (kb ++ ":"%byte :: t)); [|by rewrite <- Hb].
      clearbody kb t. unfold ends. destruct kb as [|c1 [|c2 kb']]; simpl; done. }
    rewrite !Htrim, !IndexByte_app by done. split_and!; [done..|].
    rewrite header_next_name by done. rewrite Htrim, IndexByte_app by done.
    rewrite take_app_length, drop_app_ge, Hml by lia.
    replace (m + 1 - m)%nat with 1%nat by lia. done.
Qed.

Lemma header_next_SEnd dis b r : header_next dis b = SEnd r → ends b = true.
Proof.
  intros Hn. destruct (ends b) eqn:He; [done|]. rewrite header_next_not_ends in Hn by done.
  destruct (IndexByte b ":"%byte); [|done]. cbv zeta in Hn. by destruct (IndexByte _ LF).
Qed.

(** ** All lines *)

Lemma scan_local dis b l rest f : (length b < f)%nat → scan f dis b = (l, Some rest) →
  ∃ u, b = u ++ rest ∧ u ≠ [] ∧ ∀ x f', (length (u ++ x) < f')%nat → scan f' dis (u ++ x) = (l, Some x).
Proof.
  revert b l. induction f as [|f IH]; intros b l Hf; [done|]. simpl.
  pose proof (header_next_shorter dis b) as Hsh.
  destruct (header_next dis b) as [k v b'|b'|] eqn:Hn; [| |done].
  - destruct (scan f dis b') as [l' o] eqn:Hs. intros [= <- ->].
    destruct (IH b' l' ltac:(lia) Hs) as (u & -> & Hu & Hx).
    destruct (header_next_line_parts dis b k v _ Hn) as (kb & tl & -> & _ & _ & _ & Hline).
    exists (kb ++ ":"%byte :: tl ++ u). split_and!; [by rewrite <- !app_assoc; simpl; rewrite <- !app_assoc|by destruct kb|].
    intros x f' Hf'. rewrite <- !app_assoc in *. simpl in *. rewrite <- !app_assoc in *.
    destruct f' as [|f']; [lia|]. simpl. destruct (Hline (u ++ x)) as (_ & _ & _ & ->).
    rewrite (Hx x f'); [done|]. rewrite length_app in *. simpl in *. rewrite !length_app in *. lia.
  - intros [= <- ->]. pose proof (header_next_SEnd dis b _ Hn) as He.
    destruct (header_next_ends dis b He) as (u & r & -> & Hu & Hx).
    destruct (Hx r) as [_ Hr]. rewrite Hr in Hn. injection Hn as ->.
    exists u. split_and!; [done..|]. intros x f' Hf'. destruct f' as [|f']; [lia|]. simpl.
    by destruct (Hx x) as [_ ->].
Qed.

Lemma scan_effect_ends f dis b : ends b = true → scan_effect f dis b = b.
Proof.
  destruct f; [done|]. unfold ends. cbn [scan_effect].
  destruct (bool_decide (take 2 b = StrCRLF)); [done|]. cbn [orb]. by intros ->.
Qed.

Lemma scan_effect_not_ends f dis kb t : ":"%byte ∉ kb → ends (kb ++ ":"%byte :: t) = false →
  scan_effect (S f) dis (kb ++ ":"%byte :: t) =
    match IndexByte (trim_left t) LF with
    | None => normalizeHeaderKey kb dis ++ ":"%byte :: t
    | Some m =>
        let rest := drop (m + 1) (trim_left t) in
        normalizeHeaderKey kb dis ++ ":"%byte :: take (length t - length rest) t ++ scan_effect f dis rest
    end.
Proof.
  unfold ends. intros Hk [H1 H2]%orb_false_iff. cbn [scan_effect]. rewrite H1, H2, IndexByte_app by done.
  rewrite take_app_length, drop_app_ge by lia.
  replace (length kb + 1 - length kb)%nat with 1%nat by lia. cbn [drop]. rewrite !drop_0. cbv zeta.
  destruct (IndexByte (trim_left t) LF) as [m|]; [|by rewrite drop_app_length].
  set (rest := drop (m + 1) (trim_left t)).
  assert (Hr : (length rest ≤ length t)%nat).
  { unfold rest. rewrite length_drop. pose proof (trim_left_le t). lia. }
  f_equal. rewrite length_app. cbn [length].
  replace (length kb + S (length t) - length rest)%nat with (length kb + S (length t - length rest))%nat by lia.
  rewrite take_app_add, drop_app_length. done.
Qed.

Lemma scan_effect_line f dis b k v rest : header_next dis b = SLine k v rest →
  ∃ kb tl, b = kb ++ ":"%byte :: tl ++ rest ∧
    scan_effect (S f) dis b = normalizeHeaderKey kb dis ++ ":"%byte :: tl ++ scan_effect f dis rest ∧
    ∀ x, header_next dis (normalizeHeaderKey kb dis ++ ":"%byte :: tl ++ x) = SLine k v x ∧
         header_next dis (kb ++ ":"%byte :: tl ++ x) = SLine k v x.
Proof.
  intros Hn. destruct (header_next_line_parts dis b k v rest Hn) as (kb & tl & -> & Hk & _ & Hkey & Hx).
  exists kb, tl. split; [done|]. split.
  - destruct (Hx rest) as (He & _ & Hi & Hn'). rewrite scan_effect_not_ends by done.
    rewrite header_next_name in Hn' by done. destruct (IndexByte _ LF) as [m|]; [|done].
    injection Hn' as _ _ Hr. cbv zeta. rewrite Hr, length_app.
    replace (length tl + length rest - length rest)%nat with (length tl) by lia.
    by rewrite take_app_length.
  - intros x. destruct (Hx x) as (He & _ & _ & Hline). split; [|done].
    destruct (header_next_normalized dis kb (tl ++ x) Hk He) as (_ & _ & ->). done.
Qed.

(** The scanner finds the same lines in what it has left, whatever follows. *)
Lemma scan_effect_again f dis b : (length b < f)%nat → (scan f dis b).2 = None →
  ∀ x f', (length (b ++ x) < f')%nat → scan f' dis (scan_effect f dis b ++ x) = scan f' dis (b ++ x).
Proof.
  revert b. induction f as [|f IH]; intros b Hf; [done|]. cbn [scan].
  pose proof (header_next_shorter dis b) as Hsh.
  destruct (header_next dis b) as [k v b'|b'|] eqn:Hn; [|done|].
  - intros Hs x f' Hf'. destruct (scan_effect_line f dis b k v b' Hn) as (kb & tl & -> & -> & Hx).
    destruct f' as [|f']; [lia|]. rewrite <- !app_assoc in *. simpl. rewrite <- !app_assoc.
    destruct (Hx (scan_effect f dis b' ++ x)) as [-> _]. destruct (Hx (b' ++ x)) as [_ ->].
    rewrite IH; [done|lia| |].
    + by destruct (scan f dis b').
    + rewrite length_app in Hf'. simpl in Hf'. rewrite !length_app in *. lia.
  - intros _ x f' Hf'. destruct f' as [|f']; [lia|].
    destruct (ends b) eqn:He; [by rewrite scan_effect_ends|].
    destruct (IndexByte b ":"%byte) as [n|] eqn:Hi.
    + apply IndexByte_Some in Hi as [Hb Hk]. set (kb := take n b) in *. set (t := drop (S n) b) in *.
      clearbody kb t. subst b. rewrite scan_effect_not_ends by done.
      rewrite header_next_name in Hn by done. destruct (IndexByte (trim_left t) LF); [done|].
      rewrite <- !app_assoc. simpl.
      assert (He' : ends (kb ++ ":"%byte :: t ++ x) = false).
      { rewrite <- He. unfold ends. by destruct kb as [|c1 [|c2 kb']]. }
      by destruct (header_next_normalized dis kb (t ++ x) Hk He') as (_ & _ & ->).
    + simpl. unfold ends in He. apply orb_false_iff in He as [H1 H2]. by rewrite H1, H2, Hi.
Qed.

Lemma normalize_length b dis : length (normalizeHeaderKey b dis) = length b.
Proof. symmetry. eapply Forall2_length, normalize_alike. Qed.

(** What the scanner leaves is as long, has its line ends where they were, and is as
    before from the end of the lines on. *)
Lemma scan_effect_alike f dis b : (length b < f)%nat → Forall2 alike b (scan_effect f dis b).
Proof.
  assert (Hrefl : ∀ l : bytes, Forall2 alike l l) by (intros l; apply Forall_Forall2_diag, Forall_true; done).
  revert b. induction f as [|f IH]; intros b Hf; [lia|].
  destruct (ends b) eqn:He; [by rewrite scan_effect_ends|].
  pose proof (header_next_shorter dis b) as Hsh.
  destruct (header_next dis b) as [k v b'|b'|] eqn:Hn.
  - destruct (scan_effect_line f dis b k v b' Hn) as (kb & tl & -> & -> & _).
    apply Forall2_app; [apply normalize_alike|]. constructor; [done|]. apply Forall2_app; [done|].
    apply IH. lia.
  - apply header_next_SEnd in Hn. congruence.
  - rewrite header_next_not_ends in Hn by done.
    destruct (IndexByte b ":"%byte) as [n|] eqn:Hi.
    + apply IndexByte_Some in Hi as [Hb Hk]. set (kb := take n b) in *. set (t := drop (S n) b) in *.
      assert (Hd : drop (n + 1) b = t) by (unfold t; f_equal; lia). rewrite Hd in Hn.
      clearbody kb t. clear Hd. subst b. rewrite scan_effect_not_ends by done.
      cbv zeta in Hn. destruct (IndexByte (trim_left t) LF); [done|].
      apply Forall2_app; [apply normalize_alike|done].
    + simpl. unfold ends in He. apply orb_false_iff in He as [H1 H2]. by rewrite H1, H2, Hi.
Qed.

Lemma scan_effect_rest f dis b l rest : (length b < f)%nat → scan f dis b = (l, Some rest) →
  ∃ u, scan_effect f dis b = u ++ rest.
Proof.
  revert b l. induction f as [|f IH]; intros b l Hf; [done|]. cbn [scan].
  pose proof (header_next_shorter dis b) as Hsh.
  destruct (header_next dis b) as [k v b'|b'|] eqn:Hn; [| |done].
  - destruct (scan f dis b') as [l' o] eqn:Hs. intros [= <- ->].
    destruct (scan_effect_line f dis b k v b' Hn) as (kb & tl & _ & -> & _).
    destruct (IH b' l' ltac:(lia) Hs) as (u & ->). eexists. by rewrite !app_comm_cons, !app_assoc.
  - intros [= <- ->]. pose proof (header_next_SEnd dis b _ Hn) as He.
    rewrite scan_effect_ends by done. destruct (header_next_ends dis b He) as (u & r & -> & _ & Hx).
    destruct (Hx r) as [_ Hr]. rewrite Hr in Hn. injection Hn as ->. by exists u.
Qed.

(** ** The first line *)

Lemma IndexByte_take b c n x : IndexByte b c = Some n →
  length (take (n + 1) b) = (n + 1)%nat ∧ b = take (n + 1) b ++ drop (n + 1) b ∧
  IndexByte (take (n + 1) b ++ x) c = Some n ∧ take n (take (n + 1) b ++ x) = take n b.
Proof.
  intros Hi. pose proof (IndexByte_lt _ _ _ Hi) as Hlt. apply IndexByte_Some in Hi as [Hb Hc].
  assert (Hl : length (take n b) = n) by (rewrite length_take; lia).
  assert (Htk : take (n + 1) b = take n b ++ [c]).
  { rewrite Hb at 1. rewrite take_app, Hl, (take_ge (take n b)) by lia.
    replace (n + 1 - n)%nat with 1%nat by lia. done. }
  rewrite Htk. split_and!.
  - rewrite length_app. simpl. lia.
  - rewrite <- Htk. by rewrite take_drop.
  - rewrite <- app_assoc. simpl. rewrite IndexByte_app by done. by rewrite Hl.
  - rewrite <- app_assoc. rewrite <- Hl at 1. by rewrite take_app_length.
Qed.

Lemma nextLine_local b l rest : nextLine b = Some (l, rest) →
  ∃ u, b = u ++ rest ∧ u ≠ [] ∧ ∀ x, nextLine (u ++ x) = Some (l, x).
Proof.
  unfold nextLine. destruct (IndexByte b LF) as [n|] eqn:Hi; [|done]. intros [= <- <-].
  destruct (IndexByte_take b LF n [] Hi) as (Hl & Hb & _).
  exists (take (n + 1) b). split_and!; [done|by destruct (take (n + 1) b); simpl in *; [lia|]|].
  intros x. destruct (IndexByte_take b LF n x Hi) as (_ & _ & -> & ->).
  by rewrite drop_app_length' by done.
Qed.

Lemma first_line_local f b l rest : (length b < f)%nat →
  RequestHeader.first_line f b = Some (l, rest) →
  ∃ u, b = u ++ rest ∧ u ≠ [] ∧
    ∀ x f', (length (u ++ x) < f')%nat → RequestHeader.first_line f' (u ++ x) = Some (l, x).
Proof.
  revert b. induction f as [|f IH]; intros b Hf; [done|]. cbn [RequestHeader.first_line].
  destruct (nextLine b) as [[l1 r1]|] eqn:Hn; [|done].
  pose proof (nextLine_shorter _ _ _ Hn) as Hsh.
  destruct (nextLine_local _ _ _ Hn) as (u1 & -> & Hu1 & Hx1). destruct (zlen l1 =? 0) eqn:Hz.
  - intros Hf1. destruct (IH r1 ltac:(lia) Hf1) as (u2 & -> & Hu2 & Hx2).
    exists (u1 ++ u2). split_and!; [by rewrite app_assoc|by destruct u1|].
    intros x f' Hf'. destruct f' as [|f']; [lia|]. cbn [RequestHeader.first_line].
    rewrite <- app_assoc in *. rewrite Hx1, Hz. apply Hx2.
    destruct u1; [done|]. rewrite length_app in Hf'. simpl in Hf'. lia.
  - intros [= -> ->]. exists u1. split_and!; [done..|].
    intros x f' Hf'. destruct f' as [|f']; [lia|]. cbn [RequestHeader.first_line]. by rewrite Hx1, Hz.
Qed.

(** ** Raw headers *)

Lemma readRawHeaders_loop_local f n b k : (length b < f)%nat → readRawHeaders_loop f n b = Some k →
  ∃ u rest, b = u ++ rest ∧ k = (n + length u)%nat ∧
    ∀ x f', (length (u ++ x) < f')%nat → readRawHeaders_loop f' n (u ++ x) = Some k.
Proof.
  revert n b. induction f as [|f IH]; intros n b Hf; [done|]. cbn [readRawHeaders_loop].
  destruct (IndexByte b LF) as [m|] eqn:Hi; [|done].
  pose proof (IndexByte_lt _ _ _ Hi) as Hlt. replace (S m) with (m + 1)%nat by lia.
  destruct (IndexByte_take b LF m [] Hi) as (Hl & Hb & _). set (u1 := take (m + 1) b) in *.
  assert (Hhd : ∀ x, head (u1 ++ x) = head b).
  { intros x. unfold u1. destruct b; [simpl in Hlt; lia|]. by rewrite Nat.add_comm. }
  assert (Hx1 : ∀ x, IndexByte (u1 ++ x) LF = Some m).
  { intros x. by destruct (IndexByte_take b LF m x Hi) as (_ & _ & Hx & _). }
  destruct (((m + 1 =? 2)%nat && bool_decide (head b = Some CR)) || (m + 1 =? 1)%nat) eqn:Hc.
  - intros [= <-]. exists u1, (drop (m + 1) b). split_and!; [done|lia|].
    intros x f' Hf'. destruct f' as [|f']; [lia|]. cbn [readRawHeaders_loop].
    rewrite Hx1, Hhd. cbv zeta. replace (S m) with (m + 1)%nat by lia. by rewrite Hc.
  - intros Hr. destruct (IH (n + (m + 1))%nat (drop (m + 1) b)) as (u2 & rest & Hd & -> & Hx2); [|done|].
    { rewrite length_drop. lia. }
    exists (u1 ++ u2), rest. split_and!; [by rewrite <- app_assoc, <- Hd|rewrite length_app; lia|].
    intros x f' Hf'. destruct f' as [|f']; [lia|]. cbn [readRawHeaders_loop].
    rewrite <- app_assoc in *. rewrite Hx1, Hhd. cbv zeta. replace (S m) with (m + 1)%nat by lia. rewrite Hc.
    rewrite drop_app_length' by done. apply Hx2. rewrite length_app in Hf'. lia.
Qed.

Lemma readRawHeaders_local b raw k : readRawHeaders [] b = Some (raw, k) →
  ∃ u rest, b = u ++ rest ∧ k = length u ∧ ∀ x, readRawHeaders [] (u ++ x) = Some (raw, k).
Proof.
  unfold readRawHeaders. destruct (IndexByte b LF) as [n|] eqn:Hi; [|done].
  pose proof (IndexByte_lt _ _ _ Hi) as Hlt.
  destruct (IndexByte_take b LF n [] Hi) as (Hl & Hb & _). set (u1 := take (n + 1) b) in *.
  assert (Hhd : ∀ x, head (u1 ++ x) = head b).
  { intros x. unfold u1. destruct b; [simpl in Hlt; lia|]. by rewrite Nat.add_comm. }
  assert (Hx1 : ∀ x, IndexByte (u1 ++ x) LF = Some n).
  { intros x. by destruct (IndexByte_take b LF n x Hi) as (_ & _ & Hx & _). }
  destruct (((n =? 1)%nat && bool_decide (head b = Some CR)) || (n =? 0)%nat) eqn:Hc.
  - intros [= <- <-]. exists u1, (drop (n + 1) b). split_and!; [done|lia|]. intros x. by rewrite Hx1, Hhd, Hc.
  - destruct (readRawHeaders_loop _ _ _) as [k'|] eqn:Hr; [|done]. cbn [mbind option_bind].
    intros [= <- <-]. replace (S n) with (n + 1)%nat in Hr by lia.
    destruct (readRawHeaders_loop_local (length b) (n + 1) (drop (n + 1) b) k')
      as (u2 & rest & Hd & -> & Hx2); [rewrite length_drop; lia|done|].
    exists (u1 ++ u2), rest. split_and!; [by rewrite <- app_assoc, <- Hd|rewrite length_app; lia|].
    intros x. rewrite <- app_assoc, Hx1, Hhd, Hc. replace (S n) with (n + 1)%nat by lia.
    rewrite drop_app_length', Hx2 by (rewrite ?length_app; lia).
    cbn [mbind option_bind]. f_equal. f_equal.
    assert (Hall : b = (u1 ++ u2) ++ rest) by by rewrite <- app_assoc, <- Hd.
    rewrite app_assoc, take_app_length' by (rewrite length_app; lia).
    clearbody u1. rewrite Hall, take_app_length' by (rewrite length_app; lia). done.
Qed.
