(* ===== verification/HeaderRead.v ===== *)
(** * Reading a header from a bufio.Reader

    src/pkg/protocol/http/v1/header.go: Read and tryRead of RequestHeader and
    ResponseHeader, headerError, headerErrorMsg, bufferSnippet, mustPeekBuffered and
    mustDiscard.  The part of bufio.Reader they use (Peek, Buffered, Discard) is
    modelled over a script of what the reads of the connection give.

    Both headers are read by the same code; it is written once, over the class
    [HeaderParser] of what it needs of a header (Reset, Parse and what Parse does to
    the bytes it is given: the names of the lines are normalized in place).  The
    class [ParserLaws] is what a header promises: the result depends on the bytes it
    consumes only, a definite error stays one when more bytes come, what an earlier
    attempt left behind in the header and in the buffer does not matter.

    The theorems: Read returns; however the bytes are split over reads, it gives the
    header that Parse gives on all of them, and leaves the reader at the byte after
    it; a header that the buffer cannot hold and a connection that ends give the
    errors the code names. *)
From S2P Require Import Prelude BytesConv Args HttpUri HttpCookie HttpHeader HttpRequest HttpResponse HttpCodec HeaderScan.

(** ** bufio.Reader *)

Inductive ioErr := EOF | ErrNoProgress | ErrBufferFull | ErrOther (n : nat).
#[export] Instance ioErr_eq_dec : EqDecision ioErr.
Proof. solve_decision. Defined.

(** What the reads of the connection will give, in order; then it is at its end. *)
Abbreviation source := (list (bytes * option ioErr)).

(** One Read into [k] bytes: what does not fit comes with the next one. *)
Definition src_read (k : nat) (s : source) : bytes * option ioErr * source :=
  match s with
  | [] => ([], Some EOF, [])
  | (d, e) :: s' =>
      if bool_decide (length d ≤ k)%nat then (d, e, s') else (take k d, None, (drop k d, e) :: s')
  end.

Record Reader := mkReader { rbuf : bytes; rsize : nat; rerr : option ioErr; rsrc : source }.

Definition maxConsecutiveEmptyReads : nat := 100.

Fixpoint fill_loop (tries : nat) (r : Reader) : Reader :=
  match tries with
  | O => mkReader (rbuf r) (rsize r) (Some ErrNoProgress) (rsrc r)
  | S tries =>
      let '(d, e, s) := src_read (rsize r - length (rbuf r)) (rsrc r) in
      let r' := mkReader (rbuf r ++ d) (rsize r) e s in
      match e with
      | Some _ => r'
      | None => if bool_decide (0 < length d)%nat then r' else fill_loop tries r'
      end
  end.
Definition fill (r : Reader) : Reader := fill_loop maxConsecutiveEmptyReads r.

(** Every round adds a byte or sets the error, so that [S (rsize r)] are enough. *)
Fixpoint Peek_loop (fuel n : nat) (r : Reader) : Reader :=
  match fuel with
  | O => r
  | S fuel =>
      if bool_decide (length (rbuf r) < n)%nat && bool_decide (length (rbuf r) < rsize r)%nat
         && bool_decide (rerr r = None)
      then Peek_loop fuel n (fill r) else r
  end.
Definition Peek (n : nat) (r : Reader) : bytes * option ioErr * Reader :=
  let r := Peek_loop (S (rsize r)) n r in
  if bool_decide (rsize r < n)%nat then (rbuf r, Some ErrBufferFull, r)
  else if bool_decide (length (rbuf r) < n)%nat
       then (rbuf r, Some (default ErrBufferFull (rerr r)), mkReader (rbuf r) (rsize r) None (rsrc r))
       else (take n (rbuf r), None, r).
Definition Buffered (r : Reader) : nat := length (rbuf r).

(** Discard of bytes that are buffered; more are never asked for ([None]). *)
Definition Discard (n : nat) (r : Reader) : option Reader :=
  if bool_decide (n ≤ length (rbuf r))%nat
  then Some (mkReader (drop n (rbuf r)) (rsize r) (rerr r) (rsrc r)) else None.

(** ** Reading a header *)

Class HeaderParser (H E : Type) := {
  hparse : bytes → H → H * res E nat;
  hreset : H → H;
  (** [err == errNeedMore] *)
  hneed : E → bool;
  (** the bytes after hparse, which may write to them *)
  heffect : bytes → H → bytes
}.

(** The causes a message gives. *)
Inductive cause (E : Type) := CParse (e : E) | CIo (e : ioErr) | CSmallBuffer.
Arguments CParse {E} e.
Arguments CIo {E} e.
Arguments CSmallBuffer {E}.

(** bufferSnippet: all of the bytes, or the first and the last 200. *)
Definition bufferSnippet (b : bytes) : bytes * option bytes :=
  let n := zlen b in
  let start := 200 in
  let end_ := n - start in
  let '(start, end_) := if bool_decide (start >= end_) then (n, n) else (start, end_) in
  let bStart := take (Z.to_nat start) b in
  let bEnd := drop (Z.to_nat end_) b in
  if bool_decide (zlen bEnd = 0) then (b, None) else (bStart, Some bEnd).

(** io.EOF; the message of headerErrorMsg; the same in an ErrSmallBuffer; the two
    messages of tryRead without bytes. *)
Inductive readErr (E : Type) :=
| REOF
| RMsg (err : cause E) (size : Z) (contents : bytes * option bytes)
| RSmall (err : cause E) (size : Z) (contents : bytes * option bytes)
| RSmallEmpty
| REmpty (err : option ioErr).
Arguments REOF {E}.
Arguments RMsg {E} err size contents.
Arguments RSmall {E} err size contents.
Arguments RSmallEmpty {E}.
Arguments REmpty {E} err.

(** What tryRead returns: nil, errNeedMore, an error, or a panic. *)
Inductive tried (E : Type) := TOk | TNeedMore | TErr (e : readErr E) | TPanic.
Arguments TOk {E}.
Arguments TNeedMore {E}.
Arguments TErr {E} e.
Arguments TPanic {E}.

Section read.
Context {H E : Type} `{HeaderParser H E}.

Definition headerErrorMsg (err : cause E) (b : bytes) : readErr E := RMsg err (zlen b) (bufferSnippet b).

Definition headerError (err : option ioErr) (errParse : E) (b : bytes) : tried E :=
  if negb (hneed errParse) then TErr (headerErrorMsg (CParse errParse) b)
  else match err with
       | None => TNeedMore
       | Some e =>
           if isOnlyCRLF b then TErr REOF
           else if negb (bool_decide (e = ErrBufferFull)) then TErr (headerErrorMsg (CIo e) b)
           else TErr (RSmall CSmallBuffer (zlen b) (bufferSnippet b))
       end.

(** [None] is the panic. *)
Definition mustPeekBuffered (r : Reader) : option (bytes * Reader) :=
  let '(buf, err, r) := Peek (Buffered r) r in
  if bool_decide (length buf = 0%nat) || bool_decide (err ≠ None) then None else Some (buf, r).
Definition mustDiscard (r : Reader) (n : nat) : option Reader := Discard n r.

(** Parse works on the reader's own buffer. *)
Definition set_rbuf (b : bytes) (r : Reader) : Reader := mkReader b (rsize r) (rerr r) (rsrc r).

Definition tryRead (h : H) (r : Reader) (n : nat) : tried E * H * Reader :=
  let h := hreset h in
  let '(b, err, r) := Peek n r in
  if bool_decide (length b = 0%nat) then
    (if bool_decide (n = 1%nat) || bool_decide (err = Some EOF) then TErr REOF
     else if bool_decide (err = Some ErrBufferFull) then TErr RSmallEmpty
     else TErr (REmpty err), h, r)
  else
    match mustPeekBuffered r with
    | None => (TPanic, h, r)
    | Some (b, r) =>
        let r := set_rbuf (heffect b h) r in
        match hparse b h with
        | (h, Err errParse) => (headerError err errParse (rbuf r), h, r)
        | (h, Ok headersLen) =>
            match mustDiscard r headersLen with
            | None => (TPanic, h, r)
            | Some r => (TOk, h, r)
            end
        end
    end.

(** Read: [Ok tt] is nil; [Err None] is a panic.  The outer [None] is a loop that has
    not ended after [fuel] rounds. *)
Fixpoint Read_loop (fuel : nat) (h : H) (r : Reader) (n : nat)
  : option (res (option (readErr E)) unit * H * Reader) :=
  match fuel with
  | O => None
  | S fuel =>
      match tryRead h r n with
      | (TOk, h, r) => Some (Ok tt, h, r)
      | (TErr e, h, r) => Some (Err (Some e), hreset h, r)
      | (TPanic, h, r) => Some (Err None, h, r)
      | (TNeedMore, h, r) => Read_loop fuel h r (Buffered r + 1)
      end
  end.
Definition Read (h : H) (r : Reader) : option (res (option (readErr E)) unit * H * Reader) :=
  Read_loop (rsize r + 2) h r 1.
End read.

(** ** What a header promises *)

Class ParserLaws (H E : Type) `{HeaderParser H E} := {
  (** what can be seen of a header *)
  heq : relation H;
  heq_equiv :: Equivalence heq;
  law_proper b h1 h2 : heq h1 h2 →
    heq (hparse b h1).1 (hparse b h2).1 ∧ (hparse b h1).2 = (hparse b h2).2;
  law_reset b h : heq (hreset (hparse b (hreset h)).1) (hreset h);
  law_local b h h' n : hparse b h = (h', Ok n) →
    (n ≤ length b)%nat ∧ ∀ x, hparse (take n b ++ x) h = (h', Ok n);
  law_error b h e : (hparse b h).2 = Err e → hneed e = false → ∀ x, (hparse (b ++ x) h).2 = Err e;
  law_effect_length b h : length (heffect b h) = length b;
  law_effect b h e : (hparse b h).2 = Err e → hneed e = true →
    ∀ x, hparse (heffect b h ++ x) h = hparse (b ++ x) h;
  law_effect_crlf b h : isOnlyCRLF (heffect b h) = isOnlyCRLF b;
  law_effect_rest b h h' n : hparse b h = (h', Ok n) → drop n (heffect b h) = drop n b
}.

(** ** The reader *)

(** The bytes that are still to come. *)
Definition data (r : Reader) : bytes := rbuf r ++ concat (fst <$> rsrc r).

(** At least [k] bytes come before an error, and no read gives nothing. *)
Fixpoint calm (k : nat) (s : source) : Prop :=
  match k with
  | O => True
  | S _ =>
      match s with
      | [] => False
      | (d, e) :: s' => d ≠ [] ∧ ((k ≤ length d)%nat ∨ e = None ∧ calm (k - length d) s')
      end
  end.
Definition ready (k : nat) (r : Reader) : Prop :=
  (length (rbuf r) ≤ rsize r)%nat ∧
  ((k ≤ length (rbuf r))%nat ∨ rerr r = None ∧ calm (k - length (rbuf r)) (rsrc r)).

(** How reading more changes a reader. *)
Definition extends (r r' : Reader) : Prop :=
  rsize r' = rsize r ∧ data r' = data r ∧ (∃ z, rbuf r' = rbuf r ++ z) ∧
  (length (rbuf r') ≤ rsize r')%nat.

Lemma extends_trans r1 r2 r3 : extends r1 r2 → extends r2 r3 → extends r1 r3.
Proof.
  intros (H1 & H2 & (z1 & H3) & H4) (H5 & H6 & (z2 & H7) & H8).
  split_and!; [congruence..| |done]. exists (z1 ++ z2). by rewrite H7, H3, app_assoc.
Qed.
Lemma extends_le r r' : extends r r' → (length (rbuf r) ≤ length (rbuf r'))%nat.
Proof. intros (_ & _ & (z & ->) & _). rewrite length_app. lia. Qed.

Lemma src_read_spec k s d e s' : src_read k s = (d, e, s') →
  (length d ≤ k)%nat ∧ d ++ concat (fst <$> s') = concat (fst <$> s).
Proof.
  unfold src_read. destruct s as [|[d0 e0] s0]; [by intros [= <- <- <-]; simpl; split; [lia|]|].
  case_if; intros [= <- <- <-]; simpl; [done|].
  rewrite length_take, app_assoc, take_drop. split; [lia|done].
Qed.

Lemma calm_read k c s d e s' : (0 < k)%nat → (0 < c)%nat → calm k s → src_read c s = (d, e, s') →
  d ≠ [] ∧ ((k ≤ length d)%nat ∨ e = None ∧ calm (k - length d) s').
Proof.
  intros Hk Hc Hs. destruct k as [|k]; [lia|]. destruct s as [|[d0 e0] s0]; [done|].
  simpl in Hs. destruct Hs as [Hd Hs]. unfold src_read. case_if; intros [= <- <- <-]; [done|].
  rewrite length_take, Nat.min_l by lia. split; [destruct d0; [done|]; destruct c; [lia|done]|].
  destruct (decide (S k ≤ c)%nat) as [|Hkc]; [by left|]. right. split; [done|].
  destruct (S k - c)%nat as [|k'] eqn:Hk'; [done|]. simpl. split.
  { intros Hn%(f_equal length). rewrite length_drop in Hn. simpl in Hn. lia. }
  rewrite length_drop. destruct Hs as [Hs|[He Hs]]; [left; lia|right].
  split; [done|]. replace (S k' - (length d0 - c))%nat with (S k - length d0)%nat by lia. done.
Qed.

Lemma fill_loop_extends t r : (length (rbuf r) ≤ rsize r)%nat → extends r (fill_loop t r).
Proof.
  revert r. induction t as [|t IH]; intros r Hr; simpl.
  { split_and!; [done..| |done]. exists []. by rewrite app_nil_r. }
  destruct (src_read _ _) as [[d e] s'] eqn:Hrd. apply src_read_spec in Hrd as [Hd Hs].
  set (r' := mkReader _ _ _ _).
  assert (Hx : extends r r').
  { split_and!; simpl; [done| |by exists d|rewrite length_app; lia].
    unfold data. simpl. by rewrite <- app_assoc, Hs. }
  destruct e; [done|]. case_if; [done|]. eapply extends_trans; [done|]. apply IH, Hx.
Qed.

Lemma fill_extends r : (length (rbuf r) ≤ rsize r)%nat → extends r (fill r).
Proof. exact (fill_loop_extends maxConsecutiveEmptyReads r). Qed.

Lemma fill_loop_ready t k r : ready k r → (length (rbuf r) < k)%nat →
  (length (rbuf r) < rsize r)%nat →
  ready k (fill_loop (S t) r) ∧ (length (rbuf r) < length (rbuf (fill_loop (S t) r)))%nat.
Proof.
  intros [Hr [?|[He Hc]]] Hk Hsz; [lia|].
  pose proof (fill_loop_extends (S t) r Hr) as (_ & _ & _ & Hx2).
  cbn [fill_loop] in *. destruct (src_read _ _) as [[d e] s'] eqn:Hrd.
  destruct (calm_read (k - length (rbuf r)) (rsize r - length (rbuf r)) _ _ _ _ ltac:(lia) ltac:(lia) Hc Hrd) as [Hd Hrest].
  assert (Hpos : (0 < length d)%nat) by (destruct d; simpl; [done|lia]).
  rewrite (bool_decide_true (0 < length d)%nat) in * by done.
  destruct e; (split; [split; [done|]|]); simpl; rewrite ?length_app; try lia.
  - left. destruct Hrest as [|[? _]]; [lia|done].
  - destruct Hrest as [|[_ Hcs]]; [left; lia|right]. split; [done|].
    by replace (k - (length (rbuf r) + length d))%nat with (k - length (rbuf r) - length d)%nat by lia.
Qed.
Lemma fill_ready k r : ready k r → (length (rbuf r) < k)%nat → (length (rbuf r) < rsize r)%nat →
  ready k (fill r) ∧ (length (rbuf r) < length (rbuf (fill r)))%nat.
Proof. exact (fill_loop_ready 99 k r). Qed.
Lemma fill_eq r : ∃ t, fill r = fill_loop (S t) r.
Proof. by exists 99%nat. Qed.
#[local] Opaque fill.

Lemma Peek_loop_S fuel n r : Peek_loop (S fuel) n r =
  if bool_decide (length (rbuf r) < n)%nat && bool_decide (length (rbuf r) < rsize r)%nat
     && bool_decide (rerr r = None) then Peek_loop fuel n (fill r) else r.
Proof. done. Qed.

Lemma Peek_loop_extends fuel n r : (length (rbuf r) ≤ rsize r)%nat → extends r (Peek_loop fuel n r).
Proof.
  revert r. induction fuel as [|fuel IH]; intros r Hr; simpl.
  { split_and!; [done..| |done]. exists []. by rewrite app_nil_r. }
  case_if; [|split_and!; [done..| |done]; exists []; by rewrite app_nil_r].
  pose proof (fill_extends r Hr) as Hx.
  eapply extends_trans; [done|]. apply IH, Hx.
Qed.

Lemma Peek_loop_ready fuel n k r : ready k r → (n ≤ k)%nat → (n ≤ rsize r)%nat →
  (n - length (rbuf r) < fuel)%nat →
  ready k (Peek_loop fuel n r) ∧ (n ≤ length (rbuf (Peek_loop fuel n r)))%nat.
Proof.
  revert r. induction fuel as [|fuel IH]; intros r Hr Hnk Hn Hf; [lia|]. simpl.
  pose proof (fill_extends r (proj1 Hr)) as (Hsz & _).
  case_if.
  - destruct (fill_ready k r Hr) as [Hr' Hlt]; [lia|lia|]. apply IH; [done|done|lia|lia].
  - split; [done|]. destruct (decide (length (rbuf r) < n)%nat) as [Hlt|]; [|lia].
    destruct Hr as [_ [?|[He _]]]; [lia|]. rewrite !bool_decide_true in Hif by (try done; lia). done.
Qed.

Lemma mustPeek_spec r : (0 < length (rbuf r) ≤ rsize r)%nat → mustPeekBuffered r = Some (rbuf r, r).
Proof.
  intros [Hp Hs]. unfold mustPeekBuffered, Peek, Buffered. cbn [Peek_loop].
  rewrite (bool_decide_false (length (rbuf r) < length (rbuf r))%nat) by lia. simpl.
  rewrite bool_decide_false by lia. rewrite (bool_decide_false (length (rbuf r) < length (rbuf r))%nat) by lia.
  rewrite firstn_all, bool_decide_false by lia. by rewrite bool_decide_false by tauto.
Qed.

(** Peek in general: what was read, and an error when that is less than asked for. *)
Lemma Reader_Peek_spec n r : (length (rbuf r) ≤ rsize r)%nat →
  ∃ b err r1, Peek n r = (b, err, r1) ∧ extends r r1 ∧
    b = take n (rbuf r1) ∧ (err = None → (n ≤ length (rbuf r1))%nat).
Proof.
  intros Hr. unfold Peek. pose proof (Peek_loop_extends (S (rsize r)) n r Hr) as Hx.
  set (r1 := Peek_loop (S (rsize r)) n r) in *. destruct Hx as (H1 & H2 & H3 & H4). case_if.
  - eexists _, _, r1. split_and!; try done. by rewrite take_ge by lia.
  - case_if.
    + eexists _, _, _. split_and!; [done|by split_and!|by rewrite take_ge by (simpl; lia)|done].
    + eexists _, _, r1. split_and!; try done. intros _. lia.
Qed.

Lemma Peek_ready n k r : ready k r → (n ≤ k ≤ rsize r)%nat →
  ∃ r1, Peek n r = (take n (rbuf r1), None, r1) ∧ extends r r1 ∧ ready k r1 ∧
    (n ≤ length (rbuf r1))%nat.
Proof.
  intros Hr Hn. unfold Peek. pose proof (Peek_loop_extends (S (rsize r)) n r (proj1 Hr)) as Hx.
  destruct (Peek_loop_ready (S (rsize r)) n k r Hr) as [H1 H2]; [lia..|].
  set (r1 := Peek_loop (S (rsize r)) n r) in *. exists r1. destruct Hx as (Hs & Hx).
  rewrite Hs, bool_decide_false, bool_decide_false by lia. done.
Qed.

Section laws.
Context {H E : Type} `{HeaderParser H E} `{!ParserLaws H E}.

(** ** Read returns and does not panic *)

(** tryRead after its Peek, with bytes. *)
Lemma tryRead_bytes h r n b err r1 : Peek n r = (b, err, r1) → b ≠ [] →
  b = take n (rbuf r1) → (length (rbuf r1) ≤ rsize r1)%nat →
  tryRead h r n =
    let b := rbuf r1 in
    let r := set_rbuf (heffect b (hreset h)) r1 in
    match hparse b (hreset h) with
    | (h', Err errParse) => (headerError err errParse (rbuf r), h', r)
    | (h', Ok headersLen) =>
        (TOk, h', mkReader (drop headersLen (heffect b (hreset h))) (rsize r1) (rerr r1) (rsrc r1))
    end.
Proof.
  intros HP Hb Hbt Hs. unfold tryRead. rewrite HP.
  assert (Hpos : (0 < length (rbuf r1))%nat).
  { destruct (rbuf r1); simpl; [|lia]. by rewrite take_nil in Hbt. }
  rewrite bool_decide_false by (intros ?%nil_length_inv; done).
  rewrite mustPeek_spec by done. destruct (hparse _ _) as [h' [m|e]] eqn:Hparse; [|done].
  apply law_local in Hparse as [Hm _]. unfold mustDiscard, Discard. simpl.
  rewrite bool_decide_true by (rewrite law_effect_length; lia). done.
Qed.

Lemma headerError_needmore err e b : headerError err e b = TNeedMore → err = None ∧ hneed e = true.
Proof.
  unfold headerError. destruct (hneed e); simpl; [|done]. destruct err; [|done].
  destruct (isOnlyCRLF b); [done|]. by case_if.
Qed.
Lemma headerError_panic err e b : headerError (E := E) err e b ≠ TPanic ∧ headerError err e b ≠ TOk.
Proof.
  unfold headerError. destruct (hneed e); simpl; [|done]. destruct err; [|done].
  destruct (isOnlyCRLF b); [done|]. by case_if.
Qed.

Lemma tryRead_total h r n : (0 < n)%nat → (length (rbuf r) ≤ rsize r)%nat →
  ∃ res h' r', tryRead h r n = (res, h', r') ∧ res ≠ TPanic ∧ rsize r' = rsize r ∧
    (length (rbuf r') ≤ rsize r')%nat ∧ (res = TNeedMore → (n ≤ length (rbuf r'))%nat).
Proof.
  intros Hn Hr. destruct (Reader_Peek_spec n r Hr) as (b & err & r1 & HP & (Hs & Hd & _ & Hl) & Hb & He).
  destruct (decide (b = [])) as [Hnil|Hne].
  - unfold tryRead. rewrite HP, Hnil. simpl.
    eexists _, _, _. split; [done|]. repeat case_if; done.
  - rewrite (tryRead_bytes h r n b err r1) by done. simpl.
    destruct (hparse _ _) as [h' [m|e]].
    + eexists _, _, _. split; [done|]. simpl. rewrite length_drop, law_effect_length.
      split_and!; [done|done|lia|done].
    + eexists _, _, _. split; [done|]. simpl. rewrite law_effect_length. pose proof (headerError_panic err e (heffect (rbuf r1) (hreset h))) as [? ?].
      split_and!; [done|done|lia|]. intros [-> _]%headerError_needmore. by apply He.
Qed.

Lemma Read_loop_total fuel h r n : (0 < n ≤ rsize r + 1)%nat → (length (rbuf r) ≤ rsize r)%nat →
  (rsize r + 1 < fuel + n)%nat →
  ∃ res h' r', Read_loop fuel h r n = Some (res, h', r') ∧ res ≠ Err None ∧
    (length (rbuf r') ≤ rsize r')%nat.
Proof.
  revert h r n. induction fuel as [|fuel IH]; intros h r n Hn Hr Hf; [lia|]. simpl.
  destruct (tryRead_total h r n ltac:(lia) Hr) as (res & h1 & r1 & -> & Hp & Hs & Hl & Hm).
  destruct res as [| |e|]; [by eexists _, _, _| |by eexists _, _, _|done].
  specialize (Hm eq_refl). unfold Buffered. apply IH; lia.
Qed.

(** Read returns an error or nil, whatever the connection gives, and its calls
    of Peek and Discard never make it panic. *)
Theorem read_returns (h : H) (r : Reader) : (length (rbuf r) ≤ rsize r)%nat →
  ∃ res h' r', Read h r = Some (res, h', r') ∧ res ≠ Err None ∧ (length (rbuf r') ≤ rsize r')%nat.
Proof. intros Hr. apply Read_loop_total; lia. Qed.

(** ** However the bytes come *)

(** A proper beginning of a header asks for more. *)
Lemma prefix_needs p y h h' n : hparse (p ++ y) h = (h', Ok n) → (length p < n)%nat →
  ∃ e, (hparse p h).2 = Err e ∧ hneed e = true.
Proof.
  intros Hp Hn. destruct (hparse p h) as [h1 [m|e]] eqn:Hpp.
  - apply law_local in Hpp as [Hm Hx]. specialize (Hx (drop m p ++ y)).
    rewrite app_assoc, take_drop, Hp in Hx. simplify_eq. lia.
  - exists e. split; [done|]. destruct (hneed e) eqn:Hne; [done|].
    pose proof (law_error p h e) as He. rewrite Hpp in He. specialize (He eq_refl Hne y).
    by rewrite Hp in He.
Qed.

Lemma hparse_heq b h1 h2 x n : heq h1 h2 → hparse b h1 = (x, Ok n) →
  ∃ y, hparse b h2 = (y, Ok n) ∧ heq x y.
Proof.
  intros Hh Hp. destruct (law_proper b h1 h2 Hh) as [H1 H2]. rewrite Hp in H1, H2. simpl in *.
  destruct (hparse b h2) as [y res]. simpl in *. subst. by exists y.
Qed.

Lemma Read_loop_split fuel k h r n x :
  ready k r → (0 < n ≤ k)%nat → (k ≤ rsize r)%nat → (k < fuel + n)%nat →
  hparse (data r) (hreset h) = (x, Ok k) →
  ∃ h' r', Read_loop fuel h r n = Some (Ok tt, h', r') ∧ heq h' x ∧
    data r' = drop k (data r) ∧ rsize r' = rsize r.
Proof.
  revert h r n x. induction fuel as [|fuel IH]; intros h r n x Hr Hn Hk Hf Hp; [lia|]. simpl.
  destruct (Peek_ready n k r Hr ltac:(lia)) as (r1 & HP & (Hs & Hd & _ & Hl) & Hr1 & Hn1).
  assert (Hdr : data r = rbuf r1 ++ concat (fst <$> rsrc r1)) by done.
  rewrite (tryRead_bytes h r n _ _ r1 HP) by
    (try done; intros Hnil%(f_equal length); rewrite length_take in Hnil; simpl in Hnil; lia).
  simpl. destruct (decide (k ≤ length (rbuf r1))%nat) as [Hge|Hlt].
  - assert (Hpb : hparse (rbuf r1) (hreset h) = (x, Ok k)).
    { apply law_local in Hp as [_ Hx]. specialize (Hx (drop k (rbuf r1))).
      rewrite Hdr, take_app_le, take_drop in Hx by lia. done. }
    rewrite Hpb. eexists _, _. split; [done|]. split; [done|]. split; [|done].
    unfold data at 1. simpl. rewrite (law_effect_rest _ _ _ _ Hpb), Hdr.
    by rewrite drop_app_le by lia.
  - rewrite Hdr in Hp. destruct (prefix_needs _ _ _ _ _ Hp) as (e & He & Hne); [lia|].
    pose proof (law_effect _ _ _ He Hne (concat (fst <$> rsrc r1))) as Heff.
    pose proof (law_reset (rbuf r1) h) as Hreset.
    destruct (hparse (rbuf r1) (hreset h)) as [h1 res] eqn:Hpb. simpl in He, Hreset. subst res.
    unfold headerError. rewrite Hne. simpl.
    set (r2 := set_rbuf _ r1).
    assert (Hr2 : rbuf r2 = heffect (rbuf r1) (hreset h)) by done.
    assert (Hlen : length (rbuf r2) = length (rbuf r1)) by by rewrite Hr2, law_effect_length.
    assert (Hd2 : data r2 = heffect (rbuf r1) (hreset h) ++ concat (fst <$> rsrc r1)) by done.
    rewrite Hp in Heff. symmetry in Hreset.
    destruct (hparse_heq _ _ _ _ _ Hreset Heff) as (y & Hy & Hxy). rewrite <- Hd2 in Hy.
    destruct (IH h1 r2 (Buffered r2 + 1)%nat y) as (h' & r' & Hrun & Hh & Hdat & Hsz').
    + split; [simpl in *; lia|]. rewrite Hlen. apply Hr1.
    + unfold Buffered. lia.
    + simpl. lia.
    + unfold Buffered. lia.
    + done.
    + exists h', r'. split_and!; [done|by etrans| |by rewrite Hsz'].
      rewrite Hdat, Hd2, Hdr, !drop_app_ge by (rewrite ?law_effect_length; lia).
      by rewrite law_effect_length.
Qed.

(** C8: when the bytes to come begin with a header that fits into the buffer, Read gives
    what Parse gives on all of them at once, however they are split over reads, and
    leaves the reader at the byte after the header. *)
Theorem read_split (h : H) (r : Reader) (x : H) (k : nat) :
  ready k r → (0 < k ≤ rsize r)%nat → hparse (data r) (hreset h) = (x, Ok k) →
  ∃ h' r', Read h r = Some (Ok tt, h', r') ∧ heq h' x ∧ data r' = drop k (data r).
Proof.
  intros Hr Hk Hp. destruct (Read_loop_split (rsize r + 2) k h r 1 x Hr) as (h' & r' & H1 & H2 & H3 & _);
    [lia..|done|]. by exists h', r'.
Qed.

(** ** A connection that ends, a buffer that is too small *)

Definition plain (r : Reader) : Prop :=
  rerr r = None ∧ Forall (λ x, x.1 ≠ [] ∧ x.2 = None) (rsrc r).

Lemma calm_plain k s : Forall (λ x, x.1 ≠ [] ∧ x.2 = None) s →
  (k ≤ length (concat (fst <$> s)))%nat → calm k s.
Proof.
  revert k. induction s as [|[d e] s IH]; intros [|k] Hs Hk; try done; simpl in *; [lia|].
  apply list.Forall_cons in Hs as [[Hd He] Hs]. simpl in *. split; [done|].
  destruct (decide (S k ≤ length d)%nat); [by left|right]. split; [done|].
  rewrite length_app in Hk. change (calm (S k - length d) s). apply IH; [done|]. change (list_fmap _ _ fst s) with s.*1 in Hk. lia.
Qed.

Lemma plain_ready k r : plain r → (length (rbuf r) ≤ rsize r)%nat → (k ≤ length (data r))%nat → ready k r.
Proof.
  intros [He Hs] Hr Hk. split; [done|]. unfold data in Hk. rewrite length_app in Hk.
  destruct (decide (k ≤ length (rbuf r))%nat); [by left|right]. split; [done|].
  apply calm_plain; [done|lia].
Qed.

Lemma src_read_plain c s d e s' : Forall (λ x : bytes * option ioErr, x.1 ≠ [] ∧ x.2 = None) s →
  s ≠ [] → src_read c s = (d, e, s') →
  e = None ∧ Forall (λ x, x.1 ≠ [] ∧ x.2 = None) s'.
Proof.
  intros Hs Hne. destruct s as [|[d0 e0] s0]; [done|]. apply list.Forall_cons in Hs as [[Hd He] Hs].
  simpl in *. unfold src_read. case_if; intros [= <- <- <-]; [done|]. split; [done|].
  apply list.Forall_cons. split; [|done]. simpl. split; [|done].
  intros Hn%(f_equal length). rewrite length_drop in Hn. simpl in Hn. lia.
Qed.

Lemma fill_loop_plain t r : plain r → (length (rbuf r) < rsize r)%nat →
  plain (fill_loop (S t) r) ∧ (length (rbuf r) < length (rbuf (fill_loop (S t) r)))%nat ∨
  rsrc r = [] ∧ fill_loop (S t) r = mkReader (rbuf r) (rsize r) (Some EOF) [].
Proof.
  intros [He Hs] Hl. destruct (decide (rsrc r = [])) as [Hnil|Hne].
  - right. split; [done|]. simpl. rewrite Hnil. simpl. by rewrite app_nil_r.
  - left. destruct (src_read (rsize r - length (rbuf r)) (rsrc r)) as [[d e] s'] eqn:Hrd.
    destruct (src_read_plain _ _ _ _ _ Hs Hne Hrd) as [-> Hs'].
    assert (Hd : d ≠ []).
    { destruct (rsrc r) as [|[d0 e0] s0] eqn:Hr; [done|]. apply list.Forall_cons in Hs as [[Hd0 _] _].
      unfold src_read in Hrd. destruct (bool_decide _) eqn:Hb; bdec; simplify_eq; [done|].
      simpl in *. destruct d0; [done|]. destruct (rsize r - length (rbuf r))%nat eqn:?; [lia|done]. }
    simpl. rewrite Hrd. destruct d as [|c d]; [done|]. simpl. split; [done|]. rewrite length_app. simpl. lia.
Qed.
Lemma fill_plain r : plain r → (length (rbuf r) < rsize r)%nat →
  plain (fill r) ∧ (length (rbuf r) < length (rbuf (fill r)))%nat ∨
  rsrc r = [] ∧ fill r = mkReader (rbuf r) (rsize r) (Some EOF) [].
Proof. destruct (fill_eq r) as [t ->]. apply fill_loop_plain. Qed.

Lemma Peek_loop_plain fuel n r : plain r → (length (rbuf r) ≤ rsize r)%nat →
  (n ≤ length (data r))%nat → (n ≤ rsize r)%nat → plain (Peek_loop fuel n r).
Proof.
  revert r. induction fuel as [|fuel IH]; intros r Hp Hl Hd Hn; simpl; [done|]. case_if; [|done].
  pose proof (fill_extends r Hl) as (Hs & Hdat & _ & Hl').
  destruct (fill_plain r Hp) as [[Hp' _]|[Hnil _]]; [lia| |].
  - apply IH; [done|lia|by rewrite Hdat|lia].
  - unfold data in Hd. rewrite Hnil in Hd. simpl in Hd. rewrite app_nil_r in Hd. lia.
Qed.

(** A beginning of what asks for more asks for more. *)
Lemma prefix_needs_more p y h e : (hparse (p ++ y) h).2 = Err e → hneed e = true →
  ∃ e', (hparse p h).2 = Err e' ∧ hneed e' = true.
Proof.
  intros Hp Hn. destruct (hparse p h) as [h1 [m|e']] eqn:Hpp.
  - apply law_local in Hpp as [Hm Hx]. specialize (Hx (drop m p ++ y)).
    rewrite app_assoc, take_drop in Hx. rewrite Hx in Hp. done.
  - exists e'. split; [done|]. destruct (hneed e') eqn:Hne; [done|].
    pose proof (law_error p h e') as He. rewrite Hpp in He. specialize (He eq_refl Hne y). congruence.
Qed.

(** What is returned when [b] is all that can be read and it asks for more. *)
Definition verdict (size : nat) (b : bytes) : readErr E :=
  if isOnlyCRLF b then REOF
  else if bool_decide (size ≤ length b)%nat then RSmall CSmallBuffer (zlen b) (bufferSnippet b)
  else RMsg (CIo EOF) (zlen b) (bufferSnippet b).

(** All is read and one byte more is asked for. *)
Lemma Peek_stuck r : plain r → (0 < length (rbuf r) ≤ rsize r)%nat →
  ((length (rbuf r) < rsize r)%nat → rsrc r = []) →
  ∃ r1, Peek (length (rbuf r) + 1) r =
      (rbuf r, Some (if bool_decide (rsize r ≤ length (rbuf r))%nat then ErrBufferFull else EOF), r1) ∧
    rbuf r1 = rbuf r ∧ rsize r1 = rsize r.
Proof.
  intros Hp Hl Hsrc. unfold Peek. destruct (decide (rsize r ≤ length (rbuf r))%nat) as [Hfull|Hroom].
  - rewrite (bool_decide_true (rsize r ≤ _)%nat) by done. exists r. simpl.
    rewrite (bool_decide_false (length (rbuf r) < rsize r)%nat) by lia.
    rewrite andb_false_r. simpl. by rewrite bool_decide_true by lia.
  - rewrite (bool_decide_false (rsize r ≤ _)%nat) by done.
    destruct (fill_plain r Hp) as [[Hf1 Hf2]|[_ Hf]]; [lia| |].
    { pose proof (fill_extends r ltac:(lia)) as (_ & Hd & (z & Hz) & _). unfold data in Hd.
      rewrite (Hsrc ltac:(lia)), Hz in Hd. apply (f_equal length) in Hd.
      rewrite Hz in Hf2. rewrite !length_app in *. simpl in *. lia. }
    destruct (rsize r) as [|n] eqn:Hsz; [lia|]. rewrite !Peek_loop_S, Hsz, Hf. cbn [rbuf rsize rerr].
    rewrite (bool_decide_true (length (rbuf r) < S n)%nat), (bool_decide_true (length (rbuf r) < _ + 1)%nat) by lia.
    rewrite (bool_decide_true (rerr r = None)) by apply Hp.
    rewrite (bool_decide_false (Some EOF = None)) by done. cbn [andb rbuf rsize rerr rsrc].
    rewrite (bool_decide_false (S n < _)%nat), (bool_decide_true (length (rbuf r) < _ + 1)%nat) by lia.
    by eexists.
Qed.

Lemma isOnlyCRLF_app a b : isOnlyCRLF (a ++ b) = isOnlyCRLF a && isOnlyCRLF b.
Proof. apply forallb_app. Qed.

Lemma Read_loop_stuck fuel h r e : plain r → (0 < length (rbuf r) ≤ rsize r)%nat →
  ((length (rbuf r) < rsize r)%nat → rsrc r = []) →
  (hparse (rbuf r) (hreset h)).2 = Err e → hneed e = true →
  ∃ h' r', Read_loop (S fuel) h r (length (rbuf r) + 1) =
    Some (Err (Some (verdict (rsize r) (heffect (rbuf r) (hreset h)))), hreset h', r').
Proof.
  intros Hp Hl Hsrc He Hne. destruct (Peek_stuck r Hp Hl Hsrc) as (r1 & HP & Hb & Hs).
  simpl. rewrite (tryRead_bytes h r _ _ _ r1 HP), Hb.
  2:{ intros Hn. rewrite Hn in Hl. simpl in Hl. lia. }
  2:{ by rewrite Hb, take_ge by lia. }
  2:{ rewrite Hb, Hs. lia. }
  simpl. destruct (hparse (rbuf r) (hreset h)) as [h1 res]. simpl in He. subst res.
  unfold headerError, verdict. rewrite Hne, law_effect_crlf, law_effect_length. simpl.
  destruct (isOnlyCRLF (rbuf r)); [by eexists _, _|].
  destruct (bool_decide (rsize r ≤ length (rbuf r))%nat); by eexists _, _.
Qed.

Lemma take_split k (b y : bytes) : (length b ≤ k)%nat → take k (b ++ y) = b ++ take (k - length b) y.
Proof. intros. by rewrite take_app, take_ge by lia. Qed.

Lemma Peek_plain n r b r1 : plain r → (length (rbuf r) ≤ rsize r)%nat →
  (n ≤ length (data r))%nat → (n ≤ rsize r)%nat → Peek n r = (b, None, r1) → plain r1.
Proof.
  intros Hpl Hl Hd Hn HP. unfold Peek in HP. pose proof (Peek_loop_plain (S (rsize r)) n r Hpl Hl Hd Hn) as HH.
  case_bool_decide; [by simplify_eq|]. case_bool_decide; by simplify_eq.
Qed.
Lemma plain_drained r : plain r → concat (fst <$> rsrc r) = [] → rsrc r = [].
Proof.
  intros [_ Hf] Hy. destruct (rsrc r) as [|[d e] s]; [done|]. apply list.Forall_cons in Hf as [[Hd _] _].
  simpl in Hy. by apply app_nil in Hy as [? _].
Qed.
Lemma Read_loop_short fuel h r n k e : plain r → (length (rbuf r) ≤ rsize r)%nat →
  k = Nat.min (rsize r) (length (data r)) → (0 < n ≤ k)%nat → (k + 1 < fuel + n)%nat →
  (hparse (take k (data r)) (hreset h)).2 = Err e → hneed e = true →
  ∃ h' r' b', Read_loop fuel h r n = Some (Err (Some (verdict (rsize r) b')), hreset h', r') ∧
    length b' = k ∧ isOnlyCRLF b' = isOnlyCRLF (take k (data r)).
Proof.
  revert h r n. induction fuel as [|fuel IH]; intros h r n Hpl Hl Hk Hn Hf Hp Hne; [lia|].
  destruct (Peek_ready n k r) as (r1 & HP & (Hs & Hd & _ & Hl1) & _ & Hn1).
  { apply plain_ready; [done|done|lia]. } { lia. }
  assert (Hpl1 : plain r1) by (eapply Peek_plain; [exact Hpl|..|exact HP]; lia). set (y := concat (fst <$> rsrc r1)). assert (Hdr : data r = rbuf r1 ++ y) by done.
  assert (Hle : (length (rbuf r1) ≤ k)%nat).
  { rewrite Hk, Hdr, length_app. lia. }
  rewrite Hdr, (take_split k _ _ Hle) in Hp |- *.
  destruct (prefix_needs_more _ _ _ _ Hp Hne) as (e1 & He1 & Hne1).
  pose proof (law_effect _ _ _ He1 Hne1 (take (k - length (rbuf r1)) y)) as Heff.
  pose proof (law_reset (rbuf r1) h) as Hreset.
  simpl. rewrite (tryRead_bytes h r n _ _ r1 HP) by
    (try done; intros Hnil%(f_equal length); rewrite length_take in Hnil; simpl in Hnil; lia).
  simpl. destruct (hparse (rbuf r1) (hreset h)) as [h1 res] eqn:Hpb. simpl in He1, Hreset. subst res.
  unfold headerError. rewrite Hne1. simpl.
  set (r2 := set_rbuf (heffect (rbuf r1) (hreset h)) r1).
  assert (Hlen : length (rbuf r2) = length (rbuf r1)) by apply law_effect_length.
  assert (Hd2 : data r2 = rbuf r2 ++ y) by done.
  assert (Hp2 : (hparse (take k (data r2)) (hreset h1)).2 = Err e).
  { rewrite Hd2, take_split, Hlen by lia. destruct (law_proper (rbuf r2 ++ take (k - length (rbuf r1)) y) _ _ Hreset) as [_ ->].
    unfold r2. simpl. rewrite Heff. done. }
  assert (Hcr : isOnlyCRLF (take k (data r2)) = isOnlyCRLF (rbuf r1 ++ take (k - length (rbuf r1)) y)).
  { rewrite Hd2, take_split, Hlen, !isOnlyCRLF_app by lia. f_equal. apply law_effect_crlf. }
  unfold Buffered. rewrite <- Hs. change (rsize r1) with (rsize r2). rewrite <- Hcr.
  assert (Hk2 : k = Nat.min (rsize r2) (length (data r2))).
  { rewrite Hk, Hdr, Hd2, !length_app, Hlen. simpl. by rewrite Hs. }
  destruct (decide (length (rbuf r2) < k)%nat) as [Hlt|Hge].
  - apply IH; try done; [change (rsize r2) with (rsize r1)| |]; lia.
  - assert (Hfull : length (rbuf r2) = k) by lia.
    assert (Htk : take k (data r2) = rbuf r2) by (rewrite Hd2, take_split, Hfull, Nat.sub_diag by lia; apply app_nil_r).
    rewrite Htk in *. destruct fuel as [|fuel]; [lia|].
    destruct (Read_loop_stuck fuel h1 r2 e) as (h' & r' & Hrun); [done| | |done|done|].
    + change (rsize r2) with (rsize r1). lia.
    + intros Hroom. rewrite Hd2, length_app in Hk2.
      apply (plain_drained r1 Hpl1), nil_length_inv. fold y. lia.
    + rewrite Hrun. eexists _, _, _. split; [done|]. by rewrite law_effect_length, law_effect_crlf.
Qed.

(** When all that the connection gives, or all that fits into the buffer, is only
    the beginning of a header, Read says so: the buffer is too small, or the
    connection ended; lone line ends count as its end. *)
Theorem read_short (h : H) (r : Reader) (k : nat) (e : E) : plain r → (length (rbuf r) ≤ rsize r)%nat →
  k = Nat.min (rsize r) (length (data r)) → (0 < k)%nat →
  (hparse (take k (data r)) (hreset h)).2 = Err e → hneed e = true →
  ∃ h' r' b, length b = k ∧ isOnlyCRLF b = isOnlyCRLF (take k (data r)) ∧
    Read h r = Some (Err (Some (if isOnlyCRLF b then REOF
      else if bool_decide (k = rsize r) then RSmall CSmallBuffer (Z.of_nat k) (bufferSnippet b)
      else RMsg (CIo EOF) (Z.of_nat k) (bufferSnippet b))), hreset h', r').
Proof.
  intros Hp Hl Hk Hpos He Hne.
  destruct (Read_loop_short (rsize r + 2) h r 1 k e) as (h' & r' & b & Hrun & Hlen & Hcr); [done..|lia|lia|done|done|].
  exists h', r', b. split_and!; [done..|]. unfold Read. rewrite Hrun. unfold verdict, zlen. rewrite Hlen.
  do 4 f_equal. destruct (isOnlyCRLF b); [done|].
  destruct (decide (k = rsize r)) as [->|Hne']; [by rewrite !bool_decide_true|].
  by rewrite !bool_decide_false by lia.
Qed.

(** A connection that gives no byte is at its end, whatever its error is. *)
Theorem read_nothing (h : H) (r : Reader) (err : ioErr) (s : source) :
  rbuf r = [] → rerr r = None → (0 < rsize r)%nat → rsrc r = ([], Some err) :: s →
  ∃ r', Read h r = Some (Err (Some REOF), hreset (hreset h), r').
Proof.
  intros Hb He Hs Hsrc. unfold Read. replace (rsize r + 2)%nat with (S (rsize r + 1)) by lia. simpl.
  assert (Hf : fill r = mkReader [] (rsize r) (Some err) s).
  { destruct (fill_eq r) as [t ->]. simpl. rewrite Hsrc. simpl. by rewrite Hb. }
  assert (HP : Peek 1 r = ([], Some err, mkReader [] (rsize r) None s)).
  { unfold Peek. destruct (rsize r) as [|n] eqn:Hsz; [lia|]. rewrite !Peek_loop_S, Hb, He, Hsz, Hf.
    cbn [rbuf rsize rerr rsrc length]. rewrite (bool_decide_true (0 < S n)%nat) by lia.
    rewrite (bool_decide_true (None = None)), (bool_decide_false (Some err = None)) by done.
    rewrite (bool_decide_true (0 < 1)%nat) by lia. cbn [andb rbuf rsize rerr rsrc length].
    rewrite (bool_decide_false (S n < 1)%nat) by lia. by rewrite (bool_decide_true (0 < 1)%nat) by lia. }
  unfold tryRead. rewrite HP. simpl. by eexists.
Qed.
End laws.

(** ** A first line and what follows it

    Both headers are parsed in two stages; the laws of the whole follow from those of
    the stages. *)
Section two_stages.
Context {H E : Type} (need : E → bool) (first rest : bytes → H → H * res E nat)
  (reffect : bytes → H → bytes).

Definition two (b : bytes) (r : H) : H * res E nat :=
  match first b r with
  | (r, Err e) => (r, Err e)
  | (r, Ok m) =>
      match rest (drop m b) r with
      | (r, Err e) => (r, Err e)
      | (r, Ok n) => (r, Ok (m + n)%nat)
      end
  end.
Definition two_effect (b : bytes) (r : H) : bytes :=
  match first b r with
  | (r, Ok m) => take m b ++ reffect (drop m b) r
  | (_, Err _) => b
  end.

Hypothesis first_cases : ∀ b r,
  (∃ r' e, first b r = (r', Err e) ∧ need e = true) ∨
  ∃ u x0, b = u ++ x0 ∧ (∀ x, first (u ++ x) r = first b r) ∧
    match (first b r).2 with Ok m => m = length u | Err e => need e = false end.
Hypothesis rest_local : ∀ b r r' n, rest b r = (r', Ok n) →
  ∃ u x0, b = u ++ x0 ∧ n = length u ∧ ∀ x, rest (u ++ x) r = (r', Ok n).
Hypothesis rest_need : ∀ b r r' e, rest b r = (r', Err e) → need e = true.
Hypothesis reffect_alike : ∀ b r, Forall2 alike b (reffect b r).
Hypothesis req_reffect_again : ∀ b r r' e, rest b r = (r', Err e) →
  ∀ x, rest (reffect b r ++ x) r = rest (b ++ x) r.
Hypothesis req_reffect_rest : ∀ b r r' n, rest b r = (r', Ok n) → drop n (reffect b r) = drop n b.

(** After a first line: the bytes of it, and the rest, whatever follows. *)
Lemma two_after b r : (∃ r' e, first b r = (r', Err e) ∧ need e = true ∧ two b r = (r', Err e) ∧ two_effect b r = b) ∨
  (∃ r' e, first b r = (r', Err e) ∧ need e = false ∧ ∀ x, two (b ++ x) r = (r', Err e)) ∨
  (∃ u x0 r1, b = u ++ x0 ∧ first b r = (r1, Ok (length u)) ∧
     two_effect b r = u ++ reffect x0 r1 ∧
     ∀ x, two (u ++ x) r = match rest x r1 with
                           | (r, Err e) => (r, Err e)
                           | (r, Ok n) => (r, Ok (length u + n)%nat)
                           end).
Proof.
  destruct (first_cases b r) as [(r' & e & Hf & He)|(u & x0 & -> & Hx & Hm)].
  { left. exists r', e. unfold two, two_effect. by rewrite Hf. }
  right. destruct (first (u ++ x0) r) as [r1 [m|e]] eqn:Hf; cbn [snd] in Hm.
  - right. subst m. exists u, x0, r1. split_and!; [done..| |].
    + unfold two_effect. by rewrite Hf, take_app_length, drop_app_length.
    + intros x. unfold two. by rewrite Hx, drop_app_length.
  - left. exists r1, e. split_and!; [done..|]. intros x. unfold two. by rewrite <- app_assoc, Hx.
Qed.

Lemma two_local b r r' n : two b r = (r', Ok n) →
  (n ≤ length b)%nat ∧ ∀ x, two (take n b ++ x) r = (r', Ok n).
Proof.
  intros Ht. destruct (two_after b r) as [(? & ? & _ & _ & H2 & _)|[(? & e & _ & _ & H2)|H2]].
  - rewrite H2 in Ht. done.
  - specialize (H2 []). rewrite app_nil_r in H2. congruence.
  - destruct H2 as (u & x0 & r1 & -> & _ & _ & Htwo). rewrite Htwo in Ht.
    destruct (rest x0 r1) as [r2 [k|e]] eqn:Hr; [|done]. injection Ht as -> <-.
    destruct (rest_local _ _ _ _ Hr) as (u2 & x2 & -> & -> & Hx2).
    rewrite !length_app. split; [lia|]. intros x.
    rewrite app_assoc, take_app_length' by (rewrite length_app; lia).
    by rewrite <- app_assoc, Htwo, Hx2.
Qed.
Lemma two_error b r e : (two b r).2 = Err e → need e = false → ∀ x, (two (b ++ x) r).2 = Err e.
Proof.
  intros Ht Hn. destruct (two_after b r) as [(? & ? & _ & Hn' & H2 & _)|[(? & e' & _ & _ & H2)|H2]].
  - rewrite H2 in Ht. cbn in Ht. congruence.
  - intros y. rewrite H2. specialize (H2 []). rewrite app_nil_r in H2. by rewrite H2 in Ht.
  - destruct H2 as (u & x0 & r1 & -> & _ & _ & Htwo). rewrite Htwo in Ht.
    destruct (rest x0 r1) as [r2 [k|e']] eqn:Hr; [done|]. apply rest_need in Hr. cbn in Ht. congruence.
Qed.
Lemma two_effect_alike b r : Forall2 alike b (two_effect b r).
Proof.
  assert (Hrefl : ∀ l : bytes, Forall2 alike l l) by (intros l; by apply Forall_Forall2_diag, Forall_true).
  unfold two_effect. destruct (first b r) as [r1 [m|e]]; [|done].
  rewrite <- (take_drop m b) at 1. by apply Forall2_app.
Qed.
Lemma two_effect_again b r e : (two b r).2 = Err e → need e = true →
  ∀ x, two (two_effect b r ++ x) r = two (b ++ x) r.
Proof.
  intros Ht Hn x. destruct (two_after b r) as [(? & ? & _ & _ & _ & ->)|[(? & e' & _ & He & H2)|H2]].
  - done.
  - specialize (H2 []). rewrite app_nil_r in H2. rewrite H2 in Ht. cbn in Ht. congruence.
  - destruct H2 as (u & x0 & r1 & -> & _ & -> & Htwo). rewrite Htwo in Ht.
    destruct (rest x0 r1) as [r2 [k|e']] eqn:Hr; [done|].
    by rewrite <- !app_assoc, !Htwo, (req_reffect_again _ _ _ _ Hr).
Qed.
Lemma two_effect_rest b r r' n : two b r = (r', Ok n) → drop n (two_effect b r) = drop n b.
Proof.
  intros Ht. destruct (two_after b r) as [(? & ? & _ & _ & H2 & _)|[(? & e & _ & _ & H2)|H2]].
  - rewrite H2 in Ht. done.
  - specialize (H2 []). rewrite app_nil_r in H2. congruence.
  - destruct H2 as (u & x0 & r1 & -> & _ & -> & Htwo). rewrite Htwo in Ht.
    destruct (rest x0 r1) as [r2 [k|e]] eqn:Hr; [|done]. injection Ht as _ <-.
    rewrite !drop_app_ge by lia. replace (length u + k - length u)%nat with k by lia.
    by eapply req_reffect_rest.
Qed.
End two_stages.

(** ** The request header *)

Lemma live_SetArg hh k v : live (SetArg hh k v) = live (SetArg (ArgsSlice (live hh) []) k v).
Proof. unfold SetArg. cbn [live]. destruct (set_first _ _ _); [done|]. by rewrite !AppendArg_live. Qed.

Lemma alike_crlf a b : Forall2 alike a b → isOnlyCRLF b = isOnlyCRLF a.
Proof.
  induction 1 as [|x y a b (H1 & H2 & _) _ IH]; [done|]. unfold isOnlyCRLF in *. simpl.
  by rewrite H1, H2, IH.
Qed.
Lemma header_alike_refl b : Forall2 alike b b.
Proof. by apply Forall_Forall2_diag, Forall_true. Qed.

#[local] Arguments SetArg : simpl never.
#[local] Arguments AppendArg : simpl never.

Module RequestRead.
Import RequestHeader.

Definition need (e : parseError) : bool := match e with errNeedMore => true | _ => false end.

(** Whether Parse goes through the lines, or keeps them raw. *)
Definition eager (r : t) : bool := let '(nb, r) := NoBody r in negb nb || noHTTP11 r.

(** What can be seen of a header: not the pairs beyond the length of a slice. *)
Definition vis (r : t) : t :=
  set_h (ArgsSlice (live (h r)) []) (set_cookies (ArgsSlice (live (cookies r)) []) r).

Lemma req_parseFirstLine_vis b r :
  parseFirstLine b (vis r) = (vis (parseFirstLine b r).1, (parseFirstLine b r).2).
Proof. unfold parseFirstLine. repeat case_match; done. Qed.
Lemma req_NoBody_vis r : NoBody (vis r) = ((NoBody r).1, vis (NoBody r).2).
Proof. unfold NoBody, IsGet. destruct r. cbn. by repeat case_match. Qed.
Lemma req_vis_set_h hh hh' r : live hh = live hh' → vis (set_h hh r) = vis (set_h hh' (vis r)).
Proof. intros E. unfold vis. cbn [h set_h set_cookies cookies live]. by rewrite E. Qed.
Lemma req_header_case_vis k v r : vis (header_case k v r) = vis (header_case k v (vis r)).
Proof.
  unfold header_case. change (contentLength (vis r)) with (contentLength r).
  repeat (case_match; try done).
  - apply (req_vis_set_h _ _ (set_contentLength (-1) r)), live_SetArg.
  - apply (req_vis_set_h _ _ (set_connectionClose false r)). by rewrite !AppendArg_live.
  - apply req_vis_set_h. by rewrite !AppendArg_live.
Qed.
Lemma req_fold_vis l r :
  vis (foldl (λ r kv, header_case kv.1 kv.2 r) r l) =
  vis (foldl (λ r kv, header_case kv.1 kv.2 r) (vis r) l).
Proof.
  revert r. induction l as [|[k v] l IH]; intros r; [done|]. simpl.
  rewrite IH, req_header_case_vis, <- IH. done.
Qed.
Lemma req_finish_vis r : finish (vis r) = vis (finish r).
Proof.
  unfold finish. assert (Hc : contentLength (vis r) = contentLength r) by done. rewrite Hc.
  set (r1 := if contentLength r <? 0 then set_contentLengthBytes [] r else r).
  assert (H1 : (if contentLength r <? 0 then set_contentLengthBytes [] (vis r) else vis r) = vis r1).
  { unfold r1. by destruct (contentLength r <? 0). }
  rewrite H1, req_NoBody_vis. destruct (NoBody r1) as [nb r2]. cbn [fst snd].
  destruct nb; cbn; repeat case_match; done.
Qed.

(** What follows the first line, for the header after it. *)
Definition rest_of (b : bytes) (r : t) : t * res parseError nat :=
  if eager r then
    let '(l, o) := scan (S (length b)) (disableNormalizing r) b in
    let r' := foldl (λ r kv, header_case kv.1 kv.2 r) (set_contentLength (-2) (NoBody r).2) l in
    match o with
    | None => (set_connectionClose true r', Err errNeedMore)
    | Some b' => (set_rawHeadersParsed true (finish r'), Ok (length b - length b')%nat)
    end
  else
    match readRawHeaders [] b with
    | None => ((NoBody r).2, Err errNeedMore)
    | Some (raw, n) => (set_rawHeaders raw (NoBody r).2, Ok n)
    end.

Lemma req_NoBody_dis r : disableNormalizing (NoBody r).2 = disableNormalizing r.
Proof. unfold NoBody, IsGet. by destruct (isGet r). Qed.

Lemma req_Parse_eq b r : Parse b r =
  match parseFirstLine b r with
  | (r, Err e) => (r, Err e)
  | (r, Ok m) =>
      match rest_of (drop m b) r with
      | (r, Err e) => (r, Err e)
      | (r, Ok n) => (r, Ok (m + n)%nat)
      end
  end.
Proof.
  unfold Parse, rest_of, eager. destruct (parseFirstLine b r) as [r1 [m|e]]; [|done].
  pose proof (req_NoBody_dis r1) as Hd. destruct (NoBody r1) as [nb r2]. cbn [snd] in *.
  destruct (negb nb || noHTTP11 r2).
  - unfold parseHeaders. rewrite request_scan. cbn [disableNormalizing set_contentLength]. rewrite Hd.
    by destruct (scan _ _ _) as [l [b'|]].
  - by destruct (readRawHeaders [] (drop m b)) as [[raw n]|].
Qed.

Lemma req_first_line_cases b r :
  (parseFirstLine b r = (r, Err errNeedMore)) ∨
  ∃ u rest, b = u ++ rest ∧ u ≠ [] ∧ (∀ x, parseFirstLine (u ++ x) r = parseFirstLine b r) ∧
    match (parseFirstLine b r).2 with Ok m => m = length u | Err e => need e = false end.
Proof.
  destruct (first_line (S (length b)) b) as [[l rest]|] eqn:Hf.
  2:{ left. unfold parseFirstLine. by rewrite Hf. }
  right. destruct (first_line_local (S (length b)) b l rest ltac:(lia) Hf) as (u & -> & Hu & Hx).
  exists u, rest. split; [done|]. split; [done|].
  assert (Hlen : ∀ x : bytes, (length (u ++ x) - length x = length u)%nat).
  { intros x. rewrite length_app. lia. }
  split.
  - intros x. unfold parseFirstLine. rewrite Hf, Hx by lia. by rewrite !Hlen.
  - unfold parseFirstLine. rewrite Hf, Hlen. cbv zeta.
    destruct (IndexByte l " "%byte) as [[|n]|]; [done| |done].
    destruct (LastIndexByte _ " "%byte) as [[|k]|]; [done| |done]. by destruct (bool_decide _).
Qed.

Lemma req_eager_vis r : eager (vis r) = eager r.
Proof. unfold eager. rewrite req_NoBody_vis. by destruct (NoBody r). Qed.

Lemma req_rest_of_vis b r : vis (rest_of b r).1 = vis (rest_of b (vis r)).1 ∧ (rest_of b r).2 = (rest_of b (vis r)).2.
Proof.
  unfold rest_of. rewrite req_eager_vis, req_NoBody_vis. change (disableNormalizing (vis r)) with (disableNormalizing r).
  destruct (eager r).
  - destruct (scan _ _ b) as [l o]. cbn [snd].
    pose proof (req_fold_vis l (set_contentLength (-2) (NoBody r).2)) as Hv.
    change (vis (set_contentLength (-2) (NoBody r).2)) with (set_contentLength (-2) (vis (NoBody r).2)) in Hv.
    set (r1 := foldl _ _ l) in *. set (r2 := foldl _ (set_contentLength (-2) (vis _)) l) in *.
    destruct o as [b'|]; (split; [|done]); cbn [fst].
    + change (set_rawHeadersParsed true (vis (finish r1)) = set_rawHeadersParsed true (vis (finish r2))).
      by rewrite <- !req_finish_vis, Hv.
    + change (set_connectionClose true (vis r1) = set_connectionClose true (vis r2)). by rewrite Hv.
  - by destruct (readRawHeaders [] b) as [[raw n]|].
Qed.

Lemma req_Parse_vis b r : vis (Parse b r).1 = vis (Parse b (vis r)).1 ∧ (Parse b r).2 = (Parse b (vis r)).2.
Proof.
  rewrite !req_Parse_eq, req_parseFirstLine_vis. destruct (parseFirstLine b r) as [r1 [m|e]]; cbn [fst snd]; [|done].
  destruct (req_rest_of_vis (drop m b) r1) as [H1 H2].
  destruct (rest_of (drop m b) r1) as [r2 [n|e]], (rest_of (drop m b) (vis r1)) as [r3 [n'|e']];
    cbn [fst snd] in *; try discriminate H2; injection H2 as ->; done.
Qed.

Lemma req_Parse_dis b r : disableNormalizing (Parse b r).1 = disableNormalizing r.
Proof.
  rewrite req_Parse_eq. assert (H1 : disableNormalizing (parseFirstLine b r).1 = disableNormalizing r).
  { unfold parseFirstLine. by repeat case_match. }
  destruct (parseFirstLine b r) as [r1 [m|e]]; [|done]. cbn [fst] in H1. rewrite <- H1.
  assert (H2 : ∀ x, disableNormalizing (rest_of x r1).1 = disableNormalizing r1).
  { intros x. unfold rest_of. destruct (eager r1).
    - pose proof (parse_lines_keeps (S (length x)) (disableNormalizing r1) x (set_contentLength (-2) (NoBody r1).2)) as [Hk _].
      rewrite request_scan in Hk. destruct (scan _ _ x) as [l [b'|]]; cbn [fst] in *.
      + destruct (finish_keeps (foldl (λ r kv, header_case kv.1 kv.2 r) (set_contentLength (-2) (NoBody r1).2) l)) as [Hf _].
        cbn [disableNormalizing set_rawHeadersParsed]. rewrite Hf, Hk. apply req_NoBody_dis.
      + cbn [disableNormalizing set_connectionClose]. rewrite Hk. apply req_NoBody_dis.
    - destruct (readRawHeaders [] x) as [[raw n]|]; apply req_NoBody_dis. }
  specialize (H2 (drop m b)). by destruct (rest_of (drop m b) r1) as [r2 [n|e]].
Qed.

Lemma req_rest_of_local b r r' n : rest_of b r = (r', Ok n) →
  ∃ u rest, b = u ++ rest ∧ n = length u ∧ ∀ x, rest_of (u ++ x) r = (r', Ok n).
Proof.
  unfold rest_of. destruct (eager r).
  - destruct (scan _ _ b) as [l [b'|]] eqn:Hs; [|done]. intros [= <- <-].
    destruct (scan_local (disableNormalizing r) b l b' (S (length b)) ltac:(lia) Hs) as (u & -> & _ & Hx).
    exists u, b'. rewrite !length_app. split_and!; [done|lia|]. intros x.
    rewrite length_app, (Hx x) by (rewrite length_app; lia). do 2 f_equal. lia.
  - destruct (readRawHeaders [] b) as [[raw k]|] eqn:Hr; [|done]. intros [= <- <-].
    destruct (readRawHeaders_local _ _ _ Hr) as (u & rest & -> & -> & Hx).
    exists u, rest. split_and!; [done..|]. intros x. by rewrite Hx.
Qed.

Lemma req_rest_of_need b r r' e : rest_of b r = (r', Err e) → need e = true.
Proof.
  unfold rest_of. destruct (eager r).
  - destruct (scan _ _ b) as [l [b'|]]; [done|]. by intros [= _ <-].
  - destruct (readRawHeaders [] b) as [[raw k]|]; [done|]. by intros [= _ <-].
Qed.

(** The lines are normalized in the buffer, unless they are kept raw. *)
Definition reffect (b : bytes) (r : t) : bytes :=
  if eager r then scan_effect (S (length b)) (disableNormalizing r) b else b.

#[export] Instance request_parser : HeaderParser t parseError := {
  hparse := Parse; hreset := ResetSkipNormalize; hneed := need;
  heffect := two_effect parseFirstLine reffect
}.

Lemma req_Parse_two b r : Parse b r = two parseFirstLine rest_of b r.
Proof. apply req_Parse_eq. Qed.

Lemma req_first_stage b r :
  (∃ r' e, parseFirstLine b r = (r', Err e) ∧ need e = true) ∨
  ∃ u x0, b = u ++ x0 ∧ (∀ x, parseFirstLine (u ++ x) r = parseFirstLine b r) ∧
    match (parseFirstLine b r).2 with Ok m => m = length u | Err e => need e = false end.
Proof.
  destruct (req_first_line_cases b r) as [H|(u & x0 & H1 & _ & H2 & H3)]; [left; eauto|right; eauto].
Qed.
Lemma req_reffect_alike b r : Forall2 alike b (reffect b r).
Proof. unfold reffect. destruct (eager r); [apply scan_effect_alike; lia|apply header_alike_refl]. Qed.
Lemma req_reffect_again b r r' e : rest_of b r = (r', Err e) →
  ∀ x, rest_of (reffect b r ++ x) r = rest_of (b ++ x) r.
Proof.
  unfold rest_of, reffect. destruct (eager r); [|done].
  destruct (scan _ _ b) as [l [b'|]] eqn:Hs; [done|]. intros _ x.
  assert (Hlen : length (scan_effect (S (length b)) (disableNormalizing r) b ++ x) = length (b ++ x)).
  { rewrite !length_app. f_equal. symmetry. eapply Forall2_length, scan_effect_alike. lia. }
  rewrite Hlen, scan_effect_again; [done|lia|by rewrite Hs|lia].
Qed.
Lemma req_reffect_rest b r r' n : rest_of b r = (r', Ok n) → drop n (reffect b r) = drop n b.
Proof.
  unfold rest_of, reffect. destruct (eager r); [|done].
  destruct (scan _ _ b) as [l [b'|]] eqn:Hs; [|done]. intros [= _ <-].
  destruct (scan_effect_rest (S (length b)) (disableNormalizing r) b l b' ltac:(lia) Hs) as (u & Hu).
  assert (Hl : length b = length (scan_effect (S (length b)) (disableNormalizing r) b))
    by (eapply Forall2_length, scan_effect_alike; lia).
  destruct (scan_local (disableNormalizing r) b l b' (S (length b)) ltac:(lia) Hs) as (u' & Hb & _).
  rewrite Hu in *. subst b. rewrite !length_app in *.
  rewrite !drop_app_ge by lia.
  f_equal; lia.
Qed.

#[export] Program Instance request_laws : ParserLaws t parseError := {
  heq := λ r1 r2, vis r1 = vis r2
}.
Next Obligation. split; repeat intros ?; congruence. Qed.
Next Obligation.
  intros b h1 h2 Hv. cbn [hparse request_parser]. destruct (req_Parse_vis b h1) as [H1 H2], (req_Parse_vis b h2) as [H3 H4].
  split; [by rewrite H1, H3, Hv|by rewrite H2, H4, Hv].
Qed.
Next Obligation.
  intros b r. cbn [hparse hreset request_parser]. unfold vis, ResetSkipNormalize. cbn. rewrite req_Parse_dis. done.
Qed.
Next Obligation.
  intros b r r' n. cbn [hparse request_parser]. setoid_rewrite req_Parse_two. intros Ht.
  by eapply (two_local need); eauto using req_first_stage, req_rest_of_local.
Qed.
Next Obligation.
  intros b r e. cbn [hparse hneed request_parser]. setoid_rewrite req_Parse_two. intros Ht Hn.
  by eapply (two_error need); eauto using req_first_stage, req_rest_of_need.
Qed.
Next Obligation.
  intros b r. symmetry. eapply Forall2_length, two_effect_alike, req_reffect_alike.
Qed.
Next Obligation.
  intros b r e. cbn [hparse hneed heffect request_parser]. setoid_rewrite req_Parse_two. intros Ht Hn.
  by eapply (two_effect_again need); eauto using req_first_stage, req_reffect_again.
Qed.
Next Obligation.
  intros b r. apply alike_crlf, two_effect_alike, req_reffect_alike.
Qed.
Next Obligation.
  intros b r r' n. cbn [hparse heffect request_parser]. rewrite req_Parse_two. intros Ht.
  by eapply (two_effect_rest need); eauto using req_first_stage, req_reffect_rest.
Qed.

Definition tryRead_ (r : t) (rd : Reader) (n : nat) : tried parseError * t * Reader := tryRead r rd n.
Definition Read_ (r : t) (rd : Reader) : option (res (option (readErr parseError)) unit * t * Reader) :=
  Read r rd.
End RequestRead.

(** ** The response header *)

Module ResponseRead.
Import ResponseHeader.

Definition need (e : parseError) : bool := match e with errNeedMore => true | _ => false end.

Definition rest_of (b : bytes) (r : t) : t * res parseError nat :=
  let '(l, o) := scan (S (length b)) (disableNormalizing r) b in
  let r' := foldl (λ r kv, header_case kv.1 kv.2 r) (set_contentLength (-2) r) l in
  match o with
  | None => (set_connectionClose true r', Err errNeedMore)
  | Some b' => (finish r', Ok (length b - length b')%nat)
  end.
Definition reffect (b : bytes) (r : t) : bytes :=
  scan_effect (S (length b)) (disableNormalizing r) b.

#[export] Instance response_parser : HeaderParser t parseError := {
  hparse := parse; hreset := ResetSkipNormalize; hneed := need;
  heffect := two_effect parseFirstLine reffect
}.

Lemma resp_parse_two b r : parse b r = two parseFirstLine rest_of b r.
Proof.
  unfold parse, two, rest_of, parseHeaders. destruct (parseFirstLine b r) as [r1 [m|e]]; [|done].
  rewrite response_scan. cbn [disableNormalizing set_contentLength].
  by destruct (scan _ _ _) as [l [b'|]].
Qed.

(** What can be seen of a header: not the pairs beyond the length of a slice. *)
Definition vis (r : t) : t :=
  set_h (ArgsSlice (live (h r)) []) (set_cookies (ArgsSlice (live (cookies r)) []) r).

Lemma resp_parseFirstLine_vis b r :
  parseFirstLine b (vis r) = (vis (parseFirstLine b r).1, (parseFirstLine b r).2).
Proof. unfold parseFirstLine. repeat case_match; done. Qed.
Lemma resp_vis_set_h hh hh' r : live hh = live hh' → vis (set_h hh r) = vis (set_h hh' (vis r)).
Proof. intros E. unfold vis. cbn [h set_h set_cookies cookies live]. by rewrite E. Qed.
Lemma resp_header_case_vis k v r : vis (header_case k v r) = vis (header_case k v (vis r)).
Proof.
  unfold header_case. change (contentLength (vis r)) with (contentLength r).
  repeat (case_match; try done).
  - apply (resp_vis_set_h _ _ (set_contentLength (-1) r)), live_SetArg.
  - unfold vis, add_cookie. cbn [h set_h set_cookies cookies live]. by rewrite !AppendArg_live.
  - apply (resp_vis_set_h _ _ (set_connectionClose false r)). by rewrite !AppendArg_live.
  - apply resp_vis_set_h. by rewrite !AppendArg_live.
Qed.
Lemma resp_fold_vis l r :
  vis (foldl (λ r kv, header_case kv.1 kv.2 r) r l) =
  vis (foldl (λ r kv, header_case kv.1 kv.2 r) (vis r) l).
Proof.
  revert r. induction l as [|[k v] l IH]; intros r; [done|]. simpl.
  rewrite IH, resp_header_case_vis, <- IH. done.
Qed.
Lemma resp_finish_vis r : vis (finish (vis r)) = vis (finish r).
Proof.
  unfold finish. assert (Hc : contentLength (vis r) = contentLength r) by done. rewrite Hc.
  set (r1 := if contentLength r <? 0 then set_contentLengthBytes [] r else r).
  assert (H1 : (if contentLength r <? 0 then set_contentLengthBytes [] (vis r) else vis r) = vis r1).
  { unfold r1. by destruct (contentLength r <? 0). }
  rewrite H1. change (contentLength (vis r1)) with (contentLength r1).
  change (ConnectionUpgrade (vis r1)) with (ConnectionUpgrade r1).
  change (mustSkipContentLength (vis r1)) with (mustSkipContentLength r1).
  destruct (_ && _ && _).
  - set (x := set_connectionClose true _). set (y := set_connectionClose true (set_h _ r1)).
    assert (Hxy : vis x = vis y).
    { change (set_connectionClose true (vis (set_h (SetArg (h (vis r1)) StrTransferEncoding StrIdentity) (vis r1))) =
        set_connectionClose true (vis (set_h (SetArg (h r1) StrTransferEncoding StrIdentity) r1))).
      f_equal. symmetry. apply resp_vis_set_h, live_SetArg. }
    change (connectionClose x) with true. change (connectionClose y) with true.
    by rewrite !andb_false_r.
  - change (noHTTP11 (vis r1)) with (noHTTP11 r1). change (connectionClose (vis r1)) with (connectionClose r1).
    by destruct (noHTTP11 r1 && negb (connectionClose r1)).
Qed.

Lemma resp_rest_of_vis b r : vis (rest_of b r).1 = vis (rest_of b (vis r)).1 ∧ (rest_of b r).2 = (rest_of b (vis r)).2.
Proof.
  unfold rest_of. change (disableNormalizing (vis r)) with (disableNormalizing r).
  destruct (scan _ _ b) as [l o].
  pose proof (resp_fold_vis l (set_contentLength (-2) r)) as Hv.
  change (vis (set_contentLength (-2) r)) with (set_contentLength (-2) (vis r)) in Hv.
  set (r1 := foldl _ _ l) in *. set (r2 := foldl _ (set_contentLength (-2) (vis _)) l) in *.
  destruct o as [b'|]; (split; [|done]); cbn [fst].
  - by rewrite <- resp_finish_vis, Hv, resp_finish_vis.
  - change (set_connectionClose true (vis r1) = set_connectionClose true (vis r2)). by rewrite Hv.
Qed.
Lemma resp_parse_vis b r : vis (parse b r).1 = vis (parse b (vis r)).1 ∧ (parse b r).2 = (parse b (vis r)).2.
Proof.
  rewrite !resp_parse_two. unfold two. rewrite resp_parseFirstLine_vis.
  destruct (parseFirstLine b r) as [r1 [m|e]]; cbn [fst snd]; [|done].
  destruct (resp_rest_of_vis (drop m b) r1) as [H1 H2].
  destruct (rest_of (drop m b) r1) as [r2 [n|e]], (rest_of (drop m b) (vis r1)) as [r3 [n'|e']];
    cbn [fst snd] in *; try discriminate H2; injection H2 as ->; done.
Qed.

Lemma resp_header_case_dis k v r : disableNormalizing (header_case k v r) = disableNormalizing r.
Proof. unfold header_case, add_cookie. by repeat case_match. Qed.
Lemma resp_fold_dis l r :
  disableNormalizing (foldl (λ r kv, header_case kv.1 kv.2 r) r l) = disableNormalizing r.
Proof. revert r. induction l as [|kv l IH]; intros r; [done|]. simpl. by rewrite IH, resp_header_case_dis. Qed.
Lemma resp_finish_dis r : disableNormalizing (finish r) = disableNormalizing r.
Proof.
  unfold finish. set (r1 := if contentLength r <? 0 then _ else r).
  assert (H1 : disableNormalizing r1 = disableNormalizing r) by (unfold r1; by destruct (_ <? 0)).
  rewrite <- H1. destruct (_ && _ && _); by destruct (_ && _).
Qed.
Lemma resp_parse_dis b r : disableNormalizing (parse b r).1 = disableNormalizing r.
Proof.
  rewrite resp_parse_two. unfold two, rest_of.
  assert (H1 : disableNormalizing (parseFirstLine b r).1 = disableNormalizing r).
  { unfold parseFirstLine. by repeat case_match. }
  destruct (parseFirstLine b r) as [r1 [m|e]]; [|done]. cbn [fst] in H1. rewrite <- H1.
  destruct (scan _ _ _) as [l [b'|]]; cbn [fst].
  - by rewrite resp_finish_dis, resp_fold_dis.
  - change (disableNormalizing (foldl (λ r kv, header_case kv.1 kv.2 r) (set_contentLength (-2) r1) l) =
      disableNormalizing r1). by rewrite resp_fold_dis.
Qed.

Lemma resp_first_stage b r :
  (∃ r' e, parseFirstLine b r = (r', Err e) ∧ need e = true) ∨
  ∃ u x0, b = u ++ x0 ∧ (∀ x, parseFirstLine (u ++ x) r = parseFirstLine b r) ∧
    match (parseFirstLine b r).2 with Ok m => m = length u | Err e => need e = false end.
Proof.
  destruct (first_line (S (length b)) b) as [[l rest]|] eqn:Hf.
  2:{ left. unfold parseFirstLine. rewrite Hf. by eexists _, _. }
  right. change first_line with RequestHeader.first_line in Hf.
  destruct (first_line_local (S (length b)) b l rest ltac:(lia) Hf) as (u & -> & Hu & Hx).
  exists u, rest. split; [done|].
  assert (Hlen : ∀ x : bytes, (length (u ++ x) - length x = length u)%nat).
  { intros x. rewrite length_app. lia. }
  unfold parseFirstLine. change first_line with RequestHeader.first_line. split.
  - intros x. rewrite Hf, Hx by lia. by rewrite !Hlen.
  - rewrite Hf, Hlen. destruct (IndexByte l " "%byte) as [n|]; [|done]. cbv zeta.
    destruct (ParseUintBuf _) as [[v k] [e|]]; [done|]. destruct (_ !! _); [|done].
    by destruct (bool_decide _).
Qed.
Lemma resp_rest_of_local b r r' n : rest_of b r = (r', Ok n) →
  ∃ u rest, b = u ++ rest ∧ n = length u ∧ ∀ x, rest_of (u ++ x) r = (r', Ok n).
Proof.
  unfold rest_of. destruct (scan _ _ b) as [l [b'|]] eqn:Hs; [|done]. intros [= <- <-].
  destruct (scan_local (disableNormalizing r) b l b' (S (length b)) ltac:(lia) Hs) as (u & -> & _ & Hx).
  exists u, b'. rewrite !length_app. split_and!; [done|lia|]. intros x.
  rewrite length_app, (Hx x) by (rewrite length_app; lia). do 2 f_equal. lia.
Qed.
Lemma resp_rest_of_need b r r' e : rest_of b r = (r', Err e) → need e = true.
Proof. unfold rest_of. destruct (scan _ _ b) as [l [b'|]]; [done|]. by intros [= _ <-]. Qed.
Lemma resp_reffect_alike b r : Forall2 alike b (reffect b r).
Proof. apply scan_effect_alike. lia. Qed.
Lemma resp_reffect_again b r r' e : rest_of b r = (r', Err e) →
  ∀ x, rest_of (reffect b r ++ x) r = rest_of (b ++ x) r.
Proof.
  unfold rest_of. destruct (scan _ _ b) as [l [b'|]] eqn:Hs; [done|]. intros _ x.
  assert (Hlen : length (reffect b r ++ x) = length (b ++ x)).
  { rewrite !length_app. f_equal. symmetry. eapply Forall2_length, resp_reffect_alike. }
  unfold reffect in *. rewrite Hlen, scan_effect_again; [done|lia|by rewrite Hs|lia].
Qed.
Lemma resp_reffect_rest b r r' n : rest_of b r = (r', Ok n) → drop n (reffect b r) = drop n b.
Proof.
  unfold rest_of. destruct (scan _ _ b) as [l [b'|]] eqn:Hs; [|done]. intros [= _ <-].
  destruct (scan_effect_rest (S (length b)) (disableNormalizing r) b l b' ltac:(lia) Hs) as (u & Hu).
  assert (Hl : length b = length (reffect b r)) by eapply Forall2_length, resp_reffect_alike.
  destruct (scan_local (disableNormalizing r) b l b' (S (length b)) ltac:(lia) Hs) as (u' & Hb & _).
  unfold reffect in *. rewrite Hu in *. subst b. rewrite !length_app in *.
  rewrite !drop_app_ge by lia. f_equal; lia.
Qed.

#[export] Program Instance response_laws : ParserLaws t parseError := {
  heq := λ r1 r2, vis r1 = vis r2
}.
Next Obligation. split; repeat intros ?; congruence. Qed.
Next Obligation.
  intros b h1 h2 Hv. cbn [hparse response_parser].
  destruct (resp_parse_vis b h1) as [H1 H2], (resp_parse_vis b h2) as [H3 H4].
  split; [by rewrite H1, H3, Hv|by rewrite H2, H4, Hv].
Qed.
Next Obligation.
  intros b r. cbn [hparse hreset response_parser]. unfold vis, ResetSkipNormalize. cbn. by rewrite resp_parse_dis.
Qed.
Next Obligation.
  intros b r r' n. cbn [hparse response_parser]. setoid_rewrite resp_parse_two. intros Ht.
  by eapply (two_local need); eauto using resp_first_stage, resp_rest_of_local.
Qed.
Next Obligation.
  intros b r e. cbn [hparse hneed response_parser]. setoid_rewrite resp_parse_two. intros Ht Hn.
  by eapply (two_error need); eauto using resp_first_stage, resp_rest_of_need.
Qed.
Next Obligation.
  intros b r. symmetry. eapply Forall2_length, two_effect_alike, resp_reffect_alike.
Qed.
Next Obligation.
  intros b r e. cbn [hparse hneed heffect response_parser]. setoid_rewrite resp_parse_two. intros Ht Hn.
  by eapply (two_effect_again need); eauto using resp_first_stage, resp_reffect_again.
Qed.
Next Obligation.
  intros b r. apply alike_crlf, two_effect_alike, resp_reffect_alike.
Qed.
Next Obligation.
  intros b r r' n. cbn [hparse heffect response_parser]. rewrite resp_parse_two. intros Ht.
  by eapply (two_effect_rest need); eauto using resp_first_stage, resp_reffect_rest.
Qed.

Definition tryRead_ (r : t) (rd : Reader) (n : nat) : tried parseError * t * Reader := tryRead r rd n.
Definition Read_ (r : t) (rd : Reader) : option (res (option (readErr parseError)) unit * t * Reader) :=
  Read r rd.
End ResponseRead.

(** ** Examples *)
Module headerread_example.
Import RequestRead ResponseRead.

(** A request in five reads, which split a name and two line ends. *)
Definition rd (size : nat) : Reader :=
  mkReader [] size None
    [(bs "POST /x HTTP/1.1", None); ([CR], None); (LF :: bs "con", None);
     (bs "tent-length: 3" ++ [CR], None); (LF :: CR :: LF :: bs "abcnext", None)].
Definition h0 : RequestHeader.t :=
  RequestHeader.Mk false false false false false false 0 [] [] [] [] [] []
    (ArgsSlice [] []) (ArgsSlice [] []) [].

(** What is read, and what is left. *)
Definition outcome (o : option (res (option (readErr RequestHeader.parseError)) unit * RequestHeader.t * Reader)) :
  option (res (option (readErr RequestHeader.parseError)) unit * bytes * Z * bytes) :=
  '(r, h, rd) ← o; Some (r, RequestHeader.requestURI h, RequestHeader.contentLength h, data rd).

Example read_pieces : outcome (RequestRead.Read_ h0 (rd 64)) = Some (Ok tt, bs "/x", 3, bs "abcnext").
Proof. vm_compute. reflexivity. Qed.
Example read_small : outcome (RequestRead.Read_ h0 (rd 24)) =
  Some (Err (Some (RSmall CSmallBuffer 24 (bs "POST /x HTTP/1.1" ++ [CR; LF] ++ bs "conten", None))),
    [], 0, bs "POST /x HTTP/1.1" ++ [CR; LF] ++ bs "content-length: 3" ++ [CR; LF; CR; LF] ++ bs "abcnext").
Proof. vm_compute. reflexivity. Qed.
(** The message shows the name as it was normalized in the buffer. *)
Example read_cut : outcome (RequestRead.Read_ h0 (mkReader [] 64 None [(bs "POST / HTTP/1.1" ++ [LF] ++ bs "a-b: c", None)])) =
  Some (Err (Some (RMsg (CIo EOF) 22 (bs "POST / HTTP/1.1" ++ [LF] ++ bs "A-B: c", None))),
    [], 0, bs "POST / HTTP/1.1" ++ [LF] ++ bs "A-B: c").
Proof. vm_compute. reflexivity. Qed.
Example read_crlf : outcome (RequestRead.Read_ h0 (mkReader [] 64 None [([CR; LF; CR; LF], None)])) =
  Some (Err (Some REOF), [], 0, [CR; LF; CR; LF]).
Proof. vm_compute. reflexivity. Qed.

Lemma read_split_witness : ∃ h' r', Read h0 (rd 64) = Some (Ok tt, h', r') ∧ data r' = bs "abcnext".
Proof.
  destruct (read_split h0 (rd 64) (RequestHeader.Parse (data (rd 64)) (RequestHeader.ResetSkipNormalize h0)).1 39)
    as (h' & r' & H1 & _ & H2).
  - split; [vm_compute; lia|]. right. split; [reflexivity|]. vm_compute. repeat split; try discriminate; right;
      repeat split; try discriminate; right; repeat split; try discriminate; right; repeat split; try discriminate;
      right; repeat split; try discriminate; left; lia.
  - simpl. lia.
  - vm_compute. reflexivity.
  - exists h', r'. split; [exact H1|]. rewrite H2. vm_compute. reflexivity.
Defined.

Lemma read_returns_witness : ∃ res h' r', Read h0 (rd 24) = Some (res, h', r') ∧ res ≠ Err None.
Proof.
  destruct (read_returns h0 (rd 24) ltac:(simpl; lia)) as (res & h' & r' & H1 & H2 & _).
  exists res, h', r'. split; [exact H1|exact H2].
Defined.

Definition cut : Reader := mkReader [] 64 None [(bs "POST / HTTP/1.1" ++ [LF] ++ bs "a-b: c", None)].
Lemma read_short_witness : ∃ h' r' b, length b = 22%nat ∧
  Read h0 cut = Some (Err (Some (if isOnlyCRLF b then REOF else RMsg (CIo EOF) 22 (bufferSnippet b))), h', r').
Proof.
  destruct (read_short h0 cut 22 RequestHeader.errNeedMore) as (h' & r' & b & Hl & _ & Hr).
  - split; [reflexivity|]. constructor; [split; [discriminate|reflexivity]|constructor].
  - simpl. lia.
  - reflexivity.
  - lia.
  - vm_compute. reflexivity.
  - reflexivity.
  - exists (hreset h'), r', b. split; [exact Hl|exact Hr].
Defined.

Lemma read_nothing_witness : ∃ r', Read h0 (mkReader [] 64 None [([], Some (ErrOther 7))]) =
  Some (Err (Some REOF), hreset (hreset h0), r').
Proof.
  apply (read_nothing h0 (mkReader [] 64 None [([], Some (ErrOther 7))]) (ErrOther 7) []);
    [reflexivity..|simpl; lia|reflexivity].
Defined.
End headerread_example.
