(* ===== verification/HttpRequestBody.v ===== *)
(** * Requests in full: bodies from streams, copies, pools

    The rest of src/pkg/protocol/http/v1/request.go, and the pools of codec.go: a
    request ([req]) is the one of HttpCodec.v with its body stream, and with the
    request whose header its URI asks for the host ([owner]): URI keeps a pointer to
    a header, which CopyTo copies.  Requests live in a [store], by number, where that
    pointer matters.

    The multipart writer of the library, the text of an error and how much memory an
    append takes are arguments.

    The theorems: the body of a stream is what the stream gives, and Body and SwapBody
    hand it out once; appended bodies add up; CopyTo gives an equal request without the
    stream; a request from the pool is empty.  But the host of a copy is that of
    whatever request is in the original by then, and the post arguments do not follow
    the body. *)
From S2P Require Import Prelude BytePool IoBuffer BytesConv Args HttpUri HttpCookie HttpHeader HttpRequest HttpResponse HttpCodec HeaderScan HeaderRead HttpBody HttpBufPool.

Record req := mkReq { base : Request; bodyStream : option Reader; owner : nat }.
Definition with_base (b : Request) (r : req) : req := mkReq b (bodyStream r) (owner r).
Definition with_stream (s : option Reader) (r : req) : req := mkReq (base r) s (owner r).

(** ** URI, arguments, header *)

(** parseQuick sets the pointer of the URI to the header of this request. *)
Definition parseURI_ (id : nat) (r : req) : req :=
  if parsedURI (base r) then r else mkReq (parseURI (base r)) (bodyStream r) id.
Definition URI_ (id : nat) (r : req) : URI * req := let r := parseURI_ id r in (uri (base r), r).
Definition PostArgs (r : req) : option (Args * req) :=
  b ← parsePostArgs (base r); Some (postArgs b, with_base b r).

Definition SetHost (id : nat) (x : bytes) (r : req) : req :=
  let '(u, r) := URI_ id r in with_base (set_uri (HttpUri.SetHost x u) (parsedURI (base r)) (base r)) r.
Definition SetHostBytes (id : nat) (x : bytes) (r : req) : req := SetHost id x r.
Definition SetRequestURI (u : bytes) (r : req) : req := with_base (HttpCodec.SetRequestURI u (base r)) r.
Definition SetRequestURIBytes (u : bytes) (r : req) : req := SetRequestURI u r.
Definition ConnectionClose (r : req) : bool * req :=
  let '(c, hd) := RequestHeader.ConnectionClose (rHeader (base r)) in (c, with_base (set_header hd (base r)) r).
Definition SetConnectionClose (r : req) : req :=
  with_base (set_header (RequestHeader.SetConnectionClose (rHeader (base r))) (base r)) r.

(** Host, in the store: the header that is asked may be that of another request. *)
Abbreviation store := (gmap nat req).
Definition Host (id : nat) (s : store) : option (bytes * store) :=
  r ← s !! id;
  let r := parseURI_ id r in
  let s := <[id := r]> s in
  let u := uri (base r) in
  if (zlen (host u) =? 0) && h u then
    o ← s !! owner r;
    let '(hh, hd) := RequestHeader.Host (rHeader (base o)) in
    let s := <[owner r := with_base (set_header hd (base o)) o]> s in
    r ← s !! id;
    let '(x, u) := HttpUri.Host hh (uri (base r)) in
    Some (x, <[id := with_base (set_uri u (parsedURI (base r)) (base r)) r]> s)
  else Some (host u, s).

(** ** Bodies *)

(** The result of Close, where the stream has one. *)
Definition closeBodyStream (r : req) : option wErr * req :=
  match bodyStream r with
  | None => (None, r)
  | Some s =>
      (match s with Plain s => closing s ≫= fmap ErrClose | Limited _ _ => None end, with_stream None r)
  end.
Definition ResetBody_ (r : req) : req :=
  let r := (closeBodyStream r).2 in with_base (ResetBody (base r)) r.
Definition resetSkipHeader_ (r : req) : req :=
  let r := (closeBodyStream r).2 in with_base (resetSkipHeader (base r)) r.
Definition Reset_ (r : req) : req :=
  resetSkipHeader_ (with_base (set_header (RequestHeader.Reset (rHeader (base r))) (base r)) r).

Definition SetBodyStream (s : Reader) (bodySize : Z) (r : req) : req :=
  let r := with_stream (Some s) (ResetBody_ r) in
  with_base (set_header (RequestHeader.SetContentLength bodySize (rHeader (base r))) (base r)) r.
Definition IsBodyStream (r : req) : bool := match bodyStream r with Some _ => true | None => false end.

(** [None]: the panic at req.body.B of a request without a body. *)
Definition ReleaseBody (size : Z) (r : req) : option req :=
  b ← body (base r);
  if size <? bcap b
  then let r := (closeBodyStream r).2 in Some (with_base (set_body None (base r)) r)
  else Some r.

Section bodies.
(** What requestBodyPool.Get hands out, the spare memory of an append, err.Error(),
    and marshalMultipartForm for the form of the request. *)
Context (pooled : ByteBuffer) (more : nat) (errText : wErr → bytes)
  (marshalMultipartForm : Request → res bytes bytes).

Definition bodyBuffer_ (r : req) : ByteBuffer * req :=
  let b := bodyBuffer pooled (base r) in (b, with_base (set_body (Some b) (base r)) r).
Definition put_body (b : ByteBuffer) (r : req) : req := with_base (set_body (Some b) (base r)) r.

(** copyZeroAlloc to a ByteBuffer, which reads from the stream itself. *)
Definition copyZeroAlloc_ (b : ByteBuffer) (s : Reader) : option (Z * option wErr * Reader * ByteBuffer) :=
  HttpBufPool.ReadFrom s b.

(** The stream into the body, and the text of the error when there is one.
    [None]: the fuel of the copy ran out. *)
Definition drain_stream (s : Reader) (r : req) : option req :=
  let '(b, r) := bodyBuffer_ r in
  '(_, err, s', b) ← copyZeroAlloc_ (bb_reset b) s;
  let r := (closeBodyStream (put_body b (with_stream (Some s') r))).2 in
  Some (match err with
        | Some e => put_body (SetString (errText e) more b) r
        | None => r
        end).

Definition onlyMultipartForm (r : req) : bool :=
  multipartForm (base r) && match body (base r) with None => true | Some b => zlen (bb b) =? 0 end.

Definition Body (r : req) : option (bytes * req) :=
  match bodyStream r with
  | Some s => r ← drain_stream s r; Some (bodyBytes (base r), r)
  | None =>
      if onlyMultipartForm r then
        Some (match marshalMultipartForm (base r) with Ok b => b | Err e => e end, r)
      else Some (bodyBytes (base r), r)
  end.

(** The bytes given become those of the buffer: [body] is the caller's slice. *)
Definition SwapBody (new : bytes) (r : req) : option (bytes * req) :=
  let '(_, r) := bodyBuffer_ r in
  r ← match bodyStream r with Some s => drain_stream s r | None => Some r end;
  Some (bodyBytes (base r), put_body (MkBB new []) r).

Definition AppendBodyString (x : bytes) (r : req) : req :=
  let r := with_base (RemoveMultipartFormFiles (base r)) r in
  let r := (closeBodyStream r).2 in
  let '(b, r) := bodyBuffer_ r in
  put_body (WriteString x more b).2 r.
Definition AppendBody (p : bytes) (r : req) : req := AppendBodyString p r.
(** requestBodyWriter *)
Definition BodyWriter_Write (p : bytes) (r : req) : Z * option wErr * req :=
  (zlen p, None, AppendBody p r).

(** ** Copies *)

Definition copyToSkipBody (r dst : req) : req :=
  let dst := Reset_ dst in
  let b := set_header (RequestHeader.CopyTo (rHeader (base r)) (rHeader (base dst))) (base dst) in
  let b := set_uri (HttpUri.CopyTo (uri (base r)) (uri b)) (parsedURI (base r)) b in
  let b := set_postArgs (Args.CopyTo (postArgs (base r)) (postArgs b)) (parsedPostArgs (base r)) b in
  let b := set_isTLS (isTLS (base r)) b in
  mkReq b (bodyStream dst) (owner r).
Definition CopyTo (r dst : req) : req :=
  let dst := copyToSkipBody r dst in
  match body (base r) with
  | Some b => let '(d, dst) := bodyBuffer_ dst in put_body (Set_ (bb b) more d) dst
  | None => match body (base dst) with
            | Some d => put_body (bb_reset d) dst
            | None => dst
            end
  end.
End bodies.

(** ** The pools of codec.go

    A sync.Pool hands out any of its items, or none: [pick]. *)
Section pool.
Context {A : Type} (zero : A) (reset : A → A).
Definition Acquire (pick : option nat) (pool : list A) : A * list A :=
  match (i ← pick; x ← pool !! i; Some (x, delete i pool)) with
  | Some r => r
  | None => (zero, pool)
  end.
Definition Release (x : A) (pool : list A) : list A := reset x :: pool.

(** Calls of the pool, with what the users make of the items they acquire. *)
Inductive pool_run : list A → list A → Prop :=
| run_nil p : pool_run p p
| run_acquire p p' pick : pool_run p p' → pool_run p (Acquire pick p').2
| run_release p p' x : pool_run p p' → pool_run p (Release x p')
| run_drop p p' i : pool_run p p' → pool_run p (delete i p').

Lemma acquire_reset (clean : A → Prop) p pick : clean zero → (∀ x, clean (reset x)) → pool_run [] p →
  clean (Acquire pick p).1.
Proof.
  intros Hz Hr Hrun. assert (Hp : Forall clean p).
  { remember [] as p0. induction Hrun as [q|q p' pk _ IH|q p' x _ IH|q p' i _ IH]; subst; [constructor| | |].
    - unfold Acquire. destruct pk as [i|]; simpl; [|by apply IH].
      destruct (p' !! i) as [x|]; simpl; [|by apply IH]. by apply Forall_delete, IH.
    - constructor; [apply Hr|by apply IH].
    - by apply Forall_delete, IH. }
  unfold Acquire. destruct pick as [i|]; simpl; [|done].
  destruct (p !! i) as [x|] eqn:Hx; simpl; [|done]. by eapply list.Forall_lookup_1 in Hx.
Qed.
End pool.

Definition zeroRequest : req :=
  mkReq (MkRequest (RequestHeader.Mk false false false false false false 0 [] [] [] [] [] []
           (ArgsSlice [] []) (ArgsSlice [] []) [])
         (MkURI [] [] [] [] [] [] (MkArgs (ArgsSlice [] []) []) false [] [] false)
         (MkArgs (ArgsSlice [] []) []) None false [] false false false false) None 0.
Definition AcquireRequest := Acquire zeroRequest.
Definition ReleaseRequest := Release Reset_.

(** ** Theorems *)

(** A request without anything in it. *)
Definition empty_header (x : RequestHeader.t) : Prop :=
  RequestHeader.disableNormalizing x = false ∧ RequestHeader.noHTTP11 x = false ∧
  RequestHeader.connectionClose x = false ∧ RequestHeader.isGet x = false ∧
  RequestHeader.cookiesCollected x = false ∧ RequestHeader.rawHeadersParsed x = false ∧
  RequestHeader.contentLength x = 0 ∧ RequestHeader.contentLengthBytes x = [] ∧
  RequestHeader.method x = [] ∧ RequestHeader.requestURI x = [] ∧ RequestHeader.host x = [] ∧
  RequestHeader.contentType x = [] ∧ RequestHeader.userAgent x = [] ∧
  live (RequestHeader.h x) = [] ∧ live (RequestHeader.cookies x) = [] ∧ RequestHeader.rawHeaders x = [].
Definition empty_uri (u : URI) : Prop :=
  pathOriginal u = [] ∧ scheme u = [] ∧ path u = [] ∧ queryString u = [] ∧ hash u = [] ∧
  host u = [] ∧ live (args (queryArgs u)) = [] ∧ parsedQueryArgs u = false ∧ h u = false.
Definition empty_request (r : req) : Prop :=
  empty_header (rHeader (base r)) ∧ empty_uri (uri (base r)) ∧ live (args (postArgs (base r))) = [] ∧
  bodyBytes (base r) = [] ∧ multipartForm (base r) = false ∧ multipartFormBoundary (base r) = [] ∧
  parsedURI (base r) = false ∧ parsedPostArgs (base r) = false ∧ isTLS (base r) = false ∧
  bodyStream r = None.

Lemma closeBodyStream_base r : base (closeBodyStream r).2 = base r ∧ bodyStream (closeBodyStream r).2 = None ∧
  owner (closeBodyStream r).2 = owner r.
Proof. unfold closeBodyStream. by destruct (bodyStream r) eqn:E. Qed.

Lemma Reset_empty r : empty_request (Reset_ r).
Proof.
  unfold Reset_, resetSkipHeader_. set (r1 := with_base _ r).
  destruct (closeBodyStream_base r1) as (Hb & Hs & _).
  destruct (closeBodyStream r1).2 as [b s o]. simpl in *. subst b s. unfold empty_request, empty_header, empty_uri. simpl.
  unfold resetSkipHeader, ResetBody, bodyBytes. simpl.
  destruct (body (base r)) as [bf|] eqn:Hbf; [destruct (keepBodyBuffer (base r))|]; simpl; rewrite ?Hbf; by split_and!.
Qed.

(** A request from the pool is empty, whatever requests it was before and whatever
    was done to them. *)
Theorem pooled_requests_empty (pool : list req) (pick : option nat) :
  pool_run zeroRequest Reset_ [] pool → empty_request (AcquireRequest pick pool).1.
Proof.
  intros Hrun. unfold AcquireRequest. eapply acquire_reset; [| |exact Hrun].
  - unfold empty_request, empty_header, empty_uri, bodyBytes. simpl. by split_and!.
  - apply Reset_empty.
Qed.

Section body_theorems.
Context (pooled : ByteBuffer) (more : nat) (errText : wErr → bytes)
  (marshalMultipartForm : Request → res bytes bytes).
Hypothesis pooled_empty : bb pooled = [].

Lemma drain_gives s d r : gives s d →
  ∃ r', drain_stream pooled more errText (Plain s) r = Some r' ∧ bodyBytes (base r') = d ∧ bodyStream r' = None.
Proof.
  intros Hg. unfold drain_stream, bodyBuffer_, copyZeroAlloc_.
  destruct (bytebuffer_readfrom s d (bb_reset (bodyBuffer pooled (base r))) Hg) as (r' & b' & -> & Hb).
  simpl. eexists. split; [done|]. split; [exact Hb|done].
Qed.

(** The body of a request with a stream is what the stream gives; SwapBody hands
    it out and puts the new one in its place, and the stream is gone either way. *)
Theorem stream_body (s : source) (d new : bytes) (n : Z) (r : req) : gives s d →
  (∃ r', Body pooled more errText marshalMultipartForm (SetBodyStream (Plain s) n r) = Some (d, r') ∧
     bodyStream r' = None ∧ Body pooled more errText marshalMultipartForm r' =
       Some (if onlyMultipartForm r' then
               match marshalMultipartForm (base r') with Ok b => b | Err e => e end else d, r')) ∧
  (∃ r', SwapBody pooled more errText new (SetBodyStream (Plain s) n r) = Some (d, r') ∧
     bodyStream r' = None ∧ bodyBytes (base r') = new).
Proof.
  intros Hg. split.
  - unfold Body at 1. simpl. destruct (drain_gives s d (SetBodyStream (Plain s) n r) Hg) as (r' & -> & Hb & Hs).
    simpl. exists r'. rewrite Hb. split_and!; [done..|]. unfold Body. rewrite Hs, Hb. by destruct (onlyMultipartForm r').
  - unfold SwapBody. simpl.
    set (r1 := with_base _ (SetBodyStream (Plain s) n r)).
    destruct (drain_gives s d r1 Hg) as (r' & -> & Hb & Hs). simpl. rewrite Hb. by eexists.
Qed.

(** What is appended to a body adds up, through AppendBody as through the body
    writer, and a stream that was set before is closed and forgotten. *)
Theorem append_adds_up (ps : list bytes) (r : req) :
  let r' := foldl (λ r p, AppendBody pooled more p r) r ps in
  bodyBytes (base r') = bodyBytes (base r) ++ concat ps ∧
  (ps ≠ [] → bodyStream r' = None ∧ multipartForm (base r') = false).
Proof.
  cbv zeta. revert r. induction ps as [|p ps IH]; intros r; simpl; [by rewrite app_nil_r|].
  destruct (IH (AppendBody pooled more p r)) as [H1 H2].
  assert (Ha : bodyBytes (base (AppendBody pooled more p r)) = bodyBytes (base r) ++ p).
  { unfold AppendBody, AppendBodyString. set (r1 := with_base _ r).
    destruct (closeBodyStream_base r1) as (Hb & _). destruct (closeBodyStream r1).2 as [b s o].
    simpl in *. subst b. unfold bodyBytes, bodyBuffer. simpl. destruct (body (base r)); simpl; [done|].
    by rewrite pooled_empty. }
  rewrite H1, Ha, <- app_assoc. split; [done|]. intros _.
  destruct ps as [|q ps]; [|by apply H2]. simpl.
  unfold AppendBody, AppendBodyString. set (r1 := with_base _ r).
  destruct (closeBodyStream_base r1) as (Hb & Hs & _). destruct (closeBodyStream r1).2 as [b s o].
  simpl in *. by subst b s.
Qed.

Lemma CopyArgs_live dst src : live (CopyArgs dst src) = src.
Proof.
  unfold CopyArgs. assert (H : (λ kv, KV (Key kv) (Value kv)) <$> src = src).
  { rewrite <- (list_fmap_id src) at 2. apply list_fmap_ext. by intros _ [] _. }
  case_if; simpl; done.
Qed.

(** What can be seen of a URI: not its scratch memory. *)
Definition vis_uri (u : URI) : URI :=
  MkURI (pathOriginal u) (scheme u) (path u) (queryString u) (hash u) (host u)
    (MkArgs (ArgsSlice (live (args (queryArgs u))) []) []) (parsedQueryArgs u) [] [] (h u).

(** CopyTo gives a request with the same header, URI, arguments and body, without
    the stream, whatever the destination was. *)
Theorem copy_same (r dst : req) :
  let c := CopyTo pooled more r dst in
  RequestRead.vis (rHeader (base c)) = RequestRead.vis (rHeader (base r)) ∧
  vis_uri (uri (base c)) = vis_uri (uri (base r)) ∧
  live (args (postArgs (base c))) = live (args (postArgs (base r))) ∧
  bodyBytes (base c) = bodyBytes (base r) ∧ parsedURI (base c) = parsedURI (base r) ∧
  parsedPostArgs (base c) = parsedPostArgs (base r) ∧ isTLS (base c) = isTLS (base r) ∧
  multipartForm (base c) = false ∧ bodyStream c = None.
Proof.
  cbv zeta. pose proof (Reset_empty dst) as (_ & _ & _ & Hbody & Hmf & _ & _ & _ & _ & Hs).
  unfold CopyTo, copyToSkipBody. set (d := Reset_ dst) in *. clearbody d.
  assert (Hh : RequestRead.vis (RequestHeader.CopyTo (rHeader (base r)) (rHeader (base d))) =
    RequestRead.vis (rHeader (base r))).
  { unfold RequestRead.vis, RequestHeader.CopyTo. cbn. by rewrite !CopyArgs_live. }
  assert (Hu : vis_uri (HttpUri.CopyTo (uri (base r)) (uri (base d))) = vis_uri (uri (base r))).
  { unfold vis_uri, HttpUri.CopyTo, Args.CopyTo. cbn. by rewrite CopyArgs_live. }
  assert (Hp : live (args (Args.CopyTo (postArgs (base r)) (postArgs (base d)))) = live (args (postArgs (base r)))).
  { apply CopyArgs_live. }
  unfold bodyBytes in *. destruct (body (base r)) as [b|] eqn:Hb.
  - cbn -[RequestRead.vis vis_uri Args.CopyTo]. rewrite ?Hb. split_and!; try done.
  - cbn -[RequestRead.vis vis_uri Args.CopyTo]. destruct (body (base d)) as [bd|] eqn:Hbd;
      cbn -[RequestRead.vis vis_uri Args.CopyTo]; rewrite ?Hbd; by split_and!.
Qed.

(** The arguments of a form that were parsed once are not parsed again when the
    body changes. *)
Theorem post_args_stale (p : bytes) (r : req) : parsedPostArgs (base r) = true →
  PostArgs (AppendBody pooled more p r) = Some (postArgs (base r), AppendBody pooled more p r).
Proof.
  intros Hp. unfold PostArgs, parsePostArgs.
  assert (H : parsedPostArgs (base (AppendBody pooled more p r)) = true ∧
              postArgs (base (AppendBody pooled more p r)) = postArgs (base r)).
  { unfold AppendBody, AppendBodyString. set (r1 := with_base _ r).
    destruct (closeBodyStream_base r1) as (Hb & _). destruct (closeBodyStream r1).2 as [b s o].
    simpl in *. by subst b. }
  destruct H as [-> Ha]. cbn [mbind option_bind]. rewrite Ha. by destruct (AppendBody pooled more p r).
Qed.

(** The host of a copy whose URI was parsed, and has no host of its own, is asked
    for in the header of the original: when the original has become another request,
    the copy gets the host of that one. *)
Theorem copied_host (s : store) (a b : nat) (ra rb ra' : req) : a ≠ b →
  parsedURI (base ra) = true → host (uri (base ra)) = [] → h (uri (base ra)) = true → owner ra = a →
  ∃ s', Host b (<[a := ra']> (<[b := CopyTo pooled more ra rb]> s)) =
    Some (LowercaseBytes (RequestHeader.Host (rHeader (base ra'))).1, s').
Proof.
  intros Hab Hp Hh Hf Ho. unfold Host. rewrite lookup_insert_ne, lookup_insert_eq by done. cbn [mbind option_bind].
  assert (Hc : ∃ c, c = CopyTo pooled more ra rb ∧ parsedURI (base c) = true ∧ host (uri (base c)) = [] ∧
    h (uri (base c)) = true ∧ owner c = a).
  { eexists. split; [done|]. unfold CopyTo, copyToSkipBody. set (d := Reset_ rb). clearbody d.
    destruct (body (base ra)); [by cbn|]. cbn [base body set_isTLS set_postArgs set_uri set_header].
    destruct (body (base d)); by cbn. }
  destruct Hc as (c & <- & Hc1 & Hc2 & Hc3 & Hc4). unfold parseURI_. rewrite Hc1, Hc2, Hc3. cbn [zlen length Z.of_nat Z.eqb andb].
  rewrite Hc4, lookup_insert_ne, lookup_insert_eq by done. cbn [mbind option_bind].
  destruct (RequestHeader.Host (rHeader (base ra'))) as [hh hd]. cbn [fst].
  rewrite lookup_insert_ne, lookup_insert_eq by done. cbn [mbind option_bind].
  unfold HttpUri.Host. rewrite Hc2, Hc3. cbn. by eexists.
Qed.
End body_theorems.

Module request_example.
Definition pooled0 : ByteBuffer := MkBB [] (bs "stale").
Definition text0 (e : wErr) : bytes := bs "error".
Definition noform (r : Request) : res bytes bytes := Err (bs "no form").
Definition src0 : source := mkSource [bs "hello "; bs "world"] None None.
Lemma src0_gives : gives src0 (bs "hello world").
Proof. split; [repeat constructor; discriminate|done]. Qed.

Lemma stream_body_witness : ∃ r', SwapBody pooled0 0 text0 (bs "new") (SetBodyStream (Plain src0) 11 zeroRequest) =
  Some (bs "hello world", r').
Proof.
  destruct (stream_body pooled0 0 text0 noform src0 (bs "hello world") (bs "new") 11 zeroRequest src0_gives)
    as [_ (r' & H & _)].
  exists r'. exact H.
Defined.
Lemma append_adds_up_witness :
  bodyBytes (base (foldl (λ r p, AppendBody pooled0 0 p r) zeroRequest [bs "a"; bs "b"])) = bs "ab".
Proof.
  pose proof (append_adds_up pooled0 0 eq_refl [bs "a"; bs "b"] zeroRequest) as H.
  cbv zeta in H. destruct H as [H _]. exact H.
Defined.
Lemma pooled_requests_empty_witness :
  empty_request (AcquireRequest (Some 0%nat) (ReleaseRequest (SetHost 0 (bs "h") zeroRequest) [])).1.
Proof.
  apply (pooled_requests_empty (ReleaseRequest (SetHost 0 (bs "h") zeroRequest) []) (Some 0%nat)).
  apply run_release, run_nil.
Defined.
Lemma post_args_stale_witness : ∃ a r, PostArgs r = Some (a, r) ∧ bodyBytes (base r) = bs "k=v".
Proof.
  set (r0 := mkReq (set_postArgs (postArgs (base zeroRequest)) true (base zeroRequest)) None 0).
  exists (postArgs (base r0)), (AppendBody pooled0 0 (bs "k=v") r0).
  split; [exact (post_args_stale pooled0 0 (bs "k=v") r0 eq_refl)|reflexivity].
Defined.

(** A request for /x with this Host header. *)
Definition request_for (host : bytes) : req :=
  with_base (set_header (RequestHeader.SetHost host
    (RequestHeader.SetRequestURI (bs "/x") (rHeader (base zeroRequest)))) (base zeroRequest)) zeroRequest.
Definition first : req := parseURI_ 1 (request_for (bs "First.example")).

Lemma copied_host_witness : ∃ s', Host 2 (<[1%nat := request_for (bs "Second.example")]>
    (<[2%nat := CopyTo pooled0 0 first zeroRequest]> ∅)) = Some (bs "second.example", s').
Proof.
  destruct (copied_host pooled0 0 ∅ 1 2 first zeroRequest (request_for (bs "Second.example")))
    as (s' & H); [discriminate|reflexivity|reflexivity|reflexivity|reflexivity|].
  exists s'. exact H.
Defined.

(** ReleaseBody of a request without a body panics. *)
Example release_panics : ReleaseBody 0 zeroRequest = None.
Proof. reflexivity. Qed.
End request_example.

(** ** The other pools

    sync.Pool of arguments, URIs, cookies, responses and the writers of WriteTo. *)
Module Pools.
Definition zeroArgs : Args := MkArgs (ArgsSlice [] []) [].
Definition AcquireArgs := Acquire zeroArgs.
Definition ReleaseArgs := Release Args.Reset.
Definition zeroURI : URI := MkURI [] [] [] [] [] [] zeroArgs false [] [] false.
Definition AcquireURI := Acquire zeroURI.
Definition ReleaseURI := Release HttpUri.Reset.
Definition zeroCookie : Cookie.t := Cookie.Mk [] [] zeroTime [] [] false false (KV [] []) [].
Definition AcquireCookie := Acquire zeroCookie.
Definition ReleaseCookie := Release Cookie.Reset.
Definition zeroResponse : Response.t :=
  Response.Mk (ResponseHeader.Mk false false false 0 0 [] [] [] (ArgsSlice [] []) (ArgsSlice [] []))
    None None false false.
Definition AcquireResponse := Acquire zeroResponse.
Definition ReleaseResponse := Release Response.Reset.

(** statsWriter: the writer below, by number, and the bytes it took. *)
Record statsWriter := mkStats { sw_w : option nat; sw_written : Z }.
Definition acquireStatsWriter (w : nat) (pick : option nat) (pool : list statsWriter) : statsWriter * list statsWriter :=
  let '(sw, pool) := Acquire (mkStats None 0) pick pool in (mkStats (Some w) (sw_written sw), pool).
Definition releaseStatsWriter := Release (λ _ : statsWriter, mkStats None 0).
(** [write] is Write of the writer below. *)
Definition stats_Write {E} (write : bytes → Z * option E) (p : bytes) (sw : statsWriter) : Z * option E * statsWriter :=
  let '(n, err) := write p in (n, err, mkStats (sw_w sw) (int64 (sw_written sw + n))).

(** responseBodyWriter *)
Definition responseBodyWriter_Write (p : bytes) (r : Response.t) : Z * option wErr * Response.t :=
  (zlen p, None, Response.AppendBody p r).

Definition empty_cookie (c : Cookie.t) : Prop :=
  Cookie.key c = [] ∧ Cookie.value c = [] ∧ Cookie.expire c = zeroTime ∧ Cookie.domain c = [] ∧
  Cookie.path c = [] ∧ Cookie.httpOnly c = false ∧ Cookie.secure c = false.
Definition empty_response (r : Response.t) : Prop :=
  ResponseHeader.statusCode (Response.Header r) = 0 ∧ ResponseHeader.contentLength (Response.Header r) = 0 ∧
  live (ResponseHeader.h (Response.Header r)) = [] ∧ live (ResponseHeader.cookies (Response.Header r)) = [] ∧
  Response.bodyBytes r = [] ∧ Response.bodyStream r = None ∧ Response.SkipBody r = false.

(** What the pools hand out is empty, whatever it was before; and a writer counts
    the bytes of its own response alone. *)
Theorem pooled_items_empty pa pu pc pr ps w pick :
  pool_run zeroArgs Args.Reset [] pa → pool_run zeroURI HttpUri.Reset [] pu →
  pool_run zeroCookie Cookie.Reset [] pc → pool_run zeroResponse Response.Reset [] pr →
  pool_run (mkStats None 0) (λ _, mkStats None 0) [] ps →
  live (args (AcquireArgs pick pa).1) = [] ∧ empty_uri (AcquireURI pick pu).1 ∧
  empty_cookie (AcquireCookie pick pc).1 ∧ empty_response (AcquireResponse pick pr).1 ∧
  (acquireStatsWriter w pick ps).1 = mkStats (Some w) 0.
Proof.
  intros Ha Hu Hc Hr Hs. split_and!.
  - by apply (acquire_reset zeroArgs Args.Reset (λ a, live (args a) = [])).
  - by apply (acquire_reset zeroURI HttpUri.Reset empty_uri).
  - by apply (acquire_reset zeroCookie Cookie.Reset empty_cookie).
  - apply (acquire_reset zeroResponse Response.Reset empty_response); [done| |done].
    intros r. unfold empty_response, Response.Reset, Response.resetSkipHeader, Response.ResetBody, Response.bodyBytes.
    destruct r as [hd [s|] [b|] sk []]; cbn; by split_and!.
  - unfold acquireStatsWriter.
    pose proof (acquire_reset (mkStats None 0) (λ _, mkStats None 0) (λ s, sw_written s = 0) ps pick eq_refl
      (λ _, eq_refl) Hs) as H.
    destruct (Acquire _ pick ps) as [sw q]. cbn in *. by rewrite H.
Qed.

Lemma pooled_items_empty_witness :
  live (args (AcquireArgs (Some 0%nat) (ReleaseArgs (MkArgs (ArgsSlice [KV (bs "a") (bs "b")] []) []) [])).1) = [] ∧
  (acquireStatsWriter 1 (Some 0%nat) (releaseStatsWriter (mkStats (Some 0%nat) 77) [])).1 = mkStats (Some 1%nat) 0.
Proof.
  destruct (pooled_items_empty (ReleaseArgs (MkArgs (ArgsSlice [KV (bs "a") (bs "b")] []) []) []) [] [] []
    (releaseStatsWriter (mkStats (Some 0%nat) 77) []) 1 (Some 0%nat)) as (H1 & _ & _ & _ & H2);
    [apply run_release, run_nil|apply run_nil|apply run_nil|apply run_nil|apply run_release, run_nil|].
  split; [exact H1|exact H2].
Defined.
End Pools.
