(* ===== verification/HttpVariants.v ===== *)
(** * The remaining methods of the HTTP types

    src/utils/args.go, src/utils/bytesconv.go and, under src/pkg/protocol/http/v1,
    header.go, uri.go, cookie.go and response.go: the variants for byte slices and
    strings (Go's unsafe casts B2s and S2b are the identity on bytes), the accessors
    of single headers, the writers, the pools, and ParseUfloat.

    [bufKV], the scratch pair of a header, is written out here, since several variants
    pass it on to methods that might write to it ([scratch]).

    The theorems: a cookie set on a response is read back; the Referer that was set is
    the one read; Update of a URI by a path keeps its host; ParseUfloat takes digits
    modulo 2^64. *)
From Stdlib Require Import Floats.SpecFloat.
From S2P Require Import Prelude BytesConv Args HttpUri HttpCookie HttpHeader HttpRequest HttpResponse HttpCodec Limit HttpBody.
#[local] Open Scope Z_scope.

(** ** Byte conversions *)

Definition B2s (b : bytes) : bytes := b.
Definition S2b (s : bytes) : bytes := s.
Definition EqualBytesStr (b s : bytes) : bool := b =b s.
Definition AppendBytesStr (dst src : bytes) : bytes := dst ++ src.
Definition AppendHTMLEscapeBytes (dst s : bytes) : bytes := AppendHTMLEscape dst (B2s s).
Definition ParseHTTPDate `{TimeFormat} (date : bytes) : option Z := ParseRFC1123 (B2s date).

Inductive floatErr :=
  errEmptyFloat | errDuplicateFloatPoint | errUnexpectedFloatEnd | errInvalidFloatExponent
| errUnexpectedFloatChar.

Section ufloat.
(** math.Pow10 *)
Context (Pow10 : Z → float).
Definition isDigit (c : byte) : bool := (48 <=? b2z c) && (b2z c <=? 57).

(** The loop of ParseUfloat; [v] is a uint64. *)
Fixpoint ufloat_loop (rest : bytes) (v : Z) (offset : float) (pointFound : bool)
  : float * option floatErr :=
  match rest with
  | [] => (fmul (float64 v) offset, None)
  | c :: b =>
      if negb (isDigit c) then
        if c =b "."%byte then
          if pointFound then (float64 (-1), Some errDuplicateFloatPoint)
          else ufloat_loop b v offset true
        else if (c =b "e"%byte) || (c =b "E"%byte) then
          match b with
          | [] => (float64 (-1), Some errUnexpectedFloatEnd)
          | s :: b' =>
              let '(minus, b) := if s =b "+"%byte then (1, b') else if s =b "-"%byte then (-1, b') else (1, b) in
              match ParseUint b with
              | (vv, None) => (fmul (fmul (float64 v) offset) (Pow10 (minus * vv)), None)
              | (_, Some _) => (float64 (-1), Some errInvalidFloatExponent)
              end
          end
        else (float64 (-1), Some errUnexpectedFloatChar)
      else
        ufloat_loop b (uint64 (10 * v + (b2z c - 48)))
          (if pointFound then fdiv offset (float64 10) else offset) pointFound
  end.
Definition ParseUfloat (buf : bytes) : float * option floatErr :=
  if zlen buf =? 0 then (float64 (-1), Some errEmptyFloat)
  else ufloat_loop buf 0 (float64 1) false.

Inductive ufArgErr := UfNoValue | UfFloat (e : floatErr).
Definition GetUfloat (a : Args) (key : bytes) : float * option ufArgErr :=
  match Args.Peek a key with
  | None | Some [] => (float64 (-1), Some UfNoValue)
  | Some v => let '(f, e) := ParseUfloat v in (f, UfFloat <$> e)
  end.
Definition GetUfloatOrZero (a : Args) (key : bytes) : float :=
  let '(f, e) := GetUfloat a key in match e with Some _ => float64 0 | None => f end.
End ufloat.

(** ** Query arguments *)
Module ArgsV.
Definition VisitArgs (h : argsSlice) : list (bytes * bytes) := (λ kv, (Key kv, Value kv)) <$> live h.
Definition VisitAll (a : Args) : list (bytes * bytes) := VisitArgs (args a).
Definition Len (a : Args) : nat := length (live (args a)).
Definition String_ (a : Args) : bytes * Args := Args.QueryString a.
(** To a writer that answers with a number and an error. *)
Definition WriteTo {E} (w : bytes → Z * option E) (a : Args) : Z * option E * Args :=
  let '(q, a) := Args.QueryString a in (w q, a).
Definition DelAllArgsBytes (h : argsSlice) (key : bytes) : argsSlice := DelAllArgs h (B2s key).
Definition SetArgBytes (h : argsSlice) (key value : bytes) : argsSlice := SetArg h (B2s key) (B2s value).
Definition AppendArgBytes (h : argsSlice) (key value : bytes) : argsSlice := AppendArg h (B2s key) (B2s value).
Definition DelBytes (a : Args) (key : bytes) : Args := MkArgs (DelAllArgs (args a) (B2s key)) (argsbuf a).
Definition AddBytesK (a : Args) (key value : bytes) : Args := MkArgs (AppendArg (args a) (B2s key) value) (argsbuf a).
Definition AddBytesV (a : Args) (key value : bytes) : Args := MkArgs (AppendArg (args a) key (B2s value)) (argsbuf a).
Definition AddBytesKV (a : Args) (key value : bytes) : Args := MkArgs (AppendArg (args a) (B2s key) (B2s value)) (argsbuf a).
Definition SetBytesK (a : Args) (key value : bytes) : Args := MkArgs (SetArg (args a) (B2s key) value) (argsbuf a).
Definition SetBytesV (a : Args) (key value : bytes) : Args := MkArgs (SetArg (args a) key (B2s value)) (argsbuf a).
Definition SetBytesKV (a : Args) (key value : bytes) : Args := MkArgs (SetArgBytes (args a) key value) (argsbuf a).
Definition PeekBytes (a : Args) (key : bytes) : option bytes := PeekArgBytes (live (args a)) key.
Definition PeekMultiBytes (a : Args) (key : bytes) : list bytes := Args.PeekMulti a (B2s key).
Definition HasBytes (a : Args) (key : bytes) : bool := hasArg (live (args a)) (B2s key).
End ArgsV.

(** ** URI *)
Module UriV.
Definition SetHashBytes (x : bytes) (u : URI) : URI := set_hash_ x u.
Definition SetQueryStringBytes (q : bytes) (u : URI) : URI := set_query_ q (queryArgs u) false u.
Definition SetPathBytes (p : bytes) (u : URI) : URI := set_path_ p (normalizePath p) u.
Definition PathOriginal (u : URI) : bytes := pathOriginal u.
Definition SetSchemeBytes (s : bytes) (u : URI) : URI := set_scheme_ (LowercaseBytes s) u.
Definition SetHostBytes (x : bytes) (u : URI) : URI := set_host_ (LowercaseBytes x) (h u) u.
Definition Update (hh newURI : bytes) (u : URI) : option URI := UpdateBytes hh newURI u.
Definition String_ (hh : bytes) (u : URI) : bytes * URI := FullURI hh u.
Definition WriteTo {E} (w : bytes → Z * option E) (hh : bytes) (u : URI) : Z * option E * URI :=
  let '(f, u) := FullURI hh u in (w f, u).
End UriV.

(** ** Cookies *)
Module CookieV.
Import Cookie.
Definition SetPathBytes (p : bytes) (c : t) : t := Cookie.SetPath p c.
Definition SetDomainBytes (d : bytes) (c : t) : t := Cookie.SetDomain d c.
Definition SetValueBytes (v : bytes) (c : t) : t := Cookie.SetValue v c.
Definition SetKeyBytes (k : bytes) (c : t) : t := Cookie.SetKey k c.
Definition CookieExpireUnlimited : Z := zeroTime.
Section times.
Context `{TimeFormat}.
Definition String_ (c : t) : bytes * t := Cookie_ c.
Definition WriteTo {E} (w : bytes → Z * option E) (c : t) : Z * option E * t :=
  let '(b, c) := Cookie_ c in (w b, c).
End times.
End CookieV.

(** ** The request header *)

Definition AppendNormalizedHeaderKeyBytes (dst key : bytes) : bytes :=
  AppendNormalizedHeaderKey dst (B2s key).

Module ReqV.
Import RequestHeader.
(** A header with its scratch pair. *)
Record sh := mkSh { hd : t; scratch : ArgsKV }.
Definition with_hd (f : t → t) (s : sh) : sh := mkSh (f (hd s)) (scratch s).
Definition set_scratch (k v : bytes) (s : sh) : sh := mkSh (hd s) (KV k v).

Definition SetContentTypeBytes (v : bytes) (s : sh) : sh := with_hd (SetContentType v) s.
Definition SetMultipartFormBoundaryBytes (boundary : bytes) (s : sh) : sh :=
  let s := with_hd parseRawHeaders s in
  let b := StrMultipartFormData ++ bs "; " ++ StrBoundary ++ bs "=" ++ boundary in
  let s := set_scratch (Key (scratch s)) b s in
  SetContentTypeBytes (Value (scratch s)) s.
Definition SetHostBytes (v : bytes) (s : sh) : sh := with_hd (SetHost v) s.
Definition SetUserAgentBytes (v : bytes) (s : sh) : sh := with_hd (SetUserAgent v) s.
Definition SetMethodBytes (m : bytes) (s : sh) : sh := with_hd (SetMethod m) s.
Definition SetRequestURIBytes (u : bytes) (s : sh) : sh := with_hd (SetRequestURI u) s.

(** normalizeHeaderKey on the scratch key. *)
Definition scratch_key (key : bytes) (s : sh) : sh :=
  set_scratch (normalizeHeaderKey key (disableNormalizing (hd s))) (Value (scratch s)) s.
Definition DelBytes (key : bytes) (s : sh) : sh :=
  let s := with_hd parseRawHeaders s in
  let s := scratch_key key s in with_hd (del (Key (scratch s))) s.
Definition SetBytesKV (key value : bytes) (s : sh) : sh :=
  let s := scratch_key key s in with_hd (SetCanonical (Key (scratch s)) value) s.
Definition SetBytesK (key value : bytes) (s : sh) : sh :=
  let s := set_scratch (Key (scratch s)) value s in SetBytesKV key (Value (scratch s)) s.
Definition SetBytesV (key value : bytes) (s : sh) : sh :=
  let s := set_scratch (getHeaderKeyBytes key (disableNormalizing (hd s))) (Value (scratch s)) s in
  with_hd (SetCanonical (Key (scratch s)) value) s.
Definition PeekBytes (key : bytes) (s : sh) : option bytes * sh :=
  let s := scratch_key key s in
  let '(v, x) := peek (Key (scratch s)) (hd s) in (v, mkSh x (scratch s)).
Definition initHeaderKV (key value : bytes) (disableNormalizing : bool) : ArgsKV :=
  KV (getHeaderKeyBytes key disableNormalizing) value.
Definition AddBytesK (key value : bytes) (s : sh) : sh := with_hd (Add (B2s key) value) s.
Definition AddBytesV (key value : bytes) (s : sh) : sh := with_hd (Add key (B2s value)) s.
Definition AddBytesKV (key value : bytes) (s : sh) : sh := with_hd (Add (B2s key) (B2s value)) s.

Definition Referer (s : sh) : option bytes * sh := PeekBytes StrReferer s.
Definition SetReferer (v : bytes) (s : sh) : sh := SetBytesK StrReferer v s.
Definition SetRefererBytes (v : bytes) (s : sh) : sh := with_hd (SetCanonical StrReferer v) s.
Definition HasAcceptEncoding (v : bytes) (s : sh) : bool * sh :=
  let s := set_scratch (Key (scratch s)) v s in
  let '(b, x) := HasAcceptEncodingBytes (Value (scratch s)) (hd s) in (b, mkSh x (scratch s)).

Definition SetCookieBytesK (key value : bytes) (s : sh) : sh := with_hd (SetCookie (B2s key) value) s.
Definition SetCookieBytesKV (key value : bytes) (s : sh) : sh := with_hd (SetCookie (B2s key) (B2s value)) s.
Definition DelCookieBytes (key : bytes) (s : sh) : sh := with_hd (DelCookie (B2s key)) s.
Definition CookieBytes (key : bytes) (s : sh) : option bytes * sh :=
  let x := with_cookies (hd s) in (PeekArgBytes (live (cookies x)) key, mkSh x (scratch s)).

Definition Header_ (s : sh) : bytes * sh :=
  let '(b, x) := Header (hd s) in (b, mkSh x (KV (Key (scratch s)) b)).
Definition String_ (s : sh) : bytes * sh := Header_ s.
Definition WriteTo {E} (w : bytes → Z * option E) (s : sh) : Z * option E * sh :=
  let '(b, s) := Header_ s in (w b, s).
Definition Write {E} (w : bytes → Z * option E) (s : sh) : option E * sh :=
  let '(b, s) := Header_ s in ((w b).2, s).
End ReqV.

(** ** The response header *)
Module RespV.
Import ResponseHeader.
Record sh := mkSh { hd : t; scratch : ArgsKV }.
Definition with_hd (f : t → t) (s : sh) : sh := mkSh (f (hd s)) (scratch s).
Definition set_scratch (k v : bytes) (s : sh) : sh := mkSh (hd s) (KV k v).
Definition scratch_key (key : bytes) (s : sh) : sh :=
  set_scratch (normalizeHeaderKey key (disableNormalizing (hd s))) (Value (scratch s)) s.

Definition StrLastModified : bytes := bs "Last-Modified".
Definition SetLastModified `{TimeFormat} (t : Z) (s : sh) : sh :=
  let s := set_scratch (Key (scratch s)) (AppendHTTPDate [] t) s in
  with_hd (SetCanonical StrLastModified (Value (scratch s))) s.
Definition SetContentTypeBytes (v : bytes) (s : sh) : sh := with_hd (SetContentType v) s.
Definition SetServerBytes (v : bytes) (s : sh) : sh := with_hd (SetServer v) s.
Definition VisitAllCookie (s : sh) : list (bytes * bytes) := ArgsV.VisitArgs (cookies (hd s)).
Definition DelBytes (key : bytes) (s : sh) : sh :=
  let s := scratch_key key s in with_hd (del (Key (scratch s))) s.
Definition SetBytesKV (key value : bytes) (s : sh) : sh :=
  let s := scratch_key key s in with_hd (SetCanonical (Key (scratch s)) value) s.
Definition SetBytesK (key value : bytes) (s : sh) : sh :=
  let s := set_scratch (Key (scratch s)) value s in SetBytesKV key (Value (scratch s)) s.
Definition SetBytesV (key value : bytes) (s : sh) : sh :=
  let s := set_scratch (getHeaderKeyBytes key (disableNormalizing (hd s))) (Value (scratch s)) s in
  with_hd (SetCanonical (Key (scratch s)) value) s.
Definition AddBytesK (key value : bytes) (s : sh) : sh := with_hd (Add (B2s key) value) s.
Definition AddBytesV (key value : bytes) (s : sh) : sh := with_hd (Add key (B2s value)) s.
Definition AddBytesKV (key value : bytes) (s : sh) : sh := with_hd (Add (B2s key) (B2s value)) s.
Definition PeekBytes (key : bytes) (s : sh) : option bytes * sh :=
  let s := scratch_key key s in (peek (Key (scratch s)) (hd s), s).
Definition DelCookieBytes (key : bytes) (s : sh) : sh := with_hd (DelCookie (B2s key)) s.

Section times.
Context `{TimeFormat}.
Definition DelClientCookieBytes (key : bytes) (c : Cookie.t) (s : sh) : sh :=
  with_hd (DelClientCookie (B2s key) c) s.
(** The outer [None]: the fuel of the parser ran out. *)
Definition Cookie_ (c : Cookie.t) (s : sh) : option (bool * Cookie.t) :=
  match PeekArgBytes (live (cookies (hd s))) (Cookie.Key c) with
  | None => Some (false, c)
  | Some v => '(_, c) ← Cookie.ParseBytes v c; Some (true, c)
  end.
End times.

(** [m] and [date] are the cache of status lines and the server's date. *)
Definition Header_ (m : gmap Z bytes) (date : bytes) (s : sh) : bytes * gmap Z bytes * sh :=
  let '(b, m) := AppendBytes m date [] (hd s) in (b, m, mkSh (hd s) (KV (Key (scratch s)) b)).
Definition String_ (m : gmap Z bytes) (date : bytes) (s : sh) : bytes * gmap Z bytes * sh := Header_ m date s.
Definition WriteTo {E} (w : bytes → Z * option E) (m : gmap Z bytes) (date : bytes) (s : sh)
  : Z * option E * gmap Z bytes * sh :=
  let '(b, m, s) := Header_ m date s in (w b, m, s).
(** refreshServerDate, which the package calls every second. *)
Definition refreshServerDate `{TimeFormat} (now : Z) : bytes := AppendHTTPDate [] now.
End RespV.

(** ** Identifiers: src/utils/uuid.go

    [rand] is what crypto/rand gave; an error of it is a panic. *)
Module Uuid.
Definition lowerhex (n : Z) : byte := if n <? 10 then z2b (48 + n) else z2b (87 + n).
Definition hex (b : bytes) : bytes := concat ((λ c, [lowerhex (b2z c / 16); lowerhex (b2z c mod 16)]) <$> b).
Definition at_ (i : nat) (f : Z → Z) (b : bytes) : bytes := alter (λ c, z2b (f (b2z c))) i b.
Definition GenerateUUID (rand : option bytes) : option bytes :=
  uuid ← rand;
  let uuid := at_ 8 (λ c, Z.lor (Z.ldiff c 192) 128) uuid in
  let uuid := at_ 6 (λ c, Z.lor (Z.ldiff c 240) 64) uuid in
  Some (hex (take 4 uuid) ++ bs "-" ++ hex (take 2 (drop 4 uuid)) ++ bs "-" ++ hex (take 2 (drop 6 uuid)) ++
        bs "-" ++ hex (take 2 (drop 8 uuid)) ++ bs "-" ++ hex (drop 10 uuid)).

Lemma hex_length b : length (hex b) = (2 * length b)%nat.
Proof. induction b as [|c b IH]; [done|]. unfold hex in *. cbn. rewrite IH. lia. Qed.
Lemma lowerhex_version c : lowerhex (b2z (z2b (Z.lor (Z.ldiff (b2z c) 240) 64)) / 16) = "4"%byte.
Proof. revert c. refine (byte_forall_dec _ _). vm_compute. reflexivity. Qed.
Lemma lowerhex_variant c :
  lowerhex (b2z (z2b (Z.lor (Z.ldiff (b2z c) 192) 128)) / 16) ∈ bs "89ab".
Proof. revert c. refine (byte_forall_dec _ _). vm_compute. reflexivity. Qed.
End Uuid.

(** ** Theorems *)

(** An identifier is made from sixteen random bytes: thirty-six characters, with
    version 4 and the variant of RFC 4122 in their places. *)
Theorem uuid_version (rand : bytes) : length rand = 16%nat → ∃ u, Uuid.GenerateUUID (Some rand) = Some u ∧
  length u = 36%nat ∧ u !! 14%nat = Some "4"%byte ∧ (∃ c, u !! 19%nat = Some c ∧ c ∈ bs "89ab") ∧
  Forall (λ i, u !! i = Some "-"%byte) [8; 13; 18; 23]%nat.
Proof.
  intros Hl. do 16 (destruct rand as [|? rand]; [done|]). destruct rand; [|done]. cbn.
  eexists. split; [done|]. cbn. split; [done|]. rewrite Uuid.lowerhex_version. split; [done|].
  split; [eexists; split; [done|apply Uuid.lowerhex_variant]|]. repeat constructor.
Qed.

(** The variants of a header do what the methods they stand for do: the scratch pair
    only carries the name or the value in. *)
Lemma req_set_variants key value (s : ReqV.sh) :
  ReqV.hd (ReqV.SetBytesKV key value s) = RequestHeader.Set_ key value (ReqV.hd s) ∧
  ReqV.hd (ReqV.SetBytesK key value s) = RequestHeader.Set_ key value (ReqV.hd s) ∧
  ReqV.hd (ReqV.SetBytesV key value s) = RequestHeader.Set_ key value (ReqV.hd s) ∧
  (ReqV.PeekBytes key s).1 = (RequestHeader.Peek key (ReqV.hd s)).1.
Proof.
  split_and!; try done. unfold ReqV.PeekBytes, RequestHeader.Peek. cbn.
  unfold getHeaderKeyBytes. by destruct (RequestHeader.peek _ _).
Qed.
Lemma resp_set_variants key value (s : RespV.sh) :
  RespV.hd (RespV.SetBytesKV key value s) = ResponseHeader.Set_ key value (RespV.hd s) ∧
  RespV.hd (RespV.SetBytesK key value s) = ResponseHeader.Set_ key value (RespV.hd s) ∧
  RespV.hd (RespV.SetBytesV key value s) = ResponseHeader.Set_ key value (RespV.hd s) ∧
  (RespV.PeekBytes key s).1 = ResponseHeader.Peek key (RespV.hd s).
Proof. by split_and!. Qed.

(** A name in canonical form keeps it, whether names are normalized or not. *)
Lemma Referer_normal b : normalizeHeaderKey StrReferer b = StrReferer.
Proof. by destruct b. Qed.

(** The Referer of a request is the one that was set last, by SetReferer and by
    SetRefererBytes alike, and both leave every other name as it was. *)
Theorem referer_back (v : bytes) (s : ReqV.sh) :
  (ReqV.Referer (ReqV.SetReferer v s)).1 = Some v ∧
  (ReqV.Referer (ReqV.SetRefererBytes v s)).1 = Some v ∧
  ReqV.hd (ReqV.SetReferer v s) = ReqV.hd (ReqV.SetRefererBytes v s) ∧
  ∀ key, normalizeHeaderKey key (RequestHeader.disableNormalizing (ReqV.hd s)) ≠ StrReferer →
    (ReqV.PeekBytes key (ReqV.SetReferer v s)).1 = (ReqV.PeekBytes key s).1.
Proof.
  assert (Heq : ReqV.hd (ReqV.SetReferer v s) = ReqV.hd (ReqV.SetRefererBytes v s)).
  { unfold ReqV.SetReferer, ReqV.SetBytesK, ReqV.SetBytesKV, ReqV.scratch_key. cbn. by rewrite Referer_normal. }
  assert (Hs : settable StrReferer v) by (by split_and!).
  destruct (SetCanonical_view StrReferer v (ReqV.hd s) Hs) as (H1 & H2 & H3 & H4).
  assert (Hr : ∀ s', ReqV.hd s' = ReqV.hd (ReqV.SetRefererBytes v s) → (ReqV.Referer s').1 = Some v).
  { intros s' E. unfold ReqV.Referer. destruct (req_set_variants StrReferer v s') as (_ & _ & _ & ->).
    rewrite E, Peek_view, Referer_normal. cbn. by rewrite parseRawHeaders_id. }
  split_and!; [by apply Hr|by apply Hr|done|]. intros key Hk.
  destruct (req_set_variants key v (ReqV.SetReferer v s)) as (_ & _ & _ & ->).
  destruct (req_set_variants key v s) as (_ & _ & _ & ->).
  rewrite Heq, !Peek_view. cbn [ReqV.hd ReqV.SetRefererBytes ReqV.with_hd].
  rewrite H4, (parseRawHeaders_id (RequestHeader.SetCanonical _ _ _)) by done. by apply H2.
Qed.

(** A cookie that was set on a response is found under its name and read back with
    all its attributes, into any cookie that asks for it; a cookie of another name
    answers as before. *)
Theorem response_cookie_back `{TimeFormat} (c d : Cookie.t) (s : RespV.sh) :
  wf_cookie c → (Cookie.AppendBytes [] c).1 ≠ [] → Cookie.Key d = Cookie.Key c →
  let s' := RespV.with_hd (λ x, (ResponseHeader.SetCookie c x).1) s in
  (∃ d', RespV.Cookie_ d s' = Some (true, d') ∧ Cookie.eqv d' c) ∧
  ∀ e, Cookie.Key e ≠ Cookie.Key c → RespV.Cookie_ e s' = RespV.Cookie_ e s.
Proof.
  intros Hc Hne Hk. cbv zeta. unfold RespV.Cookie_, PeekArgBytes, ResponseHeader.SetCookie. cbn -[SetArg].
  assert (Hkey : ∀ b c', Cookie.AppendBytes [] c = (b, c') → Cookie.key c' = Cookie.Key c).
  { unfold Cookie.AppendBytes, Cookie.Key. intros b c' E. repeat case_match; by simplify_eq. }
  destruct (ParseBytes_text c d Hc Hne) as (d' & Hd & He).
  unfold Cookie.Cookie_. destruct (Cookie.AppendBytes [] c) as [b c'] eqn:Eb. cbn -[SetArg].
  specialize (Hkey b c' eq_refl).
  destruct (SetArg_peek (ResponseHeader.cookies (RespV.hd s)) (Cookie.key c') b) as [H1 H2].
  split.
  - rewrite Hk, <- Hkey, H1. cbn in Hd. rewrite Hd. by exists d'.
  - intros e Hke. rewrite H2 by congruence. done.
Qed.

(** The value of digits, and what is left of it in 64 bits. *)
Lemma ufloat_loop_digits (Pow10 : Z → float) ds rest v : digits_ok ds →
  ufloat_loop Pow10 ((digit <$> ds) ++ rest) (uint64 v) (float64 1) false =
  ufloat_loop Pow10 rest (uint64 (dval v ds)) (float64 1) false.
Proof.
  revert v. induction ds as [|d ds IH]; intros v Hd; [done|].
  apply list.Forall_cons in Hd as [Hd0 Hd]. cbn [fmap list_fmap app].
  assert (Hb : b2z (digit d) = 48 + d) by (unfold digit; apply b2z_z2b_small; lia).
  cbn [ufloat_loop]. unfold isDigit. rewrite Hb.
  rewrite (proj2 (Z.leb_le _ _)), (proj2 (Z.leb_le _ _)) by lia. cbn [negb andb].
  replace (uint64 (10 * uint64 v + (48 + d - 48))) with (uint64 (10 * v + d)); [by apply IH|].
  unfold uint64, wrapU. rewrite Z.add_mod, (Z.add_mod (10 * (v mod _))) by done.
  replace (48 + d - 48) with d by lia. by rewrite Z.mul_mod_idemp_r.
Qed.

(** ParseUfloat of digits gives the number, of which only 64 bits are left: an
    integer of 2^64 or more is accepted, and read modulo 2^64. *)
Theorem ufloat_wraps (Pow10 : Z → float) (ds : list Z) : digits_ok ds → ds ≠ [] →
  ParseUfloat Pow10 (digit <$> ds) = (fmul (float64 (dval 0 ds mod 2 ^ 64)) (float64 1), None).
Proof.
  intros Hd Hne. unfold ParseUfloat.
  rewrite (proj2 (Z.eqb_neq _ _)).
  - pose proof (ufloat_loop_digits Pow10 ds [] 0 Hd) as E. rewrite app_nil_r in E. exact E.
  - unfold zlen. rewrite length_fmap. destruct ds; [done|]. cbn. lia.
Qed.

(** What Update leaves of a parsed address whose new text is [sc://ho] and a path. *)
Lemma Parse_join sc ho b u : "/"%byte ∉ sc → "/"%byte ∉ ho → rooted b →
  Parse [] (sc ++ StrColonSlashSlash ++ ho ++ b) u =
  let '(p, q, x) := split_path b in
  MkURI p (LowercaseBytes sc) (normalizePath p) q x (LowercaseBytes ho) (Args.Reset (queryArgs u)) false
    (fullURI u) (requestURI u) false.
Proof. intros H1 H2 Hb. unfold Parse, parse. by rewrite splitHostURI_join. Qed.

(** Update of a parsed address by a path keeps the scheme and the host, and takes
    the path, the query and the fragment from the path given; by a relative path, it
    keeps the scheme, the host and the directory. *)
Theorem update_keeps_host (hh : bytes) (c : byte) (rest : bytes) (u : URI) :
  wf u → Index (c :: rest) StrSlashSlash = None → c ≠ "?"%byte → c ≠ "#"%byte →
  ∃ u', UriV.Update hh (c :: rest) u = Some u' ∧ scheme u' = Scheme u ∧ host u' = host u ∧
    let dir := if c =b "/"%byte then [] else
      AppendQuotedPath [] (take (S (default 0%nat (LastIndexByte (path u) "/"%byte))) (path u)) in
    (pathOriginal u', queryString u', hash u') = split_path (dir ++ c :: rest) ∧
    path u' = normalizePath (pathOriginal u').
Proof.
  intros Hu Hi Hq Hh. unfold UriV.Update, UpdateBytes, updateBytes. rewrite Hi.
  assert (Hs : "/"%byte ∉ Scheme u ∧ LowercaseBytes (Scheme u) = Scheme u).
  { unfold Scheme. case_match; [split; [apply StrHTTP_no_slash|done]|split; apply Hu]. }
  assert (Ha : ∀ d, appendSchemeHost hh d u = (d ++ Scheme u ++ StrColonSlashSlash ++ host u, u)).
  { intros d. unfold appendSchemeHost, Host. by rewrite (wf_h _ Hu), andb_false_r. }
  assert (Hp : Path u = path u). { unfold Path. destruct (nf_rooted _ (wf_path _ Hu)) as [r ->]. done. }
  rewrite (bool_decide_eq_false_2 (c = "?"%byte)), (bool_decide_eq_false_2 (c = "#"%byte)) by done.
  rewrite Hp, Ha, app_nil_l.
  destruct (c =b "/"%byte) eqn:Ec; bdec.
  - subst c. cbv zeta. rewrite <- !app_assoc, Parse_join; [|apply Hs|apply Hu|by eexists].
    destruct (split_path _) as [[p q] x]. cbn. eexists. split; [done|]. cbn. split_and!; [apply Hs|apply Hu|done|done].
  - destruct (nf_rooted _ (wf_path _ Hu)) as [r Hr].
    destruct (LastIndexByte (path u) "/"%byte) as [n|] eqn:En.
    2:{ exfalso. apply LastIndexByte_None in En. apply En. rewrite Hr. by left. }
    change (default 0%nat (Some n)) with n. rewrite Nat.add_1_r, (AppendQuotedPath_eq (_ ++ _)). cbv zeta.
    rewrite <- !app_assoc, Parse_join; [|apply Hs|apply Hu|].
    + pose proof (AppendQuotedPath_eq [] (take (S n) (path u))) as E. cbn [app] in E. rewrite E.
      destruct (split_path _) as [[p q] x]. cbn. eexists. split; [done|]. cbn. split_and!; [apply Hs|apply Hu|done|done].
    + rewrite Hr. cbn. by eexists.
Qed.

Module variants_example.
Import ReqV.
Definition pow0 (n : Z) : float := float64 1.
(** 2^64 is read as zero. *)
Lemma ufloat_wraps_witness :
  ParseUfloat pow0 (bs "18446744073709551616") = (fmul (float64 0) (float64 1), None).
Proof.
  apply (ufloat_wraps pow0 [1; 8; 4; 4; 6; 7; 4; 4; 0; 7; 3; 7; 0; 9; 5; 5; 1; 6; 1; 6]);
    [repeat constructor; lia|discriminate].
Defined.
Example ufloat_point : ParseUfloat pow0 (bs "1.2.3") = (float64 (-1), Some errDuplicateFloatPoint) ∧
  ParseUfloat pow0 (bs "") = (float64 (-1), Some errEmptyFloat) ∧
  ParseUfloat pow0 (bs "1e") = (float64 (-1), Some errUnexpectedFloatEnd) ∧
  ParseUfloat pow0 (bs "1x") = (float64 (-1), Some errUnexpectedFloatChar) ∧
  ParseUfloat pow0 (bs "1e-x") = (float64 (-1), Some errInvalidFloatExponent).
Proof. vm_compute. by split_and!. Qed.

Definition resp0 : RespV.sh := RespV.mkSh (ResponseHeader.Reset (ResponseHeader.Mk false false false 0 0 [] [] []
  (ArgsSlice [] []) (ArgsSlice [] []))) (KV [] []).
Lemma uuid_version_witness : ∃ u, Uuid.GenerateUUID (Some (replicate 16 xff)) = Some u ∧ length u = 36%nat.
Proof.
  destruct (uuid_version (replicate 16 xff) eq_refl) as (u & H & Hl & _). exists u. split; [exact H|exact Hl].
Defined.
Lemma response_cookie_back_witness :
  ∃ d', RespV.Cookie_ (H := time0) cookie0
    (RespV.with_hd (λ x, (ResponseHeader.SetCookie (H := time0) cookie0 x).1) resp0) = Some (true, d') ∧
    Cookie.eqv d' cookie0.
Proof.
  pose proof (response_cookie_back (H := time0) cookie0 cookie0 resp0) as Hw. cbv zeta in Hw.
  destruct Hw as [Hw _]; [|discriminate|reflexivity|exact Hw].
  constructor.
  - by apply text_ok_dec; vm_compute.
  - repeat constructor; by apply text_ok_dec; vm_compute.
  - right. vm_compute. reflexivity.
Defined.

Definition uri2 : URI := Parse [] (bs "http://Host/a/b?c") uri0.
Lemma update_keeps_host_witness : ∃ u', UriV.Update [] (bs "d/../e") uri2 = Some u' ∧
  host u' = bs "host" ∧ path u' = bs "/a/e".
Proof.
  destruct (update_keeps_host [] "d"%byte (bs "/../e") uri2) as (u' & H & _ & Hh & Hp);
    [apply Parse_wf; set_solver|reflexivity|discriminate|discriminate|].
  exists u'. split; [exact H|]. split; [exact Hh|].
  cbv zeta in Hp. destruct Hp as [Hs Hp]. rewrite Hp. injection Hs as -> _ _. vm_compute. reflexivity.
Defined.
End variants_example.
