(* ===== verification/Tls.v ===== *)
(** * TLS contexts and connections

    src/pkg/stls: how the TLS section of a listener or a cluster becomes a tls.Config
    (tls.go: newTLSConfig, AddContext), which context answers a client (buildMatch,
    GetConfigForClient), the connection that looks at the first byte of a client and
    hands it on (conn.go: Peek, Read), the writer of a list of buffers (WriteTo), and the
    hooks that find certificates (confighook.go, factory.go).

    crypto/tls, crypto/x509, the files and strings.ToLower outside ASCII are arguments: a
    certificate is its chain of DER texts, of which the code reads the names of the
    first; tls.Client and tls.Server are the constructor [Secured].  A [rawConn] is a
    connection by the chunks its reads give.

    The theorems: a client is answered by the first context that has its name, a
    wildcard that covers it or one of its protocols; a configuration that is accepted
    has only supported suites, curves, versions and protocols, and a certificate on the
    server side; looking at a connection takes nothing from it; WriteTo writes all
    buffers in order.  Names with capitals are never found, and the count of a failed
    WriteTo leaves out what its last write took. *)
From stdpp Require Import gmap.
From S2P Require Import Prelude BytePool BytesConv Headers.
#[local] Open Scope Z_scope.

(** strings.ToLower, which is the table of the package on ASCII. *)
Definition ascii (c : byte) : Prop := b2z c < 128.
Class StringsLower := {
  ToLower : bytes → bytes;
  ToLower_ascii s : Forall ascii s → ToLower s = LowercaseBytes s
}.

#[local] Instance res_mbind E : MBind (res E) := λ A B f m, match m with Ok a => f a | Err e => Err e end.

Fixpoint Join (sep : bytes) (l : list bytes) : bytes :=
  match l with
  | [] => []
  | [s] => s
  | s :: l => s ++ sep ++ Join sep l
  end.
Definition Contains (s sub : bytes) : bool := match Index s sub with Some _ => true | None => false end.

(** ** Constants: types.go *)

Definition VersionTLS10 : Z := 0x301.
Definition VersionTLS11 : Z := 0x302.
Definition VersionTLS12 : Z := 0x303.
Definition minProtocols : Z := VersionTLS10.
Definition maxProtocols : Z := VersionTLS12.
Definition version : gmap bytes Z := list_to_map
  [(bs "tls_auto", 0); (bs "tlsv1_0", VersionTLS10); (bs "tlsv1_1", VersionTLS11); (bs "tlsv1_2", VersionTLS12)].

Definition X25519 : Z := 29.
Definition CurveP256 : Z := 23.
Definition defaultCurves : list Z := [X25519; CurveP256].
Definition allCurves : gmap bytes Z := list_to_map
  [(bs "x25519", X25519); (bs "p256", CurveP256); (bs "p384", 24); (bs "p521", 25)].
Definition alpn : gset bytes := list_to_set [bs "h2"; bs "http/1.1"; bs "mqtt"].

Definition ciphersMap : gmap bytes Z := list_to_map
  [(bs "ECDHE-ECDSA-AES256-GCM-SHA384", 0xc02c); (bs "ECDHE-RSA-AES256-GCM-SHA384", 0xc030);
   (bs "ECDHE-ECDSA-AES128-GCM-SHA256", 0xc02b); (bs "ECDHE-RSA-AES128-GCM-SHA256", 0xc02f);
   (bs "ECDHE-ECDSA-WITH-CHACHA20-POLY1305", 0xcca9); (bs "ECDHE-RSA-WITH-CHACHA20-POLY1305", 0xcca8);
   (bs "ECDHE-RSA-AES256-CBC-SHA", 0xc014); (bs "ECDHE-RSA-AES128-CBC-SHA", 0xc013);
   (bs "ECDHE-ECDSA-AES256-CBC-SHA", 0xc00a); (bs "ECDHE-ECDSA-AES128-CBC-SHA", 0xc009);
   (bs "RSA-AES256-CBC-SHA", 0x35); (bs "RSA-AES128-CBC-SHA", 0x2f);
   (bs "ECDHE-RSA-3DES-EDE-CBC-SHA", 0xc012); (bs "RSA-3DES-EDE-CBC-SHA", 0xa)].
Definition defaultCiphers : list Z :=
  [0xc02c; 0xc030; 0xc02b; 0xc02f; 0xcca9; 0xcca8; 0xc014; 0xc013; 0xc00a; 0xc009; 0x35; 0x2f].

Inductive tlsErr :=
  ErrorNoCertConfigure | ErrorGetCertificateFailed | CipherErr (s : bytes) | CurveErr (s : bytes)
| VersionErr (s : bytes) | AlpnErr (s : bytes) | OnlyOneContext | NoContext | Other (msg : bytes).
#[export] Instance tlsErr_eq_dec : EqDecision tlsErr.
Proof. solve_decision. Defined.

(** ** Certificates and hooks *)

Record Certificate := mkCert { chain : list bytes; privateKey : bytes }.
Record x509Cert := mkX509 { CommonName : bytes; DNSNames : list bytes }.

(** v2.TLSConfig; [Ext] is what the configuration says under extend_verify. *)
Record TLSConfig (Ext : Type) := mkTLS {
  Status : bool; Type_ : bytes; ServerName : bytes; CACert : bytes; CertChain : bytes; PrivateKey : bytes;
  VerifyClient : bool; InsecureSkip : bool; CipherSuites : bytes; EcdhCurves : bytes; MinVersion : bytes;
  MaxVersion : bytes; ALPN : bytes; Ticket : bytes; Fallback : bool; ExtendVerify : Ext
}.
Arguments mkTLS {Ext}.
Arguments Status {Ext}.
Arguments Type_ {Ext}.
Arguments ServerName {Ext}.
Arguments CACert {Ext}.
Arguments CertChain {Ext}.
Arguments PrivateKey {Ext}.
Arguments VerifyClient {Ext}.
Arguments InsecureSkip {Ext}.
Arguments CipherSuites {Ext}.
Arguments EcdhCurves {Ext}.
Arguments MinVersion {Ext}.
Arguments MaxVersion {Ext}.
Arguments ALPN {Ext}.
Arguments Ticket {Ext}.
Arguments Fallback {Ext}.
Arguments ExtendVerify {Ext}.

Inductive ClientAuth := NoClientCert | RequireAndVerifyClientCert.
(** tls.Config, the fields the code writes. *)
Record Config (Pool Verify : Type) := mkConf {
  cCipherSuites : list Z; cCurvePreferences : list Z; cMaxVersion : Z; cMinVersion : Z;
  cNextProtos : list bytes; cCertificates : list Certificate; cServerName : bytes; cRootCAs : option Pool;
  cInsecureSkipVerify : bool; cVerifyPeerCertificate : option Verify; cClientCAs : option Pool;
  cClientAuth : ClientAuth
}.
Arguments mkConf {Pool Verify}.
Arguments cCipherSuites {Pool Verify}.
Arguments cCurvePreferences {Pool Verify}.
Arguments cMaxVersion {Pool Verify}.
Arguments cMinVersion {Pool Verify}.
Arguments cNextProtos {Pool Verify}.
Arguments cCertificates {Pool Verify}.
Arguments cServerName {Pool Verify}.
Arguments cRootCAs {Pool Verify}.
Arguments cInsecureSkipVerify {Pool Verify}.
Arguments cVerifyPeerCertificate {Pool Verify}.
Arguments cClientCAs {Pool Verify}.
Arguments cClientAuth {Pool Verify}.

Record ConfigHooks (Pool Verify : Type) := mkHooks {
  GetCertificate : bytes → bytes → res tlsErr Certificate;
  GetX509Pool : bytes → res tlsErr (option Pool);
  VerifyPeerCertificate : option Verify
}.
Arguments mkHooks {Pool Verify}.
Arguments GetCertificate {Pool Verify}.
Arguments GetX509Pool {Pool Verify}.
Arguments VerifyPeerCertificate {Pool Verify}.

(** What the code calls of crypto/tls, crypto/x509 and the files. *)
Class TlsLib (Pool : Type) := {
  X509KeyPair : bytes → bytes → res tlsErr Certificate;
  LoadX509KeyPair : bytes → bytes → res tlsErr Certificate;
  ReadFile : bytes → res bytes bytes;
  AppendCertsFromPEM : bytes → option Pool;
  ParseCertificate : bytes → option x509Cert
}.

Section tls.
Context `{StringsLower} {Pool Verify Ext : Type} `{TlsLib Pool}.
Abbreviation Hooks := (ConfigHooks Pool Verify).
Abbreviation Conf := (Config Pool Verify).

Definition BEGIN : bytes := bs "-----BEGIN".
Definition default_GetCertificate (certIndex keyIndex : bytes) : res tlsErr Certificate :=
  if (certIndex =b []) || (keyIndex =b []) then Err ErrorNoCertConfigure
  else if Contains certIndex BEGIN && Contains keyIndex BEGIN then X509KeyPair certIndex keyIndex
  else LoadX509KeyPair certIndex keyIndex.
Definition default_GetX509Pool (caIndex : bytes) : res tlsErr (option Pool) :=
  if caIndex =b [] then Ok None
  else
    match (if Contains caIndex BEGIN then Ok caIndex else ReadFile caIndex) with
    | Err e => Err (Other (bs "load ca certificate error: " ++ e))
    | Ok caBytes =>
        match AppendCertsFromPEM caBytes with
        | None => Err (Other (bs "load ca certificate error: no certificate"))
        | Some pool => Ok (Some pool)
        end
    end.
Definition DefaultConfigHooks : Hooks := mkHooks default_GetCertificate default_GetX509Pool None.

(** factory.go: the map of factories, a ConfigHooksFactory being what it creates. *)
Abbreviation factory := (Ext → Hooks).
Definition defaultFactoryName : bytes := [].
Definition defaultFactory : factory := λ _, DefaultConfigHooks.
Definition factories_init : gmap bytes factory := {[defaultFactoryName := defaultFactory]}.
Definition Register (name : bytes) (f : factory) (fs : gmap bytes factory) : option bytes * gmap bytes factory :=
  match fs !! name with
  | Some _ => (Some (name ++ bs " extesions is already registered"), fs)
  | None => (None, <[name := f]> fs)
  end.
(** [None]: a nil factory. *)
Definition getFactory (name : bytes) (fs : gmap bytes factory) : option factory :=
  match fs !! name with Some f => Some f | None => fs !! defaultFactoryName end.

(** ** The configuration *)

(** The loops over the parts of a list in the configuration. *)
Fixpoint each {A} (f : bytes → option A) (err : bytes → tlsErr) (l : list bytes) : res tlsErr (list A) :=
  match l with
  | [] => Ok []
  | s :: l =>
      match f s with
      | None => Err (err s)
      | Some x => xs ← each f err l; Ok (x :: xs)
      end
  end.
Definition conf_ciphers (c : TLSConfig Ext) : res tlsErr (list Z) :=
  if CipherSuites c =b [] then Ok []
  else l ← each (λ s, ciphersMap !! s) CipherErr (Split ":"%byte (CipherSuites c));
       Ok (match l with [] => defaultCiphers | _ => l end).
Definition conf_curves (c : TLSConfig Ext) : res tlsErr (list Z) :=
  if EcdhCurves c =b [] then Ok []
  else l ← each (λ s, allCurves !! ToLower s) CurveErr (Split ","%byte (EcdhCurves c));
       Ok (match l with [] => defaultCurves | _ => l end).
(** A bound on the version; [said] is the text the error shows. *)
Definition conf_version (dflt : Z) (v said : bytes) : res tlsErr Z :=
  if v =b [] then Ok dflt
  else match version !! ToLower v with
       | None => Err (VersionErr said)
       | Some p => Ok (if negb (p =? 0) then p else dflt)
       end.
Definition conf_alpn (c : TLSConfig Ext) : res tlsErr (list bytes) :=
  if ALPN c =b [] then Ok []
  else each (λ s, if bool_decide (ToLower s ∈ alpn) then Some s else None) AlpnErr (Split ","%byte (ALPN c)).
Definition conf_cert (isClient : bool) (hooks : Hooks) (c : TLSConfig Ext) : res tlsErr (list Certificate) :=
  match GetCertificate hooks (CertChain c) (PrivateKey c) with
  | Ok cert => Ok [cert]
  | Err e =>
      if e =b ErrorNoCertConfigure
      then if negb isClient then Err ErrorGetCertificateFailed else Ok []
      else Err ErrorGetCertificateFailed
  end.

(** [hooks] are those of getFactory(c.Type).CreateConfigHooks(c.ExtendVerify). *)
Definition newTLSConfig (isClient : bool) (hooks : Hooks) (c : TLSConfig Ext) : res tlsErr Conf :=
  ciphers ← conf_ciphers c;
  curves ← conf_curves c;
  maxv ← conf_version maxProtocols (MaxVersion c) (MaxVersion c);
  minv ← conf_version minProtocols (MinVersion c) (MaxVersion c);
  protos ← conf_alpn c;
  certs ← conf_cert isClient hooks c;
  pool ← GetX509Pool hooks (CACert c);
  if isClient then
    let verify := VerifyPeerCertificate hooks in
    let '(skip, verify) := match verify with Some v => (true, Some v) | None => (false, None) end in
    let '(skip, verify) := if InsecureSkip c then (true, None) else (skip, verify) in
    Ok (mkConf ciphers curves maxv minv protos certs (ServerName c) pool skip verify None NoClientCert)
  else if VerifyClient c then
    Ok (mkConf ciphers curves maxv minv protos certs [] None false (VerifyPeerCertificate hooks) pool
          RequireAndVerifyClientCert)
  else Ok (mkConf ciphers curves maxv minv protos certs [] None false None None NoClientCert).

(** ** Contexts

    Without the listener and the cluster that a context is given, which nothing reads. *)

Record context := mkContext {
  matches : gset bytes; tlsConfig : Conf; serverName : bytes; ticket : bytes
}.

(** The names of a certificate; [None]: the panic at cert.Certificate[0]. *)
Definition cert_names (cert : Certificate) : option (gset bytes) :=
  der ← head (chain cert);
  Some (match ParseCertificate der with
        | None => ∅
        | Some x => (if 0 <? zlen (CommonName x) then {[CommonName x]} else ∅) ∪ list_to_set (DNSNames x)
        end).
Fixpoint certs_names (certs : list Certificate) : option (gset bytes) :=
  match certs with
  | [] => Some ∅
  | c :: certs => m ← cert_names c; ms ← certs_names certs; Some (m ∪ ms)
  end.
(** buildMatch of a context whose tlsConfig is not nil. *)
Definition buildMatch (serverName : bytes) (conf : Conf) : option (gset bytes) :=
  m ← certs_names (cCertificates conf);
  Some (m ∪ list_to_set (cNextProtos conf) ∪ {[serverName]}).

Record contextManager := mkMgr { contexts : list context; isClient : bool; inspector : bool }.
Definition with_contexts (l : list context) (mgr : contextManager) : contextManager :=
  mkMgr l (isClient mgr) (inspector mgr).

(** The outer [None]: a panic. *)
Definition AddContext (fs : gmap bytes factory) (c : TLSConfig Ext) (mgr : contextManager)
  : option (res tlsErr contextManager) :=
  if negb (Status c) then Some (Ok mgr)
  else if isClient mgr && (1 <=? zlen (contexts mgr)) then Some (Err OnlyOneContext)
  else
    f ← getFactory (Type_ c) fs;
    match newTLSConfig (isClient mgr) (f (ExtendVerify c)) c with
    | Err e => Some (if Fallback c && (e =b ErrorGetCertificateFailed) then Ok mgr else Err e)
    | Ok conf =>
        m ← buildMatch (ServerName c) conf;
        Some (Ok (with_contexts (contexts mgr ++ [mkContext m conf (ServerName c) (Ticket c)]) mgr))
    end.
Fixpoint add_all (fs : gmap bytes factory) (l : list (TLSConfig Ext)) (mgr : contextManager)
  : option (res tlsErr contextManager) :=
  match l with
  | [] => Some (Ok mgr)
  | c :: l =>
      r ← AddContext fs c mgr;
      match r with Err e => Some (Err e) | Ok mgr => add_all fs l mgr end
  end.
(** [chains] are the TLS sections of the filter chains of the listener. *)
Definition NewTLSServerContextManager (fs : gmap bytes factory) (chains : list (TLSConfig Ext)) (inspect : bool) :=
  add_all fs chains (mkMgr [] false inspect).
Definition NewTLSClientContextManager (fs : gmap bytes factory) (c : TLSConfig Ext) :=
  AddContext fs c (mkMgr [] true false).

Definition Enabled (mgr : contextManager) : bool := negb (zlen (contexts mgr) =? 0).

(** ** The choice of a context *)

Record ClientHelloInfo := mkHello { helloName : bytes; SupportedProtos : list bytes }.

Fixpoint trim_loop (fuel : nat) (name : bytes) : bytes :=
  match fuel with
  | O => name
  | S fuel => if list.last name =b Some "."%byte then trim_loop fuel (take (length name - 1) name) else name
  end.
Definition helloHost (info : ClientHelloInfo) : bytes :=
  let name := ToLower (helloName info) in trim_loop (length name) name.
(** The wildcards that are tried, with the labels from the left replaced by a star. *)
Fixpoint wildcards (labels : list bytes) : list bytes :=
  match labels with
  | _ :: (_ :: _) as rest => Join (bs ".") (bs "*" :: rest) :: wildcards rest
  | _ => []
  end.
Definition tried (name : bytes) : list bytes := name :: wildcards (Split "."%byte name).
Definition selects (ctx : context) (info : ClientHelloInfo) : bool :=
  (negb (helloName info =b []) && existsb (λ n, bool_decide (n ∈ matches ctx)) (tried (helloHost info)))
  || existsb (λ p, bool_decide (ToLower p ∈ matches ctx)) (SupportedProtos info).
Definition GetConfigForClient (info : ClientHelloInfo) (mgr : contextManager) : res tlsErr Conf :=
  match contexts mgr with
  | [] => Err NoContext
  | c0 :: _ =>
      match List.find (λ ctx, selects ctx info) (contexts mgr) with
      | Some ctx => Ok (tlsConfig ctx)
      | None => Ok (tlsConfig c0)
      end
  end.

(** What Config gives a connection: for a server, a configuration that only asks
    GetConfigForClient. *)
Inductive connConfig := AsClient (c : Conf) | AsServer.
Definition mgr_Config (mgr : contextManager) : option connConfig :=
  match contexts mgr with
  | [] => None
  | c0 :: _ => Some (if isClient mgr then AsClient (tlsConfig c0) else AsServer)
  end.

(** ** Connections *)

Inductive connErr := EOF | WriteFailed (e : bytes).
Abbreviation rawConn := (list bytes).
Definition raw_read (n : nat) (c : rawConn) : bytes * option connErr * rawConn :=
  match c with
  | [] => ([], Some EOF, [])
  | ch :: c' => if (length ch <=? n)%nat then (ch, None, c') else (take n ch, None, drop n ch :: c')
  end.

Record Conn := mkConn { raw : rawConn; peek : byte; haspeek : bool }.
Definition Peek (c : Conn) : option byte * Conn :=
  let '(b, _, r) := raw_read 1 (raw c) in
  match b with
  | [] => (None, mkConn r (peek c) (haspeek c))
  | x :: _ => (Some x, mkConn r x true)
  end.
(** Into a slice of [n] bytes; [None]: the panic at b[0]. *)
Definition Read (n : nat) (c : Conn) : option (bytes * option connErr * Conn) :=
  if haspeek c then
    match n with
    | O => None
    | 1%nat => Some ([peek c], None, mkConn (raw c) (peek c) false)
    | S m =>
        let '(b, err, r) := raw_read m (raw c) in
        Some (peek c :: b, err, mkConn r (peek c) false)
    end
  else
    let '(b, err, r) := raw_read n (raw c) in Some (b, err, mkConn r (peek c) false).

Inductive secured := RawC (c : rawConn) | Inspected (c : Conn) | Secured (cf : option connConfig) (c : rawConn + Conn).
Definition getTLSConn (c : rawConn + Conn) (cf : option connConfig) : secured := Secured cf c.
(** [isTCP]: whether the connection is a *net.TCPConn. *)
Definition mgr_Conn (mgr : contextManager) (isTCP : bool) (c : rawConn) : secured :=
  if negb isTCP then RawC c
  else if negb (Enabled mgr) then RawC c
  else if isClient mgr then getTLSConn (inl c) (mgr_Config mgr)
  else if negb (inspector mgr) then getTLSConn (inl c) (mgr_Config mgr)
  else
    let '(buf, conn) := Peek (mkConn c x00 false) in
    match buf with
    | None => getTLSConn (inr conn) (mgr_Config mgr)
    | Some x => if x =b x16 then getTLSConn (inr conn) (mgr_Config mgr) else Inspected conn
    end.

(** WriteTo: Write of tls.Conn answers with what it took and an error, by the script
    [ws]; [out] is what was taken.  The outer [None]: the script ends. *)
Fixpoint copy_loop (bufs : list bytes) (off : nat) (buf : bytes) : bytes :=
  match bufs with
  | [] => buf
  | b :: bufs =>
      let n := Nat.min (length b) (length buf - off) in
      copy_loop bufs (off + length b) (take off buf ++ take n b ++ drop (off + n) buf)
  end.
Fixpoint write_loop (ws : list (nat * option connErr)) (buf : bytes) (size off : nat) (out : bytes)
  : option (nat * option connErr * bytes) :=
  if (off <? size)%nat then
    match ws with
    | [] => None
    | (l, err) :: ws =>
        let out := out ++ take l (drop off buf) in
        match err with
        | Some e => Some (off, Some e, out)
        | None => write_loop ws buf size (off + l) out
        end
    end
  else Some (off, None, out).
Definition WriteTo (ws : list (nat * option connErr)) (bufs : list bytes)
  : stM goPanic world (option (nat * option connErr * bytes)) :=
  let size := sum_list (length <$> bufs) in
  buf ← GetBytes (Z.of_nat size);
  let full := Slice (copy_loop bufs 0 (contents buf) ++ drop (Z.to_nat (slen buf)) (arr buf)) (slen buf) in
  match write_loop ws (contents full) size 0 [] with
  | None => mret None
  | Some r => w ← getS; _ ← putS (PutBytes (Some full) w); mret (Some r)
  end.
End tls.

(** ** Names *)

Lemma Split_cases c s : (c ∉ s ∧ Split c s = [s]) ∨
  ∃ p r, s = p ++ c :: r ∧ c ∉ p ∧ Split c s = p :: Split c r.
Proof.
  destruct (decide (c ∈ s)) as [Hin|Hn]; [right|left; split; [done|by apply Split_none]].
  destruct (IndexByte s c) as [n|] eqn:E; [|by apply IndexByte_None in E].
  apply IndexByte_Some in E as [E Hp]. exists (take n s), (drop (S n) s). split_and!; [done|done|].
  rewrite E at 1. by apply Split_app.
Qed.
Lemma Join_Split c s : Join [c] (Split c s) = s.
Proof.
  remember (length s) as n eqn:Hn. revert s Hn. induction n as [n IH] using lt_wf_ind. intros s ->.
  destruct (Split_cases c s) as [[_ ->]|(p & r & -> & _ & ->)]; [done|].
  pose proof (Split_nonnil c r) as Hne. specialize (IH (length r)). rewrite length_app in IH. cbn in IH.
  specialize (IH ltac:(lia) r eq_refl). cbn. destruct (Split c r); [done|]. by rewrite IH.
Qed.
Lemma wildcards_spec s x : x ∈ wildcards (Split "."%byte s) ↔
  ∃ pre suf, s = pre ++ "."%byte :: suf ∧ x = bs "*." ++ suf.
Proof.
  remember (length s) as n eqn:Hn. revert s Hn. induction n as [n IH] using lt_wf_ind. intros s ->.
  destruct (Split_cases "."%byte s) as [[Hd ->]|(p & r & -> & Hp & ->)].
  { split; [by intros ?%elem_of_nil|]. intros (pre & suf & -> & _). set_solver. }
  pose proof (Split_nonnil "."%byte r) as Hne. pose proof (Join_Split "."%byte r) as Hj.
  specialize (IH (length r)). rewrite length_app in IH. cbn in IH. specialize (IH ltac:(lia) r eq_refl).
  destruct (Split "."%byte r) as [|q rest] eqn:Er; [done|]. change (wildcards (p :: q :: rest)) with
    ((bs "*" ++ bs "." ++ Join (bs ".") (q :: rest)) :: wildcards (q :: rest)).
  change ["."%byte] with (bs ".") in Hj. rewrite elem_of_cons, IH, Hj. split.
  - intros [->|(pre & suf & -> & ->)]; [by exists p, r|].
    exists (p ++ "."%byte :: pre), suf. by rewrite <- app_assoc.
  - intros (pre & suf & E & ->). apply app_eq_app in E as (l & [[-> E]|[-> E]]).
    + destruct l as [|y l]; injection E; [intros ->; by left|]. intros -> <-. set_solver.
    + destruct l as [|y l]; injection E; [intros ->; by left|]. intros -> <-. right. by eexists _, _.
Qed.

Section tls_theorems.
Context `{StringsLower} {Pool Verify Ext : Type} `{TlsLib Pool}.
Abbreviation Conf := (Config Pool Verify).

(** The names a pattern stands for: itself, and with a star in front, every name that
    ends in the rest. *)
Definition covers (p name : bytes) : Prop := p = name ∨ ∃ pre suf, name = pre ++ "."%byte :: suf ∧ p = bs "*." ++ suf.
(** A context that answers this client. *)
Definition answers (ctx : @context Pool Verify) (info : ClientHelloInfo) : Prop :=
  (helloName info ≠ [] ∧ ∃ p, p ∈ matches ctx ∧ covers p (helloHost info)) ∨
  ∃ proto, proto ∈ SupportedProtos info ∧ ToLower proto ∈ matches ctx.

Lemma tried_covers name p : p ∈ tried name ↔ covers p name.
Proof. unfold tried, covers. by rewrite elem_of_cons, wildcards_spec. Qed.
Lemma selects_answers ctx info : selects ctx info = true ↔ answers ctx info.
Proof.
  unfold selects, answers. rewrite orb_true_iff, andb_true_iff, negb_true_iff, bool_decide_eq_false, !existsb_exists.
  setoid_rewrite bool_decide_eq_true. setoid_rewrite <- list_elem_of_In. setoid_rewrite tried_covers. naive_solver.
Qed.

(** C31: a client is answered by the first context that has its name, a wildcard that
    covers it or one of its protocols, and by the first one of all when there is none. *)
Theorem sni_choice (info : ClientHelloInfo) (mgr : @contextManager Pool Verify) : contexts mgr ≠ [] →
  ∃ l1 ctx l2, contexts mgr = l1 ++ ctx :: l2 ∧ GetConfigForClient info mgr = Ok (tlsConfig ctx) ∧
    ((answers ctx info ∧ Forall (λ c, ¬ answers c info) l1) ∨
     (l1 = [] ∧ Forall (λ c, ¬ answers c info) (contexts mgr))).
Proof.
  intros Hne. unfold GetConfigForClient. destruct (contexts mgr) as [|c0 l] eqn:El; [done|]. rewrite <- El.
  clear Hne. assert (Hf : ∀ l, match List.find (λ ctx, selects ctx info) l with
    | Some ctx => ∃ l1 l2, l = l1 ++ ctx :: l2 ∧ answers ctx info ∧ Forall (λ c, ¬ answers c info) l1
    | None => Forall (λ c, ¬ answers c info) l
    end).
  { clear. induction l as [|c l IH]; cbn; [done|]. destruct (selects c info) eqn:E.
    - exists [], l. apply selects_answers in E. by split_and!.
    - assert (Hc : ¬ answers c info) by (rewrite <- selects_answers; congruence).
      destruct (List.find _ l) as [ctx|]; [|by constructor].
      destruct IH as (l1 & l2 & -> & Ha & Hl). exists (c :: l1), l2. split_and!; [done|done|by constructor]. }
  specialize (Hf (contexts mgr)). destruct (List.find _ _) as [ctx|].
  - destruct Hf as (l1 & l2 & E & Ha & Hl). exists l1, ctx, l2. split_and!; [done|done|by left].
  - rewrite El in Hf. rewrite El. exists [], c0, l. split_and!; [done|done|by right].
Qed.

(** ** Capitals *)

Lemma trim_loop_prefix fuel name : ∃ n, trim_loop fuel name = take n name.
Proof.
  revert name. induction fuel as [|fuel IH]; intros name; cbn; [exists (length name); by rewrite firstn_all|].
  case_bool_decide; [|exists (length name); by rewrite firstn_all].
  destruct (IH (take (length name - 1) name)) as [n ->]. rewrite take_take. by eexists.
Qed.
Lemma lower_app_inv a b : LowercaseBytes (a ++ b) = a ++ b → LowercaseBytes b = b.
Proof. unfold LowercaseBytes. rewrite fmap_app. intros E. apply app_inj_1 in E as [_ E]; [done|apply length_fmap]. Qed.
Lemma lower_take n s : LowercaseBytes s = s → LowercaseBytes (take n s) = take n s.
Proof. intros E. unfold LowercaseBytes in *. by rewrite fmap_take, E. Qed.

(** A name of a context that has a capital letter in it is found for no client whose
    name is plain ASCII: the client's name is put in lower case, and the names of the
    context are not. *)
Theorem capitals_never_found (p : bytes) (info : ClientHelloInfo) :
  Forall ascii (helloName info) → LowercaseBytes p ≠ p → ¬ covers p (helloHost info).
Proof.
  intros Ha Hp Hc. apply Hp. unfold helloHost in Hc. rewrite ToLower_ascii in Hc by done.
  destruct (trim_loop_prefix (length (LowercaseBytes (helloName info))) (LowercaseBytes (helloName info))) as [n E].
  rewrite E in Hc. assert (Hl : LowercaseBytes (take n (LowercaseBytes (helloName info))) =
    take n (LowercaseBytes (helloName info))).
  { apply lower_take. unfold LowercaseBytes. rewrite <- list_fmap_compose. apply list_fmap_ext.
    intros _ c _. revert c. refine (byte_forall_dec _ _). vm_compute. reflexivity. }
  destruct Hc as [->|(pre & suf & Hs & ->)]; [done|]. rewrite Hs in Hl.
  change (pre ++ "."%byte :: suf) with (pre ++ bs "." ++ suf) in Hl. rewrite app_assoc in Hl.
  apply lower_app_inv in Hl. unfold LowercaseBytes in *. rewrite fmap_app, Hl. reflexivity.
Qed.

(** ** Configurations *)

Lemma each_Ok {A} (f : bytes → option A) err l xs : each f err l = Ok xs → Forall2 (λ s x, f s = Some x) l xs.
Proof.
  revert xs. induction l as [|s l IH]; intros xs; cbn; [intros [= <-]; constructor|].
  destruct (f s) eqn:E; [|done]. destruct (each f err l); [|done]. intros [= <-]. constructor; auto.
Qed.
Lemma each_Err {A} (f : bytes → option A) err l e : each f err l = Err e → ∃ s, s ∈ l ∧ f s = None ∧ e = err s.
Proof.
  induction l as [|s l IH]; cbn; [done|]. destruct (f s) eqn:E.
  - destruct (each f err l); [done|]. intros [= <-]. destruct IH as (s' & ? & ? & ?); [done|]. exists s'. set_solver.
  - intros [= <-]. exists s. set_solver.
Qed.
Lemma version_range v x : version !! v = Some x → x = 0 ∨ VersionTLS10 ≤ x ≤ VersionTLS12.
Proof.
  intros Hx. assert (Hf : map_Forall (λ _ x, x = 0 ∨ VersionTLS10 ≤ x ≤ VersionTLS12) version)
    by (apply (bool_decide_unpack _); vm_compute; exact I).
  exact (Hf v x Hx).
Qed.
Lemma conf_version_range dflt v said x : VersionTLS10 ≤ dflt ≤ VersionTLS12 →
  conf_version dflt v said = Ok x → VersionTLS10 ≤ x ≤ VersionTLS12.
Proof.
  intros Hd. unfold conf_version. case_bool_decide; [by intros [= <-]|].
  destruct (version !! ToLower v) as [q|] eqn:E; [|done]. apply version_range in E.
  destruct (q =? 0) eqn:Eq; bdec; intros [= <-]; lia.
Qed.
(** A list in the configuration, for which the default is never taken. *)
Lemma conf_list_spec {A} (f : bytes → option A) err sep s (dflt l : list A) :
  (if s =b [] then Ok [] else l ← each f err (Split sep s); Ok (match l with [] => dflt | _ => l end)) = Ok l →
  (l = [] ↔ s = []) ∧ (s ≠ [] → Forall2 (λ s x, f s = Some x) (Split sep s) l).
Proof.
  case_bool_decide as Hs; [intros [= <-]; done|].
  destruct (each f err (Split sep s)) as [xs|] eqn:E; [|done]. cbn. intros [= <-].
  apply each_Ok in E. pose proof (Split_nonnil sep s) as Hne. destruct (Split sep s) as [|q qs]; [done|].
  apply Forall2_cons_inv_l in E as (y & ys & ? & ? & ->). split; [by split|]. intros _. by constructor.
Qed.

(** A configuration that is accepted names the suites, curves and protocols that were
    asked for, all of them supported, and versions from 1.0 to 1.2; a server has a
    certificate, and asks its clients for theirs exactly when it is told to; a client
    checks its server unless it is told not to, or has its own way to.  The suites and
    curves of the package are never used: none are set when none are asked for. *)
Theorem tls_config_sound (isClient : bool) (hooks : ConfigHooks Pool Verify) (c : TLSConfig Ext) conf :
  newTLSConfig isClient hooks c = Ok conf →
  (cCipherSuites conf = [] ↔ CipherSuites c = []) ∧
  (CipherSuites c ≠ [] → Forall2 (λ s x, ciphersMap !! s = Some x) (Split ":"%byte (CipherSuites c)) (cCipherSuites conf)) ∧
  (cCurvePreferences conf = [] ↔ EcdhCurves c = []) ∧
  VersionTLS10 ≤ cMinVersion conf ≤ VersionTLS12 ∧ VersionTLS10 ≤ cMaxVersion conf ≤ VersionTLS12 ∧
  Forall (λ p, ToLower p ∈ alpn) (cNextProtos conf) ∧
  (if isClient then cInsecureSkipVerify conf = InsecureSkip c || bool_decide (is_Some (VerifyPeerCertificate hooks))
   else (∃ cert, cCertificates conf = [cert]) ∧
        (cClientAuth conf = RequireAndVerifyClientCert ↔ VerifyClient c = true)).
Proof.
  unfold newTLSConfig, mbind, res_mbind.
  destruct (conf_ciphers c) as [cs|] eqn:E1; [|done]. destruct (conf_curves c) as [cu|] eqn:E2; [|done].
  destruct (conf_version maxProtocols _ _) as [ma|] eqn:E3; [|done].
  destruct (conf_version minProtocols _ _) as [mi|] eqn:E4; [|done].
  destruct (conf_alpn c) as [ps|] eqn:E5; [|done]. destruct (conf_cert isClient hooks c) as [cert|] eqn:E6; [|done].
  destruct (GetX509Pool hooks (CACert c)) as [pool|] eqn:E7; [|done]. intros Hc.
  apply conf_list_spec in E1 as [H1 H1'], E2 as [H2 _].
  apply conf_version_range in E3; [|done]. apply conf_version_range in E4; [|done].
  assert (H5 : Forall (λ p, ToLower p ∈ alpn) ps).
  { unfold conf_alpn in E5. case_bool_decide; [by injection E5 as <-|]. apply each_Ok in E5.
    eapply Forall2_Forall_r; [exact E5|]. apply Forall_true. intros s q Hq. case_bool_decide; by simplify_eq. }
  assert (H6 : isClient = false → ∃ x, cert = [x]).
  { intros ->. unfold conf_cert in E6. repeat case_match; simplify_eq; eauto. }
  destruct isClient; [|destruct (VerifyClient c) eqn:Ev]; simplify_eq; cbn.
  - destruct (VerifyPeerCertificate hooks), (InsecureSkip c); simplify_eq; cbn; split_and!; try lia; auto.
  - split_and!; try lia; auto. by split.
  - split_and!; try lia; auto. by split.
Qed.

(** ** The contexts of a server *)

(** The context a TLS section makes; none when it is switched off or fails. *)
Definition made (fs : gmap bytes (Ext → ConfigHooks Pool Verify)) (c : TLSConfig Ext) : option context :=
  if Status c then
    f ← getFactory (Type_ c) fs;
    match newTLSConfig false (f (ExtendVerify c)) c with
    | Ok conf => m ← buildMatch (ServerName c) conf; Some (mkContext m conf (ServerName c) (Ticket c))
    | Err _ => None
    end
  else None.
(** The error that refuses the whole listener. *)
Definition refused (fs : gmap bytes (Ext → ConfigHooks Pool Verify)) (c : TLSConfig Ext) : option tlsErr :=
  if Status c then
    f ← getFactory (Type_ c) fs;
    match newTLSConfig false (f (ExtendVerify c)) c with
    | Err e => if Fallback c && (e =b ErrorGetCertificateFailed) then None else Some e
    | Ok _ => None
    end
  else None.

Lemma AddContext_server fs c mgr r : isClient mgr = false → AddContext fs c mgr = Some r →
  match r with
  | Ok mgr' => refused fs c = None ∧ mgr' = with_contexts (contexts mgr ++ option_list (made fs c)) mgr
  | Err e => refused fs c = Some e ∧ made fs c = None
  end.
Proof.
  intros Hs. unfold AddContext, refused, made. rewrite Hs. cbn [andb].
  destruct (Status c); cbn; [|intros [= <-]; rewrite app_nil_r; by destruct mgr].
  destruct (getFactory (Type_ c) fs) as [f|]; cbn; [|done].
  destruct (newTLSConfig false (f (ExtendVerify c)) c) as [conf|e]; cbn.
  - destruct (buildMatch (ServerName c) conf); cbn; [|done]. by intros [= <-].
  - intros [= <-]. destruct (Fallback c && (e =b ErrorGetCertificateFailed)); [|done].
    rewrite app_nil_r. by destruct mgr.
Qed.

(** The contexts of a server are those of its TLS sections that are switched on, in
    their order, without the ones that fall back; each has a certificate, and the names
    of its certificate, its protocols and its own name as matches.  A section that fails
    otherwise refuses the listener with the error of the first such section. *)
Theorem server_contexts fs (chains : list (TLSConfig Ext)) inspect r :
  NewTLSServerContextManager fs chains inspect = Some r →
  match r with
  | Ok mgr => contexts mgr = omap (made fs) chains ∧ Forall (λ c, refused fs c = None) chains ∧
      inspector mgr = inspect ∧ isClient mgr = false ∧
      Forall (λ ctx, cCertificates (tlsConfig ctx) ≠ [] ∧ serverName ctx ∈ matches ctx ∧
        Forall (λ p, p ∈ matches ctx) (cNextProtos (tlsConfig ctx))) (contexts mgr)
  | Err e => ∃ l1 c l2, chains = l1 ++ c :: l2 ∧ refused fs c = Some e ∧ Forall (λ c, refused fs c = None) l1
  end.
Proof.
  unfold NewTLSServerContextManager. set (m0 := mkMgr [] false inspect).
  assert (Hg : ∀ mgr, isClient mgr = false → add_all fs chains mgr = Some r →
    match r with
    | Ok mgr' => mgr' = with_contexts (contexts mgr ++ omap (made fs) chains) mgr ∧ Forall (λ c, refused fs c = None) chains
    | Err e => ∃ l1 c l2, chains = l1 ++ c :: l2 ∧ refused fs c = Some e ∧ Forall (λ c, refused fs c = None) l1
    end).
  { induction chains as [|c l IH]; intros mgr Hm; cbn.
    { intros [= <-]. rewrite app_nil_r. by destruct mgr. }
    destruct (AddContext fs c mgr) as [r0|] eqn:Ea; cbn; [|done]. apply AddContext_server in Ea; [|done].
    destruct r0 as [mgr'|e]; [|intros [= <-]; exists [], c, l; by destruct Ea].
    destruct Ea as [Hr ->]. intros Hl. apply IH in Hl; [|done]. destruct r as [mgr'|e].
    - destruct Hl as [-> Hl]. split; [|by constructor]. unfold with_contexts. cbn. rewrite <- app_assoc. f_equal.
      by destruct (made fs c).
    - destruct Hl as (l1 & c' & l2 & -> & He & Hl). exists (c :: l1), c', l2. split_and!; [done|done|by constructor]. }
  intros Ha. apply Hg in Ha; [|done]. destruct r as [mgr|e]; [|done]. destruct Ha as [-> Hr]. cbn.
  split_and!; [done..|]. apply list.Forall_forall. intros ctx Hin. apply list_elem_of_omap in Hin as (c & _ & Hc).
  unfold made in Hc. destruct (Status c); [|done]. destruct (getFactory (Type_ c) fs) as [f|]; [|done]. cbn in Hc.
  destruct (newTLSConfig false (f (ExtendVerify c)) c) as [conf|] eqn:Ec; [|done].
  destruct (buildMatch (ServerName c) conf) as [m|] eqn:Em; [|done]. simplify_eq/=.
  unfold buildMatch in Em. destruct (certs_names (cCertificates conf)); simplify_eq/=.
  split_and!; [|set_solver|apply list.Forall_forall; set_solver].
  unfold newTLSConfig, mbind, res_mbind in Ec. repeat case_match; simplify_eq; cbn; try done;
    match goal with H : conf_cert _ _ _ = Ok _ |- _ => unfold conf_cert in H; repeat case_match; by simplify_eq end.
Qed.

(** The default factory stays, so that getFactory always gives one. *)
Inductive registered : gmap bytes (Ext → ConfigHooks Pool Verify) → Prop :=
| reg_init : registered factories_init
| reg_more fs name f : registered fs → registered (Register name f fs).2.
Lemma default_factory_stays fs name : registered fs →
  fs !! defaultFactoryName = Some defaultFactory ∧ ∃ f, getFactory name fs = Some f.
Proof.
  intros Hr. assert (Hd : fs !! defaultFactoryName = Some defaultFactory).
  { induction Hr as [|fs n f Hr IH]; [apply lookup_insert_eq|]. unfold Register.
    destruct (fs !! n) eqn:E; [done|]. cbn. rewrite lookup_insert_ne; [done|]. intros ->. by rewrite E in IH. }
  split; [done|]. unfold getFactory. rewrite Hd. destruct (fs !! name); eauto.
Qed.
End tls_theorems.

(** ** Connections *)

(** What is still to be read of a connection that was looked at. *)
Definition pending (c : Conn) : bytes := (if haspeek c then [peek c] else []) ++ concat (raw c).

Lemma raw_read_spec n c : Forall (λ ch, ch ≠ []) c →
  let '(b, err, c') := raw_read n c in
  b ++ concat c' = concat c ∧ (length b ≤ n)%nat ∧ Forall (λ ch, ch ≠ []) c' ∧
  (b = [] → (0 < n)%nat → err = Some EOF ∧ concat c = []).
Proof.
  intros Hc. destruct c as [|ch c]; cbn; [by split_and!; try lia|].
  apply list.Forall_cons in Hc as [Hch Hc]. destruct (length ch <=? n)%nat eqn:E.
  - apply Nat.leb_le in E. by split_and!.
  - apply Nat.leb_gt in E. cbn. rewrite app_assoc, take_drop. split_and!; [done|rewrite length_take; lia| |].
    + constructor; [|done]. intros Hd. apply (f_equal length) in Hd. rewrite length_drop in Hd. cbn in Hd. lia.
    + intros Ht Hn. destruct ch; [done|]. destruct n; [lia|done].
Qed.

(** C32: looking at the first byte of a connection takes nothing from it: the reads after
    it give the same bytes in the same order, none is lost or given twice, and end where
    the connection ends; only a read into no memory at all panics.  The byte decides
    whether TLS is spoken, and a connection that gives no byte is taken for TLS. *)
Theorem inspect_transparent {Pool Verify} (mgr : @contextManager Pool Verify) (c : list bytes) :
  Forall (λ ch, ch ≠ []) c → inspector mgr = true → isClient mgr = false → Enabled mgr = true →
  (∃ conn, pending conn = concat c ∧ Forall (λ ch, ch ≠ []) (raw conn) ∧ mgr_Conn mgr true c =
     match head (concat c) with
     | None => getTLSConn (inr conn) (Some AsServer)
     | Some x => if x =b x16 then getTLSConn (inr conn) (Some AsServer) else Inspected conn
     end) ∧
  ∀ conn n, Forall (λ ch, ch ≠ []) (raw conn) → (0 < n)%nat → ∃ b err conn',
    Read n conn = Some (b, err, conn') ∧ b ++ pending conn' = pending conn ∧ (length b ≤ n)%nat ∧
    Forall (λ ch, ch ≠ []) (raw conn') ∧ (b = [] → err = Some EOF ∧ pending conn = []).
Proof.
  intros Hc Hi Hcl He. split.
  - unfold mgr_Conn. rewrite He, Hcl, Hi. cbn [negb]. unfold Peek. cbn [raw].
    assert (Hm : mgr_Config mgr = Some AsServer).
    { unfold mgr_Config, Enabled in *. destruct (contexts mgr); [done|]. by rewrite Hcl. }
    rewrite Hm. pose proof (raw_read_spec 1 c Hc) as Hr. destruct (raw_read 1 c) as [[b err] r].
    destruct Hr as (H1 & H2 & H3 & H4). destruct b as [|x b].
    + destruct (H4 eq_refl ltac:(lia)) as [_ H0]. rewrite H0. exists (mkConn r x00 false).
      split_and!; [|exact H3|done]. unfold pending. cbn. by rewrite <- H0, <- H1.
    + assert (b = []) as -> by (destruct b; [done|cbn in H2; lia]). rewrite <- H1. cbn.
      eexists (mkConn r x true). split_and!; [done|exact H3|]. by case_bool_decide.
  - intros conn n Hr Hn. unfold Read, pending. destruct (haspeek conn).
    + destruct n as [|[|m]]; [lia| |].
      * eexists _, _, _. split; [done|]. cbn. split_and!; [done|lia|done|done].
      * pose proof (raw_read_spec (S m) (raw conn) Hr) as Hs. destruct (raw_read (S m) (raw conn)) as [[b err] r].
        destruct Hs as (H1 & H2 & H3 & H4). eexists _, _, _. split; [done|]. cbn. rewrite H1. split_and!; [done|lia|done|done].
    + pose proof (raw_read_spec n (raw conn) Hr) as Hs. destruct (raw_read n (raw conn)) as [[b err] r].
      destruct Hs as (H1 & H2 & H3 & H4). eexists _, _, _. split; [done|]. cbn. split_and!; [done|lia|done|].
      intros Hb. by apply H4.
Qed.

(** A read into no memory after a look. *)
Example read_nothing_panics r x : Read 0 (mkConn r x true) = None.
Proof. reflexivity. Qed.

(** ** Writing buffers *)

Lemma copy_loop_spec bufs pre buf : length buf = sum_list (length <$> bufs) →
  copy_loop bufs (length pre) (pre ++ buf) = pre ++ concat bufs.
Proof.
  revert pre buf. induction bufs as [|b bufs IH]; intros pre buf Hl; cbn in *; [by apply nil_length_inv in Hl as ->|].
  rewrite take_app_length, length_app, (Nat.add_comm (length pre) (length buf)), Nat.add_sub, Nat.min_l by lia.
  rewrite firstn_all, drop_app_ge by lia. replace (length pre + length b - length pre)%nat with (length b) by lia.
  specialize (IH (pre ++ b) (drop (length b) buf)). rewrite length_app, length_drop in IH.
  rewrite <- !app_assoc in IH. apply IH. lia.
Qed.

(** Writes that take no more than they are given, and something when they do not fail. *)
Definition writer_ok (ws : list (nat * option connErr)) : Prop := Forall (λ r, r.2 = None → (0 < r.1)%nat) ws.
(** What the writes before the first failure take. *)
Fixpoint taken (ws : list (nat * option connErr)) : nat :=
  match ws with (l, None) :: ws => l + taken ws | _ => 0 end%nat.

Lemma write_loop_spec ws buf off r : (off ≤ length buf)%nat →
  write_loop ws buf (length buf) off (take off buf) = Some r →
  let '(n, err, out) := r in
  match err with
  | None => (length buf ≤ n)%nat ∧ out = buf
  | Some _ => n = (off + taken ws)%nat ∧ (n < length buf)%nat ∧ ∃ k, out = take (n + k) buf
  end.
Proof.
  revert off. induction ws as [|[l err] ws IH]; intros off Hoff; cbn [write_loop taken].
  - destruct (off <? length buf)%nat eqn:E; [done|]. apply Nat.ltb_ge in E. intros [= <-]. cbn.
    split; [lia|]. by apply take_ge.
  - destruct (off <? length buf)%nat eqn:E.
    2:{ apply Nat.ltb_ge in E. intros [= <-]. split; [lia|]. by apply take_ge. }
    apply Nat.ltb_lt in E. rewrite take_take_drop. destruct err as [e|].
    { intros [= <-]. cbn. split_and!; [lia|done|]. by exists l. }
    destruct (Nat.le_gt_cases (off + l) (length buf)) as [Hl|Hl].
    + intros Hw. apply IH in Hw; [|done]. destruct r as [[n err] out]. destruct err; [|done].
      destruct Hw as (-> & ? & ?). split_and!; [lia|done|done].
    + rewrite (take_ge buf (off + l)) by lia. destruct ws as [|[l' err'] ws]; cbn [write_loop];
        (destruct (off + l <? length buf)%nat eqn:E'; [apply Nat.ltb_lt in E'; lia|]); intros [= <-]; by split; [lia|].
Qed.
Lemma write_loop_returns ws buf off out : writer_ok ws → (length buf - off ≤ length ws)%nat →
  ∃ r, write_loop ws buf (length buf) off out = Some r.
Proof.
  revert off out. induction ws as [|[l err] ws IH]; intros off out Hw Hl; cbn [write_loop length] in *.
  - destruct (off <? length buf)%nat eqn:E; [apply Nat.ltb_lt in E; lia|eauto].
  - apply list.Forall_cons in Hw as [H1 Hw]. cbn in H1. destruct (off <? length buf)%nat; [|eauto].
    destruct err; [eauto|]. apply IH; [done|]. specialize (H1 eq_refl). lia.
Qed.

(** WriteTo returns, with writes that get on, gives its memory back, and writes the
    buffers in their order: all of them when there is no error.  When a write fails, what
    was written is still a beginning of them, but the count is that of the writes before:
    what the failing write took is not in it. *)
Theorem tls_write (ws : list (nat * option connErr)) (bufs : list bytes) (w : world) :
  pool_ok w → writer_ok ws → (length (concat bufs) ≤ length ws)%nat →
  ∃ n err out w', WriteTo ws bufs w = (Ok (Some (n, err, out)), w') ∧ pool_ok w' ∧
    match err with
    | None => (length (concat bufs) ≤ n)%nat ∧ out = concat bufs
    | Some _ => n = taken ws ∧ ∃ k, out = take (n + k) (concat bufs)
    end.
Proof.
  intros Hp Hw Hl. assert (Hsz : length (concat bufs) = sum_list (length <$> bufs)).
  { clear. induction bufs as [|b bufs IH]; [done|]. cbn. by rewrite length_app, IH. }
  unfold WriteTo, mbind, stM_bind. set (size := sum_list (length <$> bufs)) in *.
  pose proof (take_bytes_spec (Z.of_nat size) w Hp ltac:(lia)) as Ht. unfold wp, wpe in Ht. unfold GetBytes.
  destruct (take_bytes (Z.of_nat size) w) as [[s|e] w1]; [|done]. destruct Ht as (Hp1 & Hs & Hwf & Hc).
  set (full := Slice _ _).
  assert (Hcont : length (contents s) = size).
  { unfold contents. rewrite length_take. unfold slice_wf, scap, zlen in Hwf. lia. }
  assert (Hf : contents full = concat bufs).
  { unfold contents, full. cbn [arr slen]. pose proof (copy_loop_spec bufs [] (contents s)) as Hcp. cbn in Hcp.
    rewrite Hcp by (by rewrite Hcont). rewrite Hs, Nat2Z.id, <- Hsz. by rewrite take_app_length. }
  destruct (write_loop_returns ws (contents full) 0 [] Hw) as [[[n err] out] Hr].
  { rewrite Hf. lia. }
  rewrite <- Hsz, <- Hf, Hr. cbn. exists n, err, out, (PutBytes (Some full) w1). split; [done|].
  split; [by apply give_bytes_ok|]. apply (write_loop_spec ws (contents full) 0) in Hr; [|lia].
  destruct err; [|done]. destruct Hr as (-> & _ & ?). done.
Qed.

Module tls_example.
#[local] Instance lower0 : StringsLower := {| ToLower := LowercaseBytes; ToLower_ascii := λ s _, eq_refl |}.
(** A library whose certificates are their own names. *)
#[local] Instance lib0 : TlsLib unit := {|
  X509KeyPair c k := Ok (mkCert [c] k); LoadX509KeyPair c k := Ok (mkCert [c] k);
  ReadFile f := Ok f; AppendCertsFromPEM b := Some tt; ParseCertificate der := Some (mkX509 der [])
|}.
Definition fs0 : gmap bytes (unit → ConfigHooks unit unit) := factories_init.
Definition section (name cert suites protos : bytes) : TLSConfig unit :=
  mkTLS true [] name [] cert (bs "key") false false suites [] [] [] protos [] false tt.
Definition chains0 : list (TLSConfig unit) :=
  [section (bs "*.example.com") (bs "a") (bs "RSA-AES128-CBC-SHA") (bs "h2");
   section (bs "www.example.org") (bs "b") [] []].
Definition mgr0 : @contextManager unit unit :=
  match NewTLSServerContextManager fs0 chains0 true with Some (Ok m) => m | _ => mkMgr [] false true end.
Definition hello0 : ClientHelloInfo := mkHello (bs "WWW.Example.ORG.") [].

Lemma mgr0_made : NewTLSServerContextManager fs0 chains0 true = Some (Ok mgr0).
Proof. vm_compute. reflexivity. Qed.
Lemma server_contexts_witness : contexts mgr0 = omap (made fs0) chains0.
Proof. destruct (server_contexts fs0 chains0 true (Ok mgr0) mgr0_made) as [H _]. exact H. Defined.
Lemma sni_choice_witness : ∃ ctx, GetConfigForClient hello0 mgr0 = Ok (tlsConfig ctx) ∧ ctx ∈ contexts mgr0.
Proof.
  destruct (sni_choice hello0 mgr0) as (l1 & ctx & l2 & E & H & _); [vm_compute; discriminate|].
  exists ctx. split; [exact H|]. rewrite E. apply elem_of_app. right. by left.
Defined.
Lemma capitals_never_found_witness : ¬ covers (bs "WWW.example.org") (helloHost hello0).
Proof.
  apply (capitals_never_found (bs "WWW.example.org") hello0); [|vm_compute; discriminate].
  repeat constructor; vm_compute; reflexivity.
Defined.
Definition conf0 : Config unit unit := match GetConfigForClient hello0 mgr0 with Ok c => c | Err _ => mkConf [] [] 0 0 [] [] [] None false None None NoClientCert end.
Lemma tls_config_sound_witness : cCipherSuites conf0 = [] ↔ CipherSuites (section (bs "www.example.org") (bs "b") [] []) = [].
Proof.
  apply (tls_config_sound false DefaultConfigHooks (section (bs "www.example.org") (bs "b") [] []) conf0).
  vm_compute. reflexivity.
Defined.
Lemma inspect_transparent_witness : ∃ conn, pending conn = bs "GET /" ∧
  mgr_Conn mgr0 true [bs "GET"; bs " /"] = Inspected conn.
Proof.
  destruct (inspect_transparent mgr0 [bs "GET"; bs " /"]) as [(conn & H1 & _ & H2) _];
    [repeat constructor; discriminate|vm_compute; reflexivity|vm_compute; reflexivity|vm_compute; reflexivity|].
  exists conn. split; [exact H1|exact H2].
Defined.
(** The second write fails after one more byte, which is not counted. *)
Lemma tls_write_witness : ∃ w', WriteTo [(2, None); (1, Some EOF); (1, None); (1, None)]%nat [bs "ab"; bs "cd"]
    (World newByteBufferPool []) = (Ok (Some (2%nat, Some EOF, bs "abc")), w').
Proof.
  destruct (tls_write [(2, None); (1, Some EOF); (1, None); (1, None)]%nat [bs "ab"; bs "cd"] (World newByteBufferPool []))
    as (n & err & out & w' & H & _).
  - apply newByteBufferPool_ok.
  - repeat constructor; cbn; intros; lia || done.
  - cbn. lia.
  - exists w'. rewrite H. vm_compute in H. injection H as <- <- <- <-. reflexivity.
Defined.

(** The first context is chosen for its protocol although the second has the name. *)
Example alpn_before_name : GetConfigForClient (mkHello (bs "www.example.org") [bs "h2"]) mgr0 =
  GetConfigForClient (mkHello (bs "a.example.com") []) mgr0.
Proof. vm_compute. reflexivity. Qed.
(** A lowest version above the highest is accepted. *)
Example versions_crossed : ∃ conf : Config unit unit, newTLSConfig true DefaultConfigHooks
    (mkTLS true [] [] [] [] [] false false [] [] (bs "tlsv1_2") (bs "TLSv1_0") [] [] false tt) = Ok conf ∧
  cMaxVersion conf < cMinVersion conf.
Proof. eexists. split; [vm_compute; reflexivity|]. vm_compute. reflexivity. Qed.
(** The error of an unknown lowest version shows the highest. *)
Example min_version_error : newTLSConfig (Verify := unit) true DefaultConfigHooks
    (mkTLS true [] [] [] [] [] false false [] [] (bs "tls1") (bs "tlsv1_2") [] [] false tt) = Err (VersionErr (bs "tlsv1_2")).
Proof. vm_compute. reflexivity. Qed.
End tls_example.
