(* ===== verification/Config.v ===== *)
(** * Configuration

    src/pkg/config: what the server makes of a configuration that was read (parser.go),
    the callbacks it runs, and how a file is replaced (dumper.go); src/pkg/api/v2/unmarshal.go:
    the fields that are worked out after decoding; src/pkg/filter/factory.go: the registry
    of filters by type.

    JSON itself (encoding/json), time.ParseDuration and net.ResolveTCPAddr are arguments;
    a value in a configuration is a string or something else ([value]).  stdlog.Fatalln,
    which ends the process, is the error [Fatal].

    The theorems: the weight of every host is from 1 to 128 and no limit of a cluster is
    zero; the proxy filter that is made has two supported protocols; a filter that cannot
    be made is left out and nothing else; a file is never left half written; callbacks run
    in the order they were registered. *)
From stdpp Require Import gmap.
From S2P Require Import Prelude BytesConv Headers Cluster.
#[local] Open Scope Z_scope.

Inductive fatal := Fatal (msg : bytes).
#[local] Instance res_bind E : MBind (res E) := λ A B f m, match m with Ok a => f a | Err e => Err e end.

Inductive value := VStr (s : bytes) | VOther (n : nat).
#[export] Instance value_eq_dec : EqDecision value.
Proof. solve_decision. Defined.
Abbreviation config := (gmap bytes value).

(** ** Protocols and levels *)

Definition MQ : bytes := bs "MQ".
Definition HTTP1 : bytes := bs "Http1".
Definition HTTP2 : bytes := bs "Http2".
Definition MQTT : bytes := bs "Mqtt".
Definition Xprotocol : bytes := bs "X".
Definition protocolsSupported : gset bytes := list_to_set [MQ; HTTP2; HTTP1; MQTT; Xprotocol].

Definition FATAL : Z := 0.
Definition ERROR : Z := 1.
Definition WARN : Z := 2.
Definition INFO : Z := 3.
Definition DEBUG : Z := 4.
Definition TRACE : Z := 5.
Definition logLevelMap : gmap bytes Z := list_to_map
  [(bs "TRACE", TRACE); (bs "DEBUG", DEBUG); (bs "FATAL", FATAL); (bs "ERROR", ERROR); (bs "WARN", WARN); (bs "INFO", INFO)].
Definition ParseLogLevel (level : bytes) : Z := default INFO (logLevelMap !! level).

(** ** Callbacks

    A callback by its number, and what it is called with. *)
Definition ParseCallbackKeyCluster : bytes := bs "clusters".
Definition ParseCallbackKeyProcessor : bytes := bs "processor".
Abbreviation cbMap := (gmap bytes (list nat)).
Inductive call := CallClusters (cb : nat) (cs : list ClusterConfig) (endParsing : bool)
                | CallProcessor (cb : nat) (n : Z) (endParsing : bool).
Definition RegisterConfigParsedListener (key : bytes) (cb : nat) (m : cbMap) : cbMap :=
  match m !! key with
  | Some cbs => <[key := cbs ++ [cb]]> m
  | None => <[key := [cb]]> m
  end.

(** ** Clusters and hosts *)

Definition MinHostWeight : Z := 1.
Definition MaxHostWeight : Z := 128.
Definition DefaultMaxRequestPerConn : Z := 1024.
Definition DefaultConnBufferLimitBytes : Z := 16 * 1024.

Definition transHostWeight (weight : Z) : Z :=
  if MaxHostWeight <? weight then MaxHostWeight
  else if weight <? MinHostWeight then MinHostWeight
  else weight.
Definition parseHost (h : HostConfig) : HostConfig :=
  MkHostConfig (Address h) (Hostname h) (transHostWeight (Weight h)) (TLSDisable h) (MetaData h).
Definition parseHostConfig (hosts : list HostConfig) : list HostConfig := parseHost <$> hosts.

(** One turn of the loop; what is printed about a cluster changes nothing. *)
Definition parseCluster (c : ClusterConfig) : ClusterConfig :=
  MkClusterConfig (Name c) (ClusterType c)
    (if MaxRequestPerConn c =? 0 then DefaultMaxRequestPerConn else MaxRequestPerConn c)
    (if ConnBufferLimitBytes c =? 0 then DefaultConnBufferLimitBytes else ConnBufferLimitBytes c)
    (HealthCheckProtocol c) (parseHostConfig (CHosts c)).
Fixpoint parse_clusters (clusters pClusters : list ClusterConfig) (m : gmap bytes (list HostConfig))
  : list ClusterConfig * gmap bytes (list HostConfig) :=
  match clusters with
  | [] => (pClusters, m)
  | c :: clusters =>
      let c := parseCluster c in
      parse_clusters clusters (pClusters ++ [c]) (<[Name c := CHosts c]> m)
  end.
Definition ParseClusterConfig (cbs : cbMap) (clusters : list ClusterConfig)
  : list ClusterConfig * gmap bytes (list HostConfig) * list call :=
  let '(ps, m) := parse_clusters clusters [] ∅ in
  (ps, m, (λ cb, CallClusters cb ps false) <$> default [] (cbs !! ParseCallbackKeyCluster)).

(** ** The server and its listeners *)

Record ServerConfig := mkServerConfig {
  ServerName : bytes; DefaultLogPath : bytes; DefaultLogLevel : bytes; UseEdgeMode : bool;
  GracefulTimeout : Z; Processor : Z
}.
(** [env] is GOMAXPROCS in the environment, [cpus] the number of processors. *)
Definition ParseServerConfig (env : bytes) (cpus : Z) (cbs : cbMap) (c : ServerConfig) : ServerConfig * list call :=
  let n := match Atoi env with Some n => n | None => AtoiValue env end in
  let p := if (0 <? n) && (n <=? cpus) then n else if Processor c =? 0 then cpus else Processor c in
  (mkServerConfig (ServerName c) (DefaultLogPath c) (DefaultLogLevel c) (UseEdgeMode c) (GracefulTimeout c) p,
   (λ cb, CallProcessor cb p true) <$> default [] (cbs !! ParseCallbackKeyProcessor)).

Record Filter := mkFilter { FType : bytes; FConfig : config }.
(** v2.Listener; [LChains] are the filters of its filter chains, [LStreams] its stream
    filters, [LAddr_] the address that was resolved. *)
Record Listener (Addr : Type) := mkListener {
  LName_ : bytes; AddrConfig : bytes; BindToPort : bool; LogLevelConfig : bytes; LChains : list (list Filter);
  LStreams : list Filter; LAddr_ : option Addr; PerConnBufferLimitBytes : Z; LogLevel : Z; LDisableConnIo : bool
}.
Arguments mkListener {Addr}.
Arguments LName_ {Addr}.
Arguments AddrConfig {Addr}.
Arguments BindToPort {Addr}.
Arguments LogLevelConfig {Addr}.
Arguments LChains {Addr}.
Arguments LStreams {Addr}.
Arguments LAddr_ {Addr}.
Arguments PerConnBufferLimitBytes {Addr}.
Arguments LogLevel {Addr}.
Arguments LDisableConnIo {Addr}.

Definition ParseListenerConfig {Addr} (ResolveTCPAddr : bytes → option Addr) (lc : Listener Addr)
  : res fatal (Listener Addr) :=
  if AddrConfig lc =b [] then Err (Fatal (bs "[Address] is required in listener config"))
  else match ResolveTCPAddr (AddrConfig lc) with
       | None => Err (Fatal (bs "[Address] not valid:"))
       | Some a =>
           Ok (mkListener (LName_ lc) (AddrConfig lc) (BindToPort lc) (LogLevelConfig lc) (LChains lc)
                 (LStreams lc) (Some a) (Z.shiftl 1 15) (uint8 (ParseLogLevel (LogLevelConfig lc))) (LDisableConnIo lc))
       end.

Definition DEFAULT_NETWORK_FILTER : bytes := bs "proxy".
Definition GetListenerDisableIO (filters : list Filter) : bool :=
  existsb (λ f, (FType f =b DEFAULT_NETWORK_FILTER) &&
                (FConfig f !! bs "downstream_protocol" =b Some (VStr HTTP2))) filters.

(** ** Filters *)

Section registry.
(** The factories that creators make. *)
Context {F : Type}.
Abbreviation creators := (gmap bytes (config → res bytes F)).
Definition RegisterFilter (filterType : bytes) (cr : config → res bytes F) (m : creators) : creators :=
  <[filterType := cr]> m.
(** CreateNetworkFilterChainFactory and CreateStreamFilterChainFactory, by [kind]. *)
Definition CreateFilterChainFactory (kind : bytes) (m : creators) (filterType : bytes) (c : config) : res bytes F :=
  match m !! filterType with
  | Some cf =>
      match cf c with
      | Err e => Err (bs "create " ++ kind ++ bs " filter chain factory failed: " ++ e)
      | Ok f => Ok f
      end
  | None => Err (bs "unsupported " ++ kind ++ bs " filter type: " ++ filterType)
  end.
(** GetNetworkFilters, GetStreamFilters *)
Fixpoint GetFilters (kind : bytes) (m : creators) (filters : list Filter) : list F :=
  match filters with
  | [] => []
  | f :: filters =>
      match CreateFilterChainFactory kind m (FType f) (FConfig f) with
      | Err _ => GetFilters kind m filters
      | Ok x => x :: GetFilters kind m filters
      end
  end.
End registry.

(** encoding/json for a structure [A]: Marshal of a configuration, and Unmarshal into a
    structure, which may leave it partly filled when it fails. *)
Class Json (A : Type) := { Marshal : config → option bytes; Unmarshal : bytes → A → A * option bytes }.

Record Proxy := mkProxy { PName : bytes; DownstreamProtocol : bytes; UpstreamProtocol : bytes; RouterConfigName : bytes }.
Record Controller := mkController { CName : bytes; SourceProtocol : bytes; Scope : list bytes }.
Record Delegation := mkDelegation { AgentName : bytes; AgentType : bytes }.

Definition ParseProxyFilter `{Json Proxy} (cfg : config) : res fatal Proxy :=
  match Marshal cfg with
  | None => Err (Fatal (bs "Parsing Proxy Network Filter Error"))
  | Some data =>
      let p := (Unmarshal data (mkProxy [] [] [] [])).1 in
      if (DownstreamProtocol p =b []) || (UpstreamProtocol p =b [])
      then Err (Fatal (bs "Protocol in String Needed in Proxy Network Filter"))
      else if negb (bool_decide (DownstreamProtocol p ∈ protocolsSupported))
      then Err (Fatal (bs "Invalid Downstream Protocol = " ++ DownstreamProtocol p))
      else if negb (bool_decide (UpstreamProtocol p ∈ protocolsSupported))
      then Err (Fatal (bs "Invalid Upstream Protocol = " ++ UpstreamProtocol p))
      else Ok p
  end.
Definition ParseControllerFilter `{Json Controller} (cfg : config) : res fatal Controller :=
  match Marshal cfg with
  | None => Err (Fatal (bs "Parsing Proxy Network Filter Error"))
  | Some data =>
      let c := (Unmarshal data (mkController [] [] [])).1 in
      if SourceProtocol c =b [] then Err (Fatal (bs "Protocol in String Needed in Controller Network Filter"))
      else if negb (bool_decide (SourceProtocol c ∈ protocolsSupported))
      then Err (Fatal (bs "Invalid Source Protocol = " ++ SourceProtocol c))
      else Ok c
  end.
Definition ParseDelegationFilter `{Json Delegation} (cfg : config) : res fatal Delegation :=
  match Marshal cfg with
  | None => Err (Fatal (bs "Parsing Delegation network filter error"))
  | Some data => Ok (Unmarshal data (mkDelegation [] [])).1
  end.
(** ParseFaultInjectFilter, which keeps what was filled; ParseTCPProxy, whose only error is
    that of Marshal; ParseStreamFaultInjectFilter, which reports both. *)
Definition ParseFaultInjectFilter `{Json A} (zero : A) (cfg : config) : A :=
  match Marshal cfg with None => zero | Some data => (Unmarshal data zero).1 end.
Definition ParseTCPProxy `{Json A} (zero : A) (cfg : config) : res bytes A :=
  match Marshal cfg with
  | None => Err (bs "[config] config is not a tcp proxy config: ")
  | Some data => Ok (Unmarshal data zero).1
  end.
Definition ParseStreamFaultInjectFilter `{Json A} (zero : A) (cfg : config) : res bytes A :=
  match Marshal cfg with
  | None => Err (bs "json")
  | Some data => match Unmarshal data zero with (x, None) => Ok x | (_, Some e) => Err e end
  end.

(** ** After decoding: unmarshal.go *)

(** parseMetaData keeps the strings. *)
Definition parseMetaData (lb : config) : gmap bytes bytes :=
  omap (λ v, match v with VStr s => Some s | VOther _ => None end) lb.

(** strings.Trim(s, q) for one byte. *)
Fixpoint TrimLeft (q : byte) (s : bytes) : bytes :=
  match s with [] => [] | c :: s' => if c =b q then TrimLeft q s' else s end.
Definition Trim (q : byte) (s : bytes) : bytes := rev (TrimLeft q (rev (TrimLeft q s))).
Definition quote : byte := x22.

Section unmarshal.
(** time.ParseDuration and Duration.String *)
Context (ParseDuration : bytes → Z * option bytes) (DurationString : Z → bytes).
Definition DurationConfig_UnmarshalJSON (b : bytes) : Z * option bytes := ParseDuration (Trim quote b).
Definition DurationConfig_MarshalJSON (d : Z) : bytes := [quote] ++ DurationString d ++ [quote].

(** json.Unmarshal into the configured part; [None] when it gives no error.  On an error
    the rest is left as it was. *)
Definition after {C A} (dec : bytes → C → C * option bytes) (fill : C → A → A) (b : bytes) (c : C) (a : A)
  : C * A * option bytes :=
  match dec b c with
  | (c, Some e) => (c, a, Some e)
  | (c, None) => (c, fill c a, None)
  end.

Record HealthCheckTimes := mkTimes { Timeout : Z; Interval : Z; IntervalJitter : Z }.
(** HealthCheck: the configured times are copied; Host: its metadata; FaultInject: the delay
    as an unsigned number. *)
Definition HealthCheck_UnmarshalJSON (dec : bytes → HealthCheckTimes → HealthCheckTimes * option bytes) :=
  after dec (λ c (_ : HealthCheckTimes), mkTimes (Timeout c) (Interval c) (IntervalJitter c)).
Definition Host_UnmarshalJSON (dec : bytes → config → config * option bytes) :=
  after dec (λ lb (_ : gmap bytes bytes), parseMetaData lb).
Definition FaultInject_UnmarshalJSON (dec : bytes → Z → Z * option bytes) :=
  after dec (λ d (_ : Z), uint64 d).
End unmarshal.

(** ** Replacing a file: dumper.go *)

(** The flag of a change that is to be written. *)
Definition setDump (dumping : Z) : Z := if dumping =? 0 then 1 else dumping.
Definition getDump (dumping : Z) : bool * Z := if dumping =? 1 then (true, 0) else (false, dumping).
Definition dump (dirty : bool) (dumping : Z) : Z := if dirty then setDump dumping else dumping.

(** Files by name.  A write may fail and leave part of the data ([tries]); a rename fails
    or replaces the file. *)
Abbreviation files := (gmap bytes bytes).
Inductive tryRes := TryOk | TryErr (e : bytes) (part : nat).
Definition WriteFile (name data : bytes) (r : tryRes) (f : files) : option bytes * files :=
  match r with
  | TryOk => (None, <[name := data]> f)
  | TryErr e n => (Some e, <[name := take n data]> f)
  end.
(** The result of attempt [i] is [tries i]; [n] attempts are left. *)
Fixpoint try_loop (n i : nat) (name data : bytes) (tries : nat → tryRes) (err : option bytes) (f : files)
  : option bytes * files :=
  match n with
  | O => (err, f)
  | S n =>
      match WriteFile name data (tries i) f with
      | (None, f) => (None, f)
      | (Some e, f) => try_loop n (S i) name data tries (Some e) f
      end
  end.
Definition WriteFileSafety (filename data : bytes) (tries : nat → tryRes) (renameErr : option bytes) (f : files)
  : option bytes * files :=
  let tempFile := filename ++ bs ".tmp" in
  match try_loop 5 0 tempFile data tries None f with
  | (Some e, f) => (Some e, f)
  | (None, f) =>
      match renameErr with
      | Some e => (Some e, f)
      | None => (None, match f !! tempFile with Some d => <[filename := d]> (delete tempFile f) | None => f end)
      end
  end.

(** ** Clusters *)

Lemma parse_clusters_spec cs ps m :
  parse_clusters cs ps m =
  (ps ++ (parseCluster <$> cs), foldl (λ m c, <[Name c := parseHostConfig (CHosts c)]> m) m cs).
Proof.
  revert ps m. induction cs as [|c cs IH]; intros ps m; cbn; [by rewrite app_nil_r|].
  rewrite IH, <- app_assoc. done.
Qed.
Lemma transHostWeight_range w : MinHostWeight ≤ transHostWeight w ≤ MaxHostWeight.
Proof. unfold transHostWeight, MinHostWeight, MaxHostWeight. repeat case_if; lia. Qed.
Lemma transHostWeight_id w : MinHostWeight ≤ w ≤ MaxHostWeight → transHostWeight w = w.
Proof. unfold transHostWeight. intros. repeat case_if; lia. Qed.
Lemma find_snoc {A} (f : A → bool) l x :
  List.find f (l ++ [x]) = match List.find f l with Some y => Some y | None => if f x then Some x else None end.
Proof. induction l as [|y l IH]; cbn; [done|]. by destruct (f y). Qed.
(** The last of the clusters with a name. *)
Lemma foldl_last (cs : list ClusterConfig) (m : gmap bytes (list HostConfig)) n :
  foldl (λ m c, <[Name c := parseHostConfig (CHosts c)]> m) m cs !! n =
  match List.find (λ c, Name c =b n) (rev cs) with
  | Some c => Some (parseHostConfig (CHosts c))
  | None => m !! n
  end.
Proof.
  revert m. induction cs as [|c cs IH]; intros m; cbn; [done|]. rewrite IH, find_snoc.
  destruct (List.find _ (rev cs)); [done|]. case_bool_decide as E.
  - rewrite E. apply lookup_insert_eq.
  - by apply lookup_insert_ne.
Qed.

Lemma rev_fmap {A B} (f : A → B) l : rev (f <$> l) = f <$> rev l.
Proof. induction l as [|x l IH]; cbn; [done|]. by rewrite IH, fmap_app. Qed.

(** ParseClusterConfig keeps the clusters, their order and the addresses of their
    hosts; every weight is then from 1 to 128, no limit is zero, what was in range stays
    as it was, the hosts of a name are those of the last cluster with it, and each
    callback gets all clusters once, in the order of registration. *)
Theorem clusters_parsed (cbs : cbMap) (cs : list ClusterConfig) :
  let '(ps, m, calls) := ParseClusterConfig cbs cs in
  (Name <$> ps = Name <$> cs ∧ (λ c, Address <$> CHosts c) <$> ps = (λ c, Address <$> CHosts c) <$> cs) ∧
  Forall (λ c, MaxRequestPerConn c ≠ 0 ∧ ConnBufferLimitBytes c ≠ 0 ∧
    Forall (λ h, MinHostWeight ≤ Weight h ≤ MaxHostWeight) (CHosts c)) ps ∧
  (∀ i c, cs !! i = Some c → MaxRequestPerConn c ≠ 0 → ConnBufferLimitBytes c ≠ 0 →
    Forall (λ h, MinHostWeight ≤ Weight h ≤ MaxHostWeight) (CHosts c) → ps !! i = Some c) ∧
  (∀ n, m !! n = CHosts <$> List.find (λ c, Name c =b n) (rev ps)) ∧
  calls = (λ cb, CallClusters cb ps false) <$> default [] (cbs !! ParseCallbackKeyCluster).
Proof.
  unfold ParseClusterConfig. rewrite parse_clusters_spec. cbn [app]. split_and!.
  - rewrite <- list_fmap_compose. by apply list_fmap_ext.
  - rewrite <- list_fmap_compose. apply list_fmap_ext. intros _ c _. cbn. unfold parseHostConfig.
    rewrite <- list_fmap_compose. by apply list_fmap_ext.
  - apply Forall_fmap, Forall_true. intros c. cbn. split_and!.
    + case_if; [done|lia].
    + case_if; [done|lia].
    + apply Forall_fmap, Forall_true. intros h. apply transHostWeight_range.
  - intros i c Hc H1 H2 Hw. rewrite list_lookup_fmap, Hc. cbn. f_equal. destruct c as [a b mr cb hp hs]. cbn in *.
    unfold parseCluster. cbn. rewrite !(proj2 (Z.eqb_neq _ _)) by done. f_equal. unfold parseHostConfig.
    rewrite <- (list_fmap_id hs) at 2. apply list_fmap_ext. intros j h Hh.
    pose proof (list.Forall_lookup_1 _ _ _ _ Hw Hh) as Hr. destruct h. unfold parseHost. cbn in *.
    by rewrite transHostWeight_id.
  - intros n. rewrite foldl_last, lookup_empty, rev_fmap. clear. induction (rev cs) as [|c l IH]; cbn; [done|].
    by case_bool_decide.
  - done.
Qed.

(** ** Callbacks *)

(** The callbacks of a key are those that were registered for it, in that order. *)
Theorem callbacks_in_order (regs : list (bytes * nat)) (key : bytes) :
  default [] (foldl (λ m kc, RegisterConfigParsedListener kc.1 kc.2 m) ∅ regs !! key) =
  snd <$> filter (λ kc, kc.1 = key) regs.
Proof.
  assert (H : ∀ m, default [] (foldl (λ m kc, RegisterConfigParsedListener kc.1 kc.2 m) m regs !! key) =
    default [] (m !! key) ++ (snd <$> filter (λ kc, kc.1 = key) regs)).
  { induction regs as [|[k c] regs IH]; intros m; [by rewrite app_nil_r|]. cbn [foldl]. rewrite IH.
    rewrite filter_cons. cbn. unfold RegisterConfigParsedListener. destruct (decide (k = key)) as [->|Hk].
    - destruct (m !! key); rewrite lookup_insert_eq; cbn; [by rewrite <- app_assoc|done].
    - destruct (m !! k); by rewrite lookup_insert_ne. }
  specialize (H ∅). by rewrite lookup_empty in H.
Qed.

(** ** Filters *)

(** The filters of a listener are those that can be made, in their order: one of an
    unknown type, or whose creator fails, is left out without any other effect. *)
Theorem filters_made {F} (kind : bytes) (m : gmap bytes (config → res bytes F)) (fs : list Filter) :
  GetFilters kind m fs =
  omap (λ f, cf ← m !! FType f; match cf (FConfig f) with Ok x => Some x | Err _ => None end) fs.
Proof.
  induction fs as [|f fs IH]; [done|]. cbn. unfold CreateFilterChainFactory.
  destruct (m !! FType f) as [cf|]; cbn; [|exact IH]. destruct (cf (FConfig f)); cbn; by rewrite IH.
Qed.

(** A proxy filter is made exactly when both protocols are named and supported; Auto is
    not one of them. *)
Theorem proxy_filter_valid `{Json Proxy} (cfg : config) (p : Proxy) :
  ParseProxyFilter cfg = Ok p ↔
  (∃ data, Marshal cfg = Some data ∧ p = (Unmarshal data (mkProxy [] [] [] [])).1) ∧
  DownstreamProtocol p ∈ protocolsSupported ∧ UpstreamProtocol p ∈ protocolsSupported.
Proof.
  unfold ParseProxyFilter. destruct (Marshal cfg) as [data|]; [|naive_solver].
  assert (Hn : [] ∉ protocolsSupported) by (apply (bool_decide_eq_false_1 ([] ∈ protocolsSupported)); vm_compute; reflexivity).
  set (q := (Unmarshal data _).1). split.
  - intros E. repeat case_match; simplify_eq/=; bdec; rewrite ?negb_false_iff, ?bool_decide_eq_true in *; naive_solver.
  - intros ((d & [= <-] & ->) & H1 & H2). fold q in H1, H2 |- *.
    rewrite (bool_decide_eq_false_2 (_ = [])), (bool_decide_eq_false_2 (UpstreamProtocol q = [])) by congruence.
    by rewrite !bool_decide_eq_true_2.
Qed.

(** ** Files *)

Lemma try_loop_spec n i name data tries err f :
  let '(e, f') := try_loop n i name data tries err f in
  (∀ k, k ≠ name → f' !! k = f !! k) ∧ (e = None → f' !! name = Some data ∨ (n = 0%nat ∧ f' = f)).
Proof.
  revert i err f. induction n as [|n IH]; intros i err f; cbn; [by split; [|right]|].
  destruct (tries i) as [|e part]; cbn.
  - split; [|intros _; left; apply lookup_insert_eq]. intros k Hk. by apply lookup_insert_ne.
  - specialize (IH (S i) (Some e) (<[name := take part data]> f)).
    destruct (try_loop n (S i) name data tries (Some e) _) as [e' f'] eqn:Et. destruct IH as [H1 H2]. split.
    + intros k Hk. rewrite H1 by done. by apply lookup_insert_ne.
    + intros ->. destruct (H2 eq_refl) as [|[-> ->]]; [by left|]. by injection Et.
Qed.

(** WriteFileSafety leaves the file as it was or with all of the new data, and with the
    new data exactly when it reports no error; no other file changes but the temporary one. *)
Theorem write_safety (filename data : bytes) (tries : nat → tryRes) (renameErr : option bytes) (f : files) :
  let '(err, f') := WriteFileSafety filename data tries renameErr f in
  (err = None → f' !! filename = Some data) ∧ (err ≠ None → f' !! filename = f !! filename) ∧
  ∀ k, k ≠ filename → k ≠ filename ++ bs ".tmp" → f' !! k = f !! k.
Proof.
  unfold WriteFileSafety. set (tmp := filename ++ bs ".tmp").
  assert (Hne : filename ≠ tmp).
  { intros E. apply (f_equal length) in E. unfold tmp in E. rewrite length_app in E. cbn in E. lia. }
  pose proof (try_loop_spec 5 0 tmp data tries None f) as Ht.
  destruct (try_loop 5 0 tmp data tries None f) as [[e|] f1]; destruct Ht as [H1 H2].
  { split_and!; [done|by intros _; apply H1|]. intros k _ Hk. by apply H1. }
  destruct (H2 eq_refl) as [Hd|[? _]]; [|done]. destruct renameErr as [e|].
  { split_and!; [done|by intros _; apply H1|]. intros k _ Hk. by apply H1. }
  rewrite Hd. split_and!; [intros _; apply lookup_insert_eq|done|].
  intros k Hk Hk'. rewrite lookup_insert_ne, lookup_delete_ne by done. by apply H1.
Qed.

(** ** The server *)

(** The number of processors is that of the environment when it is one the machine has,
    and else the configured one, all of them when that is zero; a configured one is not
    checked.  A level that is not known is INFO. *)
Theorem server_parsed (env : bytes) (cpus : Z) (cbs : cbMap) (c : ServerConfig) (n : Z) :
  0 < cpus → (-9223372036854775808 ≤ n ≤ 9223372036854775807) → env = Itoa n →
  Processor (ParseServerConfig env cpus cbs c).1 =
    (if bool_decide (1 ≤ n ≤ cpus) then n else if Processor c =? 0 then cpus else Processor c) ∧
  ∀ level, level ∉ dom logLevelMap → ParseLogLevel level = INFO.
Proof.
  intros Hc Hn ->. split.
  - unfold ParseServerConfig. cbn [fst Processor]. assert (Ha : match Atoi (Itoa n) with Some n => n | None => AtoiValue (Itoa n) end = n).
    { destruct (Atoi (Itoa n)) eqn:E; [|by apply AtoiValue_Itoa]. unfold Atoi in E.
      rewrite parse_Itoa in E by done. cbn in E. case_match; by simplify_eq. }
    rewrite Ha. case_bool_decide as Hb.
    + rewrite (proj2 (Z.ltb_lt 0 n)), (proj2 (Z.leb_le n cpus)) by lia. done.
    + destruct (0 <? n) eqn:E1, (n <=? cpus) eqn:E2; cbn; try done. bdec. lia.
  - intros level Hl. unfold ParseLogLevel. apply not_elem_of_dom in Hl. by rewrite Hl.
Qed.

(** A change is written once, however often it was noted. *)
Lemma dump_once n : let d := Nat.iter n (dump true) 0 in
  getDump d = if (0 <? n)%nat then (true, 0) else (false, 0).
Proof.
  cbv zeta. assert (H : ∀ n, Nat.iter (S n) (dump true) 0 = 1).
  { clear. induction n as [|n IH]; [done|]. cbn [Nat.iter]. cbn in IH |- *. by rewrite IH. }
  destruct n; [done|]. by rewrite H.
Qed.

Module config_example.
#[local] Instance json0 : Json Proxy := {|
  Marshal c := Some []; Unmarshal d p := (mkProxy [] HTTP1 MQ [], None)
|}.
Lemma server_parsed_witness : Processor (ParseServerConfig (bs "3") 4 ∅ (mkServerConfig [] [] [] false 0 0)).1 = 3.
Proof.
  destruct (server_parsed (bs "3") 4 ∅ (mkServerConfig [] [] [] false 0 0) 3) as [H _];
    [lia|lia|vm_compute; reflexivity|]. rewrite H. reflexivity.
Defined.
(** A configured number of processors may be negative. *)
Example processors_negative : Processor (ParseServerConfig [] 4 ∅ (mkServerConfig [] [] [] false 0 (-1))).1 = -1.
Proof. vm_compute. reflexivity. Qed.
(** A negative delay becomes a very long one. *)
Example negative_delay : FaultInject_UnmarshalJSON (λ b _, (-1, None)) [] 0 0 = (-1, 18446744073709551615, None).
Proof. vm_compute. reflexivity. Qed.
Example duration_text : DurationConfig_UnmarshalJSON (λ b, (zlen b, None)) (bs "1h" ++ [quote]) = (2, None).
Proof. vm_compute. reflexivity. Qed.
End config_example.
