(* ===== verification/Listener.v ===== *)
(** * Listeners

    src/pkg/network/listener.go, and the parts of src/pkg/server/handler.go that start and
    stop listeners.  A listener has a socket ([socket]) with its deadline; Start is a
    goroutine that accepts until an error ends it.  A [world] is a listener with the loops
    that were started on it, and its actions are taken in any order: a start, one turn of
    a loop, with what the system answers to Accept, Stop and Close.

    net.TCPListener: the methods of a nil one fail with EINVAL, Accept after the deadline
    with a timeout, and after Close with an error of the operation accept.  Such errors
    are [OpError]s; a syscall.Errno such as EINVAL is a [NetError].  The edge listener, on
    the event loop of pkg/evio, is [edgeListener]: its server function is commented out
    and most of its methods panic.  Which of the two NewListener makes is decided by
    UseEdgeMode; the handler knows both by their interface, [netListener].

    The theorems: what a loop hands to the handler is what Accept gave, in order, once;
    after a Stop or a Close of a listener that has its socket no connection is accepted
    any more, whatever is done, and each loop ends at its next turn; every operational error ends a loop, a passing one too;
    and a listener that is not bound to a port turns for ever. *)
From stdpp Require Import gmap.
From S2P Require Import Prelude.
#[local] Open Scope Z_scope.

(** ** Errors and sockets *)

Inductive lerr := OpError (op : bytes) (timeout temporary : bool) | NetError (timeout : bool) | PlainError.
Definition EINVAL : lerr := NetError false.
Definition opAccept : bytes := bs "accept".

Record socket := mkSocket { deadline : bool; closed : bool }.
(** What the system answers to an Accept that waits: a connection, by its number, or an
    error. *)
Inductive answer := Arrives (c : nat) | Fails (e : lerr).
Definition Accept (s : option socket) (a : answer) : nat + lerr :=
  match s with
  | None => inr EINVAL
  | Some s =>
      if closed s then inr (OpError opAccept false false)
      else if deadline s then inr (OpError opAccept true true)
      else match a with Arrives c => inl c | Fails e => inr e end
  end.
Definition SetDeadline (s : option socket) : option lerr * option socket :=
  match s with
  | None => (Some EINVAL, None)
  | Some s => if closed s then (Some (OpError (bs "set") false false), Some s) else (None, Some (mkSocket true false))
  end.
Definition close_socket (s : option socket) : option lerr * option socket :=
  match s with
  | None => (Some EINVAL, None)
  | Some s => if closed s then (Some (OpError (bs "close") false false), Some s) else (None, Some (mkSocket (deadline s) true))
  end.

(** ** The listener *)

(** [accepted] are the connections handed to OnAccept; [cb] is whether there is someone to
    hand them to; [store] is the sync.Map that the streams of a connection use. *)
Record listener := mkListener_ {
  name : bytes; localAddress : bytes; bindToPort : bool; listenerTag : Z; cb : bool; rawl : option socket;
  lconfig : nat; store : gmap bytes Z; accepted : list nat
}.
Definition set_rawl (s : option socket) (l : listener) : listener :=
  mkListener_ (name l) (localAddress l) (bindToPort l) (listenerTag l) (cb l) s (lconfig l) (store l) (accepted l).
Definition set_store (m : gmap bytes Z) (l : listener) : listener :=
  mkListener_ (name l) (localAddress l) (bindToPort l) (listenerTag l) (cb l) (rawl l) (lconfig l) m (accepted l).
Definition set_accepted (cs : list nat) (l : listener) : listener :=
  mkListener_ (name l) (localAddress l) (bindToPort l) (listenerTag l) (cb l) (rawl l) (lconfig l) (store l) cs.

Definition Store (k : bytes) (v : Z) (l : listener) : listener := set_store (<[k := v]> (store l)) l.
Definition Delete (k : bytes) (l : listener) : listener := set_store (delete k (store l)) l.
Definition Load (k : bytes) (l : listener) : option Z := store l !! k.
Definition LoadOrStore (k : bytes) (v : Z) (l : listener) : Z * bool * listener :=
  match store l !! k with
  | Some w => (w, true, l)
  | None => (v, false, set_store (<[k := v]> (store l)) l)
  end.
Definition SetConfig (c : nat) (l : listener) : listener :=
  mkListener_ (name l) (localAddress l) (bindToPort l) (listenerTag l) (cb l) (rawl l) c (store l) (accepted l).
Definition SetListenerTag (t : Z) (l : listener) : listener :=
  mkListener_ (name l) (localAddress l) (bindToPort l) t (cb l) (rawl l) (lconfig l) (store l) (accepted l).
Definition set_cb (b : bool) (l : listener) : listener :=
  mkListener_ (name l) (localAddress l) (bindToPort l) (listenerTag l) b (rawl l) (lconfig l) (store l) (accepted l).

(** net.ListenTCP gives a socket or an error. *)
Definition listen (r : option lerr) (l : listener) : option lerr * listener :=
  match r with
  | Some e => (Some e, l)
  | None => (None, set_rawl (Some (mkSocket false false)) l)
  end.
(** The outer [None]: the panic of a nil callback. *)
Definition accept (a : answer) (l : listener) : option (option lerr * listener) :=
  match Accept (rawl l) a with
  | inr e => Some (Some e, l)
  | inl c => if cb l then Some (None, set_accepted (accepted l ++ [c]) l) else None
  end.
Definition Stop (l : listener) : option lerr * listener :=
  let '(e, s) := SetDeadline (rawl l) in (e, set_rawl s l).
Definition Close (l : listener) : option (option lerr * listener) :=
  if cb l then let '(e, s) := close_socket (rawl l) in Some (e, set_rawl s l) else None.
(** A copy of the file of the socket, or an error. *)
Definition ListenerFile (l : listener) : unit + lerr :=
  match rawl l with
  | None => inr EINVAL
  | Some s => if closed s then inr (OpError (bs "file") false false) else inl tt
  end.

(** Why a loop ends: what Start prints. *)
Inductive why := ByDeadline | ListenerClosed | NonRecoverable | ListenFailed.
(** The tests of Start on an error of accept; [None]: the loop goes on. *)
Definition on_error (e : lerr) : option why :=
  match e with
  | OpError op timeout temporary =>
      if timeout then Some ByDeadline
      else if negb (timeout && temporary)
      then Some (if op =b opAccept then ListenerClosed else NonRecoverable)
      else None
  | NetError timeout => if timeout then Some ByDeadline else None
  | PlainError => None
  end.

(** ** Starts, turns and stops in any order

    A loop is running, or has ended for a reason. *)
Record world := mkWorld { lst : listener; loops : list (option why) }.
Inductive act := AStart (bind : option lerr) | ATurn (i : nat) (a : answer) | AStop | AClose.

(** Start, up to its loop; log.Fatalln is the end [ListenFailed]. *)
Definition start (bind : option lerr) (w : world) : world :=
  if bindToPort (lst w) then
    match rawl (lst w) with
    | Some _ => mkWorld (lst w) (loops w ++ [None])
    | None =>
        match listen bind (lst w) with
        | (Some _, l) => mkWorld l (loops w ++ [Some ListenFailed])
        | (None, l) => mkWorld l (loops w ++ [None])
        end
    end
  else mkWorld (lst w) (loops w ++ [None]).
(** One turn of loop [i]. *)
Definition turn (i : nat) (a : answer) (w : world) : option world :=
  match loops w !! i with
  | Some None =>
      '(e, l) ← accept a (lst w);
      Some (mkWorld l (match e ≫= on_error with Some y => <[i := Some y]> (loops w) | None => loops w end))
  | _ => None
  end.
Definition step (w : world) (x : act) : option world :=
  match x with
  | AStart bind => Some (start bind w)
  | ATurn i a => turn i a w
  | AStop => Some (mkWorld (Stop (lst w)).2 (loops w))
  | AClose => '(_, l) ← Close (lst w); Some (mkWorld l (loops w))
  end.
Inductive run : world → list act → world → Prop :=
| run_done w : run w [] w
| run_step w x w1 xs w' : step w x = Some w1 → run w1 xs w' → run w (x :: xs) w'.

(** ** The edge listener *)

Record edgeListener := mkEdge {
  ename : bytes; elocalAddress : bytes; ebindToPort : bool; elistenerTag : Z; ecb : bool; econfig : nat
}.
Module Edge.
(** Its server function returns at once; the methods that are not written panic
    ([None]). *)
Definition serve (el : edgeListener) : option lerr := None.
(** Why Start ends the process, if it does; it returns and leaves no loop behind. *)
Definition Start (el : edgeListener) : option why :=
  if negb (ebindToPort el) then None
  else match serve el with Some _ => Some ListenFailed | None => None end.
Definition Stop (el : edgeListener) : option (option lerr * edgeListener) := None.
Definition Close (el : edgeListener) : option (option lerr * edgeListener) := None.
Definition ListenerFile (el : edgeListener) : option (unit + lerr) := None.
Definition Store (k : bytes) (v : Z) (el : edgeListener) : option edgeListener := None.
Definition Delete (k : bytes) (el : edgeListener) : option edgeListener := None.
Definition Load (k : bytes) (el : edgeListener) : option (option Z) := None.
Definition LoadOrStore (k : bytes) (v : Z) (el : edgeListener) : option (Z * bool * edgeListener) := None.
Definition SetConfig (c : nat) (el : edgeListener) : edgeListener :=
  mkEdge (ename el) (elocalAddress el) (ebindToPort el) (elistenerTag el) (ecb el) c.
Definition SetListenerTag (t : Z) (el : edgeListener) : edgeListener :=
  mkEdge (ename el) (elocalAddress el) (ebindToPort el) t (ecb el) (econfig el).
Definition set_cb (b : bool) (el : edgeListener) : edgeListener :=
  mkEdge (ename el) (elocalAddress el) (ebindToPort el) (elistenerTag el) b (econfig el).
End Edge.

(** ** The two kinds by their interface *)

Inductive netListener := TcpListener (l : listener) | EdgeListener (el : edgeListener).
(** [edge] is UseEdgeMode, [inherit] is lc.InheritListener. *)
Definition NewListener (edge : bool) (nm addr : bytes) (bind : bool) (tag : Z) (config : nat)
    (inherit : option socket) : netListener :=
  if edge then EdgeListener (mkEdge nm addr bind tag false config)
  else TcpListener (mkListener_ nm addr bind tag false inherit config ∅ []).
Definition SetListenerCallbacks (b : bool) (n : netListener) : netListener :=
  match n with
  | TcpListener l => TcpListener (set_cb b l)
  | EdgeListener el => EdgeListener (Edge.set_cb b el)
  end.

(** ** The listeners of the handler *)

(** A listener with what was started on it: the loops of one on a socket; on an edge
    listener a start leaves nothing. *)
Inductive served := OnSocket (w : world) | OnEdge (el : edgeListener).
Definition idle (n : netListener) : served :=
  match n with TcpListener l => OnSocket (mkWorld l []) | EdgeListener el => OnEdge el end.
Definition sname (s : served) : bytes := match s with OnSocket w => name (lst w) | OnEdge el => ename el end.
Definition on_edge (s : served) : bool := match s with OnSocket _ => false | OnEdge _ => true end.
Definition has_cb (s : served) : Prop := match s with OnSocket w => cb (lst w) = true | OnEdge el => ecb el = true end.
(** [None]: log.Fatalln, with the reason of the edge listener. *)
Definition start_served (bind : option lerr) (s : served) : option served :=
  match s with
  | OnSocket w => Some (OnSocket (start bind w))
  | OnEdge el => match Edge.Start el with None => Some s | Some _ => None end
  end.
Definition StartListeners (binds : list (option lerr)) (ws : list served) : option (list served) :=
  mapM (λ '(bind, s), start_served bind s) (zip binds ws).
(** One Close or Stop; [None] is a panic. *)
Definition stop_served (close : bool) (s : served) : option (option lerr * served) :=
  match s with
  | OnSocket w =>
      '(e, l) ← (if close then Close (lst w) else Some (Stop (lst w)));
      Some (e, OnSocket (mkWorld l (loops w)))
  | OnEdge el => '(e, el) ← (if close then Edge.Close el else Edge.Stop el); Some (e, OnEdge el)
  end.
(** The last error; the outer [None] is a panic. *)
Fixpoint StopListeners (close : bool) (ws : list served) (errGlobal : option lerr) : option (option lerr * list served) :=
  match ws with
  | [] => Some (errGlobal, [])
  | w :: ws =>
      '(e, w) ← stop_served close w;
      '(err, ws) ← StopListeners close ws (match e with Some _ => e | None => errGlobal end);
      Some (err, w :: ws)
  end.
(** The outer [None] is a panic, the inner one: a file could not be had. *)
Fixpoint ListListenersFile (ws : list served) : option (option (list unit)) :=
  match ws with
  | [] => Some (Some [])
  | w :: ws =>
      r ← match w with OnSocket w => Some (ListenerFile (lst w)) | OnEdge el => Edge.ListenerFile el end;
      match r with
      | inr _ => Some None
      | inl f => fs ← ListListenersFile ws; Some (option_map (cons f) fs)
      end
  end.
(** Anything done with a listener but closing it through the handler: on an edge listener
    only starts return. *)
Inductive served_run : served → list act → served → Prop :=
| run_socket w xs w' : run w xs w' → served_run (OnSocket w) xs (OnSocket w')
| run_edge el xs : Forall (λ x, ∃ bind, x = AStart bind ∧ start_served bind (OnEdge el) = Some (OnEdge el)) xs →
    served_run (OnEdge el) xs (OnEdge el).

(** ** Theorems *)

(** The connections that the turns of a run give. *)
Fixpoint given (w : world) (xs : list act) : list nat :=
  match xs with
  | [] => []
  | x :: xs =>
      match step w x with
      | None => []
      | Some w1 =>
          match x with
          | ATurn _ a => match Accept (rawl (lst w)) a with inl c => [c] | inr _ => [] end
          | _ => []
          end ++ given w1 xs
      end
  end.
Lemma step_accepted w x w1 : step w x = Some w1 → accepted (lst w1) = accepted (lst w) ++
  match x with ATurn _ a => match Accept (rawl (lst w)) a with inl c => [c] | inr _ => [] end | _ => [] end.
Proof.
  destruct x as [bind|i a| |]; cbn.
  - intros [= <-]. rewrite app_nil_r. unfold start, listen. repeat case_match; by simplify_eq.
  - unfold turn, accept. destruct (loops w !! i) as [[]|]; [done| |done].
    destruct (Accept (rawl (lst w)) a) as [c|e]; cbn.
    + destruct (cb (lst w)); cbn; by intros [= <-].
    + intros [= <-]. by rewrite app_nil_r.
  - intros [= <-]. rewrite app_nil_r. unfold Stop. by destruct (SetDeadline (rawl (lst w))).
  - unfold Close. destruct (cb (lst w)); [|done]. destruct (close_socket (rawl (lst w))). cbn. intros [= <-].
    by rewrite app_nil_r.
Qed.

(** A socket that is past its deadline or closed. *)
Definition shut (w : world) : Prop := ∃ s, rawl (lst w) = Some s ∧ (deadline s = true ∨ closed s = true).
Lemma shut_accept w a : shut w → ∃ e, Accept (rawl (lst w)) a = inr e ∧ on_error e ≠ None.
Proof.
  intros (s & -> & Hs). unfold Accept. destruct (closed s); [by eexists|]. destruct (deadline s); [by eexists|].
  destruct Hs; congruence.
Qed.
Lemma shut_step w x w1 : shut w → step w x = Some w1 → shut w1 ∧ accepted (lst w1) = accepted (lst w).
Proof.
  intros Hs Hw. pose proof (step_accepted w x w1 Hw) as Ha. pose proof Hs as (s & Er & Hd). split.
  - destruct x as [bind|i a| |]; cbn in Hw.
    + injection Hw as <-. unfold start. rewrite Er. destruct (bindToPort (lst w)); by exists s.
    + unfold turn, accept in Hw. destruct (loops w !! i) as [[]|]; [done| |done].
      destruct (shut_accept w a Hs) as (e & Ea & _). rewrite Ea in Hw. injection Hw as <-. by exists s.
    + injection Hw as <-. unfold Stop, SetDeadline. rewrite Er. destruct (closed s) eqn:Ec; cbn.
      * exists s. split; [done|by right].
      * eexists. split; [done|by left].
    + unfold Close, close_socket in Hw. destruct (cb (lst w)); [|done]. rewrite Er in Hw.
      destruct (closed s) eqn:Ec; cbn in Hw; injection Hw as <-.
      * exists s. split; [done|by right].
      * eexists. split; [done|by right].
  - rewrite Ha. destruct x; try by rewrite app_nil_r. destruct (shut_accept w a Hs) as (e & -> & _). by rewrite app_nil_r.
Qed.

(** Stop and Close shut a listener that has a socket. *)
Lemma stop_shuts w x w1 : x = AStop ∨ x = AClose → is_Some (rawl (lst w)) → step w x = Some w1 → shut w1.
Proof.
  intros Hx [s Es]. destruct Hx as [-> | ->]; cbn; unfold Stop, Close, SetDeadline, close_socket; rewrite Es.
  - intros [= <-]. destruct (closed s) eqn:Ec; [exists s; auto|]. eexists. split; [done|by left].
  - destruct (cb (lst w)); [|done]. destruct (closed s) eqn:Ec; intros [= <-]; [exists s; auto|].
    eexists. split; [done|by right].
Qed.
(** Without one they fail and leave it as it was. *)
Lemma stop_unbound w x w1 : x = AStop ∨ x = AClose → rawl (lst w) = None → step w x = Some w1 → w1 = w.
Proof.
  intros Hx Es. assert (Hl : set_rawl None (lst w) = lst w) by (destruct w as [[]]; cbn in *; by subst).
  destruct Hx as [-> | ->]; cbn; unfold Stop, Close, SetDeadline, close_socket; rewrite Es; [|destruct (cb (lst w)); [|done]];
    cbn; rewrite Hl; intros [= <-]; by destruct w.
Qed.
Lemma run_accepted w xs w' : run w xs w' → accepted (lst w') = accepted (lst w) ++ given w xs.
Proof.
  intros Hr. induction Hr as [w|w x w1 xs w' Hs Hr IH]; cbn; [by rewrite app_nil_r|].
  rewrite Hs, IH, (step_accepted _ _ _ Hs). by rewrite <- app_assoc.
Qed.
Lemma run_shut w xs w' : run w xs w' → shut w → shut w' ∧ accepted (lst w') = accepted (lst w).
Proof.
  intros Hr. induction Hr as [w|w x w1 xs w' Hs Hr IH]; intros Hsh; [done|].
  destruct (shut_step w x w1 Hsh Hs) as [Hsh1 Ha]. destruct (IH Hsh1). split; [done|congruence].
Qed.
Lemma shut_ends w i a : shut w → loops w !! i = Some None →
  ∃ w' y, turn i a w = Some w' ∧ loops w' !! i = Some (Some y).
Proof.
  intros Hsh Hi. unfold turn, accept. rewrite Hi. destruct (shut_accept w a Hsh) as (e & -> & He). cbn.
  destruct (on_error e) as [y|]; [|done].
  eexists _, y. split; [done|]. apply list_lookup_insert_eq. by eapply lookup_lt_Some.
Qed.

(** C12: what is handed to the handler is what Accept gave, in that order, each once.  A
    Stop or a Close ([x]) of a listener that has its socket ends it: no connection is
    accepted any more, whatever is done with the listener afterwards ([ys]), a new start
    included, and each loop that is running ends at its next turn.  A Stop or a Close
    before there is a socket fails with EINVAL and leaves the listener as it was, so that
    a start after it accepts. *)
Theorem accept_until_stopped (w w1 w' : world) (xs : list act) (x : act) (ys : list act) :
  run w xs w1 → x = AStop ∨ x = AClose → run w1 (x :: ys) w' →
  accepted (lst w1) = accepted (lst w) ++ given w xs ∧
  match rawl (lst w1) with
  | Some _ =>
      accepted (lst w') = accepted (lst w1) ∧
      ∀ i a, loops w' !! i = Some None → ∃ w'' y, turn i a w' = Some w'' ∧ loops w'' !! i = Some (Some y)
  | None =>
      (x = AStop → Stop (lst w1) = (Some EINVAL, lst w1)) ∧
      (x = AClose → Close (lst w1) = Some (Some EINVAL, lst w1)) ∧
      run w1 ys w' ∧ accepted (lst w') = accepted (lst w1) ++ given w1 ys
  end.
Proof.
  intros Hr Hx Hr'. split; [by apply run_accepted|]. inversion Hr' as [|? ? w2 ? ? Hs Hr2]; subst.
  destruct (rawl (lst w1)) eqn:Es.
  - pose proof (stop_shuts w1 x w2 Hx ltac:(by eexists) Hs) as Hsh. destruct (run_shut _ _ _ Hr2 Hsh) as [Hsh' Ha].
    split; [|intros; by apply shut_ends]. rewrite Ha, (step_accepted _ _ _ Hs). destruct Hx as [-> | ->]; by rewrite app_nil_r.
  - pose proof (stop_unbound w1 x w2 Hx Es Hs) as ->.
    assert (Hl : set_rawl None (lst w1) = lst w1) by (destruct w1 as [[]]; cbn in *; by subst).
    split_and!; [intros ->|intros ->|done|by apply run_accepted].
    + unfold Stop. by rewrite Es; cbn; rewrite Hl.
    + cbn in Hs. unfold Close in *. rewrite Es in *. destruct (cb (lst w1)); [|done]. cbn. by rewrite Hl.
Qed.

(** Every error of a socket operation ends a loop, the ones that would pass included,
    such as too many open files: the test for a temporary error decides nothing. *)
Theorem passing_errors_end (op : bytes) (timeout temporary : bool) (i : nat) (w : world) s :
  rawl (lst w) = Some s → closed s = false → deadline s = false → loops w !! i = Some None →
  ∃ w' y, turn i (Fails (OpError op timeout temporary)) w = Some w' ∧ loops w' !! i = Some (Some y) ∧ lst w' = lst w.
Proof.
  intros Es Ec Ed Hi. unfold turn, accept, Accept. rewrite Hi, Es, Ec, Ed. cbn.
  destruct timeout; cbn; [|destruct (op =b opAccept)]; (eexists _, _; split; [done|]; split; [|done]);
    apply list_lookup_insert_eq; by eapply lookup_lt_Some.
Qed.

(** A listener that is not bound to a port and has inherited none turns for ever: each
    turn fails with EINVAL, which is not one of the errors that end a loop. *)
Theorem unbound_spins (w w' : world) (xs : list act) : run w xs w' → rawl (lst w) = None → bindToPort (lst w) = false →
  accepted (lst w') = accepted (lst w) ∧ (∀ i, loops w !! i = Some None → loops w' !! i = Some None) ∧
  ∀ i a, loops w' !! i = Some None → turn i a w' = Some w'.
Proof.
  intros Hr. induction Hr as [w|w x w1 xs w' Hs Hr IH]; intros Er Eb.
  - split_and!; [done|done|]. intros i a Hi. unfold turn, accept, Accept. rewrite Hi, Er. cbn. by destruct w.
  - assert (H1 : rawl (lst w1) = None ∧ bindToPort (lst w1) = false ∧ accepted (lst w1) = accepted (lst w) ∧
      ∀ i, loops w !! i = Some None → loops w1 !! i = Some None).
    { destruct x as [bind|i a| |]; cbn in Hs.
      - injection Hs as <-. unfold start. rewrite Eb. split_and!; try done. intros j Hj. by apply lookup_app_l_Some.
      - unfold turn, accept, Accept in Hs. rewrite Er in Hs. destruct (loops w !! i) as [[]|]; [done| |done].
        injection Hs as <-. by split_and!.
      - injection Hs as <-. unfold Stop, SetDeadline. rewrite Er. by split_and!.
      - unfold Close, close_socket in Hs. rewrite Er in Hs. destruct (cb (lst w)); [|done]. injection Hs as <-. by split_and!. }
    destruct H1 as (E1 & E2 & E3 & E4). destruct (IH E1 E2) as (H1 & H2 & H3). split_and!; [congruence|auto|done].
Qed.

Lemma socket_shut f s : f = SetDeadline ∨ f = close_socket →
  let '(e, s') := f s in
  (∀ x, s' = Some x → deadline x = true ∨ closed x = true) ∧ (e = None ↔ ∃ x, s = Some x ∧ closed x = false).
Proof.
  intros [-> | ->]; (destruct s as [s|]; cbn; [destruct (closed s) eqn:Ec; cbn|]); split.
  all: first [by intros x [= <-]; auto | done | split; [by eauto|by auto] | split; [done|intros (x & [= <-] & Hx); congruence]
             | split; [done|by intros (x & ? & _)]].
Qed.

(** A socket that the handler may close without a panic, and what closing leaves. *)
Definition closable (s : served) : Prop := on_edge s = false ∧ has_cb s.
Definition is_open (s : served) : Prop :=
  match s with OnSocket w => ∃ k, rawl (lst w) = Some k ∧ closed k = false | OnEdge _ => False end.
Definition is_shut (s : served) : Prop :=
  match s with OnSocket w => is_Some (rawl (lst w)) → shut w | OnEdge _ => False end.

Lemma stop_served_ok close s : closable s →
  ∃ e s', stop_served close s = Some (e, s') ∧ closable s' ∧ is_shut s' ∧ (e = None ↔ is_open s).
Proof.
  destruct s as [w|el]; intros [He Hcb]; [|done]. cbn in Hcb. cbn. unfold Close, Stop. rewrite Hcb.
  pose proof (socket_shut (if close then close_socket else SetDeadline) (rawl (lst w))) as Hs.
  destruct close; [destruct (close_socket _) as [e s]|destruct (SetDeadline _) as [e s]];
    (destruct Hs as [Hs1 Hs2]; [auto|]; eexists _, _; split; [done|]; split; [done|]; split; [|exact Hs2]);
    intros [x Hx]; exists x; auto.
Qed.

Lemma StopListeners_ok (close : bool) (ws : list served) (e0 : option lerr) : Forall closable ws →
  ∃ err ws', StopListeners close ws e0 = Some (err, ws') ∧ length ws' = length ws ∧ Forall closable ws' ∧
    Forall is_shut ws' ∧ (err = None ↔ e0 = None ∧ Forall is_open ws).
Proof.
  revert e0. induction ws as [|w ws IH]; intros e0 Hc; cbn.
  { exists e0, []. split_and!; [done|done|constructor|constructor|]. split; [by intros ->|]. by intros [-> _]. }
  apply list.Forall_cons in Hc as [Hcb Hc].
  destruct (stop_served_ok close w Hcb) as (e & w' & -> & Hc' & Hsh & He). cbn.
  destruct (IH (match e with Some _ => e | None => e0 end) Hc) as (err & ws' & -> & Hlen & Hcs & Hw & Herr). cbn.
  eexists _, _. split; [done|]. split; [cbn; by rewrite Hlen|]. split; [by constructor|]. split; [by constructor|].
  rewrite Herr, list.Forall_cons. destruct e; naive_solver.
Qed.
(** An edge listener makes it panic. *)
Lemma StopListeners_edge (close : bool) (ws : list served) (e0 : option lerr) :
  Exists (λ s, on_edge s = true) ws → StopListeners close ws e0 = None.
Proof.
  intros He. revert e0. induction He as [s ws He|s ws _ IH]; intros e0; cbn.
  - destruct s; [done|]. by destruct close.
  - destruct (stop_served close s) as [[e s']|]; [|done]. cbn. by rewrite IH.
Qed.

(** StopListeners stops or closes each of the listeners that have a socket and their
    callbacks, and reports the last error; an edge listener makes it panic. *)
Theorem all_stopped (close : bool) (ws : list served) (e0 : option lerr) :
  (Forall closable ws →
   ∃ err ws', StopListeners close ws e0 = Some (err, ws') ∧ length ws' = length ws ∧
     Forall is_shut ws' ∧ (err = None ↔ e0 = None ∧ Forall is_open ws)) ∧
  (Exists (λ s, on_edge s = true) ws → StopListeners close ws e0 = None).
Proof.
  split; [|apply StopListeners_edge].
  intros Hc. destruct (StopListeners_ok close ws e0 Hc) as (err & ws' & E & Hl & _ & Hs & He). by exists err, ws'.
Qed.

Module listener_example.
(** A listener with its socket, and one loop running. *)
Definition l0 : listener := set_cb true (mkListener_ (bs "l") (bs ":80") true 0 false None 0 ∅ []).
Lemma l0_new : SetListenerCallbacks true (NewListener false (bs "l") (bs ":80") true 0 0 None) = TcpListener l0.
Proof. reflexivity. Qed.
Definition w0 : world := start None (mkWorld l0 []).
Definition w1 : world := mkWorld (set_accepted [7%nat] (set_rawl (Some (mkSocket false false)) l0)) [None].
Definition w2 : world := mkWorld (set_accepted [7%nat] (set_rawl (Some (mkSocket true false)) l0)) [None; None].
Lemma run0 : run w0 [ATurn 0 (Arrives 7)] w1.
Proof. repeat (eapply run_step; [reflexivity|]). apply run_done. Qed.
Lemma run1 : run w1 [AStop; AStart None] w2.
Proof. repeat (eapply run_step; [reflexivity|]). apply run_done. Qed.
(** A Stop that comes before the start. *)
Definition early : world := mkWorld (set_accepted [5%nat] (set_rawl (Some (mkSocket false false)) l0)) [None].
Lemma run_early : run (mkWorld l0 []) [AStop; AStart None; ATurn 0 (Arrives 5)] early.
Proof. repeat (eapply run_step; [reflexivity|]). apply run_done. Qed.

Lemma accept_until_stopped_witness :
  accepted (lst w1) = given w0 [ATurn 0 (Arrives 7)] ∧ accepted (lst w2) = [7%nat] ∧
  (∃ w3 y, turn 1 (Arrives 8) w2 = Some w3 ∧ loops w3 !! 1%nat = Some (Some y)) ∧
  Stop l0 = (Some EINVAL, l0) ∧ accepted (lst early) = [5%nat].
Proof.
  destruct (accept_until_stopped w0 w1 w2 _ AStop [AStart None] run0 (or_introl eq_refl) run1) as (H1 & H2 & H3).
  destruct (accept_until_stopped (mkWorld l0 []) (mkWorld l0 []) early [] AStop [AStart None; ATurn 0 (Arrives 5)]
    (run_done _) (or_introl eq_refl) run_early) as (_ & H4 & _ & _ & H5).
  split; [exact H1|]. split; [exact H2|]. split; [exact (H3 1%nat (Arrives 8) eq_refl)|].
  split; [exact (H4 eq_refl)|exact H5].
Defined.
(** Too many open files. *)
Lemma passing_errors_end_witness : ∃ w' y,
  turn 0 (Fails (OpError opAccept false true)) w0 = Some w' ∧ loops w' !! 0%nat = Some (Some y) ∧ lst w' = lst w0.
Proof. exact (passing_errors_end opAccept false true 0 w0 (mkSocket false false) eq_refl eq_refl eq_refl eq_refl). Defined.
Definition unbound : world := start None (mkWorld (set_cb true (mkListener_ (bs "l") (bs ":80") false 0 false None 0 ∅ [])) []).
Lemma unbound_spins_witness : turn 0 (Arrives 7) unbound = Some unbound.
Proof.
  destruct (unbound_spins unbound unbound [] (run_done unbound) eq_refl eq_refl) as (_ & _ & H).
  exact (H 0%nat (Arrives 7) eq_refl).
Defined.
Lemma all_stopped_witness :
  (∃ err ws', StopListeners true [OnSocket w0; OnSocket unbound] None = Some (err, ws') ∧ length ws' = 2%nat) ∧
  StopListeners true [OnSocket w0; OnEdge (mkEdge (bs "e") (bs ":81") true 0 true 0)] None = None.
Proof.
  split.
  - destruct (all_stopped true [OnSocket w0; OnSocket unbound] None) as [H _].
    destruct H as (err & ws' & H & Hl & _); [repeat constructor|]. exists err, ws'. split; [exact H|exact Hl].
  - destruct (all_stopped true [OnSocket w0; OnEdge (mkEdge (bs "e") (bs ":81") true 0 true 0)] None) as [_ H].
    apply H. right. left. reflexivity.
Defined.
End listener_example.
