(* ===== verification/Server.v ===== *)
(** * The server process

    src/pkg/server/server.go and srvkeeper.go, src/pkg/bootstrap/bootstrap.go and
    src/pkg/admin/state.go: how a configuration becomes a cluster manager and a server
    with its listeners, how the server is started and closed, and what a signal does.

    It puts together the configuration (Config.v), the cluster manager (Cluster.v), the
    listeners by name (Handler.v), their sockets (Listener.v) and the pool of workers
    (WorkerPool.v).  log.Fatalln, which ends the process, is the error [BFatal]; a panic
    is [BPanic].  The address of a listener as text, and what of its configuration only
    reflect.DeepEqual looks at, are arguments.

    The theorems: what NewStrike makes of a configuration, and which configurations it
    refuses; a server is closed once, and a second time panics, as the first time does in
    edge mode; Strike.Stop always
    panics; the shutdown callbacks run once, and the exit code says failure whenever
    there is one, though it succeeds. *)
From stdpp Require Import gmap.
From S2P Require Import Prelude Headers Cluster WorkerPool Handler Config Listener.
#[local] Open Scope Z_scope.

(** ** State: src/pkg/admin *)

Inductive State := Init | Running_ | Reconfiguring.
Definition GetStrikeState (s : State) : State := s.
Definition SetStrikeState (s : State) (_ : State) : State := s.

(** ** Servers *)

Record SrvConfig := mkSrvConfig {
  sServerName : bytes; sLogPath : bytes; sLogLevel : Z; sGracefulTimeout : Z; sProcessor : Z; sUseEdgeMode : bool
}.
Definition NewConfig (c : ServerConfig) : SrvConfig :=
  mkSrvConfig (ServerName c) (DefaultLogPath c) (ParseLogLevel (DefaultLogLevel c)) (GracefulTimeout c)
    (Processor c) (UseEdgeMode c).

Section server.
(** The factories of network and stream filters, and the tasks of the worker pool. *)
Context {N T W : Type} `{EqDecision N, EqDecision T}.

(** A server: its listeners as the handler knows them, and with their sockets. *)
Record server := mkServer {
  serverName : bytes; stopChan : bool; active : list (activeListener N T); socks : list served;
  workers_ : workerPool W
}.
(** The variables of the packages. *)
Record globals := mkGlobals { servers : list server; gracefulTimeout : Z; useEdgeMode : bool; gomaxprocs : Z }.

Definition GetServer (g : globals) : option server := head (servers g).
(** [None]: the nil dereference of config.Processor. *)
Definition NewServer (config : option SrvConfig) (g : globals) : option (server * globals) :=
  let '(gt, edge) := match config with
    | Some c => (if negb (sGracefulTimeout c =? 0) then sGracefulTimeout c else gracefulTimeout g, sUseEdgeMode c)
    | None => (gracefulTimeout g, useEdgeMode g)
    end in
  c ← config;
  let srv := mkServer (sServerName c) false [] [] (NewWorkerPool 0 0) in
  Some (srv, mkGlobals (servers g ++ [srv]) gt edge (sProcessor c)).

(** A server in the list is a pointer: NewStrike puts the one it has filled in its place.

    AddListener; a listener that is new gets its callbacks and no socket yet.  [edge] is
    network.UseEdgeMode, which NewListener reads. *)
Definition AddListener (edge : bool) (tls_ok : ListenerConfig → bool) (uuid : bytes) (bind : bool) (lc : ListenerConfig)
    (nfs : list N) (sfs : list T) (srv : server) : addResult * server :=
  let '(r, ls) := AddOrUpdateListener tls_ok uuid lc nfs sfs (active srv) in
  let nm := if LName lc =b [] then uuid else LName lc in
  (r, mkServer (serverName srv) (stopChan srv) ls
        (match r with
         | Added => socks srv ++
             [idle (SetListenerCallbacks true (NewListener edge nm (LAddr lc) bind (ListenerTag lc) 0 None))]
         | _ => socks srv
         end) (workers_ srv)).
(** [None]: log.Fatalln of a listener. *)
Definition srv_Start (binds : list (option lerr)) (srv : server) : option server :=
  ss ← StartListeners binds (socks srv);
  Some (mkServer (serverName srv) (stopChan srv) (active srv) ss (workers_ srv)).
(** [None] is a panic. *)
Definition srv_Close (srv : server) : option server :=
  '(_, ss) ← Listener.StopListeners true (socks srv) None;
  let p := Release (workers_ srv) in
  if stopChan srv then None
  else Some (mkServer (serverName srv) true (active srv) ss p).
Fixpoint each_server (f : server → option server) (l : list server) : option (list server) :=
  match l with
  | [] => Some []
  | s :: l => s ← f s; l ← each_server f l; Some (s :: l)
  end.
Definition with_servers (l : list server) (g : globals) : globals :=
  mkGlobals l (gracefulTimeout g) (useEdgeMode g) (gomaxprocs g).
Definition StopAccept (g : globals) : option globals :=
  l ← each_server (λ srv,
    '(_, ss) ← Listener.StopListeners false (socks srv) None;
    Some (mkServer (serverName srv) (stopChan srv) (active srv) ss (workers_ srv))) (servers g);
  Some (with_servers l g).
Definition srv_StopConnections (g : globals) : option globals :=
  l ← each_server (λ srv,
    ls ← Handler.StopConnections (active srv);
    Some (mkServer (serverName srv) (stopChan srv) ls (socks srv) (workers_ srv))) (servers g);
  Some (with_servers l g).
Definition srv_ListListenersFile (g : globals) : option (list unit) :=
  ls ← mapM (λ srv, default [] <$> Listener.ListListenersFile (socks srv)) (servers g); Some (concat ls).
(** How long WaitConnectionsDone waits, whatever the connections do; in nanoseconds. *)
Definition DefaultConnReadTimeout : Z := 5 * 1000000000.
Definition WaitConnectionsDone (duration : Z) (g : globals) : option (Z * globals) :=
  g ← srv_StopConnections g; Some (int64 (2 * duration + DefaultConnReadTimeout), g).

(** ** Shutdown: srvkeeper.go *)

(** The callbacks by what they return: no error or one.  [once]: they have run. *)
Record keeper := mkKeeper { kOnce : bool; shutdownCallbacks : list (option bytes); onProcessExit : list nat }.
Definition executeShutdownCallbacks (k : keeper) : Z * list (option bytes) * keeper :=
  if kOnce k then (0, [], k)
  else
    let errs := shutdownCallbacks k in
    (if 0 <? zlen errs then 4 else 0, errs, mkKeeper true (shutdownCallbacks k) (onProcessExit k)).

Inductive signal := SIGQUIT | SIGTERM | SIGUSR1 | SIGHUP | SIGUSR2.
Inductive eff := Cleanup (f : nat) | Callback (r : option bytes) | StopServers | ForkExec | Exit (code : Z).
(** What a signal makes catchSignalsCrossPlatform do; Exit ends it. *)
Definition on_signal (sig : signal) (k : keeper) : list eff * keeper :=
  match sig with
  | SIGQUIT => ((Cleanup <$> onProcessExit k) ++ [Exit 0], k)
  | SIGTERM =>
      let '(code, rs, k) := executeShutdownCallbacks k in
      ((Callback <$> rs) ++ (Cleanup <$> onProcessExit k) ++ [StopServers; Exit code], k)
  | SIGHUP => ([ForkExec], k)
  | SIGUSR1 | SIGUSR2 => ([], k)
  end.
(** The [i]-th interrupt in catchSignalsPosix, with the goroutine it starts. *)
Definition on_interrupt (i : nat) (k : keeper) : list eff * keeper :=
  if (0 <? i)%nat then ((Cleanup <$> onProcessExit k) ++ [Exit 2], k)
  else
    let '(code, rs, k') := executeShutdownCallbacks k in
    ((Cleanup <$> onProcessExit k) ++ (Callback <$> rs) ++ [Exit code], k').
(** reconfigure: a start forks; else sendInheritListeners panics, after which the deferred
    call has set the state back. *)
Definition reconfigure (start : bool) (s : State) : option (list eff) * State :=
  if start then (Some [ForkExec], s) else (None, Running_).

(** ** The whole: bootstrap.go *)

Inductive bootErr := BFatal (msg : bytes) | BPanic.
Record StrikeConfig (Addr : Type) := mkStrikeConfig {
  Servers : list (ServerConfig * list (Config.Listener Addr)); Clusters : list ClusterConfig
}.
Arguments Servers {Addr}.
Arguments Clusters {Addr}.
Record Strike := mkStrike { strike_server : server; cm : clusterManager; strike_globals : globals; calls : list call }.

Section bootstrap.
Context {Addr : Type} (ResolveTCPAddr : bytes → option Addr) (addrText addrNetwork : Addr → bytes)
  (rest : Config.Listener Addr → bytes) (tls_ok : ListenerConfig → bool) (uuid : nat → bytes)
  (env : bytes) (cpus : Z) (cbs : cbMap)
  (netFilters : gmap bytes (Config.config → res bytes N)) (streamFilters : gmap bytes (Config.config → res bytes T))
  (order : list (bytes * list HostConfig) → list (bytes * list HostConfig)).

(** The loop over the listeners; [i] numbers them. *)
Fixpoint add_listeners (edge : bool) (i : nat) (lcs : list (Config.Listener Addr)) (srv : server) : res bootErr server :=
  match lcs with
  | [] => Ok srv
  | lc :: lcs =>
      match ParseListenerConfig ResolveTCPAddr lc with
      | Err (Fatal msg) => Err (BFatal msg)
      | Ok lc =>
          match LChains lc, LAddr_ lc with
          | chain :: _, Some a =>
              let hc := MkListener (LName_ lc) (addrNetwork a) (addrText a) 0 (GetListenerDisableIO chain) (rest lc) in
              let nfs := GetFilters (bs "network") netFilters chain in
              let sfs := GetFilters (bs "stream") streamFilters (LStreams lc) in
              match AddListener edge tls_ok (uuid i) (BindToPort lc) hc nfs sfs srv with
              | (AddressMismatch, _) | (TlsError, _) => Err (BFatal (bs "AddListener error:"))
              | (_, srv) => add_listeners edge (S i) lcs srv
              end
          | _, _ => Err BPanic
          end
      end
  end.
Definition NewStrike (g : globals) (sc : StrikeConfig Addr) : res bootErr Strike :=
  match Servers sc with
  | [] => Err (BFatal (bs "no server found"))
  | [(scfg, lcs)] =>
      let '(clusters, clusterMap, calls1) := ParseClusterConfig cbs (Clusters sc) in
      match NewClusterManager None clusters (order (map_to_list clusterMap)) with
      | Err _ => Err BPanic
      | Ok cm =>
          let '(scfg, calls2) := ParseServerConfig env cpus cbs scfg in
          match NewServer (Some (NewConfig scfg)) g with
          | None => Err BPanic
          | Some (srv, g) =>
              match lcs with
              | [] => Err (BFatal (bs "no listener found"))
              | _ =>
                  match add_listeners (useEdgeMode g) 0 lcs srv with
                  | Err e => Err e
                  | Ok srv => Ok (mkStrike srv cm (with_servers (<[length (servers g) - 1 := srv]> (servers g))%nat g) (calls1 ++ calls2))
                  end
              end
          end
      end
  | _ => Err (BFatal (bs "multiple server not supported yet, got "))
  end.
(** clusterManager.Destroy is not written: it panics. *)
Definition Destroy (cm : clusterManager) : option clusterManager := None.
Definition strike_Stop (sk : Strike) : option Strike :=
  srv ← srv_Close (strike_server sk);
  cm ← Destroy (cm sk);
  Some (mkStrike srv cm (strike_globals sk) (calls sk)).
End bootstrap.
End server.

Arguments Servers {Addr}.
Arguments Clusters {Addr}.
Arguments mkStrikeConfig {Addr}.
Arguments server N T W : clear implicits.
Arguments globals N T W : clear implicits.
Arguments Strike N T W : clear implicits.

(** ** What the bootstrap makes *)

Section theorems.
Context {N T W : Type} `{EqDecision N, EqDecision T}.

(** A listener that has its callbacks and no socket. *)
Definition fresh (s : served) : Prop :=
  has_cb s ∧ match s with OnSocket w => rawl (lst w) = None ∧ loops w = [] | OnEdge _ => True end.
Record server_ok (srv : server N T W) : Prop := {
  so_names : NoDup (Handler.name <$> active srv);
  so_socks : sname <$> socks srv = Handler.name <$> active srv;
  so_fresh : Forall fresh (socks srv);
  so_open : stopChan srv = false
}.

(** All its listeners are edge listeners, or none is. *)
Definition in_mode (edge : bool) (srv : server N T W) : Prop := Forall (λ s, on_edge s = edge) (socks srv).

Lemma AddOrUpdate_names tls_ok uuid lc nfs sfs (ls : list (activeListener N T)) r ls' :
  AddOrUpdateListener tls_ok uuid lc nfs sfs ls = (r, ls') →
  let nm := if LName lc =b [] then uuid else LName lc in
  Handler.name <$> ls' = (Handler.name <$> ls) ++ (match r with Added => [nm] | _ => [] end) ∧
  (r ≠ AddressMismatch → r ≠ TlsError → nm ∈ Handler.name <$> ls').
Proof.
  unfold AddOrUpdateListener. set (lc' := if LName lc =b [] then _ else lc).
  assert (Hn : LName lc' = if LName lc =b [] then uuid else LName lc) by (subst lc'; by case_bool_decide).
  cbv zeta. rewrite <- Hn. clearbody lc'. destruct (list_find _ ls) as [[i al]|] eqn:Ef.
  - apply list_find_Some in Ef as (Ei & En & _).
    assert (Hin : LName lc' ∈ Handler.name <$> ls). { rewrite <- En. apply list_elem_of_fmap. eexists. split; [done|]. by eapply list_elem_of_lookup_2. }
    destruct (_ || _); [intros [= <- <-]; by rewrite app_nil_r|].
    destruct (_ && _); [intros [= <- <-]; by rewrite app_nil_r|]. intros [= <- <-].
    assert (E : Handler.name <$> <[i := updateListener lc' nfs sfs al]> ls = Handler.name <$> ls).
    { rewrite list_fmap_insert. apply list_insert_id. by rewrite list_lookup_fmap, Ei. }
    rewrite E, app_nil_r. by split.
  - unfold newActiveListener. destruct (tls_ok lc'); intros [= <- <-]; [|by rewrite app_nil_r].
    rewrite fmap_app. cbn. split; [done|]. intros _ _. apply elem_of_app. right. by left.
Qed.

Lemma AddListener_ok edge tls_ok uuid bind lc nfs sfs (srv srv' : server N T W) r : server_ok srv →
  AddListener edge tls_ok uuid bind lc nfs sfs srv = (r, srv') →
  server_ok srv' ∧ (in_mode edge srv → in_mode edge srv') ∧ serverName srv' = serverName srv ∧
  (∀ n, n ∈ Handler.name <$> active srv → n ∈ Handler.name <$> active srv') ∧
  (r ≠ AddressMismatch → r ≠ TlsError → (if LName lc =b [] then uuid else LName lc) ∈ Handler.name <$> active srv').
Proof.
  intros [H1 H2 H3 H4]. unfold AddListener. destruct (AddOrUpdateListener _ _ _ _ _ _) as [r0 ls] eqn:Ea.
  pose proof (listener_facts.add_names tls_ok uuid lc nfs sfs (active srv) H1) as Hd. rewrite Ea in Hd.
  destruct (AddOrUpdate_names _ _ _ _ _ _ _ _ Ea) as [Hn Hin]. intros [= <- <-]. split_and!; [| |done| |done].
  - constructor; cbn; [done| | |done].
    + rewrite Hn, <- H2. destruct r0; rewrite ?app_nil_r; try done. rewrite fmap_app. by destruct edge.
    + destruct r0; try done. apply Forall_app. split; [done|]. constructor; [by destruct edge|constructor].
  - unfold in_mode. cbn. destruct r0; try done. intros Hm. apply Forall_app. split; [done|].
    constructor; [by destruct edge|constructor].
  - intros n Hi. cbn. rewrite Hn. apply elem_of_app. by left.
Qed.

Section boot.
Context {Addr : Type} (ResolveTCPAddr : bytes → option Addr) (addrText addrNetwork : Addr → bytes)
  (rest : Config.Listener Addr → bytes) (tls_ok : ListenerConfig → bool) (uuid : nat → bytes)
  (env : bytes) (cpus : Z) (cbs : cbMap)
  (netFilters : gmap bytes (Config.config → res bytes N)) (streamFilters : gmap bytes (Config.config → res bytes T))
  (order : list (bytes * list HostConfig) → list (bytes * list HostConfig)).
Abbreviation addl := (add_listeners ResolveTCPAddr addrText addrNetwork rest tls_ok uuid netFilters streamFilters).
Abbreviation boot := (NewStrike ResolveTCPAddr addrText addrNetwork rest tls_ok uuid env cpus cbs netFilters streamFilters order).

Lemma add_listeners_ok edge i lcs (srv srv' : server N T W) : server_ok srv → addl edge i lcs srv = Ok srv' →
  server_ok srv' ∧ (in_mode edge srv → in_mode edge srv') ∧ serverName srv' = serverName srv ∧
  (∀ n, n ∈ Handler.name <$> active srv → n ∈ Handler.name <$> active srv') ∧
  Forall (λ lc, AddrConfig lc ≠ [] ∧ LChains lc ≠ [] ∧
    (LName_ lc ≠ [] → LName_ lc ∈ Handler.name <$> active srv')) lcs.
Proof.
  revert i srv. induction lcs as [|lc lcs IH]; intros i srv Hs; cbn; [intros [= <-]; by split_and!|].
  unfold ParseListenerConfig. case_bool_decide as Ha; [done|].
  destruct (ResolveTCPAddr (AddrConfig lc)) as [a|]; [|done]. cbn.
  destruct (LChains lc) as [|chain chains] eqn:Ec; [done|].
  destruct (AddListener _ _ _ _ _ _ _ srv) as [r srv1] eqn:Eadd.
  destruct (AddListener_ok _ _ _ _ _ _ _ _ _ _ Hs Eadd) as (Hs1 & He1 & Hn1 & Hm1 & Hi1). intros E.
  assert (Hr : r ≠ AddressMismatch ∧ r ≠ TlsError) by (destruct r; done).
  assert (E' : addl edge (S i) lcs srv1 = Ok srv') by (destruct r; done).
  destruct (IH _ _ Hs1 E') as (Hs' & He' & Hn' & Hm' & Hl'). split_and!; [done|auto|congruence|auto|].
  constructor; [|done]. split_and!; [done|by rewrite Ec|]. intros Hne. apply Hm'. destruct Hr as [Hr1 Hr2].
  specialize (Hi1 Hr1 Hr2). cbn in Hi1. by rewrite bool_decide_eq_false_2 in Hi1.
Qed.

(** C29: what NewStrike makes of a configuration it accepts: the one server, whose listeners
    have different names and contain every name that was configured, with their callbacks
    and no socket yet; they are edge listeners if edge mode is configured, and else none
    is.  It is the last of the servers of the process.  Every listener had an address and a
    filter chain, and the cluster manager is well formed. *)
Theorem boot_makes (g : globals N T W) (sc : StrikeConfig Addr) (sk : Strike N T W) : boot g sc = Ok sk →
  ∃ scfg lcs, Servers sc = [(scfg, lcs)] ∧ lcs ≠ [] ∧ server_ok (strike_server sk) ∧
    in_mode (UseEdgeMode scfg) (strike_server sk) ∧
    serverName (strike_server sk) = ServerName scfg ∧ servers (strike_globals sk) = servers g ++ [strike_server sk] ∧
    Forall (λ lc, AddrConfig lc ≠ [] ∧ LChains lc ≠ [] ∧
      (LName_ lc ≠ [] → LName_ lc ∈ Handler.name <$> active (strike_server sk))) lcs ∧
    manager_facts.manager_ok (cm sk).
Proof.
  unfold NewStrike. destruct (Servers sc) as [|[scfg lcs] [|]] eqn:Es; [done| |done].
  destruct (ParseClusterConfig cbs (Clusters sc)) as [[clusters m] calls1].
  destruct (NewClusterManager None clusters (order (map_to_list m))) as [cm0|] eqn:Em; [|done].
  destruct (ParseServerConfig env cpus cbs scfg) as [scfg' calls2] eqn:Ep. cbn [NewServer mbind option_bind].
  destruct lcs as [|lc lcs]; [done|]. destruct (add_listeners _ _ _ _ _ _ _ _ _ _ _ _) as [srv|] eqn:El; [|done].
  intros [= <-]. cbn. exists scfg, (lc :: lcs). apply add_listeners_ok in El as (H1 & He & H2 & _ & H4).
  2:{ constructor; [constructor|done|constructor|done]. }
  split_and!; [done|done|done| | | |done|].
  - unfold ParseServerConfig in Ep. injection Ep as <- _. apply He. constructor.
  - rewrite H2. cbn. unfold ParseServerConfig in Ep. by injection Ep as <- _.
  - rewrite length_app, Nat.add_sub. cbn. rewrite insert_app_r_alt by lia. by rewrite Nat.sub_diag.
  - by eapply manager_facts.manager_new_ok.
Qed.

(** What NewStrike refuses: no server or more than one, and a server without listeners;
    a first listener without an address, and one without a filter chain, for which it
    panics. *)
Theorem boot_refuses (g : globals N T W) (sc : StrikeConfig Addr) :
  (length (Servers sc) ≠ 1%nat → ∃ msg, boot g sc = Err (BFatal msg)) ∧
  (∀ scfg, Servers sc = [(scfg, [])] → ∃ e, boot g sc = Err e) ∧
  (∀ scfg lc lcs, Servers sc = [(scfg, lc :: lcs)] → AddrConfig lc = [] → ∃ e, boot g sc = Err e) ∧
  (∀ scfg lc lcs a, Servers sc = [(scfg, lc :: lcs)] → AddrConfig lc ≠ [] → ResolveTCPAddr (AddrConfig lc) = Some a →
    LChains lc = [] → boot g sc = Err BPanic).
Proof.
  unfold NewStrike. split_and!.
  - intros Hl. destruct (Servers sc) as [|[scfg lcs] [|]]; [by eexists|done|by eexists].
  - intros scfg ->. repeat case_match; simplify_eq; eauto.
  - intros scfg lc lcs -> Ha. destruct (ParseClusterConfig _ _) as [[? ?] ?]. destruct (NewClusterManager _ _ _); [|eauto].
    destruct (ParseServerConfig _ _ _ _). cbn. unfold ParseListenerConfig. rewrite Ha. cbn. eauto.
  - intros scfg lc lcs a -> Ha Hr Hc. destruct (ParseClusterConfig _ _) as [[? ?] ?]. destruct (NewClusterManager _ _ _); [|done].
    destruct (ParseServerConfig _ _ _ _). cbn. unfold ParseListenerConfig. rewrite bool_decide_eq_false_2, Hr by done.
    cbn. by rewrite Hc.
Qed.
End boot.

(** ** Closing *)




(** The shutdown callbacks run once, in their order, whatever asks for them again; and the
    exit code is 4 whenever there is a callback, also when all of them succeed. *)
Theorem shutdown_once (k : keeper) (sig : signal) : kOnce k = false →
  let '(code, rs, k') := executeShutdownCallbacks k in
  rs = shutdownCallbacks k ∧ (code = 4 ↔ shutdownCallbacks k ≠ []) ∧ (code = 0 ↔ shutdownCallbacks k = []) ∧
  executeShutdownCallbacks k' = (0, [], k') ∧
  (∀ r, Callback r ∉ (on_signal sig k').1) ∧ (∀ i r, Callback r ∉ (on_interrupt i k').1).
Proof.
  intros Ho. unfold executeShutdownCallbacks at 1. rewrite Ho.
  assert (Hc : ∀ r (l : list nat), Callback r ∉ Cleanup <$> l).
  { intros r l Hin. by apply list_elem_of_fmap in Hin as (? & ? & _). }
  split_and!; [done| | |done| |].
  - destruct (shutdownCallbacks k); cbn; [done|]. by split.
  - destruct (shutdownCallbacks k); cbn; [done|]. by split.
  - intros r. destruct sig; cbn; rewrite ?elem_of_app; specialize (Hc r (onProcessExit k)); set_solver.
  - intros i r. unfold on_interrupt. destruct (0 <? i)%nat; cbn; rewrite ?elem_of_app; specialize (Hc r (onProcessExit k)); set_solver.
Qed.

(** Strike.Stop panics, whatever it stops. *)
Example stop_panics (sk : Strike N T W) : strike_Stop sk = None.
Proof. unfold strike_Stop. by destruct (srv_Close _). Qed.
End theorems.

Module server_example.
Definition boot0 : globals nat nat nat → StrikeConfig bytes → res bootErr (Strike nat nat nat) :=
  NewStrike (@Some bytes) (λ a, a) (λ _, bs "tcp") (λ _, []) (λ _, true) (λ _, bs "uuid") [] 4 ∅
    ∅ ∅ (λ l, l).
Definition listener0 (nm : bytes) : Config.Listener bytes :=
  mkListener nm (bs "127.0.0.1:80") true [] [[]] [] None 0 0 false.
Definition sc0 : StrikeConfig bytes :=
  mkStrikeConfig [(mkServerConfig (bs "srv") [] [] false 0 0, [listener0 (bs "a"); listener0 []])]
    [config_of (bs "x")].
Definition g0 : globals nat nat nat := mkGlobals [] 0 false 0.
Definition sk0 : Strike nat nat nat :=
  match boot0 g0 sc0 with Ok sk => sk | Err _ => mkStrike (mkServer [] false [] [] (NewWorkerPool 0 0)) ∅ g0 [] end.
Lemma boot0_ok : boot0 g0 sc0 = Ok sk0.
Proof. vm_compute. reflexivity. Qed.

Lemma boot_makes_witness : server_ok (strike_server sk0) ∧ serverName (strike_server sk0) = bs "srv".
Proof.
  destruct (boot_makes (@Some bytes) (λ a, a) (λ _, bs "tcp") (λ _, [])
    (λ _, true) (λ _, bs "uuid") [] 4 ∅ ∅ ∅ (λ l, l) g0 sc0 sk0 boot0_ok) as (scfg & lcs & E & _ & H & _ & Hn & _).
  split; [exact H|]. rewrite Hn. vm_compute in E. injection E as <- _. reflexivity.
Defined.
(** A callback that succeeds, and yet exit code 4. *)
Lemma shutdown_once_witness : (executeShutdownCallbacks (mkKeeper false [None] [])).1.1 = 4.
Proof.
  pose proof (shutdown_once (mkKeeper false [None] []) SIGTERM eq_refl) as (_ & [_ H] & _).
  apply H. discriminate.
Defined.
End server_example.
