(* ===== verification/Wiring.v ===== *)
(** * Network filters and what they are wired to

    The filters of a connection that stand between the session and the streams: the proxy
    filter and the controller filter (src/pkg/filter/network/proxy/proxy.go,
    controller/controller.go), which make the server side of the protocol and hand it the
    data, the delegation filter (src/pkg/filter/network/delegation); the registry of
    protocols (src/pkg/stream/factory.go) with what its factories give; the events of a
    client connection (src/pkg/stream/client.go); the connections of MQTT by their id
    (src/pkg/protocol/mqtt/map_connection_manager.go); and the byte slices that belong to
    a context (src/pkg/buffer/bytebufferpool.go).

    The theorems: of the five protocols a configuration may name, the proxy serves two, and
    panics at the first data of the others; the delegation filter calls its agent once for a
    connection and stops the chain; slices taken for a context are given back with it; the
    map of connections forgets an id exactly when told to. *)
From stdpp Require Import gmap.
From S2P Require Import Prelude BytePool FilterManager Session Config.
#[local] Open Scope Z_scope.

(** ** Protocols *)

(** The kinds of server side that exist; a server side is an object of its own, with the
    buffers that were dispatched to it, by number.  Objects are named by their place among
    all that were made. *)
Inductive serverKind := HttpConn | MqttConn.
Record serverConn := mkServerConn { kind : serverKind; dispatched : list nat }.
Abbreviation heap := (list serverConn).
(** A ProtocolStreamFactory by what its CreateServerStreamConnection makes; nil for MQ. *)
Abbreviation streamFactories := (gmap bytes (option serverKind)).
Definition Register (prot : bytes) (factory : option serverKind) (m : streamFactories) : streamFactories :=
  <[prot := factory]> m.
(** The packages that the bootstrap imports: HTTP 1, MQTT and MQ. *)
Definition http_CreateServerStreamConnection : option serverKind := Some HttpConn.
Definition mqtt_CreateServerStreamConnection : option serverKind := Some MqttConn.
Definition qmq_CreateServerStreamConnection : option serverKind := None.
Definition factories0 : streamFactories :=
  Register MQ qmq_CreateServerStreamConnection (Register MQTT mqtt_CreateServerStreamConnection
    (Register HTTP1 http_CreateServerStreamConnection ∅)).
(** Each call makes a new object, or gives nil. *)
Definition CreateServerStreamConnection (m : streamFactories) (prot : bytes) (h : heap) : option nat * heap :=
  match m !! prot with
  | Some (Some k) => (Some (length h), h ++ [mkServerConn k []])
  | Some None => (None, h)
  | None => (None, h)
  end.
(** Dispatch of the object [i]; what it does with the buffer is in HttpStream.v and
    MqttStream.v. *)
Definition Dispatch (buf : nat) (i : nat) (h : heap) : heap :=
  alter (λ c, mkServerConn (kind c) (dispatched c ++ [buf])) i h.

(** ** The proxy and the controller as filters *)

Definition Auto : bytes := bs "Auto".
(** [listening]: the filter hears the events of the connection. *)
Record readFilter := mkRead { protocol : bytes; serverStreamConn : option nat; listening : bool }.
Definition NewFilter (prot : bytes) : readFilter := mkRead prot None false.
Definition InitializeReadFilterCallbacks (m : streamFactories) (f : readFilter) (h : heap) : readFilter * heap :=
  if negb (protocol f =b Auto) then
    let '(ssc, h) := CreateServerStreamConnection m (protocol f) h in (mkRead (protocol f) ssc true, h)
  else (mkRead (protocol f) (serverStreamConn f) true, h).
(** [None]: Dispatch of nil panics. *)
Definition filter_OnData (m : streamFactories) (buf : nat) (f : readFilter) (h : heap)
    : option (FilterStatus * readFilter * heap) :=
  let '(ssc, h) := match serverStreamConn f with
                   | Some i => (Some i, h)
                   | None => CreateServerStreamConnection m (protocol f) h
                   end in
  let f := mkRead (protocol f) ssc (listening f) in
  match ssc with
  | None => None
  | Some i => Some (Stop, f, Dispatch buf i h)
  end.
Definition filter_OnNewConnection (f : readFilter) : FilterStatus := Continue.
(** onDownstreamEvent, whose body is commented out, and onsourceStreamEvent. *)
Definition onDownstreamEvent (event : ConnectionEvent) (f : readFilter) : readFilter := f.

(** ** The delegation filter *)

Section delegation.
(** An agent by whether it reports an error; the calls are recorded. *)
Context {C : Type}.
Abbreviation agents := (gmap bytes (C → option bytes)).
Definition RegisterAgent (nm : bytes) (h : C → option bytes) (m : agents) : agents := <[nm := h]> m.
Record delegate := mkDelegate { agentName : bytes; agentType : bytes; readCallbacks : option C }.
Definition NewDelegate (d : Delegation) : delegate := mkDelegate (AgentName d) (AgentType d) None.
Definition delegate_Initialize (c : C) (d : delegate) : delegate := mkDelegate (agentName d) (agentType d) (Some c).
(** What the agent was called with; [None]: the callbacks are nil. *)
Definition delegate_OnNewConnection (m : agents) (d : delegate) : option (FilterStatus * list (C * option bytes)) :=
  match m !! agentName d with
  | None => Some (Stop, [])
  | Some ag => c ← readCallbacks d; Some (Stop, [(c, ag c)])
  end.
Definition delegate_OnData (d : delegate) : FilterStatus := Continue.
End delegation.

(** ** Clients *)

#[export] Instance ConnectionEvent_eq_dec : EqDecision ConnectionEvent.
Proof. solve_decision. Defined.
(** The reasons of stream/types.go a client gives. *)
Inductive resetReason := ConnectionFailed_ | ConnectionTermination.
Record client := mkClient { ConnectedFlag : bool; resets : list resetReason }.
Definition client_OnEvent (event : ConnectionEvent) (c : client) : client :=
  let c := match event with Connected => mkClient true (resets c) | _ => c end in
  if IsClose event || ConnectFailure event
  then mkClient (ConnectedFlag c)
         (resets c ++ [if ConnectedFlag c then ConnectionTermination else ConnectionFailed_])
  else c.

(** ** Connections by their id *)

Section connections.
Context {C : Type}.
Abbreviation conns := (gmap bytes C).
Definition NewMapConnectionManager : conns := ∅.
Definition PutConnection (id : bytes) (c : option C) (m : conns) : conns :=
  match c with Some c => if id =b [] then m else <[id := c]> m | None => m end.
Definition GetConnection (id : bytes) (m : conns) : option C := if id =b [] then None else m !! id.
Definition GetConnectionCount (m : conns) : nat := size m.
Definition DeleteConnection (id : bytes) (m : conns) : conns := if id =b [] then m else delete id m.
Definition DeleteAllConnection (m : conns) : conns := ∅.
(** Close of a connection has no body. *)
Definition CloseConnection (id : bytes) (m : conns) : conns := m.
Definition CloseAllConnection (m : conns) : conns := m.
End connections.

(** ** Byte slices of a context *)

(** ByteBufferPoolContainer: the slices that were taken, and the pool they came from. *)
Record container := mkContainer { cbytes : list slice; cworld : world }.
Definition ByteBufferCtx_New (w : world) : container := mkContainer [] w.
Definition ByteBufferCtx_Reset (c : container) : container :=
  mkContainer [] (foldl (λ w s, give_bytes (Some s) w) (cworld c) (cbytes c)).
(** GetBytesByContext, for the container the context holds. *)
Definition GetBytesByContext (size : Z) (c : container) : res goPanic slice * container :=
  match take_bytes size (cworld c) with
  | (Ok s, w) => (Ok s, mkContainer (cbytes c ++ [s]) w)
  | (Err e, w) => (Err e, mkContainer (cbytes c) w)
  end.

(** ** Theorems *)

Lemma supported_list p : p ∈ protocolsSupported ↔ p ∈ [MQ; HTTP2; HTTP1; MQTT; Xprotocol].
Proof. unfold protocolsSupported. by rewrite elem_of_list_to_set. Qed.
(** The kind of server side of a protocol that the proxy serves. *)
Definition kind_of (p : bytes) : option serverKind :=
  if p =b HTTP1 then Some HttpConn else if p =b MQTT then Some MqttConn else None.
Lemma created p h : p ∈ protocolsSupported → CreateServerStreamConnection factories0 p h =
  match kind_of p with Some k => (Some (length h), h ++ [mkServerConn k []]) | None => (None, h) end.
Proof.
  intros Hp. assert (factories0 !! p = if p =b MQ then Some None else Some <$> kind_of p) as E.
  { revert Hp. rewrite supported_list, !elem_of_cons, elem_of_nil. intros [->|[->|[->|[->|[->|[]]]]]]; vm_compute; reflexivity. }
  unfold CreateServerStreamConnection. rewrite E. case_bool_decide as Em; [by subst p|]. by destruct (kind_of p).
Qed.

(** The data of a connection, buffer by buffer, with what the filter answers each time. *)
Fixpoint feed (m : streamFactories) (bufs : list nat) (f : readFilter) (h : heap)
    : option (list FilterStatus * readFilter * heap) :=
  match bufs with
  | [] => Some ([], f, h)
  | b :: bufs => '(st, f, h) ← filter_OnData m b f h; '(sts, f, h) ← feed m bufs f h; Some (st :: sts, f, h)
  end.
Lemma feed_served m bufs pr h k l :
  feed m bufs (mkRead pr (Some (length h)) true) (h ++ [mkServerConn k l]) =
    Some (replicate (length bufs) Stop, mkRead pr (Some (length h)) true, h ++ [mkServerConn k (l ++ bufs)]).
Proof.
  revert l. induction bufs as [|b bufs IH]; intros l; cbn; [by rewrite app_nil_r|].
  assert (Dispatch b (length h) (h ++ [mkServerConn k l]) = h ++ [mkServerConn k (l ++ [b])]) as ->.
  { unfold Dispatch. rewrite <- (Nat.add_0_r (length h)). by rewrite alter_app_r. }
  rewrite IH. cbn. by rewrite <- app_assoc.
Qed.

(** C40: a proxy filter that the configuration accepts serves its connection exactly when its
    protocol is HTTP 1 or MQTT.  Then one server side is made for the connection, of the
    kind of the protocol, and no other, however much data comes ([h] are the objects that
    were there before, which stay as they were): it gets all buffers, each once and in
    order, and the chain stops there each time.  For MQ, HTTP 2 and X, which are accepted
    too, the first data panics. *)
Theorem proxy_serves_two `{Json Proxy} (cfg : config) (p : Proxy) (bufs : list nat) (h : heap) :
  ParseProxyFilter cfg = Ok p → bufs ≠ [] →
  let '(f0, h0) := InitializeReadFilterCallbacks factories0 (NewFilter (DownstreamProtocol p)) h in
  match kind_of (DownstreamProtocol p) with
  | Some k =>
      feed factories0 bufs f0 h0 =
        Some (replicate (length bufs) Stop, mkRead (DownstreamProtocol p) (Some (length h)) true,
              h ++ [mkServerConn k bufs])
  | None => DownstreamProtocol p ∈ [MQ; HTTP2; Xprotocol] ∧ feed factories0 bufs f0 h0 = None
  end.
Proof.
  intros Hp Hb. set (pr := DownstreamProtocol p) in *.
  assert (Hs : pr ∈ protocolsSupported).
  { unfold ParseProxyFilter in Hp. destruct (Marshal cfg) as [data|]; [|done]. destruct (_ || _); [done|].
    destruct (negb (bool_decide (DownstreamProtocol _ ∈ protocolsSupported))) eqn:E; [done|].
    destruct (negb (bool_decide (UpstreamProtocol _ ∈ protocolsSupported))); [done|].
    injection Hp as <-. by apply negb_false_iff, bool_decide_eq_true in E. }
  assert (Ha : pr ≠ Auto).
  { intros E. rewrite E, supported_list in Hs. revert Hs. apply (bool_decide_eq_false_1 (Auto ∈ _)). vm_compute. reflexivity. }
  unfold InitializeReadFilterCallbacks. cbn [protocol NewFilter]. rewrite bool_decide_eq_false_2, created by done. cbn [negb].
  destruct (kind_of pr) as [k|] eqn:Ek; [apply feed_served|]. split.
  - revert Hs Ek. rewrite supported_list, !elem_of_cons, elem_of_nil.
    intros [->|[->|[->|[->|[->|[]]]]]]; vm_compute kind_of; intros Ek; try discriminate; auto.
  - destruct bufs as [|b bufs]; [done|]. cbn. unfold filter_OnData. cbn. by rewrite created, Ek by done.
Qed.

(** The delegation filter, once it has its callbacks, calls the agent it names with the
    connection, once, and stops the chain, whatever the agent answers; without such an
    agent it stops the chain all the same. *)
Theorem delegate_once {C} (m : gmap bytes (C → option bytes)) (d : Delegation) (c : C) (nm : bytes) (h : C → option bytes) :
  delegate_OnNewConnection (RegisterAgent nm h m) (delegate_Initialize c (NewDelegate d)) =
    Some (Stop, match RegisterAgent nm h m !! AgentName d with Some ag => [(c, ag c)] | None => [] end) ∧
  (AgentName d = nm → delegate_OnNewConnection (RegisterAgent nm h m) (delegate_Initialize c (NewDelegate d)) =
    Some (Stop, [(c, h c)])).
Proof.
  unfold delegate_OnNewConnection, RegisterAgent. cbn. split.
  - by destruct (<[nm := h]> m !! AgentName d).
  - intros ->. by rewrite lookup_insert_eq.
Qed.

(** Slices that are taken for a context are all given back when the context ends: taking
    does not panic, the pool stays in order, and afterwards the context holds none. *)
Theorem context_gives_back (sizes : list Z) (w : world) : pool_ok w → Forall (λ n, 0 ≤ n) sizes →
  let c := foldl (λ c n, (GetBytesByContext n c).2) (ByteBufferCtx_New w) sizes in
  slen <$> cbytes c = sizes ∧ pool_ok (cworld c) ∧
  cbytes (ByteBufferCtx_Reset c) = [] ∧ pool_ok (cworld (ByteBufferCtx_Reset c)).
Proof.
  intros Hw Hs. cbv zeta.
  assert (Hf : ∀ sizes c, Forall (λ n, 0 ≤ n) sizes → pool_ok (cworld c) →
    let c' := foldl (λ c n, (GetBytesByContext n c).2) c sizes in
    slen <$> cbytes c' = (slen <$> cbytes c) ++ sizes ∧ pool_ok (cworld c')).
  { clear. induction sizes as [|n sizes IH]; intros c Hs Hw; [by rewrite app_nil_r|].
    apply list.Forall_cons in Hs as [Hn Hs]. cbn [foldl].
    pose proof (take_bytes_spec n (cworld c) Hw Hn) as Ht. unfold wp, wpe in Ht.
    destruct (take_bytes n (cworld c)) as [[s|] w'] eqn:Et; [|done]. destruct Ht as (Hp & Hl & _).
    assert ((GetBytesByContext n c).2 = mkContainer (cbytes c ++ [s]) w') as -> by (unfold GetBytesByContext; by rewrite Et).
    destruct (IH (mkContainer (cbytes c ++ [s]) w') Hs Hp) as [H1 H2]. split; [|done].
    cbn in H1. rewrite H1, fmap_app, <- app_assoc. cbn. by rewrite Hl. }
  destruct (Hf sizes (ByteBufferCtx_New w) Hs Hw) as [H1 H2]. split_and!; [done|done|done|].
  unfold ByteBufferCtx_Reset. cbn [cworld]. generalize (cbytes (foldl (λ c n, (GetBytesByContext n c).2) (ByteBufferCtx_New w) sizes)).
  intros l. revert H2. generalize (cworld (foldl (λ c n, (GetBytesByContext n c).2) (ByteBufferCtx_New w) sizes)).
  induction l as [|s l IH]; intros w0 H2; [done|]. cbn [foldl]. apply IH. by apply give_bytes_ok.
Qed.

(** The map of connections answers with what was put last under an id and not deleted
    since; the empty id holds nothing, and no connection is ever closed. *)
Theorem connections_map {C} (id id' : bytes) (c : C) (m : gmap bytes C) : id ≠ [] →
  GetConnection id (PutConnection id (Some c) m) = Some c ∧ GetConnection id (DeleteConnection id m) = None ∧
  (id' ≠ id → GetConnection id' (PutConnection id (Some c) m) = GetConnection id' m ∧
              GetConnection id' (DeleteConnection id m) = GetConnection id' m) ∧
  GetConnection [] m = None ∧ PutConnection [] (Some c) m = m ∧ CloseConnection id m = m.
Proof.
  intros Hid. unfold GetConnection, PutConnection, DeleteConnection.
  rewrite !(bool_decide_eq_false_2 (id = [])), !(bool_decide_eq_true_2 ([] = [])) by done.
  split_and!; try done; [apply lookup_insert_eq|apply lookup_delete_eq|].
  intros Hne. case_bool_decide; [done|]. by rewrite lookup_insert_ne, lookup_delete_ne.
Qed.

(** A client that was connected says that its streams were terminated, one that never was
    that they failed; each close or failure resets them once. *)
Theorem client_resets (events : list ConnectionEvent) (c : client) (e : ConnectionEvent) :
  let c' := foldl (λ c e, client_OnEvent e c) c events in
  ConnectedFlag c' = ConnectedFlag c || bool_decide (Connected ∈ events) ∧
  length (resets c') = (length (resets c) + length (base.filter (λ e, IsClose e || ConnectFailure e) events))%nat ∧
  (IsClose e || ConnectFailure e = true → resets (client_OnEvent e c') =
     resets c' ++ [if ConnectedFlag c' then ConnectionTermination else ConnectionFailed_]).
Proof.
  cbv zeta. split_and!.
  - revert c. induction events as [|x events IH]; intros c; cbn [foldl]; [by rewrite orb_false_r|]. rewrite IH.
    assert (Hx : ConnectedFlag (client_OnEvent x c) = ConnectedFlag c || bool_decide (x = Connected)).
    { destruct x; cbn; by rewrite ?orb_false_r, ?orb_true_r. }
    rewrite Hx, <- orb_assoc. f_equal. rewrite <- bool_decide_or. apply bool_decide_ext. set_solver.
  - revert c. induction events as [|x events IH]; intros c; cbn [foldl]; [cbn; lia|]. rewrite IH, filter_cons.
    assert (Hx : length (resets (client_OnEvent x c)) =
      (length (resets c) + if IsClose x || ConnectFailure x then 1 else 0)%nat).
    { destruct x; cbn; rewrite ?length_app; cbn; lia. }
    rewrite Hx. destruct (IsClose x || ConnectFailure x); cbn; case_decide; cbn; try done; lia.
  - intros He. unfold client_OnEvent at 1. rewrite He. destruct e; cbn in *; done.
Qed.

Module wiring_example.
(** A configuration of a proxy for HTTP 2, and one for HTTP 1. *)
Definition json_of (prot : bytes) : Json Proxy := {|
  Marshal c := Some []; Unmarshal d p := (mkProxy [] prot MQ [], None)
|}.
Lemma proxy_serves_two_witness :
  (let '(f0, h0) := InitializeReadFilterCallbacks factories0 (NewFilter HTTP2) [] in
   feed factories0 [1%nat] f0 h0 = None) ∧
  (let '(f0, h0) := InitializeReadFilterCallbacks factories0 (NewFilter HTTP1) [] in
   feed factories0 [1; 2; 3]%nat f0 h0 =
     Some ([Stop; Stop; Stop], mkRead HTTP1 (Some 0%nat) true, [mkServerConn HttpConn [1; 2; 3]%nat])).
Proof.
  split.
  - exact (proj2 (proxy_serves_two (H := json_of HTTP2) ∅ (mkProxy [] HTTP2 MQ []) [1%nat] []
      ltac:(vm_compute; reflexivity) ltac:(discriminate))).
  - exact (proxy_serves_two (H := json_of HTTP1) ∅ (mkProxy [] HTTP1 MQ []) [1; 2; 3]%nat []
      ltac:(vm_compute; reflexivity) ltac:(discriminate)).
Defined.
Lemma context_gives_back_witness :
  slen <$> cbytes (foldl (λ c n, (GetBytesByContext n c).2) (ByteBufferCtx_New (World newByteBufferPool [])) [100; 7]) = [100; 7].
Proof.
  pose proof (context_gives_back [100; 7] (World newByteBufferPool [])) as H. cbv zeta in H.
  destruct H as [H _]; [apply newByteBufferPool_ok|repeat constructor; lia|exact H].
Defined.
Lemma connections_map_witness : GetConnection (bs "a") (PutConnection (bs "a") (Some 1) ∅) = Some 1.
Proof. destruct (connections_map (bs "a") [] 1 ∅) as [H _]; [discriminate|exact H]. Defined.
End wiring_example.
