(* ===== verification/Evio.v ===== *)
(** * The event loop

    src/pkg/evio: evio.go, evio_unix.go, and of its internal directory notequeue.go,
    internal_linux.go and socktoaddr.go.  A server has loops; each loop is a goroutine
    that waits for events of its descriptors and handles one after the other.

    A handler works on its loop and on what the loops share ([loop], [shared]): it is a
    function in the state monad of the prelude, and ends with nil, with an error, which
    ends the loop, or with a panic ([stop]).  What the system answers to the calls of a
    handler comes with the event ([evt]): it is clipped to what the call can give, a new
    descriptor is one that is not open, and a script that is used up is EAGAIN.  The
    functions of the user are an argument ([Events]) with a state of their own.

    [world] is a server with its loops, the goroutine of serve, the ticker and who else
    calls outConnect; [step] is a round of one loop or a step of one of the others, and
    they are taken in any order.  Two handlers of different loops work on different
    connections and share the atomic counters only, so that a round is one step.

    What epoll keeps is the map [interest]; a control call fails only where the
    descriptor is there already or is not there.  Socket options, whose failures are
    ignored, and the BSD variant of the poll are left out.  The invariants of a run are
    in EvioFacts. *)
From stdpp Require Import gmap.
From S2P Require Import Prelude Headers.
#[local] Open Scope Z_scope.

(** ** Addresses of listeners *)

Definition HasSuffix (s suf : bytes) : bool :=
  (length suf <=? length s)%nat && (drop (length s - length suf) s =b suf).
(** strings.Split with a separator that is not empty: the first two parts. *)
Definition Split01 (s sep : bytes) : bytes * bytes :=
  match Index s sep with
  | None => (s, [])
  | Some n =>
      let r := drop (n + length sep) s in
      (take n s, match Index r sep with None => r | Some m => take m r end)
  end.
Definition truthy (v : bytes) (reusePort : bool) : bool :=
  match v with
  | [] => reusePort
  | x :: _ =>
      if bool_decide (x ∈ bs "TtYy") then true
      else (b2z "1" <=? b2z x) && (b2z x <=? b2z "9")
  end.
Fixpoint parse_opts (parts : list bytes) (reusePort : bool) : bool :=
  match parts with
  | [] => reusePort
  | part :: parts =>
      parse_opts parts
        match Split "="%byte part with
        | [k; v] => if k =b bs "reuseport" then truthy v reusePort else reusePort
        | _ => reusePort
        end
  end.
(** network, address, opts.reusePort, stdlib. *)
Definition parseAddr (addr : bytes) : bytes * bytes * bool * bool :=
  let '(network, address) :=
    match Index addr (bs "://") with
    | Some _ => Split01 addr (bs "://")
    | None => (bs "tcp", addr)
    end in
  let stdlib := HasSuffix network (bs "-net") in
  let network := if stdlib then take (length network - 4) network else network in
  match IndexByte address "?"%byte with
  | Some q => (network, take q address, parse_opts (Split "&"%byte (drop (S q) address)) false, stdlib)
  | None => (network, address, false, stdlib)
  end.

(** ** InputStream *)

Definition Begin (b packet : bytes) : bytes * bytes :=
  if (0 <? length b)%nat then (b ++ packet, b ++ packet) else (packet, b).
Definition End_ (data b : bytes) : bytes :=
  if (0 <? length data)%nat then data else if (0 <? length b)%nat then [] else b.

(** ** Data *)

Inductive Action := None_ | Detach | Close | Shutdown.
#[export] Instance Action_eq_dec : EqDecision Action.
Proof. solve_decision. Defined.
Inductive LoadBalance := RoundRobin | Random | LeastConnections.
#[export] Instance LoadBalance_eq_dec : EqDecision LoadBalance.
Proof. solve_decision. Defined.
Inductive err := errClosing | EAGAIN | Errno (n : Z).
#[export] Instance err_eq_dec : EqDecision err.
Proof. solve_decision. Defined.

Inductive Sockaddr := SockaddrInet4 (ip : bytes) (port : Z) | SockaddrInet6 (ip : bytes) (port zone : Z) | SockaddrUnix (name : bytes).
Inductive Addr := TCPAddr (ip : bytes) (port : Z) (zone : bytes) | UnixAddr (name : bytes).
(** SockaddrToAddr; [ifname] is net.InterfaceByIndex. *)
Definition SockaddrToAddr (ifname : Z → option bytes) (sa : Sockaddr) : Addr :=
  match sa with
  | SockaddrInet4 ip port => TCPAddr ip port []
  | SockaddrInet6 ip port zone => TCPAddr ip port (if zone =? 0 then [] else default [] (ifname zone))
  | SockaddrUnix name => UnixAddr name
  end.
(** The address of a packet as an IPv6 one, as loopUDPRead makes it. *)
Definition sa6 (sa : Sockaddr) : Sockaddr :=
  match sa with
  | SockaddrInet4 ip port => SockaddrInet6 (replicate 12 Byte.x00 ++ ip) port 0
  | SockaddrInet6 ip port zone => sa
  | SockaddrUnix _ => SockaddrInet6 (replicate 16 Byte.x00) 0 0
  end.

(** A connection; [cid] is the pointer to it.  [lnidx] is -1 for one that outConnect
    has made. *)
Record conn := mkConn {
  cid : nat; fd : Z; lnidx : Z; sa : Sockaddr; out : bytes; reuse : bool; opened : bool;
  action : Action; addrIndex : Z; localAddr : option Addr; remoteAddr : option Addr }.
Definition newConn (id : nat) (fd lnidx : Z) (sa : Sockaddr) : conn :=
  mkConn id fd lnidx sa [] false false None_ 0 None None.
Definition set_out (o : bytes) (c : conn) : conn :=
  mkConn (cid c) (fd c) (lnidx c) (sa c) o (reuse c) (opened c) (action c) (addrIndex c) (localAddr c) (remoteAddr c).
Definition set_action (a : Action) (c : conn) : conn :=
  mkConn (cid c) (fd c) (lnidx c) (sa c) (out c) (reuse c) (opened c) a (addrIndex c) (localAddr c) (remoteAddr c).
Definition set_reuse (b : bool) (c : conn) : conn :=
  mkConn (cid c) (fd c) (lnidx c) (sa c) (out c) b (opened c) (action c) (addrIndex c) (localAddr c) (remoteAddr c).
Definition set_opened (a : Z) (la ra : option Addr) (c : conn) : conn :=
  mkConn (cid c) (fd c) (lnidx c) (sa c) (out c) (reuse c) true (action c) a la ra.

Record listener := mkListener { lfd : Z; pconn : bool; isTCP : bool; lnaddr : Addr; lnetwork : bytes; laddr : bytes }.

(** ** The queue of notes and the poll *)

Inductive note := NConn (c : conn) | NTick | NErr (e : err).
Record noteQueue := mkQueue { qnotes : list note; qn : Z }.
Definition Add (x : note) (q : noteQueue) : bool * noteQueue :=
  let n := int64 (qn q + 1) in (n =? 1, mkQueue (qnotes q ++ [x]) n).
(** ForEach up to its loop: the notes to go through, and the queue. *)
Definition ForEach (q : noteQueue) : list note * noteQueue :=
  if qn q =? 0 then ([], q)
  else if (length (qnotes q) =? 0)%nat then ([], q)
  else (qnotes q, mkQueue [] 0).

Definition EPOLLIN : Z := 1.
Definition EPOLLOUT : Z := 4.
Definition EPOLLHUP : Z := 16.
Definition EPOLLRDHUP : Z := 8192.
Definition PollEvent_None : Z := 0.
Definition PollEvent_Read : Z := 1.
Definition PollEvent_Write : Z := 2.
Definition maskR : Z := Z.lor EPOLLIN (Z.lor EPOLLRDHUP EPOLLHUP).
Definition maskRW : Z := Z.lor EPOLLIN (Z.lor EPOLLOUT (Z.lor EPOLLRDHUP EPOLLHUP)).
Definition pollEvent (mask : Z) : Z :=
  let e := PollEvent_None in
  let e := if 0 <? Z.land mask EPOLLIN then Z.lor e PollEvent_Read else e in
  if 0 <? Z.land mask EPOLLOUT then Z.lor e PollEvent_Write else e.

Record Poll := mkPoll { wfd : Z; notes : noteQueue; interest : gmap Z Z; pollOpen : bool }.
Definition set_interest (m : gmap Z Z) (p : Poll) : Poll := mkPoll (wfd p) (notes p) m (pollOpen p).
Definition set_notes (q : noteQueue) (p : Poll) : Poll := mkPoll (wfd p) q (interest p) (pollOpen p).
Definition epoll_add (fd mask : Z) (p : Poll) : option Poll :=
  match interest p !! fd with Some _ => None | None => Some (set_interest (<[fd := mask]> (interest p)) p) end.
Definition epoll_mod (fd mask : Z) (p : Poll) : option Poll :=
  match interest p !! fd with None => None | Some _ => Some (set_interest (<[fd := mask]> (interest p)) p) end.
Definition epoll_del (fd : Z) (p : Poll) : option Poll :=
  match interest p !! fd with None => None | Some _ => Some (set_interest (delete fd (interest p)) p) end.
Definition ModReadWrite (fd : Z) (p : Poll) : Poll := default p (epoll_mod fd maskRW p).
Definition ModRead (fd : Z) (p : Poll) : Poll := default p (epoll_mod fd maskR p).
Definition ModDetach (fd : Z) (p : Poll) : Poll := default p (epoll_del fd p).
Definition AddRead (fd : Z) (p : Poll) : Poll := default p (epoll_add fd maskR p).
Definition AddReadWrite (fd : Z) (p : Poll) : Poll :=
  match epoll_add fd maskRW p with Some p => p | None => ModReadWrite fd p end.
Definition Trigger (x : note) (p : Poll) : Poll := set_notes (Add x (notes p)).2 p.
(** With the descriptor that wakes it up. *)
Definition OpenPoll (wfd : Z) : Poll := AddRead wfd (mkPoll wfd (mkQueue [] 0) ∅ true).
Definition Poll_Close (p : Poll) : Poll := mkPoll (wfd p) (notes p) (interest p) false.

(** ** A loop and what the loops share *)

Record loop := mkLoop { idx : nat; poll : Poll; packetLen : Z; fdconns : gmap Z conn }.
Definition set_poll (f : Poll → Poll) (l : loop) : loop := mkLoop (idx l) (f (poll l)) (packetLen l) (fdconns l).
Definition set_fdconns (f : gmap Z conn → gmap Z conn) (l : loop) : loop :=
  mkLoop (idx l) (poll l) (packetLen l) (f (fdconns l)).

(** What happens to the connections, with what the functions of the user answer. *)
Inductive ev :=
| TAccept (i : nat) (id : nat)
| TJoin (i : nat) (id : nat)
| TOpened (id : nat) (reply : bytes)
| TData (id : nat) (input reply : bytes)
| TWrite (id : nat) (b : bytes)
| TClosed (id : nat) (e : option err)
| TDetached (id : nat)
| TPacket (lnidx : nat) (from : Sockaddr) (input reply : bytes)
| TTick (delay : Z).
(** The ticker is about to trigger a tick, or waits for the delay, or was not started. *)
Inductive ticker := TkReady | TkWait | TkOff.

Section loop.
Context {U : Type} (ifname : Z → option bytes).

Record Options := mkOptions { TCPKeepAlive : Z; ReuseInputBuffer : bool }.
(** The functions of the user; [None] is nil. *)
Record Events := mkEvents {
  Serving : option (nat → U → Action * U);
  Opened : option (conn → U → bytes * Options * Action * U);
  Closed : option (conn → option err → U → Action * U);
  Detached : option (conn → Z → U → Action * U);
  Data : option (conn → bytes → U → bytes * Action * U);
  Tick : option (U → Z * Action * U) }.
Record shared := mkShared {
  lns : list listener; balance : LoadBalance; counts : list Z; accepted : Z;
  openfds : gset Z; nextid : nat; user : U; tch : ticker; trace : list ev }.
Definition set_counts (x : list Z) (s : shared) : shared :=
  mkShared (lns s) (balance s) x (accepted s) (openfds s) (nextid s) (user s) (tch s) (trace s).
Definition set_accepted (x : Z) (s : shared) : shared :=
  mkShared (lns s) (balance s) (counts s) x (openfds s) (nextid s) (user s) (tch s) (trace s).
Definition set_openfds (x : gset Z) (s : shared) : shared :=
  mkShared (lns s) (balance s) (counts s) (accepted s) x (nextid s) (user s) (tch s) (trace s).
Definition set_nextid (x : nat) (s : shared) : shared :=
  mkShared (lns s) (balance s) (counts s) (accepted s) (openfds s) x (user s) (tch s) (trace s).
Definition set_user (x : U) (s : shared) : shared :=
  mkShared (lns s) (balance s) (counts s) (accepted s) (openfds s) (nextid s) x (tch s) (trace s).
Definition set_tch (x : ticker) (s : shared) : shared :=
  mkShared (lns s) (balance s) (counts s) (accepted s) (openfds s) (nextid s) (user s) x (trace s).
Definition log (e : ev) (s : shared) : shared :=
  mkShared (lns s) (balance s) (counts s) (accepted s) (openfds s) (nextid s) (user s) (tch s) (trace s ++ [e]).

(** What the system answers.  [Read] gives bytes, none at the end of the input. *)
Inductive rd := RData (b : bytes) | RErr (e : err).
Inductive wres := WOk (n : nat) | WErr (e : err).
Inductive accres := AccErr (e : err) | AccOk (hint : Z) (sa : Sockaddr) (nonblock : option err).
Record evt := mkEvt {
  efd : Z; emask : Z; reads : list rd; write : wres; accept : accres;
  recvfrom : option (bytes * Sockaddr); blocking : option err }.
(** A descriptor that is not open. *)
Definition new_fd (hint : Z) (open : gset Z) : Z := if bool_decide (hint ∈ open) then fresh open else hint.

Inductive stop := SErr (e : err) | SPanic | SBlock.
Definition M : Type → Type := stM stop (loop * shared).
Definition onL (f : loop → loop) : M unit := λ '(l, s), (Ok tt, (f l, s)).
Definition onS (f : shared → shared) : M unit := λ '(l, s), (Ok tt, (l, f s)).
Definition emit (e : ev) : M unit := onS (log e).
Definition when (b : bool) (m : M unit) : M unit := if b then m else mret ().
(** A call of a function of the user. *)
Definition call {A} (f : U → A * U) : M A := λ '(l, s), let '(a, u) := f (user s) in (Ok a, (l, set_user u s)).
Definition putConn (c : conn) : M unit := onL (set_fdconns <[fd c := c]>).
Definition addCount (d : Z) : M unit :=
  '(l, s) ← getS; onS (set_counts (alter (λ n, int32 (n + d)) (idx l) (counts s))).

Variable events : Events.

Definition shutdownIf (a : Action) : M unit := match a with Shutdown => throw (SErr errClosing) | _ => mret () end.

Definition loopCloseConn (c : conn) (e : option err) : M unit :=
  addCount (-1);;
  onL (set_fdconns (delete (fd c)));;
  onL (set_poll (λ p, set_interest (delete (fd c) (interest p)) p));;
  onS (λ s, set_openfds (openfds s ∖ {[fd c]}) s);;
  emit (TClosed (cid c) e);;
  match Closed events with
  | None => mret ()
  | Some f => a ← call (f c e); shutdownIf a
  end.

Definition loopDetachConn (c : conn) (e : option err) (blocking : option err) : M unit :=
  match Detached events with
  | None => loopCloseConn c e
  | Some f =>
      onL (set_poll (ModDetach (fd c)));;
      addCount (-1);;
      onL (set_fdconns (delete (fd c)));;
      emit (TDetached (cid c));;
      match blocking with
      | Some e => throw (SErr e)
      | None => a ← call (f c (fd c)); shutdownIf a
      end
  end.

(** A send to a channel without a buffer: it waits until the ticker receives. *)
Definition sendDelay (delay : Z) : M unit :=
  '(_, s) ← getS;
  match tch s with TkWait => onS (set_tch TkReady) | _ => throw SBlock end.
Definition loopNote (x : option note) : M unit :=
  match x with
  | Some NTick =>
      match Tick events with
      | None => throw SPanic
      | Some f =>
          '(delay, a) ← call f;
          emit (TTick delay);;
          sendDelay delay;;
          shutdownIf a
      end
  | Some (NErr e) => throw (SErr e)
  | Some (NConn _) | None => mret ()
  end.

Definition loopUDPRead (i : nat) (ln : listener) (r : option (bytes * Sockaddr)) : M unit :=
  match r with
  | None | Some ([], _) => mret ()
  | Some (b, from) =>
      match Data events with
      | None => mret ()
      | Some f =>
          '(l, _) ← getS;
          let b := take (Z.to_nat (packetLen l)) b in
          let c := mkConn 0 0 0 from [] false false None_ (Z.of_nat i) (Some (lnaddr ln))
                     (Some (SockaddrToAddr ifname (sa6 from))) in
          '(reply, a) ← call (f c b);
          emit (TPacket i from b reply);;
          shutdownIf a
      end
  end.

(** Whether this loop takes the connection, and the counter. *)
Definition takes (l : loop) (s : shared) : bool * shared :=
  if (1 <? length (counts s))%nat then
    match balance s with
    | LeastConnections =>
        let n := default 0 (counts s !! idx l) in
        (forallb (λ '(i, k), (i =? idx l)%nat || negb (k <? n)) (imap pair (counts s)), s)
    | RoundRobin =>
        if Z.rem (int64 (accepted s)) (zlen (counts s)) =? Z.of_nat (idx l)
        then (true, set_accepted (uint64 (accepted s + 1)) s) else (false, s)
    | Random => (true, s)
    end
  else (true, s).
Definition takeTurn : M bool := λ '(l, s), let '(b, s) := takes l s in (Ok b, (l, s)).
(** The first listener with the descriptor. *)
Definition findLn (fd : Z) (ls : list listener) : option (nat * listener) :=
  list_find (λ ln, lfd ln = fd) ls.
Definition newDescriptor (hint : Z) : M Z :=
  '(_, s) ← getS;
  let nfd := new_fd hint (openfds s) in
  onS (λ s, set_openfds ({[nfd]} ∪ openfds s) s);;
  mret nfd.
Definition newId : M nat := '(_, s) ← getS; onS (set_nextid (S (nextid s)));; mret (nextid s).

Definition loopAccept (e : evt) : M unit :=
  '(_, s) ← getS;
  match findLn (efd e) (lns s) with
  | None => mret ()
  | Some (i, ln) =>
      b ← takeTurn;
      if negb b then mret ()
      else if pconn ln then loopUDPRead i ln (recvfrom e)
      else
        match accept e with
        | AccErr x => if x =b EAGAIN then mret () else throw (SErr x)
        | AccOk hint from nonblock =>
            nfd ← newDescriptor hint;
            match nonblock with
            | Some x => throw (SErr x)
            | None =>
                id ← newId;
                '(l, _) ← getS;
                putConn (newConn id nfd (Z.of_nat i) from);;
                onL (set_poll (AddReadWrite nfd));;
                emit (TAccept (idx l) id);;
                addCount 1
            end
        end
  end.

Definition modReadIfDone (c : conn) : M unit :=
  when ((length (out c) =? 0)%nat && (action c =b None_)) (onL (set_poll (ModRead (fd c)))).

(** The listener of a connection, if it has one. *)
Definition listenerOf (c : conn) : M (option listener) :=
  '(_, s) ← getS;
  if 0 <=? lnidx c then
    match lns s !! Z.to_nat (lnidx c) with Some ln => mret (Some ln) | None => throw SPanic end
  else mret None.
Definition loopOpened (c : conn) : M unit :=
  ln ← listenerOf c;
  let c := set_opened (match ln with Some _ => lnidx c | None => addrIndex c end)
             (match ln with Some ln => Some (lnaddr ln) | None => localAddr c end)
             (Some (SockaddrToAddr ifname (sa c))) c in
  putConn c;;
  c ← match Opened events with
      | None => emit (TOpened (cid c) []);; mret c
      | Some f =>
          '(reply, opts, a) ← call (f c);
          emit (TOpened (cid c) reply);;
          let c := if (0 <? length reply)%nat then set_out reply c else c in
          let c := set_reuse (ReuseInputBuffer opts) (set_action a c) in
          putConn c;;
          (if (0 <? TCPKeepAlive opts) && bool_decide (ln = None) then throw SPanic else mret ());;
          mret c
      end;
  modReadIfDone c.

(** The flag that is returned is true on every path; an error is returned with it. *)
Definition loopWrite (c : conn) (w : wres) : M bool :=
  match w with
  | WErr e => if e =b EAGAIN then mret true else loopCloseConn c (Some e);; mret true
  | WOk n =>
      emit (TWrite (cid c) (take n (out c)));;
      let c := set_out (drop n (out c)) c in
      putConn c;;
      modReadIfDone c;;
      mret true
  end.

Definition loopAction (c : conn) (blocking : option err) : M unit :=
  match action c with
  | Close => loopCloseConn c None
  | Shutdown => throw (SErr errClosing)
  | Detach => loopDetachConn c None blocking
  | None_ => modReadIfDone c
  end.

(** A read up to the question whether there is more. *)
Definition readOnce (c : conn) (b : bytes) : M conn :=
  c ← match Data events with
      | None => emit (TData (cid c) b []);; mret c
      | Some f =>
          '(reply, a) ← call (f c b);
          emit (TData (cid c) b reply);;
          let c := set_action a c in
          let c := set_out (out c ++ reply) c in
          putConn c;;
          when (0 <? length reply)%nat (onL (set_poll (ModReadWrite (fd c))));;
          mret c
      end;
  when (negb (action c =b None_)) (onL (set_poll (ModReadWrite (fd c))));;
  mret c.
Fixpoint loopRead (rs : list rd) (c : conn) : M unit :=
  match rs with
  | [] => mret ()
  | RErr e :: _ => if e =b EAGAIN then mret () else loopCloseConn c (Some e)
  | RData b :: rs =>
      '(l, _) ← getS;
      let b := take (Z.to_nat (packetLen l)) b in
      if (length b =? 0)%nat then loopCloseConn c None
      else
        c ← readOnce c b;
        if zlen b <? packetLen l then mret () else loopRead rs c
  end.

(** ** A round of Wait *)

(** The function that loopRun hands to Wait: for a note, and for an event. *)
Definition iterNote (x : option note) : M unit :=
  match x with
  | Some (NConn c) =>
      '(l, _) ← getS;
      putConn c;;
      onL (set_poll (AddReadWrite (fd c)));;
      emit (TJoin (idx l) (cid c))
  | _ => loopNote x
  end.
Definition iter (e : evt) (event : Z) : M unit :=
  if efd e =? 0 then iterNote None
  else
    '(l, _) ← getS;
    match fdconns l !! efd e with
    | None => loopAccept e
    | Some c =>
        if negb (opened c) then loopOpened c
        else if negb (Z.land event PollEvent_Write =? 0) then
          sendFlag ← loopWrite c (write e);
          if negb sendFlag then loopRead (reads e) c else mret ()
        else if negb (action c =b None_) then loopAction c (blocking e)
        else loopRead (reads e) c
    end.
Fixpoint each {A} (f : A → M unit) (l : list A) : M unit :=
  match l with
  | [] => mret ()
  | x :: l => f x;; each f l
  end.
(** What EpollWait answers: an error, an interruption, or events. *)
Inductive epoll := EpErr (e : err) | EpIntr | EpOk (es : list evt).
Definition onEvent (e : evt) : M unit :=
  '(l, _) ← getS;
  if negb (efd e =? wfd (poll l)) then iter e (pollEvent (emask e)) else mret ().
Definition takeNotes : M (list note) := λ '(l, s),
  let '(ns, q) := ForEach (notes (poll l)) in (Ok ns, (set_poll (set_notes q) l, s)).
(** The notes that have come, and then the events. *)
Definition handle (es : list evt) : M unit :=
  ns ← takeNotes;
  each (λ x, iterNote (Some x)) ns;;
  each onEvent es.
Definition round (a : epoll) : M unit :=
  match a with
  | EpErr e => throw (SErr e)
  | EpIntr => handle []
  | EpOk es => handle es
  end.
End loop.
Arguments Events : clear implicits.
Arguments shared : clear implicits.

(** ** Opening the listeners *)

(** What the system answers to Listen or ListenPacket, and to File and SetNonblock. *)
Record bound := mkBound { listenErr : option err; bAddr : Addr; fileErr : option err; bFd : Z; nonblockErr : option err; bTCP : bool }.
(** [None]: not taken from the runtime, its descriptor is 0. *)
Definition system (b : bound) : option err * Z :=
  match fileErr b with
  | Some e => (Some e, 0)
  | None => (nonblockErr b, bFd b)
  end.
(** The loop of Serve and ServeAndReturn; with an error come the listeners that were
    opened before it. *)
Fixpoint openAll (addrs : list bytes) (bs_ : list bound) (stdlib : bool) (lns : list listener)
  : res (err * list listener) (list listener) :=
  match addrs, bs_ with
  | addr :: addrs, b :: bs_ =>
      let '(network, address, reusePort, stdlibt) := parseAddr addr in
      let stdlib := stdlib || stdlibt in
      match listenErr b with
      | Some e => Err (e, lns)
      | None =>
          let ln fd := mkListener fd (network =b bs "udp") (bTCP b && negb (network =b bs "udp")) (bAddr b) network address in
          if stdlib then openAll addrs bs_ stdlib (lns ++ [ln 0])
          else
            match system b with
            | (Some e, _) => Err (e, lns)
            | (None, fd) => openAll addrs bs_ stdlib (lns ++ [ln fd])
            end
      end
  | _, _ => Ok lns
  end.

(** What is closed with a listener: its descriptor, the file it belongs to, the listener
    and the packet connection; a socket file is removed. *)
Inductive closing := SysClose (fd : Z) | FileClose (fd : Z) | LnClose | PconnClose | RemoveAll (addr : bytes).
Definition listener_close (ln : listener) : list closing :=
  (if lfd ln =? 0 then [] else [SysClose (lfd ln)]) ++
  (if lfd ln =? 0 then [] else [FileClose (lfd ln)]) ++
  (if pconn ln then [PconnClose] else [LnClose]) ++
  (if lnetwork ln =b bs "unix" then [RemoveAll (laddr ln)] else []).

(** ** The server *)

Section server.
Context {U : Type} (ifname : Z → option bytes) (events : Events U).

(** serve: it has started the loops, waits for a signal, was signalled, waits for the
    loops to end, has stopped. *)
Inductive phase := Started | Waiting | Woken | Triggered | Stopped.
Record world := mkWorld { loops : list (loop * bool); sh : shared U; main : phase; stuck : option stop }.

Definition numLoops_of (numLoops cpus : Z) : Z :=
  if numLoops <=? 0 then (if numLoops =? 0 then 1 else cpus) else numLoops.
Definition newLoop (ls : list listener) (i : nat) (wfd : Z) : loop :=
  mkLoop i (foldl (λ p ln, AddRead (lfd ln) p) (OpenPoll wfd) ls) 0xFFFF ∅.
(** Serve up to its loops; [wfd i] is the descriptor that wakes up loop [i].  [None]: the
    function Serving has shut it down. *)
Definition serve (numLoops cpus : Z) (lb : LoadBalance) (ls : list listener) (wfd : nat → Z) (u : U) : option world :=
  let n := Z.to_nat (numLoops_of numLoops cpus) in
  let '(a, u) := match Serving events with Some f => f n u | None => (None_, u) end in
  if a =b Shutdown then None
  else Some (mkWorld ((λ i, (newLoop ls i (wfd i), true)) <$> seq 0 n)
    (mkShared ls lb (replicate n 0) 0 (list_to_set ((lfd <$> ls) ++ (wfd <$> seq 0 n))) 0 u
       (match Tick events with Some _ => TkReady | None => TkOff end) [])
    Started None).

(** signalShutdown: nobody is woken when serve does not wait yet. *)
Definition signalShutdown (p : phase) : phase := match p with Waiting => Woken | _ => p end.

Definition loopRound (i : nat) (a : epoll) (w : world) : option world :=
  match loops w !! i with
  | Some (l, true) =>
      match round ifname events a (l, sh w) with
      | (Ok _, (l, s)) => Some (mkWorld (<[i := (l, true)]> (loops w)) s (main w) (stuck w))
      | (Err (SErr _), (l, s)) => Some (mkWorld (<[i := (l, false)]> (loops w)) s (signalShutdown (main w)) (stuck w))
      | (Err x, (l, s)) => Some (mkWorld (<[i := (l, true)]> (loops w)) s (main w) (Some x))
      end
  | _ => None
  end.

(** loopTicker: it triggers a tick of the first loop, and waits for the delay. *)
Definition loopTicker (w : world) : option world :=
  match tch (sh w), loops w !! 0%nat with
  | TkReady, Some (l, b) =>
      if pollOpen (poll l)
      then Some (mkWorld (<[0%nat := (set_poll (Trigger NTick) l, b)]> (loops w)) (set_tch TkWait (sh w)) (main w) (stuck w))
      else Some (mkWorld (loops w) (set_tch TkOff (sh w)) (main w) (stuck w))
  | _, _ => None
  end.

(** The loop that outConnect chooses; [rnd] is what rand.Intn gives. *)
Fixpoint least (l : list Z) (i : nat) (minConn : Z) (best : nat) : nat :=
  match l with
  | [] => best
  | n :: l => if n <? minConn then least l (S i) n i else least l (S i) minConn best
  end.
Definition chooseLoop (rnd : nat) (s : shared U) : Z * shared U :=
  if (1 <? length (counts s))%nat then
    match balance s with
    | LeastConnections => (Z.of_nat (least (counts s) 0 0x7FFFFFFF 0), s)
    | RoundRobin =>
        let newCount := uint64 (accepted s + 1) in
        (Z.rem (int64 newCount) (zlen (counts s)), set_accepted newCount s)
    | Random => (Z.of_nat (rnd mod length (counts s)), s)
    end
  else (0, s).
(** The copy of the address, which is zero when there is none. *)
Definition inet4 (ip : bytes) (port : Z) : Sockaddr := SockaddrInet4 (take 4 (ip ++ drop (length ip) (replicate 4 Byte.x00))) port.
Definition outConnect (hint : Z) (ip : bytes) (port : Z) (connectErr : option err) (rnd : nat) (w : world) : world :=
  let s := sh w in
  let nfd := new_fd hint (openfds s) in
  let s := set_openfds ({[nfd]} ∪ openfds s) s in
  match connectErr with
  | Some _ => mkWorld (loops w) s (main w) (stuck w)
  | None =>
      let '(i, s) := chooseLoop rnd s in
      match (if i <? 0 then None else loops w !! Z.to_nat i) with
      | None => mkWorld (loops w) s (main w) (Some SPanic)
      | Some (l, b) =>
          let c := newConn (nextid s) nfd (-1) (inet4 ip port) in
          let l := set_poll (Trigger (NConn c)) (set_poll (AddRead nfd) l) in
          mkWorld (<[Z.to_nat i := (l, b)]> (loops w)) (set_nextid (S (nextid s)) s) (main w) (stuck w)
      end
  end.

(** The end of serve: the connections of a loop in the order of the iteration, which has
    all of them; what Closed answers is not looked at. *)
Fixpoint closeConns (order : list Z) (ls : loop * shared U) : loop * shared U :=
  match order with
  | [] => ls
  | k :: order =>
      closeConns order
        match fdconns ls.1 !! k with
        | Some c => (loopCloseConn events c None ls).2
        | None => ls
        end
  end.
Fixpoint closeLoops (orders : list (list Z)) (ls : list (loop * bool)) (s : shared U) : list (loop * bool) * shared U :=
  match ls, orders with
  | (l, b) :: ls, o :: orders =>
      let '(l, s) := closeConns o (l, s) in
      let '(ls, s) := closeLoops orders ls s in
      ((set_poll Poll_Close l, b) :: ls, s)
  | _, _ => ([], s)
  end.
Definition covers (orders : list (list Z)) (ls : list (loop * bool)) : bool :=
  (length orders =? length ls)%nat &&
  forallb (λ '((l, _), o), bool_decide (dom (fdconns l) ⊆ list_to_set o)) (zip ls orders).

Inductive act :=
| AWait
| ARound (i : nat) (a : epoll)
| ATick
| AConnect (hint : Z) (ip : bytes) (port : Z) (connectErr : option err) (rnd : nat)
| ATrigger
| AFinish (orders : list (list Z)).
Definition step (w : world) (x : act) : option world :=
  match stuck w with
  | Some SPanic => None
  | _ =>
      match x with
      | AWait => match main w with Started => Some (mkWorld (loops w) (sh w) Waiting (stuck w)) | _ => None end
      | ARound i a => loopRound i a w
      | ATick => loopTicker w
      | AConnect hint ip port e rnd => Some (outConnect hint ip port e rnd w)
      | ATrigger =>
          match main w with
          | Woken => Some (mkWorld (prod_map (set_poll (Trigger (NErr errClosing))) id <$> loops w) (sh w) Triggered (stuck w))
          | _ => None
          end
      | AFinish orders =>
          match main w with
          | Triggered =>
              if forallb (λ lb, negb lb.2) (loops w) && covers orders (loops w) then
                let '(ls, s) := closeLoops orders (loops w) (sh w) in
                Some (mkWorld ls (set_openfds (openfds s ∖ list_to_set (lfd <$> lns s)) s) Stopped (stuck w))
              else None
          | _ => None
          end
      end
  end.
Inductive run : world → list act → world → Prop :=
| run_done w : run w [] w
| run_step w x w1 xs w' : step w x = Some w1 → run w1 xs w' → run w (x :: xs) w'.
End server.
Arguments world : clear implicits.

(** ** Writing and detached connections *)

(** Send: on what the system answers to each Write; EAGAIN is tried again.  [None]: still
    waiting when the script is used up. *)
Fixpoint Send (script : list (nat + err)) (data : bytes) : option (option err) * bytes :=
  match data with
  | [] => (Some None, [])
  | _ =>
      match script with
      | [] => (None, [])
      | inr e :: script => if e =b EAGAIN then Send script data else (Some (Some e), [])
      | inl n :: script => let '(r, w) := Send script (drop n data) in (r, take n data ++ w)
      end
  end.
(** detachedConn.Read into [n] bytes; the error is io.EOF or of the system. *)
Definition detached_Read (n : nat) (r : bytes + err) : bytes * option (option err) :=
  match r with
  | inr e => ([], Some (Some e))
  | inl b => let b := take n b in
             if (length b =? 0)%nat then ([], if (n =? 0)%nat then None else Some None) else (b, None)
  end.
(** detachedConn.Write: the length that is returned, the error, and what was written. *)
Fixpoint detached_Write (n : nat) (script : list (nat + err)) (p : bytes) : option (nat * option err) * bytes :=
  match p with
  | [] => (Some (n, None), [])
  | _ =>
      match script with
      | [] => (None, [])
      | inr e :: _ => (Some (n, Some e), [])
      | inl k :: script => let '(r, w) := detached_Write n script (drop k p) in (r, take k p ++ w)
      end
  end.
Definition detached_Close (fd : Z) (e : option err) : option err * Z := match e with Some _ => (e, fd) | None => (None, -1) end.
