(* ===== verification/EvioFacts.v ===== *)
(** * The event loop: what holds in every run

    Invariants of the server of Evio.v, for any functions of the user, any answers of the
    system and any interleaving of its loops with serve, the ticker and outConnect.

    [Good] is about all connections there are at once, as a list: their descriptors and
    identities are different, and what the trace says about each of them fits its state.
    A handler works on the connections of its loop with the others as a frame, which is
    the list [R] of [FInv].  [Watch] says what the poll of a loop reports. *)
From stdpp Require Import gmap.
From S2P Require Import Prelude Headers Evio.
#[local] Open Scope Z_scope.

(** ** What a trace says about a connection *)

Inductive st := SNew | SOpen | SEnd.
#[export] Instance st_eq_dec : EqDecision st.
Proof. solve_decision. Defined.

Definition about (e : ev) : option nat :=
  match e with
  | TOpened k _ | TData k _ _ | TWrite k _ | TClosed k _ | TDetached k => Some k
  | _ => None
  end.
(** A connection is opened once and before anything else, and ends once; [None] is an
    event that has no place there. *)
Definition next (s : option st) (e : ev) : option st :=
  match e, s with
  | TOpened _ _, Some SNew => Some SOpen
  | (TData _ _ _ | TWrite _ _), Some SOpen => Some SOpen
  | (TClosed _ _ | TDetached _), Some (SNew | SOpen) => Some SEnd
  | _, _ => None
  end.
Definition reply_of (e : ev) : bytes := match e with TOpened _ r | TData _ _ r => r | _ => [] end.
Definition write_of (e : ev) : bytes := match e with TWrite _ b => b | _ => [] end.

Definition events_of (id : nat) (tr : list ev) : list ev := base.filter (λ e, about e = Some id) tr.
Definition stage (id : nat) (tr : list ev) : option st := foldl next (Some SNew) (events_of id tr).
Definition written (id : nat) (tr : list ev) : bytes := concat (write_of <$> events_of id tr).
Definition replied (id : nat) (tr : list ev) : bytes := concat (reply_of <$> events_of id tr).
Definition join_of (e : ev) : option nat := match e with TJoin j _ => Some j | _ => None end.
Definition joins (i : nat) (tr : list ev) : nat := length (base.filter (λ e, join_of e = Some i) tr).

#[local] Arguments AddReadWrite fd p : simpl never.
#[local] Arguments ModReadWrite fd p : simpl never.
#[local] Arguments ModRead fd p : simpl never.
#[local] Arguments new_fd hint open : simpl never.
#[global] Arguments joins i tr : simpl never.
#[global] Arguments stage id tr : simpl never.
#[global] Arguments written id tr : simpl never.
#[global] Arguments replied id tr : simpl never.
#[global] Arguments events_of id tr : simpl never.

Lemma events_of_same id tr e : about e = Some id → events_of id (tr ++ [e]) = events_of id tr ++ [e].
Proof. intros H. unfold events_of. rewrite list.filter_app. cbn. by rewrite decide_True. Qed.
Lemma events_of_other id tr e : about e ≠ Some id → events_of id (tr ++ [e]) = events_of id tr.
Proof. intros H. unfold events_of. rewrite list.filter_app. cbn. rewrite decide_False by done. by rewrite app_nil_r. Qed.
Lemma stage_event id tr e : about e = Some id → stage id (tr ++ [e]) = next (stage id tr) e.
Proof. intros H. unfold stage. rewrite events_of_same by done. by rewrite foldl_app. Qed.
Lemma written_same id tr e : about e = Some id → written id (tr ++ [e]) = written id tr ++ write_of e.
Proof. intros H. unfold written. rewrite events_of_same by done. rewrite fmap_app, concat_app. cbn. by rewrite app_nil_r. Qed.
Lemma replied_same id tr e : about e = Some id → replied id (tr ++ [e]) = replied id tr ++ reply_of e.
Proof. intros H. unfold replied. rewrite events_of_same by done. rewrite fmap_app, concat_app. cbn. by rewrite app_nil_r. Qed.

Record ConnOk (n : nat) (tr : list ev) (c : conn) : Prop := {
  co_stage : stage (cid c) tr = Some (if opened c then SOpen else SNew);
  co_bytes : written (cid c) tr ++ out c = replied (cid c) tr;
  co_new : opened c = false → out c = [] ∧ action c = None_;
  co_ln : lnidx c < Z.of_nat n }.

(** [nl] is the number of listeners, [F] their descriptors, [n] the next identity. *)
Record Good (nl : nat) (F open : gset Z) (n : nat) (tr : list ev) (L : list conn) : Prop := {
  g_fds : NoDup (fd <$> L);
  g_ids : NoDup (cid <$> L);
  g_open : Forall (λ c, fd c ∈ open) L;
  g_sep : F ⊆ open ∧ Forall (λ c, fd c ∉ F) L;
  g_lt : Forall (λ c, (cid c < n)%nat) L;
  g_ok : Forall (ConnOk nl tr) L;
  g_all id : is_Some (stage id tr) ∧ written id tr `prefix_of` replied id tr;
  g_new id : (n ≤ id)%nat → events_of id tr = [];
  g_end id : stage id tr = Some SOpen → id ∈ cid <$> L }.

Lemma good_perm nl F o n tr L L' : L ≡ₚ L' → Good nl F o n tr L → Good nl F o n tr L'.
Proof.
  intros HP [H1 H2 H3 [Hs1 Hs2] H4 H5 H6 H7 H8]. constructor; [by rewrite <- HP..|done|done|].
  intros id Hid. rewrite <- HP. auto.
Qed.

(** The connections but for one do not care for what happens to it. *)
Lemma ok_other nl tr e c : about e ≠ Some (cid c) → ConnOk nl tr c → ConnOk nl (tr ++ [e]) c.
Proof.
  intros He [H1 H2 H3 H4]. unfold stage, written, replied in *.
  constructor; unfold stage, written, replied; rewrite ?events_of_other; done.
Qed.
Lemma good_irrelevant nl F o n tr L e : about e = None → Good nl F o n tr L → Good nl F o n (tr ++ [e]) L.
Proof.
  intros He [H1 H2 H3 [Hs1 Hs2] H4 H5 H6 H7 H8].
  assert (Ho : ∀ id, events_of id (tr ++ [e]) = events_of id tr) by (intros id; apply events_of_other; congruence).
  unfold stage, written, replied in *. split; unfold stage, written, replied; try done.
  - eapply list.Forall_impl; [exact H5|]. intros c. apply ok_other. congruence.
  - intros id. rewrite Ho. auto.
  - intros id. rewrite Ho. auto.
  - intros id. rewrite Ho. auto.
Qed.
Lemma good_opens nl F o o' n tr L : o ⊆ o' → Good nl F o n tr L → Good nl F o' n tr L.
Proof.
  intros Ho [H1 H2 H3 [Hs1 Hs2] H4 H5 H6 H7 H8]. constructor; try done; [|set_solver]. eapply list.Forall_impl; [exact H3|]. intros c Hc. by apply Ho.
Qed.
(** A connection that was not opened is forgotten. *)
Lemma good_forget nl F o n tr c L : opened c = false → Good nl F o n tr (c :: L) → Good nl F o n tr L.
Proof.
  intros Hc [H1 H2 H3 [Hs1 Hs2] H4 H5 H6 H7 H8]. apply list.Forall_cons in H5 as [Hok H5].
  constructor; [by apply list.NoDup_cons in H1 as []|by apply list.NoDup_cons in H2 as []
    |by apply list.Forall_cons in H3 as []|by apply list.Forall_cons in Hs2 as []
    |by apply list.Forall_cons in H4 as []|done..|].
  intros id Hid. apply H8 in Hid as Hin. cbn in Hin. apply elem_of_cons in Hin as [->|Hin]; [|done].
  destruct Hok as [Hs _ _ _]. rewrite Hc in Hs. congruence.
Qed.
Lemma good_new nl F o n tr L fd lnidx sa : fd ∉ o → lnidx < Z.of_nat nl → Good nl F o n tr L →
  Good nl F ({[fd]} ∪ o) (S n) tr (newConn n fd lnidx sa :: L).
Proof.
  intros Hfd Hln [H1 H2 H3 [Hs1 Hs2] H4 H5 H6 H7 H8].
  assert (Hn : events_of n tr = []) by (apply H7; lia).
  constructor; cbn; try done.
  - apply list.NoDup_cons. split; [|done]. intros (c & -> & Hc)%list_elem_of_fmap. rewrite list.Forall_forall in H3. set_solver.
  - apply list.NoDup_cons. split; [|done]. intros (c & Hc1 & Hc)%list_elem_of_fmap. rewrite list.Forall_forall in H4.
    apply H4 in Hc. lia.
  - constructor; cbn; [set_solver|]. eapply list.Forall_impl; [exact H3|]. intros c Hc. cbn in *. set_solver.
  - split; [set_solver|]. constructor; cbn; [set_solver|done].
  - constructor; cbn; [lia|]. eapply list.Forall_impl; [exact H4|]. cbn. lia.
  - constructor; [|done]. unfold stage, written, replied. constructor; unfold stage, written, replied; cbn; rewrite ?Hn; done.
  - intros id Hid. apply H7. lia.
  - intros id Hid. apply elem_of_cons. right. by apply H8.
Qed.

Lemma about_others nl tr e c L : about e = Some (cid c) → NoDup (cid <$> c :: L) →
  Forall (ConnOk nl tr) L → Forall (ConnOk nl (tr ++ [e])) L.
Proof.
  intros He Hn HL. apply list.NoDup_cons in Hn as [Hn _]. rewrite list.Forall_forall in *. intros c2 Hc2.
  apply ok_other; [|auto]. rewrite He. intros [= E]. apply Hn. rewrite E. by apply list_elem_of_fmap_2.
Qed.
Lemma prefix_of_ok nl tr c : ConnOk nl tr c → is_Some (stage (cid c) tr) ∧ written (cid c) tr `prefix_of` replied (cid c) tr.
Proof. intros [H1 H2 _ _]. rewrite H1. split; [done|]. by exists (out c). Qed.
(** Something happens to a connection, and it stays. *)
Lemma good_step nl F o n tr e c c' L : about e = Some (cid c) → fd c' = fd c → cid c' = cid c →
  ConnOk nl (tr ++ [e]) c' → Good nl F o n tr (c :: L) → Good nl F o n (tr ++ [e]) (c' :: L).
Proof.
  intros He Hf Hi Hok [H1 H2 H3 [Hs1 Hs2] H4 H5 H6 H7 H8].
  assert (Ho : ∀ id, id ≠ cid c → events_of id (tr ++ [e]) = events_of id tr) by (intros id ?; apply events_of_other; congruence).
  apply list.Forall_cons in H3 as [H3 H3'], H4 as [H4 H4'], H5 as [H5 H5'], Hs2 as [Hs2 Hs2'].
  constructor; cbn; rewrite ?Hf, ?Hi; try done.
  - constructor; [by rewrite Hf|done].
  - split; [done|]. constructor; [by rewrite Hf|done].
  - constructor; [by rewrite Hi|done].
  - constructor; [done|]. by eapply about_others.
  - intros id. destruct (decide (id = cid c)) as [->|Hid]; [rewrite <- Hi; by eapply prefix_of_ok|].
    specialize (H6 id). unfold stage, written, replied in *. by rewrite Ho.
  - intros id Hid. rewrite Ho by lia. by apply H7.
  - intros id Hid. destruct (decide (id = cid c)) as [->|Hne]; [by left|]. apply H8. unfold stage in *. by rewrite Ho in Hid.
Qed.
(** A connection ends. *)
Lemma good_ends nl F o o' n tr e c L : about e = Some (cid c) → write_of e = [] → reply_of e = [] →
  (∀ s, next (Some s) e = match s with SEnd => None | _ => Some SEnd end) → o ∖ {[fd c]} ⊆ o' →
  Good nl F o n tr (c :: L) → Good nl F o' n (tr ++ [e]) L.
Proof.
  intros He Hw Hr Hn Ho' [H1 H2 H3 [Hs1 Hs2] H4 H5 H6 H7 H8].
  assert (Ho : ∀ id, id ≠ cid c → events_of id (tr ++ [e]) = events_of id tr) by (intros id ?; apply events_of_other; congruence).
  apply list.Forall_cons in H3 as [H3 H3'], H4 as [H4 H4'], H5 as [H5 H5'], Hs2 as [Hs2 Hs2'].
  assert (Hst : stage (cid c) (tr ++ [e]) = Some SEnd).
  { rewrite stage_event by done. rewrite (co_stage _ _ _ H5), Hn. by destruct (opened c). }
  constructor.
  - by apply list.NoDup_cons in H1 as [].
  - by apply list.NoDup_cons in H2 as [].
  - apply list.NoDup_cons in H1 as [Hn1 _]. rewrite list.Forall_forall in *. intros c2 Hc2. apply Ho'.
    apply elem_of_difference. split; [auto|]. intros E%elem_of_singleton. apply Hn1. rewrite <- E. by apply list_elem_of_fmap_2.
  - split; [set_solver|done].
  - done.
  - by eapply about_others.
  - intros id. destruct (decide (id = cid c)) as [->|Hid].
    + rewrite Hst, written_same, replied_same, Hw, Hr, !app_nil_r by done. split; [done|]. apply H6.
    + specialize (H6 id). unfold stage, written, replied in *. by rewrite Ho.
  - intros id Hid. rewrite Ho by lia. by apply H7.
  - intros id Hid. destruct (decide (id = cid c)) as [->|Hne]; [congruence|].
    unfold stage in *. rewrite Ho in Hid by done. apply H8 in Hid. apply elem_of_cons in Hid as [|]; done.
Qed.

(** ** A loop *)

Definition conns (m : gmap Z conn) : list conn := (map_to_list m).*2.
Lemma conns_delete m k c : m !! k = Some c → conns m ≡ₚ c :: conns (delete k m).
Proof. intros H. unfold conns. by rewrite <- (map_to_list_delete m k c H). Qed.
Lemma conns_insert m k c : m !! k = None → conns (<[k := c]> m) ≡ₚ c :: conns m.
Proof. intros H. unfold conns. by rewrite map_to_list_insert. Qed.
Lemma conns_update m k c c' : m !! k = Some c → conns (<[k := c']> m) ≡ₚ c' :: conns (delete k m).
Proof. intros H. rewrite <- insert_delete_eq. rewrite conns_insert; [done|apply lookup_delete_eq]. Qed.
Lemma elem_of_conns m c : c ∈ conns m ↔ ∃ k, m !! k = Some c.
Proof.
  unfold conns. rewrite list_elem_of_fmap. split.
  - intros ([k c'] & -> & H%elem_of_map_to_list). eauto.
  - intros (k & H%elem_of_map_to_list). by exists (k, c).
Qed.
Lemma count_add x d : int32 (int32 x + d) = int32 (x + d).
Proof.
  unfold int32, wrapS. f_equal. replace ((x + 2 ^ (32 - 1)) mod 2 ^ 32 - 2 ^ (32 - 1) + d + 2 ^ (32 - 1))
    with ((x + 2 ^ (32 - 1)) mod 2 ^ 32 + d) by lia.
  rewrite Zplus_mod_idemp_l. f_equal. lia.
Qed.

Definition pending (c : conn) : Prop := opened c = false ∨ out c ≠ [] ∨ action c ≠ None_.
Definition Watch (l : loop) : Prop := ∀ k c, fdconns l !! k = Some c →
  fd c = k ∧ ∃ m, interest (poll l) !! k = Some m ∧ (pending c → m = maskRW).

Section facts.
Context {U : Type} (ifname : Z → option bytes) (events : Events U) (F : gset Z).
Abbreviation State := (loop * shared U)%type.

Definition CountOk (l : loop) (s : shared U) : Prop :=
  counts s !! idx l = Some (int32 (Z.of_nat (size (fdconns l)) - Z.of_nat (joins (idx l) (trace s)))).
Definition GoodS (s : shared U) (L : list conn) : Prop :=
  Good (length (lns s)) F (openfds s) (nextid s) (trace s) L.
(** [R]: the connections that are not in the map of the loop. *)
Definition FInv (R : list conn) (ls : State) : Prop :=
  GoodS ls.2 (conns (fdconns ls.1) ++ R) ∧ Watch ls.1 ∧ CountOk ls.1 ls.2.
(** What a handler leaves alone. *)
Record Fr (ls ls' : State) : Prop := {
  fr_idx : idx ls'.1 = idx ls.1;
  fr_notes : notes (poll ls'.1) = notes (poll ls.1);
  fr_len : packetLen ls'.1 = packetLen ls.1;
  fr_lns : lns ls'.2 = lns ls.2;
  fr_tch : tch ls'.2 = tch ls.2;
  fr_counts : length (counts ls'.2) = length (counts ls.2);
  fr_others j : j ≠ idx ls.1 → counts ls'.2 !! j = counts ls.2 !! j ∧ joins j (trace ls'.2) = joins j (trace ls.2) }.
#[local] Instance Fr_pre : PreOrder Fr.
Proof.
  split; [by constructor|]. intros a b c [A1 A2 A3 A4 A5 A6 A7] [B1 B2 B3 B4 B5 B6 B7].
  constructor; try congruence. intros j Hj. rewrite A1 in B7.
  destruct (B7 j Hj) as [-> ->]. by apply A7.
Qed.
Definition keeps {A} (R : list conn) (ls : State) (o : res stop A * State) : Prop :=
  FInv R o.2 ∧ Fr ls o.2 ∧ o.1 ≠ Err SBlock.

Lemma joins_other i tr e : join_of e ≠ Some i → joins i (tr ++ [e]) = joins i tr.
Proof. intros H. unfold joins. rewrite list.filter_app. cbn. rewrite decide_False by done. by rewrite app_nil_r. Qed.
Lemma joins_same i tr e : join_of e = Some i → joins i (tr ++ [e]) = S (joins i tr).
Proof. intros H. unfold joins. rewrite list.filter_app. cbn. rewrite decide_True by done. rewrite length_app. cbn. lia. Qed.

(** The state after a connection was taken off. *)
Definition gone (c : conn) (e : ev) (o : gset Z) (ls : State) : State :=
  (set_poll (λ p, set_interest (delete (fd c) (interest p)) p) (set_fdconns (delete (fd c)) ls.1),
   log e (set_openfds o (set_counts (alter (λ n, int32 (n + -1)) (idx ls.1) (counts ls.2)) ls.2))).

Lemma gone_keeps R c e o ls : FInv R ls → fdconns ls.1 !! fd c = Some c → about e = Some (cid c) →
  write_of e = [] → reply_of e = [] → join_of e = None →
  (∀ s, next (Some s) e = match s with SEnd => None | _ => Some SEnd end) → openfds ls.2 ∖ {[fd c]} ⊆ o →
  FInv R (gone c e o ls) ∧ Fr ls (gone c e o ls).
Proof.
  destruct ls as [l s]. intros (HG & HW & HC) Hc He Hw Hr Hj Hn Ho. cbn in *. split; [split_and!|].
  - unfold GoodS, gone in *. cbn in *. eapply (good_ends _ _ _ _ _ _ e c); [done..|].
    eapply good_perm; [|exact HG]. by rewrite (conns_delete _ _ _ Hc).
  - intros k c' Hk. cbn in *. apply lookup_delete_Some in Hk as [Hne Hk]. rewrite lookup_delete_ne by done. by apply HW.
  - unfold CountOk, gone in *. cbn in *.
    rewrite joins_other by congruence. rewrite list_lookup_alter_eq, HC. cbn.
    rewrite count_add. do 2 f_equal. assert (size (fdconns l) ≠ 0%nat) by (intros E; apply map_size_empty_inv in E; by rewrite E in Hc).
    rewrite (map_size_delete_Some (fd c)) by (by eexists). lia.
  - unfold gone. constructor; cbn; try done; [by rewrite length_alter|]. intros j Hij. rewrite joins_other by congruence.
    by rewrite list_lookup_alter_ne.
Qed.

Lemma bind_ok {A B} (m : @M U A) (f : A → M B) ls a ls' : m ls = (Ok a, ls') → (m ≫= f) ls = f a ls'.
Proof. intros H. unfold mbind, stM_bind. by rewrite H. Qed.
Lemma bind_assoc {A B C} (m : @M U A) (f : A → M B) (g : B → M C) ls :
  ((m ≫= f) ≫= g) ls = (m ≫= (λ a, f a ≫= g)) ls.
Proof. unfold mbind, stM_bind. by destruct (m ls) as [[]]. Qed.

(** A function of the user changes its own state only. *)
Lemma call_keeps {A} R ls (f : U → A * U) (g : A → M unit) :
  FInv R ls → (∀ a ls', FInv R ls' → Fr ls ls' → fdconns ls'.1 = fdconns ls.1 → poll ls'.1 = poll ls.1 → keeps R ls (g a ls')) →
  keeps R ls ((call f ≫= g) ls).
Proof.
  destruct ls as [l s]. intros HF Hg. unfold call, mbind, stM_bind. destruct (f (user s)) as [a u].
  apply Hg; [done|by constructor|done|done].
Qed.
Lemma shutdownIf_keeps R ls ls' a : FInv R ls' → Fr ls ls' → keeps R ls (shutdownIf (U := U) a ls').
Proof. intros HF Hr. unfold shutdownIf. by destruct a. Qed.

Lemma loopCloseConn_eq c e ls : loopCloseConn events c e ls =
  (match Closed events with None => mret () | Some f => a ← call (f c e); shutdownIf a end : M unit)
    (gone c (TClosed (cid c) e) (openfds ls.2 ∖ {[fd c]}) ls).
Proof. by destruct ls as [l s]. Qed.
Lemma loopCloseConn_keeps R c e ls : FInv R ls → fdconns ls.1 !! fd c = Some c →
  keeps R ls (loopCloseConn events c e ls).
Proof.
  intros HF Hc. rewrite loopCloseConn_eq.
  destruct (gone_keeps R c (TClosed (cid c) e) (openfds ls.2 ∖ {[fd c]}) ls) as [H1 H2]; try done.
  destruct (Closed events) as [f|]; [|done].
  edestruct (call_keeps R _ (f c e) shutdownIf H1) as (H3 & H4 & H5).
  { intros a ls' HF' Hr' _ _. by apply shutdownIf_keeps. }
  split_and!; [done|by etrans|done].
Qed.
Lemma loopDetachConn_eq f c e b l s : Detached events = Some f → loopDetachConn events c e b (l, s) =
  (match b with Some e => throw (SErr e) | None => a ← call (f c (fd c)); shutdownIf a end : M unit)
    (set_fdconns (delete (fd c)) (set_poll (ModDetach (fd c)) l),
     log (TDetached (cid c)) (set_counts (alter (λ n, int32 (n + -1)) (idx l) (counts s)) s)).
Proof. intros Ef. unfold loopDetachConn. rewrite Ef. reflexivity. Qed.
Lemma loopDetachConn_keeps R c e b ls : FInv R ls → fdconns ls.1 !! fd c = Some c →
  keeps R ls (loopDetachConn events c e b ls).
Proof.
  intros HF Hc. destruct (Detached events) as [f|] eqn:Ef.
  2:{ unfold loopDetachConn. rewrite Ef. by apply loopCloseConn_keeps. }
  destruct ls as [l s]. rewrite (loopDetachConn_eq f) by done.
  destruct (gone_keeps R c (TDetached (cid c)) (openfds s) (l, s)) as [H1 H2]; try done; [cbn; set_solver|].
  assert (He : gone c (TDetached (cid c)) (openfds s) (l, s) =
    (set_fdconns (delete (fd c)) (set_poll (ModDetach (fd c)) l),
     log (TDetached (cid c)) (set_counts (alter (λ n, int32 (n + -1)) (idx l) (counts s)) s))).
  { unfold gone. cbn. f_equal. unfold set_poll, set_fdconns. cbn. f_equal. unfold ModDetach, epoll_del.
    destruct HF as (_ & HW & _). apply HW in Hc as (_ & m & Hm & _). cbn in Hm. by rewrite Hm. }
  rewrite <- He. destruct b as [x|]; [done|].
  edestruct (call_keeps R _ (f c (fd c)) shutdownIf H1) as (H3 & H4 & H5).
  { intros a ls' HF' Hr' _ _. by apply shutdownIf_keeps. }
  split_and!; [done|by etrans|done].
Qed.

(** ** New connections *)

Lemma AddReadWrite_interest k p : AddReadWrite k p = set_interest (<[k := maskRW]> (interest p)) p.
Proof. unfold AddReadWrite, ModReadWrite, epoll_add, epoll_mod. by destruct (interest p !! k) eqn:E; rewrite ?E. Qed.
Lemma new_fd_fresh h (o : gset Z) : new_fd h o ∉ o.
Proof. unfold new_fd. case_bool_decide; [apply is_fresh|done]. Qed.

Lemma born R c l s' : GoodS s' (c :: conns (fdconns l) ++ R) → Watch l → fdconns l !! fd c = None →
  counts s' !! idx l = Some (int32 (Z.of_nat (S (size (fdconns l))) - Z.of_nat (joins (idx l) (trace s')))) →
  FInv R (set_poll (AddReadWrite (fd c)) (set_fdconns <[fd c := c]> l), s').
Proof.
  intros HG HW Hn HC. split_and!; cbn.
  - eapply good_perm; [|exact HG]. by rewrite conns_insert.
  - intros k c' Hk. cbn in *. rewrite AddReadWrite_interest. cbn. apply lookup_insert_Some in Hk as [[<- <-]|[Hne Hk]].
    + rewrite lookup_insert_eq. split; [done|]. by eexists.
    + rewrite lookup_insert_ne by done. by apply HW.
  - unfold CountOk. cbn. by rewrite map_size_insert_None.
Qed.
(** Its descriptor is not in the map. *)
Lemma not_there s l R c : GoodS s (c :: conns (fdconns l) ++ R) → Watch l → fdconns l !! fd c = None.
Proof.
  intros HG HW. destruct (fdconns l !! fd c) as [c'|] eqn:E; [|done].
  apply HW in E as Hf. destruct Hf as [Hf _]. pose proof (g_fds _ _ _ _ _ _ HG) as Hn. cbn in Hn.
  apply list.NoDup_cons in Hn as [Hn _]. exfalso. apply Hn. rewrite <- Hf. apply list_elem_of_fmap_2.
  apply elem_of_app. left. apply elem_of_conns. eauto.
Qed.

(** A connection that was waiting in a note. *)
Lemma join_keeps R c ls : FInv (c :: R) ls → opened c = false → keeps R ls (iterNote events (Some (NConn c)) ls).
Proof.
  destruct ls as [l s]. intros (HG & HW & HC) Ho. unfold GoodS, CountOk in *. cbn in HG, HW, HC.
  assert (HG' : Good (length (lns s)) F (openfds s) (nextid s) (trace s) (c :: conns (fdconns l) ++ R)).
  { eapply good_perm; [|exact HG]. by rewrite Permutation_middle. }
  apply (good_irrelevant _ _ _ _ _ _ (TJoin (idx l) (cid c))) in HG'; [|done].
  change (iterNote events (Some (NConn c)) (l, s)) with (Ok (E := stop) tt,
    (set_poll (AddReadWrite (fd c)) (set_fdconns <[fd c := c]> l), log (TJoin (idx l) (cid c)) s)).
  split_and!; [|constructor; try done|done].
  - apply (born R c l (log (TJoin (idx l) (cid c)) s)); [done|done|by eapply (not_there (log (TJoin (idx l) (cid c)) s))|].
    cbn. rewrite HC, joins_same by done. do 2 f_equal. lia.
  - cbn. by rewrite AddReadWrite_interest.
  - intros j Hj. cbn. split; [done|]. apply joins_other. cbn in *. congruence.
Qed.

Lemma takes_same l (s s' : shared U) b : takes l s = (b, s') → s' = s ∨ ∃ x, s' = set_accepted x s.
Proof.
  unfold takes. destruct (1 <? length (counts s))%nat; [|intros [= _ <-]; by left].
  destruct (balance s); [|intros [= _ <-]; by left..].
  destruct (_ =? _); intros [= _ <-]; [right; by eexists|by left].
Qed.
Lemma findLn_lt fd ls i ln : findLn fd ls = Some (i, ln) → (i < length ls)%nat.
Proof. unfold findLn. intros (H & _)%list_find_Some. by apply lookup_lt_Some in H. Qed.

Lemma loopUDPRead_keeps R i ln r ls : FInv R ls → keeps R ls (loopUDPRead ifname events i ln r ls).
Proof.
  intros HF. unfold loopUDPRead. destruct r as [[[|x b] from]|]; [done| |done].
  destruct (Data events) as [f|]; [|done]. destruct ls as [l s]. unfold getS, mbind at 1, stM_bind at 1. cbn beta iota zeta.
  apply call_keeps; [done|]. intros [reply a] [l' s'] (HG & HW & HC) Hr _ _. cbn. apply shutdownIf_keeps.
  - split_and!; [by apply good_irrelevant|done|]. unfold CountOk in *. cbn in *. by rewrite joins_other.
  - destruct Hr as [A1 A2 A3 A4 A5 A6 A7]. constructor; cbn in *; try done. intros j Hj. rewrite joins_other by done. by apply A7.
Qed.
Lemma loopAccept_keeps R e ls : FInv R ls → keeps R ls (loopAccept ifname events e ls).
Proof.
  destruct ls as [l s]. intros HF. unfold loopAccept, getS. unfold mbind at 1, stM_bind at 1. cbn beta iota zeta.
  destruct (findLn (efd e) (lns s)) as [[i ln]|] eqn:Ef; [|done].
  unfold takeTurn. unfold mbind at 1, stM_bind at 1. destruct (takes l s) as [b s1] eqn:Et. apply takes_same in Et.
  assert (HF1 : FInv R (l, s1) ∧ Fr (l, s) (l, s1) ∧ lns s1 = lns s).
  { destruct Et as [->|(x & ->)]; [done|]. by split_and!. }
  destruct HF1 as (HF1 & Hr1 & Hl). clear Et. destruct (negb b); [done|]. destruct (pconn ln).
  { destruct (loopUDPRead_keeps R i ln (recvfrom e) (l, s1) HF1) as (H1 & H2 & H3). split_and!; [done|by etrans|done]. }
  destruct (accept e) as [x|hint from nb]; [by case_bool_decide|].
  destruct HF1 as (HG & HW & HC). cbn in HG, HW, HC. pose proof (new_fd_fresh hint (openfds s1)) as Hfr.
  set (nfd := new_fd hint (openfds s1)) in *. destruct nb as [x|].
  - change (keeps (A := unit) R (l, s) (Err (SErr x), (l, set_openfds ({[nfd]} ∪ openfds s1) s1))).
    split_and!; [split_and!; [|done|done]|etrans; [exact Hr1|]; by constructor|done].
    eapply good_opens; [|exact HG]. set_solver.
  - unfold GoodS in HG. rewrite Hl in HG. apply findLn_lt in Ef.
    apply (good_new _ _ _ _ _ _ nfd (Z.of_nat i) from Hfr) in HG; [|lia].
    apply (good_irrelevant _ _ _ _ _ _ (TAccept (idx l) (nextid s1))) in HG; [|done].
    set (s2 := set_counts (alter (λ n, int32 (n + 1)) (idx l) (counts s1)) (log (TAccept (idx l) (nextid s1))
       (set_nextid (S (nextid s1)) (set_openfds ({[nfd]} ∪ openfds s1) s1)))).
    assert (HG2 : GoodS s2 (newConn (nextid s1) nfd (Z.of_nat i) from :: conns (fdconns l) ++ R)).
    { unfold GoodS. cbn. by rewrite Hl. }
    change (keeps R (l, s) (Ok tt, (set_poll (AddReadWrite nfd) (set_fdconns <[nfd := newConn (nextid s1) nfd (Z.of_nat i) from]> l), s2))).
    split_and!; [|etrans; [exact Hr1|]; constructor; try done|done].
    + apply (born R (newConn (nextid s1) nfd (Z.of_nat i) from) l s2); [done|done|by eapply (not_there s2)|].
      unfold s2. cbn. rewrite joins_other by done. rewrite list_lookup_alter_eq, HC. cbn. rewrite count_add. do 2 f_equal. lia.
    + cbn. by rewrite AddReadWrite_interest.
    + cbn. by rewrite length_alter.
    + intros j Hj. cbn in *. by rewrite joins_other, list_lookup_alter_ne by done.
Qed.

(** ** A connection that stays *)

Definition upd (c' : conn) (f : Poll → Poll) (e : ev) (ls : State) : State :=
  (set_poll f (set_fdconns <[fd c' := c']> ls.1), log e ls.2).
(** The poll with the mask of one descriptor set. *)
Definition masks (k m : Z) (p p' : Poll) : Prop := interest p' = <[k := m]> (interest p) ∧ notes p' = notes p.
Lemma masks_id l k c : Watch l → fdconns l !! k = Some c →
  ∃ m, masks k m (poll l) (poll l) ∧ (pending c → m = maskRW).
Proof. intros HW Hc. apply HW in Hc as (_ & m & Hm & Hp). exists m. split; [|done]. split; [|done]. by rewrite insert_id. Qed.
Lemma masks_ModRead l k c : Watch l → fdconns l !! k = Some c → masks k maskR (poll l) (ModRead k (poll l)).
Proof. intros HW Hc. apply HW in Hc as (_ & m & Hm & _). unfold ModRead, epoll_mod. by rewrite Hm. Qed.
Lemma masks_ModReadWrite l k c : Watch l → fdconns l !! k = Some c → masks k maskRW (poll l) (ModReadWrite k (poll l)).
Proof. intros HW Hc. apply HW in Hc as (_ & m & Hm & _). unfold ModReadWrite, epoll_mod. by rewrite Hm. Qed.

Lemma upd_keeps R c c' f e m ls : FInv R ls → fdconns ls.1 !! fd c = Some c → fd c' = fd c → cid c' = cid c →
  about e = Some (cid c) → join_of e = None → ConnOk (length (lns ls.2)) (trace ls.2 ++ [e]) c' →
  masks (fd c) m (poll ls.1) (f (poll ls.1)) → (pending c' → m = maskRW) →
  FInv R (upd c' f e ls) ∧ Fr ls (upd c' f e ls) ∧ fdconns (upd c' f e ls).1 !! fd c' = Some c'.
Proof.
  destruct ls as [l s]. intros (HG & HW & HC) Hc Hf Hi He Hj Hok [Hm Hnt] Hp. unfold upd. cbn in *.
  split_and!; [split_and!|constructor; try done|apply lookup_insert_eq]; cbn.
  - unfold GoodS in *. cbn. eapply good_perm; [|eapply (good_step _ _ _ _ _ e c c' (conns (delete (fd c) (fdconns l)) ++ R))]; [|done..|].
    + rewrite Hf. by rewrite (conns_update _ _ c).
    + eapply good_perm; [|exact HG]. by rewrite (conns_delete _ _ _ Hc).
  - intros k c2. cbn. rewrite Hm, Hf. intros [[<- <-]|[Hne Hk]]%lookup_insert_Some.
    + rewrite lookup_insert_eq. split; [done|]. by eexists.
    + rewrite lookup_insert_ne by done. by apply HW.
  - unfold CountOk in *. cbn. rewrite joins_other by congruence. rewrite map_size_insert_Some; [done|]. rewrite Hf. by eexists.
  - intros j Hne. cbn. by rewrite joins_other by congruence.
Qed.

Lemma good_conn R l s c : FInv R (l, s) → fdconns l !! fd c = Some c → ConnOk (length (lns s)) (trace s) c.
Proof.
  intros (HG & _ & _) Hc. pose proof (g_ok _ _ _ _ _ _ HG) as H. rewrite list.Forall_forall in H. apply H.
  apply elem_of_app. left. apply elem_of_conns. eauto.
Qed.

(** What modReadIfDone does to the poll. *)
Definition doneMask (c : conn) (p : Poll) : Poll :=
  if (length (out c) =? 0)%nat && (action c =b None_) then ModRead (fd c) p else p.
Lemma doneMask_ok l c c' : Watch l → fdconns l !! fd c = Some c → fd c' = fd c → opened c' = true →
  (out c' ≠ [] ∨ action c' ≠ None_ → pending c) →
  ∃ m, masks (fd c) m (poll l) (doneMask c' (poll l)) ∧ (pending c' → m = maskRW).
Proof.
  intros HW Hc Hf Ho Hp. unfold doneMask. destruct (_ && _) eqn:E.
  - apply andb_true_iff in E as [E1%Nat.eqb_eq E2%bool_decide_eq_true]. apply length_zero_iff_nil in E1.
    exists maskR. rewrite Hf. split; [by eapply masks_ModRead|]. intros [|[|]]; congruence.
  - destruct (masks_id l (fd c) c HW Hc) as (m & Hm & Hpm). exists m. split; [done|]. intros [|H]; [congruence|]. auto.
Qed.
Lemma modReadIfDone_eq c (l : loop) (s : shared U) : modReadIfDone c (l, s) = (Ok tt, (set_poll (doneMask c) l, s)).
Proof.
  unfold modReadIfDone, when, doneMask. destruct (_ && _); [done|]. by destruct l.
Qed.

Lemma loopWrite_keeps R c w ls : FInv R ls → fdconns ls.1 !! fd c = Some c → opened c = true →
  keeps R ls (loopWrite events c w ls).
Proof.
  destruct ls as [l s]. intros HF Hc Ho. unfold loopWrite. destruct w as [n|x].
  - change (keeps R (l, s) ((modReadIfDone (set_out (drop n (out c)) c);; mret true)
      (set_fdconns <[fd c := set_out (drop n (out c)) c]> l, log (TWrite (cid c) (take n (out c))) s))).
    unfold mbind at 1, stM_bind at 1. rewrite modReadIfDone_eq.
    set (c' := set_out _ _). pose proof (good_conn _ _ _ _ HF Hc) as [H1 H2 H3 H4].
    destruct (doneMask_ok l c c') as (m & Hm & Hp); [apply HF|done..| |].
    { intros [H|H]; right; [left|by right]. intros E. apply H. cbn. by rewrite E, drop_nil. }
    destruct (upd_keeps R c c' (doneMask c') (TWrite (cid c) (take n (out c))) m (l, s)) as (HF' & Hr & _); try done.
    constructor; cbn; rewrite ?stage_event, ?written_same, ?replied_same by done; [by rewrite H1, Ho| |congruence|done].
    cbn. by rewrite <- app_assoc, take_drop, app_nil_r.
  - case_bool_decide; [done|]. pose proof (loopCloseConn_keeps R c (Some x) (l, s) HF Hc) as Hk.
    revert Hk. unfold mbind, stM_bind, keeps. destruct (loopCloseConn events c (Some x) (l, s)) as [[[]|y] ls'];
      cbn; intros (H1 & H2 & H3); split_and!; [done|done|congruence|done|done|congruence].
Qed.

(** The first event of a connection: [c'] is what has become of it. *)
Lemma opens_keeps R c c' f reply l s u : FInv R (l, s) → fdconns l !! fd c = Some c → opened c = false →
  fd c' = fd c → cid c' = cid c → opened c' = true → out c' = reply → lnidx c' = lnidx c → (f = id ∨ f = doneMask c') →
  FInv R (upd c' f (TOpened (cid c) reply) (l, set_user u s)) ∧
  Fr (l, s) (upd c' f (TOpened (cid c) reply) (l, set_user u s)).
Proof.
  intros HF Hc Ho Hf Hi Ho' Hr Hl Hfn. pose proof (good_conn _ _ _ _ HF Hc) as [H1 H2 H3 H4]. destruct (H3 Ho) as [He Ha].
  assert (Hm : ∃ m, masks (fd c) m (poll l) (f (poll l)) ∧ (pending c' → m = maskRW)).
  { destruct Hfn as [->| ->].
    - destruct (masks_id l (fd c) c) as (m & Hm & Hp); [apply HF|done|]. exists m. split; [done|]. intros _. apply Hp. by left.
    - eapply doneMask_ok; try done; [apply HF|]. intros _. by left. }
  destruct Hm as (m & Hm & Hp).
  destruct (upd_keeps R c c' f (TOpened (cid c) reply) m (l, set_user u s)) as (HF' & Hr' & _); try done; [|].
  - constructor; cbn; rewrite ?Hi, ?stage_event, ?written_same, ?replied_same by done; [by rewrite H1, Ho, Ho'| |congruence|by rewrite Hl].
    cbn. rewrite app_nil_r, Hr. rewrite <- H2, He. by rewrite app_nil_r.
  - split; [done|]. etrans; [|exact Hr']. by constructor.
Qed.
Lemma loopOpened_keeps R c ls : FInv R ls → fdconns ls.1 !! fd c = Some c → opened c = false →
  keeps R ls (loopOpened ifname events c ls).
Proof.
  destruct ls as [l s]. intros HF Hc Ho. pose proof (good_conn _ _ _ _ HF Hc) as [_ _ Hn Hlt]. destruct (Hn Ho) as [Hout _].
  assert (Hln : ∃ ln, listenerOf c (l, s) = (Ok ln, (l, s))).
  { unfold listenerOf, getS, mbind, stM_bind. destruct (0 <=? lnidx c) eqn:E; [|by eexists].
    destruct (lookup_lt_is_Some_2 (lns s) (Z.to_nat (lnidx c))) as [ln ->]; [lia|by eexists]. }
  destruct Hln as [ln Hln]. unfold loopOpened. rewrite (bind_ok _ _ _ _ _ Hln). cbv beta zeta. set (c1 := set_opened _ _ _ c).
  rewrite (bind_ok _ _ _ tt (set_fdconns <[fd c1 := c1]> l, s)) by done. destruct (Opened events) as [f|].
  - rewrite bind_assoc. destruct (f c1 (user s)) as [[[reply opts] a] u] eqn:Ef.
    rewrite (bind_ok _ _ _ (reply, opts, a) (set_fdconns <[fd c1 := c1]> l, set_user u s)) by (unfold call; by rewrite Ef).
    cbn beta iota zeta. rewrite bind_assoc. erewrite bind_ok by done. set (c2 := set_reuse _ _).
    assert (E2 : fd c2 = fd c ∧ cid c2 = cid c ∧ opened c2 = true ∧ out c2 = reply ∧ lnidx c2 = lnidx c).
    { unfold c2. cbn. destruct reply; cbn; split_and!; done. }
    destruct E2 as (E1 & E2 & E3 & E4 & E5).
    assert (Est : putConn c2 (set_fdconns <[fd c1 := c1]> l, log (TOpened (cid c1) reply) (set_user u s)) =
      (Ok (E := stop) tt, upd c2 id (TOpened (cid c) reply) (l, set_user u s))).
    { unfold putConn, onL, upd, set_poll, set_fdconns. cbn [idx poll packetLen fdconns fst snd].
      rewrite E1. change (fd c1) with (fd c). by rewrite insert_insert_eq. }
    rewrite bind_assoc, (bind_ok _ _ _ _ _ Est), bind_assoc. destruct (_ && _).
    + destruct (opens_keeps R c c2 id reply l s u) as [H1 H2]; [first [done|by left|by right]..|]. by split_and!.
    + rewrite (bind_ok _ _ _ tt (upd c2 id (TOpened (cid c) reply) (l, set_user u s))) by done.
      rewrite (bind_ok _ _ _ c2 (upd c2 id (TOpened (cid c) reply) (l, set_user u s))) by done.
      unfold upd. rewrite modReadIfDone_eq.
      destruct (opens_keeps R c c2 (doneMask c2) reply l s u) as [H1 H2]; [first [done|by left|by right]..|]. by split_and!.
  - change (keeps R (l, s) (modReadIfDone c1 (upd c1 id (TOpened (cid c) []) (l, set_user (user s) s)))).
    unfold upd. rewrite modReadIfDone_eq.
    destruct (opens_keeps R c c1 (doneMask c1) [] l s (user s)) as [H1 H2]; [first [done|by left|by right]..|]. by split_and!.
Qed.

(** What loopRead does to the poll. *)
Definition readMask (reply : bytes) (c : conn) (p : Poll) : Poll :=
  let p := if (0 <? length reply)%nat then ModReadWrite (fd c) p else p in
  if negb (action c =b None_) then ModReadWrite (fd c) p else p.
Lemma readMask_ok l c c' reply : Watch l → fdconns l !! fd c = Some c → fd c' = fd c → opened c' = opened c →
  out c' = out c ++ reply → ∃ m, masks (fd c) m (poll l) (readMask reply c' (poll l)) ∧ (pending c' → m = maskRW).
Proof.
  intros HW Hc Hf Ho Hout. unfold readMask. rewrite Hf.
  pose proof (masks_ModReadWrite l (fd c) c HW Hc) as Hrw. destruct (masks_id l (fd c) c HW Hc) as (m & Hm & Hp).
  assert (Hrw2 : masks (fd c) maskRW (poll l) (ModReadWrite (fd c) (ModReadWrite (fd c) (poll l)))).
  { destruct Hrw as [H1 H2]. unfold ModReadWrite at 1, epoll_mod. rewrite H1, lookup_insert_eq. cbn.
    split; [by rewrite insert_insert_eq|done]. }
  destruct (0 <? length reply)%nat eqn:El; destruct (negb (action c' =b None_)) eqn:Ea; [by exists maskRW..|].
  exists m. split; [done|]. intros Hpc. apply Hp. unfold pending in *. apply negb_false_iff, bool_decide_eq_true in Ea.
  apply Nat.ltb_ge in El. assert (reply = []) as -> by (destruct reply; [done|cbn in El; lia]).
  rewrite app_nil_r in Hout. rewrite Ho, Hout in Hpc. destruct Hpc as [|[|]]; auto; congruence.
Qed.

(** One read of a connection. *)
Lemma reads_keeps R c c' b reply l s u : FInv R (l, s) → fdconns l !! fd c = Some c → opened c = true →
  fd c' = fd c → cid c' = cid c → opened c' = true → out c' = out c ++ reply → lnidx c' = lnidx c →
  let ls' := upd c' (readMask reply c') (TData (cid c) b reply) (l, set_user u s) in
  FInv R ls' ∧ Fr (l, s) ls' ∧ fdconns ls'.1 !! fd c' = Some c'.
Proof.
  intros HF Hc Ho Hf Hi Ho' Hout Hl. cbv zeta. pose proof (good_conn _ _ _ _ HF Hc) as [H1 H2 H3 H4].
  destruct (readMask_ok l c c' reply) as (m & Hm & Hp); [apply HF|congruence..|].
  destruct (upd_keeps R c c' (readMask reply c') (TData (cid c) b reply) m (l, set_user u s)) as (HF' & Hr' & Hc'); try done.
  - constructor; cbn; rewrite ?Hi, ?stage_event, ?written_same, ?replied_same by done; [by rewrite H1, Ho, Ho'| |congruence|by rewrite Hl].
    cbn. by rewrite app_nil_r, Hout, app_assoc, H2.
  - split_and!; [done| |done]. etrans; [|exact Hr']. by constructor.
Qed.
Lemma readOnce_eq c b l s : fdconns l !! fd c = Some c → ∃ c' reply u,
  readOnce events c b (l, s) = (Ok c', upd c' (readMask reply c') (TData (cid c) b reply) (l, set_user u s)) ∧
  fd c' = fd c ∧ cid c' = cid c ∧ opened c' = opened c ∧ out c' = out c ++ reply ∧ lnidx c' = lnidx c.
Proof.
  intros Hc. unfold readOnce. destruct (Data events) as [f|].
  - destruct (f c b (user s)) as [[reply a] u] eqn:Ef. set (c' := set_out (out c ++ reply) (set_action a c)).
    exists c', reply, u. split; [|done]. rewrite bind_assoc.
    rewrite (bind_ok _ _ _ (reply, a) (l, set_user u s)) by (unfold call; by rewrite Ef).
    cbv beta iota zeta. change (set_out (out (set_action a c) ++ reply) (set_action a c)) with c'.
    unfold upd, readMask. destruct (0 <? length reply)%nat; rewrite ?bind_assoc;
      unfold when, mbind, stM_bind; cbn -[c']; by destruct (negb (action c' =b None_)).
  - exists c, [], (user s). split_and!; [|by rewrite ?app_nil_r..]. unfold upd, readMask, when.
    assert (set_fdconns <[fd c := c]> l = l) as El by (unfold set_fdconns; rewrite (insert_id (fdconns l) _ _ Hc); by destruct l).
    cbn [fst snd]. rewrite El. unfold mbind, stM_bind, emit, onS, onL. cbn [mret stM_ret].
    destruct (negb (action c =b None_)); [done|]. by destruct l.
Qed.
Lemma loopRead_eq b rs c l s : loopRead events (RData b :: rs) c (l, s) =
  (let b := take (Z.to_nat (packetLen l)) b in
   if (length b =? 0)%nat then loopCloseConn events c None
   else c ← readOnce events c b; if zlen b <? packetLen l then mret () else loopRead events rs c) (l, s).
Proof.
  cbn [loopRead]. by rewrite (bind_ok _ _ _ (l, s) (l, s)) by done.
Qed.
Lemma loopRead_keeps R rs c ls : FInv R ls → fdconns ls.1 !! fd c = Some c → opened c = true →
  keeps R ls (loopRead events rs c ls).
Proof.
  revert c ls. induction rs as [|[b|x] rs IH]; intros c [l s] HF Hc Ho; [done| |].
  - rewrite loopRead_eq. cbv zeta. set (b' := take _ b). destruct (length b' =? 0)%nat; [by apply loopCloseConn_keeps|].
    destruct (readOnce_eq c b' l s Hc) as (c' & reply & u & E & Hf & Hi & Ho' & Hout & Hln).
    rewrite (bind_ok _ _ _ _ _ E). destruct (reads_keeps R c c' b' reply l s u) as (HF' & Hr' & Hc'); [first [done|congruence]..|].
    destruct (_ <? _); [by split_and!|]. destruct (IH c' _ HF' Hc') as (H1 & H2 & H3); [congruence|].
    split_and!; [done|by etrans|done].
  - cbn. case_bool_decide; [done|]. by apply loopCloseConn_keeps.
Qed.
Lemma loopAction_keeps R c b ls : FInv R ls → fdconns ls.1 !! fd c = Some c → action c ≠ None_ →
  keeps R ls (loopAction events c b ls).
Proof.
  intros HF Hc Ha. unfold loopAction. destruct (action c); [done|by apply loopDetachConn_keeps|by apply loopCloseConn_keeps|].
  by split_and!.
Qed.

(** ** Events, notes and rounds *)

Lemma loopWrite_true c w ls b : (loopWrite events c w ls).1 = Ok b → b = true.
Proof.
  destruct ls as [l s]. unfold loopWrite. destruct w as [n|x].
  - unfold mbind, stM_bind, emit, onS, putConn, onL. rewrite modReadIfDone_eq. by intros [= <-].
  - case_bool_decide; [by intros [= <-]|]. unfold mbind, stM_bind. destruct (loopCloseConn _ _ _ _) as [[]]; [by intros [= <-]|done].
Qed.
Lemma iter_keeps R e event ls : FInv R ls → keeps R ls (iter ifname events e event ls).
Proof.
  destruct ls as [l s]. intros HF. unfold iter. destruct (efd e =? 0); [done|].
  rewrite (bind_ok _ _ _ (l, s) (l, s)) by done. cbv beta iota zeta.
  destruct (fdconns l !! efd e) as [c|] eqn:Ec; [|by apply loopAccept_keeps].
  assert (Hc : fdconns l !! fd c = Some c) by (destruct HF as (_ & HW & _); destruct (HW _ _ Ec) as [-> _]; done).
  destruct (negb (opened c)) eqn:Eo; [apply negb_true_iff in Eo; by apply loopOpened_keeps|apply negb_false_iff in Eo].
  destruct (negb (Z.land event PollEvent_Write =? 0)).
  - pose proof (loopWrite_keeps R c (write e) (l, s) HF Hc Eo) as (H1 & H2 & H3).
    pose proof (loopWrite_true c (write e) (l, s)) as Hf.
    unfold mbind, stM_bind. destruct (loopWrite _ _ _ _) as [[b|x] ls']; cbn in *.
    + by rewrite (Hf b eq_refl).
    + split_and!; [done|done|]. cbn. congruence.
  - destruct (negb (action c =b None_)) eqn:Ea; [|by apply loopRead_keeps].
    apply loopAction_keeps; [done|done|]. by apply negb_true_iff, bool_decide_eq_false in Ea.
Qed.

Lemma bind_keeps {A} R R' ls (m : @M U unit) (f : M A) :
  keeps R ls (m ls) → (∀ ls', FInv R ls' → keeps R' ls' (f ls')) → (∀ ls', FInv R ls' → FInv R' ls') →
  keeps R' ls ((m;; f) ls).
Proof.
  intros (H1 & H2 & H3) Hf HR. unfold mbind, stM_bind, keeps. destruct (m ls) as [[[]|x] ls']; cbn in *.
  - destruct (Hf ls' H1) as (H4 & H5 & H6). split_and!; [done|by etrans|done].
  - split_and!; [auto|done|congruence].
Qed.
Lemma events_keep R es ls : FInv R ls → keeps R ls (each (onEvent ifname events) es ls).
Proof.
  revert ls. induction es as [|e es IH]; intros ls HF; [done|]. cbn [each]. eapply bind_keeps; [|exact IH|done].
  unfold onEvent. destruct ls as [l s]. rewrite (bind_ok _ _ _ (l, s) (l, s)) by done. cbv beta iota zeta.
  destruct (negb _); [by apply iter_keeps|done].
Qed.

Definition nconns (ns : list note) : list conn := omap (λ x, match x with NConn c => Some c | _ => None end) ns.
Definition fresh_notes (ns : list note) : Prop := Forall (λ c, opened c = false) (nconns ns).
Definition is_tick (x : note) : bool := match x with NTick => true | _ => false end.
Definition ticks (ns : list note) : nat := length (base.filter (λ x, is_tick x = true) ns).
Lemma forget R ns ls : fresh_notes ns → FInv (nconns ns ++ R) ls → FInv R ls.
Proof.
  unfold fresh_notes. induction (nconns ns) as [|c cs IH]; intros Hf (HG & HW & HC); [by split_and!|].
  apply list.Forall_cons in Hf as [Hc Hf]. apply IH; [done|]. split_and!; [|done|done].
  eapply good_forget; [exact Hc|]. eapply good_perm; [|exact HG]. symmetry. apply Permutation_middle.
Qed.
(** A handler that may send to the ticker. *)
Definition FrT (ls ls' : State) : Prop := Fr ls (ls'.1, set_tch (tch ls.2) ls'.2).
Lemma Fr_FrT ls ls' : Fr ls ls' → FrT ls ls'.
Proof. intros [H1 H2 H3 H4 H5 H6 H7]. by constructor. Qed.
Lemma FrT_trans a b c : FrT a b → FrT b c → FrT a c.
Proof.
  intros [A1 A2 A3 A4 A5 A6 A7] [B1 B2 B3 B4 B5 B6 B7]. cbn in *. constructor; cbn; try congruence.
  intros j Hj. rewrite A1 in B7. destruct (B7 j Hj) as [-> ->]. by apply A7.
Qed.

Definition ticked (ns : list note) (s s' : shared U) : Prop :=
  tch s' = tch s ∨ (ticks ns ≠ 0%nat ∧ tch s' = TkReady ∧ is_Some (Tick events)).
Lemma tick_keeps R ls : FInv R ls → tch ls.2 = TkWait → is_Some (Tick events) →
  let o := iterNote events (Some NTick) ls in
  FInv R o.2 ∧ FrT ls o.2 ∧ tch o.2.2 = TkReady ∧ (o.1 = Ok tt ∨ o.1 = Err (SErr errClosing)).
Proof.
  destruct ls as [l s]. intros (HG & HW & HC) Ht [f Hf]. cbn [iterNote loopNote]. cbv zeta. rewrite Hf. cbn in Ht.
  destruct (f (user s)) as [[delay a] u] eqn:Ef.
  rewrite (bind_ok _ _ _ (delay, a) (l, set_user u s)) by (unfold call; by rewrite Ef).
  assert (Hs : (emit (TTick delay);; sendDelay delay;; shutdownIf a) (l, set_user u s) =
    shutdownIf a (l, set_tch TkReady (log (TTick delay) (set_user u s)))).
  { unfold sendDelay, emit, onS, getS, mbind, stM_bind. cbn. by rewrite Ht. }
  cbv beta iota zeta. rewrite Hs. unfold shutdownIf.
  assert (FInv R (l, set_tch TkReady (log (TTick delay) (set_user u s)))) as HF'.
  { split_and!; [by apply good_irrelevant|done|]. unfold CountOk in *. cbn in *. by rewrite joins_other. }
  assert (FrT (l, s) (l, set_tch TkReady (log (TTick delay) (set_user u s)))) as Hr.
  { constructor; cbn; try done. intros j _. by rewrite joins_other. }
  destruct a; cbn; auto.
Qed.
Lemma notes_keep R ns ls : FInv (nconns ns ++ R) ls → fresh_notes ns → (ticks ns ≤ 1)%nat →
  (ticks ns = 1%nat → tch ls.2 = TkWait ∧ is_Some (Tick events)) →
  let o := each (λ x, iterNote events (Some x)) ns ls in
  FInv R o.2 ∧ FrT ls o.2 ∧ o.1 ≠ Err SBlock ∧ ticked ns ls.2 o.2.2.
Proof.
  cbv zeta. revert ls. induction ns as [|x ns IH]; intros ls HF Hf Hle Ht.
  { split_and!; [done|by apply Fr_FrT|done|by left]. }
  cbn [each]. destruct x as [c| |e].
  - apply list.Forall_cons in Hf as [Hc Hf]. destruct (join_keeps _ c ls HF Hc) as (H1 & H2 & _). destruct ls as [l s].
    rewrite (bind_ok _ _ _ tt (iterNote events (Some (NConn c)) (l, s)).2) by done.
    destruct (IH _ H1 Hf Hle) as (I1 & I2 & I3 & I4); [by rewrite (fr_tch _ _ H2)|].
    split_and!; [done|by eapply FrT_trans; [apply Fr_FrT|]|done|]. unfold ticked in *. by rewrite (fr_tch _ _ H2) in I4.
  - change (ticks (NTick :: ns)) with (S (ticks ns)) in *. destruct (Ht ltac:(lia)) as [Hw Hk].
    destruct (tick_keeps _ _ HF Hw Hk) as (H1 & H2 & H3 & H4). destruct (iterNote _ _ ls) as [r ls'] eqn:Ei. cbn [fst snd] in *.
    assert (Hts : ∀ s', tch s' = TkReady → ticked (NTick :: ns) ls.2 s') by (intros s' ?; by right).
    destruct H4 as [-> | ->].
    + rewrite (bind_ok _ _ _ _ _ Ei). destruct (IH ls' H1 Hf) as (I1 & I2 & I3 & I4); [lia|lia|].
      split_and!; [done|by eapply FrT_trans|done|]. apply Hts. destruct I4 as [->|(? & -> & _)]; done.
    + unfold mbind, stM_bind. rewrite Ei. split_and!; [by eapply forget|done|done|by apply Hts].
  - split_and!; [by eapply (forget R ns)|by apply Fr_FrT|done|by left].
Qed.

(** A round, with the connections that wait in its notes. *)
Definition round_post (R : list conn) (l : loop) (s : shared U) (o : res stop unit * State) : Prop :=
  let ns := qnotes (notes (poll l)) in let l' := o.2.1 in let s' := o.2.2 in let ns' := qnotes (notes (poll l')) in
  FInv (nconns ns' ++ R) o.2 ∧ (ns' = [] ∨ ns' = ns ∧ tch s' = tch s) ∧ ticked ns s s' ∧ o.1 ≠ Err SBlock ∧
  idx l' = idx l ∧ packetLen l' = packetLen l ∧ lns s' = lns s ∧ length (counts s') = length (counts s) ∧
  ∀ j, j ≠ idx l → counts s' !! j = counts s !! j ∧ joins j (trace s') = joins j (trace s).
Definition notes_ok (ns : list note) (t : ticker) : Prop :=
  fresh_notes ns ∧ (ticks ns ≤ 1)%nat ∧ (ticks ns = 1%nat → t = TkWait ∧ is_Some (Tick events)).
Lemma ForEach_cases q ns q' : ForEach q = (ns, q') → (ns = [] ∧ q' = q) ∨ (ns = qnotes q ∧ qnotes q' = []).
Proof.
  unfold ForEach. destruct (_ =? _); [intros [= <- <-]; by left|].
  destruct (_ =? _)%nat; intros [= <- <-]; [by left|by right].
Qed.
Lemma round_post_of R l s ns q (o : res stop unit * State) : ForEach (notes (poll l)) = (ns, q) →
  FInv (nconns (qnotes q) ++ R) o.2 → FrT (set_poll (set_notes q) l, s) o.2 → o.1 ≠ Err SBlock → ticked ns s o.2.2 →
  round_post R l s o.
Proof.
  intros Hq%ForEach_cases HF [A1 A2 A3 A4 A5 A6 A7] Hb Ht. cbn in *. unfold round_post. cbv zeta. rewrite A2.
  destruct Hq as [[-> ->]|[-> Hq]]; unfold ticked in *.
  - assert (tch o.2.2 = tch s) by (destruct Ht as [|[]]; done). split_and!; try done; [by right|by left].
  - split_and!; try done. by left.
Qed.
Lemma handle_keeps R es l s : FInv (nconns (qnotes (notes (poll l))) ++ R) (l, s) →
  notes_ok (qnotes (notes (poll l))) (tch s) → round_post R l s (handle ifname events es (l, s)).
Proof.
  intros HF (Hf & Hle & Ht). unfold handle, takeNotes. unfold mbind at 1, stM_bind at 1.
  destruct (ForEach (notes (poll l))) as [ns q] eqn:Eq. pose proof (ForEach_cases _ _ _ Eq) as Hq.
  set (R1 := nconns (qnotes q) ++ R).
  assert (Hn : FInv (nconns ns ++ R1) (set_poll (set_notes q) l, s) ∧ notes_ok ns (tch s)).
  { unfold R1, notes_ok. destruct Hq as [[-> ->]|[-> ->]]; destruct HF as (HG & HW & HC); (split; [by split_and!|]); [|done].
    split_and!; [constructor|cbn; lia|done]. }
  destruct Hn as (HF1 & Hf1 & Hle1 & Ht1). destruct (notes_keep R1 ns _ HF1 Hf1 Hle1 Ht1) as (H1 & H2 & H3 & H4).
  apply (round_post_of R l s ns q _ Eq); unfold mbind, stM_bind; destruct (each _ ns _) as [[[]|x] [l1 s1]]; cbn [fst snd] in *; try done.
  all: pose proof (events_keep R1 es (l1, s1) H1) as (I1 & I2 & I3); cbn [fst snd] in *; try done.
  - by eapply FrT_trans; [|apply Fr_FrT].
  - unfold ticked in *. by rewrite (fr_tch _ _ I2).
Qed.
Lemma round_keeps R a l s : FInv (nconns (qnotes (notes (poll l))) ++ R) (l, s) →
  notes_ok (qnotes (notes (poll l))) (tch s) → round_post R l s (round ifname events a (l, s)).
Proof.
  intros HF Hn. destruct a as [e| |es]; cbn [round]; [|by apply handle_keeps..].
  split_and!; try done; [by right|by left].
Qed.

(** ** The end of serve *)

Lemma closed_map c e ls : fdconns (loopCloseConn events c e ls).2.1 = delete (fd c) (fdconns ls.1).
Proof.
  rewrite loopCloseConn_eq. destruct ls as [l s], (Closed events) as [f|]; [|done]. unfold mbind, stM_bind, call. cbn.
  destruct (f _ _ _) as [[] u]; done.
Qed.
Lemma closeConns_keeps R order ls : FInv R ls → let ls' := closeConns events order ls in
  FInv R ls' ∧ Fr ls ls' ∧ ∀ k c, fdconns ls'.1 !! k = Some c → fdconns ls.1 !! k = Some c ∧ k ∉ order.
Proof.
  cbv zeta. revert ls. induction order as [|k order IH]; intros ls HF; cbn [closeConns].
  { split_and!; [done..|]. intros k c Hk. by split; [|apply not_elem_of_nil]. }
  destruct (fdconns ls.1 !! k) as [c|] eqn:Ec.
  - assert (Hf : fd c = k) by (destruct HF as (_ & HW & _); by destruct (HW _ _ Ec)).
    destruct (loopCloseConn_keeps R c None ls HF) as (H1 & H2 & _); [by rewrite Hf|].
    destruct (IH _ H1) as (I1 & I2 & I3). split_and!; [done|by etrans|]. intros j c' Hj. apply I3 in Hj as [Hj Hn].
    rewrite closed_map, Hf in Hj. apply lookup_delete_Some in Hj as [Hne Hj]. split; [done|]. rewrite not_elem_of_cons. by split.
  - destruct (IH ls HF) as (I1 & I2 & I3). split_and!; [done..|]. intros j c' Hj. apply I3 in Hj as [Hj Hn].
    split; [done|]. rewrite not_elem_of_cons. split; [congruence|done].
Qed.

Definition held (l : loop) : list conn := conns (fdconns l) ++ nconns (qnotes (notes (poll l))).
Definition all_held (ls : list (loop * bool)) : list conn := concat (held <$> ls.*1).
(** All loops, with connections that belong to none of them. *)
Record LInv (R : list conn) (ls : list (loop * bool)) (s : shared U) : Prop := {
  li_good : GoodS s (all_held ls ++ R);
  li_each : Forall (λ lb, Watch lb.1 ∧ CountOk lb.1 s) ls;
  li_idx : NoDup ((λ lb, idx lb.1) <$> ls) }.
(** What changes of the shared state concerns the loops of a list. *)
Definition FrL (ls : list (loop * bool)) (s s' : shared U) : Prop :=
  lns s' = lns s ∧ tch s' = tch s ∧ length (counts s') = length (counts s) ∧
  ∀ j, j ∉ (λ lb, idx lb.1) <$> ls → counts s' !! j = counts s !! j ∧ joins j (trace s') = joins j (trace s).

Lemma count_frame l s s' : counts s' !! idx l = counts s !! idx l → joins (idx l) (trace s') = joins (idx l) (trace s) →
  CountOk l s → CountOk l s'.
Proof. unfold CountOk. by intros -> ->. Qed.
Lemma held_split l ls R : held l ++ all_held ls ++ R ≡ₚ conns (fdconns l) ++ (nconns (qnotes (notes (poll l))) ++ all_held ls ++ R).
Proof. unfold held. by rewrite <- app_assoc. Qed.
Lemma held_empty l : fdconns l = ∅ → held l = nconns (qnotes (notes (poll l))).
Proof. unfold held, conns. intros ->. by rewrite map_to_list_empty. Qed.

(** A loop whose connections are closed. *)
Definition emptied (x y : loop * bool) : Prop :=
  idx y.1 = idx x.1 ∧ notes (poll y.1) = notes (poll x.1) ∧ fdconns y.1 = ∅ ∧ y.2 = x.2.
Lemma LInv_cons R l b ls s : LInv R ((l, b) :: ls) s ↔
  FInv (nconns (qnotes (notes (poll l))) ++ all_held ls ++ R) (l, s) ∧
  Forall (λ lb, Watch lb.1 ∧ CountOk lb.1 s) ls ∧ NoDup ((λ lb, idx lb.1) <$> (l, b) :: ls).
Proof.
  assert (HP : all_held ((l, b) :: ls) ++ R ≡ₚ conns (fdconns l) ++ nconns (qnotes (notes (poll l))) ++ all_held ls ++ R).
  { unfold all_held. cbn. unfold held at 1. by rewrite <- !app_assoc. }
  split.
  - intros [HG HE HN]. apply list.Forall_cons in HE as [[HW HC] HE]. split_and!; [split_and!; [|done|done]|done|done].
    eapply good_perm; [exact HP|exact HG].
  - intros ((HG & HW & HC) & HE & HN). constructor; [|by constructor|done]. eapply good_perm; [symmetry; exact HP|exact HG].
Qed.
Lemma frame_each ls s s' : (∀ j, j ∈ (λ lb : loop * bool, idx lb.1) <$> ls → counts s' !! j = counts s !! j ∧ joins j (trace s') = joins j (trace s)) →
  Forall (λ lb : loop * bool, Watch lb.1 ∧ CountOk lb.1 s) ls → Forall (λ lb, Watch lb.1 ∧ CountOk lb.1 s') ls.
Proof.
  intros Hj HE. rewrite list.Forall_forall in *. intros x Hx. destruct (HE x Hx) as [HW HC]. split; [done|].
  destruct (Hj (idx x.1)) as [H1 H2]; [by apply (list_elem_of_fmap_2 (λ lb : loop * bool, idx lb.1))|]. by eapply count_frame.
Qed.
Lemma emptied_idx ls ls' : Forall2 emptied ls ls' → (λ lb : loop * bool, idx lb.1) <$> ls' = (λ lb, idx lb.1) <$> ls.
Proof. induction 1 as [|x y l1 l2 [H _] _ IH]; [done|]. cbn. by rewrite H, IH. Qed.
Lemma closeConns_all o R l s l1 s1 : dom (fdconns l) ⊆ list_to_set o → FInv R (l, s) → closeConns events o (l, s) = (l1, s1) →
  FInv R (l1, s1) ∧ Fr (l, s) (l1, s1) ∧ fdconns l1 = ∅.
Proof.
  intros Hcl HF E. pose proof (closeConns_keeps _ o _ HF) as (H1 & H2 & H3). rewrite E in *. cbn in *. split_and!; [done..|].
  apply map_empty. intros k. destruct (fdconns l1 !! k) as [c|] eqn:Ek; [|done]. destruct (H3 _ _ Ek) as [Hk Hno].
  exfalso. apply Hno. eapply (elem_of_list_to_set (C := gset Z)), Hcl. by apply elem_of_dom_2 in Hk.
Qed.
Lemma closeLoops_keeps orders R ls s : covers orders ls = true → LInv R ls s →
  let '(ls', s') := closeLoops events orders ls s in LInv R ls' s' ∧ FrL ls s s' ∧ Forall2 emptied ls ls'.
Proof.
  revert orders R s. induction ls as [|[l b] ls IH]; intros [|o orders] R s Hc HL; try (by unfold covers in Hc).
  unfold covers in Hc. cbn in Hc. apply andb_true_iff in Hc as [Hlen Hc]. apply andb_true_iff in Hc as [Hcl Hc].
  apply bool_decide_eq_true in Hcl. apply LInv_cons in HL as (HF & HE & HN). apply list.NoDup_cons in HN as [Hn HN]. cbn in Hn.
  cbn [closeLoops]. destruct (closeConns events o (l, s)) as [l1 s1] eqn:Ec.
  destruct (closeConns_all _ _ _ _ _ _ Hcl HF Ec) as (H1 & [A1 A2 A3 A4 A5 A6 A7] & He). cbn in *.
  assert (HL : LInv (held l1 ++ R) ls s1).
  { constructor; [|eapply frame_each; [|exact HE]; intros j Hj; apply A7; by intros ->|done].
    destruct H1 as (HG & _ & _). eapply good_perm; [|exact HG]. cbn. rewrite held_empty, He, A2 by done. cbn.
    rewrite !app_assoc. f_equiv. by rewrite Permutation_app_comm. }
  specialize (IH orders (held l1 ++ R) s1). destruct (closeLoops events orders ls s1) as [ls' s'].
  destruct IH as (HL' & (B1 & B2 & B3 & B4) & HFa); [unfold covers; by rewrite Hlen, Hc|done|].
  split_and!; [| |by constructor].
  - destruct HL' as [HG' HE' HN']. apply LInv_cons.
    split_and!; [split_and!|done|cbn; rewrite (emptied_idx _ _ HFa), A1; by apply list.NoDup_cons].
    + eapply good_perm; [|exact HG']. cbn. rewrite He, held_empty by done. cbn. rewrite !app_assoc. f_equiv. by rewrite Permutation_app_comm.
    + intros k c. cbn. by rewrite He.
    + destruct H1 as (_ & _ & HC1). cbn in HC1. destruct (B4 (idx l1)) as [C1 C2]; [by rewrite A1|].
      unfold CountOk in *. cbn. by rewrite C1, C2.
  - unfold FrL. split_and!; [congruence..|]. intros j Hj. cbn in Hj. apply not_elem_of_cons in Hj as [Hj1 Hj2].
    destruct (B4 j Hj2) as [-> ->]. by apply A7.
Qed.
Lemma all_held_perm ls ls' : ls ≡ₚ ls' → all_held ls ≡ₚ all_held ls'.
Proof.
  unfold all_held. induction 1 as [|x l l' _ IH|x y l|l l' l'' _ IH1 _ IH2]; cbn; [done|by rewrite IH| |by etrans].
  rewrite !app_assoc. f_equiv. by rewrite Permutation_app_comm.
Qed.
Lemma LInv_perm R ls ls' s : ls ≡ₚ ls' → LInv R ls s → LInv R ls' s.
Proof.
  intros HP [HG HE HN]. constructor; [|by rewrite <- HP|by rewrite <- HP].
  eapply good_perm; [|exact HG]. by rewrite (all_held_perm _ _ HP).
Qed.
End facts.

Lemma insert_perm {A} (l : list A) i x x' : l !! i = Some x → <[i := x']> l ≡ₚ x' :: delete i l.
Proof.
  intros H. apply lookup_lt_Some in H as Hi. rewrite insert_take_drop by done. rewrite delete_take_drop.
  symmetry. apply Permutation_middle.
Qed.

(** ** Runs of the server *)

Section worlds.
Context {U : Type} (ifname : Z → option bytes) (events : Events U).

(** The descriptors of the listeners, which are open until serve returns. *)
Definition lnfds (w : world U) : gset Z :=
  match main w with Stopped => ∅ | _ => list_to_set (lfd <$> lns (sh w)) end.
Definition notes_of (l : loop) : list note := qnotes (notes (poll l)).
Record WInv (w : world U) : Prop := {
  wi_loops : LInv (lnfds w) [] (loops w) (sh w);
  wi_pos i l b : loops w !! i = Some (l, b) → idx l = i;
  wi_notes i l b : loops w !! i = Some (l, b) →
    notes_ok events (notes_of l) (tch (sh w)) ∧ (i ≠ 0%nat → ticks (notes_of l) = 0%nat);
  wi_len : length (counts (sh w)) = length (loops w);
  wi_tick : tch (sh w) = TkReady → is_Some (Tick events);
  wi_block : stuck w ≠ Some SBlock;
  wi_stop : main w = Stopped → ∀ i l b, loops w !! i = Some (l, b) → b = false ∧ fdconns l = ∅ }.

(** One loop at a time. *)
Lemma world_loop w i l b : WInv w → loops w !! i = Some (l, b) →
  FInv (lnfds w) (nconns (notes_of l) ++ all_held (delete i (loops w)) ++ []) (l, sh w) ∧
  notes_ok events (notes_of l) (tch (sh w)).
Proof.
  intros HI Hl. split; [|by destruct (wi_notes _ HI _ _ _ Hl)].
  pose proof (wi_loops _ HI) as H. eapply LInv_perm in H; [|by apply delete_Permutation, Hl].
  by apply LInv_cons in H as (HF & _).
Qed.
Lemma world_put w i l b l' b' s' p st : WInv w → loops w !! i = Some (l, b) →
  FInv (lnfds w) (nconns (notes_of l') ++ all_held (delete i (loops w)) ++ []) (l', s') → idx l' = i →
  lns s' = lns (sh w) → length (counts s') = length (counts (sh w)) →
  (∀ j, j ≠ i → counts s' !! j = counts (sh w) !! j ∧ joins j (trace s') = joins j (trace (sh w))) →
  notes_ok events (notes_of l') (tch s') → (i ≠ 0%nat → ticks (notes_of l') = 0%nat ∧ tch s' = tch (sh w)) →
  (tch s' = TkReady → is_Some (Tick events)) → (p = Stopped ↔ main w = Stopped) → st ≠ Some SBlock →
  (p = Stopped → b' = false ∧ fdconns l' = ∅) →
  WInv (mkWorld (<[i := (l', b')]> (loops w)) s' p st).
Proof.
  intros HI Hl HF Hi Hln Hc Hj Hn Ht Hk Hp Hs Hst. pose proof (lookup_lt_Some _ _ _ Hl) as Hlt.
  assert (Hfd : lnfds (mkWorld (<[i := (l', b')]> (loops w)) s' p st) = lnfds w).
  { unfold lnfds. cbn. rewrite Hln. destruct p, (main w); try done; exfalso; destruct Hp as [Hp1 Hp2];
      first [by specialize (Hp1 eq_refl)|by specialize (Hp2 eq_refl)]. }
  constructor; rewrite ?Hfd; cbn.
  - eapply LInv_perm; [symmetry; by eapply insert_perm|]. pose proof (wi_loops _ HI) as [_ HE HN].
    assert (HN' : NoDup ((λ lb : loop * bool, idx lb.1) <$> (l, b) :: delete i (loops w))) by (by rewrite <- (delete_Permutation _ _ _ Hl)).
    rewrite (delete_Permutation _ _ _ Hl) in HE. apply list.Forall_cons in HE as [_ HE].
    pose proof (wi_pos _ HI _ _ _ Hl) as Hil. apply LInv_cons. split_and!; [done| |cbn in *; rewrite Hi; by rewrite Hil in HN'].
    eapply frame_each; [|exact HE]. intros j Hin. apply Hj. intros ->. cbn in HN'. apply list.NoDup_cons in HN' as [HN' _]. by rewrite Hil in HN'.
  - intros j l0 b0. intros [(-> & [= -> ->] & _)|[Hne H0]]%list_lookup_insert_Some; [done|exact (wi_pos _ HI _ _ _ H0)].
  - intros j l0 b0. intros [(-> & [= -> ->] & _)|[Hne H0]]%list_lookup_insert_Some.
    + split; [done|]. intros. by apply Ht.
    + destruct (wi_notes _ HI _ _ _ H0) as [(N1 & N2 & N3) N4]. split; [|done]. split_and!; [done..|].
      intros E1. destruct (decide (i = 0%nat)) as [->|Hi0]; [rewrite N4 in E1; done|]. rewrite (proj2 (Ht Hi0)). auto.
  - by rewrite length_insert, Hc, (wi_len _ HI).
  - done.
  - done.
  - intros E j l0 b0. intros [(-> & [= -> ->] & _)|[Hne H0]]%list_lookup_insert_Some; [auto|].
    eapply (wi_stop _ HI); [by apply Hp|exact H0].
Qed.

Lemma nconns_app ns ns' : nconns (ns ++ ns') = nconns ns ++ nconns ns'.
Proof. unfold nconns. by rewrite omap_app. Qed.
Lemma ticks_app ns x : ticks (ns ++ [x]) = (ticks ns + if is_tick x then 1 else 0)%nat.
Proof. unfold ticks. rewrite list.filter_app, length_app. cbn. by destruct x. Qed.

Lemma round_step w w' i a : WInv w → loopRound ifname events i a w = Some w' → WInv w'.
Proof.
  intros HI. unfold loopRound. destruct (loops w !! i) as [[l []]|] eqn:El; [|done..].
  destruct (world_loop w i l true HI El) as [HF Hn]. pose proof (wi_pos _ HI _ _ _ El) as Hi.
  pose proof (round_keeps ifname events _ _ a l (sh w) HF Hn) as (P1 & P2 & P3 & P4 & P5 & P6 & P7 & P8 & P9).
  destruct (round ifname events a (l, sh w)) as [r [l' s']]. cbn [fst snd] in *.
  assert (Hput : ∀ b' p st, (p = Stopped ↔ main w = Stopped) → st ≠ Some SBlock →
    WInv (mkWorld (<[i := (l', b')]> (loops w)) s' p st)).
  { intros b' p st Hp Hst. eapply world_put; try done; [congruence|by rewrite <- Hi| | | |].
    - destruct P2 as [E|[E ->]]; unfold notes_of in *; rewrite E; [split_and!; [constructor|cbn; lia|done]|done].
    - intros Hi0. destruct (wi_notes _ HI _ _ _ El) as [_ Ht0]. specialize (Ht0 Hi0). unfold notes_of in *.
      split; [by destruct P2 as [->|[-> _]]|]. destruct P3 as [|[]]; done.
    - intros Hr. destruct P3 as [E|(_ & _ & E)]; [|done]. apply (wi_tick _ HI). congruence.
    - intros Es. apply Hp in Es. by destruct (wi_stop _ HI Es _ _ _ El). }
  destruct r as [[]|[e| |]]; [intros [= <-]; apply Hput; [done|apply HI]|intros [= <-]; apply Hput; [|apply HI]
    |intros [= <-]; by apply Hput|done].
  by destruct (main w).
Qed.

Lemma tick_step w w' : WInv w → loopTicker w = Some w' → WInv w'.
Proof.
  intros HI. unfold loopTicker. destruct (tch (sh w)) eqn:Et; [|done..]. destruct (loops w !! 0%nat) as [[l b]|] eqn:El; [|done].
  destruct (world_loop w 0 l b HI El) as [HF (N1 & N2 & N3)]. destruct (pollOpen (poll l)); intros [= <-].
  - assert (Hns : notes_of (set_poll (Trigger NTick) l) = notes_of l ++ [NTick]) by done.
    assert (Ht0 : ticks (notes_of l) = 0%nat).
    { destruct (ticks (notes_of l)) as [|[|]] eqn:E; [done| |lia]. destruct (N3 eq_refl) as [H _]. congruence. }
    eapply world_put; try done; [| | |apply HI|].
    + rewrite Hns, nconns_app. cbn. rewrite app_nil_r. exact HF.
    + apply (wi_pos _ HI _ _ _ El).
    + rewrite Hns. split_and!; [unfold fresh_notes; by rewrite nconns_app, app_nil_r|rewrite ticks_app, Ht0; cbn; lia|].
      intros _. split; [done|]. by apply (wi_tick _ HI).
    + intros Es. by destruct (wi_stop _ HI Es _ _ _ El).
  - destruct HI as [H1 H2 H3 H4 H5 H6 H7]. constructor; [by destruct H1|exact H2| |exact H4|done|exact H6|exact H7].
    cbn. intros i l0 b0 H0.
    destruct (H3 _ _ _ H0) as [(M1 & M2 & M3) M4]. split; [|done]. split_and!; [done..|]. intros E.
    destruct (M3 E) as [M5 _]. congruence.
Qed.

(** More descriptors are open, a counter is another. *)
Lemma shared_step w (s' : shared U) st : WInv w → lns s' = lns (sh w) → counts s' = counts (sh w) → trace s' = trace (sh w) →
  nextid s' = nextid (sh w) → tch s' = tch (sh w) → openfds (sh w) ⊆ openfds s' → st ≠ Some SBlock →
  WInv (mkWorld (loops w) s' (main w) st).
Proof.
  intros [[HG HE HN] H2 H3 H4 H5 H6 H7] E1 E2 E3 E4 E5 E6 Hst.
  constructor; cbn; rewrite ?E2, ?E5; try done. unfold lnfds. cbn. rewrite E1. constructor; [|clear HG|done].
  - unfold GoodS. rewrite E1, E3, E4. by eapply good_opens.
  - eapply list.Forall_impl; [exact HE|]. intros [l b] [HW HC]. split; [done|]. unfold CountOk in *. by rewrite E2, E3.
Qed.
Lemma AddRead_other k j p : j ≠ k → interest (AddRead k p) !! j = interest p !! j.
Proof. intros H. unfold AddRead, epoll_add. destruct (interest p !! k); [done|]. cbn. by rewrite lookup_insert_ne. Qed.
Lemma AddRead_notes k p : notes (AddRead k p) = notes p.
Proof. unfold AddRead, epoll_add. by destruct (interest p !! k). Qed.

Lemma chooseLoop_same rnd (s s' : shared U) i : chooseLoop rnd s = (i, s') → s' = s ∨ ∃ x, s' = set_accepted x s.
Proof.
  unfold chooseLoop. destruct (1 <? _)%nat; [|intros [= _ <-]; by left].
  destruct (balance s); intros [= _ <-]; [right; by eexists|by left..].
Qed.
(** A connection that was made waits in the notes of its loop. *)
Lemma join_step w i l b nfd sa : WInv w → loops w !! i = Some (l, b) → nfd ∉ openfds (sh w) →
  let c := newConn (nextid (sh w)) nfd (-1) sa in
  WInv (mkWorld (<[i := (set_poll (Trigger (NConn c)) (set_poll (AddRead nfd) l), b)]> (loops w))
    (set_nextid (S (nextid (sh w))) (set_openfds ({[nfd]} ∪ openfds (sh w)) (sh w))) (main w) (stuck w)).
Proof.
  intros HI El Hfr c. destruct (world_loop w i l b HI El) as [(HG & HW & HC) (N1 & N2 & N3)]. cbn in HG, HW, HC.
  assert (Hns : notes_of (set_poll (Trigger (NConn c)) (set_poll (AddRead nfd) l)) = notes_of l ++ [NConn c]).
  { unfold notes_of. cbn. by rewrite AddRead_notes. }
  eapply world_put; try done; [split_and!| | | |apply HI| |].
  - rewrite Hns. unfold GoodS in *. cbn. eapply good_perm; [|apply (good_new _ _ _ _ _ _ nfd (-1) sa Hfr ltac:(lia) HG)].
    rewrite nconns_app. cbn. fold c. rewrite !app_nil_r, <- !app_assoc. cbn.
    rewrite !(app_assoc (conns _)). apply Permutation_middle.
  - intros k c0 Hk. cbn in *. rewrite AddRead_other; [by apply HW|]. intros ->. apply Hfr.
    pose proof (g_open _ _ _ _ _ _ HG) as Ho. rewrite list.Forall_forall in Ho. destruct (HW _ _ Hk) as [<- _].
    apply Ho, elem_of_app. left. apply elem_of_conns. eauto.
  - done.
  - apply (wi_pos _ HI _ _ _ El).
  - rewrite Hns. split_and!; [|rewrite ticks_app; cbn; lia|rewrite ticks_app, Nat.add_0_r; done].
    unfold fresh_notes. rewrite nconns_app. apply Forall_app. split; [done|]. by repeat constructor.
  - intros Hi0. rewrite Hns, ticks_app. cbn. destruct (wi_notes _ HI _ _ _ El) as [_ Ht]. by rewrite (Ht Hi0).
  - apply HI.
  - intros Es. by destruct (wi_stop _ HI Es _ _ _ El).
Qed.
Lemma connect_step w hint ip port e rnd : WInv w → WInv (outConnect hint ip port e rnd w).
Proof.
  intros HI. unfold outConnect. pose proof (new_fd_fresh hint (openfds (sh w))) as Hfr. set (nfd := new_fd _ _) in *.
  destruct e as [e|]; [apply shared_step; try done; [cbn; set_solver|apply HI]|].
  destruct (chooseLoop rnd _) as [i s'] eqn:Ec. apply chooseLoop_same in Ec.
  destruct (if i <? 0 then None else loops w !! Z.to_nat i) as [[l b]|] eqn:El.
  2:{ destruct Ec as [->|[x ->]]; apply shared_step; try done; cbn; set_solver. }
  assert (El' : loops w !! Z.to_nat i = Some (l, b)) by (by destruct (i <? 0)).
  destruct Ec as [->|[x ->]].
  - by apply join_step.
  - assert (HI2 : WInv (mkWorld (loops w) (set_accepted x (sh w)) (main w) (stuck w))) by (apply shared_step; try done; apply HI).
    exact (join_step _ (Z.to_nat i) l b nfd (inet4 ip port) HI2 El' Hfr).
Qed.

Lemma all_held_map (f : loop → loop) ls : (∀ l, held (f l) = held l) → all_held (prod_map f id <$> ls) = all_held ls.
Proof. intros Hf. unfold all_held. induction ls as [|[l b] ls IH]; cbn; [done|]. by rewrite Hf, IH. Qed.
Lemma trigger_step w e : WInv w → main w = Woken →
  WInv (mkWorld (prod_map (set_poll (Trigger (NErr e))) id <$> loops w) (sh w) Triggered (stuck w)).
Proof.
  intros [[HG HE HN] H2 H3 H4 H5 H6 H7] Em. set (f := set_poll (Trigger (NErr e))).
  assert (Hns : ∀ l, notes_of (f l) = notes_of l ++ [NErr e]) by done.
  assert (Hlk : ∀ i l b, (prod_map f id <$> loops w) !! i = Some (l, b) → ∃ l0, l = f l0 ∧ loops w !! i = Some (l0, b)).
  { intros i l b. rewrite list_lookup_fmap_Some. intros ([l0 b0] & [= -> ->] & H). eauto. }
  constructor; cbn; [constructor| | |by rewrite length_fmap|done..].
  - rewrite all_held_map; [unfold lnfds in *; by rewrite Em in HG|]. intros l. unfold held. cbn. by rewrite nconns_app, app_nil_r.
  - apply Forall_fmap. eapply list.Forall_impl; [exact HE|]. by intros [l b].
  - rewrite <- list_fmap_compose. by erewrite (list_fmap_ext _ (λ lb : loop * bool, idx lb.1)) by (by intros ? [] ?).
  - intros i l b (l0 & -> & H0)%Hlk. by apply H2 in H0.
  - intros i l b (l0 & -> & H0)%Hlk. destruct (H3 _ _ _ H0) as [(N1 & N2 & N3) N4]. rewrite Hns.
    unfold notes_ok, fresh_notes. rewrite nconns_app, ticks_app, app_nil_r, Nat.add_0_r. by split_and!.
Qed.

Lemma good_stopped nl F o n tr L : Good nl F o n tr L → Good nl ∅ (o ∖ F) n tr L.
Proof.
  intros [H1 H2 H3 [Hs1 Hs2] H4 H5 H6 H7 H8]. constructor; try done; [|split; [set_solver|]].
  - rewrite list.Forall_forall in *. intros c Hc. apply elem_of_difference. auto.
  - eapply list.Forall_impl; [exact Hs2|]. set_solver.
Qed.
Lemma finish_step w orders : WInv w → main w = Triggered → forallb (λ lb, negb lb.2) (loops w) = true →
  covers orders (loops w) = true → let '(ls, s) := closeLoops events orders (loops w) (sh w) in
  WInv (mkWorld ls (set_openfds (openfds s ∖ list_to_set (lfd <$> lns s)) s) Stopped (stuck w)).
Proof.
  intros [HL H2 H3 H4 H5 H6 H7] Em Hd Hc. pose proof (closeLoops_keeps events _ orders [] _ _ Hc HL) as H.
  destruct (closeLoops events orders (loops w) (sh w)) as [ls s]. destruct H as ([HG HE HN] & (F1 & F2 & F3 & F4) & HF).
  assert (Hlk : ∀ i l b, ls !! i = Some (l, b) → ∃ l0 b0, loops w !! i = Some (l0, b0) ∧ idx l = idx l0 ∧
     notes (poll l) = notes (poll l0) ∧ fdconns l = ∅ ∧ b = b0).
  { intros i l b Hl. destruct (Forall2_lookup_r _ _ _ _ _ HF Hl) as ([l0 b0] & H0 & E1 & E2 & E3 & E4). eauto 10. }
  constructor; cbn; rewrite ?F2; [constructor; [|done|done]| | |by rewrite F3, H4, (Forall2_length HF)|done|done|].
  - unfold GoodS. cbn. apply good_stopped. unfold lnfds in HG. rewrite Em in HG. unfold GoodS in HG. by rewrite <- F1 in HG.
  - intros i l b (l0 & b0 & H0 & -> & _)%Hlk. by apply H2 in H0.
  - intros i l b (l0 & b0 & H0 & _ & E & _)%Hlk. unfold notes_of. rewrite E. by eapply H3.
  - intros _ i l b (l0 & b0 & H0 & _ & _ & E & ->)%Hlk. split; [|done].
    rewrite forallb_forall in Hd. apply list_elem_of_lookup_2, list_elem_of_In, Hd, negb_true_iff in H0. done.
Qed.

Lemma step_inv w x w' : WInv w → step ifname events w x = Some w' → WInv w'.
Proof.
  intros HI. unfold step. destruct (stuck w) as [[e| |]|] eqn:Est; [|done|by destruct (wi_block _ HI)|].
  1,2: destruct x as [|i a| |hint ip port e1 rnd| |orders]; [destruct (main w) eqn:Em; [|done..]; intros [= <-]
    |by apply round_step|by apply tick_step|intros [= <-]; by apply connect_step
    |destruct (main w) eqn:Em; [done..| |done|done]; intros [= <-]; rewrite <- Est; by apply trigger_step|].
  all: try (destruct HI as [H1 H2 H3 H4 H5 H6 H7]; constructor; try done; unfold lnfds in *; by rewrite Em in H1).
  all: destruct (main w) eqn:Em; [done..| |done]; destruct (_ && covers _ _) eqn:Ec; [|done];
    apply andb_true_iff in Ec as [Ed Ec]; pose proof (finish_step w orders HI Em Ed Ec) as H; rewrite Est in H;
    destruct (closeLoops _ _ _ _); by intros [= <-].
Qed.
Lemma run_inv w xs w' : run ifname events w xs w' → WInv w → WInv w'.
Proof. induction 1; [done|]. intros. by eauto using step_inv. Qed.

Lemma newLoop_notes ls p : notes (foldl (λ p ln, AddRead (lfd ln) p) p ls) = notes p.
Proof. revert p. induction ls as [|ln ls IH]; intros p; cbn; [done|]. by rewrite IH, AddRead_notes. Qed.
Lemma serve_inv n cpus lb ls wfd u w : serve events n cpus lb ls wfd u = Some w → WInv w.
Proof.
  unfold serve. set (k := Z.to_nat (numLoops_of n cpus)). destruct (match Serving events with Some f => f k u | None => _ end) as [a u'].
  case_bool_decide; [done|]. intros [= <-].
  assert (Hlk : ∀ i l b, ((λ i, (newLoop ls i (wfd i), true)) <$> seq 0 k) !! i = Some (l, b) →
     idx l = i ∧ fdconns l = ∅ ∧ notes_of l = [] ∧ (i < k)%nat).
  { intros i l b. rewrite list_lookup_fmap_Some. intros (j & [= -> ->] & (-> & Hj)%lookup_seq).
    split_and!; [done|done| |lia]. unfold notes_of, newLoop. cbn. by rewrite newLoop_notes. }
  constructor; cbn; [constructor| | | | |done|done].
  - assert (E : all_held ((λ i, (newLoop ls i (wfd i), true)) <$> seq 0 k) = []).
    { unfold all_held. clear Hlk. induction (seq 0 k) as [|j q IH]; cbn; [done|]. rewrite IH, app_nil_r. rewrite held_empty by done.
      cbn. by rewrite newLoop_notes. }
    rewrite E. constructor; cbn; [by apply base.NoDup_nil_2|by apply base.NoDup_nil_2|done
      |split; [unfold lnfds; cbn; set_solver|done]|done|done|by intros id; split; [eexists|]|done|done].
  - apply Forall_lookup. intros i [l b] (Hi & Hf & _ & Hlt)%Hlk. cbn. split; [intros j c; by rewrite Hf|].
    unfold CountOk. cbn. rewrite Hi, Hf. by rewrite lookup_replicate_2.
  - rewrite <- list_fmap_compose. erewrite (list_fmap_ext _ id) by done. rewrite list_fmap_id. apply NoDup_seq.
  - intros i l b H0. apply (Hlk _ _ _ H0).
  - intros i l b (_ & _ & -> & _)%Hlk. split; [|done]. split_and!; [constructor|cbn; lia|done].
  - by rewrite length_replicate, length_fmap, length_seq.
  - destruct (Tick events); [by eexists|done].
Qed.

(** ** Theorems *)

(** What a run says about a connection that is open. *)
Lemma conn_facts w i l b k c : WInv w → loops w !! i = Some (l, b) → fdconns l !! k = Some c →
  fd c = k ∧ k ∈ openfds (sh w) ∧ ConnOk (length (lns (sh w))) (trace (sh w)) c ∧
  ∃ m, interest (poll l) !! k = Some m ∧ (pending c → m = maskRW).
Proof.
  intros HI Hl Hk. destruct (world_loop w i l b HI Hl) as [(HG & HW & _) _]. destruct (HW _ _ Hk) as [Hf Hm].
  assert (Hin : c ∈ conns (fdconns l) ++ nconns (notes_of l) ++ all_held (delete i (loops w)) ++ []).
  { apply elem_of_app. left. apply elem_of_conns. eauto. }
  pose proof (g_open _ _ _ _ _ _ HG) as Ho. pose proof (g_ok _ _ _ _ _ _ HG) as Hc. rewrite list.Forall_forall in Ho, Hc.
  split_and!; [done|rewrite <- Hf; by apply Ho|by apply Hc|done].
Qed.
(** Different loops have different connections. *)
Lemma conn_apart w i j l1 b1 l2 b2 k : WInv w → loops w !! i = Some (l1, b1) → loops w !! j = Some (l2, b2) →
  is_Some (fdconns l1 !! k) → is_Some (fdconns l2 !! k) → i = j.
Proof.
  intros HI H1 H2 [c1 Hc1] [c2 Hc2]. destruct (decide (i = j)) as [|Hne]; [done|]. exfalso.
  destruct (world_loop w i l1 b1 HI H1) as [(HG & _ & _) _]. pose proof (g_fds _ _ _ _ _ _ HG) as Hn.
  destruct (conn_facts _ _ _ _ _ _ HI H1 Hc1) as (F1 & _). destruct (conn_facts _ _ _ _ _ _ HI H2 Hc2) as (F2 & _).
  rewrite fmap_app in Hn. apply list.NoDup_app in Hn as (_ & Hn & _). apply (Hn k).
  { rewrite <- F1. apply list_elem_of_fmap_2, elem_of_conns. eauto. }
  rewrite <- F2. apply list_elem_of_fmap_2, elem_of_app. right. rewrite app_nil_r. unfold all_held.
  assert (Hin : (l2, b2) ∈ delete i (loops w)).
  { apply list_elem_of_lookup_2 in H2 as Hin. rewrite (delete_Permutation _ _ _ H1) in Hin.
    apply elem_of_cons in Hin as [[= -> ->]|]; [|done]. exfalso. apply Hne. by rewrite <- (wi_pos _ HI _ _ _ H1), (wi_pos _ HI _ _ _ H2). }
  apply list_elem_of_In, in_concat. exists (held l2).
  split; apply list_elem_of_In; [apply list_elem_of_fmap; exists l2; split; [done|]; apply list_elem_of_fmap; by exists (l2, b2)|].
  unfold held. apply elem_of_app. left. apply elem_of_conns. eauto.
Qed.

(** C34: in any run of a server no handler waits for ever and each connection is opened at
    most once and before its data, ends at most once, and nothing happens to it after.
    The bytes that were written to it begin those that the user has answered, and for an
    open connection the rest is in its buffer; as long as there is something to write, to
    do or to open, its poll asks for it.  Two loops never have the same descriptor. *)
Theorem evio_connections n cpus lb ls wfd u (w0 w : world U) xs :
  serve events n cpus lb ls wfd u = Some w0 → run ifname events w0 xs w →
  stuck w ≠ Some SBlock ∧
  (∀ id, is_Some (stage id (trace (sh w))) ∧ written id (trace (sh w)) `prefix_of` replied id (trace (sh w))) ∧
  (∀ i l b k c, loops w !! i = Some (l, b) → fdconns l !! k = Some c →
     fd c = k ∧ k ∈ openfds (sh w) ∧ stage (cid c) (trace (sh w)) = Some (if opened c then SOpen else SNew) ∧
     written (cid c) (trace (sh w)) ++ out c = replied (cid c) (trace (sh w)) ∧
     ∃ m, interest (poll l) !! k = Some m ∧ (opened c = false ∨ out c ≠ [] ∨ action c ≠ None_ → m = maskRW)) ∧
  (∀ i j l1 b1 l2 b2 k, loops w !! i = Some (l1, b1) → loops w !! j = Some (l2, b2) →
     is_Some (fdconns l1 !! k) → is_Some (fdconns l2 !! k) → i = j).
Proof.
  intros H0 Hr. assert (HI : WInv w) by (eapply run_inv; [done|by eapply serve_inv]). split_and!.
  - apply HI.
  - apply (g_all _ _ _ _ _ _ (li_good _ _ _ _ (wi_loops _ HI))).
  - intros i l b k c Hl Hk. destruct (conn_facts _ _ _ _ _ _ HI Hl Hk) as (H1 & H2 & [H3 H4 _ _] & H5). by split_and!.
  - intros. by eapply conn_apart.
Qed.

(** The count of a loop is the number of its connections, less one for each that
    outConnect has ever handed to it. *)
Theorem evio_counts n cpus lb ls wfd u (w0 w : world U) xs i l b :
  serve events n cpus lb ls wfd u = Some w0 → run ifname events w0 xs w → loops w !! i = Some (l, b) →
  counts (sh w) !! i = Some (int32 (Z.of_nat (size (fdconns l)) - Z.of_nat (joins i (trace (sh w))))).
Proof.
  intros H0 Hr Hl. assert (HI : WInv w) by (eapply run_inv; [done|by eapply serve_inv]).
  destruct (world_loop w i l b HI Hl) as [(_ & _ & HC) _]. unfold CountOk in HC. cbn in HC. by rewrite (wi_pos _ HI _ _ _ Hl) in HC.
Qed.

(** When serve has returned all loops have ended, none has a connection, and every
    connection that was opened has ended. *)
Theorem evio_stopped n cpus lb ls wfd u (w0 w : world U) xs :
  serve events n cpus lb ls wfd u = Some w0 → run ifname events w0 xs w → main w = Stopped →
  (∀ i l b, loops w !! i = Some (l, b) → b = false ∧ fdconns l = ∅) ∧
  ∀ id, stage id (trace (sh w)) = Some SNew ∨ stage id (trace (sh w)) = Some SEnd.
Proof.
  intros H0 Hr Hm. assert (HI : WInv w) by (eapply run_inv; [done|by eapply serve_inv]).
  pose proof (wi_stop _ HI Hm) as Hst. split; [done|]. intros id. pose proof (li_good _ _ _ _ (wi_loops _ HI)) as HG.
  destruct (g_all _ _ _ _ _ _ HG id) as [[[] Hs] _]; [by left| |by right]. exfalso.
  pose proof (g_end _ _ _ _ _ _ HG id Hs) as Hin. rewrite app_nil_r in Hin. apply list_elem_of_fmap in Hin as (c & -> & Hin).
  pose proof (g_ok _ _ _ _ _ _ HG) as Hok. rewrite app_nil_r, list.Forall_forall in Hok. pose proof (co_stage _ _ _ (Hok c Hin)) as Hcs.
  apply list_elem_of_In, in_concat in Hin as (h & Hh & Hc). apply list_elem_of_In in Hh, Hc.
  apply list_elem_of_fmap in Hh as (l & -> & Hl). apply list_elem_of_fmap in Hl as ([l' b] & -> & Hl).
  apply list_elem_of_lookup_1 in Hl as [i Hl]. destruct (Hst _ _ _ Hl) as [_ He]. cbn in Hc. rewrite held_empty in Hc by done.
  destruct (wi_notes _ HI _ _ _ Hl) as [(Hf & _) _]. unfold fresh_notes in Hf. rewrite list.Forall_forall in Hf.
  rewrite (Hf c Hc), Hs in Hcs. done.
Qed.

(** ** Stopping *)

Lemma notes_end ns e ls : (ticks ns ≤ 1)%nat → (ticks ns = 1%nat → tch ls.2 = TkWait ∧ is_Some (Tick events)) →
  ∃ e' ls', each (λ x, iterNote events (Some x)) (ns ++ [NErr e]) ls = (Err (SErr e'), ls').
Proof.
  revert ls. induction ns as [|x ns IH]; intros [l s] Hle Ht; cbn [each app]; [by do 2 eexists|].
  destruct x as [c| |e1]; [| |by do 2 eexists].
  - rewrite (bind_ok _ _ _ tt (iterNote events (Some (NConn c)) (l, s)).2) by done. apply IH; done.
  - change (ticks (NTick :: ns)) with (S (ticks ns)) in *. destruct (Ht ltac:(lia)) as [Hw [f Hf]]. cbn in Hw.
    assert (Hn : ∃ ls', iterNote events (Some NTick) (l, s) = (Ok tt, ls') ∨ iterNote events (Some NTick) (l, s) = (Err (SErr errClosing), ls')).
    { cbn [iterNote loopNote]. rewrite Hf. destruct (f (user s)) as [[delay a] u] eqn:Ef.
      unfold call, emit, onS, sendDelay, getS, shutdownIf, mbind, stM_bind. rewrite Ef. cbn. rewrite Hw. destruct a; cbn; eauto. }
    destruct Hn as [ls' [Hn|Hn]].
    + rewrite (bind_ok _ _ _ _ _ Hn). apply IH; lia.
    + unfold mbind, stM_bind. rewrite Hn. eauto.
Qed.
(** A loop that has an error among its notes ends at its next round. *)
Definition doomed (l : loop) : Prop := ∃ ns e, notes_of l = ns ++ [NErr e] ∧ 0 < qn (notes (poll l)).
Lemma doomed_ends l s a : (∀ e, a ≠ EpErr e) → doomed l → notes_ok events (notes_of l) (tch s) →
  ∃ e ls', round ifname events a (l, s) = (Err (SErr e), ls').
Proof.
  intros Ha (ns & e & Hns & Hq) (_ & Hle & Ht). rewrite Hns in Hle, Ht. rewrite ticks_app, Nat.add_0_r in Hle, Ht.
  assert (Hh : ∀ es, ∃ e ls', handle ifname events es (l, s) = (Err (SErr e), ls')).
  { intros es. unfold handle, takeNotes, ForEach. unfold mbind at 1, stM_bind at 1. rewrite (proj2 (Z.eqb_neq _ _)) by lia.
    unfold notes_of in Hns. rewrite Hns, length_app, Nat.add_comm. cbn [Nat.eqb Nat.add length].
    destruct (notes_end ns e (set_poll (set_notes (mkQueue [] 0)) l, s) Hle Ht) as (e' & ls' & E).
    unfold mbind, stM_bind. rewrite E. eauto. }
  destruct a as [x| |es]; [by destruct (Ha x)|apply Hh..].
Qed.

Definition running (ls : list (loop * bool)) : nat := length (base.filter (λ lb, lb.2 = true) ls).
Lemma running_pos ls : running ls ≠ 0%nat → ∃ i l, ls !! i = Some (l, true).
Proof.
  unfold running. intros H. destruct (base.filter _ ls) as [|[l b] q] eqn:E; [done|].
  assert (Hin : (l, b) ∈ base.filter (λ lb : loop * bool, lb.2 = true) ls) by (rewrite E; by left).
  apply list_elem_of_filter in Hin as [Hb Hin]. cbn in Hb. subst. apply list_elem_of_lookup_1 in Hin as [i Hi]. eauto.
Qed.
Lemma running_end ls i l l' : ls !! i = Some (l, true) → running ls = S (running (<[i := (l', false)]> ls)).
Proof.
  intros Hl. assert (HP : base.filter (λ lb : loop * bool, lb.2 = true) (<[i := (l', false)]> ls) ≡ₚ
      base.filter (λ lb, lb.2 = true) (delete i ls)) by (by rewrite (insert_perm _ _ _ _ Hl)).
  unfold running. rewrite HP. rewrite (delete_Permutation _ _ _ Hl) at 1. by rewrite list.filter_cons_True.
Qed.
Lemma run_snoc w xs w1 x w2 : run ifname events w xs w1 → step ifname events w1 x = Some w2 → run ifname events w (xs ++ [x]) w2.
Proof. induction 1 as [w|w y w1 xs w' Hs Hr IH]; intros H; cbn; [by repeat econstructor|]. econstructor; [exact Hs|by apply IH]. Qed.
(** Once triggered, the loops end one after the other. *)
Lemma drain k w : running (loops w) = k → WInv w → main w = Triggered → stuck w = None →
  (∀ i l, loops w !! i = Some (l, true) → doomed l) →
  ∃ ys w', run ifname events w ys w' ∧ main w' = Triggered ∧ stuck w' = None ∧ running (loops w') = 0%nat ∧ length ys = k.
Proof.
  revert w. induction k as [|k IH]; intros w Hk HI Hm Hst Hd.
  { exists [], w. by split_and!; [constructor|..]. }
  destruct (running_pos (loops w)) as (i & l & Hl); [lia|]. destruct (wi_notes _ HI _ _ _ Hl) as [Hn _].
  destruct (doomed_ends l (sh w) EpIntr ltac:(done) (Hd _ _ Hl) Hn) as (e & [l' s'] & Er).
  assert (Hs : step ifname events w (ARound i EpIntr) = Some (mkWorld (<[i := (l', false)]> (loops w)) s' Triggered None)).
  { unfold step. rewrite Hst. unfold loopRound. rewrite Hl, Er, Hm. by rewrite Hst. }
  destruct (IH (mkWorld (<[i := (l', false)]> (loops w)) s' Triggered None)) as (ys & w' & Hr & H1 & H2 & H3 & H4); try done.
  - cbn [loops]. rewrite (running_end _ _ _ l' Hl) in Hk. lia.
  - by eapply step_inv.
  - intros j l0. cbn. intros [(_ & [=] & _)|[_ H0]]%list_lookup_insert_Some. by eapply Hd.
  - exists (ARound i EpIntr :: ys), w'. split_and!; [by econstructor|done..|]. cbn. lia.
Qed.
Lemma covers_keys ls : covers ((λ lb : loop * bool, elements (dom (fdconns lb.1))) <$> ls) ls = true.
Proof.
  unfold covers. rewrite length_fmap, Nat.eqb_refl. cbn. induction ls as [|[l b] ls IH]; cbn; [done|]. rewrite IH.
  rewrite bool_decide_eq_true_2; [done|]. by rewrite list_to_set_elements.
Qed.
(** A server whose loops have given the signal can always stop: each loop ends at its
    next round, whatever is in its queue before, and then serve closes the connections. *)
Theorem evio_stops n cpus lb ls wfd u (w0 w : world U) xs :
  serve events n cpus lb ls wfd u = Some w0 → run ifname events w0 xs w → main w = Woken → stuck w = None →
  (∀ i l b, loops w !! i = Some (l, b) → 0 ≤ qn (notes (poll l)) < 2 ^ 63 - 1) →
  ∃ ys w', run ifname events w ys w' ∧ main w' = Stopped ∧ (length ys ≤ length (loops w) + 2)%nat.
Proof.
  intros H0 Hr Hm Hst Hq. assert (HI : WInv w) by (eapply run_inv; [done|by eapply serve_inv]).
  set (w1 := mkWorld (prod_map (set_poll (Trigger (NErr errClosing))) id <$> loops w) (sh w) Triggered (stuck w)).
  assert (Hs1 : step ifname events w ATrigger = Some w1) by (unfold w1, step; by rewrite Hst, Hm).
  assert (HI1 : WInv w1) by (by eapply step_inv).
  destruct (drain (running (loops w1)) w1 eq_refl HI1 eq_refl Hst) as (ys & w2 & Hr2 & Hm2 & Hst2 & Hz & Hlen).
  { intros i l. cbn. rewrite list_lookup_fmap_Some. intros ([l0 b] & [= -> <-] & Hl0). apply Hq in Hl0 as Hq0.
    exists (notes_of l0), errClosing. split; [done|].
    assert (H63 : 2 ^ 63 = 9223372036854775808) by done. change (0 < int64 (qn (notes (poll l0)) + 1)). rewrite int64_small; lia. }
  assert (Hfin : step ifname events w2 (AFinish ((λ lb, elements (dom (fdconns lb.1))) <$> loops w2)) =
    Some (let '(ls', s) := closeLoops events ((λ lb, elements (dom (fdconns lb.1))) <$> loops w2) (loops w2) (sh w2) in
          mkWorld ls' (set_openfds (openfds s ∖ list_to_set (lfd <$> lns s)) s) Stopped (stuck w2))).
  { unfold step. rewrite Hst2, Hm2, covers_keys, andb_true_r. rewrite (proj2 (forallb_forall _ _)).
    - destruct (closeLoops _ _ _ _). done.
    - intros [l b] Hin%list_elem_of_In. cbn. destruct b; [exfalso|done]. unfold running in Hz. apply nil_length_inv in Hz.
      assert (Hf : (l, true) ∈ base.filter (λ lb : loop * bool, lb.2 = true) (loops w2)) by (by apply list_elem_of_filter).
      rewrite Hz in Hf. by apply not_elem_of_nil in Hf. }
  destruct (closeLoops _ _ _ _) as [ls' s'] in Hfin. eexists (ATrigger :: ys ++ [_]), _. split_and!.
  - econstructor; [exact Hs1|by eapply run_snoc].
  - done.
  - cbn. rewrite length_app, Hlen. cbn. assert (running (loops w1) ≤ length (loops w1))%nat by apply length_filter.
    unfold w1 in H at 2. cbn in H. rewrite length_fmap in H. lia.
Qed.

(** Neither the ticker nor outConnect ends or starts a loop, or wakes serve. *)
Definition flags (w : world U) : list bool * phase := ((loops w).*2, main w).
Lemma insert_flags (ls : list (loop * bool)) i l l' b : ls !! i = Some (l, b) → (<[i := (l', b)]> ls).*2 = ls.*2.
Proof. intros H. rewrite list_fmap_insert. cbn. apply list_insert_id. by rewrite list_lookup_fmap, H. Qed.
Lemma tick_flags w w' : loopTicker w = Some w' → flags w' = flags w.
Proof.
  unfold loopTicker. destruct (tch (sh w)); [|done..]. destruct (loops w !! 0%nat) as [[l b]|] eqn:El; [|done].
  destruct (pollOpen _); intros [= <-]; unfold flags; cbn; [by erewrite insert_flags|done].
Qed.
Lemma outConnect_flags w hint ip port e rnd : flags (outConnect hint ip port e rnd w) = flags w.
Proof.
  unfold outConnect. destruct e; [done|]. destruct (chooseLoop _ _) as [i s'].
  destruct (if i <? 0 then None else loops w !! Z.to_nat i) as [[l b]|] eqn:El; [|done].
  assert (El' : loops w !! Z.to_nat i = Some (l, b)) by (by destruct (i <? 0)). unfold flags. cbn. by erewrite insert_flags.
Qed.
Lemma asleep_step w x w' : Forall (λ b, b = false) (flags w).1 → main w = Started ∨ main w = Waiting →
  step ifname events w x = Some w' → Forall (λ b, b = false) (flags w').1 ∧ (main w' = Started ∨ main w' = Waiting).
Proof.
  intros Hb Hm Hs. assert (Hx : flags w' = flags w ∨ (loops w' = loops w ∧ main w' = Waiting)).
  { unfold step in Hs. destruct x as [|i a| |hint ip port e rnd| |orders].
    - destruct (stuck w) as [[]|], (main w); try done; injection Hs as <-; by right.
    - exfalso. unfold loopRound in Hs. destruct (loops w !! i) as [[l []]|] eqn:El; [|by destruct (stuck w) as [[]|]..].
      rewrite list.Forall_forall in Hb. specialize (Hb true). cbn in Hb. by assert (true = false) by
        (apply Hb, list_elem_of_fmap; exists (l, true); split; [done|by eapply list_elem_of_lookup_2]).
    - left. by destruct (stuck w) as [[]|]; [apply tick_flags|..|apply tick_flags|apply tick_flags].
    - left. destruct (stuck w) as [[]|]; try done; injection Hs as <-; apply outConnect_flags.
    - by destruct (stuck w) as [[]|], Hm as [E|E]; rewrite ?E in Hs.
    - by destruct (stuck w) as [[]|], Hm as [E|E]; rewrite ?E in Hs. }
  destruct Hx as [E|[E1 E2]]; [injection E as E1 E2|]; cbn in *; rewrite E1, E2; auto.
Qed.
(** A signal that comes before serve waits is lost: when all loops have ended by then,
    serve waits for ever. *)
Theorem signal_lost (w w' : world U) ys : Forall (λ b, b = false) (loops w).*2 →
  main w = Started ∨ main w = Waiting → run ifname events w ys w' → main w' = Started ∨ main w' = Waiting.
Proof.
  intros Hb Hm Hr. induction Hr as [w|w x w1 ys w' Hs Hr IH]; [done|].
  destruct (asleep_step w x w1 Hb Hm Hs) as [H1 H2]. by apply IH.
Qed.

(** ** Actions *)

Definition writes (id : nat) (bs_ : list bytes) (s : shared U) : shared U := foldl (λ s b, log (TWrite id b) s) s bs_.
Lemma write_event k e l s c : fdconns l !! k = Some c → fd c = k → opened c = true → action c ≠ None_ → k ≠ 0 →
  k ≠ wfd (poll l) → efd e = k → 0 < Z.land (emask e) EPOLLOUT →
  (match write e with WErr x => x = EAGAIN | WOk _ => True end) → ∃ o bs_,
  onEvent ifname events e (l, s) = (Ok tt, (set_fdconns <[k := set_out o c]> l, writes (cid c) bs_ s)) ∧ concat bs_ ++ o = out c.
Proof.
  intros Hk Hf Ho Ha H0 Hw He Hm Hwr. unfold onEvent. rewrite (bind_ok _ _ _ (l, s) (l, s)) by done. cbv beta iota zeta.
  rewrite He, (proj2 (Z.eqb_neq _ _) Hw). cbn [negb]. unfold iter. rewrite He, (proj2 (Z.eqb_neq _ _) H0).
  rewrite (bind_ok _ _ _ (l, s) (l, s)) by done. cbv beta iota zeta. rewrite Hk, Ho. cbn [negb].
  assert (Hev : Z.land (pollEvent (emask e)) PollEvent_Write =? 0 = false).
  { unfold pollEvent. rewrite (proj2 (Z.ltb_lt _ _) Hm). by destruct (0 <? Z.land (emask e) EPOLLIN). }
  rewrite Hev. cbn [negb]. unfold loopWrite. destruct (write e) as [n|x].
  - exists (drop n (out c)), [take n (out c)]. split; [|cbn; by rewrite app_nil_r, take_drop].
    set (c' := set_out (drop n (out c)) c).
    assert (Hd : ∀ p, doneMask c' p = p).
    { intros p. unfold doneMask. rewrite (bool_decide_eq_false_2 (action c' = None_)) by done. by rewrite andb_false_r. }
    unfold mbind, stM_bind, emit, onS, putConn, onL. rewrite modReadIfDone_eq. cbn [mret stM_ret negb].
    do 2 f_equal. unfold set_poll. rewrite Hd. change (fd c') with (fd c). by rewrite Hf.
  - exists (out c), []. split; [|done]. subst x. rewrite bool_decide_eq_true_2 by done. cbn. do 2 f_equal.
    assert (set_out (out c) c = c) as -> by (by destruct c). unfold set_fdconns. rewrite insert_id by done. by destruct l.
Qed.
(** As long as its socket takes data, the action of a connection is not carried out, and
    nothing is read from it: each event is spent on a write, of nothing when all has been
    written.  An event that does not offer a write carries it out. *)
Theorem action_waits k es l s c : fdconns l !! k = Some c → fd c = k → opened c = true → action c ≠ None_ →
  k ≠ 0 → k ≠ wfd (poll l) →
  (Forall (λ e, efd e = k ∧ 0 < Z.land (emask e) EPOLLOUT ∧ match write e with WErr x => x = EAGAIN | WOk _ => True end) es →
   ∃ o bs_, each (onEvent ifname events) es (l, s) = (Ok tt, (set_fdconns <[k := set_out o c]> l, writes (cid c) bs_ s)) ∧
     concat bs_ ++ o = out c) ∧
  (∀ e, efd e = k → Z.land (emask e) EPOLLOUT = 0 → action c = Close →
   onEvent ifname events e (l, s) = loopCloseConn events c None (l, s)).
Proof.
  intros Hk Hf Ho Ha H0 Hw. split.
  - intros Hes. revert l s c Hk Hf Ho Ha Hw. induction Hes as [|e es (He & Hm & Hwr) _ IH]; intros l s c Hk Hf Ho Ha Hw.
    { exists (out c), []. split; [|done]. cbn. do 2 f_equal. assert (set_out (out c) c = c) as -> by (by destruct c).
      unfold set_fdconns. rewrite insert_id by done. by destruct l. }
    destruct (write_event k e l s c Hk Hf Ho Ha H0 Hw He Hm Hwr) as (o & bs1 & E1 & B1). cbn [each]. rewrite (bind_ok _ _ _ _ _ E1).
    destruct (IH (set_fdconns <[k := set_out o c]> l) (writes (cid c) bs1 s) (set_out o c)) as (o2 & bs2 & E2 & B2);
      [apply lookup_insert_eq|done..|]. rewrite E2. exists o2, (bs1 ++ bs2). split.
    + do 2 f_equal; [|unfold writes; by rewrite foldl_app]. unfold set_fdconns. cbn. by rewrite insert_insert_eq.
    + rewrite concat_app, <- app_assoc, B2. done.
  - intros e He Hm Hc. unfold onEvent. rewrite (bind_ok _ _ _ (l, s) (l, s)) by done. cbv beta iota zeta.
    rewrite He, (proj2 (Z.eqb_neq _ _) Hw). cbn [negb]. unfold iter. rewrite He, (proj2 (Z.eqb_neq _ _) H0).
    rewrite (bind_ok _ _ _ (l, s) (l, s)) by done. cbv beta iota zeta. rewrite Hk, Ho. cbn [negb].
    assert (Hev : Z.land (pollEvent (emask e)) PollEvent_Write =? 0 = true).
    { unfold pollEvent. rewrite Hm. cbn [Z.ltb Z.compare]. by destruct (0 <? Z.land (emask e) EPOLLIN). }
    rewrite Hev, Hc. cbn [negb]. rewrite bool_decide_eq_false_2 by done. cbn [negb]. unfold loopAction. by rewrite Hc.
Qed.
End worlds.

(** ** Which loop takes a connection *)

Section balance.
Context {U : Type}.
Implicit Types (s : shared U).

(** By round robin exactly one of the loops takes the next connection, and the next loop
    the one after it; by least connections those that no other loop has fewer than. *)
Theorem takes_turns s (l : nat → loop) : (1 < length (counts s))%nat → (∀ i, idx (l i) = i) →
  (balance s = RoundRobin → 0 ≤ accepted s < 2 ^ 63 - 1 →
    ∀ i, (i < length (counts s))%nat →
      ((takes (l i) s).1 = true ↔ Z.of_nat i = accepted s mod zlen (counts s)) ∧
      ((takes (l i) s).1 = true → accepted (takes (l i) s).2 = accepted s + 1) ∧
      ((takes (l i) s).1 = false → (takes (l i) s).2 = s)) ∧
  (balance s = LeastConnections → ∀ i n, counts s !! i = Some n →
    ((takes (l i) s).1 = true ↔ ∀ j m, counts s !! j = Some m → n ≤ m)).
Proof.
  intros Hn Hl. apply Nat.ltb_lt in Hn as Hb. split.
  - intros Hr Ha i Hi. unfold takes. rewrite Hb, Hr, Hl. assert (H63 : 2 ^ 63 = 9223372036854775808) by done.
    rewrite int64_small by lia. rewrite Z.rem_mod_nonneg by (unfold zlen; lia).
    destruct (Z.eqb_spec (accepted s mod zlen (counts s)) (Z.of_nat i)) as [E|E]; cbn [fst snd].
    + split_and!; [done| |done]. intros _. cbn. unfold uint64, wrapU. apply Z.mod_small. lia.
    + split_and!; [|done|done]. split; [done|]. congruence.
  - intros Hr i n Hi. unfold takes. rewrite Hb, Hr, Hl, Hi. cbn [default fst]. rewrite forallb_forall. split.
    + intros H j m Hj. specialize (H (j, m)). destruct (decide (j = i)) as [->|Hne]; [rewrite Hj in Hi; injection Hi; lia|].
      cbn in H. rewrite (proj2 (Nat.eqb_neq _ _) Hne) in H. cbn in H. apply negb_true_iff, Z.ltb_ge in H; [done|].
      apply list_elem_of_In, list_elem_of_lookup_2 with j. by rewrite list_lookup_imap, Hj.
    + intros H [j m] Hin%list_elem_of_In. apply list_elem_of_lookup_1 in Hin as [j' Hj']. rewrite list_lookup_imap in Hj'.
      destruct (counts s !! j') as [m'|] eqn:Em; [|done]. injection Hj' as <- <-. cbn. apply H in Em.
      apply orb_true_iff. right. apply negb_true_iff, Z.ltb_ge. lia.
Qed.
End balance.

(** ** Addresses and streams *)

Lemma scheme_index n a : ":"%byte ∉ n → Index (n ++ bs "://" ++ a) (bs "://") = Some (length n).
Proof.
  induction n as [|x n IH]; intros Hn; [done|]. apply not_elem_of_cons in Hn as [Hx Hn].
  cbn [app Index]. assert (HasPrefix (x :: n ++ bs "://" ++ a) (bs "://") = false) as ->; [|by rewrite IH].
  cbn. by rewrite bool_decide_eq_false_2.
Qed.
Definition net_of (n : bytes) : bytes * bool :=
  if HasSuffix n (bs "-net") then (take (length n - 4) n, true) else (n, false).

(** How an address is taken apart: without a scheme it is tcp; a network that ends in
    -net asks for the standard library; reuseport is taken from the first letter of its
    value. *)
Theorem parse_addr (n a v : bytes) : ":"%byte ∉ n → Index a (bs "://") = None → "?"%byte ∉ a →
  parseAddr a = (bs "tcp", a, false, false) ∧
  parseAddr (n ++ bs "://" ++ a) = ((net_of n).1, a, false, (net_of n).2) ∧
  (Index (a ++ bs "?reuseport=" ++ v) (bs "://") = None → "="%byte ∉ v → "&"%byte ∉ v →
   parseAddr (n ++ bs "://" ++ a ++ bs "?reuseport=" ++ v) = ((net_of n).1, a, truthy v false, (net_of n).2)).
Proof.
  intros Hn Ha Hq.
  assert (Hs : ∀ x, Index x (bs "://") = None → Split01 (n ++ bs "://" ++ x) (bs "://") = (n, x)).
  { intros x Hx. unfold Split01. rewrite scheme_index by done.
    assert (drop (length n + length (bs "://")) (n ++ bs "://" ++ x) = x) as ->
      by (rewrite <- drop_drop, drop_app_length; done). by rewrite Hx, take_app_length. }
  split_and!.
  - unfold parseAddr. by rewrite Ha, (proj2 (IndexByte_None _ _) Hq).
  - unfold parseAddr, net_of. rewrite scheme_index, Hs, (proj2 (IndexByte_None _ _) Hq) by done. by destruct (HasSuffix n (bs "-net")).
  - intros Hx He Hv. unfold parseAddr, net_of. rewrite scheme_index, Hs by done.
    change (bs "?reuseport=" ++ v) with ("?"%byte :: bs "reuseport=" ++ v). rewrite IndexByte_app by done.
    rewrite take_app_length. assert (drop (S (length a)) (a ++ "?"%byte :: bs "reuseport=" ++ v) = bs "reuseport=" ++ v) as ->.
    { change (a ++ "?"%byte :: bs "reuseport=" ++ v) with (a ++ [ "?"%byte ] ++ bs "reuseport=" ++ v). rewrite app_assoc.
      replace (S (length a)) with (length (a ++ [ "?"%byte ])) by (rewrite length_app; cbn; lia). by rewrite drop_app_length. }
    rewrite Split_none by (apply not_elem_of_app; split; [by apply (bool_decide_eq_true_1 _); vm_compute|done]).
    change (bs "reuseport=" ++ v) with (bs "reuseport" ++ "="%byte :: v). cbn [parse_opts].
    rewrite Split_app by (apply (bool_decide_eq_true_1 _); vm_compute; done). rewrite Split_none by done.
    rewrite bool_decide_eq_true_2 by done. by destruct (HasSuffix n (bs "-net")).
Qed.

(** A function Data that takes what it can of each packet. *)
Fixpoint stream (b : bytes) (packets : list (bytes * nat)) : list bytes * bytes :=
  match packets with
  | [] => ([], b)
  | (p, n) :: packets =>
      let '(data, b) := Begin b p in
      let '(taken, b) := stream (End_ (drop n data) b) packets in
      (take n data :: taken, b)
  end.
(** Nothing of an input stream is lost, doubled or reordered: what is taken and what is
    left is what was there and has come. *)
Theorem stream_keeps (b : bytes) (packets : list (bytes * nat)) :
  let '(taken, rest) := stream b packets in concat taken ++ rest = b ++ concat packets.*1.
Proof.
  revert b. induction packets as [|[p n] packets IH]; intros b; cbn; [by rewrite app_nil_r|].
  assert (Hb : ∃ b', Begin b p = (b ++ p, b') ∧ (0 < length b' → b ≠ [])%nat).
  { unfold Begin. destruct b; cbn; eexists; (split; [done|]); cbn; [lia|done]. }
  destruct Hb as (b' & -> & _). specialize (IH (End_ (drop n (b ++ p)) b')).
  assert (He : End_ (drop n (b ++ p)) b' = drop n (b ++ p) ∨ (drop n (b ++ p) = [] ∧ End_ (drop n (b ++ p)) b' = [])).
  { unfold End_. destruct (drop n (b ++ p)) eqn:E; cbn; [|by left]. right. split; [done|]. by destruct b'. }
  assert (He' : End_ (drop n (b ++ p)) b' = drop n (b ++ p)) by (destruct He as [|[-> ->]]; done). rewrite He' in *.
  destruct (stream (drop n (b ++ p)) packets) as [taken rest]. cbn. by rewrite <- app_assoc, IH, app_assoc, take_drop, app_assoc.
Qed.

Definition taking (script : list (nat + err)) : nat :=
  length (List.filter (λ x, match x with inl n => (0 <? n)%nat | inr _ => false end) script).
(** Send writes from the front of the data, all of it when it returns without an error,
    and tries again as long as the system asks it to: it ends well when the system takes
    something often enough. *)
Theorem send_writes (script : list (nat + err)) (data : bytes) :
  let '(r, w) := Send script data in
  w `prefix_of` data ∧ (r = Some None → w = data) ∧ r ≠ Some (Some EAGAIN) ∧
  ((length data ≤ taking script)%nat → Forall (λ x, match x with inr e => e = EAGAIN | _ => True end) script → r = Some None).
Proof.
  revert data. induction script as [|[n|e] script IH]; intros [|x data]; cbn [Send].
  1,3,5: by split_and!.
  - split_and!; [by eexists|done|done|]. cbn. lia.
  - specialize (IH (drop n (x :: data))). destruct (Send script (drop n (x :: data))) as [r w]. destruct IH as ((q & Hq) & H2 & H3 & H4).
    split_and!; [|intros E; rewrite (H2 E); apply take_drop|done|].
    + exists q. by rewrite <- app_assoc, <- Hq, take_drop.
    + intros Hl [_ Hf]%list.Forall_cons. apply H4; [|done]. unfold taking in *. cbn in Hl. rewrite length_drop. cbn.
      destruct n; cbn in *; lia.
  - case_bool_decide as He.
    + specialize (IH (x :: data)). destruct (Send script (x :: data)) as [r w]. destruct IH as (H1 & H2 & H3 & H4).
      split_and!; [done..|]. intros Hl [_ Hf]%list.Forall_cons. by apply H4.
    + split_and!; [by eexists|done|congruence|]. intros _ [E _]%list.Forall_cons. done.
Qed.

(** ** Examples *)
Module evio_example.

Fixpoint exec {U} ifname (events : Events U) (w : world U) (xs : list act) : option (world U) :=
  match xs with
  | [] => Some w
  | x :: xs => w ← step ifname events w x; exec ifname events w xs
  end.
Lemma exec_run {U} ifname (events : Events U) w xs w' : exec ifname events w xs = Some w' → run ifname events w xs w'.
Proof.
  revert w. induction xs as [|x xs IH]; intros w; cbn; [intros [= <-]; constructor|].
  destruct (step ifname events w x) as [w1|] eqn:E; [|done]. intros H. by econstructor; [exact E|apply IH].
Qed.

(** An echo that shuts the server down at a quit and closes the connection at a bye. *)
Definition echo : Events nat := mkEvents None
  (Some (λ _ u, (bs "hello", mkOptions 0 false, None_, S u))) None None
  (Some (λ _ b u, if b =b bs "quit" then ([], Shutdown, u) else if b =b bs "bye" then ([], Close, u) else (b, None_, u))) None.
Definition noif : Z → option bytes := λ _, None.
Definition ln : listener := mkListener 3 false true (TCPAddr (bs "0000") 80 []) (bs "tcp") (bs ":80").
Definition peer : Sockaddr := SockaddrInet4 (bs "1234") 5.
Definition w0 : world nat := default (mkWorld [] (mkShared [] RoundRobin [] 0 ∅ 0 0%nat TkOff []) Started None)
  (serve echo 1 4 RoundRobin [ln] (λ i, 10 + Z.of_nat i) 0%nat).
Definition at_ (k mask : Z) (rs : list rd) : act :=
  ARound 0 (EpOk [mkEvt k mask rs (WOk 100) (AccOk 7 peer None) None None]).
(** Accepted, opened, greeted; a message, its echo. *)
Definition chat : list act := [AWait; at_ 3 1 []; at_ 7 5 []; at_ 7 5 []; at_ 7 1 [RData (bs "hi")]].
Definition w1 : world nat := default w0 (exec noif echo w0 chat).
Definition w2 : world nat := default w0 (exec noif echo w0 (chat ++ [at_ 7 5 []; at_ 7 1 [RData (bs "quit")]; at_ 7 1 []])).
Definition w3 : world nat := default w0 (exec noif echo w2 [ATrigger; AFinish [[7]]]).

Example chat_trace : trace (sh w1) = [TAccept 0 0; TOpened 0 (bs "hello"); TWrite 0 (bs "hello"); TData 0 (bs "hi") (bs "hi")].
Proof. vm_compute. reflexivity. Qed.
(** After the quit the action was done because no write was offered. *)
Example quit_woken : main w2 = Woken ∧ main w3 = Stopped ∧
  stage 0 (trace (sh w3)) = Some SEnd ∧ written 0 (trace (sh w3)) = bs "hellohi".
Proof. vm_compute. auto. Qed.

Lemma started : serve echo 1 4 RoundRobin [ln] (λ i, 10 + Z.of_nat i) 0%nat = Some w0.
Proof. reflexivity. Defined.
Lemma evio_connections_witness : written 0 (trace (sh w1)) `prefix_of` replied 0 (trace (sh w1)).
Proof.
  refine (proj2 (proj1 (proj2 (evio_connections noif echo 1 4 RoundRobin [ln] (λ i, 10 + Z.of_nat i) 0%nat w0 w1 chat started _)) 0%nat)).
  apply exec_run. vm_compute. reflexivity.
Defined.
Lemma evio_counts_witness : counts (sh w1) !! 0%nat = Some 1.
Proof.
  refine (eq_trans (evio_counts noif echo 1 4 RoundRobin [ln] (λ i, 10 + Z.of_nat i) 0%nat w0 w1 chat 0
    (default (newLoop [] 0 0) (fst <$> loops w1 !! 0%nat)) true started _ _) _).
  - apply exec_run. vm_compute. reflexivity.
  - vm_compute. reflexivity.
  - vm_compute. reflexivity.
Defined.
Lemma evio_stopped_witness : ∀ id, stage id (trace (sh w3)) = Some SNew ∨ stage id (trace (sh w3)) = Some SEnd.
Proof.
  refine (proj2 (evio_stopped noif echo 1 4 RoundRobin [ln] (λ i, 10 + Z.of_nat i) 0%nat w0 w3
    (chat ++ [at_ 7 5 []; at_ 7 1 [RData (bs "quit")]; at_ 7 1 []; ATrigger; AFinish [[7]]]) started _ _)).
  - apply exec_run. vm_compute. reflexivity.
  - vm_compute. reflexivity.
Defined.
Lemma evio_stops_witness : ∃ ys w', run noif echo w2 ys w' ∧ main w' = Stopped ∧ (length ys ≤ 3)%nat.
Proof.
  refine (evio_stops noif echo 1 4 RoundRobin [ln] (λ i, 10 + Z.of_nat i) 0%nat w0 w2
    (chat ++ [at_ 7 5 []; at_ 7 1 [RData (bs "quit")]; at_ 7 1 []]) started _ _ _ _).
  - apply exec_run. vm_compute. reflexivity.
  - vm_compute. reflexivity.
  - vm_compute. reflexivity.
  - assert (H : forallb (λ lb, (0 <=? qn (notes (poll lb.1))) && (qn (notes (poll lb.1)) <? 2 ^ 63 - 1)) (loops w2) = true)
      by (vm_compute; reflexivity).
    intros i l b Hl. apply list_elem_of_lookup_2, list_elem_of_In, (proj1 (forallb_forall _ _) H) in Hl.
    apply andb_true_iff in Hl as [H1%Z.leb_le H2%Z.ltb_lt]. by split.
Defined.

(** The same quit before serve waits. *)
Definition w4 : world nat := default w0 (exec noif echo w0
  [at_ 3 1 []; at_ 7 5 []; at_ 7 5 []; at_ 7 1 [RData (bs "quit")]; at_ 7 1 []]).
Lemma signal_lost_witness : main w4 = Started ∧ ∀ ys w', run noif echo w4 ys w' → main w' = Started ∨ main w' = Waiting.
Proof.
  split; [vm_compute; reflexivity|]. intros ys w'. apply (signal_lost noif echo w4 w' ys); [|left]; vm_compute; [|reflexivity].
  by repeat constructor.
Defined.
(** A bye is not heard while the socket takes data. *)
Definition w5 : world nat := default w0 (exec noif echo w1 [at_ 7 5 []; at_ 7 1 [RData (bs "bye")]]).
Definition l5 : loop := default (newLoop [] 0 0) (fst <$> loops w5 !! 0%nat).
Definition c5 : conn := default (newConn 0 0 0 peer) (fdconns l5 !! 7).
Definition writable : evt := mkEvt 7 5 [] (WOk 100) (AccErr EAGAIN) None None.
Lemma action_waits_witness : action c5 = Close ∧ ∃ o bs_, each (onEvent noif echo) [writable; writable] (l5, sh w5) =
  (Ok tt, (set_fdconns <[7 := set_out o c5]> l5, writes (cid c5) bs_ (sh w5))) ∧ concat bs_ ++ o = out c5.
Proof.
  split; [vm_compute; reflexivity|].
  refine (proj1 (action_waits noif echo 7 [writable; writable] l5 (sh w5) c5 _ _ _ _ _ _) _); try (vm_compute; reflexivity).
  - vm_compute. discriminate.
  - discriminate.
  - vm_compute. discriminate.
  - by repeat constructor.
Defined.
Definition two : shared nat := mkShared [] RoundRobin [0; 0] 5 ∅ 0 0%nat TkOff [].
Lemma takes_turns_witness : (takes (newLoop [] 1 0) two).1 = true ↔ Z.of_nat 1 = accepted two mod zlen (counts two).
Proof.
  refine (proj1 (proj1 (takes_turns two (λ i, newLoop [] i 0) _ _) eq_refl _ 1%nat _)).
  - apply Nat.ltb_lt. reflexivity.
  - reflexivity.
  - split; [discriminate|reflexivity].
  - apply Nat.ltb_lt. reflexivity.
Defined.
Lemma parse_addr_witness : parseAddr (bs "tcp-net" ++ bs "://" ++ bs "127.0.0.1:80" ++ bs "?reuseport=" ++ bs "true") =
  (bs "tcp", bs "127.0.0.1:80", true, true).
Proof.
  refine (proj2 (proj2 (parse_addr (bs "tcp-net") (bs "127.0.0.1:80") (bs "true") _ _ _)) _ _ _);
    solve [vm_compute; reflexivity|apply (bool_decide_eq_true_1 _); vm_compute; reflexivity].
Defined.

(** A connection that outConnect has made leaves the count at -1 when it closes. *)
Example count_below : counts (sh (default w0 (exec noif echo w0
  [AConnect 8 (bs "1234") 80 None 0; ARound 0 EpIntr; at_ 8 5 []; at_ 8 5 []; at_ 8 1 [RData []]]))) = [-1].
Proof. vm_compute. reflexivity. Qed.
(** The descriptor of a listener is closed twice. *)
Example listener_closed_twice : listener_close ln = [SysClose 3; FileClose 3; LnClose].
Proof. vm_compute. reflexivity. Qed.
End evio_example.
